(* ===== verification/_CoqProject ===== *)
-Q . S2P
Prelude.v
ClxCodec.v
ClxFrame.v
Seccomp.v
SeccompVerify.v
SeccompChain.v
Task.v
TimerHeap.v
HeapTheory.v
TimerTheory.v
Park.v
ParkTheory.v
ParkExpiry.v
ParkProtocol.v
HandleTable.v
HandleTheory.v
HandleOps.v
HandleSweep.v
HandleClaims.v
FileLocks.v
LockTheory.v
LockClaims.v
SysvSem.v
SemTheory.v
SemClaims.v
HandleRegistry.v
RegistryTheory.v
AlarmScan.v
AlarmTheory.v
Frame.v
FrameTheory.v
FrameOps.v
FrameBoot.v
FrameSys.v
FrameClaims.v
Pipe.v
PipeTheory.v
PipeClaims.v
AddrSpace.v
AddrTheory.v
AddrOps.v
AddrView.v
AddrUnmap.v
AddrProtect.v
AddrMap.v
AddrRefs.v
AddrHist.v
AddrClaims.v
AddrLimits.v
Memory.v
CString.v
CStringTheory.v
Printf.v
PrintfTheory.v
LibClaims.v
