(* ===== verification/Prelude.v ===== *)
(** * A20OS kernel: a verification development

    A20OS is a hybrid kernel in C.  This library models parts of it that are
    plain algorithms over explicit state, and proves what those parts promise
    to the rest of the kernel.

    ** The parts and where they are

    - The cluster transport's wire format.  [ClxCodec] is kernel/cluster/uart.h:
      little-endian accessors, CRC16-CCITT, FNV-1a, frame and HELLO builders,
      the SLIP encoder and the byte-at-a-time SLIP decoder, the frame screen.
      [ClxFrame] is kernel/cluster/frame.c: the 32-byte header, the encoder and
      the decoder with its order of decisions, on top of the codec.
    - System call filtering.  [Seccomp] is kernel/ipc/seccomp.c: the classic-BPF
      verifier and interpreter, filters as reference-counted heap cells, install,
      inherit, release, evaluation and the gate.  [SeccompVerify] relates the
      verifier to a machine without run-time checks.  [SeccompChain] has the
      transition system of tasks that fork, install, exit and release, and its
      theorems.
    - Timers and sleeping.  [Task] holds the task fields the next files use and
      proc_get/proc_put; [TimerHeap] is kernel/proc/timer_heap.c, one heap
      algorithm over a type class of entries with the wait-timer and the alarm
      heap as instances; [HeapTheory] and [TimerTheory] prove it.  [AlarmScan] is
      the same file's scan that sends SIGALRM and re-arms interval timers;
      [AlarmTheory] proves it.  [Park] is
      kernel/proc/park.c (prepare, commit, cancel, finish, wake, donate, wake
      queues) with the runqueue insertion and the debug assertion of sched.c and
      the expiry pass;
      [ParkTheory], [ParkExpiry] and [ParkProtocol] prove it as a transition
      system with an environment.
    - Native capabilities.  [HandleTable] is kernel/abi/native/handle_table.c:
      one process's table of handles with its slot bitmap, rights, temporal
      limits, labels, reservations, sweeper and signals.  [HandleTheory]
      (slots and invariant), [HandleOps] (each operation), [HandleSweep]
      (sweeping and destruction) and [HandleClaims] (histories) prove it.
      [HandleRegistry] has the tables as shared objects: reference counts
      (include/core/refcount.h), the registry list, creation, destruction and
      the sweep of all tables; [RegistryTheory] proves it for all interleavings
      of threads.
    - File locks.  [FileLocks] is kernel/fs/locks.c: record locks with their
      range algebra, BSD locks, waiting with retries, release.  [LockTheory] and
      [LockClaims] prove it.
    - System V semaphores.  [SysvSem] is kernel/ipc/sysv_sem.c: semget, semctl,
      the test and the application of an array of operations, and the waiting
      loop of semtimedop.  [SemTheory] and [SemClaims] prove it.
    - Physical memory.  [Frame] is kernel/mm/frame.c with include/mm/frame.h: the
      buddy allocator with its bitmap, free lists threaded through the frame
      table, reference counts, the per-CPU page reserve, boot and audit.
      [FrameTheory] (blocks, bits, lists), [FrameOps] (allocation, merging and
      release on the invariant), [FrameBoot] (boot and addresses), [FrameSys]
      (the reserve and histories) and [FrameClaims] prove it.
    - Pipes.  [Pipe] is kernel/fs/pipe.c: the ring buffer, the interruptible
      wait, reading, peeking, writing, resizing, closing, polling and creation.
      [PipeTheory] and [PipeClaims] prove that it is a byte queue.
    - User address spaces.  [AddrSpace] is kernel/mm/vma.c, munmap.c, mprotect.c,
      mseal.c, mmap.c, pte_flags.c and wx.c with the record references of pt.c and
      the creation and destruction of vm.c: the doubly linked list of mapping
      records, the lookup index, the release queue, and the calls that run with
      the address space locked.  [AddrTheory] (list, references, index, lookup),
      [AddrOps] (each change of the list on the invariant), [AddrView] (what an
      address means, merging, splitting, insertion), [AddrUnmap], [AddrProtect]
      (mprotect and mseal), [AddrMap] (placement, the three mmap calls, brk),
      [AddrRefs] (the queue, destruction) and [AddrHist] (histories) prove it;
      [AddrClaims] states what users rely on, [AddrLimits] shows on examples
      where the contract ends.
    - Strings and formatted output.  [Memory] is a byte-addressed memory with
      little-endian words.  [CString] is kernel/core/string.c on it, routine by
      routine with its loops; [CStringTheory] relates each to the characters of
      its strings.  [Printf] is kernel/core/printf.c: number conversion, the
      formatter over any back end, the buffer and the console back end;
      [PrintfTheory] proves the formatter for a back end that collects the text
      and carries the result over to the others by a simulation.  [LibClaims]
      states the contracts and shows where they end.

    ** How code becomes definitions

    A C integer is a [Z]; conversions to a width are written out wherever the C
    expression can leave it ([u32], [s64], ...), and signed overflow is a fault
    ([sadd64]).  A pointer is an address or an index into a store; an array is
    the list of its cells, read and written through [rd] and [wr], which fail
    outside it.  A function that can fault returns an option, so a theorem that
    it returns [Some] is memory safety and absence of undefined behaviour.  Error
    returns are values, the negative codes of the source.  A critical section is
    one function on the state; what happens between two critical sections (other
    CPUs, the scheduler) is an argument or a step of a relation.  Calls into code
    that is not modelled are events in a log or answers given as arguments
    (memory allocation, the clock, object references), and theorems that need a
    property of them state it as a hypothesis.  A #define of a number is a
    definition or an abbreviation.  Code that works on raw bytes (strings and the
    formatter) has a memory that maps addresses to bytes: a load or store of an
    address it does not map is a fault.  A long has 64 bits.

    ** What the theorems show

    - Codec and frames: encoders refine a specification on byte lists, decoding
      inverts encoding, decoders touch only what they were given and accept
      exactly the frames the wire rules describe, single-byte corruption is
      detected.
    - Seccomp: the verifier accepts exactly the safe programs and these run to
      an action within their length, both for jump offsets without the top bit
      (the verifier lets endless programs through otherwise) and the second
      without negations; reference counts are exact in every reachable world,
      counting the references that exiting tasks never give back; evaluation
      means first non-allowing filter, and installing only restricts.
    - Timers: each heap operation keeps the heap, its back pointers and the
      next-deadline cache consistent and has its exact effect; the alarm scan
      signals exactly the due tasks and leaves nothing due.
    - Park: every interleaving refines a deterministic token automaton whose
      actions carry sequence numbers (one winner per number, stale wakes do
      nothing); where the rest of the scheduler keeps its ownership contract no
      debug assertion fires; waits return, expiry wakes exactly the due tasks.
    - Handles: every history keeps the table well formed and no handle is ever
      amplified; install, lookup, reserve/abort, sweep and destroy do exactly
      what their contracts say; the sweep terminates.  Across threads, no freed
      table is touched, counts are exact and the registry lists every table.
    - File locks: conflicting locks never coexist, setting a lock replaces
      exactly the requested bytes in the table others left and refuses only for
      the reasons of the source, F_GETLK tells the truth, flock converts and
      releases exactly the caller's lock.
    - Semaphores: semop applies its whole array in one turn or changes no value
      itself, whatever others do in between, and stops waiting when it must;
      semget answers by key, every history keeps the table sound.
    - Frames: at every point of every history of allocations, references and
      releases (by holders of a reference, with at most 65535 on a frame) each
      frame lies in exactly one free or allocated block, no two
      owners share a frame, boot establishes this for any table of RAM ranges,
      allocation and release have their exact effect and undo each other, misuse
      is rejected without effect, addresses and frame numbers are inverse.
    - Pipes: under every interleaving the bytes read are the bytes written, in
      order, across resizes; writes up to PIPE_BUF are atomic; every return value
      is accounted for; no sleeper or poller misses a read, write or close.
    - Address spaces: through any history of at most 50000 calls (a hinted VMO
      mapping over a partly mapped range excepted, see [AddrHist]) no record is
      used after it is freed, the mappings stay disjoint, ordered and inside the user addresses,
      and each record has exactly the references of the list, the index, the
      queue and its holders, so that destruction frees everything nobody holds.
      The lookup agrees with a scan in every state of its index; insertion,
      munmap, mprotect, mseal and the mmap calls change the meaning of exactly
      the addresses they should, however records are split and merged; sealed
      addresses keep their meaning, no address is writable and executable under
      a W^X policy, and the names in the page table match the list (with the
      exception the findings list).
    - Strings and output: the word-at-a-time block routines are single writes and
      copies, overlap included; searches, comparisons and tokens are what the
      character lists say; the formatter's text is the concatenation of its
      items, cut to the buffer with its terminator inside and nothing else
      written, numbers being the usual positional numerals; a printed int reads
      back as itself.

    Each property is a theorem of a Claims, Theory or Protocol file, with a
    concrete instance next to it that discharges its hypotheses.

    ** Fuel and bounds

    Loops over an array or a counter run as long as the C loop does.  The BPF
    interpreter takes fuel; the verifier's theorem shows that the program's
    length is enough.  Heap sifting takes the index or the number of entries, the
    expiry pass and the rounds of the alarm scan the number of entries, the growth of a handle table 17 doublings
    (it starts above zero and stops at 65536), the sweep one round more than the
    handles divided by 16; each is proved to be enough where the function is used.
    The walk along the registry of handle tables and the sweep of all tables
    take the number of tables.  The retry loops of the file locks have the
    source's own bound of 1024.  The waiting loop of semop has no bound in the
    source: it runs over a given list of turns, and its theorems hold for every
    list and say when the call has returned.  The waits of pipes are lists in the
    same way; a non-blocking write is proved to return within [count] turns.  In
    the frame allocator the recursion over orders is bounded by MAX_ORDER, the
    refill of the reserve by its capacity, the allocation by the source's two
    attempts, the audit's walk by the number of frames, seeding by the frames
    left; running out would be a fault, and the theorems show there is none.
    Walks along the mappings of an address space take one step more than there
    are records in memory, which the invariant shows to be enough; the walk of
    the lookup panics after 100000 steps in the source too, so theorems that use
    it ask for at most that many mappings (99998 where two splits come first),
    and histories for at most 50000 calls.  A loop along a string takes one step
    more than the memory has bytes, so that it can only run out by leaving the
    memory; number conversion takes 64 digits.  Both are proved to be enough.

    ** What is not modelled

    Within the modelled files: POSIX timers and signal delivery, which
    timer_heap.c only calls, task creation and teardown, the wait queues the
    semaphores and pipes sleep on (a wake-up is an event), the allocator's trace
    of releases, its scan for orphans, which only prints, and its 32-bit
    configuration; of address spaces the loops over the pages of a mapping
    (their results are answers), faults, fork, mremap and the configuration
    without page tables; of formatted output the console's lock and the UART.
    Of the rest of the kernel, architecture ports, boot code, drivers
    and the hypervisor are register-level I/O without a functional core; the file
    systems, page tables, slab and swap, network stack, scheduler, process life cycle and the
    other IPC objects are large stateful subsystems that the present components
    meet only through events and arguments; littlefs and lwIP are vendored. *)

From Stdlib Require Export ZArith Lia.
From stdpp Require Export base tactics option list numbers.
From coqutil Require Export Datatypes.RecordSetters.
Export DoubleBraceUpdate.

(** Let [simpl] and [cbn] compute record updates. *)
#[global] Arguments constant {E} _ _ /.
#[global] Arguments apply_update {R E} !_ _ /.

#[global] Open Scope Z_scope.

(** ** Machine integers

    A C integer of width [w] is a [Z]; a conversion to the width is written
    out at every place where the C expression can leave the range. *)

Definition u8 (z : Z) : Z := z mod 256.
Definition u16 (z : Z) : Z := z mod 65536.
Definition u32 (z : Z) : Z := z mod 4294967296.
Definition u64 (z : Z) : Z := z mod 18446744073709551616.

Definition s32 (z : Z) : Z :=
  if u32 z <? 2147483648 then u32 z else u32 z - 4294967296.

Definition s64 (z : Z) : Z :=
  if u64 z <? 9223372036854775808 then u64 z else u64 z - 18446744073709551616.

Definition U64_MAX : Z := 18446744073709551615.
Definition I64_MAX : Z := 9223372036854775807.
Definition I64_MIN : Z := -9223372036854775808.

Definition in_u8 (z : Z) : Prop := 0 <= z < 256.
Definition in_u16 (z : Z) : Prop := 0 <= z < 65536.
Definition in_u32 (z : Z) : Prop := 0 <= z < 4294967296.
Definition in_u64 (z : Z) : Prop := 0 <= z < 18446744073709551616.

#[global] Instance in_u8_dec z : Decision (in_u8 z).
Proof. unfold in_u8. apply _. Defined.
#[global] Instance in_u16_dec z : Decision (in_u16 z).
Proof. unfold in_u16. apply _. Defined.
#[global] Instance in_u32_dec z : Decision (in_u32 z).
Proof. unfold in_u32. apply _. Defined.
#[global] Instance in_u64_dec z : Decision (in_u64 z).
Proof. unfold in_u64. apply _. Defined.

(** Signed 64-bit addition: overflow is undefined in C, [None] here. *)
Definition sadd64 (a b : Z) : option Z :=
  if (I64_MIN <=? a + b) && (a + b <=? I64_MAX) then Some (a + b) else None.

(** Signed 32-bit addition, likewise. *)
Definition sadd32 (a b : Z) : option Z :=
  if (-2147483648 <=? a + b) && (a + b <=? 2147483647) then Some (a + b) else None.

(** ** errno values (kernel/include/core/errno.h) *)

Definition EPERM : Z := 1.
Definition ENOENT : Z := 2.
Definition ESRCH : Z := 3.
Definition EINTR : Z := 4.
Definition EBADF : Z := 9.
Definition EAGAIN : Z := 11.
Definition ENOMEM : Z := 12.
Definition EACCES : Z := 13.
Definition EFAULT : Z := 14.
Definition EBUSY : Z := 16.
Definition EEXIST : Z := 17.
Definition EINVAL : Z := 22.
Definition EMFILE : Z := 24.
Definition EFBIG : Z := 27.
Definition ENOSPC : Z := 28.
Definition EPIPE : Z := 32.
Definition EDEADLK : Z := 35.
Definition ENOLCK : Z := 37.
Definition ENOSYS : Z := 38.
Definition ERESTARTSYS : Z := 512.

(** Booleans the way C computes with them. *)
Definition c_bool (b : bool) : Z := if b then 1 else 0.
Definition c_true (z : Z) : bool := negb (z =? 0).

(** ** Checked memory accesses

    A buffer is the list of its cells; an access outside it is a fault,
    [None].  Theorems that an operation returns [Some] are memory safety. *)

Definition rd {A} (l : list A) (i : Z) : option A :=
  if 0 <=? i then l !! Z.to_nat i else None.

Definition wr {A} (l : list A) (i : Z) (x : A) : option (list A) :=
  if (0 <=? i) && (i <? Z.of_nat (length l))
  then Some (<[Z.to_nat i := x]> l) else None.

(** ** Loops

    [for_loop n i body s] runs [body i], ..., [body (i + n - 1)]. *)

Fixpoint for_loop {S} (n : nat) (i : Z) (body : Z -> S -> option S) (s : S)
  : option S :=
  match n with
  | O => Some s
  | Datatypes.S n' => s' ← body i s; for_loop n' (i + 1) body s'
  end.

Definition for_ {S} (lo hi : Z) (body : Z -> S -> option S) (s : S) : option S :=
  for_loop (Z.to_nat (hi - lo)) lo body s.

(** A search loop whose body may return from the function: [None] is a
    fault, [Some (Some r)] a return, [Some None] falling through. *)
Fixpoint for_return_loop {R} (n : nat) (i : Z) (body : Z -> option (option R))
  : option (option R) :=
  match n with
  | O => Some None
  | Datatypes.S n' =>
      r ← body i;
      match r with
      | Some v => Some (Some v)
      | None => for_return_loop n' (i + 1) body
      end
  end.

Definition for_return {R} (lo hi : Z) (body : Z -> option (option R))
  : option (option R) :=
  for_return_loop (Z.to_nat (hi - lo)) lo body.

(** ** User memory

    The readable user bytes; copy_from_user fails as a whole when a byte of
    the range is not readable. *)
Definition copy_from_user (umem : Z -> option Z) (src n : Z) : option (list Z) :=
  mapM (fun i => umem (src + Z.of_nat i)) (seq 0 (Z.to_nat n)).

(** ** Tactics *)

Ltac zlia := Z.div_mod_to_equations; lia.

(** Turn boolean tests of the hypotheses and the goal into propositions. *)
Ltac reflect :=
  repeat match goal with
  | H : (_ && _) = true |- _ => apply andb_prop in H; destruct H
  | H : (_ || _) = false |- _ => apply orb_false_elim in H; destruct H
  | H : negb _ = true |- _ => apply negb_true_iff in H
  | H : negb _ = false |- _ => apply negb_false_iff in H
  | H : (_ =? _) = true |- _ => apply Z.eqb_eq in H
  | H : (_ =? _) = false |- _ => apply Z.eqb_neq in H
  | H : (_ <? _) = true |- _ => apply Z.ltb_lt in H
  | H : (_ <? _) = false |- _ => apply Z.ltb_ge in H
  | H : (_ <=? _) = true |- _ => apply Z.leb_le in H
  | H : (_ <=? _) = false |- _ => apply Z.leb_gt in H
  | H : bool_decide _ = true |- _ => apply bool_decide_eq_true in H
  | H : bool_decide _ = false |- _ => apply bool_decide_eq_false in H
  end.

(** Case analysis on every test the goal branches on. *)
Ltac split_if :=
  match goal with
  | |- context [if ?b then _ else _] => let E := fresh "E" in destruct b eqn:E
  end.

Ltac split_ifs := repeat (split_if; reflect; try lia; try done).

(** ** Shared lemmas *)

Create HintDb a20 discriminated.
Create Rewrite HintDb a20.

Lemma u8_small z : in_u8 z -> u8 z = z.
Proof. unfold in_u8, u8. apply Z.mod_small. Qed.
Lemma u16_small z : in_u16 z -> u16 z = z.
Proof. unfold in_u16, u16. apply Z.mod_small. Qed.
Lemma u32_small z : in_u32 z -> u32 z = z.
Proof. unfold in_u32, u32. apply Z.mod_small. Qed.
Lemma u64_small z : in_u64 z -> u64 z = z.
Proof. unfold in_u64, u64. apply Z.mod_small. Qed.

Lemma u8_range z : in_u8 (u8 z).
Proof. unfold in_u8, u8. zlia. Qed.
Lemma u16_range z : in_u16 (u16 z).
Proof. unfold in_u16, u16. zlia. Qed.
Lemma u32_range z : in_u32 (u32 z).
Proof. unfold in_u32, u32. zlia. Qed.
Lemma u64_range z : in_u64 (u64 z).
Proof. unfold in_u64, u64. zlia. Qed.

#[export] Hint Resolve u8_range u16_range u32_range u64_range : a20.

(** Reads and writes inside the buffer. *)
Lemma rd_nat {A} (l : list A) (n : nat) : rd l (Z.of_nat n) = l !! n.
Proof. unfold rd. rewrite (proj2 (Z.leb_le 0 _)) by lia. by rewrite Nat2Z.id. Qed.

Lemma rd_is_Some {A} (l : list A) i :
  0 <= i < Z.of_nat (length l) -> is_Some (rd l i).
Proof.
  intros H. unfold rd. rewrite (proj2 (Z.leb_le 0 _)) by lia.
  apply lookup_lt_is_Some. lia.
Qed.

Lemma rd_Some_range {A} (l : list A) i x :
  rd l i = Some x -> 0 <= i < Z.of_nat (length l).
Proof.
  unfold rd. split_if; [|done]. reflect. intros H%lookup_lt_Some. lia.
Qed.

Lemma rd_Forall {A} (P : A -> Prop) (l : list A) i x :
  Forall P l -> rd l i = Some x -> P x.
Proof. unfold rd. intros H. split_if; [|done]. by apply Forall_lookup_1. Qed.

Lemma rd_app_l {A} (l k : list A) i :
  i < Z.of_nat (length l) -> rd (l ++ k) i = rd l i.
Proof.
  intros H. unfold rd. split_if; [|done]. reflect.
  apply lookup_app_l. lia.
Qed.

Lemma rd_app_r {A} (l k : list A) i :
  Z.of_nat (length l) <= i -> rd (l ++ k) i = rd k (i - Z.of_nat (length l)).
Proof.
  intros H. unfold rd. rewrite !(proj2 (Z.leb_le 0 _)) by lia.
  rewrite lookup_app_r by lia. f_equal. lia.
Qed.

Lemma wr_Some {A} (l : list A) i x :
  0 <= i < Z.of_nat (length l) -> wr l i x = Some (<[Z.to_nat i := x]> l).
Proof.
  intros H. unfold wr.
  rewrite (proj2 (Z.leb_le 0 _)), (proj2 (Z.ltb_lt _ _)) by lia. done.
Qed.

Lemma wr_length {A} (l l' : list A) i x :
  wr l i x = Some l' -> length l' = length l.
Proof. unfold wr. split_if; [|done]. intros [= <-]. apply length_insert. Qed.

Lemma rd_wr_eq {A} (l l' : list A) i x : wr l i x = Some l' -> rd l' i = Some x.
Proof.
  unfold wr, rd. split_if; [|done]. reflect. intros [= <-].
  rewrite (proj2 (Z.leb_le 0 _)) by lia. apply list_lookup_insert_eq. lia.
Qed.

Lemma rd_wr_ne {A} (l l' : list A) i j x :
  i <> j -> wr l i x = Some l' -> rd l' j = rd l j.
Proof.
  intros Hne. unfold wr, rd. split_if; [|done]. reflect. intros [= <-].
  split_if; [|done]. reflect. apply list_lookup_insert_ne. lia.
Qed.

(** Reading through list operations. *)
Lemma rd_out {A} (l : list A) i : ~ (0 <= i < Z.of_nat (length l)) -> rd l i = None.
Proof.
  intros H. destruct (rd l i) eqn:E; [|done].
  apply rd_Some_range in E. lia.
Qed.

Lemma rd_ext {A} (l k : list A) :
  (forall i, 0 <= i -> rd l i = rd k i) -> l = k.
Proof.
  intros H. apply list_eq. intros i. rewrite <- !rd_nat. apply H. lia.
Qed.

Lemma rd_take {A} (l : list A) n i :
  rd (take (Z.to_nat n) l) i = if i <? n then rd l i else None.
Proof.
  unfold rd. destruct (Z.leb_spec 0 i), (Z.ltb_spec i n); try done.
  - apply lookup_take_lt. lia.
  - apply lookup_take_ge. lia.
Qed.

Lemma rd_drop {A} (l : list A) n i :
  0 <= n -> 0 <= i -> rd (drop (Z.to_nat n) l) i = rd l (n + i).
Proof.
  intros. unfold rd. destruct (Z.leb_spec 0 i), (Z.leb_spec 0 (n + i)); try lia.
  rewrite lookup_drop. f_equal. lia.
Qed.

Lemma rd_app {A} (l k : list A) i :
  rd (l ++ k) i = if i <? Z.of_nat (length l) then rd l i else rd k (i - Z.of_nat (length l)).
Proof.
  unfold rd. destruct (Z.leb_spec 0 i), (Z.ltb_spec i (Z.of_nat (length l)));
    try (destruct (Z.leb_spec 0 (i - Z.of_nat (length l))); try lia); try done.
  - apply lookup_app_l. lia.
  - rewrite lookup_app_r by lia. f_equal. lia.
Qed.

(** A loop whose body preserves [P] and never faults runs to the end. *)
Lemma for_loop_inv {S} (P : Z -> S -> Prop) body n i s :
  P i s ->
  (forall j s, i <= j < i + Z.of_nat n -> P j s ->
     exists s', body j s = Some s' /\ P (j + 1) s') ->
  exists s', for_loop n i body s = Some s' /\ P (i + Z.of_nat n) s'.
Proof.
  revert i s. induction n as [|n IH]; intros i s Hs Hbody; simpl.
  - exists s. by rewrite Z.add_0_r.
  - destruct (Hbody i s) as (s1 & -> & H1); [lia|done|]. simpl.
    destruct (IH (i + 1) s1) as (s2 & E & H2); [done| |].
    + intros j t Hj. apply Hbody. lia.
    + exists s2. split; [done|]. by replace (i + Z.of_nat (Datatypes.S n))
        with (i + 1 + Z.of_nat n) by lia.
Qed.

Lemma for_inv {S} (P : Z -> S -> Prop) body lo hi s :
  lo <= hi -> P lo s ->
  (forall j s, lo <= j < hi -> P j s ->
     exists s', body j s = Some s' /\ P (j + 1) s') ->
  exists s', for_ lo hi body s = Some s' /\ P hi s'.
Proof.
  intros Hle Hs Hbody. unfold for_.
  destruct (for_loop_inv P body (Z.to_nat (hi - lo)) lo s) as (s' & E & H);
    [done| |].
  - intros j t Hj. apply Hbody. lia.
  - exists s'. split; [done|]. by replace hi with (lo + Z.of_nat (Z.to_nat (hi - lo))) by lia.
Qed.

(** Bit operations as arithmetic. *)
Lemma land_255 z : Z.land z 255 = z mod 256.
Proof. apply (Z.land_ones z 8). lia. Qed.

Lemma lor_shiftl_add a b n :
  0 <= n -> 0 <= a < 2 ^ n -> Z.lor a (Z.shiftl b n) = a + b * 2 ^ n.
Proof.
  intros Hn Ha. rewrite <- Z.shiftl_mul_pow2 by done.
  assert (Z.land a (Z.shiftl b n) = 0) as Hd.
  { apply Z.bits_inj'. intros i Hi. rewrite Z.land_spec, Z.bits_0.
    destruct (Z.lt_ge_cases i n).
    - rewrite (Z.shiftl_spec_low b) by done. apply andb_false_r.
    - by rewrite <- (Z.mod_small a (2 ^ n)), Z.mod_pow2_bits_high by lia. }
  by rewrite <- Z.lxor_lor, <- Z.add_nocarry_lxor by exact Hd.
Qed.

(** Sequential writes: the written prefix grows, the rest shrinks. *)
Lemma wr_app {A} (pre post : list A) i x :
  i = Z.of_nat (length pre) -> (0 < length post)%nat ->
  wr (pre ++ post) i x = Some ((pre ++ [x]) ++ drop 1 post).
Proof.
  intros -> H. destruct post as [|y post]; [simpl in H; lia|].
  rewrite wr_Some by (rewrite length_app; simpl; lia).
  rewrite Nat2Z.id, insert_app_r_alt by lia.
  rewrite Nat.sub_diag. simpl. by rewrite <- app_assoc.
Qed.

Lemma for_loop_shift {S} n i d (body body' : Z -> S -> option S) s :
  (forall j t, i <= j < i + Z.of_nat n -> body j t = body' (j + d) t) ->
  for_loop n i body s = for_loop n (i + d) body' s.
Proof.
  revert i s. induction n as [|n IH]; intros i s H; simpl; [done|].
  rewrite H by lia. destruct (body' (i + d) s); simpl; [|done].
  rewrite IH by (intros; apply H; lia). f_equal. lia.
Qed.

(** A loop that reads a buffer cell by cell is a fold. *)
Lemma for_rd_fold {A S} (l : list A) (f : S -> A -> S) n s :
  0 <= n <= Z.of_nat (length l) ->
  for_ 0 n (fun i s => b ← rd l i; Some (f s b)) s =
  Some (foldl f s (take (Z.to_nat n) l)).
Proof.
  intros Hn. unfold for_. rewrite Z.sub_0_r.
  assert (Z.to_nat n <= length l)%nat as Hk by lia. clear Hn.
  generalize dependent (Z.to_nat n). clear n. intros k. revert l s.
  induction k as [|k IH]; intros l s Hk; simpl; [done|].
  destruct l as [|x l]; [simpl in Hk; lia|]. simpl in Hk |- *.
  rewrite <- (IH l (f s x)) by lia.
  apply (for_loop_shift k 1 (-1)). intros j t Hj.
  unfold rd. rewrite !(proj2 (Z.leb_le 0 _)) by lia.
  replace (Z.to_nat j) with (Datatypes.S (Z.to_nat (j + -1))) by lia. done.
Qed.

(** Search loops. *)
Lemma for_return_loop_None {R} n i (body : Z -> option (option R)) :
  for_return_loop n i body = Some None <->
  forall j, i <= j < i + Z.of_nat n -> body j = Some None.
Proof.
  revert i. induction n as [|n IH]; intros i; simpl.
  { split; [intros _ j ?; lia|done]. }
  split.
  - destruct (body i) as [[r|]|] eqn:E; [done| |done]. simpl.
    rewrite IH. intros H j Hj. destruct (decide (j = i)) as [->|]; [done|].
    apply H. lia.
  - intros H. rewrite H by lia. simpl. apply IH. intros j Hj. apply H. lia.
Qed.

Lemma for_return_None {R} lo hi (body : Z -> option (option R)) :
  for_return lo hi body = Some None <->
  forall j, lo <= j < hi -> body j = Some None.
Proof.
  unfold for_return. rewrite for_return_loop_None.
  split; intros H j Hj; apply H; lia.
Qed.

Lemma for_return_loop_Some {R} n i (body : Z -> option (option R)) r :
  for_return_loop n i body = Some (Some r) <->
  exists j, i <= j < i + Z.of_nat n /\ body j = Some (Some r) /\
    forall k, i <= k < j -> body k = Some None.
Proof.
  revert i. induction n as [|n IH]; intros i; simpl.
  { split; [done|]. intros (j & ? & _). lia. }
  split.
  - destruct (body i) as [[v|]|] eqn:E; simpl; [|rewrite IH|done].
    + intros [= ->]. exists i. split; [lia|]. split; [done|]. intros; lia.
    + intros (j & Hj & Hr & Hk). exists j. split; [lia|]. split; [done|].
      intros k ?. destruct (decide (k = i)) as [->|]; [done|]. apply Hk. lia.
  - intros (j & Hj & Hr & Hk). destruct (decide (j = i)) as [->|].
    { by rewrite Hr. }
    rewrite Hk by lia. simpl. apply IH. exists j. split; [lia|]. split; [done|].
    intros k ?. apply Hk. lia.
Qed.

Lemma for_return_Some {R} lo hi (body : Z -> option (option R)) r :
  for_return lo hi body = Some (Some r) <->
  exists j, lo <= j < hi /\ body j = Some (Some r) /\
    forall k, lo <= k < j -> body k = Some None.
Proof.
  unfold for_return. rewrite for_return_loop_Some.
  split; intros (j & Hj & H); exists j; (split; [lia|done]).
Qed.

Lemma for_return_total {R} lo hi (body : Z -> option (option R)) :
  (forall j, lo <= j < hi -> body j <> None) -> for_return lo hi body <> None.
Proof.
  intros H. unfold for_return.
  assert (forall n i, (forall j, i <= j < i + Z.of_nat n -> body j <> None) ->
            for_return_loop n i body <> None) as Hloop.
  { induction n as [|n IH]; intros i Hi; simpl; [done|].
    destruct (body i) as [[v|]|] eqn:E; simpl; [done| |].
    - apply IH. intros j Hj. apply Hi. lia.
    - by destruct (Hi i ltac:(lia)). }
  apply Hloop. intros j Hj. apply H. lia.
Qed.

(** Bit operations stay in 32 bits. *)
Lemma in_u32_ones z : in_u32 z <-> Z.land z (Z.ones 32) = z.
Proof.
  rewrite Z.land_ones by lia. change (2 ^ 32) with 4294967296. unfold in_u32.
  split; [apply Z.mod_small|]. intros <-. zlia.
Qed.

Lemma u32_lor a b : in_u32 a -> in_u32 b -> in_u32 (Z.lor a b).
Proof.
  rewrite !in_u32_ones. intros Ha Hb.
  by rewrite Z.land_lor_distr_l, Ha, Hb.
Qed.
Lemma u32_land a b : in_u32 a -> in_u32 (Z.land a b).
Proof.
  rewrite !in_u32_ones. intros Ha.
  by rewrite <- Z.land_assoc, (Z.land_comm b), Z.land_assoc, Ha.
Qed.
Lemma u32_lxor a b : in_u32 a -> in_u32 b -> in_u32 (Z.lxor a b).
Proof.
  rewrite !in_u32_ones. intros Ha Hb. apply Z.bits_inj_iff. intros n.
  rewrite <- Ha, <- Hb. rewrite !Z.land_spec, !Z.lxor_spec, !Z.land_spec.
  destruct (Z.testbit a n), (Z.testbit b n), (Z.testbit (Z.ones 32) n); done.
Qed.

#[export] Hint Resolve u32_lor u32_land u32_lxor : a20.

(** Testing one flag of a word. *)
Lemma c_true_land_pow2 x k : 0 <= k -> c_true (Z.land x (2 ^ k)) = Z.testbit x k.
Proof.
  intros Hk. assert (Z.land x (2 ^ k) = if Z.testbit x k then 2 ^ k else 0) as ->.
  { apply Z.bits_inj'. intros n Hn. rewrite Z.land_spec, Z.pow2_bits_eqb by done.
    destruct (Z.eqb_spec k n) as [->|Hne].
    - destruct (Z.testbit x n) eqn:E; [by rewrite Z.pow2_bits_true|by rewrite Z.bits_0].
    - rewrite andb_false_r. destruct (Z.testbit x k); [by rewrite Z.pow2_bits_false|by rewrite Z.bits_0]. }
  unfold c_true. destruct (Z.testbit x k); [|done]. pose proof (Z.pow_pos_nonneg 2 k). by rewrite (proj2 (Z.eqb_neq _ _)) by lia.
Qed.

Lemma land_15_range k : 0 <= Z.land k 15 < 16.
Proof. change 15 with (Z.ones 4). rewrite Z.land_ones by lia. change (2 ^ 4) with 16. zlia. Qed.

Lemma s32_range z : -2147483648 <= s32 z <= 2147483647.
Proof. unfold s32. pose proof (u32_range z) as H. unfold in_u32 in H. split_if; reflect; lia. Qed.

Lemma s32_small z : -2147483648 <= z <= 2147483647 -> s32 z = z.
Proof.
  intros H. unfold s32, u32. destruct (decide (0 <= z)).
  - rewrite Z.mod_small by lia. by rewrite (proj2 (Z.ltb_lt _ _)) by lia.
  - replace (z mod 4294967296) with (z + 4294967296) by zlia.
    rewrite (proj2 (Z.ltb_ge _ _)) by lia. lia.
Qed.

(** User memory holds bytes. *)
Definition umem_bytes (umem : Z -> option Z) : Prop :=
  forall a b, umem a = Some b -> in_u8 b.

Lemma copy_from_user_Some umem src n l : umem_bytes umem ->
  copy_from_user umem src n = Some l ->
  length l = Z.to_nat n /\ Forall in_u8 l.
Proof.
  unfold copy_from_user. intros Hu H%mapM_Some. split.
  - apply Forall2_length in H. by rewrite <- H, length_seq.
  - induction H; constructor; eauto.
Qed.

Lemma bind_Some_assoc {A B C} (x : option A) (f : A -> option B) (g : B -> option C) m :
  x ≫= f = Some m -> (x ≫= fun s => f s ≫= g) = g m.
Proof. destruct x; simpl; [by intros ->|done]. Qed.
