(* ===== verification/ClxCodec.v ===== *)
(** * Cluster wire codec primitives (kernel/cluster/uart.h)

    The header-only codec shared by the head node and the MCU leaf:
    little-endian accessors, CRC16-CCITT, FNV-1a, the frame and HELLO
    builders, the SLIP encoder, the streaming SLIP decoder and the transport
    frame screen.  Pointers are (buffer, offset) pairs, every access goes
    through [rd]/[wr], and an operation returns [None] exactly when it would
    touch memory outside its buffers. *)

From S2P Require Import Prelude.

(** ** Constants (02-wire-protocol §1-§3, 04-transports §4) *)

Definition A20_CLX_HDR_LEN : Z := 32.
Definition A20_CLX_CRC_LEN : Z := 2.
Abbreviation A20_CLX_MAGIC := (0x4C43)%Z (only parsing).
Abbreviation A20_CLX_WIRE_VER := (0)%Z (only parsing).
Abbreviation A20_CLX_TTL_DEFAULT := (8)%Z (only parsing).
Abbreviation A20_CLX_CSUM_NONE := (0)%Z (only parsing).
Abbreviation A20_CLX_CSUM_CCITT := (1)%Z (only parsing).

Abbreviation A20_CLX_OFF_MAGIC := (0)%Z (only parsing).
Abbreviation A20_CLX_OFF_VER := (2)%Z (only parsing).
Abbreviation A20_CLX_OFF_TYPE := (3)%Z (only parsing).
Abbreviation A20_CLX_OFF_FLAGS := (4)%Z (only parsing).
Abbreviation A20_CLX_OFF_FRAG := (6)%Z (only parsing).
Abbreviation A20_CLX_OFF_TXID := (8)%Z (only parsing).
Abbreviation A20_CLX_OFF_SRC_HASH := (12)%Z (only parsing).
Abbreviation A20_CLX_OFF_DST_HASH := (16)%Z (only parsing).
Abbreviation A20_CLX_OFF_DST_SLOT := (20)%Z (only parsing).
Abbreviation A20_CLX_OFF_SEQ := (24)%Z (only parsing).
Abbreviation A20_CLX_OFF_PAYLOAD_LEN := (28)%Z (only parsing).
Abbreviation A20_CLX_OFF_TTL := (30)%Z (only parsing).
Abbreviation A20_CLX_OFF_CSUM_KIND := (31)%Z (only parsing).

Abbreviation A20_CLX_TYPE_HELLO := (1)%Z (only parsing).
Abbreviation A20_CLX_TYPE_HELLO_ACK := (2)%Z (only parsing).
Abbreviation A20_CLX_TYPE_PING := (3)%Z (only parsing).
Abbreviation A20_CLX_TYPE_PONG := (4)%Z (only parsing).
Abbreviation A20_CLX_TYPE_SEND := (5)%Z (only parsing).
Abbreviation A20_CLX_TYPE_CALL := (6)%Z (only parsing).
Abbreviation A20_CLX_TYPE_CALL_REPLY := (7)%Z (only parsing).
Abbreviation A20_CLX_TYPE_CLOSE := (8)%Z (only parsing).
Abbreviation A20_CLX_TYPE_ACK := (9)%Z (only parsing).
Abbreviation A20_CLX_TYPE_NACK := (10)%Z (only parsing).
Abbreviation A20_CLX_TYPE_ERROR := (11)%Z (only parsing).

Abbreviation A20_CLX_FLAG_RELIABLE := (1)%Z (only parsing).
Abbreviation A20_CLX_FLAG_FRAGMENTED := (2)%Z (only parsing).
Abbreviation A20_CLX_FLAG_COMPRESSED := (8)%Z (only parsing).

Abbreviation A20_CLX_HELLO_OFF_NODE_ID := (0)%Z (only parsing).
Abbreviation A20_CLX_HELLO_OFF_PROTO_MIN := (16)%Z (only parsing).
Abbreviation A20_CLX_HELLO_OFF_PROTO_MAX := (17)%Z (only parsing).
Abbreviation A20_CLX_HELLO_OFF_TIER := (18)%Z (only parsing).
Abbreviation A20_CLX_HELLO_OFF_CAPS := (19)%Z (only parsing).
Abbreviation A20_CLX_HELLO_OFF_SHORT_ADDR := (20)%Z (only parsing).
Abbreviation A20_CLX_HELLO_OFF_LINK_ADDR_LEN := (22)%Z (only parsing).
Abbreviation A20_CLX_HELLO_OFF_RESERVED := (23)%Z (only parsing).
Abbreviation A20_CLX_HELLO_OFF_NONCE := (24)%Z (only parsing).

Abbreviation A20_CLX_UART_MTU := (256)%Z (only parsing).
Definition A20_CLX_UART_MAX_PAYLOAD : Z :=
  A20_CLX_UART_MTU - A20_CLX_HDR_LEN - A20_CLX_CRC_LEN.

Definition A20_CLX_SLIP_END : Z := 0xC0.
Definition A20_CLX_SLIP_ESC : Z := 0xDB.
Definition A20_CLX_SLIP_ESC_END : Z := 0xDC.
Definition A20_CLX_SLIP_ESC_ESC : Z := 0xDD.

Definition A20_CLX_SLIP_ENCODED_LEN (n : Z) : Z := u32 (u32 (n * 2) + 2).

(** ** Little-endian accessors *)

Definition a20_clx_get_le16 (p : list Z) (o : Z) : option Z :=
  b0 ← rd p o; b1 ← rd p (o + 1);
  Some (u16 (Z.lor b0 (Z.shiftl b1 8))).

Definition a20_clx_get_le32 (p : list Z) (o : Z) : option Z :=
  b0 ← rd p o; b1 ← rd p (o + 1); b2 ← rd p (o + 2); b3 ← rd p (o + 3);
  Some (Z.lor (Z.lor (Z.lor b0 (u32 (Z.shiftl b1 8))) (u32 (Z.shiftl b2 16)))
              (u32 (Z.shiftl b3 24))).

Definition a20_clx_get_le64 (p : list Z) (o : Z) : option Z :=
  lo ← a20_clx_get_le32 p o; hi ← a20_clx_get_le32 p (o + 4);
  Some (Z.lor lo (u64 (Z.shiftl hi 32))).

Definition a20_clx_put_le16 (p : list Z) (o v : Z) : option (list Z) :=
  p ← wr p o (u8 (Z.land v 0xFF));
  wr p (o + 1) (u8 (Z.land (Z.shiftr v 8) 0xFF)).

Definition a20_clx_put_le32 (p : list Z) (o v : Z) : option (list Z) :=
  p ← wr p o (u8 (Z.land v 0xFF));
  p ← wr p (o + 1) (u8 (Z.land (Z.shiftr v 8) 0xFF));
  p ← wr p (o + 2) (u8 (Z.land (Z.shiftr v 16) 0xFF));
  wr p (o + 3) (u8 (Z.land (Z.shiftr v 24) 0xFF)).

Definition a20_clx_put_le64 (p : list Z) (o v : Z) : option (list Z) :=
  p ← a20_clx_put_le32 p o (u32 (Z.land v 0xFFFFFFFF));
  a20_clx_put_le32 p (o + 4) (u32 (Z.land (Z.shiftr v 32) 0xFFFFFFFF)).

(** ** CRC16-CCITT and FNV-1a *)

(** One turn of the inner [b] loop. *)
Definition crc16_bit (crc : Z) : Z :=
  if c_true (Z.land crc 0x8000)
  then u16 (Z.lxor (Z.shiftl crc 1) 0x1021)
  else u16 (Z.shiftl crc 1).

(** One turn of the outer [i] loop: fold a byte in, then eight bit steps. *)
Definition crc16_byte (crc b : Z) : Z :=
  Nat.iter 8 crc16_bit (Z.lxor crc (u16 (Z.shiftl b 8))).

Definition a20_clx_crc16_ccitt (data : list Z) (len : Z) : option Z :=
  for_ 0 len (fun i crc => b ← rd data i; Some (crc16_byte crc b)) 0xFFFF.

Definition a20_clx_fnv1a32 (id16 : list Z) : option Z :=
  for_ 0 16 (fun i h => b ← rd id16 i; Some (u32 (Z.lxor h b * 16777619)))
    2166136261.

(** ** Builders *)

(** [for (i = 0; i < n; i++) dst[off + i] = src[i]] *)
Definition copy_bytes (dst : list Z) (off : Z) (src : list Z) (n : Z)
  : option (list Z) :=
  for_ 0 n (fun i dst => b ← rd src i; wr dst (off + i) b) dst.

Definition a20_clx_build_frame (buf : list Z) (cap type flags frag txid
    src_hash dst_hash dst_slot : Z) (payload : list Z) (payload_len : Z)
  : option (list Z * Z) :=
  let len := u32 (A20_CLX_HDR_LEN + payload_len + A20_CLX_CRC_LEN) in
  if (cap <? len) || (A20_CLX_UART_MAX_PAYLOAD <? payload_len)
  then Some (buf, -1)
  else
    buf ← a20_clx_put_le16 buf A20_CLX_OFF_MAGIC A20_CLX_MAGIC;
    buf ← wr buf A20_CLX_OFF_VER (u8 A20_CLX_WIRE_VER);
    buf ← wr buf A20_CLX_OFF_TYPE type;
    buf ← a20_clx_put_le16 buf A20_CLX_OFF_FLAGS flags;
    buf ← a20_clx_put_le16 buf A20_CLX_OFF_FRAG frag;
    buf ← a20_clx_put_le32 buf A20_CLX_OFF_TXID txid;
    buf ← a20_clx_put_le32 buf A20_CLX_OFF_SRC_HASH src_hash;
    buf ← a20_clx_put_le32 buf A20_CLX_OFF_DST_HASH dst_hash;
    buf ← a20_clx_put_le32 buf A20_CLX_OFF_DST_SLOT dst_slot;
    buf ← a20_clx_put_le32 buf A20_CLX_OFF_SEQ 0;
    buf ← a20_clx_put_le16 buf A20_CLX_OFF_PAYLOAD_LEN payload_len;
    buf ← wr buf A20_CLX_OFF_TTL (u8 A20_CLX_TTL_DEFAULT);
    buf ← wr buf A20_CLX_OFF_CSUM_KIND (u8 A20_CLX_CSUM_CCITT);
    buf ← copy_bytes buf A20_CLX_HDR_LEN payload payload_len;
    crc ← a20_clx_crc16_ccitt buf (A20_CLX_HDR_LEN + payload_len);
    buf ← a20_clx_put_le16 buf (A20_CLX_HDR_LEN + payload_len) crc;
    Some (buf, len).

Definition a20_clx_build_hello_payload (node_id16 : list Z) (proto_min
    proto_max tier caps short_addr nonce : Z) (out32 : list Z)
  : option (list Z) :=
  out ← copy_bytes out32 A20_CLX_HELLO_OFF_NODE_ID node_id16 16;
  out ← wr out A20_CLX_HELLO_OFF_PROTO_MIN proto_min;
  out ← wr out A20_CLX_HELLO_OFF_PROTO_MAX proto_max;
  out ← wr out A20_CLX_HELLO_OFF_TIER tier;
  out ← wr out A20_CLX_HELLO_OFF_CAPS caps;
  out ← a20_clx_put_le16 out A20_CLX_HELLO_OFF_SHORT_ADDR short_addr;
  out ← wr out A20_CLX_HELLO_OFF_LINK_ADDR_LEN 2;
  out ← wr out A20_CLX_HELLO_OFF_RESERVED 0;
  a20_clx_put_le64 out A20_CLX_HELLO_OFF_NONCE nonce.

(** ** SLIP encoder *)

Definition a20_clx_slip_encode (frame : list Z) (len : Z) (out : list Z)
    (out_cap : Z) : option (list Z * Z) :=
  let need := A20_CLX_SLIP_ENCODED_LEN len in
  if out_cap <? need then Some (out, -1)
  else
    out ← wr out 0 A20_CLX_SLIP_END;
    '(out, o) ← for_ 0 len (fun i '(out, o) =>
        b ← rd frame i;
        if b =? A20_CLX_SLIP_END then
          out ← wr out o A20_CLX_SLIP_ESC;
          out ← wr out (o + 1) A20_CLX_SLIP_ESC_END;
          Some (out, o + 2)
        else if b =? A20_CLX_SLIP_ESC then
          out ← wr out o A20_CLX_SLIP_ESC;
          out ← wr out (o + 1) A20_CLX_SLIP_ESC_ESC;
          Some (out, o + 2)
        else
          out ← wr out o b;
          Some (out, o + 1)) (out, 1);
    out ← wr out o A20_CLX_SLIP_END;
    Some (out, o + 1).

(** ** Streaming SLIP decoder *)

Record a20_clx_slip_rx := {
  rx_buf : list Z;
  rx_cap : Z;
  rx_len : Z;
  rx_interbyte_ticks : Z;
  rx_last_byte_ticks : Z;
  rx_in_frame : bool;
  rx_in_escape : bool;
  rx_overflow : bool;
}.

Definition a20_clx_slip_rx_init (buf : list Z) (cap interbyte_ticks : Z)
  : a20_clx_slip_rx :=
  {| rx_buf := buf; rx_cap := cap; rx_len := 0;
     rx_interbyte_ticks := interbyte_ticks; rx_last_byte_ticks := 0;
     rx_in_frame := false; rx_in_escape := false; rx_overflow := false |}.

Definition a20_clx_slip_rx_reset (rx : a20_clx_slip_rx) : a20_clx_slip_rx :=
  rx {{ rx_len := 0; rx_in_frame := false; rx_in_escape := false;
        rx_overflow := false }}.

Definition a20_clx_slip_rx_byte (rx : a20_clx_slip_rx) (b now_ticks : Z)
  : option (a20_clx_slip_rx * Z) :=
  let rx := rx {{ rx_last_byte_ticks := now_ticks }} in
  if rx_in_escape rx then
    let rx := rx {{ rx_in_escape := false }} in
    let put b :=
      if rx_overflow rx || negb (rx_in_frame rx) then Some (rx, 0)
      else if rx_cap rx <=? rx_len rx then
        Some (rx {{ rx_overflow := true }}, -1)
      else
        buf ← wr (rx_buf rx) (rx_len rx) b;
        Some (rx {{ rx_buf := buf; rx_len := rx_len rx + 1 }}, 0) in
    if b =? A20_CLX_SLIP_ESC_END then put A20_CLX_SLIP_END
    else if b =? A20_CLX_SLIP_ESC_ESC then put A20_CLX_SLIP_ESC
    else Some (rx, 0)
  else if b =? A20_CLX_SLIP_END then
    if negb (rx_in_frame rx) then
      Some (rx {{ rx_in_frame := true; rx_len := 0; rx_overflow := false }}, 0)
    else if rx_overflow rx then Some (a20_clx_slip_rx_reset rx, 0)
    else if rx_len rx =? 0 then Some (rx, 0)
    else Some (rx {{ rx_in_frame := false }}, 1)
  else if negb (rx_in_frame rx) then Some (rx, 0)
  else if b =? A20_CLX_SLIP_ESC then Some (rx {{ rx_in_escape := true }}, 0)
  else if rx_overflow rx then Some (rx, 0)
  else if rx_cap rx <=? rx_len rx then
    Some (rx {{ rx_overflow := true }}, -1)
  else
    buf ← wr (rx_buf rx) (rx_len rx) b;
    Some (rx {{ rx_buf := buf; rx_len := rx_len rx + 1 }}, 0).

Definition a20_clx_slip_rx_timeout (rx : a20_clx_slip_rx) (now_ticks : Z)
  : a20_clx_slip_rx * Z :=
  if negb (rx_in_frame rx) then (rx, 0)
  else if u64 (now_ticks - rx_last_byte_ticks rx) <=? rx_interbyte_ticks rx
  then (rx, 0)
  else (a20_clx_slip_rx_reset rx, 1).

(** ** Transport screen *)

Abbreviation A20_CLX_SCREEN_OK := (0)%Z (only parsing).
Abbreviation A20_CLX_SCREEN_MALFORMED := (1)%Z (only parsing).
Abbreviation A20_CLX_SCREEN_DROP := (2)%Z (only parsing).

Definition a20_clx_screen_frame (frame : list Z) (len : Z) : option Z :=
  if (len <? A20_CLX_HDR_LEN + A20_CLX_CRC_LEN) || (A20_CLX_UART_MTU <? len)
  then Some A20_CLX_SCREEN_MALFORMED
  else
    magic ← a20_clx_get_le16 frame A20_CLX_OFF_MAGIC;
    if negb (magic =? A20_CLX_MAGIC) then Some A20_CLX_SCREEN_MALFORMED
    else
      kind ← rd frame A20_CLX_OFF_CSUM_KIND;
      if negb (kind =? u8 A20_CLX_CSUM_CCITT) then Some A20_CLX_SCREEN_MALFORMED
      else
        payload_len ← a20_clx_get_le16 frame A20_CLX_OFF_PAYLOAD_LEN;
        if negb (payload_len =? u32 (len - A20_CLX_HDR_LEN - A20_CLX_CRC_LEN))
           || (A20_CLX_UART_MAX_PAYLOAD <? payload_len)
        then Some A20_CLX_SCREEN_MALFORMED
        else
          ttl ← rd frame A20_CLX_OFF_TTL;
          if ttl =? 0 then Some A20_CLX_SCREEN_DROP
          else
            crc_rx ← a20_clx_get_le16 frame (A20_CLX_HDR_LEN + payload_len);
            crc_calc ← a20_clx_crc16_ccitt frame (A20_CLX_HDR_LEN + payload_len);
            if negb (crc_rx =? crc_calc) then Some A20_CLX_SCREEN_MALFORMED
            else Some A20_CLX_SCREEN_OK.

(** ** SLIP transmit escape through a byte sink *)

Definition a20_clx_slip_emit {C} (sink : C -> Z -> C * Z) (b : Z) (ctx : C)
  : C * Z :=
  if b =? A20_CLX_SLIP_END then
    let '(ctx, rc) := sink ctx A20_CLX_SLIP_ESC in
    if negb (rc =? 0) then (ctx, rc) else sink ctx A20_CLX_SLIP_ESC_END
  else if b =? A20_CLX_SLIP_ESC then
    let '(ctx, rc) := sink ctx A20_CLX_SLIP_ESC in
    if negb (rc =? 0) then (ctx, rc) else sink ctx A20_CLX_SLIP_ESC_ESC
  else sink ctx b.

(** ** Draining a link through the decoder

    The receive loop of [a20_clx_uart_poll_link]: every byte goes through
    [a20_clx_slip_rx_byte]; a completed frame is handed on (collected here),
    a discarded half frame is counted. *)
Fixpoint uart_drain (rx : a20_clx_slip_rx) (cs : list Z) (now : Z)
  : option (a20_clx_slip_rx * list (list Z) * Z) :=
  match cs with
  | [] => Some (rx, [], 0)
  | c :: cs =>
      '(rx1, r) ← a20_clx_slip_rx_byte rx (u8 c) now;
      '(rx2, frames, drops) ← uart_drain rx1 cs now;
      if r =? 1
      then Some (rx2, take (Z.to_nat (rx_len rx1)) (rx_buf rx1) :: frames, drops)
      else if r <? 0 then Some (rx2, frames, drops + 1)
      else Some (rx2, frames, drops)
  end.

Definition bytes (s : list Z) : Prop := Forall in_u8 s.

(** CRC of the catalogue string "123456789" is 0x29B1, and the FNV anchors
    of the header comment. *)
Example crc16_check_value :
  a20_clx_crc16_ccitt [49;50;51;52;53;54;55;56;57] 9 = Some 0x29B1.
Proof. vm_compute. reflexivity. Qed.
Example fnv_zero_anchor : a20_clx_fnv1a32 (replicate 16 0) = Some 0x69691905.
Proof. vm_compute. reflexivity. Qed.
Example fnv_ff_anchor : a20_clx_fnv1a32 (replicate 16 255) = Some 0x360779f5.
Proof. vm_compute. reflexivity. Qed.

(** ** Lemmas: accessors *)

Definition le16 (v : Z) : list Z :=
  [u8 (Z.land v 0xFF); u8 (Z.land (Z.shiftr v 8) 0xFF)].
Definition le32 (v : Z) : list Z :=
  [u8 (Z.land v 0xFF); u8 (Z.land (Z.shiftr v 8) 0xFF);
   u8 (Z.land (Z.shiftr v 16) 0xFF); u8 (Z.land (Z.shiftr v 24) 0xFF)].

Lemma byte_of_shift v k : 0 <= k ->
  u8 (Z.land (Z.shiftr v k) 0xFF) = (v / 2 ^ k) mod 256.
Proof.
  intros Hk. change 0xFF with 255. rewrite land_255, Z.shiftr_div_pow2 by done.
  unfold u8. by rewrite Z.mod_mod.
Qed.

Lemma byte_of_low v : u8 (Z.land v 0xFF) = v mod 256.
Proof. rewrite <- (Z.shiftr_0_r v) at 1. rewrite byte_of_shift by lia. by rewrite Z.div_1_r. Qed.

Lemma get_le16_split a b : in_u8 a -> in_u8 b ->
  u16 (Z.lor a (Z.shiftl b 8)) = a + b * 256.
Proof.
  intros Ha Hb. unfold in_u8 in *. rewrite lor_shiftl_add by lia.
  apply u16_small. unfold in_u16. lia.
Qed.

Lemma get_le16_le16 v : in_u16 v ->
  u16 (Z.lor (u8 (Z.land v 0xFF)) (Z.shiftl (u8 (Z.land (Z.shiftr v 8) 0xFF)) 8))
  = v.
Proof.
  intros Hv. rewrite get_le16_split by apply u8_range.
  rewrite byte_of_low, byte_of_shift by lia. unfold in_u16 in Hv. zlia.
Qed.

Lemma u32_shiftl_byte b k : in_u8 b -> 0 <= k <= 24 ->
  u32 (Z.shiftl b k) = b * 2 ^ k.
Proof.
  intros Hb Hk. rewrite Z.shiftl_mul_pow2 by lia. apply u32_small.
  unfold in_u8, in_u32 in *.
  assert (2 ^ k <= 2 ^ 24) by (apply Z.pow_le_mono_r; lia).
  assert (0 < 2 ^ k) by (apply Z.pow_pos_nonneg; lia). nia.
Qed.

Lemma get_le32_split a b c d : in_u8 a -> in_u8 b -> in_u8 c -> in_u8 d ->
  Z.lor (Z.lor (Z.lor a (u32 (Z.shiftl b 8))) (u32 (Z.shiftl c 16)))
        (u32 (Z.shiftl d 24))
  = a + b * 256 + c * 65536 + d * 16777216.
Proof.
  intros Ha Hb Hc Hd.
  rewrite !u32_shiftl_byte by (done || lia).
  rewrite <- (Z.shiftl_mul_pow2 b), <- (Z.shiftl_mul_pow2 c),
    <- (Z.shiftl_mul_pow2 d) by lia.
  unfold in_u8 in *.
  rewrite (lor_shiftl_add a b), (lor_shiftl_add _ c), (lor_shiftl_add _ d) by lia. lia.
Qed.

Lemma get_le32_le32 v : in_u32 v ->
  Z.lor (Z.lor (Z.lor (u8 (Z.land v 0xFF))
      (u32 (Z.shiftl (u8 (Z.land (Z.shiftr v 8) 0xFF)) 8)))
      (u32 (Z.shiftl (u8 (Z.land (Z.shiftr v 16) 0xFF)) 16)))
      (u32 (Z.shiftl (u8 (Z.land (Z.shiftr v 24) 0xFF)) 24)) = v.
Proof.
  intros Hv. rewrite get_le32_split by apply u8_range.
  rewrite byte_of_low, !byte_of_shift by lia. unfold in_u32 in Hv.
  change (2 ^ 8) with 256. change (2 ^ 16) with 65536. change (2 ^ 24) with 16777216.
  zlia.
Qed.

Lemma le16_inj a b c d : in_u8 a -> in_u8 b -> in_u8 c -> in_u8 d ->
  u16 (Z.lor a (Z.shiftl b 8)) = u16 (Z.lor c (Z.shiftl d 8)) -> a = c /\ b = d.
Proof.
  intros Ha Hb Hc Hd. rewrite !get_le16_split by done. unfold in_u8 in *. lia.
Qed.

Lemma put_le16_app pre post i v :
  i = Z.of_nat (length pre) -> (1 < length post)%nat ->
  a20_clx_put_le16 (pre ++ post) i v = Some ((pre ++ le16 v) ++ drop 2 post).
Proof.
  intros Hi Hp. unfold a20_clx_put_le16.
  rewrite wr_app by (done || lia). cbn [mbind option_bind].
  rewrite wr_app by (rewrite ?length_app, ?length_drop; simpl; lia).
  rewrite drop_drop, <- !app_assoc. done.
Qed.

Lemma put_le32_app pre post i v :
  i = Z.of_nat (length pre) -> (3 < length post)%nat ->
  a20_clx_put_le32 (pre ++ post) i v = Some ((pre ++ le32 v) ++ drop 4 post).
Proof.
  intros Hi Hp. unfold a20_clx_put_le32.
  do 3 (rewrite wr_app by (rewrite ?length_app, ?length_drop; simpl; lia);
        cbn [mbind option_bind]).
  rewrite wr_app by (rewrite ?length_app, ?length_drop; simpl; lia).
  rewrite !drop_drop, <- !app_assoc. done.
Qed.

Lemma copy_bytes_app pre post src off n :
  off = Z.of_nat (length pre) -> 0 <= n ->
  n <= Z.of_nat (length post) -> n <= Z.of_nat (length src) ->
  copy_bytes (pre ++ post) off src n =
  Some ((pre ++ take (Z.to_nat n) src) ++ drop (Z.to_nat n) post).
Proof.
  intros -> Hn Hpost Hsrc. unfold copy_bytes.
  destruct (for_inv (fun i dst => dst =
      (pre ++ take (Z.to_nat i) src) ++ drop (Z.to_nat i) post)
    (fun i dst => b ← rd src i; wr dst (Z.of_nat (length pre) + i) b) 0 n
    (pre ++ post)) as (s' & -> & ->); [lia| |..|done].
  - rewrite app_nil_r. done.
  - intros j s Hj ->. destruct (rd_is_Some src j) as [b Hb]; [lia|].
    rewrite Hb. cbn [mbind option_bind]. eexists. split.
    + apply wr_app; [rewrite length_app, length_take; lia|rewrite length_drop; lia].
    + rewrite drop_drop, <- (app_assoc pre _ [b]). replace (Z.to_nat j + 1)%nat with (Z.to_nat (j + 1)) by lia.
      f_equal. f_equal. replace (Z.to_nat (j + 1)) with (S (Z.to_nat j)) by lia.
      symmetry. apply take_S_r. unfold rd in Hb.
      by rewrite (proj2 (Z.leb_le 0 j)) in Hb by lia.
Qed.

(** ** Lemmas: CRC *)

Definition crc16 (s : list Z) : Z := foldl crc16_byte 0xFFFF s.

Lemma crc16_ccitt_eq data n : 0 <= n <= Z.of_nat (length data) ->
  a20_clx_crc16_ccitt data n = Some (crc16 (take (Z.to_nat n) data)).
Proof. apply for_rd_fold. Qed.

Lemma lxor_inj a b c : Z.lxor a c = Z.lxor b c -> a = b.
Proof.
  intros H. rewrite <- (Z.lxor_0_r a), <- (Z.lxor_0_r b), <- (Z.lxor_nilpotent c).
  by rewrite <- !Z.lxor_assoc, H.
Qed.

Lemma lxor_range a b k : 0 <= k -> 0 <= a < 2 ^ k -> 0 <= b < 2 ^ k ->
  0 <= Z.lxor a b < 2 ^ k.
Proof.
  intros Hk Ha Hb. split; [apply Z.lxor_nonneg; lia|].
  rewrite <- (Z.mod_small a (2 ^ k)), <- (Z.mod_small b (2 ^ k)) by done.
  rewrite <- !Z.land_ones by done.
  assert (Z.lxor (Z.land a (Z.ones k)) (Z.land b (Z.ones k))
          = Z.land (Z.lxor a b) (Z.ones k)) as ->.
  { apply Z.bits_inj'. intros i _. rewrite !Z.lxor_spec, !Z.land_spec, Z.lxor_spec.
    by destruct (Z.testbit a i), (Z.testbit b i), (Z.testbit (Z.ones k) i). }
  rewrite Z.land_ones by done. apply Z.mod_pos_bound. by apply Z.pow_pos_nonneg.
Qed.

Lemma c_true_top x : in_u16 x -> c_true (Z.land x 0x8000) = (32768 <=? x).
Proof.
  intros Hx. unfold c_true, in_u16 in *.
  assert (Z.land x (2 ^ 15) = if Z.testbit x 15 then 2 ^ 15 else 0) as E.
  { apply Z.bits_inj'. intros i Hi. rewrite Z.land_spec, Z.pow2_bits_eqb by lia.
    destruct (Z.eqb_spec 15 i) as [<-|Hne].
    - rewrite andb_true_r. destruct (Z.testbit x 15); [|by rewrite Z.bits_0].
      by rewrite Z.pow2_bits_true.
    - rewrite andb_false_r. destruct (Z.testbit x 15); [|by rewrite Z.bits_0].
      by rewrite Z.pow2_bits_false. }
  change 0x8000 with (2 ^ 15). rewrite E.
  rewrite Z.testbit_eqb by lia. change (2 ^ 15) with 32768.
  destruct (Z.leb_spec 32768 x).
  - replace (x / 32768) with 1 by zlia. done.
  - replace (x / 32768) with 0 by zlia. done.
Qed.

Lemma crc16_bit_range x : in_u16 (crc16_bit x).
Proof. unfold crc16_bit. destruct (c_true _); auto with a20. Qed.

Lemma crc16_bit_eq x : in_u16 x ->
  crc16_bit x = if 32768 <=? x then Z.lxor (2 * x - 65536) 0x1021 else 2 * x.
Proof.
  intros Hx. unfold crc16_bit. rewrite c_true_top by done. unfold in_u16 in Hx.
  rewrite Z.shiftl_mul_pow2 by lia. change (2 ^ 1) with 2.
  destruct (Z.leb_spec 32768 x).
  - unfold u16. change 65536 with (2 ^ 16). rewrite <- Z.land_ones by lia.
    assert (Z.land (Z.lxor (x * 2) 0x1021) (Z.ones 16)
      = Z.lxor (Z.land (x * 2) (Z.ones 16)) 0x1021) as ->.
    { apply Z.bits_inj'. intros i Hi. rewrite Z.land_spec, !Z.lxor_spec, Z.land_spec.
      destruct (Z.lt_ge_cases i 16).
      - rewrite Z.ones_spec_low by lia. by rewrite !andb_true_r.
      - rewrite Z.ones_spec_high by lia. rewrite !andb_false_r. simpl.
        change 0x1021 with (0x1021 mod 2 ^ 16). by rewrite Z.mod_pow2_bits_high. }
    rewrite Z.land_ones by lia. f_equal. change (2 ^ 16) with 65536. zlia.
  - unfold u16. zlia.
Qed.

Lemma crc16_bit_inj x y : in_u16 x -> in_u16 y ->
  crc16_bit x = crc16_bit y -> x = y.
Proof.
  intros Hx Hy. rewrite !crc16_bit_eq by done.
  assert (forall z, Z.odd (Z.lxor (2 * z - 65536) 0x1021) = true) as Hodd.
  { intros z. rewrite <- Z.bit0_odd, Z.lxor_spec, Z.bit0_odd.
    replace (2 * z - 65536) with (2 * (z - 32768)) by lia. by rewrite Z.odd_mul. }
  assert (forall z, Z.odd (2 * z) = false) as Heven by (intros z; by rewrite Z.odd_mul).
  destruct (Z.leb_spec 32768 x), (Z.leb_spec 32768 y); intros E.
  - apply lxor_inj in E. lia.
  - apply (f_equal Z.odd) in E. by rewrite Hodd, Heven in E.
  - apply (f_equal Z.odd) in E. by rewrite Hodd, Heven in E.
  - lia.
Qed.

Lemma crc16_bits_inj n x y : in_u16 x -> in_u16 y ->
  Nat.iter n crc16_bit x = Nat.iter n crc16_bit y -> x = y.
Proof.
  assert (forall m z, in_u16 z -> in_u16 (Nat.iter m crc16_bit z)) as Hr.
  { intros m z Hz. destruct m; simpl; [done|]. apply crc16_bit_range. }
  intros Hx Hy. induction n as [|n IH]; simpl; [done|].
  intros E%crc16_bit_inj; [auto|by apply Hr|by apply Hr].
Qed.

Lemma crc16_mix_range crc b : in_u16 crc -> in_u16 (Z.lxor crc (u16 (Z.shiftl b 8))).
Proof. intros H. apply (lxor_range _ _ 16); [lia|done|apply u16_range]. Qed.

Lemma crc16_byte_range crc b : in_u16 crc -> in_u16 (crc16_byte crc b).
Proof. intros _. apply crc16_bit_range. Qed.

Lemma crc16_byte_inj_crc c1 c2 b : in_u16 c1 -> in_u16 c2 ->
  crc16_byte c1 b = crc16_byte c2 b -> c1 = c2.
Proof.
  intros H1 H2 E. apply crc16_bits_inj in E; [|by apply crc16_mix_range..].
  by apply lxor_inj in E.
Qed.

Lemma crc16_byte_inj_byte c b1 b2 : in_u16 c -> in_u8 b1 -> in_u8 b2 ->
  crc16_byte c b1 = crc16_byte c b2 -> b1 = b2.
Proof.
  intros Hc H1 H2 E. apply crc16_bits_inj in E; [|by apply crc16_mix_range..].
  rewrite !(Z.lxor_comm c) in E. apply lxor_inj in E.
  rewrite !Z.shiftl_mul_pow2 in E by lia. unfold u16, in_u8 in *. zlia.
Qed.

Lemma crc16_fold_range s c : in_u16 c -> in_u16 (foldl crc16_byte c s).
Proof.
  revert c. induction s as [|b s IH]; intros c Hc; simpl; [done|].
  apply IH. by apply crc16_byte_range.
Qed.

Lemma crc16_fold_inj s c1 c2 : in_u16 c1 -> in_u16 c2 ->
  foldl crc16_byte c1 s = foldl crc16_byte c2 s -> c1 = c2.
Proof.
  revert c1 c2. induction s as [|b s IH]; intros c1 c2 H1 H2 E; simpl in E; [done|].
  apply IH in E; [|by apply crc16_byte_range..]. by apply crc16_byte_inj_crc in E.
Qed.

Lemma crc16_range s : in_u16 (crc16 s).
Proof. apply crc16_fold_range. unfold in_u16. lia. Qed.

(** Two messages that differ in exactly one byte have different CRCs. *)
Lemma crc16_single_byte s i b b' :
  s !! i = Some b -> in_u8 b -> in_u8 b' -> b <> b' ->
  crc16 (<[i := b']> s) <> crc16 s.
Proof.
  intros Hi Hb Hb' Hne E.
  rewrite insert_take_drop in E by (by eapply lookup_lt_Some).
  rewrite <- (take_drop_middle s i b Hi) in E at 3.
  unfold crc16 in E. rewrite !foldl_app in E. simpl in E.
  pose proof (crc16_range (take i s)) as Hr. unfold crc16 in Hr.
  apply crc16_fold_inj in E; [|by apply crc16_byte_range..].
  apply crc16_byte_inj_byte in E; auto.
Qed.

(** ** SLIP: abstract specification *)

Definition slip_escape (b : Z) : list Z :=
  if b =? A20_CLX_SLIP_END then [A20_CLX_SLIP_ESC; A20_CLX_SLIP_ESC_END]
  else if b =? A20_CLX_SLIP_ESC then [A20_CLX_SLIP_ESC; A20_CLX_SLIP_ESC_ESC]
  else [b].

Definition slip_body (frame : list Z) : list Z := frame ≫= slip_escape.

(** What the encoder promises to put on the wire. *)
Definition slip_spec (frame : list Z) : list Z :=
  A20_CLX_SLIP_END :: slip_body frame ++ [A20_CLX_SLIP_END].

Lemma slip_escape_length b : (1 <= length (slip_escape b) <= 2)%nat.
Proof. unfold slip_escape. repeat split_if; simpl; lia. Qed.

Lemma slip_body_length frame :
  (length frame <= length (slip_body frame) <= 2 * length frame)%nat.
Proof.
  induction frame as [|b frame IH]; [simpl; lia|].
  change (slip_body (b :: frame)) with (slip_escape b ++ slip_body frame).
  rewrite length_app. pose proof (slip_escape_length b). cbn [length]. lia.
Qed.

Lemma slip_body_snoc s b : slip_body (s ++ [b]) = slip_body s ++ slip_escape b.
Proof. unfold slip_body. rewrite bind_app. simpl. by rewrite app_nil_r. Qed.

Lemma slip_escape_bytes b : in_u8 b -> bytes (slip_escape b).
Proof.
  intros H. unfold slip_escape, bytes.
  repeat split_if; rewrite ?Forall_cons_iff; split_and?; try done;
    apply (bool_decide_unpack _); done.
Qed.

Lemma slip_body_bytes s : bytes s -> bytes (slip_body s).
Proof.
  unfold bytes. induction 1 as [|b s Hb _ IH]; simpl; [constructor|].
  apply Forall_app. split; [by apply slip_escape_bytes|done].
Qed.

(** The escaped body never contains the delimiter. *)
Lemma slip_body_no_end s : A20_CLX_SLIP_END ∉ slip_body s.
Proof.
  unfold slip_body. rewrite list_elem_of_bind. intros (b & Hin & _).
  unfold slip_escape in Hin. revert Hin.
  repeat split_if; rewrite ?elem_of_cons, ?elem_of_nil; reflect;
    unfold A20_CLX_SLIP_END, A20_CLX_SLIP_ESC, A20_CLX_SLIP_ESC_END,
      A20_CLX_SLIP_ESC_ESC in *; intros; lia || naive_solver.
Qed.

Lemma slip_encode_loop frame out1 (out0 : list Z) len :
  len = Z.of_nat (length frame) ->
  (2 * length frame + 2 <= length out0)%nat ->
  out1 = A20_CLX_SLIP_END :: drop 1 out0 ->
  for_ 0 len (fun i '(out, o) =>
      b ← rd frame i;
      if b =? A20_CLX_SLIP_END then
        out ← wr out o A20_CLX_SLIP_ESC;
        out ← wr out (o + 1) A20_CLX_SLIP_ESC_END;
        Some (out, o + 2)
      else if b =? A20_CLX_SLIP_ESC then
        out ← wr out o A20_CLX_SLIP_ESC;
        out ← wr out (o + 1) A20_CLX_SLIP_ESC_ESC;
        Some (out, o + 2)
      else
        out ← wr out o b;
        Some (out, o + 1)) (out1, 1)
  = let body := A20_CLX_SLIP_END :: slip_body frame in
    Some (body ++ drop (length body) out0, Z.of_nat (length body)).
Proof.
  intros -> Hlen ->.
  match goal with |- for_ 0 _ ?f _ = _ =>
    destruct (for_inv (fun i st =>
      let body := A20_CLX_SLIP_END :: slip_body (take (Z.to_nat i) frame) in
      st = (body ++ drop (length body) out0, Z.of_nat (length body))) f 0
      (Z.of_nat (length frame)) (A20_CLX_SLIP_END :: drop 1 out0, 1))
      as (s' & -> & ->); [lia|done| |] end.
  - intros j st Hj ->. cbn zeta.
    destruct (rd_is_Some frame j) as [b Hb]; [lia|]. rewrite Hb. cbn [mbind option_bind].
    unfold rd in Hb. rewrite (proj2 (Z.leb_le 0 j)) in Hb by lia.
    replace (Z.to_nat (j + 1)) with (S (Z.to_nat j)) by lia.
    rewrite (take_S_r _ _ _ Hb), slip_body_snoc.
    set (pre := A20_CLX_SLIP_END :: slip_body (take (Z.to_nat j) frame)).
    assert (length pre <= 1 + 2 * Z.to_nat j)%nat as Hpre.
    { subst pre. cbn [length]. pose proof (slip_body_length (take (Z.to_nat j) frame)).
      rewrite length_take in *. lia. }
    change (A20_CLX_SLIP_END :: slip_body (take (Z.to_nat j) frame) ++ slip_escape b)
      with (pre ++ slip_escape b).
    clearbody pre. rewrite length_app. unfold slip_escape.
    destruct (b =? A20_CLX_SLIP_END); [|destruct (b =? A20_CLX_SLIP_ESC)].
    1,2: rewrite wr_app by (rewrite ?length_drop; lia); cbn [mbind option_bind];
      rewrite wr_app by (rewrite ?length_app, ?length_drop; cbn [length]; lia);
      cbn [mbind option_bind]; eexists; split; [reflexivity|];
      rewrite !drop_drop, <- !app_assoc; cbn [length app]; f_equal; lia.
    rewrite wr_app by (rewrite ?length_drop; lia). cbn [mbind option_bind].
    eexists. split; [reflexivity|]. rewrite drop_drop. cbn [length]. f_equal. lia.
  - rewrite Nat2Z.id, take_ge by lia. done.
Qed.

Lemma slip_encoded_len_small n :
  0 <= n <= 2147483646 -> A20_CLX_SLIP_ENCODED_LEN n = 2 * n + 2.
Proof. intros H. unfold A20_CLX_SLIP_ENCODED_LEN, u32. zlia. Qed.

(** The SLIP encoder implements its specification: with a buffer of the
    advertised worst-case size it never writes out of bounds, returns the
    length of the escaped stream, leaves exactly that stream (one END, the
    escaped body, one END) at the front of the buffer and touches nothing
    behind it. *)
Theorem slip_encode_refines frame out cap :
  let len := Z.of_nat (length frame) in
  len <= 2147483646 -> 2 * len + 2 <= cap -> cap <= Z.of_nat (length out) ->
  exists out', a20_clx_slip_encode frame len out cap
               = Some (out', Z.of_nat (length (slip_spec frame)))
    /\ out' = slip_spec frame ++ drop (length (slip_spec frame)) out.
Proof.
  intros len Hlen Hcap Hout. unfold a20_clx_slip_encode.
  rewrite slip_encoded_len_small by lia.
  rewrite (proj2 (Z.ltb_ge _ _)) by lia.
  pose proof (wr_app [] out 0 A20_CLX_SLIP_END) as Hw. cbn [app length] in Hw.
  rewrite Hw by lia. cbn [mbind option_bind].
  rewrite (slip_encode_loop frame _ out) by (done || lia). cbn zeta.
  cbn [mbind option_bind]. pose proof (slip_body_length frame).
  rewrite wr_app by (rewrite ?length_drop; cbn [length]; lia).
  cbn [mbind option_bind]. eexists. split; [|reflexivity].
  unfold slip_spec. rewrite drop_drop, <- !app_assoc.
  cbn [length app]. rewrite !length_app. cbn [length app].
  rewrite <- (app_assoc (slip_body frame)). cbn [app]. do 2 f_equal; lia.
Qed.

Lemma slip_encode_refines_witness :
  exists out', a20_clx_slip_encode [1; 0xC0; 0xDB] 3 (replicate 8 0) 8 = Some (out', 7)
    /\ out' = slip_spec [1; 0xC0; 0xDB] ++ [0].
Proof. apply (slip_encode_refines [1; 0xC0; 0xDB] (replicate 8 0) 8); simpl; lia. Defined.

(** ** SLIP decoder *)

(** The decoder's invariant: the fill level never exceeds the buffer, and an
    open escape implies an open frame. *)
Record slip_rx_wf (rx : a20_clx_slip_rx) : Prop := {
  wf_len : 0 <= rx_len rx <= rx_cap rx;
  wf_cap : rx_cap rx = Z.of_nat (length (rx_buf rx));
  wf_esc : rx_in_escape rx = true -> rx_in_frame rx = true;
}.

Lemma slip_rx_push rx b :
  0 <= rx_len rx < rx_cap rx -> rx_cap rx = Z.of_nat (length (rx_buf rx)) ->
  wr (rx_buf rx) (rx_len rx) b = Some (<[Z.to_nat (rx_len rx) := b]> (rx_buf rx)).
Proof. intros H E. apply wr_Some. lia. Qed.

(** The streaming decoder is memory safe on every input: whatever byte
    arrives in whatever reachable state, it stores inside its buffer, keeps
    its invariant, and a reported frame is non-empty and fits the buffer. *)
Theorem slip_rx_byte_safe rx b now :
  slip_rx_wf rx ->
  exists rx' r, a20_clx_slip_rx_byte rx b now = Some (rx', r) /\ slip_rx_wf rx' /\
    rx_cap rx' = rx_cap rx /\ (r = -1 \/ r = 0 \/ r = 1) /\
    (r = 1 -> 0 < rx_len rx' <= rx_cap rx' /\ rx_in_frame rx' = false).
Proof.
  intros [Hlen Hcap Hesc]. destruct rx as [buf cap len ib last fr esc ov].
  cbn in Hlen, Hcap, Hesc.
  unfold a20_clx_slip_rx_byte, a20_clx_slip_rx_reset.
  cbv [apply_update constant]. cbn.
  repeat split_if; reflect; subst;
    try (rewrite wr_Some by lia; cbn [mbind option_bind]);
    do 2 eexists; (split; [reflexivity|]);
    (split; [constructor; cbn; rewrite ?length_insert; try done; try lia; auto|]);
    cbn; (split; [done|]); (split; [lia|]); intros; try lia; try done.
Qed.

Lemma slip_rx_byte_safe_witness :
  let rx := a20_clx_slip_rx_init (replicate 4 0) 4 50 in
  exists rx' r, a20_clx_slip_rx_byte rx 0xC0 7 = Some (rx', r) /\ slip_rx_wf rx' /\
    rx_cap rx' = rx_cap rx /\ (r = -1 \/ r = 0 \/ r = 1) /\
    (r = 1 -> 0 < rx_len rx' <= rx_cap rx' /\ rx_in_frame rx' = false).
Proof. apply slip_rx_byte_safe. constructor; simpl; [lia|done|done]. Defined.

(** The decoder is inside a frame and holds [done]. *)
Record slip_acc (rx : a20_clx_slip_rx) (done : list Z) : Prop := {
  acc_fr : rx_in_frame rx = true;
  acc_esc : rx_in_escape rx = false;
  acc_ov : rx_overflow rx = false;
  acc_len : rx_len rx = Z.of_nat (length done);
  acc_buf : take (length done) (rx_buf rx) = done;
  acc_cap : rx_cap rx = Z.of_nat (length (rx_buf rx));
}.

Definition slip_idle (rx : a20_clx_slip_rx) : Prop :=
  rx_in_frame rx = false /\ rx_in_escape rx = false /\
  rx_cap rx = Z.of_nat (length (rx_buf rx)).

Lemma uart_drain_app rx l1 l2 now :
  uart_drain rx (l1 ++ l2) now =
  ('(rx1, f1, d1) ← uart_drain rx l1 now;
   '(rx2, f2, d2) ← uart_drain rx1 l2 now;
   Some (rx2, f1 ++ f2, d1 + d2)).
Proof.
  revert rx. induction l1 as [|c l1 IH]; intros rx.
  { simpl. by destruct (uart_drain rx l2 now) as [[[??]?]|]. }
  simpl. destruct (a20_clx_slip_rx_byte rx (u8 c) now) as [[rx1 r]|]; [|done]. simpl.
  rewrite IH. destruct (uart_drain rx1 l1 now) as [[[rx2 f1] d1]|]; [|done]. simpl.
  destruct (r =? 1); [|destruct (r <? 0)]; simpl;
    destruct (uart_drain rx2 l2 now) as [[[??]?]|]; simpl; try done.
  do 2 f_equal. lia.
Qed.

Lemma take_insert_snoc (l : list Z) n x :
  (n < length l)%nat -> take (S n) (<[n := x]> l) = take n l ++ [x].
Proof.
  intros H. rewrite (take_S_r _ _ x) by (by apply list_lookup_insert_eq).
  by rewrite take_insert_ge.
Qed.

(** One escaped byte inside a frame appends that byte. *)
Lemma slip_acc_byte rx done b now :
  slip_acc rx done -> in_u8 b -> Z.of_nat (length done) < rx_cap rx ->
  exists rx', uart_drain rx (slip_escape b) now = Some (rx', [], 0) /\
    slip_acc rx' (done ++ [b]) /\ rx_cap rx' = rx_cap rx.
Proof.
  intros [Hfr Hesc Hov Hlen Hbuf Hcap] Hb Hroom.
  destruct rx as [buf cap len ib last fr esc ov]; cbn in *; subst.
  assert (Hw : wr buf (Z.of_nat (length done)) b = Some (<[length done := b]> buf)).
  { rewrite wr_Some by lia. by rewrite Nat2Z.id. }
  assert (Hacc : forall la, slip_acc
    (Build_a20_clx_slip_rx (<[length done := b]> buf) (Z.of_nat (length buf))
       (Z.of_nat (length done) + 1) ib la true false false) (done ++ [b])).
  { intros la. constructor; cbn; rewrite ?length_app, ?length_insert; try done; [simpl; lia|].
    rewrite Nat.add_1_r, take_insert_snoc by lia. by rewrite Hbuf. }
  unfold slip_escape.
  destruct (Z.eqb_spec b A20_CLX_SLIP_END) as [->|Hne1];
    [|destruct (Z.eqb_spec b A20_CLX_SLIP_ESC) as [->|Hne2]].
  1,2: cbn [uart_drain]; rewrite !u8_small by done; unfold a20_clx_slip_rx_byte;
    cbn -[Z.of_nat]; rewrite (proj2 (Z.leb_gt _ _)), wr_Some, Nat2Z.id by lia; cbn -[Z.of_nat];
    eexists; split; [reflexivity|]; split; [apply Hacc|done].
  simpl. unfold a20_clx_slip_rx_byte. rewrite u8_small by done.
  rewrite (proj2 (Z.eqb_neq _ _) Hne1), (proj2 (Z.eqb_neq _ _) Hne2). cbn.
  rewrite (proj2 (Z.leb_gt _ _)) by lia. rewrite Hw. cbn.
  eexists. split; [reflexivity|]. split; [apply Hacc|done].
Qed.

Lemma slip_acc_body s rx done now :
  slip_acc rx done -> bytes s -> Z.of_nat (length (done ++ s)) <= rx_cap rx ->
  exists rx', uart_drain rx (slip_body s) now = Some (rx', [], 0) /\
    slip_acc rx' (done ++ s) /\ rx_cap rx' = rx_cap rx.
Proof.
  revert rx done. induction s as [|b s IH]; intros rx done Hacc Hs Hroom.
  { exists rx. by rewrite app_nil_r. }
  apply Forall_cons_iff in Hs as [Hb Hs]. rewrite length_app in Hroom. cbn [length] in Hroom.
  change (slip_body (b :: s)) with (slip_escape b ++ slip_body s).
  destruct (slip_acc_byte rx done b now) as (rx1 & E1 & Hacc1 & Hcap1);
    [done|done|lia|].
  destruct (IH rx1 (done ++ [b])) as (rx2 & E2 & Hacc2 & Hcap2);
    [done|done| |].
  { rewrite !length_app. cbn [length]. lia. }
  exists rx2. rewrite uart_drain_app, E1. cbn. rewrite E2. cbn.
  split; [done|]. rewrite <- app_assoc in Hacc2. by rewrite Hcap2.
Qed.

(** The closing END delivers what was accumulated. *)
Lemma slip_acc_end rx s now :
  slip_acc rx s -> s <> [] ->
  exists rx', uart_drain rx [A20_CLX_SLIP_END] now = Some (rx', [s], 0) /\
    slip_idle rx' /\ rx_cap rx' = rx_cap rx.
Proof.
  intros [Hfr Hesc Hov Hlen Hbuf Hcap] Hne.
  destruct rx as [buf cap len ib last fr esc ov]; cbn in *; subst.
  cbn [uart_drain]. rewrite u8_small by done. unfold a20_clx_slip_rx_byte.
  cbn -[Z.of_nat]. rewrite (proj2 (Z.eqb_neq _ _)).
  2: { destruct s; [done|cbn [length]; lia]. }
  cbn -[Z.of_nat]. rewrite Nat2Z.id, Hbuf. eexists. split; [reflexivity|]. done.
Qed.

Lemma slip_idle_end rx now :
  slip_idle rx ->
  exists rx', uart_drain rx [A20_CLX_SLIP_END] now = Some (rx', [], 0) /\
    slip_acc rx' [] /\ rx_cap rx' = rx_cap rx.
Proof.
  intros (Hfr & Hesc & Hcap).
  destruct rx as [buf cap len ib last fr esc ov]; cbn in *; subst.
  eexists. split; [reflexivity|]. done.
Qed.

(** A whole encoded frame, from an idle decoder. *)
Lemma slip_decode_one rx s now :
  slip_idle rx -> bytes s -> s <> [] -> Z.of_nat (length s) <= rx_cap rx ->
  exists rx', uart_drain rx (slip_spec s) now = Some (rx', [s], 0) /\
    slip_idle rx' /\ rx_cap rx' = rx_cap rx.
Proof.
  intros Hidle Hs Hne Hroom.
  change (slip_spec s) with ([A20_CLX_SLIP_END] ++ slip_body s ++ [A20_CLX_SLIP_END]).
  destruct (slip_idle_end rx now Hidle) as (rx0 & E0 & Hacc0 & Hcap0).
  destruct (slip_acc_body s rx0 [] now) as (rx1 & E1 & Hacc1 & Hcap1);
    [done|done|simpl; lia|].
  destruct (slip_acc_end rx1 s now) as (rx2 & E2 & Hidle2 & Hcap2); [done|done|].
  exists rx2. rewrite uart_drain_app, E0. cbn [mbind option_bind].
  rewrite uart_drain_app, E1. cbn [mbind option_bind]. rewrite E2.
  cbn [mbind option_bind app]. split; [done|]. split; [done|congruence].
Qed.

Lemma slip_decode_all frames : forall rx now,
  slip_idle rx ->
  Forall (fun s => bytes s /\ s <> [] /\ Z.of_nat (length s) <= rx_cap rx) frames ->
  exists rx', uart_drain rx (frames ≫= slip_spec) now = Some (rx', frames, 0) /\
    slip_idle rx' /\ rx_cap rx' = rx_cap rx.
Proof.
  induction frames as [|s frames IH]; intros rx now Hidle Hall.
  { exists rx. done. }
  apply Forall_cons_iff in Hall as [(Hs & Hne & Hroom) Hall].
  destruct (slip_decode_one rx s now) as (rx1 & E1 & Hidle1 & Hcap1); [done..|].
  destruct (IH rx1 now Hidle1) as (rx2 & E2 & Hidle2 & Hcap2); [by rewrite Hcap1|].
  exists rx2. change ((s :: frames) ≫= slip_spec) with (slip_spec s ++ (frames ≫= slip_spec)).
  rewrite uart_drain_app, E1. cbn [mbind option_bind]. rewrite E2. cbn. split; [done|]. split; [done|congruence].
Qed.

(** The bytes that go on the wire when [frame] is encoded into the buffer
    [out]: the encoder returns how many of the buffer are to be sent. *)
Definition slip_sent (out : list Z) (frame : list Z) : option (list Z) :=
  '(out, n) ← a20_clx_slip_encode frame (Z.of_nat (length frame)) out (Z.of_nat (length out));
  Some (take (Z.to_nat n) out).

Lemma slip_sent_spec out frame :
  Z.of_nat (length frame) <= 2147483646 -> 2 * Z.of_nat (length frame) + 2 <= Z.of_nat (length out) ->
  slip_sent out frame = Some (slip_spec frame).
Proof.
  intros Hl Ho. unfold slip_sent.
  destruct (slip_encode_refines frame out (Z.of_nat (length out))) as (out' & -> & ->); [done|lia|lia|].
  cbn [mbind option_bind]. by rewrite Nat2Z.id, take_app_length.
Qed.

(** C1: SLIP round trip.  Any sequence of non-empty frames that fit the
    receive buffer, each encoded by [a20_clx_slip_encode] into a transmit
    buffer of the advertised worst-case size, sent back to back and drained
    through an idle decoder, comes out as exactly those frames in order, with
    no drop counted, and the decoder is idle again. *)
Theorem slip_roundtrip out frames rx now :
  slip_idle rx ->
  Forall (fun s => bytes s /\ s <> [] /\ Z.of_nat (length s) <= rx_cap rx /\
    Z.of_nat (length s) <= 2147483646 /\ 2 * Z.of_nat (length s) + 2 <= Z.of_nat (length out)) frames ->
  exists wire rx', mapM (slip_sent out) frames = Some wire /\
    uart_drain rx (concat wire) now = Some (rx', frames, 0) /\
    slip_idle rx' /\ rx_cap rx' = rx_cap rx.
Proof.
  intros Hidle Hall. destruct (slip_decode_all frames rx now Hidle) as (rx' & E & H).
  { apply (list.Forall_impl _ _ _ Hall). intros s (H1 & H2 & H3 & _). done. }
  exists (slip_spec <$> frames), rx'. split; [|by replace (concat _) with (frames ≫= slip_spec) by (clear; induction frames; cbn; congruence)].
  clear -Hall. induction Hall as [|s l (_ & _ & _ & H1 & H2) _ IH]; [done|].
  cbn. rewrite slip_sent_spec by done. cbn. by rewrite IH.
Qed.

Lemma slip_roundtrip_witness :
  let rx := a20_clx_slip_rx_init (replicate 4 0) 4 50 in
  exists wire rx', mapM (slip_sent (replicate 8 0)) [[0xC0; 7]; [0xDB]] = Some wire /\
    uart_drain rx (concat wire) 9 = Some (rx', [[0xC0; 7]; [0xDB]], 0) /\
    slip_idle rx' /\ rx_cap rx' = rx_cap rx.
Proof.
  apply (slip_roundtrip (replicate 8 0) [[0xC0; 7]; [0xDB]]).
  - repeat split; reflexivity.
  - repeat constructor; apply (bool_decide_unpack _); vm_compute; done.
Defined.

(** Re-synchronisation.  In whatever state line noise has left the
    decoder, once the inter-byte silence budget has passed the timeout makes
    it idle, and the next encoded frame is received intact. *)
Theorem slip_resync rx now s :
  slip_rx_wf rx -> rx_interbyte_ticks rx < u64 (now - rx_last_byte_ticks rx) ->
  bytes s -> s <> [] -> Z.of_nat (length s) <= rx_cap rx ->
  exists rx', uart_drain (fst (a20_clx_slip_rx_timeout rx now)) (slip_spec s) now
    = Some (rx', [s], 0) /\ slip_idle rx'.
Proof.
  intros [Hlen Hcap Hesc] Hsil Hs Hne Hroom.
  destruct (slip_decode_one (fst (a20_clx_slip_rx_timeout rx now)) s now)
    as (rx' & E & Hidle & _); [|done..| |by exists rx'].
  - unfold a20_clx_slip_rx_timeout. rewrite (proj2 (Z.leb_gt _ _)) by done.
    destruct rx as [buf cap len ib last fr esc ov]; cbn in *.
    destruct fr; cbn; [done|]. destruct esc; [by specialize (Hesc eq_refl)|done].
  - unfold a20_clx_slip_rx_timeout. rewrite (proj2 (Z.leb_gt _ _)) by done.
    by destruct (negb _).
Qed.

Lemma slip_resync_witness :
  let rx := {| rx_buf := [1; 2; 3; 4]; rx_cap := 4; rx_len := 3;
               rx_interbyte_ticks := 50; rx_last_byte_ticks := 100;
               rx_in_frame := true; rx_in_escape := true; rx_overflow := true |} in
  exists rx', uart_drain (fst (a20_clx_slip_rx_timeout rx 151)) (slip_spec [5; 6]) 151
    = Some (rx', [[5; 6]], 0) /\ slip_idle rx'.
Proof.
  apply slip_resync; [constructor; simpl; lia || done|vm_compute; done|..];
    [repeat constructor; apply (bool_decide_unpack _); vm_compute; done|done|simpl; lia].
Defined.
