(* ===== verification/ClxFrame.v ===== *)
(** * Cluster frame codec (kernel/cluster/frame.c, frame.h)

    The 32-byte header, its encoder and the layer-1 decoder with its pinned
    decision order.  The theorems: encoding then decoding returns the header
    and the payload; the decoder never reads outside the received bytes; what
    it accepts satisfies the wire rules; a single corrupted byte of a
    CRC-protected frame is always rejected. *)

From S2P Require Import Prelude ClxCodec.

(** ** Data *)

Abbreviation A20_CLX_FRAG_SEQ_MASK := (0x0FFF)%Z (only parsing).
Abbreviation A20_CLX_FRAG_LAST := (0x8000)%Z (only parsing).
Abbreviation A20_CLX_FRAG_RESERVED := (0x7000)%Z (only parsing).
Abbreviation A20_CLX_FLAGS_KNOWN := (0x000F)%Z (only parsing).

Inductive a20_frame_verdict :=
| A20_FRAME_OK
| A20_FRAME_SHORT_FRAME
| A20_FRAME_BAD_MAGIC
| A20_FRAME_UNSUPPORTED_VER
| A20_FRAME_UNKNOWN_TYPE
| A20_FRAME_UNSUPPORTED_CSUM_KIND
| A20_FRAME_PAYLOAD_OVER_MTU
| A20_FRAME_PAYLOAD_LEN_MISMATCH
| A20_FRAME_CRC_MISMATCH
| A20_FRAME_FRAG_FLAG_MISMATCH
| A20_FRAME_SEQ_ON_UNRELIABLE
| A20_FRAME_TXID_ON_SEND
| A20_FRAME_FIXED_PAYLOAD_LEN_MISMATCH.

#[global] Instance a20_frame_verdict_eq_dec : EqDecision a20_frame_verdict.
Proof. solve_decision. Defined.

Record a20_frame_hdr := {
  h_ver : Z; h_type : Z; h_flags : Z; h_frag : Z; h_txid : Z;
  h_src_hash : Z; h_dst_hash : Z; h_dst_slot : Z; h_seq : Z;
  h_payload_len : Z; h_ttl : Z; h_csum_kind : Z;
  h_crc_present : bool; h_crc_value : Z;
}.

Definition zero_hdr : a20_frame_hdr :=
  {| h_ver := 0; h_type := 0; h_flags := 0; h_frag := 0; h_txid := 0;
     h_src_hash := 0; h_dst_hash := 0; h_dst_slot := 0; h_seq := 0;
     h_payload_len := 0; h_ttl := 0; h_csum_kind := 0;
     h_crc_present := false; h_crc_value := 0 |}.

(** ** Operations *)

Definition a20_frame_max_payload (mtu : Z) : Z :=
  if A20_CLX_HDR_LEN + A20_CLX_CRC_LEN <=? mtu
  then mtu - A20_CLX_HDR_LEN - A20_CLX_CRC_LEN else 0.

Definition a20_frame_fixed_payload_len (type : Z) : Z :=
  if (type =? A20_CLX_TYPE_HELLO) || (type =? A20_CLX_TYPE_HELLO_ACK) then 32
  else if (type =? A20_CLX_TYPE_PING) || (type =? A20_CLX_TYPE_PONG) then 8
  else if (type =? A20_CLX_TYPE_SEND) || (type =? A20_CLX_TYPE_CALL)
          || (type =? A20_CLX_TYPE_CALL_REPLY) then -1
  else if type =? A20_CLX_TYPE_CLOSE then 0
  else if (type =? A20_CLX_TYPE_ACK) || (type =? A20_CLX_TYPE_NACK) then 4
  else if type =? A20_CLX_TYPE_ERROR then 8
  else -2.

(** [payload = None] is the NULL pointer; the result is the buffer with the
    return value (the frame length or a negative code). *)
Definition a20_frame_encode (buf : list Z) (cap mtu : Z) (h : a20_frame_hdr)
    (payload : option (list Z)) : option (list Z * Z) :=
  if bool_decide (payload = None) && c_true (h_payload_len h) then Some (buf, -1)
  else if negb (h_csum_kind h =? A20_CLX_CSUM_NONE)
          && negb (h_csum_kind h =? A20_CLX_CSUM_CCITT) then Some (buf, -1)
  else if c_true (Z.land (h_flags h) (u16 (Z.lnot A20_CLX_FLAGS_KNOWN)))
  then Some (buf, -1)
  else if c_true (Z.land (h_flags h) A20_CLX_FLAG_COMPRESSED) then Some (buf, -1)
  else if c_true (Z.land (h_frag h) A20_CLX_FRAG_RESERVED) then Some (buf, -1)
  else if a20_frame_max_payload mtu <? h_payload_len h then Some (buf, -2)
  else
    let crc_len := if h_csum_kind h =? A20_CLX_CSUM_CCITT
                   then A20_CLX_CRC_LEN else 0 in
    let len := u32 (A20_CLX_HDR_LEN + h_payload_len h + crc_len) in
    if cap <? len then Some (buf, -3)
    else
      buf ← a20_clx_put_le16 buf A20_CLX_OFF_MAGIC A20_CLX_MAGIC;
      buf ← wr buf A20_CLX_OFF_VER (h_ver h);
      buf ← wr buf A20_CLX_OFF_TYPE (h_type h);
      buf ← a20_clx_put_le16 buf A20_CLX_OFF_FLAGS (h_flags h);
      buf ← a20_clx_put_le16 buf A20_CLX_OFF_FRAG (h_frag h);
      buf ← a20_clx_put_le32 buf A20_CLX_OFF_TXID (h_txid h);
      buf ← a20_clx_put_le32 buf A20_CLX_OFF_SRC_HASH (h_src_hash h);
      buf ← a20_clx_put_le32 buf A20_CLX_OFF_DST_HASH (h_dst_hash h);
      buf ← a20_clx_put_le32 buf A20_CLX_OFF_DST_SLOT (h_dst_slot h);
      buf ← a20_clx_put_le32 buf A20_CLX_OFF_SEQ (h_seq h);
      buf ← a20_clx_put_le16 buf A20_CLX_OFF_PAYLOAD_LEN (h_payload_len h);
      buf ← wr buf A20_CLX_OFF_TTL (h_ttl h);
      buf ← wr buf A20_CLX_OFF_CSUM_KIND (h_csum_kind h);
      buf ← copy_bytes buf A20_CLX_HDR_LEN (default [] payload) (h_payload_len h);
      buf ← (if c_true crc_len then
               crc ← a20_clx_crc16_ccitt buf (A20_CLX_HDR_LEN + h_payload_len h);
               a20_clx_put_le16 buf (A20_CLX_HDR_LEN + h_payload_len h) crc
             else Some buf);
      Some (buf, len).

(** The header fields as the decoder reads them, once the length is known to
    cover the header. *)
Definition read_hdr (buf : list Z) : option a20_frame_hdr :=
  ver ← rd buf A20_CLX_OFF_VER;
  type ← rd buf A20_CLX_OFF_TYPE;
  flags ← a20_clx_get_le16 buf A20_CLX_OFF_FLAGS;
  frag ← a20_clx_get_le16 buf A20_CLX_OFF_FRAG;
  txid ← a20_clx_get_le32 buf A20_CLX_OFF_TXID;
  src_hash ← a20_clx_get_le32 buf A20_CLX_OFF_SRC_HASH;
  dst_hash ← a20_clx_get_le32 buf A20_CLX_OFF_DST_HASH;
  dst_slot ← a20_clx_get_le32 buf A20_CLX_OFF_DST_SLOT;
  seq ← a20_clx_get_le32 buf A20_CLX_OFF_SEQ;
  payload_len ← a20_clx_get_le16 buf A20_CLX_OFF_PAYLOAD_LEN;
  ttl ← rd buf A20_CLX_OFF_TTL;
  csum_kind ← rd buf A20_CLX_OFF_CSUM_KIND;
  Some {| h_ver := ver; h_type := type; h_flags := flags; h_frag := frag;
          h_txid := txid; h_src_hash := src_hash; h_dst_hash := dst_hash;
          h_dst_slot := dst_slot; h_seq := seq; h_payload_len := payload_len;
          h_ttl := ttl; h_csum_kind := csum_kind;
          h_crc_present := false; h_crc_value := 0 |}.

(** The checks after the CRC: fragmentation, sequence number, transaction id
    and fixed payload length. *)
Definition frame_policy (out : a20_frame_hdr) : a20_frame_verdict :=
  if (if c_true (Z.land (h_flags out) A20_CLX_FLAG_FRAGMENTED)
      then (Z.land (h_frag out) A20_CLX_FRAG_SEQ_MASK =? 0)
           && c_true (Z.land (h_frag out) A20_CLX_FRAG_LAST)
      else negb (h_frag out =? 0))
  then A20_FRAME_FRAG_FLAG_MISMATCH
  else if negb (c_true (Z.land (h_flags out) A20_CLX_FLAG_RELIABLE))
          && negb (h_seq out =? 0)
  then A20_FRAME_SEQ_ON_UNRELIABLE
  else if (h_type out =? A20_CLX_TYPE_SEND) && negb (h_txid out =? 0)
  then A20_FRAME_TXID_ON_SEND
  else
    let fixed := a20_frame_fixed_payload_len (h_type out) in
    if (0 <=? fixed) && negb (fixed =? h_payload_len out)
    then A20_FRAME_FIXED_PAYLOAD_LEN_MISMATCH
    else A20_FRAME_OK.

(** Result: verdict, header, and the payload pointer as an offset into [buf]
    ([None] = NULL). *)
Definition a20_frame_decode (buf : list Z) (len mtu : Z)
  : option (a20_frame_verdict * a20_frame_hdr * option Z) :=
  if len <? A20_CLX_HDR_LEN then Some (A20_FRAME_SHORT_FRAME, zero_hdr, None)
  else
    out ← read_hdr buf;
    magic ← a20_clx_get_le16 buf A20_CLX_OFF_MAGIC;
    if negb (magic =? A20_CLX_MAGIC) then Some (A20_FRAME_BAD_MAGIC, out, None)
    else if negb (h_ver out =? u8 A20_CLX_WIRE_VER)
    then Some (A20_FRAME_UNSUPPORTED_VER, out, None)
    else if (h_type out <? A20_CLX_TYPE_HELLO) || (A20_CLX_TYPE_ERROR <? h_type out)
    then Some (A20_FRAME_UNKNOWN_TYPE, out, None)
    else if negb (h_csum_kind out =? A20_CLX_CSUM_NONE)
            && negb (h_csum_kind out =? A20_CLX_CSUM_CCITT)
    then Some (A20_FRAME_UNSUPPORTED_CSUM_KIND, out, None)
    else if (mtu <? A20_CLX_HDR_LEN + A20_CLX_CRC_LEN)
            || (a20_frame_max_payload mtu <? h_payload_len out)
    then Some (A20_FRAME_PAYLOAD_OVER_MTU, out, None)
    else
      let out := out {{ h_crc_present := h_csum_kind out =? A20_CLX_CSUM_CCITT }} in
      let crc_len := if h_crc_present out then A20_CLX_CRC_LEN else 0 in
      let want_len := u32 (A20_CLX_HDR_LEN + h_payload_len out + crc_len) in
      if negb (len =? want_len)
      then Some (A20_FRAME_PAYLOAD_LEN_MISMATCH, out, None)
      else
        let payload := Some A20_CLX_HDR_LEN in
        if h_crc_present out then
          crc_rx ← a20_clx_get_le16 buf (A20_CLX_HDR_LEN + h_payload_len out);
          crc_calc ← a20_clx_crc16_ccitt buf (A20_CLX_HDR_LEN + h_payload_len out);
          let out := out {{ h_crc_value := crc_rx }} in
          if negb (crc_rx =? crc_calc) then Some (A20_FRAME_CRC_MISMATCH, out, payload)
          else Some (frame_policy out, out, payload)
        else Some (frame_policy out, out, payload).

(** ** The wire image of a header *)

Definition hdr_image (magic : Z) (h : a20_frame_hdr) : list Z :=
  le16 magic ++ [h_ver h; h_type h] ++ le16 (h_flags h) ++ le16 (h_frag h)
  ++ le32 (h_txid h) ++ le32 (h_src_hash h) ++ le32 (h_dst_hash h)
  ++ le32 (h_dst_slot h) ++ le32 (h_seq h) ++ le16 (h_payload_len h)
  ++ [h_ttl h; h_csum_kind h].

Definition hdr_bytes : a20_frame_hdr -> list Z := hdr_image A20_CLX_MAGIC.

Record hdr_wf (h : a20_frame_hdr) : Prop := {
  hw_ver : in_u8 (h_ver h); hw_type : in_u8 (h_type h);
  hw_flags : in_u16 (h_flags h); hw_frag : in_u16 (h_frag h);
  hw_txid : in_u32 (h_txid h); hw_src : in_u32 (h_src_hash h);
  hw_dst : in_u32 (h_dst_hash h); hw_slot : in_u32 (h_dst_slot h);
  hw_seq : in_u32 (h_seq h); hw_plen : in_u16 (h_payload_len h);
  hw_ttl : in_u8 (h_ttl h); hw_kind : in_u8 (h_csum_kind h);
}.

(** The header without the two fields the decoder fills from the CRC. *)
Definition wire_hdr (h : a20_frame_hdr) : a20_frame_hdr :=
  h {{ h_crc_present := false; h_crc_value := 0 }}.

Lemma hdr_bytes_length h : length (hdr_bytes h) = 32%nat.
Proof. reflexivity. Qed.

Lemma read_hdr_image magic h rest : hdr_wf h ->
  read_hdr (hdr_image magic h ++ rest) = Some (wire_hdr h).
Proof.
  intros []. destruct h; cbn in *.
  cbv -[u8 u16 u32 Z.land Z.lor Z.shiftl Z.shiftr].
  rewrite !get_le16_le16, !get_le32_le32 by done. done.
Qed.

Lemma read_hdr_bytes h rest : hdr_wf h ->
  read_hdr (hdr_bytes h ++ rest) = Some (wire_hdr h).
Proof. apply read_hdr_image. Qed.

Lemma read_magic_image magic h rest : in_u16 magic ->
  a20_clx_get_le16 (hdr_image magic h ++ rest) A20_CLX_OFF_MAGIC = Some magic.
Proof.
  intros Hm. cbv -[u8 u16 u32 Z.land Z.lor Z.shiftl Z.shiftr].
  by rewrite get_le16_le16.
Qed.

Lemma read_magic h rest :
  a20_clx_get_le16 (hdr_bytes h ++ rest) A20_CLX_OFF_MAGIC = Some A20_CLX_MAGIC.
Proof. reflexivity. Qed.

Lemma le16_of_bytes a b : in_u8 a -> in_u8 b ->
  exists v, in_u16 v /\ [a; b] = le16 v.
Proof.
  intros Ha Hb. exists (a + b * 256). unfold in_u8, in_u16, le16 in *.
  rewrite byte_of_low, byte_of_shift by lia.
  split; [lia|]. change (2 ^ 8) with 256. f_equal; [|f_equal]; zlia.
Qed.

Lemma le32_of_bytes a b c d : in_u8 a -> in_u8 b -> in_u8 c -> in_u8 d ->
  exists v, in_u32 v /\ [a; b; c; d] = le32 v.
Proof.
  intros Ha Hb Hc Hd. exists (a + b * 256 + c * 65536 + d * 16777216).
  unfold in_u8, in_u32, le32 in *.
  rewrite byte_of_low, !byte_of_shift by lia.
  split; [lia|]. change (2 ^ 8) with 256. change (2 ^ 16) with 65536.
  change (2 ^ 24) with 16777216. do 3 (f_equal; [zlia|]). f_equal; zlia.
Qed.

(** Any 32 bytes are the image of some header. *)
Lemma hdr_view buf : bytes buf -> (32 <= length buf)%nat ->
  exists magic h rest, buf = hdr_image magic h ++ rest /\ in_u16 magic /\
    hdr_wf h /\ wire_hdr h = h.
Proof.
  intros Hb Hlen.
  do 32 (destruct buf as [|? buf]; [simpl in Hlen; lia|];
         apply Forall_cons_iff in Hb as [? Hb]).
  destruct (le16_of_bytes z z0) as (magic & Hm & [= -> ->]); [done..|].
  destruct (le16_of_bytes z3 z4) as (flags & Hflags & [= -> ->]); [done..|].
  destruct (le16_of_bytes z5 z6) as (frag & Hfrag & [= -> ->]); [done..|].
  destruct (le32_of_bytes z7 z8 z9 z10) as (txid & Htx & [= -> -> -> ->]); [done..|].
  destruct (le32_of_bytes z11 z12 z13 z14) as (src & Hsrc & [= -> -> -> ->]); [done..|].
  destruct (le32_of_bytes z15 z16 z17 z18) as (dst & Hdst & [= -> -> -> ->]); [done..|].
  destruct (le32_of_bytes z19 z20 z21 z22) as (slot & Hslot & [= -> -> -> ->]); [done..|].
  destruct (le32_of_bytes z23 z24 z25 z26) as (seq & Hseq & [= -> -> -> ->]); [done..|].
  destruct (le16_of_bytes z27 z28) as (plen & Hplen & [= -> ->]); [done..|].
  exists magic, (Build_a20_frame_hdr z1 z2 flags frag txid src dst slot seq plen
    z29 z30 false 0), buf.
  split_and!; [reflexivity|done|constructor; done|reflexivity].
Qed.

(** The bytes a frame occupies on the wire. *)
Definition frame_bytes (h : a20_frame_hdr) (payload : list Z) : list Z :=
  let body := hdr_bytes h ++ payload in
  body ++ (if h_csum_kind h =? A20_CLX_CSUM_CCITT then le16 (crc16 body) else []).

(** What the sender rules of 02 §1 ask of a header. *)
Definition sender_ok (h : a20_frame_hdr) : Prop :=
  (h_csum_kind h = A20_CLX_CSUM_NONE \/ h_csum_kind h = A20_CLX_CSUM_CCITT) /\
  Z.land (h_flags h) (u16 (Z.lnot A20_CLX_FLAGS_KNOWN)) = 0 /\
  Z.land (h_flags h) A20_CLX_FLAG_COMPRESSED = 0 /\
  Z.land (h_frag h) A20_CLX_FRAG_RESERVED = 0.

Ltac seq_write :=
  (rewrite wr_app || rewrite put_le16_app || rewrite put_le32_app);
  [|(rewrite ?length_app, ?hdr_bytes_length; reflexivity)
   |(rewrite ?length_drop; lia)]; cbn [mbind option_bind].

(** The thirteen header stores write [hdr_bytes] over the front. *)
Lemma write_hdr {B} (h : a20_frame_hdr) (buf : list Z) (k : list Z -> option B) :
  (32 <= length buf)%nat ->
  (buf ← a20_clx_put_le16 buf A20_CLX_OFF_MAGIC A20_CLX_MAGIC;
   buf ← wr buf A20_CLX_OFF_VER (h_ver h);
   buf ← wr buf A20_CLX_OFF_TYPE (h_type h);
   buf ← a20_clx_put_le16 buf A20_CLX_OFF_FLAGS (h_flags h);
   buf ← a20_clx_put_le16 buf A20_CLX_OFF_FRAG (h_frag h);
   buf ← a20_clx_put_le32 buf A20_CLX_OFF_TXID (h_txid h);
   buf ← a20_clx_put_le32 buf A20_CLX_OFF_SRC_HASH (h_src_hash h);
   buf ← a20_clx_put_le32 buf A20_CLX_OFF_DST_HASH (h_dst_hash h);
   buf ← a20_clx_put_le32 buf A20_CLX_OFF_DST_SLOT (h_dst_slot h);
   buf ← a20_clx_put_le32 buf A20_CLX_OFF_SEQ (h_seq h);
   buf ← a20_clx_put_le16 buf A20_CLX_OFF_PAYLOAD_LEN (h_payload_len h);
   buf ← wr buf A20_CLX_OFF_TTL (h_ttl h);
   buf ← wr buf A20_CLX_OFF_CSUM_KIND (h_csum_kind h);
   k buf) = k (hdr_bytes h ++ drop 32 buf).
Proof.
  intros Hlen. change buf with ([] ++ buf) at 1.
  do 13 seq_write. rewrite !drop_drop. done.
Qed.

(** Every return of the encoder, by its guard. *)
Lemma encode_ok buf cap mtu h payload :
  sender_ok h -> in_u16 (h_payload_len h) ->
  h_payload_len h <= Z.of_nat (length payload) ->
  h_payload_len h <= a20_frame_max_payload mtu ->
  let w := frame_bytes h (take (Z.to_nat (h_payload_len h)) payload) in
  Z.of_nat (length w) <= cap -> cap <= Z.of_nat (length buf) ->
  a20_frame_encode buf cap mtu h (Some payload) =
  Some (w ++ drop (length w) buf, Z.of_nat (length w)).
Proof.
  intros (Hkind & Hf1 & Hf2 & Hf3) Hpl Hpay Hmax w Hcap Hbuf.
  unfold a20_frame_encode. rewrite Hf1, Hf2, Hf3. cbn [c_true Z.eqb negb].
  rewrite (bool_decide_eq_false_2 (Some payload = None)) by done. cbn [andb].
  assert (negb (h_csum_kind h =? A20_CLX_CSUM_NONE)
          && negb (h_csum_kind h =? A20_CLX_CSUM_CCITT) = false) as ->
    by (destruct Hkind as [->| ->]; done).
  rewrite (proj2 (Z.ltb_ge _ _)) by done. unfold default, id.
  unfold in_u16 in Hpl.
  assert (length (take (Z.to_nat (h_payload_len h)) payload)
          = Z.to_nat (h_payload_len h)) as Hlp by (rewrite length_take; lia).
  assert (length w = (32 + Z.to_nat (h_payload_len h)
      + if (h_csum_kind h =? A20_CLX_CSUM_CCITT)%Z then 2 else 0)%nat) as Hw.
  { subst w. unfold frame_bytes. rewrite !length_app, hdr_bytes_length, Hlp.
    by destruct (_ =? _). }
  rewrite u32_small by (unfold in_u32, A20_CLX_HDR_LEN, A20_CLX_CRC_LEN;
    destruct (_ =? _); lia).
  rewrite (proj2 (Z.ltb_ge _ _)) by
    (unfold A20_CLX_HDR_LEN, A20_CLX_CRC_LEN; revert Hw; destruct (_ =? _); lia).
  rewrite write_hdr by lia.
  rewrite copy_bytes_app by
    (rewrite ?hdr_bytes_length, ?length_drop; unfold A20_CLX_HDR_LEN; lia).
  cbn [mbind option_bind]. rewrite drop_drop.
  set (body := hdr_bytes h ++ take (Z.to_nat (h_payload_len h)) payload) in *.
  assert (length body = 32 + Z.to_nat (h_payload_len h))%nat as Hb
    by (subst body; rewrite length_app, hdr_bytes_length, Hlp; done).
  unfold w, frame_bytes. fold body.
  destruct (h_csum_kind h =? A20_CLX_CSUM_CCITT) eqn:Ek;
    [change (c_true A20_CLX_CRC_LEN) with true|change (c_true 0) with false]; cbn iota.
  - rewrite crc16_ccitt_eq by (rewrite length_app; unfold A20_CLX_HDR_LEN; lia).
    cbn [mbind option_bind].
    replace (Z.to_nat (A20_CLX_HDR_LEN + h_payload_len h)) with (length body)
      by (unfold A20_CLX_HDR_LEN; lia).
    rewrite take_app_length.
    rewrite put_le16_app by (rewrite ?length_drop; unfold A20_CLX_HDR_LEN; lia).
    cbn [mbind option_bind]. rewrite drop_drop, length_app. cbn [length le16].
    rewrite Hb. do 2 f_equal. unfold A20_CLX_HDR_LEN, A20_CLX_CRC_LEN. lia.
  - cbn [mbind option_bind]. rewrite app_nil_r, Hb.
    do 2 f_equal. unfold A20_CLX_HDR_LEN. lia.
Qed.

(** ** Decoding *)

Lemma get_le16_at pre v post o : in_u16 v -> o = Z.of_nat (length pre) ->
  a20_clx_get_le16 (pre ++ le16 v ++ post) o = Some v.
Proof.
  intros Hv ->. unfold a20_clx_get_le16.
  rewrite (rd_app_r _ _ (Z.of_nat (length pre))), Z.sub_diag by lia.
  rewrite (rd_app_r pre) by lia.
  replace (Z.of_nat (length pre) + 1 - Z.of_nat (length pre)) with 1 by lia.
  cbv -[u8 u16 u32 Z.land Z.lor Z.shiftl Z.shiftr]. by rewrite get_le16_le16.
Qed.

(** The decoder's view of an encoded header. *)
Definition decoded_hdr (h : a20_frame_hdr) (payload : list Z) : a20_frame_hdr :=
  if h_csum_kind h =? A20_CLX_CSUM_CCITT
  then h {{ h_crc_present := true; h_crc_value := crc16 (hdr_bytes h ++ payload) }}
  else h {{ h_crc_present := false; h_crc_value := 0 }}.

Lemma frame_policy_crc h b v :
  frame_policy (h {{ h_crc_present := b; h_crc_value := v }}) = frame_policy h.
Proof. reflexivity. Qed.

Lemma set_crc_payload_len h b v :
  h_payload_len (h {{ h_crc_present := b; h_crc_value := v }}) = h_payload_len h.
Proof. reflexivity. Qed.

Lemma set_crc_present h b v :
  h_crc_present (h {{ h_crc_present := b; h_crc_value := v }}) = b.
Proof. reflexivity. Qed.

Lemma set_crc_twice h b v v' :
  (h {{ h_crc_present := b; h_crc_value := v }}) {{ h_crc_value := v' }}
  = h {{ h_crc_present := b; h_crc_value := v' }}.
Proof. by destruct h. Qed.

Lemma decode_frame_bytes h payload rest mtu :
  hdr_wf h -> h_payload_len h = Z.of_nat (length payload) ->
  h_ver h = 0 -> 1 <= h_type h <= 11 ->
  h_csum_kind h = A20_CLX_CSUM_NONE \/ h_csum_kind h = A20_CLX_CSUM_CCITT ->
  34 <= mtu -> h_payload_len h <= a20_frame_max_payload mtu ->
  let w := frame_bytes h payload in
  a20_frame_decode (w ++ rest) (Z.of_nat (length w)) mtu =
  Some (frame_policy h, decoded_hdr h payload, Some 32).
Proof.
  intros Hwf Hpl Hver Htype Hkind Hmtu Hmax w.
  pose proof (hw_plen _ Hwf) as Hplr. unfold in_u16 in Hplr.
  assert (length w = (32 + length payload
      + if (h_csum_kind h =? A20_CLX_CSUM_CCITT)%Z then 2 else 0)%nat) as Hw.
  { subst w. unfold frame_bytes. rewrite !length_app, hdr_bytes_length.
    by destruct (_ =? _). }
  unfold a20_frame_decode. unfold A20_CLX_HDR_LEN at 1.
  rewrite (proj2 (Z.ltb_ge _ _)) by lia.
  subst w. unfold frame_bytes in *. rewrite <- !app_assoc in *.
  rewrite read_hdr_bytes by done. cbn [mbind option_bind].
  rewrite read_magic. cbn [mbind option_bind].
  assert (Hb : forall b x y (P : option (a20_frame_verdict * a20_frame_hdr * option Z)),
    b = false -> y = P -> (if (b : bool) then x else y) = P) by (intros [] **; done).
  do 5 (apply Hb; [clear Hw Hb; destruct h; cbn in *; subst;
    unfold A20_CLX_HDR_LEN, A20_CLX_CRC_LEN, u8 in *;
    try (destruct Hkind as [->| ->]; done); lia|]).
  cbn zeta.
  assert (forall b, (wire_hdr h) {{ h_crc_present := b }}
    = h {{ h_crc_present := b; h_crc_value := 0 }}) as E1 by (by destruct h).
  change (h_csum_kind (wire_hdr h)) with (h_csum_kind h). rewrite E1.
  rewrite set_crc_payload_len, set_crc_present. apply Hb.
  { rewrite u32_small by (unfold in_u32, A20_CLX_HDR_LEN, A20_CLX_CRC_LEN;
      destruct (_ =? _); lia).
    revert Hw. unfold A20_CLX_HDR_LEN, A20_CLX_CRC_LEN. destruct (_ =? _); lia. }
  unfold decoded_hdr.
  destruct (h_csum_kind h =? A20_CLX_CSUM_CCITT) eqn:Ek.
  - rewrite app_assoc. unfold A20_CLX_HDR_LEN in *.
    rewrite get_le16_at by
      (apply crc16_range || (rewrite length_app, hdr_bytes_length; lia)).
    cbn [mbind option_bind].
    rewrite crc16_ccitt_eq by (rewrite !length_app, hdr_bytes_length; lia).
    replace (Z.to_nat (32 + h_payload_len h)) with (length (hdr_bytes h ++ payload))
      by (rewrite length_app, hdr_bytes_length; lia).
    rewrite take_app_length. cbn [mbind option_bind]. rewrite Z.eqb_refl. cbn [negb].
    rewrite set_crc_twice, frame_policy_crc. reflexivity.
  - rewrite frame_policy_crc. reflexivity.
Qed.

(** C2: frame round trip.  A header that obeys the sender rules and the layer-1
    policy, encoded with its payload into a large enough buffer, decodes to
    verdict OK, the same header (with the received CRC filled in) and a
    payload pointer behind which the payload bytes lie. *)
Theorem frame_roundtrip buf cap mtu h payload :
  hdr_wf h -> sender_ok h -> h_ver h = 0 -> 1 <= h_type h <= 11 ->
  frame_policy h = A20_FRAME_OK ->
  h_payload_len h = Z.of_nat (length payload) ->
  34 <= mtu -> h_payload_len h <= a20_frame_max_payload mtu ->
  34 + h_payload_len h <= cap -> cap <= Z.of_nat (length buf) ->
  exists buf' len, a20_frame_encode buf cap mtu h (Some payload) = Some (buf', len) /\
    a20_frame_decode buf' len mtu
      = Some (A20_FRAME_OK, decoded_hdr h payload, Some 32) /\
    take (length payload) (drop 32 buf') = payload.
Proof.
  intros Hwf Hs Hver Htype Hpol Hpl Hmtu Hmax Hcap Hbuf.
  pose proof (hw_plen _ Hwf) as Hplr. unfold in_u16 in Hplr.
  assert (length (frame_bytes h payload) <= 34 + length payload)%nat as Hw.
  { unfold frame_bytes. rewrite !length_app, hdr_bytes_length.
    destruct (_ =? _); simpl; lia. }
  assert (take (Z.to_nat (h_payload_len h)) payload = payload) as Et
    by (apply take_ge; lia).
  eexists _, _. split; [apply encode_ok; rewrite ?Et; (done || lia)|].
  rewrite Et. split.
  - rewrite decode_frame_bytes; [by rewrite Hpol|done..|by destruct Hs|done|done].
  - unfold frame_bytes. rewrite <- !app_assoc. rewrite drop_app_length'; [|done].
    by rewrite take_app_length.
Qed.

Definition demo_hdr : a20_frame_hdr :=
  {| h_ver := 0; h_type := 5; h_flags := 0; h_frag := 0; h_txid := 0;
     h_src_hash := 0x69691905; h_dst_hash := 7; h_dst_slot := 3; h_seq := 0;
     h_payload_len := 3; h_ttl := 8; h_csum_kind := 1;
     h_crc_present := false; h_crc_value := 0 |}.

Lemma frame_roundtrip_witness :
  exists buf' len,
    a20_frame_encode (replicate 64 0) 64 256 demo_hdr (Some [1; 2; 255]) = Some (buf', len) /\
    a20_frame_decode buf' len 256
      = Some (A20_FRAME_OK, decoded_hdr demo_hdr [1; 2; 255], Some 32) /\
    take 3 (drop 32 buf') = [1; 2; 255].
Proof.
  apply (frame_roundtrip (replicate 64 0) 64 256 demo_hdr [1; 2; 255]);
    try (vm_compute; done); try (simpl; lia).
  split; [right; done|]. vm_compute; done.
Defined.

(** ** What the decoder accepts *)

(** The facts the decoder establishes before it says OK. *)
Record accepted (buf : list Z) (len mtu : Z) (h : a20_frame_hdr) (p : option Z)
  : Prop := {
  acc_ver : h_ver h = 0;
  acc_type : 1 <= h_type h <= 11;
  acc_kind : h_csum_kind h = A20_CLX_CSUM_NONE \/ h_csum_kind h = A20_CLX_CSUM_CCITT;
  acc_mtu : 34 + h_payload_len h <= mtu;
  acc_policy : frame_policy h = A20_FRAME_OK;
  acc_ptr : p = Some 32;
  acc_len : len = 32 + h_payload_len h
    + (if h_csum_kind h =? A20_CLX_CSUM_CCITT then 2 else 0);
  acc_bytes : take (Z.to_nat len) buf
    = frame_bytes h (take (Z.to_nat (h_payload_len h)) (drop 32 buf));
}.

Lemma hdr_wf_crc h b v : hdr_wf h -> hdr_wf (h {{ h_crc_present := b; h_crc_value := v }}).
Proof. intros []. by constructor. Qed.

Lemma hdr_bytes_crc m h b v :
  hdr_image m (h {{ h_crc_present := b; h_crc_value := v }}) = hdr_image m h.
Proof. reflexivity. Qed.

Lemma zero_hdr_wf : hdr_wf zero_hdr.
Proof. constructor; apply (bool_decide_unpack _); vm_compute; done. Qed.

Lemma get_le16_is_Some buf o : bytes buf -> 0 <= o -> o + 1 < Z.of_nat (length buf) ->
  exists v, a20_clx_get_le16 buf o = Some v /\ in_u16 v /\
    le16 v = take 2 (drop (Z.to_nat o) buf).
Proof.
  intros Hb Ho Hlt. unfold a20_clx_get_le16.
  destruct (rd_is_Some buf o) as [x Hx]; [lia|].
  destruct (rd_is_Some buf (o + 1)) as [y Hy]; [lia|].
  rewrite Hx, Hy. cbn [mbind option_bind].
  assert (buf !! Z.to_nat o = Some x) as Hx'
    by (revert Hx; unfold rd; rewrite (proj2 (Z.leb_le _ _)) by lia; done).
  assert (buf !! S (Z.to_nat o) = Some y) as Hy'.
  { revert Hy; unfold rd; rewrite (proj2 (Z.leb_le _ _)) by lia.
    by replace (Z.to_nat (o + 1)) with (S (Z.to_nat o)) by lia. }
  pose proof (Forall_lookup_1 _ _ _ _ Hb Hx') as Rx.
  pose proof (Forall_lookup_1 _ _ _ _ Hb Hy') as Ry. simpl in Rx, Ry.
  destruct (le16_of_bytes x y Rx Ry) as (v & Hv & E). exists v.
  rewrite <- E. injection E as -> ->. rewrite get_le16_le16 by done.
  split; [done|split; [done|]].
  by rewrite (drop_S _ _ _ Hx'), (drop_S _ _ _ Hy').
Qed.

Lemma decode_body buf len h :
  bytes buf -> 0 <= len <= Z.of_nat (length buf) -> hdr_wf h ->
  h_csum_kind h = A20_CLX_CSUM_NONE \/ h_csum_kind h = A20_CLX_CSUM_CCITT ->
  let present := h_csum_kind h =? A20_CLX_CSUM_CCITT in
  let n := 32 + h_payload_len h in
  take 32 buf = hdr_bytes h ->
  len = n + (if present then 2 else 0) ->
  if present then
    exists crc, a20_clx_get_le16 buf n = Some crc /\ in_u16 crc /\
      a20_clx_crc16_ccitt buf n = Some (crc16 (take (Z.to_nat n) buf)) /\
      (crc = crc16 (take (Z.to_nat n) buf) ->
       take (Z.to_nat len) buf
         = frame_bytes h (take (Z.to_nat (h_payload_len h)) (drop 32 buf)))
  else take (Z.to_nat len) buf
         = frame_bytes h (take (Z.to_nat (h_payload_len h)) (drop 32 buf)).
Proof.
  intros Hb Hlen Hwf Hkind present n Hh Elen.
  pose proof (hw_plen _ Hwf) as Hpl. unfold in_u16 in Hpl.
  assert (take (Z.to_nat n) buf
    = hdr_bytes h ++ take (Z.to_nat (h_payload_len h)) (drop 32 buf)) as En.
  { replace (Z.to_nat n) with (32 + Z.to_nat (h_payload_len h))%nat by lia.
    by rewrite <- take_take_drop, Hh. }
  unfold frame_bytes. rewrite <- En. fold present. destruct present eqn:Ep.
  - destruct (get_le16_is_Some buf n) as (crc & Hc & Hr & Hle); [done|lia|lia|].
    exists crc. split; [done|split; [done|split]].
    + by rewrite crc16_ccitt_eq by lia.
    + intros ->. rewrite Hle, take_take_drop. f_equal. lia.
  - rewrite app_nil_r. f_equal. lia.
Qed.

Lemma accepted_intro buf len mtu h b v :
  h_ver h = 0 -> 1 <= h_type h <= 11 ->
  h_csum_kind h = A20_CLX_CSUM_NONE \/ h_csum_kind h = A20_CLX_CSUM_CCITT ->
  34 <= mtu -> h_payload_len h <= a20_frame_max_payload mtu ->
  len = 32 + h_payload_len h + (if h_csum_kind h =? A20_CLX_CSUM_CCITT then 2 else 0) ->
  take (Z.to_nat len) buf
    = frame_bytes h (take (Z.to_nat (h_payload_len h)) (drop 32 buf)) ->
  frame_policy h = A20_FRAME_OK ->
  accepted buf len mtu (h {{ h_crc_present := b; h_crc_value := v }}) (Some 32).
Proof.
  intros ???? Hmax ???. constructor; try done.
  revert Hmax. unfold a20_frame_max_payload, A20_CLX_HDR_LEN, A20_CLX_CRC_LEN.
  rewrite (proj2 (Z.leb_le _ _)), set_crc_payload_len by lia. lia.
Qed.

Lemma decode_spec buf len mtu :
  bytes buf -> 0 <= len <= Z.of_nat (length buf) ->
  exists v h p, a20_frame_decode buf len mtu = Some (v, h, p) /\ hdr_wf h /\
    (v = A20_FRAME_OK -> accepted buf len mtu h p).
Proof.
  intros Hb Hlen. unfold a20_frame_decode. unfold A20_CLX_HDR_LEN at 1.
  split_if; reflect.
  { do 3 eexists. split; [done|]. split; [apply zero_hdr_wf|done]. }
  destruct (hdr_view buf) as (magic & h & rest & Ebuf & Hm & Hwf & Hw); [done|lia|].
  assert (forall v, v <> A20_FRAME_OK -> exists v' h' p',
    Some (v, h, @None Z) = Some (v', h', p') /\ hdr_wf h' /\
    (v' = A20_FRAME_OK -> accepted buf len mtu h' p')) as Hrej
    by (intros v Hv; exists v, h, None; done).
  assert (read_hdr buf = Some h) as -> by (rewrite Ebuf, read_hdr_image, Hw; done).
  assert (a20_clx_get_le16 buf A20_CLX_OFF_MAGIC = Some magic) as ->
    by (rewrite Ebuf; apply read_magic_image; done).
  cbn [mbind option_bind].
  do 5 (split_if; [by apply Hrej|reflect]).
  cbn zeta.
  assert (forall b, h {{ h_crc_present := b }}
    = h {{ h_crc_present := b; h_crc_value := 0 }}) as Ecrc
    by (intros b; rewrite <- Hw; by destruct h).
  rewrite Ecrc, set_crc_payload_len, set_crc_present.
  split_if; reflect.
  { do 3 eexists. split; [done|]. split; [by apply hdr_wf_crc|done]. }
  pose proof (hw_plen _ Hwf) as Hpl. unfold in_u16 in Hpl.
  assert (h_csum_kind h = A20_CLX_CSUM_NONE \/ h_csum_kind h = A20_CLX_CSUM_CCITT)
    as Hkind by (revert E2; rewrite andb_false_iff, !negb_false_iff, !Z.eqb_eq; done).
  assert (take 32 buf = hdr_bytes h) as Hh
    by (rewrite Ebuf, E0; apply (take_app_length (hdr_bytes h))).
  assert (len = 32 + h_payload_len h
    + (if h_csum_kind h =? A20_CLX_CSUM_CCITT then 2 else 0)) as El.
  { rewrite E3. apply u32_small. unfold in_u32, A20_CLX_HDR_LEN, A20_CLX_CRC_LEN.
    clear -Hpl. destruct (h_csum_kind h =? _); lia. }
  assert (forall b v, take (Z.to_nat len) buf
      = frame_bytes h (take (Z.to_nat (h_payload_len h)) (drop 32 buf)) ->
    frame_policy h = A20_FRAME_OK ->
    accepted buf len mtu (h {{ h_crc_present := b; h_crc_value := v }}) (Some 32)) as Hacc
    by (intros; by apply accepted_intro).
  pose proof (decode_body buf len h Hb Hlen Hwf Hkind Hh El) as Hbody.
  unfold A20_CLX_HDR_LEN. destruct (h_csum_kind h =? A20_CLX_CSUM_CCITT).
  - destruct Hbody as (crc & -> & Hcr & -> & Hbody). cbn [mbind option_bind].
    rewrite !set_crc_twice, frame_policy_crc. split_if; reflect;
      do 3 eexists; (split; [done|]); (split; [by apply hdr_wf_crc|]); [done|auto].
  - rewrite frame_policy_crc.
    do 3 eexists; (split; [done|]); (split; [by apply hdr_wf_crc|]); auto.
Qed.

(** ** The rules of the wire format

    Written from the protocol, on the numbers of the wire: bit 0 of the flags is
    RELIABLE, bit 1 FRAGMENTED; the low twelve bits of [frag] number the
    fragment and bit 15 marks the last one. *)

(** The payload length of the types that have a fixed one. *)
Definition fixed_lengths : list (Z * Z) :=
  [(1, 32); (2, 32); (3, 8); (4, 8); (8, 0); (9, 4); (10, 4); (11, 8)].

Record wire_rules (h : a20_frame_hdr) : Prop := {
  wr_ver : h_ver h = 0;
  wr_type : 1 <= h_type h <= 11;
  wr_kind : h_csum_kind h = 0 \/ h_csum_kind h = 1;
  wr_fragmented : Z.testbit (h_flags h) 1 = true ->
    h_frag h mod 4096 <> 0 \/ Z.testbit (h_frag h) 15 = false;
  wr_whole : Z.testbit (h_flags h) 1 = false -> h_frag h = 0;
  wr_seq : Z.testbit (h_flags h) 0 = false -> h_seq h = 0;
  wr_txid : h_type h = 5 -> h_txid h = 0;
  wr_fixed : forall n, (h_type h, n) ∈ fixed_lengths -> h_payload_len h = n;
}.

Lemma fixed_len_spec type n : 0 <= a20_frame_fixed_payload_len type /\ a20_frame_fixed_payload_len type = n <->
  (type, n) ∈ fixed_lengths.
Proof.
  unfold a20_frame_fixed_payload_len, fixed_lengths. rewrite !elem_of_cons, elem_of_nil. split.
  - intros [Hp <-]. revert Hp.
    repeat (match goal with |- context [type =? ?k] => destruct (Z.eqb_spec type k) as [->|]; cbn; [tauto || lia|] end).
    lia.
  - intros H. repeat destruct H as [[= -> ->]|H]; done || (cbn; lia).
Qed.

Lemma frame_policy_rules h : frame_policy h = A20_FRAME_OK <->
  (Z.testbit (h_flags h) 1 = true -> h_frag h mod 4096 <> 0 \/ Z.testbit (h_frag h) 15 = false) /\
  (Z.testbit (h_flags h) 1 = false -> h_frag h = 0) /\
  (Z.testbit (h_flags h) 0 = false -> h_seq h = 0) /\
  (h_type h = 5 -> h_txid h = 0) /\
  (forall n, (h_type h, n) ∈ fixed_lengths -> h_payload_len h = n).
Proof.
  unfold frame_policy.
  rewrite (c_true_land_pow2 (h_flags h) 1 ltac:(lia) : c_true (Z.land (h_flags h) 2) = _).
  rewrite (c_true_land_pow2 (h_flags h) 0 ltac:(lia) : c_true (Z.land (h_flags h) 1) = _).
  rewrite (c_true_land_pow2 (h_frag h) 15 ltac:(lia) : c_true (Z.land (h_frag h) 0x8000) = _).
  rewrite (Z.land_ones (h_frag h) 12 ltac:(lia) : Z.land (h_frag h) 0x0FFF = _). change (2 ^ 12) with 4096.
  assert (F : (forall n, (h_type h, n) ∈ fixed_lengths -> h_payload_len h = n) <->
    (0 <=? a20_frame_fixed_payload_len (h_type h)) && negb (a20_frame_fixed_payload_len (h_type h) =? h_payload_len h) = false).
  { destruct (Z.leb_spec 0 (a20_frame_fixed_payload_len (h_type h))) as [H|H]; cbn [andb].
    - rewrite negb_false_iff, Z.eqb_eq. split.
      + intros Hn. symmetry. apply Hn, fixed_len_spec. done.
      + intros <- n Hn. by apply fixed_len_spec in Hn as [_ <-].
    - split; [done|]. intros _ n [Hn _]%fixed_len_spec. lia. }
  rewrite F. clear F.
  destruct (Z.testbit (h_flags h) 1), (Z.testbit (h_flags h) 0), (Z.testbit (h_frag h) 15),
    (Z.eqb_spec (h_frag h mod 4096) 0), (Z.eqb_spec (h_frag h) 0), (Z.eqb_spec (h_seq h) 0), (Z.eqb_spec (h_type h) 5),
    (Z.eqb_spec (h_txid h) 0); cbn [andb negb];
    destruct ((0 <=? _) && _); (split; [intros H; try discriminate H; split_and!; intros; try congruence; auto
      |intros (A & B & C & D & G); try reflexivity; exfalso; try discriminate G;
       first [destruct (A eq_refl); congruence|specialize (B eq_refl); congruence|specialize (C eq_refl); congruence
             |match goal with E : h_type h = 5 |- _ => specialize (D E); congruence end]]).
Qed.

(** C3: the decoder on untrusted bytes.  Whatever [len] received bytes hold,
    the decoder reads only those bytes and returns a verdict, and it accepts
    exactly the frames of the protocol: an accepted frame obeys every rule of
    the wire format, fits the MTU and is byte for byte the encoding of the
    header and the payload it reports, so that no two byte strings decode to the
    same message; and the encoding of a header that obeys the rules, with a
    payload that fits, is accepted. *)
Theorem decode_sound buf len mtu :
  bytes buf -> 0 <= len <= Z.of_nat (length buf) ->
  exists v h p, a20_frame_decode buf len mtu = Some (v, h, p) /\ hdr_wf h /\
    (v = A20_FRAME_OK ->
     wire_rules h /\ 34 + h_payload_len h <= mtu /\ p = Some 32 /\
     take (Z.to_nat len) buf
       = frame_bytes h (take (Z.to_nat (h_payload_len h)) (drop 32 buf))) /\
    (forall h0 payload, hdr_wf h0 -> wire_rules h0 -> h_payload_len h0 = Z.of_nat (length payload) ->
     34 + h_payload_len h0 <= mtu -> take (Z.to_nat len) buf = frame_bytes h0 payload ->
     v = A20_FRAME_OK /\ h = decoded_hdr h0 payload).
Proof.
  intros Hb Hlen. destruct (decode_spec buf len mtu Hb Hlen) as (v & h & p & E & Hwf & H).
  exists v, h, p. split; [done|]. split; [done|]. split.
  - intros ->. specialize (H eq_refl). destruct H as [H1 H2 H3 H4 H5%frame_policy_rules H6 _ H8].
    destruct H5 as (F1 & F2 & F3 & F4 & F5). by split.
  - intros h0 payload Hwf0 [] Hpl Hm Hbytes.
    assert (Ebuf : buf = frame_bytes h0 payload ++ drop (Z.to_nat len) buf) by (by rewrite <- Hbytes, take_drop).
    assert (El : Z.of_nat (length (frame_bytes h0 payload)) = len) by (rewrite <- Hbytes, length_take; lia).
    rewrite Ebuf, <- El, decode_frame_bytes in E; try done.
    + injection E as <- <- _. split; [|done]. by apply frame_policy_rules.
    + pose proof (hw_plen _ Hwf0) as Hr. unfold in_u16 in Hr. lia.
    + unfold a20_frame_max_payload, A20_CLX_HDR_LEN, A20_CLX_CRC_LEN.
      rewrite (proj2 (Z.leb_le _ mtu)); pose proof (hw_plen _ Hwf0) as Hr; unfold in_u16 in Hr; lia.
Qed.

(** The demo frame is accepted, and obeys the rules. *)
Lemma decode_sound_witness :
  exists h p, a20_frame_decode (frame_bytes demo_hdr [1; 2; 255]) 37 256 = Some (A20_FRAME_OK, h, p) /\ wire_rules h.
Proof.
  destruct (decode_sound (frame_bytes demo_hdr [1; 2; 255]) 37 256) as (v & h & p & E & _ & H1 & H2).
  - apply (bool_decide_unpack _). vm_compute. reflexivity.
  - split; [discriminate|]. vm_compute. discriminate.
  - assert (v = A20_FRAME_OK) as ->.
    { vm_compute in E. injection E as <- _ _. reflexivity. }
    exists h, p. split; [exact E|]. apply H1. reflexivity.
Defined.

(** ** Corruption *)

Lemma le16_inj_eq v w : in_u16 v -> in_u16 w -> le16 v = le16 w -> v = w.
Proof.
  intros Hv Hw. unfold le16. rewrite !byte_of_shift, !byte_of_low by lia.
  change (2 ^ 8) with 256. unfold in_u16 in *. intros [= H1 H2]. zlia.
Qed.

Lemma frame_bytes_length h payload :
  Z.of_nat (length (frame_bytes h payload)) = 32 + Z.of_nat (length payload)
    + (if h_csum_kind h =? A20_CLX_CSUM_CCITT then 2 else 0).
Proof.
  unfold frame_bytes. rewrite !length_app, hdr_bytes_length.
  destruct (_ =? _); simpl; lia.
Qed.

(** Where the payload length and the checksum kind sit in a frame. *)
Lemma frame_bytes_fields h payload :
  take 2 (drop 28 (frame_bytes h payload)) = le16 (h_payload_len h) /\
  frame_bytes h payload !! 31%nat = Some (h_csum_kind h).
Proof. split; reflexivity. Qed.

Lemma same_shape h h' p p' i b :
  hdr_wf h -> hdr_wf h' ->
  h_payload_len h = Z.of_nat (length p) -> h_payload_len h' = Z.of_nat (length p') ->
  h_csum_kind h' = A20_CLX_CSUM_NONE \/ h_csum_kind h' = A20_CLX_CSUM_CCITT ->
  h_csum_kind h = A20_CLX_CSUM_CCITT ->
  frame_bytes h' p' = <[i := b]> (frame_bytes h p) ->
  length p' = length p /\ h_csum_kind h' = A20_CLX_CSUM_CCITT.
Proof.
  intros Hwf Hwf' Hl Hl' Hk' Hk E.
  assert (Z.of_nat (length (frame_bytes h' p')) = Z.of_nat (length (frame_bytes h p)))
    as Elen by (rewrite E, length_insert; done).
  rewrite !frame_bytes_length, Hk in Elen. cbn in Elen.
  destruct (frame_bytes_fields h p) as [F1 F2].
  destruct (frame_bytes_fields h' p') as [F1' F2'].
  destruct (decide (i = 31%nat)) as [->|Hi].
  - rewrite E, drop_insert_ge, take_insert_ge, F1 in F1' by lia.
    apply le16_inj_eq in F1'; [|by apply hw_plen..].
    destruct Hk' as [Hk'|Hk']; rewrite Hk' in *; cbn in Elen; [lia|]. split; [lia|done].
  - rewrite E, list_lookup_insert_ne, F2 in F2' by done. injection F2' as F2'.
    rewrite <- F2', Hk in Elen. cbn in Elen. split; [lia|]. by rewrite <- F2'.
Qed.


Lemma crc_frame_corrupt h h' p p' i b b0 :
  bytes p -> in_u8 b -> in_u8 b0 -> b0 <> b ->
  h_csum_kind h = A20_CLX_CSUM_CCITT -> h_csum_kind h' = A20_CLX_CSUM_CCITT ->
  length p' = length p -> frame_bytes h p !! i = Some b0 ->
  frame_bytes h' p' <> <[i := b]> (frame_bytes h p).
Proof.
  intros Hp Hb Hb0 Hne Hk Hk' Hlen Hi E. unfold frame_bytes in *.
  rewrite Hk in E, Hi. rewrite Hk' in E.
  change (A20_CLX_CSUM_CCITT =? A20_CLX_CSUM_CCITT) with true in *. cbn iota in *.
  set (body := hdr_bytes h ++ p) in *. set (body' := hdr_bytes h' ++ p') in *.
  assert (length body' = length body) as El
    by (subst body body'; rewrite !length_app, !hdr_bytes_length; lia).
  destruct (decide (i < length body)%nat) as [Hlt|Hge].
  - rewrite insert_app_l in E by done. rewrite lookup_app_l in Hi by done.
    apply app_inj_1 in E as [Eb Ec]; [|by rewrite length_insert].
    apply le16_inj_eq in Ec; [|apply crc16_range..].
    rewrite Eb in Ec. by eapply crc16_single_byte in Ec.
  - replace i with (length body + (i - length body))%nat in E, Hi by lia.
    rewrite insert_app_r in E. rewrite lookup_app_r in Hi by lia.
    replace (length body + (i - length body) - length body)%nat
      with (i - length body)%nat in Hi by lia.
    apply app_inj_1 in E as [Eb Ec]; [|done]. rewrite Eb in Ec.
    pose proof (lookup_lt_Some _ _ _ Hi) as Hlt.
    rewrite Ec, list_lookup_insert_eq in Hi by done. naive_solver.
Qed.

Lemma accepted_payload_length buf len mtu h p : hdr_wf h ->
  0 <= len <= Z.of_nat (length buf) -> accepted buf len mtu h p ->
  h_payload_len h = Z.of_nat (length (take (Z.to_nat (h_payload_len h)) (drop 32 buf))).
Proof.
  intros Hwf Hlen Hacc. pose proof (hw_plen _ Hwf) as Hpl. unfold in_u16 in Hpl.
  pose proof (acc_len _ _ _ _ _ Hacc) as El. revert El.
  rewrite length_take, length_drop. destruct (_ =? _); lia.
Qed.

(** C4: error detection.  Corrupting any single byte of an accepted
    CRC-protected frame, header and CRC field included, makes the decoder
    reject it: no one-byte error turns a frame into another valid one. *)
Theorem decode_detects_corruption buf mtu h p i b b0 :
  bytes buf -> in_u8 b -> buf !! i = Some b0 -> b0 <> b ->
  a20_frame_decode buf (Z.of_nat (length buf)) mtu = Some (A20_FRAME_OK, h, p) ->
  h_csum_kind h = A20_CLX_CSUM_CCITT ->
  exists v h' p', a20_frame_decode (<[i := b]> buf) (Z.of_nat (length buf)) mtu
    = Some (v, h', p') /\ v <> A20_FRAME_OK.
Proof.
  intros Hb Hbb Hi Hne Hdec Hk.
  destruct (decode_spec buf (Z.of_nat (length buf)) mtu Hb) as (? & ? & ? & E & Hwf & Hok);
    [lia|].
  rewrite Hdec in E. injection E as <- <- <-. specialize (Hok eq_refl).
  assert (bytes (<[i := b]> buf)) as Hb' by (by apply Forall_insert).
  destruct (decode_spec (<[i := b]> buf) (Z.of_nat (length buf)) mtu Hb')
    as (v & h' & p' & E' & Hwf' & Hok'); [rewrite length_insert; lia|].
  exists v, h', p'. split; [done|]. intros ->. specialize (Hok' eq_refl).
  pose proof (accepted_payload_length buf (Z.of_nat (length buf)) mtu h p Hwf
    ltac:(lia) Hok) as Hl.
  pose proof (accepted_payload_length (<[i := b]> buf) (Z.of_nat (length buf)) mtu h' p' Hwf'
    ltac:(rewrite length_insert; lia) Hok') as Hl'.
  pose proof (acc_bytes _ _ _ _ _ Hok) as Eb. pose proof (acc_bytes _ _ _ _ _ Hok') as Eb'.
  pose proof (acc_kind _ _ _ _ _ Hok') as Hk'.
  rewrite Nat2Z.id, take_ge in Eb by done.
  rewrite Nat2Z.id, take_ge in Eb' by (by rewrite length_insert).
  assert (bytes (take (Z.to_nat (h_payload_len h)) (drop 32 buf))) as Hbp
    by (by apply Forall_take, Forall_drop).
  set (pay := take _ (drop 32 buf)) in *. set (pay' := take _ (drop 32 (<[i:=b]> buf))) in *.
  clearbody pay pay'. pose proof (Forall_lookup_1 _ _ _ _ Hb Hi) as Hb0. simpl in Hb0.
  rewrite Eb in Hi, Eb'. symmetry in Eb'.
  destruct (same_shape h h' pay pay' i b) as [Els Hks]; [done..|].
  by eapply crc_frame_corrupt in Eb'.
Qed.

Definition demo_frame : list Z := frame_bytes demo_hdr [1; 2; 255].

Lemma decode_detects_corruption_witness :
  exists v h' p', a20_frame_decode (<[30%nat := 9]> demo_frame) 37 256
    = Some (v, h', p') /\ v <> A20_FRAME_OK.
Proof.
  apply (decode_detects_corruption demo_frame 256
    (decoded_hdr demo_hdr [1; 2; 255]) (Some 32) 30%nat 9 8).
  - apply (bool_decide_unpack _). vm_compute. done.
  - split; [discriminate|reflexivity].
  - vm_compute. done.
  - discriminate.
  - vm_compute. done.
  - done.
Defined.
