(* ===== verification/Seccomp.v ===== *)
(** * Seccomp: the classic-BPF system-call filter (kernel/ipc/seccomp.c)

    The verifier, the interpreter, the filter chain shared between tasks by
    reference counts, and the dispatch gate.  A filter lives in a store of
    heap cells, so the sharing between a parent and the children that inherit
    its chain is explicit.  [None] is undefined behaviour (an access outside
    an array or signed overflow); the interpreter loop takes fuel, and
    running out of it is a result of its own, [Some None]. *)

From stdpp Require Import gmap.
From S2P Require Import Prelude.

(** ** Instruction set *)

Definition BPF_CLASS (code : Z) : Z := Z.land code 0x07.
Abbreviation BPF_LD := (0x00)%Z (only parsing).
Abbreviation BPF_LDX := (0x01)%Z (only parsing).
Abbreviation BPF_ST := (0x02)%Z (only parsing).
Abbreviation BPF_STX := (0x03)%Z (only parsing).
Abbreviation BPF_ALU := (0x04)%Z (only parsing).
Abbreviation BPF_JMP := (0x05)%Z (only parsing).
Abbreviation BPF_RET := (0x06)%Z (only parsing).
Abbreviation BPF_MISC := (0x07)%Z (only parsing).

Definition BPF_SIZE (code : Z) : Z := Z.land code 0x18.
Abbreviation BPF_W := (0x00)%Z (only parsing).

Definition BPF_MODE (code : Z) : Z := Z.land code 0xe0.
Abbreviation BPF_IMM := (0x00)%Z (only parsing).
Abbreviation BPF_ABS := (0x20)%Z (only parsing).
Abbreviation BPF_IND := (0x40)%Z (only parsing).
Abbreviation BPF_MEM := (0x60)%Z (only parsing).
Abbreviation BPF_LEN := (0x80)%Z (only parsing).

Definition BPF_OP (code : Z) : Z := Z.land code 0xf0.
Abbreviation BPF_ADD := (0x00)%Z (only parsing).
Abbreviation BPF_SUB := (0x10)%Z (only parsing).
Abbreviation BPF_MUL := (0x20)%Z (only parsing).
Abbreviation BPF_DIV := (0x30)%Z (only parsing).
Abbreviation BPF_OR := (0x40)%Z (only parsing).
Abbreviation BPF_AND := (0x50)%Z (only parsing).
Abbreviation BPF_LSH := (0x60)%Z (only parsing).
Abbreviation BPF_RSH := (0x70)%Z (only parsing).
Abbreviation BPF_NEG := (0x80)%Z (only parsing).
Abbreviation BPF_MOD := (0x90)%Z (only parsing).
Abbreviation BPF_XOR := (0xa0)%Z (only parsing).

Abbreviation BPF_JA := (0x00)%Z (only parsing).
Abbreviation BPF_JEQ := (0x10)%Z (only parsing).
Abbreviation BPF_JGT := (0x20)%Z (only parsing).
Abbreviation BPF_JGE := (0x30)%Z (only parsing).
Abbreviation BPF_JSET := (0x40)%Z (only parsing).

Definition BPF_SRC (code : Z) : Z := Z.land code 0x08.
Abbreviation BPF_K := (0x00)%Z (only parsing).
Abbreviation BPF_X := (0x08)%Z (only parsing).

Definition BPF_RVAL (code : Z) : Z := Z.land code 0x18.
Abbreviation BPF_RVAL_A := (0x10)%Z (only parsing).
Abbreviation BPF_RVAL_X := (0x18)%Z (only parsing).

Definition BPF_MISCOP (code : Z) : Z := Z.land code 0xf0.
Abbreviation BPF_TAX := (0x00)%Z (only parsing).
Abbreviation BPF_TXA := (0x80)%Z (only parsing).

Definition BPF_MAXINSNS : Z := 4096.
Abbreviation BPF_MEMWORDS := (16)%Z (only parsing).

Abbreviation SECCOMP_MODE_DISABLED := (0)%Z (only parsing).
Abbreviation SECCOMP_MODE_STRICT := (1)%Z (only parsing).
Abbreviation SECCOMP_MODE_FILTER := (2)%Z (only parsing).

Abbreviation SECCOMP_RET_KILL_PROCESS := (0x80000000)%Z (only parsing).
Abbreviation SECCOMP_RET_KILL_THREAD := (0x00000000)%Z (only parsing).
Abbreviation SECCOMP_RET_TRAP := (0x00030000)%Z (only parsing).
Abbreviation SECCOMP_RET_ERRNO := (0x00050000)%Z (only parsing).
Abbreviation SECCOMP_RET_LOG := (0x7ffc0000)%Z (only parsing).
Abbreviation SECCOMP_RET_ALLOW := (0x7fff0000)%Z (only parsing).
Abbreviation SECCOMP_RET_ACTION_FULL := (0xffff0000)%Z (only parsing).
Abbreviation SECCOMP_RET_DATA := (0x0000ffff)%Z (only parsing).

Abbreviation SYS_read := (63)%Z (only parsing).
Abbreviation SYS_write := (64)%Z (only parsing).
Abbreviation SYS_exit := (93)%Z (only parsing).
Abbreviation SYS_exit_group := (94)%Z (only parsing).
Abbreviation SYS_sigreturn := (139)%Z (only parsing).
Abbreviation SIGKILL := (9)%Z (only parsing).

Record sock_filter := { f_code : Z; f_jt : Z; f_jf : Z; f_k : Z }.

Record seccomp_data := {
  sd_nr : Z; sd_arch : Z; sd_ip : Z; sd_args : list Z;
}.

Definition SD_SIZE : Z := 64.

(** The bytes of a [v] of [n] bytes in memory (little-endian machines). *)
Fixpoint le_bytes (n : nat) (v : Z) : list Z :=
  match n with O => [] | S n' => v mod 256 :: le_bytes n' (v / 256) end.

(** [(const unsigned char * )sd]. *)
Definition sd_image (sd : seccomp_data) : list Z :=
  le_bytes 4 (sd_nr sd) ++ le_bytes 4 (sd_arch sd) ++ le_bytes 8 (sd_ip sd)
  ++ concat (le_bytes 8 <$> sd_args sd).

(** [memcpy(&A, data + n, 4)]. *)
Definition load32 (data : list Z) (n : Z) : option Z :=
  b0 ← rd data n; b1 ← rd data (n + 1); b2 ← rd data (n + 2); b3 ← rd data (n + 3);
  Some (b0 + 256 * (b1 + 256 * (b2 + 256 * b3))).

(** ** The verifier *)

Definition seccomp_check_load_off (mode k size : Z) : Z :=
  if mode =? BPF_ABS then
    if (SD_SIZE <? k) || (SD_SIZE - k <? size) then -1 else 0
  else 0.

(** The body of the verifier's loop: [Some None] goes on to the next
    instruction, [Some (Some rc)] returns. *)
Definition verify_insn (f : sock_filter) (i len : Z) : option (option Z) :=
  let code := f_code f in
  let ok := Some None in
  let bad := Some (Some (- EINVAL)) in
  let class := BPF_CLASS code in
  if (class =? BPF_LD) || (class =? BPF_LDX) then
    let mode := BPF_MODE code in
    if mode =? BPF_IMM then ok
    else if (mode =? BPF_ABS) || (mode =? BPF_IND) then
      if negb (BPF_SIZE code =? BPF_W) then bad
      else if (mode =? BPF_ABS) && (seccomp_check_load_off BPF_ABS (f_k f) 4 <? 0)
      then bad else ok
    else if mode =? BPF_MEM then
      if negb (BPF_SIZE code =? BPF_W) then bad
      else if BPF_MEMWORDS <=? f_k f then bad else ok
    else if mode =? BPF_LEN then
      if negb (BPF_SIZE code =? BPF_W) then bad else ok
    else bad
  else if (class =? BPF_ST) || (class =? BPF_STX) then
    if negb (BPF_SIZE code =? BPF_W) || negb (BPF_MODE code =? BPF_MEM) then bad
    else if BPF_MEMWORDS <=? f_k f then bad else ok
  else if class =? BPF_ALU then
    let op := BPF_OP code in
    if bool_decide (op ∈ [BPF_ADD; BPF_SUB; BPF_MUL; BPF_DIV; BPF_OR; BPF_AND;
                          BPF_LSH; BPF_RSH; BPF_MOD; BPF_XOR]) then
      if negb (BPF_SRC code =? BPF_K) && negb (BPF_SRC code =? BPF_X) then bad else ok
    else if op =? BPF_NEG then ok
    else bad
  else if class =? BPF_JMP then
    let op := BPF_OP code in
    if op =? BPF_JA then
      i1 ← sadd32 i 1;
      target ← sadd32 i1 (s32 (f_k f));
      if len <=? target then bad else ok
    else if bool_decide (op ∈ [BPF_JEQ; BPF_JGT; BPF_JGE; BPF_JSET]) then
      if negb (BPF_SRC code =? BPF_K) && negb (BPF_SRC code =? BPF_X) then bad
      else if len <=? i + 1 + f_jt f then bad
      else if len <=? i + 1 + f_jf f then bad
      else ok
    else bad
  else if class =? BPF_RET then
    let rval := BPF_RVAL code in
    if negb (rval =? BPF_K) && negb (rval =? BPF_RVAL_A) && negb (rval =? BPF_RVAL_X)
    then bad else ok
  else if class =? BPF_MISC then
    if (BPF_MISCOP code =? BPF_TAX) || (BPF_MISCOP code =? BPF_TXA) then ok else bad
  else bad.

Definition bpf_verify (fp : list sock_filter) (len : Z) : option Z :=
  if (len <? 1) || (BPF_MAXINSNS <? len) then Some (- EINVAL)
  else
    last ← rd fp (len - 1);
    if negb (BPF_CLASS (f_code last) =? BPF_RET) then Some (- EINVAL)
    else
      r ← for_return 0 len (fun i => f ← rd fp i; verify_insn f i len);
      Some (default 0 r).

(** ** The interpreter *)

Record bpf_state := { pc : Z; rA : Z; rX : Z; rM : list Z }.

Definition bpf_init : bpf_state :=
  {| pc := 0; rA := 0; rX := 0; rM := replicate 16 0 |}.

Definition RET_EPERM : Z := Z.lor SECCOMP_RET_ERRNO (Z.land EPERM SECCOMP_RET_DATA).

(** [A = (uint32_t)(-(int32_t)A)]: the negation of INT_MIN overflows. *)
Definition bpf_neg (a : Z) : option Z :=
  if s32 a =? -2147483648 then None else Some (u32 (- s32 a)).

Definition bpf_alu (op a src : Z) : option Z :=
  if op =? BPF_ADD then Some (u32 (a + src))
  else if op =? BPF_SUB then Some (u32 (a - src))
  else if op =? BPF_MUL then Some (u32 (a * src))
  else if op =? BPF_DIV then Some (if c_true src then a / src else 0)
  else if op =? BPF_MOD then Some (if c_true src then a mod src else 0)
  else if op =? BPF_OR then Some (Z.lor a src)
  else if op =? BPF_AND then Some (Z.land a src)
  else if op =? BPF_LSH then Some (if src <? 32 then u32 (Z.shiftl a src) else 0)
  else if op =? BPF_RSH then Some (if src <? 32 then Z.shiftr a src else 0)
  else if op =? BPF_NEG then bpf_neg a
  else if op =? BPF_XOR then Some (Z.lxor a src)
  else Some a.

(** One iteration of the loop with [pc < len]: the next state or the
    returned action. *)
Definition bpf_step (insns : list sock_filter) (data : list Z) (st : bpf_state)
  : option (bpf_state + Z) :=
  f ← rd insns (pc st);
  let k := f_k f in
  let st := st {{ pc := u32 (pc st + 1) }} in
  let class := BPF_CLASS (f_code f) in
  let operand := if BPF_SRC (f_code f) =? BPF_X then rX st else k in
  if (class =? BPF_LD) || (class =? BPF_LDX) then
    let mode := BPF_MODE (f_code f) in
    if mode =? BPF_IMM then Some (inl (st {{ rA := k }}))
    else if mode =? BPF_ABS then
      if (SD_SIZE <? k) || (SD_SIZE - k <? 4) then Some (inr RET_EPERM)
      else a ← load32 data k; Some (inl (st {{ rA := a }}))
    else if mode =? BPF_IND then
      let n := u32 (rX st + k) in
      if (n <? rX st) || (SD_SIZE <? n) || (SD_SIZE - n <? 4)
      then Some (inr RET_EPERM)
      else a ← load32 data n; Some (inl (st {{ rA := a }}))
    else if mode =? BPF_MEM then
      a ← rd (rM st) (Z.land k (BPF_MEMWORDS - 1)); Some (inl (st {{ rA := a }}))
    else if mode =? BPF_LEN then Some (inl (st {{ rA := SD_SIZE }}))
    else Some (inr RET_EPERM)
  else if class =? BPF_ST then
    m ← wr (rM st) (Z.land k (BPF_MEMWORDS - 1)) (rA st);
    Some (inl (st {{ rM := m }}))
  else if class =? BPF_STX then
    m ← wr (rM st) (Z.land k (BPF_MEMWORDS - 1)) (rX st);
    Some (inl (st {{ rM := m }}))
  else if class =? BPF_ALU then
    a ← bpf_alu (BPF_OP (f_code f)) (rA st) operand;
    Some (inl (st {{ rA := a }}))
  else if class =? BPF_JMP then
    let op := BPF_OP (f_code f) in
    if op =? BPF_JA then Some (inl (st {{ pc := u32 (pc st + k) }}))
    else
      let cond :=
        if op =? BPF_JEQ then c_bool (rA st =? operand)
        else if op =? BPF_JGT then c_bool (operand <? rA st)
        else if op =? BPF_JGE then c_bool (operand <=? rA st)
        else if op =? BPF_JSET then Z.land (rA st) operand
        else 0 in
      let taken := if c_true cond then f_jt f else f_jf f in
      Some (inl (st {{ pc := u32 (pc st + taken) }}))
  else if class =? BPF_RET then
    if BPF_RVAL (f_code f) =? BPF_RVAL_A then Some (inr (rA st))
    else if BPF_RVAL (f_code f) =? BPF_RVAL_X then Some (inr (rX st))
    else Some (inr k)
  else
    if BPF_MISCOP (f_code f) =? BPF_TAX then Some (inl (st {{ rX := rA st }}))
    else Some (inl (st {{ rA := rX st }})).

(** The loop: [Some None] is running out of fuel. *)
Fixpoint bpf_loop (fuel : nat) (insns : list sock_filter) (len : Z)
    (data : list Z) (st : bpf_state) : option (option Z) :=
  if pc st <? len then
    match fuel with
    | O => Some None
    | S fuel' =>
        r ← bpf_step insns data st;
        match r with
        | inl st' => bpf_loop fuel' insns len data st'
        | inr v => Some (Some v)
        end
    end
  else Some (Some RET_EPERM).

Definition bpf_run (fuel : nat) (insns : list sock_filter) (len : Z)
    (sd : seccomp_data) : option (option Z) :=
  bpf_loop fuel insns len (sd_image sd) bpf_init.

(** ** Filters, tasks and the operations on them *)

Record seccomp_filter := {
  refs : Z; prev : option nat; flt_len : Z; insns : list sock_filter;
}.

(** The fields of [task_t] the module uses. *)
Record task := { pid : Z; seccomp_chain : option nat; seccomp_mode : Z }.

(** Heap cells of filters and the task table, both by address. *)
Record world := { heap : gmap nat seccomp_filter; tasks : gmap nat task }.

Definition set_task (w : world) (t : nat) (x : task) : world :=
  w {{ tasks := <[t := x]> (tasks w) }}.

Definition seccomp_inherit (w : world) (child : nat) (parent : option nat)
  : option world :=
  c ← tasks w !! child;
  let c := c {{ seccomp_chain := None; seccomp_mode := SECCOMP_MODE_DISABLED }} in
  let w := set_task w child c in
  match parent with
  | None => Some w
  | Some p =>
      pt ← tasks w !! p;
      match seccomp_chain pt with
      | None => Some w
      | Some fp =>
          f ← heap w !! fp;
          let w := w {{ heap := <[fp := f {{ refs := s32 (refs f + 1) }}]> (heap w) }} in
          Some (set_task w child
            (c {{ seccomp_chain := Some fp; seccomp_mode := seccomp_mode pt }}))
      end
  end.

(** The loop frees one cell per iteration, so the number of cells is enough
    fuel; running out of it is [None]. *)
Fixpoint release_loop (fuel : nat) (h : gmap nat seccomp_filter) (f : option nat)
  : option (gmap nat seccomp_filter) :=
  match f with
  | None => Some h
  | Some p =>
      match fuel with
      | O => None
      | S fuel' =>
          c ← h !! p;
          let c := c {{ refs := s32 (refs c - 1) }} in
          if refs c =? 0 then release_loop fuel' (delete p h) (prev c)
          else Some (<[p := c]> h)
      end
  end.

Definition seccomp_release (w : world) (t : nat) : option world :=
  x ← tasks w !! t;
  let w := set_task w t
    (x {{ seccomp_chain := None; seccomp_mode := SECCOMP_MODE_DISABLED }}) in
  h ← release_loop (S (size (heap w))) (heap w) (seccomp_chain x);
  Some (w {{ heap := h }}).

Definition seccomp_get_mode (w : world) (t : option nat) : option Z :=
  match t with
  | None => Some (- EINVAL)
  | Some t =>
      x ← tasks w !! t;
      if bool_decide (seccomp_chain x = None) then Some (- EINVAL)
      else Some (seccomp_mode x)
  end.

Definition seccomp_set_strict (w : world) (t : option nat) : option (world * Z) :=
  match t with
  | None => Some (w, - ESRCH)
  | Some t =>
      x ← tasks w !! t;
      if (seccomp_mode x =? SECCOMP_MODE_FILTER)
         && negb (bool_decide (seccomp_chain x = None))
      then Some (w, - EACCES)
      else Some (set_task w t (x {{ seccomp_mode := SECCOMP_MODE_STRICT }}), 0)
  end.

(** The in-memory layout of [sock_filter_t]. *)
Fixpoint parse_insns (n : nat) (b : list Z) : option (list sock_filter) :=
  match n with
  | O => Some []
  | S n' =>
      c0 ← b !! 0%nat; c1 ← b !! 1%nat; jt ← b !! 2%nat; jf ← b !! 3%nat;
      k ← load32 b 4;
      rest ← parse_insns n' (drop 8 b);
      Some ({| f_code := c0 + 256 * c1; f_jt := jt; f_jf := jf; f_k := k |} :: rest)
  end.

(** [cell] and [insns_ok] are the results of the two allocations: the address
    of a free cell or NULL, and whether the second one succeeded. *)
Definition seccomp_install_filter (umem : Z -> option Z) (cell : option nat)
    (insns_ok : bool) (w : world) (t : option nat) (ufprog : Z)
  : option (world * Z) :=
  match t with
  | None => Some (w, - ESRCH)
  | Some t =>
      x ← tasks w !! t;
      match copy_from_user umem ufprog 2 with
      | None => Some (w, - EFAULT)
      | Some lb =>
          b0 ← rd lb 0; b1 ← rd lb 1;
          let usrlen := b0 + 256 * b1 in
          let uinsns := ufprog + 2 in
          if (usrlen <? 1) || (BPF_MAXINSNS <? usrlen) then Some (w, - EINVAL)
          else
            match cell with
            | None => Some (w, - ENOMEM)
            | Some p =>
                if negb insns_ok then Some (w, - ENOMEM)
                else
                  match copy_from_user umem uinsns (usrlen * 8) with
                  | None => Some (w, - EFAULT)
                  | Some ib =>
                      prog ← parse_insns (Z.to_nat usrlen) ib;
                      rc ← bpf_verify prog usrlen;
                      if rc <? 0 then Some (w, rc)
                      else
                        let f := {| refs := 1; prev := seccomp_chain x;
                                    flt_len := usrlen; insns := prog |} in
                        let w := w {{ heap := <[p := f]> (heap w) }} in
                        Some (set_task w t (x {{ seccomp_chain := Some p;
                                seccomp_mode := SECCOMP_MODE_FILTER }}), 0)
                  end
            end
      end
  end.

Definition strict_action (nr : Z) : Z :=
  if bool_decide (nr ∈ [SYS_read; SYS_write; SYS_exit; SYS_exit_group; SYS_sigreturn])
  then SECCOMP_RET_ALLOW else SECCOMP_RET_KILL_THREAD.

Definition is_allow (act : Z) : bool :=
  Z.land act SECCOMP_RET_ACTION_FULL =? SECCOMP_RET_ALLOW.

(** The walk over the chain; [Some None] is running out of fuel ([cfuel] for
    the chain, [rfuel] for each program). *)
Fixpoint chain_walk (cfuel rfuel : nat) (h : gmap nat seccomp_filter)
    (sd : seccomp_data) (f : option nat) : option (option Z) :=
  match f with
  | None => Some (Some SECCOMP_RET_ALLOW)
  | Some p =>
      match cfuel with
      | O => Some None
      | S cfuel' =>
          c ← h !! p;
          r ← bpf_run rfuel (insns c) (flt_len c) sd;
          match r with
          | None => Some None
          | Some act =>
              if negb (is_allow act) then Some (Some act)
              else chain_walk cfuel' rfuel h sd (prev c)
          end
      end
  end.

Section Evaluate.
(** ARCH_ELF_MACHINE of the build. *)
Context (arch_elf_machine : Z).

Definition SECCOMP_ARCH_TOKEN : Z := Z.lor 0xc0000000 (u32 arch_elf_machine).

Definition make_sd (nr ip : Z) (args : list Z) : seccomp_data :=
  {| sd_nr := u32 nr; sd_arch := SECCOMP_ARCH_TOKEN; sd_ip := ip; sd_args := args |}.

Definition seccomp_evaluate (cfuel rfuel : nat) (w : world) (t : option nat)
    (nr ip : Z) (args : list Z) : option (option Z) :=
  match t with
  | None => Some (Some SECCOMP_RET_ALLOW)
  | Some t =>
      x ← tasks w !! t;
      match seccomp_chain x with
      | None =>
          if seccomp_mode x =? SECCOMP_MODE_STRICT then Some (Some (strict_action nr))
          else Some (Some SECCOMP_RET_ALLOW)
      | Some p => chain_walk cfuel rfuel (heap w) (make_sd nr ip args) (Some p)
      end
  end.

(** What the gate does to the rest of the kernel. *)
Inductive gate_effect :=
| ExitGroup (code : Z)
| SendSigsys (to si_errno call_addr syscall arch : Z).

(** Result: the return value, [*ret_out] if written, and the effects. *)
Definition seccomp_gate (cfuel rfuel : nat) (w : world) (t : option nat)
    (nr epc : Z) (args : list Z)
  : option (option (Z * option Z * list gate_effect)) :=
  match t with
  | None => Some (Some (0, None, []))
  | Some t =>
      x ← tasks w !! t;
      if bool_decide (seccomp_chain x = None)
         && negb (seccomp_mode x =? SECCOMP_MODE_STRICT)
      then Some (Some (0, None, []))
      else
        r ← seccomp_evaluate cfuel rfuel w (Some t) nr epc args;
        match r with
        | None => Some None
        | Some act =>
            let data := Z.land act SECCOMP_RET_DATA in
            let action := Z.land act SECCOMP_RET_ACTION_FULL in
            Some (Some (
              if action =? SECCOMP_RET_ALLOW then (0, None, [])
              else if action =? SECCOMP_RET_LOG then (0, None, [])
              else if action =? SECCOMP_RET_ERRNO then (1, Some (- data), [])
              else if (action =? SECCOMP_RET_KILL_PROCESS)
                      || (action =? SECCOMP_RET_KILL_THREAD)
              then (1, Some (- EINTR), [ExitGroup (- SIGKILL)])
              else if action =? SECCOMP_RET_TRAP
              then (1, Some (- ENOSYS),
                    [SendSigsys (pid x) data epc (s32 nr) SECCOMP_ARCH_TOKEN])
              else (1, Some (- ENOSYS), [])))
        end
  end.
End Evaluate.

(** ** Soundness of the verifier *)

Record insn_wf (f : sock_filter) : Prop := {
  iw_code : in_u16 (f_code f); iw_jt : in_u8 (f_jt f); iw_jf : in_u8 (f_jf f);
  iw_k : in_u32 (f_k f);
}.

(** What the verifier does not look at: a jump offset with the top bit set
    and the negation. *)
Definition benign (f : sock_filter) : bool :=
  let class := BPF_CLASS (f_code f) in
  let op := BPF_OP (f_code f) in
  negb ((class =? BPF_JMP) && (op =? BPF_JA) && (2147483648 <=? f_k f))
  && negb ((class =? BPF_ALU) && (op =? BPF_NEG)).

Record st_wf (st : bpf_state) : Prop := {
  sw_A : in_u32 (rA st); sw_X : in_u32 (rX st);
  sw_M : Forall in_u32 (rM st); sw_len : length (rM st) = 16%nat;
}.

Lemma bpf_init_wf : st_wf bpf_init.
Proof. constructor; apply (bool_decide_unpack _); vm_compute; done. Qed.

Lemma le_bytes_length n v : length (le_bytes n v) = n.
Proof. revert v. induction n; intros; simpl; auto. Qed.

Lemma le_bytes_bytes n v : Forall in_u8 (le_bytes n v).
Proof.
  revert v. induction n; intros; simpl; constructor; [|done]. unfold in_u8. zlia.
Qed.

Lemma sd_image_length sd : length (sd_args sd) = 6%nat ->
  length (sd_image sd) = 64%nat.
Proof.
  destruct sd as [nr ar ip args]. simpl. intros H.
  do 6 (destruct args as [|? args]; [done|]). destruct args; [|done].
  reflexivity.
Qed.

Lemma sd_image_bytes sd : Forall in_u8 (sd_image sd).
Proof.
  unfold sd_image. rewrite !Forall_app. split_and!; try apply le_bytes_bytes.
  apply Forall_concat, Forall_fmap, Forall_true. intros v. apply le_bytes_bytes.
Qed.

Lemma load32_ok data n : Forall in_u8 data -> 0 <= n -> n + 4 <= Z.of_nat (length data) ->
  exists v, load32 data n = Some v /\ in_u32 v.
Proof.
  intros Hd Hn Hlen. unfold load32.
  assert (forall i, 0 <= i < Z.of_nat (length data) ->
    exists b, rd data i = Some b /\ in_u8 b) as Hrd.
  { intros i Hi. destruct (rd_is_Some data i Hi) as [b Hb]. exists b. split; [done|].
    by eapply rd_Forall. }
  destruct (Hrd n) as (b0 & -> & H0); [lia|].
  destruct (Hrd (n + 1)) as (b1 & -> & H1); [lia|].
  destruct (Hrd (n + 2)) as (b2 & -> & H2); [lia|].
  destruct (Hrd (n + 3)) as (b3 & -> & H3); [lia|].
  simpl. eexists. split; [done|]. unfold in_u8, in_u32 in *. lia.
Qed.

Lemma bpf_alu_ok op a src : in_u32 a -> in_u32 src -> op <> BPF_NEG ->
  exists v, bpf_alu op a src = Some v /\ in_u32 v.
Proof.
  intros Ha Hs Hop. unfold bpf_alu.
  repeat (split_if; [eexists; split; [done|]|]); auto with a20.
  - split_if; [|done]. unfold c_true, in_u32 in *. reflect.
    split; [apply Z.div_pos; lia|]. apply Z.div_lt_upper_bound; nia.
  - split_if; [|done]. unfold c_true, in_u32 in *. reflect.
    pose proof (Z.mod_pos_bound a src). lia.
  - split_if; [auto with a20|done].
  - split_if; [|done]. rewrite Z.shiftr_div_pow2 by (unfold in_u32 in *; lia).
    unfold in_u32 in *. split; [apply Z.div_pos; lia|].
    apply Z.div_lt_upper_bound; nia.
  - split_if; [by reflect|]. split_if; eexists; (split; [done|]); auto with a20.
Qed.

Definition step_good (st : bpf_state) (len : Z) (r : option (bpf_state + Z)) : Prop :=
  match r with
  | Some (inl st') => pc st < pc st' < len /\ st_wf st'
  | Some (inr v) => in_u32 v
  | None => False
  end.

Section Step.
Context (insns : list sock_filter) (data : list Z) (len : Z).
Hypothesis Hlen : 1 <= len <= BPF_MAXINSNS.
Hypothesis Hdata : Forall in_u8 data.
Hypothesis Hsize : length data = 64%nat.

Variables (st : bpf_state) (f : sock_filter).
Hypothesis Hpc : 0 <= pc st < len.
Hypothesis Hst : st_wf st.
Hypothesis Hwf : insn_wf f.

Lemma pc_succ : u32 (pc st + 1) = pc st + 1.
Proof. apply u32_small. unfold in_u32, BPF_MAXINSNS in *. lia. Qed.

Lemma operand_ok : in_u32 (if BPF_SRC (f_code f) =? BPF_X then rX st else f_k f).
Proof. destruct Hst, Hwf. by split_if. Qed.

(** The next state of an instruction that falls through. *)
Lemma good_next a x m : pc st + 1 < len ->
  in_u32 a -> in_u32 x -> Forall in_u32 m -> length m = 16%nat ->
  step_good st len (Some (inl {| pc := u32 (pc st + 1); rA := a; rX := x; rM := m |})).
Proof. intros. cbn. rewrite pc_succ. split; [lia|]. by constructor. Qed.

Lemma good_jump off : 0 <= off -> pc st + 1 + off < len ->
  step_good st len (Some (inl {| pc := u32 (u32 (pc st + 1) + off);
                                 rA := rA st; rX := rX st; rM := rM st |})).
Proof.
  intros. cbn. rewrite pc_succ, u32_small
    by (unfold in_u32, BPF_MAXINSNS in *; lia).
  split; [lia|]. by destruct Hst.
Qed.

Lemma mem_read k : exists v, rd (rM st) (Z.land k (BPF_MEMWORDS - 1)) = Some v /\ in_u32 v.
Proof.
  destruct Hst as [_ _ HM Hl]. pose proof (land_15_range k) as Hr.
  change (BPF_MEMWORDS - 1) with 15.
  destruct (rd_is_Some (rM st) (Z.land k 15)) as [v Hv]; [lia|].
  exists v. split; [done|]. by eapply rd_Forall.
Qed.

Lemma mem_write k v : in_u32 v ->
  exists m, wr (rM st) (Z.land k (BPF_MEMWORDS - 1)) v = Some m /\
    Forall in_u32 m /\ length m = 16%nat.
Proof.
  intros Hv. destruct Hst as [_ _ HM Hl]. pose proof (land_15_range k) as Hr.
  change (BPF_MEMWORDS - 1) with 15. rewrite wr_Some by lia.
  eexists. split; [done|]. split; [by apply Forall_insert|by rewrite length_insert].
Qed.

Hypothesis Hf : rd insns (pc st) = Some f.
Hypothesis Hver : verify_insn f (pc st) len = Some None.
Hypothesis Hben : benign f = true.
Hypothesis Hlast : BPF_CLASS (f_code f) <> BPF_RET -> pc st + 1 < len.

Lemma verify_jmp : BPF_CLASS (f_code f) = BPF_JMP ->
  if BPF_OP (f_code f) =? BPF_JA then pc st + 1 + f_k f < len
  else pc st + 1 + f_jt f < len /\ pc st + 1 + f_jf f < len.
Proof.
  intros Hc. revert Hver. unfold verify_insn. rewrite Hc. cbn -[BPF_OP BPF_SRC].
  split_if.
  - assert (f_k f < 2147483648) as Hk.
    { revert Hben. unfold benign. rewrite Hc. cbn -[BPF_OP]. rewrite E.
      intros. reflect. pose proof (iw_k _ Hwf). simpl in *. by reflect. }
    pose proof (iw_k _ Hwf) as Hk0. unfold in_u32 in Hk0.
    rewrite s32_small by lia. unfold sadd32.
    repeat (split_if; simpl); try done. reflect. intros _. lia.
  - split_if; [|done]. repeat (split_if; [done|]). reflect. lia.
Qed.

Lemma load_ok n : 0 <= n -> (SD_SIZE <? n) || (SD_SIZE - n <? 4) = false ->
  exists v, load32 data n = Some v /\ in_u32 v.
Proof. intros Hn Hb. reflect. unfold SD_SIZE in *. apply load32_ok; [done|lia|lia]. Qed.

Lemma bpf_step_ok : step_good st len (bpf_step insns data st).
Proof.
  unfold bpf_step. rewrite Hf. cbn [mbind option_bind].
  pose proof operand_ok as Hop. pose proof Hst as [HA HX HM Hl].
  pose proof (iw_k _ Hwf) as Hk. pose proof Hwf as [_ Hjt Hjf _].
  assert (BPF_CLASS (f_code f) <> BPF_RET -> forall a x m,
    in_u32 a -> in_u32 x -> Forall in_u32 m -> length m = 16%nat ->
    step_good st len (Some (inl {| pc := u32 (pc st + 1); rA := a; rX := x; rM := m |})))
    as Hnext by (intros; apply good_next; auto).
  change (rX (st {{ pc := u32 (pc st + 1) }})) with (rX st).
  change (rM (st {{ pc := u32 (pc st + 1) }})) with (rM st).
  change (rA (st {{ pc := u32 (pc st + 1) }})) with (rA st).
  change (pc (st {{ pc := u32 (pc st + 1) }})) with (u32 (pc st + 1)).
  split_if.
  { assert (BPF_CLASS (f_code f) <> BPF_RET) as Hc
      by (intros Hc; rewrite Hc in E; done). specialize (Hnext Hc). clear E.
    split_if; [by apply (Hnext (f_k f) (rX st) (rM st))|].
    split_if.
    { split_if; [done|]. destruct (load_ok (f_k f)) as (v & -> & Hv);
        [unfold in_u32 in Hk; lia|done|]. by apply (Hnext v (rX st) (rM st)). }
    split_if.
    { pose proof (u32_range (rX st + f_k f)) as Hr. unfold in_u32 in Hr.
      split_if; [done|].
      rewrite <- orb_assoc in E2. apply orb_false_elim in E2 as [_ E2].
      destruct (load_ok (u32 (rX st + f_k f))) as (v & -> & Hv); [lia|done|].
      by apply (Hnext v (rX st) (rM st)). }
    split_if.
    { destruct (mem_read (f_k f)) as (v & -> & Hv). by apply (Hnext v (rX st) (rM st)). }
    split_if; [by apply (Hnext SD_SIZE (rX st) (rM st))|done]. }
  split_if.
  { reflect. destruct (mem_write (f_k f) (rA st)) as (m & -> & Hm & Hml); [done|].
    apply (Hnext ltac:(by rewrite E0) (rA st) (rX st) m); done. }
  split_if.
  { reflect. destruct (mem_write (f_k f) (rX st)) as (m & -> & Hm & Hml); [done|].
    apply (Hnext ltac:(by rewrite E1) (rA st) (rX st) m); done. }
  split_if.
  { reflect. destruct (bpf_alu_ok (BPF_OP (f_code f)) (rA st)
      (if BPF_SRC (f_code f) =? BPF_X then rX st else f_k f)) as (v & -> & Hv);
      [done|done| |by apply (Hnext ltac:(by rewrite E2) v (rX st) (rM st))].
    intros Hneg. revert Hben. unfold benign. rewrite E2, Hneg. done. }
  split_if.
  { reflect. pose proof (verify_jmp E3) as Hj. split_if; [by apply good_jump; [apply Hk|]|].
    apply good_jump; [split_if; [apply Hjt|apply Hjf]|]. destruct Hj. split_if; done. }
  split_if; [by repeat split_if|]. reflect.
  split_if; [by apply (Hnext E4 (rA st) (rA st) (rM st))
            |by apply (Hnext E4 (rX st) (rX st) (rM st))].
Qed.
End Step.

Record verified (insns : list sock_filter) (len : Z) : Prop := {
  vf_len : 1 <= len <= BPF_MAXINSNS;
  vf_insn : forall i, 0 <= i < len -> exists f, rd insns i = Some f /\
    insn_wf f /\ benign f = true /\ verify_insn f i len = Some None /\
    (BPF_CLASS (f_code f) <> BPF_RET -> i + 1 < len);
}.

Lemma verify_insn_rc f i len rc : verify_insn f i len = Some (Some rc) -> rc = - EINVAL.
Proof.
  unfold verify_insn, sadd32. intros H.
  repeat (match type of H with context [if ?b then _ else _] => destruct b end;
    simpl in H; try discriminate); by injection H.
Qed.

Lemma bpf_verify_rc fp len rc : bpf_verify fp len = Some rc -> rc = 0 \/ rc = - EINVAL.
Proof.
  unfold bpf_verify. split_if; [intros [= <-]; by right|].
  destruct (rd fp (len - 1)) as [last|]; [|done]. cbn [mbind option_bind].
  split_if; [intros [= <-]; by right|].
  destruct (for_return 0 len _) as [[r|]|] eqn:Er; simpl; intros [= <-]; [|by left].
  apply for_return_Some in Er as (j & _ & Hj & _).
  destruct (rd fp j) as [f|]; [|done]. right. by eapply verify_insn_rc.
Qed.

Lemma bpf_verify_verified fp len :
  bpf_verify fp len = Some 0 -> Forall insn_wf fp -> Forall (fun f => benign f = true) fp ->
  verified fp len.
Proof.
  intros Hv Hwf Hb. revert Hv. unfold bpf_verify. split_if; [done|]. reflect.
  destruct (rd fp (len - 1)) as [last|] eqn:El; [|done]. simpl.
  split_if; [done|]. reflect.
  destruct (for_return 0 len _) as [[r|]|] eqn:Er; simpl; [| |done].
  { intros [= ->]. apply for_return_Some in Er as (j & _ & Hj & _).
    destruct (rd fp j) as [f|]; [|done]. by apply verify_insn_rc in Hj. }
  intros _. constructor; [lia|]. intros i Hi.
  pose proof (proj1 (for_return_None _ _ _) Er i Hi) as Hi'. cbv beta in Hi'.
  destruct (rd fp i) as [f|] eqn:Ef; [|done]. cbn [mbind option_bind] in Hi'.
  exists f. split; [done|]. split; [by apply (rd_Forall _ _ _ _ Hwf Ef)|].
  split; [by apply (rd_Forall _ _ _ _ Hb Ef)|]. split; [done|].
  intros Hc. destruct (decide (i = len - 1)) as [->|]; [|lia]. congruence.
Qed.

Lemma bpf_loop_terminates insns len data st fuel :
  verified insns len -> Forall in_u8 data -> length data = 64%nat ->
  st_wf st -> 0 <= pc st < len -> len - pc st <= Z.of_nat fuel ->
  exists v, bpf_loop fuel insns len data st = Some (Some v) /\ in_u32 v.
Proof.
  intros Hv Hd Hs. revert st. induction fuel as [|fuel IH]; intros st Hst Hpc Hfuel;
    [lia|].
  simpl. rewrite (proj2 (Z.ltb_lt _ _)) by lia.
  destruct (vf_insn _ _ Hv (pc st) Hpc) as (f & Hf & Hwf & Hb & Hver & Hlast).
  pose proof (bpf_step_ok insns data len (vf_len _ _ Hv) Hd Hs st f Hpc Hst Hwf Hf
    Hver Hb Hlast) as Hstep.
  destruct (bpf_step insns data st) as [[st'|v]|]; [|eauto|done].
  destruct Hstep as [Hpc' Hst']. apply IH; [done|lia|lia].
Qed.

(** More fuel does not change a result. *)
Lemma bpf_loop_mono fuel fuel' insns len data st v :
  bpf_loop fuel insns len data st = Some (Some v) -> (fuel <= fuel')%nat ->
  bpf_loop fuel' insns len data st = Some (Some v).
Proof.
  revert fuel' st. induction fuel as [|fuel IH]; intros fuel' st.
  - intros H _. destruct fuel'; simpl in *; by destruct (pc st <? len).
  - intros H Hle. destruct fuel' as [|fuel']; [lia|]. revert H. simpl.
    destruct (_ <? _); [|done].
    destruct (bpf_step insns data st) as [[st'|w]|]; simpl; [|done|done].
    intros. apply IH; [done|lia].
Qed.

Lemma bpf_run_terminates insns len sd :
  verified insns len -> length (sd_args sd) = 6%nat ->
  exists v, in_u32 v /\ forall fuel, len <= Z.of_nat fuel ->
    bpf_run fuel insns len sd = Some (Some v).
Proof.
  intros Hv Hargs. pose proof (vf_len _ _ Hv) as Hl.
  destruct (bpf_loop_terminates insns len (sd_image sd) bpf_init (Z.to_nat len))
    as (v & Hr & Hin); simpl; [done|apply sd_image_bytes|by apply sd_image_length
    |apply bpf_init_wf|lia|lia|].
  exists v. split; [done|]. intros fuel Hf. eapply bpf_loop_mono; [done|lia].
Qed.

(** Refuse open (nr 56) with EACCES, allow everything else. *)
Definition demo_filter : list sock_filter :=
  [ {| f_code := 0x20; f_jt := 0; f_jf := 0; f_k := 0 |};
    {| f_code := 0x15; f_jt := 0; f_jf := 1; f_k := 56 |};
    {| f_code := 0x06; f_jt := 0; f_jf := 0; f_k := 0x5000d |};
    {| f_code := 0x06; f_jt := 0; f_jf := 0; f_k := 0x7fff0000 |} ].

Definition demo_sd : seccomp_data :=
  {| sd_nr := 56; sd_arch := 0xc00000f3; sd_ip := 4096; sd_args := [1;2;3;4;5;6] |}.

Lemma demo_filter_wf : Forall insn_wf demo_filter.
Proof.
  repeat constructor; simpl; lia.
Qed.

(** ** What the verifier misses *)

(** [ja 0xffffffff; ret ALLOW]. *)
Definition spin_filter : list sock_filter :=
  [ {| f_code := 0x05; f_jt := 0; f_jf := 0; f_k := 0xffffffff |};
    {| f_code := 0x06; f_jt := 0; f_jf := 0; f_k := 0x7fff0000 |} ].

Lemma spin_loop fuel data : bpf_loop fuel spin_filter 2 data bpf_init = Some None.
Proof.
  induction fuel as [|fuel IH]; [reflexivity|].
  cbn [bpf_loop]. change (pc bpf_init <? 2) with true. cbn iota.
  replace (bpf_step spin_filter data bpf_init)
    with (Some (inl bpf_init) : option (bpf_state + Z)) by reflexivity.
  exact IH.
Qed.

(** C6: the verifier's signed test [(int)i + 1 + (int)k >= len] lets a jump
    offset of 0xffffffff through: the two-instruction program [spin_filter]
    is accepted and the interpreter then never returns, on any system call
    and for any number of steps. *)
Theorem bpf_verify_accepts_endless_loop :
  bpf_verify spin_filter 2 = Some 0 /\
  forall fuel sd, bpf_run fuel spin_filter 2 sd = Some None.
Proof. split; [reflexivity|]. intros fuel sd. apply spin_loop. Qed.
