(* ===== verification/SeccompVerify.v ===== *)
(** * Seccomp: what the verifier guarantees

    A machine for filter programs that, unlike the interpreter of the kernel,
    checks nothing: it has no result for an unknown instruction, a scratch cell
    that does not exist, a load outside the system call's data or a jump out of
    the program.  The verifier accepts exactly the programs this machine can
    run, and on them the interpreter and the machine agree. *)

From stdpp Require Import gmap.
From S2P Require Import Prelude Seccomp.

(** ** Instructions *)

Inductive alu_op := Add | Sub | Mul | Div | Or | And | Lsh | Rsh | Mod | Xor.
Inductive jmp_op := Jeq | Jgt | Jge | Jset.

(** The second operand: the constant of the instruction or the register X. *)
Inductive operand := Const (k : Z) | RegX.

Inductive insn :=
| LdImm (k : Z) | LdAbs (k : Z) | LdInd (k : Z) | LdMem (i : Z) | LdLen
| St (i : Z) | Stx (i : Z)
| Alu (op : alu_op) (o : operand) | Neg
| Ja (off : Z) | Jmp (op : jmp_op) (o : operand) (jt jf : Z)
| RetK (k : Z) | RetA | RetX
| Tax | Txa.

Definition alu_of (op : Z) : option alu_op :=
  if op =? 0 then Some Add else if op =? 1 then Some Sub else if op =? 2 then Some Mul
  else if op =? 3 then Some Div else if op =? 4 then Some Or else if op =? 5 then Some And
  else if op =? 6 then Some Lsh else if op =? 7 then Some Rsh else if op =? 9 then Some Mod
  else if op =? 10 then Some Xor else None.

Definition jmp_of (op : Z) : option jmp_op :=
  if op =? 1 then Some Jeq else if op =? 2 then Some Jgt else if op =? 3 then Some Jge
  else if op =? 4 then Some Jset else None.

(** The encoding: the low three bits are the class; then two bits of size and
    three of mode, or one bit of source and four of operation.  LDX is a second
    encoding of LD (it loads A, as the kernel's interpreter does). *)
Definition decode (f : sock_filter) : option insn :=
  let c := f_code f in let k := f_k f in
  let class := c mod 8 in
  let size := (c / 8) mod 4 in
  let mode := (c / 32) mod 8 in
  let op := (c / 16) mod 16 in
  let o := if (c / 8) mod 2 =? 1 then RegX else Const k in
  if (class =? 0) || (class =? 1) then
    if mode =? 0 then Some (LdImm k)
    else if negb (size =? 0) then None
    else if mode =? 1 then Some (LdAbs k)
    else if mode =? 2 then Some (LdInd k)
    else if mode =? 3 then Some (LdMem k)
    else if mode =? 4 then Some LdLen
    else None
  else if (class =? 2) || (class =? 3) then
    if (size =? 0) && (mode =? 3) then Some (if class =? 2 then St k else Stx k) else None
  else if class =? 4 then
    if op =? 8 then Some Neg else a ← alu_of op; Some (Alu a o)
  else if class =? 5 then
    if op =? 0 then Some (Ja k) else j ← jmp_of op; Some (Jmp j o (f_jt f) (f_jf f))
  else if class =? 6 then
    if size =? 0 then Some (RetK k) else if size =? 2 then Some RetA
    else if size =? 3 then Some RetX else None
  else
    if op =? 0 then Some Tax else if op =? 8 then Some Txa else None.

(** ** The machine *)

Definition alu (op : alu_op) (a b : Z) : Z :=
  match op with
  | Add => (a + b) mod 2 ^ 32
  | Sub => (a - b) mod 2 ^ 32
  | Mul => (a * b) mod 2 ^ 32
  | Div => if b =? 0 then 0 else a / b
  | Mod => if b =? 0 then 0 else a mod b
  | Or => Z.lor a b
  | And => Z.land a b
  | Xor => Z.lxor a b
  | Lsh => if b <? 32 then (a * 2 ^ b) mod 2 ^ 32 else 0
  | Rsh => if b <? 32 then a / 2 ^ b else 0
  end.

Definition holds (op : jmp_op) (a b : Z) : bool :=
  match op with
  | Jeq => a =? b
  | Jgt => b <? a
  | Jge => b <=? a
  | Jset => negb (Z.land a b =? 0)
  end.

(** The four bytes at [k], least significant first. *)
Definition word (d : list Z) (k : Z) : option Z :=
  if (0 <=? k) && (k + 4 <=? Z.of_nat (length d))
  then Some (fold_right (fun b r => b + 256 * r) 0 (take 4 (drop (Z.to_nat k) d)))
  else None.

(** Fail with EPERM: the result of a computed load outside the data. *)
Definition refuse : Z := 0x50001.

(** The program from instruction [pc] on, with registers [a], [x] and scratch
    cells [m]; no result when the machine is stuck or [n] steps do not reach a
    return. *)
Fixpoint run (n : nat) (prog : list insn) (d : list Z) (pc a x : Z) (m : list Z) : option Z :=
  match n with
  | O => None
  | S n' =>
      let next := run n' prog d (pc + 1) in
      let val o := match o with Const k => k | RegX => x end in
      i ← rd prog pc;
      match i with
      | LdImm k => next k x m
      | LdAbs k => v ← word d k; next v x m
      | LdInd k => match word d (x + k) with Some v => next v x m | None => Some refuse end
      | LdMem i => v ← rd m i; next v x m
      | LdLen => next 64 x m
      | St i => m ← wr m i a; next a x m
      | Stx i => m ← wr m i x; next a x m
      | Alu op o => next (alu op a (val o)) x m
      | Neg => next ((- a) mod 2 ^ 32) x m
      | Ja off => run n' prog d (pc + 1 + off) a x m
      | Jmp op o jt jf => run n' prog d (pc + 1 + if holds op a (val o) then jt else jf) a x m
      | RetK k => Some k
      | RetA => Some a
      | RetX => Some x
      | Tax => next a a m
      | Txa => next x x m
      end
  end.

(** ** Safe programs *)

(** Instruction [i] of a program of [len] needs nothing that is not there. *)
Definition safe (i len : Z) (q : insn) : Prop :=
  match q with
  | LdAbs k => k + 4 <= 64
  | LdMem k | St k | Stx k => k < 16
  | Ja off => i + 1 + off < len
  | Jmp _ _ jt jf => i + 1 + jt < len /\ i + 1 + jf < len
  | _ => True
  end.

Definition returns (q : insn) : Prop :=
  match q with RetK _ | RetA | RetX => True | _ => False end.

Record safe_program (prog : list insn) : Prop := {
  sp_len : (1 <= length prog <= 4096)%nat;
  sp_safe : forall i q, prog !! i = Some q -> safe (Z.of_nat i) (Z.of_nat (length prog)) q;
  sp_last : forall q, prog !! pred (length prog) = Some q -> returns q;
}.

(** No unconditional jump whose offset has the top bit set. *)
Definition forward (f : sock_filter) : Prop := forall off, decode f = Some (Ja off) -> off < 2147483648.

(** No negation, which overflows for one value. *)
Definition no_neg (f : sock_filter) : Prop := decode f <> Some Neg.

(** ** Fields of an instruction word *)

Lemma land_field c n s : 0 <= n -> 0 <= s ->
  Z.land c (Z.shiftl (Z.ones n) s) = 2 ^ s * ((c / 2 ^ s) mod 2 ^ n).
Proof.
  intros Hn Hs. rewrite <- Z.land_ones, <- Z.shiftr_div_pow2, Z.mul_comm, <- Z.shiftl_mul_pow2 by done.
  apply Z.bits_inj'. intros i Hi. rewrite Z.land_spec, Z.shiftl_spec, Z.shiftl_spec, Z.land_spec by done.
  destruct (Z.ltb_spec i s).
  - rewrite !(Z.testbit_neg_r _ (i - s)) by lia. by rewrite andb_false_r.
  - rewrite Z.shiftr_spec by lia. by replace (i - s + s) with i by lia.
Qed.

Lemma class_eq c : BPF_CLASS c = c mod 8.
Proof. apply (Z.land_ones c 3). lia. Qed.
Lemma size_eq c : BPF_SIZE c = 8 * ((c / 8) mod 4).
Proof. exact (land_field c 2 3 ltac:(lia) ltac:(lia)). Qed.
Lemma rval_eq c : BPF_RVAL c = 8 * ((c / 8) mod 4).
Proof. exact (land_field c 2 3 ltac:(lia) ltac:(lia)). Qed.
Lemma mode_eq c : BPF_MODE c = 32 * ((c / 32) mod 8).
Proof. exact (land_field c 3 5 ltac:(lia) ltac:(lia)). Qed.
Lemma op_eq c : BPF_OP c = 16 * ((c / 16) mod 16).
Proof. exact (land_field c 4 4 ltac:(lia) ltac:(lia)). Qed.
Lemma misc_eq c : BPF_MISCOP c = 16 * ((c / 16) mod 16).
Proof. exact (land_field c 4 4 ltac:(lia) ltac:(lia)). Qed.
Lemma src_eq c : BPF_SRC c = 8 * ((c / 8) mod 2).
Proof. exact (land_field c 1 3 ltac:(lia) ltac:(lia)). Qed.

Lemma forward_ja f : forward f -> BPF_CLASS (f_code f) = BPF_JMP -> BPF_OP (f_code f) = BPF_JA -> f_k f < 2147483648.
Proof.
  intros H Ec Eo. apply H. unfold decode. rewrite class_eq in Ec. rewrite op_eq in Eo. rewrite Ec. cbn.
  by replace ((f_code f / 16) mod 16) with 0 by lia.
Qed.

(** Every value of a field. *)
Fixpoint among (v : Z) (l : list Z) : Prop :=
  match l with [] => False | k :: l' => v = k \/ among v l' end.

Ltac among_mod := match goal with |- among (?c mod ?n) _ => pose proof (Z.mod_pos_bound c n); cbn; lia end.

Lemma mod_2 c : among (c mod 2) [0; 1].
Proof. among_mod. Qed.
Lemma mod_4 c : among (c mod 4) [0; 1; 2; 3].
Proof. among_mod. Qed.
Lemma mod_8 c : among (c mod 8) [0; 1; 2; 3; 4; 5; 6; 7].
Proof. among_mod. Qed.
Lemma mod_16 c : among (c mod 16) [0; 1; 2; 3; 4; 5; 6; 7; 8; 9; 10; 11; 12; 13; 14; 15].
Proof. among_mod. Qed.

Ltac each H := cbn [among] in H; repeat destruct H as [->|H]; [..|done].

(** Compute with the fields. *)
Ltac comp :=
  cbv [Z.mul Pos.mul Pos.add Z.eqb Pos.eqb orb andb negb alu_of jmp_of bool_decide]; cbn [mbind option_bind].

(** One encoding: the instruction does not exist, or is safe, or depends on a
    comparison. *)
Lemma leaf_bad rc (P : insn -> Prop) : Some (Some rc : option Z) = Some None <-> exists q, None = Some q /\ P q.
Proof. split; [done|]. by intros (? & ? & _). Qed.

Lemma leaf_ok q (P : insn -> Prop) : P q -> Some (None : option Z) = Some None <-> exists q', Some q = Some q' /\ P q'.
Proof. split; [|done]. eauto. Qed.

Lemma leaf_if (b : bool) rc q (P : insn -> Prop) : (b = false <-> P q) ->
  (if b then Some (Some rc : option Z) else Some None) = Some None <-> exists q', Some q = Some q' /\ P q'.
Proof. intros H. destruct b; [|apply leaf_ok; by apply H]. split; [done|]. intros (? & [= <-] & Hq%H). done. Qed.

Lemma leaf_if2 (b c : bool) rc q (P : insn -> Prop) : (b = false /\ c = false <-> P q) ->
  (if b then Some (Some rc : option Z) else if c then Some (Some rc) else Some None) = Some None <->
  exists q', Some q = Some q' /\ P q'.
Proof.
  intros H. rewrite <- (leaf_if (b || c) rc q P); [by destruct b|]. rewrite <- H. by destruct b, c; cbn; intuition.
Qed.

Ltac leaf := first [apply leaf_bad|apply leaf_ok; exact I
  |apply leaf_if; cbn [safe]; rewrite Z.leb_gt; lia
  |apply leaf_if2; cbn [safe]; rewrite !Z.leb_gt; lia].

Lemma load_off_spec k : 0 <= k -> (seccomp_check_load_off BPF_ABS k 4 <? 0) = false <-> k + 4 <= 64.
Proof.
  intros Hk. unfold seccomp_check_load_off, SD_SIZE. cbn.
  destruct (Z.ltb_spec 64 k), (Z.ltb_spec (64 - k) 4); cbn; split; intros; done || lia.
Qed.

(** The verifier accepts an instruction exactly when it exists and is safe. *)
Lemma verify_insn_spec f i len : insn_wf f -> 0 <= i < 4096 -> len <= 4096 -> forward f ->
  verify_insn f i len = Some None <-> exists q, decode f = Some q /\ safe i len q.
Proof.
  intros [_ Hjt Hjf Hk] Hi Hlen Hf0. pose proof (forward_ja f Hf0) as Hfw. clear Hf0. revert Hfw. unfold verify_insn, decode, in_u8, in_u32 in *.
  generalize (- EINVAL). intros rc.
  rewrite ?class_eq, ?size_eq, ?rval_eq, ?mode_eq, ?op_eq, ?misc_eq, ?src_eq.
  pose proof (mod_8 (f_code f)) as Hc. pose proof (mod_4 (f_code f / 8)) as Hs. pose proof (mod_8 (f_code f / 32)) as Hm.
  pose proof (mod_16 (f_code f / 16)) as Ho. pose proof (mod_2 (f_code f / 8)) as Hx.
  revert Hc Hs Hm Ho Hx. generalize (f_code f mod 8), ((f_code f / 8) mod 4), ((f_code f / 32) mod 8),
    ((f_code f / 16) mod 16), ((f_code f / 8) mod 2). intros cl sz md op sr Hc Hs Hm Ho Hx Hfw.
  each Hc; comp.
  1, 2: each Hm; comp; each Hs; comp; first [apply leaf_if; cbn [safe]; apply load_off_spec; lia|leaf].
  1, 2: each Hs; comp; try leaf; each Hm; comp; leaf.
  - each Ho; comp; each Hx; comp; leaf.
  - each Ho; comp; [|each Hx; comp; leaf..].
    specialize (Hfw eq_refl eq_refl). rewrite s32_small by lia. unfold sadd32.
    rewrite (proj2 (Z.leb_le _ (i + 1))), (proj2 (Z.leb_le (i + 1) _)) by lia. cbn [andb mbind option_bind].
    rewrite (proj2 (Z.leb_le _ (i + 1 + f_k f))) by lia. cbn [andb].
    destruct (Z.leb_spec (i + 1 + f_k f) 2147483647); cbn [mbind option_bind]; [leaf|].
    split; [done|]. intros (q & [= <-] & Hq). cbn [safe] in Hq. lia.
  - each Hs; comp; leaf.
  - each Ho; comp; leaf.
Qed.

Lemma decode_returns f q : decode f = Some q -> BPF_CLASS (f_code f) = BPF_RET <-> returns q.
Proof.
  unfold decode. rewrite class_eq. pose proof (mod_8 (f_code f)) as Hc. revert Hc. generalize (f_code f mod 8).
  intros cl Hc. each Hc; cbn -[alu_of jmp_of Z.div Z.modulo]; repeat split_if;
    repeat match goal with |- context [?g ≫= _] => destruct g; cbn [mbind option_bind] end; by intros [= <-].
Qed.

Lemma mapM_lookup {A B} (g : A -> option B) l k i : mapM g l = Some k ->
  match l !! i with Some x => exists y, g x = Some y /\ k !! i = Some y | None => k !! i = None end.
Proof.
  intros H%mapM_Some. revert i. induction H as [|x y l k Hx _ IH]; intros [|i]; cbn; try done; [by exists y|apply IH].
Qed.

Lemma mapM_size {A B} (g : A -> option B) l k : mapM g l = Some k -> length l = length k.
Proof. by intros H%mapM_Some%Forall2_length. Qed.

Lemma mapM_decode fp : (forall i f, fp !! i = Some f -> is_Some (decode f)) -> is_Some (mapM decode fp).
Proof.
  intros H. apply mapM_is_Some, Forall_lookup. exact H.
Qed.

(** The verifier accepts exactly the safe programs. *)
Lemma bpf_verify_spec fp : Forall insn_wf fp -> Forall forward fp ->
  bpf_verify fp (Z.of_nat (length fp)) = Some 0 <-> exists prog, mapM decode fp = Some prog /\ safe_program prog.
Proof.
  intros Hwf Hfw. unfold bpf_verify. set (len := Z.of_nat (length fp)). unfold BPF_MAXINSNS.
  assert (Hl : (len <? 1) || (4096 <? len) = false <-> (1 <= length fp <= 4096)%nat).
  { subst len. destruct (Z.ltb_spec (Z.of_nat (length fp)) 1), (Z.ltb_spec 4096 (Z.of_nat (length fp))); cbn; split; intros; done || lia. }
  destruct ((len <? 1) || (4096 <? len)).
  { split; [done|]. intros (prog & Hp & [Hs _ _]). apply mapM_size in Hp. rewrite <- Hp in Hs. by apply Hl in Hs. }
  assert (Hlen : (1 <= length fp <= 4096)%nat) by (by apply Hl). clear Hl.
  assert (Elast : rd fp (len - 1) = fp !! pred (length fp)).
  { unfold rd. subst len. rewrite (proj2 (Z.leb_le _ _)) by lia. f_equal. lia. }
  rewrite Elast. destruct (lookup_lt_is_Some_2 fp (pred (length fp)) ltac:(lia)) as [lst Hlst]. rewrite Hlst.
  cbn [mbind option_bind].
  assert (Hins : for_return 0 len (fun i => f ← rd fp i; verify_insn f i len) = Some None <->
    forall i f, fp !! i = Some f -> exists q, decode f = Some q /\ safe (Z.of_nat i) len q).
  { rewrite for_return_None. split.
    - intros H i f Hi. pose proof (lookup_lt_Some _ _ _ Hi). specialize (H (Z.of_nat i) ltac:(lia)).
      cbv beta in H. rewrite rd_nat, Hi in H. cbn [mbind option_bind] in H.
      apply verify_insn_spec in H; [done|by eapply Forall_lookup_1|lia|lia|by eapply (Forall_lookup_1 forward)].
    - intros H i Hi. destruct (rd_is_Some fp i Hi) as [f Hf]. rewrite Hf. cbn [mbind option_bind].
      unfold rd in Hf. rewrite (proj2 (Z.leb_le _ _)) in Hf by lia.
      apply verify_insn_spec; [by eapply Forall_lookup_1|lia|lia|by eapply (Forall_lookup_1 forward)|].
      specialize (H _ _ Hf). by rewrite Z2Nat.id in H by lia. }
  split.
  - intros Hv. destruct (Z.eqb_spec (BPF_CLASS (f_code lst)) BPF_RET) as [Hret|]; cbn [negb] in Hv; [|done].
    assert (Hall : for_return 0 len (fun i => f ← rd fp i; verify_insn f i len) = Some None).
    { destruct (for_return 0 len _) as [[r|]|] eqn:Er; cbn in Hv; [|done|done]. injection Hv as ->.
      apply for_return_Some in Er as (j & _ & Hj & _). destruct (rd fp j) as [f|]; [|done].
      by apply verify_insn_rc in Hj. }
    rewrite Hins in Hall. destruct (mapM_decode fp) as [prog Hp].
    { intros i f Hi. destruct (Hall i f Hi) as (q & Hq & _). by exists q. }
    exists prog. split; [done|]. pose proof (mapM_size _ _ _ Hp) as El. constructor.
    + lia.
    + intros i q Hi. pose proof (mapM_lookup _ _ _ i Hp) as Hm. destruct (fp !! i) as [f|] eqn:Hf; [|congruence].
      destruct Hm as (q' & Hq' & Hi'). destruct (Hall i f Hf) as (q2 & Hq2 & Hs). rewrite <- El.
      by assert (q = q2) as -> by congruence.
    + intros q Hq. rewrite <- El in Hq. pose proof (mapM_lookup _ _ _ (pred (length fp)) Hp) as Hm. rewrite Hlst in Hm.
      destruct Hm as (q' & Hq' & Hi'). assert (q = q') as -> by congruence. by apply (decode_returns lst).
  - intros (prog & Hp & [_ Hsafe Hlast]). pose proof (mapM_size _ _ _ Hp) as El.
    pose proof (mapM_lookup _ _ _ (pred (length fp)) Hp) as Hm. rewrite Hlst in Hm. destruct Hm as (q & Hq & Hi).
    rewrite (proj2 (decode_returns lst q Hq)) by (apply Hlast; by rewrite <- El). cbn.
    assert (for_return 0 len (fun i => f ← rd fp i; verify_insn f i len) = Some None) as ->; [|done].
    apply Hins. intros i f Hf. pose proof (mapM_lookup _ _ _ i Hp) as Hm. rewrite Hf in Hm.
    destruct Hm as (q' & Hq' & Hi'). exists q'. split; [done|]. unfold len. rewrite El. by apply Hsafe.
Qed.

(** ** The interpreter and the machine *)

Lemma bpf_alu_spec op o a b : alu_of op = Some o -> in_u32 b -> bpf_alu (16 * op) a b = Some (alu o a b).
Proof.
  intros Ho Hb. revert Ho. unfold alu_of, in_u32 in *.
  repeat match goal with |- context [op =? ?k] => destruct (Z.eqb_spec op k) as [->|]; [intros [= <-]|] end; [..|done];
    match goal with |- bpf_alu ?x _ _ = _ => let v := eval vm_compute in x in change x with v end;
    unfold bpf_alu; cbn -[Z.pow]; unfold c_true, u32; change (2 ^ 32) with 4294967296; try done.
  - by destruct (b =? 0).
  - destruct (b <? 32); [|done]. by rewrite Z.shiftl_mul_pow2 by lia.
  - destruct (b <? 32); [|done]. by rewrite Z.shiftr_div_pow2 by lia.
  - by destruct (b =? 0).
Qed.

Lemma word_load d k : 0 <= k -> k + 4 <= Z.of_nat (length d) -> word d k = load32 d k.
Proof.
  intros Hk Hl. unfold word. rewrite (proj2 (Z.leb_le 0 k)), (proj2 (Z.leb_le _ _)) by lia. cbn [andb].
  unfold load32, rd. rewrite !(proj2 (Z.leb_le 0 _)) by lia.
  replace (Z.to_nat (k + 1)) with (Z.to_nat k + 1)%nat by lia. replace (Z.to_nat (k + 2)) with (Z.to_nat k + 2)%nat by lia.
  replace (Z.to_nat (k + 3)) with (Z.to_nat k + 3)%nat by lia.
  rewrite <- (Nat.add_0_r (Z.to_nat k)) at 2. rewrite <- !lookup_drop.
  assert (Hd : (4 <= length (drop (Z.to_nat k) d))%nat) by (rewrite length_drop; lia).
  destruct (drop (Z.to_nat k) d) as [|b0 [|b1 [|b2 [|b3 r]]]]; cbn in Hd; try lia. cbn. rewrite take_0. cbn. f_equal. lia.
Qed.

Lemma land_15 k : 0 <= k < 16 -> Z.land k 15 = k.
Proof. intros H. rewrite (Z.land_ones k 4 ltac:(lia) : Z.land k 15 = k mod 16). by apply Z.mod_small. Qed.

Lemma load32_is d k : 0 <= k -> k + 4 <= Z.of_nat (length d) -> is_Some (load32 d k).
Proof.
  intros Hk Hl. rewrite <- word_load by done. unfold word.
  rewrite (proj2 (Z.leb_le 0 k)), (proj2 (Z.leb_le _ _)) by lia. by eexists.
Qed.

(** The interpreter's run-time checks around a load. *)
Lemma load_abs {B} d k (g : Z -> option B) e : length d = 64%nat -> 0 <= k -> k + 4 <= 64 ->
  (if (SD_SIZE <? k) || (SD_SIZE - k <? 4) then e else v ← load32 d k; g v) = (v ← word d k; g v).
Proof.
  intros Hd Hk Hs. rewrite word_load by lia. unfold SD_SIZE.
  by rewrite (proj2 (Z.ltb_ge 64 k)), (proj2 (Z.ltb_ge (64 - k) 4)) by lia.
Qed.

Lemma load_ind {B} d x k (g : Z -> option B) e : length d = 64%nat -> in_u32 x -> in_u32 k ->
  (if (u32 (x + k) <? x) || (SD_SIZE <? u32 (x + k)) || (SD_SIZE - u32 (x + k) <? 4) then e
   else v ← load32 d (u32 (x + k)); g v) = match word d (x + k) with Some v => g v | None => e end.
Proof.
  intros Hd Hx Hk. unfold in_u32 in *. destruct (Z.leb_spec (x + k + 4) 64).
  - rewrite word_load, u32_small by (unfold in_u32; lia). unfold SD_SIZE.
    rewrite (proj2 (Z.ltb_ge _ x)), (proj2 (Z.ltb_ge 64 _)), (proj2 (Z.ltb_ge (64 - _) 4)) by lia. cbn [orb].
    destruct (load32_is d (x + k)) as [v ->]; [lia..|done].
  - unfold word. rewrite (proj2 (Z.leb_gt (x + k + 4) _)), andb_false_r by lia.
    assert ((u32 (x + k) <? x) || (SD_SIZE <? u32 (x + k)) || (SD_SIZE - u32 (x + k) <? 4) = true) as ->; [|done].
    unfold SD_SIZE, u32. destruct (Z.ltb_spec ((x + k) mod 4294967296) x); [done|].
    assert ((x + k) mod 4294967296 = x + k) as -> by zlia.
    destruct (Z.ltb_spec 64 (x + k)), (Z.ltb_spec (64 - (x + k)) 4); cbn; done || lia.
Qed.

Ltac muls := repeat match goal with |- context [?a * ?b] =>
  let v := eval vm_compute in (a * b) in progress change (a * b) with v end.

Lemma jmp_cond op o a b : jmp_of op = Some o ->
  c_true (if 16 * op =? 16 then c_bool (a =? b) else if 16 * op =? 32 then c_bool (b <? a)
          else if 16 * op =? 48 then c_bool (b <=? a) else if 16 * op =? 64 then Z.land a b else 0) = holds o a b.
Proof.
  unfold jmp_of.
  repeat match goal with |- context [op =? ?k] => destruct (Z.eqb_spec op k) as [->|]; [intros [= <-]|] end; [..|done]; muls; cbn;
    [by destruct (a =? b)|by destruct (b <? a)|by destruct (b <=? a)|done].
Qed.

Section Simulate.
Context (fp : list sock_filter) (prog : list insn) (d : list Z).
Hypothesis Hprog : mapM decode fp = Some prog.
Hypothesis Hsafe : safe_program prog.
Hypothesis Hd : length d = 64%nat.

Definition cont (n : nat) (r : option (bpf_state + Z)) : option Z :=
  match r with
  | Some (inl st) => run n prog d (pc st) (rA st) (rX st) (rM st)
  | Some (inr v) => Some v
  | None => None
  end.

(** One instruction: the interpreter's checks and masks change nothing. *)
Lemma step_sim n st f q : st_wf st -> 0 <= pc st < Z.of_nat (length fp) -> rd fp (pc st) = Some f -> insn_wf f ->
  decode f = Some q -> q <> Neg -> rd prog (pc st) = Some q -> safe (pc st) (Z.of_nat (length prog)) q ->
  run (S n) prog d (pc st) (rA st) (rX st) (rM st) = cont n (bpf_step fp d st).
Proof.
  intros [HA HX HM Hl] Hpc Hf [_ Hjt Hjf Hk] Hq Hneg Hi Hs. pose proof (sp_len _ Hsafe) as Hlen.
  rewrite <- (mapM_size _ _ _ Hprog) in Hlen, Hs.
  assert (Hpc1 : u32 (pc st + 1) = pc st + 1) by (apply u32_small; unfold in_u32; lia).
  cbn [run]. rewrite Hi. unfold bpf_step. rewrite Hf. cbn [mbind option_bind]. rewrite Hpc1.
  destruct st as [p a x m]. record.simp. clear Hpc1 Hf Hi. unfold in_u32, in_u8 in *.
  revert Hq. unfold decode. rewrite ?class_eq, ?size_eq, ?rval_eq, ?mode_eq, ?op_eq, ?misc_eq, ?src_eq.
  pose proof (mod_8 (f_code f)) as Hc. pose proof (mod_4 (f_code f / 8)) as Hz. pose proof (mod_8 (f_code f / 32)) as Hm.
  pose proof (mod_16 (f_code f / 16)) as Ho. pose proof (mod_2 (f_code f / 8)) as Hx.
  revert Hc Hz Hm Ho Hx. generalize (f_code f mod 8), ((f_code f / 8) mod 4), ((f_code f / 32) mod 8),
    ((f_code f / 16) mod 16), ((f_code f / 8) mod 2). intros cl sz md op sr Hc Hz Hm Ho Hx.
  assert (Hop : (if 8 * sr =? 8 then x else f_k f) = match (if sr =? 1 then RegX else Const (f_k f)) with
    Const k => k | RegX => x end) by (each Hx; done).
  assert (Hsr : 0 <= (if 8 * sr =? 8 then x else f_k f) < 4294967296) by (destruct (8 * sr =? 8); lia).
  each Hc; cbn -[alu_of jmp_of bpf_alu Z.land run word SD_SIZE].
  1, 2: destruct (Z.eqb_spec md 0) as [->|]; [by intros [= <-]|]; destruct (sz =? 0); [|done]; cbn [negb];
    each Hm; try done; muls; cbn -[Z.land run word SD_SIZE]; intros [= <-]; cbn [safe] in Hs;
    [rewrite load_abs by (done || lia); by destruct (word d _)|rewrite load_ind by done; by destruct (word d _)|rewrite land_15 by lia; by destruct (rd m _)|done].
  1, 2: destruct (_ && _); [|done]; intros [= <-]; cbn [safe] in Hs; rewrite land_15 by lia; by destruct (wr m _ _).
  - destruct (op =? 8); [by intros [= <-]|]. destruct (alu_of op) as [o|] eqn:Eo; [|done]. intros [= <-].
    rewrite (bpf_alu_spec op o) by done. cbn [mbind option_bind cont pc rA rX rM]. by rewrite Hop.
  - destruct (Z.eqb_spec op 0) as [->|Hop0].
    { intros [= <-]. cbn [safe] in Hs. cbn -[run]. rewrite u32_small by (unfold in_u32; lia). done. }
    rewrite Hop, (proj2 (Z.eqb_neq (16 * op) 0)) by lia.
    destruct (jmp_of op) as [o|] eqn:Eo; [|done]. intros [= <-]. cbn [safe] in Hs.
    rewrite (jmp_cond op o) by done. destruct (holds _ _ _); cbn -[run]; rewrite u32_small by (unfold in_u32; lia); done.
  - each Hz; cbn; intros [= <-]; done.
  - each Ho; cbn; intros [= <-]; done.
Qed.
End Simulate.

Lemma benign_intro f : forward f -> no_neg f -> benign f = true.
Proof.
  intros Hf Hn. pose proof (forward_ja f Hf) as Hja. unfold no_neg, benign in *.
  destruct (Z.eqb_spec (BPF_CLASS (f_code f)) BPF_JMP) as [Ec|_]; cbn [andb negb].
  - rewrite Ec. cbn [Z.eqb Pos.eqb andb negb]. rewrite andb_true_r.
    destruct (Z.eqb_spec (BPF_OP (f_code f)) BPF_JA) as [Eo|_]; [|done]. cbn [andb].
    by rewrite (proj2 (Z.leb_gt _ _)) by auto.
  - destruct (Z.eqb_spec (BPF_CLASS (f_code f)) BPF_ALU) as [Ec|_]; [|done]. cbn [andb].
    destruct (Z.eqb_spec (BPF_OP (f_code f)) BPF_NEG) as [Eo|_]; [|done]. destruct Hn.
    unfold decode. rewrite class_eq in Ec. rewrite op_eq in Eo. rewrite Ec. cbn.
    by replace ((f_code f / 16) mod 16) with 8 by lia.
Qed.

Lemma loop_sim fp prog d fuel st v : mapM decode fp = Some prog -> safe_program prog -> Forall no_neg fp ->
  verified fp (Z.of_nat (length fp)) -> Forall in_u8 d -> length d = 64%nat -> st_wf st -> 0 <= pc st < Z.of_nat (length fp) ->
  bpf_loop fuel fp (Z.of_nat (length fp)) d st = Some (Some v) ->
  run fuel prog d (pc st) (rA st) (rX st) (rM st) = Some v.
Proof.
  intros Hp Hs Hn Hv Hd Hl. revert st. induction fuel as [|fuel IH]; intros st Hst Hpc; cbn [bpf_loop];
    rewrite (proj2 (Z.ltb_lt _ _)) by lia; [done|].
  destruct (vf_insn _ _ Hv (pc st) Hpc) as (f & Hf & Hwf & Hb & Hver & Hlast).
  pose proof (bpf_step_ok fp d _ (vf_len _ _ Hv) Hd Hl st f Hpc Hst Hwf Hf Hver Hb Hlast) as Hstep.
  pose proof Hf as Hf'. unfold rd in Hf'. rewrite (proj2 (Z.leb_le _ _)) in Hf' by lia.
  pose proof (mapM_lookup _ _ _ (Z.to_nat (pc st)) Hp) as Hm. rewrite Hf' in Hm. destruct Hm as (q & Hq & Hi).
  rewrite (step_sim fp prog d Hp Hs Hl fuel st f q); try done.
  - destruct (bpf_step fp d st) as [[st'|w]|]; cbn [mbind option_bind cont]; [|congruence|done].
    destruct Hstep as [Hpc' Hst']. apply IH; [done|lia].
  - intros ->. by apply (Forall_lookup_1 _ _ _ _ Hn Hf').
  - unfold rd. by rewrite (proj2 (Z.leb_le _ _)) by lia.
  - pose proof (sp_safe _ Hs _ _ Hi) as Hsafe. by rewrite Z2Nat.id in Hsafe by lia.
Qed.

(** C5: what the BPF verifier guarantees.  For programs without an
    unconditional jump whose offset has the top bit set, [bpf_verify] accepts
    exactly the safe ones: 1 to 4096 instructions of the set, of which the last
    returns, with scratch cells below 16, loads inside the 64 bytes of the system
    call's data and every jump inside the program.  An accepted program without a
    negation runs to the same 32-bit action on every system call in the kernel's
    interpreter, within as many steps as it has instructions, and in the machine
    that checks nothing at run time but computed loads. *)
Theorem bpf_verify_sound fp sd :
  Forall insn_wf fp -> Forall forward fp ->
  (bpf_verify fp (Z.of_nat (length fp)) = Some 0 <-> exists prog, mapM decode fp = Some prog /\ safe_program prog) /\
  (bpf_verify fp (Z.of_nat (length fp)) = Some 0 -> Forall no_neg fp -> length (sd_args sd) = 6%nat ->
   exists prog v, mapM decode fp = Some prog /\ in_u32 v /\
     run (length fp) prog (sd_image sd) 0 0 0 (replicate 16 0) = Some v /\
     forall fuel, (length fp <= fuel)%nat -> bpf_run fuel fp (Z.of_nat (length fp)) sd = Some (Some v)).
Proof.
  intros Hwf Hfw. pose proof (bpf_verify_spec fp Hwf Hfw) as Hspec. split; [done|]. intros Hv Hn Hargs.
  apply Hspec in Hv as Hv'. destruct Hv' as (prog & Hp & Hs).
  assert (Hver : verified fp (Z.of_nat (length fp))).
  { apply bpf_verify_verified; [done|done|]. apply Forall_lookup. intros i f Hi.
    apply benign_intro; [by apply (Forall_lookup_1 _ _ _ _ Hfw Hi)|by apply (Forall_lookup_1 _ _ _ _ Hn Hi)]. }
  destruct (bpf_run_terminates fp _ sd Hver Hargs) as (v & Hr & Hrun). exists prog, v. split; [done|]. split; [done|].
  split; [|intros fuel Hf; apply Hrun; lia].
  apply (loop_sim fp prog (sd_image sd) (length fp) bpf_init v); try done;
    [apply sd_image_bytes|by apply sd_image_length|apply bpf_init_wf| |apply Hrun; lia].
  cbn [bpf_init pc]. destruct Hver as [Hl _]. lia.
Qed.

Lemma bpf_verify_sound_witness :
  exists prog v, mapM decode demo_filter = Some prog /\ in_u32 v /\
    run 4 prog (sd_image demo_sd) 0 0 0 (replicate 16 0) = Some v /\
    forall fuel, (4 <= fuel)%nat -> bpf_run fuel demo_filter 4 demo_sd = Some (Some v).
Proof.
  apply (bpf_verify_sound demo_filter demo_sd).
  - exact demo_filter_wf.
  - repeat constructor; intros off [=].
  - vm_compute. reflexivity.
  - repeat constructor; discriminate.
  - reflexivity.
Defined.
