(* ===== verification/SeccompChain.v ===== *)
(** * Seccomp: the filter chain, its reference counts and its meaning

    Theorems about the operations of [Seccomp] on whole worlds: the chain a
    task carries is finite and made of verified programs, the reference
    counts are exact, nothing reachable is freed, and installing a filter
    only ever takes permissions away. *)

From stdpp Require Import gmap.
From S2P Require Import Prelude Seccomp.

(** ** Counting the entries of a map *)

Section Count.
Context {A : Type} (P : A -> Prop) `{forall x, Decision (P x)}.
Implicit Type m : gmap nat A.

Definition count m : Z := Z.of_nat (size (filter (fun kv => P kv.2) m)).
Definition ind (x : A) : Z := if decide (P x) then 1 else 0.

Lemma count_insert_fresh m k x : m !! k = None ->
  count (<[k := x]> m) = count m + ind x.
Proof.
  intros Hk. unfold count, ind. rewrite map_filter_insert. simpl.
  case_decide.
  - rewrite map_size_insert_None; [lia|]. apply map_lookup_filter_None. by left.
  - rewrite delete_id by done. lia.
Qed.

Lemma count_delete m k x : m !! k = Some x ->
  count (delete k m) = count m - ind x.
Proof.
  intros Hk. rewrite <- (insert_delete_id m k x Hk) at 2.
  rewrite count_insert_fresh by apply lookup_delete_eq. lia.
Qed.

Lemma count_update m k x y : m !! k = Some x ->
  count (<[k := y]> m) = count m - ind x + ind y.
Proof.
  intros Hk. rewrite <- insert_delete_eq.
  rewrite count_insert_fresh by apply lookup_delete_eq.
  by rewrite (count_delete _ _ _ Hk).
Qed.

Lemma count_nonneg m : 0 <= count m.
Proof. unfold count. lia. Qed.

Lemma count_le_size m : count m <= Z.of_nat (size m).
Proof.
  unfold count.
  pose proof (map_subseteq_size (filter (fun kv => P kv.2) m) m
    (map_filter_subseteq _ m)). lia.
Qed.

Lemma count_zero m k x : count m = 0 -> m !! k = Some x -> ~ P x.
Proof.
  unfold count. intros Hc Hk HP.
  assert (filter (fun kv => P kv.2) m = ∅) as E by (apply map_size_empty_inv; lia).
  pose proof (map_lookup_filter_Some_2 (fun kv => P kv.2) m k x Hk HP) as Hx.
  rewrite E in Hx. by rewrite lookup_empty in Hx.
Qed.

Lemma count_none m : (forall k x, m !! k = Some x -> ~ P x) -> count m = 0.
Proof.
  intros Hno. unfold count. rewrite (proj2 (map_empty_filter _ _)); [by rewrite map_size_empty|].
  intros k x Hk. by eapply Hno.
Qed.

Lemma count_some m : 0 < count m -> exists k x, m !! k = Some x /\ P x.
Proof.
  intros Hc. destruct (map_choose (filter (fun kv => P kv.2) m)) as (k & x & Hk).
  - intros E. unfold count in Hc. rewrite E, map_size_empty in Hc. lia.
  - exists k, x. by apply map_lookup_filter_Some in Hk.
Qed.
End Count.

(** ** The invariant *)

Definition points_task (p : nat) (x : task) : Prop := seccomp_chain x = Some p.
Definition points_cell (p : nat) (c : seccomp_filter) : Prop := prev c = Some p.

#[global] Instance points_task_dec p x : Decision (points_task p x).
Proof. unfold points_task. apply _. Defined.
#[global] Instance points_cell_dec p c : Decision (points_cell p c).
Proof. unfold points_cell. apply _. Defined.

(** [chain h f l]: following [prev] from [f] visits the cells [l]. *)
Inductive chain (h : gmap nat seccomp_filter) : option nat -> list nat -> Prop :=
| chain_nil : chain h None []
| chain_cons p c l : h !! p = Some c -> chain h (prev c) l -> chain h (Some p) (p :: l).

(** How often [p] occurs in a list of references. *)
Definition occurs (p : nat) (L : list nat) : Z := Z.of_nat (length (filter (fun q => q = p) L)).

(** The invariant, with the references [L] of tasks that are gone without having
    released their chains, and one reference [pend] held by the running
    operation. *)
Record inv (L : list nat) (T : gmap nat task) (h : gmap nat seccomp_filter) (pend : option nat)
  : Prop := {
  inv_refs : forall p c, h !! p = Some c ->
    refs c = count (points_task p) T + count (points_cell p) h + occurs p L
             + (if decide (pend = Some p) then 1 else 0);
  inv_live : forall p c, h !! p = Some c -> 0 < refs c;
  inv_task : forall t x p, T !! t = Some x -> seccomp_chain x = Some p -> is_Some (h !! p);
  inv_lost : forall p, p ∈ L -> is_Some (h !! p);
  inv_chain : forall p, is_Some (h !! p) -> exists l, chain h (Some p) l;
  inv_pend : forall p, pend = Some p -> is_Some (h !! p);
  inv_prog : forall p c, h !! p = Some c -> bpf_verify (insns c) (flt_len c) = Some 0 /\ Forall insn_wf (insns c);
}.

Lemma occurs_nonneg p L : 0 <= occurs p L.
Proof. unfold occurs. lia. Qed.

Lemma occurs_le p L : occurs p L <= Z.of_nat (length L).
Proof. unfold occurs. pose proof (length_filter (fun q => q = p) L). lia. Qed.

Lemma occurs_zero p L : occurs p L = 0 <-> p ∉ L.
Proof.
  unfold occurs. split.
  - intros H Hin. assert (Hf : p ∈ filter (fun q => q = p) L) by (by apply list_elem_of_filter).
    destruct (filter _ L); [by apply elem_of_nil in Hf|cbn in H; lia].
  - intros H. destruct (filter (fun q => q = p) L) as [|q l] eqn:E; [done|].
    assert (Hf : q ∈ filter (fun q => q = p) L) by (rewrite E; apply elem_of_cons; by left).
    by apply list_elem_of_filter in Hf as [-> ?].
Qed.

Lemma occurs_cons p q L : occurs p (q :: L) = occurs p L + (if decide (q = p) then 1 else 0).
Proof. unfold occurs. rewrite filter_cons. case_decide; cbn; lia. Qed.

Definition mode_ok (x : task) : Prop :=
  seccomp_mode x = SECCOMP_MODE_FILTER <-> seccomp_chain x <> None.

(** The counts fit a C int. *)
Definition small (L : list nat) (w : world) : Prop :=
  Z.of_nat (size (tasks w)) + Z.of_nat (size (heap w)) + Z.of_nat (length L) < 2147483646.

Record world_wf (L : list nat) (w : world) : Prop := {
  wf_inv : inv L (tasks w) (heap w) None;
  wf_mode : forall t x, tasks w !! t = Some x -> mode_ok x;
}.

Lemma chain_target h p c l : chain h (Some p) l -> h !! p = Some c ->
  prev c = None \/ exists q, prev c = Some q /\ is_Some (h !! q).
Proof.
  intros Hc Hp. inversion Hc as [|? c' l' Hp' Hl]; subst.
  rewrite Hp in Hp'. injection Hp' as <-.
  destruct (prev c) as [q|]; [|by left]. right. exists q. split; [done|].
  inversion Hl; subst; eauto.
Qed.

Lemma chain_update h p c c' f l : h !! p = Some c -> prev c' = prev c ->
  chain h f l -> chain (<[p := c']> h) f l.
Proof.
  intros Hp Hprev. induction 1 as [|q d l Hq Hl IH]; [constructor|].
  destruct (decide (q = p)) as [->|Hne].
  - apply chain_cons with c'; [apply lookup_insert_eq|].
    rewrite Hp in Hq. injection Hq as <-. by rewrite Hprev.
  - apply chain_cons with d; [|done]. by rewrite lookup_insert_ne.
Qed.

Lemma chain_insert_fresh h p c f l : h !! p = None ->
  chain h f l -> chain (<[p := c]> h) f l.
Proof.
  intros Hp. induction 1 as [|q d l Hq Hl IH]; [constructor|].
  apply chain_cons with d; [|done]. rewrite lookup_insert_ne; [done|].
  intros <-. by rewrite Hp in Hq.
Qed.

Lemma chain_delete h p f l :
  (forall q d, h !! q = Some d -> prev d <> Some p) -> f <> Some p ->
  chain h f l -> chain (delete p h) f l.
Proof.
  intros Hno Hf. induction 1 as [|q d l Hq Hl IH]; [constructor|].
  apply chain_cons with d; [|apply IH; by eapply Hno].
  rewrite lookup_delete_ne; [done|]. congruence.
Qed.

(** ** Releasing *)

Lemma release_step_free L T h p c :
  inv L T h (Some p) -> h !! p = Some c -> refs c = 1 ->
  inv L T (delete p h) (prev c).
Proof.
  intros Hinv Hp Hr. pose proof (inv_refs _ _ _ _ Hinv p c Hp) as E.
  rewrite decide_True in E by done.
  pose proof (count_nonneg (points_task p) T). pose proof (count_nonneg (points_cell p) h). pose proof (occurs_nonneg p L).
  assert (p ∉ L) as HpL by (apply occurs_zero; lia).
  assert (forall q d, h !! q = Some d -> prev d <> Some p) as Hnoprev
    by (intros q d; apply (count_zero (points_cell p)); lia).
  assert (forall t x, T !! t = Some x -> seccomp_chain x <> Some p) as Hnotask
    by (intros t x; apply (count_zero (points_task p)); lia).
  destruct (inv_chain _ _ _ _ Hinv p) as [l Hl]; [eauto|].
  constructor.
  - intros q d Hq. apply lookup_delete_Some in Hq as [Hne Hq].
    rewrite (inv_refs _ _ _ _ Hinv q d Hq), (count_delete _ _ _ _ Hp).
    unfold ind. rewrite (decide_False (P := Some p = Some q)) by congruence.
    repeat case_decide; unfold points_cell in *; try contradiction; lia.
  - intros q d Hq. apply lookup_delete_Some in Hq as [_ Hq].
    by eapply inv_live.
  - intros t x q Ht Hx. rewrite lookup_delete_ne.
    + by eapply inv_task.
    + intros <-. by eapply Hnotask.
  - intros q Hq. rewrite lookup_delete_ne by congruence. by apply (inv_lost _ _ _ _ Hinv).
  - intros q [d Hq]. apply lookup_delete_Some in Hq as [Hne Hq].
    destruct (inv_chain _ _ _ _ Hinv q) as [lq Hlq]; [eauto|]. exists lq.
    apply chain_delete; [done|congruence|done].
  - intros q Hq. destruct (chain_target _ _ _ _ Hl Hp) as [E'|(q' & E' & Hs)]; [congruence|].
    rewrite Hq in E'. injection E' as <-. rewrite lookup_delete_ne; [done|].
    intros <-. by eapply Hnoprev.
  - intros q d Hq. apply lookup_delete_Some in Hq as [_ Hq]. by eapply inv_prog.
Qed.

(** Changing a count and moving the pending reference. *)
Lemma inv_set_refs L T T' h p c n pend pend' :
  inv L T h pend -> h !! p = Some c -> 0 < n ->
  n = count (points_task p) T' + count (points_cell p) h + occurs p L
      + (if decide (pend' = Some p) then 1 else 0) ->
  (forall q, q <> p -> count (points_task q) T' + (if decide (pend' = Some q) then 1 else 0)
    = count (points_task q) T + (if decide (pend = Some q) then 1 else 0)) ->
  (forall t x q, T' !! t = Some x -> seccomp_chain x = Some q -> is_Some (h !! q)) ->
  (forall q, pend' = Some q -> is_Some (h !! q)) ->
  inv L T' (<[p := c {{ refs := n }}]> h) pend'.
Proof.
  intros Hinv Hp Hn En Hother Htask Hpend.
  assert (forall q, is_Some (<[p := c {{ refs := n }}]> h !! q) <-> is_Some (h !! q)) as Hdom.
  { intros q. rewrite lookup_insert_is_Some.
    split; [|intros; destruct (decide (p = q)); auto].
    intros [->|[_ ?]]; [eauto|done]. }
  assert (forall q, count (points_cell q) (<[p := c {{ refs := n }}]> h)
    = count (points_cell q) h) as Hcell.
  { intros q. rewrite (count_update _ _ _ _ _ Hp).
    change (ind (points_cell q) (c {{ refs := n }})) with (ind (points_cell q) c). lia. }
  constructor.
  - intros q d Hq. rewrite Hcell. apply lookup_insert_Some in Hq as [[<- <-]|[Hne Hq]].
    + done.
    + rewrite (inv_refs _ _ _ _ Hinv q d Hq). specialize (Hother q). lia.
  - intros q d Hq. apply lookup_insert_Some in Hq as [[<- <-]|[Hne Hq]]; [done|].
    by eapply inv_live.
  - intros t x q Ht Hx. apply Hdom. by eapply Htask.
  - intros q Hq. apply Hdom. by apply (inv_lost _ _ _ _ Hinv).
  - intros q Hq. apply Hdom in Hq. destruct (inv_chain _ _ _ _ Hinv q Hq) as [l Hl].
    exists l. by eapply chain_update.
  - intros q Hq. apply Hdom. by apply Hpend.
  - intros q d Hq. apply lookup_insert_Some in Hq as [[<- <-]|[Hne Hq]].
    + by eapply (inv_prog _ _ _ _ Hinv p c).
    + by eapply inv_prog.
Qed.

(** What an operation keeps of the cells it does not free. *)
Definition cells_kept (h h' : gmap nat seccomp_filter) : Prop :=
  forall p c', h' !! p = Some c' -> exists c, h !! p = Some c /\
    prev c' = prev c /\ insns c' = insns c /\ flt_len c' = flt_len c.

Lemma cells_kept_refl h : cells_kept h h.
Proof. intros p c Hp. eauto. Qed.

Lemma refs_bound L T h pend p c : inv L T h pend -> h !! p = Some c ->
  refs c <= Z.of_nat (size T) + Z.of_nat (size h) + Z.of_nat (length L) + 1.
Proof.
  intros Hinv Hp. rewrite (inv_refs _ _ _ _ Hinv p c Hp).
  pose proof (count_le_size (points_task p) T).
  pose proof (count_le_size (points_cell p) h). pose proof (occurs_le p L). case_decide; lia.
Qed.

Lemma release_loop_ok L T fuel h f :
  inv L T h f -> (size h < fuel)%nat ->
  Z.of_nat (size T) + Z.of_nat (size h) + Z.of_nat (length L) < 2147483646 ->
  exists h', release_loop fuel h f = Some h' /\ inv L T h' None /\ cells_kept h h'.
Proof.
  revert h f. induction fuel as [|fuel IH]; intros h f Hinv Hf Hs; [lia|].
  destruct f as [p|]; cbn [release_loop]; [|eauto using cells_kept_refl].
  destruct (inv_pend _ _ _ _ Hinv p eq_refl) as [c Hp]. rewrite Hp.
  cbn [mbind option_bind]. cbv zeta.
  pose proof (refs_bound _ _ _ _ _ _ Hinv Hp). pose proof (inv_live _ _ _ _ Hinv p c Hp).
  change (refs (c {{ refs := s32 (refs c - 1) }})) with (s32 (refs c - 1)).
  rewrite s32_small by lia. split_if; reflect.
  - change (prev (c {{ refs := refs c - 1 }})) with (prev c).
    assert (size (delete p h) = pred (size h)) as Esz by (rewrite map_size_delete_Some; eauto).
    assert (size h <> 0%nat) by (intros ->%map_size_empty_inv; done).
    destruct (IH (delete p h) (prev c)) as (h' & E' & Hinv' & Hk);
      [by eapply release_step_free; [..|lia]|lia|lia|].
    exists h'. split; [done|]. split; [done|]. intros q d Hq.
    destruct (Hk q d Hq) as (d' & Hd' & Hrest). exists d'. split; [|done].
    by apply lookup_delete_Some in Hd' as [_ ?].
  - eexists. split; [done|]. split.
    + eapply (inv_set_refs L T T h p c _ (Some p) None); try done; [lia| | |].
      * rewrite decide_False by done. rewrite (inv_refs _ _ _ _ Hinv p c Hp).
        rewrite decide_True by done. lia.
      * intros q Hq. rewrite !decide_False by congruence. lia.
      * by eapply inv_task.
    + intros q d Hq. apply lookup_insert_Some in Hq as [[<- <-]|[_ Hq]]; eauto.
Qed.

(** A task gives up its reference to the running operation. *)
Lemma inv_drop_task L T h t x x' :
  inv L T h None -> T !! t = Some x -> seccomp_chain x' = None ->
  inv L (<[t := x']> T) h (seccomp_chain x).
Proof.
  intros Hinv Ht Hx'. constructor; try apply Hinv.
  - intros p c Hp. rewrite (inv_refs _ _ _ _ Hinv p c Hp), (count_update _ _ _ _ _ Ht).
    unfold ind. rewrite (decide_False (P := points_task p x'))
      by (unfold points_task; congruence).
    rewrite (decide_False (P := None = Some p)) by done.
    repeat case_decide; unfold points_task in *; try contradiction; lia.
  - intros u y p Hu Hy. apply lookup_insert_Some in Hu as [[<- <-]|[_ Hu]];
      [congruence|by eapply inv_task].
  - intros p Hp. by eapply inv_task.
Qed.

Lemma seccomp_release_ok L w t x :
  world_wf L w -> small L w -> tasks w !! t = Some x ->
  exists w', seccomp_release w t = Some w' /\ world_wf L w' /\
    tasks w' = <[t := x {{ seccomp_chain := None; seccomp_mode := 0 }}]> (tasks w) /\
    cells_kept (heap w) (heap w').
Proof.
  intros [Hinv Hmode] Hs Ht. unfold seccomp_release. rewrite Ht.
  cbn [mbind option_bind].
  set (x' := x {{ seccomp_chain := None; seccomp_mode := SECCOMP_MODE_DISABLED }}).
  change (heap (set_task w t x')) with (heap w).
  destruct (release_loop_ok L (<[t := x']> (tasks w)) (S (size (heap w))) (heap w)
    (seccomp_chain x)) as (h' & -> & Hinv' & Hk).
  - by apply inv_drop_task.
  - lia.
  - rewrite map_size_insert_Some by eauto. unfold small in Hs. lia.
  - cbn [mbind option_bind]. eexists. split; [done|]. split; [|done]. constructor; [done|].
    intros u y Hu. change (<[t := x']> (tasks w) !! u = Some y) in Hu. apply lookup_insert_Some in Hu as [[<- <-]|[_ Hu]]; [done|].
    by eapply Hmode.
Qed.

(** ** Inheriting *)

Lemma inv_new_task L T h t x :
  inv L T h None -> T !! t = None -> seccomp_chain x = None ->
  inv L (<[t := x]> T) h None.
Proof.
  intros Hinv Ht Hx. constructor; try apply Hinv.
  - intros p c Hp. rewrite (inv_refs _ _ _ _ Hinv p c Hp), count_insert_fresh by done.
    unfold ind. rewrite (decide_False (P := points_task p x)); [lia|].
    unfold points_task. congruence.
  - intros u y p Hu Hy. apply lookup_insert_Some in Hu as [[<- <-]|[_ Hu]];
      [congruence|by eapply inv_task].
Qed.

(** A task without a chain takes a counted reference to [p]. *)
Lemma inv_take_ref L T h t x x' p c :
  inv L T h None -> T !! t = Some x -> seccomp_chain x = None ->
  seccomp_chain x' = Some p -> h !! p = Some c ->
  inv L (<[t := x']> T) (<[p := c {{ refs := refs c + 1 }}]> h) None.
Proof.
  intros Hinv Ht Hx Hx' Hp. pose proof (inv_live _ _ _ _ Hinv p c Hp).
  assert (forall q, count (points_task q) (<[t := x']> T)
    = count (points_task q) T + (if decide (q = p) then 1 else 0)) as Hc.
  { intros q. rewrite (count_update _ _ _ _ _ Ht). unfold ind.
    rewrite (decide_False (P := points_task q x)) by (unfold points_task; congruence).
    repeat case_decide; unfold points_task in *; try lia; congruence. }
  eapply (inv_set_refs L T (<[t := x']> T) h p c _ None None); try done.
  - lia.
  - rewrite Hc, decide_True by done. rewrite (inv_refs _ _ _ _ Hinv p c Hp). lia.
  - intros q Hq. rewrite Hc, (decide_False (P := q = p)) by done. lia.
  - intros u y q Hu Hy. apply lookup_insert_Some in Hu as [[<- <-]|[_ Hu]].
    + rewrite Hx' in Hy. injection Hy as <-. eauto.
    + by eapply inv_task.
Qed.

Definition zero_task (i : Z) : task :=
  {| pid := i; seccomp_chain := None; seccomp_mode := SECCOMP_MODE_DISABLED |}.

(** The fields a child starts with. *)
Definition inherited (parent : option task) : option nat * Z :=
  match parent with
  | Some pt => match seccomp_chain pt with
               | Some p => (Some p, seccomp_mode pt)
               | None => (None, SECCOMP_MODE_DISABLED)
               end
  | None => (None, SECCOMP_MODE_DISABLED)
  end.

Lemma seccomp_inherit_ok L w child i parent :
  world_wf L w -> small L w -> tasks w !! child = None ->
  (forall p, parent = Some p -> is_Some (tasks w !! p)) ->
  exists w', seccomp_inherit (set_task w child (zero_task i)) child parent = Some w' /\
    world_wf L w' /\ cells_kept (heap w) (heap w') /\
    tasks w' = <[child := let '(c, m) := inherited (parent ≫= fun p => tasks w !! p) in
      {| pid := i; seccomp_chain := c; seccomp_mode := m |}]> (tasks w).
Proof.
  intros [Hinv Hmode] Hs Hc Hpar. unfold seccomp_inherit, set_task.
  record.simp_goal. rewrite lookup_insert_eq. cbn [mbind option_bind].
  unfold zero_task. record.simp_goal. cbv zeta. rewrite insert_insert_eq.
  set (c0 := {| pid := i; seccomp_chain := None; seccomp_mode := SECCOMP_MODE_DISABLED |}).
  assert (inv L (<[child := c0]> (tasks w)) (heap w) None) as Hinv0
    by (by apply inv_new_task).
  assert (forall x, mode_ok x -> forall t y,
    <[child := x]> (tasks w) !! t = Some y -> mode_ok y) as Hmode'.
  { intros x Hx t y Hy. apply lookup_insert_Some in Hy as [[_ <-]|[_ Hy]];
      [done|by eapply Hmode]. }
  assert (mode_ok c0) as Hm0 by done.
  assert (world_wf L (w {{ tasks := <[child := c0]> (tasks w) }})) as Hw0
    by (constructor; [done|by apply Hmode']).
  destruct parent as [p|];
    [|eexists; split; [done|]; split; [done|]; split; [apply cells_kept_refl|done]].
  destruct (Hpar p eq_refl) as [pt Hp].
  assert (child <> p) as Hne by congruence.
  rewrite lookup_insert_ne, Hp by done. cbn [mbind option_bind inherited].
  destruct (seccomp_chain pt) as [fp|] eqn:Ec;
    [|eexists; split; [done|]; split; [done|]; split; [apply cells_kept_refl|];
      by rewrite Hp; cbn [inherited]; rewrite Ec].
  destruct (inv_task _ _ _ _ Hinv p pt fp Hp Ec) as [f Hf]. rewrite Hf. cbn [mbind option_bind].
  pose proof (refs_bound _ _ _ _ _ _ Hinv Hf) as Hb. pose proof (inv_live _ _ _ _ Hinv fp f Hf).
  unfold small in Hs. rewrite s32_small by lia.
  eexists. split; [done|]. rewrite insert_insert_eq.
  assert (mode_ok {| pid := i; seccomp_chain := Some fp; seccomp_mode := seccomp_mode pt |})
    as Hm1 by (pose proof (Hmode p pt Hp) as Hm; unfold mode_ok in *; cbn; by rewrite Ec in Hm).
  split; [constructor; record.simp_goal|].
  - rewrite <- (insert_insert_eq (tasks w) child _ c0).
    eapply inv_take_ref; [done|apply lookup_insert_eq|done..].
  - by apply Hmode'.
  - split; [|rewrite Hp; cbn; by rewrite Ec]. record.simp_goal. intros q d Hq.
    apply lookup_insert_Some in Hq as [[<- <-]|[_ Hq]]; eauto.
Qed.

(** ** Installing *)

Lemma parse_insns_ok n b : Forall in_u8 b -> (8 * n <= length b)%nat ->
  exists prog, parse_insns n b = Some prog /\ length prog = n /\ Forall insn_wf prog.
Proof.
  revert b. induction n as [|n IH]; intros b Hb Hl; [simpl; eauto|].
  do 8 (destruct b as [|? b]; [simpl in Hl; lia|]).
  repeat (apply Forall_cons_iff in Hb as [? Hb]). simpl in Hl.
  cbn [parse_insns lookup list_lookup mbind option_bind].
  destruct (load32_ok (z :: z0 :: z1 :: z2 :: z3 :: z4 :: z5 :: z6 :: b) 4)
    as (k & -> & Hk); [do 8 (constructor; [done|]); done|lia|simpl; lia|].
  destruct (IH b) as (prog & Hp & Hlen & Hwf); [done|lia|].
  cbn [mbind option_bind]. change (drop 8 _) with b. rewrite Hp. cbn [mbind option_bind].
  eexists. split; [done|]. split; [by cbn; rewrite Hlen|]. constructor; [|done].
  constructor; simpl; unfold in_u8, in_u16, in_u32 in *; lia.
Qed.

(** The world after a successful install. *)
Definition installed (w : world) (t : nat) (x : task) (p : nat) (len : Z)
    (prog : list sock_filter) : world :=
  {| heap := <[p := {| refs := 1; prev := seccomp_chain x; flt_len := len;
                       insns := prog |}]> (heap w);
     tasks := <[t := {| pid := pid x; seccomp_chain := Some p;
                        seccomp_mode := SECCOMP_MODE_FILTER |}]> (tasks w) |}.

Lemma seccomp_install_inv umem cell ok w t ufprog w' rc :
  umem_bytes umem ->
  seccomp_install_filter umem cell ok w t ufprog = Some (w', rc) ->
  (w' = w /\ rc < 0) \/
  (rc = 0 /\ exists t0 x p len prog, t = Some t0 /\ tasks w !! t0 = Some x /\
    cell = Some p /\ bpf_verify prog len = Some 0 /\ Forall insn_wf prog /\
    w' = installed w t0 x p len prog).
Proof.
  intros Hu. unfold seccomp_install_filter.
  destruct t as [t|]; [|intros [= <- <-]; by left].
  destruct (tasks w !! t) as [x|] eqn:Ht; [|done]. cbn [mbind option_bind].
  destruct (copy_from_user umem ufprog 2) as [lb|]; [|intros [= <- <-]; by left].
  destruct (rd lb 0) as [b0|]; [|done]. destruct (rd lb 1) as [b1|]; [|done].
  cbn [mbind option_bind]. split_if; [intros [= <- <-]; by left|].
  destruct cell as [p|]; [|intros [= <- <-]; by left].
  split_if; [intros [= <- <-]; by left|].
  destruct (copy_from_user umem (ufprog + 2) _) as [ib|] eqn:Eib;
    [|intros [= <- <-]; by left].
  apply copy_from_user_Some in Eib as [Hlen Hbytes]; [|done]. reflect.
  destruct (parse_insns_ok (Z.to_nat (b0 + 256 * b1)) ib) as (prog & Hp & _ & Hwf);
    [done|lia|].
  rewrite Hp. cbn [mbind option_bind].
  destruct (bpf_verify prog _) as [r|] eqn:Er; [|done]. cbn [mbind option_bind].
  split_if; reflect; intros [= <- <-]; [by left|].
  assert (r = 0) as -> by (apply bpf_verify_rc in Er as [->| ->]; [done|unfold EINVAL in *; lia]).
  right. split; [done|]. exists t, x, p, (b0 + 256 * b1), prog. split_and!; try done.
Qed.

Lemma inv_install L T h t x x' p f :
  inv L T h None -> T !! t = Some x -> h !! p = None ->
  seccomp_chain x' = Some p -> prev f = seccomp_chain x -> refs f = 1 ->
  bpf_verify (insns f) (flt_len f) = Some 0 -> Forall insn_wf (insns f) ->
  inv L (<[t := x']> T) (<[p := f]> h) None.
Proof.
  intros Hinv Ht Hp Hx' Hprev Hrefs Hver Hwf.
  assert (occurs p L = 0) as HpL.
  { apply occurs_zero. intros Hin. destruct (inv_lost _ _ _ _ Hinv p Hin). congruence. }
  assert (forall u y, T !! u = Some y -> seccomp_chain y <> Some p) as Hnt.
  { intros u y Hu Hy. destruct (inv_task _ _ _ _ Hinv u y p Hu Hy). congruence. }
  assert (forall q d, h !! q = Some d -> prev d <> Some p) as Hnc.
  { intros q d Hq Hd. destruct (inv_chain _ _ _ _ Hinv q) as [l Hl]; [eauto|].
    destruct (chain_target _ _ _ _ Hl Hq) as [?|(q' & Eq & [? ?])]; congruence. }
  assert (forall q, count (points_task q) (<[t := x']> T) + count (points_cell q) (<[p := f]> h)
    = count (points_task q) T + count (points_cell q) h + ind (points_task q) x') as Hcount.
  { intros q. rewrite (count_update _ _ _ _ _ Ht), count_insert_fresh by done.
    assert (ind (points_cell q) f = ind (points_task q) x) as ->; [|lia].
    unfold ind. repeat case_decide; unfold points_cell, points_task in *; congruence. }
  constructor.
  - intros q d Hq. rewrite Hcount.
    rewrite (decide_False (P := None = Some q)) by done.
    unfold ind. apply lookup_insert_Some in Hq as [[<- <-]|[Hne Hq]].
    + rewrite decide_True by done. rewrite Hrefs.
      rewrite (count_none (points_task p) T), (count_none (points_cell p) h) by done. lia.
    + rewrite decide_False by (unfold points_task; congruence).
      rewrite (inv_refs _ _ _ _ Hinv q d Hq), decide_False by done. lia.
  - intros q d Hq. apply lookup_insert_Some in Hq as [[<- <-]|[_ Hq]]; [lia|].
    by eapply inv_live.
  - intros u y q Hu Hy. apply lookup_insert_is_Some.
    apply lookup_insert_Some in Hu as [[<- <-]|[_ Hu]]; [left; congruence|].
    destruct (decide (p = q)); [by left|]. right. split; [done|]. by eapply inv_task.
  - intros q Hq. apply lookup_insert_is_Some. destruct (decide (p = q)); [by left|]. right.
    split; [done|]. by apply (inv_lost _ _ _ _ Hinv).
  - intros q Hq. apply lookup_insert_is_Some in Hq as [<-|[Hne Hq]].
    + assert (exists l, chain h (prev f) l) as [l Hl].
      { rewrite Hprev. destruct (seccomp_chain x) as [r|] eqn:Er; [|exists []; constructor].
        apply (inv_chain _ _ _ _ Hinv). by eapply inv_task. }
      exists (p :: l). apply chain_cons with f; [apply lookup_insert_eq|].
      by apply chain_insert_fresh.
    + destruct (inv_chain _ _ _ _ Hinv q Hq) as [l Hl]. exists l. by apply chain_insert_fresh.
  - done.
  - intros q d Hq. apply lookup_insert_Some in Hq as [[<- <-]|[_ Hq]]; [done|].
    by eapply inv_prog.
Qed.

Definition all_benign (w : world) : Prop :=
  forall p c, heap w !! p = Some c -> Forall (fun f => benign f = true) (insns c).

Lemma seccomp_install_ok L umem cell ok w t ufprog w' rc :
  world_wf L w -> umem_bytes umem -> (forall p, cell = Some p -> heap w !! p = None) ->
  seccomp_install_filter umem cell ok w t ufprog = Some (w', rc) -> world_wf L w'.
Proof.
  intros [Hinv Hmode] Hu Hcell E.
  apply seccomp_install_inv in E as [[-> _]|(_ & t0 & x & p & len & prog & -> & Ht & Hp &
    Hver & Hwf & ->)]; [by constructor| |done].
  constructor; cbn.
  - eapply inv_install; [done|done|by apply Hcell|done..].
  - intros u y Hy. apply lookup_insert_Some in Hy as [[_ <-]|[_ Hy]]; [done|].
    by eapply Hmode.
Qed.

(** ** Reachable worlds *)

Definition init_world : world := {| heap := ∅; tasks := ∅ |}.

(** The operations in the places the kernel calls them: a new task inherits
    from its creator, a task installs a filter or enters strict mode.  A task
    that goes away does not release its chain: nothing calls [seccomp_release],
    and the reference the task held is lost.  The release is a step of its own
    all the same, as the module's interface offers it.  Allocation returns free
    cells, and no more tasks, filters and lost references exist than an int
    counts.  The second component collects the lost references. *)
Inductive sec_step : world * list nat -> world * list nat -> Prop :=
| step_fork w L child i parent w' :
    tasks w !! child = None -> (forall p, parent = Some p -> is_Some (tasks w !! p)) ->
    seccomp_inherit (set_task w child (zero_task i)) child parent = Some w' ->
    small L w -> sec_step (w, L) (w', L)
| step_install w L umem cell ok t ufprog w' rc :
    umem_bytes umem -> (forall p, cell = Some p -> heap w !! p = None) ->
    seccomp_install_filter umem cell ok w t ufprog = Some (w', rc) ->
    sec_step (w, L) (w', L)
| step_strict w L t w' rc :
    seccomp_set_strict w t = Some (w', rc) -> sec_step (w, L) (w', L)
| step_exit w L t x :
    tasks w !! t = Some x ->
    sec_step (w, L) (w {{ tasks := delete t (tasks w) }}, option_list (seccomp_chain x) ++ L)
| step_release w L t w' :
    small L w -> seccomp_release w t = Some w' -> sec_step (w, L) (w', L).

Definition reachable : world * list nat -> Prop := rtc sec_step (init_world, []).

(** A task goes away and its reference is lost. *)
Lemma inv_lose_task L T h t x : inv L T h None -> T !! t = Some x ->
  inv (option_list (seccomp_chain x) ++ L) (delete t T) h None.
Proof.
  intros Hinv Ht. constructor; try apply Hinv.
  - intros p c Hp. rewrite (inv_refs _ _ _ _ Hinv p c Hp), (count_delete _ _ _ _ Ht).
    assert (occurs p (option_list (seccomp_chain x) ++ L) = occurs p L + ind (points_task p) x) as ->; [|lia].
    unfold ind. destruct (decide (points_task p x)) as [E|E]; unfold points_task in E;
      destruct (seccomp_chain x); cbn; rewrite ?occurs_cons; try case_decide; congruence || lia.
  - intros u y p Hu Hy. apply lookup_delete_Some in Hu as [_ Hu]. by eapply inv_task.
  - intros p Hp. apply elem_of_app in Hp as [Hp|Hp]; [|by apply (inv_lost _ _ _ _ Hinv)].
    destruct (seccomp_chain x) as [q|] eqn:Ex; cbn in Hp; [|by apply elem_of_nil in Hp].
    apply list_elem_of_singleton in Hp as ->. by eapply inv_task.
Qed.

Lemma inv_same_chain L T h t x x' : inv L T h None -> T !! t = Some x ->
  seccomp_chain x' = seccomp_chain x -> inv L (<[t := x']> T) h None.
Proof.
  intros Hinv Ht Hx. constructor; try apply Hinv.
  - intros p c Hp. rewrite (inv_refs _ _ _ _ Hinv p c Hp), (count_update _ _ _ _ _ Ht).
    unfold ind. repeat case_decide; unfold points_task in *; try lia; congruence.
  - intros u y p Hu Hy. apply lookup_insert_Some in Hu as [[<- <-]|[_ Hu]].
    + rewrite Hx in Hy. by eapply inv_task.
    + by eapply inv_task.
Qed.

Lemma seccomp_set_strict_ok L w t w' rc : world_wf L w ->
  seccomp_set_strict w t = Some (w', rc) -> world_wf L w'.
Proof.
  intros [Hinv Hmode]. unfold seccomp_set_strict.
  destruct t as [t|]; [|intros [= <- <-]; by constructor].
  destruct (tasks w !! t) as [x|] eqn:Ht; [|done]. cbn [mbind option_bind].
  split_if; intros [= <- <-]; [by constructor|].
  pose proof (Hmode t x Ht) as Hm. unfold mode_ok in Hm.
  assert (seccomp_chain x = None) as Hc.
  { destruct (seccomp_chain x) as [p|] eqn:Ec; [|done]. exfalso.
    rewrite (proj2 Hm) in E by done. by rewrite bool_decide_eq_false_2 in E. }
  unfold set_task. constructor; record.simp_goal.
  - by eapply inv_same_chain.
  - intros u y Hy. apply lookup_insert_Some in Hy as [[_ <-]|[_ Hy]]; [|by eapply Hmode].
    change (SECCOMP_MODE_STRICT = SECCOMP_MODE_FILTER <-> seccomp_chain x <> None).
    by rewrite Hc.
Qed.

Lemma init_world_wf : world_wf [] init_world.
Proof.
  constructor; [constructor|]; try (intros *; rewrite ?lookup_empty; done).
  - intros p Hp. by apply elem_of_nil in Hp.
  - intros p [c Hp]. done.
Qed.

Lemma sec_step_wf w L w' L' : world_wf L w -> sec_step (w, L) (w', L') -> world_wf L' w'.
Proof.
  intros Hw Hstep. inversion Hstep as [? ? child i parent ? Hc Hp E Hs|? ? umem cell ok t ufprog ? rc
    Hu Hcell E|? ? t ? rc E|? ? t x Ht|? ? t ? Hs E]; subst.
  - destruct (seccomp_inherit_ok L' w child i parent Hw Hs Hc Hp) as (w2 & E2 & Hw2 & _).
    congruence.
  - by eapply seccomp_install_ok.
  - by eapply seccomp_set_strict_ok.
  - destruct Hw as [Hinv Hmode]. constructor; record.simp_goal; [by apply inv_lose_task|].
    intros u y Hy. apply lookup_delete_Some in Hy as [_ Hy]. by eapply Hmode.
  - destruct (tasks w !! t) as [x|] eqn:Ht;
      [|unfold seccomp_release in E; by rewrite Ht in E].
    destruct (seccomp_release_ok L' w t x Hw Hs Ht) as (w2 & E2 & Hw2 & _). congruence.
Qed.

Lemma reachable_world_wf w L : reachable (w, L) -> world_wf L w.
Proof.
  intros H. assert (forall a b, rtc sec_step a b -> world_wf a.2 a.1 -> world_wf b.2 b.1) as Hind.
  { induction 1 as [|[a La] [b Lb] c Hs _ IH]; [done|]. intros Hw. apply IH. by eapply sec_step_wf. }
  apply (Hind _ _ H init_world_wf).
Qed.

(** ** Chains are duplicate free, hence bounded by the heap *)

Lemma chain_det h f l l' : chain h f l -> chain h f l' -> l = l'.
Proof.
  intros H. revert l'. induction H as [|p c l Hp Hl IH]; intros l' H';
    inversion H' as [|? c' l2 Hp' Hl']; subst; [done|].
  rewrite Hp in Hp'. injection Hp' as <-. f_equal. by apply IH.
Qed.

Lemma chain_suffix h f l p : chain h f l -> p ∈ l ->
  exists l', chain h (Some p) (p :: l') /\ (length l' < length l)%nat.
Proof.
  induction 1 as [|q c l Hq Hl IH]; intros Hin; [by apply not_elem_of_nil in Hin|].
  apply elem_of_cons in Hin as [->|Hin].
  - exists l. split; [by econstructor|simpl; lia].
  - destruct (IH Hin) as (l' & Hl' & Hlt). exists l'. split; [done|simpl; lia].
Qed.

Lemma chain_NoDup h f l : chain h f l -> NoDup l.
Proof.
  induction 1 as [|p c l Hp Hl IH]; [constructor|]. constructor; [|done].
  intros Hin. destruct (chain_suffix _ _ _ _ Hl Hin) as (l' & Hl' & Hlt).
  assert (chain h (Some p) (p :: l)) as Hpl by (by econstructor).
  pose proof (chain_det _ _ _ _ Hpl Hl') as [= ->]. lia.
Qed.

Lemma chain_in_heap h f l p : chain h f l -> p ∈ l -> is_Some (h !! p).
Proof.
  intros Hl Hin. destruct (chain_suffix _ _ _ _ Hl Hin) as (l' & Hl' & _).
  inversion Hl'; eauto.
Qed.

Lemma chain_length h f l : chain h f l -> (length l <= size h)%nat.
Proof.
  intros Hl. rewrite <- size_dom. rewrite <- (size_list_to_set (C := gset nat) l)
    by (by eapply chain_NoDup).
  apply subseteq_size. intros p Hp%elem_of_list_to_set.
  apply elem_of_dom. by eapply chain_in_heap.
Qed.

(** Without tasks and lost references no filter is left. *)
Lemma no_tasks_no_filters h : inv [] ∅ h None -> h = ∅.
Proof.
  intros Hinv. apply map_empty. intros p.
  destruct (h !! p) as [c|] eqn:Hp; [exfalso|done].
  assert (forall n, exists q l, chain h (Some q) l /\ (n <= length l)%nat) as Hlong.
  { induction n as [|n (q & l & Hl & Hn)].
    - destruct (inv_chain _ _ _ _ Hinv p) as [l Hl]; [eauto|]. exists p, l. split; [done|lia].
    - inversion Hl as [|? d l' Hq Hl']; subst.
      pose proof (inv_refs _ _ _ _ Hinv q d Hq) as E. pose proof (inv_live _ _ _ _ Hinv q d Hq).
      change (occurs q []) with 0 in E. rewrite (count_none (points_task q)), decide_False in E by done.
      destruct (count_some (points_cell q) h) as (r & e & Hr & He); [lia|].
      exists r, (r :: q :: l'). split; [|simpl in *; lia].
      apply chain_cons with e; [done|]. by rewrite He. }
  destruct (Hlong (S (size h))) as (q & l & Hl & Hn).
  apply chain_length in Hl. lia.
Qed.

(** A chain survives when its cells do. *)
Lemma chain_kept h h' f l : cells_kept h h' -> chain h' f l -> chain h f l.
Proof.
  intros Hk. induction 1 as [|p c' l Hp Hl IH]; [constructor|].
  destruct (Hk p c' Hp) as (c & Hc & Hprev & _). apply chain_cons with c; [done|]. by rewrite <- Hprev.
Qed.

Lemma task_chain L T h t x : inv L T h None -> T !! t = Some x ->
  exists l, chain h (seccomp_chain x) l.
Proof.
  intros Hinv Ht. destruct (seccomp_chain x) as [p|] eqn:Ex; [|exists []; constructor].
  apply (inv_chain _ _ _ _ Hinv). by eapply inv_task.
Qed.

(** C7: reference counting.  In every world reachable by forks, installs,
    strict-mode switches, exits and releases, with [L] the references of tasks
    that exited (the kernel's exit path releases nothing), and as long as the
    counts fit a C int: the count of each filter is exactly the number of tasks,
    newer filters and lost references that point to it; every task's chain is a
    finite list of live filters; a filter with a lost reference is never freed;
    releasing a task's chain succeeds and leaves the chain of every other task,
    with its programs, as it was; and without tasks and lost references no
    filter is left: no use after free, no double free, and no leak but through
    the exit path. *)
Theorem refcounts_exact w L :
  reachable (w, L) -> small L w ->
  (forall p c, heap w !! p = Some c ->
     refs c = count (points_task p) (tasks w) + count (points_cell p) (heap w) + occurs p L) /\
  (forall t x, tasks w !! t = Some x -> exists l, chain (heap w) (seccomp_chain x) l) /\
  (forall p, p ∈ L -> is_Some (heap w !! p)) /\
  (forall t x, tasks w !! t = Some x -> exists w', seccomp_release w t = Some w' /\
     tasks w' = <[t := x {{ seccomp_chain := None; seccomp_mode := 0 }}]> (tasks w) /\
     forall u y l, u <> t -> tasks w !! u = Some y -> chain (heap w) (seccomp_chain y) l ->
       chain (heap w') (seccomp_chain y) l /\
       forall p c, p ∈ l -> heap w !! p = Some c -> exists c', heap w' !! p = Some c' /\
         prev c' = prev c /\ insns c' = insns c /\ flt_len c' = flt_len c) /\
  (tasks w = ∅ -> L = [] -> heap w = ∅).
Proof.
  intros [Hinv Hmode]%reachable_world_wf Hs. split_and!.
  - intros p c Hp. rewrite (inv_refs _ _ _ _ Hinv p c Hp), decide_False by done. lia.
  - intros. by eapply task_chain.
  - apply Hinv.
  - intros t x Ht. destruct (seccomp_release_ok L w t x) as (w' & E & [Hinv' _] & HT & Hk);
      [by constructor|done..|].
    exists w'. split; [done|]. split; [done|]. intros u y l Hne Hu Hl.
    assert (tasks w' !! u = Some y) as Hu' by (by rewrite HT, lookup_insert_ne).
    destruct (task_chain _ _ _ _ _ Hinv' Hu') as [l' Hl'].
    assert (l' = l) as -> by (eapply chain_det; [by eapply chain_kept|done]).
    split; [done|]. intros p c Hp Hc. destruct (chain_in_heap _ _ _ _ Hl' Hp) as [c' Hc'].
    exists c'. split; [done|]. destruct (Hk p c' Hc') as (c0 & Hc0 & H). rewrite Hc in Hc0. by injection Hc0 as <-.
  - intros E ->. rewrite E in Hinv. by apply no_tasks_no_filters.
Qed.

(** The first four bytes are the length and the instruction [ld nr]. *)
Definition demo_prog_bytes : list Z :=
  [4; 0] ++ [0x20; 0; 0; 0; 0; 0; 0; 0] ++ [0x15; 0; 0; 1; 56; 0; 0; 0]
  ++ [0x06; 0; 0; 0; 13; 0; 5; 0] ++ [0x06; 0; 0; 0; 0; 0; 0xff; 0x7f].

Definition demo_umem (a : Z) : option Z := rd demo_prog_bytes a.

Lemma demo_umem_bytes : umem_bytes demo_umem.
Proof.
  intros a b. apply rd_Forall. apply (bool_decide_unpack _). vm_compute. done.
Qed.

(** Task 1 installed the demo filter in cell 7, its child 2 inherited it. *)
Definition demo_task (i : Z) : task :=
  {| pid := i; seccomp_chain := Some 7%nat; seccomp_mode := SECCOMP_MODE_FILTER |}.
Definition demo_cell (n : Z) : seccomp_filter :=
  {| refs := n; prev := None; flt_len := 4; insns := demo_filter |}.
Definition demo_world : world :=
  {| heap := <[7%nat := demo_cell 2]> ∅;
     tasks := <[2%nat := demo_task 101]> (<[1%nat := demo_task 100]> ∅) |}.

Lemma demo_world_reachable : reachable (demo_world, []).
Proof.
  unfold reachable.
  apply rtc_l with ({| heap := ∅; tasks := <[1%nat := zero_task 100]> ∅ |}, []).
  { by apply (step_fork _ _ 1%nat 100 None). }
  apply rtc_l with ({| heap := <[7%nat := demo_cell 1]> ∅;
                       tasks := <[1%nat := demo_task 100]> ∅ |}, []).
  { apply (step_install _ _ demo_umem (Some 7%nat) true (Some 1%nat) 0 _ 0).
    - apply demo_umem_bytes.
    - intros p [= <-]. reflexivity.
    - vm_compute. reflexivity. }
  apply rtc_once. apply (step_fork _ _ 2%nat 101 (Some 1%nat)); try done.
  intros p [= <-]. eexists. reflexivity.
Qed.

(** Task 1 exits: its child's filter keeps two references, of which one is
    lost. *)
Definition demo_exit : world :=
  {| heap := <[7%nat := demo_cell 2]> ∅; tasks := <[2%nat := demo_task 101]> ∅ |}.

Lemma demo_exit_reachable : reachable (demo_exit, [7%nat]).
Proof.
  eapply rtc_r; [exact demo_world_reachable|].
  exact (step_exit demo_world [] 1%nat (demo_task 100) eq_refl).
Qed.

Lemma refcounts_exact_witness :
  (forall p c, heap demo_exit !! p = Some c -> refs c
     = count (points_task p) (tasks demo_exit) + count (points_cell p) (heap demo_exit) + occurs p [7%nat]) /\
  is_Some (seccomp_release demo_exit 2%nat).
Proof.
  destruct (refcounts_exact demo_exit [7%nat] demo_exit_reachable ltac:(reflexivity)) as (H1 & _ & _ & H2 & _).
  split; [exact H1|]. destruct (H2 2%nat (demo_task 101) eq_refl) as (w' & E & _). exists w'. exact E.
Defined.

(** ** What a chain means *)

(** The first action that is not ALLOW, newest filter first. *)
Fixpoint first_action (acts : list Z) : Z :=
  match acts with
  | [] => SECCOMP_RET_ALLOW
  | a :: rest => if is_allow a then first_action rest else a
  end.

(** The action of the filter in cell [p]. *)
Definition cell_action (h : gmap nat seccomp_filter) (sd : seccomp_data) (p : nat) (a : Z)
  : Prop :=
  exists c, h !! p = Some c /\
    forall rfuel, BPF_MAXINSNS <= Z.of_nat rfuel ->
      bpf_run rfuel (insns c) (flt_len c) sd = Some (Some a).

(** The filters of a chain have neither a jump offset with the top bit set nor
    a negation. *)
Definition tame (h : gmap nat seccomp_filter) (l : list nat) : Prop :=
  forall p c, p ∈ l -> h !! p = Some c -> Forall (fun f => benign f = true) (insns c).

Lemma chain_actions L T h f l sd : inv L T h None -> chain h f l -> tame h l ->
  length (sd_args sd) = 6%nat -> exists acts, Forall2 (cell_action h sd) l acts.
Proof.
  intros Hinv Hl Htame Hargs. induction Hl as [|p c l Hp Hl IH]; [exists []; constructor|].
  destruct IH as [acts Hacts]; [intros q d Hq; apply Htame; by apply elem_of_cons; right|].
  destruct (inv_prog _ _ _ _ Hinv p c Hp) as [Hv Hwf].
  pose proof (bpf_verify_verified _ _ Hv Hwf (Htame p c ltac:(apply elem_of_cons; by left) Hp)) as Hver.
  destruct (bpf_run_terminates _ _ sd Hver Hargs) as (a & _ & Ha).
  exists (a :: acts). constructor; [|done]. exists c. split; [done|].
  intros rfuel Hr. apply Ha. destruct (vf_len _ _ Hver). lia.
Qed.

Lemma chain_walk_ok h sd f l acts cfuel rfuel :
  chain h f l -> Forall2 (cell_action h sd) l acts ->
  (length l <= cfuel)%nat -> BPF_MAXINSNS <= Z.of_nat rfuel ->
  chain_walk cfuel rfuel h sd f = Some (Some (first_action acts)).
Proof.
  intros Hl. revert acts cfuel. induction Hl as [|p c l Hp Hl IH]; intros acts cfuel Ha Hc Hr.
  { inversion Ha. by destruct cfuel. }
  inversion Ha as [|? a ? acts' (c' & Hc' & Hrun) Hrest]; subst.
  rewrite Hp in Hc'. injection Hc' as <-.
  destruct cfuel as [|cfuel]; [simpl in Hc; lia|].
  cbn [chain_walk first_action]. rewrite Hp. cbn [mbind option_bind].
  rewrite Hrun by done. cbn [mbind option_bind].
  destruct (is_allow a); [|done]. cbn. apply IH; [done|simpl in Hc; lia|done].
Qed.

Section Meaning.
Context (arch : Z).

(** C8: the meaning of a task's filters.  In every reachable world, for a task
    whose filters contain neither a jump offset with the top bit set nor a
    negation (the verifier accepts a filter with such a jump that never returns),
    [seccomp_evaluate] returns, within [size heap] chain links and 4096
    interpreter steps per filter, the action of the newest filter on the
    task's chain that does not allow the call, ALLOW when all do; without
    a chain it is the strict-mode list or ALLOW. *)
Theorem seccomp_evaluate_meaning w L t x l nr ip args cfuel rfuel :
  reachable (w, L) -> tasks w !! t = Some x -> chain (heap w) (seccomp_chain x) l -> tame (heap w) l ->
  length args = 6%nat -> (size (heap w) <= cfuel)%nat -> BPF_MAXINSNS <= Z.of_nat rfuel ->
  exists acts, Forall2 (cell_action (heap w) (make_sd arch nr ip args)) l acts /\
    seccomp_evaluate arch cfuel rfuel w (Some t) nr ip args = Some (Some (
      if (seccomp_mode x =? SECCOMP_MODE_STRICT) then strict_action nr
      else first_action acts)).
Proof.
  intros [Hinv Hmode]%reachable_world_wf Ht Hl Htame Hargs Hc Hr.
  destruct (chain_actions _ _ _ _ _ (make_sd arch nr ip args) Hinv Hl Htame Hargs) as [acts Ha].
  exists acts. split; [done|].
  pose proof (Hmode t x Ht) as Hm. unfold mode_ok in Hm.
  unfold seccomp_evaluate. rewrite Ht. cbn [mbind option_bind].
  destruct (seccomp_chain x) as [p|] eqn:Ex.
  - rewrite (proj2 Hm) by done. cbn [Z.eqb]. eapply chain_walk_ok; [done|done| |done].
    pose proof (chain_length _ _ _ Hl). lia.
  - inversion Hl; subst. inversion Ha; subst. by destruct (_ =? _).
Qed.

(** Evaluation of a task with a known chain, away from strict mode. *)
Lemma evaluate_chain w t x nr ip args l acts cfuel rfuel :
  tasks w !! t = Some x -> seccomp_mode x <> SECCOMP_MODE_STRICT ->
  chain (heap w) (seccomp_chain x) l ->
  Forall2 (cell_action (heap w) (make_sd arch nr ip args)) l acts ->
  (size (heap w) <= cfuel)%nat -> BPF_MAXINSNS <= Z.of_nat rfuel ->
  seccomp_evaluate arch cfuel rfuel w (Some t) nr ip args = Some (Some (first_action acts)).
Proof.
  intros Ht Hm Hl Ha Hc Hr. unfold seccomp_evaluate. rewrite Ht. cbn [mbind option_bind].
  pose proof (chain_length _ _ _ Hl).
  destruct (seccomp_chain x) as [p|]; [eapply chain_walk_ok; [done|done|lia|done]|].
  rewrite (proj2 (Z.eqb_neq _ _)) by done. inversion Hl; subst. by inversion Ha; subst.
Qed.

Lemma cell_action_fresh h p f sd q a : h !! p = None ->
  cell_action h sd q a -> cell_action (<[p := f]> h) sd q a.
Proof.
  intros Hp (c & Hq & Hrun). exists c. split; [|done].
  rewrite lookup_insert_ne; [done|]. congruence.
Qed.

(** Installing a filter only restricts.  After a successful install the
    task's verdict on every system call is the new filter's action when that
    one does not allow the call and the old verdict otherwise, so a call that
    is allowed afterwards was allowed before; the verdicts of all other tasks
    are unchanged. *)
Theorem install_only_restricts L umem cell ok w t x ufprog w' nr ip args cfuel rfuel :
  reachable (w, L) -> umem_bytes umem -> (forall p, cell = Some p -> heap w !! p = None) ->
  tasks w !! t = Some x -> seccomp_mode x <> SECCOMP_MODE_STRICT ->
  seccomp_install_filter umem cell ok w (Some t) ufprog = Some (w', 0) ->
  all_benign w' -> length args = 6%nat ->
  (size (heap w') <= cfuel)%nat -> BPF_MAXINSNS <= Z.of_nat rfuel ->
  exists p a old, cell_action (heap w') (make_sd arch nr ip args) p a /\
    heap w !! p = None /\
    seccomp_evaluate arch cfuel rfuel w (Some t) nr ip args = Some (Some old) /\
    seccomp_evaluate arch cfuel rfuel w' (Some t) nr ip args
      = Some (Some (if is_allow a then old else a)) /\
    (forall u y, u <> t -> tasks w !! u = Some y -> seccomp_mode y <> SECCOMP_MODE_STRICT ->
       seccomp_evaluate arch cfuel rfuel w' (Some u) nr ip args
       = seccomp_evaluate arch cfuel rfuel w (Some u) nr ip args).
Proof.
  intros Hw Hu Hcell Ht Hm E Hb Hargs Hc Hr.
  assert (world_wf L w') as [Hinv' _]
    by (eapply seccomp_install_ok; [by apply reachable_world_wf|done..]).
  apply reachable_world_wf in Hw as [Hinv _].
  apply seccomp_install_inv in E as [[_ ?]|(_ & t0 & x0 & p & len & prog & [= <-] & Ht0 & Hp
    & Hver & Hwf & ->)]; [lia| |done].
  rewrite Ht in Ht0. injection Ht0 as <-. specialize (Hcell p Hp).
  cbn [installed heap tasks] in *.
  set (f := {| refs := 1; prev := seccomp_chain x; flt_len := len; insns := prog |}) in *.
  assert (size (heap w) <= cfuel)%nat as Hc0 by (rewrite map_size_insert_None in Hc by done; lia).
  assert (forall l', tame (<[p := f]> (heap w)) l') as Ht' by (intros l' q c _; apply Hb).
  assert (forall l', tame (heap w) l') as Ht0.
  { intros l' q c _ Hq. apply (Hb q). cbn. rewrite lookup_insert_ne; congruence. }
  destruct (task_chain _ _ _ _ _ Hinv Ht) as [l Hl].
  destruct (chain_actions _ _ _ _ _ (make_sd arch nr ip args) Hinv Hl (Ht0 _) Hargs) as [acts Ha].
  assert (chain (<[p := f]> (heap w)) (Some p) (p :: l)) as Hl'
    by (apply chain_cons with f; [apply lookup_insert_eq|by apply chain_insert_fresh]).
  destruct (chain_actions _ _ _ _ _ (make_sd arch nr ip args) Hinv' Hl' (Ht' _) Hargs) as [acts' Ha'].
  inversion Ha' as [|? a ? ? Hpa _]; subst.
  exists p, a, (first_action acts). split; [done|]. split; [done|].
  assert (forall q b, cell_action (heap w) (make_sd arch nr ip args) q b ->
    cell_action (<[p := f]> (heap w)) (make_sd arch nr ip args) q b) as Hlift
    by (intros; by apply cell_action_fresh).
  split; [by eapply evaluate_chain|]. split.
  - change (if is_allow a then first_action acts else a) with (first_action (a :: acts)).
    eapply (evaluate_chain (installed w t x p len prog) t
      {| pid := pid x; seccomp_chain := Some p; seccomp_mode := SECCOMP_MODE_FILTER |}
      nr ip args (p :: l)); [apply lookup_insert_eq|done|exact Hl'| |done|done].
    constructor; [done|]. eapply Forall2_impl; [exact Hlift|done].
  - intros u y Hne Hu' Hmy. destruct (task_chain _ _ _ _ _ Hinv Hu') as [lu Hlu].
    destruct (chain_actions _ _ _ _ _ (make_sd arch nr ip args) Hinv Hlu (Ht0 _) Hargs) as [au Hau].
    rewrite (evaluate_chain w u y nr ip args lu au) by done.
    eapply (evaluate_chain (installed w t x p len prog) u y nr ip args lu);
      [by apply lookup_insert_Some; right|done|by apply chain_insert_fresh| |done|done].
    eapply Forall2_impl; [exact Hlift|done].
Qed.
End Meaning.

Lemma seccomp_evaluate_meaning_witness :
  exists acts, Forall2 (cell_action (heap demo_exit) (make_sd 243 56 0 [0;0;0;0;0;0])) [7%nat] acts /\
    seccomp_evaluate 243 1 4096 demo_exit (Some 2%nat) 56 0 [0;0;0;0;0;0]
      = Some (Some (first_action acts)).
Proof.
  apply (seccomp_evaluate_meaning 243 demo_exit [7%nat] 2%nat (demo_task 101) [7%nat] 56 0
    [0;0;0;0;0;0] 1 4096).
  - exact demo_exit_reachable.
  - reflexivity.
  - apply chain_cons with (demo_cell 2); [reflexivity|constructor].
  - intros p c Hp Hc. apply list_elem_of_singleton in Hp as ->. injection Hc as <-. repeat constructor.
  - reflexivity.
  - vm_compute. lia.
  - vm_compute. discriminate.
Defined.

Definition demo_world2 : world :=
  installed demo_world 2%nat (demo_task 101) 9%nat 4 demo_filter.

Lemma install_only_restricts_witness :
  exists p a old, cell_action (heap demo_world2) (make_sd 243 56 0 [0;0;0;0;0;0]) p a /\
    heap demo_world !! p = None /\
    seccomp_evaluate 243 2 4096 demo_world (Some 2%nat) 56 0 [0;0;0;0;0;0]
      = Some (Some old) /\
    seccomp_evaluate 243 2 4096 demo_world2 (Some 2%nat) 56 0 [0;0;0;0;0;0]
      = Some (Some (if is_allow a then old else a)) /\
    (forall u y, u <> 2%nat -> tasks demo_world !! u = Some y ->
       seccomp_mode y <> SECCOMP_MODE_STRICT ->
       seccomp_evaluate 243 2 4096 demo_world2 (Some u) 56 0 [0;0;0;0;0;0]
       = seccomp_evaluate 243 2 4096 demo_world (Some u) 56 0 [0;0;0;0;0;0]).
Proof.
  apply (install_only_restricts 243 [] demo_umem (Some 9%nat) true demo_world 2%nat
    (demo_task 101) 0 demo_world2 56 0 [0;0;0;0;0;0] 2 4096).
  - apply demo_world_reachable.
  - apply demo_umem_bytes.
  - intros p [= <-]. reflexivity.
  - reflexivity.
  - discriminate.
  - vm_compute. reflexivity.
  - intros p c Hp. cbn in Hp.
    do 2 (apply lookup_insert_Some in Hp as [[<- <-]|[_ Hp]]; [repeat constructor|]).
    done.
  - reflexivity.
  - vm_compute. lia.
  - vm_compute. discriminate.
Defined.
