(* ===== verification/Task.v ===== *)
(** * Tasks (kernel/include/proc/proc.h, proc/task.c)

    The fields of [task_t] that the timer heaps, the park protocol and the
    scheduler's wake path touch, the task table, and the reference counting
    of tasks. *)

From stdpp Require Export gmap.
From S2P Require Import Prelude.

#[global] Open Scope Z_scope.

Inductive proc_state_t :=
| PROC_UNUSED | PROC_READY | PROC_RUNNING | PROC_BLOCKED | PROC_STOPPED | PROC_ZOMBIE.

Inductive proc_park_state_t :=
| PROC_PARK_IDLE | PROC_PARK_PREPARING | PROC_PARK_PARKED | PROC_PARK_WOKEN.

Inductive proc_wake_reason_t :=
| PROC_WAKE_NONE | PROC_WAKE_EVENT | PROC_WAKE_TIMEOUT | PROC_WAKE_TIMEOUT_CAPACITY
| PROC_WAKE_SIGNAL | PROC_WAKE_FATAL_SIGNAL | PROC_WAKE_TASK_EXIT | PROC_WAKE_EXIT
| PROC_WAKE_CANCEL.

Inductive proc_wait_mode_t :=
| PROC_WAIT_UNINTERRUPTIBLE | PROC_WAIT_INTERRUPTIBLE | PROC_WAIT_KILLABLE.

#[global] Instance proc_state_eq_dec : EqDecision proc_state_t.
Proof. solve_decision. Defined.
#[global] Instance proc_park_state_eq_dec : EqDecision proc_park_state_t.
Proof. solve_decision. Defined.
#[global] Instance proc_wake_reason_eq_dec : EqDecision proc_wake_reason_t.
Proof. solve_decision. Defined.
#[global] Instance proc_wait_mode_eq_dec : EqDecision proc_wait_mode_t.
Proof. solve_decision. Defined.

Record task_t := {
  state : proc_state_t;
  refs : Z; dynamic_alloc : bool; destroy_started : bool;
  wake_time : Z; alarm_expire : Z; itimer_real_interval : Z;
  wait_seq : Z; wait_deadline : Z;
  wait_timer_index : Z; alarm_timer_index : Z;
  park_state : proc_park_state_t; wait_mode : proc_wait_mode_t;
  wake_reason : proc_wake_reason_t;
  exit_pending : bool;
  on_cpu : bool; on_rq : bool; dispatching : bool; owner_cpu : Z; cpu_id : Z;
}.

(** The live task structures are a map by address. *)

(** [Some (T, false)] is the NULL return. *)
Definition proc_get (T : gmap nat task_t) (p : nat) : option (gmap nat task_t * bool) :=
  t ← T !! p;
  if refs t =? 0 then Some (T, false)
  else Some (<[p := t {{ refs := s32 (refs t + 1) }}]> T, true).

(** A panic is [None]; the last reference frees the structure. *)
Definition proc_put (T : gmap nat task_t) (p : nat) : option (gmap nat task_t) :=
  t ← T !! p;
  if refs t <=? 0 then None
  else
    if negb (refs t =? 1) then Some (<[p := t {{ refs := refs t - 1 }}]> T)
    else if negb (dynamic_alloc t) then None
    else if negb (destroy_started t) then None
    else Some (delete p T).
