(* ===== verification/TimerHeap.v ===== *)
(** * Timer heaps (kernel/proc/timer_heap.c)

    The two deadline min-heaps, wait timers and SIGALRM alarms, with the
    index each entry keeps in its task, the registration, cancellation and
    the next-scan deadlines.  Both heaps are the same array algorithm, so it
    is written once over a class of entries; [None] is an access outside the
    array, through a NULL task or to a freed task. *)

From S2P Require Import Prelude Task.

Record wait_timer := { wt_deadline : Z; wt_task : option nat; wt_seq : Z }.
Record alarm_timer := { at_deadline : Z; at_task : option nat }.

(** What the heap algorithm needs of an entry, and of the index field of the
    task the entry belongs to. *)
Class HeapEntry (E : Type) := {
  he_deadline : E -> Z;
  he_task : E -> option nat;
  he_zero : E;
  ti_get : task_t -> Z;
  ti_set : Z -> task_t -> task_t;
}.

#[global] Instance wait_entry : HeapEntry wait_timer := {|
  he_deadline := wt_deadline; he_task := wt_task;
  he_zero := {| wt_deadline := 0; wt_task := None; wt_seq := 0 |};
  ti_get := wait_timer_index;
  ti_set := fun i t => t {{ wait_timer_index := i }} |}.

#[global] Instance alarm_entry : HeapEntry alarm_timer := {|
  he_deadline := at_deadline; he_task := at_task;
  he_zero := {| at_deadline := 0; at_task := None |};
  ti_get := alarm_timer_index;
  ti_set := fun i t => t {{ alarm_timer_index := i }} |}.

(** ** The heap algorithm *)

Record heap_t (E : Type) := { arr : list E; cnt : Z }.
Arguments arr {E} _.
Arguments cnt {E} _.
Arguments Build_heap_t {E} _ _.

Section Heap.
Context {E : Type} `{HeapEntry E}.

(** [e.task->index = i] *)
Definition set_index (T : gmap nat task_t) (e : E) (i : Z) : option (gmap nat task_t) :=
  p ← he_task e; t ← T !! p; Some (<[p := ti_set i t]> T).

Definition deadline_at (a : list E) (i : Z) : option Z :=
  e ← rd a i; Some (he_deadline e).

Definition heap_swap (a : list E) (T : gmap nat task_t) (i j : Z) : option (list E * gmap nat task_t) :=
  tmp ← rd a i;
  ej ← rd a j;
  a ← wr a i ej;
  a ← wr a j tmp;
  ei ← rd a i; T ← set_index T ei i;
  ej ← rd a j; T ← set_index T ej j;
  Some (a, T).

(** The index halves in every iteration, so [index] steps are enough. *)
Fixpoint sift_up (fuel : nat) (a : list E) (T : gmap nat task_t) (index : Z)
  : option (list E * gmap nat task_t) :=
  if 0 <? index then
    match fuel with
    | O => None
    | S fuel' =>
        let parent := (index - 1) / 2 in
        dp ← deadline_at a parent;
        di ← deadline_at a index;
        if dp <=? di then Some (a, T)
        else
          '(a, T) ← heap_swap a T parent index;
          sift_up fuel' a T parent
    end
  else Some (a, T).

(** The index grows in every iteration, so [cnt] steps are enough. *)
Fixpoint sift_down (fuel : nat) (a : list E) (T : gmap nat task_t) (count index : Z)
  : option (list E * gmap nat task_t) :=
  match fuel with
  | O => None
  | S fuel' =>
      let left := u32 (index * 2 + 1) in
      let right := u32 (left + 1) in
      let smallest := index in
      smallest ← (if left <? count then
                    dl ← deadline_at a left; ds ← deadline_at a smallest;
                    Some (if dl <? ds then left else smallest)
                  else Some smallest);
      smallest ← (if right <? count then
                    dr ← deadline_at a right; ds ← deadline_at a smallest;
                    Some (if dr <? ds then right else smallest)
                  else Some smallest);
      if smallest =? index then Some (a, T)
      else
        '(a, T) ← heap_swap a T index smallest;
        sift_down fuel' a T count smallest
  end.

(** The removed entry, or the zero entry for an index out of range. *)
Definition remove_index_locked (h : heap_t E) (T : gmap nat task_t) (index : Z)
  : option (heap_t E * gmap nat task_t * E) :=
  if cnt h <=? index then Some (h, T, he_zero)
  else
    removed ← rd (arr h) index;
    T ← (match he_task removed with
         | Some p => t ← T !! p; Some (<[p := ti_set (-1) t]> T)
         | None => Some T
         end);
    let count := cnt h - 1 in
    '(a, T) ← (if negb (index =? count) then
                 last ← rd (arr h) count;
                 a ← wr (arr h) index last;
                 ei ← rd a index;
                 T ← set_index T ei index;
                 up ← (if 0 <? index then
                         di ← deadline_at a index;
                         dp ← deadline_at a ((index - 1) / 2);
                         Some (di <? dp)
                       else Some false);
                 if (up : bool) then sift_up (Z.to_nat index) a T index
                 else sift_down (Z.to_nat count) a T count index
               else Some (arr h, T));
    a ← wr a count he_zero;
    Some ({| arr := a; cnt := count |}, T, removed).
End Heap.

Definition alarm_timer_swap := heap_swap (E := alarm_timer).
Definition alarm_timer_sift_up := sift_up (E := alarm_timer).
Definition alarm_timer_sift_down := sift_down (E := alarm_timer).
Definition alarm_timer_remove_index_locked := remove_index_locked (E := alarm_timer).
Definition wait_timer_heap_swap := heap_swap (E := wait_timer).
Definition wait_timer_sift_up := sift_up (E := wait_timer).
Definition wait_timer_sift_down := sift_down (E := wait_timer).

(** ** The module's state *)

Definition SCHED_NO_DEADLINE : Z := U64_MAX.

Record timers := {
  wait_timer_heap : heap_t wait_timer;
  wait_timer_full_failures : Z;
  wait_timer_duplicate_rejections : Z;
  wait_timer_stale_expirations : Z;
  alarm_timer_heap : heap_t alarm_timer;
  next_wake_scan : Z; next_alarm_scan : Z; next_posix_scan : Z;
  tasks : gmap nat task_t;
  (** the arguments of timer_set_interval so far, newest first *)
  intervals : list Z;
}.

Abbreviation PROC_PARK_PREPARE_OK := (0)%Z (only parsing).
Abbreviation PROC_PARK_PREPARE_INVALID := (-1)%Z (only parsing).
Abbreviation PROC_PARK_PREPARE_TIMEOUT_CAPACITY := (-2)%Z (only parsing).
Abbreviation PROC_PARK_PREPARE_TIMEOUT_DUPLICATE := (-3)%Z (only parsing).
Abbreviation PROC_PARK_PREPARE_TIMEOUT_REF := (-4)%Z (only parsing).

Section Timers.
(** Build configuration: the capacity and the timer frequency. *)
Context (WAIT_TIMER_HEAP_MAX TICKS_PER_SEC : Z).

Definition proc_timer_heap_init (s : timers) : timers :=
  s {{ wait_timer_heap := {| arr := arr (wait_timer_heap s); cnt := 0 |};
       wait_timer_full_failures := 0; wait_timer_duplicate_rejections := 0;
       wait_timer_stale_expirations := 0;
       next_wake_scan := SCHED_NO_DEADLINE; next_alarm_scan := SCHED_NO_DEADLINE;
       next_posix_scan := SCHED_NO_DEADLINE }}.

Definition SCHED_TICK_INTERVAL : Z := TICKS_PER_SEC / 100.
Definition SCHED_MIN_TIMER_INTERVAL : Z :=
  if c_true (TICKS_PER_SEC / 10000) then TICKS_PER_SEC / 10000 else 1.

Definition proc_next_timer_interval (s : timers) (now : Z) : Z :=
  let next := u64 (now + SCHED_TICK_INTERVAL) in
  let next := if next_wake_scan s <? next then next_wake_scan s else next in
  let next := if next_alarm_scan s <? next then next_alarm_scan s else next in
  let next := if next_posix_scan s <? next then next_posix_scan s else next in
  if next <=? now then SCHED_MIN_TIMER_INTERVAL
  else
    let delta := next - now in
    if delta <? SCHED_MIN_TIMER_INTERVAL then SCHED_MIN_TIMER_INTERVAL else delta.

Definition proc_sched_timers_due (s : timers) (now : Z) : bool :=
  (next_wake_scan s <=? now) || (next_alarm_scan s <=? now) || (next_posix_scan s <=? now).

(** The slot after the call and the result; the compare-and-swap loop ends
    with the slot at the minimum. *)
Definition sched_note_deadline (slot value : Z) : Z * bool :=
  if value =? 0 then (slot, false)
  else if value <? slot then (value, true) else (slot, false).

(** [ticks] is what timer_get_ticks() reads. *)
Definition sched_rearm_timer (ticks : Z) (s : timers) : timers :=
  s {{ intervals := proc_next_timer_interval s ticks :: intervals s }}.

(** ** Wait timers *)

Definition proc_wait_timer_violations_locked (s : timers) : option Z :=
  let h := wait_timer_heap s in
  for_ 0 (cnt h) (fun i violations =>
    timer ← rd (arr h) i;
    let violations :=
      if bool_decide (wt_task timer = None) || (wt_deadline timer =? 0)
         || (wt_seq timer =? 0)
      then u32 (violations + 1) else violations in
    violations ← (match wt_task timer with
                  | None => Some violations
                  | Some p =>
                      t ← tasks s !! p;
                      Some (if negb (wait_timer_index t =? i)
                               || negb (wait_seq t =? wt_seq timer)
                               || negb (wait_deadline t =? wt_deadline timer)
                            then u32 (violations + 1) else violations)
                  end);
    if 0 <? i then
      up ← rd (arr h) ((i - 1) / 2);
      Some (if wt_deadline timer <? wt_deadline up then u32 (violations + 1)
            else violations)
    else Some violations)
  (c_bool (WAIT_TIMER_HEAP_MAX <? cnt h)).

Definition first_deadline (h : heap_t wait_timer) : option Z :=
  if c_true (cnt h) then deadline_at (arr h) 0 else Some SCHED_NO_DEADLINE.

Definition wait_timer_remove_index_locked (s : timers) (index : Z)
  : option (timers * wait_timer) :=
  if cnt (wait_timer_heap s) <=? index then Some (s, he_zero)
  else
    '(h, T, removed) ← remove_index_locked (wait_timer_heap s) (tasks s) index;
    first ← first_deadline h;
    Some (s {{ wait_timer_heap := h; tasks := T; next_wake_scan := first }}, removed).

(** [owned = proc_get(t)], then the entry goes into the first free slot. *)
Definition proc_wait_timer_register_locked (ticks : Z) (s : timers) (t : option nat)
    (deadline seq : Z) : option (timers * Z) :=
  match t with
  | None => Some (s, PROC_PARK_PREPARE_INVALID)
  | Some p =>
      if (deadline =? 0) || (seq =? 0) then Some (s, PROC_PARK_PREPARE_INVALID)
      else
        task ← tasks s !! p;
        let h := wait_timer_heap s in
        if 0 <=? wait_timer_index task then
          Some (s {{ wait_timer_duplicate_rejections :=
                       u64 (wait_timer_duplicate_rejections s + 1) }},
                PROC_PARK_PREPARE_TIMEOUT_DUPLICATE)
        else if WAIT_TIMER_HEAP_MAX <=? cnt h then
          Some (s {{ wait_timer_full_failures := u64 (wait_timer_full_failures s + 1) }},
                PROC_PARK_PREPARE_TIMEOUT_CAPACITY)
        else
          old_first ← first_deadline h;
          '(T, owned) ← proc_get (tasks s) p;
          if negb owned then Some (s, PROC_PARK_PREPARE_TIMEOUT_REF)
          else
            let index := cnt h in
            a ← wr (arr h) index {| wt_deadline := deadline; wt_task := Some p; wt_seq := seq |};
            task ← T !! p;
            let T := <[p := task {{ wait_timer_index := index; wake_time := deadline }}]> T in
            '(a, T) ← wait_timer_sift_up (Z.to_nat index) a T index;
            first ← deadline_at a 0;
            let s := s {{ wait_timer_heap := {| arr := a; cnt := u32 (index + 1) |};
                          tasks := T; next_wake_scan := first }} in
            Some (if first <? old_first then sched_rearm_timer ticks s else s, 0)
  end.

Definition proc_wait_timer_cancel_locked (s : timers) (t : option nat) (seq : Z)
  : option timers :=
  match t with
  | None => Some s
  | Some p =>
      task ← tasks s !! p;
      if wait_timer_index task <? 0 then Some s
      else
        let index := wait_timer_index task in
        if cnt (wait_timer_heap s) <=? index then Some s
        else
          e ← rd (arr (wait_timer_heap s)) index;
          if negb (bool_decide (wt_task e = Some p)) || negb (wt_seq e =? seq) then Some s
          else
            '(s, removed) ← wait_timer_remove_index_locked s index;
            task ← tasks s !! p;
            let T := <[p := task {{ wake_time := 0 }}]> (tasks s) in
            T ← (match wt_task removed with
                 | Some q => proc_put T q
                 | None => Some T
                 end);
            Some (s {{ tasks := T }})
  end.

(** ** Alarms *)

Definition alarm_timer_cancel_locked (s : timers) (t : option nat) : option timers :=
  match t with
  | None => Some s
  | Some p =>
      task ← tasks s !! p;
      if alarm_timer_index task <? 0 then Some s
      else
        let index := alarm_timer_index task in
        if cnt (alarm_timer_heap s) <=? index then Some s
        else
          e ← rd (arr (alarm_timer_heap s)) index;
          if negb (bool_decide (at_task e = Some p)) then Some s
          else
            '(h, T, removed) ← alarm_timer_remove_index_locked (alarm_timer_heap s) (tasks s) index;
            T ← (match at_task removed with
                 | Some q => proc_put T q
                 | None => Some T
                 end);
            Some (s {{ alarm_timer_heap := h; tasks := T }})
  end.

(** The critical section of proc_set_alarm_expire: the state and the deadline
    that was really set. *)
Definition set_alarm_locked (s : timers) (p : nat) (expire : Z) : option (timers * Z) :=
  s ← alarm_timer_cancel_locked s (Some p);
  let h := alarm_timer_heap s in
  let expire := if c_true expire && (WAIT_TIMER_HEAP_MAX <=? cnt h) then 0 else expire in
  '(s, expire) ← (if c_true expire then
      '(T, owned) ← proc_get (tasks s) p;
      if (owned : bool) then
        let index := cnt h in
        a ← wr (arr h) index {| at_deadline := expire; at_task := Some p |};
        task ← T !! p;
        let T := <[p := task {{ alarm_timer_index := index }}]> T in
        '(a, T) ← alarm_timer_sift_up (Z.to_nat index) a T index;
        Some (s {{ alarm_timer_heap := {| arr := a; cnt := u32 (index + 1) |};
                   tasks := T }}, expire)
      else Some (s, 0)
    else Some (s, expire));
  task ← tasks s !! p;
  Some (s {{ tasks := <[p := task {{ alarm_expire := expire }}]> (tasks s) }}, expire).

Definition proc_set_alarm_expire (ticks : Z) (s : timers) (t : option nat) (expire : Z)
  : option timers :=
  match t with
  | None => Some s
  | Some p =>
      '(s, expire) ← set_alarm_locked s p expire;
      let '(slot, lower) := sched_note_deadline (next_alarm_scan s) expire in
      let s := s {{ next_alarm_scan := slot }} in
      Some (if lower then sched_rearm_timer ticks s else s)
  end.

Definition sched_note_timer_deadline (ticks : Z) (s : timers) (deadline : Z) : timers :=
  if deadline =? 0 then s
  else
    let '(slot, lower) := sched_note_deadline (next_alarm_scan s) deadline in
    let s := s {{ next_alarm_scan := slot }} in
    if lower then sched_rearm_timer ticks s else s.

Definition sched_set_posix_deadline (ticks : Z) (s : timers) (deadline : Z) : timers :=
  sched_rearm_timer ticks
    (s {{ next_posix_scan := if c_true deadline then deadline else SCHED_NO_DEADLINE }}).
End Timers.
