(* ===== verification/HeapTheory.v ===== *)
(** * Correctness of the timer heap algorithm

    For any entry type: the loops of [TimerHeap] terminate within their fuel,
    touch only live slots, keep the task back-pointers exact, permute the
    entries, and restore the heap order from the two one-exception orders
    the sift loops start from. *)

From S2P Require Import Prelude Task TimerHeap.

Class HeapEntryLaws (E : Type) `{HeapEntry E} := {
  ti_get_set i t : ti_get (ti_set i t) = i;
  ti_set_set i j t : ti_set i (ti_set j t) = ti_set i t;
  ti_set_get t : ti_set (ti_get t) t = t;
  he_zero_task : he_task (he_zero (E := E)) = None;
}.

#[global] Instance wait_entry_laws : HeapEntryLaws wait_timer.
Proof. by split; intros; cbn; try destruct t. Qed.
#[global] Instance alarm_entry_laws : HeapEntryLaws alarm_timer.
Proof. by split; intros; cbn; try destruct t. Qed.

Section Theory.
Context {E : Type} `{HeapEntryLaws E}.
Implicit Types (a : list E) (T : gmap nat task_t) (e : E).

(** ** Back-pointers *)

(** The first [n] slots are live and each one's task knows its slot; a task
    with a slot owns it. *)
Record linked a (n : Z) T : Prop := {
  lk_count : 0 <= n <= Z.of_nat (length a);
  lk_slot : forall i, 0 <= i < n -> exists e p t,
    rd a i = Some e /\ he_task e = Some p /\ T !! p = Some t /\ ti_get (E := E) t = i;
  lk_task : forall p t, T !! p = Some t -> 0 <= ti_get (E := E) t ->
    ti_get (E := E) t < n /\ exists e, rd a (ti_get (E := E) t) = Some e /\ he_task e = Some p;
}.

(** Only the index field of tasks differs. *)
Definition index_only T T' : Prop := forall p,
  match T !! p, T' !! p with
  | Some t, Some t' => exists i, t' = ti_set (E := E) i t
  | None, None => True
  | _, _ => False
  end.

Lemma index_only_refl T : index_only T T.
Proof. intros p. destruct (T !! p); [|done]. exists (ti_get (E := E) t). by rewrite ti_set_get. Qed.

Lemma index_only_trans T T' T'' : index_only T T' -> index_only T' T'' -> index_only T T''.
Proof.
  intros H1 H2 p. specialize (H1 p). specialize (H2 p).
  destruct (T !! p), (T' !! p), (T'' !! p); try done.
  destruct H1 as [i ->]. destruct H2 as [j ->]. exists j. by rewrite ti_set_set.
Qed.

Lemma index_only_insert T p t i : T !! p = Some t -> index_only T (<[p := ti_set (E := E) i t]> T).
Proof.
  intros Hp q. destruct (decide (p = q)) as [<-|Hne].
  - rewrite lookup_insert_eq, Hp. eauto.
  - rewrite lookup_insert_ne by done. apply index_only_refl.
Qed.

Definition dl a (i : Z) : Z := match rd a i with Some e => he_deadline e | None => 0 end.

Lemma deadline_at_ok a n T i : linked a n T -> 0 <= i < n -> deadline_at a i = Some (dl a i).
Proof.
  intros Hl Hi. destruct (lk_slot _ _ _ Hl i Hi) as (e & _ & _ & He & _).
  unfold deadline_at, dl. by rewrite He.
Qed.

(** ** Permutation of the live entries *)

Definition live a (n : Z) : list E := take (Z.to_nat n) a.

Lemma insert_perm {A} (l : list A) (k : nat) u v :
  l !! k = Some u -> v :: l ≡ₚ u :: <[k := v]> l.
Proof.
  intros Hk. rewrite <- (take_drop_middle l k u Hk) at 1.
  rewrite insert_take_drop by (by eapply lookup_lt_Some).
  rewrite <- !Permutation_middle. apply Permutation_swap.
Qed.

Lemma swap_perm (l : list E) (i j : nat) x y : i <> j ->
  l !! i = Some x -> l !! j = Some y -> <[j := x]> (<[i := y]> l) ≡ₚ l.
Proof.
  intros Hne Hi Hj.
  apply (Permutation_cons_inv (a := y)). rewrite (insert_perm l i x y Hi).
  rewrite <- (insert_perm (<[i := y]> l) j y x); [done|].
  by rewrite list_lookup_insert_ne.
Qed.

Lemma rd_lookup {A} (l : list A) i x : rd l i = Some x -> l !! Z.to_nat i = Some x.
Proof. unfold rd. by split_if. Qed.

Lemma rd_insert {A} (l : list A) i j x : 0 <= i < Z.of_nat (length l) ->
  rd (<[Z.to_nat i := x]> l) j = if decide (i = j) then Some x else rd l j.
Proof.
  intros Hi. unfold rd. case_decide as Hij.
  - subst j. rewrite (proj2 (Z.leb_le 0 _)) by lia. apply list_lookup_insert_eq. lia.
  - split_if; [|done]. reflect. apply list_lookup_insert_ne. lia.
Qed.

Lemma set_index_ok T e i p t : he_task e = Some p -> T !! p = Some t ->
  set_index T e i = Some (<[p := ti_set (E := E) i t]> T).
Proof. intros Hp Ht. unfold set_index. rewrite Hp. cbn. by rewrite Ht. Qed.

(** ** Swapping two live slots *)

Lemma heap_swap_ok a n T i j : linked a n T -> 0 <= i < n -> 0 <= j < n -> i <> j ->
  exists a' T', heap_swap a T i j = Some (a', T') /\ linked a' n T' /\
    index_only T T' /\ live a' n ≡ₚ live a n /\ length a' = length a /\
    (forall k, dl a' k = if decide (k = i) then dl a j
                         else if decide (k = j) then dl a i else dl a k) /\
    (forall k, n <= k -> rd a' k = rd a k) /\
    (forall p t, T !! p = Some t -> ti_get (E := E) t < 0 -> T' !! p = Some t).
Proof.
  intros Hl Hi Hj Hne. pose proof (lk_count _ _ _ Hl) as Hn.
  destruct (lk_slot _ _ _ Hl i Hi) as (ei & pi & ti & Hei & Hpi & Hti & Hii).
  destruct (lk_slot _ _ _ Hl j Hj) as (ej & pj & tj & Hej & Hpj & Htj & Hjj).
  assert (pi <> pj) as Hp by (intros ->; rewrite Hti in Htj; congruence).
  unfold heap_swap. rewrite Hei, Hej. cbn [mbind option_bind].
  rewrite wr_Some by lia. cbn [mbind option_bind].
  rewrite wr_Some by (rewrite length_insert; lia). cbn [mbind option_bind].
  set (a' := <[Z.to_nat j := ei]> (<[Z.to_nat i := ej]> a)).
  assert (forall k, rd a' k = if decide (k = i) then Some ej
    else if decide (k = j) then Some ei else rd a k) as Hrd.
  { intros k. unfold a'. rewrite rd_insert by (rewrite length_insert; lia).
    rewrite rd_insert by lia. repeat case_decide; subst; congruence. }
  rewrite (Hrd i), decide_True by done. cbn [mbind option_bind].
  rewrite (set_index_ok T ej i pj tj) by done.
  cbn [mbind option_bind]. rewrite (Hrd j), decide_False, decide_True by done.
  cbn [mbind option_bind].
  rewrite (set_index_ok _ ei j pi ti) by (done || by rewrite lookup_insert_ne).
  cbn [mbind option_bind].
  eexists _, _. split; [done|]. split; [|split; [|split; [|split; [|split; [|split]]]]].
  - constructor.
    + unfold a'. by rewrite !length_insert.
    + intros k Hk. rewrite Hrd. repeat case_decide; subst.
      * exists ej, pj, (ti_set (E := E) (ti_get (E := E) ti) tj).
        rewrite lookup_insert_ne, lookup_insert_eq, ti_get_set by done. done.
      * exists ei, pi, (ti_set (E := E) (ti_get (E := E) tj) ti).
        rewrite lookup_insert_eq, ti_get_set. done.
      * destruct (lk_slot _ _ _ Hl k Hk) as (e & p & t & He & Hpe & Ht & Hk').
        exists e, p, t. rewrite !lookup_insert_ne by congruence. done.
    + intros p t Ht Hge. rewrite Hrd.
      apply lookup_insert_Some in Ht as [[<- <-]|[Hpi' Ht]].
      { rewrite ti_get_set, decide_False, decide_True by congruence. split; [lia|eauto]. }
      apply lookup_insert_Some in Ht as [[<- <-]|[Hpj' Ht]].
      { rewrite ti_get_set, decide_True by congruence. split; [lia|eauto]. }
      destruct (lk_task _ _ _ Hl p t Ht Hge) as (Hlt & e & He & Hpe). split; [done|].
      rewrite !decide_False by congruence. eauto.
  - eapply index_only_trans; [by apply index_only_insert|].
    apply index_only_insert. by rewrite lookup_insert_ne.
  - unfold live, a'. rewrite !take_insert_lt by lia.
    apply swap_perm; [lia|by apply rd_lookup; rewrite rd_take, (proj2 (Z.ltb_lt _ _)) by lia|by apply rd_lookup; rewrite rd_take, (proj2 (Z.ltb_lt _ _)) by lia].
  - unfold a'. by rewrite !length_insert.
  - intros k. unfold dl. rewrite Hrd. repeat case_decide; by rewrite ?Hei, ?Hej.
  - intros k Hk. rewrite Hrd, !decide_False by lia. done.
  - intros p t Ht Hneg. rewrite !lookup_insert_ne; [done| |];
      intros <-; [rewrite Htj in Ht|rewrite Hti in Ht]; injection Ht as <-; lia.
Qed.

(** ** Heap order *)

Definition parent (i : Z) : Z := (i - 1) / 2.

Lemma parent_range i : 0 < i -> 0 <= parent i < i.
Proof. unfold parent. zlia. Qed.

Lemma parent_children i k : 0 < i -> parent i = k -> i = 2 * k + 1 \/ i = 2 * k + 2.
Proof. unfold parent. zlia. Qed.

Definition heap_ordered a (n : Z) : Prop :=
  forall i, 0 < i < n -> dl a (parent i) <= dl a i.

(** Ordered but for slot [k] and its parent ... *)
Definition up_ordered a (n k : Z) : Prop :=
  (forall i, 0 < i < n -> i <> k -> dl a (parent i) <= dl a i) /\
  (forall i, 0 < i < n -> parent i = k -> 0 < k -> dl a (parent k) <= dl a i).

(** ... or but for slot [k] and its children. *)
Definition down_ordered a (n k : Z) : Prop :=
  (forall i, 0 < i < n -> parent i <> k -> dl a (parent i) <= dl a i) /\
  (forall i, 0 < i < n -> parent i = k -> 0 < k -> dl a (parent k) <= dl a i).

Definition swapped a a' (i j : Z) : Prop := forall k,
  dl a' k = if decide (k = i) then dl a j else if decide (k = j) then dl a i else dl a k.

Lemma up_ordered_swap a a' n k : 0 < k < n -> swapped a a' (parent k) k ->
  up_ordered a n k -> dl a k < dl a (parent k) -> up_ordered a' n (parent k).
Proof.
  intros Hk Hsw [H1 H2] Hlt. pose proof (parent_range k). split.
  - intros i Hi Hne. pose proof (parent_range i).
    rewrite (Hsw i), (Hsw (parent i)). rewrite (decide_False (P := i = parent k)) by done.
    destruct (decide (i = k)) as [->|Hik]; [rewrite decide_True by done; lia|].
    specialize (H1 i Hi Hik).
    destruct (decide (parent i = parent k)) as [Ep|Np]; [rewrite Ep in H1; lia|].
    case_decide as Epk; [specialize (H2 i Hi Epk); lia|lia].
  - intros i Hi Hpi Hpos. pose proof (parent_range i). pose proof (parent_range (parent k)).
    rewrite (Hsw i), (Hsw (parent (parent k))).
    rewrite (decide_False (P := i = parent k)) by lia.
    rewrite !(decide_False (P := parent (parent k) = _)) by lia.
    pose proof (H1 (parent k)). pose proof (H1 i Hi). rewrite Hpi in *.
    case_decide; lia.
Qed.

Lemma down_ordered_swap a a' n k m : 0 <= k -> 0 < m < n -> parent m = k ->
  swapped a a' k m -> down_ordered a n k -> dl a m < dl a k ->
  (forall i, 0 < i < n -> parent i = k -> dl a m <= dl a i) ->
  down_ordered a' n m.
Proof.
  intros Hk Hm Hmk Hsw [H1 H2] Hlt Hmin. pose proof (parent_range m). split.
  - intros i Hi Hne. pose proof (parent_range i).
    rewrite (Hsw i), (Hsw (parent i)). rewrite (decide_False (P := parent i = m)) by done.
    specialize (H1 i Hi). pose proof (H2 m Hm Hmk). specialize (Hmin i Hi).
    repeat case_decide; subst; try lia.
  - intros i Hi Hpi Hpos. pose proof (parent_range i). rewrite (Hsw i), (Hsw (parent m)).
    rewrite (decide_True (P := parent m = k)) by done.
    rewrite (decide_False (P := i = k)), (decide_False (P := i = m)) by lia.
    specialize (H1 i Hi). rewrite Hpi in H1. lia.
Qed.

(** The root is a minimum. *)
Lemma heap_root_min a n i : heap_ordered a n -> 0 <= i < n -> dl a 0 <= dl a i.
Proof.
  intros Ho. revert i. assert (forall m i, 0 <= i < n -> i < Z.of_nat m -> dl a 0 <= dl a i) as Hind.
  { induction m as [|m IH]; intros i Hi Hlt; [lia|].
    destruct (decide (i = 0)) as [->|]; [lia|]. pose proof (parent_range i).
    specialize (IH (parent i)). specialize (Ho i). lia. }
  intros i Hi. apply (Hind (S (Z.to_nat i))); lia.
Qed.

(** What a heap operation on live slots keeps. *)
Record kept a T a' T' (n : Z) : Prop := {
  kp_linked : linked a' n T';
  kp_index : index_only T T';
  kp_perm : live a' n ≡ₚ live a n;
  kp_length : length a' = length a;
  kp_rest : forall k, n <= k -> rd a' k = rd a k;
  kp_free : forall p t, T !! p = Some t -> ti_get (E := E) t < 0 -> T' !! p = Some t;
}.

Lemma kept_refl a T n : linked a n T -> kept a T a T n.
Proof. intros Hl. constructor; try done. apply index_only_refl. Qed.

Lemma kept_trans a T a1 T1 a2 T2 n :
  kept a T a1 T1 n -> kept a1 T1 a2 T2 n -> kept a T a2 T2 n.
Proof.
  intros [L1 I1 P1 N1 R1 F1] [L2 I2 P2 N2 R2 F2]. constructor; [done| | |congruence| |auto].
  - by eapply index_only_trans.
  - by rewrite P2.
  - intros k Hk. by rewrite R2, R1.
Qed.

Lemma sift_up_ok fuel a n T k :
  linked a n T -> 0 <= k < n -> k <= Z.of_nat fuel -> up_ordered a n k ->
  exists a' T', sift_up fuel a T k = Some (a', T') /\ kept a T a' T' n /\
    heap_ordered a' n.
Proof.
  revert a T k. induction fuel as [|fuel IH]; intros a T k Hl Hk Hf Hu.
  { simpl. rewrite (proj2 (Z.ltb_ge _ _)) by lia. eexists _, _. split; [done|].
    split; [by apply kept_refl|]. intros i Hi. apply Hu; lia. }
  simpl. split_if; reflect.
  2: { eexists _, _. split; [done|]. split; [by apply kept_refl|].
       intros i Hi. apply Hu; lia. }
  pose proof (parent_range k E0) as Hp. fold (parent k).
  rewrite (deadline_at_ok a n T (parent k)), (deadline_at_ok a n T k) by (done || lia).
  cbn [mbind option_bind]. split_if; reflect.
  { eexists _, _. split; [done|]. split; [by apply kept_refl|].
    intros i Hi. destruct (decide (i = k)) as [->|]; [done|]. by apply Hu. }
  destruct (heap_swap_ok a n T (parent k) k) as (a1 & T1 & -> & L & I & P & N & Hsw & R & F);
    [done|lia|lia|lia|].
  cbn [mbind option_bind].
  destruct (IH a1 T1 (parent k)) as (a2 & T2 & -> & K2 & Ho); [done|lia|lia| |].
  { eapply up_ordered_swap; [lia|exact Hsw|done|lia]. }
  eexists _, _. split; [done|]. split; [|done].
  eapply kept_trans; [|done]. by constructor.
Qed.

(** The child the loop goes to: one with a deadline below the slot's and not
    above its sibling's. *)
Lemma sift_down_pick a n T k : linked a n T -> 0 <= k < n -> n <= 2147483647 ->
  let left := u32 (k * 2 + 1) in
  let right := u32 (left + 1) in
  exists m,
    (smallest ← (if left <? n then
                   d ← deadline_at a left; ds ← deadline_at a k;
                   Some (if d <? ds then left else k)
                 else Some k);
     (if right <? n then
        dr ← deadline_at a right; ds ← deadline_at a smallest;
        Some (if dr <? ds then right else smallest)
      else Some smallest)) = Some m /\
    (m = k /\ (forall i, 0 < i < n -> parent i = k -> dl a k <= dl a i) \/
     0 < m < n /\ parent m = k /\ dl a m < dl a k /\
       (forall i, 0 < i < n -> parent i = k -> dl a m <= dl a i)).
Proof.
  intros Hl Hk Hn left right. subst left right.
  rewrite (u32_small (k * 2 + 1)) by (unfold in_u32; lia).
  rewrite u32_small by (unfold in_u32; lia).
  assert (forall i, 0 < i -> parent i = k -> i = k * 2 + 1 \/ i = k * 2 + 1 + 1) as Hch
    by (intros i Hi Hp; apply parent_children in Hp; lia).
  assert (parent (k * 2 + 1) = k /\ parent (k * 2 + 1 + 1) = k) as [Hp1 Hp2]
    by (unfold parent; split; zlia).
  rewrite (deadline_at_ok a n T k) by done.
  destruct (k * 2 + 1 <? n) eqn:E1; reflect.
  - rewrite (deadline_at_ok a n T (k * 2 + 1)) by (done || lia). cbn [mbind option_bind].
    destruct (k * 2 + 1 + 1 <? n) eqn:E2; reflect.
    + rewrite (deadline_at_ok a n T (k * 2 + 1 + 1)) by (done || lia). cbn [mbind option_bind].
      destruct (dl a (k * 2 + 1) <? dl a k) eqn:E3; reflect;
        rewrite (deadline_at_ok a n T) by (done || lia); cbn [mbind option_bind];
        destruct (_ <? _) eqn:E4; reflect; eexists; (split; [done|]).
      all: try (right; repeat split; try lia; intros i Hi Hp;
        destruct (Hch i ltac:(lia) Hp) as [->| ->]; lia).
      left. split; [done|]. intros i Hi Hp. destruct (Hch i ltac:(lia) Hp) as [->| ->]; lia.
    + destruct (dl a (k * 2 + 1) <? dl a k) eqn:E3; reflect; eexists; (split; [done|]).
      * right. repeat split; try lia. intros i Hi Hp.
        destruct (Hch i ltac:(lia) Hp) as [->| ->]; lia.
      * left. split; [done|]. intros i Hi Hp. destruct (Hch i ltac:(lia) Hp) as [->| ->]; lia.
  - cbn [mbind option_bind]. rewrite (proj2 (Z.ltb_ge _ _)) by lia.
    eexists. split; [done|]. left. split; [done|]. intros i Hi Hp.
    destruct (Hch i ltac:(lia) Hp); lia.
Qed.

Lemma sift_down_ok fuel a n T k :
  linked a n T -> n <= 2147483647 -> 0 <= k < n -> n - k <= Z.of_nat fuel ->
  down_ordered a n k ->
  exists a' T', sift_down fuel a T n k = Some (a', T') /\ kept a T a' T' n /\
    heap_ordered a' n.
Proof.
  revert a T k. induction fuel as [|fuel IH]; intros a T k Hl Hn Hk Hf Hd; [lia|].
  destruct (sift_down_pick a n T k Hl Hk Hn) as (m & Hm & Hcase).
  assert (sift_down (S fuel) a T n k = (if m =? k then Some (a, T) else
    '(a, T) ← heap_swap a T k m; sift_down fuel a T n m)) as ->
    by exact (bind_Some_assoc _ _ (fun m => if m =? k then Some (a, T) else
      '(a, T) ← heap_swap a T k m; sift_down fuel a T n m) _ Hm).
  destruct Hcase as [[-> Hmin]|(Hmr & Hmk & Hlt & Hmin)].
  { rewrite Z.eqb_refl. eexists _, _. split; [done|]. split; [by apply kept_refl|].
    intros i Hi. destruct (decide (parent i = k)) as [Ep|]; [|by apply Hd].
    rewrite Ep. by apply Hmin. }
  pose proof (parent_range m). rewrite (proj2 (Z.eqb_neq _ _)) by lia.
  destruct (heap_swap_ok a n T k m) as (a1 & T1 & -> & L & I & P & N & Hsw & R & F);
    [done|lia|lia|lia|].
  cbn [mbind option_bind].
  destruct (IH a1 T1 m) as (a2 & T2 & -> & K2 & Ho); [done|done|lia|lia| |].
  { eapply down_ordered_swap; [|done|done|exact Hsw|done|done|done]. lia. }
  eexists _, _. split; [done|]. split; [|done].
  eapply kept_trans; [|done]. by constructor.
Qed.

(** ** Inserting and removing *)

Lemma live_succ a (n : Z) e : 0 <= n -> rd a n = Some e ->
  live a (n + 1) = live a n ++ [e].
Proof.
  intros Hn He. unfold live. replace (Z.to_nat (n + 1)) with (S (Z.to_nat n)) by lia.
  by rewrite (take_S_r _ _ _ (rd_lookup _ _ _ He)).
Qed.

Lemma dl_insert a i e k : 0 <= i < Z.of_nat (length a) ->
  dl (<[Z.to_nat i := e]> a) k = if decide (i = k) then he_deadline e else dl a k.
Proof. intros Hi. unfold dl. rewrite rd_insert by done. by case_decide. Qed.

(** A new entry in the first free slot. *)
Lemma push_ok a n T e p t :
  linked a n T -> heap_ordered a n -> n < Z.of_nat (length a) ->
  he_task e = Some p -> T !! p = Some t -> ti_get (E := E) t < 0 ->
  let a' := <[Z.to_nat n := e]> a in
  let T' := <[p := ti_set (E := E) n t]> T in
  linked a' (n + 1) T' /\ up_ordered a' (n + 1) n /\ live a' (n + 1) = live a n ++ [e] /\
  index_only T T'.
Proof.
  intros Hl Ho Hn He Hp Ht a' T'. pose proof (lk_count _ _ _ Hl) as Hc.
  split; [constructor|split; [|split]].
  - subst a'. rewrite length_insert. lia.
  - intros i Hi. subst a' T'. rewrite rd_insert by lia. case_decide as Hin.
    + subst. exists e, p, (ti_set (E := E) i t). by rewrite lookup_insert_eq, ti_get_set.
    + destruct (lk_slot _ _ _ Hl i) as (e' & p' & t' & He' & Hp' & Ht' & Hi'); [lia|].
      exists e', p', t'. rewrite lookup_insert_ne; [done|]. intros <-.
      rewrite Hp in Ht'. injection Ht' as <-. lia.
  - intros q u Hq Hge. subst a' T'. apply lookup_insert_Some in Hq as [[<- <-]|[Hne Hq]].
    + rewrite ti_get_set, rd_insert, decide_True by (done || lia). split; [lia|eauto].
    + destruct (lk_task _ _ _ Hl q u Hq Hge) as (Hlt & e' & He' & Hpe).
      rewrite rd_insert, decide_False by lia. split; [lia|eauto].
  - split; intros i Hi; pose proof (parent_range i).
    + intros Hin. subst a'. rewrite !dl_insert, !decide_False by lia. apply Ho. lia.
    + intros Hpi. lia.
  - subst a'. rewrite (live_succ _ _ e) by (try rewrite rd_insert, decide_True; done || lia).
    f_equal. unfold live. by rewrite take_insert_ge by lia.
  - by apply index_only_insert.
Qed.

(** The slot's task forgets its slot and the last entry takes the slot. *)
Lemma linked_drop_last a n T e p t :
  linked a n T -> 0 < n -> rd a (n - 1) = Some e -> he_task e = Some p -> T !! p = Some t ->
  linked a (n - 1) (<[p := ti_set (E := E) (-1) t]> T).
Proof.
  intros Hl Hn He Hp Ht. pose proof (lk_count _ _ _ Hl) as Hc.
  destruct (lk_slot _ _ _ Hl (n - 1)) as (e0 & p0 & t0 & He0 & Hp0 & Ht0 & Hi0); [lia|].
  assert (p0 = p /\ t0 = t) as [-> ->] by (split; congruence).
  constructor; [lia| |].
  - intros i Hi. destruct (lk_slot _ _ _ Hl i) as (e' & p' & t' & He' & Hp' & Ht' & Hi'); [lia|].
    exists e', p', t'. rewrite lookup_insert_ne; [done|]. intros <-.
    rewrite Ht in Ht'. injection Ht' as <-. lia.
  - intros q u Hq Hge. apply lookup_insert_Some in Hq as [[<- <-]|[Hne Hq]].
    + rewrite ti_get_set in Hge. lia.
    + destruct (lk_task _ _ _ Hl q u Hq Hge) as (Hlt & e' & He' & Hpe).
      split; [|eauto]. destruct (decide (ti_get (E := E) u = n - 1)) as [Eu|]; [|lia].
      rewrite Eu in He'. congruence.
Qed.

Lemma linked_move_last a n T k e p t e' p' t' :
  linked a n T -> 0 <= k < n - 1 ->
  rd a k = Some e -> he_task e = Some p -> T !! p = Some t ->
  rd a (n - 1) = Some e' -> he_task e' = Some p' -> T !! p' = Some t' ->
  p <> p' /\
  linked (<[Z.to_nat k := e']> a) (n - 1)
    (<[p' := ti_set (E := E) k t']> (<[p := ti_set (E := E) (-1) t]> T)).
Proof.
  intros Hl Hk He Hp Ht He' Hp' Ht'. pose proof (lk_count _ _ _ Hl) as Hc.
  destruct (lk_slot _ _ _ Hl k) as (e0 & p0 & t0 & He0 & Hp0 & Ht0 & Hi0); [lia|].
  assert (p0 = p /\ t0 = t) as [-> ->] by (split; congruence). clear e0 He0 Hp0 Ht0.
  destruct (lk_slot _ _ _ Hl (n - 1)) as (e0 & p0 & t0 & He0 & Hp0 & Ht0 & Hi0'); [lia|].
  assert (p0 = p' /\ t0 = t') as [-> ->] by (split; congruence). clear e0 He0 Hp0 Ht0.
  assert (p <> p') as Hne by (intros <-; rewrite Ht in Ht'; injection Ht' as <-; lia).
  split; [done|]. constructor.
  - rewrite length_insert. lia.
  - intros i Hi. rewrite rd_insert by lia. case_decide as Eki.
    + subst i. exists e', p', (ti_set (E := E) k t'). by rewrite lookup_insert_eq, ti_get_set.
    + destruct (lk_slot _ _ _ Hl i) as (e0 & p0 & t0 & He0 & Hp0 & Ht0 & Hii); [lia|].
      exists e0, p0, t0. rewrite !lookup_insert_ne; [done| |];
        intros <-; [rewrite Ht in Ht0|rewrite Ht' in Ht0]; injection Ht0 as <-; lia.
  - intros q u Hq Hge. apply lookup_insert_Some in Hq as [[<- <-]|[Hqp' Hq]].
    { rewrite ti_get_set, rd_insert, decide_True by (done || lia). split; [lia|eauto]. }
    apply lookup_insert_Some in Hq as [[<- <-]|[Hqp Hq]].
    { rewrite ti_get_set in Hge. lia. }
    destruct (lk_task _ _ _ Hl q u Hq Hge) as (Hlt & e0 & He0 & Hpe).
    assert (ti_get (E := E) u <> n - 1) by (intros Eu; rewrite Eu in He0; congruence).
    assert (ti_get (E := E) u <> k) by (intros Eu; rewrite Eu in He0; congruence).
    rewrite rd_insert, decide_False by lia. split; [lia|eauto].
Qed.

(** Clearing the slot behind the last entry. *)
Lemma clear_ok a n T e : linked a n T -> heap_ordered a n -> n < Z.of_nat (length a) ->
  let a' := <[Z.to_nat n := e]> a in
  linked a' n T /\ heap_ordered a' n /\ live a' n = live a n /\ length a' = length a.
Proof.
  intros Hl Ho Hn a'. pose proof (lk_count _ _ _ Hl) as Hc. subst a'.
  split; [constructor|split; [|split]].
  - rewrite length_insert. lia.
  - intros i Hi. rewrite rd_insert, decide_False by lia. by apply (lk_slot _ _ _ Hl).
  - intros p t Ht Hge. destruct (lk_task _ _ _ Hl p t Ht Hge) as (Hlt & He).
    by rewrite rd_insert, decide_False by lia.
  - intros i Hi. pose proof (parent_range i). rewrite !dl_insert, !decide_False by lia.
    by apply Ho.
  - unfold live. by rewrite take_insert_ge by lia.
  - apply length_insert.
Qed.

(** Which exception order the moved entry leaves. *)
Lemma move_last_ordered a n k e' : heap_ordered a n -> 0 <= k < n - 1 ->
  n <= Z.of_nat (length a) -> rd a (n - 1) = Some e' ->
  let a1 := <[Z.to_nat k := e']> a in
  if (0 <? k) && (dl a1 k <? dl a1 (parent k)) then up_ordered a1 (n - 1) k
  else down_ordered a1 (n - 1) k.
Proof.
  intros Ho Hk Hn He' a1.
  assert (forall i, dl a1 i = if decide (k = i) then dl a (n - 1) else dl a i) as Hd.
  { intros i. subst a1. rewrite dl_insert by lia. unfold dl at 2. by rewrite He'. }
  assert (forall i, 0 < i < n - 1 -> parent i = k -> 0 < k ->
    dl a1 (parent k) <= dl a1 i) as Hchild.
  { intros i Hi Hp Hpos. pose proof (parent_range i). pose proof (parent_range k).
    rewrite !Hd, !decide_False by lia. pose proof (Ho i). pose proof (Ho k).
    rewrite Hp in *. lia. }
  destruct ((0 <? k) && _) eqn:E0; (split; [|done]); intros i Hi Hne;
    pose proof (parent_range i).
  - apply andb_prop in E0 as [Hpos Hlt]. reflect. pose proof (parent_range k).
    rewrite (Hd k), (Hd (parent k)), decide_True, decide_False in Hlt by lia.
    rewrite (Hd i), (Hd (parent i)), (decide_False (P := k = i)) by done.
    pose proof (Ho i). pose proof (Ho k). case_decide as Ep; [|lia].
    rewrite <- Ep in *. lia.
  - apply andb_false_iff in E0. rewrite (Hd i), (Hd (parent i)).
    rewrite (decide_False (P := k = parent i)) by done.
    pose proof (Ho i). case_decide as Ek; [|lia]. subst i.
    destruct E0 as [E0|E0]; reflect; [lia|].
    rewrite (Hd k), (Hd (parent k)), decide_False, decide_True in E0 by lia. lia.
Qed.

Lemma remove_perm a n k e e' : 0 <= k < n - 1 -> rd a k = Some e -> rd a (n - 1) = Some e' ->
  e :: live (<[Z.to_nat k := e']> a) (n - 1) ≡ₚ live a n.
Proof.
  intros Hk He He'. replace n with (n - 1 + 1) at 2 by lia.
  rewrite (live_succ _ _ e') by (done || lia). unfold live. rewrite take_insert_lt by lia.
  rewrite <- (insert_perm _ _ e e'); [apply Permutation_cons_append|].
  apply rd_lookup. by rewrite rd_take, (proj2 (Z.ltb_lt _ _)) by lia.
Qed.

(** The moved entry goes the way its order needs. *)
Lemma resift_ok a n T k : linked a n T -> n <= 2147483647 -> 0 <= k < n ->
  (if (0 <? k) && (dl a k <? dl a (parent k)) then up_ordered a n k
   else down_ordered a n k) ->
  exists a' T',
    (up ← (if 0 <? k then
             di ← deadline_at a k; dp ← deadline_at a ((k - 1) / 2); Some (di <? dp)
           else Some false);
     if (up : bool) then sift_up (Z.to_nat k) a T k
     else sift_down (Z.to_nat n) a T n k) = Some (a', T') /\
    kept a T a' T' n /\ heap_ordered a' n.
Proof.
  intros Hl Hn Hk Hord. fold (parent k). destruct (0 <? k) eqn:E0; reflect.
  - pose proof (parent_range k E0).
    rewrite (deadline_at_ok a n T k), (deadline_at_ok a n T (parent k)) by (done || lia).
    cbn [mbind option_bind andb] in *. destruct (_ <? _).
    + apply sift_up_ok; [done..|lia|done].
    + apply sift_down_ok; [done..|lia|done].
  - cbn [mbind option_bind andb] in *. apply sift_down_ok; [done..|lia|done].
Qed.

Lemma remove_index_ok h T k :
  linked (arr h) (cnt h) T -> heap_ordered (arr h) (cnt h) ->
  Z.of_nat (length (arr h)) <= 2147483647 -> 0 <= k < cnt h ->
  exists h' T' e p t', remove_index_locked h T k = Some (h', T', e) /\
    rd (arr h) k = Some e /\ he_task e = Some p /\
    linked (arr h') (cnt h') T' /\ heap_ordered (arr h') (cnt h') /\
    cnt h' = cnt h - 1 /\ length (arr h') = length (arr h) /\
    e :: live (arr h') (cnt h') ≡ₚ live (arr h) (cnt h) /\
    index_only T T' /\ T' !! p = Some t' /\ ti_get (E := E) t' = -1.
Proof.
  destruct h as [a n]. cbn [arr cnt]. intros Hl Ho Hmax Hk.
  pose proof (lk_count _ _ _ Hl) as Hc.
  destruct (lk_slot _ _ _ Hl k Hk) as (e & p & t & He & Hp & Ht & Hkt).
  unfold remove_index_locked. cbn [arr cnt]. rewrite (proj2 (Z.leb_gt _ _)) by lia.
  rewrite He. cbn [mbind option_bind]. rewrite Hp, Ht. cbn [mbind option_bind].
  assert (index_only T (<[p := ti_set (E := E) (-1) t]> T)) as HI1
    by (by apply index_only_insert).
  destruct (decide (k = n - 1)) as [->|Hne].
  { rewrite Z.eqb_refl. cbn [negb mbind option_bind].
    rewrite wr_Some by lia. cbn [mbind option_bind].
    destruct (clear_ok a (n - 1) (<[p := ti_set (E := E) (-1) t]> T) he_zero)
      as (L & O & Lv & N); [by eapply linked_drop_last; [done|lia|done..]| |lia|].
    { intros i Hi. apply Ho. lia. }
    eexists _, _, _, _, _. split; [done|]. cbn [arr cnt]. rewrite Lv, lookup_insert_eq.
    split_and!; try done; [|by rewrite ti_get_set].
    replace n with (n - 1 + 1) at 2 by lia. rewrite (live_succ _ _ e) by (done || lia).
    apply Permutation_cons_append. }
  rewrite (proj2 (Z.eqb_neq _ _)) by done. cbn [negb].
  destruct (lk_slot _ _ _ Hl (n - 1)) as (e' & p' & t' & He' & Hp' & Ht' & _); [lia|].
  destruct (linked_move_last a n T k e p t e' p' t') as [Hpp Hl1]; [done|lia|done..|].
  rewrite He'. cbn [mbind option_bind]. rewrite wr_Some by lia. cbn [mbind option_bind].
  rewrite rd_insert, decide_True by (done || lia). cbn [mbind option_bind].
  rewrite (set_index_ok _ e' k p' t') by (done || by rewrite lookup_insert_ne).
  cbn [mbind option_bind].
  set (a1 := <[Z.to_nat k := e']> a) in *.
  set (T1 := <[p' := ti_set (E := E) k t']> (<[p := ti_set (E := E) (-1) t]> T)) in *.
  pose proof (move_last_ordered a n k e' Ho ltac:(lia) ltac:(lia) He') as Hord.
  fold a1 in Hord.
  destruct (resift_ok a1 (n - 1) T1 k) as (a2 & T2 & -> & [L I P N R F] & O);
    [done|lia|lia|done|].
  cbn [mbind option_bind].
  assert (length a2 = length a) as N2 by (rewrite N; apply length_insert).
  rewrite wr_Some by lia. cbn [mbind option_bind].
  destruct (clear_ok a2 (n - 1) T2 he_zero) as (L3 & O3 & Lv & N3); [done|done|lia|].
  eexists _, _, _, _, (ti_set (E := E) (-1) t). split; [done|]. cbn [arr cnt].
  rewrite Lv, N3. split_and!; try done.
  - rewrite P. apply remove_perm; [lia|done..].
  - eapply index_only_trans; [exact HI1|]. eapply index_only_trans; [|exact I].
    apply index_only_insert. by rewrite lookup_insert_ne.
  - apply F; [|by rewrite ti_get_set]. subst T1.
    by rewrite lookup_insert_ne, lookup_insert_eq.
  - by rewrite ti_get_set.
Qed.

(** ** Slots and live entries *)

Lemma live_lookup a n e : 0 <= n <= Z.of_nat (length a) ->
  e ∈ live a n <-> exists i, 0 <= i < n /\ rd a i = Some e.
Proof.
  intros Hn. unfold live. rewrite list_elem_of_lookup. split.
  - intros (i & Hi). assert (i < Z.to_nat n)%nat as Hlt.
    { apply lookup_lt_Some in Hi. rewrite length_take in Hi. lia. }
    rewrite lookup_take_lt in Hi by done. exists (Z.of_nat i). split; [lia|].
    by rewrite rd_nat.
  - intros (i & Hi & He). exists (Z.to_nat i). rewrite lookup_take_lt by lia.
    by apply rd_lookup.
Qed.

Lemma live_task a n T e p : linked a n T -> e ∈ live a n -> he_task e = Some p ->
  exists t, T !! p = Some t /\ 0 <= ti_get (E := E) t < n /\
    rd a (ti_get (E := E) t) = Some e.
Proof.
  intros Hl He Hp. apply live_lookup in He as (i & Hi & He); [|apply Hl].
  destruct (lk_slot _ _ _ Hl i Hi) as (e' & p' & t & He' & Hp' & Ht & Hi').
  assert (e' = e) as -> by congruence. assert (p' = p) as -> by congruence.
  exists t. split; [done|]. rewrite Hi'. done.
Qed.

Lemma task_live a n T p t : linked a n T -> T !! p = Some t -> 0 <= ti_get (E := E) t ->
  exists e, e ∈ live a n /\ he_task e = Some p /\ rd a (ti_get (E := E) t) = Some e.
Proof.
  intros Hl Ht Hge. destruct (lk_task _ _ _ Hl p t Ht Hge) as (Hlt & e & He & Hp).
  exists e. split; [|done]. apply live_lookup; [apply Hl|]. eauto.
Qed.
End Theory.
