(* ===== verification/TimerTheory.v ===== *)
(** * Correctness of the timer operations

    The invariant of the timer module (both heaps exact and ordered, the scan
    deadlines not later than the roots, every heap entry holding a task
    reference) and what registration and cancellation do to it. *)

From S2P Require Import Prelude Task TimerHeap HeapTheory.

(** ** Changes of tasks that keep the back-pointers *)

Section Ext.
Context {E : Type} `{HeapEntryLaws E}.

(** The tables have the same tasks with the same slot in this heap. *)
Definition idx_ext (T T' : gmap nat task_t) : Prop :=
  forall p, ti_get (E := E) <$> T' !! p = ti_get (E := E) <$> T !! p.

Lemma linked_ext (a : list E) n T T' : idx_ext T T' -> linked a n T -> linked a n T'.
Proof.
  intros Hx Hl. constructor; [apply Hl| |].
  - intros i Hi. destruct (lk_slot _ _ _ Hl i Hi) as (e & p & t & He & Hp & Ht & Hi').
    specialize (Hx p). rewrite Ht in Hx. simpl in Hx.
    apply fmap_Some in Hx as (t' & Ht' & E'). exists e, p, t'. by rewrite <- E'.
  - intros p t' Ht' Hge. specialize (Hx p). rewrite Ht' in Hx. simpl in Hx.
    symmetry in Hx. apply fmap_Some in Hx as (t & Ht & Et).
    rewrite Et in *. by apply (lk_task _ _ _ Hl p t).
Qed.

Lemma idx_ext_insert T p t t' : T !! p = Some t -> ti_get (E := E) t' = ti_get (E := E) t ->
  idx_ext T (<[p := t']> T).
Proof.
  intros Ht Hi q. destruct (decide (p = q)) as [<-|Hne].
  - rewrite lookup_insert_eq, Ht. simpl. by rewrite Hi.
  - by rewrite lookup_insert_ne.
Qed.

Lemma linked_delete (a : list E) n T p t : linked a n T -> T !! p = Some t ->
  ti_get (E := E) t < 0 -> linked a n (delete p T).
Proof.
  intros Hl Ht Hneg. constructor; [apply Hl| |].
  - intros i Hi. destruct (lk_slot _ _ _ Hl i Hi) as (e & q & u & He & Hq & Hu & Hi').
    exists e, q, u. rewrite lookup_delete_ne; [done|]. intros <-.
    rewrite Ht in Hu. injection Hu as <-. lia.
  - intros q u Hq Hge. apply lookup_delete_Some in Hq as [_ Hq]. by apply (lk_task _ _ _ Hl q u).
Qed.
End Ext.

Lemma index_only_wait_alarm T T' : index_only (E := wait_timer) T T' ->
  idx_ext (E := alarm_timer) T T'.
Proof.
  intros Hx p. specialize (Hx p). destruct (T !! p), (T' !! p); try done.
  destruct Hx as [i ->]. done.
Qed.

Lemma index_only_alarm_wait T T' : index_only (E := alarm_timer) T T' ->
  idx_ext (E := wait_timer) T T'.
Proof.
  intros Hx p. specialize (Hx p). destruct (T !! p), (T' !! p); try done.
  destruct Hx as [i ->]. done.
Qed.

(** ** References *)

(** The references a task must have: one per heap entry, one of its own while
    it is not being destroyed. *)
Definition held (t : task_t) : Z :=
  c_bool (0 <=? wait_timer_index t) + c_bool (0 <=? alarm_timer_index t)
  + c_bool (negb (destroy_started t)).

Definition task_refs_ok (extra : Z) (t : task_t) : Prop :=
  held t + extra <= refs t /\ (destroy_started t = true -> dynamic_alloc t = true).

Definition refs_ok (T : gmap nat task_t) : Prop :=
  forall p t, T !! p = Some t -> task_refs_ok 0 t.

Lemma proc_put_ok T p t : T !! p = Some t -> task_refs_ok 1 t ->
  exists T', proc_put T p = Some T' /\
    (T' = <[p := t {{ refs := refs t - 1 }}]> T \/
     T' = delete p T /\ refs t = 1 /\ wait_timer_index t < 0 /\ alarm_timer_index t < 0).
Proof.
  intros Ht [Hr Hd]. unfold proc_put. rewrite Ht. cbn [mbind option_bind].
  unfold held in Hr.
  rewrite (proj2 (Z.leb_gt _ _)) by (revert Hr; unfold c_bool; repeat split_if; lia).
  split_if; [eauto|]. reflect. rewrite E in Hr.
  destruct (destroy_started t) eqn:Ed; [|unfold c_bool in Hr; revert Hr; cbn; split_ifs].
  rewrite (Hd eq_refl). cbn. eexists. split; [done|]. right. split; [done|].
  split; [done|]. unfold c_bool in Hr. cbn in Hr. revert Hr. repeat split_if; reflect; lia.
Qed.

(** ** The invariant *)

Section Wf.
Context (MAX TPS : Z).

Record timers_wf (s : timers) : Prop := {
  tw_wait : linked (arr (wait_timer_heap s)) (cnt (wait_timer_heap s)) (tasks s);
  tw_wait_order : heap_ordered (arr (wait_timer_heap s)) (cnt (wait_timer_heap s));
  tw_wait_len : Z.of_nat (length (arr (wait_timer_heap s))) = MAX;
  tw_alarm : linked (arr (alarm_timer_heap s)) (cnt (alarm_timer_heap s)) (tasks s);
  tw_alarm_order : heap_ordered (arr (alarm_timer_heap s)) (cnt (alarm_timer_heap s));
  tw_alarm_len : Z.of_nat (length (arr (alarm_timer_heap s))) = MAX;
  tw_wake_scan : next_wake_scan s
    = if cnt (wait_timer_heap s) =? 0 then SCHED_NO_DEADLINE
      else dl (arr (wait_timer_heap s)) 0;
  tw_alarm_scan : 0 < cnt (alarm_timer_heap s) ->
    next_alarm_scan s <= dl (arr (alarm_timer_heap s)) 0;
  tw_wait_valid : Forall (fun e => wt_deadline e <> 0 /\ wt_seq e <> 0)
    (live (arr (wait_timer_heap s)) (cnt (wait_timer_heap s)));
  tw_alarm_valid : Forall (fun e => at_deadline e <> 0)
    (live (arr (alarm_timer_heap s)) (cnt (alarm_timer_heap s)));
  tw_refs : refs_ok (tasks s);
}.

Lemma wf_set_tasks s T :
  timers_wf s ->
  linked (arr (wait_timer_heap s)) (cnt (wait_timer_heap s)) T ->
  linked (arr (alarm_timer_heap s)) (cnt (alarm_timer_heap s)) T ->
  refs_ok T -> timers_wf (s {{ tasks := T }}).
Proof. intros [] Hw Ha Hr. by constructor. Qed.

(** A task changes in other fields than the two indexes. *)
Lemma wf_update_task s p t t' :
  timers_wf s -> tasks s !! p = Some t ->
  wait_timer_index t' = wait_timer_index t ->
  alarm_timer_index t' = alarm_timer_index t -> task_refs_ok 0 t' ->
  timers_wf (s {{ tasks := <[p := t']> (tasks s) }}).
Proof.
  intros Hwf Ht Hwi Hai Hr. apply wf_set_tasks; [done| | |].
  - eapply linked_ext; [by eapply idx_ext_insert|apply Hwf].
  - eapply linked_ext; [by eapply idx_ext_insert|apply Hwf].
  - intros q u Hq. apply lookup_insert_Some in Hq as [[<- <-]|[_ Hq]]; [done|].
    by eapply (tw_refs _ Hwf).
Qed.

Lemma wf_put s p t T : timers_wf s -> tasks s !! p = Some t -> task_refs_ok 1 t ->
  proc_put (tasks s) p = Some T -> timers_wf (s {{ tasks := T }}).
Proof.
  intros Hwf Ht Hr E. destruct (proc_put_ok _ _ _ Ht Hr) as (T' & E' & Hcase).
  rewrite E in E'. injection E' as <-. destruct Hcase as [->|(-> & _ & Hwi & Hai)].
  - eapply wf_update_task; try done. destruct Hr as [Hr Hd]. split; [|done].
    change (held t + 0 <= refs t - 1). lia.
  - apply wf_set_tasks; [done|by eapply linked_delete; [apply Hwf|done..]..|].
    intros q u Hq. apply lookup_delete_Some in Hq as [_ Hq]. by eapply (tw_refs _ Hwf).
Qed.

Lemma first_deadline_ok h T : linked (arr h) (cnt h) T ->
  first_deadline h = Some (if cnt h =? 0 then SCHED_NO_DEADLINE else dl (arr h) 0).
Proof.
  intros Hl. unfold first_deadline, c_true. pose proof (lk_count _ _ _ Hl).
  destruct (cnt h =? 0) eqn:E; [done|]. reflect. cbn [negb]. apply (deadline_at_ok _ _ _ _ Hl). lia.
Qed.

Hypothesis MAX_ok : 0 < MAX <= 2147483646.

(** ** Removing an entry *)

(** A task whose slot in one heap goes or moves needs no more references. *)
Lemma refs_ok_wait T T' : refs_ok T -> index_only (E := wait_timer) T T' ->
  (forall p t t', T !! p = Some t -> T' !! p = Some t' -> 0 <= wait_timer_index t' ->
     0 <= wait_timer_index t) ->
  refs_ok T'.
Proof.
  intros Hr Hi Hmono p t' Ht'. specialize (Hi p). rewrite Ht' in Hi.
  destruct (T !! p) as [t|] eqn:Ht; [|done]. destruct (Hr p t Ht) as [Hh Hd].
  specialize (Hmono p t t' Ht Ht'). destruct Hi as [i ->]. clear Ht Ht'. split; [|done].
  revert Hh Hmono. destruct t. unfold held, c_bool. cbn.
  repeat split_if; reflect; lia.
Qed.

Lemma refs_ok_alarm T T' : refs_ok T -> index_only (E := alarm_timer) T T' ->
  (forall p t t', T !! p = Some t -> T' !! p = Some t' -> 0 <= alarm_timer_index t' ->
     0 <= alarm_timer_index t) ->
  refs_ok T'.
Proof.
  intros Hr Hi Hmono p t' Ht'. specialize (Hi p). rewrite Ht' in Hi.
  destruct (T !! p) as [t|] eqn:Ht; [|done]. destruct (Hr p t Ht) as [Hh Hd].
  specialize (Hmono p t t' Ht Ht'). destruct Hi as [i ->]. clear Ht Ht'. split; [|done].
  revert Hh Hmono. destruct t. unfold held, c_bool. cbn.
  repeat split_if; reflect; lia.
Qed.

(** Fewer live entries, fewer tasks with a slot. *)
Lemma sub_live_mono {E} `{HeapEntryLaws E} (a a' : list E) n n' T T' :
  linked a n T -> linked a' n' T' -> (forall e, e ∈ live a' n' -> e ∈ live a n) ->
  forall p t t', T !! p = Some t -> T' !! p = Some t' -> 0 <= ti_get (E := E) t' ->
    0 <= ti_get (E := E) t.
Proof.
  intros Hl Hl' Hsub p t t' Ht Ht' Hge.
  destruct (task_live _ _ _ _ _ Hl' Ht' Hge) as (e & He & Hp & _).
  destruct (live_task _ _ _ _ _ Hl (Hsub e He) Hp) as (u & Hu & Hr & _).
  rewrite Ht in Hu. injection Hu as <-. lia.
Qed.

Lemma root_le_scan {E} `{HeapEntryLaws E} (a a' : list E) n n' T T' b :
  linked a n T -> linked a' n' T' -> heap_ordered a n ->
  (forall e, e ∈ live a' n' -> e ∈ live a n) ->
  (0 < n -> b <= dl a 0) -> 0 < n' -> b <= dl a' 0.
Proof.
  intros Hl Hl' Ho Hsub Hb Hpos.
  destruct (lk_slot _ _ _ Hl' 0) as (e & _ & _ & He & _); [lia|].
  assert (e ∈ live a n) as Hin.
  { apply Hsub, live_lookup; [apply Hl'|]. exists 0. split; [lia|done]. }
  apply live_lookup in Hin as (i & Hi & He'); [|apply Hl].
  pose proof (heap_root_min a n i Ho Hi) as Hmin. unfold dl in Hmin at 2.
  unfold dl at 1. rewrite He' in Hmin. rewrite He. lia.
Qed.

Lemma wait_remove_ok s k : timers_wf s -> 0 <= k < cnt (wait_timer_heap s) ->
  exists h T e p t' first,
    wait_timer_remove_index_locked s k
      = Some (s {{ wait_timer_heap := h; tasks := T; next_wake_scan := first }}, e) /\
    timers_wf (s {{ wait_timer_heap := h; tasks := T; next_wake_scan := first }}) /\
    rd (arr (wait_timer_heap s)) k = Some e /\ wt_task e = Some p /\
    cnt h = cnt (wait_timer_heap s) - 1 /\
    e :: live (arr h) (cnt h) ≡ₚ live (arr (wait_timer_heap s)) (cnt (wait_timer_heap s)) /\
    index_only (E := wait_timer) (tasks s) T /\
    T !! p = Some t' /\ wait_timer_index t' = -1 /\ task_refs_ok 1 t'.
Proof.
  intros Hwf Hk. pose proof Hwf as []. unfold wait_timer_remove_index_locked.
  rewrite (proj2 (Z.leb_gt _ _)) by lia.
  destruct (remove_index_ok (wait_timer_heap s) (tasks s) k)
    as (h & T & e & p & t' & -> & He & Hp & Hl & Ho & Hc & Hn & Hperm & Hi & Ht' & Hit);
    [done|done|lia|done|].
  cbn [mbind option_bind]. rewrite (first_deadline_ok h T Hl). cbn [mbind option_bind].
  eexists h, T, e, p, t', _. split; [done|].
  assert (forall x, x ∈ live (arr h) (cnt h) ->
    x ∈ live (arr (wait_timer_heap s)) (cnt (wait_timer_heap s))) as Hsub
    by (intros x Hx; rewrite <- Hperm; by apply elem_of_cons; right).
  assert (refs_ok T) as HR
    by (eapply refs_ok_wait; [done|done|]; exact (sub_live_mono _ _ _ _ _ _ tw_wait0 Hl Hsub)).
  split; [constructor; record.simp_goal; try done|].
  - by rewrite Hn.
  - eapply linked_ext; [by apply index_only_wait_alarm|done].
  - rewrite <- Hperm in tw_wait_valid0. by apply Forall_cons_iff in tw_wait_valid0 as [_ ?].
  - do 7 (split; [done|]). pose proof (Hi p) as Hip. rewrite Ht' in Hip.
    destruct (tasks s !! p) as [t|] eqn:Ht; [|done].
    destruct (tw_refs0 p t Ht) as [Hh Hd]. destruct Hip as [i ->].
    change (i = -1) in Hit. subst i. split; [|exact Hd].
    assert (e ∈ live (arr (wait_timer_heap s)) (cnt (wait_timer_heap s))) as Hin
      by (rewrite <- Hperm; by apply elem_of_cons; left).
    destruct (live_task _ _ _ _ _ tw_wait0 Hin Hp) as (u & Hu & Hur & _).
    rewrite Ht in Hu. injection Hu as <-. change (0 <= wait_timer_index t < cnt (wait_timer_heap s)) in Hur.
    clear - Hh Hur. revert Hh. unfold held. rewrite (proj2 (Z.leb_le 0 _)) by lia.
    destruct t. cbn. lia.
Qed.

(** ** Registering *)

Lemma elem_dl {E} `{HeapEntryLaws E} (a : list E) n T e : linked a n T -> heap_ordered a n ->
  e ∈ live a n -> dl a 0 <= he_deadline e.
Proof.
  intros Hl Ho He. apply live_lookup in He as (i & Hi & He); [|apply Hl].
  pose proof (heap_root_min a n i Ho Hi) as Hm. unfold dl at 2 in Hm. by rewrite He in Hm.
Qed.

Lemma root_elem {E} `{HeapEntryLaws E} (a : list E) n T : linked a n T -> 0 < n ->
  exists e, e ∈ live a n /\ dl a 0 = he_deadline e.
Proof.
  intros Hl Hn. destruct (lk_slot _ _ _ Hl 0) as (e & _ & _ & He & _); [lia|].
  exists e. split; [|unfold dl; by rewrite He]. apply live_lookup; [apply Hl|].
  exists 0. split; [lia|done].
Qed.

Lemma root_insert_min {E} `{HeapEntryLaws E} (a a' : list E) n n' T T' e :
  linked a n T -> heap_ordered a n -> linked a' n' T' -> heap_ordered a' n' -> 0 < n' ->
  live a' n' ≡ₚ e :: live a n ->
  dl a' 0 = if n =? 0 then he_deadline e else Z.min (he_deadline e) (dl a 0).
Proof.
  intros Hl Ho Hl' Ho' Hn' Hp. destruct (root_elem _ _ _ Hl' Hn') as (r & Hr & Er).
  pose proof (elem_dl a' n' T' e Hl' Ho' ltac:(rewrite Hp; by apply elem_of_cons; left)) as Hle.
  rewrite Hp in Hr. apply elem_of_cons in Hr.
  destruct (n =? 0) eqn:En; reflect.
  - subst n. destruct Hr as [->|Hr]; [done|].
    unfold live in Hr. rewrite take_0 in Hr. by apply not_elem_of_nil in Hr.
  - pose proof (lk_count _ _ _ Hl). destruct (root_elem _ _ _ Hl) as (o & Ho1 & Eo); [lia|].
    pose proof (elem_dl a' n' T' o Hl' Ho' ltac:(rewrite Hp; by apply elem_of_cons; right)).
    destruct Hr as [->|Hr]; [lia|]. pose proof (elem_dl a n T r Hl Ho Hr). lia.
Qed.

(** The task table at the moment the new entry is in its slot. *)
Lemma register_tasks_ok s p t deadline :
  timers_wf s -> tasks s !! p = Some t -> wait_timer_index t < 0 ->
  let t1 := t {{ refs := refs t + 1; wake_time := deadline }} in
  let T1 := <[p := t1]> (tasks s) in
  let T2 := <[p := ti_set (E := wait_timer) (cnt (wait_timer_heap s)) t1]> T1 in
  linked (arr (wait_timer_heap s)) (cnt (wait_timer_heap s)) T1 /\
  linked (arr (alarm_timer_heap s)) (cnt (alarm_timer_heap s)) T2 /\ refs_ok T2.
Proof.
  intros Hwf Ht Hidx t1 T1 T2. pose proof Hwf as [].
  split; [|split].
  - eapply linked_ext; [by eapply idx_ext_insert|done].
  - eapply linked_ext; [|done]. subst T2 T1. rewrite insert_insert_eq.
    by eapply idx_ext_insert.
  - intros q u Hq. subst T2 T1. rewrite insert_insert_eq in Hq.
    apply lookup_insert_Some in Hq as [[<- <-]|[_ Hq]]; [|by eapply tw_refs0].
    destruct (tw_refs0 p t Ht) as [Hh Hd]. split; [|exact Hd].
    clear -Hh Hidx. subst t1. revert Hh. destruct t. unfold held, c_bool. cbn in *.
    repeat split_if; reflect; lia.
Qed.

(** The new entry in its slot, sifted up. *)
Lemma wait_insert_ok s p t deadline seq :
  timers_wf s -> tasks s !! p = Some t -> in_u64 deadline -> deadline <> 0 -> seq <> 0 ->
  wait_timer_index t < 0 -> cnt (wait_timer_heap s) < MAX ->
  let n := cnt (wait_timer_heap s) in
  let a := arr (wait_timer_heap s) in
  let e := {| wt_deadline := deadline; wt_task := Some p; wt_seq := seq |} in
  let t1 := t {{ refs := refs t + 1; wake_time := deadline }} in
  exists a' T',
    wait_timer_sift_up (Z.to_nat n) (<[Z.to_nat n := e]> a)
      (<[p := ti_set (E := wait_timer) n t1]> (tasks s)) n = Some (a', T') /\
    deadline_at a' 0 = Some (dl a' 0) /\ dl a' 0 = Z.min deadline (next_wake_scan s) /\
    live a' (n + 1) ≡ₚ e :: live a n /\
    index_only (E := wait_timer) (<[p := t1]> (tasks s)) T' /\
    timers_wf (s {{ wait_timer_heap := {| arr := a'; cnt := n + 1 |}; tasks := T';
                    next_wake_scan := dl a' 0 }}).
Proof.
  intros Hwf Ht Hd Hd0 Hseq Hidx Hcap n a e t1. pose proof Hwf as [].
  fold n a in tw_wait0, tw_wait_order0, tw_wait_len0, tw_wake_scan0, tw_wait_valid0.
  pose proof (lk_count _ _ _ tw_wait0) as Hc.
  destruct (register_tasks_ok s p t deadline Hwf Ht Hidx) as (L1 & LA2 & R2).
  destruct (push_ok a n (<[p := t1]> (tasks s)) e p t1) as (L2 & U2 & V2 & I2);
    [done|done|lia|done|apply lookup_insert_eq|done|].
  destruct (sift_up_ok (Z.to_nat n) _ (n + 1) _ n L2) as (a3 & T3 & E3 & K3 & O3);
    [lia|lia|done|].
  destruct K3 as [L3 I3 P3 N3 _ _]. rewrite insert_insert_eq in E3.
  assert (live a3 (n + 1) ≡ₚ e :: live a n) as P
    by (rewrite P3, V2; symmetry; apply Permutation_cons_append).
  assert (dl a3 0 = Z.min deadline (next_wake_scan s)) as Ed.
  { rewrite (root_insert_min a a3 n (n + 1) (tasks s) T3 e) by (done || lia).
    rewrite tw_wake_scan0. destruct (n =? 0); [|done].
    unfold SCHED_NO_DEADLINE, U64_MAX, in_u64 in *. cbn. lia. }
  exists a3, T3. split; [done|]. split; [apply (deadline_at_ok _ _ _ 0 L3); lia|].
  split; [done|]. split; [done|].
  split; [by eapply index_only_trans|]. constructor; record.simp_goal; cbn [arr cnt]; try done.
  - rewrite N3, length_insert. done.
  - eapply linked_ext; [by apply index_only_wait_alarm|done].
  - by rewrite (proj2 (Z.eqb_neq _ _)) by lia.
  - rewrite P. by constructor.
  - eapply refs_ok_wait; [exact R2|exact I3|].
    apply (sub_live_mono _ _ _ _ _ _ L2 L3). intros x Hx. by rewrite <- P3.
Qed.

Lemma wf_intervals s l : timers_wf s -> timers_wf (s {{ intervals := l }}).
Proof. intros []. by constructor. Qed.

Lemma wait_register_ok s p t deadline seq ticks :
  timers_wf s -> tasks s !! p = Some t -> in_u64 deadline -> deadline <> 0 -> seq <> 0 ->
  wait_timer_index t < 0 -> cnt (wait_timer_heap s) < MAX ->
  refs t <> 0 -> refs t < 2147483647 ->
  exists s', proc_wait_timer_register_locked MAX TPS ticks s (Some p) deadline seq = Some (s', 0) /\
    timers_wf s' /\
    live (arr (wait_timer_heap s')) (cnt (wait_timer_heap s'))
      ≡ₚ {| wt_deadline := deadline; wt_task := Some p; wt_seq := seq |}
         :: live (arr (wait_timer_heap s)) (cnt (wait_timer_heap s)) /\
    next_wake_scan s' = Z.min deadline (next_wake_scan s) /\
    alarm_timer_heap s' = alarm_timer_heap s /\
    intervals s' = (if deadline <? next_wake_scan s
      then [proc_next_timer_interval TPS s' ticks] else []) ++ intervals s /\
    index_only (E := wait_timer)
      (<[p := t {{ refs := refs t + 1; wake_time := deadline }}]> (tasks s)) (tasks s').
Proof.
  intros Hwf Ht Hd Hd0 Hseq Hidx Hcap Hr0 Hrm. pose proof Hwf as [].
  pose proof (lk_count _ _ _ tw_wait0) as Hc.
  destruct (tw_refs0 p t Ht) as [Hh _].
  assert (0 <= refs t) as Hrpos.
  { revert Hh. unfold held, c_bool. repeat split_if; lia. }
  unfold proc_wait_timer_register_locked.
  rewrite (proj2 (Z.eqb_neq deadline 0)), (proj2 (Z.eqb_neq seq 0)) by done. cbn [orb].
  rewrite Ht. cbn [mbind option_bind].
  rewrite (proj2 (Z.leb_gt _ _)), (proj2 (Z.leb_gt MAX _)) by lia.
  rewrite (first_deadline_ok _ _ tw_wait0). cbn [mbind option_bind].
  unfold proc_get. rewrite Ht. cbn [mbind option_bind].
  rewrite (proj2 (Z.eqb_neq (refs t) 0)), s32_small by (done || lia).
  cbn [mbind option_bind negb].
  rewrite wr_Some by lia. cbn [mbind option_bind]. rewrite lookup_insert_eq.
  cbn [mbind option_bind]. rewrite insert_insert_eq.
  destruct (wait_insert_ok s p t deadline seq) as (a & T & E & Ea & Ed & P & I & W);
    [done..|].
  assert (t {{ refs := refs t + 1; wait_timer_index := cnt (wait_timer_heap s);
                wake_time := deadline }}
    = ti_set (E := wait_timer) (cnt (wait_timer_heap s))
        (t {{ refs := refs t + 1; wake_time := deadline }})) as -> by (by destruct t).
  rewrite E. cbn [mbind option_bind]. rewrite Ea. cbn [mbind option_bind].
  rewrite (u32_small (cnt (wait_timer_heap s) + 1)) by (unfold in_u32; lia).
  rewrite <- tw_wake_scan0, Ed in *.
  assert ((Z.min deadline (next_wake_scan s) <? next_wake_scan s)
    = (deadline <? next_wake_scan s)) as -> by (apply Bool.eq_iff_eq_true; rewrite !Z.ltb_lt; lia).
  destruct (deadline <? next_wake_scan s); eexists; (split; [done|]); split_and!; try done.
  by apply wf_intervals.
Qed.

Definition register_rc (s : timers) (t : task_t) (deadline seq : Z) : Z :=
  if (deadline =? 0) || (seq =? 0) then PROC_PARK_PREPARE_INVALID
  else if 0 <=? wait_timer_index t then PROC_PARK_PREPARE_TIMEOUT_DUPLICATE
  else if MAX <=? cnt (wait_timer_heap s) then PROC_PARK_PREPARE_TIMEOUT_CAPACITY
  else if refs t =? 0 then PROC_PARK_PREPARE_TIMEOUT_REF
  else PROC_PARK_PREPARE_OK.

(** Registering a wait timer.  From a consistent state the call returns
    the code its guards prescribe and leaves a consistent state.  On success
    exactly the new entry joins the heap, the next wake scan is the minimum
    of the old one and the new deadline, and the hardware timer is
    reprogrammed when the new deadline is the earliest; on every error the
    heap, the scan deadline and the tasks are untouched. *)
Theorem wait_timer_register_correct s p t deadline seq ticks :
  timers_wf s -> tasks s !! p = Some t -> in_u64 deadline -> refs t < 2147483647 ->
  exists s', let rc := register_rc s t deadline seq in
    proc_wait_timer_register_locked MAX TPS ticks s (Some p) deadline seq = Some (s', rc) /\
    timers_wf s' /\
    if rc =? PROC_PARK_PREPARE_OK then
      live (arr (wait_timer_heap s')) (cnt (wait_timer_heap s'))
        ≡ₚ {| wt_deadline := deadline; wt_task := Some p; wt_seq := seq |}
           :: live (arr (wait_timer_heap s)) (cnt (wait_timer_heap s)) /\
      next_wake_scan s' = Z.min deadline (next_wake_scan s) /\
      intervals s' = (if deadline <? next_wake_scan s
        then [proc_next_timer_interval TPS s' ticks] else []) ++ intervals s
    else wait_timer_heap s' = wait_timer_heap s /\ tasks s' = tasks s /\
         next_wake_scan s' = next_wake_scan s /\ intervals s' = intervals s.
Proof.
  intros Hwf Ht Hd Hr. unfold register_rc.
  destruct ((deadline =? 0) || (seq =? 0)) eqn:E1.
  { exists s. unfold proc_wait_timer_register_locked. by rewrite E1. }
  destruct (0 <=? wait_timer_index t) eqn:E2.
  { eexists. unfold proc_wait_timer_register_locked. rewrite E1, Ht. cbn [mbind option_bind].
    rewrite E2. split; [done|]. split; [by destruct Hwf|done]. }
  destruct (MAX <=? cnt (wait_timer_heap s)) eqn:E3.
  { eexists. unfold proc_wait_timer_register_locked. rewrite E1, Ht. cbn [mbind option_bind].
    rewrite E2, E3. split; [done|]. split; [by destruct Hwf|done]. }
  destruct (refs t =? 0) eqn:E4.
  { exists s. unfold proc_wait_timer_register_locked. rewrite E1, Ht. cbn [mbind option_bind].
    rewrite E2, E3, (first_deadline_ok _ _ (tw_wait _ Hwf)). cbn [mbind option_bind].
    unfold proc_get. rewrite Ht. cbn [mbind option_bind]. by rewrite E4. }
  reflect. destruct (wait_register_ok s p t deadline seq ticks)
    as (s' & E & W & P & N & _ & I & _); [done..|].
  exists s'. split_and!; done.
Qed.

(** ** Cancelling *)

Lemma wait_cancel_ok s p t seq : timers_wf s -> tasks s !! p = Some t ->
  (exists e, rd (arr (wait_timer_heap s)) (wait_timer_index t) = Some e /\
     0 <= wait_timer_index t /\ wt_seq e = seq /\
   exists h T first t' u,
     proc_wait_timer_cancel_locked s (Some p) seq
       = Some (s {{ wait_timer_heap := h; tasks := T; next_wake_scan := first }}) /\
     timers_wf (s {{ wait_timer_heap := h; tasks := T; next_wake_scan := first }}) /\
     cnt h = cnt (wait_timer_heap s) - 1 /\
     e :: live (arr h) (cnt h) ≡ₚ live (arr (wait_timer_heap s)) (cnt (wait_timer_heap s)) /\
     index_only (E := wait_timer) (tasks s) u /\
     u !! p = Some t' /\ wait_timer_index t' = -1 /\
     (T = <[p := t' {{ wake_time := 0; refs := refs t' - 1 }}]> u \/
      T = delete p u /\ refs t' = 1)) \/
  (~ (0 <= wait_timer_index t /\ exists e,
        rd (arr (wait_timer_heap s)) (wait_timer_index t) = Some e /\ wt_seq e = seq) /\
   proc_wait_timer_cancel_locked s (Some p) seq = Some s).
Proof.
  intros Hwf Ht. unfold proc_wait_timer_cancel_locked. rewrite Ht. cbn [mbind option_bind].
  destruct (wait_timer_index t <? 0) eqn:Ei; reflect; [right; split; [lia|done]|].
  destruct (lk_task _ _ _ (tw_wait _ Hwf) p t Ht Ei) as (Hlt & e & He & Hp). cbn in Hlt, He, Hp.
  rewrite (proj2 (Z.leb_gt _ _)) by done. rewrite He. cbn [mbind option_bind].
  rewrite bool_decide_eq_true_2 by done. cbn [negb orb].
  destruct (wt_seq e =? seq) eqn:Es; reflect; cbn [negb].
  2: { right. split; [|done]. intros (_ & e' & He' & Hs). congruence. }
  left. exists e. split; [done|]. split; [done|]. split; [done|].
  destruct (wait_remove_ok s (wait_timer_index t) Hwf) as
    (h & T & e' & q & t' & first & -> & W & He' & Hq & Hc & P & I & Ht' & Hi' & R'); [done|].
  assert (e' = e) as -> by congruence. assert (q = p) as -> by congruence.
  cbn [mbind option_bind]. record.simp_goal. rewrite Ht'. cbn [mbind option_bind]. rewrite Hq.
  set (T1 := <[p := t' {{ wake_time := 0 }}]> T).
  destruct (proc_put_ok T1 p (t' {{ wake_time := 0 }})) as (T2 & E2 & Hcase);
    [apply lookup_insert_eq|done|].
  rewrite E2. cbn [mbind option_bind]. exists h, T2, first, t', T.
  split; [done|]. split.
  - assert (timers_wf (s {{ wait_timer_heap := h; tasks := T1; next_wake_scan := first }})) as W1.
    { apply (wf_update_task _ p t' (t' {{ wake_time := 0 }}) W); [done..|].
      split; [|apply R']. destruct R' as [R' _]. change (held t' + 0 <= refs t'). lia. }
    eapply (wf_put _ p _ T2 W1); [apply lookup_insert_eq|done|done].
  - split_and!; try done. subst T1. destruct Hcase as [->|(-> & Hr1 & _)].
    + left. rewrite insert_insert_eq. by destruct t'.
    + right. rewrite delete_insert_eq. done.
Qed.

(** Cancelling a wait timer.  A call with the task's current sequence
    number removes exactly that task's entry and drops its reference; a call
    with any other sequence number, or for a task without an entry, changes
    nothing.  The state stays consistent, so the next wake scan is again the
    root deadline. *)
Theorem wait_timer_cancel_correct s p t seq :
  timers_wf s -> tasks s !! p = Some t ->
  exists s', proc_wait_timer_cancel_locked s (Some p) seq = Some s' /\ timers_wf s' /\
    ((exists e, wt_task e = Some p /\ wt_seq e = seq /\
        e :: live (arr (wait_timer_heap s')) (cnt (wait_timer_heap s'))
          ≡ₚ live (arr (wait_timer_heap s)) (cnt (wait_timer_heap s)) /\
        forall t', tasks s' !! p = Some t' ->
          wait_timer_index t' = -1 /\ wake_time t' = 0 /\ refs t' = refs t - 1) \/
     (forall e, e ∈ live (arr (wait_timer_heap s)) (cnt (wait_timer_heap s)) ->
        wt_task e = Some p -> wt_seq e <> seq) /\ s' = s).
Proof.
  intros Hwf Ht. destruct (wait_cancel_ok s p t seq Hwf Ht) as
    [(e & He & Hge & Hs & h & T & first & t' & u & E & W & Hc & P & I & Hu & Hi & HT)|[Hno E]].
  - eexists. split; [done|]. split; [done|]. left. exists e.
    destruct (lk_task _ _ _ (tw_wait _ Hwf) p t Ht Hge) as (_ & e' & He' & Hp).
    cbn in He', Hp. assert (e' = e) as -> by congruence.
    split; [done|]. split; [done|]. split; [done|].
    record.simp_goal. intros t'' Ht''. pose proof (I p) as Hip. rewrite Ht, Hu in Hip.
    destruct Hip as [j ->]. destruct HT as [->|[-> _]].
    + rewrite lookup_insert_eq in Ht''. injection Ht'' as <-. by destruct t.
    + by rewrite lookup_delete_eq in Ht''.
  - exists s. split; [done|]. split; [done|]. right. split; [|done].
    intros e He Hp Hs. apply Hno.
    destruct (live_task _ _ _ _ _ (tw_wait _ Hwf) He Hp) as (t' & Ht' & Hr & Hrd).
    rewrite Ht in Ht'. injection Ht' as <-. cbn in Hr, Hrd. split; [lia|]. eauto.
Qed.

(** ** Alarms *)

Lemma alarm_remove_ok s k : timers_wf s -> 0 <= k < cnt (alarm_timer_heap s) ->
  exists h T e p t',
    alarm_timer_remove_index_locked (alarm_timer_heap s) (tasks s) k = Some (h, T, e) /\
    timers_wf (s {{ alarm_timer_heap := h; tasks := T }}) /\
    rd (arr (alarm_timer_heap s)) k = Some e /\ at_task e = Some p /\
    cnt h = cnt (alarm_timer_heap s) - 1 /\
    e :: live (arr h) (cnt h) ≡ₚ live (arr (alarm_timer_heap s)) (cnt (alarm_timer_heap s)) /\
    index_only (E := alarm_timer) (tasks s) T /\
    T !! p = Some t' /\ alarm_timer_index t' = -1 /\ task_refs_ok 1 t'.
Proof.
  intros Hwf Hk. pose proof Hwf as [].
  destruct (remove_index_ok (alarm_timer_heap s) (tasks s) k)
    as (h & T & e & p & t' & E & He & Hp & Hl & Ho & Hc & Hn & Hperm & Hi & Ht' & Hit);
    [done|done|lia|done|].
  exists h, T, e, p, t'. split; [done|].
  assert (forall x, x ∈ live (arr h) (cnt h) ->
    x ∈ live (arr (alarm_timer_heap s)) (cnt (alarm_timer_heap s))) as Hsub
    by (intros x Hx; rewrite <- Hperm; by apply elem_of_cons; right).
  assert (refs_ok T) as HR
    by (eapply refs_ok_alarm; [done|done|]; exact (sub_live_mono _ _ _ _ _ _ tw_alarm0 Hl Hsub)).
  split; [constructor; record.simp_goal; try done|].
  - eapply linked_ext; [by apply index_only_alarm_wait|done].
  - by rewrite Hn.
  - by apply (root_le_scan _ _ _ _ _ _ _ tw_alarm0 Hl).
  - rewrite <- Hperm in tw_alarm_valid0. by apply Forall_cons_iff in tw_alarm_valid0 as [_ ?].
  - do 7 (split; [done|]). pose proof (Hi p) as Hip. rewrite Ht' in Hip.
    destruct (tasks s !! p) as [t|] eqn:Ht; [|done].
    destruct (tw_refs0 p t Ht) as [Hh Hd]. destruct Hip as [i ->].
    change (i = -1) in Hit. subst i. split; [|exact Hd].
    assert (e ∈ live (arr (alarm_timer_heap s)) (cnt (alarm_timer_heap s))) as Hin
      by (rewrite <- Hperm; by apply elem_of_cons; left).
    destruct (live_task _ _ _ _ _ tw_alarm0 Hin Hp) as (u & Hu & Hur & _).
    rewrite Ht in Hu. injection Hu as <-. change (0 <= alarm_timer_index t < cnt (alarm_timer_heap s)) in Hur.
    clear - Hh Hur. revert Hh. unfold held. rewrite (proj2 (Z.leb_le 0 (alarm_timer_index t))) by lia.
    destruct t. cbn. lia.
Qed.

(** Removing the task's alarm entry, whether it has one or not. *)
Lemma alarm_cancel_ok s p t : timers_wf s -> tasks s !! p = Some t -> task_refs_ok 0 t ->
  exists h T, alarm_timer_cancel_locked s (Some p) = Some (s {{ alarm_timer_heap := h; tasks := T }}) /\
    timers_wf (s {{ alarm_timer_heap := h; tasks := T }}) /\
    (forall t', T !! p = Some t' -> alarm_timer_index t' < 0) /\
    (destroy_started t = false -> exists t', T !! p = Some t' /\ refs t' <= refs t /\
      destroy_started t' = false) /\
    (if 0 <=? alarm_timer_index t
     then exists e, at_task e = Some p /\ e :: live (arr h) (cnt h)
       ≡ₚ live (arr (alarm_timer_heap s)) (cnt (alarm_timer_heap s))
     else h = alarm_timer_heap s /\ T = tasks s).
Proof.
  intros Hwf Ht Hr. unfold alarm_timer_cancel_locked. rewrite Ht. cbn [mbind option_bind].
  destruct (alarm_timer_index t <? 0) eqn:Ei; reflect.
  { exists (alarm_timer_heap s), (tasks s).
    assert (s {{ alarm_timer_heap := alarm_timer_heap s; tasks := tasks s }} = s) as ->
      by (by destruct s).
    split; [done|]. split; [done|]. split; [intros t' Ht'; congruence|].
    split; [intros Hd; exists t; split; [done|]; split; [lia|done]|]. by rewrite (proj2 (Z.leb_gt _ _)) by lia. }
  rewrite (proj2 (Z.leb_le 0 _)) by lia.
  destruct (lk_task _ _ _ (tw_alarm _ Hwf) p t Ht Ei) as (Hlt & e & He & Hp). cbn in Hlt, He, Hp.
  rewrite (proj2 (Z.leb_gt _ _)) by done. rewrite He. cbn [mbind option_bind].
  rewrite bool_decide_eq_true_2 by done. cbn [negb].
  destruct (alarm_remove_ok s (alarm_timer_index t) Hwf) as
    (h & T & e' & q & t' & -> & W & He' & Hq & Hc & P & I & Ht' & Hi' & R'); [done|].
  assert (e' = e) as -> by congruence. assert (q = p) as -> by congruence.
  cbn [mbind option_bind]. rewrite Hq.
  destruct (proc_put_ok T p t' Ht' R') as (T2 & E2 & Hcase). rewrite E2. cbn [mbind option_bind].
  exists h, T2. split; [done|].
  split; [by apply (wf_put _ p t' T2 W)|].
  pose proof (I p) as Hip. rewrite Ht, Ht' in Hip. destruct Hip as [j ->].
  split_and!; [..|by exists e].
  - intros t'' Ht''. destruct Hcase as [->|(-> & _)].
    + rewrite lookup_insert_eq in Ht''. injection Ht'' as <-.
      change (alarm_timer_index (ti_set (E := alarm_timer) j t) < 0). rewrite Hi'. lia.
    + by rewrite lookup_delete_eq in Ht''.
  - intros Hd. destruct Hcase as [->|(-> & Hr1 & _)].
    + rewrite lookup_insert_eq. eexists. split; [done|]. split; [|exact Hd].
      change (refs t - 1 <= refs t). lia.
    + exfalso. destruct R' as [R' _]. clear - R' Hr1 Hd. revert R' Hr1 Hd.
      destruct t. unfold held, c_bool. cbn. intros R' Hr1 ->. revert R'. cbn.
      repeat split_if; lia.
Qed.

(** A new alarm entry in its slot, sifted up. *)
Lemma alarm_insert_ok s p t expire :
  timers_wf s -> tasks s !! p = Some t -> expire <> 0 ->
  alarm_timer_index t < 0 -> cnt (alarm_timer_heap s) < MAX ->
  let n := cnt (alarm_timer_heap s) in
  let a := arr (alarm_timer_heap s) in
  let e := {| at_deadline := expire; at_task := Some p |} in
  let t1 := t {{ refs := refs t + 1 }} in
  exists a' T',
    alarm_timer_sift_up (Z.to_nat n) (<[Z.to_nat n := e]> a)
      (<[p := ti_set (E := alarm_timer) n t1]> (tasks s)) n = Some (a', T') /\
    live a' (n + 1) ≡ₚ e :: live a n /\
    index_only (E := alarm_timer) (<[p := t1]> (tasks s)) T' /\
    forall slot, slot <= expire -> slot <= next_alarm_scan s ->
    timers_wf (s {{ alarm_timer_heap := {| arr := a'; cnt := n + 1 |}; tasks := T';
                    next_alarm_scan := slot }}).
Proof.
  intros Hwf Ht Hd0 Hidx Hcap n a e t1. pose proof Hwf as [].
  fold n a in tw_alarm0, tw_alarm_order0, tw_alarm_len0, tw_alarm_scan0, tw_alarm_valid0.
  pose proof (lk_count _ _ _ tw_alarm0) as Hc.
  assert (linked a n (<[p := t1]> (tasks s))) as L1
    by (eapply linked_ext; [by eapply idx_ext_insert|done]).
  set (T2 := <[p := ti_set (E := alarm_timer) n t1]> (<[p := t1]> (tasks s))).
  assert (linked (arr (wait_timer_heap s)) (cnt (wait_timer_heap s)) T2) as LW2.
  { eapply linked_ext; [|done]. subst T2. rewrite insert_insert_eq. by eapply idx_ext_insert. }
  assert (refs_ok T2) as R2.
  { intros q u Hq. subst T2. rewrite insert_insert_eq in Hq.
    apply lookup_insert_Some in Hq as [[<- <-]|[_ Hq]]; [|by eapply tw_refs0].
    destruct (tw_refs0 p t Ht) as [Hh Hd]. split; [|exact Hd].
    clear -Hh Hidx. subst t1. revert Hh. destruct t. unfold held, c_bool. cbn in *.
    repeat split_if; reflect; lia. }
  destruct (push_ok a n (<[p := t1]> (tasks s)) e p t1) as (L2 & U2 & V2 & I2);
    [done|done|lia|done|apply lookup_insert_eq|done|].
  destruct (sift_up_ok (Z.to_nat n) _ (n + 1) _ n L2) as (a3 & T3 & E3 & K3 & O3);
    [lia|lia|done|].
  destruct K3 as [L3 I3 P3 N3 _ _]. rewrite insert_insert_eq in E3.
  assert (live a3 (n + 1) ≡ₚ e :: live a n) as P
    by (rewrite P3, V2; symmetry; apply Permutation_cons_append).
  exists a3, T3. split; [done|]. split; [done|]. split; [by eapply index_only_trans|].
  intros slot Hs1 Hs2. constructor; record.simp_goal; cbn [arr cnt]; try done.
  - eapply linked_ext; [by apply index_only_alarm_wait|done].
  - rewrite N3, length_insert. done.
  - intros _. rewrite (root_insert_min a a3 n (n + 1) (tasks s) T3 e) by (done || lia).
    destruct (n =? 0) eqn:En; reflect; cbn [he_deadline alarm_entry at_deadline e]; [done|].
    specialize (tw_alarm_scan0 ltac:(lia)). lia.
  - rewrite P. by constructor.
  - eapply refs_ok_alarm; [exact R2|exact I3|].
    apply (sub_live_mono _ _ _ _ _ _ L2 L3). intros x Hx. by rewrite <- P3.
Qed.

Lemma wf_lower_alarm_scan s slot : timers_wf s -> slot <= next_alarm_scan s ->
  timers_wf (s {{ next_alarm_scan := slot }}).
Proof.
  intros [] Hs. constructor; try done. intros Hc. specialize (tw_alarm_scan0 Hc).
  change (slot <= dl (arr (alarm_timer_heap s)) 0). lia.
Qed.

(** The alarms of the other tasks. *)
Definition others (p : nat) (l : list alarm_timer) : list alarm_timer :=
  filter (fun e => at_task e <> Some p) l.

#[local] Instance others_proper p : Proper ((≡ₚ) ==> (≡ₚ)) (others p).
Proof. intros l l' Hl. unfold others. by rewrite Hl. Qed.

Lemma others_id p l : (forall e, e ∈ l -> at_task e <> Some p) -> others p l = l.
Proof.
  induction l as [|e l IH]; intros Hall; [done|]. unfold others.
  rewrite filter_cons_True by (apply Hall; by apply elem_of_cons; left).
  f_equal. apply IH. intros x Hx. apply Hall. by apply elem_of_cons; right.
Qed.

Lemma no_alarm_entry s p h T : timers_wf (s {{ alarm_timer_heap := h; tasks := T }}) ->
  (forall t', T !! p = Some t' -> alarm_timer_index t' < 0) ->
  forall e, e ∈ live (arr h) (cnt h) -> at_task e <> Some p.
Proof.
  intros Hwf Hidx e He Hp.
  destruct (live_task _ _ _ _ _ (tw_alarm _ Hwf) He Hp) as (t & Ht & Hr & _).
  specialize (Hidx t Ht). cbn in Hr. lia.
Qed.

Lemma alarm_cancel_others s p t : timers_wf s -> tasks s !! p = Some t ->
  exists h T, alarm_timer_cancel_locked s (Some p) = Some (s {{ alarm_timer_heap := h; tasks := T }}) /\
    timers_wf (s {{ alarm_timer_heap := h; tasks := T }}) /\
    (forall t', T !! p = Some t' -> alarm_timer_index t' < 0) /\
    (destroy_started t = false -> exists t', T !! p = Some t' /\ refs t' <= refs t /\
      destroy_started t' = false) /\
    live (arr h) (cnt h)
      ≡ₚ others p (live (arr (alarm_timer_heap s)) (cnt (alarm_timer_heap s))).
Proof.
  intros Hwf Ht.
  destruct (alarm_cancel_ok s p t Hwf Ht (tw_refs _ Hwf p t Ht)) as (h & T & E & W & Hi & Hd & HP).
  exists h, T. do 4 (split; [done|]). pose proof (no_alarm_entry s p h T W Hi) as Hno.
  destruct (0 <=? alarm_timer_index t).
  - destruct HP as (e & He & HP). rewrite <- HP. unfold others at 1.
    rewrite filter_cons_False by (intros Hn; by apply Hn). fold (others p (live (arr h) (cnt h))).
    by rewrite others_id.
  - destruct HP as [-> ->]. by rewrite others_id.
Qed.

Lemma proc_get_live T p t : T !! p = Some t -> refs t <> 0 -> -1 <= refs t < 2147483647 ->
  proc_get T p = Some (<[p := t {{ refs := refs t + 1 }}]> T, true).
Proof.
  intros Ht Hr Hb. unfold proc_get. rewrite Ht. cbn [mbind option_bind].
  rewrite (proj2 (Z.eqb_neq _ _)), s32_small by (done || lia). done.
Qed.

Lemma refs_pos T p t : refs_ok T -> T !! p = Some t -> 0 <= refs t /\
  (destroy_started t = false -> 0 < refs t).
Proof.
  intros Hr Ht. destruct (Hr p t Ht) as [Hh _]. revert Hh. unfold held, c_bool.
  destruct (destroy_started t); cbn; repeat split_if; intros; split; try done; lia.
Qed.

(** The critical section, by whether the alarm is set. *)
Lemma set_alarm_fits s p t expire :
  timers_wf s -> tasks s !! p = Some t -> destroy_started t = false ->
  refs t < 2147483647 ->
  let old := others p (live (arr (alarm_timer_heap s)) (cnt (alarm_timer_heap s))) in
  0 < expire -> Z.of_nat (length old) < MAX ->
  exists s2 t', set_alarm_locked MAX s p expire = Some (s2, expire) /\
    next_alarm_scan s2 = next_alarm_scan s /\
    (forall slot, slot <= expire -> slot <= next_alarm_scan s ->
       timers_wf (s2 {{ next_alarm_scan := slot }})) /\
    tasks s2 !! p = Some t' /\ alarm_expire t' = expire /\
    live (arr (alarm_timer_heap s2)) (cnt (alarm_timer_heap s2))
      ≡ₚ {| at_deadline := expire; at_task := Some p |} :: old.
Proof.
  intros Hwf Ht Hlive Href old Hexp Hroom.
  destruct (alarm_cancel_others s p t Hwf Ht) as (h & T & Ec & W & Hidx & Hkeep & HP).
  destruct (Hkeep Hlive) as (t1 & Ht1 & Hr1 & Hlive1).
  destruct (refs_pos _ _ _ (tw_refs _ W) Ht1) as [_ Hpos]. specialize (Hpos Hlive1).
  pose proof (lk_count _ _ _ (tw_alarm _ W)) as Hcnt.
  change (0 <= cnt h <= Z.of_nat (length (arr h))) in Hcnt.
  pose proof (tw_alarm_len _ W) as Hmax. change (Z.of_nat (length (arr h)) = MAX) in Hmax.
  assert (cnt h < MAX) as Hfit.
  { revert Hroom. unfold old. rewrite <- HP. unfold live. rewrite length_take. lia. }
  unfold set_alarm_locked. rewrite Ec. cbn [mbind option_bind].
  set (s1 := s {{ alarm_timer_heap := h; tasks := T }}) in *.
  change (alarm_timer_heap s1) with h. change (tasks s1) with T.
  unfold c_true. rewrite (proj2 (Z.leb_gt MAX _)) by lia. rewrite andb_false_r.
  rewrite (proj2 (Z.eqb_neq expire 0)) by lia. cbn [negb].
  rewrite (proc_get_live T p t1) by (done || lia). cbn [mbind option_bind].
  rewrite wr_Some by lia. cbn [mbind option_bind]. rewrite lookup_insert_eq.
  cbn [mbind option_bind]. rewrite insert_insert_eq.
  destruct (alarm_insert_ok s1 p t1 expire W Ht1) as (a' & T' & E' & P' & I' & W');
    [lia|by apply Hidx|done|].
  change (alarm_timer_heap s1) with h in *. change (tasks s1) with T in *.
  change (ti_set (E := alarm_timer) (cnt h) (t1 {{ refs := refs t1 + 1 }}))
    with (t1 {{ refs := refs t1 + 1; alarm_timer_index := cnt h }}) in E'.
  rewrite E'. cbn [mbind option_bind]. rewrite (u32_small (cnt h + 1)) by (unfold in_u32; lia).
  pose proof (I' p) as Hp'. rewrite lookup_insert_eq in Hp'.
  destruct (T' !! p) as [t2|] eqn:Ht2; [|done]. record.simp_goal. rewrite Ht2.
  cbn [mbind option_bind]. eexists _, _. split; [done|]. split; [done|]. split.
  - intros slot Hs1 Hs2. specialize (W' slot Hs1 Hs2).
    eapply (wf_update_task _ p t2 (t2 {{ alarm_expire := expire }}) W'); [done..|].
    by apply (tw_refs _ W' p t2).
  - record.simp_goal. rewrite lookup_insert_eq. split; [done|]. split; [done|].
    cbn [arr cnt]. by rewrite P', HP.
Qed.

Lemma set_alarm_none s p t expire :
  timers_wf s -> tasks s !! p = Some t -> destroy_started t = false ->
  let old := others p (live (arr (alarm_timer_heap s)) (cnt (alarm_timer_heap s))) in
  (0 <? expire) && (Z.of_nat (length old) <? MAX) = false -> 0 <= expire ->
  exists s2 t', set_alarm_locked MAX s p expire = Some (s2, 0) /\ timers_wf s2 /\
    tasks s2 !! p = Some t' /\ alarm_expire t' = 0 /\
    live (arr (alarm_timer_heap s2)) (cnt (alarm_timer_heap s2)) ≡ₚ old.
Proof.
  intros Hwf Ht Hlive old Hno Hexp.
  destruct (alarm_cancel_others s p t Hwf Ht) as (h & T & Ec & W & Hidx & Hkeep & HP).
  destruct (Hkeep Hlive) as (t1 & Ht1 & _).
  pose proof (lk_count _ _ _ (tw_alarm _ W)) as Hcnt.
  change (0 <= cnt h <= Z.of_nat (length (arr h))) in Hcnt.
  assert (Z.of_nat (length old) = cnt h) as Hlen.
  { unfold old. rewrite <- HP. unfold live. rewrite length_take. lia. }
  unfold set_alarm_locked. rewrite Ec. cbn [mbind option_bind].
  set (s1 := s {{ alarm_timer_heap := h; tasks := T }}) in *.
  change (alarm_timer_heap s1) with h.
  assert ((if c_true expire && (MAX <=? cnt h) then 0 else expire) = 0) as ->.
  { apply andb_false_iff in Hno. unfold c_true. destruct Hno as [Hno|Hno]; reflect.
    - assert (expire = 0) as -> by lia. done.
    - rewrite (proj2 (Z.leb_le MAX _)) by lia. destruct (expire =? 0) eqn:E0; reflect; done. }
  cbn [c_true Z.eqb negb mbind option_bind]. change (tasks s1) with T. rewrite Ht1.
  cbn [mbind option_bind]. eexists _, _. split; [done|]. split.
  - eapply (wf_update_task s1 p t1 _ W); [done..|]. by apply (tw_refs _ W p t1).
  - record.simp_goal. rewrite lookup_insert_eq. done.
Qed.

(** Setting a SIGALRM deadline.  For a live task the call replaces the
    task's alarm entry: the alarms of all other tasks are exactly as before,
    the task has one entry with the new deadline when the deadline is nonzero
    and there is room, none otherwise, and the task's [alarm_expire] says
    which.  The next alarm scan is never later than the earliest alarm. *)
Theorem set_alarm_expire_correct s p t expire ticks :
  timers_wf s -> tasks s !! p = Some t -> destroy_started t = false ->
  0 <= expire -> refs t < 2147483647 ->
  exists s' t', proc_set_alarm_expire MAX TPS ticks s (Some p) expire = Some s' /\
    timers_wf s' /\ tasks s' !! p = Some t' /\
    let old := others p (live (arr (alarm_timer_heap s)) (cnt (alarm_timer_heap s))) in
    let fits := (0 <? expire) && (Z.of_nat (length old) <? MAX) in
    alarm_expire t' = (if fits then expire else 0) /\
    live (arr (alarm_timer_heap s')) (cnt (alarm_timer_heap s'))
      ≡ₚ (if fits then [{| at_deadline := expire; at_task := Some p |}] else []) ++ old.
Proof.
  intros Hwf Ht Hlive Hexp Href. unfold proc_set_alarm_expire. cbv zeta.
  destruct ((0 <? expire) && _) eqn:Efits.
  - apply andb_prop in Efits as [E1 E2]. reflect.
    destruct (set_alarm_fits s p t expire) as (s2 & t' & -> & Hn & W & Ht' & Ha & P);
      [done..|].
    cbn [mbind option_bind]. unfold sched_note_deadline. rewrite Hn.
    rewrite (proj2 (Z.eqb_neq expire 0)) by lia.
    destruct (expire <? next_alarm_scan s) eqn:El; reflect; eexists _, t'; (split; [done|]);
      (split; [|done]); [apply wf_intervals|]; apply W; lia.
  - destruct (set_alarm_none s p t expire) as (s2 & t' & -> & W & Ht' & Ha & P); [done..|].
    cbn [mbind option_bind]. eexists _, t'. split; [done|]. split; [|done].
    by apply wf_lower_alarm_scan.
Qed.
End Wf.

(** ** The programmed interval *)

(** The hardware timer.  The interval computed for the one-shot timer is
    at least the minimum and at most the scheduler tick (or the minimum), and
    it never lets the earliest wait deadline or alarm pass by more than the
    minimum interval. *)
Theorem next_timer_interval_bounds MAX TPS s now :
  timers_wf MAX s -> 0 < MAX -> 10000 <= TPS -> 0 <= now ->
  now + SCHED_TICK_INTERVAL TPS < 18446744073709551616 ->
  let i := proc_next_timer_interval TPS s now in
  SCHED_MIN_TIMER_INTERVAL TPS <= i <= SCHED_TICK_INTERVAL TPS /\
  (forall e, e ∈ live (arr (wait_timer_heap s)) (cnt (wait_timer_heap s)) ->
     now + i <= Z.max (wt_deadline e) (now + SCHED_MIN_TIMER_INTERVAL TPS)) /\
  (forall e, e ∈ live (arr (alarm_timer_heap s)) (cnt (alarm_timer_heap s)) ->
     now + i <= Z.max (at_deadline e) (now + SCHED_MIN_TIMER_INTERVAL TPS)).
Proof.
  intros Hwf HM HT Hnow Hfit i.
  assert (1 <= SCHED_MIN_TIMER_INTERVAL TPS <= SCHED_TICK_INTERVAL TPS) as Hmt.
  { unfold SCHED_MIN_TIMER_INTERVAL, SCHED_TICK_INTERVAL, c_true.
    assert (1 <= TPS / 10000) by zlia. rewrite (proj2 (Z.eqb_neq _ 0)) by lia. cbn. zlia. }
  assert (SCHED_MIN_TIMER_INTERVAL TPS <= i <= SCHED_TICK_INTERVAL TPS /\
    now + i <= Z.max (next_wake_scan s) (now + SCHED_MIN_TIMER_INTERVAL TPS) /\
    now + i <= Z.max (next_alarm_scan s) (now + SCHED_MIN_TIMER_INTERVAL TPS)) as (H1 & H2 & H3).
  { subst i. unfold proc_next_timer_interval. rewrite u64_small by (unfold in_u64; lia).
    assert (forall a b, (if a <? b then a else b) = Z.min a b) as Hmin
      by (intros; split_if; reflect; lia).
    rewrite !Hmin. repeat split_if; reflect; lia. }
  split; [done|]. split; intros e He.
  - pose proof (tw_wake_scan _ _ Hwf) as Hw.
    pose proof (elem_dl _ _ _ _ (tw_wait _ _ Hwf) (tw_wait_order _ _ Hwf) He) as Hle.
    cbn in Hle. destruct (cnt (wait_timer_heap s) =? 0) eqn:Ec; reflect; [|lia].
    rewrite Ec in He. unfold live in He. rewrite take_0 in He. by apply not_elem_of_nil in He.
  - pose proof (elem_dl _ _ _ _ (tw_alarm _ _ Hwf) (tw_alarm_order _ _ Hwf) He) as Hle.
    cbn in Hle. pose proof (tw_alarm_scan _ _ Hwf) as Ha.
    pose proof (lk_count _ _ _ (tw_alarm _ _ Hwf)) as Hc.
    destruct (decide (cnt (alarm_timer_heap s) = 0)) as [Ec|]; [|specialize (Ha ltac:(lia)); lia].
    rewrite Ec in He. unfold live in He. rewrite take_0 in He. by apply not_elem_of_nil in He.
Qed.

(** ** Examples *)

(** A task with one reference of its own and no timer. *)
Definition demo_task : task_t :=
  {| state := PROC_RUNNING; refs := 1; dynamic_alloc := true; destroy_started := false;
     wake_time := 0; alarm_expire := 0; itimer_real_interval := 0; wait_seq := 5;
     wait_deadline := 700; wait_timer_index := -1; alarm_timer_index := -1;
     park_state := PROC_PARK_PREPARING; wait_mode := PROC_WAIT_INTERRUPTIBLE;
     wake_reason := PROC_WAKE_NONE; exit_pending := false; on_cpu := true; on_rq := false;
     dispatching := false; owner_cpu := 0; cpu_id := 0 |}.

Definition empty_timers (n : nat) (T : gmap nat task_t) : timers :=
  {| wait_timer_heap := {| arr := replicate n he_zero; cnt := 0 |};
     wait_timer_full_failures := 0; wait_timer_duplicate_rejections := 0;
     wait_timer_stale_expirations := 0;
     alarm_timer_heap := {| arr := replicate n he_zero; cnt := 0 |};
     next_wake_scan := SCHED_NO_DEADLINE; next_alarm_scan := SCHED_NO_DEADLINE;
     next_posix_scan := SCHED_NO_DEADLINE; tasks := T; intervals := [] |}.

Lemma empty_linked {E} `{HeapEntryLaws E} n T :
  (forall p t, T !! p = Some t -> ti_get (E := E) t < 0) ->
  linked (replicate n (he_zero (E := E))) 0 T.
Proof.
  intros Hno. constructor; [lia|lia|]. intros p t Ht Hge. specialize (Hno p t Ht). lia.
Qed.

Lemma empty_timers_wf n T :
  (forall p t, T !! p = Some t -> wait_timer_index t < 0 /\ alarm_timer_index t < 0 /\
     task_refs_ok 0 t) ->
  timers_wf (Z.of_nat n) (empty_timers n T).
Proof.
  intros HT.
  assert (linked (replicate n (he_zero (E := wait_timer))) 0 T) as Hw
    by (apply empty_linked; intros p t Ht; by destruct (HT p t Ht)).
  assert (linked (replicate n (he_zero (E := alarm_timer))) 0 T) as Ha
    by (apply empty_linked; intros p t Ht; by destruct (HT p t Ht) as (_ & ? & _)).
  constructor; try done; try (intros i Hi; cbn in Hi; lia);
    try (cbn; by rewrite length_replicate).
  intros p t Ht. by destruct (HT p t Ht) as (_ & _ & ?).
Qed.

Definition demo_timers : timers :=
  empty_timers 4 (<[1%nat := demo_task]> (<[2%nat := demo_task]> ∅)).

Lemma demo_timers_wf : timers_wf 4 demo_timers.
Proof.
  apply (empty_timers_wf 4). intros p t Ht.
  do 2 (apply lookup_insert_Some in Ht as [[_ <-]|[_ Ht]]; [done|]). done.
Qed.

(** Task 1 has armed a wait timer for tick 700. *)
Definition demo_armed : timers :=
  match proc_wait_timer_register_locked 4 1000000 0 demo_timers (Some 1%nat) 700 5 with
  | Some (s, _) => s
  | None => demo_timers
  end.

Lemma demo_armed_wf : timers_wf 4 demo_armed.
Proof.
  destruct (wait_register_ok 4 1000000 ltac:(lia) demo_timers 1%nat demo_task 700 5 0)
    as (s & E & W & _); try done; [apply demo_timers_wf|].
  unfold demo_armed. by rewrite E.
Qed.

Lemma wait_timer_register_correct_witness :
  exists s', let rc := register_rc 4 demo_armed demo_task 600 9 in
    proc_wait_timer_register_locked 4 1000000 0 demo_armed (Some 2%nat) 600 9 = Some (s', rc) /\
    timers_wf 4 s' /\
    if rc =? PROC_PARK_PREPARE_OK then
      live (arr (wait_timer_heap s')) (cnt (wait_timer_heap s'))
        ≡ₚ {| wt_deadline := 600; wt_task := Some 2%nat; wt_seq := 9 |}
           :: live (arr (wait_timer_heap demo_armed)) (cnt (wait_timer_heap demo_armed)) /\
      next_wake_scan s' = Z.min 600 (next_wake_scan demo_armed) /\
      intervals s' = (if 600 <? next_wake_scan demo_armed
        then [proc_next_timer_interval 1000000 s' 0] else []) ++ intervals demo_armed
    else wait_timer_heap s' = wait_timer_heap demo_armed /\ tasks s' = tasks demo_armed /\
         next_wake_scan s' = next_wake_scan demo_armed /\ intervals s' = intervals demo_armed.
Proof.
  apply (wait_timer_register_correct 4 1000000 ltac:(lia) demo_armed 2%nat demo_task 600 9 0).
  - apply demo_armed_wf.
  - vm_compute. reflexivity.
  - split; [discriminate|reflexivity].
  - reflexivity.
Defined.

Lemma wait_timer_cancel_correct_witness :
  exists s' t, tasks demo_armed !! 1%nat = Some t /\
    proc_wait_timer_cancel_locked demo_armed (Some 1%nat) 5 = Some s' /\ timers_wf 4 s' /\
    ((exists e, wt_task e = Some 1%nat /\ wt_seq e = 5 /\
        e :: live (arr (wait_timer_heap s')) (cnt (wait_timer_heap s'))
          ≡ₚ live (arr (wait_timer_heap demo_armed)) (cnt (wait_timer_heap demo_armed)) /\
        forall t', tasks s' !! 1%nat = Some t' ->
          wait_timer_index t' = -1 /\ wake_time t' = 0 /\ refs t' = refs t - 1) \/
     (forall e, e ∈ live (arr (wait_timer_heap demo_armed)) (cnt (wait_timer_heap demo_armed)) ->
        wt_task e = Some 1%nat -> wt_seq e <> 5) /\ s' = demo_armed).
Proof.
  destruct (wait_timer_cancel_correct 4 ltac:(lia) demo_armed 1%nat
    (demo_task {{ refs := 2; wait_timer_index := 0; wake_time := 700 }}) 5) as (s' & H).
  - apply demo_armed_wf.
  - vm_compute. reflexivity.
  - exists s'. eexists. split; [|exact H]. vm_compute. reflexivity.
Defined.

Lemma set_alarm_expire_correct_witness :
  exists s' t', proc_set_alarm_expire 4 1000000 0 demo_armed (Some 2%nat) 900 = Some s' /\
    timers_wf 4 s' /\ tasks s' !! 2%nat = Some t' /\
    let old := others 2 (live (arr (alarm_timer_heap demo_armed)) (cnt (alarm_timer_heap demo_armed))) in
    let fits := (0 <? 900) && (Z.of_nat (length old) <? 4) in
    alarm_expire t' = (if fits then 900 else 0) /\
    live (arr (alarm_timer_heap s')) (cnt (alarm_timer_heap s'))
      ≡ₚ (if fits then [{| at_deadline := 900; at_task := Some 2%nat |}] else []) ++ old.
Proof.
  apply (set_alarm_expire_correct 4 1000000 ltac:(lia) demo_armed 2%nat demo_task 900 0).
  - apply demo_armed_wf.
  - vm_compute. reflexivity.
  - reflexivity.
  - discriminate.
  - reflexivity.
Defined.

Lemma next_timer_interval_bounds_witness :
  let i := proc_next_timer_interval 1000000 demo_armed 650 in
  SCHED_MIN_TIMER_INTERVAL 1000000 <= i <= SCHED_TICK_INTERVAL 1000000 /\
  (forall e, e ∈ live (arr (wait_timer_heap demo_armed)) (cnt (wait_timer_heap demo_armed)) ->
     650 + i <= Z.max (wt_deadline e) (650 + SCHED_MIN_TIMER_INTERVAL 1000000)) /\
  (forall e, e ∈ live (arr (alarm_timer_heap demo_armed)) (cnt (alarm_timer_heap demo_armed)) ->
     650 + i <= Z.max (at_deadline e) (650 + SCHED_MIN_TIMER_INTERVAL 1000000)).
Proof.
  apply (next_timer_interval_bounds 4 1000000 demo_armed 650).
  - apply demo_armed_wf.
  - reflexivity.
  - discriminate.
  - discriminate.
  - reflexivity.
Defined.
