(* ===== verification/Park.v ===== *)
(** * The park/wake protocol (kernel/proc/park.c, park.h)

    prepare, commit, cancel, finish and the wake side, on top of the timer
    heap.  Each operation is one critical section under the task's park_lock
    (the sections of one operation are separate definitions where the lock is
    released in between).  The scheduler is seen through what this code asks
    of it: the runqueue insertion of a READY task, reschedule requests, and
    sched() itself, which is an argument.  [None] is a panic or a dereference
    of NULL or of a freed task. *)

From S2P Require Import Prelude Task TimerHeap.

Inductive event :=
| EvEnqueue (p : nat) (cpu : Z)
| EvRequestCpu (cpu : Z) (priority : bool).

Record sys := { tm : timers; evs : list event }.

Definition task_of (s : sys) (p : nat) : option task_t := tasks (tm s) !! p.

Definition set_task (s : sys) (p : nat) (t : task_t) : sys :=
  s {{ tm := (tm s) {{ tasks := <[p := t]> (tasks (tm s)) }} }}.

Definition emit (e : event) (s : sys) : sys := s {{ evs := e :: evs s }}.

Record proc_wait_token := { tok_task : option nat; tok_seq : Z; tok_error : Z }.

Definition proc_wait_token_none (err : Z) : proc_wait_token :=
  {| tok_task := None; tok_seq := 0; tok_error := err |}.

Definition PROC_WAKE_Q_CAPACITY : Z := 64.
Definition PROC_CPU_NONE : Z := 4294967295.

(** The remote-CPU and priority masks a caller may pass. *)
Definition masks := option (Z * Z).

Section Park.
Context (WAIT_TIMER_HEAP_MAX TICKS_PER_SEC CONFIG_NR_CPUS : Z).
(** The idle task, the executing CPU, and the scheduler's preemption test
    (a policy this code only asks). *)
Context (idle : nat) (cpu : Z) (should_preempt : sys -> nat -> Z -> bool).

Definition proc_wait_timer_register (ticks : Z) (s : sys) (p : nat) (deadline seq : Z)
  : option (sys * Z) :=
  '(m, rc) ← proc_wait_timer_register_locked WAIT_TIMER_HEAP_MAX TICKS_PER_SEC ticks
               (tm s) (Some p) deadline seq;
  Some (s {{ tm := m }}, rc).

Definition proc_wait_timer_cancel (s : sys) (p : nat) (seq : Z) : option sys :=
  m ← proc_wait_timer_cancel_locked (tm s) (Some p) seq;
  Some (s {{ tm := m }}).

(** The scheduler's debug assertion on one task, without the optional scan of
    the run queues (CONFIG_SCHED_MEMBERSHIP_CHECK is 0 by default). *)
Definition proc_sched_assert_task_locked (s : sys) (p : option nat) : option unit :=
  match p with
  | None => Some tt
  | Some p =>
      t ← task_of s p;
      if bool_decide (park_state t = PROC_PARK_PREPARING)
         && negb (bool_decide (state t = PROC_RUNNING)) && negb (bool_decide (state t = PROC_READY))
      then None
      else if bool_decide (park_state t = PROC_PARK_PARKED) && negb (bool_decide (state t = PROC_BLOCKED))
      then None
      else if on_rq t && (dispatching t || on_cpu t) then None
      else if dispatching t && on_cpu t then None
      else if dispatching t && negb (bool_decide (state t = PROC_READY)) then None
      else if negb (Bool.eqb (dispatching t || on_cpu t) (negb (owner_cpu t =? PROC_CPU_NONE))) then None
      else if (dispatching t || on_cpu t) && (CONFIG_NR_CPUS <=? owner_cpu t) then None
      else if bool_decide (state t = PROC_RUNNING) && negb (bool_decide (p = idle)) && negb (on_cpu t)
      then None
      else if bool_decide (state t = PROC_UNUSED) && (on_rq t || dispatching t || on_cpu t) then None
      else Some tt
  end.

(** Enqueue an unowned READY task; the runqueue itself is an event. *)
Definition proc_runq_enqueue_locked (s : sys) (p : nat) : option sys :=
  t ← task_of s p;
  if bool_decide (p = idle) || negb (bool_decide (state t = PROC_READY)) then Some s
  else
    let c := if cpu_id t <? CONFIG_NR_CPUS then cpu_id t else cpu in
    if on_rq t || dispatching t || on_cpu t then Some s
    else
      '(T, owned) ← proc_get (tasks (tm s)) p;
      if negb owned then Some s
      else
        t ← T !! p;
        Some (emit (EvEnqueue p c)
          (set_task s p (t {{ cpu_id := c; on_rq := true }}))).

(** The reschedule request after a task was queued. *)
Definition request_after_enqueue (s : sys) (p : nat) (m : masks) : option (sys * masks) :=
  t ← task_of s p;
  if on_rq t then
    let target_cpu := cpu_id t in
    let priority_preempt := should_preempt s p target_cpu in
    if negb (target_cpu =? cpu) then
      match m with
      | Some (remote, prio) =>
          if target_cpu <? 64 then
            let bit := u64 (Z.shiftl 1 target_cpu) in
            Some (s, Some (Z.lor remote bit,
                           if priority_preempt then Z.lor prio bit else prio))
          else Some (emit (EvRequestCpu target_cpu priority_preempt) s, m)
      | None => Some (emit (EvRequestCpu target_cpu priority_preempt) s, m)
      end
    else if priority_preempt then Some (emit (EvRequestCpu target_cpu true) s, m)
    else Some (s, m)
  else Some (s, m).

(** The part of a wake common to PREPARING and PARKED. *)
Definition wake_fields (reason : proc_wake_reason_t) (t : task_t) : task_t :=
  t {{ park_state := PROC_PARK_WOKEN; wake_reason := reason;
       wait_deadline := 0; wake_time := 0 }}.

Definition proc_try_wake_locked_common (s : sys) (p : option nat) (seq : Z)
    (reason : proc_wake_reason_t) (m : masks) : option (sys * masks * bool) :=
  match p with
  | None => Some (s, m, false)
  | Some p =>
      if seq =? 0 then Some (s, m, false)
      else
        t ← task_of s p;
        if negb (wait_seq t =? seq) || bool_decide (state t = PROC_UNUSED)
           || bool_decide (state t = PROC_ZOMBIE)
        then Some (s, m, false)
        else if bool_decide (reason = PROC_WAKE_SIGNAL)
                && negb (bool_decide (wait_mode t = PROC_WAIT_INTERRUPTIBLE))
        then Some (s, m, false)
        else if (bool_decide (reason = PROC_WAKE_FATAL_SIGNAL)
                 || bool_decide (reason = PROC_WAKE_TASK_EXIT))
                && bool_decide (wait_mode t = PROC_WAIT_UNINTERRUPTIBLE)
        then Some (s, m, false)
        else
          match park_state t with
          | PROC_PARK_PREPARING =>
              s ← proc_wait_timer_cancel s p seq;
              t ← task_of s p;
              Some (set_task s p (wake_fields reason t), m, true)
          | PROC_PARK_PARKED =>
              s ← proc_wait_timer_cancel s p seq;
              t ← task_of s p;
              let s := set_task s p ((wake_fields reason t) {{ state := PROC_READY }}) in
              s ← proc_runq_enqueue_locked s p;
              '(s, m) ← request_after_enqueue s p m;
              Some (s, m, true)
          | _ => Some (s, m, false)
          end
  end.

(** The tail of prepare: a signal or an exit that is already pending wakes the
    new token at once.  [fatal] and [unblocked] are signal_task_has_fatal()
    and signal_task_has_unblocked() of the task. *)
Definition prepare_pending (fatal unblocked : bool) (s : sys) (p : nat) (seq : Z)
    (mode : proc_wait_mode_t) : option sys :=
  t ← task_of s p;
  '(s, _, _) ←
    (if exit_pending t && negb (bool_decide (mode = PROC_WAIT_UNINTERRUPTIBLE))
     then proc_try_wake_locked_common s (Some p) seq PROC_WAKE_TASK_EXIT None
     else match mode with
     | PROC_WAIT_KILLABLE =>
         if fatal then proc_try_wake_locked_common s (Some p) seq PROC_WAKE_FATAL_SIGNAL None
         else Some (s, None, false)
     | PROC_WAIT_INTERRUPTIBLE =>
         if fatal then proc_try_wake_locked_common s (Some p) seq PROC_WAKE_FATAL_SIGNAL None
         else if unblocked
         then proc_try_wake_locked_common s (Some p) seq PROC_WAKE_SIGNAL None
         else Some (s, None, false)
     | PROC_WAIT_UNINTERRUPTIBLE => Some (s, None, false)
     end);
  Some s.

Definition proc_park_prepare_locked (ticks : Z) (fatal unblocked : bool) (s : sys)
    (current : option nat) (mode : proc_wait_mode_t) (deadline : Z)
  : option (sys * proc_wait_token) :=
  match current with
  | None => Some (s, proc_wait_token_none PROC_PARK_PREPARE_INVALID)
  | Some p =>
      if bool_decide (p = idle) then Some (s, proc_wait_token_none PROC_PARK_PREPARE_INVALID)
      else
        t ← task_of s p;
        if bool_decide (state t = PROC_UNUSED) || bool_decide (state t = PROC_ZOMBIE)
        then Some (s, proc_wait_token_none PROC_PARK_PREPARE_INVALID)
        else if negb (bool_decide (park_state t = PROC_PARK_IDLE))
        then Some (s, proc_wait_token_none PROC_PARK_PREPARE_INVALID)
        else
          let seq := u64 (wait_seq t + 1) in
          let seq := if seq =? 0 then u64 (seq + 1) else seq in
          let s := set_task s p (t {{ wait_seq := seq; wait_deadline := deadline;
                     wait_mode := mode; wake_reason := PROC_WAKE_NONE;
                     park_state := PROC_PARK_PREPARING }}) in
          '(s, timer_result) ← (if c_true deadline
             then proc_wait_timer_register ticks s p deadline seq
             else Some (s, PROC_PARK_PREPARE_OK));
          t ← task_of s p;
          if negb (timer_result =? PROC_PARK_PREPARE_OK) then
            Some (set_task s p (t {{ wait_deadline := 0; wake_time := 0;
                     wake_reason := PROC_WAKE_NONE;
                     wait_mode := PROC_WAIT_UNINTERRUPTIBLE;
                     park_state := PROC_PARK_IDLE }}),
                  proc_wait_token_none timer_result)
          else
            let token := {| tok_task := Some p; tok_seq := wait_seq t;
                            tok_error := PROC_PARK_PREPARE_OK |} in
            s ← prepare_pending fatal unblocked s p (tok_seq token) mode;
            Some (s, token)
  end.

Definition proc_park_prepare (ticks : Z) (fatal unblocked : bool) (s : sys)
    (current : option nat) (mode : proc_wait_mode_t) (deadline : Z)
  : option (sys * proc_wait_token) :=
  match current with
  | None => Some (s, proc_wait_token_none PROC_PARK_PREPARE_INVALID)
  | Some _ => proc_park_prepare_locked ticks fatal unblocked s current mode deadline
  end.

Definition proc_try_wake_locked (s : sys) (p : option nat) (seq : Z)
    (reason : proc_wake_reason_t) : option (sys * bool) :=
  '(s, _, woke) ← proc_try_wake_locked_common s p seq reason None;
  Some (s, woke).

(** proc_sched_request_cpu for each CPU of the mask. *)
Definition request_cpus (s : sys) (remote prio : Z) : sys :=
  fold_left (fun s c =>
    let c := Z.of_nat c in
    if Z.testbit remote c then emit (EvRequestCpu c (Z.testbit prio c)) s else s)
    (seq 0 (Z.to_nat (Z.min CONFIG_NR_CPUS 64))) s.

Definition proc_try_wake (s : sys) (p : option nat) (seq : Z) (reason : proc_wake_reason_t)
  : option (sys * bool) :=
  match p with
  | None => Some (s, false)
  | Some _ =>
      '(s, m, woke) ← proc_try_wake_locked_common s p seq reason (Some (0, 0));
      let '(remote, prio) := default (0, 0) m in
      Some (request_cpus s remote prio, woke)
  end.

Definition proc_interrupt_wait (s : sys) (p : option nat) (reason : proc_wake_reason_t)
  : option (sys * bool) :=
  match p with
  | None => Some (s, false)
  | Some q =>
      t ← task_of s q;
      proc_try_wake_locked s p (wait_seq t) reason
  end.

Definition proc_park_cancel (s : sys) (current : option nat) (tok : proc_wait_token)
  : option (sys * bool) :=
  match tok_task tok with
  | None => Some (s, false)
  | Some p =>
      if tok_seq tok =? 0 then Some (s, false)
      else
        t ← task_of s p;
        if bool_decide (current = Some p) && (wait_seq t =? tok_seq tok)
           && bool_decide (park_state t = PROC_PARK_PREPARING)
        then
          s ← proc_wait_timer_cancel s p (tok_seq tok);
          t ← task_of s p;
          Some (set_task s p (wake_fields PROC_WAKE_CANCEL t), true)
        else Some (s, false)
  end.

Definition proc_park_wake_reason_unlocked (s : sys) (p : nat) (seq : Z)
  : option proc_wake_reason_t :=
  t ← task_of s p;
  if negb (wait_seq t =? seq) then Some PROC_WAKE_CANCEL else Some (wake_reason t).

(** The locked part of commit: [Some reason] returns without scheduling,
    [None] has published PARKED and must call sched(). *)
Definition park_commit_publish (s : sys) (current : option nat) (p : nat) (seq : Z)
  : option (sys * option proc_wake_reason_t) :=
  t ← task_of s p;
  if negb (bool_decide (current = Some p)) || negb (wait_seq t =? seq)
  then Some (s, Some PROC_WAKE_CANCEL)
  else
    match park_state t with
    | PROC_PARK_WOKEN => Some (s, Some (wake_reason t))
    | PROC_PARK_PREPARING =>
        Some (set_task s p (t {{ park_state := PROC_PARK_PARKED; state := PROC_BLOCKED }}),
              None)
    | _ => Some (s, Some PROC_WAKE_CANCEL)
    end.

(** [sched] is the rest of the system while the task is off the CPU. *)
Definition proc_park_commit (sched : sys -> option sys) (s : sys) (current : option nat)
    (tok : proc_wait_token) : option (sys * proc_wake_reason_t) :=
  match tok_task tok with
  | None => Some (s, PROC_WAKE_CANCEL)
  | Some p =>
      if tok_seq tok =? 0 then Some (s, PROC_WAKE_CANCEL)
      else
        '(s, r) ← park_commit_publish s current p (tok_seq tok);
        match r with
        | Some reason => Some (s, reason)
        | None =>
            s ← sched s;
            reason ← proc_park_wake_reason_unlocked s p (tok_seq tok);
            Some (s, reason)
        end
  end.

Definition finish_fields (t : task_t) : task_t :=
  t {{ wait_deadline := 0; wake_time := 0; wait_mode := PROC_WAIT_UNINTERRUPTIBLE;
       wake_reason := PROC_WAKE_NONE; park_state := PROC_PARK_IDLE }}.

Definition proc_park_finish (s : sys) (tok : proc_wait_token) : option sys :=
  match tok_task tok with
  | None => Some s
  | Some p =>
      if tok_seq tok =? 0 then Some s
      else
        t ← task_of s p;
        if negb (wait_seq t =? tok_seq tok) then Some s
        else if negb (bool_decide (park_state t = PROC_PARK_WOKEN)) then Some s
        else if 0 <=? wait_timer_index t then
          s ← proc_wait_timer_cancel s p (tok_seq tok);
          t ← task_of s p;
          Some (set_task s p (finish_fields t))
        else Some (set_task s p (finish_fields t))
  end.

(** ** Time-slice donation *)

(** The target is fully parked on this CPU. *)
Definition donatable (d : task_t) : bool :=
  bool_decide (park_state d = PROC_PARK_PARKED) && bool_decide (state d = PROC_BLOCKED)
  && negb (on_cpu d) && negb (on_rq d) && negb (dispatching d) && (cpu_id d =? cpu).

(** The section under the target's park_lock: [true] when it was woken and
    must be switched to. *)
Definition park_donate_wake (s : sys) (q : nat) : option (sys * bool) :=
  d ← task_of s q;
  if negb (donatable d) then Some (s, false)
  else
    s ← proc_wait_timer_cancel s q (wait_seq d);
    d ← task_of s q;
    let s := set_task s q ((wake_fields PROC_WAKE_EVENT d) {{ state := PROC_READY }}) in
    '(T, _) ← proc_get (tasks (tm s)) q;
    d ← T !! q;
    Some (set_task s q (d {{ dispatching := true; owner_cpu := cpu }}), true).

(** [sched] and [context_switch] are the rest of the system while the task is
    off the CPU. *)
Definition proc_park_commit_donate (sched : sys -> option sys)
    (context_switch : nat -> sys -> option sys) (s : sys) (current : option nat)
    (tok : proc_wait_token) (donate_to : option nat)
  : option (sys * proc_wake_reason_t) :=
  match tok_task tok with
  | None => Some (s, PROC_WAKE_CANCEL)
  | Some p =>
      if tok_seq tok =? 0 then Some (s, PROC_WAKE_CANCEL)
      else
        '(s, r) ← park_commit_publish s current p (tok_seq tok);
        match r with
        | Some reason => Some (s, reason)
        | None =>
            can_donate ← (match donate_to with
                          | None => Some false
                          | Some q =>
                              if bool_decide (q = p) then Some false
                              else d ← task_of s q; Some (donatable d)
                          end);
            s ← (match donate_to with
                 | Some q =>
                     if (can_donate : bool) then
                       '(s, woke) ← park_donate_wake s q;
                       if (woke : bool) then context_switch q s else sched s
                     else sched s
                 | None => sched s
                 end);
            reason ← proc_park_wake_reason_unlocked s p (tok_seq tok);
            Some (s, reason)
        end
  end.

Definition proc_park_wait (sched : sys -> option sys) (ticks : Z) (fatal unblocked : bool)
    (s : sys) (current : option nat) (mode : proc_wait_mode_t) (deadline : Z)
  : option (sys * proc_wake_reason_t) :=
  '(s, token) ← proc_park_prepare ticks fatal unblocked s current mode deadline;
  match tok_task token with
  | None =>
      if tok_error token =? PROC_PARK_PREPARE_TIMEOUT_CAPACITY
      then Some (s, PROC_WAKE_TIMEOUT_CAPACITY) else Some (s, PROC_WAKE_CANCEL)
  | Some _ =>
      '(s, reason) ← proc_park_commit sched s current token;
      s ← proc_park_finish s token;
      Some (s, reason)
  end.

(** ** Wake queues *)

Record wake_q_item := { wq_task : nat; wq_seq : Z; wq_reason : proc_wake_reason_t }.

Definition proc_wake_q_init : list wake_q_item := [].

Definition proc_wake_q_add (q : list wake_q_item) (p : option nat) (seq : Z)
    (reason : proc_wake_reason_t) : list wake_q_item * bool :=
  match p with
  | None => (q, false)
  | Some p =>
      if (seq =? 0) || (PROC_WAKE_Q_CAPACITY <=? Z.of_nat (length q)) then (q, false)
      else (q ++ [{| wq_task := p; wq_seq := seq; wq_reason := reason |}], true)
  end.

(** The first loop: wake under each park_lock, collecting the masks. *)
Fixpoint wake_q_wake (s : sys) (q : list wake_q_item) (m : masks) (woke : Z)
  : option (sys * masks * Z) :=
  match q with
  | [] => Some (s, m, woke)
  | it :: rest =>
      '(s, m, w) ← proc_try_wake_locked_common s (Some (wq_task it)) (wq_seq it)
                     (wq_reason it) m;
      wake_q_wake s rest m (if (w : bool) then u32 (woke + 1) else woke)
  end.

(** The second loop: drop the references. *)
Fixpoint wake_q_put (s : sys) (q : list wake_q_item) : option sys :=
  match q with
  | [] => Some s
  | it :: rest =>
      T ← proc_put (tasks (tm s)) (wq_task it);
      wake_q_put (s {{ tm := (tm s) {{ tasks := T }} }}) rest
  end.

Definition proc_wake_q_flush (s : sys) (q : list wake_q_item) : option (sys * Z) :=
  match q with
  | [] => Some (s, 0)
  | _ =>
      '(s, m, woke) ← wake_q_wake s q (Some (0, 0)) 0;
      s ← wake_q_put s q;
      let '(remote, prio) := default (0, 0) m in
      Some (request_cpus s remote prio, woke)
  end.

(** ** Timer expiry (proc_sched_expire_wait_timers) *)

Record expired_t := { ex_task : nat; ex_seq : Z }.

(** The collecting loop under g_wait_timer_lock; it removes an entry per
    iteration, so [cnt] steps of fuel are enough ([None] otherwise). *)
Fixpoint expire_collect (fuel : nat) (s : timers) (now : Z) (acc : list expired_t)
  : option (timers * list expired_t) :=
  if c_true (cnt (wait_timer_heap s)) then
    d ← deadline_at (arr (wait_timer_heap s)) 0;
    if (d <=? now) && (Z.of_nat (length acc) <? 128) then
      match fuel with
      | O => None
      | S fuel' =>
          '(s, timer) ← wait_timer_remove_index_locked s 0;
          match wt_task timer with
          | Some p =>
              if c_true (wt_seq timer)
              then expire_collect fuel' s now
                     (acc ++ [{| ex_task := p; ex_seq := wt_seq timer |}])
              else T ← proc_put (tasks s) p;
                   expire_collect fuel' (s {{ tasks := T }}) now acc
          | None => expire_collect fuel' s now acc
          end
      end
    else Some (s, acc)
  else Some (s, acc).

(** The wake of one collected entry, under the target's park_lock. *)
Definition expire_deliver (s : sys) (x : expired_t) : option sys :=
  t ← task_of s (ex_task x);
  let stale := negb (wait_seq t =? ex_seq x) in
  '(s, _, woke) ← proc_try_wake_locked_common s (Some (ex_task x)) (ex_seq x)
                    PROC_WAKE_TIMEOUT None;
  let s := if negb woke && stale then
             s {{ tm := (tm s) {{ wait_timer_stale_expirations :=
                    u64 (wait_timer_stale_expirations (tm s) + 1) }} }}
           else s in
  T ← proc_put (tasks (tm s)) (ex_task x);
  Some (s {{ tm := (tm s) {{ tasks := T }} }}).

Fixpoint expire_deliver_all (s : sys) (xs : list expired_t) : option sys :=
  match xs with
  | [] => Some s
  | x :: rest => s ← expire_deliver s x; expire_deliver_all s rest
  end.

(** The do-while: a full batch asks for another round. *)
Fixpoint proc_sched_expire_wait_timers (fuel : nat) (s : sys) (now : Z) : option sys :=
  match fuel with
  | O => None
  | S fuel' =>
      '(m, expired) ← expire_collect (Z.to_nat (cnt (wait_timer_heap (tm s)))) (tm s) now [];
      s ← expire_deliver_all (s {{ tm := m }}) expired;
      if Z.of_nat (length expired) =? 128 then proc_sched_expire_wait_timers fuel' s now
      else Some s
  end.
End Park.
