(* ===== verification/ParkTheory.v ===== *)
(** * Correctness of the park/wake protocol

    The invariant that ties a task's park state to the wait-timer heap and to
    the expired timers on their way to the task, and what each critical
    section of [Park] does to it. *)

From S2P Require Import Prelude Task TimerHeap HeapTheory TimerTheory Park.

Definition entries (m : timers) : list wait_timer :=
  live (arr (wait_timer_heap m)) (cnt (wait_timer_heap m)).

Definition waiting (t : task_t) : Prop :=
  park_state t = PROC_PARK_PREPARING \/ park_state t = PROC_PARK_PARKED.

#[global] Instance waiting_dec t : Decision (waiting t).
Proof. unfold waiting. apply _. Defined.

(** The phase conditions the scheduler's debug assertions check, and that a
    woken task is not left blocked. *)
Definition phase_ok (t : task_t) : Prop :=
  match park_state t with
  | PROC_PARK_IDLE => True
  | PROC_PARK_PREPARING => state t = PROC_RUNNING \/ state t = PROC_READY
  | PROC_PARK_PARKED => state t = PROC_BLOCKED
  | PROC_PARK_WOKEN => wake_reason t <> PROC_WAKE_NONE /\ state t <> PROC_BLOCKED
  end.

(** [L] the heap entries, [F] the expired timers not yet delivered. *)
Record task_ok (L : list wait_timer) (F : list expired_t) (p : nat) (t : task_t) : Prop := {
  tk_entry : forall e, e ∈ L -> wt_task e = Some p ->
    waiting t /\ wt_seq e = wait_seq t /\ wt_deadline e = wait_deadline t;
  tk_armed : waiting t -> wait_deadline t <> 0 ->
    (exists e, e ∈ L /\ wt_task e = Some p) \/
    {| ex_task := p; ex_seq := wait_seq t |} ∈ F;
  tk_rest : ~ waiting t -> wait_deadline t = 0;
  tk_phase : phase_ok t;
  tk_seq : in_u64 (wait_seq t) /\ (waiting t -> wait_seq t <> 0);
  tk_alive : waiting t -> destroy_started t = false;
}.

Definition inflight (F : list expired_t) (p : nat) : Z :=
  Z.of_nat (length (filter (fun x => ex_task x = p) F)).

Section ParkInv.
Context (MAX : Z).

Record park_inv (F : list expired_t) (m : timers) : Prop := {
  pi_timers : timers_wf MAX m;
  pi_tasks : forall p t, tasks m !! p = Some t ->
    task_ok (entries m) F p t /\ task_refs_ok (inflight F p) t;
  pi_flight : forall x, x ∈ F -> ex_seq x <> 0 /\ is_Some (tasks m !! ex_task x);
}.

(** Only task [p] and its timer entry change. *)
Definition frame (p : nat) (m m' : timers) : Prop :=
  (forall q, q <> p ->
     match tasks m !! q, tasks m' !! q with
     | Some t, Some t' => exists i, t' = ti_set (E := wait_timer) i t
     | None, None => True
     | _, _ => False
     end) /\
  (forall e, wt_task e <> Some p -> e ∈ entries m' <-> e ∈ entries m).

Lemma frame_trans p m1 m2 m3 : frame p m1 m2 -> frame p m2 m3 -> frame p m1 m3.
Proof.
  intros [Ht He] [Ht' He']. split.
  - intros q Hq. specialize (Ht q Hq). specialize (Ht' q Hq).
    destruct (tasks m1 !! q), (tasks m2 !! q), (tasks m3 !! q); try done.
    destruct Ht as [i ->], Ht' as [j ->]. by exists j.
  - intros e Hn. by rewrite He', He.
Qed.

Lemma frame_refl p m : frame p m m.
Proof.
  split; [|done]. intros q _. destruct (tasks m !! q) as [t|]; [|done].
  exists (wait_timer_index t). by destruct t.
Qed.

Lemma frame_task p m T : (forall q, q <> p -> T !! q = tasks m !! q) ->
  frame p m (m {{ tasks := T }}).
Proof.
  intros HT. split; [|done]. intros q Hq. record.simp_goal. rewrite HT by done.
  destruct (tasks m !! q) as [t|]; [|done]. exists (wait_timer_index t). by destruct t.
Qed.

Lemma frame_insert p m t : frame p m (m {{ tasks := <[p := t]> (tasks m) }}).
Proof. apply frame_task. intros q Hq. by rewrite lookup_insert_ne by done. Qed.

(** A task has a slot exactly when it has an entry. *)
Lemma index_entry m p t : timers_wf MAX m -> tasks m !! p = Some t ->
  0 <= wait_timer_index t <-> exists e, e ∈ entries m /\ wt_task e = Some p.
Proof.
  intros Hwf Ht. split.
  - intros Hi. destruct (task_live _ _ _ _ _ (tw_wait _ _ Hwf) Ht Hi) as (e & He & Hp & _).
    by exists e.
  - intros (e & He & Hp).
    destruct (live_task _ _ _ _ _ (tw_wait _ _ Hwf) He Hp) as (t' & Ht' & Hr & _).
    rewrite Ht in Ht'. injection Ht' as <-. cbn in Hr. lia.
Qed.

(** Nothing in [task_ok] reads the index. *)
Lemma task_ok_index L L' F F' p t i :
  task_ok L F p t -> (forall e, wt_task e = Some p -> e ∈ L' <-> e ∈ L) ->
  (forall x, ex_task x = p -> x ∈ F' <-> x ∈ F) ->
  task_ok L' F' p (ti_set (E := wait_timer) i t).
Proof.
  intros Ht HL HF. destruct t. destruct Ht as [He Ha Hr Hp Hs Hd]. constructor.
  - intros e Hin Hp'. apply HL in Hin; [|done]. by apply He.
  - intros Hw Hdl. destruct (Ha Hw Hdl) as [(e & Hin & Hp')|Hin].
    + left. exists e. split; [by apply HL|done].
    + right. by apply HF.
  - exact Hr.
  - exact Hp.
  - exact Hs.
  - exact Hd.
Qed.

Lemma task_refs_index x t i : task_refs_ok x t ->
  (0 <= i <-> 0 <= wait_timer_index t) -> task_refs_ok x (ti_set (E := wait_timer) i t).
Proof.
  intros [Hh Hd] Hi. split; [|exact Hd]. enough (held (ti_set (E := wait_timer) i t) = held t) by
    (destruct t; cbn in *; lia).
  unfold held, c_bool. destruct t. cbn in *. repeat split_if; reflect; lia.
Qed.

Lemma inv_frame F F' p m m' :
  park_inv F m -> timers_wf MAX m' -> frame p m m' ->
  (forall x, ex_task x <> p -> x ∈ F' <-> x ∈ F) ->
  (forall q, q <> p -> inflight F' q = inflight F q) ->
  (forall t', tasks m' !! p = Some t' ->
     task_ok (entries m') F' p t' /\ task_refs_ok (inflight F' p) t') ->
  (forall x, x ∈ F' -> ex_task x = p -> ex_seq x <> 0 /\ is_Some (tasks m' !! p)) ->
  park_inv F' m'.
Proof.
  intros Hinv Hwf' [HT HL] HF Hn Hp Hfp. constructor; [done| |].
  - intros q t' Hq. destruct (decide (q = p)) as [->|Hne]; [by apply Hp|].
    specialize (HT q Hne). rewrite Hq in HT.
    destruct (tasks m !! q) as [t|] eqn:Ht; [|done]. destruct HT as [i ->].
    destruct (pi_tasks _ _ Hinv q t Ht) as [Hok Hr]. split.
    + eapply task_ok_index; [done| |].
      * intros e He. apply HL. congruence.
      * intros x Hx. apply HF. congruence.
    + rewrite Hn by done. apply task_refs_index; [done|].
      transitivity (exists e, e ∈ entries m' /\ wt_task e = Some q).
      * rewrite <- (index_entry m' q _ Hwf' Hq). by destruct t.
      * rewrite (index_entry m q t (pi_timers _ _ Hinv) Ht).
        split; intros (e & He & Hwt); exists e; (split; [|done]); apply HL; congruence.
  - intros x Hx. destruct (decide (ex_task x = p)) as [<-|Hne]; [by apply Hfp|].
    apply HF in Hx; [|done]. destruct (pi_flight _ _ Hinv x Hx) as [Hs [t Ht]].
    split; [done|]. specialize (HT _ Hne). rewrite Ht in HT.
    by destruct (tasks m' !! ex_task x).
Qed.
End ParkInv.

Lemma inflight_nonneg F p : 0 <= inflight F p.
Proof. unfold inflight. lia. Qed.

Lemma task_refs_weaken x y t : y <= x -> task_refs_ok x t -> task_refs_ok y t.
Proof. intros Hle [H1 H2]. split; [lia|done]. Qed.

Section ParkOps.
Context (MAX TPS NR : Z) (MAX_ok : 0 < MAX <= 2147483646).
Context (idle : nat) (cpu : Z) (should_preempt : sys -> nat -> Z -> bool).
Abbreviation inv := (park_inv MAX).
Abbreviation wake := (proc_try_wake_locked_common NR idle cpu should_preempt).

(** The last change of an operation on task [p]. *)
Lemma inv_update F m m1 p t1 t2 :
  inv F m -> timers_wf MAX m1 -> frame p m m1 -> tasks m1 !! p = Some t1 ->
  wait_timer_index t2 = wait_timer_index t1 -> alarm_timer_index t2 = alarm_timer_index t1 ->
  task_refs_ok (inflight F p) t2 -> task_ok (entries m1) F p t2 ->
  inv F (m1 {{ tasks := <[p := t2]> (tasks m1) }}).
Proof.
  intros Hinv Hwf Hf Ht Hw Ha Hr Hok. pose proof (inflight_nonneg F p).
  eapply (inv_frame MAX F F p m); [done| |by eapply frame_trans; [|apply frame_insert]|done..| |].
  - eapply wf_update_task; [done..|]. eapply task_refs_weaken; [|done]. lia.
  - intros t' Ht'. record.simp_hyps. rewrite lookup_insert_eq in Ht'. by injection Ht' as <-.
  - intros x Hx <-. split; [by apply (pi_flight _ _ _ Hinv)|].
    record.simp_goal. rewrite lookup_insert_eq. by eexists.
Qed.

(** The entry of a waiting task carries its current sequence number, so
    cancelling with that number leaves no entry of the task. *)
Lemma cancel_waiting F m p t : inv F m -> tasks m !! p = Some t -> waiting t ->
  exists m' i w r, proc_wait_timer_cancel_locked m (Some p) (wait_seq t) = Some m' /\
    timers_wf MAX m' /\ frame p m m' /\
    tasks m' !! p = Some (t {{ wait_timer_index := i; wake_time := w; refs := r }}) /\
    i < 0 /\ r <= refs t /\
    task_refs_ok (inflight F p) (t {{ wait_timer_index := i; wake_time := w; refs := r }}) /\
    forall e, e ∈ entries m' -> wt_task e <> Some p.
Proof.
  intros Hinv Ht Hw. pose proof (pi_timers _ _ _ Hinv) as Hwf.
  destruct (pi_tasks _ _ _ Hinv p t Ht) as [Hok Hr].
  destruct (wait_cancel_ok MAX MAX_ok m p t (wait_seq t) Hwf Ht) as
    [(e & He & Hge & Hs & h & T & first & t' & u & E & W & Hc & P & I & Hu & Hi & HT)|[Hno E]].
  - pose proof (I p) as Ip. rewrite Ht, Hu in Ip. destruct Ip as [j ->].
    change (j = -1) in Hi. subst j.
    assert (T = <[p := t {{ wait_timer_index := -1; wake_time := 0; refs := refs t - 1 }}]> u) as ->.
    { destruct HT as [->|[_ Hr1]]; [by destruct t|]. exfalso.
      pose proof (tk_alive _ _ _ _ Hok Hw) as Hd. destruct Hr as [Hh _].
      pose proof (inflight_nonneg F p). change (refs t = 1) in Hr1.
      revert Hh. unfold held. rewrite Hd, (proj2 (Z.leb_le 0 _) Hge). unfold c_bool. cbn.
      split_if; lia. }
    eexists _, (-1), 0, (refs t - 1). split; [done|]. split; [done|].
    assert (wt_task e = Some p) as Hep.
    { destruct (lk_task _ _ _ (tw_wait _ _ Hwf) p t Ht Hge) as (_ & e' & He' & Hp). cbn in He', Hp.
      congruence. }
    split; [split|].
    + intros q Hq. record.simp_goal. rewrite lookup_insert_ne by done. apply (I q).
    + intros x Hx. unfold entries. record.simp_goal. rewrite <- P, elem_of_cons.
      split; [by right|]. intros [->|]; [congruence|done].
    + record.simp_goal. rewrite lookup_insert_eq. split; [done|]. split; [lia|]. split; [lia|].
      split.
      * destruct Hr as [Hh Hd]. split; [|exact Hd]. revert Hh. unfold held.
        rewrite (proj2 (Z.leb_le 0 _) Hge). destruct t. cbn. lia.
      * intros x Hx Hxp. pose proof (lookup_insert_eq u p
          (t {{ wait_timer_index := -1; wake_time := 0; refs := refs t - 1 }})) as Hl.
        pose proof (proj2 (index_entry MAX _ p _ W Hl) (ex_intro _ x (conj Hx Hxp))) as Hi.
        change (0 <= -1) in Hi. lia.
  - exists m, (wait_timer_index t), (wake_time t), (refs t). split; [done|]. split; [done|].
    split; [apply frame_refl|].
    assert (t {{ wait_timer_index := wait_timer_index t; wake_time := wake_time t;
                 refs := refs t }} = t) as -> by (by destruct t).
    assert (forall e, e ∈ entries m -> wt_task e <> Some p) as Hnone.
    { intros e He Hp. apply Hno.
      destruct (live_task _ _ _ _ _ (tw_wait _ _ Hwf) He Hp) as (t' & Ht' & Hr' & Hrd).
      rewrite Ht in Ht'. injection Ht' as <-. cbn in Hr', Hrd. split; [lia|].
      exists e. split; [done|]. by apply (tk_entry _ _ _ _ Hok). }
    split; [done|]. split; [|split_and!; [lia|done..]].
    apply Z.nle_gt. rewrite (index_entry MAX m p t Hwf Ht). intros (e & He & Hp). by eapply Hnone.
Qed.

(** ** Waking *)

Lemma and4_snoc (A B C D E : Prop) : A /\ B /\ C /\ D -> E -> A /\ B /\ C /\ D /\ E.
Proof. tauto. Qed.

(** What the scheduler knows of who runs the task. *)
Definition same_run (t t' : task_t) : Prop :=
  on_rq t' = on_rq t /\ dispatching t' = dispatching t /\ on_cpu t' = on_cpu t /\
  owner_cpu t' = owner_cpu t.

(** A wake leaves it, or puts an unowned task that was parked on a run queue. *)
Definition queue_run (t t' : task_t) : Prop :=
  same_run t t' \/
  park_state t = PROC_PARK_PARKED /\ dispatching t = false /\ on_cpu t = false /\
  on_rq t' = true /\ dispatching t' = false /\ on_cpu t' = false /\ owner_cpu t' = owner_cpu t.

Lemma enqueue_ok s p t : task_of s p = Some t -> state t = PROC_READY ->
  1 <= refs t < 2147483647 ->
  exists r c o es, proc_runq_enqueue_locked NR idle cpu s p
    = Some {| tm := (tm s) {{ tasks := <[p := t {{ refs := r; cpu_id := c; on_rq := o }}]>
                                (tasks (tm s)) }}; evs := es |} /\
    refs t <= r <= refs t + 1 /\ (p <> idle -> o || dispatching t || on_cpu t = true) /\
    (o = on_rq t \/ o = true /\ dispatching t = false /\ on_cpu t = false).
Proof.
  intros Ht Hst Hr.
  assert (s = {| tm := (tm s) {{ tasks := <[p := t {{ refs := refs t; cpu_id := cpu_id t;
     on_rq := on_rq t }}]> (tasks (tm s)) }}; evs := evs s |}) as Hs.
  { assert (t {{ refs := refs t; cpu_id := cpu_id t; on_rq := on_rq t }} = t) as ->
      by (by destruct t). unfold task_of in Ht. rewrite insert_id by done. by destruct s as [[]]. }
  unfold proc_runq_enqueue_locked. rewrite Ht. cbn [mbind option_bind].
  rewrite (bool_decide_eq_true_2 (state t = PROC_READY)) by done. cbn [negb]. rewrite orb_false_r.
  case_bool_decide as Hp.
  { exists (refs t), (cpu_id t), (on_rq t), (evs s). rewrite <- Hs. split; [done|]. split; [lia|by auto]. }
  destruct (on_rq t || dispatching t || on_cpu t) eqn:Eo.
  { exists (refs t), (cpu_id t), (on_rq t), (evs s). rewrite <- Hs. split; [done|]. split; [lia|]. rewrite Eo. by auto. }
  unfold proc_get. unfold task_of in Ht. rewrite Ht. cbn [mbind option_bind].
  rewrite (proj2 (Z.eqb_neq (refs t) 0)), s32_small by lia. cbn [mbind option_bind negb].
  rewrite lookup_insert_eq. cbn [mbind option_bind].
  apply orb_false_iff in Eo as [[_ Ed]%orb_false_iff Ec].
  eexists (refs t + 1), _, true, _. split; [|split; [lia|by auto]]. by destruct s as [[]].
Qed.

(** The wake guards as one test. *)
Definition can_wake (t : task_t) (seq : Z) (reason : proc_wake_reason_t) : bool :=
  negb (seq =? 0) && (wait_seq t =? seq)
  && negb (bool_decide (state t = PROC_UNUSED)) && negb (bool_decide (state t = PROC_ZOMBIE))
  && negb (bool_decide (reason = PROC_WAKE_SIGNAL)
           && negb (bool_decide (wait_mode t = PROC_WAIT_INTERRUPTIBLE)))
  && negb ((bool_decide (reason = PROC_WAKE_FATAL_SIGNAL)
            || bool_decide (reason = PROC_WAKE_TASK_EXIT))
           && bool_decide (wait_mode t = PROC_WAIT_UNINTERRUPTIBLE))
  && bool_decide (waiting t).

(** What a successful wake does to its task. *)
Record woken (p : nat) (reason : proc_wake_reason_t) (t t' : task_t) : Prop := {
  wk_park : park_state t' = PROC_PARK_WOKEN;
  wk_reason : wake_reason t' = reason;
  wk_seq : wait_seq t' = wait_seq t;
  wk_mode : wait_mode t' = wait_mode t;
  wk_deadline : wait_deadline t' = 0;
  wk_index : wait_timer_index t' < 0;
  wk_alive : destroy_started t' = destroy_started t;
  wk_state : state t' = if bool_decide (park_state t = PROC_PARK_PARKED) then PROC_READY else state t;
  wk_refs : refs t' <= refs t + 1;
  wk_queued : park_state t = PROC_PARK_PARKED -> p <> idle ->
    on_rq t' || dispatching t' || on_cpu t' = true;
}.

(** A woken task without an entry satisfies the invariant. *)
Lemma woken_ok L F p reason t t' :
  task_ok L F p t -> waiting t -> woken p reason t t' -> reason <> PROC_WAKE_NONE ->
  forall L', (forall e, e ∈ L' -> wt_task e <> Some p) -> task_ok L' F p t'.
Proof.
  intros Hok Hw [] Hne L' Hno. assert (~ waiting t') as Hn by (unfold waiting; by rewrite wk_park0; intros [|]).
  constructor.
  - intros e He Hp. by destruct (Hno e He).
  - done.
  - done.
  - unfold phase_ok. rewrite wk_park0, wk_reason0, wk_state0. split; [done|].
    pose proof (tk_phase _ _ _ _ Hok) as Hph. unfold phase_ok in Hph.
    destruct Hw as [Hw|Hw]; rewrite Hw in *; case_bool_decide; try done.
    by destruct Hph as [->| ->].
  - split; [|done]. rewrite wk_seq0. apply Hok.
  - done.
Qed.

Lemma request_after_enqueue_ok s p t m : task_of s p = Some t ->
  exists es m', request_after_enqueue cpu should_preempt s p m
    = Some ({| tm := tm s; evs := es |}, m').
Proof.
  intros Ht. unfold request_after_enqueue. rewrite Ht. cbn [mbind option_bind].
  repeat case_match; destruct s; eauto.
Qed.

Lemma task_refs_fields x t t' : task_refs_ok x t ->
  wait_timer_index t' = wait_timer_index t -> alarm_timer_index t' = alarm_timer_index t ->
  destroy_started t' = destroy_started t -> dynamic_alloc t' = dynamic_alloc t ->
  refs t <= refs t' -> task_refs_ok x t'.
Proof. intros [Hh Hd] E1 E2 E3 E4 Hr. unfold task_refs_ok, held. rewrite E1, E2, E3, E4. split; [|done]. unfold held in Hh. lia. Qed.

(** After the timer is cancelled, the fields of a wake establish the invariant. *)
Lemma wake_done F m m1 p t t1 t2 reason :
  inv F m -> tasks m !! p = Some t -> waiting t -> reason <> PROC_WAKE_NONE ->
  timers_wf MAX m1 -> frame p m m1 -> tasks m1 !! p = Some t1 ->
  task_refs_ok (inflight F p) t1 -> (forall e, e ∈ entries m1 -> wt_task e <> Some p) ->
  woken p reason t t2 ->
  wait_timer_index t2 = wait_timer_index t1 -> alarm_timer_index t2 = alarm_timer_index t1 ->
  destroy_started t2 = destroy_started t1 -> dynamic_alloc t2 = dynamic_alloc t1 ->
  refs t1 <= refs t2 ->
  let m2 := m1 {{ tasks := <[p := t2]> (tasks m1) }} in
  inv F m2 /\ frame p m m2 /\ tasks m2 !! p = Some t2 /\ woken p reason t t2.
Proof.
  intros Hinv Ht Hw Hne Hwf1 Hf Ht1 Hr1 Hno Hwk E1 E2 E3 E4 Hr m2.
  destruct (pi_tasks _ _ _ Hinv p t Ht) as [Hok _]. split_and!; [..|done].
  - eapply (inv_update F m m1 p t1 t2); [done..| |].
    + by eapply task_refs_fields.
    + by eapply woken_ok.
  - eapply frame_trans; [done|apply frame_insert].
  - apply lookup_insert_eq.
Qed.

Lemma refs_alive x t : task_refs_ok x t -> 0 <= x -> destroy_started t = false -> 1 <= refs t.
Proof. intros [Hh _] Hx Hd. revert Hh. unfold held. rewrite Hd. unfold c_bool. repeat split_if; lia. Qed.

Lemma wake_ok F s p t seq reason m :
  inv F (tm s) -> task_of s p = Some t -> reason <> PROC_WAKE_NONE -> refs t < 2147483647 ->
  if can_wake t seq reason then
    exists s' m' t', wake s (Some p) seq reason m = Some (s', m', true) /\
      inv F (tm s') /\ frame p (tm s) (tm s') /\ task_of s' p = Some t' /\ woken p reason t t' /\
      queue_run t t'
  else wake s (Some p) seq reason m = Some (s, m, false).
Proof.
  intros Hinv Ht Hne Hr. unfold can_wake, proc_try_wake_locked_common.
  destruct (seq =? 0) eqn:E0; [done|]. cbn [negb andb]. rewrite Ht. cbn [mbind option_bind].
  destruct (wait_seq t =? seq) eqn:Es; [|done]. cbn [negb andb orb].
  destruct (bool_decide (state t = PROC_UNUSED)); [done|]. cbn [negb andb orb].
  destruct (bool_decide (state t = PROC_ZOMBIE)); [done|]. cbn [negb andb orb].
  destruct (bool_decide (reason = PROC_WAKE_SIGNAL)
    && negb (bool_decide (wait_mode t = PROC_WAIT_INTERRUPTIBLE))); [done|]. cbn [negb andb].
  destruct ((bool_decide (reason = PROC_WAKE_FATAL_SIGNAL)
    || bool_decide (reason = PROC_WAKE_TASK_EXIT))
    && bool_decide (wait_mode t = PROC_WAIT_UNINTERRUPTIBLE)); [done|]. cbn [negb andb].
  case_bool_decide as Hw.
  2: { unfold waiting in Hw. destruct (park_state t); [done|tauto..|done]. }
  reflect. subst seq. destruct (pi_tasks _ _ _ Hinv p t Ht) as [Hok Hrefs].
  destruct (cancel_waiting F (tm s) p t Hinv Ht Hw) as
    (m1 & i & w & r & E1 & Hwf1 & Hf1 & Ht1 & Hi & Hrr & Hr1 & Hno).
  unfold proc_wait_timer_cancel. rewrite E1. cbn [mbind option_bind]. unfold task_of at 1 2.
  record.simp_goal. rewrite !Ht1. cbn [mbind option_bind].
  set (t1 := t {{ wait_timer_index := i; wake_time := w; refs := r }}) in *.
  pose proof (refs_alive _ _ Hr1 (inflight_nonneg F p) (tk_alive _ _ _ _ Hok Hw)) as Hr1'.
  change (refs t1) with r in Hr1'. pose proof Hw as [Hpk|Hpk]; rewrite Hpk.
  - eexists _, _, (wake_fields reason t1). split; [done|]. apply and4_snoc; [|by left].
    apply (wake_done F (tm s) m1 p t t1 _ reason); try done.
    constructor; try done; [by rewrite Hpk|change (r <= refs t + 1); lia|congruence].
  - set (s2 := set_task _ _ _). set (t2 := (wake_fields reason t1) {{ state := PROC_READY }}) in s2.
    assert (task_of s2 p = Some t2) as Ht2 by apply lookup_insert_eq.
    destruct (enqueue_ok s2 p t2) as (r' & c & o & es & -> & Hr' & Ho & Hrun); [done..|change (1 <= r < 2147483647); lia|].
    cbn [mbind option_bind]. set (t3 := t2 {{ refs := r'; cpu_id := c; on_rq := o }}).
    set (s3 := {| tm := _; evs := _ |}).
    destruct (request_after_enqueue_ok s3 p t3 m) as (es' & m' & ->); [apply lookup_insert_eq|].
    cbn [mbind option_bind]. eexists _, _, t3. split; [done|].
    assert (tm s3 = m1 {{ tasks := <[p := t3]> (tasks m1) }}) as Es3.
    { subst s3 s2. cbn. by rewrite insert_insert_eq. }
    cbn [tm]. unfold task_of. cbn [tm]. rewrite Es3.
    change (refs t2) with r in Hr'.
    apply and4_snoc.
    2: { destruct Hrun as [->|(-> & Hdi & Hoc)]; [by left|right]. by repeat split. }
    apply (wake_done F (tm s) m1 p t t1 t3 reason); try done; [|change (r <= r'); lia].
    constructor; try done; [by rewrite bool_decide_eq_true_2|change (r' <= refs t + 1); lia].
Qed.

(** ** Preparing *)

Definition next_seq (seq : Z) : Z :=
  if u64 (seq + 1) =? 0 then u64 (u64 (seq + 1) + 1) else u64 (seq + 1).

Lemma next_seq_ok seq : in_u64 seq ->
  in_u64 (next_seq seq) /\ next_seq seq <> 0 /\ next_seq seq <> seq.
Proof.
  unfold next_seq, in_u64. intros Hs. destruct (decide (seq = U64_MAX)) as [->|Hne].
  - by vm_compute.
  - unfold U64_MAX in Hne. rewrite u64_small by (unfold in_u64; lia).
    rewrite (proj2 (Z.eqb_neq _ _)) by lia. lia.
Qed.

(** The task between the publication of PREPARING and the pending checks. *)
Definition preparing (deadline : Z) (mode : proc_wait_mode_t) (t : task_t) : task_t :=
  t {{ wait_seq := next_seq (wait_seq t); wait_deadline := deadline;
       wait_mode := mode; wake_reason := PROC_WAKE_NONE;
       park_state := PROC_PARK_PREPARING }}.

Lemma no_entry L F p t : task_ok L F p t -> ~ waiting t ->
  forall e, e ∈ L -> wt_task e <> Some p.
Proof. intros Hok Hn e He Hp. by destruct (tk_entry _ _ _ _ Hok e He Hp). Qed.

Lemma preparing_ok L' F p t deadline mode :
  in_u64 (wait_seq t) -> state t = PROC_RUNNING -> destroy_started t = false ->
  (forall e, e ∈ L' -> wt_task e = Some p ->
     wt_seq e = next_seq (wait_seq t) /\ wt_deadline e = deadline) ->
  (deadline <> 0 -> exists e, e ∈ L' /\ wt_task e = Some p) ->
  task_ok L' F p (preparing deadline mode t).
Proof.
  intros Hu Hst Hd Hent Harm. destruct (next_seq_ok (wait_seq t) Hu) as (H1 & H2 & _).
  constructor.
  - intros e He Hp. destruct (Hent e He Hp). split; [by left|done].
  - intros _ Hdl. left. by apply Harm.
  - intros Hn. destruct Hn. by left.
  - by left.
  - done.
  - done.
Qed.

Lemma idle_ok L F p t : (forall e, e ∈ L -> wt_task e <> Some p) ->
  park_state t = PROC_PARK_IDLE -> wait_deadline t = 0 -> in_u64 (wait_seq t) -> task_ok L F p t.
Proof.
  intros Hno Hpk Hdl Hu. assert (~ waiting t) by (unfold waiting; rewrite Hpk; by intros [|]).
  constructor; try done.
  - intros e He Hp. by destruct (Hno e He).
  - unfold phase_ok. by rewrite Hpk.
Qed.

(** Registration of the deadline of a task that is not waiting. *)
Lemma prepare_register_ok F s p t deadline mode ticks :
  inv F (tm s) -> task_of s p = Some t -> ~ waiting t -> state t = PROC_RUNNING ->
  destroy_started t = false -> refs t < 2147483646 -> in_u64 deadline -> deadline <> 0 ->
  let s1 := set_task s p (preparing deadline mode t) in
  if MAX <=? cnt (wait_timer_heap (tm s)) then
    exists s2, proc_wait_timer_register MAX TPS ticks s1 p deadline (next_seq (wait_seq t))
      = Some (s2, PROC_PARK_PREPARE_TIMEOUT_CAPACITY) /\
    timers_wf MAX (tm s2) /\ frame p (tm s) (tm s2) /\ entries (tm s2) = entries (tm s) /\
    task_of s2 p = Some (preparing deadline mode t)
  else
    exists s2 i, proc_wait_timer_register MAX TPS ticks s1 p deadline (next_seq (wait_seq t))
      = Some (s2, PROC_PARK_PREPARE_OK) /\
    inv F (tm s2) /\ frame p (tm s) (tm s2) /\
    task_of s2 p = Some ((preparing deadline mode t)
      {{ refs := refs t + 1; wake_time := deadline; wait_timer_index := i }}).
Proof.
  intros Hinv Ht Hn Hst Hd Hr Hdl Hdl0 s1.
  pose proof (pi_timers _ _ _ Hinv) as Hwf. destruct (pi_tasks _ _ _ Hinv p t Ht) as [Hok Hrefs].
  pose proof (inflight_nonneg F p) as Hf0.
  destruct (next_seq_ok (wait_seq t)) as (_ & Hs0 & _); [apply Hok|].
  assert (wait_timer_index t < 0) as Hidx.
  { apply Z.nle_gt. rewrite (index_entry MAX _ p t Hwf Ht). intros (e & He & Hp).
    by eapply no_entry. }
  assert (timers_wf MAX (tm s1)) as Hwf1.
  { apply (wf_update_task MAX (tm s) p t (preparing deadline mode t) Hwf Ht); [done..|].
    eapply task_refs_weaken; [exact Hf0|]. by eapply task_refs_fields. }
  assert (tasks (tm s1) !! p = Some (preparing deadline mode t)) as Ht1 by apply lookup_insert_eq.
  assert (frame p (tm s) (tm s1)) as Hf1 by apply frame_insert.
  pose proof (refs_alive _ _ Hrefs Hf0 Hd) as Hr1.
  unfold proc_wait_timer_register.
  destruct (MAX <=? cnt (wait_timer_heap (tm s))) eqn:Ecap.
  - unfold proc_wait_timer_register_locked.
    rewrite (proj2 (Z.eqb_neq deadline 0)), (proj2 (Z.eqb_neq _ 0) Hs0), Ht1 by done.
    cbn [orb mbind option_bind].
    change (wait_timer_index (preparing deadline mode t)) with (wait_timer_index t).
    change (wait_timer_heap (tm s1)) with (wait_timer_heap (tm s)).
    rewrite (proj2 (Z.leb_gt _ _)), Ecap by done. cbn [mbind option_bind].
    eexists. split; [done|]. split; [by destruct Hwf1|]. done.
  - reflect. destruct (wait_register_ok MAX TPS MAX_ok (tm s1) p (preparing deadline mode t) deadline
      (next_seq (wait_seq t)) ticks) as (m2 & -> & Hwf2 & P & _ & _ & _ & I);
      [done..|change (refs t <> 0); lia|change (refs t < 2147483647); lia|].
    cbn [mbind option_bind].
    pose proof (I p) as Ip. rewrite lookup_insert_eq in Ip.
    destruct (tasks m2 !! p) as [t2|] eqn:Ht2; [|done]. destruct Ip as [i ->].
    assert (frame p (tm s1) m2) as Hf2.
    { split.
      - intros q Hq. specialize (I q). by rewrite lookup_insert_ne in I by done.
      - intros e He. unfold entries. rewrite P, elem_of_cons. split; [|by right].
        intros [->|]; done. }
    pose proof (frame_trans _ _ _ _ Hf1 Hf2) as Hf.
    exists (s1 {{ tm := m2 }}), i. split; [done|]. split; [|by destruct t].
    eapply (inv_frame MAX F F p (tm s)); [done..| |].
    + intros t' Ht'. change (tasks m2 !! p = Some t') in Ht'. rewrite Ht2 in Ht'.
      assert (t' = preparing deadline mode
        (t {{ refs := refs t + 1; wake_time := deadline; wait_timer_index := i }})) as ->
        by (apply (inj Some) in Ht'; subst t'; by destruct t).
      split.
      *         assert (forall e, e ∈ entries m2 -> wt_task e = Some p -> e =
          {| wt_deadline := deadline; wt_task := Some p; wt_seq := next_seq (wait_seq t) |}) as Hown.
        { intros e He Hp. unfold entries in He. rewrite P, elem_of_cons in He.
          destruct He as [He|He]; [done|]. by destruct (no_entry _ _ _ _ Hok Hn e He). }
        apply preparing_ok; [apply Hok|exact Hst|exact Hd| |].
        -- intros e He Hp. by rewrite (Hown e He Hp).
        -- intros _. eexists. unfold entries. rewrite P. split; [by apply elem_of_cons; left|done].
      * destruct Hrefs as [Hh Hdd]. split; [|exact Hdd]. revert Hh. clear - Hidx.
        unfold held, c_bool. destruct t. cbn in *. repeat split_if; reflect; lia.
    + intros x Hx <-. split; [by apply (pi_flight _ _ _ Hinv)|by eexists].
Qed.

(** What is already pending when the wait is prepared. *)
Definition pending_reason (t : task_t) (mode : proc_wait_mode_t) (fatal unblocked : bool)
  : option proc_wake_reason_t :=
  if exit_pending t && negb (bool_decide (mode = PROC_WAIT_UNINTERRUPTIBLE))
  then Some PROC_WAKE_TASK_EXIT
  else match mode with
  | PROC_WAIT_KILLABLE => if fatal then Some PROC_WAKE_FATAL_SIGNAL else None
  | PROC_WAIT_INTERRUPTIBLE =>
      if fatal then Some PROC_WAKE_FATAL_SIGNAL
      else if unblocked then Some PROC_WAKE_SIGNAL else None
  | PROC_WAIT_UNINTERRUPTIBLE => None
  end.

(** The task after a prepare that returned a token. *)
Record prepared (t t' : task_t) (mode : proc_wait_mode_t) (deadline : Z)
    (pending : option proc_wake_reason_t) : Prop := {
  pr_seq : wait_seq t' = next_seq (wait_seq t);
  pr_mode : wait_mode t' = mode;
  pr_state : state t' = PROC_RUNNING;
  pr_alive : destroy_started t' = false;
  pr_run : same_run t t';
  pr_phase : match pending with
    | None => park_state t' = PROC_PARK_PREPARING /\ wait_deadline t' = deadline /\
              wake_reason t' = PROC_WAKE_NONE /\ refs t' <= refs t + 1
    | Some r => park_state t' = PROC_PARK_WOKEN /\ wake_reason t' = r
    end;
}.

(** The pending checks, from the PREPARING state. *)
Lemma prepare_pending_ok F s p t0 t mode deadline (fatal unblocked : bool) :
  inv F (tm s) -> task_of s p = Some t -> refs t < 2147483647 ->
  prepared t0 t mode deadline None -> in_u64 (wait_seq t0) ->
  exists s' t',
    prepare_pending NR idle cpu should_preempt fatal unblocked s p (wait_seq t) mode = Some s' /\
    inv F (tm s') /\ frame p (tm s) (tm s') /\ task_of s' p = Some t' /\
    prepared t0 t' mode deadline (pending_reason t mode fatal unblocked).
Proof.
  intros Hinv Ht Hr [Hseq Hmode Hst Hd Hrun (Hpk & Hdl & Hwr & Hrr)] Hu. set (seq := wait_seq t).
  assert (forall r, r <> PROC_WAKE_NONE -> (r = PROC_WAKE_SIGNAL -> mode = PROC_WAIT_INTERRUPTIBLE) ->
    mode <> PROC_WAIT_UNINTERRUPTIBLE ->
    exists s' (m' : masks) (b : bool) t', wake s (Some p) seq r None = Some (s', m', b) /\
      inv F (tm s') /\ frame p (tm s) (tm s') /\ task_of s' p = Some t' /\
      prepared t0 t' mode deadline (Some r)) as Hwake.
  { intros r Hr0 Hsig Hm. pose proof (wake_ok F s p t seq r None Hinv Ht Hr0 Hr) as Hw.
    assert (can_wake t seq r = true) as Hc.
    { destruct (next_seq_ok _ Hu) as (_ & Hs0 & _). unfold can_wake, seq.
      rewrite Hseq, (proj2 (Z.eqb_neq _ _) Hs0), Z.eqb_refl, Hst, Hmode.
      rewrite (bool_decide_eq_true_2 (waiting t)) by (by left).
      rewrite (bool_decide_eq_false_2 (mode = PROC_WAIT_UNINTERRUPTIBLE)) by done.
      rewrite andb_false_r. destruct (decide (r = PROC_WAKE_SIGNAL)) as [Er|Er];
        [rewrite (bool_decide_eq_true_2 (mode = _)) by auto|rewrite (bool_decide_eq_false_2 (r = _) Er)];
        by repeat case_bool_decide. }
    rewrite Hc in Hw. destruct Hw as (s' & m' & t' & E & Hinv' & Hf & Ht' & Hwk & Hq).
    exists s', m', true, t'. split; [done|]. split; [done|]. split; [done|]. split; [done|].
    destruct Hwk. constructor; try congruence; [| |done].
    - rewrite wk_state0, Hpk. by rewrite bool_decide_eq_false_2.
    - destruct Hq as [Hq|[? _]]; [|congruence]. unfold same_run in *. intuition congruence. }
  assert (exists s' (m' : masks) (b : bool) t', Some (s, None : masks, false) = Some (s', m', b) /\
    inv F (tm s') /\ frame p (tm s) (tm s') /\ task_of s' p = Some t' /\
    prepared t0 t' mode deadline None) as Hnone.
  { exists s, None, false, t. split; [done|]. split; [done|]. split; [apply frame_refl|].
    split; [done|]. by constructor. }
  assert (forall (o : option (sys * masks * bool)) pend,
    (exists s' (m' : masks) (b : bool) t', o = Some (s', m', b) /\
       inv F (tm s') /\ frame p (tm s) (tm s') /\ task_of s' p = Some t' /\
       prepared t0 t' mode deadline pend) ->
    exists s' t', ('(s, _, _) ← o; Some s) = Some s' /\
      inv F (tm s') /\ frame p (tm s) (tm s') /\ task_of s' p = Some t' /\
      prepared t0 t' mode deadline pend) as Hbind.
  { intros o pend (s' & m' & b & t' & -> & H). exists s', t'. by split. }
  unfold prepare_pending, pending_reason. rewrite Ht. cbn [mbind option_bind]. apply Hbind.
  destruct (exit_pending t), mode, fatal, unblocked; cbn; try done; by apply Hwake.
Qed.

(** The task after a prepare that found the timer heap full. *)
Definition refused (t t' : task_t) : Prop :=
  park_state t' = PROC_PARK_IDLE /\ wait_seq t' = next_seq (wait_seq t) /\
  state t' = PROC_RUNNING /\ destroy_started t' = false /\ wake_reason t' = PROC_WAKE_NONE /\
  same_run t t'.

Definition heap_full (s : sys) (deadline : Z) : bool :=
  c_true deadline && (MAX <=? cnt (wait_timer_heap (tm s))).

Lemma prepare_tail_ok F s p t mode deadline fatal unblocked : in_u64 (wait_seq t) ->
  forall s2 t2, inv F (tm s2) -> frame p (tm s) (tm s2) -> task_of s2 p = Some t2 ->
    prepared t t2 mode deadline None -> exit_pending t2 = exit_pending t ->
    refs t2 < 2147483647 ->
    exists s' t' tok,
      (s3 ← prepare_pending NR idle cpu should_preempt fatal unblocked s2 p (wait_seq t2) mode;
       Some (s3, {| tok_task := Some p; tok_seq := wait_seq t2;
                    tok_error := PROC_PARK_PREPARE_OK |})) = Some (s', tok) /\
      inv F (tm s') /\ frame p (tm s) (tm s') /\ task_of s' p = Some t' /\
      tok = {| tok_task := Some p; tok_seq := next_seq (wait_seq t);
               tok_error := PROC_PARK_PREPARE_OK |} /\
      prepared t t' mode deadline (pending_reason t mode fatal unblocked).
Proof.
  intros Hu. intros s2 t2 Hinv2 Hf2 Ht2 Hp2 Hex Hr2.
  destruct (prepare_pending_ok F s2 p t t2 mode deadline fatal unblocked)
    as (s3 & t3 & -> & Hinv3 & Hf3 & Ht3 & Hp3); [done..|].
  cbn [mbind option_bind]. exists s3, t3. eexists. split; [done|]. split; [done|].
  split; [by eapply frame_trans|]. split; [done|]. split; [by rewrite (pr_seq _ _ _ _ _ Hp2)|].
  unfold pending_reason in *. by rewrite <- Hex.
Qed.

Lemma prepare_ok F s p t mode deadline ticks fatal unblocked :
  inv F (tm s) -> task_of s p = Some t -> p <> idle -> park_state t = PROC_PARK_IDLE ->
  state t = PROC_RUNNING -> destroy_started t = false -> refs t < 2147483646 ->
  in_u64 deadline ->
  exists s' t' tok,
    proc_park_prepare_locked MAX TPS NR idle cpu should_preempt ticks fatal unblocked s (Some p)
      mode deadline = Some (s', tok) /\
    inv F (tm s') /\ frame p (tm s) (tm s') /\ task_of s' p = Some t' /\
    if heap_full s deadline
    then tok = proc_wait_token_none PROC_PARK_PREPARE_TIMEOUT_CAPACITY /\ refused t t'
    else tok = {| tok_task := Some p; tok_seq := next_seq (wait_seq t);
                  tok_error := PROC_PARK_PREPARE_OK |} /\
         prepared t t' mode deadline (pending_reason t mode fatal unblocked).
Proof.
  intros Hinv Ht Hid Hpk Hst Hd Hr Hdl. unfold proc_park_prepare_locked.
  rewrite (bool_decide_eq_false_2 (p = idle)) by done. rewrite Ht. cbn [mbind option_bind].
  rewrite Hst, Hpk. rewrite (bool_decide_eq_false_2 (PROC_RUNNING = _)),
    (bool_decide_eq_false_2 (PROC_RUNNING = _)), bool_decide_eq_true_2 by done. cbn [orb negb].
  fold (next_seq (wait_seq t)). change (t {{ wait_seq := next_seq (wait_seq t);
    wait_deadline := deadline; wait_mode := mode; wake_reason := PROC_WAKE_NONE;
    park_state := PROC_PARK_PREPARING }}) with (preparing deadline mode t).
  set (s1 := set_task s p (preparing deadline mode t)).
  assert (~ waiting t) as Hn by (unfold waiting; rewrite Hpk; by intros [|]).
  destruct (pi_tasks _ _ _ Hinv p t Ht) as [Hok Hrefs].
  pose proof (prepare_tail_ok F s p t mode deadline fatal unblocked (proj1 (tk_seq _ _ _ _ Hok)))
    as Htail.
  unfold heap_full. destruct (c_true deadline) eqn:Ed; cbn [andb].
  - apply negb_true_iff, Z.eqb_neq in Ed.
    pose proof (prepare_register_ok F s p t deadline mode ticks Hinv Ht Hn Hst Hd Hr Hdl Ed) as Hreg.
    cbv zeta in Hreg. fold s1 in Hreg. destruct (MAX <=? cnt (wait_timer_heap (tm s))).
    + destruct Hreg as (s2 & -> & Hwf2 & Hf2 & HL2 & Ht2). cbn [mbind option_bind].
      rewrite Ht2. cbn [mbind option_bind]. eexists _, _, _. split; [done|]. split; [|split; [|split; [apply lookup_insert_eq|]]].
      * eapply (inv_update F (tm s) (tm s2) p (preparing deadline mode t) _ Hinv Hwf2 Hf2 Ht2);
          [reflexivity..| |].
        -- eapply task_refs_fields; [exact Hrefs|done..].
        -- apply idle_ok; [rewrite HL2; by eapply no_entry|done|done|].
           by apply next_seq_ok, Hok.
      * eapply frame_trans; [exact Hf2|apply frame_insert].
      * done.
    + destruct Hreg as (s2 & i & -> & Hinv2 & Hf2 & Ht2). cbn [mbind option_bind].
      rewrite Ht2. cbn [mbind option_bind].
      apply (Htail _ _ Hinv2 Hf2 Ht2); [|reflexivity|].
      { by constructor. }
      change (refs t + 1 < 2147483647). lia.
  - assert (deadline = 0) as -> by (apply negb_false_iff, Z.eqb_eq in Ed; done).
    assert (task_of s1 p = Some (preparing 0 mode t)) as Ht1 by apply lookup_insert_eq.
    cbn [mbind option_bind]. rewrite Ht1. cbn [mbind option_bind].
    assert (frame p (tm s) (tm s1)) as Hf1 by apply frame_insert.
    apply (fun H => Htail _ _ H Hf1 Ht1); [| |reflexivity|].
    + apply (inv_update F (tm s) (tm s) p t (preparing 0 mode t) Hinv (pi_timers _ _ _ Hinv)
        (frame_refl _ _) Ht); [reflexivity..| |].
      * eapply task_refs_fields; [exact Hrefs|done..].
      * apply preparing_ok; [apply Hok|done|done| |done].
        intros e He Hp. by destruct (no_entry _ _ _ _ Hok Hn e He).
    + constructor; try done. split_and!; try done. change (refs t <= refs t + 1). lia.
    + change (refs t < 2147483647). lia.
Qed.

(** ** Committing, cancelling, finishing *)

Lemma commit_publish_ok F s p t seq :
  inv F (tm s) -> task_of s p = Some t -> wait_seq t = seq ->
  park_state t = PROC_PARK_PREPARING ->
  let t' := t {{ park_state := PROC_PARK_PARKED; state := PROC_BLOCKED }} in
  let s' := set_task s p t' in
  park_commit_publish s (Some p) p seq = Some (s', None) /\
  inv F (tm s') /\ frame p (tm s) (tm s') /\ task_of s' p = Some t'.
Proof.
  intros Hinv Ht Hs Hpk t' s'. destruct (pi_tasks _ _ _ Hinv p t Ht) as [Hok Hr].
  split; [|split; [|split; [apply frame_insert|apply lookup_insert_eq]]].
  - unfold park_commit_publish. rewrite Ht. cbn [mbind option_bind].
    rewrite bool_decide_eq_true_2, Hs, Z.eqb_refl, Hpk by done. done.
  - apply (inv_update F (tm s) (tm s) p t t' Hinv (pi_timers _ _ _ Hinv) (frame_refl _ _) Ht);
      [reflexivity..| |].
    + by eapply task_refs_fields.
    + assert (waiting t) as Hw by (by left). assert (waiting t') as Hw' by (by right).
      destruct Hok. constructor; try done.
      * intros e He Hp. destruct (tk_entry0 e He Hp) as (_ & E1 & E2). done.
      * intros _. by apply tk_armed0.
      * split; [apply tk_seq0|]. intros _. by apply tk_seq0.
      * intros _. by apply tk_alive0.
Qed.

(** Cancel is a wake of a PREPARING token by its own task. *)
Lemma park_cancel_ok F s p t err :
  inv F (tm s) -> task_of s p = Some t -> park_state t = PROC_PARK_PREPARING ->
  exists s' t', proc_park_cancel s (Some p)
      {| tok_task := Some p; tok_seq := wait_seq t; tok_error := err |} = Some (s', true) /\
    inv F (tm s') /\ frame p (tm s) (tm s') /\ task_of s' p = Some t' /\
    woken p PROC_WAKE_CANCEL t t' /\ same_run t t'.
Proof.
  intros Hinv Ht Hpk. assert (waiting t) as Hw by (by left).
  destruct (pi_tasks _ _ _ Hinv p t Ht) as [Hok _].
  unfold proc_park_cancel. cbn [tok_task tok_seq].
  rewrite (proj2 (Z.eqb_neq _ _) (proj2 (tk_seq _ _ _ _ Hok) Hw)), Ht. cbn [mbind option_bind].
  rewrite !bool_decide_eq_true_2, Z.eqb_refl by done. cbn [andb].
  destruct (cancel_waiting F (tm s) p t Hinv Ht Hw) as
    (m1 & i & w & r & E1 & Hwf1 & Hf1 & Ht1 & Hi & Hrr & Hr1 & Hno).
  unfold proc_wait_timer_cancel. rewrite E1. cbn [mbind option_bind]. unfold task_of at 1.
  record.simp_goal. rewrite Ht1. cbn [mbind option_bind].
  set (t1 := t {{ wait_timer_index := i; wake_time := w; refs := r }}).
  eexists _, (wake_fields PROC_WAKE_CANCEL t1). split; [reflexivity|]. apply and4_snoc; [|done].
  apply (wake_done F (tm s) m1 p t _ _ PROC_WAKE_CANCEL Hinv Ht Hw ltac:(done) Hwf1 Hf1 Ht1 Hr1 Hno);
    [|reflexivity..].
  constructor; try done; [by rewrite Hpk|change (r <= refs t + 1); lia|congruence].
Qed.

Lemma finish_ok F s p t err :
  inv F (tm s) -> task_of s p = Some t -> park_state t = PROC_PARK_WOKEN -> wait_seq t <> 0 ->
  let s' := set_task s p (finish_fields t) in
  proc_park_finish s {| tok_task := Some p; tok_seq := wait_seq t; tok_error := err |} = Some s' /\
  inv F (tm s') /\ frame p (tm s) (tm s') /\ task_of s' p = Some (finish_fields t).
Proof.
  intros Hinv Ht Hpk Hs s'. destruct (pi_tasks _ _ _ Hinv p t Ht) as [Hok Hr].
  assert (~ waiting t) as Hn by (unfold waiting; rewrite Hpk; by intros [|]).
  split; [|split; [|split; [apply frame_insert|apply lookup_insert_eq]]].
  - unfold proc_park_finish. cbn [tok_task tok_seq]. rewrite (proj2 (Z.eqb_neq _ _) Hs), Ht.
    cbn [mbind option_bind]. rewrite Z.eqb_refl, bool_decide_eq_true_2 by done. cbn [negb].
    rewrite (proj2 (Z.leb_gt _ _)); [done|]. apply Z.nle_gt.
    rewrite (index_entry MAX _ p t (pi_timers _ _ _ Hinv) Ht). intros (e & He & Hp).
    by eapply no_entry.
  - apply (inv_update F (tm s) (tm s) p t (finish_fields t) Hinv (pi_timers _ _ _ Hinv)
      (frame_refl _ _) Ht); [reflexivity..| |].
    + by eapply task_refs_fields.
    + apply idle_ok; [by eapply no_entry|done|done|apply Hok].
Qed.

(** ** Donation *)

Lemma donate_wake_ok F s q d :
  inv F (tm s) -> task_of s q = Some d -> refs d < 2147483647 ->
  if donatable cpu d then
    exists s' d', park_donate_wake cpu s q = Some (s', true) /\
      inv F (tm s') /\ frame q (tm s) (tm s') /\ task_of s' q = Some d' /\
      woken q PROC_WAKE_EVENT d d' /\
      dispatching d' = true /\ on_rq d' = false /\ on_cpu d' = false /\ owner_cpu d' = cpu
  else park_donate_wake cpu s q = Some (s, false).
Proof.
  intros Hinv Hd Hr. unfold park_donate_wake. rewrite Hd. cbn [mbind option_bind].
  destruct (donatable cpu d) eqn:Ed; cbn [negb]; [|done].
  assert (park_state d = PROC_PARK_PARKED) as Hpk.
  { unfold donatable in Ed. destruct (bool_decide (park_state d = PROC_PARK_PARKED)) eqn:E; [|done].
    by apply bool_decide_eq_true in E. }
  assert (waiting d) as Hw by (by right). destruct (pi_tasks _ _ _ Hinv q d Hd) as [Hok _].
  destruct (cancel_waiting F (tm s) q d Hinv Hd Hw) as
    (m1 & i & w & r & E1 & Hwf1 & Hf1 & Ht1 & Hi & Hrr & Hr1 & Hno).
  unfold proc_wait_timer_cancel. rewrite E1. cbn [mbind option_bind]. unfold task_of at 1.
  record.simp_goal. rewrite Ht1. cbn [mbind option_bind].
  pose proof (refs_alive _ _ Hr1 (inflight_nonneg F q) (tk_alive _ _ _ _ Hok Hw)) as Hr1'.
  change (1 <= r) in Hr1'. set (d1 := d {{ wait_timer_index := i; wake_time := w; refs := r }}) in *.
  set (d2 := (wake_fields PROC_WAKE_EVENT d1) {{ state := PROC_READY }}).
  change (tasks (tm (set_task (s {{ tm := m1 }}) q d2))) with (<[q := d2]> (tasks m1)).
  unfold proc_get. rewrite lookup_insert_eq.
  cbn [mbind option_bind]. change (refs d2) with r.
  rewrite (proj2 (Z.eqb_neq r 0)), s32_small by lia. cbn [mbind option_bind].
  rewrite lookup_insert_eq. cbn [mbind option_bind].
  set (d3 := d2 {{ refs := r + 1; dispatching := true; owner_cpu := cpu }}).
  eexists _, d3. split; [reflexivity|].
  assert (tm (set_task (set_task (s {{ tm := m1 }}) q d2) q d3)
    = m1 {{ tasks := <[q := d3]> (tasks m1) }}) as Em by (cbn; by rewrite insert_insert_eq).
  unfold task_of. rewrite Em. apply and4_snoc.
  2: { unfold donatable in Ed. destruct (on_cpu d) eqn:Eoc; [by rewrite !andb_false_r in Ed|].
       destruct (on_rq d) eqn:Eor; [by rewrite !andb_false_r in Ed|]. by repeat split. }
  apply (wake_done F (tm s) m1 q d d1 d3 PROC_WAKE_EVENT Hinv Hd Hw ltac:(done) Hwf1 Hf1 Ht1 Hr1 Hno);
    [|reflexivity..|change (r <= r + 1); lia].
  constructor; try done; [by rewrite Hpk|change (r + 1 <= refs d + 1); lia|].
  intros _ _. apply orb_true_iff. left. apply orb_true_r.
Qed.
End ParkOps.
