(* ===== verification/ParkExpiry.v ===== *)
(** * Expiry of wait timers

    Collecting the due entries under the heap lock, delivering them one by
    one under the tasks' park locks, and the whole expiry pass. *)

From S2P Require Import Prelude Task TimerHeap HeapTheory TimerTheory Park ParkTheory.

Lemma inflight_app F G p : inflight (F ++ G) p = inflight F p + inflight G p.
Proof. unfold inflight. rewrite filter_app, length_app. lia. Qed.

Lemma inflight_cons x F p :
  inflight (x :: F) p = c_bool (bool_decide (ex_task x = p)) + inflight F p.
Proof.
  unfold inflight. rewrite filter_cons. case_bool_decide as Hp; destruct (decide _); try done.
  cbn [length]. unfold c_bool. lia.
Qed.

Lemma inflight_perm F G p : F ≡ₚ G -> inflight F p = inflight G p.
Proof. intros HP. unfold inflight. by rewrite HP. Qed.

Lemma inflight_zero F p : inflight F p <= 0 -> forall x, x ∈ F -> ex_task x <> p.
Proof.
  intros H0 x Hx Hp. unfold inflight in H0.
  assert (x ∈ filter (fun x => ex_task x = p) F) as Hin by (by apply list_elem_of_filter).
  destruct (filter _ F); [by apply not_elem_of_nil in Hin|]. cbn in H0. lia.
Qed.

Lemma inflight_none F p : (forall x, x ∈ F -> ex_task x <> p) -> inflight F p = 0.
Proof.
  induction F as [|x F IH]; intros Hno; [done|].
  rewrite inflight_cons, bool_decide_eq_false_2, IH; [done| |].
  - intros y Hy. apply Hno. by apply elem_of_cons; right.
  - apply Hno. by apply elem_of_cons; left.
Qed.

Section Expiry.
Context (MAX NR : Z) (MAX_ok : 0 < MAX <= 2147483646).
Context (idle : nat) (cpu : Z) (should_preempt : sys -> nat -> Z -> bool).
Abbreviation inv := (park_inv MAX).
Abbreviation deliver := (expire_deliver NR idle cpu should_preempt).

Lemma inv_perm F G m : F ≡ₚ G -> inv F m -> inv G m.
Proof.
  intros HP [Hw Ht Hf]. constructor; [done| |].
  - intros p t Hp. destruct (Ht p t Hp) as [[] Hr]. rewrite (inflight_perm _ _ p HP) in Hr.
    split; [|done]. constructor; try done. setoid_rewrite <- HP. done.
  - intros x Hx. rewrite <- HP in Hx. by apply Hf.
Qed.

(** ** Delivering *)

(** Dropping the reference an undelivered expiry holds, once the expiry no
    longer counts for its task. *)
Lemma inv_put F F' m x t :
  inv F m -> F ≡ₚ x :: F' -> tasks m !! ex_task x = Some t ->
  (waiting t -> wait_seq t <> ex_seq x) ->
  exists T, proc_put (tasks m) (ex_task x) = Some T /\ inv F' (m {{ tasks := T }}) /\
    frame (ex_task x) m (m {{ tasks := T }}) /\
    (T = <[ex_task x := t {{ refs := refs t - 1 }}]> (tasks m) \/
     T = delete (ex_task x) (tasks m) /\ destroy_started t = true).
Proof.
  intros Hinv HP Ht Hst. set (p := ex_task x) in *.
  pose proof (pi_timers _ _ _ Hinv) as Hwf. destruct (pi_tasks _ _ _ Hinv p t Ht) as [Hok Hr].
  pose proof (inflight_nonneg F' p) as Hf0.
  assert (inflight F p = 1 + inflight F' p) as Hn.
  { rewrite (inflight_perm _ _ p HP), inflight_cons, bool_decide_eq_true_2; done. }
  assert (task_refs_ok 1 t) as Hr1 by (eapply task_refs_weaken; [|done]; lia).
  destruct (proc_put_ok _ _ _ Ht Hr1) as (T & ET & Hcase). exists T. split; [done|].
  assert (frame p m (m {{ tasks := T }})) as Hfr.
  { apply frame_task. intros q Hq. destruct Hcase as [->|(-> & _)].
    - by rewrite lookup_insert_ne by done.
    - by rewrite lookup_delete_ne by done. }
  assert (forall y, y ∈ F <-> y = x \/ y ∈ F') as Hel by (intros y; by rewrite HP, elem_of_cons).
  assert (refs t = 1 -> inflight F' p = 0 /\ destroy_started t = true) as Hlast.
  { intros E. destruct Hr as [Hh _]. rewrite Hn, E in Hh. unfold held in Hh.
    revert Hh. destruct (destroy_started t); unfold c_bool; repeat split_if; cbn in *; lia. }
  split; [|split; [done|]].
  2: { destruct Hcase as [->|(-> & Hr0 & _)]; [by left|right]. split; [done|]. by apply Hlast. }
  eapply (inv_frame MAX F F' p m); [done| |done| | | |].
  - by eapply wf_put.
  - intros y Hy. rewrite Hel. split; [by right|]. by intros [->|].
  - intros q Hq. rewrite (inflight_perm _ _ q HP), inflight_cons, bool_decide_eq_false_2; done.
  - intros t' Ht'. record.simp_hyps. destruct Hcase as [->|(-> & _)].
    2: { by rewrite lookup_delete_eq in Ht'. }
    rewrite lookup_insert_eq in Ht'. apply (inj Some) in Ht'. subst t'. split.
    + destruct Hok as [He Ha Hre Hp Hs Hd]. constructor;
        [exact He| |exact Hre|exact Hp|exact Hs|exact Hd]. intros Hw Hdl.
      destruct (Ha Hw Hdl) as [Hen|Hin]; [by left|right].
      apply Hel in Hin as [Ex|]; [|done]. destruct (Hst Hw). by rewrite <- Ex.
    + destruct Hr as [Hh Hd]. split; [|exact Hd]. rewrite Hn in Hh.
      change (held t + inflight F' p <= refs t - 1). lia.
  - intros y Hy Hyp. split; [apply (pi_flight _ _ _ Hinv), Hel; by right|].
    record.simp_goal. destruct Hcase as [->|(-> & Hr0 & _)].
    + rewrite lookup_insert_eq. by eexists.
    + destruct (Hlast Hr0) as [Hz _]. destruct (inflight_zero F' p ltac:(lia) y Hy Hyp).
Qed.

(** In the invariant a timeout is admitted exactly by a live token. *)
Lemma can_wake_timeout L F p t seq : task_ok L F p t -> seq <> 0 ->
  can_wake t seq PROC_WAKE_TIMEOUT = bool_decide (waiting t /\ wait_seq t = seq).
Proof.
  intros Hok Hs. unfold can_wake. rewrite (proj2 (Z.eqb_neq _ _) Hs). cbn [negb andb].
  destruct (wait_seq t =? seq) eqn:E; reflect.
  2: { by rewrite (bool_decide_eq_false_2 (_ /\ _)) by tauto. }
  destruct (decide (waiting t)) as [Hw|Hw].
  2: { rewrite (bool_decide_eq_false_2 (waiting t) Hw), (bool_decide_eq_false_2 (_ /\ _)) by tauto.
       by rewrite andb_false_r. }
  rewrite (bool_decide_eq_true_2 (waiting t) Hw), (bool_decide_eq_true_2 (_ /\ _)) by done.
  pose proof (tk_phase _ _ _ _ Hok) as Hph. unfold phase_ok in Hph.
  destruct Hw as [Hw|Hw]; rewrite Hw in Hph; [destruct Hph as [-> | ->]|rewrite Hph]; done.
Qed.

Lemma inv_stale F m n : inv F m -> inv F (m {{ wait_timer_stale_expirations := n }}).
Proof. intros [[] Ht Hf]. constructor; [by constructor|exact Ht|exact Hf]. Qed.

Lemma woken_refs p r t t' n : woken idle p r t t' -> n <= refs t + 1 ->
  woken idle p r t (t' {{ refs := n }}).
Proof. intros [] Hn. by constructor. Qed.

Lemma deliver_ok F F' s x t :
  inv F (tm s) -> F ≡ₚ x :: F' -> task_of s (ex_task x) = Some t -> refs t < 2147483647 ->
  exists s', deliver s x = Some s' /\ inv F' (tm s') /\ frame (ex_task x) (tm s) (tm s') /\
    if bool_decide (waiting t /\ wait_seq t = ex_seq x)
    then exists t', task_of s' (ex_task x) = Some t' /\ refs t' <= refs t /\
           woken idle (ex_task x) PROC_WAKE_TIMEOUT t t' /\ queue_run t t'
    else (forall t', task_of s' (ex_task x) = Some t' -> t' = t {{ refs := refs t - 1 }}) /\
         (task_of s' (ex_task x) = None -> destroy_started t = true).
Proof.
  intros Hinv HP Ht Hr. unfold expire_deliver. rewrite Ht. cbn [mbind option_bind].
  destruct (pi_tasks _ _ _ Hinv _ t Ht) as [Hok _].
  destruct (pi_flight _ _ _ Hinv x) as [Hs0 _]; [rewrite HP; by apply elem_of_cons; left|].
  pose proof (wake_ok MAX NR MAX_ok idle cpu should_preempt F s (ex_task x) t (ex_seq x)
    PROC_WAKE_TIMEOUT None Hinv Ht ltac:(done) Hr) as Hw.
  rewrite (can_wake_timeout _ _ _ _ _ Hok Hs0) in Hw. case_bool_decide as Hlive.
  - destruct Hw as (s1 & m' & t1 & -> & Hinv1 & Hf1 & Ht1 & Hwk & Hq). cbn [mbind option_bind negb andb].
    assert (~ waiting t1) as Hn1 by (unfold waiting; rewrite (wk_park _ _ _ _ _ Hwk); by intros [|]).
    destruct (inv_put F F' (tm s1) x t1 Hinv1 HP Ht1) as (T & -> & Hinv2 & Hf2 & HT); [done|].
    cbn [mbind option_bind]. eexists. split; [reflexivity|]. split; [exact Hinv2|].
    split; [by eapply frame_trans|].
    assert (destroy_started t1 = false) as Hd1
      by (rewrite (wk_alive _ _ _ _ _ Hwk); apply (tk_alive _ _ _ _ Hok), Hlive).
    destruct HT as [->|[_ HT]]; [|congruence]. eexists. split; [apply lookup_insert_eq|].
    pose proof (wk_refs _ _ _ _ _ Hwk). split; [change (refs t1 - 1 <= refs t); lia|].
    split; [apply woken_refs; [done|lia]|exact Hq].
  - rewrite Hw. cbn [mbind option_bind negb andb]. set (s1 := if negb _ then _ else _).
    assert (inv F (tm s1) /\ frame (ex_task x) (tm s) (tm s1) /\ task_of s1 (ex_task x) = Some t)
      as (Hinv1 & Hf1 & Ht1).
    { subst s1. split_if; [|split; [done|split; [apply frame_refl|done]]].
      split; [by apply inv_stale|]. split; [exact (frame_refl _ (tm s))|done]. }
    destruct (inv_put F F' (tm s1) x t Hinv1 HP Ht1) as (T & -> & Hinv2 & Hf2 & HT);
      [intros Hw' Hs; tauto|].
    cbn [mbind option_bind]. eexists. split; [reflexivity|]. split; [exact Hinv2|].
    split; [by eapply frame_trans|]. unfold task_of. record.simp_goal.
    destruct HT as [->|[-> Hd]].
    + rewrite lookup_insert_eq. split; [|done]. intros t' Ht'. by apply (inj Some) in Ht'.
    + rewrite lookup_delete_eq. done.
Qed.

(** ** Collecting *)

Lemma collect_one F m : inv F m -> cnt (wait_timer_heap m) <> 0 ->
  exists m' e p, wait_timer_remove_index_locked m 0 = Some (m', e) /\
    rd (arr (wait_timer_heap m)) 0 = Some e /\ wt_task e = Some p /\ wt_seq e <> 0 /\
    inv (F ++ [{| ex_task := p; ex_seq := wt_seq e |}]) m' /\
    cnt (wait_timer_heap m') = cnt (wait_timer_heap m) - 1 /\
    e :: entries m' ≡ₚ entries m /\ index_only (E := wait_timer) (tasks m) (tasks m').
Proof.
  intros Hinv Hc. pose proof (pi_timers _ _ _ Hinv) as Hwf.
  pose proof (lk_count _ _ _ (tw_wait _ _ Hwf)) as Hcnt.
  destruct (wait_remove_ok MAX MAX_ok m 0 Hwf) as
    (h & T & e & p & t' & first & E & W & He & Hp & Hcn & P & I & Ht' & Hi & Hr'); [lia|].
  set (m' := m {{ wait_timer_heap := h; tasks := T; next_wake_scan := first }}) in *.
  assert (e ∈ entries m) as Hein by (unfold entries; rewrite <- P; by apply elem_of_cons; left).
  assert (wt_seq e <> 0) as Hs0.
  { pose proof (tw_wait_valid _ _ Hwf) as Hv. rewrite <- P in Hv.
    apply Forall_cons_iff in Hv as [[_ Hv] _]. done. }
  exists m', e, p. split; [done|]. split; [done|]. split; [done|]. split; [done|].
  split; [|done]. set (x := {| ex_task := p; ex_seq := wt_seq e |}).
  pose proof (I p) as Ip. rewrite Ht' in Ip. destruct (tasks m !! p) as [t|] eqn:Ht; [|done].
  destruct Ip as [i ->]. change (i = -1) in Hi. subst i.
  destruct (pi_tasks _ _ _ Hinv p t Ht) as [Hok Hr].
  destruct (tk_entry _ _ _ _ Hok e Hein Hp) as (Hw & Es & Ed).
  assert (inflight (F ++ [x]) p = inflight F p + 1) as Hn.
  { rewrite inflight_app, inflight_cons, bool_decide_eq_true_2; done. }
  eapply (inv_frame MAX F (F ++ [x]) p m); [done|exact W| | | | |].
  - split; [intros q _; apply (I q)|]. intros y Hy. unfold entries at 2. rewrite <- P, elem_of_cons.
    split; [by right|]. by intros [->|].
  - intros y Hy. rewrite elem_of_app, list_elem_of_singleton. split; [|by left]. by intros [? | ->].
  - intros q Hq. rewrite inflight_app, inflight_cons, bool_decide_eq_false_2 by done.
    unfold inflight at 2, c_bool. cbn. lia.
  - intros t1 Ht1. assert (t1 = ti_set (E := wait_timer) (-1) t) as -> by
      (change (T !! p = Some t1) in Ht1; rewrite Ht' in Ht1; by apply (inj Some) in Ht1). split.
    + constructor; try apply Hok.
      * intros y Hy Hyp. pose proof (proj2 (index_entry MAX m' p _ W Ht') (ex_intro _ y (conj Hy Hyp))) as Hbad.
        change (0 <= -1) in Hbad. lia.
      * intros _ _. right. apply elem_of_app. right. apply list_elem_of_singleton.
        subst x. by rewrite Es.
    + rewrite Hn. destruct Hr as [Hh Hd]. split; [|exact Hd].
      pose proof (proj2 (index_entry MAX m p t Hwf Ht) (ex_intro _ e (conj Hein Hp))) as Hge.
      revert Hh. unfold held. rewrite (proj2 (Z.leb_le 0 _) Hge). destruct t. cbn. lia.
  - intros y Hy Hyp. change (tasks m') with T. rewrite Ht'. split; [|by eexists].
    apply elem_of_app in Hy as [Hy|Hy]; [by apply (pi_flight _ _ _ Hinv)|].
    by apply list_elem_of_singleton in Hy as ->.
Qed.

(** An entry and the expiry collected from it. *)
Definition expires (e : wait_timer) (x : expired_t) : Prop :=
  wt_task e = Some (ex_task x) /\ wt_seq e = ex_seq x.

Definition collect_done (m : timers) (now : Z) (acc : list expired_t) : Prop :=
  cnt (wait_timer_heap m) = 0 \/ now < dl (arr (wait_timer_heap m)) 0 \/
  128 <= Z.of_nat (length acc).

Lemma root_deadline m e : rd (arr (wait_timer_heap m)) 0 = Some e ->
  dl (arr (wait_timer_heap m)) 0 = wt_deadline e.
Proof. intros He. unfold dl. by rewrite He. Qed.

Lemma collect_stop F now fuel m acc : inv (F ++ acc) m -> collect_done m now acc ->
  exists m' es xs, expire_collect fuel m now acc = Some (m', acc ++ xs) /\
    inv (F ++ acc ++ xs) m' /\ Forall2 expires es xs /\
    Forall (fun e => wt_deadline e <= now) es /\ es ++ entries m' ≡ₚ entries m /\
    index_only (E := wait_timer) (tasks m) (tasks m') /\
    cnt (wait_timer_heap m') = cnt (wait_timer_heap m) - Z.of_nat (length es) /\
    (128 <= Z.of_nat (length (acc ++ xs)) \/ forall e, e ∈ entries m' -> now < wt_deadline e) /\
    Z.of_nat (length (acc ++ xs)) <= Z.max 128 (Z.of_nat (length acc)).
Proof.
  intros Hinv Hd. pose proof (pi_timers _ _ _ Hinv) as Hwf.
  exists m, [], []. rewrite !app_nil_r. split.
  - destruct fuel; cbn [expire_collect]; unfold c_true;
      (destruct (cnt (wait_timer_heap m) =? 0) eqn:E; [done|]); reflect; cbn [negb];
      rewrite (deadline_at_ok _ _ _ 0 (tw_wait _ _ Hwf)) by
        (pose proof (lk_count _ _ _ (tw_wait _ _ Hwf)); lia);
      cbn [mbind option_bind]; (split_if; [|done]); reflect; unfold collect_done in Hd; lia.
  - split; [done|]. split; [done|]. split; [done|]. split; [done|].
    split; [apply index_only_refl|]. split; [cbn; lia|]. split; [|lia].
    destruct Hd as [Hd|[Hd|Hd]]; [right|right|by left].
    + intros e He. unfold entries in He. rewrite Hd in He. unfold live in He.
      rewrite take_0 in He. by apply not_elem_of_nil in He.
    + intros e He. pose proof (elem_dl _ _ _ _ (tw_wait _ _ Hwf) (tw_wait_order _ _ Hwf) He) as Hle.
      cbn in Hle. lia.
Qed.

Lemma collect_ok F now fuel m acc :
  inv (F ++ acc) m -> cnt (wait_timer_heap m) <= Z.of_nat fuel ->
  exists m' es xs, expire_collect fuel m now acc = Some (m', acc ++ xs) /\
    inv (F ++ acc ++ xs) m' /\ Forall2 expires es xs /\
    Forall (fun e => wt_deadline e <= now) es /\ es ++ entries m' ≡ₚ entries m /\
    index_only (E := wait_timer) (tasks m) (tasks m') /\
    cnt (wait_timer_heap m') = cnt (wait_timer_heap m) - Z.of_nat (length es) /\
    (128 <= Z.of_nat (length (acc ++ xs)) \/ forall e, e ∈ entries m' -> now < wt_deadline e) /\
    Z.of_nat (length (acc ++ xs)) <= Z.max 128 (Z.of_nat (length acc)).
Proof.
  revert m acc. induction fuel as [|fuel IH]; intros m acc Hinv Hc;
    pose proof (pi_timers _ _ _ Hinv) as Hwf;
    pose proof (lk_count _ _ _ (tw_wait _ _ Hwf)) as Hcnt.
  - apply collect_stop; [done|]. left. lia.
  - destruct (decide (collect_done m now acc)) as [Hd|Hd]; [by apply collect_stop|].
    unfold collect_done in Hd. assert (cnt (wait_timer_heap m) <> 0) as Hne by tauto.
    destruct (collect_one (F ++ acc) m Hinv Hne) as
      (m1 & e & p & E & He & Hp & Hs0 & Hinv1 & Hc1 & P1 & I1).
    assert (deadline_at (arr (wait_timer_heap m)) 0 = Some (wt_deadline e)) as Hroot
      by (unfold deadline_at; rewrite He; done).
    rewrite (root_deadline m e He) in Hd.
    cbn [expire_collect]. unfold c_true. rewrite (proj2 (Z.eqb_neq _ _) Hne), Hroot.
    cbn [negb mbind option_bind].
    rewrite (proj2 (Z.leb_le _ _)), (proj2 (Z.ltb_lt _ _)) by lia. cbn [andb].
    rewrite E. cbn [mbind option_bind]. rewrite Hp, (proj2 (Z.eqb_neq _ _) Hs0). cbn [negb].
    set (x := {| ex_task := p; ex_seq := wt_seq e |}) in *. rewrite <- app_assoc in Hinv1.
    destruct (IH m1 (acc ++ [x]) Hinv1) as (m2 & es & xs & E2 & Hinv2 & F2 & D2 & P2 & I2 & C2 & S2 & N2);
      [lia|].
    rewrite E2, <- !app_assoc in *. exists m2, (e :: es), (x :: xs). split; [done|].
    split; [done|]. split; [by constructor|]. split; [constructor; [lia|done]|].
    split; [by rewrite <- P1, <- P2|]. split; [by eapply index_only_trans|].
    split; [cbn [length]; lia|]. split; [done|].
    change ([x] ++ xs) with (x :: xs) in N2. rewrite !length_app in *. cbn [length] in *. lia.
Qed.

(** ** Delivering a batch *)

Lemma single_task x p : p ∈ ex_task <$> [x] <-> p = ex_task x.
Proof. cbn. apply list_elem_of_singleton. Qed.

Lemma woken_index_l p r t i t' : woken idle p r (ti_set (E := wait_timer) i t) t' ->
  woken idle p r t t'.
Proof. intros []. by constructor. Qed.

Lemma woken_index_r p r t t' i : woken idle p r t t' -> i < 0 ->
  woken idle p r t (ti_set (E := wait_timer) i t').
Proof. intros [] Hi. by constructor. Qed.

Lemma woken_no_slot F m p t : inv F m -> tasks m !! p = Some t ->
  park_state t = PROC_PARK_WOKEN -> wait_timer_index t < 0.
Proof.
  intros Hinv Ht Hpk. apply Z.nle_gt.
  rewrite (index_entry MAX m p t (pi_timers _ _ _ Hinv) Ht). intros (e & He & Hp).
  destruct (pi_tasks _ _ _ Hinv p t Ht) as [Hok _].
  destruct (tk_entry _ _ _ _ Hok e He Hp) as ([Hw|Hw] & _); congruence.
Qed.

Definition refs_small (m : timers) : Prop :=
  forall p t, tasks m !! p = Some t -> refs t < 2147483647.

Definition batch_outcome (xs : list expired_t) (s s' : sys) : Prop :=
  forall p t, task_of s p = Some t -> exists t', task_of s' p = Some t' /\
    if bool_decide (p ∈ ex_task <$> xs) then woken idle p PROC_WAKE_TIMEOUT t t'
    else exists i, t' = ti_set (E := wait_timer) i t.

(** A live expiry is delivered and leaves no entry of its task. *)
Lemma deliver_live F xs s x t :
  inv (F ++ x :: xs) (tm s) -> refs_small (tm s) -> task_of s (ex_task x) = Some t ->
  waiting t -> wait_seq t = ex_seq x ->
  exists s', deliver s x = Some s' /\ inv (F ++ xs) (tm s') /\ refs_small (tm s') /\
    (forall e, e ∈ entries (tm s') <-> e ∈ entries (tm s) /\ wt_task e <> Some (ex_task x)) /\
    batch_outcome [x] s s'.
Proof.
  intros Hinv Hsm Ht Hw Hs.
  destruct (deliver_ok (F ++ x :: xs) (F ++ xs) s x t Hinv) as (s1 & E & Hinv1 & [HT HL] & Hout);
    [by rewrite Permutation_middle|done|by eapply Hsm|].
  rewrite bool_decide_eq_true_2 in Hout by done. destruct Hout as (t1 & Ht1 & Hr1 & Hwk & _).
  exists s1. split; [done|]. split; [done|]. split; [|split].
  - intros q u Hq. destruct (decide (q = ex_task x)) as [->|Hne].
    + unfold task_of in Ht1. rewrite Hq in Ht1. apply (inj Some) in Ht1. subst u.
      pose proof (Hsm _ _ Ht). lia.
    + specialize (HT q Hne). rewrite Hq in HT. destruct (tasks (tm s) !! q) as [u0|] eqn:Hu; [|done].
      destruct HT as [i ->]. exact (Hsm q u0 Hu).
  - intros e. destruct (decide (wt_task e = Some (ex_task x))) as [Hp|Hp]; [|rewrite HL; tauto].
    split; [|tauto]. intros He. exfalso. pose proof (woken_no_slot _ _ _ _ Hinv1 Ht1 (wk_park _ _ _ _ _ Hwk)) as Hneg.
    pose proof (proj2 (index_entry MAX _ _ _ (pi_timers _ _ _ Hinv1) Ht1)
      (ex_intro _ e (conj He Hp))). lia.
  - intros q u Hq. destruct (decide (q = ex_task x)) as [->|Hne].
    + exists t1. split; [done|]. rewrite bool_decide_eq_true_2 by (by apply single_task).
      rewrite Ht in Hq. apply (inj Some) in Hq. by subst u.
    + rewrite bool_decide_eq_false_2 by (by rewrite single_task).
      specialize (HT q Hne). unfold task_of in *. rewrite Hq in HT.
      destruct (tasks (tm s1) !! q) as [u'|]; [|done]. by exists u'.
Qed.

Lemma batch_outcome_cons F x xs s s1 s2 :
  ex_task x ∉ ex_task <$> xs -> inv F (tm s2) ->
  batch_outcome [x] s s1 -> batch_outcome xs s1 s2 -> batch_outcome (x :: xs) s s2.
Proof.
  intros Hx Hinv H1 H2 p t Ht. destruct (H1 p t Ht) as (t1 & Ht1 & Ho1).
  destruct (H2 p t1 Ht1) as (t2 & Ht2 & Ho2). exists t2. split; [done|].
  destruct (decide (p = ex_task x)) as [->|Hne].
  - rewrite bool_decide_eq_true_2 in Ho1 by (by apply single_task).
    rewrite bool_decide_eq_false_2 in Ho2 by done. destruct Ho2 as [i ->].
    rewrite bool_decide_eq_true_2 by (by apply elem_of_cons; left).
    apply woken_index_r; [done|].
    exact (woken_no_slot _ _ _ _ Hinv Ht2 (wk_park _ _ _ _ _ Ho1)).
  - rewrite bool_decide_eq_false_2 in Ho1 by (by rewrite single_task).
    destruct Ho1 as [i ->]. cbn [fmap list_fmap].
    rewrite (bool_decide_ext _ (p ∈ ex_task <$> xs)) by (rewrite elem_of_cons; tauto).
    case_bool_decide.
    + by eapply woken_index_l.
    + destruct Ho2 as [j ->]. by exists j.
Qed.

Lemma deliver_all_ok F xs s :
  inv (F ++ xs) (tm s) -> refs_small (tm s) -> NoDup (ex_task <$> xs) ->
  (forall x, x ∈ xs -> exists t, task_of s (ex_task x) = Some t /\ waiting t /\
     wait_seq t = ex_seq x) ->
  exists s', expire_deliver_all NR idle cpu should_preempt s xs = Some s' /\
    inv F (tm s') /\ refs_small (tm s') /\
    (forall e, e ∈ entries (tm s') <-> e ∈ entries (tm s) /\
       forall x, x ∈ xs -> wt_task e <> Some (ex_task x)) /\ batch_outcome xs s s'.
Proof.
  revert s. induction xs as [|x xs IH]; intros s Hinv Hsm Hnd Hlive.
  - rewrite app_nil_r in Hinv. exists s. split; [done|]. split; [done|]. split; [done|].
    split.
    { intros e. split; [|tauto]. intros He. split; [done|]. intros x Hx. by apply not_elem_of_nil in Hx. } intros p t Ht. exists t. split; [done|].
    rewrite bool_decide_eq_false_2 by apply not_elem_of_nil.
    exists (wait_timer_index t). by destruct t.
  - apply NoDup_cons in Hnd as [Hx Hnd].
    destruct (Hlive x) as (t & Ht & Hw & Hs); [by apply elem_of_cons; left|].
    destruct (deliver_live F xs s x t Hinv Hsm Ht Hw Hs) as (s1 & E1 & Hinv1 & Hsm1 & HL1 & Ho1).
    destruct (IH s1 Hinv1 Hsm1 Hnd) as (s2 & E2 & Hinv2 & Hsm2 & HL2 & Ho2).
    { intros y Hy. destruct (Hlive y) as (u & Hu & Huw & Hus); [by apply elem_of_cons; right|].
      assert (ex_task y <> ex_task x) as Hne.
      { intros Hc. apply Hx. rewrite <- Hc. by apply list_elem_of_fmap_2. }
      destruct (Ho1 _ u Hu) as (u1 & Hu1 & Ho).
      rewrite bool_decide_eq_false_2 in Ho by (by rewrite single_task).
      destruct Ho as [i ->]. by exists (ti_set (E := wait_timer) i u). }
    exists s2. cbn [expire_deliver_all]. rewrite E1. cbn [mbind option_bind].
    split; [done|]. split; [done|]. split; [done|]. split; [|by eapply batch_outcome_cons].
    intros e. rewrite HL2, HL1. split.
    + intros [[He Hne] Hno]. split; [done|]. intros y Hy.
      apply elem_of_cons in Hy as [->|Hy]; [done|by apply Hno].
    + intros [He Hno]. split; [split; [done|apply Hno; by apply elem_of_cons; left]|].
      intros y Hy. apply Hno. by apply elem_of_cons; right.
Qed.

(** ** The whole pass *)

Lemma entries_length m : timers_wf MAX m ->
  Z.of_nat (length (entries m)) = cnt (wait_timer_heap m).
Proof.
  intros Hwf. pose proof (lk_count _ _ _ (tw_wait _ _ Hwf)). unfold entries, live.
  rewrite length_take. lia.
Qed.

Lemma entries_distinct m : timers_wf MAX m -> NoDup (wt_task <$> entries m).
Proof.
  intros Hwf. pose proof (tw_wait _ _ Hwf) as Hl.
  assert (forall i o, (wt_task <$> entries m) !! i = Some o -> exists p t,
    o = Some p /\ tasks m !! p = Some t /\ wait_timer_index t = Z.of_nat i) as Hix.
  { intros i o Hi. apply list_lookup_fmap_Some in Hi as (e & Ho & Hi).
    unfold entries, live in Hi. apply lookup_take_Some in Hi as [Hi Hlt].
    destruct (lk_slot _ _ _ Hl (Z.of_nat i)) as (e' & p & t & He & Hp & Ht & Hti); [lia|].
    rewrite rd_nat, Hi in He. apply (inj Some) in He. subst e'. exists p, t.
    split; [by rewrite Ho|done]. }
  apply NoDup_alt. intros i j o Hi Hj.
  destruct (Hix i o Hi) as (p & t & -> & Ht & E1), (Hix j _ Hj) as (q & u & Eq & Hu & E2).
  injection Eq as <-. rewrite Ht in Hu. injection Hu as <-. lia.
Qed.

Definition due (now : Z) (t : task_t) : Prop :=
  0 <= wait_timer_index t /\ wait_deadline t <= now.

(** A task was due and is woken, or it only moved within the heap. *)
Definition pass_outcome (now : Z) (s s' : sys) : Prop :=
  forall p t, task_of s p = Some t -> exists t', task_of s' p = Some t' /\
    (due now t /\ woken idle p PROC_WAKE_TIMEOUT t t' \/
     exists i, t' = ti_set (E := wait_timer) i t /\ (0 <= i <-> 0 <= wait_timer_index t)).

Lemma pass_outcome_trans now s1 s2 s3 :
  pass_outcome now s1 s2 -> pass_outcome now s2 s3 -> pass_outcome now s1 s3.
Proof.
  intros H12 H23 p t Ht. destruct (H12 p t Ht) as (t2 & Ht2 & Ho2).
  destruct (H23 p t2 Ht2) as (t3 & Ht3 & Ho3). exists t3. split; [done|].
  destruct Ho2 as [[Hd Hw]|(i & -> & Hi)], Ho3 as [[Hd' Hw']|(j & -> & Hj)].
  - pose proof (wk_index _ _ _ _ _ Hw). unfold due in Hd'. lia.
  - left. split; [done|]. apply woken_index_r; [done|]. pose proof (wk_index _ _ _ _ _ Hw). lia.
  - left. split; [|by eapply woken_index_l]. destruct Hd' as [H1 H2]. split; [by apply Hi|exact H2].
  - right. exists j. split; [done|]. rewrite Hj. exact Hi.
Qed.

(** The collected expiries are live and of distinct tasks. *)
Lemma collected_live F m m' es xs now :
  inv F m ->
  Forall2 expires es xs -> Forall (fun e => wt_deadline e <= now) es ->
  es ++ entries m' ≡ₚ entries m -> index_only (E := wait_timer) (tasks m) (tasks m') ->
  NoDup (ex_task <$> xs) /\
  forall x, x ∈ xs -> exists t i, tasks m !! ex_task x = Some t /\ due now t /\
    tasks m' !! ex_task x = Some (ti_set (E := wait_timer) i t) /\
    waiting t /\ wait_seq t = ex_seq x.
Proof.
  intros Hinv HF HD HP HI. pose proof (pi_timers _ _ _ Hinv) as Hwf. split.
  - pose proof (entries_distinct m Hwf) as Hnd. rewrite <- HP, fmap_app in Hnd.
    apply NoDup_app in Hnd as (Hnd & _ & _). clear - HF Hnd.
    apply (NoDup_fmap_1 Some). replace (Some <$> (ex_task <$> xs)) with (wt_task <$> es); [done|].
    clear Hnd. induction HF as [|e x es xs [Hp _] _ IH]; [done|]. cbn. by rewrite Hp, IH.
  - intros x Hx. apply list_elem_of_lookup in Hx as [k Hk].
    destruct (Forall2_lookup_r _ _ _ _ _ HF Hk) as (e & He & Hp & Hs).
    assert (e ∈ entries m) as Hin
      by (rewrite <- HP; apply elem_of_app; left; by eapply list_elem_of_lookup_2).
    destruct (live_task _ _ _ _ _ (tw_wait _ _ Hwf) Hin Hp) as (t & Ht & Hr & _). cbn in Hr.
    specialize (HI (ex_task x)). rewrite Ht in HI.
    destruct (tasks m' !! ex_task x) as [t'|]; [|done]. destruct HI as [i ->].
    destruct (pi_tasks _ _ _ Hinv _ t Ht) as [Hok _].
    destruct (tk_entry _ _ _ _ Hok e Hin Hp) as (Hw & E1 & E2).
    exists t, i. split; [done|]. split; [|split; [done|]; split; [done|congruence]].
    split; [lia|]. rewrite <- E2. by eapply (Forall_lookup_1 _ _ _ _ HD).
Qed.

Lemma round_outcome F F' s m s' es xs now :
  inv F (tm s) -> inv F' (tm s') -> Forall2 expires es xs -> es ++ entries m ≡ₚ entries (tm s) ->
  index_only (E := wait_timer) (tasks (tm s)) (tasks m) ->
  (forall e, e ∈ entries (tm s') <-> e ∈ entries m /\
     forall x, x ∈ xs -> wt_task e <> Some (ex_task x)) ->
  batch_outcome xs (s {{ tm := m }}) s' ->
  (forall x, x ∈ xs -> exists t, task_of s (ex_task x) = Some t /\ due now t) ->
  pass_outcome now s s'.
Proof.
  intros Hinv Hinv' HF HP HI HL Ho Hlive p t Ht. pose proof (HI p) as Hp.
  unfold task_of in Ht. rewrite Ht in Hp.
  destruct (tasks m !! p) as [t1|] eqn:Ht1; [|done]. destruct Hp as [i ->].
  destruct (Ho p _ Ht1) as (t' & Ht' & Hout). exists t'. split; [done|].
  case_bool_decide as Hin.
  - left. split; [|by eapply woken_index_l].
    apply list_elem_of_fmap in Hin as (x & -> & Hx). destruct (Hlive x Hx) as (u & Hu & Hd).
    unfold task_of in Hu. rewrite Ht in Hu. apply (inj Some) in Hu. by subst u.
  - right. destruct Hout as [j ->]. exists j. split; [done|].
    transitivity (exists e, e ∈ entries (tm s') /\ wt_task e = Some p).
    { rewrite <- (index_entry MAX _ p _ (pi_timers _ _ _ Hinv') Ht'). done. }
    rewrite (index_entry MAX _ p t (pi_timers _ _ _ Hinv) Ht).
    assert (forall x, x ∈ xs -> ex_task x <> p) as Hno
      by (intros x Hx <-; by apply Hin, list_elem_of_fmap_2).
    split; intros (e & He & Hp).
    + exists e. split; [|done]. rewrite <- HP. apply elem_of_app. right. by apply HL.
    + exists e. split; [|done]. rewrite <- HP in He. apply HL. apply elem_of_app in He as [He|He].
      * exfalso. apply list_elem_of_lookup in He as [k Hk].
        destruct (Forall2_lookup_l _ _ _ _ _ HF Hk) as (x & Hx & Hxp & _).
        apply (Hno x); [by eapply list_elem_of_lookup_2|congruence].
      * split; [done|]. intros x Hx Hxp. apply (Hno x Hx). congruence.
Qed.

(** One iteration of the do-while. *)
Lemma round_ok F s now : inv F (tm s) -> refs_small (tm s) ->
  exists m xs s',
    expire_collect (Z.to_nat (cnt (wait_timer_heap (tm s)))) (tm s) now [] = Some (m, xs) /\
    expire_deliver_all NR idle cpu should_preempt (s {{ tm := m }}) xs = Some s' /\
    inv F (tm s') /\ refs_small (tm s') /\ pass_outcome now s s' /\
    cnt (wait_timer_heap (tm s')) <= cnt (wait_timer_heap (tm s)) - Z.of_nat (length xs) /\
    (Z.of_nat (length xs) = 128 \/ forall e, e ∈ entries (tm s') -> now < wt_deadline e).
Proof.
  intros Hinv Hsm. pose proof (pi_timers _ _ _ Hinv) as Hwf.
  pose proof (lk_count _ _ _ (tw_wait _ _ Hwf)) as Hcnt.
  destruct (collect_ok F now (Z.to_nat (cnt (wait_timer_heap (tm s)))) (tm s) []) as
    (m & es & xs & E & Hinv1 & HF & HD & HP & HI & HC & HS & HN); [by rewrite app_nil_r|lia|].
  cbn [app] in *.
  destruct (collected_live F (tm s) m es xs now Hinv HF HD HP HI) as [Hnd Hlive].
  destruct (deliver_all_ok F xs (s {{ tm := m }})) as (s' & E' & Hinv' & Hsm' & HL & Ho);
    [done| |done| |].
  { intros p t Ht. change (tasks m !! p = Some t) in Ht. specialize (HI p). rewrite Ht in HI.
    destruct (tasks (tm s) !! p) as [t0|] eqn:Ht0; [|done]. destruct HI as [i ->].
    exact (Hsm p t0 Ht0). }
  { intros x Hx. destruct (Hlive x Hx) as (t & i & _ & _ & Ht & Hw & Hs).
    exists (ti_set (E := wait_timer) i t). done. }
  exists m, xs, s'. split; [done|]. split; [done|]. split; [done|]. split; [done|].
  pose proof (Forall2_length _ _ _ HF) as Hlen. split; [|split].
  - eapply round_outcome; [exact Hinv|exact Hinv'|exact HF|exact HP|exact HI|exact HL|exact Ho|].
    intros x Hx. destruct (Hlive x Hx) as (t & i & Ht & Hd & _). by exists t.
  - rewrite <- (entries_length (tm s') (pi_timers _ _ _ Hinv')).
    transitivity (Z.of_nat (length (entries m))).
    + apply inj_le, submseteq_length, NoDup_submseteq.
      * apply (NoDup_fmap_1 wt_task), entries_distinct, (pi_timers _ _ _ Hinv').
      * intros e He. by apply HL in He as [? _].
    + rewrite (entries_length m (pi_timers _ _ _ Hinv1)). lia.
  - destruct HS as [HS|HS]; [left; cbn in HN; lia|right]. intros e He. apply HS, HL, He.
Qed.

Lemma pass_ok F fuel s now : inv F (tm s) -> refs_small (tm s) ->
  cnt (wait_timer_heap (tm s)) / 128 < Z.of_nat fuel ->
  exists s', proc_sched_expire_wait_timers NR idle cpu should_preempt fuel s now = Some s' /\
    inv F (tm s') /\ refs_small (tm s') /\ pass_outcome now s s' /\
    forall e, e ∈ entries (tm s') -> now < wt_deadline e.
Proof.
  revert s. induction fuel as [|fuel IH]; intros s Hinv Hsm Hfuel.
  - pose proof (lk_count _ _ _ (tw_wait _ _ (pi_timers _ _ _ Hinv))). zlia.
  - destruct (round_ok F s now Hinv Hsm) as (m & xs & s1 & E & E1 & Hinv1 & Hsm1 & Ho & Hc & Hend).
    cbn [proc_sched_expire_wait_timers]. rewrite E. cbn [mbind option_bind]. rewrite E1.
    cbn [mbind option_bind]. destruct (Z.of_nat (length xs) =? 128) eqn:En; reflect.
    + destruct (IH s1 Hinv1 Hsm1) as (s2 & E2 & Hinv2 & Hsm2 & Ho2 & Hend2); [zlia|].
      exists s2. split; [done|]. split; [done|]. split; [done|]. split; [|done].
      by eapply pass_outcome_trans.
    + destruct Hend as [|Hend]; [done|]. by exists s1.
Qed.
End Expiry.
