(* ===== verification/ParkProtocol.v ===== *)
(** * The park/wake protocol as a transition system

    The critical sections of [Park] interleave in any order, with each other
    and with the rest of the kernel, which may do anything that respects the
    rely condition [env].  Every reachable state satisfies the invariant of
    [ParkTheory], and every step does to the tokens of all tasks what a small
    deterministic automaton says: that automaton is the contract of park.h.
    Where the rest of the scheduler also keeps to its ownership contract, no
    panic of its debug assertion fires. *)

From S2P Require Import Prelude Task TimerHeap HeapTheory TimerTheory Park ParkTheory ParkExpiry.

(** ** The contract: the life of a wait token *)

Record token := { ph : proc_park_state_t; sq : Z; rs : proc_wake_reason_t }.

Definition token_of (t : task_t) : token :=
  {| ph := park_state t; sq := wait_seq t; rs := wake_reason t |}.

(** What is done to the token: the operations of its own task, and those of
    anybody else, with the sequence number they carry and the value they
    return. *)
Inductive act :=
| APrepare
| ACommit (seq : Z)
| ACancel (seq : Z)
| AFinish (seq : Z)
| AWake (seq : Z) (reason : proc_wake_reason_t) (woke : bool)
| ATimeout (seq : Z)
| ADonate (woke : bool).

Definition own_act (a : act) : bool :=
  match a with APrepare | ACommit _ | ACancel _ | AFinish _ => true | _ => false end.

(** The reasons a wait mode lets through. *)
Definition admits (mode : proc_wait_mode_t) (r : proc_wake_reason_t) : bool :=
  match r with
  | PROC_WAKE_SIGNAL => bool_decide (mode = PROC_WAIT_INTERRUPTIBLE)
  | PROC_WAKE_FATAL_SIGNAL | PROC_WAKE_TASK_EXIT => negb (bool_decide (mode = PROC_WAIT_UNINTERRUPTIBLE))
  | _ => true
  end.

Definition is_ph (x : token) (q : proc_park_state_t) : bool := bool_decide (ph x = q).

(** A wake succeeds when it carries the number of a token that waits. *)
Definition wakes (mode : proc_wait_mode_t) (x : token) (seq : Z) (r : proc_wake_reason_t) : bool :=
  (sq x =? seq) && (is_ph x PROC_PARK_PREPARING || is_ph x PROC_PARK_PARKED) && admits mode r.

Definition become (x : token) (q : proc_park_state_t) (r : proc_wake_reason_t) : token :=
  {| ph := q; sq := sq x; rs := r |}.

(** The automaton: the token after an action, for a task that waits in [mode];
    without an action on the token nothing happens to it. *)
Definition token_step (a : option act) (mode : proc_wait_mode_t) (x y : token) : Prop :=
  match a with
  | None => y = x
  | Some APrepare =>
      if is_ph x PROC_PARK_IDLE then
        exists q r, y = {| ph := q; sq := next_seq (sq x); rs := r |} /\
          (q = PROC_PARK_IDLE /\ r = PROC_WAKE_NONE \/ q = PROC_PARK_PREPARING /\ r = PROC_WAKE_NONE \/
           q = PROC_PARK_WOKEN /\ r <> PROC_WAKE_NONE)
      else y = x
  | Some (ACommit seq) =>
      y = if (sq x =? seq) && is_ph x PROC_PARK_PREPARING then become x PROC_PARK_PARKED (rs x) else x
  | Some (ACancel seq) =>
      y = if (sq x =? seq) && is_ph x PROC_PARK_PREPARING then become x PROC_PARK_WOKEN PROC_WAKE_CANCEL else x
  | Some (AFinish seq) =>
      y = if negb (seq =? 0) && (sq x =? seq) && is_ph x PROC_PARK_WOKEN
          then become x PROC_PARK_IDLE PROC_WAKE_NONE else x
  | Some (AWake seq r woke) =>
      woke = wakes mode x seq r /\ y = if woke then become x PROC_PARK_WOKEN r else x
  | Some (ATimeout seq) =>
      y = if wakes mode x seq PROC_WAKE_TIMEOUT then become x PROC_PARK_WOKEN PROC_WAKE_TIMEOUT else x
  | Some (ADonate woke) =>
      if woke then ph x = PROC_PARK_PARKED /\ y = become x PROC_PARK_WOKEN PROC_WAKE_EVENT else y = x
  end.

Section Protocol.
Context (MAX TPS NR : Z) (MAX_ok : 0 < MAX <= 2147483646).
Context (idle : nat) (cpu : Z) (should_preempt : sys -> nat -> Z -> bool).
Abbreviation inv := (park_inv MAX).
Abbreviation wake := (proc_try_wake_locked_common NR idle cpu should_preempt).

(** ** The rest of the kernel *)

(** What other code may do to the run state of a task, by its phase (the
    contract of proc.h): a preparing task may yield and be run again, a parked
    one is left alone, a woken one is not blocked. *)
Definition run_ok (t t' : task_t) : Prop :=
  match park_state t with
  | PROC_PARK_IDLE => True
  | PROC_PARK_PREPARING => state t' = state t \/ state t' = PROC_RUNNING \/ state t' = PROC_READY
  | PROC_PARK_PARKED => state t' = state t
  | PROC_PARK_WOKEN => state t' = PROC_BLOCKED -> state t = PROC_BLOCKED
  end.

(** What other code may do: run and stop tasks, take and drop references,
    set alarms, create tasks and free them; not touch the park fields or the
    wait heap. *)
Record env (F : list expired_t) (m m' : timers) : Prop := {
  env_wf : timers_wf MAX m';
  env_heap : wait_timer_heap m' = wait_timer_heap m;
  env_task p t t' : tasks m !! p = Some t -> tasks m' !! p = Some t' ->
    park_state t' = park_state t /\ wait_seq t' = wait_seq t /\
    wait_deadline t' = wait_deadline t /\ wake_reason t' = wake_reason t /\
    run_ok t t' /\ (waiting t' -> destroy_started t' = false) /\
    task_refs_ok (inflight F p) t';
  env_new p t' : tasks m !! p = None -> tasks m' !! p = Some t' ->
    park_state t' = PROC_PARK_IDLE /\ wait_deadline t' = 0 /\ in_u64 (wait_seq t') /\
    task_refs_ok 0 t';
  env_gone p t : tasks m !! p = Some t -> tasks m' !! p = None ->
    ~ waiting t /\ inflight F p = 0;
}.

(** ** Steps *)

(** A state: the expired timers not yet delivered, and the system. *)
Definition world : Type := list expired_t * sys.

(** The label: what the step does to the token of which task. *)
Inductive label := LTask (p : nat) (a : act) | LCollect | LEnv.

Inductive step : label -> world -> world -> Prop :=
| st_prepare F s p t mode deadline ticks fatal unblocked s' tok :
    task_of s p = Some t -> p <> idle -> state t = PROC_RUNNING ->
    destroy_started t = false -> refs t < 2147483646 -> in_u64 deadline ->
    proc_park_prepare_locked MAX TPS NR idle cpu should_preempt ticks fatal unblocked s
      (Some p) mode deadline = Some (s', tok) ->
    step (LTask p APrepare) (F, s) (F, s')
| st_commit F s p seq s' r :
    park_commit_publish s (Some p) p seq = Some (s', r) -> step (LTask p (ACommit seq)) (F, s) (F, s')
| st_cancel F s p tok s' b : tok_task tok = Some p ->
    proc_park_cancel s (Some p) tok = Some (s', b) -> step (LTask p (ACancel (tok_seq tok))) (F, s) (F, s')
| st_finish F s p tok s' : tok_task tok = Some p ->
    proc_park_finish s tok = Some s' -> step (LTask p (AFinish (tok_seq tok))) (F, s) (F, s')
| st_wake F s p t seq reason m s' m' b :
    task_of s p = Some t -> reason <> PROC_WAKE_NONE -> refs t < 2147483647 ->
    wake s (Some p) seq reason m = Some (s', m', b) -> step (LTask p (AWake seq reason b)) (F, s) (F, s')
| st_donate F s q d s' b :
    task_of s q = Some d -> refs d < 2147483647 ->
    park_donate_wake cpu s q = Some (s', b) -> step (LTask q (ADonate b)) (F, s) (F, s')
| st_collect F s now m xs :
    expire_collect (Z.to_nat (cnt (wait_timer_heap (tm s)))) (tm s) now [] = Some (m, xs) ->
    step LCollect (F, s) (F ++ xs, s {{ tm := m }})
| st_deliver F F' s x t s' :
    F ≡ₚ x :: F' -> task_of s (ex_task x) = Some t -> refs t < 2147483647 ->
    expire_deliver NR idle cpu should_preempt s x = Some s' ->
    step (LTask (ex_task x) (ATimeout (ex_seq x))) (F, s) (F', s')
| st_env F s s' : env F (tm s) (tm s') -> step LEnv (F, s) (F, s').

(** The boot state: no tasks, both heaps empty. *)
Definition boot : world :=
  ([], {| tm := empty_timers (Z.to_nat MAX) ∅; evs := [] |}).

Inductive reachable : world -> Prop :=
| reach_boot : reachable boot
| reach_step l w w' : reachable w -> step l w w' -> reachable w'.

(** ** Each step keeps the invariant and refines the token automaton *)

Definition winv (w : world) : Prop := inv (fst w) (tm (snd w)).

(** What a label does to the token of task [p]. *)
Definition act_on (l : label) (p : nat) : option act :=
  match l with LTask q a => if decide (q = p) then Some a else None | _ => None end.

(** The view of every task across a step. *)
Definition refines (l : label) (s s' : sys) : Prop :=
  forall p t t', task_of s p = Some t -> task_of s' p = Some t' ->
    token_step (act_on l p) (wait_mode t) (token_of t) (token_of t').

(** What a step of this code does to the run state of a task. *)
Inductive run_moved (a : option act) (t t' : task_t) : Prop :=
| rm_same : state t' = state t -> same_run t t' -> run_moved a t t'
| rm_wake : state t = PROC_BLOCKED -> state t' = PROC_READY -> queue_run t t' -> run_moved a t t'
| rm_commit seq : a = Some (ACommit seq) -> state t' = PROC_BLOCKED -> same_run t t' -> run_moved a t t'
| rm_donate : state t' = PROC_READY -> dispatching t' = true -> on_rq t' = false ->
    on_cpu t' = false -> owner_cpu t' = cpu -> run_moved a t t'.

Definition moves (l : label) (s s' : sys) : Prop :=
  forall p t', task_of s' p = Some t' -> exists t, task_of s p = Some t /\ run_moved (act_on l p) t t'.

Definition step_good (l : label) (w w' : world) : Prop :=
  winv w' /\ refines l (snd w) (snd w') /\ (l <> LEnv -> moves l (snd w) (snd w')).

Lemma token_set_index t i : token_of (ti_set (E := wait_timer) i t) = token_of t.
Proof. by destruct t. Qed.

Lemma moved_same a t : run_moved a t t.
Proof. by apply rm_same. Qed.

(** It is enough to look at the task the operation is about. *)
Lemma good_frame a p F F' s s' t t' :
  inv F' (tm s') -> frame p (tm s) (tm s') -> task_of s p = Some t -> task_of s' p = Some t' ->
  token_step (Some a) (wait_mode t) (token_of t) (token_of t') -> run_moved (Some a) t t' ->
  step_good (LTask p a) (F, s) (F', s').
Proof.
  intros Hinv [HT _] Ht Ht' Hs Hm. split; [done|].
  split; [intros q u u' Hu Hu'|intros _ q u' Hu']; cbn [snd] in *; unfold act_on;
    destruct (decide (p = q)) as [<-|Hne].
  - rewrite Ht in Hu. rewrite Ht' in Hu'. injection Hu as <-. by injection Hu' as <-.
  - specialize (HT q ltac:(done)). unfold task_of in *. rewrite Hu, Hu' in HT. destruct HT as [i ->].
    apply token_set_index.
  - rewrite Ht' in Hu'. injection Hu' as <-. by exists t.
  - specialize (HT q ltac:(done)). unfold task_of in *. rewrite Hu' in HT.
    destruct (tasks (tm s) !! q) as [u|]; [|done]. destruct HT as [i ->]. exists u. by split; [|apply rm_same].
Qed.

(** An operation that changes nothing. *)
Lemma good_same a p F s t : inv F (tm s) -> task_of s p = Some t ->
  token_step (Some a) (wait_mode t) (token_of t) (token_of t) -> step_good (LTask p a) (F, s) (F, s).
Proof. intros Hinv Ht Hs. eapply good_frame; [done|apply frame_refl|done..|apply moved_same]. Qed.

Lemma woken_token p r t t' : woken idle p r t t' -> token_of t' = become (token_of t) PROC_PARK_WOKEN r.
Proof.
  intros Hwk. unfold token_of, become.
  by rewrite (wk_park _ _ _ _ _ Hwk), (wk_reason _ _ _ _ _ Hwk), (wk_seq _ _ _ _ _ Hwk).
Qed.

(** The guards of the wake path say that the token waits. *)
Lemma can_wake_token L F p t seq r : task_ok L F p t -> can_wake t seq r = wakes (wait_mode t) (token_of t) seq r.
Proof.
  intros Hok. pose proof (tk_phase _ _ _ _ Hok) as Hph. pose proof (tk_seq _ _ _ _ Hok) as [_ Hs].
  assert (bool_decide (waiting t) = bool_decide (park_state t = PROC_PARK_PREPARING)
    || bool_decide (park_state t = PROC_PARK_PARKED)) as Ew
    by (rewrite <- bool_decide_or; by apply bool_decide_ext).
  unfold can_wake, wakes, is_ph. rewrite Ew. cbn [token_of ph sq]. unfold phase_ok in Hph. unfold waiting in Hs.
  destruct (Z.eqb_spec (wait_seq t) seq) as [<-|]; cbn [andb]; [|by rewrite andb_false_r].
  destruct (park_state t); cbn.
  - by rewrite andb_false_r.
  - rewrite (proj2 (Z.eqb_neq _ 0)) by auto. destruct Hph as [-> | ->]; destruct r, (wait_mode t); done.
  - rewrite (proj2 (Z.eqb_neq _ 0)) by auto. rewrite Hph. destruct r, (wait_mode t); done.
  - by rewrite andb_false_r.
Qed.

Lemma woken_moved a p r t t' : woken idle p r t t' -> waiting t -> phase_ok t -> queue_run t t' ->
  run_moved a t t'.
Proof.
  intros Hwk Hw Hph Hq. pose proof (wk_state _ _ _ _ _ Hwk) as Hst. unfold phase_ok in Hph.
  destruct Hw as [Hw|Hw]; rewrite Hw in Hph, Hst; case_bool_decide; try done.
  - apply rm_same; [done|]. destruct Hq as [Hq|[Hq _]]; [done|congruence].
  - by apply rm_wake.
Qed.

Lemma good_prepare F s p t mode deadline ticks fatal unblocked s' tok :
  inv F (tm s) -> task_of s p = Some t -> p <> idle -> state t = PROC_RUNNING ->
  destroy_started t = false -> refs t < 2147483646 -> in_u64 deadline ->
  proc_park_prepare_locked MAX TPS NR idle cpu should_preempt ticks fatal unblocked s
    (Some p) mode deadline = Some (s', tok) ->
  step_good (LTask p APrepare) (F, s) (F, s').
Proof.
  intros Hinv Ht Hid Hst Hd Hr Hdl E.
  destruct (decide (park_state t = PROC_PARK_IDLE)) as [Hpk|Hpk].
  - destruct (prepare_ok MAX TPS NR MAX_ok idle cpu should_preempt F s p t mode deadline ticks fatal
      unblocked Hinv Ht Hid Hpk Hst Hd Hr Hdl) as (s1 & t1 & tok1 & E1 & Hinv1 & Hf & Ht1 & Hout).
    rewrite E in E1. injection E1 as <- <-.
    destruct (pi_tasks _ _ _ Hinv1 p t1 Ht1) as [Hok1 _].
    eapply good_frame; [done..| |]; cbn [token_step].
    + unfold token_of, is_ph. cbn [ph sq]. rewrite Hpk. cbn. exists (park_state t1), (wake_reason t1).
      destruct (heap_full MAX s deadline).
      * destruct Hout as (_ & E1 & E2 & _ & _ & E3 & _). rewrite E2. by auto.
      * destruct Hout as (_ & [E1 _ _ _ _ Hph]). rewrite E1. split; [done|].
        destruct (pending_reason t mode fatal unblocked).
        -- destruct Hph as [E2 _]. pose proof (tk_phase _ _ _ _ Hok1) as Hp1. unfold phase_ok in Hp1.
           rewrite E2 in Hp1. right. right. by destruct Hp1.
        -- destruct Hph as (E2 & _ & E3 & _). by auto.
    + destruct (heap_full MAX s deadline).
      * destruct Hout as (_ & _ & _ & E1 & _ & _ & E2). apply rm_same; congruence.
      * destruct Hout as (_ & [_ _ E1 _ E2 _]). apply rm_same; congruence.
  - unfold proc_park_prepare_locked in E. rewrite (bool_decide_eq_false_2 (p = idle) Hid), Ht in E.
    cbn [mbind option_bind] in E. rewrite Hst, (bool_decide_eq_false_2 (park_state t = _) Hpk) in E.
    cbn in E. injection E as <- _. eapply good_same; [done..|]. cbn. unfold is_ph. cbn [token_of ph].
    by rewrite (bool_decide_eq_false_2 _ Hpk).
Qed.

(** A guard that fails leaves the token. *)
Lemma guard_false (b : bool) (x y : token) : b = false -> x = if b then y else x.
Proof. by intros ->. Qed.

Lemma good_commit F s p seq s' r : inv F (tm s) ->
  park_commit_publish s (Some p) p seq = Some (s', r) -> step_good (LTask p (ACommit seq)) (F, s) (F, s').
Proof.
  intros Hinv E. pose proof E as E0. unfold park_commit_publish in E.
  destruct (task_of s p) as [t|] eqn:Ht; [|done]. cbn [mbind option_bind] in E.
  rewrite bool_decide_eq_true_2 in E by done. cbn [negb orb] in E.
  destruct (wait_seq t =? seq) eqn:Es; cbn [negb] in E.
  2: { injection E as <- _. eapply good_same; [done..|]. apply guard_false. cbn. by rewrite Es. }
  destruct (decide (park_state t = PROC_PARK_PREPARING)) as [Hpk|Hpk].
  - reflect. destruct (commit_publish_ok MAX F s p t seq Hinv Ht Es Hpk) as (E1 & Hinv1 & Hf & Ht1).
    rewrite E0 in E1. apply (inj Some), (f_equal fst) in E1. cbn [fst] in E1. subst s'.
    eapply good_frame; [done..| |by eapply rm_commit]. cbn. unfold is_ph. cbn. by rewrite Es, Hpk, Z.eqb_refl.
  - assert (s' = s) as -> by (destruct (park_state t); try done; by injection E as <- _).
    eapply good_same; [done..|]. apply guard_false. unfold is_ph. cbn.
    by rewrite (bool_decide_eq_false_2 _ Hpk), andb_false_r.
Qed.

Lemma good_cancel F s p tok s' b : inv F (tm s) -> tok_task tok = Some p -> is_Some (task_of s p) ->
  proc_park_cancel s (Some p) tok = Some (s', b) ->
  step_good (LTask p (ACancel (tok_seq tok))) (F, s) (F, s').
Proof.
  intros Hinv Hp [t Ht] E. pose proof E as Eall. unfold proc_park_cancel in E. rewrite Hp in E.
  destruct (pi_tasks _ _ _ Hinv p t Ht) as [Hok _]. pose proof (tk_seq _ _ _ _ Hok) as [_ Hs0].
  destruct ((sq (token_of t) =? tok_seq tok) && is_ph (token_of t) PROC_PARK_PREPARING) eqn:Eg.
  - unfold is_ph in Eg. cbn in Eg. apply andb_true_iff in Eg as [Es Hpk%bool_decide_eq_true].
    reflect. destruct tok as [tt ts te]. cbn in Hp, Es. subst tt ts.
    destruct (park_cancel_ok MAX MAX_ok idle F s p t te Hinv Ht Hpk)
      as (s1 & t1 & E1 & Hinv1 & Hf & Ht1 & Hwk & Hrun).
    rewrite Eall in E1. injection E1 as <- _. eapply good_frame; [done..| |].
    + cbn. unfold is_ph. cbn. rewrite Z.eqb_refl, Hpk. by apply (woken_token p).
    + eapply woken_moved; [done|by left|apply Hok|by left].
  - assert (s' = s) as ->.
    { destruct (tok_seq tok =? 0); [by injection E as <- _|]. rewrite Ht in E.
      cbn [mbind option_bind] in E. rewrite (bool_decide_eq_true_2 (Some p = Some p)) in E by done.
      cbn [andb] in E. unfold is_ph in Eg. cbn in Eg. rewrite Eg in E. by injection E as <- _. }
    eapply good_same; [done..|]. by apply guard_false.
Qed.

Lemma good_finish F s p tok s' : inv F (tm s) -> tok_task tok = Some p -> is_Some (task_of s p) ->
  proc_park_finish s tok = Some s' -> step_good (LTask p (AFinish (tok_seq tok))) (F, s) (F, s').
Proof.
  intros Hinv Hp [t Ht] E. pose proof E as Eall. unfold proc_park_finish in E. rewrite Hp in E.
  destruct (negb (tok_seq tok =? 0) && (sq (token_of t) =? tok_seq tok)
    && is_ph (token_of t) PROC_PARK_WOKEN) eqn:Eg.
  - unfold is_ph in Eg. cbn in Eg. apply andb_true_iff in Eg as [[E0 Es]%andb_true_iff Hpk%bool_decide_eq_true].
    reflect. destruct tok as [tt ts te]. cbn in Hp, Es, E0. subst tt ts.
    destruct (finish_ok MAX F s p t te Hinv Ht Hpk E0) as (E1 & Hinv1 & Hf & Ht1).
    rewrite Eall in E1. apply (inj Some) in E1. subst s'.
    eapply good_frame; [done..| |by apply rm_same]. cbn. unfold is_ph. cbn.
    by rewrite (proj2 (Z.eqb_neq _ _) E0), Z.eqb_refl, Hpk.
  - assert (s' = s) as ->.
    { destruct (tok_seq tok =? 0); [by injection E as <-|]. rewrite Ht in E.
      cbn [mbind option_bind] in E. unfold is_ph in Eg. cbn in Eg.
      destruct (wait_seq t =? tok_seq tok); cbn [negb] in E; [|by injection E as <-].
      cbn in Eg. rewrite Eg in E. cbn [negb] in E. by injection E as <-. }
    eapply good_same; [done..|]. by apply guard_false.
Qed.

Lemma good_wake F s p t seq reason m s' m' b :
  inv F (tm s) -> task_of s p = Some t -> reason <> PROC_WAKE_NONE -> refs t < 2147483647 ->
  wake s (Some p) seq reason m = Some (s', m', b) -> step_good (LTask p (AWake seq reason b)) (F, s) (F, s').
Proof.
  intros Hinv Ht Hne Hr E. destruct (pi_tasks _ _ _ Hinv p t Ht) as [Hok _].
  pose proof (wake_ok MAX NR MAX_ok idle cpu should_preempt F s p t seq reason m Hinv Ht Hne Hr) as Hw.
  pose proof (can_wake_token _ _ _ _ seq reason Hok) as Et. destruct (can_wake t seq reason) eqn:Ec.
  - destruct Hw as (s1 & m1 & t1 & E1 & Hinv1 & Hf & Ht1 & Hwk & Hq). rewrite E in E1.
    injection E1 as <- _ ->. eapply good_frame; [done..| |].
    + cbn. split; [done|by apply (woken_token p)].
    + eapply woken_moved; [done| |apply Hok|done]. unfold can_wake in Ec.
      apply andb_true_iff in Ec as [_ Ec]. by apply bool_decide_eq_true in Ec.
  - rewrite E in Hw. injection Hw as -> _ ->. by eapply good_same.
Qed.

Lemma good_donate F s q d s' b :
  inv F (tm s) -> task_of s q = Some d -> refs d < 2147483647 ->
  park_donate_wake cpu s q = Some (s', b) -> step_good (LTask q (ADonate b)) (F, s) (F, s').
Proof.
  intros Hinv Hd Hr E. pose proof (donate_wake_ok MAX MAX_ok idle cpu F s q d Hinv Hd Hr) as Hw.
  destruct (donatable cpu d) eqn:Ec.
  - destruct Hw as (s1 & d1 & E1 & Hinv1 & Hf & Hd1 & Hwk & R1 & R2 & R3 & R4). rewrite E in E1.
    injection E1 as <- ->.
    assert (park_state d = PROC_PARK_PARKED) as Hpk
      by (unfold donatable in Ec; repeat (apply andb_true_iff in Ec as [Ec _]); by apply bool_decide_eq_true in Ec).
    eapply good_frame; [done..| |].
    + split; [done|by apply (woken_token q)].
    + apply rm_donate; try done. rewrite (wk_state _ _ _ _ _ Hwk). by rewrite bool_decide_eq_true_2.
  - rewrite E in Hw. injection Hw as -> ->. by eapply good_same.
Qed.

Lemma good_collect F s now m xs : inv F (tm s) ->
  expire_collect (Z.to_nat (cnt (wait_timer_heap (tm s)))) (tm s) now [] = Some (m, xs) ->
  step_good LCollect (F, s) (F ++ xs, s {{ tm := m }}).
Proof.
  intros Hinv E. pose proof (lk_count _ _ _ (tw_wait _ _ (pi_timers _ _ _ Hinv))).
  destruct (collect_ok MAX MAX_ok F now (Z.to_nat (cnt (wait_timer_heap (tm s)))) (tm s) [])
    as (m1 & es & ys & E1 & Hinv1 & _ & _ & _ & HI & _); [by rewrite app_nil_r|lia|].
  rewrite E in E1. injection E1 as <- <-. split; [done|].
  split; [intros p t t' Ht Ht'|intros _ p t' Ht']; specialize (HI p); unfold task_of in *;
    cbn [snd] in *; record.simp_hyps.
  - rewrite Ht, Ht' in HI. destruct HI as [i ->]. apply token_set_index.
  - rewrite Ht' in HI. destruct (tasks (tm s) !! p) as [t|]; [|done]. destruct HI as [i ->].
    exists t. by split; [|apply rm_same].
Qed.

Lemma good_deliver F F' s x t s' :
  inv F (tm s) -> F ≡ₚ x :: F' -> task_of s (ex_task x) = Some t -> refs t < 2147483647 ->
  expire_deliver NR idle cpu should_preempt s x = Some s' ->
  step_good (LTask (ex_task x) (ATimeout (ex_seq x))) (F, s) (F', s').
Proof.
  intros Hinv HP Ht Hr E. destruct (pi_tasks _ _ _ Hinv _ t Ht) as [Hok _].
  destruct (pi_flight _ _ _ Hinv x) as [Hs0 _]; [rewrite HP; by apply elem_of_cons; left|].
  destruct (deliver_ok MAX NR MAX_ok idle cpu should_preempt F F' s x t Hinv HP Ht Hr)
    as (s1 & E1 & Hinv1 & Hf & Hout). rewrite E in E1. injection E1 as <-.
  rewrite <- (can_wake_timeout MAX MAX_ok _ _ _ _ _ Hok Hs0), (can_wake_token _ _ _ _ _ _ Hok) in Hout.
  destruct (wakes _ _ _ _) eqn:Ew.
  - destruct Hout as (t1 & Ht1 & _ & Hwk & Hq). eapply good_frame; [done..| |].
    + cbn [token_step]. rewrite Ew. by apply (woken_token (ex_task x)).
    + eapply woken_moved; [done| |apply Hok|done]. unfold wakes, is_ph in Ew.
      apply andb_true_iff in Ew as [[_ Ew%orb_true_iff]%andb_true_iff _].
      by destruct Ew as [Ew%bool_decide_eq_true|Ew%bool_decide_eq_true]; [left|right].
  - destruct Hout as [Hout _]. destruct (task_of s' (ex_task x)) as [t1|] eqn:Ht1.
    + rewrite (Hout t1 eq_refl) in Ht1. eapply good_frame; [done..| |by apply rm_same].
      cbn [token_step]. by rewrite Ew.
    + split; [done|]. destruct Hf as [HT _].
      split; [intros q u u' Hu Hu'|intros _ q u' Hu']; cbn [snd] in *; unfold act_on;
        (destruct (decide (ex_task x = q)) as [<-|Hne]; [congruence|]);
        specialize (HT q ltac:(done)); unfold task_of in *.
      * rewrite Hu, Hu' in HT. destruct HT as [i ->]. apply token_set_index.
      * rewrite Hu' in HT. destruct (tasks (tm s) !! q) as [u|]; [|done]. destruct HT as [i ->].
        exists u. by split; [|apply rm_same].
Qed.

(** The transitions other code may make keep the phase conditions. *)
Lemma run_ok_phase t t' : phase_ok t -> run_ok t t' -> park_state t' = park_state t ->
  wake_reason t' = wake_reason t -> phase_ok t'.
Proof.
  unfold phase_ok, run_ok. intros Hph Hr -> ->. destruct (park_state t); [done| | |].
  - destruct Hph, Hr as [->|?]; auto.
  - congruence.
  - split; [apply Hph|]. intros Hb. by apply Hph, Hr.
Qed.

Lemma good_env F s s' : inv F (tm s) -> env F (tm s) (tm s') -> step_good LEnv (F, s) (F, s').
Proof.
  intros Hinv [Hwf Hheap Htask Hnew Hgone].
  assert (entries (tm s') = entries (tm s)) as HL by (unfold entries; by rewrite Hheap).
  split; [constructor; [done| |]|split; [|done]].
  - intros p t' Ht'. cbn [snd fst] in *. rewrite HL. destruct (tasks (tm s) !! p) as [t|] eqn:Ht.
    + destruct (Htask p t t' Ht Ht') as (E1 & E2 & E3 & E4 & Hrun & Hd & Hr).
      destruct (pi_tasks _ _ _ Hinv p t Ht) as [Hok _]. split; [|done].
      pose proof (run_ok_phase t t' (tk_phase _ _ _ _ Hok) Hrun E1 E4). destruct Hok.
      unfold waiting in *. constructor; unfold waiting; try done; rewrite ?E1, ?E2, ?E3; done.
    + destruct (Hnew p t' Ht Ht') as (E1 & E2 & Hu & Hr).
      assert (forall x, x ∈ F -> ex_task x <> p) as Hno.
      { intros x Hx <-. destruct (pi_flight _ _ _ Hinv x Hx) as [_ [? ?]]. congruence. }
      split.
      * apply idle_ok; try done. intros e He Hp.
        destruct (live_task _ _ _ _ _ (tw_wait _ _ (pi_timers _ _ _ Hinv)) He Hp) as (t & Ht2 & _).
        congruence.
      * by rewrite (inflight_none F p Hno).
  - intros x Hx. cbn [snd fst] in *. destruct (pi_flight _ _ _ Hinv x Hx) as [Hs [t Ht]].
    split; [done|]. destruct (tasks (tm s') !! ex_task x) as [|] eqn:Ht'; [by eexists|].
    destruct (Hgone _ t Ht Ht') as [_ Hz]. by destruct (inflight_zero F (ex_task x) ltac:(lia) x Hx eq_refl).
  - intros p t t' Ht Ht'. destruct (Htask p t t' Ht Ht') as (E1 & E2 & E3 & E4 & _).
    cbn. unfold token_of. by rewrite E1, E2, E4.
Qed.

Lemma cancel_live s p tok s' b : tok_task tok = Some p -> 
  proc_park_cancel s (Some p) tok = Some (s', b) -> s' = s \/ is_Some (task_of s p).
Proof.
  intros Hp E. unfold proc_park_cancel in E. rewrite Hp in E.
  destruct (tok_seq tok =? 0); [left; by injection E|]. destruct (task_of s p); [right; by eexists|done].
Qed.

Lemma finish_live s p tok s' : tok_task tok = Some p ->
  proc_park_finish s tok = Some s' -> s' = s \/ is_Some (task_of s p).
Proof.
  intros Hp E. unfold proc_park_finish in E. rewrite Hp in E.
  destruct (tok_seq tok =? 0); [left; by injection E|]. destruct (task_of s p); [right; by eexists|done].
Qed.

Lemma good_absent p a F s : inv F (tm s) -> task_of s p = None -> step_good (LTask p a) (F, s) (F, s).
Proof.
  intros Hinv Hn. split; [done|]. split; [intros q u u' Hu Hu'|intros _ q u' Hu']; cbn [snd] in *;
    unfold act_on; (destruct (decide (p = q)) as [<-|]; [congruence|]).
  - rewrite Hu in Hu'. by injection Hu' as <-.
  - exists u'. split; [done|apply moved_same].
Qed.

Lemma step_ok l w w' : winv w -> step l w w' -> step_good l w w'.
Proof.
  intros Hinv Hs. destruct Hs.
  - by eapply good_prepare.
  - by eapply good_commit.
  - destruct (task_of s p) as [t|] eqn:Ht; [eapply good_cancel; [done|done|by eexists|done]|].
    destruct (cancel_live s p tok s' b) as [->|[? ?]]; [done..|by apply good_absent|congruence].
  - destruct (task_of s p) as [t|] eqn:Ht; [eapply good_finish; [done|done|by eexists|done]|].
    destruct (finish_live s p tok s') as [->|[? ?]]; [done..|by apply good_absent|congruence].
  - by eapply good_wake.
  - by eapply good_donate.
  - by eapply good_collect.
  - by eapply good_deliver.
  - by apply good_env.
Qed.

Lemma boot_inv : winv boot.
Proof.
  constructor; [|done|intros x Hx; by apply not_elem_of_nil in Hx].
  cbn [snd boot tm]. replace MAX with (Z.of_nat (Z.to_nat MAX)) at 1 by lia.
  by apply empty_timers_wf.
Qed.

Lemma reachable_inv w : reachable w -> winv w.
Proof. induction 1 as [|l w w' _ IH Hs]; [apply boot_inv|]. by apply (step_ok l w w'). Qed.

(** ** The timer module's self-check *)

Lemma violations_zero F m : inv F m -> proc_wait_timer_violations_locked MAX m = Some 0.
Proof.
  intros Hinv. pose proof (pi_timers _ _ _ Hinv) as Hwf. pose proof (tw_wait _ _ Hwf) as Hl.
  pose proof (lk_count _ _ _ Hl) as Hc. pose proof (tw_wait_len _ _ Hwf) as Hlen.
  unfold proc_wait_timer_violations_locked.
  rewrite (proj2 (Z.ltb_ge _ _)) by lia. cbn [c_bool].
  match goal with |- for_ 0 _ ?b 0 = _ =>
    destruct (for_inv (fun _ v => v = 0) b 0 (cnt (wait_timer_heap m)) 0) as (v & E & ->) end;
    [lia|done| |exact E].
  intros i v Hi ->. exists 0. split; [|done].
  destruct (lk_slot _ _ _ Hl i Hi) as (e & p & t & He & Hp & Ht & Hti). cbn in Hp, Hti.
  assert (e ∈ entries m) as Hin by (apply live_lookup; [apply Hl|]; by exists i).
  pose proof (tw_wait_valid _ _ Hwf) as Hv. rewrite Forall_forall in Hv.
  destruct (Hv e Hin) as [Hd0 Hs0].
  destruct (pi_tasks _ _ _ Hinv p t Ht) as [Hok _].
  destruct (tk_entry _ _ _ _ Hok e Hin Hp) as (_ & Es & Ed).
  rewrite He. cbn [mbind option_bind]. rewrite Hp.
  rewrite (proj2 (Z.eqb_neq _ _) Hd0), (proj2 (Z.eqb_neq _ _) Hs0), Ht. cbn [mbind option_bind].
  rewrite bool_decide_eq_false_2, Hti, Es, Ed, !Z.eqb_refl by done. cbn [negb orb mbind option_bind].
  destruct (0 <? i) eqn:Ei; [|done]. reflect.
  destruct (lk_slot _ _ _ Hl ((i - 1) / 2)) as (u & _ & _ & Hu & _); [zlia|].
  rewrite Hu. cbn [mbind option_bind]. rewrite (proj2 (Z.ltb_ge _ _)); [done|].
  pose proof (tw_wait_order _ _ Hwf i ltac:(lia)) as Ho. unfold dl, parent in Ho. rewrite He, Hu in Ho.
  by rewrite <- Ed.
Qed.

(** ** The scheduler's assertion *)

(** The ownership conditions of proc.h: a task is on a run queue, selected by
    a CPU or running on one, never two of these, and has an owner in the last
    two cases only. *)
Record owned (p : nat) (t : task_t) : Prop := {
  ow_queue : on_rq t = true -> dispatching t = false /\ on_cpu t = false;
  ow_one : dispatching t = true -> on_cpu t = false;
  ow_selected : dispatching t = true -> state t = PROC_READY;
  ow_owner : owner_cpu t = PROC_CPU_NONE <-> dispatching t = false /\ on_cpu t = false;
  ow_range : owner_cpu t <> PROC_CPU_NONE -> owner_cpu t < NR;
  ow_running : state t = PROC_RUNNING -> p <> idle -> on_cpu t = true;
  ow_unused : state t = PROC_UNUSED ->
    on_rq t = false /\ dispatching t = false /\ on_cpu t = false;
}.

Definition all_owned (s : sys) : Prop := forall p t, task_of s p = Some t -> owned p t.

(** The histories in which the rest of the scheduler keeps its own contract:
    only a running task commits, and what other code does to the run state
    leaves the ownership conditions true where they were true. *)
Definition scheduled (l : label) (w w' : world) : Prop :=
  match l with
  | LTask p (ACommit _) => forall t, task_of (snd w) p = Some t -> state t = PROC_RUNNING
  | LEnv => all_owned (snd w) -> all_owned (snd w')
  | _ => True
  end.

Inductive sched_reachable : world -> Prop :=
| sr_boot : sched_reachable boot
| sr_step l w w' : sched_reachable w -> step l w w' -> scheduled l w w' -> sched_reachable w'.

Lemma sched_reachable_reachable w : sched_reachable w -> reachable w.
Proof. induction 1; [apply reach_boot|by eapply reach_step]. Qed.

Lemma owned_same p t t' : owned p t -> same_run t t' ->
  (dispatching t = true -> state t' = PROC_READY) ->
  (state t' = PROC_RUNNING -> p <> idle -> on_cpu t = true) ->
  (state t' = PROC_UNUSED -> on_rq t = false /\ dispatching t = false /\ on_cpu t = false) ->
  owned p t'.
Proof. intros [] (E1 & E2 & E3 & E4) H1 H2 H3. constructor; rewrite ?E1, ?E2, ?E3, ?E4; done. Qed.

(** No step of this code breaks them. *)
Lemma moved_owned a p t t' : 0 <= cpu < NR -> NR <= PROC_CPU_NONE -> owned p t -> run_moved a t t' ->
  (forall seq, a = Some (ACommit seq) -> state t = PROC_RUNNING) -> owned p t'.
Proof.
  intros Hcpu HNR Ho Hm Hc. destruct Hm as [Est Hr|Hb Hst [Hr|Hq]|seq Ha Hst Hr|Hst Hd Hq Hoc How].
  - eapply owned_same; [done..|rewrite Est; apply Ho|rewrite Est; apply Ho|rewrite Est; apply Ho].
  - eapply owned_same; [done|done|done|congruence|congruence].
  - destruct Hq as (_ & D1 & D2 & D3 & D4 & D5 & D6). destruct Ho. constructor;
      rewrite ?D3, ?D4, ?D5, ?D6, ?Hst; try done.
    rewrite D1, D2 in ow_owner0. tauto.
  - specialize (Hc seq Ha). assert (dispatching t = false) as Hnd.
    { destruct (dispatching t) eqn:E; [|done]. pose proof (ow_selected _ _ Ho E). congruence. }
    eapply owned_same; [done|done|congruence|congruence|congruence].
  - constructor; rewrite ?Hst, ?Hd, ?Hq, ?Hoc, ?How; try done; lia.
Qed.

Lemma sched_reachable_owned w : 0 <= cpu < NR -> NR <= PROC_CPU_NONE ->
  sched_reachable w -> all_owned (snd w).
Proof.
  intros Hcpu HNR. induction 1 as [|l w w' Hr IH Hs Hside]; [by intros p t Ht|].
  pose proof (reachable_inv _ (sched_reachable_reachable _ Hr)) as Hinv.
  destruct (step_ok l w w' Hinv Hs) as (_ & _ & Hm).
  assert (l <> LEnv -> all_owned (snd w')) as Hrest.
  { intros Hl p t' Ht'. destruct (Hm Hl p t' Ht') as (t & Ht & Hmv).
    eapply moved_owned; [done..|by apply IH|done|].
    intros seq Ha. unfold act_on in Ha. destruct l as [q a| |]; [|done..].
    case_decide; [|done]. injection Ha as ->. subst q. by apply Hside. }
  destruct l; try (by apply Hrest). by apply Hside.
Qed.

Lemma assert_ok s p t : task_of s p = Some t -> phase_ok t -> owned p t ->
  proc_sched_assert_task_locked NR idle s (Some p) = Some tt.
Proof.
  intros Ht Hph Ho. unfold proc_sched_assert_task_locked. rewrite Ht. cbn [mbind option_bind].
  unfold phase_ok in Hph. destruct Ho.
  rewrite (proj2 (andb_false_iff _ _)).
  2: { destruct (decide (state t = PROC_READY)) as [E|E]; [right; by rewrite bool_decide_eq_true_2|left].
       destruct (park_state t) eqn:Ep; cbn; try done. destruct Hph as [->|?]; [done|congruence]. }
  rewrite (proj2 (andb_false_iff _ _)).
  2: { destruct (park_state t) eqn:Ep; try (left; done). right. by rewrite Hph. }
  destruct (on_rq t) eqn:E1; [destruct ow_queue0 as [E2 E3]; [done|]|];
    [rewrite E2, E3 in *|destruct (dispatching t) eqn:E2; [rewrite ow_one0, ow_selected0 in * by done|
      destruct (on_cpu t) eqn:E3]]; cbn [andb orb negb].
  all: destruct (Z.eqb_spec (owner_cpu t) PROC_CPU_NONE) as [E4|E4]; cbn [Bool.eqb negb];
    try (exfalso; tauto || (by apply ow_owner0 in E4 as [? ?])); try tauto.
  all: repeat (rewrite (proj2 (Z.leb_gt NR (owner_cpu t))) by auto).
  all: repeat case_bool_decide; cbn; try done; exfalso;
    first [by destruct ow_unused0|by rewrite ow_running0 in *|naive_solver].
Qed.

(** C10: the protocol is the token automaton.  Every critical section of
    park.c and of the timer expiry, run by any CPU in any reachable state, does
    to the token of its task exactly what the automaton says for the sequence
    number and reason it carries, and nothing to the token of any other task;
    what the rest of the kernel may do leaves the tokens alone.  So a number
    changes only when its own task prepares again; a wake or a timeout
    succeeds, and the wake reports so, exactly when it carries the number of
    a token that still waits and the wait mode admits its reason, and a stale
    one changes nothing; commit, cancel and finish act only on the current
    number; a donation, which carries no number, can only wake a token that
    is parked.  A woken token stays as it is until its task finishes it. *)
Theorem park_refines_token_automaton l w w' : reachable w -> step l w w' ->
  refines l (snd w) (snd w').
Proof. intros Hr Hs. apply (step_ok l w w' (reachable_inv w Hr) Hs). Qed.

(** C11: consistency of every reachable state.  The timer module's own
    violation count is 0; no panic of the scheduler's debug assertion fires
    for any task (the two on the wait state and the seven on who owns the
    task), in every history in which the rest of the scheduler keeps the
    ownership contract of proc.h and only running tasks commit; a woken task
    is not left blocked; a task waiting with a deadline has its entry in the
    heap or its expiry on the way, so no timeout is lost; and a task that is
    not waiting has no entry, so no timeout fires late. *)
Theorem park_reachable_consistent F s : sched_reachable (F, s) ->
  0 <= cpu < NR -> NR <= PROC_CPU_NONE ->
  proc_wait_timer_violations_locked MAX (tm s) = Some 0 /\
  forall p t, task_of s p = Some t ->
    proc_sched_assert_task_locked NR idle s (Some p) = Some tt /\
    (park_state t = PROC_PARK_WOKEN -> state t <> PROC_BLOCKED /\ wake_reason t <> PROC_WAKE_NONE) /\
    (waiting t -> wait_deadline t <> 0 ->
       (exists e, e ∈ entries (tm s) /\ wt_task e = Some p /\ wt_seq e = wait_seq t /\
          wt_deadline e = wait_deadline t) \/
       {| ex_task := p; ex_seq := wait_seq t |} ∈ F) /\
    (~ waiting t -> forall e, e ∈ entries (tm s) -> wt_task e <> Some p).
Proof.
  intros Hsr Hcpu HNR. pose proof (sched_reachable_owned _ Hcpu HNR Hsr) as Hown.
  pose proof (reachable_inv _ (sched_reachable_reachable _ Hsr)) as Hinv.
  split; [by eapply violations_zero|].
  intros p t Ht. destruct (pi_tasks _ _ _ Hinv p t Ht) as [Hok _]. cbn [snd fst] in Hok.
  pose proof (tk_phase _ _ _ _ Hok) as Hph.
  split; [eapply assert_ok; [done..|by apply Hown]|]. split.
  { intros Hpk. unfold phase_ok in Hph. rewrite Hpk in Hph. by destruct Hph. }
  split.
  - intros Hw Hd. destruct (tk_armed _ _ _ _ Hok Hw Hd) as [(e & He & Hp)|Hin]; [left|by right].
    exists e. split; [done|]. split; [done|]. by apply (tk_entry _ _ _ _ Hok e He Hp).
  - intros Hn. by eapply no_entry.
Qed.

Lemma request_cpus_tm s r q : tm (request_cpus NR s r q) = tm s.
Proof.
  unfold request_cpus. generalize (List.seq 0 (Z.to_nat (Z.min NR 64))). intros l. revert s.
  induction l as [|c l IH]; intros s; [done|]. cbn [fold_left]. rewrite IH. by split_if.
Qed.

(** Waking.  In a reachable state [proc_try_wake] on a live task always
    returns.  It succeeds exactly when the token is current and waiting and
    its mode admits the reason; then the task is WOKEN with that reason, has
    no timer entry left, and if it was parked it is READY and on a run queue
    unless a CPU already owns it.  Otherwise nothing changes. *)
Theorem try_wake_correct F s p t seq reason :
  reachable (F, s) -> task_of s p = Some t -> reason <> PROC_WAKE_NONE ->
  refs t < 2147483647 ->
  exists s', proc_try_wake NR idle cpu should_preempt s (Some p) seq reason
      = Some (s', can_wake t seq reason) /\
    if can_wake t seq reason then
      (exists t', task_of s' p = Some t' /\ woken idle p reason t t') /\
      (forall e, e ∈ entries (tm s') <-> e ∈ entries (tm s) /\ wt_task e <> Some p)
    else tm s' = tm s.
Proof.
  intros Hr Ht Hne Href. pose proof (reachable_inv _ Hr) as Hinv. unfold proc_try_wake.
  pose proof (wake_ok MAX NR MAX_ok idle cpu should_preempt F s p t seq reason (Some (0, 0))
    Hinv Ht Hne Href) as Hw. destruct (can_wake t seq reason).
  - destruct Hw as (s1 & m' & t1 & E1 & Hinv1 & [_ HL] & Ht1 & Hwk & _).
    rewrite E1. cbn [mbind option_bind]. destruct (default (0, 0) m') as [r q].
    eexists. split; [done|]. unfold task_of. rewrite request_cpus_tm. split; [by exists t1|].
    destruct (pi_tasks _ _ _ Hinv1 p t1 Ht1) as [Hok1 _]. intros e.
    destruct (decide (wt_task e = Some p)) as [Hp|Hp]; [|rewrite HL by done; tauto].
    split; [|tauto]. intros He. destruct (tk_entry _ _ _ _ Hok1 e He Hp) as ([Hk|Hk] & _);
      rewrite (wk_park _ _ _ _ _ Hwk) in Hk; done.
  - rewrite Hw. cbn [mbind option_bind default]. eexists. split; [done|]. apply request_cpus_tm.
Qed.

(** C12: timer expiry.  From a reachable state, [cnt / 128 + 1] rounds of the
    do-while are enough: the pass returns, every task whose deadline has
    passed is woken with reason TIMEOUT, every other task is untouched up to
    its slot in the heap, and no entry that is due remains. *)
Theorem expire_wait_timers_correct F s now fuel :
  reachable (F, s) -> refs_small (tm s) ->
  cnt (wait_timer_heap (tm s)) / 128 < Z.of_nat fuel ->
  exists s', proc_sched_expire_wait_timers NR idle cpu should_preempt fuel s now = Some s' /\
    (forall p t, task_of s p = Some t -> exists t', task_of s' p = Some t' /\
       if bool_decide (0 <= wait_timer_index t /\ wait_deadline t <= now)
       then woken idle p PROC_WAKE_TIMEOUT t t'
       else exists i, t' = t {{ wait_timer_index := i }}) /\
    (forall e, e ∈ entries (tm s') -> now < wt_deadline e) /\
    proc_wait_timer_violations_locked MAX (tm s') = Some 0.
Proof.
  intros Hr Hsm Hfuel. pose proof (reachable_inv _ Hr) as Hinv.
  destruct (pass_ok MAX NR MAX_ok idle cpu should_preempt F fuel s now Hinv Hsm Hfuel)
    as (s' & E & Hinv' & _ & Ho & Hend).
  exists s'. split; [done|]. split; [|split; [done|by eapply violations_zero]].
  intros p t Ht. destruct (Ho p t Ht) as (t' & Ht' & Hout). exists t'. split; [done|].
  case_bool_decide as Hd; destruct Hout as [[Hdue Hw]|(i & -> & Hi)]; [done| |done|by exists i].
  exfalso. destruct Hd as [Hd1 Hd2].
  destruct (proj1 (index_entry MAX _ p _ (pi_timers _ _ _ Hinv') Ht')) as (e & He & Hp);
    [by apply Hi|].
  destruct (pi_tasks _ _ _ Hinv' p _ Ht') as [Hok _].
  destruct (tk_entry _ _ _ _ Hok e He Hp) as (_ & _ & Ed). specialize (Hend e He).
  change (wait_deadline (ti_set (E := wait_timer) i t)) with (wait_deadline t) in Ed. lia.
Qed.

(** ** A whole wait *)

(** The steps of the task itself. *)
Definition own_step (p : nat) (l : label) : bool :=
  match act_on l p with Some a => own_act a | None => false end.

(** What happens while task [p] is off the CPU: steps that are not its own,
    and it is not freed. *)
Definition other_step (p : nat) (w w' : world) : Prop :=
  exists l, own_step p l = false /\ step l w w' /\ is_Some (task_of (snd w') p).

Definition asleep_or_woken (t : task_t) : Prop :=
  park_state t = PROC_PARK_PARKED \/ park_state t = PROC_PARK_WOKEN.

Lemma others_keep_token p w w' t :
  rtc (other_step p) w w' -> winv w -> task_of (snd w) p = Some t -> asleep_or_woken t ->
  winv w' /\ exists t', task_of (snd w') p = Some t' /\ wait_seq t' = wait_seq t /\
    asleep_or_woken t'.
Proof.
  intros Hrun. revert t. induction Hrun as [w|w w1 w2 (l & Hl & Hs & [t1 Ht1]) _ IH];
    intros t Hinv Ht Ha; [by eauto|].
  destruct (step_ok l w w1 Hinv Hs) as (Hinv1 & Href & _).
  specialize (Href p t t1 Ht Ht1). unfold own_step in Hl.
  assert (wait_seq t1 = wait_seq t /\ asleep_or_woken t1) as [Hseq Ha1].
  { change (sq (token_of t1) = sq (token_of t) /\
      (ph (token_of t1) = PROC_PARK_PARKED \/ ph (token_of t1) = PROC_PARK_WOKEN)).
    destruct (act_on l p) as [[]|]; cbn [token_step own_act] in *; try done;
      [destruct Href as [_ ->]| rewrite Href|destruct woke; [destruct Href as [_ ->]|rewrite Href]
      |rewrite Href]; try split_if; auto. }
  destruct (IH t1 Hinv1 Ht1 Ha1) as (Hinv2 & t2 & Ht2 & Hs2 & Ha2).
  split; [done|]. exists t2. by rewrite <- Hseq.
Qed.

(** What sched() owes a task that called it PARKED: it returns after steps of
    others, with the task running. *)
Definition sched_contract (F : list expired_t) (p : nat) (sched : sys -> option sys) : Prop :=
  forall s1 t1, inv F (tm s1) -> task_of s1 p = Some t1 ->
    park_state t1 = PROC_PARK_PARKED -> refs t1 < 2147483647 ->
    exists F2 s2 t2, sched s1 = Some s2 /\ rtc (other_step p) (F, s1) (F2, s2) /\
      task_of s2 p = Some t2 /\ state t2 = PROC_RUNNING.

Lemma commit_ok F s p t sched :
  inv F (tm s) -> task_of s p = Some t -> wait_seq t <> 0 -> sched_contract F p sched ->
  park_state t = PROC_PARK_PREPARING /\ refs t < 2147483647 \/
  park_state t = PROC_PARK_WOKEN ->
  exists F' s' t', proc_park_commit sched s (Some p)
      {| tok_task := Some p; tok_seq := wait_seq t; tok_error := PROC_PARK_PREPARE_OK |}
      = Some (s', wake_reason t') /\
    inv F' (tm s') /\ task_of s' p = Some t' /\ wait_seq t' = wait_seq t /\
    park_state t' = PROC_PARK_WOKEN /\ (park_state t = PROC_PARK_WOKEN -> t' = t).
Proof.
  intros Hinv Ht Hs0 Hsched Hph. unfold proc_park_commit. cbn [tok_task tok_seq].
  rewrite (proj2 (Z.eqb_neq _ _) Hs0). destruct Hph as [[Hpk Hr]|Hpk].
  - destruct (commit_publish_ok MAX F s p t (wait_seq t) Hinv Ht eq_refl Hpk)
      as (-> & Hinv1 & _ & Ht1). cbn [mbind option_bind].
    destruct (Hsched _ _ Hinv1 Ht1 eq_refl Hr) as (F2 & s2 & t2 & -> & Hrun & Ht2 & Hst2).
    cbn [mbind option_bind].
    destruct (others_keep_token p _ _ _ Hrun Hinv1 Ht1 (or_introl eq_refl))
      as (Hinv2 & t2' & Ht2' & Hseq & Ha). cbn [snd] in Ht2'. rewrite Ht2 in Ht2'.
    apply (inj Some) in Ht2'. subst t2'. change (wait_seq t2 = wait_seq t) in Hseq.
    destruct (pi_tasks _ _ _ Hinv2 p t2 Ht2) as [Hok2 _].
    pose proof (tk_phase _ _ _ _ Hok2) as Hph. unfold phase_ok in Hph.
    unfold proc_park_wake_reason_unlocked. rewrite Ht2. cbn [mbind option_bind].
    rewrite Hseq, Z.eqb_refl. cbn [negb mbind option_bind].
    exists F2, s2, t2. split; [done|]. split; [done|]. split; [done|]. split; [done|].
    split; [|congruence]. destruct Ha as [Ha|Ha]; [|done]. rewrite Ha in Hph. congruence.
  - unfold park_commit_publish. rewrite Ht. cbn [mbind option_bind].
    rewrite bool_decide_eq_true_2, Z.eqb_refl, Hpk by done. cbn [negb orb mbind option_bind].
    exists F, s, t. done.
Qed.

(** C13: a whole wait.  A running task that calls [proc_park_wait] gets back,
    if sched() keeps its contract, a real wake reason (never NONE) and is
    left IDLE, ready to wait again under a new sequence number.  The reason
    is TIMEOUT_CAPACITY exactly in the case of a full timer heap at entry,
    and a signal or exit that was already pending is returned at once. *)
Theorem park_wait_returns F s p t sched mode deadline ticks fatal unblocked :
  reachable (F, s) -> task_of s p = Some t -> p <> idle -> park_state t = PROC_PARK_IDLE ->
  state t = PROC_RUNNING -> destroy_started t = false -> refs t < 2147483645 ->
  in_u64 deadline -> sched_contract F p sched ->
  exists s' r t', proc_park_wait MAX TPS NR idle cpu should_preempt sched ticks fatal unblocked s
      (Some p) mode deadline = Some (s', r) /\
    task_of s' p = Some t' /\ park_state t' = PROC_PARK_IDLE /\
    wait_seq t' = next_seq (wait_seq t) /\ wait_deadline t' = 0 /\ r <> PROC_WAKE_NONE /\
    if heap_full MAX s deadline then r = PROC_WAKE_TIMEOUT_CAPACITY
    else forall r0, pending_reason t mode fatal unblocked = Some r0 -> r = r0.
Proof.
  intros Hreach Ht Hid Hpk Hst Hd Hr Hdl Hsched. pose proof (reachable_inv _ Hreach) as Hinv.
  destruct (prepare_ok MAX TPS NR MAX_ok idle cpu should_preempt F s p t mode deadline ticks fatal
    unblocked Hinv Ht Hid Hpk Hst Hd ltac:(lia) Hdl)
    as (s1 & t1 & tok & E1 & Hinv1 & _ & Ht1 & Hout).
  unfold proc_park_wait, proc_park_prepare. rewrite E1. cbn [mbind option_bind].
  destruct (pi_tasks _ _ _ Hinv1 p t1 Ht1) as [Hok1 _].
  destruct (next_seq_ok (wait_seq t)) as (_ & Hs0 & _).
  { destruct (pi_tasks _ _ _ Hinv p t Ht) as [Hok _]. apply Hok. }
  destruct (heap_full MAX s deadline).
  - destruct Hout as (-> & Ep & Es & _). cbn. exists s1, PROC_WAKE_TIMEOUT_CAPACITY, t1.
    split; [done|]. split; [done|]. split; [done|]. split; [done|]. split; [|done].
    apply Hok1. unfold waiting. rewrite Ep. by intros [|].
  - destruct Hout as (-> & Hp). cbn [tok_task]. pose proof (pr_seq _ _ _ _ _ Hp) as Eseq.
    rewrite <- Eseq in *. pose proof (pr_phase _ _ _ _ _ Hp) as Hph.
    destruct (commit_ok F s1 p t1 sched Hinv1 Ht1 Hs0 Hsched)
      as (F2 & s2 & t2 & -> & Hinv2 & Ht2 & Hs2 & Hpk2 & Hsame).
    { destruct (pending_reason _ _ _ _); [by right; apply Hph|left].
      destruct Hph as (? & _ & _ & ?). split; [done|lia]. }
    cbn [mbind option_bind]. rewrite <- Hs2 in Hs0 |- *.
    destruct (finish_ok MAX F2 s2 p t2 PROC_PARK_PREPARE_OK Hinv2 Ht2 Hpk2 Hs0)
      as (-> & _ & _ & Ht3). cbn [mbind option_bind].
    eexists _, _, _. split; [done|]. split; [done|]. split; [done|]. split; [done|].
    split; [done|]. destruct (pi_tasks _ _ _ Hinv2 p t2 Ht2) as [Hok2 _]. split.
    + pose proof (tk_phase _ _ _ _ Hok2) as Hph2. unfold phase_ok in Hph2. rewrite Hpk2 in Hph2.
      apply Hph2.
    + intros r0 Epend. rewrite Epend in Hph. destruct Hph as [Hw Hre]. rewrite (Hsame Hw). done.
Qed.

(** A scheduler that keeps the contract: an event wakes the task and it is
    dispatched again. *)
Definition event_sched (p : nat) (s : sys) : option sys :=
  t ← task_of s p;
  '(s, _, _) ← wake s (Some p) (wait_seq t) PROC_WAKE_EVENT None;
  t ← task_of s p;
  Some (set_task s p (t {{ state := PROC_RUNNING }})).

(** Dispatching a task that is not waiting is the kernel's business. *)
Lemma env_dispatch F s p t : inv F (tm s) -> task_of s p = Some t ->
  park_state t = PROC_PARK_WOKEN ->
  env F (tm s) (tm (set_task s p (t {{ state := PROC_RUNNING }}))).
Proof.
  intros Hinv Ht Hpk. destruct (pi_tasks _ _ _ Hinv p t Ht) as [Hok Hr].
  set (t1 := t {{ state := PROC_RUNNING }}).
  assert (~ waiting t1) as Hn
    by (unfold waiting; change (park_state t1) with (park_state t); rewrite Hpk; by intros [|]).
  constructor.
  - apply (wf_update_task MAX (tm s) p t t1 (pi_timers _ _ _ Hinv) Ht eq_refl eq_refl).
    eapply task_refs_weaken; [apply (inflight_nonneg F p)|]. by eapply task_refs_fields.
  - done.
  - intros q u u' Hu Hu'. change (<[p := t1]> (tasks (tm s)) !! q = Some u') in Hu'.
    apply lookup_insert_Some in Hu' as [[<- <-]|[_ Hu']].
    + unfold task_of in Ht. rewrite Ht in Hu. apply (inj Some) in Hu. subst u.
      split_and!; try done. unfold run_ok. by rewrite Hpk.
    + rewrite Hu in Hu'. apply (inj Some) in Hu'. subst u'.
      destruct (pi_tasks _ _ _ Hinv q u Hu) as [[] Hru]. split_and!; try done.
      unfold run_ok. destruct (park_state u); auto.
  - intros q u' Hu Hu'. change (<[p := t1]> (tasks (tm s)) !! q = Some u') in Hu'.
    apply lookup_insert_Some in Hu' as [[<- _]|[_ Hu']]; unfold task_of in Ht; congruence.
  - intros q u Hu Hu'. change (<[p := t1]> (tasks (tm s)) !! q = None) in Hu'.
    apply lookup_insert_None in Hu' as [Hu' _]. congruence.
Qed.

Lemma event_sched_contract F p : sched_contract F p (event_sched p).
Proof.
  intros s1 t1 Hinv Ht1 Hpk Hr. unfold event_sched. rewrite Ht1. cbn [mbind option_bind].
  pose proof (wake_ok MAX NR MAX_ok idle cpu should_preempt F s1 p t1 (wait_seq t1)
    PROC_WAKE_EVENT None Hinv Ht1 ltac:(done) Hr) as Hw.
  destruct (pi_tasks _ _ _ Hinv p t1 Ht1) as [Hok _].
  assert (can_wake t1 (wait_seq t1) PROC_WAKE_EVENT = true) as Hc.
  { pose proof (tk_phase _ _ _ _ Hok) as Hph. unfold phase_ok in Hph. rewrite Hpk in Hph.
    assert (waiting t1) as Hwt by (by right). unfold can_wake.
    rewrite (proj2 (Z.eqb_neq _ _) (proj2 (tk_seq _ _ _ _ Hok) Hwt)), Z.eqb_refl, Hph.
    by rewrite (bool_decide_eq_true_2 (waiting t1) Hwt). }
  rewrite Hc in Hw. destruct Hw as (s2 & m' & t2 & E2 & Hinv2 & _ & Ht2 & Hwk & _).
  rewrite E2. cbn [mbind option_bind]. rewrite Ht2. cbn [mbind option_bind].
  eexists F, _, _. split; [done|]. split; [|split; [apply lookup_insert_eq|done]].
  apply (rtc_l _ _ (F, s2)); [|apply rtc_once].
  - exists (LTask p (AWake (wait_seq t1) PROC_WAKE_EVENT true)).
    split; [unfold own_step, act_on; by destruct (decide (p = p))|]. split; [|by eexists].
    by apply (st_wake F s1 p t1 (wait_seq t1) PROC_WAKE_EVENT None s2 m' true).
  - exists LEnv. split; [done|]. split; [|eexists; apply lookup_insert_eq].
    apply st_env. apply env_dispatch; [done|done|apply Hwk].
Qed.
End Protocol.

(** ** Witnesses *)

(** Two fresh tasks; task 1 then parks with a deadline at tick 700. *)
Definition fresh_task : task_t :=
  demo_task {{ park_state := PROC_PARK_IDLE; wait_deadline := 0 }}.

Definition demo_preempt (_ : sys) (_ : nat) (_ : Z) : bool := true.

Definition demo_start : sys :=
  {| tm := empty_timers 4 (<[1%nat := fresh_task]> (<[2%nat := fresh_task]> ∅)); evs := [] |}.

Definition demo_prepared : sys :=
  match proc_park_prepare_locked 4 1000000 2 0%nat 0 demo_preempt 0 false false demo_start
          (Some 1%nat) PROC_WAIT_INTERRUPTIBLE 700 with
  | Some (s, _) => s
  | None => demo_start
  end.

Definition demo_parked : sys :=
  match park_commit_publish demo_prepared (Some 1%nat) 1%nat 6 with
  | Some (s, _) => s
  | None => demo_prepared
  end.

Abbreviation demo_reachable := (reachable 4 1000000 2 0%nat 0 demo_preempt).
Abbreviation demo_step := (step 4 1000000 2 0%nat 0 demo_preempt).

Abbreviation demo_scheduled := (sched_reachable 4 1000000 2 0%nat 0 demo_preempt).

Lemma demo_tasks p t : tasks (tm demo_start) !! p = Some t -> t = fresh_task.
Proof.
  intros Ht. change ((<[1%nat := fresh_task]> (<[2%nat := fresh_task]> ∅) : gmap nat task_t) !! p
    = Some t) in Ht. do 2 (apply lookup_insert_Some in Ht as [[_ <-]|[_ Ht]]; [done|]). done.
Qed.

Lemma demo_start_scheduled : demo_scheduled ([], demo_start).
Proof.
  apply (sr_step _ _ _ _ _ _ LEnv (boot 4)); [apply sr_boot|apply st_env; constructor|].
  - apply (empty_timers_wf 4). intros p t Ht. by rewrite (demo_tasks p t Ht).
  - done.
  - intros p t t' Ht. done.
  - intros p t' _ Ht'. rewrite (demo_tasks p t' Ht'). done.
  - intros p t Ht. done.
  - intros _ p t Ht. rewrite (demo_tasks p t Ht). constructor; try done. split; [done|by intros [_ ?]].
Qed.

Lemma demo_parked_scheduled : demo_scheduled ([], demo_parked).
Proof.
  apply (sr_step _ _ _ _ _ _ (LTask 1%nat (ACommit 6)) ([], demo_prepared));
    [apply (sr_step _ _ _ _ _ _ (LTask 1%nat APrepare) ([], demo_start));
       [apply demo_start_scheduled| |done]| |].
  - eapply (st_prepare _ _ _ _ _ _ [] demo_start 1%nat fresh_task PROC_WAIT_INTERRUPTIBLE 700
      0 false false); [reflexivity|discriminate|reflexivity|reflexivity|reflexivity
                      |split; [discriminate|reflexivity]|vm_compute; reflexivity].
  - eapply (st_commit _ _ _ _ _ _ [] demo_prepared 1%nat 6). vm_compute. reflexivity.
  - intros t Ht. vm_compute in Ht. by injection Ht as <-.
Qed.

Lemma demo_start_reachable : demo_reachable ([], demo_start).
Proof. apply sched_reachable_reachable, demo_start_scheduled. Qed.

Lemma demo_parked_reachable : demo_reachable ([], demo_parked).
Proof. apply sched_reachable_reachable, demo_parked_scheduled. Qed.

(** The event that task 1 waits for. *)
Abbreviation demo_wake := (LTask 1%nat (AWake 6 PROC_WAKE_EVENT true)).

Lemma park_refines_token_automaton_witness : exists s',
  demo_step demo_wake ([], demo_parked) ([], s') /\ refines demo_wake demo_parked s'.
Proof.
  destruct (proc_try_wake_locked_common 2 0%nat 0 demo_preempt demo_parked (Some 1%nat) 6
    PROC_WAKE_EVENT None) as [[[s' m'] b]|] eqn:E; [|vm_compute in E; discriminate E].
  assert (b = true) as -> by (vm_compute in E; by injection E).
  exists s'.
  assert (demo_step demo_wake ([], demo_parked) ([], s')) as Hs.
  { eapply (st_wake _ _ _ _ _ _ [] demo_parked 1%nat _ 6 PROC_WAKE_EVENT None s' m' true);
      [vm_compute; reflexivity|discriminate|vm_compute; reflexivity|exact E]. }
  split; [exact Hs|].
  apply (park_refines_token_automaton 4 1000000 2 ltac:(lia) 0%nat 0 demo_preempt demo_wake
    ([], demo_parked) ([], s') demo_parked_reachable Hs).
Defined.

Lemma park_reachable_consistent_witness :
  proc_wait_timer_violations_locked 4 (tm demo_parked) = Some 0 /\
  proc_sched_assert_task_locked 2 0%nat demo_parked (Some 1%nat) = Some tt /\
  exists t e, task_of demo_parked 1%nat = Some t /\ park_state t = PROC_PARK_PARKED /\
    e ∈ entries (tm demo_parked) /\ wt_deadline e = wait_deadline t.
Proof.
  destruct (park_reachable_consistent 4 1000000 2 ltac:(lia) 0%nat 0 demo_preempt []
    demo_parked demo_parked_scheduled ltac:(lia) ltac:(done)) as [Hv Ht].
  split; [exact Hv|].
  destruct (task_of demo_parked 1%nat) as [t|] eqn:E; [|vm_compute in E; discriminate E].
  destruct (Ht 1%nat t E) as (Hassert & _ & Ha & _). split; [exact Hassert|].
  vm_compute in E. injection E as <-.
  destruct Ha as [(e & He & _ & _ & Hd)|Hin];
    [right; reflexivity|discriminate| |by apply not_elem_of_nil in Hin].
  eexists _, e. split; [reflexivity|]. split; [reflexivity|]. split; [exact He|exact Hd].
Defined.

Lemma try_wake_correct_witness : exists t s' t',
  task_of demo_parked 1%nat = Some t /\
  proc_try_wake 2 0%nat 0 demo_preempt demo_parked (Some 1%nat) 6 PROC_WAKE_SIGNAL
    = Some (s', true) /\
  task_of s' 1%nat = Some t' /\ woken 0%nat 1%nat PROC_WAKE_SIGNAL t t'.
Proof.
  destruct (task_of demo_parked 1%nat) as [t|] eqn:E; [|vm_compute in E; discriminate E].
  destruct (try_wake_correct 4 1000000 2 ltac:(lia) 0%nat 0 demo_preempt [] demo_parked 1%nat t 6
    PROC_WAKE_SIGNAL demo_parked_reachable E) as (s' & Es & Ho);
    [discriminate|vm_compute in E; injection E as <-; reflexivity|].
  assert (can_wake t 6 PROC_WAKE_SIGNAL = true) as Hc
    by (vm_compute in E; injection E as <-; reflexivity).
  rewrite Hc in Es, Ho. destruct Ho as [(t' & Ht' & Hw) _].
  exists t, s', t'. split; [reflexivity|]. split; [exact Es|]. split; [exact Ht'|exact Hw].
Defined.

Lemma demo_parked_small : refs_small (tm demo_parked).
Proof.
  apply (bool_decide_eq_true_1 (map_Forall (fun _ t => refs t < 2147483647)
    (tasks (tm demo_parked)))). vm_compute. reflexivity.
Qed.

Lemma expire_wait_timers_correct_witness : exists s' t t',
  proc_sched_expire_wait_timers 2 0%nat 0 demo_preempt 1 demo_parked 800 = Some s' /\
  task_of demo_parked 1%nat = Some t /\ task_of s' 1%nat = Some t' /\
  woken 0%nat 1%nat PROC_WAKE_TIMEOUT t t'.
Proof.
  destruct (expire_wait_timers_correct 4 1000000 2 ltac:(lia) 0%nat 0 demo_preempt [] demo_parked
    800 1 demo_parked_reachable demo_parked_small) as (s' & Es & Ho & _);
    [vm_compute; reflexivity|].
  destruct (task_of demo_parked 1%nat) as [t|] eqn:E; [|vm_compute in E; discriminate E].
  destruct (Ho 1%nat t E) as (t' & Ht' & Hw).
  rewrite bool_decide_eq_true_2 in Hw
    by (vm_compute in E; injection E as <-; split; vm_compute; discriminate).
  exists s', t, t'. split; [exact Es|]. split; [reflexivity|]. split; [exact Ht'|exact Hw].
Defined.

Lemma park_wait_returns_witness : exists s' r,
  proc_park_wait 4 1000000 2 0%nat 0 demo_preempt (event_sched 2 0%nat 0 demo_preempt 1%nat) 0
    false false demo_start (Some 1%nat) PROC_WAIT_INTERRUPTIBLE 700 = Some (s', r) /\
  r <> PROC_WAKE_NONE.
Proof.
  destruct (park_wait_returns 4 1000000 2 ltac:(lia) 0%nat 0 demo_preempt [] demo_start 1%nat
    fresh_task (event_sched 2 0%nat 0 demo_preempt 1%nat) PROC_WAIT_INTERRUPTIBLE 700 0 false false
    demo_start_reachable) as (s' & r & t' & Es & _ & _ & _ & _ & Hr & _);
    [reflexivity|discriminate|reflexivity|reflexivity|reflexivity|reflexivity
    |split; [discriminate|reflexivity]|apply event_sched_contract; lia|].
  exists s', r. split; [exact Es|exact Hr].
Defined.
