(* ===== verification/HandleTable.v ===== *)
(** * The native handle table (kernel/abi/native/handle_table.c, ipc/handle_table.h)

    A process's capability store: entries indexed by handle, an allocation
    bitmap with a search hint, rights, temporal limits and security labels.
    Each operation is the critical section under the table lock followed by
    what runs after the unlock.  What the table asks of other modules (taking
    and dropping object references, timer deadlines) is an event; the
    outcomes of the allocator and the clock are arguments.  [None] is an
    access outside an array. *)

From S2P Require Import Prelude.

(** ** Objects, rights and status codes (ipc/ipc.h) *)

Abbreviation A20_OBJ_INVALID := (0)%Z (only parsing).
Abbreviation A20_OBJ_TASK := (1)%Z (only parsing).
Abbreviation A20_OBJ_THREAD := (2)%Z (only parsing).
Abbreviation A20_OBJ_VMAR := (17)%Z (only parsing).

Definition A20_RIGHT_READ : Z := Z.shiftl 1 0.
Definition A20_RIGHT_WRITE : Z := Z.shiftl 1 1.
Definition A20_RIGHT_EXEC : Z := Z.shiftl 1 2.
Definition A20_RIGHT_STAT : Z := Z.shiftl 1 3.
Definition A20_RIGHT_SEEK : Z := Z.shiftl 1 4.
Definition A20_RIGHT_DUP : Z := Z.shiftl 1 5.
Definition A20_RIGHT_TRANSFER : Z := Z.shiftl 1 6.
Definition A20_RIGHT_MAP : Z := Z.shiftl 1 7.
Definition A20_RIGHT_WAIT : Z := Z.shiftl 1 8.
Definition A20_RIGHT_CONNECT : Z := Z.shiftl 1 9.
Definition A20_RIGHT_ACCEPT : Z := Z.shiftl 1 10.
Definition A20_RIGHT_CONTROL : Z := Z.shiftl 1 11.
Definition A20_RIGHT_ADMIN : Z := Z.shiftl 1 12.
Definition A20_RIGHT_SIGNAL : Z := Z.shiftl 1 13.

Abbreviation A20_OK := (0)%Z (only parsing).
Abbreviation A20_ERR_BAD_HANDLE := (5)%Z (only parsing).
Abbreviation A20_ERR_NO_MEMORY := (6)%Z (only parsing).
Abbreviation A20_ERR_ACCESS := (7)%Z (only parsing).
Abbreviation A20_ERR_EXISTS := (10)%Z (only parsing).
Abbreviation A20_ERR_INVALID_ARGUMENT := (12)%Z (only parsing).
Abbreviation A20_ERR_NO_SPACE := (13)%Z (only parsing).
Abbreviation A20_ERR_EXPIRED := (25)%Z (only parsing).

Abbreviation A20_HT_INITIAL_CAP := (256)%Z (only parsing).
Definition A20_HT_MAX_CAP : Z := 65536.
Abbreviation A20_HT_DEFAULT_QUOTA := (4096)%Z (only parsing).
Definition A20_HT_GROWTH_FACTOR : Z := 2.

Definition A20_TEMPORAL_EXPIRY_ABSOLUTE : Z := Z.shiftl 1 0.
Definition A20_TEMPORAL_OP_COUNT : Z := Z.shiftl 1 1.
Definition A20_TEMPORAL_AUTO_CLOSE : Z := Z.shiftl 1 2.
Definition A20_TEMPORAL_KNOWN_FLAGS : Z :=
  Z.lor (Z.lor A20_TEMPORAL_EXPIRY_ABSOLUTE A20_TEMPORAL_OP_COUNT) A20_TEMPORAL_AUTO_CLOSE.

Abbreviation A20_HS_FREE := (0)%Z (only parsing).
Definition A20_HS_ACTIVE : Z := 1.
Abbreviation A20_HS_EXPIRED := (2)%Z (only parsing).
Definition A20_HS_CLOSING : Z := 3.

(** Bitwise complement at 32 and 64 bits, and a flag test. *)
Definition not32 (z : Z) : Z := u32 (Z.lnot z).
Definition not64 (z : Z) : Z := u64 (Z.lnot z).
Definition has (flags mask : Z) : bool := c_true (Z.land flags mask).

(** ** The table *)

(** A pointer is its address, 0 for NULL. *)
Record a20_handle_entry := {
  e_object : Z; e_type : Z; e_rights : Z;
  e_expiry_tick : Z; e_remaining_ops : Z; e_temporal_flags : Z;
  e_security_label : Z; e_state : Z;
}.

Definition zero_entry : a20_handle_entry :=
  {| e_object := 0; e_type := 0; e_rights := 0; e_expiry_tick := 0; e_remaining_ops := 0;
     e_temporal_flags := 0; e_security_label := 0; e_state := 0 |}.

Record a20_ht_internal := {
  entries : list a20_handle_entry;
  capacity : Z; count : Z; free_hint : Z;
  free_bitmap : list Z; bitmap_size : Z;
  security_label : Z; refcount : Z; registry_next : option nat;
  sig_pending : Z; sig_blocked : Z; max_handles : Z;
}.

Inductive ht_event :=
| ObjRef (object type : Z)
| ObjRelease (object type : Z)
| NoteDeadline (tick : Z).

(** A table with the global handle statistic and the events so far, newest
    first. *)
Record hts := { ht : a20_ht_internal; stat_handles : Z; log : list ht_event }.

Definition set_ht (s : hts) (h : a20_ht_internal) : hts := s {{ ht := h }}.
Definition emit (e : ht_event) (s : hts) : hts := s {{ log := e :: log s }}.
Definition a20_objstat_add (s : hts) (delta : Z) : hts :=
  s {{ stat_handles := u64 (stat_handles s + delta) }}.

Definition set_entry (h : a20_ht_internal) (i : Z) (e : a20_handle_entry)
  : option a20_ht_internal :=
  es ← wr (entries h) i e;
  Some (h {{ entries := es }}).

Definition a20_ctz64 (v : Z) : Z :=
  if v =? 0 then 64
  else
    let '(n, v) := if Z.land v 0xFFFFFFFF =? 0 then (32, Z.shiftr v 32) else (0, v) in
    let '(n, v) := if Z.land v 0xFFFF =? 0 then (n + 16, Z.shiftr v 16) else (n, v) in
    let '(n, v) := if Z.land v 0xFF =? 0 then (n + 8, Z.shiftr v 8) else (n, v) in
    let '(n, v) := if Z.land v 0xF =? 0 then (n + 4, Z.shiftr v 4) else (n, v) in
    let '(n, v) := if Z.land v 0x3 =? 0 then (n + 2, Z.shiftr v 2) else (n, v) in
    if Z.land v 0x1 =? 0 then n + 1 else n.

(** [now] is what a20_current_tick() reads. *)
Definition a20_effective_rights (now : Z) (e : a20_handle_entry) : Z :=
  if (0 <? e_expiry_tick e) && (e_expiry_tick e <=? now) then 0
  else if has (e_temporal_flags e) A20_TEMPORAL_OP_COUNT && (e_remaining_ops e =? 0) then 0
  else e_rights e.

Definition a20_blp_read_ok (proc_label obj_label : Z) : bool := obj_label <=? proc_label.
Definition a20_blp_write_ok (proc_label obj_label : Z) : bool := proc_label <=? obj_label.

Definition a20_ht_get_label (h : option a20_ht_internal) : Z :=
  match h with Some h => security_label h | None => 0 end.

Definition a20_ht_set_label (h : a20_ht_internal) (label : Z) : a20_ht_internal :=
  if label <=? 2 then h {{ security_label := label }} else h.

(** ** Slots *)

Definition ht_alloc_slot (h : a20_ht_internal) : option (a20_ht_internal * Z) :=
  r ← for_return (free_hint h / 64) (bitmap_size h) (fun i =>
    word ← rd (free_bitmap h) i;
    if negb (word =? U64_MAX) then
      let bit := a20_ctz64 (not64 word) in
      let slot := u32 (i * 64 + bit) in
      if slot <? capacity h then Some (Some (i, bit, slot)) else Some None
    else Some None);
  match r with
  | None => Some (h, -1)
  | Some (i, bit, slot) =>
      word ← rd (free_bitmap h) i;
      bm ← wr (free_bitmap h) i (Z.lor word (Z.shiftl 1 bit));
      Some (h {{ free_bitmap := bm; free_hint := u32 (slot + 1) }}, slot)
  end.

Definition ht_free_slot (h : a20_ht_internal) (slot : Z) : option a20_ht_internal :=
  let word_idx := slot / 64 in
  let bit_idx := slot mod 64 in
  word ← rd (free_bitmap h) word_idx;
  bm ← wr (free_bitmap h) word_idx (Z.land word (not64 (Z.shiftl 1 bit_idx)));
  let h := h {{ free_bitmap := bm }} in
  Some (if slot <? free_hint h then h {{ free_hint := slot }} else h).

(** memset of [n] cells to zero, then memcpy of the first [m] cells of [old]. *)
Definition grown {A} (zero : A) (old : list A) (m n : Z) : option (list A) :=
  if (m <=? Z.of_nat (length old)) && (m <=? n)
  then Some (take (Z.to_nat m) old ++ replicate (Z.to_nat (n - m)) zero)
  else None.

(** [mem]: both allocations succeed. *)
Definition ht_grow (mem : bool) (h : a20_ht_internal) : option (a20_ht_internal * Z) :=
  if A20_HT_MAX_CAP <=? capacity h then Some (h, - A20_ERR_NO_SPACE)
  else
    let new_cap := u32 (capacity h * A20_HT_GROWTH_FACTOR) in
    let new_cap := if A20_HT_MAX_CAP <? new_cap then A20_HT_MAX_CAP else new_cap in
    let new_bm_size := u32 (new_cap + 63) / 64 in
    if negb mem then Some (h, - A20_ERR_NO_MEMORY)
    else
      new_entries ← grown zero_entry (entries h) (capacity h) new_cap;
      new_bitmap ← grown 0 (free_bitmap h) (bitmap_size h) new_bm_size;
      Some (h {{ entries := new_entries; free_bitmap := new_bitmap;
                 bitmap_size := new_bm_size; capacity := new_cap }}, 0).

Definition rights_of (l : list Z) : Z := fold_right Z.lor 0 l.

Definition a20_type_rights : list Z := [
  0;
  rights_of [A20_RIGHT_WAIT; A20_RIGHT_SIGNAL; A20_RIGHT_STAT; A20_RIGHT_DUP;
             A20_RIGHT_TRANSFER; A20_RIGHT_CONTROL; A20_RIGHT_ADMIN; A20_RIGHT_READ;
             A20_RIGHT_WRITE];
  rights_of [A20_RIGHT_WAIT; A20_RIGHT_SIGNAL; A20_RIGHT_STAT; A20_RIGHT_DUP;
             A20_RIGHT_TRANSFER; A20_RIGHT_CONTROL; A20_RIGHT_ADMIN; A20_RIGHT_READ;
             A20_RIGHT_WRITE];
  rights_of [A20_RIGHT_READ; A20_RIGHT_WRITE; A20_RIGHT_STAT; A20_RIGHT_SEEK; A20_RIGHT_DUP;
             A20_RIGHT_TRANSFER; A20_RIGHT_EXEC; A20_RIGHT_MAP; A20_RIGHT_CONTROL];
  rights_of [A20_RIGHT_READ; A20_RIGHT_STAT; A20_RIGHT_DUP; A20_RIGHT_TRANSFER;
             A20_RIGHT_CONTROL];
  rights_of [A20_RIGHT_READ; A20_RIGHT_WRITE; A20_RIGHT_STAT; A20_RIGHT_DUP;
             A20_RIGHT_TRANSFER; A20_RIGHT_CONNECT; A20_RIGHT_ACCEPT; A20_RIGHT_CONTROL];
  rights_of [A20_RIGHT_READ; A20_RIGHT_WRITE; A20_RIGHT_STAT; A20_RIGHT_DUP;
             A20_RIGHT_TRANSFER];
  rights_of [A20_RIGHT_READ; A20_RIGHT_WRITE; A20_RIGHT_STAT; A20_RIGHT_DUP;
             A20_RIGHT_TRANSFER];
  rights_of [A20_RIGHT_READ; A20_RIGHT_STAT; A20_RIGHT_DUP; A20_RIGHT_TRANSFER;
             A20_RIGHT_CONTROL];
  rights_of [A20_RIGHT_STAT; A20_RIGHT_DUP; A20_RIGHT_TRANSFER; A20_RIGHT_CONTROL];
  rights_of [A20_RIGHT_READ; A20_RIGHT_WRITE; A20_RIGHT_EXEC; A20_RIGHT_MAP; A20_RIGHT_STAT;
             A20_RIGHT_DUP; A20_RIGHT_TRANSFER; A20_RIGHT_CONTROL];
  rights_of [A20_RIGHT_READ; A20_RIGHT_WRITE; A20_RIGHT_MAP; A20_RIGHT_STAT; A20_RIGHT_SEEK;
             A20_RIGHT_DUP; A20_RIGHT_TRANSFER; A20_RIGHT_CONTROL];
  rights_of [A20_RIGHT_STAT; A20_RIGHT_DUP; A20_RIGHT_TRANSFER; A20_RIGHT_CONTROL;
             A20_RIGHT_ADMIN];
  rights_of [A20_RIGHT_READ; A20_RIGHT_WRITE; A20_RIGHT_WAIT; A20_RIGHT_SIGNAL;
             A20_RIGHT_STAT; A20_RIGHT_DUP; A20_RIGHT_TRANSFER; A20_RIGHT_CONTROL;
             A20_RIGHT_ADMIN];
  rights_of [A20_RIGHT_READ; A20_RIGHT_DUP; A20_RIGHT_TRANSFER; A20_RIGHT_CONTROL];
  rights_of [A20_RIGHT_READ; A20_RIGHT_WRITE; A20_RIGHT_STAT; A20_RIGHT_DUP;
             A20_RIGHT_TRANSFER; A20_RIGHT_CONTROL];
  rights_of [A20_RIGHT_READ; A20_RIGHT_STAT; A20_RIGHT_DUP; A20_RIGHT_TRANSFER;
             A20_RIGHT_CONTROL];
  rights_of [A20_RIGHT_MAP; A20_RIGHT_STAT; A20_RIGHT_DUP; A20_RIGHT_TRANSFER;
             A20_RIGHT_CONTROL]].

Definition a20_type_valid_rights (type : Z) : option Z :=
  if A20_OBJ_VMAR <? type then Some 0 else rd a20_type_rights type.

(** [if ((rights & ~valid) != 0) rights &= valid;] *)
Definition clamp_rights (type rights : Z) : option Z :=
  valid ← a20_type_valid_rights type;
  Some (if c_true (Z.land rights (not64 valid)) then Z.land rights valid else rights).

(** ** Installing *)

Definition active_entry (object type rights expiry_tick remaining_ops temporal_flags label : Z)
  : a20_handle_entry :=
  {| e_object := object; e_type := type; e_rights := rights; e_expiry_tick := expiry_tick;
     e_remaining_ops := remaining_ops; e_temporal_flags := temporal_flags;
     e_security_label := label; e_state := A20_HS_ACTIVE |}.

(** The slot search of both install functions. *)
Definition install_slot (mem : bool) (h : a20_ht_internal) : option (a20_ht_internal * Z) :=
  '(h, slot) ← (if count h <? max_handles h then ht_alloc_slot h else Some (h, -1));
  if (slot <? 0) && (count h <? max_handles h) then
    '(h, rc) ← ht_grow mem h;
    if rc =? 0 then ht_alloc_slot h else Some (h, slot)
  else Some (h, slot).

Definition a20_handle_install_temporal (mem : bool) (s : hts) (object type rights : Z)
    (expiry_tick remaining_ops temporal_flags label : Z) : option (hts * Z) :=
  rights ← clamp_rights type rights;
  '(h, slot) ← install_slot mem (ht s);
  let s := set_ht s h in
  if slot <? 0 then Some (s, - A20_ERR_NO_SPACE)
  else
    h ← set_entry h slot (active_entry object type rights expiry_tick remaining_ops
                            temporal_flags label);
    let h := h {{ count := u32 (count h + 1) }} in
    Some (a20_objstat_add (set_ht s h) 1, slot).

Definition a20_handle_install (mem : bool) (s : hts) (object type rights : Z)
  : option (hts * Z) :=
  rights ← clamp_rights type rights;
  '(h, slot) ← install_slot mem (ht s);
  let s := set_ht s h in
  if slot <? 0 then Some (s, - A20_ERR_NO_SPACE)
  else
    h ← set_entry h slot (active_entry object type rights 0 0 0 0);
    let h := h {{ count := u32 (count h + 1) }} in
    Some (a20_objstat_add (set_ht s h) 1, slot).

(** The growth loop of install_at: the capacity at least doubles per
    iteration, so 17 steps of fuel are enough ([None] otherwise). *)
Fixpoint grow_to (fuel : nat) (mem : nat -> bool) (h : a20_ht_internal) (slot : Z)
  : option (a20_ht_internal * bool) :=
  if capacity h <=? slot then
    match fuel with
    | O => None
    | S fuel' =>
        '(h, rc) ← ht_grow (mem fuel') h;
        if rc <? 0 then Some (h, false) else grow_to fuel' mem h slot
    end
  else Some (h, true).

Definition a20_handle_install_at_temporal (mem : nat -> bool) (s : hts) (slot object type rights : Z)
    (expiry_tick remaining_ops temporal_flags label : Z) : option (hts * Z) :=
  if A20_HT_MAX_CAP <=? slot then Some (s, - A20_ERR_INVALID_ARGUMENT)
  else
    rights ← clamp_rights type rights;
    '(h, ok) ← grow_to 17 mem (ht s) slot;
    let s := set_ht s h in
    if negb ok then Some (s, - A20_ERR_NO_SPACE)
    else
      let word_idx := slot / 64 in
      let bit_idx := slot mod 64 in
      word ← rd (free_bitmap h) word_idx;
      if has word (Z.shiftl 1 bit_idx) then Some (s, - A20_ERR_EXISTS)
      else if max_handles h <=? count h then Some (s, - A20_ERR_NO_SPACE)
      else
        bm ← wr (free_bitmap h) word_idx (Z.lor word (Z.shiftl 1 bit_idx));
        let h := h {{ free_bitmap := bm }} in
        let h := if free_hint h <=? slot then h {{ free_hint := u32 (slot + 1) }} else h in
        h ← set_entry h slot (active_entry object type rights expiry_tick remaining_ops
                                temporal_flags label);
        let h := h {{ count := u32 (count h + 1) }} in
        Some (a20_objstat_add (set_ht s h) 1, slot).

(** ** Looking up *)

(** The table, the status and, on success, the copy of the entry. *)
Definition a20_handle_lookup_ref_mode (now : Z) (s : hts) (h expected_type required_rights : Z)
    (take_ref : bool) : option (hts * Z * option a20_handle_entry) :=
  if capacity (ht s) <=? h then Some (s, - A20_ERR_BAD_HANDLE, None)
  else
    e ← rd (entries (ht s)) h;
    if (e_object e =? 0) || (e_state e =? A20_HS_FREE) then Some (s, - A20_ERR_BAD_HANDLE, None)
    else if e_state e =? A20_HS_CLOSING then Some (s, - A20_ERR_BAD_HANDLE, None)
    else if e_state e =? A20_HS_EXPIRED then Some (s, - A20_ERR_EXPIRED, None)
    else if negb (expected_type =? A20_OBJ_INVALID) && negb (e_type e =? expected_type)
    then Some (s, - A20_ERR_BAD_HANDLE, None)
    else
      let effective := a20_effective_rights now e in
      if negb (Z.land effective required_rights =? required_rights)
      then Some (s, - A20_ERR_ACCESS, None)
      else
        let e := if has (e_temporal_flags e) A20_TEMPORAL_OP_COUNT && (0 <? e_remaining_ops e)
                 then e {{ e_remaining_ops := e_remaining_ops e - 1 }} else e in
        t ← set_entry (ht s) h e;
        let s := set_ht s t in
        let out := e {{ e_rights := effective }} in
        Some (if take_ref then emit (ObjRef (e_object out) (e_type out)) s else s,
              A20_OK, Some out).

Definition a20_handle_lookup_internal (now : Z) (s : hts) (h expected_type required_rights : Z) :=
  a20_handle_lookup_ref_mode now s h expected_type required_rights false.

Definition a20_handle_lookup_ref_internal (now : Z) (s : hts)
    (h expected_type required_rights : Z) :=
  a20_handle_lookup_ref_mode now s h expected_type required_rights true.

Definition a20_handle_lookup_task_like (now : Z) (s : hts) (h required_rights : Z)
  : option (hts * Z * option a20_handle_entry) :=
  '(s, r, out) ← a20_handle_lookup_internal now s h A20_OBJ_TASK required_rights;
  if r <? 0 then a20_handle_lookup_internal now s h A20_OBJ_THREAD required_rights
  else Some (s, r, out).

Definition a20_handle_lookup_ref_task_like (now : Z) (s : hts) (h required_rights : Z)
  : option (hts * Z * option a20_handle_entry) :=
  '(s, r, out) ← a20_handle_lookup_ref_internal now s h A20_OBJ_TASK required_rights;
  if r <? 0 then a20_handle_lookup_ref_internal now s h A20_OBJ_THREAD required_rights
  else Some (s, r, out).

(** ** Removing *)

(** The entry after it is detached: the temporal fields and the label stay. *)
Definition detach (e : a20_handle_entry) : a20_handle_entry :=
  e {{ e_object := 0; e_type := A20_OBJ_INVALID; e_rights := 0; e_state := A20_HS_FREE }}.

Definition a20_handle_remove (s : hts) (h : Z) : option (hts * Z) :=
  if h <? capacity (ht s) then
    e ← rd (entries (ht s)) h;
    if negb (e_object e =? 0) && negb (e_state e =? A20_HS_FREE)
       && negb (e_state e =? A20_HS_CLOSING)
    then
      t ← set_entry (ht s) h (detach e);
      t ← ht_free_slot t h;
      let t := t {{ count := u32 (count t - 1) }} in
      let s := a20_objstat_add (set_ht s t) (-1) in
      Some (emit (ObjRelease (e_object e) (e_type e)) s, A20_OK)
    else Some (s, - A20_ERR_BAD_HANDLE)
  else Some (s, - A20_ERR_BAD_HANDLE).

(** ** Reserve, abort, commit *)

(** The handles reserved so far are in order; [n] are still wanted. *)
Fixpoint reserve_loop (n : nat) (h : a20_ht_internal) (handles : list Z)
  : option (a20_ht_internal * list Z) :=
  match n with
  | O => Some (h, handles)
  | S n' =>
      '(h, slot) ← ht_alloc_slot h;
      if slot <? 0 then Some (h, handles)
      else
        e ← rd (entries h) slot;
        h ← set_entry h slot (e {{ e_state := A20_HS_CLOSING }});
        reserve_loop n' (h {{ count := u32 (count h + 1) }}) (handles ++ [slot])
  end.

Fixpoint abort_loop (h : a20_ht_internal) (handles : list Z) : option a20_ht_internal :=
  match handles with
  | [] => Some h
  | x :: rest =>
      if capacity h <=? x then abort_loop h rest
      else
        e ← rd (entries h) x;
        if negb (e_state e =? A20_HS_CLOSING) || negb (e_object e =? 0) then abort_loop h rest
        else
          h ← set_entry h x (e {{ e_state := A20_HS_FREE }});
          h ← ht_free_slot h x;
          abort_loop (h {{ count := u32 (count h - 1) }}) rest
  end.

Definition a20_handle_abort_reserved (s : hts) (handles : list Z) : option hts :=
  h ← abort_loop (ht s) handles;
  Some (set_ht s h).

(** The status and the handles the caller's array holds afterwards. *)
Definition a20_handle_reserve_many (mem : bool) (s : hts) (n : Z) : option (hts * Z * list Z) :=
  if n =? 0 then Some (s, A20_OK, [])
  else
    let h := ht s in
    let free_slots := u32 (capacity h - count h) in
    '(h, free_slots) ← (if free_slots <? n then
        '(h, rc) ← ht_grow mem h;
        Some (h, if rc =? 0 then u32 (capacity h - count h) else free_slots)
      else Some (h, free_slots));
    if free_slots <? n then Some (set_ht s h, - A20_ERR_NO_SPACE, [])
    else
      '(h, handles) ← reserve_loop (Z.to_nat n) h [];
      let s := set_ht s h in
      if Z.of_nat (length handles) <? n then
        s ← a20_handle_abort_reserved s handles;
        Some (s, - A20_ERR_NO_SPACE, handles)
      else Some (s, A20_OK, handles).

Definition a20_handle_commit_reserved_temporal (s : hts) (h object type rights : Z)
    (expiry_tick remaining_ops temporal_flags label : Z) : option (hts * Z) :=
  rights ← clamp_rights type rights;
  if capacity (ht s) <=? h then Some (s, - A20_ERR_BAD_HANDLE)
  else
    e ← rd (entries (ht s)) h;
    if negb (e_state e =? A20_HS_CLOSING) || negb (e_object e =? 0)
    then Some (s, - A20_ERR_BAD_HANDLE)
    else
      t ← set_entry (ht s) h (active_entry object type rights expiry_tick remaining_ops
                                temporal_flags label);
      Some (set_ht s t, A20_OK).

(** ** Temporal limits and labels *)

Definition A20_SWEEP_INTERVAL_TICKS (TICKS_PER_SEC : Z) : Z :=
  if 0 <? TICKS_PER_SEC / 10 then TICKS_PER_SEC / 10 else 1.

Definition a20_handle_set_temporal (TICKS_PER_SEC ticks : Z) (s : hts) (h : Z)
    (expiry_tick remaining_ops temporal_flags : Z) : option (hts * Z) :=
  if c_true (Z.land temporal_flags (not32 A20_TEMPORAL_KNOWN_FLAGS))
  then Some (s, - A20_ERR_INVALID_ARGUMENT)
  else if capacity (ht s) <=? h then Some (s, - A20_ERR_BAD_HANDLE)
  else
    e ← rd (entries (ht s)) h;
    if (e_object e =? 0) || negb (e_state e =? A20_HS_ACTIVE)
    then Some (s, - A20_ERR_BAD_HANDLE)
    else if c_true (Z.land (e_temporal_flags e) (not32 temporal_flags))
    then Some (s, - A20_ERR_ACCESS)
    else if has (e_temporal_flags e) A20_TEMPORAL_EXPIRY_ABSOLUTE && (0 <? e_expiry_tick e)
            && ((expiry_tick =? 0) || (e_expiry_tick e <? expiry_tick))
    then Some (s, - A20_ERR_ACCESS)
    else if has (e_temporal_flags e) A20_TEMPORAL_OP_COUNT
            && (e_remaining_ops e <? remaining_ops)
    then Some (s, - A20_ERR_ACCESS)
    else
      let e := if has temporal_flags A20_TEMPORAL_EXPIRY_ABSOLUTE
               then e {{ e_expiry_tick := expiry_tick }} else e in
      let e := if has temporal_flags A20_TEMPORAL_OP_COUNT
               then e {{ e_remaining_ops := remaining_ops }} else e in
      let e := e {{ e_temporal_flags := temporal_flags }} in
      t ← set_entry (ht s) h e;
      let s := set_ht s t in
      Some (if has temporal_flags A20_TEMPORAL_EXPIRY_ABSOLUTE && (0 <? expiry_tick)
            then emit (NoteDeadline expiry_tick) s
            else if c_true temporal_flags
            then emit (NoteDeadline (u64 (ticks + A20_SWEEP_INTERVAL_TICKS TICKS_PER_SEC))) s
            else s, A20_OK).

Definition a20_handle_get_temporal (h : a20_ht_internal) (i : Z)
  : option (Z * option (Z * Z * Z)) :=
  if capacity h <=? i then Some (- A20_ERR_BAD_HANDLE, None)
  else
    e ← rd (entries h) i;
    if (e_object e =? 0) || (e_state e =? A20_HS_FREE) || (e_state e =? A20_HS_CLOSING)
    then Some (- A20_ERR_BAD_HANDLE, None)
    else Some (A20_OK, Some (e_expiry_tick e, e_remaining_ops e, e_temporal_flags e)).

Definition a20_handle_set_label (s : hts) (h label : Z) : option (hts * Z) :=
  if 2 <? label then Some (s, - A20_ERR_INVALID_ARGUMENT)
  else if capacity (ht s) <=? h then Some (s, - A20_ERR_BAD_HANDLE)
  else
    e ← rd (entries (ht s)) h;
    if (e_object e =? 0) || negb (e_state e =? A20_HS_ACTIVE)
    then Some (s, - A20_ERR_BAD_HANDLE)
    else if label <? e_security_label e then Some (s, - A20_ERR_ACCESS)
    else
      t ← set_entry (ht s) h (e {{ e_security_label := label }});
      Some (set_ht s t, A20_OK).

(** ** The sweeper *)

Definition A20_SWEEP_BATCH : Z := 16.

(** [expired] in the loop body. *)
Definition entry_expired (now : Z) (e : a20_handle_entry) : bool :=
  (has (e_temporal_flags e) A20_TEMPORAL_EXPIRY_ABSOLUTE && (0 <? e_expiry_tick e)
   && (e_expiry_tick e <=? now))
  || (has (e_temporal_flags e) A20_TEMPORAL_OP_COUNT && (e_remaining_ops e =? 0)).

(** One locked pass over the slots from [i]; the detached objects in order. *)
Fixpoint sweep_scan (n : nat) (i now : Z) (h : a20_ht_internal) (objs : list (Z * Z))
  : option (a20_ht_internal * list (Z * Z)) :=
  match n with
  | O => Some (h, objs)
  | S n' =>
      if Z.of_nat (length objs) <? A20_SWEEP_BATCH then
        e ← rd (entries h) i;
        if (e_object e =? 0) || negb (e_state e =? A20_HS_ACTIVE)
        then sweep_scan n' (i + 1) now h objs
        else if negb (entry_expired now e) then sweep_scan n' (i + 1) now h objs
        else if has (e_temporal_flags e) A20_TEMPORAL_AUTO_CLOSE then
          h ← set_entry h i (detach e);
          h ← ht_free_slot h i;
          sweep_scan n' (i + 1) now (h {{ count := u32 (count h - 1) }})
            (objs ++ [(e_object e, e_type e)])
        else
          h ← set_entry h i (e {{ e_state := A20_HS_EXPIRED; e_rights := 0 }});
          sweep_scan n' (i + 1) now h objs
      else Some (h, objs)
  end.

Definition release_all (objs : list (Z * Z)) (s : hts) : hts :=
  fold_left (fun s '(o, t) => emit (ObjRelease o t) s) objs s.

(** [ticks k] is the clock in round [k] from the end.  A full batch frees 16
    slots, so [count / 16 + 1] rounds are enough ([None] otherwise). *)
Fixpoint a20_temporal_sweep (fuel : nat) (ticks : nat -> Z) (s : hts) : option hts :=
  match fuel with
  | O => None
  | S fuel' =>
      '(h, objs) ← sweep_scan (Z.to_nat (capacity (ht s))) 0 (ticks fuel') (ht s) [];
      let s := release_all objs (set_ht s h) in
      if Z.of_nat (length objs) <? A20_SWEEP_BATCH then Some s
      else a20_temporal_sweep fuel' ticks s
  end.

(** ** Signals *)

Definition a20_ht_sig_pend (h : a20_ht_internal) (sig : Z) : a20_ht_internal :=
  if (sig <=? 0) || (64 <=? sig) then h
  else h {{ sig_pending := Z.lor (sig_pending h) (Z.shiftl 1 sig) }}.

Definition a20_ht_sig_take (h : a20_ht_internal) : a20_ht_internal * Z :=
  let deliver := Z.land (sig_pending h) (not64 (sig_blocked h)) in
  (h {{ sig_pending := Z.land (sig_pending h) (sig_blocked h) }}, deliver).

Definition a20_ht_sig_blocked (h : a20_ht_internal) : Z := sig_blocked h.

Definition a20_ht_sig_set_blocked (h : a20_ht_internal) (mask : Z) : a20_ht_internal * Z :=
  (h {{ sig_blocked := Z.land mask (not64 (Z.shiftl 1 9)) }}, sig_blocked h).

(** ** Creation and destruction *)

(** kmalloc does not clear memory: [junk] is what the fields that the
    function does not write hold. *)
Definition ht_created (junk_pending junk_blocked : Z) (next : option nat) : a20_ht_internal :=
  {| entries := replicate (Z.to_nat A20_HT_INITIAL_CAP) zero_entry;
     capacity := A20_HT_INITIAL_CAP; count := 0; free_hint := 0;
     free_bitmap := replicate (Z.to_nat ((A20_HT_INITIAL_CAP + 63) / 64)) 0;
     bitmap_size := (A20_HT_INITIAL_CAP + 63) / 64;
     security_label := 0; refcount := 1; registry_next := next;
     sig_pending := junk_pending; sig_blocked := junk_blocked;
     max_handles := A20_HT_DEFAULT_QUOTA |}.

(** The loop of a20_ht_destroy that drops the entries' references. *)
Definition destroy_entries (s : hts) : option hts :=
  for_ 0 (capacity (ht s)) (fun i s =>
    e ← rd (entries (ht s)) i;
    if negb (e_object e =? 0) && negb (e_state e =? A20_HS_FREE) then
      t ← set_entry (ht s) i (e {{ e_object := 0; e_state := A20_HS_FREE }});
      let s := a20_objstat_add (set_ht s t) (-1) in
      Some (emit (ObjRelease (e_object e) (e_type e)) s)
    else Some s) s.
