(* ===== verification/HandleTheory.v ===== *)
(** * Correctness of the handle table: slots

    The bit search, the allocation bitmap and the invariant that ties it to
    the entries; what allocating, freeing and growing do to it. *)

From S2P Require Import Prelude HandleTable.

(** ** Counting trailing zeros *)

(** One halving step: the low [2 k] bits hold a set bit, afterwards the low
    [k] bits do. *)
Lemma ctz_step k n v v0 : 0 <= k -> 0 <= n -> v0 = v * 2 ^ n -> v mod 2 ^ (2 * k) <> 0 ->
  let r := if Z.land v (Z.ones k) =? 0 then (n + k, Z.shiftr v k) else (n, v) in
  v0 = snd r * 2 ^ fst r /\ snd r mod 2 ^ k <> 0 /\ n <= fst r <= n + k.
Proof.
  intros Hk Hn E Hlow. rewrite Z.land_ones by done.
  assert (0 < 2 ^ k) as Hpos by (apply Z.pow_pos_nonneg; lia).
  destruct (v mod 2 ^ k =? 0) eqn:E0; reflect; cbn [fst snd]; [|split; [done|split; [done|lia]]].
  rewrite Z.shiftr_div_pow2 by done.
  assert (v = 2 ^ k * (v / 2 ^ k)) as Ev by (apply Z_div_exact_full_2; lia).
  split; [|split; [|lia]].
  - rewrite Z.pow_add_r by lia. rewrite E. rewrite Ev at 1. ring.
  - intros H0. apply Hlow. replace (2 * k) with (k + k) by lia. rewrite Z.pow_add_r by lia.
    rewrite Ev, Zmult_mod_distr_l, H0. lia.
Qed.

(** The routine returns the exponent of the odd part. *)
Lemma ctz_odd v : 0 < v < 2 ^ 64 ->
  exists u, Z.odd u = true /\ v = u * 2 ^ a20_ctz64 v /\ 0 <= a20_ctz64 v < 64.
Proof.
  intros Hv. unfold a20_ctz64. rewrite (proj2 (Z.eqb_neq v 0)) by lia.
  destruct (ctz_step 32 0 v v) as (E1 & L1 & B1); [lia|lia|lia|rewrite Z.mod_small; lia|].
  change (Z.ones 32) with 0xFFFFFFFF in *. change (0 + 32) with 32 in *.
  destruct (if Z.land v 0xFFFFFFFF =? 0 then (32, Z.shiftr v 32) else (0, v)) as [n1 v1].
  cbn [fst snd] in *.
  destruct (ctz_step 16 n1 v1 v) as (E2 & L2 & B2); [lia|lia|done|done|].
  change (Z.ones 16) with 0xFFFF in *.
  destruct (if Z.land v1 0xFFFF =? 0 then (n1 + 16, Z.shiftr v1 16) else (n1, v1)) as [n2 v2].
  cbn [fst snd] in *.
  destruct (ctz_step 8 n2 v2 v) as (E3 & L3 & B3); [lia|lia|done|done|].
  change (Z.ones 8) with 0xFF in *.
  destruct (if Z.land v2 0xFF =? 0 then (n2 + 8, Z.shiftr v2 8) else (n2, v2)) as [n3 v3].
  cbn [fst snd] in *.
  destruct (ctz_step 4 n3 v3 v) as (E4 & L4 & B4); [lia|lia|done|done|].
  change (Z.ones 4) with 0xF in *.
  destruct (if Z.land v3 0xF =? 0 then (n3 + 4, Z.shiftr v3 4) else (n3, v3)) as [n4 v4].
  cbn [fst snd] in *.
  destruct (ctz_step 2 n4 v4 v) as (E5 & L5 & B5); [lia|lia|done|done|].
  change (Z.ones 2) with 0x3 in *.
  destruct (if Z.land v4 0x3 =? 0 then (n4 + 2, Z.shiftr v4 2) else (n4, v4)) as [n5 v5].
  cbn [fst snd] in *.
  destruct (ctz_step 1 n5 v5 v) as (E6 & L6 & B6); [lia|lia|done|done|].
  change (Z.ones 1) with 0x1 in *.
  assert ((if Z.land v5 1 =? 0 then n5 + 1 else n5)
    = fst (if Z.land v5 1 =? 0 then (n5 + 1, Z.shiftr v5 1) else (n5, v5))) as -> by (by split_if).
  eexists. split; [|split; [exact E6|lia]].
  change (2 ^ 1) with 2 in L6. rewrite Zmod_odd in L6. by destruct (Z.odd _).
Qed.

Lemma ctz_spec v : 0 < v < 2 ^ 64 ->
  0 <= a20_ctz64 v < 64 /\ Z.testbit v (a20_ctz64 v) = true /\
  forall m, 0 <= m < a20_ctz64 v -> Z.testbit v m = false.
Proof.
  intros Hv. destruct (ctz_odd v Hv) as (u & Hu & E & Hb).
  split; [done|]. generalize dependent (a20_ctz64 v). intros n -> Hn. split.
  - by rewrite Z.mul_pow2_bits, Z.sub_diag, Z.bit0_odd by lia.
  - intros m Hm. apply Z.mul_pow2_bits_low. lia.
Qed.

(** A linear search from bit [i]. *)
Fixpoint first_set (fuel : nat) (i v : Z) : Z :=
  match fuel with
  | O => i
  | S fuel' => if Z.testbit v i then i else first_set fuel' (i + 1) v
  end.

Lemma first_set_spec fuel i v n : i <= n < i + Z.of_nat fuel ->
  Z.testbit v n = true -> (forall m, i <= m < n -> Z.testbit v m = false) ->
  first_set fuel i v = n.
Proof.
  revert i. induction fuel as [|fuel IH]; intros i Hn Hb Hlow; [lia|]. simpl.
  destruct (decide (i = n)) as [->|]; [by rewrite Hb|].
  rewrite Hlow by lia. apply IH; [lia|done|]. intros m Hm. apply Hlow. lia.
Qed.

(** ** The allocation bitmap *)

Definition slot_used (bm : list Z) (i : Z) : bool :=
  match rd bm (i / 64) with Some w => Z.testbit w (i mod 64) | None => false end.

Lemma word_bits w : in_u64 w -> forall n, 64 <= n -> Z.testbit w n = false.
Proof.
  unfold in_u64. intros H n Hn. destruct (decide (w = 0)) as [->|]; [apply Z.bits_0|].
  apply Z.bits_above_log2; [lia|]. apply Z.log2_lt_pow2; [lia|].
  apply Z.lt_le_trans with (2 ^ 64); [lia|]. by apply Z.pow_le_mono_r.
Qed.

Lemma bits_word w : 0 <= w -> (forall n, 64 <= n -> Z.testbit w n = false) -> in_u64 w.
Proof.
  intros H0 H. unfold in_u64. split; [done|].
  change 18446744073709551616 with (2 ^ 64).
  enough (w = w mod 2 ^ 64) as -> by (apply Z.mod_pos_bound; lia).
  apply Z.bits_inj'. intros n Hn. destruct (Z.lt_ge_cases n 64).
  - by rewrite Z.mod_pow2_bits_low.
  - by rewrite Z.mod_pow2_bits_high, H by lia.
Qed.

Lemma not64_testbit w n : 0 <= n ->
  Z.testbit (not64 w) n = (n <? 64) && negb (Z.testbit w n).
Proof.
  intros Hn. unfold not64, u64. change 18446744073709551616 with (2 ^ 64).
  destruct (Z.ltb_spec n 64).
  - rewrite Z.mod_pow2_bits_low by done. by rewrite Z.lnot_spec.
  - by rewrite Z.mod_pow2_bits_high by lia.
Qed.

Lemma testbit_one b n : 0 <= b -> 0 <= n -> Z.testbit (Z.shiftl 1 b) n = (n =? b).
Proof.
  intros Hb Hn. rewrite Z.shiftl_mul_pow2, Z.mul_1_l, Z.pow2_bits_eqb by done. apply Z.eqb_sym.
Qed.

Lemma bm_update bm i w w' : Forall in_u64 bm -> rd bm i = Some w -> in_u64 w' ->
  exists bm', wr bm i w' = Some bm' /\ length bm' = length bm /\ Forall in_u64 bm' /\
    forall j, slot_used bm' j =
      if j / 64 =? i then Z.testbit w' (j mod 64) else slot_used bm j.
Proof.
  intros Hbm Hr Hw'. pose proof (rd_Some_range _ _ _ Hr) as Hi.
  destruct (wr bm i w') as [bm'|] eqn:E; [|by rewrite wr_Some in E].
  exists bm'. split; [done|]. split; [by eapply wr_length|]. split.
  - rewrite wr_Some in E by done. apply (inj Some) in E as <-. by apply Forall_insert.
  - intros j. unfold slot_used. destruct (Z.eqb_spec (j / 64) i) as [->|Hne].
    + by rewrite (rd_wr_eq _ _ _ _ E).
    + by rewrite (rd_wr_ne _ _ _ _ _ (not_eq_sym Hne) E).
Qed.

Lemma bit_of_slot j i b : 0 <= b < 64 -> (j / 64 =? i) && (j mod 64 =? b) = (j =? i * 64 + b).
Proof.
  intros Hb. apply eq_iff_eq_true. rewrite andb_true_iff, !Z.eqb_eq. zlia.
Qed.

(** Setting and clearing bit [b] of word [i]. *)
Lemma bm_set bm i w b : Forall in_u64 bm -> rd bm i = Some w -> 0 <= b < 64 ->
  exists bm', wr bm i (Z.lor w (Z.shiftl 1 b)) = Some bm' /\ length bm' = length bm /\
    Forall in_u64 bm' /\ forall j, slot_used bm' j = (j =? i * 64 + b) || slot_used bm j.
Proof.
  intros Hbm Hr Hb. pose proof (rd_Forall _ _ _ _ Hbm Hr) as Hw.
  destruct (bm_update bm i w (Z.lor w (Z.shiftl 1 b))) as (bm' & E & Hl & Hf & Hu); [done|done| |].
  - apply bits_word.
    + apply Z.lor_nonneg. unfold in_u64 in Hw. rewrite Z.shiftl_nonneg. lia.
    + intros n Hn. rewrite Z.lor_spec, testbit_one, word_bits by (lia || done).
      apply Z.eqb_neq. lia.
  - exists bm'. do 3 (split; [done|]). intros j. rewrite Hu, <- bit_of_slot by done.
    destruct (Z.eqb_spec (j / 64) i) as [E'|]; [|done]. simpl.
    rewrite Z.lor_spec, testbit_one, orb_comm by zlia. unfold slot_used. by rewrite E', Hr.
Qed.

Lemma bm_clear bm i w b : Forall in_u64 bm -> rd bm i = Some w -> 0 <= b < 64 ->
  exists bm', wr bm i (Z.land w (not64 (Z.shiftl 1 b))) = Some bm' /\ length bm' = length bm /\
    Forall in_u64 bm' /\ forall j, slot_used bm' j = negb (j =? i * 64 + b) && slot_used bm j.
Proof.
  intros Hbm Hr Hb. pose proof (rd_Forall _ _ _ _ Hbm Hr) as Hw.
  destruct (bm_update bm i w (Z.land w (not64 (Z.shiftl 1 b)))) as (bm' & E & Hl & Hf & Hu);
    [done|done| |].
  - apply bits_word.
    + apply Z.land_nonneg. unfold in_u64 in Hw. lia.
    + intros n Hn. by rewrite Z.land_spec, word_bits.
  - exists bm'. do 3 (split; [done|]). intros j. rewrite Hu, <- bit_of_slot by done.
    destruct (Z.eqb_spec (j / 64) i) as [E'|]; [|done]. simpl.
    rewrite Z.land_spec, not64_testbit, testbit_one by zlia.
    rewrite (proj2 (Z.ltb_lt _ _)) by zlia. unfold slot_used. rewrite E', Hr. apply andb_comm.
Qed.

(** A word that is not all ones has a lowest clear bit, which the routine
    finds. *)
Lemma lowest_clear w : in_u64 w -> w <> U64_MAX ->
  0 <= a20_ctz64 (not64 w) < 64 /\ Z.testbit w (a20_ctz64 (not64 w)) = false /\
  forall m, 0 <= m < a20_ctz64 (not64 w) -> Z.testbit w m = true.
Proof.
  intros Hw Hne.
  assert (0 < not64 w < 2 ^ 64) as Hn.
  { unfold not64, u64, Z.lnot, Z.pred, in_u64, U64_MAX in *. change (2 ^ 64) with 18446744073709551616.
    zlia. }
  destruct (ctz_spec _ Hn) as (Hb & Ht & Hlow). split; [done|]. split.
  - rewrite not64_testbit in Ht by lia. apply andb_prop in Ht as [_ Ht]. by apply negb_true_iff.
  - intros m Hm. specialize (Hlow m Hm). rewrite not64_testbit in Hlow by lia.
    rewrite (proj2 (Z.ltb_lt m 64)) in Hlow by lia. by apply negb_false_iff in Hlow.
Qed.

(** ** The table's shape *)

Definition busy (e : a20_handle_entry) : bool := negb (e_state e =? A20_HS_FREE).

(** The entry of a handle in use. *)
Definition cap_at (h : a20_ht_internal) (j : Z) : option a20_handle_entry :=
  e ← rd (entries h) j;
  if busy e then Some e else None.

Definition nbusy (es : list a20_handle_entry) : Z := Z.of_nat (length (List.filter busy es)).

Record shape (h : a20_ht_internal) : Prop := {
  sh_cap : 0 < capacity h <= A20_HT_MAX_CAP;
  sh_words : capacity h mod 64 = 0;
  sh_entries : Z.of_nat (length (entries h)) = capacity h;
  sh_bm : Z.of_nat (length (free_bitmap h)) = bitmap_size h;
  sh_bm_size : bitmap_size h = capacity h / 64;
  sh_u64 : Forall in_u64 (free_bitmap h);
  sh_hint : 0 <= free_hint h <= capacity h;
}.

Definition bitmap_is (h : a20_ht_internal) (f : Z -> bool) : Prop :=
  forall j, slot_used (free_bitmap h) j = f j.

Definition busy_at (h : a20_ht_internal) (j : Z) : bool :=
  match cap_at h j with Some _ => true | None => false end.

(** What the operations on the slots do not touch. *)
Definition attrs (h : a20_ht_internal) :=
  (security_label h, refcount h, registry_next h, sig_pending h, sig_blocked h, max_handles h).

Definition same_but_slots (h h' : a20_ht_internal) : Prop :=
  capacity h' = capacity h /\ count h' = count h /\ attrs h' = attrs h.

Lemma shape_slots h bm hint : shape h -> length bm = length (free_bitmap h) ->
  Forall in_u64 bm -> 0 <= hint <= capacity h ->
  shape (h {{ free_bitmap := bm; free_hint := hint }}).
Proof. intros [] E. constructor; cbn; try done. by rewrite E. Qed.

(** The first slot the search looks at. *)
Definition scan_from (h : a20_ht_internal) : Z := 64 * (free_hint h / 64).

Lemma slot_used_word h j : shape h -> 0 <= j < capacity h ->
  exists w, rd (free_bitmap h) (j / 64) = Some w /\ in_u64 w /\
    slot_used (free_bitmap h) j = Z.testbit w (j mod 64).
Proof.
  intros Hs Hj. destruct (rd_is_Some (free_bitmap h) (j / 64)) as [w Hw].
  { rewrite (sh_bm h Hs), (sh_bm_size h Hs). pose proof (sh_words h Hs). zlia. }
  exists w. split; [done|]. split; [exact (rd_Forall _ _ _ _ (sh_u64 h Hs) Hw)|].
  unfold slot_used. by rewrite Hw.
Qed.

(** The body of the search at word [i]: the lowest clear bit of the word. *)
Lemma alloc_word h i : shape h -> 0 <= i < bitmap_size h ->
  let body := (word ← rd (free_bitmap h) i;
    if negb (word =? U64_MAX) then
      let bit := a20_ctz64 (not64 word) in
      let slot := u32 (i * 64 + bit) in
      if slot <? capacity h then Some (Some (i, bit, slot)) else Some None
    else Some None) in
  (body = Some None /\ forall j, i * 64 <= j < i * 64 + 64 -> slot_used (free_bitmap h) j = true) \/
  (exists b w, body = Some (Some (i, b, i * 64 + b)) /\ 0 <= b < 64 /\
     rd (free_bitmap h) i = Some w /\ slot_used (free_bitmap h) (i * 64 + b) = false /\
     forall j, i * 64 <= j < i * 64 + b -> slot_used (free_bitmap h) j = true).
Proof.
  intros Hs Hi. destruct (rd_is_Some (free_bitmap h) i) as [w Hw]; [rewrite (sh_bm h Hs); lia|].
  assert (forall j, i * 64 <= j < i * 64 + 64 ->
            slot_used (free_bitmap h) j = Z.testbit w (j - i * 64)) as Hu.
  { intros j Hj. unfold slot_used. replace (j / 64) with i by zlia. rewrite Hw. f_equal. zlia. }
  rewrite Hw. cbn [mbind option_bind]. pose proof (rd_Forall _ _ _ _ (sh_u64 h Hs) Hw) as Hw64.
  destruct (Z.eqb_spec w U64_MAX) as [->|Hne]; cbn [negb].
  - left. split; [done|]. intros j Hj. rewrite Hu by done.
    change U64_MAX with (Z.ones 64). apply Z.ones_spec_low. lia.
  - right. destruct (lowest_clear w Hw64 Hne) as (Hb & Hc & Hlow).
    pose proof (sh_bm_size h Hs). pose proof (sh_words h Hs). pose proof (sh_cap h Hs).
    unfold A20_HT_MAX_CAP in *. cbv zeta.
    rewrite u32_small by (unfold in_u32; zlia). rewrite (proj2 (Z.ltb_lt _ _)) by zlia.
    eexists _, w. split; [done|]. split; [done|]. split; [done|]. split.
    + rewrite Hu by lia. by replace (_ - _) with (a20_ctz64 (not64 w)) by lia.
    + intros j Hj. rewrite Hu by lia. apply Hlow. lia.
Qed.

(** Allocation takes the lowest clear slot at or above the word of the hint. *)
Lemma alloc_slot_ok h : shape h ->
  (ht_alloc_slot h = Some (h, -1) /\
   forall j, scan_from h <= j < capacity h -> slot_used (free_bitmap h) j = true) \/
  (exists h' r, ht_alloc_slot h = Some (h', r) /\ scan_from h <= r < capacity h /\
     slot_used (free_bitmap h) r = false /\
     (forall j, scan_from h <= j < r -> slot_used (free_bitmap h) j = true) /\
     shape h' /\ free_hint h' = r + 1 /\ entries h' = entries h /\ same_but_slots h h' /\
     bitmap_is h' (fun j => (j =? r) || slot_used (free_bitmap h) j)).
Proof.
  intros Hs. pose proof (sh_bm_size h Hs). pose proof (sh_words h Hs). pose proof (sh_cap h Hs).
  pose proof (sh_hint h Hs). unfold ht_alloc_slot, scan_from, A20_HT_MAX_CAP in *.
  destruct (for_return _ _ _) as [[[[i b] r]|]|] eqn:E; cbn [mbind option_bind].
  - right. apply for_return_Some in E as (k & Hk & Hbody & Hbefore).
    destruct (alloc_word h k Hs) as [[Hc _]|(b' & w & Hc & Hb & Hw & Hfree & Hlow)]; [zlia| |];
      cbv zeta in Hc; rewrite Hbody in Hc; [done|].
    injection Hc as -> -> ->. rewrite Hw. cbn [mbind option_bind].
    destruct (bm_set _ _ _ _ (sh_u64 h Hs) Hw Hb) as (bm' & -> & Hl & H64 & Hu).
    cbn [mbind option_bind]. rewrite u32_small by (unfold in_u32; zlia).
    eexists _, _. split; [done|]. split; [zlia|]. split; [done|]. split.
    { intros j Hj. destruct (decide (j < k * 64)); [|apply Hlow; lia].
      destruct (alloc_word h (j / 64) Hs) as [[_ Hall]|(? & ? & Hc & _)]; [zlia|apply Hall; zlia|].
      cbv zeta in Hc. rewrite Hbefore in Hc by zlia. done. }
    split; [apply shape_slots; done || zlia|].
    split; [done|]. split; [done|]. split; [done|]. exact Hu.
  - left. split; [done|]. rewrite for_return_None in E. intros j Hj.
    destruct (alloc_word h (j / 64) Hs) as [[_ Hall]|(? & ? & Hc & _)]; [zlia|apply Hall; zlia|].
    cbv zeta in Hc. rewrite E in Hc by zlia. done.
  - exfalso. revert E. apply for_return_total. intros j Hj.
    destruct (alloc_word h j Hs) as [[Hc _]|(? & ? & Hc & _)]; [zlia| |]; cbv zeta in Hc;
      by rewrite Hc.
Qed.

Lemma free_slot_ok h r : shape h -> 0 <= r < capacity h ->
  exists h', ht_free_slot h r = Some h' /\ shape h' /\ entries h' = entries h /\
    same_but_slots h h' /\ free_hint h' = Z.min (free_hint h) r /\
    bitmap_is h' (fun j => negb (j =? r) && slot_used (free_bitmap h) j).
Proof.
  intros Hs Hr. destruct (slot_used_word h r Hs Hr) as (w & Hw & H64 & _).
  unfold ht_free_slot. rewrite Hw. cbn [mbind option_bind].
  destruct (bm_clear _ _ _ (r mod 64) (sh_u64 h Hs) Hw ltac:(zlia)) as (bm' & -> & Hl & Hf & Hu).
  cbn [mbind option_bind]. eexists. split; [done|].
  pose proof (sh_hint h Hs). pose proof (sh_cap h Hs). replace (r / 64 * 64 + r mod 64) with r in Hu by zlia.
  change (free_hint (h {{ free_bitmap := bm' }})) with (free_hint h).
  destruct (Z.ltb_spec r (free_hint h)).
  - split; [apply (shape_slots h bm' r); done || lia|].
    split; [done|]. split; [done|]. split; [by rewrite Z.min_r by lia|]. exact Hu.
  - split; [apply (shape_slots h bm' (free_hint h)); done || lia|].
    split; [done|]. split; [done|]. split; [by rewrite Z.min_l by lia|]. exact Hu.
Qed.

(** ** The invariant *)

(** The rights stay within what the type allows. *)
Definition rights_ok (type rights : Z) : Prop :=
  exists v, a20_type_valid_rights type = Some v /\ Z.land rights v = rights.

(** A limit on time is recorded together with its flag. *)
Definition temporal_ok (expiry_tick temporal_flags : Z) : Prop :=
  0 < expiry_tick -> has temporal_flags A20_TEMPORAL_EXPIRY_ABSOLUTE = true.

Definition entry_ok (e : a20_handle_entry) : Prop :=
  0 <= e_remaining_ops e /\
  (e_state e = A20_HS_FREE /\ e_object e = 0 \/
   e_state e = A20_HS_CLOSING /\ e_object e = 0 \/
   (e_state e = A20_HS_ACTIVE /\ e_object e <> 0 /\ rights_ok (e_type e) (e_rights e) /\
    temporal_ok (e_expiry_tick e) (e_temporal_flags e)) \/
   e_state e = A20_HS_EXPIRED /\ e_object e <> 0 /\ e_rights e = 0).

Record ht_wf (h : a20_ht_internal) : Prop := {
  hw_shape : shape h;
  hw_bitmap : bitmap_is h (busy_at h);
  hw_count : count h = nbusy (entries h);
  hw_entries : Forall entry_ok (entries h);
}.

Lemma cap_at_Some h j e : cap_at h j = Some e <-> rd (entries h) j = Some e /\ busy e = true.
Proof.
  unfold cap_at. destruct (rd (entries h) j) as [e'|]; cbn [mbind option_bind].
  - destruct (busy e') eqn:E; split; intros H; [| |done|]; [| |destruct H as [H ?]].
    + apply (inj Some) in H as ->. done.
    + by destruct H as [H _].
    + apply (inj Some) in H as ->. congruence.
  - split; [done|]. by intros [? _].
Qed.

Lemma cap_at_set h es r e j : wr (entries h) r e = Some es ->
  cap_at (h {{ entries := es }}) j =
  if j =? r then (if busy e then Some e else None) else cap_at h j.
Proof.
  intros E. unfold cap_at. change (entries (h {{ entries := es }})) with es.
  destruct (Z.eqb_spec j r) as [->|Hne].
  - by rewrite (rd_wr_eq _ _ _ _ E).
  - by rewrite (rd_wr_ne _ _ _ _ _ (not_eq_sym Hne) E).
Qed.

Lemma nbusy_set es es' r e e' : rd es r = Some e -> wr es r e' = Some es' ->
  nbusy es' = nbusy es - c_bool (busy e) + c_bool (busy e').
Proof.
  intros Hr Hw. pose proof (rd_Some_range _ _ _ Hr) as Hi.
  rewrite wr_Some in Hw by done. apply (inj Some) in Hw as <-.
  unfold rd in Hr. rewrite (proj2 (Z.leb_le 0 _)) in Hr by lia.
  pose proof (take_drop_middle es _ e Hr) as Es.
  rewrite insert_take_drop by (apply lookup_lt_Some in Hr; lia). rewrite <- Es at 3.
  unfold nbusy. rewrite !filter_app. cbn [List.filter]. rewrite !length_app.
  destruct (busy e), (busy e'); cbn [length c_bool]; lia.
Qed.

Lemma nbusy_bound es : 0 <= nbusy es <= Z.of_nat (length es).
Proof. unfold nbusy. pose proof (List.filter_length_le busy es). lia. Qed.

Lemma busy_at_lookup h j e : rd (entries h) j = Some e -> busy_at h j = busy e.
Proof. intros H. unfold busy_at, cap_at. rewrite H. cbn [mbind option_bind]. by destruct (busy e). Qed.

Lemma shape_entries h es : shape h -> length es = length (entries h) ->
  shape (h {{ entries := es }}).
Proof. intros [] E. constructor; cbn; try done. by rewrite E. Qed.

Lemma shape_count h c : shape h -> shape (h {{ count := c }}).
Proof. intros []. by constructor. Qed.

Lemma set_entry_total h r e : shape h -> 0 <= r < capacity h ->
  exists es, wr (entries h) r e = Some es /\ set_entry h r e = Some (h {{ entries := es }}) /\
    shape (h {{ entries := es }}).
Proof.
  intros Hs Hr. destruct (wr (entries h) r e) as [es|] eqn:E.
  - exists es. split; [done|]. unfold set_entry. rewrite E. split; [done|].
    apply shape_entries; [done|]. by eapply wr_length.
  - rewrite wr_Some in E; [done|]. by rewrite (sh_entries h Hs).
Qed.

Lemma entry_total h r : shape h -> 0 <= r < capacity h -> exists e, rd (entries h) r = Some e.
Proof. intros Hs Hr. apply rd_is_Some. by rewrite (sh_entries h Hs). Qed.

Lemma entry_range h r e : shape h -> rd (entries h) r = Some e -> 0 <= r < capacity h.
Proof. intros Hs H%rd_Some_range. by rewrite (sh_entries h Hs) in H. Qed.

Lemma cap_at_range h r e : shape h -> cap_at h r = Some e -> 0 <= r < capacity h.
Proof. intros Hs [H _]%cap_at_Some. by eapply entry_range. Qed.

Lemma wf_entry h r e : ht_wf h -> rd (entries h) r = Some e -> entry_ok e.
Proof. intros Hw. by apply rd_Forall, Hw. Qed.

(** What one slot changing does: the others keep their entries. *)
Definition slot_becomes (h h' : a20_ht_internal) (r : Z) (o : option a20_handle_entry) : Prop :=
  ht_wf h' /\ capacity h' = capacity h /\ attrs h' = attrs h /\
  forall j, cap_at h' j = if j =? r then o else cap_at h j.

(** Writing a busy entry into a slot marked in the bitmap. *)
Lemma occupy_ok h h1 r e : ht_wf h -> 0 <= r < capacity h -> cap_at h r = None ->
  shape h1 -> entries h1 = entries h -> same_but_slots h h1 ->
  bitmap_is h1 (fun j => (j =? r) || busy_at h j) -> busy e = true -> entry_ok e ->
  exists h2, set_entry h1 r e = Some h2 /\
    let h3 := h2 {{ count := u32 (count h2 + 1) }} in
    slot_becomes h h3 r (Some e) /\ count h3 = count h + 1 /\ free_hint h3 = free_hint h1.
Proof.
  intros Hw Hr Hfree Hs1 Hes (Hcap & Hcnt & Hattr) Hbm He Hok.
  destruct (set_entry_total h1 r e) as (es & Hwr & Hset & Hsh); [done|congruence|].
  exists (h1 {{ entries := es }}). split; [done|]. cbv zeta.
  destruct (entry_total h r (hw_shape h Hw) Hr) as [e0 He0].
  assert (busy e0 = false) as Hb0.
  { destruct (busy e0) eqn:E; [|done]. by rewrite (proj2 (cap_at_Some h r e0)) in Hfree. }
  assert (count (h1 {{ entries := es }}) = count h) as -> by done.
  rewrite Hes in Hwr. pose proof (nbusy_set _ _ _ _ _ He0 Hwr) as Hn. rewrite Hb0, He in Hn.
  pose proof (nbusy_bound es) as Hbd. rewrite (wr_length _ _ _ _ Hwr) in Hbd.
  pose proof (sh_entries h (hw_shape h Hw)) as Hlen. pose proof (sh_cap h (hw_shape h Hw)) as Hmax.
  pose proof (hw_count h Hw) as Hc. unfold c_bool, A20_HT_MAX_CAP in *.
  pose proof (nbusy_bound (entries h)) as Hbd'.
  rewrite u32_small by (unfold in_u32; lia).
  assert (forall j, cap_at (h1 {{ entries := es; count := count h + 1 }}) j
            = if j =? r then Some e else cap_at h j) as Hat.
  { intros j. change (cap_at (h1 {{ entries := es; count := count h + 1 }}) j)
      with (cap_at (h {{ entries := es }}) j).
    rewrite (cap_at_set _ _ _ _ _ Hwr). by rewrite He. }
  split; [|done]. split; [|split; [exact Hcap|split; [exact Hattr|exact Hat]]].
  constructor.
  - by apply shape_count.
  - intros j. etrans; [exact (Hbm j)|]. unfold busy_at at 2. rewrite Hat. unfold busy_at.
    by destruct (j =? r).
  - change (count h + 1 = nbusy es). lia.
  - change (Forall entry_ok es). rewrite wr_Some in Hwr by lia. apply (inj Some) in Hwr as <-.
    apply Forall_insert; [apply Hw|done].
Qed.

(** Replacing the entry of a busy slot. *)
Lemma update_ok h r e e' : ht_wf h -> cap_at h r = Some e -> busy e' = true -> entry_ok e' ->
  exists h', set_entry h r e' = Some h' /\ slot_becomes h h' r (Some e') /\
    count h' = count h /\ free_hint h' = free_hint h.
Proof.
  intros Hw Hc He' Hok. pose proof (cap_at_range _ _ _ (hw_shape h Hw) Hc) as Hr.
  apply cap_at_Some in Hc as [Hrd He].
  destruct (set_entry_total h r e') as (es & Hwr & Hset & Hsh); [apply Hw|done|].
  exists (h {{ entries := es }}). split; [done|]. split; [|done].
  pose proof (nbusy_set _ _ _ _ _ Hrd Hwr) as Hn. rewrite He, He' in Hn. unfold c_bool in Hn.
  assert (forall j, cap_at (h {{ entries := es }}) j
            = if j =? r then Some e' else cap_at h j) as Hat.
  { intros j. by rewrite (cap_at_set _ _ _ _ _ Hwr), He'. }
  split; [|done]. constructor.
  - done.
  - intros j. etrans; [exact (hw_bitmap h Hw j)|]. unfold busy_at. rewrite Hat.
    destruct (Z.eqb_spec j r) as [->|]; [|done]. by rewrite (proj2 (cap_at_Some h r e)).
  - change (count h = nbusy es). pose proof (hw_count h Hw). lia.
  - change (Forall entry_ok es). rewrite wr_Some in Hwr by (rewrite (sh_entries h (hw_shape h Hw)); lia).
    apply (inj Some) in Hwr as <-. apply Forall_insert; [apply Hw|done].
Qed.

(** Clearing a busy slot. *)
Lemma vacate_ok h r e e' : ht_wf h -> cap_at h r = Some e -> busy e' = false -> entry_ok e' ->
  exists h1 h2, set_entry h r e' = Some h1 /\ ht_free_slot h1 r = Some h2 /\
    let h3 := h2 {{ count := u32 (count h2 - 1) }} in
    slot_becomes h h3 r None /\ count h3 = count h - 1 /\ free_hint h3 = Z.min (free_hint h) r.
Proof.
  intros Hw Hc He' Hok. pose proof (cap_at_range _ _ _ (hw_shape h Hw) Hc) as Hr.
  apply cap_at_Some in Hc as [Hrd He].
  destruct (set_entry_total h r e') as (es & Hwr & Hset & Hsh); [apply Hw|done|].
  destruct (free_slot_ok (h {{ entries := es }}) r) as (h2 & Hf & Hs2 & Hes & (Hcap & Hcnt & Hattr) & Hh & Hbm);
    [done|done|].
  exists (h {{ entries := es }}), h2. split; [done|]. split; [done|]. cbv zeta.
  pose proof (nbusy_set _ _ _ _ _ Hrd Hwr) as Hn. rewrite He, He' in Hn. unfold c_bool in Hn.
  pose proof (nbusy_bound es) as Hbd. rewrite (wr_length _ _ _ _ Hwr) in Hbd.
  pose proof (sh_entries h (hw_shape h Hw)) as Hlen. pose proof (sh_cap h (hw_shape h Hw)) as Hmax.
  pose proof (hw_count h Hw) as Hc. unfold A20_HT_MAX_CAP in *.
  change (count (h {{ entries := es }})) with (count h) in Hcnt. rewrite Hcnt.
  pose proof (nbusy_bound (entries h)) as Hbd'.
  rewrite u32_small by (unfold in_u32; lia).
  assert (forall j, cap_at (h2 {{ count := count h - 1 }}) j
            = if j =? r then None else cap_at h j) as Hat.
  { intros j. unfold cap_at at 1. change (entries (h2 {{ count := count h - 1 }})) with (entries h2).
    rewrite Hes. fold (cap_at (h {{ entries := es }}) j).
    rewrite (cap_at_set _ _ _ _ _ Hwr). by rewrite He'. }
  split; [|done]. split; [|split; [exact Hcap|split; [exact Hattr|exact Hat]]]. constructor.
  - by apply shape_count.
  - intros j. etrans; [exact (Hbm j)|]. etrans; [exact (f_equal _ (hw_bitmap h Hw j))|].
    unfold busy_at. rewrite Hat. by destruct (j =? r).
  - change (count h - 1 = nbusy (entries h2)). rewrite Hes. change (count h - 1 = nbusy es). lia.
  - change (Forall entry_ok (entries h2)). rewrite Hes. change (Forall entry_ok es).
    rewrite wr_Some in Hwr by lia. apply (inj Some) in Hwr as <-. apply Forall_insert; [apply Hw|done].
Qed.

Lemma rd_grown {A} (zero : A) old m n new : Z.of_nat (length old) = m ->
  grown zero old m n = Some new ->
  m <= n /\ Z.of_nat (length new) = n /\
  forall j, rd new j = if (m <=? j) && (j <? n) then Some zero else rd old j.
Proof.
  intros Hl. unfold grown. split_if; [|done]. reflect. intros [= <-].
  rewrite take_ge by lia. split; [done|]. split; [rewrite length_app, length_replicate; lia|].
  intros j. destruct (Z.leb_spec m j); cbn [andb].
  - rewrite rd_app_r by lia. destruct (Z.ltb_spec j n).
    + unfold rd. rewrite (proj2 (Z.leb_le 0 _)) by lia. apply lookup_replicate_2. lia.
    + unfold rd. rewrite !(proj2 (Z.leb_le 0 _)) by lia.
      rewrite !(proj2 (lookup_ge_None _ _)); [done|lia|rewrite length_replicate; lia].
  - by rewrite rd_app_l by lia.
Qed.

Lemma zero_not_busy : busy zero_entry = false.
Proof. done. Qed.

Lemma zero_entry_ok : entry_ok zero_entry.
Proof. split; [done|]. by left. Qed.

(** Growth keeps every handle, or changes nothing. *)
Definition grew (h h' : a20_ht_internal) : Prop :=
  ht_wf h' /\ capacity h' = Z.min (2 * capacity h) A20_HT_MAX_CAP /\ count h' = count h /\
  free_hint h' = free_hint h /\ attrs h' = attrs h /\ forall j, cap_at h' j = cap_at h j.

Lemma grow_ok mem h : ht_wf h ->
  (ht_grow mem h = Some (h, - A20_ERR_NO_SPACE) /\ capacity h = A20_HT_MAX_CAP) \/
  (ht_grow mem h = Some (h, - A20_ERR_NO_MEMORY) /\ mem = false) \/
  (exists h', ht_grow mem h = Some (h', 0) /\ mem = true /\ capacity h < A20_HT_MAX_CAP /\ grew h h').
Proof.
  intros Hw. pose proof (hw_shape h Hw) as Hs. pose proof (sh_cap h Hs) as Hcap.
  pose proof (sh_words h Hs) as H64. pose proof (sh_bm_size h Hs) as Hbs.
  unfold ht_grow, A20_HT_GROWTH_FACTOR, A20_HT_MAX_CAP in *.
  destruct (Z.leb_spec 65536 (capacity h)); [left; split; [done|lia]|].
  destruct mem; cbn [negb]; [right; right|by right; left].
  rewrite (u32_small (capacity h * 2)) by (unfold in_u32; lia).
  replace (if 65536 <? capacity h * 2 then 65536 else capacity h * 2)
    with (Z.min (2 * capacity h) 65536) by (split_if; reflect; lia).
  set (nc := Z.min (2 * capacity h) 65536) in *.
  assert (nc mod 64 = 0) as Hnc by (unfold nc; zlia).
  rewrite u32_small by (unfold in_u32; lia).
  replace ((nc + 63) / 64) with (nc / 64) by zlia.
  destruct (grown zero_entry (entries h) (capacity h) nc) as [es|] eqn:Ees.
  2: { unfold grown in Ees. rewrite !(proj2 (Z.leb_le _ _)) in Ees; [done|lia|].
       rewrite (sh_entries h Hs). lia. }
  destruct (grown 0 (free_bitmap h) (bitmap_size h) (nc / 64)) as [bm|] eqn:Ebm.
  2: { unfold grown in Ebm. rewrite !(proj2 (Z.leb_le _ _)) in Ebm; [done|zlia|].
       rewrite (sh_bm h Hs). lia. }
  destruct (rd_grown _ _ _ _ _ (sh_entries h Hs) Ees) as (_ & Les & Res).
  destruct (rd_grown _ _ _ _ _ (sh_bm h Hs) Ebm) as (_ & Lbm & Rbm).
  cbn [mbind option_bind]. eexists. split; [done|]. split; [done|]. split; [done|].
  assert (forall j, cap_at (h {{ entries := es; free_bitmap := bm;
            bitmap_size := nc / 64; capacity := nc }}) j = cap_at h j) as Hat.
  { intros j. unfold cap_at. change (entries (h {{ entries := es; free_bitmap := bm;
            bitmap_size := nc / 64; capacity := nc }})) with es. rewrite Res.
    destruct (Z.leb_spec (capacity h) j); [|done]. destruct (Z.ltb_spec j nc); [|done]. cbn [andb].
    destruct (rd (entries h) j) eqn:E; [|done]. apply (entry_range h) in E; [lia|done]. }
  split; [|done]. constructor.
  - constructor; cbn; try done; try (unfold A20_HT_MAX_CAP; lia).
    + unfold grown in Ebm. destruct (_ && _); [|done]. apply (inj Some) in Ebm as <-.
      apply Forall_app. split; [apply Forall_take, Hs|]. by apply Forall_replicate.
    + change (0 <= free_hint h <= nc). pose proof (sh_hint h Hs). lia.
  - intros j. unfold busy_at. rewrite Hat. fold (busy_at h j). rewrite <- (hw_bitmap h Hw j).
    unfold slot_used. change (free_bitmap (h {{ entries := es; free_bitmap := bm;
            bitmap_size := nc / 64; capacity := nc }})) with bm. rewrite Rbm.
    destruct (Z.leb_spec (bitmap_size h) (j / 64)); [|done]. destruct (Z.ltb_spec (j / 64) (nc / 64)); [|done].
    cbn [andb]. rewrite Z.bits_0.
    destruct (rd (free_bitmap h) (j / 64)) eqn:E; [|done]. apply rd_Some_range in E.
    rewrite (sh_bm h Hs) in E. lia.
  - change (count h = nbusy es). rewrite (hw_count h Hw). unfold grown in Ees.
    destruct (_ && _); [|done]. apply (inj Some) in Ees as <-. unfold nbusy.
    rewrite filter_app, take_ge by (pose proof (sh_entries h Hs); lia).
    rewrite length_app. generalize (Z.to_nat (nc - capacity h)). intros n.
    induction n as [|n IH]; simpl in *; lia.
  - change (Forall entry_ok es). unfold grown in Ees. destruct (_ && _); [|done].
    apply (inj Some) in Ees as <-. apply Forall_app. split; [apply Forall_take, Hw|].
    apply Forall_replicate, zero_entry_ok.
Qed.

(** A new table satisfies the invariant and has no handles. *)
Lemma created_wf p b next : ht_wf (ht_created p b next).
Proof.
  constructor.
  - constructor; cbn; try done; try lia. by repeat constructor.
  - intros j. unfold slot_used, busy_at, cap_at.
    change (entries (ht_created p b next)) with (replicate 256 zero_entry).
    change (free_bitmap (ht_created p b next)) with (replicate 4 0).
    assert (forall A (x : A) n i y, rd (replicate n x) i = Some y -> y = x) as Hrep.
    { intros A x n i y. unfold rd. split_if; [|done]. intros Hy.
      by apply lookup_replicate in Hy as [? _]. }
    destruct (rd (replicate 4 0) (j / 64)) eqn:E1; [apply Hrep in E1 as ->; rewrite Z.bits_0|];
      (destruct (rd (replicate 256 zero_entry) j) eqn:E2; [by apply Hrep in E2 as ->|done]).
  - done.
  - apply Forall_replicate, zero_entry_ok.
Qed.
