(* ===== verification/HandleOps.v ===== *)
(** * Correctness of the handle table: operations

    What installing, looking up, removing, reserving, committing, limiting
    and sweeping do to the handles of a well-formed table, branch by branch. *)

From S2P Require Import Prelude HandleTable HandleTheory.
From stdpp Require Import list.
#[local] Open Scope Z_scope.

(** The table inside the state. *)
Lemma ht_set_ht s h : ht (set_ht s h) = h.
Proof. done. Qed.
Lemma ht_emit e s : ht (emit e s) = ht s.
Proof. done. Qed.
Lemma ht_objstat s d : ht (a20_objstat_add s d) = ht s.
Proof. done. Qed.
Lemma log_set_ht s h : log (set_ht s h) = log s.
Proof. done. Qed.
Lemma log_emit e s : log (emit e s) = e :: log s.
Proof. done. Qed.
Lemma log_objstat s d : log (a20_objstat_add s d) = log s.
Proof. done. Qed.
Lemma stat_set_ht s h : stat_handles (set_ht s h) = stat_handles s.
Proof. done. Qed.
Lemma stat_emit e s : stat_handles (emit e s) = stat_handles s.
Proof. done. Qed.
Lemma stat_objstat s d : stat_handles (a20_objstat_add s d) = u64 (stat_handles s + d).
Proof. done. Qed.

Create Rewrite HintDb a20_hts.
#[export] Hint Rewrite ht_set_ht ht_emit ht_objstat log_set_ht log_emit log_objstat
  stat_set_ht stat_emit stat_objstat : a20_hts.

(** ** Rights *)

Lemma type_rights_total type : 0 <= type ->
  exists v, a20_type_valid_rights type = Some v /\ in_u64 v.
Proof.
  intros H. unfold a20_type_valid_rights. split_if; reflect; [by exists 0|].
  assert (Forall in_u64 a20_type_rights) as Hall by (by repeat constructor).
  destruct (rd_is_Some a20_type_rights type) as [v Hv]; [cbn; lia|].
  exists v. split; [done|]. exact (rd_Forall _ _ _ _ Hall Hv).
Qed.

(** Clamping is intersection with the type's rights. *)
Lemma clamp_ok type rights : 0 <= type -> in_u64 rights ->
  exists v, a20_type_valid_rights type = Some v /\
    clamp_rights type rights = Some (Z.land rights v) /\ rights_ok type (Z.land rights v).
Proof.
  intros Ht Hr. destruct (type_rights_total type Ht) as (v & Hv & Hv64). exists v.
  split; [done|]. split.
  - unfold clamp_rights. rewrite Hv. cbn [mbind option_bind]. unfold c_true.
    destruct (Z.eqb_spec (Z.land rights (not64 v)) 0) as [E|]; [|done]. cbn [negb]. f_equal.
    apply Z.bits_inj'. intros n Hn. rewrite Z.land_spec.
    apply (f_equal (fun z => Z.testbit z n)) in E.
    rewrite Z.land_spec, not64_testbit, Z.bits_0 in E by done.
    destruct (Z.ltb_spec n 64).
    + by destruct (Z.testbit rights n), (Z.testbit v n).
    + by rewrite (word_bits rights) by (done || lia).
  - exists v. split; [done|]. by rewrite <- Z.land_assoc, Z.land_diag.
Qed.

(** ** Installing *)

(** The arguments of an installation, as the callers pass them. *)
Record install_args := {
  ia_object : Z; ia_type : Z; ia_rights : Z;
  ia_expiry : Z; ia_ops : Z; ia_flags : Z; ia_label : Z;
}.

Definition args_ok (a : install_args) : Prop :=
  ia_object a <> 0 /\ 0 <= ia_type a /\ in_u64 (ia_rights a) /\ 0 <= ia_ops a /\
  temporal_ok (ia_expiry a) (ia_flags a).

Definition args_entry (a : install_args) (rights : Z) : a20_handle_entry :=
  active_entry (ia_object a) (ia_type a) rights (ia_expiry a) (ia_ops a) (ia_flags a) (ia_label a).

Lemma args_entry_ok a rights : args_ok a -> rights_ok (ia_type a) rights ->
  entry_ok (args_entry a rights) /\ busy (args_entry a rights) = true.
Proof.
  intros (Ho & _ & _ & Hops & Ht) Hr. split; [|done]. split; [done|]. right; right; left.
  split; [done|]. split; [done|]. by split.
Qed.

(** [h1] is [h] with slot [r], free before, marked in the bitmap. *)
Definition slot_taken (h h1 : a20_ht_internal) (r : Z) : Prop :=
  0 <= r < capacity h /\ cap_at h r = None /\ shape h1 /\ entries h1 = entries h /\
  same_but_slots h h1 /\ bitmap_is h1 (fun j => (j =? r) || busy_at h j).

Lemma busy_at_beyond h j : shape h -> capacity h <= j -> busy_at h j = false.
Proof.
  intros Hs Hj. unfold busy_at. destruct (cap_at h j) eqn:E; [|done].
  apply cap_at_range in E; [lia|done].
Qed.

Lemma not_busy_at h j : busy_at h j = false -> cap_at h j = None.
Proof. unfold busy_at. by destruct (cap_at h j). Qed.

Lemma scan_from_range h : shape h -> 0 <= scan_from h <= free_hint h.
Proof. intros Hs. pose proof (sh_hint h Hs). unfold scan_from. zlia. Qed.

Lemma alloc_taken h : ht_wf h ->
  (ht_alloc_slot h = Some (h, -1) /\
   forall j, scan_from h <= j < capacity h -> busy_at h j = true) \/
  exists h1 r, ht_alloc_slot h = Some (h1, r) /\ slot_taken h h1 r /\ scan_from h <= r /\
    (forall j, scan_from h <= j < r -> busy_at h j = true) /\ free_hint h1 = r + 1.
Proof.
  intros Hw. pose proof (scan_from_range h (hw_shape h Hw)).
  destruct (alloc_slot_ok h (hw_shape h Hw))
    as [[E Hall]|(h1 & r & E & Hr & Hf & Hlow & Hs & Hh & Hes & Hsame & Hbm)].
  - left. split; [done|]. intros j Hj. rewrite <- (hw_bitmap h Hw j). by apply Hall.
  - right. exists h1, r. split; [done|]. split.
    + split; [lia|]. split; [apply not_busy_at; by rewrite <- (hw_bitmap h Hw r)|].
      split; [done|]. split; [done|]. split; [done|].
      intros j. by rewrite (Hbm j), (hw_bitmap h Hw j).
    + split; [lia|]. split; [|done]. intros j Hj. rewrite <- (hw_bitmap h Hw j). by apply Hlow.
Qed.

(** The quota is reached, or every slot from the hint's word on is taken and
    the table cannot grow. *)
Definition no_slot (mem : bool) (h : a20_ht_internal) : Prop :=
  max_handles h <= count h \/
  (forall j, scan_from h <= j < capacity h -> busy_at h j = true) /\
  (capacity h = A20_HT_MAX_CAP \/ mem = false).

(** The same handles in a table that may have more slots. *)
Definition extends (h h' : a20_ht_internal) : Prop :=
  ht_wf h' /\ capacity h <= capacity h' /\ count h' = count h /\ free_hint h' = free_hint h /\
  attrs h' = attrs h /\ forall j, cap_at h' j = cap_at h j.

Lemma extends_refl h : ht_wf h -> extends h h.
Proof. done. Qed.

Lemma extends_trans h1 h2 h3 : extends h1 h2 -> extends h2 h3 -> extends h1 h3.
Proof.
  intros (_ & C1 & N1 & H1 & A1 & E1) (W2 & C2 & N2 & H2 & A2 & E2).
  split; [done|]. split; [lia|]. split; [congruence|]. split; [congruence|]. split; [congruence|].
  intros j. by rewrite E2, E1.
Qed.

Lemma grew_extends h h' : ht_wf h -> grew h h' -> extends h h'.
Proof.
  intros Hw (Hw' & Hc & Hn & Hh & Ha & Hat). pose proof (sh_cap h (hw_shape h Hw)).
  split; [done|]. split; [|done]. lia.
Qed.

#[export] Hint Resolve extends_refl grew_extends : a20.

Lemma install_slot_ok mem h : ht_wf h ->
  (install_slot mem h = Some (h, -1) /\ no_slot mem h) \/
  (exists h0 h1 r, install_slot mem h = Some (h1, r) /\ extends h h0 /\ slot_taken h0 h1 r /\
     ~ no_slot mem h).
Proof.
  intros Hw. unfold install_slot, no_slot.
  destruct (Z.ltb_spec (count h) (max_handles h)) as [Hq|Hq]; cbn [mbind option_bind].
  2: { left. rewrite andb_comm, (proj2 (Z.ltb_ge (count h) (max_handles h))) by done. cbn. auto. }
  destruct (alloc_taken h Hw) as [[-> Hall]|(h1 & r & -> & Ht & Hfrom & Hlow & _)]; cbn [mbind option_bind].
  - rewrite (proj2 (Z.ltb_lt (count h) (max_handles h))) by done. cbn [Z.ltb Z.compare andb].
    destruct (grow_ok mem h Hw) as [[-> Hc]|[[-> Hm]|(h0 & -> & -> & Hmax & Hg)]]; cbn [mbind option_bind].
    + left. auto.
    + left. auto.
    + right. change (0 =? 0) with true. cbv iota.
      pose proof Hg as (Hw0 & Hcap0 & Hcnt0 & Hh0 & Ha0 & Hat0).
      pose proof (sh_hint h (hw_shape h Hw)). pose proof (sh_cap h (hw_shape h Hw)).
      destruct (alloc_taken h0 Hw0) as [[_ Hall0]|(h1 & r & -> & Ht & _)].
      { exfalso. enough (busy_at h (capacity h) = true) as E.
        { rewrite busy_at_beyond in E; [done|apply Hw|lia]. }
        unfold busy_at. rewrite <- Hat0. fold (busy_at h0 (capacity h)). apply Hall0.
        pose proof (scan_from_range h0 (hw_shape h0 Hw0)). unfold A20_HT_MAX_CAP in *. lia. }
      exists h0, h1, r. split; [done|]. split; [by apply grew_extends|]. split; [done|]. intros [|[_ [?|?]]]; lia || done.
  - right. pose proof Ht as (Hr & Hf & _). exists h, h1, r.
    rewrite (proj2 (Z.ltb_ge r 0)) by lia. split; [done|]. split; [done|]. split; [done|].
    intros [?|[Hall _]]; [lia|]. specialize (Hall r ltac:(lia)). unfold busy_at in Hall. by rewrite Hf in Hall.
Qed.

(** Both install functions are the same up to the limits they record. *)
Lemma install_is_temporal mem s object type rights :
  a20_handle_install mem s object type rights =
  a20_handle_install_temporal mem s object type rights 0 0 0 0.
Proof. done. Qed.

(** Slot [r] is new and holds the entry, nothing else changed. *)
Definition installed (s s' : hts) (r : Z) (e : a20_handle_entry) : Prop :=
  ht_wf (ht s') /\ capacity (ht s) <= capacity (ht s') /\ 0 <= r < capacity (ht s') /\
  cap_at (ht s) r = None /\
  (forall j, cap_at (ht s') j = if j =? r then Some e else cap_at (ht s) j) /\
  count (ht s') = count (ht s) + 1 /\ attrs (ht s') = attrs (ht s) /\
  stat_handles s' = u64 (stat_handles s + 1) /\ log s' = log s.

Lemma fill_ok s h0 h1 r e : ht_wf (ht s) -> extends (ht s) h0 -> slot_taken h0 h1 r ->
  busy e = true -> entry_ok e ->
  exists h2, set_entry h1 r e = Some h2 /\
    installed s (a20_objstat_add (set_ht s (h2 {{ count := u32 (count h2 + 1) }})) 1) r e.
Proof.
  intros Hw Hg (Hr & Hf & Hs & He & Hsame & Hbm) Hb Hok.
  destruct Hg as (Hw0 & Hcap & Hcnt & Hh & Ha & Hat).
  destruct (occupy_ok h0 h1 r e) as (h2 & Hset & (Hw2 & Hc2 & Ha2 & Hat2) & Hn & _); try done.
  exists h2. split; [done|]. cbv zeta in *.
  unfold installed. autorewrite with a20_hts. rewrite Hc2, Hn, Ha2, Hcnt, Ha, <- Hat.
  do 4 (split; [done|]). split; [|done]. intros j. by rewrite Hat2, Hat.
Qed.

Lemma install_temporal_ok mem s a : ht_wf (ht s) -> args_ok a ->
  let r := a20_handle_install_temporal mem s (ia_object a) (ia_type a) (ia_rights a)
             (ia_expiry a) (ia_ops a) (ia_flags a) (ia_label a) in
  (r = Some (s, - A20_ERR_NO_SPACE) /\ no_slot mem (ht s)) \/
  (exists s' slot v, r = Some (s', slot) /\ ~ no_slot mem (ht s) /\
     a20_type_valid_rights (ia_type a) = Some v /\
     installed s s' slot (args_entry a (Z.land (ia_rights a) v))).
Proof.
  intros Hw Ha. pose proof Ha as (_ & Ht & Hr & _). cbv zeta. unfold a20_handle_install_temporal.
  destruct (clamp_ok _ _ Ht Hr) as (v & Hv & -> & Hok). cbn [mbind option_bind].
  destruct (install_slot_ok mem (ht s) Hw) as [[-> Hn]|(h0 & h1 & slot & -> & Hg & Htk & Hn)];
    cbn [mbind option_bind].
  - left. split; [|done]. by destruct s.
  - right. destruct (args_entry_ok a _ Ha Hok) as [He Hb].
    destruct (fill_ok s h0 h1 slot _ Hw Hg Htk Hb He) as (h2 & Hset & Hi).
    rewrite (proj2 (Z.ltb_ge slot 0)) by apply Htk.
    unfold args_entry in Hset. rewrite Hset. cbn [mbind option_bind].
    eexists _, slot, v. split; [done|]. by split.
Qed.

Lemma grow_to_ok fuel mem h slot : ht_wf h -> slot < A20_HT_MAX_CAP ->
  A20_HT_MAX_CAP <= capacity h * 2 ^ Z.of_nat fuel ->
  exists h' ok, grow_to fuel mem h slot = Some (h', ok) /\ extends h h' /\
    (if ok then slot < capacity h' else exists k, mem k = false).
Proof.
  revert h. induction fuel as [|fuel IH]; intros h Hw Hslot Hf; simpl grow_to.
  - simpl in Hf. rewrite (proj2 (Z.leb_gt (capacity h) slot)) by lia.
    exists h, true. split; [done|]. split; [done|]. lia.
  - destruct (Z.leb_spec (capacity h) slot) as [Hle|Hlt].
    2: { exists h, true. split; [done|]. by split. }
    destruct (grow_ok (mem fuel) h Hw) as [[-> Hc]|[[-> Hm]|(h0 & -> & _ & Hmax & Hg)]];
      cbn [mbind option_bind].
    + lia.
    + exists h, false. split; [done|]. split; [done|]. by exists fuel.
    + change (0 <? 0) with false. cbv iota. destruct (IH h0) as (h' & ok & E & Hx & Hok).
      * apply Hg.
      * done.
      * pose proof Hg as (_ & -> & _). rewrite Nat2Z.inj_succ, Z.pow_succ_r in Hf by lia.
        pose proof (Z.pow_pos_nonneg 2 (Z.of_nat fuel) ltac:(lia) ltac:(lia)).
        pose proof (sh_cap h (hw_shape h Hw)). unfold A20_HT_MAX_CAP in *. nia.
      * exists h', ok. split; [done|]. split; [|done]. eapply extends_trans; [|exact Hx].
        by apply grew_extends.
Qed.

Lemma shiftl_one_has w b : 0 <= b -> has w (Z.shiftl 1 b) = Z.testbit w b.
Proof.
  intros Hb. unfold has, c_true. destruct (Z.testbit w b) eqn:E.
  - apply negb_true_iff, Z.eqb_neq. intros H0. apply (f_equal (fun z => Z.testbit z b)) in H0.
    rewrite Z.land_spec, testbit_one, Z.eqb_refl, E, Z.bits_0 in H0 by lia. done.
  - apply negb_false_iff, Z.eqb_eq. apply Z.bits_inj'. intros n Hn.
    rewrite Z.land_spec, testbit_one, Z.bits_0 by lia. destruct (Z.eqb_spec n b) as [->|].
    + by rewrite E.
    + apply andb_false_r.
Qed.

(** Installing at a slot of the caller's choice. *)
Lemma install_at_ok mem s slot a : ht_wf (ht s) -> args_ok a -> 0 <= slot ->
  let r := a20_handle_install_at_temporal mem s slot (ia_object a) (ia_type a) (ia_rights a)
             (ia_expiry a) (ia_ops a) (ia_flags a) (ia_label a) in
  (r = Some (s, - A20_ERR_INVALID_ARGUMENT) /\ A20_HT_MAX_CAP <= slot) \/
  (exists h rc, r = Some (set_ht s h, rc) /\ extends (ht s) h /\ slot < A20_HT_MAX_CAP /\
     (rc = - A20_ERR_NO_SPACE /\ ((exists k, mem k = false) \/ max_handles (ht s) <= count (ht s)) \/
      rc = - A20_ERR_EXISTS /\ is_Some (cap_at (ht s) slot))) \/
  (exists s' v, r = Some (s', slot) /\ a20_type_valid_rights (ia_type a) = Some v /\
     installed s s' slot (args_entry a (Z.land (ia_rights a) v))).
Proof.
  intros Hw Ha Hslot. pose proof Ha as (_ & Ht & Hr & _). cbv zeta.
  unfold a20_handle_install_at_temporal.
  destruct (Z.leb_spec A20_HT_MAX_CAP slot) as [|Hmax]; [by left|]. right.
  destruct (clamp_ok _ _ Ht Hr) as (v & Hv & -> & Hok). cbn [mbind option_bind].
  pose proof (sh_cap _ (hw_shape _ Hw)) as Hcap.
  destruct (grow_to_ok 17 mem (ht s) slot) as (h & ok & -> & Hx & Hgr);
    [done|done|unfold A20_HT_MAX_CAP in *; lia|].
  cbn [mbind option_bind]. pose proof Hx as (Hwh & Hcaph & Hcnt & Hhint & Hattr & Hat).
  destruct ok; cbn [negb].
  2: { left. exists h, (- A20_ERR_NO_SPACE). split; [done|]. split; [done|]. split; [done|]. auto. }
  destruct (slot_used_word h slot (hw_shape h Hwh) ltac:(lia)) as (w & Hrd & Hw64 & Hbit).
  rewrite Hrd. cbn [mbind option_bind]. rewrite shiftl_one_has, <- Hbit, (hw_bitmap h Hwh) by zlia.
  destruct (busy_at h slot) eqn:Hb.
  { left. exists h, (- A20_ERR_EXISTS). split; [done|]. split; [done|]. split; [done|]. right. split; [done|].
    unfold busy_at in Hb. rewrite Hat in Hb. by destruct (cap_at (ht s) slot). }
  destruct (Z.leb_spec (max_handles h) (count h)) as [Hq|Hq].
  { left. exists h, (- A20_ERR_NO_SPACE). split; [done|]. split; [done|]. split; [done|]. left. split; [done|].
    right. unfold attrs in Hattr. injection Hattr as _ _ _ _ _ <-. lia. }
  right. destruct (bm_set _ _ _ (slot mod 64) (sh_u64 h (hw_shape h Hwh)) Hrd ltac:(zlia))
    as (bm & -> & Hl & H64 & Hu). cbn [mbind option_bind].
  replace (slot / 64 * 64 + slot mod 64) with slot in Hu by zlia.
  rewrite u32_small by (unfold in_u32, A20_HT_MAX_CAP in *; lia).
  destruct (args_entry_ok a _ Ha Hok) as [He Hbe].
  set (h1 := if free_hint (h {{ free_bitmap := bm }}) <=? slot
             then h {{ free_bitmap := bm; free_hint := slot + 1 }} else h {{ free_bitmap := bm }}).
  assert (slot_taken h h1 slot) as Htk.
  { split; [lia|]. split; [by apply not_busy_at|].
    assert (shape h1) as Hs1.
    { unfold h1. split_if.
      - apply shape_slots; [apply Hwh|done|done|lia].
      - apply (shape_slots h bm (free_hint h)); [apply Hwh|done|done|apply (hw_shape h Hwh)]. }
    split; [done|]. split; [unfold h1; by split_if|].
    split; [unfold h1; by split_if|].
    intros j. assert (free_bitmap h1 = bm) as -> by (unfold h1; by split_if).
    by rewrite Hu, (hw_bitmap h Hwh j). }
  destruct (fill_ok s h h1 slot _ Hw Hx Htk Hbe He) as (h2 & Hset & Hi).
  unfold args_entry in Hset. change (if free_hint (h {{ free_bitmap := bm }}) <=? slot then _ else _) with h1.
  rewrite Hset. cbn [mbind option_bind]. eexists _, v. done.
Qed.

(** ** Looking up *)

(** One operation of a counted handle is used up. *)
Definition spend (e : a20_handle_entry) : a20_handle_entry :=
  if has (e_temporal_flags e) A20_TEMPORAL_OP_COUNT && (0 <? e_remaining_ops e)
  then e {{ e_remaining_ops := e_remaining_ops e - 1 }} else e.

(** The status of a lookup as a function of the handle's entry. *)
Definition lookup_status (now : Z) (o : option a20_handle_entry)
    (expected_type required_rights : Z) : Z :=
  match o with
  | None => - A20_ERR_BAD_HANDLE
  | Some e =>
      if e_state e =? A20_HS_CLOSING then - A20_ERR_BAD_HANDLE
      else if e_state e =? A20_HS_EXPIRED then - A20_ERR_EXPIRED
      else if negb (expected_type =? A20_OBJ_INVALID) && negb (e_type e =? expected_type)
      then - A20_ERR_BAD_HANDLE
      else if negb (Z.land (a20_effective_rights now e) required_rights =? required_rights)
      then - A20_ERR_ACCESS
      else A20_OK
  end.

Lemma entry_object e : entry_ok e ->
  (e_object e =? 0) || (e_state e =? A20_HS_FREE) =
  negb (busy e) || (e_state e =? A20_HS_CLOSING).
Proof.
  intros [_ [[E O]|[[E O]|[(E & O & _)|(E & O & _)]]]]; unfold busy; rewrite E;
    try (rewrite (proj2 (Z.eqb_neq _ _) O)); try (rewrite O); done.
Qed.

Lemma spend_ok e : entry_ok e -> entry_ok (spend e) /\ busy (spend e) = busy e.
Proof.
  intros [Ho H]. unfold spend. split_if; [|done]. reflect. split; [|done].
  split; [cbn; lia|]. exact H.
Qed.

Lemma lookup_ok now s h ty req (tr : bool) : ht_wf (ht s) -> 0 <= h ->
  let st := lookup_status now (cap_at (ht s) h) ty req in
  let r := a20_handle_lookup_ref_mode now s h ty req tr in
  (r = Some (s, st, None) /\ st < 0) \/
  (exists s' e, r = Some (s', st, Some ((spend e) {{ e_rights := a20_effective_rights now e }})) /\
     st = A20_OK /\ cap_at (ht s) h = Some e /\ e_state e = A20_HS_ACTIVE /\
     slot_becomes (ht s) (ht s') h (Some (spend e)) /\ count (ht s') = count (ht s) /\
     stat_handles s' = stat_handles s /\
     log s' = (if tr then [ObjRef (e_object e) (e_type e)] else []) ++ log s).
Proof.
  intros Hw Hh. cbv zeta. unfold a20_handle_lookup_ref_mode. pose proof (hw_shape _ Hw) as Hs.
  destruct (Z.leb_spec (capacity (ht s)) h) as [Hc|Hc].
  { left. assert (cap_at (ht s) h = None) as -> by (by apply not_busy_at, busy_at_beyond). done. }
  destruct (entry_total _ h Hs ltac:(lia)) as [e He]. rewrite He. cbn [mbind option_bind].
  pose proof (wf_entry _ _ _ Hw He) as Hok. rewrite entry_object by done.
  destruct (busy e) eqn:Hb; cbn [negb orb].
  2: { left. assert (cap_at (ht s) h = None) as -> by (unfold cap_at; rewrite He; cbn; by rewrite Hb). done. }
  assert (cap_at (ht s) h = Some e) as Hat by (by apply cap_at_Some).
  rewrite Hat. unfold lookup_status.
  destruct (e_state e =? A20_HS_CLOSING) eqn:Ec; [by left|].
  destruct (e_state e =? A20_HS_EXPIRED) eqn:Ee; [by left|].
  destruct (negb (ty =? A20_OBJ_INVALID) && negb (e_type e =? ty)); [by left|].
  destruct (Z.land _ req =? req); [cbn [negb]; right|by left].
  destruct (spend_ok e Hok) as [Hsok Hsb].
  destruct (update_ok (ht s) h e (spend e)) as (t & Hset & Hbec & Hcnt & _);
    [done|done|congruence|done|].
  fold (spend e). rewrite Hset. cbn [mbind option_bind].
  eexists _, e. split; [done|]. split; [done|]. split; [done|]. split.
  { reflect. unfold busy in Hb. reflect. destruct Hok as [_ [[? ?]|[[? ?]|[(? & _)|[? ?]]]]]; done. }
  assert (e_object (spend e) = e_object e /\ e_type (spend e) = e_type e) as [Eo Et]
    by (unfold spend; by split_if).
  destruct tr; autorewrite with a20_hts; split; try done.
  split; [done|]. split; [done|]. cbn [app]. f_equal. by f_equal.
Qed.

(** ** Removing *)

Lemma detach_ok e : entry_ok e -> entry_ok (detach e) /\ busy (detach e) = false.
Proof. intros [Ho _]. split; [|done]. split; [done|]. by left. Qed.

Lemma remove_ok s h : ht_wf (ht s) -> 0 <= h ->
  (a20_handle_remove s h = Some (s, - A20_ERR_BAD_HANDLE) /\
   forall e, cap_at (ht s) h = Some e -> e_state e = A20_HS_CLOSING) \/
  (exists s' e, a20_handle_remove s h = Some (s', A20_OK) /\ cap_at (ht s) h = Some e /\
     e_state e <> A20_HS_CLOSING /\ slot_becomes (ht s) (ht s') h None /\
     count (ht s') = count (ht s) - 1 /\ stat_handles s' = u64 (stat_handles s - 1) /\
     log s' = ObjRelease (e_object e) (e_type e) :: log s).
Proof.
  intros Hw Hh. unfold a20_handle_remove. pose proof (hw_shape _ Hw) as Hs.
  destruct (Z.ltb_spec h (capacity (ht s))) as [Hc|Hc].
  2: { left. split; [done|]. intros e E%cap_at_range; [lia|done]. }
  destruct (entry_total _ h Hs ltac:(lia)) as [e He]. rewrite He. cbn [mbind option_bind].
  pose proof (wf_entry _ _ _ Hw He) as Hok. rewrite <- negb_orb, entry_object by done.
  destruct (busy e) eqn:Hb; cbn [negb orb].
  2: { left. split; [done|]. intros e' [E ?]%cap_at_Some. rewrite He in E.
       apply (inj Some) in E as <-. congruence. }
  assert (cap_at (ht s) h = Some e) as Hat by (by apply cap_at_Some). rewrite Hat.
  destruct (e_state e =? A20_HS_CLOSING) eqn:Ec; cbn [negb andb]; reflect.
  { left. split; [done|]. by intros e' [= <-]. }
  right. destruct (detach_ok e Hok) as [Hd Hdb].
  destruct (vacate_ok (ht s) h e (detach e)) as (h1 & h2 & -> & E2 & Hbec & Hcnt & _); [done..|].
  cbn [mbind option_bind]. rewrite E2. cbn [mbind option_bind].
  eexists _, e. split; [done|]. split; [done|]. split; [done|]. autorewrite with a20_hts. done.
Qed.

(** ** Reserve, abort, commit *)

Definition is_reserved (o : option a20_handle_entry) : Prop :=
  exists e, o = Some e /\ e_state e = A20_HS_CLOSING.

#[global] Instance is_reserved_dec o : Decision (is_reserved o).
Proof.
  destruct o as [e|]; [|right; by intros (? & ? & _)].
  destruct (decide (e_state e = A20_HS_CLOSING)) as [E|N]; [left; by exists e|].
  right. intros (e' & H & ?). apply (inj Some) in H as ->. done.
Defined.

(** The slots [hs], all free in [h], are reserved in [h']; nothing else
    changed. *)
Record reserves (h h' : a20_ht_internal) (hs : list Z) : Prop := {
  rs_wf : ht_wf h';
  rs_cap : capacity h' = capacity h;
  rs_attrs : attrs h' = attrs h;
  rs_nodup : NoDup hs;
  rs_range : Forall (fun j => 0 <= j < capacity h) hs;
  rs_free : Forall (fun j => cap_at h j = None) hs;
  rs_new : Forall (fun j => is_reserved (cap_at h' j)) hs;
  rs_rest : forall j, j ∉ hs -> cap_at h' j = cap_at h j;
  rs_count : count h' = count h + Z.of_nat (length hs);
}.

Lemma reserves_nil h : ht_wf h -> reserves h h [].
Proof. intros Hw. constructor; try done; [constructor|simpl; lia]. Qed.

Lemma reserve_entry_ok e : entry_ok e -> busy e = false ->
  entry_ok (e {{ e_state := A20_HS_CLOSING }}) /\ busy (e {{ e_state := A20_HS_CLOSING }}) = true.
Proof.
  intros [Ho H] Hb. split; [|done]. split; [done|]. right; left. split; [done|].
  unfold busy in Hb. reflect. destruct H as [[_ O]|[[_ O]|[(E & _)|(E & _)]]]; [done|done| |];
    rewrite E in Hb; done.
Qed.

Lemma reserves_snoc h h1 h2 h3 hs r e : reserves h h1 hs -> ht_alloc_slot h1 = Some (h2, r) ->
  slot_taken h1 h2 r -> rd (entries h2) r = Some e ->
  set_entry h2 r (e {{ e_state := A20_HS_CLOSING }}) = Some h3 ->
  reserves h (h3 {{ count := u32 (count h3 + 1) }}) (hs ++ [r]).
Proof.
  intros [Hw Hc Ha Hnd Hrg Hf Hn Hrest Hcnt] Halloc (Hr & Hfree & Hs & Hes & Hsame & Hbm) He Hset.
  assert (busy e = false) as Hb.
  { destruct (busy e) eqn:E; [|done]. rewrite Hes in He.
    by rewrite (proj2 (cap_at_Some h1 r e)) in Hfree. }
  assert (entry_ok e) as Hok by (rewrite Hes in He; by eapply wf_entry).
  destruct (reserve_entry_ok e Hok Hb) as [Hok' Hb'].
  destruct (occupy_ok h1 h2 r (e {{ e_state := A20_HS_CLOSING }}))
    as (h3' & E3 & (Hw3 & Hc3 & Ha3 & Hat3) & Hn3 & _); try done.
  rewrite Hset in E3. apply (inj Some) in E3 as <-. cbv zeta in *.
  assert (r ∉ hs) as Hnew.
  { intros Hin. destruct (proj1 (list.Forall_forall _ _) Hn r Hin) as (? & E & _).
    by rewrite Hfree in E. }
  constructor.
  - done.
  - congruence.
  - congruence.
  - apply NoDup_app. split; [done|]. split; [|apply NoDup_singleton].
    intros x Hx ->%list_elem_of_singleton. done.
  - apply Forall_app. split; [done|]. constructor; [lia|constructor].
  - apply Forall_app. split; [done|]. constructor; [|constructor]. by rewrite <- Hrest.
  - apply Forall_app. split.
    + eapply Forall_impl; [exact Hn|]. intros j (e' & E & Hst). exists e'. rewrite Hat3.
      destruct (Z.eqb_spec j r) as [->|]; [by rewrite Hfree in E|done].
    + constructor; [|constructor]. rewrite Hat3, Z.eqb_refl. by eexists.
  - intros j Hj. rewrite Hat3. apply not_elem_of_app in Hj as [Hj1 Hj2].
    destruct (Z.eqb_spec j r) as [->|]; [|by apply Hrest].
    destruct Hj2. by apply list_elem_of_singleton.
  - rewrite Hn3, Hcnt, length_app. simpl. lia.
Qed.

Lemma reserve_loop_ok n h h1 hs : reserves h h1 hs ->
  exists h' hs', reserve_loop n h1 hs = Some (h', hs ++ hs') /\ reserves h h' (hs ++ hs') /\
    (length hs' <= n)%nat /\
    ((length hs' < n)%nat -> forall j, scan_from h' <= j < capacity h' -> busy_at h' j = true).
Proof.
  revert h1 hs. induction n as [|n IH]; intros h1 hs Hres; cbn [reserve_loop].
  { exists h1, []. rewrite app_nil_r. split; [done|]. split; [done|]. simpl. split; lia. }
  destruct (alloc_taken h1 (rs_wf _ _ _ Hres)) as [[-> Hall]|(h2 & r & E & Htk & _)].
  - cbn. exists h1, []. rewrite app_nil_r. split; [done|]. split; [done|]. simpl. split; [lia|done].
  - rewrite E. cbn [mbind option_bind]. pose proof Htk as (Hr & Hf & Hs2 & Hes & (Hcap & _) & _).
    rewrite (proj2 (Z.ltb_ge r 0)) by lia.
    destruct (entry_total h2 r Hs2 ltac:(lia)) as [e He]. rewrite He. cbn [mbind option_bind].
    destruct (set_entry_total h2 r (e {{ e_state := A20_HS_CLOSING }})) as (es & _ & Hset & _);
      [done|lia|]. rewrite Hset. cbn [mbind option_bind].
    pose proof (reserves_snoc _ _ _ _ _ _ _ Hres E Htk He Hset) as Hres'.
    destruct (IH _ _ Hres') as (h' & hs' & Hloop & Hfin & Hlen & Hfull).
    exists h', (r :: hs'). rewrite <- app_assoc in Hloop, Hfin. split; [exact Hloop|].
    split; [exact Hfin|]. simpl. split; [lia|]. intros Hlt. apply Hfull. lia.
Qed.

(** Aborting frees the reserved slots of the list and no others. *)
Lemma abort_loop_ok h hs : ht_wf h -> Forall (fun j => 0 <= j) hs ->
  exists h', abort_loop h hs = Some h' /\ ht_wf h' /\ capacity h' = capacity h /\
    attrs h' = attrs h /\
    forall j, cap_at h' j =
      if bool_decide (j ∈ hs /\ is_reserved (cap_at h j)) then None else cap_at h j.
Proof.
  revert h. induction hs as [|x hs IH]; intros h Hw Hpos; cbn [abort_loop].
  { exists h. split; [done|]. split; [done|]. split; [done|]. split; [done|]. intros j.
    rewrite bool_decide_eq_false_2; [done|]. intros [Hin _]. by apply not_elem_of_nil in Hin. }
  apply Forall_cons in Hpos as [Hx Hpos]. pose proof (hw_shape h Hw) as Hs.
  assert (~ is_reserved (cap_at h x) ->
    exists h', abort_loop h hs = Some h' /\ ht_wf h' /\ capacity h' = capacity h /\
    attrs h' = attrs h /\
    forall j, cap_at h' j =
      if bool_decide (j ∈ x :: hs /\ is_reserved (cap_at h j)) then None else cap_at h j) as Hskip.
  { intros Hnr. destruct (IH h Hw Hpos) as (h' & E & Hw' & Hc & Ha & Hat). exists h'.
    split; [done|]. split; [done|]. split; [done|]. split; [done|]. intros j. rewrite Hat.
    erewrite bool_decide_ext; [done|]. rewrite elem_of_cons. split; [tauto|].
    intros [[->|] ?]; tauto. }
  destruct (Z.leb_spec (capacity h) x) as [Hge|Hlt].
  { apply Hskip. intros (e & E & _). apply cap_at_range in E; [lia|done]. }
  destruct (entry_total h x Hs ltac:(lia)) as [e He]. rewrite He. cbn [mbind option_bind].
  pose proof (wf_entry _ _ _ Hw He) as Hok.
  destruct (negb (e_state e =? A20_HS_CLOSING) || negb (e_object e =? 0)) eqn:E; reflect.
  { apply Hskip. intros (e' & [E1 _]%cap_at_Some & E2). rewrite He in E1. apply (inj Some) in E1 as <-.
    rewrite E2 in E. cbn in E. reflect.
    destruct Hok as [_ [[E3 ?]|[[E3 O]|[(E3 & _)|[E3 _]]]]]; rewrite E2 in E3; done. }
  assert (busy e = true) as Hb by (unfold busy; by replace (e_state e) with A20_HS_CLOSING).
  assert (cap_at h x = Some e) as Hcap by (by apply cap_at_Some).
  destruct (vacate_ok h x e (e {{ e_state := A20_HS_FREE }})) as (h1 & h2 & -> & E2 & Hbec & _);
    [done|done|done|split; [apply Hok|by left]|].
  cbn [mbind option_bind]. rewrite E2. cbn [mbind option_bind]. cbv zeta in Hbec.
  destruct Hbec as (Hw3 & Hc3 & Ha3 & Hat3).
  destruct (IH _ Hw3 Hpos) as (h' & -> & Hw' & Hc' & Ha' & Hat'). exists h'.
  split; [done|]. split; [done|]. split; [congruence|]. split; [congruence|].
  intros j. rewrite Hat', Hat3. destruct (Z.eqb_spec j x) as [->|Hne].
  - rewrite (bool_decide_eq_true_2 (x ∈ x :: hs /\ _)); [by split_if|].
    split; [left|]. exists e. done.
  - erewrite bool_decide_ext; [done|]. rewrite elem_of_cons. split; [tauto|].
    intros [[->|] ?]; [done|tauto].
Qed.

Lemma free_count h : ht_wf h -> u32 (capacity h - count h) = capacity h - count h.
Proof.
  intros Hw. pose proof (hw_count h Hw). pose proof (nbusy_bound (entries h)).
  pose proof (sh_entries h (hw_shape h Hw)). pose proof (sh_cap h (hw_shape h Hw)).
  apply u32_small. unfold in_u32, A20_HT_MAX_CAP in *. lia.
Qed.

(** The same handles, wherever the free slots are. *)
Definition same_handles (s s' : hts) : Prop :=
  ht_wf (ht s') /\ attrs (ht s') = attrs (ht s) /\ stat_handles s' = stat_handles s /\
  log s' = log s /\ capacity (ht s) <= capacity (ht s') /\
  forall j, cap_at (ht s') j = cap_at (ht s) j.

Lemma extends_same s h : extends (ht s) h -> same_handles s (set_ht s h).
Proof. intros (Hw & Hc & _ & _ & Ha & Hat). unfold same_handles. by autorewrite with a20_hts. Qed.

Lemma reserve_undo s h0 h1 hs : extends (ht s) h0 -> reserves h0 h1 hs ->
  exists s', a20_handle_abort_reserved (set_ht s h1) hs = Some s' /\ same_handles s s'.
Proof.
  intros (_ & Hc0 & _ & _ & Ha0 & Hat0) [Hw Hc Ha Hnd Hrg Hf Hn Hrest _].
  unfold a20_handle_abort_reserved. rewrite ht_set_ht.
  destruct (abort_loop_ok h1 hs Hw) as (h2 & -> & Hw2 & Hc2 & Ha2 & Hat2).
  { eapply Forall_impl; [exact Hrg|]. intros j. cbn. lia. }
  cbn [mbind option_bind]. eexists. split; [done|]. unfold same_handles. autorewrite with a20_hts.
  split; [done|]. split; [congruence|]. split; [done|]. split; [done|]. split; [lia|].
  intros j. rewrite Hat2. destruct (decide (j ∈ hs)) as [Hin|Hout].
  - rewrite list.Forall_forall in Hf, Hn. rewrite bool_decide_eq_true_2; [by rewrite <- Hat0, Hf|].
    split; [done|]. by apply Hn.
  - rewrite bool_decide_eq_false_2 by (by intros [? _]). by rewrite Hrest, Hat0.
Qed.

(** Reserving gives the wanted number of handles or changes none. *)
Lemma reserve_many_ok mem s n : ht_wf (ht s) -> 0 <= n ->
  (exists s' h0 hs, a20_handle_reserve_many mem s n = Some (s', A20_OK, hs) /\
     Z.of_nat (length hs) = n /\ extends (ht s) h0 /\ reserves h0 (ht s') hs /\
     stat_handles s' = stat_handles s /\ log s' = log s) \/
  (exists s' hs, a20_handle_reserve_many mem s n = Some (s', - A20_ERR_NO_SPACE, hs) /\
     same_handles s s').
Proof.
  intros Hw Hn. unfold a20_handle_reserve_many.
  destruct (Z.eqb_spec n 0) as [->|Hn0].
  { left. exists s, (ht s), []. repeat (split; [done|]). split; [by apply reserves_nil|done]. }
  rewrite free_count by done.
  assert (exists h0, extends (ht s) h0 /\
    (if capacity (ht s) - count (ht s) <? n
     then '(h, rc) ← ht_grow mem (ht s);
          Some (h, if rc =? 0 then u32 (capacity h - count h) else capacity (ht s) - count (ht s))
     else Some (ht s, capacity (ht s) - count (ht s))) = Some (h0, capacity h0 - count h0))
    as (h0 & Hx & ->).
  { destruct (capacity (ht s) - count (ht s) <? n); [|by exists (ht s)].
    destruct (grow_ok mem (ht s) Hw) as [[-> _]|[[-> _]|(h0 & -> & _ & _ & Hg)]]; cbn [mbind option_bind].
    - by exists (ht s).
    - by exists (ht s).
    - exists h0. split; [by apply grew_extends|]. cbn [Z.eqb]. rewrite free_count; [done|apply Hg]. }
  cbn [mbind option_bind].
  destruct (Z.ltb_spec (capacity h0 - count h0) n).
  { right. exists (set_ht s h0), []. split; [done|]. by apply extends_same. }
  destruct (reserve_loop_ok (Z.to_nat n) h0 h0 []) as (h1 & hs & -> & Hres & Hlen & _).
  { apply reserves_nil, Hx. }
  cbn [mbind option_bind app] in *. destruct (Z.ltb_spec (Z.of_nat (length hs)) n).
  - right. destruct (reserve_undo s h0 h1 hs Hx Hres) as (s' & -> & Hsame).
    cbn [mbind option_bind]. by exists s', hs.
  - left. exists (set_ht s h1), h0, hs. split; [done|]. split; [lia|]. autorewrite with a20_hts. done.
Qed.

Lemma commit_reserved_ok s h a : ht_wf (ht s) -> args_ok a -> 0 <= h ->
  let r := a20_handle_commit_reserved_temporal s h (ia_object a) (ia_type a) (ia_rights a)
             (ia_expiry a) (ia_ops a) (ia_flags a) (ia_label a) in
  (r = Some (s, - A20_ERR_BAD_HANDLE) /\ ~ is_reserved (cap_at (ht s) h)) \/
  (exists s' v, r = Some (s', A20_OK) /\ is_reserved (cap_at (ht s) h) /\
     a20_type_valid_rights (ia_type a) = Some v /\
     slot_becomes (ht s) (ht s') h (Some (args_entry a (Z.land (ia_rights a) v))) /\
     count (ht s') = count (ht s) /\ stat_handles s' = stat_handles s /\ log s' = log s).
Proof.
  intros Hw Ha Hh. pose proof Ha as (_ & Ht & Hr & _). cbv zeta.
  unfold a20_handle_commit_reserved_temporal. pose proof (hw_shape _ Hw) as Hs.
  destruct (clamp_ok _ _ Ht Hr) as (v & Hv & -> & Hok). cbn [mbind option_bind].
  destruct (Z.leb_spec (capacity (ht s)) h).
  { left. split; [done|]. intros (e & E & _). apply cap_at_range in E; [lia|done]. }
  destruct (entry_total _ h Hs ltac:(lia)) as [e He]. rewrite He. cbn [mbind option_bind].
  pose proof (wf_entry _ _ _ Hw He) as Hoke.
  destruct (negb (e_state e =? A20_HS_CLOSING) || negb (e_object e =? 0)) eqn:E; reflect.
  - left. split; [done|]. intros (e' & [E1 _]%cap_at_Some & E2). rewrite He in E1.
    apply (inj Some) in E1 as <-. rewrite E2 in E. cbn in E. reflect.
    destruct Hoke as [_ [[E3 ?]|[[E3 O]|[(E3 & _)|[E3 _]]]]]; rewrite E2 in E3; done.
  - right. destruct (args_entry_ok a _ Ha Hok) as [Hea Hba].
    assert (cap_at (ht s) h = Some e) as Hat.
    { apply cap_at_Some. split; [done|]. unfold busy. by replace (e_state e) with A20_HS_CLOSING. }
    destruct (update_ok (ht s) h e _ Hw Hat Hba Hea) as (t & Hset & Hbec & Hcnt & _).
    unfold args_entry in Hset. rewrite Hset. cbn [mbind option_bind].
    eexists _, v. split; [done|]. split; [by exists e|]. split; [done|]. by autorewrite with a20_hts.
Qed.

(** ** Temporal limits and labels *)

(** [e'] grants at most what [e] does, at every time. *)
Record attenuates (e e' : a20_handle_entry) : Prop := {
  at_object : e_object e' = e_object e;
  at_type : e_type e' = e_type e;
  at_rights : Z.land (e_rights e') (e_rights e) = e_rights e';
  at_effective : forall now,
    Z.land (a20_effective_rights now e') (a20_effective_rights now e) = a20_effective_rights now e';
  at_label : e_security_label e <= e_security_label e';
  at_state : e_state e' = e_state e \/ e_state e' = A20_HS_EXPIRED;
}.

#[export] Instance attenuates_refl : Reflexive attenuates.
Proof.
  intros e. constructor; [done|done|apply Z.land_diag|intros now; apply Z.land_diag|lia|by left].
Qed.

(** Same rights, limits that bite whenever the old ones did. *)
Lemma attenuates_limits e e' : e_object e' = e_object e -> e_type e' = e_type e ->
  e_rights e' = e_rights e -> e_security_label e <= e_security_label e' -> e_state e' = e_state e ->
  (forall now, 0 < e_expiry_tick e <= now -> 0 < e_expiry_tick e' <= now) ->
  (has (e_temporal_flags e) A20_TEMPORAL_OP_COUNT = true -> e_remaining_ops e = 0 ->
   has (e_temporal_flags e') A20_TEMPORAL_OP_COUNT = true /\ e_remaining_ops e' = 0) ->
  attenuates e e'.
Proof.
  intros Ho Ht Hr Hl Hst Hexp Hops. constructor; [done|done|rewrite Hr; apply Z.land_diag| |done|by left].
  intros now. unfold a20_effective_rights. specialize (Hexp now).
  destruct ((0 <? e_expiry_tick e) && (e_expiry_tick e <=? now)) eqn:E1; reflect.
  { destruct (Hexp ltac:(lia)). by rewrite (proj2 (Z.ltb_lt _ _)), (proj2 (Z.leb_le _ _)) by lia. }
  destruct (has (e_temporal_flags e) A20_TEMPORAL_OP_COUNT && (e_remaining_ops e =? 0)) eqn:E2; reflect.
  { destruct Hops as [-> ->]; [done|done|]. cbn. by split_if. }
  split_if; [done|]. split_if; [done|]. rewrite Hr. apply Z.land_diag.
Qed.

Lemma attenuates_spend e : 0 <= e_remaining_ops e -> attenuates e (spend e).
Proof.
  intros Ho. unfold spend. split_if; [|done]. reflect.
  apply attenuates_limits; try done; cbn [e_security_label]; try lia.
Qed.

Lemma attenuates_expire e :
  attenuates e (e {{ e_state := A20_HS_EXPIRED; e_rights := 0 }}).
Proof.
  constructor; try done; [|by right]. intros now.
  assert (a20_effective_rights now (e {{ e_state := A20_HS_EXPIRED; e_rights := 0 }}) = 0) as ->; [|done].
  unfold a20_effective_rights. by repeat split_if.
Qed.

Lemma flags_grow f g k : 0 <= k < 32 -> c_true (Z.land f (not32 g)) = false ->
  has f (Z.shiftl 1 k) = true -> has g (Z.shiftl 1 k) = true.
Proof.
  intros Hk H. rewrite !shiftl_one_has by lia. intros Hf. unfold c_true in H. reflect.
  apply (f_equal (fun z => Z.testbit z k)) in H.
  rewrite Z.land_spec, Hf, Z.bits_0 in H. unfold not32, u32 in H.
  change 4294967296 with (2 ^ 32) in H. rewrite Z.mod_pow2_bits_low, Z.lnot_spec in H by lia.
  by apply negb_false_iff in H.
Qed.

Lemma flags_grow_expiry f g : c_true (Z.land f (not32 g)) = false ->
  has f A20_TEMPORAL_EXPIRY_ABSOLUTE = true -> has g A20_TEMPORAL_EXPIRY_ABSOLUTE = true.
Proof. by apply (flags_grow f g 0). Qed.

Lemma flags_grow_ops f g : c_true (Z.land f (not32 g)) = false ->
  has f A20_TEMPORAL_OP_COUNT = true -> has g A20_TEMPORAL_OP_COUNT = true.
Proof. by apply (flags_grow f g 1). Qed.

(** A limited handle can only be limited further. *)
Lemma set_temporal_ok tps ticks s h x n f : ht_wf (ht s) -> 0 <= h -> 0 <= x -> 0 <= n ->
  (exists rc, a20_handle_set_temporal tps ticks s h x n f = Some (s, rc) /\ rc < 0) \/
  (exists s' e e', a20_handle_set_temporal tps ticks s h x n f = Some (s', A20_OK) /\
     cap_at (ht s) h = Some e /\ e_state e = A20_HS_ACTIVE /\ attenuates e e' /\
     e_temporal_flags e' = f /\ slot_becomes (ht s) (ht s') h (Some e') /\
     count (ht s') = count (ht s) /\ stat_handles s' = stat_handles s).
Proof.
  intros Hw Hh Hx Hn. unfold a20_handle_set_temporal. pose proof (hw_shape _ Hw) as Hs.
  split_if; [left; by eexists|]. destruct (Z.leb_spec (capacity (ht s)) h); [left; by eexists|].
  destruct (entry_total _ h Hs ltac:(lia)) as [e He]. rewrite He. cbn [mbind option_bind].
  destruct ((e_object e =? 0) || negb (e_state e =? A20_HS_ACTIVE)) eqn:Ea; [left; by eexists|].
  destruct (c_true (Z.land (e_temporal_flags e) (not32 f))) eqn:Ef; [left; by eexists|].
  destruct (has (e_temporal_flags e) A20_TEMPORAL_EXPIRY_ABSOLUTE && (0 <? e_expiry_tick e)
            && ((x =? 0) || (e_expiry_tick e <? x))) eqn:Ex; [left; by eexists|].
  destruct (has (e_temporal_flags e) A20_TEMPORAL_OP_COUNT && (e_remaining_ops e <? n)) eqn:En;
    [left; by eexists|].
  right. reflect. destruct (wf_entry _ _ _ Hw He) as [Hops Hok].
  assert (e_object e <> 0 /\ rights_ok (e_type e) (e_rights e) /\
          temporal_ok (e_expiry_tick e) (e_temporal_flags e)) as (Hobj & Hri & Htm).
  { destruct Hok as [[Es _]|[[Es _]|[(_ & Hact)|[Es _]]]]; [| |exact Hact|]; by rewrite Es in *. }
  set (e1 := if has f A20_TEMPORAL_EXPIRY_ABSOLUTE then e {{ e_expiry_tick := x }} else e).
  set (e2 := if has f A20_TEMPORAL_OP_COUNT then e1 {{ e_remaining_ops := n }} else e1).
  set (e3 := e2 {{ e_temporal_flags := f }}).
  assert (e_object e3 = e_object e /\ e_type e3 = e_type e /\ e_rights e3 = e_rights e /\
    e_security_label e3 = e_security_label e /\ e_state e3 = e_state e /\ e_temporal_flags e3 = f /\
    e_expiry_tick e3 = (if has f A20_TEMPORAL_EXPIRY_ABSOLUTE then x else e_expiry_tick e) /\
    e_remaining_ops e3 = (if has f A20_TEMPORAL_OP_COUNT then n else e_remaining_ops e))
    as (Eo & Et & Er & El & Es & Efl & Eex & Eop).
  { unfold e3, e2, e1. by destruct (has f A20_TEMPORAL_EXPIRY_ABSOLUTE), (has f A20_TEMPORAL_OP_COUNT). }
  assert (attenuates e e3) as Hatt.
  { apply attenuates_limits; try done; [lia| |].
    - intros now Hnow. rewrite Eex. pose proof (Htm ltac:(lia)) as Hfe.
      rewrite (flags_grow_expiry _ _ Ef Hfe). rewrite Hfe in Ex.
      rewrite (proj2 (Z.ltb_lt 0 _)) in Ex by lia. cbn [andb] in Ex. reflect. lia.
    - intros Hfe Hz. rewrite Efl, Eop. rewrite (flags_grow_ops _ _ Ef Hfe).
      rewrite Hfe in En. cbn [andb] in En. reflect. split; [done|]. lia. }
  assert (entry_ok e3) as Hok3.
  { split; [rewrite Eop; split_if; lia|]. right; right; left. rewrite Es, Eo, Et, Er.
    split; [done|]. split; [done|]. split; [done|]. unfold temporal_ok. rewrite Eex, Efl.
    destruct (has f A20_TEMPORAL_EXPIRY_ABSOLUTE) eqn:Ehf; [done|].
    intros Hp. apply (flags_grow_expiry _ _ Ef) in Htm; [congruence|done]. }
  assert (cap_at (ht s) h = Some e) as Hat.
  { apply cap_at_Some. split; [done|]. unfold busy. by replace (e_state e) with A20_HS_ACTIVE. }
  destruct (update_ok (ht s) h e e3 Hw Hat) as (t & Hset & Hbec & Hcnt & _);
    [unfold busy; by replace (e_state e3) with A20_HS_ACTIVE by congruence|done|].
  rewrite Hset. cbn [mbind option_bind]. eexists _, e, e3. split; [done|].
  split; [done|]. split; [done|]. split; [done|]. split; [done|].
  destruct (has f A20_TEMPORAL_EXPIRY_ABSOLUTE && (0 <? x)); [by autorewrite with a20_hts|].
  destruct (c_true f); by autorewrite with a20_hts.
Qed.

Lemma set_label_ok s h label : ht_wf (ht s) -> 0 <= h ->
  (exists rc, a20_handle_set_label s h label = Some (s, rc) /\ rc < 0) \/
  (exists s' e, a20_handle_set_label s h label = Some (s', A20_OK) /\ cap_at (ht s) h = Some e /\
     e_security_label e <= label <= 2 /\
     slot_becomes (ht s) (ht s') h (Some (e {{ e_security_label := label }})) /\
     count (ht s') = count (ht s) /\ stat_handles s' = stat_handles s /\ log s' = log s).
Proof.
  intros Hw Hh. unfold a20_handle_set_label. pose proof (hw_shape _ Hw) as Hs.
  destruct (Z.ltb_spec 2 label); [left; by eexists|].
  destruct (Z.leb_spec (capacity (ht s)) h); [left; by eexists|].
  destruct (entry_total _ h Hs ltac:(lia)) as [e He]. rewrite He. cbn [mbind option_bind].
  destruct ((e_object e =? 0) || negb (e_state e =? A20_HS_ACTIVE)) eqn:Ea; [left; by eexists|].
  destruct (Z.ltb_spec label (e_security_label e)); [left; by eexists|]. right. reflect.
  assert (cap_at (ht s) h = Some e) as Hat.
  { apply cap_at_Some. split; [done|]. unfold busy. by replace (e_state e) with A20_HS_ACTIVE. }
  destruct (update_ok (ht s) h e (e {{ e_security_label := label }}) Hw Hat) as (t & Hset & Hbec & Hcnt & _);
    [by apply cap_at_Some in Hat as [_ ?]|exact (wf_entry _ _ _ Hw He)|].
  rewrite Hset. cbn [mbind option_bind]. eexists _, e. split; [done|]. split; [done|].
  split; [lia|]. by autorewrite with a20_hts.
Qed.

Lemma attenuates_label e label : e_security_label e <= label ->
  attenuates e (e {{ e_security_label := label }}).
Proof. intros Hl. by apply attenuates_limits. Qed.
