(* ===== verification/HandleSweep.v ===== *)
(** * Correctness of the handle table: sweeping, destruction, histories

    The sweep of expired handles ends, closes exactly the handles that are
    due and releases each of their objects once; destruction releases what is
    left; any sequence of operations keeps the table well formed and never
    adds to what a handle grants. *)

From S2P Require Import Prelude HandleTable HandleTheory HandleOps.
From stdpp Require Import list.
#[local] Open Scope Z_scope.

(** ** One pass *)

(** What the sweep at time [now] makes of a handle. *)
Definition swept (now : Z) (e : a20_handle_entry) : option a20_handle_entry :=
  if (e_state e =? A20_HS_ACTIVE) && entry_expired now e then
    if has (e_temporal_flags e) A20_TEMPORAL_AUTO_CLOSE then None
    else Some (e {{ e_state := A20_HS_EXPIRED; e_rights := 0 }})
  else Some e.

(** The object that it releases. *)
Definition doomed (now : Z) (e : a20_handle_entry) : option (Z * Z) :=
  if (e_state e =? A20_HS_ACTIVE) && entry_expired now e
     && has (e_temporal_flags e) A20_TEMPORAL_AUTO_CLOSE
  then Some (e_object e, e_type e) else None.

(** [f] of every handle, in slot order. *)
Definition slots {A} (f : a20_handle_entry -> option A) (h : a20_ht_internal) : list A :=
  omap (fun n => cap_at h (Z.of_nat n) ≫= f) (seq 0 (Z.to_nat (capacity h))).

Definition olist {A} (o : option A) : list A := match o with Some x => [x] | None => [] end.

Lemma expired_mono t1 t2 e : t1 <= t2 -> entry_expired t1 e = true -> entry_expired t2 e = true.
Proof.
  unfold entry_expired. intros Ht H. apply orb_prop in H as [H|H]; apply orb_true_iff; [left|by right].
  reflect. rewrite H, (proj2 (Z.ltb_lt 0 _)), (proj2 (Z.leb_le _ _)) by lia. done.
Qed.

Lemma swept_swept t1 t2 e : t1 <= t2 -> swept t1 e ≫= swept t2 = swept t2 e.
Proof.
  intros Ht. unfold swept at 2. destruct (e_state e =? A20_HS_ACTIVE) eqn:Ea; [|done]. cbn [andb].
  destruct (entry_expired t1 e) eqn:Ee; [|done].
  assert (swept t2 e = if has (e_temporal_flags e) A20_TEMPORAL_AUTO_CLOSE then None
    else Some (e {{ e_state := A20_HS_EXPIRED; e_rights := 0 }})) as ->.
  { unfold swept. by rewrite Ea, (expired_mono t1 t2 e). }
  by destruct (has (e_temporal_flags e) A20_TEMPORAL_AUTO_CLOSE).
Qed.

Lemma doomed_swept t1 t2 e : t1 <= t2 ->
  olist (doomed t2 e) = olist (doomed t1 e) ++ olist (swept t1 e ≫= doomed t2).
Proof.
  intros Ht. unfold swept, doomed at 1 2.
  destruct (e_state e =? A20_HS_ACTIVE) eqn:Ea; cbn [andb].
  2: { cbn. unfold doomed. by rewrite Ea. }
  destruct (entry_expired t1 e) eqn:Ee; cbn [andb].
  - rewrite (expired_mono t1 t2 e) by done. cbn [andb].
    by destruct (has (e_temporal_flags e) A20_TEMPORAL_AUTO_CLOSE).
  - cbn. unfold doomed. by rewrite Ea.
Qed.

Lemma omap_ext_seq {A} (f g : nat -> option A) k n :
  (forall i, (k <= i < k + n)%nat -> f i = g i) -> omap f (seq k n) = omap g (seq k n).
Proof.
  revert k. induction n as [|n IH]; intros k H; [done|]. cbn.
  rewrite (H k) by lia. rewrite (IH (S k)) by (intros i Hi; apply H; lia). done.
Qed.

(** One slot changing. *)
Lemma slots_change {A} (f : a20_handle_entry -> option A) h h' i o :
  slot_becomes h h' i o -> 0 <= i < capacity h ->
  exists pre post, slots f h = pre ++ olist (cap_at h i ≫= f) ++ post /\
    slots f h' = pre ++ olist (o ≫= f) ++ post.
Proof.
  intros (_ & Hc & _ & Hat) Hi. unfold slots. rewrite Hc.
  replace (Z.to_nat (capacity h)) with
    (Z.to_nat i + (1 + (Z.to_nat (capacity h) - Z.to_nat i - 1)))%nat by lia.
  rewrite seq_app, seq_app. cbn [seq Nat.add]. rewrite !omap_app.
  eexists _, _. split.
  - f_equal. f_equal. cbn. rewrite Z2Nat.id by lia. by destruct (cap_at h i ≫= f).
  - f_equal; [|f_equal].
    + apply omap_ext_seq. intros k Hk. rewrite Hat. by rewrite (proj2 (Z.eqb_neq _ _)) by lia.
    + cbn. rewrite Z2Nat.id, Hat, Z.eqb_refl by lia. by destruct (o ≫= f).
    + apply omap_ext_seq. intros k Hk. rewrite Hat. by rewrite (proj2 (Z.eqb_neq _ _)) by lia.
Qed.

(** The slots from [i] to [m] are swept, with the objects [rel] detached. *)
Record scanned (now : Z) (h h' : a20_ht_internal) (i m : Z) (rel : list (Z * Z)) : Prop := {
  sc_wf : ht_wf h';
  sc_cap : capacity h' = capacity h;
  sc_attrs : attrs h' = attrs h;
  sc_at : forall j, cap_at h' j =
    if (i <=? j) && (j <? m) then cap_at h j ≫= swept now else cap_at h j;
  sc_count : count h' = count h - Z.of_nat (length rel);
  sc_rel : forall t, now <= t -> slots (doomed t) h ≡ₚ rel ++ slots (doomed t) h';
}.

Lemma scanned_nil now h i : ht_wf h -> scanned now h h i i [].
Proof.
  intros Hw. constructor; try done; [|simpl; lia]. intros j.
  destruct (Z.leb_spec i j); [|done]. by rewrite (proj2 (Z.ltb_ge j i)) by lia.
Qed.

Lemma scanned_cons now h h1 h' i m rel :
  0 <= i < capacity h -> i + 1 <= m ->
  slot_becomes h h1 i (cap_at h i ≫= swept now) ->
  count h1 = count h - Z.of_nat (length (olist (cap_at h i ≫= doomed now))) ->
  scanned now h1 h' (i + 1) m rel ->
  scanned now h h' i m (olist (cap_at h i ≫= doomed now) ++ rel).
Proof.
  intros Hi Hm Hbec Hcnt [Hw Hc Ha Hat Hn Hrel]. pose proof Hbec as (Hw1 & Hc1 & Ha1 & Hat1).
  constructor; [done|congruence|congruence| |rewrite length_app; lia|].
  - intros j. rewrite Hat, Hat1. destruct (Z.eqb_spec j i) as [->|Hne].
    + rewrite (proj2 (Z.leb_gt (i + 1) i)), (proj2 (Z.leb_le i i)), (proj2 (Z.ltb_lt i m)) by lia. done.
    + replace (i + 1 <=? j) with (i <=? j); [done|].
      apply eq_iff_eq_true. rewrite !Z.leb_le. lia.
  - intros t Ht. destruct (slots_change (doomed t) h h1 i _ Hbec Hi) as (pre & post & E0 & E1).
    rewrite <- app_assoc, <- (Hrel t Ht), E0, E1.
    assert (olist (cap_at h i ≫= doomed t) =
      olist (cap_at h i ≫= doomed now) ++ olist ((cap_at h i ≫= swept now) ≫= doomed t)) as ->.
    { destruct (cap_at h i) as [e|]; [|done]. cbn. by apply doomed_swept. }
    rewrite <- app_assoc. apply Permutation_app_swap_app.
Qed.

Lemma same_becomes h i : ht_wf h -> slot_becomes h h i (cap_at h i).
Proof. intros Hw. split; [done|]. split; [done|]. split; [done|]. intros j. by destruct (Z.eqb_spec j i) as [->|]. Qed.

(** The body of the pass at slot [i]. *)
Definition scan_slot (i now : Z) (h : a20_ht_internal) : option (a20_ht_internal * list (Z * Z)) :=
  e ← rd (entries h) i;
  if (e_object e =? 0) || negb (e_state e =? A20_HS_ACTIVE) then Some (h, [])
  else if negb (entry_expired now e) then Some (h, [])
  else if has (e_temporal_flags e) A20_TEMPORAL_AUTO_CLOSE then
    h ← set_entry h i (detach e);
    h ← ht_free_slot h i;
    Some (h {{ count := u32 (count h - 1) }}, [(e_object e, e_type e)])
  else
    h ← set_entry h i (e {{ e_state := A20_HS_EXPIRED; e_rights := 0 }});
    Some (h, []).

Lemma sweep_scan_S n i now h objs :
  sweep_scan (S n) i now h objs =
  if Z.of_nat (length objs) <? A20_SWEEP_BATCH then
    '(h, rel) ← scan_slot i now h; sweep_scan n (i + 1) now h (objs ++ rel)
  else Some (h, objs).
Proof.
  cbn [sweep_scan]. destruct (_ <? _); [|done]. unfold scan_slot.
  destruct (rd (entries h) i) as [e|]; [|done]. cbn [mbind option_bind].
  destruct (_ || _); [cbn; by rewrite app_nil_r|].
  destruct (negb _); [cbn; by rewrite app_nil_r|].
  destruct (has _ _).
  - destruct (set_entry h i (detach e)) as [h1|]; [|done]. cbn [mbind option_bind].
    by destruct (ht_free_slot h1 i).
  - destruct (set_entry h i _) as [h1|]; [|done]. cbn [mbind option_bind]. by rewrite app_nil_r.
Qed.

Lemma scan_slot_ok i now h : ht_wf h -> 0 <= i < capacity h ->
  exists h1, scan_slot i now h = Some (h1, olist (cap_at h i ≫= doomed now)) /\
    slot_becomes h h1 i (cap_at h i ≫= swept now) /\
    count h1 = count h - Z.of_nat (length (olist (cap_at h i ≫= doomed now))).
Proof.
  intros Hw Hi. destruct (entry_total h i (hw_shape h Hw) Hi) as [e He]. unfold scan_slot.
  rewrite He. cbn [mbind option_bind]. pose proof (wf_entry _ _ _ Hw He) as Hok.
  assert (forall o, cap_at h i = o -> o ≫= swept now = o -> o ≫= doomed now = None ->
    exists h1, Some (h, @nil (Z * Z)) = Some (h1, olist (cap_at h i ≫= doomed now)) /\
    slot_becomes h h1 i (cap_at h i ≫= swept now) /\
    count h1 = count h - Z.of_nat (length (olist (cap_at h i ≫= doomed now)))) as Hskip.
  { intros o Ho Hs Hd. exists h. rewrite Ho, Hs, Hd. split; [done|]. split; [|simpl; lia].
    rewrite <- Ho. by apply same_becomes. }
  destruct ((e_object e =? 0) || negb (e_state e =? A20_HS_ACTIVE)) eqn:Ea.
  { assert (e_state e <> A20_HS_ACTIVE) as Hna.
    { apply orb_prop in Ea as [E|E]; reflect; [|done]. intros Hact.
      destruct Hok as [_ [[E1 _]|[[E1 _]|[(_ & E1 & _)|[E1 _]]]]]; [..|done|]; rewrite Hact in E1; done. }
    apply (Hskip _ eq_refl); destruct (cap_at h i) as [e'|] eqn:E; try done; cbn;
      apply cap_at_Some in E as [E _]; rewrite He in E; apply (inj Some) in E as <-;
      unfold swept, doomed; by rewrite (proj2 (Z.eqb_neq _ _) Hna). }
  reflect. assert (busy e = true) as Hb by (unfold busy; by replace (e_state e) with A20_HS_ACTIVE).
  assert (cap_at h i = Some e) as Hat by (by apply cap_at_Some).
  assert ((e_state e =? A20_HS_ACTIVE) = true) as Hact by (by apply Z.eqb_eq).
  destruct (entry_expired now e) eqn:Ee; cbn [negb].
  2: { apply (Hskip _ Hat); cbn; unfold swept, doomed; by rewrite Hact, Ee. }
  rewrite Hat. cbn [mbind option_bind]. unfold swept, doomed. rewrite Hact, Ee. cbn [andb].
  destruct (has (e_temporal_flags e) A20_TEMPORAL_AUTO_CLOSE).
  - destruct (detach_ok e Hok) as [Hd Hdb].
    destruct (vacate_ok h i e (detach e)) as (h1 & h2 & -> & E2 & Hbec & Hcnt & _); [done..|].
    cbn [mbind option_bind]. rewrite E2. eexists. done.
  - destruct (update_ok h i e (e {{ e_state := A20_HS_EXPIRED; e_rights := 0 }})) as (h1 & Hset & Hbec & Hcnt & _);
      [done|done|done| |].
    { split; [apply Hok|]. right; right; right. done. }
    rewrite Hset. cbn [mbind option_bind]. exists h1. split; [done|]. split; [done|]. simpl. lia.
Qed.

Lemma scan_ok n i now h objs : ht_wf h -> 0 <= i -> i + Z.of_nat n = capacity h ->
  Z.of_nat (length objs) <= A20_SWEEP_BATCH ->
  exists h' m rel, sweep_scan n i now h objs = Some (h', objs ++ rel) /\
    scanned now h h' i m rel /\ i <= m <= capacity h /\
    Z.of_nat (length (objs ++ rel)) <= A20_SWEEP_BATCH /\
    (Z.of_nat (length (objs ++ rel)) < A20_SWEEP_BATCH -> m = capacity h).
Proof.
  revert i h objs. induction n as [|n IH]; intros i h objs Hw Hi Hn Hlen.
  { exists h, i, []. rewrite app_nil_r. split; [done|]. split; [by apply scanned_nil|].
    split; [lia|]. split; [done|]. lia. }
  rewrite sweep_scan_S. destruct (Z.ltb_spec (Z.of_nat (length objs)) A20_SWEEP_BATCH) as [Hlt|Hge].
  2: { exists h, i, []. rewrite app_nil_r. split; [done|]. split; [by apply scanned_nil|].
       split; [lia|]. split; [done|]. lia. }
  destruct (scan_slot_ok i now h Hw ltac:(lia)) as (h1 & -> & Hbec & Hcnt). cbn [mbind option_bind].
  pose proof Hbec as (Hw1 & Hc1 & _).
  assert (length (olist (cap_at h i ≫= doomed now)) <= 1)%nat as Hone
    by (destruct (cap_at h i ≫= doomed now); simpl; lia).
  destruct (IH (i + 1) h1 (objs ++ olist (cap_at h i ≫= doomed now)))
    as (h' & m & rel & E & Hsc & Hm & Hlen' & Hend); [done|lia|lia|rewrite length_app; lia|].
  rewrite <- app_assoc in E, Hlen', Hend. exists h', m, (olist (cap_at h i ≫= doomed now) ++ rel).
  split; [done|]. split; [apply (scanned_cons now h h1); done || lia|].
  split; [lia|]. split; [done|]. intros Hlt'. rewrite <- Hc1. by apply Hend.
Qed.

(** ** The whole sweep *)

Lemma release_all_spec objs s :
  ht (release_all objs s) = ht s /\ stat_handles (release_all objs s) = stat_handles s /\
  log (release_all objs s) = reverse (map (fun '(o, t) => ObjRelease o t) objs) ++ log s.
Proof.
  revert s. induction objs as [|[o t] objs IH]; intros s; [done|]. cbn [release_all fold_left].
  unfold release_all in IH. destruct (IH (emit (ObjRelease o t) s)) as (E1 & E2 & E3).
  split; [done|]. split; [done|]. rewrite E3. cbn [map]. rewrite reverse_cons, <- app_assoc. done.
Qed.

(** The handles after a sweep that ended at time [now], and what it released. *)
Record sweeps (now : Z) (s s' : hts) (rel : list (Z * Z)) : Prop := {
  sw_wf : ht_wf (ht s');
  sw_cap : capacity (ht s') = capacity (ht s);
  sw_attrs : attrs (ht s') = attrs (ht s);
  sw_at : forall j, cap_at (ht s') j = cap_at (ht s) j ≫= swept now;
  sw_count : count (ht s') = count (ht s) - Z.of_nat (length rel);
  sw_rel : rel ≡ₚ slots (doomed now) (ht s);
  sw_log : log s' = reverse (map (fun '(o, t) => ObjRelease o t) rel) ++ log s;
  sw_stat : stat_handles s' = stat_handles s;
}.

Lemma no_doomed_left now h : (forall j, cap_at h j = cap_at h j ≫= swept now) ->
  slots (doomed now) h = [].
Proof.
  intros H. unfold slots. generalize 0%nat. induction (Z.to_nat (capacity h)) as [|n IH]; intros k; [done|].
  cbn. rewrite IH. specialize (H (Z.of_nat k)). destruct (cap_at h (Z.of_nat k)) as [e|]; [|done].
  cbn in H |- *. unfold swept, doomed in *.
  destruct (e_state e =? A20_HS_ACTIVE) eqn:Ea; [|done]. cbn [andb] in *.
  destruct (entry_expired now e); [|done]. cbn [andb].
  by destruct (has (e_temporal_flags e) A20_TEMPORAL_AUTO_CLOSE).
Qed.

Lemma bind_swept_swept t1 t2 (o : option a20_handle_entry) : t1 <= t2 ->
  (o ≫= swept t1) ≫= swept t2 = o ≫= swept t2.
Proof. intros Ht. destruct o as [e|]; [|done]. by apply swept_swept. Qed.

Lemma scanned_at now h h' m rel t j : scanned now h h' 0 m rel -> now <= t ->
  cap_at h' j ≫= swept t = cap_at h j ≫= swept t.
Proof.
  intros Hsc Ht. rewrite (sc_at _ _ _ _ _ _ Hsc). split_if; [|done]. by apply bind_swept_swept.
Qed.

Lemma scanned_all now h h' rel : ht_wf h -> scanned now h h' 0 (capacity h) rel ->
  forall j, cap_at h' j = cap_at h j ≫= swept now.
Proof.
  intros Hw Hsc j. rewrite (sc_at _ _ _ _ _ _ Hsc). split_if; [done|].
  destruct (cap_at h j) as [e|] eqn:Ec; [|done]. apply cap_at_range in Ec; [|apply Hw].
  rewrite (proj2 (Z.leb_le 0 j)), (proj2 (Z.ltb_lt _ _)) in E by lia. done.
Qed.

(** A pass that does not fill the batch is the last one. *)
Lemma last_pass now s h' rel : ht_wf (ht s) -> scanned now (ht s) h' 0 (capacity (ht s)) rel ->
  sweeps now s (release_all rel (set_ht s h')) rel.
Proof.
  intros Hw Hsc. destruct (release_all_spec rel (set_ht s h')) as (Eh & Es & El).
  pose proof (scanned_all _ _ _ _ Hw Hsc) as Hall. destruct Hsc as [Hw' Hc Ha _ Hn Hrel].
  constructor; rewrite ?Eh, ?Es, ?El; autorewrite with a20_hts; try done.
  rewrite (Hrel now ltac:(lia)), no_doomed_left, app_nil_r; [done|].
  intros j. rewrite Hall. by rewrite bind_swept_swept.
Qed.

Lemma next_pass t now s h' m rel s' rel' : scanned now (ht s) h' 0 m rel -> now <= t ->
  sweeps t (release_all rel (set_ht s h')) s' rel' -> sweeps t s s' (rel ++ rel').
Proof.
  intros Hsc Ht [Hw' Hc' Ha' Hat' Hn' Hrel' Hlog' Hst'].
  destruct (release_all_spec rel (set_ht s h')) as (Eh & Es & El).
  rewrite Eh, ?Es, ?El in *. autorewrite with a20_hts in *. pose proof Hsc as [Hw Hc Ha _ Hn Hrel].
  constructor; [done|congruence|congruence| | | | |done].
  - intros j. rewrite Hat'. by eapply scanned_at.
  - rewrite length_app. lia.
  - by rewrite (Hrel t Ht), Hrel'.
  - rewrite Hlog', map_app, reverse_app, <- app_assoc. done.
Qed.

Lemma sweep_ok fuel ticks s : ht_wf (ht s) -> count (ht s) < A20_SWEEP_BATCH * Z.of_nat fuel ->
  (forall a b, (a <= b < fuel)%nat -> ticks b <= ticks a) ->
  exists s' k rel, a20_temporal_sweep fuel ticks s = Some s' /\ (k < fuel)%nat /\
    sweeps (ticks k) s s' rel.
Proof.
  revert s. induction fuel as [|fuel IH]; intros s Hw Hf Hmono.
  { pose proof (nbusy_bound (entries (ht s))). pose proof (hw_count _ Hw). unfold A20_SWEEP_BATCH in *. lia. }
  cbn [a20_temporal_sweep]. pose proof (sh_cap _ (hw_shape _ Hw)).
  destruct (scan_ok (Z.to_nat (capacity (ht s))) 0 (ticks fuel) (ht s) [])
    as (h' & m & rel & -> & Hsc & Hm & Hlen & Hend); [done|lia|lia|done|].
  cbn [app mbind option_bind] in *. destruct (Z.ltb_spec (Z.of_nat (length rel)) A20_SWEEP_BATCH) as [Hlt|Hge].
  - specialize (Hend Hlt) as ->. eexists _, fuel, rel. split; [done|]. split; [lia|].
    by apply last_pass.
  - destruct (release_all_spec rel (set_ht s h')) as (Eh & _).
    destruct (IH (release_all rel (set_ht s h'))) as (s' & k & rel' & E & Hk & Hsw).
    + rewrite Eh. exact (sc_wf _ _ _ _ _ _ Hsc).
    + rewrite Eh, ht_set_ht, (sc_count _ _ _ _ _ _ Hsc). unfold A20_SWEEP_BATCH in *. lia.
    + intros a b Hab. apply Hmono. lia.
    + exists s', k, (rel ++ rel'). split; [done|]. split; [lia|].
      eapply next_pass; [exact Hsc| |exact Hsw]. apply Hmono. lia.
Qed.

(** ** Destruction *)

(** The object a handle holds a reference to. *)
Definition held (e : a20_handle_entry) : option (Z * Z) :=
  if e_state e =? A20_HS_CLOSING then None else Some (e_object e, e_type e).

Lemma held_spec h i e : ht_wf h -> rd (entries h) i = Some e ->
  cap_at h i ≫= held =
  if negb (e_object e =? 0) && negb (e_state e =? A20_HS_FREE) then Some (e_object e, e_type e) else None.
Proof.
  intros Hw He. rewrite <- negb_orb, entry_object by (by eapply wf_entry).
  unfold cap_at. rewrite He. cbn. destruct (busy e); [|done]. cbn. unfold held.
  by destruct (e_state e =? A20_HS_CLOSING).
Qed.

Lemma u64_pred a b : u64 (u64 a + b) = u64 (a + b).
Proof. unfold u64. apply Zplus_mod_idemp_l. Qed.

(** The references of the slots below [i] are dropped. *)
Record destroyed (s : hts) (i : Z) (t : hts) : Prop := {
  de_len : length (entries (ht t)) = length (entries (ht s));
  de_rest : forall j, i <= j -> rd (entries (ht t)) j = rd (entries (ht s)) j;
  de_zero : forall j e, j < i -> rd (entries (ht t)) j = Some e -> e_object e = 0;
  de_log : exists rel, rel = omap (fun n => cap_at (ht s) (Z.of_nat n) ≫= held) (seq 0 (Z.to_nat i)) /\
    log t = reverse (map (fun '(o, t) => ObjRelease o t) rel) ++ log s /\
    stat_handles t = u64 (stat_handles s - Z.of_nat (length rel));
}.

Definition destroy_slot (i : Z) (s : hts) : option hts :=
  e ← rd (entries (ht s)) i;
  if negb (e_object e =? 0) && negb (e_state e =? A20_HS_FREE) then
    t ← set_entry (ht s) i (e {{ e_object := 0; e_state := A20_HS_FREE }});
    let s := a20_objstat_add (set_ht s t) (-1) in
    Some (emit (ObjRelease (e_object e) (e_type e)) s)
  else Some s.

Lemma destroy_step s i t : ht_wf (ht s) -> 0 <= i < capacity (ht s) -> destroyed s i t ->
  exists t', destroy_slot i t = Some t' /\ destroyed s (i + 1) t'.
Proof.
  intros Hw Hi [Hl Hge Hlt (rel & Erel & Hlog & Hstat)]. pose proof (hw_shape _ Hw) as Hs.
  destruct (entry_total (ht s) i Hs Hi) as [e He]. unfold destroy_slot.
  rewrite (Hge i ltac:(lia)), He. cbn [mbind option_bind].
  assert (omap (fun n => cap_at (ht s) (Z.of_nat n) ≫= held) (seq 0 (Z.to_nat (i + 1)))
          = rel ++ olist (cap_at (ht s) i ≫= held)) as Erel'.
  { replace (Z.to_nat (i + 1)) with (S (Z.to_nat i)) by lia.
    rewrite seq_S, omap_app, Nat.add_0_l, Erel. cbn. rewrite Z2Nat.id by lia.
    by destruct (cap_at (ht s) i ≫= held). }
  rewrite (held_spec _ _ _ Hw He) in Erel'.
  destruct (negb (e_object e =? 0) && negb (e_state e =? A20_HS_FREE)) eqn:Ec.
  - destruct (wr (entries (ht t)) i (e {{ e_object := 0; e_state := A20_HS_FREE }})) as [es|] eqn:Ewr.
    2: { rewrite wr_Some in Ewr; [done|]. by rewrite Hl, (sh_entries _ Hs). }
    unfold set_entry. rewrite Ewr. cbn [mbind option_bind]. eexists. split; [done|].
    constructor; autorewrite with a20_hts; change (entries ((ht t) {{ entries := es }})) with es.
    + rewrite <- Hl. by eapply wr_length.
    + intros j Hj. rewrite (rd_wr_ne _ _ i j _ ltac:(lia) Ewr). apply Hge. lia.
    + intros j e' Hj Hr. destruct (decide (j = i)) as [->|].
      * rewrite (rd_wr_eq _ _ _ _ Ewr) in Hr. by apply (inj Some) in Hr as <-.
      * rewrite (rd_wr_ne _ _ i j _ ltac:(lia) Ewr) in Hr. apply (Hlt j); [lia|done].
    + eexists. split; [reflexivity|]. rewrite Erel'. cbn [olist].
      rewrite map_app, reverse_app, length_app, Hlog, Hstat, u64_pred. split; [done|].
      f_equal. simpl. lia.
  - exists t. split; [done|]. constructor; [done|intros j Hj; apply Hge; lia| |].
    + intros j e' Hj Hr. destruct (decide (j = i)) as [->|]; [|apply (Hlt j); [lia|done]].
      rewrite Hge, He in Hr by lia. apply (inj Some) in Hr as <-.
      destruct (wf_entry _ _ _ Hw He) as [_ [[_ O]|[[_ O]|[(E3 & O & _)|(E3 & O & _)]]]]; try done;
        rewrite E3, (proj2 (Z.eqb_neq _ _) O) in Ec; done.
    + exists rel. rewrite Erel'. cbn [olist]. rewrite app_nil_r. done.
Qed.

Lemma destroy_ok s : ht_wf (ht s) -> in_u64 (stat_handles s) ->
  exists s', destroy_entries s = Some s' /\
    log s' = reverse (map (fun '(o, t) => ObjRelease o t) (slots held (ht s))) ++ log s /\
    stat_handles s' = u64 (stat_handles s - Z.of_nat (length (slots held (ht s)))) /\
    Forall (fun e => e_object e = 0) (entries (ht s')).
Proof.
  intros Hw Hst. pose proof (hw_shape _ Hw) as Hs. pose proof (sh_cap _ Hs) as Hcap.
  destruct (for_inv (destroyed s) destroy_slot 0 (capacity (ht s)) s) as (s' & E & Hd).
  - lia.
  - constructor; [done|done|intros j e Hj Er%rd_Some_range; lia|]. exists []. split; [done|].
    split; [done|]. simpl. by rewrite Z.sub_0_r, u64_small.
  - intros i t Hi. by apply destroy_step.
  - exists s'. split; [exact E|]. destruct Hd as [Hl _ Hz (rel & -> & Hlog & Hstat)].
    split; [exact Hlog|]. split; [exact Hstat|].
    apply list.Forall_forall. intros e [n Hn]%list_elem_of_lookup_1.
    apply (Hz (Z.of_nat n)); [|by rewrite rd_nat].
    apply lookup_lt_Some in Hn. rewrite Hl in Hn. pose proof (sh_entries _ Hs). lia.
Qed.
