(* ===== verification/HandleClaims.v ===== *)
(** * The handle table: what its users may rely on

    Histories of operations on a table, and the properties of the handle
    table as theorems with their concrete instances. *)

From S2P Require Import Prelude HandleTable HandleTheory HandleOps HandleSweep.
From stdpp Require Import list.
#[local] Open Scope Z_scope.

(** ** Histories *)

(** An operation with its arguments and the answers of the allocator and the
    clock. *)
Inductive ht_op :=
| OpInstall (mem : bool) (a : install_args)
| OpInstallAt (mem : nat -> bool) (slot : Z) (a : install_args)
| OpLookup (now h ty req : Z) (take_ref : bool)
| OpLookupTask (now h req : Z) (take_ref : bool)
| OpRemove (h : Z)
| OpReserve (mem : bool) (n : Z)
| OpAbort (handles : list Z)
| OpCommit (h : Z) (a : install_args)
| OpSetTemporal (tps ticks h expiry ops flags : Z)
| OpSetLabel (h label : Z)
| OpSweep (ticks : nat -> Z)
| OpTableLabel (label : Z)
| OpSigPend (sig : Z)
| OpSigTake
| OpSigSetBlocked (mask : Z).

Definition sweep_fuel (s : hts) : nat := S (Z.to_nat (count (ht s) / A20_SWEEP_BATCH)).

Definition run_op (op : ht_op) (s : hts) : option hts :=
  match op with
  | OpInstall mem a =>
      fst <$> a20_handle_install_temporal mem s (ia_object a) (ia_type a) (ia_rights a)
                (ia_expiry a) (ia_ops a) (ia_flags a) (ia_label a)
  | OpInstallAt mem slot a =>
      fst <$> a20_handle_install_at_temporal mem s slot (ia_object a) (ia_type a) (ia_rights a)
                (ia_expiry a) (ia_ops a) (ia_flags a) (ia_label a)
  | OpLookup now h ty req tr =>
      (fun r => r.1.1) <$> a20_handle_lookup_ref_mode now s h ty req tr
  | OpLookupTask now h req tr =>
      (fun r => r.1.1) <$> (if tr then a20_handle_lookup_ref_task_like now s h req
                            else a20_handle_lookup_task_like now s h req)
  | OpRemove h => fst <$> a20_handle_remove s h
  | OpReserve mem n => (fun r => r.1.1) <$> a20_handle_reserve_many mem s n
  | OpAbort handles => a20_handle_abort_reserved s handles
  | OpCommit h a =>
      fst <$> a20_handle_commit_reserved_temporal s h (ia_object a) (ia_type a) (ia_rights a)
                (ia_expiry a) (ia_ops a) (ia_flags a) (ia_label a)
  | OpSetTemporal tps ticks h x n f => fst <$> a20_handle_set_temporal tps ticks s h x n f
  | OpSetLabel h label => fst <$> a20_handle_set_label s h label
  | OpSweep ticks => a20_temporal_sweep (sweep_fuel s) ticks s
  | OpTableLabel label => Some (set_ht s (a20_ht_set_label (ht s) label))
  | OpSigPend sig => Some (set_ht s (a20_ht_sig_pend (ht s) sig))
  | OpSigTake => Some (set_ht s (fst (a20_ht_sig_take (ht s))))
  | OpSigSetBlocked mask => Some (set_ht s (fst (a20_ht_sig_set_blocked (ht s) mask)))
  end.

Fixpoint run_ops (ops : list ht_op) (s : hts) : option hts :=
  match ops with
  | [] => Some s
  | op :: ops => s ← run_op op s; run_ops ops s
  end.

(** Handles and counters are unsigned, the clock does not run backwards (the
    rounds of a sweep are numbered from the last). *)
Definition op_ok (op : ht_op) : Prop :=
  match op with
  | OpInstall _ a => args_ok a
  | OpInstallAt _ slot a => args_ok a /\ 0 <= slot
  | OpLookup _ h _ _ _ | OpLookupTask _ h _ _ | OpRemove h | OpSetLabel h _ => 0 <= h
  | OpReserve _ n => 0 <= n
  | OpAbort handles => Forall (fun h => 0 <= h) handles
  | OpCommit h a => args_ok a /\ 0 <= h
  | OpSetTemporal _ _ h x n _ => 0 <= h /\ 0 <= x /\ 0 <= n
  | OpSweep ticks => forall a b, (a <= b)%nat -> ticks b <= ticks a
  | OpTableLabel _ | OpSigPend _ | OpSigTake | OpSigSetBlocked _ => True
  end.

(** The slot of a handle that is not just reserved is closed or grants at
    most what it did. *)
Definition shrinks (h h' : a20_ht_internal) : Prop :=
  forall j e, cap_at h j = Some e -> e_state e <> A20_HS_CLOSING ->
    cap_at h' j = None \/ exists e', cap_at h' j = Some e' /\ attenuates e e'.

#[export] Instance attenuates_trans : Transitive attenuates.
Proof.
  intros e1 e2 e3 [o1 t1 r1 f1 l1 s1] [o2 t2 r2 f2 l2 s2].
  assert (forall a b c, Z.land b a = b -> Z.land c b = c -> Z.land c a = c) as Hsub.
  { intros a b c <- <-. rewrite <- !Z.land_assoc. by rewrite Z.land_diag. }
  constructor; [congruence|congruence|by eapply Hsub|intros now; by eapply Hsub|lia|].
  destruct s2 as [->|]; [|by right]. destruct s1; [left|right]; congruence.
Qed.

Lemma shrinks_eq h h' : (forall j, cap_at h' j = cap_at h j) -> shrinks h h'.
Proof. intros H j e Hj _. right. exists e. by rewrite H. Qed.

Lemma shrinks_refl h : shrinks h h.
Proof. by apply shrinks_eq. Qed.

Lemma shrinks_at h h' r o : (forall j, cap_at h' j = if j =? r then o else cap_at h j) ->
  (forall e, cap_at h r = Some e -> e_state e <> A20_HS_CLOSING ->
     o = None \/ exists e', o = Some e' /\ attenuates e e') -> shrinks h h'.
Proof.
  intros Hat Hr j e Hj Hc. rewrite Hat. destruct (Z.eqb_spec j r) as [->|]; [by apply Hr|].
  right. by exists e.
Qed.

Lemma shrinks_fresh h h' r o : (forall j, cap_at h' j = if j =? r then o else cap_at h j) ->
  cap_at h r = None -> shrinks h h'.
Proof. intros Hat Hn. eapply shrinks_at; [done|]. intros e E. by rewrite Hn in E. Qed.

Lemma shrinks_becomes h h' r e e' : slot_becomes h h' r (Some e') -> cap_at h r = Some e ->
  attenuates e e' -> shrinks h h'.
Proof.
  intros (_ & _ & _ & Hat) He Ha. eapply shrinks_at; [done|]. intros e0 E _. rewrite He in E.
  apply (inj Some) in E as <-. right. by exists e'.
Qed.

(** Attributes of the table are not part of the invariant. *)
Lemma wf_attrs h h' : entries h' = entries h -> capacity h' = capacity h -> count h' = count h ->
  free_hint h' = free_hint h -> free_bitmap h' = free_bitmap h -> bitmap_size h' = bitmap_size h ->
  ht_wf h -> ht_wf h'.
Proof.
  intros E1 E2 E3 E4 E5 E6 [[] Hb Hc He].
  assert (forall j, cap_at h' j = cap_at h j) as Hat by (intros j; unfold cap_at; by rewrite E1).
  constructor; [constructor; congruence| |congruence|congruence].
  intros j. unfold busy_at. rewrite Hat, E5. apply Hb.
Qed.

(** An operation ends, keeps the invariant and amplifies no handle. *)
Definition step_ok (r : option hts) (s : hts) : Prop :=
  exists s', r = Some s' /\ ht_wf (ht s') /\ shrinks (ht s) (ht s').

Lemma step_same s : ht_wf (ht s) -> step_ok (Some s) s.
Proof. intros Hw. exists s. split; [done|]. split; [done|]. apply shrinks_refl. Qed.

Lemma step_installed s s' r e : installed s s' r e -> step_ok (Some s') s.
Proof.
  intros (Hw & _ & _ & Hn & Hat & _). exists s'. split; [done|]. split; [done|].
  by eapply shrinks_fresh.
Qed.

Lemma step_becomes s s' r e e' : slot_becomes (ht s) (ht s') r (Some e') ->
  cap_at (ht s) r = Some e -> attenuates e e' -> step_ok (Some s') s.
Proof.
  intros Hb He Ha. exists s'. split; [done|]. split; [apply Hb|]. by eapply shrinks_becomes.
Qed.

Lemma step_extends s h : extends (ht s) h -> step_ok (Some (set_ht s h)) s.
Proof.
  intros (Hw & _ & _ & _ & _ & Hat). exists (set_ht s h). autorewrite with a20_hts.
  split; [done|]. split; [done|]. by apply shrinks_eq.
Qed.

Lemma step_attrs s h : ht_wf (ht s) -> entries h = entries (ht s) -> capacity h = capacity (ht s) ->
  count h = count (ht s) -> free_hint h = free_hint (ht s) -> free_bitmap h = free_bitmap (ht s) ->
  bitmap_size h = bitmap_size (ht s) -> step_ok (Some (set_ht s h)) s.
Proof.
  intros Hw E1 E2 E3 E4 E5 E6. exists (set_ht s h). autorewrite with a20_hts. split; [done|].
  split; [by eapply wf_attrs|]. apply shrinks_eq. intros j. unfold cap_at. by rewrite E1.
Qed.

Lemma step_lookup now s h ty req tr : ht_wf (ht s) -> 0 <= h ->
  exists s' st o, a20_handle_lookup_ref_mode now s h ty req tr = Some (s', st, o) /\
    ht_wf (ht s') /\ shrinks (ht s) (ht s') /\ (st < 0 -> s' = s).
Proof.
  intros Hw Hh. destruct (lookup_ok now s h ty req tr Hw Hh)
    as [[E Hst]|(s' & e & E & Hst & He & _ & Hbec & _)]; cbv zeta in *; rewrite E.
  - eexists _, _, _. split; [done|]. split; [done|]. split; [apply shrinks_refl|done].
  - eexists _, _, _. split; [done|]. split; [apply Hbec|]. split.
    + eapply shrinks_becomes; [done|done|]. apply attenuates_spend.
      apply cap_at_Some in He as [He _]. by destruct (wf_entry _ _ _ Hw He).
    + by rewrite Hst.
Qed.

Lemma step_lookup_task now s h req (tr : bool) : ht_wf (ht s) -> 0 <= h ->
  step_ok ((fun r => r.1.1) <$>
             (if tr then a20_handle_lookup_ref_task_like now s h req
              else a20_handle_lookup_task_like now s h req)) s.
Proof.
  intros Hw Hh. assert ((if tr then a20_handle_lookup_ref_task_like now s h req
      else a20_handle_lookup_task_like now s h req) =
    ('(s, r, out) ← a20_handle_lookup_ref_mode now s h A20_OBJ_TASK req tr;
     if (r <? 0)%Z then a20_handle_lookup_ref_mode now s h A20_OBJ_THREAD req tr
     else Some (s, r, out))) as -> by (by destruct tr).
  destruct (step_lookup now s h A20_OBJ_TASK req tr Hw Hh) as (s1 & st & o & -> & Hw1 & Hs1 & Hneg).
  cbn [mbind option_bind]. destruct (Z.ltb_spec st 0) as [Hlt|].
  - specialize (Hneg Hlt) as ->.
    destruct (step_lookup now s h A20_OBJ_THREAD req tr Hw Hh) as (s2 & st2 & o2 & -> & Hw2 & Hs2 & _).
    by exists s2.
  - by exists s1.
Qed.

Lemma step_reserve mem s n : ht_wf (ht s) -> 0 <= n ->
  step_ok ((fun r => r.1.1) <$> a20_handle_reserve_many mem s n) s.
Proof.
  intros Hw Hop.
  destruct (reserve_many_ok mem s n Hw Hop)
    as [(s' & h0 & hs & -> & _ & Hx & Hres & _)|(s' & hs & -> & Hw' & _ & _ & _ & _ & Hat)].
  - exists s'. split; [done|]. split; [apply Hres|]. intros j e Hj _. right. exists e. split; [|done].
    destruct Hx as (_ & _ & _ & _ & _ & Hx). rewrite <- Hx in Hj. rewrite (rs_rest _ _ _ Hres); [done|].
    intros Hin. pose proof (proj1 (list.Forall_forall _ _) (rs_free _ _ _ Hres) j Hin) as E.
    cbn in E. by rewrite E in Hj.
  - exists s'. split; [done|]. split; [done|]. by apply shrinks_eq.
Qed.

Lemma step_abort s handles : ht_wf (ht s) -> Forall (fun h => 0 <= h) handles ->
  step_ok (a20_handle_abort_reserved s handles) s.
Proof.
  intros Hw Hop.
  unfold a20_handle_abort_reserved.
  destruct (abort_loop_ok (ht s) handles Hw Hop) as (h' & -> & Hw' & _ & _ & Hat). cbn [mbind option_bind].
  exists (set_ht s h'). autorewrite with a20_hts. split; [done|]. split; [done|].
  intros j e Hj _. rewrite Hat. case_bool_decide; [by left|]. right. by exists e.
Qed.

Lemma step_sweep s ticks : ht_wf (ht s) -> (forall a b, (a <= b)%nat -> ticks b <= ticks a) ->
  step_ok (a20_temporal_sweep (sweep_fuel s) ticks s) s.
Proof.
  intros Hw Hop.
  pose proof (nbusy_bound (entries (ht s))). pose proof (hw_count _ Hw).
  destruct (sweep_ok (sweep_fuel s) ticks s Hw) as (s' & k & rel & -> & _ & Hsw).
  - unfold sweep_fuel, A20_SWEEP_BATCH. zlia.
  - intros a b Hab. apply Hop. lia.
  - exists s'. split; [done|]. split; [apply Hsw|]. intros j e Hj _. rewrite (sw_at _ _ _ _ Hsw), Hj.
    cbn. unfold swept. split_if; [|right; by exists e]. split_if; [by left|right].
    eexists. split; [done|]. apply attenuates_expire.
Qed.

Lemma step_op op s : ht_wf (ht s) -> op_ok op -> step_ok (run_op op s) s.
Proof.
  intros Hw Hop. destruct op; cbn [run_op op_ok] in *.
  - destruct (install_temporal_ok mem s a Hw Hop) as [[-> _]|(s' & r & v & -> & _ & _ & Hi)].
    + by apply step_same.
    + by eapply step_installed.
  - destruct Hop as [Ha Hs].
    destruct (install_at_ok mem s slot a Hw Ha Hs) as [[-> _]|[(h & rc & -> & Hx & _)|(s' & v & -> & _ & Hi)]].
    + by apply step_same.
    + by apply step_extends.
    + by eapply step_installed.
  - destruct (step_lookup now s h ty req take_ref Hw Hop) as (s' & st & o & -> & Hw' & Hs' & _).
    by exists s'.
  - by apply step_lookup_task.
  - destruct (remove_ok s h Hw Hop) as [[-> _]|(s' & e & -> & _ & _ & (Hw' & _ & _ & Hat) & _)].
    + by apply step_same.
    + exists s'. split; [done|]. split; [done|]. eapply shrinks_at; [done|]. by left.
  - by apply step_reserve.
  - by apply step_abort.
  - destruct Hop as [Ha Hh].
    destruct (commit_reserved_ok s h a Hw Ha Hh) as [[-> _]|(s' & v & -> & Hr & _ & (Hw' & _ & _ & Hat) & _)].
    + by apply step_same.
    + exists s'. split; [done|]. split; [done|]. eapply shrinks_at; [done|].
      intros e E Hne. destruct Hr as (e' & E' & Hc). rewrite E in E'. apply (inj Some) in E' as <-. done.
  - destruct Hop as (Hh & Hx & Hn).
    destruct (set_temporal_ok tps ticks s h expiry ops flags Hw Hh Hx Hn)
      as [(rc & -> & _)|(s' & e & e' & -> & He & _ & Ha & _ & Hb & _)].
    + by apply step_same.
    + by eapply step_becomes.
  - destruct (set_label_ok s h label Hw Hop) as [(rc & -> & _)|(s' & e & -> & He & Hl & Hb & _)].
    + by apply step_same.
    + eapply step_becomes; [done|done|]. apply attenuates_label. lia.
  - by apply step_sweep.
  - apply step_attrs; unfold a20_ht_set_label; try split_if; done.
  - apply step_attrs; unfold a20_ht_sig_pend; try split_if; done.
  - by apply step_attrs.
  - by apply step_attrs.
Qed.

Lemma run_ops_ok ops s : ht_wf (ht s) -> Forall op_ok ops ->
  exists s', run_ops ops s = Some s' /\ ht_wf (ht s').
Proof.
  revert s. induction ops as [|op ops IH]; intros s Hw Hops; [by exists s|].
  apply Forall_cons in Hops as [Hop Hops]. destruct (step_op op s Hw Hop) as (s1 & E & Hw1 & _).
  cbn [run_ops]. rewrite E. cbn [mbind option_bind]. by apply IH.
Qed.

(** Slot [j] holds a handle after every operation of the history. *)
Fixpoint stays (j : Z) (ops : list ht_op) (s : hts) : bool :=
  match ops with
  | [] => true
  | op :: ops =>
      match run_op op s with
      | Some s' => busy_at (ht s') j && stays j ops s'
      | None => false
      end
  end.

Lemma run_ops_shrink ops s j e : ht_wf (ht s) -> Forall op_ok ops ->
  cap_at (ht s) j = Some e -> e_state e <> A20_HS_CLOSING -> stays j ops s = true ->
  exists s' e', run_ops ops s = Some s' /\ cap_at (ht s') j = Some e' /\ attenuates e e'.
Proof.
  revert s e. induction ops as [|op ops IH]; intros s e Hw Hops He Hc Hst; [by exists s, e|].
  apply Forall_cons in Hops as [Hop Hops]. destruct (step_op op s Hw Hop) as (s1 & E & Hw1 & Hsh).
  cbn [run_ops stays] in *. rewrite E in *. cbn [mbind option_bind]. reflect.
  destruct (Hsh j e He Hc) as [Hn|(e1 & He1 & Ha1)].
  { match goal with H : busy_at _ _ = true |- _ => unfold busy_at in H; by rewrite Hn in H end. }
  assert (e_state e1 <> A20_HS_CLOSING) as Hc1 by (destruct (at_state _ _ Ha1) as [Es|Es]; rewrite Es; done).
  destruct (IH s1 e1 Hw1 Hops He1 Hc1) as (s' & e' & Er & He' & Ha'); [done|].
  exists s', e'. split; [done|]. split; [done|]. by etrans.
Qed.

(** ** A table to run examples on *)

Definition fresh_table : hts := {| ht := ht_created 0 0 None; stat_handles := 0; log := [] |}.

Lemma fresh_wf : ht_wf (ht fresh_table).
Proof. apply created_wf. Qed.

(** A task handle with all rights of its type; one that expires at tick 100
    and closes itself. *)
Definition task_args : install_args :=
  {| ia_object := 4096; ia_type := A20_OBJ_TASK; ia_rights := A20_RIGHT_READ + A20_RIGHT_EXEC;
     ia_expiry := 0; ia_ops := 0; ia_flags := 0; ia_label := 0 |}.
Definition lease_args : install_args :=
  {| ia_object := 8192; ia_type := A20_OBJ_TASK; ia_rights := A20_RIGHT_READ;
     ia_expiry := 100; ia_ops := 0;
     ia_flags := A20_TEMPORAL_EXPIRY_ABSOLUTE + A20_TEMPORAL_AUTO_CLOSE; ia_label := 0 |}.

Lemma task_args_ok : args_ok task_args.
Proof. repeat split; done. Qed.
Lemma lease_args_ok : args_ok lease_args.
Proof. repeat split; done. Qed.

(** Two handles, the second a lease. *)
Definition two_handles : list ht_op := [OpInstall true task_args; OpInstall true lease_args].

Lemma two_handles_ok : Forall op_ok two_handles.
Proof. repeat constructor; try done. Qed.

Definition leased_table : hts := default fresh_table (run_ops two_handles fresh_table).

Lemma leased_wf : ht_wf (ht leased_table).
Proof.
  destruct (run_ops_ok two_handles fresh_table fresh_wf two_handles_ok) as (s & E & Hw).
  unfold leased_table. by rewrite E.
Qed.

(** ** Properties *)

(** The software count-trailing-zeros, five halvings of a 64-bit word,
    computes the same as a linear search for the lowest set bit, 64 included
    when there is none. *)
Theorem a20_ctz64_is_first_set (v : Z) : in_u64 v -> a20_ctz64 v = first_set 64 0 v.
Proof.
  intros Hv. destruct (decide (v = 0)) as [->|Hne]; [reflexivity|].
  unfold in_u64 in Hv. destruct (ctz_spec v) as (Hb & Ht & Hlow); [change (2 ^ 64) with 18446744073709551616; lia|].
  symmetry. apply first_set_spec; [simpl; lia|done|]. intros m Hm. by apply Hlow.
Qed.

Lemma a20_ctz64_is_first_set_witness :
  in_u64 0x8000_0000_0000_0000 /\ a20_ctz64 0x8000_0000_0000_0000 = first_set 64 0 0x8000_0000_0000_0000.
Proof.
  assert (in_u64 0x8000_0000_0000_0000) as H by done.
  exact (conj H (a20_ctz64_is_first_set _ H)).
Defined.

(** C15: Every sequence of handle-table operations on a new table returns, with
    no access outside the entries or the bitmap, and leaves a well-formed
    table: the capacity is a multiple of 64 up to the maximum, the bitmap has
    a bit set exactly for the entries in use and none beyond them, the count
    is their number, every open handle refers to an object with rights within
    those of its type, and a reserved or free entry refers to none. *)
Theorem handle_ops_preserve_wf (pending blocked : Z) (ops : list ht_op) :
  Forall op_ok ops ->
  exists s', run_ops ops {| ht := ht_created pending blocked None; stat_handles := 0; log := [] |}
             = Some s' /\ ht_wf (ht s').
Proof. intros Hops. apply run_ops_ok; [apply created_wf|done]. Qed.

Lemma handle_ops_preserve_wf_witness :
  exists s', run_ops (two_handles ++ [OpSweep (fun _ => 100); OpLookup 100 0 A20_OBJ_TASK A20_RIGHT_READ true])
    {| ht := ht_created 7 9 None; stat_handles := 0; log := [] |} = Some s' /\ ht_wf (ht s').
Proof.
  apply (handle_ops_preserve_wf 7 9). apply Forall_app. split; [exact two_handles_ok|].
  repeat constructor; done.
Defined.

(** C14: Capabilities are not amplified.  As long as a handle stays open, no
    sequence of operations, setting its limits and label, looking it up and
    sweeping included, changes its object or type, adds a right, makes a
    right effective at a time at which it was not, or lowers its label. *)
Theorem handle_never_amplified (ops : list ht_op) (s : hts) (j : Z) (e : a20_handle_entry) :
  ht_wf (ht s) -> Forall op_ok ops -> cap_at (ht s) j = Some e ->
  e_state e <> A20_HS_CLOSING -> stays j ops s = true ->
  exists s' e', run_ops ops s = Some s' /\ cap_at (ht s') j = Some e' /\ attenuates e e'.
Proof. apply run_ops_shrink. Qed.

Lemma handle_never_amplified_witness :
  exists s' e', run_ops [OpSetTemporal 100 0 1 50 0 5; OpSetLabel 1 2; OpSweep (fun _ => 20)] leased_table
    = Some s' /\ cap_at (ht s') 1 = Some e' /\
    attenuates (args_entry lease_args A20_RIGHT_READ) e'.
Proof.
  apply handle_never_amplified.
  - exact leased_wf.
  - repeat constructor; done.
  - vm_compute. reflexivity.
  - done.
  - vm_compute. reflexivity.
Defined.

(** Installing a handle fails, leaving everything as it was, exactly when
    the quota is reached or no slot from the hint's word on is free and the
    table cannot grow.  Otherwise it returns a slot that was free, which now
    holds the object with the requested rights cut down to those of its type,
    the limits and the label; every other handle is as before. *)
Theorem install_temporal_correct (mem : bool) (s : hts) (a : install_args) :
  ht_wf (ht s) -> args_ok a ->
  let r := a20_handle_install_temporal mem s (ia_object a) (ia_type a) (ia_rights a)
             (ia_expiry a) (ia_ops a) (ia_flags a) (ia_label a) in
  (r = Some (s, - A20_ERR_NO_SPACE) /\ no_slot mem (ht s)) \/
  (exists s' slot v, r = Some (s', slot) /\ ~ no_slot mem (ht s) /\
     a20_type_valid_rights (ia_type a) = Some v /\
     installed s s' slot (args_entry a (Z.land (ia_rights a) v))).
Proof. apply install_temporal_ok. Qed.

Lemma install_temporal_correct_witness :
  let r := a20_handle_install_temporal true leased_table 4096 A20_OBJ_TASK
             (A20_RIGHT_READ + A20_RIGHT_EXEC) 0 0 0 0 in
  (r = Some (leased_table, - A20_ERR_NO_SPACE) /\ no_slot true (ht leased_table)) \/
  (exists s' slot v, r = Some (s', slot) /\ ~ no_slot true (ht leased_table) /\
     a20_type_valid_rights A20_OBJ_TASK = Some v /\
     installed leased_table s' slot
       (args_entry task_args (Z.land (A20_RIGHT_READ + A20_RIGHT_EXEC) v))).
Proof. exact (install_temporal_correct true leased_table task_args leased_wf task_args_ok). Defined.

(** Installing and looking up round-trip.  A handle just installed is
    found under its type, before its expiry and with an operation left if it
    is counted, by anyone who asks for no more rights than were requested and
    the type allows; the lookup hands out that object with those rights. *)
Theorem install_lookup_roundtrip (mem : bool) (s : hts) (a : install_args) (now req : Z) :
  ht_wf (ht s) -> args_ok a -> ~ no_slot mem (ht s) ->
  (0 < ia_expiry a -> now < ia_expiry a) ->
  (has (ia_flags a) A20_TEMPORAL_OP_COUNT = true -> 0 < ia_ops a) ->
  exists s1 h v, a20_handle_install_temporal mem s (ia_object a) (ia_type a) (ia_rights a)
      (ia_expiry a) (ia_ops a) (ia_flags a) (ia_label a) = Some (s1, h) /\
    a20_type_valid_rights (ia_type a) = Some v /\
    (Z.land (Z.land (ia_rights a) v) req = req ->
     exists s2 out, a20_handle_lookup_internal now s1 h (ia_type a) req = Some (s2, A20_OK, Some out) /\
       e_object out = ia_object a /\ e_type out = ia_type a /\
       e_rights out = Z.land (ia_rights a) v /\ log s2 = log s).
Proof.
  intros Hw Ha Hn Hx Ho.
  destruct (install_temporal_ok mem s a Hw Ha) as [[_ ?]|(s1 & h & v & E & _ & Hv & Hi)]; [done|].
  exists s1, h, v. split; [exact E|]. split; [done|]. intros Hreq.
  destruct Hi as (Hw1 & _ & Hh & _ & Hat & _ & _ & _ & Hlog).
  set (e := args_entry a (Z.land (ia_rights a) v)) in *.
  assert (cap_at (ht s1) h = Some e) as He by (by rewrite Hat, Z.eqb_refl).
  assert (a20_effective_rights now e = Z.land (ia_rights a) v) as Heff.
  { unfold a20_effective_rights. cbn [e_expiry_tick e args_entry active_entry e_temporal_flags e_remaining_ops e_rights].
    destruct (0 <? ia_expiry a) eqn:E1; reflect; cbn [andb].
    - rewrite (proj2 (Z.leb_gt _ _)) by (by apply Hx).
      destruct (has _ _) eqn:E2; [|done]. rewrite (proj2 (Z.eqb_neq _ _)); [done|]. specialize (Ho eq_refl). lia.
    - destruct (has _ _) eqn:E2; [|done]. rewrite (proj2 (Z.eqb_neq _ _)); [done|]. specialize (Ho eq_refl). lia. }
  assert (lookup_status now (cap_at (ht s1) h) (ia_type a) req = A20_OK) as Hst.
  { rewrite He. unfold lookup_status. rewrite Heff, Hreq, Z.eqb_refl.
    change (e_type e) with (ia_type a). by rewrite Z.eqb_refl, andb_false_r. }
  destruct (lookup_ok now s1 h (ia_type a) req false Hw1 ltac:(lia))
    as [[_ Hneg]|(s2 & e2 & E2 & _ & He2 & _ & _ & _ & _ & Hl2)]; rewrite Hst in *; [done|].
  rewrite He in He2. apply (inj Some) in He2 as <-. eexists s2, _. split; [exact E2|].
  cbn [e_rights]. rewrite Heff. unfold spend. split_if; (split; [done|]); (split; [done|]); (split; [done|]);
    by rewrite Hl2, Hlog.
Qed.

Lemma leased_has_slot : ~ no_slot true (ht leased_table).
Proof.
  intros [H|[H _]].
  - vm_compute in H. by apply H.
  - assert (scan_from (ht leased_table) <= 2 < capacity (ht leased_table)) as Hr by (vm_compute; done).
    specialize (H 2 Hr). by vm_compute in H.
Qed.

Lemma install_lookup_roundtrip_witness :
  exists s1 h v, a20_handle_install_temporal true leased_table 8192 A20_OBJ_TASK A20_RIGHT_READ
      100 0 5 0 = Some (s1, h) /\
    a20_type_valid_rights A20_OBJ_TASK = Some v /\
    (Z.land (Z.land A20_RIGHT_READ v) A20_RIGHT_READ = A20_RIGHT_READ ->
     exists s2 out, a20_handle_lookup_internal 99 s1 h A20_OBJ_TASK A20_RIGHT_READ = Some (s2, A20_OK, Some out) /\
       e_object out = 8192 /\ e_type out = A20_OBJ_TASK /\
       e_rights out = Z.land A20_RIGHT_READ v /\ log s2 = log leased_table).
Proof.
  exact (install_lookup_roundtrip true leased_table lease_args 99 A20_RIGHT_READ leased_wf lease_args_ok
           leased_has_slot (fun _ => eq_refl) (fun H => match diff_false_true H with end)).
Defined.

(** A lookup answers for the handle's entry alone: no entry or a reserved
    one is a bad handle, an expired one is reported as such, then the type
    and the effective rights at that time are compared.  A failed lookup
    changes nothing.  A successful one returns the object with its effective
    rights, uses up one operation if the handle is counted, leaves every
    other handle alone, and takes exactly one reference if asked to. *)
Theorem handle_lookup_correct (now : Z) (s : hts) (h ty req : Z) (tr : bool) :
  ht_wf (ht s) -> 0 <= h ->
  let st := lookup_status now (cap_at (ht s) h) ty req in
  let r := a20_handle_lookup_ref_mode now s h ty req tr in
  (r = Some (s, st, None) /\ st < 0) \/
  (exists s' e, r = Some (s', st, Some ((spend e) {{ e_rights := a20_effective_rights now e }})) /\
     st = A20_OK /\ cap_at (ht s) h = Some e /\ e_state e = A20_HS_ACTIVE /\
     slot_becomes (ht s) (ht s') h (Some (spend e)) /\ count (ht s') = count (ht s) /\
     stat_handles s' = stat_handles s /\
     log s' = (if tr then [ObjRef (e_object e) (e_type e)] else []) ++ log s).
Proof. apply lookup_ok. Qed.

Lemma handle_lookup_correct_witness :
  let st := lookup_status 99 (cap_at (ht leased_table) 1) A20_OBJ_TASK A20_RIGHT_READ in
  let r := a20_handle_lookup_ref_mode 99 leased_table 1 A20_OBJ_TASK A20_RIGHT_READ true in
  (r = Some (leased_table, st, None) /\ st < 0) \/
  (exists s' e, r = Some (s', st, Some ((spend e) {{ e_rights := a20_effective_rights 99 e }})) /\
     st = A20_OK /\ cap_at (ht leased_table) 1 = Some e /\ e_state e = A20_HS_ACTIVE /\
     slot_becomes (ht leased_table) (ht s') 1 (Some (spend e)) /\ count (ht s') = count (ht leased_table) /\
     stat_handles s' = stat_handles leased_table /\
     log s' = (if true then [ObjRef (e_object e) (e_type e)] else []) ++ log leased_table).
Proof. exact (handle_lookup_correct 99 leased_table 1 A20_OBJ_TASK A20_RIGHT_READ true leased_wf ltac:(done)). Defined.

(** Reserving handles for a transfer is all or nothing.  It either
    returns the wanted number of distinct slots that were free, each now
    reserved and invisible to lookups, or reports that there is no space and
    leaves every handle as it was; aborting a reservation also restores
    every handle. *)
Theorem reserve_all_or_nothing (mem : bool) (s : hts) (n : Z) : ht_wf (ht s) -> 0 <= n ->
  (exists s' hs, a20_handle_reserve_many mem s n = Some (s', A20_OK, hs) /\
     Z.of_nat (length hs) = n /\ NoDup hs /\
     (forall j, j ∈ hs -> cap_at (ht s) j = None /\ is_reserved (cap_at (ht s') j) /\
        forall now ty req tr,
          a20_handle_lookup_ref_mode now s' j ty req tr = Some (s', - A20_ERR_BAD_HANDLE, None)) /\
     (forall j, j ∉ hs -> cap_at (ht s') j = cap_at (ht s) j) /\
     exists s'', a20_handle_abort_reserved s' hs = Some s'' /\ same_handles s s'') \/
  (exists s' hs, a20_handle_reserve_many mem s n = Some (s', - A20_ERR_NO_SPACE, hs) /\
     same_handles s s').
Proof.
  intros Hw Hn. destruct (reserve_many_ok mem s n Hw Hn)
    as [(s' & h0 & hs & E & Hlen & Hx & Hres & Hst & Hlog)|H]; [left|by right].
  exists s', hs. split; [done|]. split; [done|]. split; [apply Hres|].
  pose proof Hx as (_ & _ & _ & _ & _ & Hat). split; [|split].
  - intros j Hj. pose proof (proj1 (list.Forall_forall _ _) (rs_free _ _ _ Hres) j Hj) as Hf.
    pose proof (proj1 (list.Forall_forall _ _) (rs_new _ _ _ Hres) j Hj) as Hr.
    pose proof (proj1 (list.Forall_forall _ _) (rs_range _ _ _ Hres) j Hj) as Hrg.
    cbn in Hf, Hrg. split; [by rewrite <- Hat|]. split; [done|]. intros now ty req tr.
    destruct Hr as (e & He & Hc). destruct (lookup_ok now s' j ty req tr (rs_wf _ _ _ Hres) ltac:(lia))
      as [[E1 _]|(? & ? & _ & _ & He' & Hact & _)].
    + cbv zeta in E1. rewrite E1. unfold lookup_status. by rewrite He, Hc.
    + rewrite He in He'. apply (inj Some) in He' as <-. by rewrite Hc in Hact.
  - intros j Hj. by rewrite (rs_rest _ _ _ Hres), Hat.
  - destruct (reserve_undo s h0 (ht s') hs Hx Hres) as (s'' & E2 & Hsame). exists s''. split; [|done].
    rewrite <- E2. f_equal. destruct s, s'. cbn in *. by subst.
Qed.

Lemma reserve_all_or_nothing_witness :
  (exists s' hs, a20_handle_reserve_many true leased_table 3 = Some (s', A20_OK, hs) /\
     Z.of_nat (length hs) = 3 /\ NoDup hs /\
     (forall j, j ∈ hs -> cap_at (ht leased_table) j = None /\ is_reserved (cap_at (ht s') j) /\
        forall now ty req tr,
          a20_handle_lookup_ref_mode now s' j ty req tr = Some (s', - A20_ERR_BAD_HANDLE, None)) /\
     (forall j, j ∉ hs -> cap_at (ht s') j = cap_at (ht leased_table) j) /\
     exists s'', a20_handle_abort_reserved s' hs = Some s'' /\ same_handles leased_table s'') \/
  (exists s' hs, a20_handle_reserve_many true leased_table 3 = Some (s', - A20_ERR_NO_SPACE, hs) /\
     same_handles leased_table s').
Proof. exact (reserve_all_or_nothing true leased_table 3 leased_wf ltac:(done)). Defined.

(** C16: The sweep ends, within one round more than the handles divided by the
    batch size, even though each round takes at most one batch and looks at
    the clock again.  Afterwards no expired handle is open: every handle due
    at the last round's time is closed if it asks for that and marked expired
    without rights otherwise, every other handle is as before; and the
    objects released are those of the closed handles, each exactly once. *)
Theorem temporal_sweep_correct (ticks : nat -> Z) (s : hts) : ht_wf (ht s) ->
  (forall a b, (a <= b)%nat -> ticks b <= ticks a) ->
  exists s' k rel, a20_temporal_sweep (sweep_fuel s) ticks s = Some s' /\ (k < sweep_fuel s)%nat /\
    (forall j, cap_at (ht s') j = cap_at (ht s) j ≫= swept (ticks k)) /\
    rel ≡ₚ slots (doomed (ticks k)) (ht s) /\
    log s' = reverse (map (fun '(o, t) => ObjRelease o t) rel) ++ log s /\
    count (ht s') = count (ht s) - Z.of_nat (length rel).
Proof.
  intros Hw Hmono. pose proof (nbusy_bound (entries (ht s))). pose proof (hw_count _ Hw).
  destruct (sweep_ok (sweep_fuel s) ticks s Hw) as (s' & k & rel & E & Hk & Hsw).
  - unfold sweep_fuel, A20_SWEEP_BATCH. zlia.
  - intros a b Hab. apply Hmono. lia.
  - exists s', k, rel. split; [done|]. split; [done|]. split; [apply Hsw|]. split; [apply Hsw|].
    split; apply Hsw.
Qed.

Lemma temporal_sweep_correct_witness :
  exists s' k rel, a20_temporal_sweep (sweep_fuel leased_table) (fun _ => 100) leased_table = Some s' /\
    (k < sweep_fuel leased_table)%nat /\
    (forall j, cap_at (ht s') j = cap_at (ht leased_table) j ≫= swept 100) /\
    rel ≡ₚ slots (doomed 100) (ht leased_table) /\
    log s' = reverse (map (fun '(o, t) => ObjRelease o t) rel) ++ log leased_table /\
    count (ht s') = count (ht leased_table) - Z.of_nat (length rel).
Proof. exact (temporal_sweep_correct (fun _ => 100) leased_table leased_wf (fun _ _ _ => Z.le_refl 100)). Defined.

(** Destroying a table releases the object of every handle that is open or
    expired exactly once, in slot order, releases nothing for reserved slots,
    and takes as many off the handle statistic. *)
Theorem destroy_releases_each_once (s : hts) : ht_wf (ht s) -> in_u64 (stat_handles s) ->
  exists s', destroy_entries s = Some s' /\
    log s' = reverse (map (fun '(o, t) => ObjRelease o t) (slots held (ht s))) ++ log s /\
    stat_handles s' = u64 (stat_handles s - Z.of_nat (length (slots held (ht s)))) /\
    Forall (fun e => e_object e = 0) (entries (ht s')).
Proof. apply destroy_ok. Qed.

Lemma destroy_releases_each_once_witness :
  exists s', destroy_entries leased_table = Some s' /\
    log s' = reverse (map (fun '(o, t) => ObjRelease o t) (slots held (ht leased_table))) ++ log leased_table /\
    stat_handles s' = u64 (stat_handles leased_table - Z.of_nat (length (slots held (ht leased_table)))) /\
    Forall (fun e => e_object e = 0) (entries (ht s')).
Proof.
  assert (in_u64 (stat_handles leased_table)) as H by (vm_compute; done).
  exact (destroy_releases_each_once leased_table leased_wf H).
Defined.

(** ** Divergences *)

(** Installing at the last slot moves the search hint past all free slots;
    the next installation then fails for lack of memory although 255 of the
    256 slots are free. *)
Theorem install_fails_with_free_slots :
  exists s, run_ops [OpInstallAt (fun _ => true) 255 task_args] fresh_table = Some s /\
    count (ht s) = 1 /\ capacity (ht s) = 256 /\
    a20_handle_install false s 4096 A20_OBJ_TASK 0 = Some (s, - A20_ERR_NO_SPACE).
Proof. eexists. split; [vm_compute; reflexivity|]. split; [done|]. split; [done|]. vm_compute. reflexivity. Qed.

Lemma free_slot_count h j : ht_wf h -> 0 <= j < capacity h -> cap_at h j = None ->
  count h < capacity h.
Proof.
  intros Hw Hj Hf. destruct (entry_total h j (hw_shape h Hw) Hj) as [e He].
  assert (busy e = false) as Hb.
  { destruct (busy e) eqn:E; [|done]. by rewrite (proj2 (cap_at_Some h j e)) in Hf. }
  destruct (set_entry_total h j (e {{ e_state := A20_HS_CLOSING }}) (hw_shape h Hw) Hj) as (es & Hwr & _).
  pose proof (nbusy_set _ _ _ _ _ He Hwr) as Hn. rewrite Hb in Hn. cbn in Hn.
  pose proof (nbusy_bound es) as Hbd. rewrite (wr_length _ _ _ _ Hwr), (sh_entries h (hw_shape h Hw)) in Hbd.
  rewrite (hw_count h Hw). lia.
Qed.

(** Reserving does not look at the quota. *)
Theorem reserve_ignores_quota (mem : bool) (s : hts) : ht_wf (ht s) ->
  max_handles (ht s) = count (ht s) ->
  (exists j, scan_from (ht s) <= j < capacity (ht s) /\ cap_at (ht s) j = None) ->
  exists s' hs, a20_handle_reserve_many mem s 1 = Some (s', A20_OK, hs) /\
    max_handles (ht s') < count (ht s').
Proof.
  intros Hw Hq (j & Hj & Hfree). destruct (reserve_many_ok mem s 1 Hw ltac:(lia))
    as [(s' & h0 & hs & E & Hlen & (_ & _ & Hcnt & _ & Ha0 & _) & Hres & _)|(s' & hs & E & _)].
  - exists s', hs. split; [done|]. rewrite (rs_count _ _ _ Hres), Hlen, Hcnt.
    assert (max_handles (ht s') = max_handles (ht s)) as ->; [|lia].
    pose proof (rs_attrs _ _ _ Hres) as Ha. rewrite Ha0 in Ha. unfold attrs in Ha. congruence.
  - exfalso. pose proof (scan_from_range _ (hw_shape _ Hw)) as Hsf.
    pose proof (free_slot_count (ht s) j Hw ltac:(lia) Hfree) as Hfc.
    unfold a20_handle_reserve_many in E. cbn [Z.eqb] in E. rewrite free_count in E by done.
    rewrite (proj2 (Z.ltb_ge (capacity (ht s) - count (ht s)) 1)) in E by lia.
    cbn [mbind option_bind] in E.
    rewrite (proj2 (Z.ltb_ge (capacity (ht s) - count (ht s)) 1)) in E by lia.
    destruct (reserve_loop_ok 1 (ht s) (ht s) [] (reserves_nil _ Hw)) as (h1 & hs1 & E1 & Hres & _ & Hfull).
    change (Z.to_nat 1) with 1%nat in E. rewrite E1 in E. cbn [mbind option_bind app] in *.
    destruct (Z.ltb_spec (Z.of_nat (length hs1)) 1); [|done]. destruct hs1 as [|]; [|simpl in *; lia].
    cbn [reserve_loop] in E1.
    destruct (alloc_taken (ht s) Hw) as [[Ea Hall]|(h2 & r & Ea & Htk & _)].
    + specialize (Hall j Hj). unfold busy_at in Hall. by rewrite Hfree in Hall.
    + pose proof Htk as (Hr & _ & Hs2 & _ & (Hc2 & _) & _). rewrite Ea in E1. cbn [mbind option_bind] in E1.
      rewrite (proj2 (Z.ltb_ge r 0)) in E1 by lia.
      destruct (entry_total h2 r Hs2 ltac:(lia)) as [e He]. rewrite He in E1. cbn [mbind option_bind] in E1.
      by destruct (set_entry h2 r _).
Qed.

(** The handle statistic counts neither a committed reservation nor a handle
    the sweep closes: after reserving, committing and removing one handle the
    table is empty and the counter has gone below zero. *)
Theorem handle_statistic_drifts :
  exists s, run_ops [OpReserve true 1; OpCommit 0 task_args; OpRemove 0] fresh_table = Some s /\
    count (ht s) = 0 /\ stat_handles s = U64_MAX.
Proof. eexists. split; [vm_compute; reflexivity|]. done. Qed.
