(* ===== verification/FileLocks.v ===== *)
(** * File locks (kernel/fs/locks.c)

    POSIX record locks (per process and per open file description) and BSD
    whole-file locks: two fixed tables under one spinlock, a generation number
    for waiters, and the range algebra that replaces an owner's locks on a
    file.  A critical section is one function on the tables; what happens
    while the spinlock is released (other callers, the park) is an argument.
    [None] is a signed overflow or an access outside the scratch array. *)

From S2P Require Import Prelude Task.

(** ** Constants (core/fcntl.h, fs/locks.h) *)

Definition SEEK_SET : Z := 0.
Abbreviation SEEK_CUR := (1)%Z (only parsing).
Abbreviation SEEK_END := (2)%Z (only parsing).
Abbreviation LOCK_SH := (1)%Z (only parsing).
Abbreviation LOCK_EX := (2)%Z (only parsing).
Abbreviation LOCK_NB := (4)%Z (only parsing).
Definition LOCK_UN : Z := 8.
Abbreviation F_RDLCK := (0)%Z (only parsing).
Abbreviation F_WRLCK := (1)%Z (only parsing).
Abbreviation F_UNLCK := (2)%Z (only parsing).
Abbreviation FS_LOCK_OWNER_PID := (1)%Z (only parsing).
Abbreviation FS_LOCK_OWNER_OFD := (2)%Z (only parsing).
Definition FS_FILE_LOCK_MAX : Z := 256.
Definition FS_LOCK_SCRATCH_MAX : Z := FS_FILE_LOCK_MAX * 2 + 1.
Definition FS_LOCK_MAX_RETRIES : nat := 1024.
Definition FS_FLOCK_MAX_RETRIES : nat := 1024.

(** ** Data *)

Record fs_flock := { l_type : Z; l_whence : Z; l_start : Z; l_len : Z; l_pid : Z }.

Record fs_file_lock := {
  used : bool; owner_kind : Z; key : Z; owner : Z; type : Z; start : Z; end_ : Z;
}.

Record fs_bsd_flock := { b_used : bool; b_key : Z; b_owner : Z; b_type : Z }.

Record fs_lock_range_t := { r_start : Z; r_end : Z; r_type : Z }.

(** The open file: its address, offset and vnode; [vn_stat] is the size that
    the file system's stat operation reports, if it has one that succeeds. *)
Record vnode_t := { vn_ino : Z; vn_mnt : Z; vn_size : Z; vn_stat : option Z }.
Record vfile_t := { vf_addr : Z; vf_offset : Z; vf_vnode : option vnode_t }.

#[global] Instance fs_file_lock_eq_dec : EqDecision fs_file_lock.
Proof. solve_decision. Defined.
#[global] Instance fs_bsd_flock_eq_dec : EqDecision fs_bsd_flock.
Proof. solve_decision. Defined.

(** [wakes] counts the calls of fs_lock_wake_waiters. *)
Record locks := {
  g_file_locks : list fs_file_lock; g_bsd_flocks : list fs_bsd_flock;
  g_file_lock_generation : Z; wakes : nat;
}.

Definition bump (t : locks) (changed : bool) : locks :=
  if changed then t {{ g_file_lock_generation := u64 (g_file_lock_generation t + 1);
                       wakes := S (wakes t) }} else t.

(** ** Keys and ranges *)

Definition fs_lock_key (vf : vfile_t) : Z :=
  match vf_vnode vf with
  | Some vn =>
      if negb (vn_ino vn =? 0)
      then Z.lxor (Z.lxor (Z.shiftr (vn_mnt vn) 3) (u64 (Z.shiftl (vn_ino vn) 17))) (vn_ino vn)
      else vf_addr vf
  | None => vf_addr vf
  end.

Definition fs_file_size (vf : vfile_t) : Z :=
  match vf_vnode vf with
  | None => 0
  | Some vn => match vn_stat vn with Some n => s64 n | None => s64 (vn_size vn) end
  end.

(** The error, or the first and the last byte. *)
Definition fs_lock_range (vf : option vfile_t) (lk : fs_flock) : option (Z + Z * Z) :=
  match vf with
  | None => Some (inl (- EINVAL))
  | Some vf =>
      match (if l_whence lk =? SEEK_SET then Some 0
             else if l_whence lk =? SEEK_CUR then Some (s64 (vf_offset vf))
             else if l_whence lk =? SEEK_END then Some (fs_file_size vf)
             else None) with
      | None => Some (inl (- EINVAL))
      | Some base =>
          s ← sadd64 base (l_start lk);
          '(s, e) ← (if l_len lk =? 0 then Some (s, I64_MAX)
                     else if 0 <? l_len lk then
                       e ← sadd64 s (l_len lk);
                       e ← sadd64 e (-1);
                       Some (s, e)
                     else
                       e ← sadd64 s (-1);
                       s ← sadd64 s (l_len lk);
                       Some (s, e));
          Some (if s <? 0 then inl (- EINVAL) else inr (s, e))
      end
  end.

Definition fs_lock_overlaps (a0 a1 b0 b1 : Z) : bool := (a0 <=? b1) && (b0 <=? a1).

Definition fs_lock_conflicts (held : fs_file_lock) (k kind own ty s e : Z) : bool :=
  if negb (used held) || negb (key held =? k) then false
  else if (owner_kind held =? kind) && (owner held =? own) then false
  else if negb (fs_lock_overlaps (start held) (end_ held) s e) then false
  else if (type held =? F_RDLCK) && (ty =? F_RDLCK) then false
  else true.

(** The scan of the table for the first conflict. *)
Definition first_conflict (l : list fs_file_lock) (k kind own ty s e : Z) : option fs_file_lock :=
  List.find (fun h => fs_lock_conflicts h k kind own ty s e) l.

Definition bad_type (ty : Z) : bool :=
  negb (ty =? F_RDLCK) && negb (ty =? F_WRLCK) && negb (ty =? F_UNLCK).

(** ** F_GETLK *)

(** The status and the structure handed back. *)
Definition fs_locks_get (t : locks) (vf : option vfile_t) (lk : fs_flock) (kind own : Z)
  : option (Z * fs_flock) :=
  if bad_type (l_type lk) then Some (- EINVAL, lk)
  else
    r ← fs_lock_range vf lk;
    match r, vf with
    | inr (s, e), Some vf =>
        match first_conflict (g_file_locks t) (fs_lock_key vf) kind own (l_type lk) s e with
        | Some h =>
            len ← (if end_ h =? I64_MAX then Some 0
                   else d ← sadd64 (end_ h) (- start h); sadd64 d 1);
            Some (0, lk {{ l_type := type h; l_whence := SEEK_SET; l_start := start h;
                           l_len := len;
                           l_pid := if owner_kind h =? FS_LOCK_OWNER_PID
                                    then s32 (owner h) else -1 }})
        | None => Some (0, lk {{ l_type := F_UNLCK }})
        end
    | inl err, _ => Some (err, lk)
    | _, None => Some (- EINVAL, lk)
    end.

(** ** F_SETLK, F_SETLKW: the range algebra *)

Definition own_on_file (k kind own : Z) (h : fs_file_lock) : bool :=
  used h && (key h =? k) && (owner_kind h =? kind) && (owner h =? own).

Definition push (sc : list fs_lock_range_t) (x : fs_lock_range_t) : option (list fs_lock_range_t) :=
  if Z.of_nat (length sc) <? FS_LOCK_SCRATCH_MAX then Some (sc ++ [x]) else None.

(** Step 2 for one held range. *)
Definition subtract (s e : Z) (sc : list fs_lock_range_t) (h : fs_file_lock)
  : option (list fs_lock_range_t) :=
  if (end_ h <? s) || (e <? start h)
  then push sc {| r_start := start h; r_end := end_ h; r_type := type h |}
  else
    sc ← (if start h <? s then
            p ← sadd64 s (-1);
            push sc {| r_start := start h; r_end := p; r_type := type h |}
          else Some sc);
    if e <? end_ h then
      n ← sadd64 e 1;
      push sc {| r_start := n; r_end := end_ h; r_type := type h |}
    else Some sc.

(** Step 2: the number of ranges the owner holds and what is left of them. *)
Fixpoint collect (l : list fs_file_lock) (k kind own s e : Z) (own_count : Z)
    (sc : list fs_lock_range_t) : option (Z * list fs_lock_range_t) :=
  match l with
  | [] => Some (own_count, sc)
  | h :: l =>
      if own_on_file k kind own h then
        sc ← subtract s e sc h;
        collect l k kind own s e (own_count + 1) sc
      else collect l k kind own s e own_count sc
  end.

(** Step 4: the inner loop of the insertion sort; the sorted part is held
    back to front. *)
Fixpoint sift (sorted : list fs_lock_range_t) (tmp : fs_lock_range_t) : list fs_lock_range_t :=
  match sorted with
  | x :: rest => if r_start tmp <? r_start x then x :: sift rest tmp else tmp :: sorted
  | [] => [tmp]
  end.

Definition insertion_sort (sc : list fs_lock_range_t) : list fs_lock_range_t :=
  rev (fold_left sift sc []).

(** Step 5: the merged part is held back to front. *)
Definition merge_step (merged : list fs_lock_range_t) (x : fs_lock_range_t)
  : option (list fs_lock_range_t) :=
  match merged with
  | last :: rest =>
      if r_type last =? r_type x then
        n ← sadd64 (r_end last) 1;
        if r_start x <=? n then
          Some (if r_end last <? r_end x then last {{ r_end := r_end x }} :: rest else merged)
        else Some (x :: merged)
      else Some (x :: merged)
  | [] => Some [x]
  end.

Fixpoint merge_loop (merged sc : list fs_lock_range_t) : option (list fs_lock_range_t) :=
  match sc with
  | [] => Some (rev merged)
  | x :: sc => m ← merge_step merged x; merge_loop m sc
  end.

Definition count_used (l : list fs_file_lock) : Z := Z.of_nat (length (List.filter used l)).

(** Step 7. *)
Definition withdraw (p : fs_file_lock -> bool) (l : list fs_file_lock) : list fs_file_lock :=
  map (fun h => if p h then h {{ used := false }} else h) l.

Fixpoint write_back (l : list fs_file_lock) (k kind own : Z) (sc : list fs_lock_range_t)
  : list fs_file_lock :=
  match l, sc with
  | [], _ => []
  | h :: l, [] => h :: l
  | h :: l, x :: sc' =>
      if used h then h :: write_back l k kind own sc
      else {| used := true; owner_kind := kind; key := k; owner := own;
              type := r_type x; start := r_start x; end_ := r_end x |}
           :: write_back l k kind own sc'
  end.

(** Steps 2 to 7 with the conflict check behind. *)
Definition replace_range (t : locks) (k kind own ty s e : Z) : option (locks * Z) :=
  '(own_count, sc) ← collect (g_file_locks t) k kind own s e 0 [];
  sc ← (if negb (ty =? F_UNLCK) then push sc {| r_start := s; r_end := e; r_type := ty |}
        else Some sc);
  merged ← merge_loop [] (insertion_sort sc);
  let merged_count := Z.of_nat (length merged) in
  if FS_FILE_LOCK_MAX <? count_used (g_file_locks t) - own_count + merged_count
  then Some (t, - ENOLCK)
  else
    let l := withdraw (own_on_file k kind own) (g_file_locks t) in
    let t := t {{ g_file_locks := write_back l k kind own merged }} in
    Some (bump t (negb (own_count =? 0) || (ty =? F_UNLCK)), 0).

(** ** Waiting *)

Definition proc_wake_reason_is_task_interrupt (r : proc_wake_reason_t) : bool :=
  bool_decide (r = PROC_WAKE_SIGNAL) || bool_decide (r = PROC_WAKE_FATAL_SIGNAL)
  || bool_decide (r = PROC_WAKE_TASK_EXIT).

(** What a wait meets: whether there is a current task, its pending signals
    before and after, whether the park could be prepared and the wait queue
    entry linked, the wake reason, and what others do to the tables between
    releasing the spinlock and taking it again, and while the task sleeps. *)
Record wait_env := {
  we_current : bool; we_signal_before : bool; we_token : bool; we_linked : bool;
  we_reason : proc_wake_reason_t; we_signal_after : bool;
  we_others_preparing : locks -> locks; we_others_sleeping : locks -> locks;
}.

(** Called with the spinlock held, returns with it released. *)
Definition fs_lock_wait (env : wait_env) (t : locks) : locks * Z :=
  if negb (we_current env) then (we_others_sleeping env t, 0)
  else if we_signal_before env then (t, - ERESTARTSYS)
  else
    let generation := g_file_lock_generation t in
    let t := we_others_preparing env t in
    if negb (we_token env) then (t, - EAGAIN)
    else if negb (generation =? g_file_lock_generation t) then (t, 0)
    else
      let reason := if we_linked env then we_reason env else PROC_WAKE_CANCEL in
      let t := if we_linked env then we_others_sleeping env t else t in
      if proc_wake_reason_is_task_interrupt reason || we_signal_after env
      then (t, - ERESTARTSYS)
      else if negb (we_linked env) then (t, - EAGAIN)
      else (t, 0).

(** ** F_SETLK, F_SETLKW *)

(** [fuel] retries are left; [env n] is the wait with [n] left after it. *)
Fixpoint set_loop (fuel : nat) (env : nat -> wait_env) (t : locks) (k kind own ty s e : Z)
    (wait : bool) (prev_blocker : Z) : option (locks * Z) :=
  match fuel with
  | O => Some (t, - EDEADLK)
  | S fuel =>
      let deadlock_retries := Z.of_nat FS_LOCK_MAX_RETRIES - Z.of_nat fuel in
      match (if negb (ty =? F_UNLCK) then first_conflict (g_file_locks t) k kind own ty s e
             else None) with
      | None => replace_range t k kind own ty s e
      | Some h =>
          if negb wait then Some (t, - EAGAIN)
          else
            let blocker := owner h in
            if (blocker =? prev_blocker) && negb (blocker =? 0)
               && existsb (fun j => used j && (owner_kind j =? kind) && (owner j =? own)
                                    && negb (key j =? k) && (4 <? deadlock_retries))
                          (g_file_locks t)
            then Some (t, - EDEADLK)
            else
              let '(t, r) := fs_lock_wait (env fuel) t in
              if r <? 0 then Some (t, r)
              else set_loop fuel env t k kind own ty s e wait blocker
      end
  end.

(** [mem]: the scratch allocation succeeds. *)
Definition fs_locks_set (mem : bool) (env : nat -> wait_env) (t : locks) (vf : option vfile_t)
    (lk : fs_flock) (kind own : Z) (wait : bool) : option (locks * Z) :=
  if bad_type (l_type lk) then Some (t, - EINVAL)
  else
    r ← fs_lock_range vf lk;
    match r, vf with
    | inr (s, e), Some vf =>
        if negb mem then Some (t, - ENOMEM)
        else set_loop FS_LOCK_MAX_RETRIES env t (fs_lock_key vf) kind own (l_type lk) s e wait 0
    | inl err, _ => Some (t, err)
    | _, None => Some (t, - EINVAL)
    end.

(** ** Releasing *)

Definition release_where (p : fs_file_lock -> bool) (t : locks) : locks :=
  let changed := existsb p (g_file_locks t) in
  bump (t {{ g_file_locks := withdraw p (g_file_locks t) }}) changed.

Definition fs_locks_release_process (t : locks) (pid : Z) : locks :=
  release_where (fun h => used h && (owner_kind h =? FS_LOCK_OWNER_PID)
                          && (owner h =? u64 pid)) t.

Definition fs_locks_release_process_file (t : locks) (vf : vfile_t) (pid : Z) : locks :=
  let k := fs_lock_key vf in
  release_where (fun h => used h && (key h =? k) && (owner_kind h =? FS_LOCK_OWNER_PID)
                          && (owner h =? u64 pid)) t.

Definition bsd_own (k : Z) (vf : vfile_t) (b : fs_bsd_flock) : bool :=
  b_used b && (b_key b =? k) && (b_owner b =? vf_addr vf).

Definition bsd_withdraw (p : fs_bsd_flock -> bool) (l : list fs_bsd_flock) : list fs_bsd_flock :=
  map (fun b => if p b then b {{ b_used := false }} else b) l.

(** [cur_pid]: the pid of the current task, -1 without one. *)
Definition fs_locks_release_file (t : locks) (vf : vfile_t) (own cur_pid : Z) : locks :=
  let k := fs_lock_key vf in
  let ofd h := used h && (owner_kind h =? FS_LOCK_OWNER_OFD) && (owner h =? own) in
  let pid h := used h && (key h =? k) && (owner_kind h =? FS_LOCK_OWNER_PID)
               && (owner h =? u64 cur_pid) in
  let changed := existsb ofd (g_file_locks t) || existsb pid (g_file_locks t)
                 || existsb (bsd_own k vf) (g_bsd_flocks t) in
  bump (t {{ g_file_locks := withdraw pid (withdraw ofd (g_file_locks t));
             g_bsd_flocks := bsd_withdraw (bsd_own k vf) (g_bsd_flocks t) }}) changed.

(** ** flock *)

Definition bsd_conflicts (k : Z) (vf : vfile_t) (ty : Z) (b : fs_bsd_flock) : bool :=
  if negb (b_used b) || negb (b_key b =? k) || (b_owner b =? vf_addr vf) then false
  else if (b_type b =? F_RDLCK) && (ty =? F_RDLCK) then false
  else true.

(** The first entry satisfying [p] replaced by [f] of it. *)
Fixpoint replace_first {A} (p : A -> bool) (f : A -> A) (l : list A) : option (list A) :=
  match l with
  | [] => None
  | x :: l => if p x then Some (f x :: l) else l' ← replace_first p f l; Some (x :: l')
  end.

Fixpoint flock_loop (fuel : nat) (env : nat -> wait_env) (t : locks) (vf : vfile_t) (k ty : Z)
    (nonblock : bool) : locks * Z :=
  match fuel with
  | O => (t, - EDEADLK)
  | S fuel =>
      if existsb (bsd_conflicts k vf ty) (g_bsd_flocks t) then
        if nonblock then (t, - EAGAIN)
        else
          let '(t, r) := fs_lock_wait (env fuel) t in
          if r <? 0 then (t, r) else flock_loop fuel env t vf k ty nonblock
      else
        match replace_first (bsd_own k vf) (fun b => b {{ b_type := ty }}) (g_bsd_flocks t) with
        | Some l => (bump (t {{ g_bsd_flocks := l }}) true, 0)
        | None =>
            match replace_first (fun b => negb (b_used b))
                    (fun _ => {| b_used := true; b_key := k; b_owner := vf_addr vf; b_type := ty |})
                    (g_bsd_flocks t) with
            | Some l => (bump (t {{ g_bsd_flocks := l }}) true, 0)
            | None => (t, - ENOLCK)
            end
        end
  end.

Definition fs_flocks_apply (env : nat -> wait_env) (t : locks) (vf : option vfile_t)
    (operation : Z) : locks * Z :=
  match vf with
  | None => (t, - EBADF)
  | Some vf =>
      let op := Z.land operation (Z.lor (Z.lor LOCK_SH LOCK_EX) LOCK_UN) in
      if c_true (Z.land operation (Z.lnot (Z.lor (Z.lor (Z.lor LOCK_SH LOCK_EX) LOCK_NB) LOCK_UN)))
         || (op =? 0)
      then (t, - EINVAL)
      else if c_true (Z.land op (op - 1)) then (t, - EINVAL)
      else
        let k := fs_lock_key vf in
        if op =? LOCK_UN then
          (bump (t {{ g_bsd_flocks := bsd_withdraw (bsd_own k vf) (g_bsd_flocks t) }})
             (existsb (bsd_own k vf) (g_bsd_flocks t)), 0)
        else
          let ty := if op =? LOCK_EX then F_WRLCK else F_RDLCK in
          flock_loop FS_FLOCK_MAX_RETRIES env t vf k ty (c_true (Z.land operation LOCK_NB))
  end.
