(* ===== verification/LockTheory.v ===== *)
(** * File locks: the range algebra

    Ranges as sets of bytes.  Splitting, sorting and merging an owner's
    ranges compute exactly the set the request describes, without overflow
    and within the scratch array; the tables keep conflicting locks apart. *)

From Stdlib Require Import Sorting.Sorted.
From S2P Require Import Prelude Task FileLocks.
From stdpp Require Import list sorting.
#[local] Open Scope Z_scope.

(** ** Pairwise relations on lists *)

Lemma ss_app {A} (R : A -> A -> Prop) l1 l2 :
  StronglySorted R (l1 ++ l2) <->
  StronglySorted R l1 /\ StronglySorted R l2 /\ forall x y, x ∈ l1 -> y ∈ l2 -> R x y.
Proof.
  induction l1 as [|a l1 IH]; simpl.
  - split; [|by intros (_ & ? & _)]. intros H. split; [constructor|]. split; [done|].
    intros x y Hx. by apply not_elem_of_nil in Hx.
  - split.
    + intros [Hs Hf]%StronglySorted_inv. apply IH in Hs as (H1 & H2 & H3).
      apply Forall_app in Hf as [Hf1 Hf2]. split; [by constructor|]. split; [done|].
      intros x y [->|Hx]%elem_of_cons Hy; [|by apply H3]. by eapply list.Forall_forall in Hf2.
    + intros ([H1 Hf]%StronglySorted_inv & H2 & H3). constructor.
      * apply IH. split; [done|]. split; [done|]. intros x y Hx Hy. apply H3; [by right|done].
      * apply Forall_app. split; [done|]. apply list.Forall_forall. intros y Hy. apply H3; [left|done].
Qed.

Lemma ss_perm {A} (R : A -> A -> Prop) l l' : (forall x y, R x y -> R y x) ->
  l ≡ₚ l' -> StronglySorted R l -> StronglySorted R l'.
Proof.
  intros Hsym. induction 1 as [|x l l' Hp IH|x y l|l l2 l' H1 IH1 H2 IH2]; intros Hs.
  - done.
  - apply StronglySorted_inv in Hs as [Hs Hf]. constructor; [by apply IH|]. by rewrite <- Hp.
  - apply StronglySorted_inv in Hs as [[Hs Hf1]%StronglySorted_inv Hf].
    apply Forall_cons in Hf as [Hxy Hf]. constructor; [by constructor|]. constructor; [by apply Hsym|done].
  - by apply IH2, IH1.
Qed.

Lemma ss_filter {A} (R : A -> A -> Prop) (p : A -> bool) l :
  StronglySorted R l -> StronglySorted R (List.filter p l).
Proof.
  induction 1 as [|x l Hs IH Hf]; simpl; [constructor|]. destruct (p x); [|done].
  constructor; [done|]. apply list.Forall_forall. intros y Hy.
  apply list_elem_of_In, filter_In in Hy as [Hy%list_elem_of_In _]. by eapply list.Forall_forall in Hf.
Qed.

Lemma ss_impl {A} (R R' : A -> A -> Prop) l : (forall x y, x ∈ l -> y ∈ l -> R x y -> R' x y) ->
  StronglySorted R l -> StronglySorted R' l.
Proof.
  intros H Hs. induction Hs as [|x l Hs IH Hf]; constructor.
  - apply IH. intros a b Ha Hb. apply H; by right.
  - apply list.Forall_forall. intros y Hy. apply H; [left|by right|]. by eapply list.Forall_forall in Hf.
Qed.

Lemma ss_map {A B} (R : B -> B -> Prop) (f : A -> B) l :
  StronglySorted (fun x y => R (f x) (f y)) l -> StronglySorted R (map f l).
Proof.
  induction 1 as [|x l Hs IH Hf]; simpl; constructor; [done|].
  apply list.Forall_forall. intros y Hy. apply list_elem_of_fmap in Hy as (z & -> & Hz).
  by eapply list.Forall_forall in Hf.
Qed.

(** ** Ranges *)

Definition range_ok (x : fs_lock_range_t) : Prop := 0 <= r_start x <= r_end x /\ r_end x <= I64_MAX.

Definition disjoint_r (x y : fs_lock_range_t) : Prop := r_end x < r_start y \/ r_end y < r_start x.

Definition before (x y : fs_lock_range_t) : Prop := r_end x < r_start y.

(** Byte [b] is in a range of type [ty]. *)
Definition covers (sc : list fs_lock_range_t) (b ty : Z) : Prop :=
  exists x, x ∈ sc /\ r_start x <= b <= r_end x /\ r_type x = ty.

Lemma covers_app l1 l2 b ty : covers (l1 ++ l2) b ty <-> covers l1 b ty \/ covers l2 b ty.
Proof.
  unfold covers. split.
  - intros (x & [H|H]%elem_of_app & Hx); [left|right]; by exists x.
  - intros [(x & H & Hx)|(x & H & Hx)]; exists x; (split; [apply elem_of_app|done]); auto.
Qed.

Lemma covers_perm l l' b ty : l ≡ₚ l' -> covers l b ty <-> covers l' b ty.
Proof. intros Hp. unfold covers. by setoid_rewrite Hp. Qed.

Lemma covers_cons x l b ty :
  covers (x :: l) b ty <-> (r_start x <= b <= r_end x /\ r_type x = ty) \/ covers l b ty.
Proof.
  unfold covers. split.
  - intros (y & [->|H]%elem_of_cons & Hy); [by left|right; by exists y].
  - intros [H|(y & H & Hy)]; [exists x|exists y]; (split; [|done]); [left|by right].
Qed.

Lemma covers_nil b ty : covers [] b ty <-> False.
Proof. unfold covers. split; [|done]. by intros (? & ?%not_elem_of_nil & _). Qed.

(** *** Sorting *)

Lemma sift_perm l x : sift l x ≡ₚ x :: l.
Proof.
  induction l as [|y l IH]; simpl; [done|]. split_if; [|done]. rewrite IH. by apply Permutation_swap.
Qed.

Definition later (x y : fs_lock_range_t) : Prop := r_start y <= r_start x.

Lemma sift_sorted l x : StronglySorted later l -> StronglySorted later (sift l x).
Proof.
  induction 1 as [|y l Hs IH Hf]; simpl; [repeat constructor|].
  destruct (Z.ltb_spec (r_start x) (r_start y)).
  - constructor; [done|]. rewrite sift_perm. constructor; [unfold later; lia|done].
  - constructor; [by constructor|]. constructor; [unfold later; lia|].
    eapply Forall_impl; [exact Hf|]. unfold later. intros z. lia.
Qed.

Lemma fold_sift l acc : fold_left sift l acc ≡ₚ l ++ acc /\
  (StronglySorted later acc -> StronglySorted later (fold_left sift l acc)).
Proof.
  revert acc. induction l as [|x l IH]; intros acc; simpl; [done|].
  destruct (IH (sift acc x)) as [Hp Hs]. split.
  - rewrite Hp, sift_perm. by rewrite Permutation_middle.
  - intros Ha. apply Hs. by apply sift_sorted.
Qed.

Lemma ss_rev {A} (R : A -> A -> Prop) l : StronglySorted R l -> StronglySorted (fun x y => R y x) (rev l).
Proof.
  induction 1 as [|x l Hs IH Hf]; simpl; [constructor|]. apply ss_app. split; [done|].
  split; [repeat constructor|]. intros a b Ha ->%list_elem_of_singleton.
  apply list_elem_of_In, in_rev, list_elem_of_In in Ha. by eapply list.Forall_forall in Hf.
Qed.

(** Sorting disjoint ranges puts each before the next. *)
Lemma insertion_sort_ok l : Forall range_ok l -> StronglySorted disjoint_r l ->
  insertion_sort l ≡ₚ l /\ StronglySorted before (insertion_sort l).
Proof.
  intros Hok Hd. unfold insertion_sort. destruct (fold_sift l []) as [Hp Hs].
  rewrite app_nil_r in Hp. assert (rev (fold_left sift l []) ≡ₚ l) as Hperm.
  { by rewrite <- Permutation_rev. }
  split; [done|].
  assert (StronglySorted disjoint_r (rev (fold_left sift l []))) as Hd'.
  { eapply ss_perm; [|symmetry; exact Hperm|done]. unfold disjoint_r. tauto. }
  assert (Forall range_ok (rev (fold_left sift l []))) as Hok' by (by rewrite Hperm).
  pose proof (ss_rev _ _ (Hs ltac:(constructor))) as Hso.
  revert Hd' Hok' Hso. generalize (rev (fold_left sift l [])). clear. intros l.
  induction l as [|x l IH]; intros Hd Hok Hs; [constructor|].
  apply StronglySorted_inv in Hd as [Hd Hfd], Hs as [Hs Hfs]. apply Forall_cons in Hok as [Hx Hok].
  constructor; [by apply IH|]. apply list.Forall_forall. intros y Hy.
  rewrite list.Forall_forall in Hfd, Hfs, Hok. specialize (Hfd y Hy). specialize (Hfs y Hy).
  specialize (Hok y Hy). unfold disjoint_r, later, before, range_ok in *. lia.
Qed.

(** *** Merging *)

Lemma sadd64_small a b : I64_MIN <= a + b <= I64_MAX -> sadd64 a b = Some (a + b).
Proof. intros H. unfold sadd64. by rewrite !(proj2 (Z.leb_le _ _)) by lia. Qed.

(** Joining two adjacent ranges of one type. *)
Lemma join_ok pre (x y : fs_lock_range_t) post :
  StronglySorted before (pre ++ x :: y :: post) -> Forall range_ok (pre ++ x :: y :: post) ->
  r_type x = r_type y -> r_end x + 1 = r_start y ->
  StronglySorted before (pre ++ (x {{ r_end := r_end y }}) :: post) /\
  Forall range_ok (pre ++ (x {{ r_end := r_end y }}) :: post) /\
  forall b ty, covers (pre ++ (x {{ r_end := r_end y }}) :: post) b ty <->
               covers (pre ++ x :: y :: post) b ty.
Proof.
  intros Hs Hok Ht He. apply ss_app in Hs as (H1 & [[H2 Hy]%StronglySorted_inv Hx]%StronglySorted_inv & H3).
  apply Forall_app in Hok as [Hok1 Hok2]. apply Forall_cons in Hok2 as [Hokx Hok2].
  apply Forall_cons in Hok2 as [Hoky Hok2]. unfold range_ok in Hokx, Hoky.
  split; [|split].
  - apply ss_app. split; [done|]. split.
    + constructor; [done|]. exact Hy.
    + intros a b Ha [->|Hb]%elem_of_cons; [exact (H3 a x Ha ltac:(left))|].
      apply H3; [done|]. right. by right.
  - apply Forall_app. split; [done|]. constructor; [|done].
    change (0 <= r_start x <= r_end y /\ r_end y <= I64_MAX). lia.
  - intros b ty. rewrite !covers_app, !covers_cons. cbn [r_start r_end r_type].
    change (r_start (x {{ r_end := r_end y }})) with (r_start x).
    change (r_end (x {{ r_end := r_end y }})) with (r_end y).
    change (r_type (x {{ r_end := r_end y }})) with (r_type x). rewrite Ht.
    assert (r_start x <= b <= r_end y <-> r_start x <= b <= r_end x \/ r_start y <= b <= r_end y) by lia.
    tauto.
Qed.

Lemma merge_loop_ok sc merged :
  StronglySorted before (rev merged ++ sc) -> Forall range_ok (rev merged ++ sc) ->
  exists out, merge_loop merged sc = Some out /\ StronglySorted before out /\ Forall range_ok out /\
    (forall b ty, covers out b ty <-> covers (rev merged ++ sc) b ty) /\
    (length out <= length merged + length sc)%nat.
Proof.
  revert merged. induction sc as [|x sc IH]; intros merged Hs Hok.
  { cbn [merge_loop]. exists (rev merged). rewrite app_nil_r in *. split; [done|]. split; [done|].
    split; [done|]. split; [done|]. rewrite length_rev. lia. }
  assert (exists out, merge_loop (x :: merged) sc = Some out /\ StronglySorted before out /\
    Forall range_ok out /\ (forall b ty, covers out b ty <-> covers (rev merged ++ x :: sc) b ty) /\
    (length out <= length merged + length (x :: sc))%nat) as Hpush.
  { destruct (IH (x :: merged)) as (out & E & H1 & H2 & H3 & H4);
      [cbn; by rewrite <- app_assoc|cbn; by rewrite <- app_assoc|].
    cbn [rev] in H3. rewrite <- app_assoc in H3. exists out. split; [done|]. split; [done|].
    split; [done|]. split; [done|]. simpl in *. lia. }
  cbn [merge_loop]. destruct merged as [|last rest]; [exact Hpush|]. cbn [merge_step].
  destruct (Z.eqb_spec (r_type last) (r_type x)) as [Ht|]; [|exact Hpush].
  cbn [rev] in Hs, Hok. rewrite <- app_assoc in Hs, Hok. cbn [app] in Hs, Hok.
  assert (r_end last < r_start x /\ range_ok last /\ range_ok x) as (Hlt & Hl & Hx).
  { apply ss_app in Hs as (_ & [_ Hf]%StronglySorted_inv & _). apply Forall_cons in Hf as [Hf _].
    apply Forall_app in Hok as [_ Hok]. apply Forall_cons in Hok as [Hl Hok].
    by apply Forall_cons in Hok as [Hx _]. }
  unfold range_ok, I64_MAX in Hl, Hx.
  rewrite sadd64_small by (unfold I64_MIN, I64_MAX; lia). cbn [mbind option_bind].
  destruct (Z.leb_spec (r_start x) (r_end last + 1)); [|exact Hpush]. cbn [mbind option_bind].
  rewrite (proj2 (Z.ltb_lt (r_end last) (r_end x))) by lia.
  destruct (join_ok (rev rest) last x sc Hs Hok Ht) as (Hs' & Hok' & Hcov); [lia|].
  destruct (IH (last {{ r_end := r_end x }} :: rest)) as (out & E & H1 & H2 & H3 & H4).
  - cbn [rev]. by rewrite <- app_assoc.
  - cbn [rev]. by rewrite <- app_assoc.
  - exists out. split; [done|]. split; [done|]. split; [done|]. split.
    + intros b ty. rewrite H3. cbn [rev]. rewrite <- !app_assoc. apply Hcov.
    + simpl in *. lia.
Qed.

(** *** Subtracting the request *)

Definition lock_ok (h : fs_file_lock) : Prop :=
  (0 <= start h <= end_ h /\ end_ h <= I64_MAX) /\ (type h = F_RDLCK \/ type h = F_WRLCK).

(** What is left of a held range outside [s, e]. *)
Definition minus (s e : Z) (h : fs_file_lock) : list fs_lock_range_t :=
  if (end_ h <? s) || (e <? start h)
  then [{| r_start := start h; r_end := end_ h; r_type := type h |}]
  else (if start h <? s then [{| r_start := start h; r_end := s - 1; r_type := type h |}] else [])
       ++ (if e <? end_ h then [{| r_start := e + 1; r_end := end_ h; r_type := type h |}] else []).

Lemma push_range_ok sc x : (length sc <= 512)%nat -> push sc x = Some (sc ++ [x]).
Proof.
  intros H. unfold push, FS_LOCK_SCRATCH_MAX, FS_FILE_LOCK_MAX. by rewrite (proj2 (Z.ltb_lt _ _)) by lia.
Qed.

Lemma subtract_ok s e sc h : 0 <= s <= e -> e <= I64_MAX -> lock_ok h -> (length sc <= 511)%nat ->
  subtract s e sc h = Some (sc ++ minus s e h).
Proof.
  intros Hs He [Hh _] Hlen. unfold subtract, minus, I64_MAX in *. split_if; [apply push_range_ok; lia|].
  reflect. destruct (Z.ltb_spec (start h) s).
  - rewrite (sadd64_small s (-1)) by (unfold I64_MIN, I64_MAX; lia). cbn [mbind option_bind].
    rewrite push_range_ok by lia. cbn [mbind option_bind]. destruct (Z.ltb_spec e (end_ h)).
    + rewrite (sadd64_small e 1) by (unfold I64_MIN, I64_MAX; lia). cbn [mbind option_bind].
      rewrite push_range_ok by (rewrite length_app; simpl; lia). by rewrite <- app_assoc.
    + by rewrite app_nil_r.
  - cbn [mbind option_bind app]. destruct (Z.ltb_spec e (end_ h)).
    + rewrite (sadd64_small e 1) by (unfold I64_MIN, I64_MAX; lia). cbn [mbind option_bind].
      apply push_range_ok. lia.
    + by rewrite app_nil_r.
Qed.

Lemma minus_length s e h : (length (minus s e h) <= 2)%nat.
Proof. unfold minus. repeat split_if; simpl; lia. Qed.

Lemma flat_minus_length s e l : (length (flat_map (minus s e) l) <= 2 * length l)%nat.
Proof.
  induction l as [|h l IH]; simpl; [lia|]. rewrite length_app. pose proof (minus_length s e h). lia.
Qed.

Lemma collect_ranges_ok l k kind own s e n sc : 0 <= s <= e -> e <= I64_MAX ->
  Forall lock_ok (List.filter (own_on_file k kind own) l) ->
  (length sc + 2 * length (List.filter (own_on_file k kind own) l) <= 512)%nat ->
  collect l k kind own s e n sc =
  Some (n + Z.of_nat (length (List.filter (own_on_file k kind own) l)),
        sc ++ flat_map (minus s e) (List.filter (own_on_file k kind own) l)).
Proof.
  intros Hs He. revert n sc. induction l as [|h l IH]; intros n sc Hok Hlen; simpl in *.
  { by rewrite Z.add_0_r, app_nil_r. }
  destruct (own_on_file k kind own h); [|by apply IH].
  apply Forall_cons in Hok as [Hh Hok]. simpl in *. pose proof (minus_length s e h).
  rewrite subtract_ok by (done || lia). cbn [mbind option_bind].
  rewrite IH; [|done|rewrite length_app; lia]. rewrite <- app_assoc. do 2 f_equal. lia.
Qed.

(** The pieces lie within the held range and outside the request. *)
Lemma minus_ok s e h x : 0 <= s <= e -> e <= I64_MAX -> lock_ok h -> x ∈ minus s e h ->
  range_ok x /\ start h <= r_start x /\ r_end x <= end_ h /\ r_type x = type h /\
  (r_end x < s \/ e < r_start x).
Proof.
  intros Hs He [Hh _]. unfold minus, range_ok, I64_MAX in *. split_if; reflect.
  - intros ->%list_elem_of_singleton. cbn. apply orb_prop in E as [E|E]; reflect; lia.
  - intros [Hx|Hx]%elem_of_app; revert Hx; split_if; reflect; intros Hx;
      try (by apply not_elem_of_nil in Hx); apply list_elem_of_singleton in Hx as ->; cbn; lia.
Qed.

Lemma minus_covers s e h b ty : 0 <= s <= e -> lock_ok h ->
  covers (minus s e h) b ty <-> (start h <= b <= end_ h /\ type h = ty) /\ ~ (s <= b <= e).
Proof.
  intros Hs [Hh _]. unfold minus. split_if.
  - rewrite covers_cons, covers_nil. cbn. apply orb_prop in E as [E|E]; reflect; lia.
  - reflect. rewrite covers_app.
    assert (covers (if start h <? s then [{| r_start := start h; r_end := s - 1; r_type := type h |}] else []) b ty
      <-> start h <= b < s /\ type h = ty) as ->.
    { split_if; reflect; rewrite ?covers_cons, ?covers_nil; cbn; lia. }
    assert (covers (if e <? end_ h then [{| r_start := e + 1; r_end := end_ h; r_type := type h |}] else []) b ty
      <-> e < b <= end_ h /\ type h = ty) as ->.
    { split_if; reflect; rewrite ?covers_cons, ?covers_nil; cbn; lia. }
    lia.
Qed.

Definition disjoint_l (x y : fs_file_lock) : Prop := end_ x < start y \/ end_ y < start x.

#[global] Instance disjoint_l_dec x y : Decision (disjoint_l x y).
Proof. unfold disjoint_l. apply _. Defined.

Lemma minus_disjoint s e h : 0 <= s <= e -> lock_ok h -> StronglySorted disjoint_r (minus s e h).
Proof.
  intros Hs [Hh _]. unfold minus. split_if; [repeat constructor|]. reflect.
  repeat split_if; reflect; cbn [app]; repeat constructor. unfold disjoint_r. cbn. lia.
Qed.

Lemma elem_of_flat_map {A B} (f : A -> list B) l x : x ∈ flat_map f l <-> exists y, y ∈ l /\ x ∈ f y.
Proof.
  rewrite list_elem_of_In, in_flat_map. split.
  - intros (y & H1%list_elem_of_In & H2%list_elem_of_In). by exists y.
  - intros (y & H1%list_elem_of_In & H2%list_elem_of_In). by exists y.
Qed.

Lemma flat_minus_ok s e l : 0 <= s <= e -> e <= I64_MAX -> Forall lock_ok l ->
  StronglySorted disjoint_l l ->
  Forall range_ok (flat_map (minus s e) l) /\ StronglySorted disjoint_r (flat_map (minus s e) l).
Proof.
  intros Hs He Hok Hd. split.
  - apply list.Forall_forall. intros x (h & Hh & Hx)%elem_of_flat_map.
    rewrite list.Forall_forall in Hok. by apply (minus_ok s e h x Hs He (Hok h Hh)).
  - induction l as [|h l IH]; simpl; [constructor|].
    apply Forall_cons in Hok as [Hh Hok]. apply StronglySorted_inv in Hd as [Hd Hf].
    apply ss_app. split; [by apply minus_disjoint|]. split; [by apply IH|].
    intros x y Hx (g & Hg & Hy)%elem_of_flat_map. rewrite list.Forall_forall in Hf, Hok.
    destruct (minus_ok s e h x Hs He Hh Hx) as (_ & ? & ? & _).
    destruct (minus_ok s e g y Hs He (Hok g Hg) Hy) as (_ & ? & ? & _).
    specialize (Hf g Hg). unfold disjoint_l, disjoint_r in *. lia.
Qed.

Lemma flat_minus_covers s e l b ty : 0 <= s <= e -> Forall lock_ok l ->
  covers (flat_map (minus s e) l) b ty <->
  (exists h, h ∈ l /\ start h <= b <= end_ h /\ type h = ty) /\ ~ (s <= b <= e).
Proof.
  intros Hs. induction l as [|h l IH]; intros Hok; simpl.
  - rewrite covers_nil. split; [done|]. by intros [(h & ?%not_elem_of_nil & _) _].
  - apply Forall_cons in Hok as [Hh Hok]. rewrite covers_app, minus_covers, IH by done. split.
    + intros [[H1 H2]|[(g & Hg & H1) H2]]; (split; [|done]); [exists h|exists g]; (split; [|done]);
        [left|by right].
    + intros [(g & [->|Hg]%elem_of_cons & H1) H2]; [by left|right]. split; [by exists g|done].
Qed.

(** ** The table *)

Definition active (l : list fs_file_lock) : list fs_file_lock := List.filter used l.

Definition same_owner (x y : fs_file_lock) : Prop := owner_kind x = owner_kind y /\ owner x = owner y.

(** Two entries may be in the table together: on different files, on
    different bytes, or read locks of different owners. *)
Definition compat (x y : fs_file_lock) : Prop :=
  key x <> key y \/ disjoint_l x y \/ (~ same_owner x y /\ type x = F_RDLCK /\ type y = F_RDLCK).

Record table_ok (l : list fs_file_lock) : Prop := {
  to_len : Z.of_nat (length l) = FS_FILE_LOCK_MAX;
  to_ok : Forall lock_ok (active l);
  to_sep : StronglySorted compat (active l);
}.

(** The owner holds a lock of type [ty] on byte [b] of file [k]. *)
Definition holds (l : list fs_file_lock) (k kind own b ty : Z) : Prop :=
  exists h, h ∈ active l /\ key h = k /\ owner_kind h = kind /\ owner h = own /\
    start h <= b <= end_ h /\ type h = ty.

Definition entry_of (k kind own : Z) (x : fs_lock_range_t) : fs_file_lock :=
  {| used := true; owner_kind := kind; key := k; owner := own;
     type := r_type x; start := r_start x; end_ := r_end x |}.

Lemma compat_sym x y : compat x y -> compat y x.
Proof.
  unfold compat, disjoint_l, same_owner. intros [H|[H|(H & H1 & H2)]].
  - left. congruence.
  - right; left. tauto.
  - right; right. split; [|done]. intros [? ?]. by apply H.
Qed.

Lemma elem_of_filter {A} (p : A -> bool) l x : x ∈ List.filter p l <-> x ∈ l /\ p x = true.
Proof. by rewrite !list_elem_of_In, filter_In. Qed.

Lemma filter_own l k kind own :
  List.filter (own_on_file k kind own) l = List.filter (own_on_file k kind own) (active l).
Proof.
  unfold active. induction l as [|h l IH]; simpl; [done|]. destruct (used h) eqn:E; simpl.
  - by rewrite IH.
  - rewrite IH. unfold own_on_file. by rewrite E.
Qed.

Lemma own_spec k kind own h : own_on_file k kind own h = true <->
  used h = true /\ key h = k /\ owner_kind h = kind /\ owner h = own.
Proof. unfold own_on_file. rewrite !andb_true_iff, !Z.eqb_eq. tauto. Qed.

Lemma active_withdraw p l : (forall h, p h = true -> used h = true) ->
  active (withdraw p l) = List.filter (fun h => negb (p h)) (active l).
Proof.
  intros Hp. unfold active, withdraw. induction l as [|h l IH]; [done|]. cbn [map List.filter].
  destruct (p h) eqn:E.
  - change (used (h {{ used := false }})) with false. rewrite (Hp h E). cbn [List.filter].
    by rewrite E, IH.
  - destruct (used h) eqn:Eu; [|done]. cbn [List.filter]. by rewrite E, IH.
Qed.

Lemma withdraw_length p l : length (withdraw p l) = length l.
Proof. apply length_map. Qed.

Lemma active_write_back l k kind own sc :
  (length (active l) + length sc <= length l)%nat ->
  active (write_back l k kind own sc) ≡ₚ active l ++ map (entry_of k kind own) sc /\
  length (write_back l k kind own sc) = length l.
Proof.
  revert sc. induction l as [|h l IH]; intros sc Hlen; simpl in *.
  { destruct sc; [done|]. simpl in Hlen. lia. }
  destruct sc as [|x sc].
  { split; [|done]. simpl. by rewrite app_nil_r. }
  unfold active in *. simpl in *. destruct (used h) eqn:E; simpl in *.
  - destruct (IH (x :: sc)) as [H1 H2]; [simpl; lia|]. rewrite E. split; [|by rewrite H2].
    by rewrite H1.
  - destruct (IH sc) as [H1 H2]; [lia|]. split; [|by rewrite H2]. rewrite H1. by rewrite <- Permutation_middle.
Qed.

Lemma filter_partition {A} (p : A -> bool) l :
  (length (List.filter p l) + length (List.filter (fun x => negb (p x)) l) = length l)%nat.
Proof. induction l as [|x l IH]; simpl; [done|]. destruct (p x); simpl; lia. Qed.

Lemma own_disjoint l k kind own : table_ok l ->
  StronglySorted disjoint_l (List.filter (own_on_file k kind own) l).
Proof.
  intros Ht. rewrite filter_own. eapply ss_impl; [|apply ss_filter, (to_sep l Ht)].
  intros x y [_ Hx]%elem_of_filter [_ Hy]%elem_of_filter.
  apply own_spec in Hx as (_ & <- & <- & <-), Hy as (_ & Hk & Hkind & Hown).
  intros [H|[H|(H & _)]]; [congruence|done|]. destruct H. split; congruence.
Qed.

Lemma own_ok l k kind own : table_ok l -> Forall lock_ok (List.filter (own_on_file k kind own) l).
Proof.
  intros Ht. rewrite filter_own. apply list.Forall_forall. intros x [Hx _]%elem_of_filter.
  pose proof (to_ok l Ht) as H. rewrite list.Forall_forall in H. by apply H.
Qed.

Lemma ss_compat l x y : StronglySorted compat l -> x ∈ l -> y ∈ l -> x <> y -> compat x y.
Proof.
  induction 1 as [|a l Hs IH Hf]; intros Hx Hy Hne; [by apply not_elem_of_nil in Hx|].
  rewrite list.Forall_forall in Hf.
  apply elem_of_cons in Hx as [->|Hx], Hy as [->|Hy]; [done|by apply Hf|apply compat_sym; by apply Hf|by apply IH].
Qed.

(** ** Replacing an owner's locks on a range *)

Definition type_ok (ty : Z) : Prop := ty = F_RDLCK \/ ty = F_WRLCK \/ ty = F_UNLCK.

(** The request as a range, none for an unlock. *)
Definition wanted (ty s e : Z) : list fs_lock_range_t :=
  if negb (ty =? F_UNLCK) then [{| r_start := s; r_end := e; r_type := ty |}] else [].

Lemma wanted_covers ty s e b ty' :
  covers (wanted ty s e) b ty' <-> s <= b <= e /\ ty <> F_UNLCK /\ ty' = ty.
Proof.
  unfold wanted. destruct (Z.eqb_spec ty F_UNLCK); cbn [negb]; rewrite ?covers_cons, ?covers_nil; cbn;
    intuition congruence.
Qed.

(** Only one of the owner's ranges can be cut in two. *)
Lemma flat_minus_short s e l : s <= e -> StronglySorted disjoint_l l ->
  (length (flat_map (minus s e) l) <= length l + 1)%nat.
Proof.
  intros Hse. induction 1 as [|h l Hd IH Hf]; [simpl; lia|]. cbn [flat_map]. rewrite length_app. simpl length.
  destruct (decide (start h < s /\ e < end_ h)) as [Hh|Hh].
  - pose proof (minus_length s e h).
    assert (length (flat_map (minus s e) l) <= length l)%nat; [|lia]. clear IH Hd.
    induction Hf as [|x l Hx _ IH]; [simpl; lia|]. cbn [flat_map]. rewrite length_app. simpl length.
    assert (length (minus s e x) <= 1)%nat; [|lia]. unfold disjoint_l in Hx. unfold minus.
    destruct (Z.ltb_spec (end_ x) s), (Z.ltb_spec e (start x)), (Z.ltb_spec (start x) s),
      (Z.ltb_spec e (end_ x)); cbn; lia.
  - assert (length (minus s e h) <= 1)%nat; [|lia]. unfold minus.
    destruct (Z.ltb_spec (end_ h) s), (Z.ltb_spec e (start h)), (Z.ltb_spec (start h) s),
      (Z.ltb_spec e (end_ h)); cbn; lia.
Qed.

(** The ranges after the algebra. *)
Lemma algebra_ok l k kind own ty s e : table_ok l -> 0 <= s <= e -> e <= I64_MAX ->
  exists merged,
    ('(n, sc) ← collect l k kind own s e 0 [];
     sc ← (if negb (ty =? F_UNLCK) then push sc {| r_start := s; r_end := e; r_type := ty |} else Some sc);
     m ← merge_loop [] (insertion_sort sc); Some (n, m)) =
    Some (Z.of_nat (length (List.filter (own_on_file k kind own) l)), merged) /\
    StronglySorted before merged /\ Forall range_ok merged /\
    (forall b ty', covers merged b ty' <->
       covers (wanted ty s e) b ty' \/
       (exists h, h ∈ List.filter (own_on_file k kind own) l /\ start h <= b <= end_ h /\ type h = ty')
       /\ ~ (s <= b <= e)) /\
    (length merged <= length (List.filter (own_on_file k kind own) l) + 2)%nat.
Proof.
  intros Ht Hs He. set (mine := List.filter (own_on_file k kind own) l).
  pose proof (own_ok l k kind own Ht) as Hok. pose proof (own_disjoint l k kind own Ht) as Hd. fold mine in Hok, Hd.
  assert (length mine <= 256)%nat as Hlen.
  { pose proof (filter_length_le (own_on_file k kind own) l). pose proof (to_len l Ht).
    unfold FS_FILE_LOCK_MAX in *. subst mine. lia. }
  rewrite (collect_ranges_ok l k kind own s e 0 []) by (done || (simpl; fold mine; lia)).
  cbn [mbind option_bind app]. fold mine. pose proof (flat_minus_length s e mine).
  assert ((if negb (ty =? F_UNLCK) then push (flat_map (minus s e) mine) {| r_start := s; r_end := e; r_type := ty |}
           else Some (flat_map (minus s e) mine)) = Some (flat_map (minus s e) mine ++ wanted ty s e)) as ->.
  { unfold wanted. destruct (negb _); [apply push_range_ok; lia|by rewrite app_nil_r]. }
  cbn [mbind option_bind]. destruct (flat_minus_ok s e mine Hs He Hok Hd) as [Hrok Hrd].
  assert (Forall range_ok (flat_map (minus s e) mine ++ wanted ty s e)) as Hrok'.
  { apply Forall_app. split; [done|]. unfold wanted. split_if; repeat constructor; cbn; lia. }
  assert (StronglySorted disjoint_r (flat_map (minus s e) mine ++ wanted ty s e)) as Hrd'.
  { apply ss_app. split; [done|]. split; [unfold wanted; split_if; repeat constructor|].
    intros x y (h & Hh & Hx)%elem_of_flat_map Hy. rewrite list.Forall_forall in Hok.
    destruct (minus_ok s e h x Hs He (Hok h Hh) Hx) as (_ & _ & _ & _ & Hout).
    unfold wanted in Hy. destruct (negb _); [|by apply not_elem_of_nil in Hy].
    apply list_elem_of_singleton in Hy as ->. unfold disjoint_r. cbn. lia. }
  destruct (insertion_sort_ok _ Hrok' Hrd') as [Hperm Hsorted].
  destruct (merge_loop_ok (insertion_sort (flat_map (minus s e) mine ++ wanted ty s e)) [])
    as (merged & -> & H1 & H2 & H3 & H4); [done|cbn; by rewrite Hperm|].
  cbn [mbind option_bind]. exists merged. split; [done|]. split; [done|]. split; [done|].
  split.
  2: { rewrite (Permutation_length Hperm), length_app in H4. pose proof (flat_minus_short s e mine ltac:(lia) Hd).
       assert (length (wanted ty s e) <= 1)%nat by (unfold wanted; split_if; simpl; lia). simpl in H4. lia. }
  intros b ty'. rewrite H3. cbn [rev app]. rewrite (covers_perm _ _ _ _ Hperm), covers_app.
  rewrite flat_minus_covers by done. tauto.
Qed.

(** The bytes another owner's entry shares with the result are read locks on
    both sides. *)
Definition others_share (l : list fs_file_lock) (k kind own ty s e : Z) : Prop :=
  forall h, h ∈ active l -> fs_lock_conflicts h k kind own ty s e = false.

Lemma first_conflict_None l k kind own ty s e :
  first_conflict l k kind own ty s e = None <-> others_share l k kind own ty s e.
Proof.
  unfold first_conflict, others_share. split.
  - intros H h [Hh _]%elem_of_filter. eapply find_none in H; [exact H|]. by apply list_elem_of_In.
  - intros H. destruct (List.find _ l) as [h|] eqn:E; [|done]. apply find_some in E as [Hin Hc].
    rewrite H in Hc; [done|]. apply elem_of_filter. split; [by apply list_elem_of_In|].
    unfold fs_lock_conflicts in Hc. by destruct (used h).
Qed.

Lemma conflicts_false h k kind own ty s e b : used h = true -> key h = k ->
  ~ (owner_kind h = kind /\ owner h = own) -> start h <= b <= end_ h -> s <= b <= e ->
  fs_lock_conflicts h k kind own ty s e = false -> type h = F_RDLCK /\ ty = F_RDLCK.
Proof.
  intros Hu Hk Ho Hb Hr. unfold fs_lock_conflicts, fs_lock_overlaps. rewrite Hu, Hk, Z.eqb_refl. cbn [negb orb].
  assert ((owner_kind h =? kind) && (owner h =? own) = false) as ->.
  { apply not_true_is_false. rewrite andb_true_iff, !Z.eqb_eq. tauto. }
  rewrite !(proj2 (Z.leb_le _ _)) by lia. cbn [andb negb].
  destruct ((type h =? F_RDLCK) && (ty =? F_RDLCK)) eqn:E; [|done]. by reflect.
Qed.

(** The owner's locks on [s, e] are replaced, everything else is as before. *)
Definition replaced (l l' : list fs_file_lock) (k kind own ty s e : Z) : Prop :=
  forall k' kind' own' b ty', holds l' k' kind' own' b ty' <->
    if decide (k' = k /\ kind' = kind /\ own' = own /\ s <= b <= e)
    then ty <> F_UNLCK /\ ty' = ty
    else holds l k' kind' own' b ty'.

Section replace.
  Context (l : list fs_file_lock) (k kind own ty s e : Z) (merged : list fs_lock_range_t).
  Context (Ht : table_ok l) (Hs : 0 <= s <= e) (He : e <= I64_MAX) (Hty : type_ok ty).
  Context (Hshare : ty <> F_UNLCK -> others_share l k kind own ty s e).
  Context (Hsorted : StronglySorted before merged) (Hrok : Forall range_ok merged).
  Context (Hcov : forall b ty', covers merged b ty' <->
       covers (wanted ty s e) b ty' \/
       (exists h, h ∈ List.filter (own_on_file k kind own) l /\ start h <= b <= end_ h /\ type h = ty')
       /\ ~ (s <= b <= e)).
  Context (l' : list fs_file_lock).
  Context (Hlen : length l' = length l).
  Context (Hact : active l' ≡ₚ List.filter (fun h => negb (own_on_file k kind own h)) (active l)
                               ++ map (entry_of k kind own) merged).

(** Where a byte of a new range comes from. *)
Lemma new_byte x b : x ∈ merged -> r_start x <= b <= r_end x ->
  (s <= b <= e /\ r_type x = ty /\ ty <> F_UNLCK) \/
  (exists h, h ∈ active l /\ own_on_file k kind own h = true /\ start h <= b <= end_ h /\ type h = r_type x).
Proof.
  intros Hx Hb. destruct (proj1 (Hcov b (r_type x))) as [H|[(h & Hh & H1 & H2) _]].
  - by exists x.
  - apply wanted_covers in H as (H1 & H2 & H3). by left.
  - right. rewrite filter_own in Hh. apply elem_of_filter in Hh as [Hh Ho]. by exists h.
Qed.

Lemma new_ok : Forall lock_ok (map (entry_of k kind own) merged).
Proof.
  apply list.Forall_forall. intros y (x & -> & Hx)%list_elem_of_fmap. rewrite list.Forall_forall in Hrok.
  pose proof (Hrok x Hx) as Hr. unfold range_ok in Hr. split; [cbn; lia|]. cbn.
  destruct (new_byte x (r_start x) Hx ltac:(lia)) as [(_ & -> & Hn)|(h & Hh & _ & _ & <-)].
  - destruct Hty as [|[|]]; [by left|by right|done].
  - pose proof (to_ok l Ht) as H. rewrite list.Forall_forall in H. by destruct (H h Hh).
Qed.

Lemma new_cross x y : x ∈ active l -> own_on_file k kind own x = false -> y ∈ merged ->
  compat x (entry_of k kind own y).
Proof.
  intros Hx Hno Hy. rewrite list.Forall_forall in Hrok. pose proof (Hrok y Hy) as Hr.
  pose proof (to_ok l Ht) as Hall. rewrite list.Forall_forall in Hall. destruct (Hall x Hx) as [Hxr _].
  unfold range_ok in Hr. destruct (decide (key x = k)) as [Hk|]; [|by left]. right.
  assert (used x = true) as Hu by (by apply elem_of_filter in Hx as [_ ?]).
  assert (~ (owner_kind x = kind /\ owner x = own)) as Hdiff.
  { intros [Ek Eo]. by rewrite (proj2 (own_spec k kind own x)) in Hno. }
  destruct (decide (disjoint_l x (entry_of k kind own y))) as [|Hov]; [by left|]. right.
  split; [exact Hdiff|]. unfold disjoint_l in Hov. cbn in Hov |- *.
  set (b := Z.max (start x) (r_start y)). assert (start x <= b <= end_ x /\ r_start y <= b <= r_end y) as [Hb1 Hb2] by lia.
  destruct (new_byte y b Hy Hb2) as [(Hb & -> & Hn)|(h & Hh & Hoh & Hb & <-)].
  - eapply conflicts_false; [done|done|done|exact Hb1|exact Hb|]. by apply Hshare.
  - apply own_spec in Hoh as (_ & Ehk & Ehkind & Eho).
    assert (x <> h) as Hne by (intros ->; by apply Hdiff).
    destruct (ss_compat _ x h (to_sep l Ht) Hx Hh Hne) as [H|[H|(_ & H)]]; [congruence| |done].
    unfold disjoint_l in H. lia.
Qed.

Lemma replace_table_ok : table_ok l'.
Proof.
  constructor.
  - rewrite Hlen. apply Ht.
  - rewrite Hact. apply Forall_app. split; [|apply new_ok].
    apply list.Forall_forall. intros x [Hx _]%elem_of_filter.
    pose proof (to_ok l Ht) as H. rewrite list.Forall_forall in H. by apply H.
  - eapply ss_perm; [apply compat_sym|symmetry; exact Hact|]. apply ss_app. split; [apply ss_filter, Ht|]. split.
    + apply ss_map. eapply ss_impl; [|exact Hsorted]. intros x y _ _ Hb. right; left. left. exact Hb.
    + intros x z [Hx Hno%negb_true_iff]%elem_of_filter (y & -> & Hy)%list_elem_of_fmap. by apply new_cross.
Qed.

Lemma replace_holds : replaced l l' k kind own ty s e.
Proof.
  intros k' kind' own' b ty'. unfold holds. setoid_rewrite Hact. setoid_rewrite elem_of_app.
  assert ((exists h, (h ∈ List.filter (fun h => negb (own_on_file k kind own h)) (active l) \/
                      h ∈ map (entry_of k kind own) merged) /\ key h = k' /\ owner_kind h = kind' /\
                     owner h = own' /\ start h <= b <= end_ h /\ type h = ty') <->
    (exists h, h ∈ active l /\ own_on_file k kind own h = false /\ key h = k' /\ owner_kind h = kind' /\
               owner h = own' /\ start h <= b <= end_ h /\ type h = ty') \/
    ((k' = k /\ kind' = kind /\ own' = own) /\ covers merged b ty')) as ->.
  { split.
    - intros (h & [[H1 H2%negb_true_iff]%elem_of_filter|(x & -> & Hx)%list_elem_of_fmap] & H3).
      + left. exists h. tauto.
      + right. destruct H3 as (<- & <- & <- & H3 & H4). split; [done|]. by exists x.
    - intros [(h & H1 & H2 & H3)|((-> & -> & ->) & (x & Hx & H3 & H4))].
      + exists h. split; [left|tauto]. apply elem_of_filter. by rewrite H2.
      + exists (entry_of k kind own x). split; [right|done]. apply list_elem_of_fmap. by exists x. }
  rewrite Hcov, wanted_covers. case_decide as Hd.
  - destruct Hd as (-> & -> & -> & Hb). split; [|intros [? ->]; right; split; [done|left; done]].
    intros [(h & Hh & Hno & Hk & Hkd & Ho & _)|[_ [(_ & H)|[_ H]]]]; [|done|done].
    rewrite (proj2 (own_spec k kind own h)) in Hno; [done|]. by apply elem_of_filter in Hh as [_ ->].
  - split.
    + intros [(h & H1 & _ & H2)|[(-> & -> & ->) [(H & _)|[(h & Hh & H1 & H2) _]]]].
      * by exists h.
      * tauto.
      * rewrite filter_own in Hh. apply elem_of_filter in Hh as [Hh Ho].
        apply own_spec in Ho as (_ & H3 & H4 & H5). exists h. tauto.
    + intros (h & Hh & H1 & H2 & H3 & H4 & H5). destruct (own_on_file k kind own h) eqn:Eo.
      * right. pose proof (proj1 (own_spec k kind own h) Eo) as (_ & Ek & Ekd & Ew).
        assert (k' = k /\ kind' = kind /\ own' = own) as Hsame by (repeat split; congruence).
        split; [done|]. right. split; [|tauto]. exists h. split; [|tauto].
        rewrite filter_own. by apply elem_of_filter.
      * left. exists h. tauto.
Qed.
End replace.

(** Steps 2 to 5 of the set operation. *)
Definition algebra (l : list fs_file_lock) (k kind own ty s e : Z) : option (Z * list fs_lock_range_t) :=
  '(n, sc) ← collect l k kind own s e 0 [];
  sc ← (if negb (ty =? F_UNLCK) then push sc {| r_start := s; r_end := e; r_type := ty |} else Some sc);
  m ← merge_loop [] (insertion_sort sc); Some (n, m).

Lemma replace_range_algebra t k kind own ty s e :
  replace_range t k kind own ty s e =
  '(own_count, merged) ← algebra (g_file_locks t) k kind own ty s e;
  if FS_FILE_LOCK_MAX <? count_used (g_file_locks t) - own_count + Z.of_nat (length merged)
  then Some (t, - ENOLCK)
  else
    let l := withdraw (own_on_file k kind own) (g_file_locks t) in
    let t := t {{ g_file_locks := write_back l k kind own merged }} in
    Some (bump t (negb (own_count =? 0) || (ty =? F_UNLCK)), 0).
Proof.
  unfold replace_range, algebra. destruct (collect _ _ _ _ _ _ _ _) as [[n sc]|]; [|done].
  cbn [mbind option_bind]. destruct (if negb (ty =? F_UNLCK) then _ else _) as [sc'|]; [|done].
  cbn [mbind option_bind]. by destruct (merge_loop [] (insertion_sort sc')).
Qed.

Lemma bump_locks t b : g_file_locks (bump t b) = g_file_locks t.
Proof. unfold bump. by split_if. Qed.
Lemma bump_bsd t b : g_bsd_flocks (bump t b) = g_bsd_flocks t.
Proof. unfold bump. by split_if. Qed.

(** A set operation that meets no conflict. *)
Lemma replace_range_ok t k kind own ty s e : table_ok (g_file_locks t) ->
  0 <= s <= e -> e <= I64_MAX -> type_ok ty ->
  (ty <> F_UNLCK -> others_share (g_file_locks t) k kind own ty s e) ->
  (replace_range t k kind own ty s e = Some (t, - ENOLCK) /\
     FS_FILE_LOCK_MAX < count_used (g_file_locks t) + 2) \/
  (exists t', replace_range t k kind own ty s e = Some (t', 0) /\ table_ok (g_file_locks t') /\
     replaced (g_file_locks t) (g_file_locks t') k kind own ty s e /\
     g_bsd_flocks t' = g_bsd_flocks t).
Proof.
  intros Ht Hs He Hty Hsh. rewrite replace_range_algebra.
  destruct (algebra_ok (g_file_locks t) k kind own ty s e Ht Hs He) as (merged & Ea & Hso & Hrok & Hcov & Hml).
  fold (algebra (g_file_locks t) k kind own ty s e) in Ea. rewrite Ea. cbn [mbind option_bind].
  destruct (Z.ltb_spec FS_FILE_LOCK_MAX (count_used (g_file_locks t) -
    Z.of_nat (length (List.filter (own_on_file k kind own) (g_file_locks t))) + Z.of_nat (length merged)))
    as [Hfull|Hfit]; [left; split; [done|lia]|right].
  assert (forall h, own_on_file k kind own h = true -> used h = true) as Hused
    by (intros h H; by apply own_spec in H as [? _]).
  pose proof (active_withdraw _ (g_file_locks t) Hused) as Haw.
  destruct (active_write_back (withdraw (own_on_file k kind own) (g_file_locks t)) k kind own merged)
    as [Hact Hlen].
  { rewrite Haw, withdraw_length. pose proof (to_len _ Ht). rewrite filter_own in Hfit.
    pose proof (filter_partition (own_on_file k kind own) (active (g_file_locks t))).
    unfold count_used in Hfit. fold (active (g_file_locks t)) in Hfit. lia. }
  rewrite withdraw_length in Hlen. rewrite Haw in Hact.
  eexists. split; [done|]. rewrite bump_locks, bump_bsd. split; [|split; [|done]].
  - by eapply replace_table_ok.
  - by eapply replace_holds.
Qed.

(** The bytes of the range are free for the owner: whoever else holds one of
    them has a read lock, and a read lock is wanted. *)
Definition free_for (l : list fs_file_lock) (k kind own ty s e : Z) : Prop :=
  forall kind' own' b ty', holds l k kind' own' b ty' -> s <= b <= e ->
    kind' = kind /\ own' = own \/ ty' = F_RDLCK /\ ty = F_RDLCK.

Lemma others_share_free l k kind own ty s e : table_ok l -> s <= e ->
  others_share l k kind own ty s e <-> free_for l k kind own ty s e.
Proof.
  intros Ht Hse. split.
  - intros H kind' own' b ty' (h & Hh & <- & <- & <- & Hb & <-) Hr. specialize (H h Hh).
    unfold fs_lock_conflicts, fs_lock_overlaps in H. apply elem_of_filter in Hh as [_ Hu].
    rewrite Hu, Z.eqb_refl in H. cbn [negb orb] in H.
    destruct ((owner_kind h =? kind) && (owner h =? own)) eqn:E1; [left; by reflect|right].
    rewrite (proj2 (Z.leb_le _ _)), (proj2 (Z.leb_le _ _)) in H by lia. cbn [andb negb] in H.
    destruct ((type h =? F_RDLCK) && (ty =? F_RDLCK)) eqn:E2; [by reflect|done].
  - intros H h Hh. pose proof (to_ok _ Ht) as Hok. rewrite list.Forall_forall in Hok. destruct (Hok h Hh) as [Hr _].
    unfold fs_lock_conflicts, fs_lock_overlaps.
    destruct (negb (used h) || negb (key h =? k)) eqn:E0; [done|].
    destruct ((owner_kind h =? kind) && (owner h =? own)) eqn:E1; [done|].
    destruct ((start h <=? e) && (s <=? end_ h)) eqn:E2; cbn [negb]; [|done].
    destruct ((type h =? F_RDLCK) && (ty =? F_RDLCK)) eqn:E3; [done|]. exfalso.
    apply orb_false_iff in E0 as [_ E0%negb_false_iff]. reflect.
    destruct (H (owner_kind h) (owner h) (Z.max s (start h)) (type h)) as [[Hk Ho]|[F1 F2]].
    + exists h. repeat split; try done; lia.
    + lia.
    + rewrite Hk, Ho, !Z.eqb_refl in E1. done.
    + rewrite F1, F2, !Z.eqb_refl in E3. done.
Qed.

Lemma lock_range_ok vf lk s e : fs_lock_range vf lk = Some (inr (s, e)) ->
  0 <= s <= e /\ e <= I64_MAX.
Proof.
  unfold fs_lock_range. destruct vf as [vf|]; [|done].
  match goal with |- context [match ?b with Some _ => _ | None => _ end] => destruct b as [base|] end; [|done].
  destruct (sadd64 base (l_start lk)) as [s0|] eqn:Eb; [|done]. cbn [mbind option_bind].
  assert (forall a b c, sadd64 a b = Some c -> c = a + b /\ c <= I64_MAX) as Hadd.
  { intros a b c. unfold sadd64. split_if; [|done]. reflect. by intros [= <-]. }
  destruct (Z.eqb_spec (l_len lk) 0); cbn [mbind option_bind].
  { split_if; [done|]. reflect. intros [= <- <-]. apply Hadd in Eb. lia. }
  destruct (Z.ltb_spec 0 (l_len lk)).
  - destruct (sadd64 s0 (l_len lk)) as [e0|] eqn:E0; [|done]. cbn [mbind option_bind].
    destruct (sadd64 e0 (-1)) as [e1|] eqn:E1; [|done]. cbn [mbind option_bind].
    split_if; [done|]. reflect. intros [= <- <-]. apply Hadd in E0, E1. lia.
  - destruct (sadd64 s0 (-1)) as [e0|] eqn:E0; [|done]. cbn [mbind option_bind].
    destruct (sadd64 s0 (l_len lk)) as [s1|] eqn:E1; [|done]. cbn [mbind option_bind].
    split_if; [done|]. reflect. intros [= <- <-]. apply Hadd in E0, E1. lia.
Qed.

(** ** Releasing *)

Lemma release_ok p l : table_ok l -> (forall h, p h = true -> used h = true) ->
  table_ok (withdraw p l) /\
  forall k kind own b ty, holds (withdraw p l) k kind own b ty <->
    exists h, h ∈ active l /\ p h = false /\ key h = k /\ owner_kind h = kind /\ owner h = own /\
      start h <= b <= end_ h /\ type h = ty.
Proof.
  intros Ht Hp. pose proof (active_withdraw p l Hp) as Ha. split.
  - constructor.
    + rewrite withdraw_length. apply Ht.
    + rewrite Ha. apply list.Forall_forall. intros x [Hx _]%elem_of_filter.
      pose proof (to_ok l Ht) as H. rewrite list.Forall_forall in H. by apply H.
    + rewrite Ha. apply ss_filter, Ht.
  - intros k kind own b ty. unfold holds. rewrite Ha. split.
    + intros (h & [H1 H2%negb_true_iff]%elem_of_filter & H3). exists h. tauto.
    + intros (h & H1 & H2 & H3). exists h. split; [|done]. apply elem_of_filter. by rewrite H2.
Qed.

(** ** BSD locks *)

Definition bsd_compat (x y : fs_bsd_flock) : Prop :=
  b_key x <> b_key y \/ (b_owner x <> b_owner y /\ b_type x = F_RDLCK /\ b_type y = F_RDLCK).

Definition bsd_active (l : list fs_bsd_flock) : list fs_bsd_flock := List.filter b_used l.

Record bsd_ok (l : list fs_bsd_flock) : Prop := {
  bo_types : Forall (fun b => b_type b = F_RDLCK \/ b_type b = F_WRLCK) (bsd_active l);
  bo_sep : StronglySorted bsd_compat (bsd_active l);
}.

(** The open file holds a lock of type [ty] on file [k]. *)
Definition bsd_holds (l : list fs_bsd_flock) (k own ty : Z) : Prop :=
  exists b, b ∈ bsd_active l /\ b_key b = k /\ b_owner b = own /\ b_type b = ty.

Lemma bsd_compat_sym x y : bsd_compat x y -> bsd_compat y x.
Proof. unfold bsd_compat. intros [H|(H & H1 & H2)]; [left; congruence|right; split; [congruence|done]]. Qed.

Lemma replace_first_Some {A} (p : A -> bool) f l l' : replace_first p f l = Some l' ->
  exists pre x post, l = pre ++ x :: post /\ p x = true /\ l' = pre ++ f x :: post /\
    Forall (fun y => p y = false) pre.
Proof.
  revert l'. induction l as [|y l IH]; intros l'; simpl; [done|]. destruct (p y) eqn:E.
  - intros [= <-]. by exists [], y, l.
  - destruct (replace_first p f l) as [l1|]; [|done]. cbn. intros [= <-].
    destruct (IH l1 eq_refl) as (pre & x & post & -> & Hx & -> & Hf). exists (y :: pre), x, post.
    split; [done|]. split; [done|]. split; [done|]. by constructor.
Qed.

Lemma replace_first_None {A} (p : A -> bool) f l :
  replace_first p f l = None <-> Forall (fun y => p y = false) l.
Proof.
  induction l as [|y l IH]; simpl; [split; [constructor|done]|]. destruct (p y) eqn:E.
  - split; [done|]. intros H. apply Forall_cons in H as [? _]. congruence.
  - rewrite Forall_cons, <- IH. destruct (replace_first p f l); cbn; split; (by intros []) || done.
Qed.

Definition bsd_entry (k own ty : Z) : fs_bsd_flock :=
  {| b_used := true; b_key := k; b_owner := own; b_type := ty |}.

Lemma bsd_own_spec k vf b : bsd_own k vf b = true <->
  b_used b = true /\ b_key b = k /\ b_owner b = vf_addr vf.
Proof. unfold bsd_own. rewrite !andb_true_iff, !Z.eqb_eq. tauto. Qed.

(** The open file's lock on [k] becomes [ty], everything else is as before. *)
Definition bsd_replaced (l l' : list fs_bsd_flock) (k own ty : Z) : Prop :=
  forall k' own' ty', bsd_holds l' k' own' ty' <->
    if decide (k' = k /\ own' = own) then ty' = ty else bsd_holds l k' own' ty'.

Lemma bsd_new_ok l l' k vf ty : bsd_ok l -> ty = F_RDLCK \/ ty = F_WRLCK ->
  existsb (bsd_conflicts k vf ty) l = false ->
  bsd_active l' ≡ₚ bsd_entry k (vf_addr vf) ty :: List.filter (fun b => negb (bsd_own k vf b)) (bsd_active l) ->
  bsd_ok l' /\ bsd_replaced l l' k (vf_addr vf) ty.
Proof.
  intros [Hty Hsep] Ht Hc Ha. split; [constructor|].
  - rewrite Ha. constructor; [done|]. apply list.Forall_forall. intros b [Hb _]%elem_of_filter.
    rewrite list.Forall_forall in Hty. by apply Hty.
  - eapply ss_perm; [apply bsd_compat_sym|symmetry; exact Ha|]. constructor; [by apply ss_filter|].
    apply list.Forall_forall. intros b [Hb Hno%negb_true_iff]%elem_of_filter. unfold bsd_compat. cbn.
    apply elem_of_filter in Hb as [Hb Hu].
    destruct (decide (k = b_key b)) as [Hk|]; [|by left]. right.
    assert (b_owner b <> vf_addr vf) as Hne.
    { intros E. by rewrite (proj2 (bsd_own_spec k vf b)) in Hno. }
    assert (bsd_conflicts k vf ty b = false) as Hb0.
    { apply not_true_is_false. intros E. apply not_true_iff_false in Hc. apply Hc.
      apply existsb_exists. exists b. split; [by apply list_elem_of_In|done]. }
    unfold bsd_conflicts in Hb0. rewrite Hu, <- Hk, Z.eqb_refl, (proj2 (Z.eqb_neq _ _) Hne) in Hb0. cbn in Hb0.
    destruct ((b_type b =? F_RDLCK) && (ty =? F_RDLCK)) eqn:E; [|done]. reflect. split; [congruence|done].
  - intros k' own' ty'. unfold bsd_holds. setoid_rewrite Ha. split.
    + intros (b & [->|[Hb Hno%negb_true_iff]%elem_of_filter]%elem_of_cons & H1 & H2 & H3); cbn in *.
      * subst. by rewrite decide_True.
      * rewrite decide_False; [by exists b|]. intros [-> ->]. apply elem_of_filter in Hb as [_ Hu].
        by rewrite (proj2 (bsd_own_spec k vf b)) in Hno.
    + case_decide as Hd.
      * intros ->. destruct Hd as [-> ->]. exists (bsd_entry k (vf_addr vf) ty). split; [left|done].
      * intros (b & Hb & H1 & H2 & H3). exists b. split; [|done]. right. apply elem_of_filter. split; [done|].
        apply negb_true_iff, not_true_is_false. intros (_ & E1 & E2)%bsd_own_spec. apply Hd. split; congruence.
Qed.

Lemma filter_none {A} (p : A -> bool) l : Forall (fun x => p x = false) l ->
  List.filter (fun x => negb (p x)) l = l.
Proof. induction 1 as [|x l Hx _ IH]; simpl; [done|]. by rewrite Hx, IH. Qed.

(** Changing the type of the lock the open file already has. *)
Lemma bsd_convert l l' k vf ty : bsd_ok l ->
  replace_first (bsd_own k vf) (fun b => b {{ b_type := ty }}) l = Some l' ->
  bsd_active l' ≡ₚ bsd_entry k (vf_addr vf) ty :: List.filter (fun b => negb (bsd_own k vf b)) (bsd_active l).
Proof.
  intros Hok (pre & x & post & -> & Hx & -> & Hpre)%replace_first_Some.
  pose proof (proj1 (bsd_own_spec k vf x) Hx) as (Hu & Hk & Ho).
  assert (x {{ b_type := ty }} = bsd_entry k (vf_addr vf) ty) as ->.
  { destruct x as [u xk xo xt]. cbn in *. by subst. }
  unfold bsd_active in *. rewrite !List.filter_app. cbn [List.filter bsd_entry b_used]. rewrite Hu.
  cbn [List.filter]. rewrite Hx. cbn [negb]. rewrite <- Permutation_middle.
  apply Permutation_cons; [done|]. apply Permutation_app.
  - rewrite filter_none; [done|]. apply list.Forall_forall. intros b [Hb _]%elem_of_filter.
    rewrite list.Forall_forall in Hpre. by apply Hpre.
  - rewrite filter_none; [done|]. apply list.Forall_forall. intros b Hb.
    destruct Hok as [_ Hs]. unfold bsd_active in Hs. rewrite List.filter_app in Hs. cbn [List.filter] in Hs. rewrite Hu in Hs.
    apply ss_app in Hs as (_ & [_ Hf]%StronglySorted_inv & _). rewrite list.Forall_forall in Hf.
    apply not_true_is_false. intros (_ & E1 & E2)%bsd_own_spec.
    destruct (Hf b Hb) as [H|[H _]]; congruence.
Qed.

(** A new lock in an unused entry. *)
Lemma bsd_insert l l' k vf ty :
  replace_first (bsd_own k vf) (fun b => b {{ b_type := ty }}) l = None ->
  replace_first (fun b => negb (b_used b)) (fun _ => bsd_entry k (vf_addr vf) ty) l = Some l' ->
  bsd_active l' ≡ₚ bsd_entry k (vf_addr vf) ty :: List.filter (fun b => negb (bsd_own k vf b)) (bsd_active l).
Proof.
  intros Hn%replace_first_None (pre & x & post & -> & Hx%negb_true_iff & -> & _)%replace_first_Some.
  rewrite filter_none.
  - unfold bsd_active. rewrite !List.filter_app. cbn [List.filter bsd_entry b_used]. rewrite Hx.
    by rewrite <- Permutation_middle.
  - apply list.Forall_forall. intros b [Hb _]%elem_of_filter. rewrite list.Forall_forall in Hn. by apply Hn.
Qed.
