(* ===== verification/LockClaims.v ===== *)
(** * File locks: what their users may rely on

    Histories of lock operations, mutual exclusion, and what each operation
    does to the set of locked bytes. *)

From Stdlib Require Import Sorting.Sorted.
From S2P Require Import Prelude Task FileLocks LockTheory.
From stdpp Require Import list relations.
#[local] Open Scope Z_scope.

(** ** Histories *)

Inductive lock_op :=
| LSet (mem : bool) (env : nat -> wait_env) (vf : option vfile_t) (lk : fs_flock) (kind own : Z) (wait : bool)
| LFlock (env : nat -> wait_env) (vf : option vfile_t) (operation : Z)
| LReleaseProcess (pid : Z)
| LReleaseProcessFile (vf : vfile_t) (pid : Z)
| LReleaseFile (vf : vfile_t) (own cur_pid : Z).

Definition run_lock_op (op : lock_op) (t : locks) : option locks :=
  match op with
  | LSet mem env vf lk kind own wait => fst <$> fs_locks_set mem env t vf lk kind own wait
  | LFlock env vf operation => Some (fst (fs_flocks_apply env t vf operation))
  | LReleaseProcess pid => Some (fs_locks_release_process t pid)
  | LReleaseProcessFile vf pid => Some (fs_locks_release_process_file t vf pid)
  | LReleaseFile vf own cur_pid => Some (fs_locks_release_file t vf own cur_pid)
  end.

Fixpoint run_lock_ops (ops : list lock_op) (t : locks) : option locks :=
  match ops with
  | [] => Some t
  | op :: ops => t ← run_lock_op op t; run_lock_ops ops t
  end.

Definition world_ok (t : locks) : Prop := table_ok (g_file_locks t) /\ bsd_ok (g_bsd_flocks t).

(** What others do while an operation waits keeps the tables sound. *)
Definition envs_ok (env : nat -> wait_env) : Prop :=
  forall n t, world_ok t ->
    world_ok (we_others_preparing (env n) t) /\ world_ok (we_others_sleeping (env n) t).

(** The request's arithmetic stays in range. *)
Definition lock_op_ok (op : lock_op) : Prop :=
  match op with
  | LSet _ env vf lk _ _ _ => envs_ok env /\ fs_lock_range vf lk <> None
  | LFlock env _ _ => envs_ok env
  | _ => True
  end.

(** The tables at boot. *)
Definition free_lock : fs_file_lock :=
  {| used := false; owner_kind := 0; key := 0; owner := 0; type := 0; start := 0; end_ := 0 |}.
Definition free_bsd : fs_bsd_flock := {| b_used := false; b_key := 0; b_owner := 0; b_type := 0 |}.
Definition no_locks : locks :=
  {| g_file_locks := replicate 256 free_lock; g_bsd_flocks := replicate 256 free_bsd;
     g_file_lock_generation := 0; wakes := 0 |}.

Lemma no_locks_ok : world_ok no_locks.
Proof. split; constructor; done || constructor. Qed.

(** ** Every operation keeps the tables sound *)

(** Both tables together. *)
Lemma wait_world env n t : envs_ok env -> world_ok t -> world_ok (fst (fs_lock_wait (env n) t)).
Proof.
  intros Henv Ht. unfold fs_lock_wait. destruct (Henv n t Ht) as [H1 H2].
  destruct (Henv n _ H1) as [_ H3]. repeat (split_if; try done).
Qed.

(** Something others do while the call waits. *)
Definition others_act (env : nat -> wait_env) (t t1 : locks) : Prop :=
  exists n, t1 = we_others_preparing (env n) t \/ t1 = we_others_sleeping (env n) t.

Lemma wait_others env n t : rtc (others_act env) t (fst (fs_lock_wait (env n) t)).
Proof.
  assert (forall u, rtc (others_act env) u (we_others_preparing (env n) u)) as Hp
    by (intros u; apply rtc_once; exists n; by left).
  assert (forall u, rtc (others_act env) u (we_others_sleeping (env n) u)) as Hs
    by (intros u; apply rtc_once; exists n; by right).
  unfold fs_lock_wait. cbv zeta. repeat split_if; cbn [fst];
    first [done|apply Hp|apply Hs|by eapply rtc_trans; [apply Hp|apply Hs]].
Qed.

(** What setting a lock on [s, e] does: [t0] is the table at the moment of the
    decision. *)
Record set_outcome (env : nat -> wait_env) (t t0 t' : locks) (k kind own ty s e : Z) (wait : bool) (r : Z) : Prop := {
  so_others : rtc (others_act env) t t0;
  so_now : wait = false \/ ty = F_UNLCK \/ free_for (g_file_locks t) k kind own ty s e -> t0 = t;
  so_result :
    (r = 0 /\ (ty = F_UNLCK \/ free_for (g_file_locks t0) k kind own ty s e) /\
     replaced (g_file_locks t0) (g_file_locks t') k kind own ty s e /\ g_bsd_flocks t' = g_bsd_flocks t0) \/
    t' = t0 /\
    ((r = - ENOLCK /\ (ty = F_UNLCK \/ free_for (g_file_locks t0) k kind own ty s e) /\
      FS_FILE_LOCK_MAX < count_used (g_file_locks t0) + 2) \/
     (r < 0 /\ ty <> F_UNLCK /\ ~ free_for (g_file_locks t) k kind own ty s e /\
      (wait = false -> r = - EAGAIN)));
}.

(** The same without the state of the first moment. *)
Definition set_decided (env : nat -> wait_env) (t t0 t' : locks) (k kind own ty s e : Z) (r : Z) : Prop :=
  rtc (others_act env) t t0 /\
  ((r = 0 /\ (ty = F_UNLCK \/ free_for (g_file_locks t0) k kind own ty s e) /\
    replaced (g_file_locks t0) (g_file_locks t') k kind own ty s e /\ g_bsd_flocks t' = g_bsd_flocks t0) \/
   t' = t0 /\
   ((r = - ENOLCK /\ (ty = F_UNLCK \/ free_for (g_file_locks t0) k kind own ty s e) /\
     FS_FILE_LOCK_MAX < count_used (g_file_locks t0) + 2) \/ r < 0)).

Section SetLoop.
Context (env : nat -> wait_env) (Henv : envs_ok env) (k kind own ty s e : Z) (wait : bool).
Context (Hs : 0 <= s <= e) (He : e <= I64_MAX) (Hty : type_ok ty).

(** One turn of the loop, given what the rest does. *)
Lemma set_turn fuel t prev : world_ok t ->
  (forall t1 prev, world_ok t1 ->
     exists t0 t' r, set_loop fuel env t1 k kind own ty s e wait prev = Some (t', r) /\ world_ok t' /\
       set_decided env t1 t0 t' k kind own ty s e r) ->
  exists t0 t' r, set_loop (S fuel) env t k kind own ty s e wait prev = Some (t', r) /\ world_ok t' /\
    set_outcome env t t0 t' k kind own ty s e wait r.
Proof using Henv Hs He Hty.
  intros Ht Hnext. cbn [set_loop].
  pose proof (others_share_free (g_file_locks t) k kind own ty s e (proj1 Ht) ltac:(lia)) as Hfree.
  destruct (if negb (ty =? F_UNLCK) then first_conflict (g_file_locks t) k kind own ty s e else None)
    as [h|] eqn:Ec.
  - assert (ty <> F_UNLCK /\ ~ free_for (g_file_locks t) k kind own ty s e) as [Hn Hnf].
    { destruct (Z.eqb_spec ty F_UNLCK) as [|Hn]; cbn [negb] in Ec; [done|]. split; [done|].
      rewrite <- Hfree, <- first_conflict_None. congruence. }
    assert (forall t1 r1, r1 < 0 -> world_ok t1 -> rtc (others_act env) t t1 ->
      (wait = false -> t1 = t /\ r1 = - EAGAIN) ->
      exists t0 t' r, Some (t1, r1) = Some (t', r) /\ world_ok t' /\
        set_outcome env t t0 t' k kind own ty s e wait r) as Hfail.
    { intros t1 r1 Hr1 Ht1 Hrun Hw. exists t1, t1, r1. split; [done|]. split; [done|]. constructor; [done| |].
      - intros [H|[H|H]]; [by apply Hw|done|done].
      - right. split; [done|]. right. split; [done|]. split; [done|]. split; [done|]. intros H. by apply Hw. }
    destruct wait eqn:Ew; cbn [negb]; [|by apply Hfail]. split_if; [by apply Hfail|].
    pose proof (wait_world env fuel t Henv Ht) as Hw. pose proof (wait_others env fuel t) as Hrun.
    destruct (fs_lock_wait (env fuel) t) as [t1 r]. cbn [fst] in Hw, Hrun.
    destruct (Z.ltb_spec r 0); [by apply Hfail|].
    destruct (Hnext t1 (owner h) Hw) as (t0 & t' & r' & E' & Hw' & Ho & Hres).
    exists t0, t', r'. split; [exact E'|]. split; [done|]. constructor; [by eapply rtc_trans|by intros [?|[?|?]]|].
    destruct Hres as [?|[-> [?|?]]]; [by left|right; split; [done|by left]|].
    right. split; [done|]. by right.
  - assert (ty <> F_UNLCK -> others_share (g_file_locks t) k kind own ty s e) as Hsh.
    { intros Hn. rewrite (proj2 (Z.eqb_neq _ _) Hn) in Ec. by apply first_conflict_None. }
    assert (ty = F_UNLCK \/ free_for (g_file_locks t) k kind own ty s e) as Hfr.
    { destruct (decide (ty = F_UNLCK)); [by left|right; by apply Hfree, Hsh]. }
    destruct (replace_range_ok t k kind own ty s e (proj1 Ht) Hs He Hty Hsh)
      as [[E Hfull]|(t' & E & Ht' & Hr & Hb')]; rewrite E.
    + exists t, t, (- ENOLCK). split; [done|]. split; [done|]. constructor; [done|done|]. right. split; [done|]. by left.
    + exists t, t', 0. split; [done|]. split; [split; [done|rewrite Hb'; apply Ht]|].
      constructor; [done|done|]. by left.
Qed.

Lemma set_loop_world fuel t prev : world_ok t ->
  exists t0 t' r, set_loop (S fuel) env t k kind own ty s e wait prev = Some (t', r) /\ world_ok t' /\
    set_outcome env t t0 t' k kind own ty s e wait r.
Proof using Henv Hs He Hty.
  intros Ht. apply set_turn; [done|]. clear t prev Ht. induction fuel as [|fuel IH]; intros t prev Ht.
  - exists t, t, (- EDEADLK). split; [done|]. split; [done|]. split; [done|]. right. split; [done|]. by right.
  - destruct (set_turn fuel t prev Ht IH) as (t0 & t' & r & E & Hw & [Ho _ Hres]).
    exists t0, t', r. split; [done|]. split; [done|]. split; [done|].
    destruct Hres as [?|[-> [?|[? _]]]]; [by left|right; split; [done|by left]|right; split; [done|by right]].
Qed.
End SetLoop.

Lemma bad_type_ok ty : bad_type ty = false -> type_ok ty.
Proof.
  unfold bad_type, type_ok. intros H. destruct (Z.eqb_spec ty F_RDLCK); [by left|].
  destruct (Z.eqb_spec ty F_WRLCK); [by right; left|]. destruct (Z.eqb_spec ty F_UNLCK); [by right; right|done].
Qed.

Lemma lock_range_error vf lk err : fs_lock_range vf lk = Some (inl err) -> err = - EINVAL.
Proof.
  unfold fs_lock_range.
  destruct vf; [|by intros [= <-]]. match goal with |- context [match ?b with Some _ => _ | None => _ end] => destruct b end;
    [|by intros [= <-]]. destruct (sadd64 _ _); [|done]. cbn [mbind option_bind].
  match goal with |- context [?m ≫= _] => destruct m as [[? ?]|] end; [|done]. cbn.
  split_if; [by intros [= <-]|done].
Qed.

(** The call with its arguments. *)
Definition set_call_outcome (mem : bool) (env : nat -> wait_env) (t : locks) (vf : option vfile_t) (lk : fs_flock)
    (kind own : Z) (wait : bool) (t' : locks) (r : Z) : Prop :=
  (~ type_ok (l_type lk) \/ fs_lock_range vf lk = Some (inl (- EINVAL))) /\ r = - EINVAL /\ t' = t \/
  mem = false /\ r = - ENOMEM /\ t' = t \/
  exists f s e t0, vf = Some f /\ fs_lock_range vf lk = Some (inr (s, e)) /\ type_ok (l_type lk) /\ mem = true /\
    set_outcome env t t0 t' (fs_lock_key f) kind own (l_type lk) s e wait r.

Lemma set_world mem env t vf lk kind own wait : envs_ok env -> world_ok t ->
  fs_lock_range vf lk <> None ->
  exists t' r, fs_locks_set mem env t vf lk kind own wait = Some (t', r) /\ world_ok t' /\
    set_call_outcome mem env t vf lk kind own wait t' r.
Proof.
  intros Henv Ht Hr. unfold fs_locks_set, set_call_outcome. destruct (bad_type (l_type lk)) eqn:Eb.
  { exists t, (- EINVAL). split; [done|]. split; [done|]. left. split; [left|done].
    intros [H|[H|H]]; by rewrite H in Eb. }
  apply bad_type_ok in Eb. destruct (fs_lock_range vf lk) as [[err|[s e]]|] eqn:Er; cbn [mbind option_bind]; [| |done].
  - pose proof (lock_range_error vf lk err Er) as ->. exists t, (- EINVAL). split; [done|]. split; [done|].
    left. split; [by right|done].
  - destruct (lock_range_ok vf lk s e Er) as [Hs He]. destruct vf as [f|]; [|done].
    destruct mem; cbn [negb]; [|exists t, (- ENOMEM); split; [done|]; split; [done|]; right; by left].
    destruct (set_loop_world env Henv (fs_lock_key f) kind own (l_type lk) s e wait Hs He Eb 1023 t 0 Ht)
      as (t0 & t' & r & E & Hw & Ho).
    exists t', r. split; [exact E|]. split; [done|]. right. right. by exists f, s, e, t0.
Qed.

Lemma flock_loop_world fuel env t vf k ty nb : envs_ok env -> world_ok t ->
  ty = F_RDLCK \/ ty = F_WRLCK ->
  let r := flock_loop fuel env t vf k ty nb in
  world_ok r.1 /\ r.2 <= 0 /\
  (r.2 = 0 -> exists t0, world_ok t0 /\ g_file_locks r.1 = g_file_locks t0 /\
     bsd_replaced (g_bsd_flocks t0) (g_bsd_flocks r.1) k (vf_addr vf) ty) /\
  (nb = true -> r.2 <> 0 -> r.1 = t).
Proof.
  intros Henv Hok Hty. revert t Hok. induction fuel as [|fuel IH]; intros t Hok; cbv zeta; cbn [flock_loop];
    [by split|].
  destruct (existsb (bsd_conflicts k vf ty) (g_bsd_flocks t)) eqn:Ec.
  - destruct nb; [by split|]. pose proof (wait_world env fuel t Henv Hok) as Hw.
    destruct (fs_lock_wait (env fuel) t) as [t1 r]. cbn [fst] in Hw.
    destruct (Z.ltb_spec r 0); cbn [fst snd]; [split; [done|]; split; [lia|]; split; [lia|done]|].
    destruct (IH t1 Hw) as (H1 & H2 & H3 & _). by split.
  - destruct Hok as [Ht Hb].
    assert (forall l, bsd_active l ≡ₚ bsd_entry k (vf_addr vf) ty
              :: List.filter (fun b => negb (bsd_own k vf b)) (bsd_active (g_bsd_flocks t)) ->
      let r := (bump (t {{ g_bsd_flocks := l }}) true, 0) in
      world_ok r.1 /\ r.2 <= 0 /\
      (r.2 = 0 -> exists t0, world_ok t0 /\ g_file_locks r.1 = g_file_locks t0 /\
         bsd_replaced (g_bsd_flocks t0) (g_bsd_flocks r.1) k (vf_addr vf) ty) /\
      (nb = true -> r.2 <> 0 -> r.1 = t)) as Hdone.
    { intros l Hl. destruct (bsd_new_ok _ l k vf ty Hb Hty Ec Hl) as [H1 H2]. cbn [fst snd].
      unfold world_ok. rewrite bump_locks, bump_bsd. split; [by split|]. split; [lia|]. split; [|done].
      intros _. by exists t. }
    destruct (replace_first (bsd_own k vf) _ _) as [l|] eqn:E1; [by apply Hdone, bsd_convert|].
    destruct (replace_first (fun b => negb (b_used b)) _ _) as [l|] eqn:E2; [|by split].
    apply Hdone. by eapply bsd_insert.
Qed.

Lemma release_world p t : world_ok t -> (forall h, p h = true -> used h = true) ->
  world_ok (release_where p t).
Proof.
  intros [Ht Hb] Hp. unfold release_where, world_ok. rewrite bump_locks, bump_bsd.
  split; [|done]. by apply release_ok.
Qed.

Lemma bsd_active_withdraw p l : (forall h, p h = true -> b_used h = true) ->
  bsd_active (bsd_withdraw p l) = List.filter (fun h => negb (p h)) (bsd_active l).
Proof.
  intros Hp. unfold bsd_active, bsd_withdraw. induction l as [|h l IH]; [done|]. cbn [map List.filter].
  destruct (p h) eqn:E.
  - change (b_used (h {{ b_used := false }})) with false. rewrite (Hp h E). cbn [List.filter].
    by rewrite E, IH.
  - destruct (b_used h) eqn:Eu; [|done]. cbn [List.filter]. by rewrite E, IH.
Qed.

Lemma bsd_release_ok k vf l : bsd_ok l -> bsd_ok (bsd_withdraw (bsd_own k vf) l).
Proof.
  intros [Ht Hs]. pose proof (bsd_active_withdraw (bsd_own k vf) l
    (fun h H => proj1 (proj1 (bsd_own_spec k vf h) H))) as Ha. constructor; rewrite Ha.
  - apply list.Forall_forall. intros x [Hx _]%elem_of_filter. rewrite list.Forall_forall in Ht. by apply Ht.
  - by apply ss_filter.
Qed.

Lemma run_lock_op_ok op t : world_ok t -> lock_op_ok op ->
  exists t', run_lock_op op t = Some t' /\ world_ok t'.
Proof.
  intros Ht Hop. destruct op; cbn [run_lock_op lock_op_ok] in *.
  - destruct Hop as [Henv Hr]. destruct (set_world mem env t vf lk kind own wait Henv Ht Hr) as (t' & r & -> & Hw & _).
    by exists t'.
  - eexists. split; [done|]. unfold fs_flocks_apply. destruct vf as [vf|]; [|done].
    split_if; [done|]. split_if; [done|]. split_if.
    + unfold world_ok. cbn [fst]. rewrite bump_locks, bump_bsd. destruct Ht as [Ht Hb]. split; [done|].
      by apply bsd_release_ok.
    + apply flock_loop_world; [done|done|]. split_if; [by right|by left].
  - eexists. split; [done|]. apply release_world; [done|]. intros h H. by reflect.
  - eexists. split; [done|]. apply release_world; [done|]. intros h H. by reflect.
  - eexists. split; [done|]. unfold fs_locks_release_file, world_ok. rewrite bump_locks, bump_bsd.
    destruct Ht as [Ht Hb]. split; [|by apply bsd_release_ok].
    apply release_ok; [apply release_ok; [done|]|]; intros h H; by reflect.
Qed.

Lemma run_lock_ops_ok ops t : world_ok t -> Forall lock_op_ok ops ->
  exists t', run_lock_ops ops t = Some t' /\ world_ok t'.
Proof.
  revert t. induction ops as [|op ops IH]; intros t Ht Hops; [by exists t|].
  apply Forall_cons in Hops as [Hop Hops]. destruct (run_lock_op_ok op t Ht Hop) as (t1 & E & Ht1).
  cbn [run_lock_ops]. rewrite E. cbn [mbind option_bind]. by apply IH.
Qed.

(** ** Instances *)

(** Waits that are interrupted at once, with nobody else around. *)
Definition quiet_env (n : nat) : wait_env :=
  {| we_current := true; we_signal_before := true; we_token := true; we_linked := true;
     we_reason := PROC_WAKE_EVENT; we_signal_after := false;
     we_others_preparing := fun t => t; we_others_sleeping := fun t => t |}.

Lemma quiet_ok : envs_ok quiet_env.
Proof. done. Qed.

Definition file_a : vfile_t :=
  {| vf_addr := 4096; vf_offset := 0;
     vf_vnode := Some {| vn_ino := 7; vn_mnt := 64; vn_size := 100; vn_stat := None |} |}.
Definition write_lock (first len : Z) : fs_flock :=
  {| l_type := F_WRLCK; l_whence := SEEK_SET; l_start := first; l_len := len; l_pid := 0 |}.
Definition unlock_range (first len : Z) : fs_flock :=
  {| l_type := F_UNLCK; l_whence := SEEK_SET; l_start := first; l_len := len; l_pid := 0 |}.

(** Process 1 locks the first hundred bytes and then frees ten of them. *)
Definition split_lock : list lock_op :=
  [LSet true quiet_env (Some file_a) (write_lock 0 100) FS_LOCK_OWNER_PID 1 false;
   LSet true quiet_env (Some file_a) (unlock_range 40 10) FS_LOCK_OWNER_PID 1 false].

Lemma split_lock_ok : Forall lock_op_ok split_lock.
Proof.
  constructor; [split; [exact quiet_ok|by vm_compute]|].
  constructor; [split; [exact quiet_ok|by vm_compute]|]. constructor.
Qed.

Definition split_locks : locks := default no_locks (run_lock_ops split_lock no_locks).

Lemma split_locks_ok : world_ok split_locks.
Proof.
  destruct (run_lock_ops_ok split_lock no_locks no_locks_ok split_lock_ok) as (t & E & Ht).
  unfold split_locks. by rewrite E.
Qed.

(** ** Properties *)

(** C33: Mutual exclusion.  After any sequence of lock, unlock, flock and
    release operations, waits and interruptions included, two locks on the
    same byte of a file either belong to one owner and have one type, or are
    both read locks; likewise for whole-file locks of open files. *)
Theorem file_locks_exclusive (ops : list lock_op) : Forall lock_op_ok ops ->
  exists t, run_lock_ops ops no_locks = Some t /\
    (forall k b kind1 own1 ty1 kind2 own2 ty2,
       holds (g_file_locks t) k kind1 own1 b ty1 -> holds (g_file_locks t) k kind2 own2 b ty2 ->
       (kind1 = kind2 /\ own1 = own2 /\ ty1 = ty2) \/ (ty1 = F_RDLCK /\ ty2 = F_RDLCK)) /\
    (forall k own1 ty1 own2 ty2,
       bsd_holds (g_bsd_flocks t) k own1 ty1 -> bsd_holds (g_bsd_flocks t) k own2 ty2 ->
       (own1 = own2 /\ ty1 = ty2) \/ (ty1 = F_RDLCK /\ ty2 = F_RDLCK)).
Proof.
  intros Hops. destruct (run_lock_ops_ok ops no_locks no_locks_ok Hops) as (t & E & Ht & Hb).
  exists t. split; [done|]. split.
  - intros k b kind1 own1 ty1 kind2 own2 ty2 (h1 & Hin1 & Hk1 & <- & <- & Hr1 & <-) (h2 & Hin2 & Hk2 & <- & <- & Hr2 & <-).
    destruct (decide (h1 = h2)) as [->|Hne]; [by left|]. right.
    destruct (ss_compat _ h1 h2 (to_sep _ Ht) Hin1 Hin2 Hne) as [H|[H|(_ & H)]]; [congruence| |done].
    unfold disjoint_l in H. lia.
  - intros k own1 ty1 own2 ty2 (b1 & Hin1 & Hk1 & <- & <-) (b2 & Hin2 & Hk2 & <- & <-).
    destruct (decide (b1 = b2)) as [->|Hne]; [by left|]. right.
    assert (bsd_compat b1 b2) as [H|(_ & H)]; [|congruence|done].
    destruct Hb as [_ Hs]. revert Hin1 Hin2 Hne. clear -Hs.
    induction Hs as [|a l Hs IH Hf]; intros H1 H2 Hne; [by apply not_elem_of_nil in H1|].
    rewrite list.Forall_forall in Hf.
    apply elem_of_cons in H1 as [->|H1], H2 as [->|H2]; [done|by apply Hf|apply bsd_compat_sym; by apply Hf|by apply IH].
Qed.

Lemma file_locks_exclusive_witness :
  exists t, run_lock_ops split_lock no_locks = Some t /\
    (forall k b kind1 own1 ty1 kind2 own2 ty2,
       holds (g_file_locks t) k kind1 own1 b ty1 -> holds (g_file_locks t) k kind2 own2 b ty2 ->
       (kind1 = kind2 /\ own1 = own2 /\ ty1 = ty2) \/ (ty1 = F_RDLCK /\ ty2 = F_RDLCK)) /\
    (forall k own1 ty1 own2 ty2,
       bsd_holds (g_bsd_flocks t) k own1 ty1 -> bsd_holds (g_bsd_flocks t) k own2 ty2 ->
       (own1 = own2 /\ ty1 = ty2) \/ (ty1 = F_RDLCK /\ ty2 = F_RDLCK)).
Proof. exact (file_locks_exclusive split_lock split_lock_ok). Defined.

(** C34: Setting a record lock implements the byte-set specification, for every
    request whose range is computed without a signed overflow (the source's
    arithmetic is undefined beyond).  The operation always returns.  It is
    refused for a bad type or range (EINVAL) and for lack of memory.  Otherwise
    there is a moment, the start of the call if it may not wait or nothing is
    in the way, and else a moment after some of what others did while it
    waited, at which it decides; with the tables of that moment, either the
    caller's locks on exactly the requested bytes are replaced (or removed, for
    an unlock), every other byte of the caller, every lock of everyone else and
    all flock locks are unchanged, and nobody else's lock on these bytes
    conflicted; or nothing is changed, and there are fewer than two free slots
    (ENOLCK), or the bytes were taken when it was called, EAGAIN if it may not
    wait. *)
Theorem fs_locks_set_correct (mem : bool) (env : nat -> wait_env) (t : locks) (vf : option vfile_t)
    (lk : fs_flock) (kind own : Z) (wait : bool) :
  envs_ok env -> world_ok t -> fs_lock_range vf lk <> None ->
  exists t' r, fs_locks_set mem env t vf lk kind own wait = Some (t', r) /\
    set_call_outcome mem env t vf lk kind own wait t' r.
Proof.
  intros Henv Ht Hr. destruct (set_world mem env t vf lk kind own wait Henv Ht Hr)
    as (t' & r & E & _ & Ho). by exists t', r.
Qed.

Lemma fs_locks_set_correct_witness :
  exists t' r, fs_locks_set true quiet_env split_locks (Some file_a) (write_lock 30 50) FS_LOCK_OWNER_PID 1 false
      = Some (t', r) /\
    set_call_outcome true quiet_env split_locks (Some file_a) (write_lock 30 50) FS_LOCK_OWNER_PID 1 false t' r.
Proof.
  apply (fs_locks_set_correct true quiet_env split_locks (Some file_a) (write_lock 30 50) FS_LOCK_OWNER_PID 1 false
           quiet_ok split_locks_ok).
  vm_compute. discriminate.
Defined.

(** The range of a held lock, encoded the way F_GETLK reports it. *)
Lemma report_roundtrip vf h pid : lock_ok h ->
  exists len,
    (if end_ h =? I64_MAX then Some 0 else d ← sadd64 (end_ h) (- start h); sadd64 d 1) = Some len /\
    fs_lock_range (Some vf) {| l_type := type h; l_whence := SEEK_SET; l_start := start h; l_len := len; l_pid := pid |}
      = Some (inr (start h, end_ h)).
Proof.
  intros [Hh _]. unfold I64_MAX in *. destruct (Z.eqb_spec (end_ h) 9223372036854775807) as [E|E].
  - exists 0. split; [done|]. unfold fs_lock_range. cbn [l_whence l_start l_len Z.eqb SEEK_SET].
    rewrite sadd64_small by (unfold I64_MIN, I64_MAX; lia). cbn [mbind option_bind].
    rewrite (proj2 (Z.ltb_ge _ _)) by lia. rewrite E. by rewrite Z.add_0_l.
  - exists (end_ h - start h + 1). split.
    + rewrite (sadd64_small (end_ h)) by (unfold I64_MIN, I64_MAX; lia). cbn [mbind option_bind].
      rewrite sadd64_small by (unfold I64_MIN, I64_MAX; lia). done.
    + unfold fs_lock_range. cbn [l_whence l_start l_len SEEK_SET].
      change (SEEK_SET =? SEEK_SET) with true. cbv iota.
      rewrite sadd64_small by (unfold I64_MIN, I64_MAX; lia). cbn [mbind option_bind].
      rewrite (proj2 (Z.eqb_neq _ 0)), (proj2 (Z.ltb_lt 0 _)) by lia.
      rewrite (sadd64_small (0 + start h)) by (unfold I64_MIN, I64_MAX; lia). cbn [mbind option_bind].
      rewrite sadd64_small by (unfold I64_MIN, I64_MAX; lia). cbn [mbind option_bind].
      rewrite (proj2 (Z.ltb_ge _ _)) by lia. do 3 f_equal; lia.
Qed.

(** A set request that does not wait. *)
Lemma set_loop_nowait n env t k kind own ty s e prev : ty <> F_UNLCK ->
  set_loop (S n) env t k kind own ty s e false prev =
  match first_conflict (g_file_locks t) k kind own ty s e with
  | Some _ => Some (t, - EAGAIN)
  | None => replace_range t k kind own ty s e
  end.
Proof. intros Hn. cbn [set_loop]. rewrite (proj2 (Z.eqb_neq _ _) Hn). done. Qed.

(** F_GETLK tells the truth.  It answers that the range is free exactly
    when no lock of another owner conflicts; otherwise it describes one that
    does, with its type, and the range it reports, read back as a request, is
    that lock's range.  A set request for a lock with the same arguments that
    does not wait is refused with EAGAIN in the second case and only then. *)
Theorem fs_locks_get_correct (env : nat -> wait_env) (t : locks) (vf : vfile_t) (lk : fs_flock) (kind own s e : Z) :
  world_ok t -> type_ok (l_type lk) -> fs_lock_range (Some vf) lk = Some (inr (s, e)) ->
  let free := others_share (g_file_locks t) (fs_lock_key vf) kind own (l_type lk) s e in
  exists lk', fs_locks_get t (Some vf) lk kind own = Some (0, lk') /\
    (l_type lk' = F_UNLCK /\ free \/
     exists h, h ∈ active (g_file_locks t) /\
       fs_lock_conflicts h (fs_lock_key vf) kind own (l_type lk) s e = true /\
       l_type lk' = type h /\ type h <> F_UNLCK /\
       fs_lock_range (Some vf) lk' = Some (inr (start h, end_ h))) /\
    (l_type lk <> F_UNLCK ->
     (snd <$> fs_locks_set true env t (Some vf) lk kind own false) = Some (- EAGAIN) <-> ~ free).
Proof.
  intros [Ht Hb] Hty Hr. cbv zeta. unfold fs_locks_get, fs_locks_set.
  assert (bad_type (l_type lk) = false) as ->
    by (destruct Hty as [Hty|[Hty|Hty]]; by rewrite Hty).
  rewrite Hr. cbn [mbind option_bind negb]. destruct (lock_range_ok _ _ _ _ Hr) as [Hs He].
  set (k := fs_lock_key vf).
  destruct (first_conflict (g_file_locks t) k kind own (l_type lk) s e) as [h|] eqn:Ec.
  - unfold first_conflict in Ec. pose proof (find_some _ _ Ec) as [Hin Hc].
    assert (h ∈ active (g_file_locks t)) as Hact.
    { apply elem_of_filter. split; [by apply list_elem_of_In|]. unfold fs_lock_conflicts in Hc. by destruct (used h). }
    pose proof (to_ok _ Ht) as Hok. rewrite list.Forall_forall in Hok. pose proof (Hok h Hact) as Hh.
    destruct (report_roundtrip vf h (if owner_kind h =? FS_LOCK_OWNER_PID then s32 (owner h) else -1) Hh)
      as (len & -> & Hrange). cbn [mbind option_bind].
    eexists. split; [done|]. split.
    + right. exists h. split; [done|]. split; [done|]. split; [done|].
      split; [destruct Hh as [_ [->| ->]]; done|exact Hrange].
    + intros Hn. unfold FS_LOCK_MAX_RETRIES. rewrite (set_loop_nowait 1023) by done.
      unfold first_conflict. rewrite Ec. cbn. split; [|done]. intros _ Hfree. by rewrite (Hfree h Hact) in Hc.
  - pose proof Ec as Hfree. apply first_conflict_None in Hfree. eexists. split; [done|]. split; [by left|].
    intros Hn. unfold FS_LOCK_MAX_RETRIES. rewrite (set_loop_nowait 1023), Ec by done.
    destruct (replace_range_ok t k kind own (l_type lk) s e Ht Hs He Hty) as [[E _]|(t' & E & _)]; [done| |];
      rewrite E; by split.
Qed.

Lemma fs_locks_get_correct_witness :
  exists lk', fs_locks_get split_locks (Some file_a) (write_lock 35 20) FS_LOCK_OWNER_PID 2 = Some (0, lk') /\
    (l_type lk' = F_UNLCK /\ others_share (g_file_locks split_locks) (fs_lock_key file_a) FS_LOCK_OWNER_PID 2 F_WRLCK 35 54 \/
     exists h, h ∈ active (g_file_locks split_locks) /\
       fs_lock_conflicts h (fs_lock_key file_a) FS_LOCK_OWNER_PID 2 F_WRLCK 35 54 = true /\
       l_type lk' = type h /\ type h <> F_UNLCK /\
       fs_lock_range (Some file_a) lk' = Some (inr (start h, end_ h))) /\
    (F_WRLCK <> F_UNLCK ->
     (snd <$> fs_locks_set true quiet_env split_locks (Some file_a) (write_lock 35 20) FS_LOCK_OWNER_PID 2 false)
       = Some (- EAGAIN) <->
     ~ others_share (g_file_locks split_locks) (fs_lock_key file_a) FS_LOCK_OWNER_PID 2 F_WRLCK 35 54).
Proof.
  assert (fs_lock_range (Some file_a) (write_lock 35 20) = Some (inr (35, 54))) as H by (vm_compute; reflexivity).
  exact (fs_locks_get_correct quiet_env split_locks file_a (write_lock 35 20) FS_LOCK_OWNER_PID 2 35 54
           split_locks_ok (or_intror (or_introl eq_refl)) H).
Defined.

(** Flock gives an open file the lock it asks for.  Unlocking removes
    exactly its lock on the file.  When a shared or exclusive request
    succeeds, the open file's lock on the file is of that type, whether it
    had one before or not, and all other locks are as they were when it was
    granted; a request that may not wait and fails changes nothing. *)
Theorem fs_flocks_apply_correct (env : nat -> wait_env) (t : locks) (vf : vfile_t) (excl nb : bool) :
  envs_ok env -> world_ok t ->
  let k := fs_lock_key vf in
  let u := fs_flocks_apply env t (Some vf) LOCK_UN in
  let r := fs_flocks_apply env t (Some vf)
             (Z.lor (if excl then LOCK_EX else LOCK_SH) (if nb then LOCK_NB else 0)) in
  (u.2 = 0 /\ forall k' own' ty', bsd_holds (g_bsd_flocks u.1) k' own' ty' <->
     bsd_holds (g_bsd_flocks t) k' own' ty' /\ ~ (k' = k /\ own' = vf_addr vf)) /\
  r.2 <= 0 /\
  (r.2 = 0 -> exists t0, world_ok t0 /\ g_file_locks r.1 = g_file_locks t0 /\
     bsd_replaced (g_bsd_flocks t0) (g_bsd_flocks r.1) k (vf_addr vf) (if excl then F_WRLCK else F_RDLCK)) /\
  (nb = true -> r.2 <> 0 -> r.1 = t).
Proof.
  intros Henv Ht. cbv zeta. split.
  - change (fs_flocks_apply env t (Some vf) LOCK_UN) with
      (bump (t {{ g_bsd_flocks := bsd_withdraw (bsd_own (fs_lock_key vf) vf) (g_bsd_flocks t) }})
         (existsb (bsd_own (fs_lock_key vf) vf) (g_bsd_flocks t)), 0). cbn [fst snd]. split; [done|].
    rewrite bump_bsd. intros k' own' ty'. unfold bsd_holds.
    change (g_bsd_flocks (t {{ g_bsd_flocks := bsd_withdraw (bsd_own (fs_lock_key vf) vf) (g_bsd_flocks t) }}))
      with (bsd_withdraw (bsd_own (fs_lock_key vf) vf) (g_bsd_flocks t)).
    rewrite (bsd_active_withdraw _ _ (fun h H => proj1 (proj1 (bsd_own_spec (fs_lock_key vf) vf h) H))). split.
    + intros (b & [Hb Hno%negb_true_iff]%elem_of_filter & H1 & H2 & H3). split; [by exists b|].
      intros [-> ->]. apply elem_of_filter in Hb as [_ Hu].
      by rewrite (proj2 (bsd_own_spec (fs_lock_key vf) vf b)) in Hno.
    + intros [(b & Hb & H1 & H2 & H3) Hn]. exists b. split; [|done]. apply elem_of_filter. split; [done|].
      apply negb_true_iff, not_true_is_false. intros (_ & E1 & E2)%bsd_own_spec. apply Hn. split; congruence.
  - pose proof (flock_loop_world FS_FLOCK_MAX_RETRIES env t vf (fs_lock_key vf)
      (if excl then F_WRLCK else F_RDLCK) nb Henv Ht) as H.
    assert (fs_flocks_apply env t (Some vf)
      (Z.lor (if excl then LOCK_EX else LOCK_SH) (if nb then LOCK_NB else 0)) =
      flock_loop FS_FLOCK_MAX_RETRIES env t vf (fs_lock_key vf) (if excl then F_WRLCK else F_RDLCK) nb) as ->
      by (by destruct excl, nb).
    destruct H as (_ & H1 & H2 & H3); [destruct excl; auto|done].
Qed.

Lemma fs_flocks_apply_correct_witness :
  let k := fs_lock_key file_a in
  let u := fs_flocks_apply quiet_env split_locks (Some file_a) LOCK_UN in
  let r := fs_flocks_apply quiet_env split_locks (Some file_a) (Z.lor LOCK_EX LOCK_NB) in
  (u.2 = 0 /\ forall k' own' ty', bsd_holds (g_bsd_flocks u.1) k' own' ty' <->
     bsd_holds (g_bsd_flocks split_locks) k' own' ty' /\ ~ (k' = k /\ own' = vf_addr file_a)) /\
  r.2 <= 0 /\
  (r.2 = 0 -> exists t0, world_ok t0 /\ g_file_locks r.1 = g_file_locks t0 /\
     bsd_replaced (g_bsd_flocks t0) (g_bsd_flocks r.1) k (vf_addr file_a) F_WRLCK) /\
  (true = true -> r.2 <> 0 -> r.1 = split_locks).
Proof. exact (fs_flocks_apply_correct quiet_env split_locks file_a true true quiet_ok split_locks_ok). Defined.

(** ** Divergences *)

(** A request whose last byte is the largest offset is computed through a sum
    that overflows. *)
Theorem lock_range_overflow : fs_lock_range (Some file_a) (write_lock 1 I64_MAX) = None.
Proof. reflexivity. Qed.

(** Two processes, each holding a lock on a file of its own, one of them also
    on a second file: the other waits for it and is told EDEADLK at its fifth
    look although the holder waits for nothing. *)
Definition file_b : vfile_t :=
  {| vf_addr := 8192; vf_offset := 0;
     vf_vnode := Some {| vn_ino := 8; vn_mnt := 64; vn_size := 100; vn_stat := None |} |}.
Definition woken_env (n : nat) : wait_env :=
  {| we_current := true; we_signal_before := false; we_token := true; we_linked := true;
     we_reason := PROC_WAKE_EVENT; we_signal_after := false;
     we_others_preparing := fun t => t; we_others_sleeping := fun t => t |}.

Theorem spurious_deadlock :
  exists t, run_lock_ops [LSet true quiet_env (Some file_a) (write_lock 0 1) FS_LOCK_OWNER_PID 1 false;
                          LSet true quiet_env (Some file_b) (write_lock 0 1) FS_LOCK_OWNER_PID 2 false] no_locks
            = Some t /\
    fs_locks_set true woken_env t (Some file_a) (write_lock 0 1) FS_LOCK_OWNER_PID 2 true = Some (t, - EDEADLK).
Proof. eexists. split; [vm_compute; reflexivity|]. vm_compute. reflexivity. Qed.
