(* ===== verification/SysvSem.v ===== *)
(** * System V semaphores (kernel/ipc/sysv_sem.c)

    A fixed table of semaphore sets under one spinlock: semget, semctl and
    semop with its waiting loop.  Each critical section is one function on
    the table; user copies, the clock, the park and what other tasks do while
    the lock is released are arguments.  [None] is an access outside an
    array. *)

From S2P Require Import Prelude.

(** ** Constants *)

Abbreviation IPC_CREAT := (0x200)%Z (only parsing).
Abbreviation IPC_EXCL := (0x400)%Z (only parsing).
Abbreviation IPC_NOWAIT := (0x800)%Z (only parsing).
Abbreviation IPC_64_BIT := (0x100)%Z (only parsing).
Abbreviation IPC_RMID := (0)%Z (only parsing).
Abbreviation IPC_SET := (1)%Z (only parsing).
Abbreviation IPC_STAT := (2)%Z (only parsing).
Abbreviation IPC_INFO := (3)%Z (only parsing).
Abbreviation GETPID := (11)%Z (only parsing).
Abbreviation GETVAL := (12)%Z (only parsing).
Abbreviation GETALL := (13)%Z (only parsing).
Abbreviation GETNCNT := (14)%Z (only parsing).
Abbreviation GETZCNT := (15)%Z (only parsing).
Abbreviation SETVAL := (16)%Z (only parsing).
Abbreviation SETALL := (17)%Z (only parsing).
Abbreviation SEM_STAT := (18)%Z (only parsing).
Abbreviation SEM_INFO := (19)%Z (only parsing).
Abbreviation SEM_STAT_ANY := (20)%Z (only parsing).
Definition SYSV_SEM_MAX : Z := 32.
Definition SYSV_SEM_PER_SET : Z := 64.

(** ** Data *)

Record sysv_sembuf_t := { sem_num : Z; sem_op : Z; sem_flg : Z }.

Record sysv_ipc_perm64_t := {
  ip_key : Z; ip_uid : Z; ip_gid : Z; ip_cuid : Z; ip_cgid : Z; ip_mode : Z; ip_seq : Z;
}.
Record sysv_semid64_ds_t := { sem_perm : sysv_ipc_perm64_t; sem_nsems : Z }.

Record sysv_seminfo_t := {
  semmap : Z; semmni : Z; semmns : Z; semmnu : Z; semmsl : Z; semopm : Z; semume : Z;
  semusz : Z; semvmx : Z; semaem : Z;
}.

Record sysv_sem_set_t := {
  used : bool; key : Z; nsems : Z; uid : Z; gid : Z; cuid : Z; cgid : Z; mode : Z;
  val : list Z; ncnt : list Z; zcnt : list Z; last_pid : Z;
}.

(** The table and the indexes of the sets whose waiters were woken, newest
    first. *)
Record sems := { g_sem : list sysv_sem_set_t; sem_wakes : list Z }.

Definition put_set (s : sems) (i : Z) (x : sysv_sem_set_t) : option sems :=
  l ← wr (g_sem s) i x;
  Some (s {{ g_sem := l }}).

Definition wake_set (s : sems) (i : Z) : sems := s {{ sem_wakes := i :: sem_wakes s }}.

Definition sem_valid_locked (s : sems) (semid : Z) : option bool :=
  if (0 <=? semid) && (semid <? SYSV_SEM_MAX)
  then x ← rd (g_sem s) semid; Some (used x)
  else Some false.

(** ** semget *)

(** [euid], [egid]: of the current task. *)
Definition sysv_sem_get (s : sems) (euid egid : Z) (k n semflg : Z) : option (sems * Z) :=
  if (n <? 0) || (SYSV_SEM_PER_SET <? n) then Some (s, - EINVAL)
  else
    r ← for_return 0 SYSV_SEM_MAX (fun i =>
      x ← rd (g_sem s) i;
      if used x && (key x =? k) && negb (k =? 0) then
        if c_true (Z.land semflg IPC_CREAT) && c_true (Z.land semflg IPC_EXCL)
        then Some (Some (- EEXIST))
        else if (0 <? n) && (nsems x <? n) then Some (Some (- EINVAL))
        else Some (Some i)
      else Some None);
    match r with
    | Some r => Some (s, r)
    | None =>
        if negb (c_true (Z.land semflg IPC_CREAT)) then Some (s, - ENOENT)
        else if n <=? 0 then Some (s, - EINVAL)
        else
          r ← for_return 0 SYSV_SEM_MAX (fun i =>
            x ← rd (g_sem s) i;
            if negb (used x) then Some (Some i) else Some None);
          match r with
          | Some i =>
              let zeros := replicate (Z.to_nat SYSV_SEM_PER_SET) 0 in
              s ← put_set s i
                {| used := true; key := k; nsems := n; uid := euid; gid := egid;
                   cuid := euid; cgid := egid; mode := Z.land semflg 511;
                   val := zeros; ncnt := zeros; zcnt := zeros; last_pid := 0 |};
              Some (s, i)
          | None => Some (s, - ENOSPC)
          end
    end.

(** ** semctl *)

(** The argument: its value, whether the user copy succeeds, SETALL's stage
    buffer after the copy ([SYSV_SEM_PER_SET] values), the structure IPC_SET
    reads, and what others do to the table while the lock is released. *)
Record ctl_arg := {
  ca_raw : Z; ca_copy_ok : bool; ca_vals : list Z; ca_ds : sysv_semid64_ds_t;
  ca_others : sems -> sems;
}.

(** What is copied out. *)
Inductive ctl_out :=
| OutNone | OutInfo (i : sysv_seminfo_t) | OutVals (l : list Z) | OutDs (d : sysv_semid64_ds_t).

(** The highest used index and the number of used sets. *)
Definition sem_usage (s : sems) : option (Z * Z) :=
  for_ 0 SYSV_SEM_MAX (fun i '(highest, n) =>
    x ← rd (g_sem s) i;
    Some (if used x then (i, n + 1) else (highest, n))) (-1, 0).

(** [pid]: of the current task, 0 without one. *)
Definition sysv_sem_control (s : sems) (pid semid semnum cmd : Z) (arg : ctl_arg)
  : option (sems * Z * ctl_out) :=
  let cmd := Z.land cmd (Z.lnot IPC_64_BIT) in
  if (cmd =? IPC_INFO) || (cmd =? SEM_INFO) then
    '(highest, n) ← sem_usage s;
    let info := {| semmap := 0; semmni := SYSV_SEM_MAX;
                   semmns := SYSV_SEM_MAX * SYSV_SEM_PER_SET; semmnu := 0;
                   semmsl := SYSV_SEM_PER_SET; semopm := SYSV_SEM_PER_SET; semume := 0;
                   semusz := if cmd =? SEM_INFO then n else 1; semvmx := 32767;
                   semaem := 0 |} in
    Some (if (ca_raw arg =? 0) || negb (ca_copy_ok arg) then (s, - EFAULT, OutNone)
          else (s, if highest <? 0 then 0 else highest, OutInfo info))
  else
    valid ← sem_valid_locked s semid;
    if negb valid then Some (s, - EINVAL, OutNone)
    else
      set ← rd (g_sem s) semid;
      if (semnum <? 0)
         || ((nsems set <=? semnum) && negb (cmd =? IPC_RMID) && negb (cmd =? IPC_STAT)
             && negb (cmd =? SEM_STAT) && negb (cmd =? SEM_STAT_ANY) && negb (cmd =? SEM_INFO))
      then Some (s, - EINVAL, OutNone)
      else if cmd =? IPC_RMID then
        s ← put_set s semid (set {{ used := false }});
        Some (wake_set s semid, 0, OutNone)
      else if cmd =? GETVAL then v ← rd (val set) semnum; Some (s, v, OutNone)
      else if cmd =? GETPID then Some (s, last_pid set, OutNone)
      else if cmd =? GETNCNT then c ← rd (ncnt set) semnum; Some (s, c, OutNone)
      else if cmd =? GETZCNT then c ← rd (zcnt set) semnum; Some (s, c, OutNone)
      else if cmd =? SETVAL then
        l ← wr (val set) semnum (Z.land (ca_raw arg) 0xffff);
        s ← put_set s semid (set {{ val := l; last_pid := pid }});
        Some (wake_set s semid, 0, OutNone)
      else if cmd =? GETALL then
        if ca_raw arg =? 0 then Some (s, - EINVAL, OutNone)
        else Some (if ca_copy_ok arg then (s, 0, OutVals (take (Z.to_nat (nsems set)) (val set)))
                   else (s, - EFAULT, OutNone))
      else if cmd =? SETALL then
        if ca_raw arg =? 0 then Some (s, - EINVAL, OutNone)
        else
          let n := nsems set in
          let s := ca_others arg s in
          if negb (ca_copy_ok arg) then Some (s, - EFAULT, OutNone)
          else
            valid ← sem_valid_locked s semid;
            if negb valid then Some (s, - EINVAL, OutNone)
            else
              set ← rd (g_sem s) semid;
              let l := take (Z.to_nat n) (ca_vals arg) ++ drop (Z.to_nat n) (val set) in
              s ← put_set s semid (set {{ val := l; last_pid := pid }});
              Some (wake_set s semid, 0, OutNone)
      else if cmd =? IPC_SET then
        let s := ca_others arg s in
        if (ca_raw arg =? 0) || negb (ca_copy_ok arg) then Some (s, - EFAULT, OutNone)
        else
          valid ← sem_valid_locked s semid;
          if negb valid then Some (s, - EINVAL, OutNone)
          else
            set ← rd (g_sem s) semid;
            let p := sem_perm (ca_ds arg) in
            s ← put_set s semid
              (set {{ uid := ip_uid p; gid := ip_gid p;
                      mode := Z.lor (Z.land (mode set) (u32 (Z.lnot 511))) (Z.land (ip_mode p) 511) }});
            Some (s, 0, OutNone)
      else if (cmd =? IPC_STAT) || (cmd =? SEM_STAT) || (cmd =? SEM_STAT_ANY) then
        let ds := {| sem_perm := {| ip_key := key set; ip_uid := uid set; ip_gid := gid set;
                                    ip_cuid := cuid set; ip_cgid := cgid set; ip_mode := mode set;
                                    ip_seq := semid |};
                     sem_nsems := nsems set |} in
        Some (if (ca_raw arg =? 0) || negb (ca_copy_ok arg) then (s, - EFAULT, OutNone)
              else (s, if cmd =? IPC_STAT then 0 else semid, OutDs ds))
      else Some (s, - EINVAL, OutNone).

(** ** semop *)

(** Whether the operations can all be done now: an error, or the semaphore
    to wait for and whether for zero. *)
Inductive can_result := CanError (e : Z) | CanWait (wait_sem : Z) (wait_zero : bool) | CanApply.

Fixpoint sem_ops_can_apply (set : sysv_sem_set_t) (ops : list sysv_sembuf_t)
  : option can_result :=
  match ops with
  | [] => Some CanApply
  | o :: ops' =>
      let n := sem_num o in
      let op := sem_op o in
      if u32 (nsems set) <=? n then Some (CanError (- EFBIG))
      else
        v ← rd (val set) n;
        if (op <? 0) && (v <? u16 (- op)) then Some (CanWait n false)
        else if (op =? 0) && negb (v =? 0) then Some (CanWait n true)
        else sem_ops_can_apply set ops'
  end.

(** The loop of [sem_ops_apply], on the values. *)
Fixpoint sem_ops_apply_vals (l : list Z) (ops : list sysv_sembuf_t) : option (list Z) :=
  match ops with
  | [] => Some l
  | o :: ops' =>
      let n := sem_num o in
      let op := sem_op o in
      v ← rd l n;
      l ← wr l n (if op <? 0 then u16 (v - u16 (- op)) else u16 (v + u16 op));
      sem_ops_apply_vals l ops'
  end.

Definition sem_ops_apply (set : sysv_sem_set_t) (pid : Z) (ops : list sysv_sembuf_t)
  : option sysv_sem_set_t :=
  l ← sem_ops_apply_vals (val set) ops;
  Some (set {{ val := l; last_pid := pid }}).

(** How the critical section of one turn of the loop ends: a return, a
    wait token to prepare, or a wait on a semaphore, already counted. *)
Inductive turn_end :=
| TurnReturn (r : Z) | TurnPrepare | TurnWait (wait_sem : Z) (wait_zero : bool).

(** What a turn meets: a pending signal, the clock, whether a wait token is
    given, and what others do while the token is prepared and while the task
    is parked. *)
Record sem_turn := {
  st_signal : bool; st_ticks : Z; st_prepared : bool;
  st_preparing : sems -> sems; st_parked : sems -> sems;
}.

Definition deadline_passed (ticks deadline : Z) : bool :=
  c_true deadline && (0 <=? s64 (ticks - deadline)).

(** The waiter counts of one semaphore. *)
Definition sem_wait_inc (set : sysv_sem_set_t) (n : Z) (wait_zero : bool)
  : option sysv_sem_set_t :=
  if wait_zero
  then c ← rd (zcnt set) n; l ← wr (zcnt set) n (u16 (c + 1)); Some (set {{ zcnt := l }})
  else c ← rd (ncnt set) n; l ← wr (ncnt set) n (u16 (c + 1)); Some (set {{ ncnt := l }}).

Definition sem_wait_dec (set : sysv_sem_set_t) (n : Z) (wait_zero : bool)
  : option sysv_sem_set_t :=
  if wait_zero
  then c ← rd (zcnt set) n;
       if 0 <? c then l ← wr (zcnt set) n (u16 (c - 1)); Some (set {{ zcnt := l }}) else Some set
  else c ← rd (ncnt set) n;
       if 0 <? c then l ← wr (ncnt set) n (u16 (c - 1)); Some (set {{ ncnt := l }}) else Some set.

(** One critical section of the loop; [token]: a wait token is held. *)
Definition sem_turn_locked (s : sems) (pid semid : Z) (ops : list sysv_sembuf_t)
    (deadline : Z) (token : bool) (t : sem_turn) : option (sems * turn_end) :=
  valid ← sem_valid_locked s semid;
  if negb valid then Some (s, TurnReturn (- EINVAL))
  else
    set ← rd (g_sem s) semid;
    can ← sem_ops_can_apply set ops;
    match can with
    | CanError e => Some (s, TurnReturn e)
    | CanApply =>
        set ← sem_ops_apply set pid ops;
        s ← put_set s semid set;
        Some (wake_set s semid, TurnReturn 0)
    | CanWait wait_sem wait_zero =>
        if existsb (fun o => c_true (Z.land (sem_flg o) IPC_NOWAIT)) ops
        then Some (s, TurnReturn (- EAGAIN))
        else if st_signal t then Some (s, TurnReturn (- EINTR))
        else if deadline_passed (st_ticks t) deadline then Some (s, TurnReturn (- EAGAIN))
        else if negb token then Some (s, TurnPrepare)
        else
          set ← sem_wait_inc set wait_sem wait_zero;
          s ← put_set s semid set;
          Some (s, TurnWait wait_sem wait_zero)
    end.

(** The loop, on the turns [env] gives; [Some (s, None)]: still waiting
    after all of them. *)
Fixpoint sem_timedop_loop (env : list sem_turn) (s : sems) (pid semid : Z)
    (ops : list sysv_sembuf_t) (deadline : Z) (token : bool) : option (sems * option Z) :=
  match env with
  | [] => Some (s, None)
  | t :: env' =>
      '(s, e) ← sem_turn_locked s pid semid ops deadline token t;
      match e with
      | TurnReturn r => Some (s, Some r)
      | TurnPrepare =>
          let s := st_preparing t s in
          if st_prepared t then sem_timedop_loop env' s pid semid ops deadline true
          else Some (s, Some (- EAGAIN))
      | TurnWait wait_sem wait_zero =>
          let s := st_parked t s in
          set ← rd (g_sem s) semid;
          set ← sem_wait_dec set wait_sem wait_zero;
          s ← put_set s semid set;
          sem_timedop_loop env' s pid semid ops deadline false
      end
  end.

(** [sops]: the user pointer; [ops]: what the copy reads, [None] when it
    faults. *)
Definition sysv_sem_timedop (env : list sem_turn) (s : sems) (pid semid sops nsops : Z)
    (ops : option (list sysv_sembuf_t)) (deadline : Z) : option (sems * option Z) :=
  if (sops =? 0) || (nsops =? 0) || (64 <? nsops) then Some (s, Some (- EINVAL))
  else
    match ops with
    | None => Some (s, Some (- EFAULT))
    | Some ops => sem_timedop_loop env s pid semid ops deadline false
    end.

Definition sysv_sem_op (env : list sem_turn) (s : sems) (pid semid sops nsops : Z)
    (ops : option (list sysv_sembuf_t)) : option (sems * option Z) :=
  sysv_sem_timedop env s pid semid sops nsops ops 0.

Definition sysv_sem_count (s : sems) : option Z :=
  for_ 0 SYSV_SEM_MAX (fun i n =>
    x ← rd (g_sem s) i;
    Some (if used x then n + 1 else n)) 0.
