(* ===== verification/SemTheory.v ===== *)
(** * Semaphore sets: invariant and lemmas

    The shape of the table, that every critical section keeps it, and what
    the test and the application of an array of operations do to the
    values, and what the table is when the waiting loop ends. *)

From S2P Require Import Prelude SysvSem.
From stdpp Require Import list.
#[local] Open Scope Z_scope.

(** ** The invariant *)

Definition cells_ok (l : list Z) : Prop := length l = 64%nat /\ Forall in_u16 l.

Record set_ok (x : sysv_sem_set_t) : Prop := {
  ok_nsems : 0 <= nsems x <= SYSV_SEM_PER_SET;
  ok_used : used x = true -> 0 < nsems x;
  ok_val : cells_ok (val x);
  ok_ncnt : cells_ok (ncnt x);
  ok_zcnt : cells_ok (zcnt x);
}.

Definition keys_unique (l : list sysv_sem_set_t) : Prop :=
  forall i j x y, rd l i = Some x -> rd l j = Some y ->
    used x = true -> used y = true -> key x = key y -> key x <> 0 -> i = j.

Record sems_ok (s : sems) : Prop := {
  ok_length : length (g_sem s) = 32%nat;
  ok_sets : Forall set_ok (g_sem s);
  ok_keys : keys_unique (g_sem s);
}.

(** An operation of the array, at the widths of struct sembuf. *)
Definition sembuf_ok (o : sysv_sembuf_t) : Prop :=
  in_u16 (sem_num o) /\ -32768 <= sem_op o <= 32767.

(** What others may do while the lock is released. *)
Definition keeps_ok (f : sems -> sems) : Prop := forall s, sems_ok s -> sems_ok (f s).
Definition turn_ok (t : sem_turn) : Prop := keeps_ok (st_preparing t) /\ keeps_ok (st_parked t).

(** ** Cells *)

Lemma cells_rd l i : cells_ok l -> 0 <= i < 64 -> exists v, rd l i = Some v /\ in_u16 v.
Proof.
  intros [Hl Hf] Hi. destruct (rd_is_Some l i) as [v Hv]; [lia|].
  exists v. split; [done|]. by eapply (rd_Forall _ l).
Qed.

Lemma cells_wr l i v : cells_ok l -> 0 <= i < 64 -> in_u16 v ->
  exists l', wr l i v = Some l' /\ cells_ok l'.
Proof.
  intros [Hl Hf] Hi Hv. exists (<[Z.to_nat i := v]> l). split.
  - apply wr_Some. lia.
  - split; [by rewrite length_insert|]. by apply Forall_insert.
Qed.

Lemma cells_zero : cells_ok (replicate (Z.to_nat SYSV_SEM_PER_SET) 0).
Proof. split; [done|]. apply Forall_replicate. unfold in_u16. lia. Qed.

(** ** Sets *)

Lemma sems_rd s i : sems_ok s -> 0 <= i < 32 -> exists x, rd (g_sem s) i = Some x /\ set_ok x.
Proof.
  intros Hs Hi. destruct (rd_is_Some (g_sem s) i) as [x Hx].
  { rewrite (ok_length s Hs). lia. }
  exists x. split; [done|]. eapply (rd_Forall _ (g_sem s)); [apply Hs|done].
Qed.

Lemma sem_valid_ok s semid : sems_ok s ->
  exists b, sem_valid_locked s semid = Some b /\
    (b = true <-> exists x, rd (g_sem s) semid = Some x /\ used x = true).
Proof.
  intros Hs. unfold sem_valid_locked. split_if; reflect.
  - destruct (sems_rd s semid Hs) as (x & Hx & _); [unfold SYSV_SEM_MAX in *; lia|].
    rewrite Hx. exists (used x). split; [done|]. split; [eauto|].
    intros (y & Hy & Hu). by simplify_eq.
  - exists false. split; [done|]. split; [done|]. intros (x & Hx & _).
    apply rd_Some_range in Hx. rewrite (ok_length s Hs) in Hx.
    apply andb_false_iff in E. destruct E; reflect; unfold SYSV_SEM_MAX in *; lia.
Qed.

(** The new set has a key no other used set has. *)
Definition key_fresh (s : sems) (i : Z) (x : sysv_sem_set_t) : Prop :=
  used x = true -> key x <> 0 ->
  forall j y, rd (g_sem s) j = Some y -> used y = true -> key y = key x -> j = i.

Lemma put_set_ok s i x : sems_ok s -> 0 <= i < 32 -> set_ok x -> key_fresh s i x ->
  exists s', put_set s i x = Some s' /\ sems_ok s' /\ sem_wakes s' = sem_wakes s /\
    rd (g_sem s') i = Some x /\ (forall j, j <> i -> rd (g_sem s') j = rd (g_sem s) j).
Proof.
  intros Hs Hi Hx Hfresh. unfold put_set.
  pose proof (wr_Some (g_sem s) i x ltac:(rewrite (ok_length s Hs); lia)) as Hw.
  rewrite Hw. cbn [mbind option_bind]. eexists. split; [done|].
  pose proof (rd_wr_eq _ _ _ _ Hw) as Heq.
  assert (forall j, j <> i -> rd (<[Z.to_nat i := x]> (g_sem s)) j = rd (g_sem s) j) as Hne.
  { intros j Hj. apply (rd_wr_ne _ _ i j x); [congruence|done]. }
  split_and!; [|done|done|done]. split.
  - rewrite <- (ok_length s Hs). apply length_insert.
  - apply Forall_insert; [apply Hs|done].
  - intros j k a b Hj Hk Ha Hb Hkey Hnz. set (l := <[Z.to_nat i:=x]> (g_sem s)) in *.
    change (g_sem (s {{ g_sem := l }})) with l in Hj, Hk.
    destruct (decide (j = i)) as [->|Hji], (decide (k = i)) as [->|Hki]; [done| | |].
    + rewrite Heq in Hj. rewrite Hne in Hk by done. simplify_eq.
      symmetry. by eapply Hfresh.
    + rewrite Heq in Hk. rewrite Hne in Hj by done. simplify_eq.
      eapply Hfresh; [done|congruence|done..].
    + rewrite Hne in Hj, Hk by done. by eapply (ok_keys s Hs).
Qed.

(** Changing a set in place keeps its key fresh. *)
Lemma key_fresh_same s i x y : sems_ok s -> rd (g_sem s) i = Some x ->
  key y = key x -> (used y = true -> used x = true) -> key_fresh s i y.
Proof.
  intros Hs Hx Hk Hu Huy Hnz j z Hz Huz Hkz.
  eapply (ok_keys s Hs); [done|done|done|by apply Hu|congruence|congruence].
Qed.

Lemma put_same_ok s i x y : sems_ok s -> rd (g_sem s) i = Some x -> set_ok y ->
  key y = key x -> (used y = true -> used x = true) ->
  exists s', put_set s i y = Some s' /\ sems_ok s' /\ sem_wakes s' = sem_wakes s /\
    rd (g_sem s') i = Some y /\ (forall j, j <> i -> rd (g_sem s') j = rd (g_sem s) j).
Proof.
  intros Hs Hx Hy Hk Hu. apply put_set_ok; [done| |done|by eapply key_fresh_same].
  apply rd_Some_range in Hx. rewrite (ok_length s Hs) in Hx. lia.
Qed.

Lemma wake_set_ok s i : sems_ok s -> sems_ok (wake_set s i).
Proof. intros [H1 H2 H3]. by split. Qed.

(** ** semget *)

(** What semget's answer means: an existing set with the key, a new set in a
    free slot, or an error with the table unchanged. *)
Inductive get_answer (s : sems) (euid egid k n flg : Z) : sems -> Z -> Prop :=
| get_found i x : k <> 0 -> rd (g_sem s) i = Some x -> used x = true -> key x = k ->
    n <= nsems x -> ~ (c_true (Z.land flg IPC_CREAT) = true /\ c_true (Z.land flg IPC_EXCL) = true) ->
    get_answer s euid egid k n flg s i
| get_exists i x : k <> 0 -> rd (g_sem s) i = Some x -> used x = true -> key x = k ->
    c_true (Z.land flg IPC_CREAT) = true -> c_true (Z.land flg IPC_EXCL) = true ->
    get_answer s euid egid k n flg s (- EEXIST)
| get_too_small i x : k <> 0 -> rd (g_sem s) i = Some x -> used x = true -> key x = k ->
    nsems x < n ->
    ~ (c_true (Z.land flg IPC_CREAT) = true /\ c_true (Z.land flg IPC_EXCL) = true) ->
    get_answer s euid egid k n flg s (- EINVAL)
| get_bad_count : n < 0 \/ 64 < n -> get_answer s euid egid k n flg s (- EINVAL)
| get_absent : (forall j y, rd (g_sem s) j = Some y -> used y = true -> key y = k -> k = 0) ->
    c_true (Z.land flg IPC_CREAT) = false -> get_answer s euid egid k n flg s (- ENOENT)
| get_empty : n = 0 ->
    (forall j y, rd (g_sem s) j = Some y -> used y = true -> key y = k -> k = 0) ->
    c_true (Z.land flg IPC_CREAT) = true -> get_answer s euid egid k n flg s (- EINVAL)
| get_full : 0 < n <= 64 -> c_true (Z.land flg IPC_CREAT) = true ->
    (forall j y, rd (g_sem s) j = Some y -> used y = true -> key y = k -> k = 0) ->
    (forall j y, rd (g_sem s) j = Some y -> used y = true) -> get_answer s euid egid k n flg s (- ENOSPC)
| get_created i x s' : 0 < n <= 64 -> c_true (Z.land flg IPC_CREAT) = true ->
    rd (g_sem s) i = Some x -> used x = false ->
    (forall j y, rd (g_sem s) j = Some y -> used y = true -> key y = k -> k = 0) ->
    rd (g_sem s') i = Some {| used := true; key := k; nsems := n; uid := euid; gid := egid;
      cuid := euid; cgid := egid; mode := Z.land flg 511;
      val := replicate 64 0; ncnt := replicate 64 0; zcnt := replicate 64 0; last_pid := 0 |} ->
    (forall j, j <> i -> rd (g_sem s') j = rd (g_sem s) j) ->
    get_answer s euid egid k n flg s' i.

(** The second loop of semget: the first free slot becomes the new set. *)
Lemma sem_create_ok s euid egid k n flg : sems_ok s -> 0 < n <= 64 ->
  c_true (Z.land flg IPC_CREAT) = true ->
  (forall j y, rd (g_sem s) j = Some y -> used y = true -> key y = k -> k = 0) ->
  exists s' r,
    (r ← for_return 0 32 (fun i =>
       x ← rd (g_sem s) i; if negb (used x) then Some (Some i) else Some None);
     match r with
     | Some i =>
         s ← put_set s i
           {| used := true; key := k; nsems := n; uid := euid; gid := egid;
              cuid := euid; cgid := egid; mode := Z.land flg 511;
              val := replicate (Z.to_nat 64) 0; ncnt := replicate (Z.to_nat 64) 0;
              zcnt := replicate (Z.to_nat 64) 0; last_pid := 0 |};
         Some (s, i)
     | None => Some (s, - ENOSPC)
     end) = Some (s', r) /\ sems_ok s' /\ get_answer s euid egid k n flg s' r.
Proof.
  intros Hs Hn Hcreat Hno.
  match goal with |- context [for_return 0 32 ?b] => set (search := b) end.
  destruct (for_return 0 32 search) as [[i|]|] eqn:Er; cbn [mbind option_bind].
  - apply for_return_Some in Er as (i' & Hi & Hr & _). unfold search in Hr.
    destruct (sems_rd s i' Hs Hi) as (x & Hx & _). rewrite Hx in Hr. cbn [mbind option_bind] in Hr.
    destruct (used x) eqn:Eu; [done|]. apply (inj Some), (inj Some) in Hr as <-.
    rename i' into i.
    match goal with |- context [put_set s i ?y] =>
      destruct (put_set_ok s i y Hs Hi) as (s' & -> & Hs' & _ & Hrd & Hother) end.
    { split; cbn [nsems used val ncnt zcnt]; unfold SYSV_SEM_PER_SET;
        [lia|lia|apply cells_zero..]. }
    { intros _ Hk j y Hy Hu Hky. by destruct Hk; eapply Hno. }
    exists s', i. split_and!; [done|done|]. by eapply get_created.
  - exists s, (- ENOSPC). split_and!; [done|done|]. apply get_full; [done..|].
    intros j y Hy.
    pose proof (rd_Some_range _ _ _ Hy) as Hj. rewrite (ok_length s Hs) in Hj.
    pose proof (proj1 (for_return_None _ _ _) Er j ltac:(lia)) as Hr. unfold search in Hr.
    rewrite Hy in Hr. cbn [mbind option_bind] in Hr. by destruct (used y).
  - exfalso. revert Er. apply for_return_total. intros j Hj. unfold search.
    destruct (sems_rd s j Hs Hj) as (x & Hx & _). rewrite Hx. cbn [mbind option_bind].
    by repeat case_match.
Qed.

Lemma sysv_sem_get_ok s euid egid k n flg : sems_ok s ->
  exists s' r, sysv_sem_get s euid egid k n flg = Some (s', r) /\ sems_ok s' /\
    get_answer s euid egid k n flg s' r.
Proof.
  intros Hs. unfold sysv_sem_get, SYSV_SEM_MAX, SYSV_SEM_PER_SET.
  destruct ((n <? 0) || (64 <? n)) eqn:En.
  { exists s, (- EINVAL). split_and!; [done|done|]. apply get_bad_count.
    apply orb_true_iff in En as [En|En]; reflect; lia. }
  reflect.
  match goal with |- exists s' r, for_return 0 32 ?b ≫= _ = _ /\ _ => set (search := b) end.
  destruct (for_return 0 32 search) as [[r|]|] eqn:Er; cbn [mbind option_bind].
  - exists s, r. split_and!; [done|done|].
    apply for_return_Some in Er as (i & Hi & Hr & _). unfold search in Hr.
    destruct (sems_rd s i Hs Hi) as (x & Hx & _). rewrite Hx in Hr. cbn [mbind option_bind] in Hr.
    destruct (used x) eqn:Eu; [|done]. destruct (key x =? k) eqn:Ek; [|done].
    destruct (k =? 0) eqn:E0; [done|]. reflect. cbn [andb negb] in Hr.
    assert (0 <= nsems x) as Hns.
    { by destruct (ok_nsems x (rd_Forall _ _ _ _ (ok_sets s Hs) Hx)). }
    destruct (c_true (Z.land flg IPC_CREAT) && c_true (Z.land flg IPC_EXCL)) eqn:Ece.
    { apply (inj Some), (inj Some) in Hr as <-. reflect. by apply (get_exists _ _ _ _ _ _ i x). }
    destruct ((0 <? n) && (nsems x <? n)) eqn:Es; apply (inj Some), (inj Some) in Hr as <-.
    { reflect. apply (get_too_small _ _ _ _ _ _ i x); [done..|].
      intros [Hc He]. by rewrite Hc, He in Ece. }
    apply (get_found _ _ _ _ _ _ i x); [done..| |].
    { apply andb_false_iff in Es as [Es|Es]; reflect; lia. }
    intros [Hc He]. by rewrite Hc, He in Ece.
  - pose proof (proj1 (for_return_None _ _ _) Er) as Hnone. clear Er. rename Hnone into Er.
    assert (forall j y, rd (g_sem s) j = Some y -> used y = true -> key y = k -> k = 0) as Hno.
    { intros j y Hy Hu Hk. pose proof (rd_Some_range _ _ _ Hy) as Hj.
      rewrite (ok_length s Hs) in Hj. specialize (Er j ltac:(lia)). unfold search in Er.
      rewrite Hy in Er. cbn [mbind option_bind] in Er. rewrite Hu, Hk, Z.eqb_refl in Er.
      destruct (k =? 0) eqn:E0; [by reflect|]. cbn [andb negb] in Er. by repeat case_match. }
    destruct (c_true (Z.land flg IPC_CREAT)) eqn:Ec; cbn [negb].
    2:{ exists s, (- ENOENT). split_and!; [done|done|]. by apply get_absent. }
    destruct (n <=? 0) eqn:E0; reflect.
    { exists s, (- EINVAL). split_and!; [done|done|]. apply get_empty; [lia|done|done]. }
    apply sem_create_ok; [done|lia|done|done].
  - exfalso. revert Er. apply for_return_total. intros j Hj. unfold search.
    destruct (sems_rd s j Hs Hj) as (x & Hx & _). rewrite Hx. cbn [mbind option_bind].
    by repeat case_match.
Qed.

(** ** semctl *)

Definition ctl_arg_ok (arg : ctl_arg) : Prop :=
  cells_ok (ca_vals arg) /\ keeps_ok (ca_others arg).

(** Changing the values of a used set, and waking its waiters. *)
Lemma set_vals_ok x l pid : set_ok x -> cells_ok l -> set_ok (x {{ val := l; last_pid := pid }}).
Proof. intros [] Hl. by split. Qed.

Lemma cells_overwrite n l k : cells_ok l -> cells_ok k -> 0 <= n <= 64 ->
  cells_ok (take (Z.to_nat n) l ++ drop (Z.to_nat n) k).
Proof.
  intros [Hl Hfl] [Hk Hfk] Hn. split.
  - rewrite length_app, length_take, length_drop. lia.
  - apply Forall_app. split; [by apply Forall_take|by apply Forall_drop].
Qed.

Lemma sem_usage_ok s : sems_ok s -> exists h n, sem_usage s = Some (h, n).
Proof.
  intros Hs. unfold sem_usage.
  destruct (for_inv (fun _ _ => True) (fun i '(highest, n) =>
    x ← rd (g_sem s) i; Some (if used x then (i, n + 1) else (highest, n)))
    0 SYSV_SEM_MAX (-1, 0)) as ([h n] & H & _); [unfold SYSV_SEM_MAX; lia|done| |].
  - intros i [h n] Hi _. destruct (sems_rd s i Hs Hi) as (x & -> & _). by eexists.
  - eauto.
Qed.

(** What a critical section that changes one set in place leaves. *)
Lemma put_wake_ok s i x y (o : ctl_out) (wake : bool) : sems_ok s -> rd (g_sem s) i = Some x ->
  set_ok y -> key y = key x -> (used y = true -> used x = true) ->
  exists s', (s' ← put_set s i y; Some (if wake then wake_set s' i else s', 0, o)) = Some (s', 0, o) /\
    sems_ok s' /\ rd (g_sem s') i = Some y /\ (forall j, j <> i -> rd (g_sem s') j = rd (g_sem s) j).
Proof.
  intros Hs Hx Hy Hk Hu. destruct (put_same_ok s i x y Hs Hx Hy Hk Hu) as (s' & -> & Hs' & _ & Hr & Ho).
  destruct wake; [exists (wake_set s' i)|exists s']; (split; [done|]); split_and!;
    [by apply wake_set_ok|done|done|done|done|done].
Qed.

(** The set, when the index is valid. *)
Lemma sem_valid_true s semid : sems_ok s -> sem_valid_locked s semid = Some true ->
  exists x, rd (g_sem s) semid = Some x /\ set_ok x /\ used x = true.
Proof.
  intros Hs Hv. destruct (sem_valid_ok s semid Hs) as (b & Hb & Hiff).
  rewrite Hv in Hb. simplify_eq. destruct (proj1 Hiff eq_refl) as (x & Hx & Hu).
  exists x. split_and!; [done| |done]. eapply (rd_Forall _ (g_sem s)); [apply Hs|done].
Qed.

(** SETALL and IPC_SET find the set again after the user copy. *)
Lemma sem_relocked_ok s semid (f : sysv_sem_set_t -> sysv_sem_set_t) (wake : bool) : sems_ok s ->
  (forall y, set_ok y -> set_ok (f y) /\ key (f y) = key y /\ used (f y) = used y) ->
  exists s' r,
    (valid ← sem_valid_locked s semid;
     if negb valid then Some (s, - EINVAL, OutNone)
     else
       set ← rd (g_sem s) semid;
       s ← put_set s semid (f set);
       Some (if wake then wake_set s semid else s, 0, OutNone)) = Some (s', r, OutNone) /\ sems_ok s'.
Proof.
  intros Hs Hf. destruct (sem_valid_ok s semid Hs) as (b & Hb & _). rewrite Hb. cbn [mbind option_bind].
  destruct b; cbn [negb]; [|by eauto].
  destruct (sem_valid_true s semid Hs Hb) as (y & Hy & Hoky & _). rewrite Hy. cbn [mbind option_bind].
  destruct (Hf y Hoky) as (Hok & Hk & Hu).
  destruct (put_wake_ok s semid y (f y) OutNone wake Hs Hy Hok Hk) as (s' & -> & Hs' & _);
    [congruence|eauto].
Qed.

Lemma sysv_sem_control_ok s pid semid semnum cmd arg : sems_ok s -> ctl_arg_ok arg ->
  exists s' r o, sysv_sem_control s pid semid semnum cmd arg = Some (s', r, o) /\ sems_ok s'.
Proof.
  intros Hs [Hvals Hothers]. unfold sysv_sem_control.
  set (c := Z.land cmd (Z.lnot IPC_64_BIT)). clearbody c.
  destruct ((c =? IPC_INFO) || (c =? SEM_INFO)).
  { destruct (sem_usage_ok s Hs) as (h & n & ->). cbn [mbind option_bind].
    destruct (_ || _); eauto. }
  destruct (sem_valid_ok s semid Hs) as (b & Hb & _). rewrite Hb. cbn [mbind option_bind].
  destruct b; cbn [negb]; [|by eauto].
  destruct (sem_valid_true s semid Hs Hb) as (x & Hx & Hok & Hu). rewrite Hx. cbn [mbind option_bind].
  pose proof (ok_nsems x Hok) as Hns. unfold SYSV_SEM_PER_SET in Hns.
  split_if; [by eauto|]. apply orb_false_elim in E as [E1 E2]. reflect.
  split_if.
  { destruct (put_wake_ok s semid x (x {{ used := false }}) OutNone true) as (s' & -> & Hs' & _);
      [done|done| |done|done|eauto]. destruct Hok. by split. }
  assert (forall k, c = k -> k = GETVAL \/ k = GETNCNT \/ k = GETZCNT \/ k = SETVAL ->
    0 <= semnum < 64) as Hrange.
  { intros k -> Hk. destruct (nsems x <=? semnum) eqn:En; [|reflect; lia].
    destruct Hk as [E'|[E'|[E'|E']]]; subst k; discriminate E2. }
  reflect.
  split_if. { destruct (cells_rd (val x) semnum) as (v & -> & _); [apply Hok| |by eauto].
    apply (Hrange c); [done|]. reflect. tauto. }
  split_if; [by eauto|].
  split_if. { destruct (cells_rd (ncnt x) semnum) as (v & -> & _); [apply Hok| |by eauto].
    apply (Hrange c); [done|]. reflect. tauto. }
  split_if. { destruct (cells_rd (zcnt x) semnum) as (v & -> & _); [apply Hok| |by eauto].
    apply (Hrange c); [done|]. reflect. tauto. }
  split_if.
  { destruct (cells_wr (val x) semnum (Z.land (ca_raw arg) 0xffff)) as (l & -> & Hl);
      [apply Hok|apply (Hrange c); [done|]; reflect; tauto| |].
    { change 0xffff with (Z.ones 16). rewrite Z.land_ones by lia. unfold in_u16. zlia. }
    cbn [mbind option_bind].
    destruct (put_wake_ok s semid x (x {{ val := l; last_pid := pid }}) OutNone true)
      as (s' & -> & Hs' & _); [done|done|by apply set_vals_ok|done|done|eauto]. }
  split_if. { split_if; [by eauto|]. split_if; eauto. }
  assert (sems_ok (ca_others arg s)) as Hs2 by by apply Hothers.
  split_if.
  { split_if; [by eauto|]. split_if; [by eauto|].
    destruct (sem_relocked_ok _ semid (fun y => y {{ val := take (Z.to_nat (nsems x)) (ca_vals arg) ++
      drop (Z.to_nat (nsems x)) (val y); last_pid := pid }}) true Hs2) as (s' & r & H & Hs').
    { intros y Hy. split; [|done]. apply set_vals_ok; [done|]. by apply cells_overwrite; [|apply Hy|]. }
    exists s', r, OutNone. split; [exact H|done]. }
  split_if.
  { split_if; [by eauto|].
    destruct (sem_relocked_ok _ semid (fun y => y {{ uid := ip_uid (sem_perm (ca_ds arg));
      gid := ip_gid (sem_perm (ca_ds arg)); mode := Z.lor (Z.land (mode y) (u32 (Z.lnot 511)))
        (Z.land (ip_mode (sem_perm (ca_ds arg))) 511) }}) false Hs2) as (s' & r & H & Hs').
    { intros y []. by split. }
    exists s', r, OutNone. split; [exact H|done]. }
  split_if; [split_if; eauto|eauto].
Qed.

(** ** The array of operations *)

(** An operation the set allows now. *)
Definition op_allowed (x : sysv_sem_set_t) (o : sysv_sembuf_t) : Prop :=
  sem_num o < nsems x /\
  exists v, rd (val x) (sem_num o) = Some v /\
    (sem_op o < 0 -> - sem_op o <= v) /\ (sem_op o = 0 -> v = 0).

(** The sum of the operations on semaphore [n]. *)
Fixpoint op_total (n : Z) (ops : list sysv_sembuf_t) : Z :=
  match ops with
  | [] => 0
  | o :: ops' => (if sem_num o =? n then sem_op o else 0) + op_total n ops'
  end.

(** The first operation that is not allowed decides. *)
Definition can_means (x : sysv_sem_set_t) (ops : list sysv_sembuf_t) (r : can_result) : Prop :=
  match r with
  | CanApply => Forall (op_allowed x) ops
  | CanError e => e = - EFBIG /\ exists o, o ∈ ops /\ nsems x <= sem_num o
  | CanWait n zero => 0 <= n < nsems x /\ exists o v, o ∈ ops /\ sem_num o = n /\
      rd (val x) n = Some v /\
      (if zero then sem_op o = 0 /\ v <> 0 else sem_op o < 0 /\ v < - sem_op o)
  end.

Lemma can_means_cons x o ops r : op_allowed x o -> can_means x ops r -> can_means x (o :: ops) r.
Proof.
  intros Ho. destruct r as [e|n z|]; cbn [can_means].
  - intros (-> & o' & Hin & Hn). split; [done|]. exists o'. split; [by right|done].
  - intros (Hn & o' & v & Hin & H). split; [done|]. exists o', v. split; [by right|done].
  - by constructor.
Qed.

Lemma sem_ops_can_apply_ok x ops : set_ok x -> Forall sembuf_ok ops ->
  exists r, sem_ops_can_apply x ops = Some r /\ can_means x ops r.
Proof.
  intros Hx Hops. pose proof (ok_nsems x Hx) as Hns. unfold SYSV_SEM_PER_SET in Hns.
  induction Hops as [|o ops [Hnum Hop] _ (r & IHr & IH)]; cbn [sem_ops_can_apply].
  { exists CanApply. split; [done|]. by constructor. }
  rewrite u32_small by (unfold in_u32; lia). unfold in_u16 in Hnum.
  split_if; reflect.
  { eexists. split; [done|]. split; [done|]. exists o. split; [left|lia]. }
  destruct (cells_rd (val x) (sem_num o)) as (v & Hv & Hvr); [apply Hx|lia|].
  rewrite Hv. cbn [mbind option_bind]. unfold in_u16 in Hvr.
  destruct ((sem_op o <? 0) && (v <? u16 (- sem_op o))) eqn:E1.
  { reflect. rewrite u16_small in * by (unfold in_u16; lia).
    eexists. split; [done|]. split; [lia|]. exists o, v. split_and!; [left|done|done|lia|lia]. }
  destruct ((sem_op o =? 0) && negb (v =? 0)) eqn:E2.
  { reflect. eexists. split; [done|]. split; [lia|].
    exists o, v. split_and!; [left|done|done|lia|lia]. }
  exists r. split; [done|]. apply can_means_cons; [|done]. split; [lia|].
  exists v. split; [done|]. split.
  - intros Hneg. rewrite u16_small in E1 by (unfold in_u16; lia).
    apply andb_false_iff in E1 as [E1|E1]; reflect; lia.
  - intros Hz. apply andb_false_iff in E2 as [E2|E2]; reflect; lia.
Qed.

(** Both branches of the application add the operation modulo 2^16. *)
Lemma apply_step v op : -32768 <= op <= 32767 ->
  (if op <? 0 then u16 (v - u16 (- op)) else u16 (v + u16 op)) = u16 (v + op).
Proof. intros H. unfold u16. split_if; reflect; zlia. Qed.

Lemma sem_ops_apply_vals_ok l ops : cells_ok l -> Forall sembuf_ok ops ->
  Forall (fun o => sem_num o < 64) ops ->
  exists l', sem_ops_apply_vals l ops = Some l' /\ cells_ok l' /\
    forall n v, rd l n = Some v -> rd l' n = Some (u16 (v + op_total n ops)).
Proof.
  intros Hl Hops. revert l Hl.
  induction Hops as [|o ops [Hnum Hop] _ IH]; intros l Hl Hin; cbn [sem_ops_apply_vals op_total].
  { exists l. split_and!; [done|done|]. intros n v Hv. rewrite Hv, Z.add_0_r, u16_small; [done|].
    eapply (rd_Forall _ l); [apply Hl|done]. }
  apply Forall_cons in Hin as [Ho Hin]. unfold in_u16 in Hnum.
  destruct (cells_rd l (sem_num o) Hl) as (v & Hv & _); [lia|].
  rewrite Hv. cbn [mbind option_bind]. rewrite apply_step by done.
  destruct (cells_wr l (sem_num o) (u16 (v + sem_op o)) Hl) as (l1 & Hw & Hl1);
    [lia|apply u16_range|].
  rewrite Hw. cbn [mbind option_bind].
  destruct (IH l1 Hl1 Hin) as (l' & -> & Hl' & Hvals). exists l'. split_and!; [done|done|].
  intros n w Hn. destruct (sem_num o =? n) eqn:E; reflect.
  - subst n. rewrite Hv in Hn. simplify_eq.
    rewrite (Hvals _ _ (rd_wr_eq _ _ _ _ Hw)). f_equal. unfold u16.
    rewrite Zplus_mod_idemp_l. f_equal. lia.
  - apply Hvals. by rewrite (rd_wr_ne _ _ _ _ _ E Hw).
Qed.

(** With each semaphore named once, what is allowed never goes below zero. *)
Lemma op_total_absent n ops : n ∉ map sem_num ops -> op_total n ops = 0.
Proof.
  induction ops as [|o ops IH]; [done|]. cbn [map op_total]. intros Hn.
  apply not_elem_of_cons in Hn as [Hne Hn]. split_if; reflect; [congruence|]. by rewrite IH.
Qed.

Lemma op_total_nonneg x ops n v : Forall (op_allowed x) ops -> NoDup (map sem_num ops) ->
  rd (val x) n = Some v -> in_u16 v -> 0 <= v + op_total n ops.
Proof.
  unfold in_u16. intros Hall Hnd Hv Hr. induction Hall as [|o ops Ho _ IH]; cbn [op_total]; [lia|].
  cbn [map] in Hnd. apply NoDup_cons in Hnd as [Hnin Hnd]. specialize (IH Hnd).
  split_if; reflect; [|lia]. subst n. rewrite (op_total_absent _ _ Hnin) in *.
  destruct Ho as (_ & w & Hw & Hneg & _). rewrite Hv in Hw. simplify_eq. lia.
Qed.

(** ** The waiting loop *)

(** The set exists and allows every operation. *)
Definition all_allowed (s : sems) (semid : Z) (ops : list sysv_sembuf_t) : Prop :=
  exists x, rd (g_sem s) semid = Some x /\ used x = true /\ Forall (op_allowed x) ops.

(** The operations were all done, at once, on a set that allowed them: from
    table [s0] to table [s']; only the values and the pid of this set change,
    and its waiters are woken. *)
Definition applied (s0 s' : sems) (pid semid : Z) (ops : list sysv_sembuf_t) : Prop :=
  exists x l, rd (g_sem s0) semid = Some x /\ used x = true /\ Forall (op_allowed x) ops /\
    rd (g_sem s') semid = Some (x {{ val := l; last_pid := pid }}) /\
    (forall n v, rd (val x) n = Some v -> rd l n = Some (u16 (v + op_total n ops))) /\
    (forall j, j <> semid -> rd (g_sem s') j = rd (g_sem s0) j) /\
    sem_wakes s' = semid :: sem_wakes s0.

(** Nothing stops the wait in this turn. *)
Definition may_wait (ops : list sysv_sembuf_t) (deadline : Z) (t : sem_turn) : Prop :=
  existsb (fun o => c_true (Z.land (sem_flg o) IPC_NOWAIT)) ops = false /\
  st_signal t = false /\ deadline_passed (st_ticks t) deadline = false.

(** Only the waiter counts of set [semid] differ. *)
Definition counts_only (semid : Z) (s s' : sems) : Prop :=
  sem_wakes s' = sem_wakes s /\
  (forall j, j <> semid -> rd (g_sem s') j = rd (g_sem s) j) /\
  exists x n z, rd (g_sem s) semid = Some x /\ rd (g_sem s') semid = Some (x {{ ncnt := n; zcnt := z }}).

(** The waiter counts are the only fields the two steps of a wait change. *)
Lemma sem_wait_step_ok (f : sysv_sem_set_t -> Z -> bool -> option sysv_sem_set_t) x n z :
  f = sem_wait_inc \/ f = sem_wait_dec -> set_ok x -> 0 <= n < 64 ->
  exists cn cz, f x n z = Some (x {{ ncnt := cn; zcnt := cz }}) /\ set_ok (x {{ ncnt := cn; zcnt := cz }}).
Proof.
  intros Hf Hx Hn.
  destruct (cells_rd (ncnt x) n (ok_ncnt x Hx) Hn) as (c & Hc & _).
  destruct (cells_rd (zcnt x) n (ok_zcnt x Hx) Hn) as (c' & Hc' & _).
  assert (x {{ ncnt := ncnt x; zcnt := zcnt x }} = x) as Hid by (by destruct x).
  assert (forall k, exists l, wr (ncnt x) n (u16 k) = Some l /\ set_ok (x {{ ncnt := l; zcnt := zcnt x }})) as HN.
  { intros k. destruct (cells_wr (ncnt x) n (u16 k) (ok_ncnt x Hx) Hn) as (l & Hw & Hl);
      [apply u16_range|]. exists l. split; [done|]. destruct Hx. by split. }
  assert (forall k, exists l, wr (zcnt x) n (u16 k) = Some l /\ set_ok (x {{ ncnt := ncnt x; zcnt := l }})) as HZ.
  { intros k. destruct (cells_wr (zcnt x) n (u16 k) (ok_zcnt x Hx) Hn) as (l & Hw & Hl);
      [apply u16_range|]. exists l. split; [done|]. destruct Hx. by split. }
  destruct Hf as [E|E]; subst f; unfold sem_wait_inc, sem_wait_dec; destruct z;
    rewrite ?Hc, ?Hc'; cbn [mbind option_bind].
  - destruct (HZ (c' + 1)) as (l & -> & Hok). by exists (ncnt x), l.
  - destruct (HN (c + 1)) as (l & -> & Hok). by exists l, (zcnt x).
  - split_if; [|exists (ncnt x), (zcnt x); by rewrite Hid].
    destruct (HZ (c' - 1)) as (l & -> & Hok). by exists (ncnt x), l.
  - split_if; [|exists (ncnt x), (zcnt x); by rewrite Hid].
    destruct (HN (c - 1)) as (l & -> & Hok). by exists l, (zcnt x).
Qed.

Lemma sem_wait_put_ok (f : sysv_sem_set_t -> Z -> bool -> option sysv_sem_set_t) s semid x n z :
  f = sem_wait_inc \/ f = sem_wait_dec -> sems_ok s -> rd (g_sem s) semid = Some x -> 0 <= n < 64 ->
  exists y s', f x n z = Some y /\ put_set s semid y = Some s' /\ sems_ok s' /\ counts_only semid s s'.
Proof.
  intros Hf Hs Hx Hn. pose proof (rd_Forall _ _ _ _ (ok_sets s Hs) Hx) as Hok.
  destruct (sem_wait_step_ok f x n z Hf Hok Hn) as (cn & cz & Hy & Hoky).
  destruct (put_same_ok s semid x _ Hs Hx Hoky) as (s' & Hp & Hs' & Hw & Hr & Ho); [done|done|].
  eexists _, s'. split_and!; [done..|]. split_and!; [done..|]. by exists x, cn, cz.
Qed.

Definition turn_means (s : sems) (pid semid : Z) (ops : list sysv_sembuf_t) (deadline : Z)
    (token : bool) (t : sem_turn) (s' : sems) (e : turn_end) : Prop :=
  match e with
  | TurnReturn r => (r = 0 /\ applied s s' pid semid ops) \/
      (r < 0 /\ s' = s /\ ~ all_allowed s semid ops)
  | TurnPrepare => token = false /\ s' = s /\ may_wait ops deadline t /\ ~ all_allowed s semid ops
  | TurnWait n _ => token = true /\ counts_only semid s s' /\ may_wait ops deadline t /\
      ~ all_allowed s semid ops /\ 0 <= n < 64 /\ 0 <= semid < 32
  end.

(** The answer of the test is a reason. *)
Lemma can_means_blocked x ops r : r <> CanApply -> can_means x ops r -> ~ Forall (op_allowed x) ops.
Proof.
  rewrite list.Forall_forall. destruct r as [e|n z|]; cbn [can_means]; [| |done].
  - intros _ (_ & o & Ho & Hn) Hall. destruct (Hall o Ho) as [? _]. lia.
  - intros _ (_ & o & v & Ho & <- & Hv & Hz) Hall. destruct (Hall o Ho) as (_ & w & Hw & H1 & H2).
    rewrite Hv in Hw. injection Hw as <-. destruct z; destruct Hz as [Hz1 Hz2]; [by apply Hz2, H2|]. specialize (H1 Hz1). lia.
Qed.

Lemma sem_turn_locked_ok s pid semid ops deadline token t : sems_ok s -> Forall sembuf_ok ops ->
  exists s' e, sem_turn_locked s pid semid ops deadline token t = Some (s', e) /\ sems_ok s' /\
    turn_means s pid semid ops deadline token t s' e.
Proof.
  intros Hs Hops. unfold sem_turn_locked.
  destruct (sem_valid_ok s semid Hs) as (b & Hb & Hiff). rewrite Hb. cbn [mbind option_bind].
  destruct b; cbn [negb].
  2:{ exists s, (TurnReturn (- EINVAL)). split_and!; [done|done|]. right. split_and!; [done|done|].
      intros (x & Hx & Hu & _). unfold sem_valid_locked in Hb. pose proof (rd_Some_range _ _ _ Hx) as Hr.
      rewrite (ok_length s Hs) in Hr. unfold SYSV_SEM_MAX in Hb.
      rewrite (proj2 (Z.leb_le _ _)), (proj2 (Z.ltb_lt _ _)) in Hb by lia. cbn [andb] in Hb.
      rewrite Hx in Hb. cbn in Hb. congruence. }
  destruct (sem_valid_true s semid Hs Hb) as (x & Hx & Hok & Hu). rewrite Hx. cbn [mbind option_bind].
  pose proof (ok_nsems x Hok) as Hns. unfold SYSV_SEM_PER_SET in Hns.
  destruct (sem_ops_can_apply_ok x ops Hok Hops) as (r & -> & Hr). cbn [mbind option_bind].
  assert (r <> CanApply -> ~ all_allowed s semid ops) as Hblock.
  { intros Hne (x' & Hx' & _ & Hall). rewrite Hx in Hx'. injection Hx' as <-. by eapply can_means_blocked. }
  destruct r as [e|n z|]; cbn [can_means] in Hr; [specialize (Hblock ltac:(done))..|clear Hblock].
  - destruct Hr as [-> _]. exists s, (TurnReturn (- EFBIG)). split_and!; [done|done|]. by right.
  - destruct Hr as [Hn _].
    destruct (existsb _ ops) eqn:E1.
    { exists s, (TurnReturn (- EAGAIN)). split_and!; [done|done|]. by right. }
    destruct (st_signal t) eqn:E2.
    { exists s, (TurnReturn (- EINTR)). split_and!; [done|done|]. by right. }
    destruct (deadline_passed (st_ticks t) deadline) eqn:E3.
    { exists s, (TurnReturn (- EAGAIN)). split_and!; [done|done|]. by right. }
    destruct token; cbn [negb].
    2:{ exists s, TurnPrepare. by split_and!. }
    destruct (sem_wait_put_ok sem_wait_inc s semid x n z) as (y & s' & -> & Hp & Hs' & Hsame);
      [by left|done|done|lia|].
    cbn [mbind option_bind]. rewrite Hp. exists s', (TurnWait n z).
    apply rd_Some_range in Hx. rewrite (ok_length s Hs) in Hx.
    split; [done|]. split; [done|]. cbn [turn_means]. unfold may_wait.
    split_and!; first [done|lia].
  - destruct (sem_ops_apply_vals_ok (val x) ops (ok_val x Hok) Hops) as (l & Hl & Hcells & Hvals).
    { eapply Forall_impl; [exact Hr|]. intros o [Ho _]. lia. }
    unfold sem_ops_apply. rewrite Hl. cbn [mbind option_bind].
    destruct (put_same_ok s semid x (x {{ val := l; last_pid := pid }})) as (s' & -> & Hs' & Hw & Hy & Ho);
      [done|done|by apply set_vals_ok|done|done|].
    exists (wake_set s' semid), (TurnReturn 0). split_and!; [done|by apply wake_set_ok|].
    left. split; [done|]. exists x, l. split_and!; try done.
    change (sem_wakes (wake_set s' semid)) with (semid :: sem_wakes s'). by rewrite Hw.
Qed.

(** The call waits through some of its turns, from table [s] to the table
    [s0] of the turn in which it decides: in each of them the operations were
    not allowed, others did what they do in that turn, and the call itself
    changed nothing but the waiter counts around its sleep. *)
Inductive waited (semid : Z) (ops : list sysv_sembuf_t) (deadline : Z)
  : list sem_turn -> sems -> list sem_turn -> sems -> Prop :=
| waited_not env s : waited semid ops deadline env s env s
| waited_prepare t env s env' s0 : ~ all_allowed s semid ops -> may_wait ops deadline t ->
    waited semid ops deadline env (st_preparing t s) env' s0 ->
    waited semid ops deadline (t :: env) s env' s0
| waited_park t env s s1 s2 env' s0 : ~ all_allowed s semid ops -> may_wait ops deadline t ->
    counts_only semid s s1 -> counts_only semid (st_parked t s1) s2 ->
    waited semid ops deadline env s2 env' s0 ->
    waited semid ops deadline (t :: env) s env' s0.

(** What the answer means: [Some 0] all operations done at one instant, an
    error nothing done and the operations not allowed, [None] all turns
    waited through. *)
Definition loop_means (env : list sem_turn) (s : sems) (pid semid : Z)
    (ops : list sysv_sembuf_t) (deadline : Z) (s' : sems) (r : option Z) : Prop :=
  exists env' s0, sems_ok s0 /\ waited semid ops deadline env s env' s0 /\
  match r with
  | Some e =>
      e = 0 /\ applied s0 s' pid semid ops \/
      e < 0 /\ ~ all_allowed s0 semid ops /\
        (s' = s0 \/ e = - EAGAIN /\ exists t rest, env' = t :: rest /\ st_prepared t = false /\ s' = st_preparing t s0)
  | None => env' = [] /\ s' = s0
  end.

Lemma waited_may_wait semid ops deadline env s s0 :
  waited semid ops deadline env s [] s0 -> Forall (may_wait ops deadline) env.
Proof. remember [] as e eqn:E. induction 1; subst; constructor; auto. Qed.

Lemma sem_timedop_loop_ok env s pid semid ops deadline token :
  sems_ok s -> Forall sembuf_ok ops -> Forall turn_ok env ->
  exists s' r, sem_timedop_loop env s pid semid ops deadline token = Some (s', r) /\
    sems_ok s' /\ loop_means env s pid semid ops deadline s' r.
Proof.
  intros Hs Hops Henv. revert s token Hs.
  induction Henv as [|t env [Hprep Hpark] _ IH]; intros s token Hs; cbn [sem_timedop_loop].
  { exists s, None. split_and!; [done|done|]. exists [], s. by split_and!; [|constructor|..]. }
  destruct (sem_turn_locked_ok s pid semid ops deadline token t Hs Hops)
    as (s1 & e & -> & Hs1 & He). cbn [mbind option_bind].
  destruct e as [r| |n z]; cbn [turn_means] in He.
  - exists s1, (Some r). split_and!; [done|done|]. exists (t :: env), s. split_and!; [done|constructor|].
    destruct He as [[-> Ha]|(Hr & -> & Hb)]; [by left|right]. by split_and!; [| |left].
  - destruct He as (_ & -> & Hw & Hb). destruct (st_prepared t) eqn:Ep.
    + destruct (IH (st_preparing t s) true (Hprep s Hs)) as (s' & r & -> & Hs' & env' & s0 & Hs0 & Hwt & Hm).
      exists s', r. split_and!; [done|done|]. exists env', s0. split_and!; [done| |done]. by apply waited_prepare.
    + exists (st_preparing t s), (Some (- EAGAIN)). split; [done|]. split; [by apply Hprep|].
      exists (t :: env), s. split_and!; [done|constructor|]. right. split_and!; [done|done|]. right.
      split; [done|]. by exists t, env.
  - destruct He as (_ & Hsame & Hw & Hb & Hn & Hid).
    assert (sems_ok (st_parked t s1)) as Hs2 by by apply Hpark.
    destruct (sems_rd _ semid Hs2 Hid) as (x & Hx & _). rewrite Hx. cbn [mbind option_bind].
    destruct (sem_wait_put_ok sem_wait_dec _ semid x n z (or_intror eq_refl) Hs2 Hx Hn)
      as (y & s3 & -> & Hp & Hs3 & Hsame3). cbn [mbind option_bind]. rewrite Hp. cbn [mbind option_bind].
    destruct (IH s3 false Hs3) as (s' & r & -> & Hs' & env' & s0 & Hs0 & Hwt & Hm).
    exists s', r. split_and!; [done|done|]. exists env', s0. split_and!; [done| |done].
    by eapply waited_park.
Qed.
