(* ===== verification/SemClaims.v ===== *)
(** * Semaphore sets: theorems

    Histories of the system calls keep the table sound; semop is atomic and
    stops when it must; semget answers by key.  The last part evaluates the
    calls where the values leave the range the interface documents. *)

From S2P Require Import Prelude SysvSem SemTheory.
From stdpp Require Import list.
#[local] Open Scope Z_scope.

(** ** Histories *)

Inductive sem_call :=
| CallGet (euid egid k n flg : Z)
| CallControl (pid semid semnum cmd : Z) (arg : ctl_arg)
| CallOp (env : list sem_turn) (pid semid sops nsops : Z) (ops : option (list sysv_sembuf_t))
    (deadline : Z).

Definition run_call (s : sems) (c : sem_call) : option sems :=
  match c with
  | CallGet euid egid k n flg => '(s, _) ← sysv_sem_get s euid egid k n flg; Some s
  | CallControl pid semid semnum cmd arg =>
      '(s, _, _) ← sysv_sem_control s pid semid semnum cmd arg; Some s
  | CallOp env pid semid sops nsops ops deadline =>
      '(s, _) ← sysv_sem_timedop env s pid semid sops nsops ops deadline; Some s
  end.

Fixpoint run_calls (s : sems) (cs : list sem_call) : option sems :=
  match cs with
  | [] => Some s
  | c :: cs' => s ← run_call s c; run_calls s cs'
  end.

(** The arguments have the widths of the interface, and what others do
    while the lock is released keeps the table sound. *)
Definition call_ok (c : sem_call) : Prop :=
  match c with
  | CallGet _ _ _ _ _ => True
  | CallControl _ _ _ _ arg => ctl_arg_ok arg
  | CallOp env _ _ _ _ ops _ =>
      Forall turn_ok env /\ match ops with Some l => Forall sembuf_ok l | None => True end
  end.

Definition empty_set : sysv_sem_set_t :=
  {| used := false; key := 0; nsems := 0; uid := 0; gid := 0; cuid := 0; cgid := 0; mode := 0;
     val := replicate 64 0; ncnt := replicate 64 0; zcnt := replicate 64 0; last_pid := 0 |}.

(** The static table at boot. *)
Definition sems_boot : sems := {| g_sem := replicate 32 empty_set; sem_wakes := [] |}.

Lemma sems_boot_ok : sems_ok sems_boot.
Proof.
  split; [done| |].
  - apply Forall_replicate. split; cbn [nsems used val ncnt zcnt empty_set];
      [unfold SYSV_SEM_PER_SET; lia|done|apply cells_zero..].
  - intros i j x y Hi _ Hu. unfold rd in Hi. destruct (0 <=? i); [|done].
    apply lookup_replicate in Hi as [-> _]. done.
Qed.

(** An error the arguments of semop give, or the operations. *)
Definition checked_ops (sops nsops : Z) (ops : option (list sysv_sembuf_t)) : Z + list sysv_sembuf_t :=
  if (sops =? 0) || (nsops =? 0) || (64 <? nsops) then inl (- EINVAL)
  else match ops with None => inl (- EFAULT) | Some l => inr l end.

Lemma sysv_sem_timedop_ok env s pid semid sops nsops ops deadline :
  sems_ok s -> call_ok (CallOp env pid semid sops nsops ops deadline) ->
  exists s' r, sysv_sem_timedop env s pid semid sops nsops ops deadline = Some (s', r) /\
    sems_ok s' /\
    match checked_ops sops nsops ops with
    | inl e => r = Some e /\ s' = s
    | inr l => ops = Some l /\ loop_means env s pid semid l deadline s' r
    end.
Proof.
  intros Hs [Henv Hops]. unfold sysv_sem_timedop, checked_ops.
  split_if. { exists s, (Some (- EINVAL)). by split_and!. }
  destruct ops as [l|]; [|by exists s, (Some (- EFAULT)); split_and!].
  destruct (sem_timedop_loop_ok env s pid semid l deadline false Hs Hops Henv)
    as (s' & r & -> & Hs' & Hm). exists s', r. by split_and!.
Qed.

Lemma run_call_ok s c : sems_ok s -> call_ok c ->
  exists s', run_call s c = Some s' /\ sems_ok s'.
Proof.
  intros Hs Hc. destruct c as [euid egid k n flg|pid semid semnum cmd arg|env pid semid sops nsops ops dl];
    cbn [run_call].
  - destruct (sysv_sem_get_ok s euid egid k n flg Hs) as (s' & r & -> & Hs' & _). by exists s'.
  - destruct (sysv_sem_control_ok s pid semid semnum cmd arg Hs Hc) as (s' & r & o & -> & Hs').
    by exists s'.
  - destruct (sysv_sem_timedop_ok env s pid semid sops nsops ops dl Hs Hc) as (s' & r & -> & Hs' & _).
    by exists s'.
Qed.

Lemma run_calls_ok s cs : sems_ok s -> Forall call_ok cs ->
  exists s', run_calls s cs = Some s' /\ sems_ok s'.
Proof.
  intros Hs Hcs. revert s Hs. induction Hcs as [|c cs Hc _ IH]; intros s Hs; cbn [run_calls].
  { by exists s. }
  destruct (run_call_ok s c Hs Hc) as (s' & -> & Hs'). by apply IH.
Qed.

(** From the table at boot, every sequence of semget, semctl and semop
    calls runs without an access outside an array and keeps the table sound:
    32 sets of at most 64 semaphores, every value and waiter count 16 bits
    wide, a used set has a semaphore, and no two used sets share a key other
    than IPC_PRIVATE.  The calls' arguments have the interface's widths, and
    what other tasks do while the lock is released (user copies, the park)
    keeps the table sound too. *)
Theorem sem_calls_preserve_ok cs : Forall call_ok cs ->
  exists s', run_calls sems_boot cs = Some s' /\ sems_ok s'.
Proof. apply run_calls_ok, sems_boot_ok. Qed.

(** ** semop *)

(** C35: semop is atomic, whatever others do between its turns.  It never
    faults.  Bad arguments (EINVAL) and a failed copy (EFAULT) change nothing.
    Otherwise it waits through some of its turns, in each of which the
    operations were not allowed, and in which it changes only the waiter counts
    of the set, others doing anything else; then it decides on the table of one
    instant.  When it returns 0 that table's set allowed every operation, and
    the result is that table with the sum of the operations added to each
    semaphore of the set, once (16-bit arithmetic), the caller recorded, the
    waiters of the set woken and every other set and field untouched; if no
    semaphore is named twice, no value goes below zero.  When it fails the
    operations were not allowed at that instant, and the table is that of the
    instant (or what others made of it while no wait token was to be had). *)
Theorem semop_atomic env s pid semid sops nsops ops deadline :
  sems_ok s -> call_ok (CallOp env pid semid sops nsops ops deadline) ->
  exists s' r, sysv_sem_timedop env s pid semid sops nsops ops deadline = Some (s', r) /\
    sems_ok s' /\
    match checked_ops sops nsops ops with
    | inl e => r = Some e /\ s' = s
    | inr l => exists env' s0, sems_ok s0 /\ waited semid l deadline env s env' s0 /\
        match r with
        | Some e =>
            e = 0 /\ applied s0 s' pid semid l /\
              (NoDup (map sem_num l) -> forall x n v, rd (g_sem s0) semid = Some x -> rd (val x) n = Some v ->
                 0 <= v + op_total n l) \/
            e < 0 /\ ~ all_allowed s0 semid l /\
              (s' = s0 \/ e = - EAGAIN /\ exists t rest, env' = t :: rest /\ st_prepared t = false /\
                                                s' = st_preparing t s0)
        | None => env' = [] /\ s' = s0
        end
    end.
Proof.
  intros Hs Hc.
  destruct (sysv_sem_timedop_ok _ _ _ _ _ _ _ _ Hs Hc) as (s' & r & -> & Hs' & Hm).
  exists s', r. split_and!; [done|done|]. destruct (checked_ops sops nsops ops) as [e|l]; [done|].
  destruct Hm as (_ & env' & s0 & Hs0 & Hw & Hm). exists env', s0. split_and!; [done|done|].
  destruct r as [e|]; [|done]. destruct Hm as [[-> Ha]|Hm]; [left|by right]. split_and!; [done|done|].
  intros Hnd x n v Hx Hv. destruct Ha as (x' & y & Hx' & _ & Hall & _). rewrite Hx in Hx'. injection Hx' as <-.
  pose proof (rd_Forall _ _ _ _ (ok_sets s0 Hs0) Hx) as Hok.
  apply (op_total_nonneg x l n v Hall Hnd Hv). eapply (rd_Forall _ (val x)); [apply Hok|done].
Qed.

(** Semop stops waiting when it must: if one of the operations has
    IPC_NOWAIT and there is a turn, or if in some turn a signal is pending
    or the deadline has passed, the call has returned by the end of the
    given turns. *)
Theorem semop_returns env s pid semid sops nsops l deadline t :
  sems_ok s -> call_ok (CallOp env pid semid sops nsops (Some l) deadline) -> t ∈ env ->
  existsb (fun o => c_true (Z.land (sem_flg o) IPC_NOWAIT)) l = true \/
    st_signal t = true \/ deadline_passed (st_ticks t) deadline = true ->
  exists s' r, sysv_sem_timedop env s pid semid sops nsops (Some l) deadline = Some (s', Some r).
Proof.
  intros Hs Hc Ht Hstop.
  destruct (sysv_sem_timedop_ok _ _ _ _ _ _ _ _ Hs Hc) as (s' & r & -> & _ & Hm).
  destruct r as [r|]; [by exists s', r|]. destruct (checked_ops sops nsops (Some l)) as [e|l']; [by destruct Hm|].
  destruct Hm as ([= <-] & env' & s0 & _ & Hw & -> & _). apply waited_may_wait in Hw.
  rewrite list.Forall_forall in Hw. destruct (Hw t Ht) as (H1 & H2 & H3).
  rewrite H1, H2, H3 in Hstop. by destruct Hstop as [|[|]].
Qed.

(** Semget on every input: the set that has the key, when it is large
    enough and not asked for exclusively; a new set with the given key, size
    and owner and all values zero in a slot that was free, when no used set
    has the key; otherwise the error, with the table unchanged. *)
Theorem sysv_sem_get_correct s euid egid k n flg : sems_ok s ->
  exists s' r, sysv_sem_get s euid egid k n flg = Some (s', r) /\ sems_ok s' /\
    get_answer s euid egid k n flg s' r.
Proof. apply sysv_sem_get_ok. Qed.

(** ** Instances *)

Definition quiet_turn : sem_turn :=
  {| st_signal := false; st_ticks := 10; st_prepared := true;
     st_preparing := fun s => s; st_parked := fun s => s |}.

Lemma quiet_turn_ok : turn_ok quiet_turn.
Proof. by split; intros s Hs. Qed.

Definition raw_arg (v : Z) : ctl_arg :=
  {| ca_raw := v; ca_copy_ok := true; ca_vals := replicate 64 0;
     ca_ds := {| sem_perm := {| ip_key := 0; ip_uid := 0; ip_gid := 0; ip_cuid := 0; ip_cgid := 0;
                                ip_mode := 0; ip_seq := 0 |}; sem_nsems := 0 |};
     ca_others := fun s => s |}.

Lemma raw_arg_ok v : ctl_arg_ok (raw_arg v).
Proof. split; [apply cells_zero|]. by intros s Hs. Qed.

(** Another task sets semaphore 0 of set 0 to [v]. *)
Definition other_sets (v : Z) (s : sems) : sems :=
  match sysv_sem_control s 8 0 0 SETVAL (raw_arg v) with Some (s', _, _) => s' | None => s end.

Lemma other_sets_ok v : keeps_ok (other_sets v).
Proof.
  intros s Hs. unfold other_sets.
  by destruct (sysv_sem_control_ok s 8 0 0 SETVAL (raw_arg v) Hs (raw_arg_ok v)) as (s' & r & o & -> & Hs').
Qed.

(** Set 0: key 42, three semaphores, the first worth [v]. *)
Definition demo_calls (v : Z) : list sem_call :=
  [CallGet 1 1 42 3 (IPC_CREAT + 0x180); CallControl 7 0 0 SETVAL (raw_arg v)].
Definition sems_demo (v : Z) : sems := default sems_boot (run_calls sems_boot (demo_calls v)).

Lemma demo_calls_ok v : Forall call_ok (demo_calls v).
Proof. unfold demo_calls. rewrite !Forall_cons, Forall_nil. split_and!; [done|apply raw_arg_ok|done]. Qed.

Lemma sems_demo_ok v : sems_ok (sems_demo v).
Proof.
  unfold sems_demo. destruct (run_calls_ok sems_boot (demo_calls v)) as (s & -> & Hs);
    [apply sems_boot_ok|apply demo_calls_ok|done].
Qed.

(** The task parks in its second turn; meanwhile another raises the
    semaphore, and the third turn does both operations. *)
Definition demo_env : list sem_turn :=
  [quiet_turn; quiet_turn {{ st_parked := other_sets 5 }}; quiet_turn].
Definition demo_ops : list sysv_sembuf_t :=
  [{| sem_num := 0; sem_op := -2; sem_flg := 0 |}; {| sem_num := 1; sem_op := 4; sem_flg := 0 |}].

Lemma demo_op_ok : call_ok (CallOp demo_env 9 0 1 2 (Some demo_ops) 0).
Proof.
  split.
  - unfold demo_env. rewrite !Forall_cons, Forall_nil.
    split_and!; [apply quiet_turn_ok| |apply quiet_turn_ok|done].
    split; [by intros s Hs|apply other_sets_ok].
  - repeat constructor; cbn; lia.
Qed.

Definition set_vals (s : sems) (i : Z) (n : nat) : option (list Z) :=
  option_map (fun x => take n (val x)) (rd (g_sem s) i).

Lemma sem_calls_preserve_ok_witness :
  exists s', run_calls sems_boot (demo_calls 1) = Some s' /\ sems_ok s'.
Proof. apply sem_calls_preserve_ok. apply demo_calls_ok. Defined.

Lemma semop_atomic_witness :
  exists s', sysv_sem_timedop demo_env (sems_demo 1) 9 0 1 2 (Some demo_ops) 0 = Some (s', Some 0) /\
    sems_ok s' /\ set_vals s' 0 3 = Some [3; 4; 0].
Proof.
  destruct (semop_atomic demo_env (sems_demo 1) 9 0 1 2 (Some demo_ops) 0 (sems_demo_ok 1) demo_op_ok)
    as (s' & r & H & Hs' & _).
  exists s'. assert (r = Some 0 /\ set_vals s' 0 3 = Some [3; 4; 0]) as [-> Hv].
  { vm_compute in H. apply (inj Some) in H. injection H as <- <-. by vm_compute. }
  done.
Defined.

Lemma semop_returns_witness :
  exists s' r, sysv_sem_timedop [quiet_turn; quiet_turn] (sems_demo 1) 9 0 1 2 (Some demo_ops) 5
    = Some (s', Some r).
Proof.
  apply (semop_returns [quiet_turn; quiet_turn] (sems_demo 1) 9 0 1 2 demo_ops 5 quiet_turn).
  - apply sems_demo_ok.
  - split; [|apply demo_op_ok]. by apply Forall_cons; split; [|apply Forall_cons; split];
      [apply quiet_turn_ok..|].
  - left.
  - right; right. reflexivity.
Defined.

Lemma sysv_sem_get_correct_witness :
  exists s' r, sysv_sem_get (sems_demo 1) 1 1 42 2 0 = Some (s', r) /\ sems_ok s' /\
    get_answer (sems_demo 1) 1 1 42 2 0 s' r.
Proof. apply sysv_sem_get_correct. apply sems_demo_ok. Defined.

(** ** Where the values leave their range *)

Definition dec_once : sysv_sembuf_t := {| sem_num := 0; sem_op := -1; sem_flg := 0 |}.
Definition inc_once : sysv_sembuf_t := {| sem_num := 0; sem_op := 1; sem_flg := 0 |}.

(** Each operation is tested against the values before the call: taking one
    twice from a semaphore worth one succeeds and leaves 65535. *)
Lemma semop_below_zero :
  exists s', sysv_sem_op [quiet_turn] (sems_demo 1) 9 0 1 2 (Some [dec_once; dec_once])
    = Some (s', Some 0) /\ set_vals s' 0 1 = Some [65535].
Proof. eexists. split; [by vm_compute|]. by vm_compute. Qed.

(** SETVAL accepts a value above semvmx (32767), and an increment of 65535
    succeeds and leaves 0. *)
Lemma semop_wraps_to_zero :
  exists s', sysv_sem_op [quiet_turn] (sems_demo 65535) 9 0 1 1 (Some [inc_once])
    = Some (s', Some 0) /\ set_vals s' 0 1 = Some [0].
Proof. eexists. split; [by vm_compute|]. by vm_compute. Qed.

(** SETALL on a set that is removed and created again with another key
    during the user copy: the values land in the new set, as many as the old
    set had. *)
Definition recycle (s : sems) : sems :=
  default s (run_calls s [CallControl 8 0 0 IPC_RMID (raw_arg 0); CallGet 2 2 43 1 IPC_CREAT]).

Lemma setall_hits_recycled_set :
  exists s' x, sysv_sem_control (sems_demo 1) 7 0 0 SETALL
      ((raw_arg 1) {{ ca_vals := replicate 64 7; ca_others := recycle }}) = Some (s', 0, OutNone) /\
    rd (g_sem s') 0 = Some x /\ key x = 43 /\ nsems x = 1 /\ take 4 (val x) = [7; 7; 7; 0].
Proof. do 2 eexists. split; [by vm_compute|]. split; [by vm_compute|]. by vm_compute. Qed.
