(* ===== verification/HandleRegistry.v ===== *)
(** * Handle tables as shared objects (kernel/abi/native/handle_table.c)

    The tables in kernel memory, their reference counts, the global registry
    that links them, creation, destruction and the sweep of all tables.  A
    pointer is a [nat], [None] is NULL; [tables] maps the allocated tables, so
    an access to a freed one is [None]. *)

From S2P Require Import Prelude HandleTable.
From stdpp Require Import gmap.
#[local] Open Scope Z_scope.

Record reg := {
  tables : gmap nat a20_ht_internal; registry : option nat;
  g_stat : Z; g_log : list ht_event;
}.

Definition put_table (w : reg) (a : nat) (h : a20_ht_internal) : reg :=
  w {{ tables := <[a := h]> (tables w) }}.

(** An operation on one table, with the global statistic and the log. *)
Definition on_table (w : reg) (a : nat) (f : hts -> option hts) : option reg :=
  h ← tables w !! a;
  s ← f {| ht := h; stat_handles := g_stat w; log := g_log w |};
  Some {| tables := <[a := ht s]> (tables w); registry := registry w;
          g_stat := stat_handles s; g_log := log s |}.

(** ** Reference counts (include/core/refcount.h)

    The atomic additions wrap; the [old + 1] of the compare-and-exchange is
    plain signed arithmetic. *)

Definition refcount_inc (w : reg) (a : nat) : option reg :=
  h ← tables w !! a;
  Some (put_table w a (h {{ refcount := s32 (refcount h + 1) }})).

Definition refcount_inc_not_zero (w : reg) (a : nat) : option (reg * bool) :=
  h ← tables w !! a;
  if refcount h =? 0 then Some (w, false)
  else
    n ← sadd32 (refcount h) 1;
    Some (put_table w a (h {{ refcount := n }}), true).

Definition refcount_dec_and_test (w : reg) (a : nat) : option (reg * bool) :=
  h ← tables w !! a;
  let n := s32 (refcount h - 1) in
  Some (put_table w a (h {{ refcount := n }}), n =? 0).

(** ** Creation *)

(** [mem]: the new table's address, [None] when one of the three allocations
    fails; the signal masks are what the memory held. *)
Definition a20_ht_create (w : reg) (mem : option nat) (junk_pending junk_blocked : Z)
  : reg * option nat :=
  match mem with
  | None => (w, None)
  | Some a =>
      ((put_table w a (ht_created junk_pending junk_blocked (registry w))) {{ registry := Some a }},
       Some a)
  end.

(** ** Destruction *)

(** [pp]: the link that is looked at, [None] the head of the registry and
    [Some p] the link of table [p]. *)
Definition link_read (w : reg) (pp : option nat) : option (option nat) :=
  match pp with
  | None => Some (registry w)
  | Some p => h ← tables w !! p; Some (registry_next h)
  end.

Definition link_write (w : reg) (pp : option nat) (next : option nat) : option reg :=
  match pp with
  | None => Some (w {{ registry := next }})
  | Some p => h ← tables w !! p; Some (put_table w p (h {{ registry_next := next }}))
  end.

(** The walk along the registry; it passes each table at most once, so one
    step more than there are tables is enough ([None] otherwise). *)
Fixpoint unlink_walk (fuel : nat) (w : reg) (pp : option nat) (a : nat) : option reg :=
  match fuel with
  | O => None
  | S fuel' =>
      next ← link_read w pp;
      match next with
      | None => Some w
      | Some p =>
          if bool_decide (p = a) then
            h ← tables w !! a;
            link_write w pp (registry_next h)
          else unlink_walk fuel' w (Some p) a
      end
  end.

(** The critical section of a20_ht_destroy. *)
Definition destroy_unlink (w : reg) (a : nat) : option reg :=
  w ← unlink_walk (S (size (tables w))) w None a;
  h ← tables w !! a;
  Some (put_table w a (h {{ registry_next := None }})).

(** The rest: drop the entries' references, free the memory. *)
Definition destroy_free (w : reg) (a : nat) : option reg :=
  w ← on_table w a destroy_entries;
  Some (w {{ tables := delete a (tables w) }}).

Definition a20_ht_destroy (w : reg) (o : option nat) : option reg :=
  match o with
  | None => Some w
  | Some a => w ← destroy_unlink w a; destroy_free w a
  end.

(** ** References *)

Definition a20_ht_get_ref (w : reg) (o : option nat) : option (reg * option nat) :=
  match o with
  | None => Some (w, None)
  | Some a => w ← refcount_inc w a; Some (w, Some a)
  end.

Definition a20_ht_put_ref (w : reg) (o : option nat) : option reg :=
  match o with
  | None => Some w
  | Some a =>
      '(w, last) ← refcount_dec_and_test w a;
      if last : bool then a20_ht_destroy w (Some a) else Some w
  end.

(** The registry lock's critical section in task_get_a20_ht_ref and in both
    places of the sweep: the pointer found becomes a reference unless the
    table is already dead. *)
Definition ref_or_null (w : reg) (o : option nat) : option (reg * option nat) :=
  match o with
  | None => Some (w, None)
  | Some a =>
      '(w, alive) ← refcount_inc_not_zero w a;
      Some (w, if alive : bool then Some a else None)
  end.

(** [t]: the task's a20_ht field, [None] for no task. *)
Definition task_get_a20_ht (t : option (option nat)) : option nat :=
  match t with Some p => p | None => None end.

Definition task_get_a20_ht_ref (w : reg) (t : option (option nat)) : option (reg * option nat) :=
  match t with
  | None => Some (w, None)
  | Some p => ref_or_null w p
  end.

(** ** The sweep of all tables *)

Definition sweep_first (w : reg) : option (reg * option nat) := ref_or_null w (registry w).

Definition sweep_next (w : reg) (a : nat) : option (reg * option nat) :=
  h ← tables w !! a;
  ref_or_null w (registry_next h).

Definition sweep_table (ticks : nat -> Z) (s : hts) : option hts :=
  a20_temporal_sweep (S (Z.to_nat (count (ht s) / A20_SWEEP_BATCH))) ticks s.

(** The loop without interference: [clock k] gives the ticks of the table
    [k] tables before the last. *)
Fixpoint sweep_all_loop (fuel : nat) (clock : nat -> nat -> Z) (w : reg) (o : option nat)
  : option reg :=
  match o with
  | None => Some w
  | Some a =>
      match fuel with
      | O => None
      | S fuel' =>
          '(w, next) ← sweep_next w a;
          w ← on_table w a (sweep_table (clock fuel'));
          w ← a20_ht_put_ref w (Some a);
          sweep_all_loop fuel' clock w next
      end
  end.

Definition a20_temporal_sweep_all (clock : nat -> nat -> Z) (w : reg) : option reg :=
  '(w, o) ← sweep_first w;
  sweep_all_loop (size (tables w)) clock w o.
