(* ===== verification/RegistryTheory.v ===== *)
(** * Handle tables as shared objects: theorems

    Threads that hold, pass on and drop references, sweep and destroy, as a
    transition system of atomic steps over the memory of [HandleRegistry].
    In every history the counts are exact, the registry is a list of the
    tables that are not yet unlinked, and no freed table is touched. *)

From S2P Require Import Prelude HandleTable HandleTheory HandleOps HandleSweep HandleClaims HandleRegistry.
From stdpp Require Import gmap list.
#[local] Open Scope Z_scope.

(** ** Threads *)

(** [holders]: one entry per reference a thread or a task holds; [dying]:
    tables whose count reached zero, before the critical section of
    a20_ht_destroy; [unlinked]: behind it, not yet freed. *)
Record rworld := { rw : reg; holders : list nat; dying : list nat; unlinked : list nat }.

Inductive action :=
| ActCreate (mem : option nat) (junk_pending junk_blocked : Z)
| ActGet (a : nat)
| ActPut (a : nat)
| ActUnlink (a : nat)
| ActFree (a : nat)
| ActFirst
| ActNext (a : nat)
| ActTaskRef (a : nat)
| ActOp (a : nat) (op : ht_op).

Fixpoint remove1 (a : nat) (l : list nat) : list nat :=
  match l with
  | [] => []
  | b :: l' => if bool_decide (a = b) then l' else b :: remove1 a l'
  end.

Fixpoint occ (a : nat) (l : list nat) : Z :=
  match l with
  | [] => 0
  | b :: l' => (if bool_decide (a = b) then 1 else 0) + occ a l'
  end.

Definition hold (o : option nat) (l : list nat) : list nat :=
  match o with Some a => a :: l | None => l end.

Definition run_action (r : rworld) (act : action) : option rworld :=
  match act with
  | ActCreate mem jp jb =>
      let '(w, o) := a20_ht_create (rw r) mem jp jb in
      Some (r {{ rw := w; holders := hold o (holders r) }})
  | ActGet a =>
      '(w, o) ← a20_ht_get_ref (rw r) (Some a);
      Some (r {{ rw := w; holders := hold o (holders r) }})
  | ActPut a =>
      '(w, last) ← refcount_dec_and_test (rw r) a;
      Some (r {{ rw := w; holders := remove1 a (holders r);
                 dying := if last : bool then a :: dying r else dying r }})
  | ActUnlink a =>
      w ← destroy_unlink (rw r) a;
      Some (r {{ rw := w; dying := remove1 a (dying r); unlinked := a :: unlinked r }})
  | ActFree a =>
      w ← destroy_free (rw r) a;
      Some (r {{ rw := w; unlinked := remove1 a (unlinked r) }})
  | ActFirst =>
      '(w, o) ← sweep_first (rw r);
      Some (r {{ rw := w; holders := hold o (holders r) }})
  | ActNext a =>
      '(w, o) ← sweep_next (rw r) a;
      Some (r {{ rw := w; holders := hold o (holders r) }})
  | ActTaskRef a =>
      '(w, o) ← task_get_a20_ht_ref (rw r) (Some (Some a));
      Some (r {{ rw := w; holders := hold o (holders r) }})
  | ActOp a op =>
      w ← on_table (rw r) a (run_op op);
      Some (r {{ rw := w }})
  end.

(** Who may do what: the allocator returns unused memory; a table is used
    through a reference; the thread that dropped the last one destroys it; a
    task's field read under the registry lock names a table that the task
    referred to when the lock was taken.  Fewer than 2^31 - 1 references. *)
Definition allowed (r : rworld) (act : action) : Prop :=
  Z.of_nat (length (holders r)) < 2147483647 /\
  match act with
  | ActCreate (Some a) _ _ => tables (rw r) !! a = None
  | ActCreate None _ _ | ActFirst => True
  | ActGet a | ActPut a | ActNext a => a ∈ holders r
  | ActUnlink a => a ∈ dying r
  | ActFree a => a ∈ unlinked r
  | ActTaskRef a => a ∈ holders r \/ a ∈ dying r
  | ActOp a op => a ∈ holders r /\ op_ok op
  end.

(** A history: every action is allowed when its turn comes. *)
Fixpoint history (r : rworld) (acts : list action) : Prop :=
  match acts with
  | [] => True
  | act :: acts' =>
      allowed r act /\ forall r', run_action r act = Some r' -> history r' acts'
  end.

Fixpoint run_actions (r : rworld) (acts : list action) : option rworld :=
  match acts with
  | [] => Some r
  | act :: acts' => r ← run_action r act; run_actions r acts'
  end.

Definition registry_boot : rworld :=
  {| rw := {| tables := ∅; registry := None; g_stat := 0; g_log := [] |};
     holders := []; dying := []; unlinked := [] |}.

(** ** The invariant *)

Fixpoint chain (T : gmap nat a20_ht_internal) (o : option nat) (l : list nat) : Prop :=
  match l with
  | [] => o = None
  | a :: l' => o = Some a /\ exists h, T !! a = Some h /\ chain T (registry_next h) l'
  end.

Record reg_inv (r : rworld) : Prop := {
  ri_chain : exists l, chain (tables (rw r)) (registry (rw r)) l /\ NoDup l /\
    forall a, a ∈ l <-> is_Some (tables (rw r) !! a) /\ a ∉ unlinked r;
  ri_tables : forall a h, tables (rw r) !! a = Some h -> ht_wf h /\ refcount h = occ a (holders r);
  ri_holders : forall a, a ∈ holders r -> is_Some (tables (rw r) !! a);
  ri_dead : forall a, a ∈ dying r \/ a ∈ unlinked r <->
    exists h, tables (rw r) !! a = Some h /\ refcount h = 0;
  ri_nodup : NoDup (dying r ++ unlinked r);
  ri_stat : in_u64 (g_stat (rw r));
}.

(** ** Lists *)

Lemma occ_pos a l : a ∈ l <-> 0 < occ a l.
Proof.
  assert (forall l, 0 <= occ a l) as Hnn.
  { induction l0 as [|b l0 IH]; cbn [occ]; [lia|]. case_bool_decide; lia. }
  induction l as [|b l IH]; cbn [occ]; [split; [by intros ?%elem_of_nil|lia]|].
  rewrite elem_of_cons, IH. pose proof (Hnn l). case_bool_decide; [subst; split; [lia|by left]|].
  split; [intros [|]; [done|lia]|right; lia].
Qed.

Lemma occ_length a l : 0 <= occ a l <= Z.of_nat (length l).
Proof. induction l as [|b l IH]; cbn [occ length]; [lia|]. case_bool_decide; lia. Qed.

Lemma occ_remove1 a b l : a ∈ l -> occ b (remove1 a l) = occ b l - (if bool_decide (b = a) then 1 else 0).
Proof.
  induction l as [|c l IH]; [by intros ?%elem_of_nil|]. rewrite elem_of_cons. cbn [remove1 occ].
  intros Ha. destruct (decide (a = c)) as [->|Hne].
  - rewrite (bool_decide_eq_true_2 (c = c)) by done. case_bool_decide; lia.
  - rewrite (bool_decide_eq_false_2 (a = c)) by done. cbn [occ]. rewrite IH by naive_solver. lia.
Qed.

Lemma elem_remove1 a b l : b ∈ remove1 a l -> b ∈ l.
Proof.
  induction l as [|c l IH]; cbn [remove1]; [done|]. case_bool_decide; rewrite ?elem_of_cons; naive_solver.
Qed.

Lemma elem_remove1_ne a b l : b <> a -> b ∈ remove1 a l <-> b ∈ l.
Proof.
  intros Hne. induction l as [|c l IH]; cbn [remove1]; [done|].
  case_bool_decide; rewrite ?elem_of_cons; naive_solver.
Qed.

Lemma nodup_remove1 a l : NoDup l -> NoDup (remove1 a l) /\ a ∉ remove1 a l.
Proof.
  induction 1 as [|c l Hc Hl [IH1 IH2]]; cbn [remove1]; [split; [constructor|by intros ?%elem_of_nil]|].
  case_bool_decide; [by subst|]. split.
  - constructor; [|done]. intros Hin. by apply elem_remove1 in Hin.
  - rewrite elem_of_cons. naive_solver.
Qed.

Lemma elem_remove1_nodup a b l : NoDup l -> b ∈ remove1 a l <-> b ∈ l /\ b <> a.
Proof.
  intros Hl. destruct (decide (b = a)) as [->|Hne].
  - split; [intros H; by destruct (proj2 (nodup_remove1 a l Hl))|naive_solver].
  - rewrite elem_remove1_ne by done. naive_solver.
Qed.

(** ** Table operations leave the count and the link alone *)

Definition linked_as (h h' : a20_ht_internal) : Prop :=
  refcount h' = refcount h /\ registry_next h' = registry_next h.

#[local] Instance linked_as_pre : PreOrder linked_as.
Proof. split; [done|]. intros a b c [] []. split; congruence. Qed.

(** Take a successful computation apart. *)
Ltac opt_step :=
  match goal with
  | H : (_ ≫= _) = Some _ |- _ => apply bind_Some in H as (? & ? & H)
  | H : _ <$> _ = Some _ |- _ => apply fmap_Some in H as (? & H & ->)
  | x : (_ * _)%type |- _ => destruct x
  | H : (if ?b then _ else _) = Some _ |- _ => destruct b
  | H : Some _ = Some _ |- _ => apply (inj Some) in H; subst
  | H : (_, _) = (_, _) |- _ => injection H as ? ?; subst
  | H : None = Some _ |- _ => discriminate H
  end.
Ltac opt_inv := repeat (opt_step; cbv beta iota zeta in * ).

Lemma set_entry_link h i e h' : set_entry h i e = Some h' -> linked_as h h'.
Proof. unfold set_entry. intros H. by opt_inv. Qed.

Lemma ht_alloc_slot_link h h' r : ht_alloc_slot h = Some (h', r) -> linked_as h h'.
Proof. unfold ht_alloc_slot. intros H. apply bind_Some in H as (o & _ & H). destruct o as [[[i b] sl]|]; by opt_inv. Qed.

Lemma ht_free_slot_link h i h' : ht_free_slot h i = Some h' -> linked_as h h'.
Proof. unfold ht_free_slot. intros H. opt_inv. by split_if. Qed.

Lemma ht_grow_link mem h h' r : ht_grow mem h = Some (h', r) -> linked_as h h'.
Proof. unfold ht_grow. intros H. by opt_inv. Qed.

(** Chains of the steps above. *)
Ltac link := repeat match goal with
  | H : _ = Some _ |- _ =>
      first [ apply set_entry_link in H | apply ht_alloc_slot_link in H
            | apply ht_free_slot_link in H | apply ht_grow_link in H ]
  | H : linked_as (?x {{ count := _ }}) ?y |- _ => change (linked_as x y) in H
  end; unfold linked_as in *; intuition congruence.

Lemma install_slot_link mem h h' r : install_slot mem h = Some (h', r) -> linked_as h h'.
Proof. unfold install_slot. intros H. opt_inv; link. Qed.

Lemma grow_to_link fuel mem h i h' b : grow_to fuel mem h i = Some (h', b) -> linked_as h h'.
Proof.
  revert h. induction fuel as [|fuel IH]; intros h H; cbn [grow_to] in H; opt_inv; try done.
  - link.
  - apply IH in H. link.
Qed.

Lemma reserve_loop_link n h l h' l' : reserve_loop n h l = Some (h', l') -> linked_as h h'.
Proof.
  revert h l. induction n as [|n IH]; intros h l H; cbn [reserve_loop] in H; opt_inv; try done.
  - link.
  - apply IH in H. link.
Qed.

Lemma abort_loop_link l h h' : abort_loop h l = Some h' -> linked_as h h'.
Proof.
  revert h. induction l as [|x l IH]; intros h H; cbn [abort_loop] in H; opt_inv; try done;
    try (by apply IH in H). apply IH in H. link.
Qed.

Lemma sweep_scan_link n i now h l h' l' : sweep_scan n i now h l = Some (h', l') -> linked_as h h'.
Proof.
  revert i h l. induction n as [|n IH]; intros i h l H; cbn [sweep_scan] in H; opt_inv; try done;
    try (by apply IH in H); apply IH in H; link.
Qed.

(** The table's count and link, and the width of the statistic. *)
Definition kept (s s' : hts) : Prop :=
  linked_as (ht s) (ht s') /\ (in_u64 (stat_handles s) -> in_u64 (stat_handles s')).

#[local] Instance kept_pre : PreOrder kept.
Proof.
  split; [by intros s|]. intros a b c [H1 H2] [H3 H4]. split; [by etrans|auto].
Qed.

Lemma kept_set_ht s h : linked_as (ht s) h -> kept s (set_ht s h).
Proof. by split. Qed.
Lemma kept_emit e s : kept s (emit e s).
Proof. by split. Qed.
Lemma kept_stat s d : kept s (a20_objstat_add s d).
Proof. split; [done|]. intros _. apply u64_range. Qed.

Lemma kept_release objs s : kept s (release_all objs s).
Proof.
  unfold release_all. revert s. induction objs as [|[o t] objs IH]; intros s; cbn [fold_left]; [done|].
  etrans; [apply kept_emit|apply IH].
Qed.

Lemma sweep_kept fuel ticks s s' : a20_temporal_sweep fuel ticks s = Some s' -> kept s s'.
Proof.
  revert s. induction fuel as [|fuel IH]; intros s H; cbn [a20_temporal_sweep] in H; opt_inv; try done;
    match goal with E : sweep_scan _ _ _ _ _ = _ |- _ => apply sweep_scan_link in E end;
    (etrans; [by apply kept_set_ht|]); [apply kept_release|].
  etrans; [apply kept_release|by apply IH].
Qed.

Lemma lookup_kept now s h ty req tr s' r o :
  a20_handle_lookup_ref_mode now s h ty req tr = Some (s', r, o) -> kept s s'.
Proof.
  unfold a20_handle_lookup_ref_mode. intros H. opt_inv; try done;
    match goal with E : set_entry _ _ _ = _ |- _ => apply set_entry_link in E end;
    (destruct tr; [etrans; [by apply kept_set_ht|apply kept_emit]|by apply kept_set_ht]).
Qed.

Lemma abort_kept s l s' : a20_handle_abort_reserved s l = Some s' -> kept s s'.
Proof.
  unfold a20_handle_abort_reserved. intros H. opt_inv. apply kept_set_ht. by eapply abort_loop_link.
Qed.

Lemma reserve_kept mem s n s' r l : a20_handle_reserve_many mem s n = Some (s', r, l) -> kept s s'.
Proof.
  unfold a20_handle_reserve_many. intros H. destruct (n =? 0); [by opt_inv|].
  apply bind_Some in H as ([h fr] & Eh & H).
  assert (linked_as (ht s) h) as Hl by (clear H; opt_inv; [by eapply ht_grow_link|done]).
  clear Eh. destruct (fr <? n); [opt_inv; by apply kept_set_ht|].
  apply bind_Some in H as ([h' hs] & Er & H). apply reserve_loop_link in Er.
  assert (linked_as (ht s) h') as Hl' by by etrans.
  destruct (_ <? n); opt_inv; [|by apply kept_set_ht].
  etrans; [by apply kept_set_ht|by eapply abort_kept].
Qed.

Lemma run_op_kept op s s' : run_op op s = Some s' -> kept s s'.
Proof.
  destruct op; cbn [run_op]; intros H.
  - unfold a20_handle_install_temporal in H. opt_inv;
      match goal with E : install_slot _ _ = _ |- _ => apply install_slot_link in E end;
      cbn [fst]; [by apply kept_set_ht|].
    match goal with E : set_entry _ _ _ = _ |- _ => apply set_entry_link in E end.
    etrans; [|apply kept_stat]. split; [|done]. etrans; [eassumption|done].
  - unfold a20_handle_install_at_temporal in H. opt_inv; cbn [fst]; try done;
      match goal with E : grow_to _ _ _ _ = _ |- _ => apply grow_to_link in E end;
      try by apply kept_set_ht.
    etrans; [|apply kept_stat]. split; [|done]. etrans; [eassumption|].
    match goal with E : set_entry ?x _ _ = Some ?y |- _ =>
      apply set_entry_link in E; trans y; [trans x; [by split_if|exact E]|done] end.
  - opt_inv. cbn [fst].
    by eapply lookup_kept.
  - unfold a20_handle_lookup_ref_task_like, a20_handle_lookup_task_like,
      a20_handle_lookup_ref_internal, a20_handle_lookup_internal in H.
    opt_inv; cbn [fst]; repeat match goal with E : a20_handle_lookup_ref_mode _ _ _ _ _ _ = _ |- _ =>
      apply lookup_kept in E end; first [done|by etrans].
  - unfold a20_handle_remove in H. opt_inv; cbn [fst]; try done.
    match goal with E : set_entry _ _ _ = _ |- _ => apply set_entry_link in E end.
    match goal with E : ht_free_slot _ _ = _ |- _ => apply ht_free_slot_link in E end.
    etrans; [|apply kept_emit]. etrans; [|apply kept_stat]. split; [|done].
    etrans; [eassumption|]. by etrans; [eassumption|].
  - opt_inv. cbn [fst]. by eapply reserve_kept.
  - by eapply abort_kept.
  - unfold a20_handle_commit_reserved_temporal in H. opt_inv; cbn [fst]; try done.
    apply kept_set_ht. by eapply set_entry_link.
  - unfold a20_handle_set_temporal in H. opt_inv; cbn [fst]; try done;
      match goal with E : set_entry _ _ _ = _ |- _ => apply set_entry_link in E end;
      repeat split_if; first [by apply kept_set_ht|etrans; [by apply kept_set_ht|apply kept_emit]].
  - unfold a20_handle_set_label in H. opt_inv; cbn [fst]; try done.
    apply kept_set_ht. by eapply set_entry_link.
  - by eapply sweep_kept.
  - opt_inv. apply kept_set_ht. unfold a20_ht_set_label. by split_if.
  - opt_inv. apply kept_set_ht. unfold a20_ht_sig_pend. by split_if.
  - opt_inv. by apply kept_set_ht.
  - opt_inv. by apply kept_set_ht.
Qed.

(** ** The registry list *)

Lemma chain_ext T T' o l : chain T o l ->
  (forall a h, a ∈ l -> T !! a = Some h ->
     exists h', T' !! a = Some h' /\ registry_next h' = registry_next h) -> chain T' o l.
Proof.
  revert o. induction l as [|a l IH]; intros o Hc Hext; [done|].
  destruct Hc as (-> & h & Hh & Hc). destruct (Hext a h) as (h' & Hh' & Hn); [by left|done|].
  split; [done|]. exists h'. split; [done|]. rewrite Hn. apply IH; [done|].
  intros b k Hb. apply Hext. by right.
Qed.

Lemma chain_head T o l a : chain T o l -> o = Some a -> a ∈ l.
Proof. destruct l as [|b l]; [by intros ->|]. intros (-> & _) [= ->]. by left. Qed.

Lemma chain_next T o l a h b : chain T o l -> a ∈ l -> T !! a = Some h ->
  registry_next h = Some b -> b ∈ l.
Proof.
  revert o. induction l as [|c l IH]; intros o Hc Ha Hh Hn; [by apply elem_of_nil in Ha|].
  destruct Hc as (_ & k & Hk & Hc). apply elem_of_cons in Ha as [->|Ha].
  - rewrite Hh in Hk. apply (inj Some) in Hk as <-. right. by eapply chain_head.
  - right. by eapply IH.
Qed.

Lemma chain_size (T : gmap nat a20_ht_internal) l : NoDup l ->
  (forall a, a ∈ l -> is_Some (T !! a)) -> (length l <= size T)%nat.
Proof.
  intros Hnd Hin. rewrite <- size_dom, <- (size_list_to_set (C := gset nat) l) by done.
  apply subseteq_size. intros a Ha%elem_of_list_to_set. apply elem_of_dom. by apply Hin.
Qed.

(** The two tables differ at most in their link. *)
Definition relinked (h h' : a20_ht_internal) : Prop := exists n, h' = h {{ registry_next := n }}.

Lemma relinked_refl h : relinked h h.
Proof. exists (registry_next h). by destruct h. Qed.

(** What the walk does from the link [pp] in front of the rest [l] of the
    list: [a] is taken out of [l], everything else is as before. *)
Definition unlinked_from (w w' : reg) (pp : option nat) (l : list nat) (a : nat) : Prop :=
  (exists o, link_read w' pp = Some o /\ chain (tables w') o (remove1 a l)) /\
  (forall b h, tables w !! b = Some h -> exists h', tables w' !! b = Some h' /\ relinked h h') /\
  (forall b, tables w !! b = None -> tables w' !! b = None) /\
  (forall b, Some b <> pp -> b ∉ l -> tables w' !! b = tables w !! b) /\
  (pp <> None -> registry w' = registry w) /\
  g_stat w' = g_stat w /\ g_log w' = g_log w.

Lemma link_write_ok w pp l a h : (forall p, pp = Some p -> (p ∉ (a :: l)) /\ is_Some (tables w !! p)) ->
  tables w !! a = Some h -> chain (tables w) (registry_next h) l ->
  exists w', link_write w pp (registry_next h) = Some w' /\ unlinked_from w w' pp (a :: l) a.
Proof.
  intros Hpp Ha Hc. unfold unlinked_from. cbn [remove1]. rewrite bool_decide_eq_true_2 by done.
  destruct pp as [p|]; cbn [link_write link_read].
  - destruct (Hpp p eq_refl) as [Hp [k Hk]]. rewrite Hk. cbn [mbind option_bind].
    set (k' := k {{ registry_next := registry_next h }}).
    exists (put_table w p k'). split; [done|].
    change (tables (put_table w p k')) with (<[p := k']> (tables w)).
    split_and!; [| | | |done|done|done].
    + exists (registry_next h). rewrite lookup_insert_eq. split; [done|].
      eapply chain_ext; [exact Hc|]. intros b hb Hb Hhb. exists hb. split; [|done].
      rewrite lookup_insert_ne; [done|]. intros ->. apply Hp. by right.
    + intros b hb Hhb. destruct (decide (b = p)) as [->|Hne].
      * exists k'. rewrite lookup_insert_eq. split; [done|]. rewrite Hk in Hhb.
        apply (inj Some) in Hhb as <-. by eexists.
      * exists hb. rewrite lookup_insert_ne by done. split; [done|apply relinked_refl].
    + intros b Hb. rewrite lookup_insert_ne; [done|]. congruence.
    + intros b Hne _. rewrite lookup_insert_ne; [done|]. congruence.
  - exists (w {{ registry := registry_next h }}). split; [done|].
    split_and!; [by eexists| |done|done|done|done|done].
    intros b hb Hhb. exists hb. split; [done|apply relinked_refl].
Qed.

Lemma unlink_walk_ok fuel w pp o l a : link_read w pp = Some o -> chain (tables w) o l ->
  NoDup l -> a ∈ l -> (forall p, pp = Some p -> (p ∉ l) /\ is_Some (tables w !! p)) ->
  (length l <= fuel)%nat ->
  exists w', unlink_walk fuel w pp a = Some w' /\ unlinked_from w w' pp l a.
Proof.
  revert pp o l. induction fuel as [|fuel IH]; intros pp o l Hr Hc Hnd Ha Hpp Hlen.
  { destruct l; [by apply elem_of_nil in Ha|]. cbn [length] in Hlen. lia. }
  destruct l as [|p l]; [by apply elem_of_nil in Ha|]. destruct Hc as (-> & h & Hh & Hc).
  cbn [unlink_walk]. rewrite Hr. cbn [mbind option_bind]. apply NoDup_cons in Hnd as [Hp Hnd].
  destruct (decide (p = a)) as [->|Hne].
  { rewrite bool_decide_eq_true_2, Hh by done. cbn [mbind option_bind]. by apply link_write_ok. }
  rewrite bool_decide_eq_false_2 by done. apply elem_of_cons in Ha as [->|Ha]; [done|].
  destruct (IH (Some p) (registry_next h) l) as (w' & E & (o' & Hr' & Hc') & Hrel & Hnone & Hsame & Hreg & Hst & Hlog);
    [cbn [link_read]; by rewrite Hh|done|done|done| |cbn [length] in Hlen; lia|].
  { intros q [= <-]. split; [done|by eexists]. }
  exists w'. split; [done|]. cbn [link_read] in Hr'. apply bind_Some in Hr' as (h' & Hh' & [= <-]).
  split_and!; [|done|done| | |done|done].
  - exists (Some p). cbn [remove1]. rewrite bool_decide_eq_false_2 by done. split.
    + destruct pp as [q|]; cbn [link_read] in *.
      * rewrite Hsame; [done| |]; destruct (Hpp q eq_refl) as [Hq _]; set_solver.
      * by rewrite Hreg.
    + split; [done|]. by exists h'.
  - intros b Hb Hbl. apply Hsame; set_solver.
  - intros Hne'. by apply Hreg.
Qed.

(** ** Every step keeps the invariant *)

Lemma wf_count_link h n o : ht_wf h -> ht_wf (h {{ refcount := n; registry_next := o }}).
Proof. by apply wf_attrs. Qed.
Lemma wf_refcount h n : ht_wf h -> ht_wf (h {{ refcount := n }}).
Proof. by apply wf_attrs. Qed.
Lemma wf_relinked h h' : relinked h h' -> ht_wf h -> ht_wf h'.
Proof. intros [o ->]. by apply wf_attrs. Qed.

Lemma refcount_bound r a h : reg_inv r -> tables (rw r) !! a = Some h ->
  0 <= refcount h <= Z.of_nat (length (holders r)).
Proof. intros Hr Hh. rewrite (proj2 (ri_tables r Hr a h Hh)). apply occ_length. Qed.

Lemma held_count r a : reg_inv r -> a ∈ holders r ->
  exists h, tables (rw r) !! a = Some h /\ 0 < refcount h.
Proof.
  intros Hr Ha. destruct (ri_holders r Hr a Ha) as [h Hh]. exists h. split; [done|].
  rewrite (proj2 (ri_tables r Hr a h Hh)). by apply occ_pos.
Qed.

(** One table's count changes, together with who holds it and whether it is
    dying. *)
Lemma inv_recount r a h n hs ds : reg_inv r -> tables (rw r) !! a = Some h ->
  occ a hs = n -> (forall b, b <> a -> occ b hs = occ b (holders r)) ->
  (a ∈ ds \/ a ∈ unlinked r <-> n = 0) -> (forall b, b <> a -> b ∈ ds <-> b ∈ dying r) ->
  NoDup (ds ++ unlinked r) ->
  reg_inv {| rw := put_table (rw r) a (h {{ refcount := n }}); holders := hs; dying := ds;
             unlinked := unlinked r |}.
Proof.
  intros Hr Hh Hn Hocc Hdead Hds Hnd. destruct (ri_tables r Hr a h Hh) as [Hwf _].
  set (k := h {{ refcount := n }}).
  assert (forall b, b <> a -> <[a := k]> (tables (rw r)) !! b = tables (rw r) !! b) as Hne.
  { intros b Hb. by rewrite lookup_insert_ne. }
  assert (forall b, is_Some (<[a := k]> (tables (rw r)) !! b) <-> is_Some (tables (rw r) !! b)) as Hsome.
  { intros b. destruct (decide (b = a)) as [->|Hb]; [|by rewrite Hne].
    rewrite lookup_insert_eq. split; by eexists. }
  constructor; cbn [rw holders dying unlinked];
    change (tables (put_table (rw r) a k)) with (<[a := k]> (tables (rw r)));
    change (registry (put_table (rw r) a k)) with (registry (rw r));
    change (g_stat (put_table (rw r) a k)) with (g_stat (rw r)).
  - destruct (ri_chain r Hr) as (l & Hc & Hl & Hin). exists l. split_and!; [|done|].
    + eapply chain_ext; [exact Hc|]. intros b hb _ Hhb. destruct (decide (b = a)) as [->|Hb].
      * exists k. rewrite lookup_insert_eq. split; [done|]. rewrite Hh in Hhb.
        by apply (inj Some) in Hhb as <-.
      * exists hb. by rewrite Hne.
    + intros b. rewrite Hsome. apply Hin.
  - intros b hb Hhb. destruct (decide (b = a)) as [->|Hb].
    + rewrite lookup_insert_eq in Hhb. apply (inj Some) in Hhb as <-. split; [by apply wf_refcount|done].
    + rewrite Hne in Hhb by done. rewrite Hocc by done. by apply (ri_tables r Hr).
  - intros b Hb. apply Hsome. destruct (decide (b = a)) as [->|Hba]; [by eexists|].
    apply (ri_holders r Hr), occ_pos. rewrite <- Hocc by done. by apply occ_pos.
  - intros b. destruct (decide (b = a)) as [->|Hb].
    + rewrite lookup_insert_eq, Hdead. split; [intros E; by exists k|].
      intros (h0 & E & E0). by apply (inj Some) in E as <-.
    + rewrite Hne, Hds by done. apply (ri_dead r Hr).
  - exact Hnd.
  - apply Hr.
Qed.

Lemma inv_ref r a h : reg_inv r -> tables (rw r) !! a = Some h -> 0 < refcount h ->
  reg_inv {| rw := put_table (rw r) a (h {{ refcount := refcount h + 1 }});
             holders := a :: holders r; dying := dying r; unlinked := unlinked r |}.
Proof.
  intros Hr Hh Hpos. pose proof (proj2 (ri_tables r Hr a h Hh)) as Hocc.
  apply (inv_recount r a h (refcount h + 1) (a :: holders r) (dying r) Hr Hh).
  - cbn [occ]. rewrite bool_decide_eq_true_2 by done. lia.
  - intros b Hb. cbn [occ]. by rewrite bool_decide_eq_false_2.
  - split; [|lia]. intros (h' & Hh' & H0)%(ri_dead r Hr). rewrite Hh in Hh'.
    apply (inj Some) in Hh' as <-. lia.
  - done.
  - apply Hr.
Qed.

(** A step ends, in a world that satisfies the invariant. *)
Definition step_inv (r : rworld) (act : action) : Prop :=
  exists r', run_action r act = Some r' /\ reg_inv r'.

Lemma ref_or_null_inv w hs ds us o : let r := {| rw := w; holders := hs; dying := ds; unlinked := us |} in
  reg_inv r -> Z.of_nat (length hs) < 2147483647 -> (forall a, o = Some a -> is_Some (tables w !! a)) ->
  exists w' o', ref_or_null w o = Some (w', o') /\
    reg_inv {| rw := w'; holders := hold o' hs; dying := ds; unlinked := us |}.
Proof.
  intros r Hr Hlen Ho. destruct o as [a|]; [|by exists w, None]. cbn [ref_or_null].
  destruct (Ho a eq_refl) as [h Hh]. unfold refcount_inc_not_zero. rewrite Hh. cbn [mbind option_bind].
  destruct (refcount h =? 0) eqn:E; reflect; [by exists w, None|].
  destruct (refcount_bound r a h Hr Hh) as [H0 H1]. cbn [holders r] in H1.
  unfold sadd32. rewrite (proj2 (Z.leb_le _ _)), (proj2 (Z.leb_le _ _)) by lia.
  cbn [andb mbind option_bind]. do 2 eexists. split; [done|].
  apply (inv_ref r a h Hr Hh). lia.
Qed.

Lemma step_create r mem jp jb : reg_inv r -> allowed r (ActCreate mem jp jb) ->
  step_inv r (ActCreate mem jp jb).
Proof.
  destruct r as [w hs ds us]. intros Hr [_ Hfree]. destruct mem as [a|]; [|by eexists].
  cbn [rw] in Hfree. set (k := ht_created jp jb (registry w)).
  exists {| rw := (put_table w a k) {{ registry := Some a }}; holders := a :: hs; dying := ds;
            unlinked := us |}. split; [done|].
  assert (forall b, is_Some (tables w !! b) -> b <> a) as Hdom by (intros b [? ?] ->; congruence).
  assert (a ∉ us) as Hus.
  { intros Ha. destruct (proj1 (ri_dead _ Hr a) (or_intror Ha)) as (h & Hh & _).
    cbn [rw] in Hh. congruence. }
  assert (a ∉ ds) as Hds.
  { intros Ha. destruct (proj1 (ri_dead _ Hr a) (or_introl Ha)) as (h & Hh & _).
    cbn [rw] in Hh. congruence. }
  assert (occ a hs = 0) as Hocc.
  { destruct (decide (a ∈ hs)) as [Ha|Ha].
    - by destruct (Hdom a (ri_holders _ Hr a Ha)).
    - rewrite occ_pos in Ha. pose proof (occ_length a hs). lia. }
  constructor; cbn [rw holders dying unlinked];
    change (tables ((put_table w a k) {{ registry := Some a }})) with (<[a := k]> (tables w));
    change (registry ((put_table w a k) {{ registry := Some a }})) with (Some a);
    change (g_stat ((put_table w a k) {{ registry := Some a }})) with (g_stat w).
  - destruct (ri_chain _ Hr) as (l & Hc & Hl & Hin). cbn [rw unlinked] in *.
    assert (a ∉ l) as Hal. { intros Ha. apply Hin in Ha as [Hs _]. by destruct (Hdom a Hs). }
    exists (a :: l). split_and!; [|by constructor|].
    + split; [done|]. exists k. rewrite lookup_insert_eq. split; [done|].
      eapply chain_ext; [exact Hc|]. intros b h Hb Hh. exists h. by rewrite lookup_insert_ne by congruence.
    + intros b. rewrite elem_of_cons, Hin. destruct (decide (b = a)) as [->|Hb].
      * rewrite lookup_insert_eq. split; [by split|by left].
      * rewrite lookup_insert_ne by done. naive_solver.
  - intros b h Hh. cbn [occ]. destruct (decide (b = a)) as [->|Hb].
    + rewrite lookup_insert_eq in Hh. apply (inj Some) in Hh as <-.
      rewrite bool_decide_eq_true_2, Hocc by done. split; [apply created_wf|done].
    + rewrite lookup_insert_ne in Hh by done. rewrite bool_decide_eq_false_2 by done.
      apply (ri_tables _ Hr b h Hh).
  - intros b [->|Hb]%elem_of_cons; [by rewrite lookup_insert_eq|].
    pose proof (ri_holders _ Hr b Hb) as Hs. rewrite lookup_insert_ne; [done|].
    intros <-. by destruct (Hdom a Hs).
  - intros b. destruct (decide (b = a)) as [->|Hb].
    + rewrite lookup_insert_eq. split; [by intros [|]|]. by intros (h & [= <-] & H0).
    + rewrite lookup_insert_ne by done. apply (ri_dead _ Hr).
  - apply (ri_nodup _ Hr).
  - apply (ri_stat _ Hr).
Qed.

Lemma step_get r a : reg_inv r -> allowed r (ActGet a) -> step_inv r (ActGet a).
Proof.
  destruct r as [w hs ds us]. intros Hr [Hlen Ha]. destruct (held_count _ a Hr Ha) as (h & Hh & Hpos).
  pose proof (refcount_bound _ a h Hr Hh) as Hb. cbn [rw holders] in *.
  unfold step_inv. cbn [run_action a20_ht_get_ref rw]. unfold refcount_inc. rewrite Hh.
  cbn [mbind option_bind]. rewrite s32_small by lia. eexists. split; [done|].
  apply (inv_ref _ a h Hr Hh Hpos).
Qed.

Lemma step_put r a : reg_inv r -> allowed r (ActPut a) -> step_inv r (ActPut a).
Proof.
  destruct r as [w hs ds us]. intros Hr [Hlen Ha]. destruct (held_count _ a Hr Ha) as (h & Hh & Hpos).
  pose proof (refcount_bound _ a h Hr Hh) as Hb. pose proof (proj2 (ri_tables _ Hr a h Hh)) as Hocc.
  cbn [rw holders] in *. unfold step_inv. cbn [run_action rw]. unfold refcount_dec_and_test. rewrite Hh.
  cbn [mbind option_bind]. rewrite s32_small by lia.
  exists {| rw := put_table w a (h {{ refcount := refcount h - 1 }}); holders := remove1 a hs;
            dying := if refcount h - 1 =? 0 then a :: ds else ds; unlinked := us |}. split; [done|].
  assert (~ (a ∈ ds \/ a ∈ us)) as Hnd.
  { intros (h' & Hh' & H0)%(ri_dead _ Hr). cbn [rw] in Hh'. rewrite Hh in Hh'.
    apply (inj Some) in Hh' as <-. lia. }
  apply (inv_recount _ a h (refcount h - 1) _ _ Hr Hh); cbn [holders dying unlinked].
  - rewrite occ_remove1 by done. rewrite bool_decide_eq_true_2 by done. lia.
  - intros b Hne. rewrite occ_remove1 by done. rewrite bool_decide_eq_false_2 by done. lia.
  - split_if; reflect; rewrite ?elem_of_cons; [split; [done|by left; left]|]. split; [done|lia].
  - intros b Hne. split_if; [|done]. rewrite elem_of_cons. naive_solver.
  - pose proof (ri_nodup _ Hr) as H. cbn [dying unlinked] in H. split_if; [|done]. cbn [app].
    constructor; [|done]. rewrite elem_of_app. done.
Qed.

(** Every table is changed at most in its link, and the registry is a list
    of the tables that are not unlinked. *)
Lemma inv_relink w w' hs ds us ds' us' l :
  reg_inv {| rw := w; holders := hs; dying := ds; unlinked := us |} ->
  (forall b h, tables w !! b = Some h -> exists h', tables w' !! b = Some h' /\ relinked h h') ->
  (forall b, tables w !! b = None -> tables w' !! b = None) -> g_stat w' = g_stat w ->
  chain (tables w') (registry w') l -> NoDup l ->
  (forall b, b ∈ l <-> is_Some (tables w' !! b) /\ b ∉ us') ->
  ds' ++ us' ≡ₚ ds ++ us ->
  reg_inv {| rw := w'; holders := hs; dying := ds'; unlinked := us' |}.
Proof.
  intros Hr Hrel Hnone Hst Hc Hl Hin Hperm.
  assert (forall b h', tables w' !! b = Some h' -> exists h, tables w !! b = Some h /\ relinked h h') as Hback.
  { intros b h' Hh'. destruct (tables w !! b) as [h|] eqn:Hh.
    - destruct (Hrel b h Hh) as (h2 & E & Hrl). rewrite Hh' in E. apply (inj Some) in E as <-. by exists h.
    - by rewrite (Hnone b Hh) in Hh'. }
  constructor; cbn [rw holders dying unlinked].
  - by exists l.
  - intros b h' Hh'. destruct (Hback b h' Hh') as (h & Hh & Hrl).
    destruct (ri_tables _ Hr b h Hh) as [Hwf Hocc]. split; [by eapply wf_relinked|].
    by destruct Hrl as [o ->].
  - intros b Hb. destruct (ri_holders _ Hr b Hb) as [h Hh]. destruct (Hrel b h Hh) as (h' & E & _).
    by exists h'.
  - intros b. rewrite <- elem_of_app, Hperm, elem_of_app. etrans; [apply (ri_dead _ Hr)|]. cbn [rw]. split.
    + intros (h & Hh & H0). destruct (Hrel b h Hh) as (h' & E & [o ->]). by eexists.
    + intros (h' & Hh' & H0). destruct (Hback b h' Hh') as (h & Hh & [o ->]). by exists h.
  - rewrite Hperm. apply (ri_nodup _ Hr).
  - rewrite Hst. apply (ri_stat _ Hr).
Qed.

Lemma remove1_perm a l : a ∈ l -> a :: remove1 a l ≡ₚ l.
Proof.
  induction l as [|b l IH]; [by intros ?%elem_of_nil|]. intros Ha. cbn [remove1].
  case_bool_decide as E; [by subst|]. apply elem_of_cons in Ha as [->|Ha]; [done|].
  rewrite Permutation_swap. by rewrite IH.
Qed.

Lemma step_unlink r a : reg_inv r -> allowed r (ActUnlink a) -> step_inv r (ActUnlink a).
Proof.
  destruct r as [w hs ds us]. intros Hr [_ Ha]. cbn [dying] in Ha.
  destruct (ri_chain _ Hr) as (l & Hc & Hl & Hin). cbn [rw unlinked] in *.
  destruct (proj1 (ri_dead _ Hr a) (or_introl Ha)) as (h & Hh & _). cbn [rw] in Hh.
  assert (a ∉ us) as Hus.
  { pose proof (ri_nodup _ Hr) as Hnd. cbn [dying unlinked] in Hnd.
    apply NoDup_app in Hnd as (_ & Hd & _). by apply Hd. }
  assert (a ∈ l) as Hal by (apply Hin; split; [by eexists|done]).
  destruct (unlink_walk_ok (S (size (tables w))) w None (registry w) l a)
    as (w1 & E & (o & Hrd & Hc1) & Hrel & Hnone & _ & _ & Hst & Hlog); [done|done|done|done|done| |].
  { etrans; [apply (chain_size (tables w) l Hl)|lia]. intros b Hb. by apply Hin in Hb as [? _]. }
  cbn [link_read] in Hrd. apply (inj Some) in Hrd as <-.
  destruct (Hrel a h Hh) as (h1 & Hh1 & Hr1).
  unfold step_inv. cbn [run_action rw]. unfold destroy_unlink. rewrite E. cbn [mbind option_bind].
  rewrite Hh1. cbn [mbind option_bind]. set (k := h1 {{ registry_next := None }}).
  exists {| rw := put_table w1 a k; holders := hs; dying := remove1 a ds; unlinked := a :: us |}.
  split; [done|].
  assert (relinked h k) as Hk by (destruct Hr1 as [o ->]; by exists None).
  destruct (nodup_remove1 a l Hl) as [Hl1 Hal1].
  apply (inv_relink w _ hs ds us _ _ (remove1 a l) Hr);
    change (tables (put_table w1 a k)) with (<[a := k]> (tables w1));
    change (registry (put_table w1 a k)) with (registry w1);
    change (g_stat (put_table w1 a k)) with (g_stat w1); [| |done| |done| |].
  - intros b hb Hhb. destruct (decide (b = a)) as [->|Hne].
    + rewrite Hh in Hhb. apply (inj Some) in Hhb as <-. exists k. by rewrite lookup_insert_eq.
    + rewrite lookup_insert_ne by done. by apply Hrel.
  - intros b Hb. rewrite lookup_insert_ne by congruence. by apply Hnone.
  - eapply chain_ext; [exact Hc1|]. intros b hb Hb Hhb. exists hb.
    rewrite lookup_insert_ne; [done|]. by intros ->.
  - intros b. rewrite (elem_remove1_nodup a b l Hl), Hin, elem_of_cons.
    destruct (decide (b = a)) as [->|Hne]; [naive_solver|]. rewrite lookup_insert_ne by done.
    assert (is_Some (tables w !! b) <-> is_Some (tables w1 !! b)) as ->; [|naive_solver].
    split; intros [hb Hhb].
    + destruct (Hrel b hb Hhb) as (? & ? & _). by eexists.
    + destruct (tables w !! b) eqn:Eb; [by eexists|]. by rewrite (Hnone b Eb) in Hhb.
  - rewrite <- Permutation_middle. change (a :: remove1 a ds ++ us) with ((a :: remove1 a ds) ++ us).
    by rewrite remove1_perm.
Qed.

Lemma step_free r a : reg_inv r -> allowed r (ActFree a) -> step_inv r (ActFree a).
Proof.
  destruct r as [w hs ds us]. intros Hr [_ Ha]. cbn [unlinked] in Ha.
  destruct (proj1 (ri_dead _ Hr a) (or_intror Ha)) as (h & Hh & H0). cbn [rw] in Hh.
  destruct (ri_tables _ Hr a h Hh) as [Hwf Hocc]. cbn [holders] in Hocc.
  destruct (destroy_ok {| ht := h; stat_handles := g_stat w; log := g_log w |} Hwf (ri_stat _ Hr))
    as (s' & E & _ & Hst & _). cbn [stat_handles ht] in Hst.
  unfold step_inv. cbn [run_action rw]. unfold destroy_free, on_table. rewrite Hh.
  cbn [mbind option_bind]. rewrite E. cbn [mbind option_bind].
  set (T := delete a (<[a := ht s']> (tables w))).
  exists {| rw := {| tables := T; registry := registry w; g_stat := stat_handles s'; g_log := log s' |};
            holders := hs; dying := ds; unlinked := remove1 a us |}. split; [done|].
  pose proof (ri_nodup _ Hr) as Hnd. cbn [dying unlinked] in Hnd.
  apply NoDup_app in Hnd as (Hds & Hdisj & Hus). destruct (nodup_remove1 a us Hus) as [Hus1 Hau1].
  assert (a ∉ ds) as Hads by (intros Hin; by destruct (Hdisj a Hin)).
  assert (T !! a = None) as Ta by (unfold T; by rewrite lookup_delete_eq).
  assert (forall b, b <> a -> T !! b = tables w !! b) as Tne.
  { intros b Hb. unfold T. by rewrite lookup_delete_ne, lookup_insert_ne. }
  constructor; cbn [rw holders dying unlinked tables registry g_stat].
  - destruct (ri_chain _ Hr) as (l & Hc & Hl & Hin). cbn [rw unlinked] in *.
    assert (a ∉ l) as Hal by (intros [_ H]%Hin; done).
    exists l. split_and!; [|done|].
    + eapply chain_ext; [exact Hc|]. intros b hb Hb Hhb. exists hb. rewrite Tne; [done|]. by intros ->.
    + intros b. rewrite Hin, (elem_remove1_nodup a b us Hus). destruct (decide (b = a)) as [->|Hb].
      * rewrite Ta. split; [naive_solver|by intros [[? ?] _]].
      * rewrite Tne by done. naive_solver.
  - intros b hb Hhb. assert (b <> a) by congruence. rewrite Tne in Hhb by done. apply (ri_tables _ Hr b hb Hhb).
  - intros b Hb. destruct (decide (b = a)) as [->|Hne].
    + apply occ_pos in Hb. lia.
    + rewrite Tne by done. apply (ri_holders _ Hr b Hb).
  - intros b. rewrite (elem_remove1_nodup a b us Hus). destruct (decide (b = a)) as [->|Hne].
    + rewrite Ta. split; [naive_solver|by intros (? & ? & _)].
    + rewrite Tne by done. pose proof (ri_dead _ Hr b) as Hd. cbn [rw dying unlinked] in Hd. naive_solver.
  - apply NoDup_app. split_and!; [done| |done]. intros b Hb Hb'.
    apply elem_remove1 in Hb'. by destruct (Hdisj b Hb).
  - rewrite Hst. apply u64_range.
Qed.

Lemma step_table_op r a op : reg_inv r -> allowed r (ActOp a op) -> step_inv r (ActOp a op).
Proof.
  destruct r as [w hs ds us]. intros Hr [_ [Ha Hop]]. destruct (held_count _ a Hr Ha) as (h & Hh & _).
  cbn [rw] in Hh. destruct (ri_tables _ Hr a h Hh) as [Hwf Hocc].
  set (s := {| ht := h; stat_handles := g_stat w; log := g_log w |}).
  destruct (step_op op s Hwf Hop) as (s' & E & Hwf' & _).
  destruct (run_op_kept op s s' E) as [[Href Hnext] Hst].
  unfold step_inv. cbn [run_action rw]. unfold on_table. rewrite Hh. cbn [mbind option_bind].
  fold s. rewrite E. cbn [mbind option_bind]. change (refcount (ht s)) with (refcount h) in Href.
  change (registry_next (ht s)) with (registry_next h) in Hnext.
  set (T := <[a := ht s']> (tables w)).
  exists {| rw := {| tables := T; registry := registry w; g_stat := stat_handles s'; g_log := log s' |};
            holders := hs; dying := ds; unlinked := us |}. split; [done|].
  assert (T !! a = Some (ht s')) as Ta by (unfold T; by rewrite lookup_insert_eq).
  assert (forall b, b <> a -> T !! b = tables w !! b) as Tne.
  { intros b Hb. unfold T. by rewrite lookup_insert_ne. }
  assert (forall b, is_Some (T !! b) <-> is_Some (tables w !! b)) as Hsome.
  { intros b. destruct (decide (b = a)) as [->|Hb]; [|by rewrite Tne]. rewrite Ta, Hh. split; by eexists. }
  constructor; cbn [rw holders dying unlinked tables registry g_stat].
  - destruct (ri_chain _ Hr) as (l & Hc & Hl & Hin). cbn [rw unlinked] in *.
    exists l. split_and!; [|done|intros b; by rewrite Hsome].
    eapply chain_ext; [exact Hc|]. intros b hb _ Hhb. destruct (decide (b = a)) as [->|Hb].
    + exists (ht s'). split; [done|]. rewrite Hh in Hhb. by apply (inj Some) in Hhb as <-.
    + exists hb. by rewrite Tne.
  - intros b hb Hhb. destruct (decide (b = a)) as [->|Hb].
    + rewrite Ta in Hhb. apply (inj Some) in Hhb as <-. split; [done|]. by rewrite Href.
    + rewrite Tne in Hhb by done. apply (ri_tables _ Hr b hb Hhb).
  - intros b Hb. apply Hsome. apply (ri_holders _ Hr b Hb).
  - intros b. etrans; [apply (ri_dead _ Hr)|]. cbn [rw]. destruct (decide (b = a)) as [->|Hb]; [|by rewrite Tne].
    rewrite Ta, Hh. split; intros (hb & Hhb & H0); apply (inj Some) in Hhb as <-; eexists; (split; [done|]);
      congruence.
  - apply (ri_nodup _ Hr).
  - apply Hst. apply (ri_stat _ Hr).
Qed.

(** The registry and the links of held tables name tables in memory. *)
Lemma linked_in_memory w hs ds us o : let r := {| rw := w; holders := hs; dying := ds; unlinked := us |} in
  reg_inv r -> (o = registry w \/ exists a h, a ∈ hs /\ tables w !! a = Some h /\ o = registry_next h) ->
  forall b, o = Some b -> is_Some (tables w !! b).
Proof.
  intros r Hr Ho b ->. destruct (ri_chain _ Hr) as (l & Hc & _ & Hin). cbn [rw r unlinked] in *.
  destruct Ho as [Hreg|(a & h & Ha & Hh & Hn)].
  - apply Hin. by eapply chain_head.
  - apply Hin. eapply chain_next; [exact Hc| |exact Hh|done]. apply Hin. split; [by eexists|].
    intros Hu. destruct (held_count r a Hr Ha) as (h1 & Hh1 & Hpos).
    destruct (proj1 (ri_dead _ Hr a) (or_intror Hu)) as (h2 & Hh2 & H0). cbn [rw r] in *.
    rewrite Hh1 in Hh2. apply (inj Some) in Hh2 as <-. lia.
Qed.

Lemma step_first r : reg_inv r -> allowed r ActFirst -> step_inv r ActFirst.
Proof.
  destruct r as [w hs ds us]. intros Hr [Hlen _].
  destruct (ref_or_null_inv w hs ds us (registry w) Hr Hlen) as (w' & o & E & Hr').
  { eapply linked_in_memory; [exact Hr|by left]. }
  unfold step_inv. cbn [run_action rw]. unfold sweep_first. rewrite E. by eexists.
Qed.

Lemma step_next r a : reg_inv r -> allowed r (ActNext a) -> step_inv r (ActNext a).
Proof.
  destruct r as [w hs ds us]. intros Hr [Hlen Ha]. destruct (held_count _ a Hr Ha) as (h & Hh & _).
  cbn [rw holders] in *.
  destruct (ref_or_null_inv w hs ds us (registry_next h) Hr Hlen) as (w' & o & E & Hr').
  { eapply linked_in_memory; [exact Hr|]. right. by exists a, h. }
  unfold step_inv. cbn [run_action rw]. unfold sweep_next. rewrite Hh. cbn [mbind option_bind].
  rewrite E. by eexists.
Qed.

Lemma step_task_ref r a : reg_inv r -> allowed r (ActTaskRef a) -> step_inv r (ActTaskRef a).
Proof.
  destruct r as [w hs ds us]. intros Hr [Hlen Ha]. cbn [holders dying] in Ha.
  destruct (ref_or_null_inv w hs ds us (Some a) Hr Hlen) as (w' & o & E & Hr').
  { intros b [= <-]. destruct Ha as [Ha|Ha]; [apply (ri_holders _ Hr a Ha)|].
    destruct (proj1 (ri_dead _ Hr a) (or_introl Ha)) as (h & Hh & _). by eexists. }
  unfold step_inv. cbn [run_action rw task_get_a20_ht_ref]. rewrite E. by eexists.
Qed.

Lemma step_action r act : reg_inv r -> allowed r act -> step_inv r act.
Proof.
  intros Hr Ha. destruct act; [by apply step_create|by apply step_get|by apply step_put|
    by apply step_unlink|by apply step_free|by apply step_first|by apply step_next|
    by apply step_task_ref|by apply step_table_op].
Qed.

Lemma run_actions_ok acts r : reg_inv r -> history r acts ->
  exists r', run_actions r acts = Some r' /\ reg_inv r'.
Proof.
  revert r. induction acts as [|act acts IH]; intros r Hr Hh; [by exists r|].
  destruct Hh as [Ha Hh]. destruct (step_action r act Hr Ha) as (r1 & E & Hr1).
  cbn [run_actions]. rewrite E. cbn [mbind option_bind]. apply IH; [done|by apply Hh].
Qed.

Lemma registry_boot_inv : reg_inv registry_boot.
Proof.
  constructor; cbn [rw registry_boot holders dying unlinked tables registry g_stat].
  - exists []. split_and!; [done|constructor|]. intros a. rewrite lookup_empty.
    split; [by intros ?%elem_of_nil|by intros [[? ?] _]].
  - intros a h. by rewrite lookup_empty.
  - by intros a ?%elem_of_nil.
  - intros a. rewrite lookup_empty. split; [intros [H|H]; by apply elem_of_nil in H|by intros (? & ? & _)].
  - constructor.
  - unfold in_u64. lia.
Qed.

Lemma no_leak r : reg_inv r -> holders r = [] -> dying r = [] -> unlinked r = [] -> tables (rw r) = ∅.
Proof.
  intros Hr Hh Hd Hu. apply map_eq. intros a. rewrite lookup_empty.
  destruct (tables (rw r) !! a) as [h|] eqn:E; [|done].
  destruct (ri_tables r Hr a h E) as [_ Hocc]. rewrite Hh in Hocc. cbn [occ] in Hocc.
  destruct (proj2 (ri_dead r Hr a)) as [H|H]; [by exists h|..]; rewrite ?Hd, ?Hu in H;
    by apply elem_of_nil in H.
Qed.

(** ** The sweep of all tables, without interference *)

(** The table after a sweep at some time of the clock. *)
Definition swept_table (clock : nat -> nat -> Z) (h h' : a20_ht_internal) : Prop :=
  exists f k, forall j, cap_at h' j = cap_at h j ≫= swept (clock f k).

Definition clock_ok (clock : nat -> nat -> Z) : Prop :=
  forall f a b, (a <= b)%nat -> clock f b <= clock f a.

Lemma sweep_table_ok clock f s : clock_ok clock -> ht_wf (ht s) ->
  exists s', run_op (OpSweep (clock f)) s = Some s' /\ swept_table clock (ht s) (ht s').
Proof.
  intros Hclock Hw. pose proof (nbusy_bound (entries (ht s))). pose proof (hw_count _ Hw).
  destruct (sweep_ok (sweep_fuel s) (clock f) s Hw) as (s' & k & rel & E & Hk & Hsw).
  - unfold sweep_fuel, A20_SWEEP_BATCH. zlia.
  - intros a b Hab. apply Hclock. lia.
  - exists s'. split; [exact E|]. exists f, k. apply Hsw.
Qed.

(** Sweeping a table and dropping the reference to it, while others hold it. *)
Lemma sweep_turn clock f w a hs us : clock_ok clock ->
  reg_inv {| rw := w; holders := hs; dying := []; unlinked := us |} ->
  Z.of_nat (length hs) < 2147483647 -> 2 <= occ a hs ->
  exists w' h h', tables w !! a = Some h /\
    (w1 ← on_table w a (sweep_table (clock f)); a20_ht_put_ref w1 (Some a)) = Some w' /\
    tables w' = <[a := h']> (tables w) /\ swept_table clock h h' /\
    registry_next h' = registry_next h /\
    reg_inv {| rw := w'; holders := remove1 a hs; dying := []; unlinked := us |}.
Proof.
  intros Hclock Hr Hlen Hocc. assert (a ∈ hs) as Ha by (apply occ_pos; lia).
  destruct (held_count _ a Hr Ha) as (h & Hh & _). cbn [rw] in Hh.
  destruct (ri_tables _ Hr a h Hh) as [Hwf Href]. cbn [holders] in Href.
  set (s := {| ht := h; stat_handles := g_stat w; log := g_log w |}).
  destruct (sweep_table_ok clock f s Hclock Hwf) as (s' & E & Hsw).
  destruct (run_op_kept _ _ _ E) as [[Href' Hnext] _].
  change (refcount (ht s)) with (refcount h) in Href'.
  change (registry_next (ht s)) with (registry_next h) in Hnext.
  set (w1 := {| tables := <[a := ht s']> (tables w); registry := registry w;
                g_stat := stat_handles s'; g_log := log s' |}).
  assert (on_table w a (run_op (OpSweep (clock f))) = Some w1) as E1.
  { unfold on_table. rewrite Hh. cbn [mbind option_bind]. fold s. rewrite E. done. }
  destruct (step_table_op _ a (OpSweep (clock f)) Hr) as (r1 & Er1 & Hr1).
  { split; [done|]. split; [done|]. intros x y. apply Hclock. }
  cbn [run_action rw] in Er1. rewrite E1 in Er1. apply (inj Some) in Er1 as <-.
  set (h' := (ht s') {{ refcount := refcount (ht s') - 1 }}).
  assert (refcount_dec_and_test w1 a = Some (put_table w1 a h', false)) as E2.
  { unfold refcount_dec_and_test. cbn [tables w1]. rewrite lookup_insert_eq. cbn [mbind option_bind].
    pose proof (occ_length a hs). rewrite s32_small by lia.
    by rewrite (proj2 (Z.eqb_neq (refcount (ht s') - 1) 0)) by lia. }
  destruct (step_put _ a Hr1) as (r2 & Er2 & Hr2); [by split|].
  cbn [run_action rw] in Er2.
  change (refcount_dec_and_test _ a) with (refcount_dec_and_test w1 a) in Er2.
  rewrite E2 in Er2. cbn [mbind option_bind] in Er2. apply (inj Some) in Er2 as <-.
  exists (put_table w1 a h'), h, h'. split; [done|]. split.
  { change (sweep_table (clock f)) with (run_op (OpSweep (clock f))). rewrite E1. cbn [mbind option_bind a20_ht_put_ref].
    by rewrite E2. }
  split_and!; [|exact Hsw|exact Hnext|exact Hr2].
  change (<[a := h']> (<[a := ht s']> (tables w)) = <[a := h']> (tables w)). apply insert_insert_eq.
Qed.

(** Taking a reference to a table that is held. *)
Lemma ref_next_ok w b hs us : reg_inv {| rw := w; holders := hs; dying := []; unlinked := us |} ->
  Z.of_nat (length hs) < 2147483647 -> b ∈ hs ->
  exists h w', tables w !! b = Some h /\ ref_or_null w (Some b) = Some (w', Some b) /\
    tables w' = <[b := h {{ refcount := refcount h + 1 }}]> (tables w) /\ registry w' = registry w /\
    reg_inv {| rw := w'; holders := b :: hs; dying := []; unlinked := us |}.
Proof.
  intros Hr Hlen Hb. destruct (held_count _ b Hr Hb) as (h & Hh & Hpos). cbn [rw] in Hh.
  pose proof (refcount_bound _ b h Hr Hh) as Hbound. cbn [holders] in Hbound.
  exists h, (put_table w b (h {{ refcount := refcount h + 1 }})). split; [done|].
  split_and!; [|done|done|apply (inv_ref _ b h Hr Hh Hpos)].
  cbn [ref_or_null]. unfold refcount_inc_not_zero. rewrite Hh. cbn [mbind option_bind].
  rewrite (proj2 (Z.eqb_neq _ _)) by lia. unfold sadd32.
  by rewrite (proj2 (Z.leb_le _ _)), (proj2 (Z.leb_le _ _)) by lia.
Qed.

Definition all_swept (clock : nat -> nat -> Z) (w w' : reg) (l : list nat) : Prop :=
  (forall b h, b ∈ l -> tables w !! b = Some h ->
     exists h', tables w' !! b = Some h' /\ swept_table clock h h') /\
  (forall b, b ∉ l -> tables w' !! b = tables w !! b).

Lemma swept_one clock w w' a h h' : tables w !! a = Some h -> tables w' = <[a := h']> (tables w) ->
  swept_table clock h h' -> all_swept clock w w' [a].
Proof.
  intros Hh HT Hsw. split.
  - intros b hb ->%list_elem_of_singleton Hhb. rewrite Hh in Hhb. apply (inj Some) in Hhb as <-.
    exists h'. by rewrite HT, lookup_insert_eq.
  - intros b Hb. rewrite HT, lookup_insert_ne; [done|]. intros ->. apply Hb. left.
Qed.

Lemma sweep_all_loop_ok clock l fuel w a hs us : clock_ok clock ->
  reg_inv {| rw := w; holders := a :: hs; dying := []; unlinked := us |} ->
  Z.of_nat (length hs) < 2147483645 -> chain (tables w) (Some a) (a :: l) -> NoDup (a :: l) ->
  (forall b, b ∈ (a :: l) -> b ∈ hs) -> (length (a :: l) <= fuel)%nat ->
  exists w', sweep_all_loop fuel clock w (Some a) = Some w' /\
    reg_inv {| rw := w'; holders := hs; dying := []; unlinked := us |} /\ all_swept clock w w' (a :: l).
Proof.
  intros Hclock. revert fuel w a hs. induction l as [|b l IH]; intros fuel w a hs Hr Hlen Hc Hnd Hin Hfuel;
    (destruct fuel as [|fuel]; [cbn [length] in Hfuel; lia|]);
    destruct Hc as (_ & h & Hh & Hc); cbn [sweep_all_loop]; unfold sweep_next;
    rewrite Hh; cbn [mbind option_bind]; cbn [chain] in Hc.
  - rewrite Hc. cbn [ref_or_null mbind option_bind].
    destruct (sweep_turn clock fuel w a (a :: hs) us Hclock Hr) as (w' & h0 & h' & Hh0 & E & HT & Hsw & _ & Hr').
    { cbn [length]. lia. }
    { cbn [occ]. rewrite bool_decide_eq_true_2 by done. assert (a ∈ hs) as Ha%occ_pos by (apply Hin; left). lia. }
    cbn [remove1] in Hr'. rewrite bool_decide_eq_true_2 in Hr' by done.
    rewrite (bind_Some_assoc _ _ _ _ E). exists w'. rewrite Hh in Hh0. apply (inj Some) in Hh0 as <-.
    split_and!; [by destruct fuel|done|by eapply swept_one].
  - pose proof Hc as (Hb & _). rewrite Hb. apply NoDup_cons in Hnd as [Ha Hnd].
    assert (a <> b) as Hab by (intros ->; apply Ha; left).
    assert (b ∈ (a :: hs)) as Hbh by (right; apply Hin; right; left).
    destruct (ref_next_ok w b (a :: hs) us Hr) as (hb & w1 & Hhb & -> & HT1 & _ & Hr1);
      [cbn [length]; lia|done|]. cbn [mbind option_bind].
    destruct (sweep_turn clock fuel w1 a (b :: a :: hs) us Hclock Hr1)
      as (w2 & h0 & h' & Hh0 & E & HT & Hsw & Hnext & Hr2).
    { cbn [length]. lia. }
    { cbn [occ]. rewrite bool_decide_eq_false_2, bool_decide_eq_true_2 by done.
      assert (a ∈ hs) as Hocc%occ_pos by (apply Hin; left). lia. }
    cbn [remove1] in Hr2. rewrite bool_decide_eq_false_2, bool_decide_eq_true_2 in Hr2 by done.
    rewrite HT1, lookup_insert_ne, Hh in Hh0 by done. apply (inj Some) in Hh0 as <-.
    rewrite (bind_Some_assoc _ _ _ _ E).
    set (hb' := hb {{ refcount := refcount hb + 1 }}) in *. rewrite HT1 in HT.
    destruct (IH fuel w2 b hs Hr2 Hlen) as (w' & E' & Hr' & Hsw' & Hsame).
    { eapply chain_ext; [rewrite <- Hb; exact Hc|]. intros c hc Hcl Hhc. rewrite HT.
      rewrite lookup_insert_ne by (intros ->; done). destruct (decide (c = b)) as [->|Hcb].
      - exists hb'. rewrite lookup_insert_eq. split; [done|]. rewrite Hhb in Hhc.
        by apply (inj Some) in Hhc as <-.
      - exists hc. by rewrite lookup_insert_ne. }
    { done. }
    { intros c Hcl. apply Hin. by right. }
    { cbn [length] in *. lia. }
    exists w'. split_and!; [done|done|]. split.
    + intros c hc [->|Hcl]%elem_of_cons Hhc.
      * rewrite Hh in Hhc. apply (inj Some) in Hhc as <-. exists h'. split; [|done].
        by rewrite Hsame, HT, lookup_insert_eq.
      * assert (c <> a) as Hca by (intros ->; done).
        destruct (decide (c = b)) as [->|Hcb].
        -- rewrite Hhb in Hhc. apply (inj Some) in Hhc as <-.
           destruct (Hsw' b hb' Hcl) as (k & Hk & Hswk); [|by exists k].
           by rewrite HT, lookup_insert_ne, lookup_insert_eq.
        -- apply Hsw'; [done|]. by rewrite HT, !lookup_insert_ne.
    + intros c Hc'. apply not_elem_of_cons in Hc' as [Hca Hcl].
      rewrite Hsame, HT by done. rewrite !lookup_insert_ne; [done| |done]. intros ->. apply Hcl. left.
Qed.

Lemma sweep_all_ok clock w hs us l : clock_ok clock ->
  reg_inv {| rw := w; holders := hs; dying := []; unlinked := us |} ->
  Z.of_nat (length hs) < 2147483645 -> chain (tables w) (registry w) l -> NoDup l ->
  (forall b, b ∈ l -> b ∈ hs) ->
  exists w', a20_temporal_sweep_all clock w = Some w' /\
    reg_inv {| rw := w'; holders := hs; dying := []; unlinked := us |} /\ all_swept clock w w' l.
Proof.
  intros Hclock Hr Hlen Hc Hl Hheld.
  unfold a20_temporal_sweep_all, sweep_first. destruct l as [|a l]; cbn [chain] in Hc.
  { rewrite Hc. exists w. split_and!; [cbn; by destruct (size (tables w))|done|]. by split; [intros ? ? ?%elem_of_nil|]. }
  destruct Hc as (Hreg & h & Hh & Hc). rewrite Hreg.
  destruct (ref_next_ok w a hs us Hr) as (h0 & w1 & Hh0 & -> & HT & _ & Hr1);
    [lia|by apply Hheld; left|]. cbn [mbind option_bind].
  rewrite Hh in Hh0. apply (inj Some) in Hh0 as <-. set (k := h {{ refcount := refcount h + 1 }}) in *.
  apply NoDup_cons in Hl as Hal. destruct Hal as [Hal _].
  destruct (sweep_all_loop_ok clock l (size (tables w1)) w1 a hs us Hclock Hr1) as (w' & E & Hr' & Hsw & Hsame).
  - done.
  - split; [done|]. exists k. rewrite HT, lookup_insert_eq. split; [done|].
    eapply chain_ext; [exact Hc|]. intros b hb Hb Hhb. exists hb. rewrite lookup_insert_ne; [done|]. by intros ->.
  - done.
  - done.
  - apply chain_size; [done|]. intros b Hb. apply Hheld in Hb. apply (ri_holders _ Hr1). by right.
  - exists w'. split_and!; [done|done|]. split.
    + intros b hb Hb Hhb. destruct (decide (b = a)) as [->|Hne].
      * rewrite Hh in Hhb. apply (inj Some) in Hhb as <-.
        destruct (Hsw a k Hb) as (h' & Hh' & Hs'); [by rewrite HT, lookup_insert_eq|]. by exists h'.
      * apply Hsw; [done|]. by rewrite HT, lookup_insert_ne.
    + intros b Hb. rewrite Hsame, HT by done. rewrite lookup_insert_ne; [done|]. intros ->. apply Hb. left.
Qed.

(** ** Theorems *)

(** C36: In every history of threads that create tables, take, pass on and
    drop references, operate on the tables they hold, sweep along the
    registry and destroy the tables whose last reference is gone, in any
    interleaving of the critical sections, no freed or unlinked table is
    touched; every table's count is the number of references held, every
    table stays well formed, the registry lists each table not yet unlinked
    exactly once, and when all references are dropped and all destructions
    are done no table is left. *)
Theorem registry_histories_safe acts : history registry_boot acts ->
  exists r, run_actions registry_boot acts = Some r /\
    (forall a h, tables (rw r) !! a = Some h -> ht_wf h /\ refcount h = occ a (holders r)) /\
    (forall a, a ∈ holders r -> is_Some (tables (rw r) !! a)) /\
    (exists l, chain (tables (rw r)) (registry (rw r)) l /\ NoDup l /\
       forall a, a ∈ l <-> is_Some (tables (rw r) !! a) /\ a ∉ unlinked r) /\
    (holders r = [] -> dying r = [] -> unlinked r = [] -> tables (rw r) = ∅).
Proof.
  intros Hh. destruct (run_actions_ok acts registry_boot registry_boot_inv Hh) as (r & E & Hr).
  exists r. split_and!; [done|apply Hr|apply Hr|apply Hr|by apply no_leak].
Qed.

(** The sweep of all tables ends and, when no table is being destroyed
    and nothing interferes, sweeps every table of the registry: each is left
    as one sweep at some time of the clock leaves it, and all counts are as
    before. *)
Theorem sweep_all_correct clock r : clock_ok clock -> reg_inv r -> dying r = [] ->
  Z.of_nat (length (holders r)) < 2147483645 ->
  exists w' (l : list nat), a20_temporal_sweep_all clock (rw r) = Some w' /\
    (forall a, a ∈ l <-> is_Some (tables (rw r) !! a) /\ a ∉ unlinked r) /\
    (forall a h, a ∈ l -> tables (rw r) !! a = Some h ->
       exists h', tables w' !! a = Some h' /\ swept_table clock h h' /\ refcount h' = refcount h) /\
    (forall a, a ∉ l -> tables w' !! a = tables (rw r) !! a) /\
    reg_inv {| rw := w'; holders := holders r; dying := []; unlinked := unlinked r |}.
Proof.
  destruct r as [w hs ds us]. intros Hclock Hr Hd Hlen. cbn [dying] in Hd. subst ds.
  destruct (ri_chain _ Hr) as (l & Hc & Hl & Hin). cbn [rw unlinked holders] in *.
  assert (forall b, b ∈ l -> b ∈ hs) as Hheld.
  { intros b [[h Hh] Hu]%Hin. apply occ_pos. destruct (ri_tables _ Hr b h Hh) as [_ Hocc].
    cbn [holders] in Hocc. pose proof (occ_length b hs). destruct (decide (occ b hs = 0)); [|lia].
    destruct (proj2 (ri_dead _ Hr b)) as [H1|H1]; [exists h; split; [done|congruence]| |done].
    by apply elem_of_nil in H1. }
  destruct (sweep_all_ok clock w hs us l) as (w' & E & Hr' & Hsw & Hsame); [done..|].
  exists w', l. split_and!; [done|done| |done|done].
  intros a h Ha Hh. destruct (Hsw a h Ha Hh) as (h' & Hh' & Hs'). exists h'. split_and!; [done|done|].
  rewrite (proj2 (ri_tables _ Hr a h Hh)). apply (ri_tables _ Hr' a h' Hh').
Qed.

(** A table that is dying at the head of the registry ends the sweep: the
    tables behind it are not looked at. *)
Lemma dying_head_blocks_sweep clock w a h : registry w = Some a -> tables w !! a = Some h ->
  refcount h = 0 -> a20_temporal_sweep_all clock w = Some w.
Proof.
  intros Hreg Hh H0. unfold a20_temporal_sweep_all, sweep_first. rewrite Hreg.
  cbn [ref_or_null]. unfold refcount_inc_not_zero. rewrite Hh. cbn [mbind option_bind]. rewrite H0. cbn.
  by destruct (size (tables w)).
Qed.

(** ** Instances *)

(** Two processes; the first has a lease, the second exits while a sweeper
    looks at its table. *)
Definition demo_acts : list action :=
  [ActCreate (Some 1%nat) 0 0; ActOp 1%nat (OpInstall true lease_args);
   ActCreate (Some 2%nat) 0 0; ActFirst; ActPut 2%nat].

(** Check a concrete action and go to the world behind it. *)
Ltac next_action :=
  split; [split; [vm_compute; reflexivity|]|intros ? E; vm_compute in E; apply (inj Some) in E as <-].

Lemma demo_history : history registry_boot demo_acts.
Proof.
  next_action; [reflexivity|]. next_action; [split; [left|apply lease_args_ok]|].
  next_action; [reflexivity|]. next_action; [done|]. next_action; [left|]. done.
Qed.

Lemma registry_histories_safe_witness :
  exists r, run_actions registry_boot demo_acts = Some r /\
    (forall a h, tables (rw r) !! a = Some h -> ht_wf h /\ refcount h = occ a (holders r)) /\
    (forall a, a ∈ holders r -> is_Some (tables (rw r) !! a)) /\
    (exists l, chain (tables (rw r)) (registry (rw r)) l /\ NoDup l /\
       forall a, a ∈ l <-> is_Some (tables (rw r) !! a) /\ a ∉ unlinked r) /\
    (holders r = [] -> dying r = [] -> unlinked r = [] -> tables (rw r) = ∅).
Proof. exact (registry_histories_safe demo_acts demo_history). Defined.

Definition demo_world : rworld := default registry_boot (run_actions registry_boot demo_acts).

Lemma demo_world_inv : reg_inv demo_world.
Proof.
  destruct (run_actions_ok demo_acts registry_boot registry_boot_inv demo_history) as (r & E & Hr).
  unfold demo_world. by rewrite E.
Qed.

Lemma sweep_all_correct_witness :
  exists w' (l : list nat), a20_temporal_sweep_all (fun _ _ => 100) (rw demo_world) = Some w' /\
    (forall a, a ∈ l <-> is_Some (tables (rw demo_world) !! a) /\ a ∉ unlinked demo_world) /\
    (forall a h, a ∈ l -> tables (rw demo_world) !! a = Some h ->
       exists h', tables w' !! a = Some h' /\ swept_table (fun _ _ => 100) h h' /\ refcount h' = refcount h) /\
    (forall a, a ∉ l -> tables w' !! a = tables (rw demo_world) !! a) /\
    reg_inv {| rw := w'; holders := holders demo_world; dying := []; unlinked := unlinked demo_world |}.
Proof.
  apply (sweep_all_correct (fun _ _ => 100) demo_world).
  - intros f a b _. reflexivity.
  - apply demo_world_inv.
  - vm_compute. reflexivity.
  - vm_compute. reflexivity.
Defined.

(** When the sweeper drops the last reference to the second table as well,
    that table is dying, and the lease of the first one is not closed at its
    expiry until the unlinking is done. *)
Lemma sweep_skips_behind_dying :
  exists r, run_actions demo_world [ActPut 2%nat] = Some r /\ dying r = [2%nat] /\
    option_map count (tables (rw r) !! 1%nat) = Some 1 /\
    a20_temporal_sweep_all (fun _ _ => 100) (rw r) = Some (rw r).
Proof.
  eexists. split; [vm_compute; reflexivity|]. split; [done|]. split; [done|].
  eapply (dying_head_blocks_sweep _ _ 2%nat); reflexivity.
Qed.
