(* ===== verification/AlarmScan.v ===== *)
(** * The scan of the signal timers (kernel/proc/timer_heap.c)

    The pass over the alarm heap that sends SIGALRM and re-arms interval
    timers, in batches, and the scan of all timers that calls it.  Signals and
    the ticks of other subsystems are events of a log. *)

From S2P Require Import Prelude Task TimerHeap Park.
#[local] Open Scope Z_scope.

Inductive scan_event :=
| EvSigAlrm (p : nat) | EvPosixTick | EvPsiTick | EvA20TimerTick | EvA20MonitorTick.

(** The timers and the events so far, newest first. *)
Record scan := { sc_tm : timers; sc_log : list scan_event }.

Definition sc_emit (e : scan_event) (s : scan) : scan := s {{ sc_log := e :: sc_log s }}.

(** [mcu]: CONFIG_MCU. *)
Definition SCHED_SIGNAL_BATCH (mcu : bool) : Z := if mcu then 8 else 128.

(** ** The module's wrappers: the locked operations under their lock *)

Definition proc_alarm_cancel (s : timers) (t : option nat) : option timers :=
  match t with
  | None => Some s
  | Some p => alarm_timer_cancel_locked s (Some p)
  end.

Definition proc_wait_timer_register (WAIT_TIMER_HEAP_MAX TICKS_PER_SEC ticks : Z) (s : timers)
    (t : option nat) (deadline wait_seq : Z) : option (timers * Z) :=
  proc_wait_timer_register_locked WAIT_TIMER_HEAP_MAX TICKS_PER_SEC ticks s t deadline wait_seq.

Definition proc_wait_timer_cancel (s : timers) (t : option nat) (wait_seq : Z) : option timers :=
  proc_wait_timer_cancel_locked s t wait_seq.

Definition proc_wait_timer_count_locked (s : timers) : Z := cnt (wait_timer_heap s).
Definition proc_wait_timer_full_failures_locked (s : timers) : Z := wait_timer_full_failures s.
Definition proc_wait_timer_duplicate_rejections_locked (s : timers) : Z :=
  wait_timer_duplicate_rejections s.
Definition proc_wait_timer_stale_expirations_locked (s : timers) : Z :=
  wait_timer_stale_expirations s.

(** ** The scan *)

Section Scan.
(** Build configuration: capacity, timer frequency, batch size, ABIs. *)
Context (WAIT_TIMER_HEAP_MAX TICKS_PER_SEC BATCH : Z) (abi_linux abi_native : bool).

(** The loop under the alarm lock: the tasks taken out and whether more are
    due.  Every iteration removes an entry, so [cnt] steps are enough. *)
Fixpoint alarm_collect (fuel : nat) (s : timers) (now : Z) (acc : list (option nat))
  : option (timers * list (option nat) * bool) :=
  if 0 <? cnt (alarm_timer_heap s) then
    d ← deadline_at (arr (alarm_timer_heap s)) 0;
    if now <? d then Some (s, acc, false)
    else if BATCH <=? Z.of_nat (length acc) then Some (s, acc, true)
    else
      match fuel with
      | O => None
      | S fuel' =>
          '(h, T, expired) ← alarm_timer_remove_index_locked (alarm_timer_heap s) (tasks s) 0;
          alarm_collect fuel' (s {{ alarm_timer_heap := h; tasks := T }}) now
            (acc ++ [at_task expired])
      end
  else Some (s, acc, false).

(** The deadline at the top, read before the lock is released. *)
Definition first_alarm (s : timers) : option Z :=
  if 0 <? cnt (alarm_timer_heap s) then deadline_at (arr (alarm_timer_heap s)) 0
  else Some SCHED_NO_DEADLINE.

Definition alarm_dead (t : task_t) : bool :=
  bool_decide (state t = PROC_UNUSED) || bool_decide (state t = PROC_ZOMBIE).

(** One collected task; [ticks] is what timer_get_ticks() reads. *)
Definition alarm_deliver (ticks now : Z) (s : scan) (task : option nat) : option scan :=
  p ← task;
  t ← tasks (sc_tm s) !! p;
  if alarm_dead t then
    let T := <[p := t {{ alarm_expire := 0 }}]> (tasks (sc_tm s)) in
    T ← proc_put T p;
    Some (s {{ sc_tm := (sc_tm s) {{ tasks := T }} }})
  else
    let interval := itimer_real_interval t in
    let alarm := if c_true interval then u64 (now + interval) else 0 in
    tm ← proc_set_alarm_expire WAIT_TIMER_HEAP_MAX TICKS_PER_SEC ticks (sc_tm s) (Some p) alarm;
    let s := sc_emit (EvSigAlrm p) (s {{ sc_tm := tm }}) in
    T ← proc_put (tasks (sc_tm s)) p;
    Some (s {{ sc_tm := (sc_tm s) {{ tasks := T }} }}).

Fixpoint alarm_deliver_all (ticks now : Z) (s : scan) (ts : list (option nat)) : option scan :=
  match ts with
  | [] => Some s
  | t :: ts' => s ← alarm_deliver ticks now s t; alarm_deliver_all ticks now s ts'
  end.

(** The do-while, and the last [next_alarm]; a round that asks for another
    has taken out a full batch. *)
Fixpoint alarm_rounds (fuel : nat) (ticks now : Z) (s : scan) : option (scan * Z) :=
  match fuel with
  | O => None
  | S fuel' =>
      '(tm, ts, more_due) ←
        alarm_collect (Z.to_nat (cnt (alarm_timer_heap (sc_tm s)))) (sc_tm s) now [];
      next_alarm ← first_alarm tm;
      s ← alarm_deliver_all ticks now (s {{ sc_tm := tm }}) ts;
      if more_due : bool then alarm_rounds fuel' ticks now s else Some (s, next_alarm)
  end.

Definition proc_sched_scan_signal_timers (ticks now : Z) (s : scan) : option scan :=
  s ← (if next_alarm_scan (sc_tm s) <=? now then
         let s := s {{ sc_tm := (sc_tm s) {{ next_alarm_scan := SCHED_NO_DEADLINE }} }} in
         '(s, next_alarm) ←
           alarm_rounds (S (Z.to_nat (cnt (alarm_timer_heap (sc_tm s))))) ticks now s;
         let '(slot, lower) := sched_note_deadline (next_alarm_scan (sc_tm s)) next_alarm in
         let tm := (sc_tm s) {{ next_alarm_scan := slot }} in
         Some (s {{ sc_tm := if lower then sched_rearm_timer TICKS_PER_SEC ticks tm else tm }})
       else Some s);
  Some (if abi_linux then sc_emit EvPosixTick s else s).

(** The wait timers first, on the scheduler's state (the parameters are those
    of [Park]); then the signal timers and the other subsystems' ticks. *)
Definition sched_scan_timers (CONFIG_NR_CPUS : Z) (idle : nat) (cpu : Z)
    (should_preempt : sys -> nat -> Z -> bool) (ticks now : Z) (s : sys)
    (log : list scan_event) : option (sys * list scan_event) :=
  s ← proc_sched_expire_wait_timers CONFIG_NR_CPUS idle cpu should_preempt
        (S (Z.to_nat (cnt (wait_timer_heap (tm s)) / 128))) s now;
  c ← proc_sched_scan_signal_timers ticks now {| sc_tm := tm s; sc_log := log |};
  let c := sc_emit EvPsiTick c in
  let c := if abi_native then sc_emit EvA20MonitorTick (sc_emit EvA20TimerTick c) else c in
  Some (s {{ tm := sc_tm c }}, sc_log c).
End Scan.
