(* ===== verification/AlarmTheory.v ===== *)
(** * The scan of the signal timers: theorems

    The scan ends, signals exactly the live tasks whose alarm is due, each
    once, re-arms their interval timers, and leaves the alarm heap and the
    next scan consistent. *)

From S2P Require Import Prelude Task TimerHeap HeapTheory TimerTheory Park AlarmScan.
From stdpp Require Import gmap list.
#[local] Open Scope Z_scope.

Definition alarms (s : timers) : list alarm_timer :=
  live (arr (alarm_timer_heap s)) (cnt (alarm_timer_heap s)).

Section Theory.
Context (MAX TPS BATCH : Z) (MAX_ok : 0 < MAX <= 2147483646) (BATCH_ok : 0 < BATCH).

(** The state is consistent but for the next alarm scan, which the scan sets
    aside while it works. *)
Definition wf_aside (s : timers) : Prop := exists lo, timers_wf MAX (s {{ next_alarm_scan := lo }}).

(** ** Entries and tasks *)

Lemma alarm_entry_task s e : wf_aside s -> e ∈ alarms s ->
  exists p t, at_task e = Some p /\ tasks s !! p = Some t /\ 0 <= alarm_timer_index t.
Proof.
  intros [lo Hwf] He. pose proof (tw_alarm _ _ Hwf) as Hl.
  apply list_elem_of_lookup_1 in He as [i Hi].
  change (linked (arr (alarm_timer_heap s)) (cnt (alarm_timer_heap s)) (tasks s)) in Hl.
  unfold alarms, live in Hi. apply lookup_take_Some in Hi as [Hi Hlt].
  destruct (lk_slot _ _ _ Hl (Z.of_nat i)) as (e' & p & t & Hr & Hp & Ht & Hg); [lia|].
  rewrite rd_nat, Hi in Hr. apply (inj Some) in Hr as <-. exists p, t.
  split; [done|]. split; [done|]. change (alarm_timer_index t = Z.of_nat i) in Hg. lia.
Qed.

Lemma alarm_tasks_nodup s : wf_aside s -> NoDup (map at_task (alarms s)).
Proof.
  intros [lo Hwf]. pose proof (tw_alarm _ _ Hwf) as Hl.
  change (linked (arr (alarm_timer_heap s)) (cnt (alarm_timer_heap s)) (tasks s)) in Hl.
  apply NoDup_alt. intros i j o Hi Hj.
  change (map at_task (alarms s)) with (at_task <$> alarms s) in Hi, Hj.
  rewrite list_lookup_fmap in Hi, Hj.
  apply fmap_Some in Hi as (ei & Hi & ->). apply fmap_Some in Hj as (ej & Hj & Ho).
  unfold alarms, live in Hi, Hj. apply lookup_take_Some in Hi as [Hi Hli].
  apply lookup_take_Some in Hj as [Hj Hlj].
  destruct (lk_slot _ _ _ Hl (Z.of_nat i)) as (e1 & p & t & Hr & Hp & Ht & Hg); [lia|].
  destruct (lk_slot _ _ _ Hl (Z.of_nat j)) as (e2 & q & u & Hr' & Hq & Hu & Hg'); [lia|].
  rewrite rd_nat, Hi in Hr. apply (inj Some) in Hr as <-. rewrite rd_nat, Hj in Hr'.
  apply (inj Some) in Hr' as <-. change (at_task ei = Some p) in Hp. change (at_task ej = Some q) in Hq.
  rewrite Ho, Hq in Hp. apply (inj Some) in Hp as <-. rewrite Ht in Hu. apply (inj Some) in Hu as <-. lia.
Qed.

(** A task without an entry has no index. *)
Lemma no_entry_index s p t : wf_aside s -> tasks s !! p = Some t ->
  Some p ∉ map at_task (alarms s) -> alarm_timer_index t < 0.
Proof.
  intros [lo Hwf] Ht Hno. pose proof (tw_alarm _ _ Hwf) as Hl.
  destruct (decide (0 <= alarm_timer_index t)) as [Hi|]; [|lia]. exfalso. apply Hno.
  destruct (lk_task _ _ _ Hl p t Ht Hi) as (Hlt & e & He & Hp).
  apply list_elem_of_fmap. exists e. split; [done|]. cbn in Hlt, He.
  change (rd (arr (alarm_timer_heap s)) (alarm_timer_index t) = Some e) in He.
  apply list_elem_of_lookup_2 with (Z.to_nat (alarm_timer_index t)). unfold alarms, live.
  rewrite lookup_take_lt; [by apply rd_lookup|].
  change (alarm_timer_index t < cnt (alarm_timer_heap s)) in Hlt. lia.
Qed.

(** ** Collecting *)

Lemma deadline_root s : wf_aside s -> 0 < cnt (alarm_timer_heap s) ->
  exists d, deadline_at (arr (alarm_timer_heap s)) 0 = Some d /\
    (exists e, e ∈ alarms s /\ at_deadline e = d) /\ Forall (fun e => d <= at_deadline e) (alarms s).
Proof.
  intros [lo Hwf] Hc. pose proof (tw_alarm _ _ Hwf) as Hl. pose proof (tw_alarm_order _ _ Hwf) as Ho.
  change (linked (arr (alarm_timer_heap s)) (cnt (alarm_timer_heap s)) (tasks s)) in Hl.
  change (heap_ordered (arr (alarm_timer_heap s)) (cnt (alarm_timer_heap s))) in Ho.
  exists (dl (arr (alarm_timer_heap s)) 0). split; [by eapply deadline_at_ok|]. split.
  - destruct (root_elem _ _ _ Hl Hc) as (e & He & Hd). by exists e.
  - apply list.Forall_forall. intros e He. by apply (elem_dl _ _ _ _ Hl Ho He).
Qed.

Lemma alarms_nil s : wf_aside s -> cnt (alarm_timer_heap s) <= 0 -> alarms s = [].
Proof.
  intros _ Hc. unfold alarms, live. by replace (Z.to_nat _) with 0%nat by lia.
Qed.

(** What collecting leaves. *)
Definition collected (s s' : timers) (now : Z) (n : Z) (es : list alarm_timer) (more : bool) : Prop :=
  wf_aside s' /\ es ++ alarms s' ≡ₚ alarms s /\
  index_only (E := alarm_timer) (tasks s) (tasks s') /\
  (exists h T, s' = s {{ alarm_timer_heap := h; tasks := T }}) /\
  Forall (fun e => at_deadline e <= now) es /\
  (if more then n + Z.of_nat (length es) = BATCH
   else Forall (fun e => now < at_deadline e) (alarms s')).

Lemma collected_none s now n more : wf_aside s ->
  (if more : bool then n = BATCH else Forall (fun e => now < at_deadline e) (alarms s)) ->
  collected s s now n [] more.
Proof.
  intros Hwf Hm. split_and!; [done|done|apply index_only_refl| |constructor|].
  - exists (alarm_timer_heap s), (tasks s). by destruct s.
  - destruct more; [cbn; lia|done].
Qed.

Lemma alarm_collect_ok fuel s now acc : wf_aside s -> cnt (alarm_timer_heap s) <= Z.of_nat fuel ->
  Z.of_nat (length acc) <= BATCH ->
  exists s' es more, alarm_collect BATCH fuel s now acc = Some (s', acc ++ map at_task es, more) /\
    collected s s' now (Z.of_nat (length acc)) es more.
Proof.
  revert s acc. induction fuel as [|fuel IH]; intros s acc Hwf Hfuel Hacc; cbn [alarm_collect];
    (destruct (0 <? cnt (alarm_timer_heap s)) eqn:Ec; reflect; [|
      exists s, [], false; rewrite app_nil_r; split; [done|];
      apply collected_none; [done|]; rewrite (alarms_nil s Hwf) by lia; constructor]); [lia|].
  destruct (deadline_root s Hwf Ec) as (d & Hd & _ & Hmin). rewrite Hd. cbn [mbind option_bind].
  destruct (now <? d) eqn:En; reflect.
  { exists s, [], false. rewrite app_nil_r. split; [done|]. apply collected_none; [done|].
    eapply Forall_impl; [exact Hmin|]. intros e He. cbn in He. lia. }
  destruct (BATCH <=? Z.of_nat (length acc)) eqn:Eb; reflect.
  { exists s, [], true. rewrite app_nil_r. split; [done|]. apply collected_none; [done|]. lia. }
  destruct Hwf as [lo Hwf].
  destruct (alarm_remove_ok MAX MAX_ok _ 0 Hwf) as (h & T & e & p & t' & E & W & He & Hp & Hcnt & HP & HI & _).
  { change (0 <= 0 < cnt (alarm_timer_heap s)). lia. }
  change (alarm_timer_heap (s {{ next_alarm_scan := lo }})) with (alarm_timer_heap s) in *.
  change (tasks (s {{ next_alarm_scan := lo }})) with (tasks s) in *.
  rewrite E. cbn [mbind option_bind]. set (s1 := s {{ alarm_timer_heap := h; tasks := T }}).
  destruct (IH s1 (acc ++ [at_task e])) as (s' & es & more & E' & Hw' & HP' & HI' & (h' & T' & Hs') & Hdue & Hm).
  { exists lo. exact W. }
  { change (cnt h <= Z.of_nat fuel). lia. }
  { rewrite length_app. cbn [length]. lia. }
  exists s', (e :: es), more. rewrite E', <- app_assoc. split; [done|].
  split_and!; [done| |by eapply index_only_trans| | |].
  - cbn [app]. rewrite HP'. exact HP.
  - exists h', T'. rewrite Hs'. by destruct s.
  - constructor; [|done]. unfold deadline_at in Hd. rewrite He in Hd. apply (inj Some) in Hd.
    change (at_deadline e = d) in Hd. lia.
  - destruct more; [|done]. rewrite length_app in Hm. cbn [length] in *. lia.
Qed.

(** A collected task keeps a reference, has no entry, and is otherwise as
    before. *)
Lemma collected_task s s' now n es more p : wf_aside s -> collected s s' now n es more ->
  Some p ∈ map at_task es ->
  exists t i, tasks s !! p = Some t /\ tasks s' !! p = Some (t {{ alarm_timer_index := i }}) /\
    i < 0 /\ task_refs_ok 1 (t {{ alarm_timer_index := i }}).
Proof.
  intros Hwf (Hw' & HP & HI & _) Hp. apply list_elem_of_fmap in Hp as (e & Hpe & He).
  destruct (alarm_entry_task s e Hwf) as (p' & t & Hp' & Ht & Hidx).
  { rewrite <- HP. apply elem_of_app. by left. }
  rewrite Hp' in Hpe. apply (inj Some) in Hpe as ->.
  pose proof (HI p') as Hi. rewrite Ht in Hi. destruct (tasks s' !! p') as [t'|] eqn:Ht'; [|done].
  destruct Hi as [i ->]. exists t, i. change (ti_set (E := alarm_timer) i t) with (t {{ alarm_timer_index := i }}) in *.
  assert (i < 0) as Hneg.
  { change i with (alarm_timer_index (t {{ alarm_timer_index := i }})).
    apply (no_entry_index s' p'); [done|done|].
    pose proof (alarm_tasks_nodup s Hwf) as Hnd. rewrite <- HP in Hnd.
    rewrite map_app in Hnd. apply NoDup_app in Hnd as (_ & Hd & _). apply Hd.
    apply list_elem_of_fmap. by exists e. }
  split_and!; [done|done|done|]. destruct Hwf as [lo Hwf].
  destruct (tw_refs _ _ Hwf p' t Ht) as [Hh Hd]. split; [|exact Hd].
  revert Hh. unfold held. rewrite (proj2 (Z.leb_le 0 (alarm_timer_index t))) by done.
  destruct t. cbn in *. unfold c_bool. rewrite (proj2 (Z.leb_gt 0 i)) by done. repeat split_if; lia.
Qed.

(** ** Delivering *)

(** Other tasks change at most in their alarm index. *)
Definition others_kept (p : nat) (T T' : gmap nat task_t) : Prop := forall q, q <> p ->
  match T !! q, T' !! q with
  | Some t, Some t' => exists i, t' = t {{ alarm_timer_index := i }}
  | None, None => True
  | _, _ => False
  end.

Lemma others_kept_refl p T : others_kept p T T.
Proof. intros q _. destruct (T !! q) as [t|]; [|done]. exists (alarm_timer_index t). by destruct t. Qed.

Lemma others_kept_trans p T T1 T2 : others_kept p T T1 -> others_kept p T1 T2 -> others_kept p T T2.
Proof.
  intros H1 H2 q Hq. specialize (H1 q Hq). specialize (H2 q Hq).
  destruct (T !! q), (T1 !! q), (T2 !! q); try done.
  destruct H1 as [i ->], H2 as [j ->]. exists j. by destruct t.
Qed.

Lemma others_kept_at p T T' : (forall q, q <> p -> T' !! q = T !! q) -> others_kept p T T'.
Proof. intros H q Hq. rewrite H by done. by apply (others_kept_refl p T q). Qed.

Lemma others_kept_index p t1 T T' : index_only (E := alarm_timer) (<[p := t1]> T) T' -> others_kept p T T'.
Proof.
  intros HI q Hq. specialize (HI q). rewrite lookup_insert_ne in HI by done. exact HI.
Qed.

(** Re-arming (or clearing) the alarm of a task that has no entry. *)
Definition rearmed (p : nat) (alarm : Z) : list alarm_timer :=
  if c_true alarm then [{| at_deadline := alarm; at_task := Some p |}] else [].

Record armed (s s' : timers) (p : nat) (alarm : Z) : Prop := {
  ar_wf : wf_aside s';
  ar_alarms : alarms s' ≡ₚ rearmed p alarm ++ alarms s;
  ar_scan : next_alarm_scan s' <= next_alarm_scan s /\ (alarm <> 0 -> next_alarm_scan s' <= alarm);
  ar_others : others_kept p (tasks s) (tasks s');
  ar_wait : wait_timer_heap s' = wait_timer_heap s;
}.

Lemma clear_alarm_ok s p t ticks : wf_aside s -> tasks s !! p = Some t -> alarm_timer_index t < 0 ->
  task_refs_ok 1 t ->
  exists s' t', proc_set_alarm_expire MAX TPS ticks s (Some p) 0 = Some s' /\ armed s s' p 0 /\
    tasks s' !! p = Some t' /\ task_refs_ok 1 t'.
Proof.
  intros [lo Hwf] Ht Hidx Hr. unfold proc_set_alarm_expire, set_alarm_locked, alarm_timer_cancel_locked.
  rewrite Ht. cbn [mbind option_bind]. rewrite (proj2 (Z.ltb_lt _ _)) by done. cbn [mbind option_bind].
  cbn [c_true Z.eqb negb andb mbind option_bind]. rewrite Ht. cbn [mbind option_bind].
  unfold sched_note_deadline. rewrite Z.eqb_refl. eexists _, (t {{ alarm_expire := 0 }}).
  split; [done|]. split.
  - split; [|done| | |done].
    + exists lo. eapply (wf_update_task MAX _ p t _ Hwf); [done..|]. destruct Hr as [Hr Hd].
      split; [|exact Hd]. change (held t + 0 <= refs t). lia.
    + split; [|done]. change (next_alarm_scan s <= next_alarm_scan s). lia.
    + apply others_kept_at. intros q Hq. change (<[p := t {{ alarm_expire := 0 }}]> (tasks s) !! q = tasks s !! q).
      by rewrite lookup_insert_ne.
  - split; [apply lookup_insert_eq|exact Hr].
Qed.

Lemma rearm_ok s p t alarm ticks : wf_aside s -> tasks s !! p = Some t -> alarm_timer_index t < 0 ->
  task_refs_ok 1 t -> refs t < 2147483647 -> 0 < alarm -> cnt (alarm_timer_heap s) < MAX ->
  exists s' t', proc_set_alarm_expire MAX TPS ticks s (Some p) alarm = Some s' /\ armed s s' p alarm /\
    tasks s' !! p = Some t' /\ task_refs_ok 1 t'.
Proof.
  intros [lo Hwf] Ht Hidx Hr Hmax Hal Hroom.
  assert (1 <= refs t) as Hpos.
  { destruct Hr as [Hr _]. revert Hr. unfold held, c_bool. repeat split_if; lia. }
  pose proof (lk_count _ _ _ (tw_alarm _ _ Hwf)) as Hcnt. pose proof (tw_alarm_len _ _ Hwf) as Hlen.
  change (Z.of_nat (length (arr (alarm_timer_heap s))) = MAX) in Hlen.
  change (0 <= cnt (alarm_timer_heap s) <= Z.of_nat (length (arr (alarm_timer_heap s)))) in Hcnt.
  unfold proc_set_alarm_expire, set_alarm_locked, alarm_timer_cancel_locked.
  rewrite Ht. cbn [mbind option_bind]. rewrite (proj2 (Z.ltb_lt _ _)) by done. cbn [mbind option_bind].
  unfold c_true. rewrite (proj2 (Z.leb_gt MAX _)) by lia. rewrite andb_false_r.
  rewrite (proj2 (Z.eqb_neq alarm 0)) by lia. cbn [negb].
  rewrite (proc_get_live (tasks s) p t) by (done || lia). cbn [mbind option_bind].
  rewrite wr_Some by lia. cbn [mbind option_bind]. rewrite lookup_insert_eq. cbn [mbind option_bind].
  rewrite insert_insert_eq.
  destruct (alarm_insert_ok MAX MAX_ok _ p t alarm Hwf Ht) as (a' & T' & E' & P' & I' & W');
    [lia|done|done|].
  change (alarm_timer_heap (s {{ next_alarm_scan := lo }})) with (alarm_timer_heap s) in *.
  change (tasks (s {{ next_alarm_scan := lo }})) with (tasks s) in *.
  set (n := cnt (alarm_timer_heap s)) in *.
  change (ti_set (E := alarm_timer) n (t {{ refs := refs t + 1 }}))
    with (t {{ refs := refs t + 1; alarm_timer_index := n }}) in E'.
  rewrite E'. cbn [mbind option_bind]. rewrite (u32_small (n + 1)) by (unfold in_u32; lia).
  pose proof (I' p) as Hp'. rewrite lookup_insert_eq in Hp'.
  destruct (T' !! p) as [t2|] eqn:Ht2; [|done]. destruct Hp' as [j Ht2e].
  set (s1 := s {{ alarm_timer_heap := {| arr := a'; cnt := n + 1 |}; tasks := T' }}).
  change (tasks s1) with T'. rewrite Ht2. cbn [mbind option_bind].
  set (t3 := t2 {{ alarm_expire := alarm }}).
  set (s2 := s1 {{ tasks := <[p := t3]> T' }}).
  assert (task_refs_ok 1 t3) as Hr3.
  { destruct Hr as [Hr Hd]. subst t3. rewrite Ht2e. split; [|exact Hd].
    change (c_bool (0 <=? wait_timer_index t) + c_bool (0 <=? j) + c_bool (negb (destroy_started t)) + 1
      <= refs t + 1).
    revert Hr. unfold held, c_bool. rewrite (proj2 (Z.leb_gt 0 (alarm_timer_index t))) by done.
    repeat split_if; lia. }
  assert (forall slot, slot <= alarm -> slot <= lo -> timers_wf MAX (s2 {{ next_alarm_scan := slot }})) as W2.
  { intros slot H1 H2. specialize (W' slot H1 H2).
    eapply (wf_update_task MAX _ p t2 t3 W'); [done..|]. by apply (tw_refs _ _ W' p t2). }
  assert (forall slot ivs, slot <= next_alarm_scan s -> slot <= alarm ->
    armed s (s2 {{ next_alarm_scan := slot; intervals := ivs }}) p alarm) as Harm.
  { intros slot ivs H1 H2. split; [| | | |done].
    - exists (Z.min alarm lo). specialize (W2 (Z.min alarm lo) ltac:(lia) ltac:(lia)).
      apply (wf_intervals MAX _ ivs) in W2. clearbody s2. by destruct s2.
    - unfold rearmed, c_true. rewrite (proj2 (Z.eqb_neq alarm 0)) by lia. cbn [negb app]. exact P'.
    - split; [exact H1|]. intros _. exact H2.
    - apply (others_kept_trans p _ T'); [by eapply others_kept_index|].
      apply others_kept_at. intros q Hq. change (<[p := t3]> T' !! q = T' !! q). by rewrite lookup_insert_ne. }
  change (next_alarm_scan _) with (next_alarm_scan s).
  unfold sched_note_deadline. rewrite (proj2 (Z.eqb_neq alarm 0)) by lia.
  destruct (alarm <? next_alarm_scan s) eqn:El; reflect; eexists _, t3; (split; [done|]).
  - split; [apply (Harm alarm _); lia|]. split; [apply lookup_insert_eq|done].
  - split; [apply (Harm (next_alarm_scan s) (intervals s)); lia|]. split; [apply lookup_insert_eq|done].
Qed.

(** Dropping the reference that came with the entry. *)
Lemma armed_put s s' p t' alarm : armed s s' p alarm -> tasks s' !! p = Some t' -> task_refs_ok 1 t' ->
  exists T, proc_put (tasks s') p = Some T /\ armed s (s' {{ tasks := T }}) p alarm.
Proof.
  intros [[lo Hwf] Ha Hs Ho Hw] Ht Hr. destruct (proc_put_ok (tasks s') p t' Ht Hr) as (T & E & Hcase).
  exists T. split; [done|]. split; [| | | |done].
  - exists lo. exact (wf_put MAX _ p t' T Hwf Ht Hr E).
  - exact Ha.
  - exact Hs.
  - eapply others_kept_trans; [exact Ho|]. apply others_kept_at. intros q Hq.
    change (T !! q = tasks s' !! q). destruct Hcase as [->|[-> _]].
    + by rewrite lookup_insert_ne.
    + by rewrite lookup_delete_ne.
Qed.

Definition alarm_next (now : Z) (t : task_t) : Z :=
  if c_true (itimer_real_interval t) then now + itimer_real_interval t else 0.

(** The interval does not wrap around the clock, and one more reference can
    be counted. *)
Definition task_fit (now : Z) (t : task_t) : Prop :=
  0 <= itimer_real_interval t /\ now + itimer_real_interval t < 18446744073709551616 /\
  refs t < 2147483647.

(** The task's alarm after the scan (0: none), and the signal it gets. *)
Definition next_of (now : Z) (t : task_t) : Z := if alarm_dead t then 0 else alarm_next now t.
Definition signal_of (p : nat) (t : task_t) : list scan_event := if alarm_dead t then [] else [EvSigAlrm p].

Lemma alarm_deliver_ok s p t ticks now : wf_aside (sc_tm s) -> tasks (sc_tm s) !! p = Some t ->
  alarm_timer_index t < 0 -> task_refs_ok 1 t -> 0 <= now -> task_fit now t ->
  cnt (alarm_timer_heap (sc_tm s)) < MAX ->
  exists s', alarm_deliver MAX TPS ticks now s (Some p) = Some s' /\
    armed (sc_tm s) (sc_tm s') p (next_of now t) /\ sc_log s' = signal_of p t ++ sc_log s.
Proof.
  intros Hwf Ht Hidx Hr Hnow (Hi & Hfit & Href) Hroom. unfold alarm_deliver, next_of, signal_of.
  cbn [mbind option_bind]. rewrite Ht. cbn [mbind option_bind]. destruct (alarm_dead t) eqn:Ed.
  - set (t0 := t {{ alarm_expire := 0 }}). set (m := (sc_tm s) {{ tasks := <[p := t0]> (tasks (sc_tm s)) }}).
    assert (armed (sc_tm s) m p 0) as Harm.
    { destruct Hwf as [lo Hwf]. split; [|done| | |done].
      - exists lo. eapply (wf_update_task MAX _ p t t0 Hwf); [done..|]. destruct Hr as [Hr Hd].
        split; [|exact Hd]. change (held t + 0 <= refs t). lia.
      - split; [|done]. change (next_alarm_scan (sc_tm s) <= next_alarm_scan (sc_tm s)). lia.
      - apply others_kept_at. intros q Hq.
        change (<[p := t0]> (tasks (sc_tm s)) !! q = tasks (sc_tm s) !! q). by rewrite lookup_insert_ne. }
    destruct (armed_put _ m p t0 0 Harm) as (T & E & Harm'); [apply lookup_insert_eq|exact Hr|].
    change (tasks m) with (<[p := t0]> (tasks (sc_tm s))) in E. rewrite E. cbn [mbind option_bind].
    eexists. split; [done|]. split; [exact Harm'|done].
  - assert (exists m t', proc_set_alarm_expire MAX TPS ticks (sc_tm s) (Some p)
        (if c_true (itimer_real_interval t) then u64 (now + itimer_real_interval t) else 0) = Some m /\
      armed (sc_tm s) m p (alarm_next now t) /\ tasks m !! p = Some t' /\ task_refs_ok 1 t')
      as (m & t' & -> & Harm & Ht' & Hr').
    { unfold alarm_next. destruct (c_true (itimer_real_interval t)) eqn:Ec; [|by eapply clear_alarm_ok].
      unfold c_true in Ec. reflect. rewrite u64_small by (unfold in_u64; lia).
      apply (rearm_ok _ p t); [done..|lia|done]. }
    cbn [mbind option_bind]. destruct (armed_put _ m p t' _ Harm Ht' Hr') as (T & E & Harm').
    change (tasks (sc_tm (sc_emit (EvSigAlrm p) (s {{ sc_tm := m }})))) with (tasks m).
    rewrite E. cbn [mbind option_bind]. eexists. split; [done|]. split; [exact Harm'|done].
Qed.

Lemma alarms_length s : wf_aside s -> Z.of_nat (length (alarms s)) = cnt (alarm_timer_heap s).
Proof.
  intros [lo Hwf]. pose proof (lk_count _ _ _ (tw_alarm _ _ Hwf)) as Hc.
  change (0 <= cnt (alarm_timer_heap s) <= Z.of_nat (length (arr (alarm_timer_heap s)))) in Hc.
  unfold alarms, live. rewrite length_take. lia.
Qed.

Lemma alarms_max s : wf_aside s -> Z.of_nat (length (alarms s)) <= MAX.
Proof.
  intros Hs. pose proof (alarms_length s Hs) as E. destruct Hs as [lo Hwf].
  pose proof (lk_count _ _ _ (tw_alarm _ _ Hwf)) as Hc. pose proof (tw_alarm_len _ _ Hwf) as Hl.
  change (0 <= cnt (alarm_timer_heap s) <= Z.of_nat (length (arr (alarm_timer_heap s)))) in Hc.
  change (Z.of_nat (length (arr (alarm_timer_heap s))) = MAX) in Hl. lia.
Qed.

(** What the scan does for an entry, by the tasks [T] at its start: the entry
    it re-arms and the signal it sends. *)
Definition entry_task (T : gmap nat task_t) (e : alarm_timer) : option (nat * task_t) :=
  p ← at_task e; t ← T !! p; Some (p, t).
Definition entry_rearm (now : Z) (T : gmap nat task_t) (e : alarm_timer) : list alarm_timer :=
  match entry_task T e with Some (p, t) => rearmed p (next_of now t) | None => [] end.
Definition entry_signal (T : gmap nat task_t) (e : alarm_timer) : list scan_event :=
  match entry_task T e with Some (p, t) => signal_of p t | None => [] end.

(** The entry's task is as in [T] but for its index. *)
Definition same_task (T : gmap nat task_t) (s : timers) (e : alarm_timer) : Prop :=
  exists p t i, at_task e = Some p /\ T !! p = Some t /\ tasks s !! p = Some (t {{ alarm_timer_index := i }}).

(** A collected entry whose task still has to be served. *)
Definition in_flight (T : gmap nat task_t) (s : timers) (e : alarm_timer) : Prop :=
  exists p t i, at_task e = Some p /\ T !! p = Some t /\
    tasks s !! p = Some (t {{ alarm_timer_index := i }}) /\ i < 0 /\
    task_refs_ok 1 (t {{ alarm_timer_index := i }}).

Lemma same_task_armed T s s' p alarm e : armed s s' p alarm -> at_task e <> Some p ->
  same_task T s e -> same_task T s' e.
Proof.
  intros Ha Hne (q & t & i & Hq & Ht & Hs). assert (q <> p) as Hqp by congruence.
  pose proof (ar_others _ _ _ _ Ha q Hqp) as Ho. rewrite Hs in Ho.
  destruct (tasks s' !! q) as [t'|] eqn:Et; [|done]. destruct Ho as [j ->].
  exists q, t, j. by destruct t.
Qed.

Lemma in_flight_armed T s s' p alarm e : wf_aside s -> armed s s' p alarm -> at_task e <> Some p ->
  in_flight T s e -> in_flight T s' e.
Proof.
  intros Hwf Ha Hne (q & t & i & Hq & Ht & Hs & Hi & Hr). assert (q <> p) as Hqp by congruence.
  pose proof (ar_others _ _ _ _ Ha q Hqp) as Ho. rewrite Hs in Ho.
  destruct (tasks s' !! q) as [t'|] eqn:Et; [|done]. destruct Ho as [j Hj].
  assert (t' = t {{ alarm_timer_index := j }}) as -> by (rewrite Hj; by destruct t).
  assert (j < 0) as Hj0.
  { change j with (alarm_timer_index (t {{ alarm_timer_index := j }})).
    apply (no_entry_index s' q); [apply Ha|done|]. intros Hin.
    change (map at_task (alarms s')) with (at_task <$> alarms s') in Hin.
    rewrite (ar_alarms _ _ _ _ Ha), fmap_app, elem_of_app in Hin. destruct Hin as [Hin|Hin].
    - unfold rearmed in Hin. destruct (c_true alarm); [|by apply elem_of_nil in Hin].
      apply list_elem_of_singleton in Hin. cbn [at_task] in Hin. congruence.
    - apply list_elem_of_fmap in Hin as (x & Hx & Hin).
      destruct (alarm_entry_task s x Hwf Hin) as (q' & u & Hq' & Hu & Hge).
      rewrite Hq' in Hx. apply (inj Some) in Hx as <-. rewrite Hs in Hu. apply (inj Some) in Hu as <-.
      change (0 <= i) in Hge. lia. }
  exists q, t, j. split_and!; try done. destruct Hr as [Hr Hd]. split; [|exact Hd].
  change (c_bool (0 <=? wait_timer_index t) + c_bool (0 <=? i) + c_bool (negb (destroy_started t)) + 1 <= refs t) in Hr.
  change (c_bool (0 <=? wait_timer_index t) + c_bool (0 <=? j) + c_bool (negb (destroy_started t)) + 1 <= refs t).
  rewrite (proj2 (Z.leb_gt 0 i)) in Hr by done. by rewrite (proj2 (Z.leb_gt 0 j)).
Qed.

(** ** A batch *)

Record delivered (now : Z) (T : gmap nat task_t) (s s' : scan) (es : list alarm_timer) : Prop := {
  de_wf : wf_aside (sc_tm s');
  de_alarms : alarms (sc_tm s') ≡ₚ flat_map (entry_rearm now T) es ++ alarms (sc_tm s);
  de_log : exists sigs, sc_log s' = sigs ++ sc_log s /\ sigs ≡ₚ flat_map (entry_signal T) es;
  de_scan : next_alarm_scan (sc_tm s') <= next_alarm_scan (sc_tm s);
  de_noted : Forall (fun e => next_alarm_scan (sc_tm s') <= at_deadline e) (flat_map (entry_rearm now T) es);
  de_same : forall e, at_task e ∉ map at_task es -> same_task T (sc_tm s) e -> same_task T (sc_tm s') e;
  de_wait : wait_timer_heap (sc_tm s') = wait_timer_heap (sc_tm s);
}.

Lemma alarm_deliver_all_ok es ticks now T s : wf_aside (sc_tm s) -> 0 <= now ->
  (forall p t, T !! p = Some t -> task_fit now t) ->
  NoDup (map at_task es) -> Forall (in_flight T (sc_tm s)) es ->
  Z.of_nat (length es + length (alarms (sc_tm s))) <= MAX ->
  exists s', alarm_deliver_all MAX TPS ticks now s (map at_task es) = Some s' /\ delivered now T s s' es.
Proof.
  intros Hwf Hnow Hfit. revert s Hwf. induction es as [|e es IH]; intros s Hwf Hnd Hfl Hroom.
  { exists s. split; [done|]. split; [done|done|by exists []|lia|constructor|done|done]. }
  cbn [map] in Hnd. apply NoDup_cons in Hnd as [Hnin Hnd]. apply Forall_cons in Hfl as [He Hfl].
  destruct He as (p & t & i & Hp & Ht & Hs & Hi & Hr). cbn [length] in Hroom.
  pose proof (alarms_length _ Hwf) as Hlen.
  destruct (alarm_deliver_ok s p (t {{ alarm_timer_index := i }}) ticks now)
    as (s1 & E1 & Harm & Hlog); [done|done|done|done|done|exact (Hfit p t Ht)|lia|].
  change (next_of now (t {{ alarm_timer_index := i }})) with (next_of now t) in Harm.
  change (signal_of p (t {{ alarm_timer_index := i }})) with (signal_of p t) in Hlog.
  assert (entry_task T e = Some (p, t)) as Het by (unfold entry_task; rewrite Hp; cbn; by rewrite Ht).
  destruct (IH s1 (ar_wf _ _ _ _ Harm) Hnd) as (s' & E' & [Hwf' Ha' (sigs & Hl' & Hsig) Hsc Hnote Hsame Hw]).
  { apply list.Forall_forall. intros x Hx. eapply in_flight_armed; [exact Hwf|exact Harm| |].
    - intros Hxp. apply Hnin. rewrite Hp, <- Hxp. by apply list_elem_of_fmap_2.
    - by eapply list.Forall_forall in Hfl. }
  { rewrite (Permutation_length (ar_alarms _ _ _ _ Harm)), length_app.
    unfold rearmed. split_if; cbn [length]; lia. }
  cbn [map alarm_deliver_all]. rewrite Hp, E1. cbn [mbind option_bind]. exists s'. split; [done|].
  assert (entry_rearm now T e = rearmed p (next_of now t)) as Hre by (unfold entry_rearm; by rewrite Het).
  assert (entry_signal T e = signal_of p t) as Hse by (unfold entry_signal; by rewrite Het).
  split; [done| | | | | |].
  - cbn [flat_map]. rewrite Ha', (ar_alarms _ _ _ _ Harm), Hre, !app_assoc. apply Permutation_app_tail, Permutation_app_comm.
  - exists (sigs ++ signal_of p t). rewrite Hl', Hlog, app_assoc. split; [done|].
    cbn [flat_map]. rewrite Hse, Hsig. apply Permutation_app_comm.
  - pose proof (proj1 (ar_scan _ _ _ _ Harm)). lia.
  - cbn [flat_map]. apply Forall_app. split; [|done]. rewrite Hre. unfold rearmed, c_true.
    destruct (next_of now t =? 0) eqn:E0; reflect; cbn [negb]; [constructor|]. repeat constructor.
    cbn [at_deadline]. pose proof (proj2 (ar_scan _ _ _ _ Harm) E0). lia.
  - intros x Hx Hst. apply not_elem_of_cons in Hx as [Hxp Hx]. apply Hsame; [done|].
    eapply same_task_armed; [exact Harm|congruence|done].
  - by rewrite Hw, (ar_wait _ _ _ _ Harm).
Qed.

(** ** All rounds *)

Definition dues (now : Z) (l : list alarm_timer) : list alarm_timer :=
  List.filter (fun e => at_deadline e <=? now) l.
Definition laters (now : Z) (l : list alarm_timer) : list alarm_timer :=
  List.filter (fun e => now <? at_deadline e) l.

#[local] Instance dues_proper now : Proper ((≡ₚ) ==> (≡ₚ)) (dues now).
Proof. intros l l' H. unfold dues. induction H; cbn; repeat case_match; try done; [by constructor|by constructor|by etrans]. Qed.
#[local] Instance laters_proper now : Proper ((≡ₚ) ==> (≡ₚ)) (laters now).
Proof. intros l l' H. unfold laters. induction H; cbn; repeat case_match; try done; [by constructor|by constructor|by etrans]. Qed.

Lemma dues_all now l : Forall (fun e => at_deadline e <= now) l -> dues now l = l /\ laters now l = [].
Proof.
  induction 1 as [|e l He _ [IH1 IH2]]; [done|]. unfold dues, laters in *. cbn.
  rewrite (proj2 (Z.leb_le _ _)), (proj2 (Z.ltb_ge _ _)) by done. by rewrite IH1, IH2.
Qed.

Lemma laters_all now l : Forall (fun e => now < at_deadline e) l -> dues now l = [] /\ laters now l = l.
Proof.
  induction 1 as [|e l He _ [IH1 IH2]]; [done|]. unfold dues, laters in *. cbn.
  rewrite (proj2 (Z.leb_gt _ _)), (proj2 (Z.ltb_lt _ _)) by done. by rewrite IH1, IH2.
Qed.

Lemma elem_dues now e l : e ∈ dues now l <-> e ∈ l /\ at_deadline e <= now.
Proof.
  unfold dues. rewrite !list_elem_of_In, List.filter_In, Z.leb_le. done.
Qed.

(** Re-armed alarms lie in the future. *)
Lemma rearm_later now T es : 0 <= now -> (forall p t, T !! p = Some t -> task_fit now t) ->
  Forall (fun e => now < at_deadline e) (flat_map (entry_rearm now T) es).
Proof.
  intros Hnow Hfit. induction es as [|e es IH]; [constructor|]. cbn [flat_map]. apply Forall_app.
  split; [|done]. unfold entry_rearm. destruct (entry_task T e) as [[p t]|] eqn:Et; [|constructor].
  unfold entry_task in Et. apply bind_Some in Et as (p' & _ & Et). apply bind_Some in Et as (t' & Ht & Et).
  apply (inj Some) in Et. injection Et as -> ->. destruct (Hfit p t Ht) as (Hi & _).
  unfold rearmed, next_of, alarm_next, c_true.
  destruct (alarm_dead t); cbn; [constructor|]. destruct (itimer_real_interval t =? 0) eqn:E0; reflect; cbn; [constructor|].
  rewrite (proj2 (Z.eqb_neq _ 0)) by lia. repeat constructor. cbn [at_deadline]. lia.
Qed.

Lemma first_alarm_ok s : wf_aside s -> exists d, first_alarm s = Some d /\ d <> 0 /\ Forall (fun e => d <= at_deadline e) (alarms s).
Proof.
  intros Hwf. unfold first_alarm. destruct (0 <? cnt (alarm_timer_heap s)) eqn:Ec; reflect.
  - destruct (deadline_root s Hwf Ec) as (d & Hd & (e & He & Hed) & Hmin). exists d. split_and!; [done| |done].
    destruct Hwf as [lo Hwf]. pose proof (tw_alarm_valid _ _ Hwf) as Hv. rewrite list.Forall_forall in Hv.
    rewrite <- Hed. by apply Hv.
  - exists SCHED_NO_DEADLINE. split; [done|]. split; [done|]. rewrite (alarms_nil s Hwf) by done. constructor.
Qed.

(** The entries a batch takes out are in flight afterwards. *)
Lemma collected_in_flight T s s' now es more : wf_aside s -> collected s s' now 0 es more ->
  (forall e, e ∈ alarms s -> at_deadline e <= now -> same_task T s e) ->
  NoDup (map at_task es) /\ Forall (in_flight T s') es /\
  (forall e, e ∈ alarms s' -> at_deadline e <= now -> (at_task e ∉ map at_task es) /\ same_task T s' e).
Proof.
  intros Hwf Hc Hsame. pose proof Hc as (Hw' & HP & HI & _ & Hdue & _).
  pose proof (alarm_tasks_nodup s Hwf) as Hnd. rewrite <- HP, map_app in Hnd.
  apply NoDup_app in Hnd as (Hnd & Hdisj & _). split; [done|].
  assert (forall e, e ∈ es \/ e ∈ alarms s' -> e ∈ alarms s) as Hsub.
  { intros e He. rewrite <- HP. by apply elem_of_app. }
  split.
  - apply list.Forall_forall. intros e He. rewrite list.Forall_forall in Hdue.
    destruct (Hsame e) as (p & t & i & Hp & Ht & Hs); [by apply Hsub; left|by apply Hdue|].
    destruct (collected_task s s' now 0 es more p Hwf Hc) as (u & j & Hu & Hu' & Hj & Hr).
    { rewrite <- Hp. by apply list_elem_of_fmap_2. }
    rewrite Hs in Hu. apply (inj Some) in Hu as <-. exists p, t, j. destruct t. by split_and!.
  - intros e He Hd. split.
    + intros Hin. apply (Hdisj _ Hin). by apply list_elem_of_fmap_2.
    + destruct (Hsame e) as (p & t & i & Hp & Ht & Hs); [by apply Hsub; right|done|].
      pose proof (HI p) as Hip. rewrite Hs in Hip. destruct (tasks s' !! p) as [t'|] eqn:Et; [|done].
      destruct Hip as [j ->]. exists p, t, j. by destruct t.
Qed.

Record scanned (now : Z) (T : gmap nat task_t) (s s' : scan) (next : Z) : Prop := {
  sd_wf : wf_aside (sc_tm s');
  sd_alarms : alarms (sc_tm s') ≡ₚ
    flat_map (entry_rearm now T) (dues now (alarms (sc_tm s))) ++ laters now (alarms (sc_tm s));
  sd_log : exists sigs, sc_log s' = sigs ++ sc_log s /\
    sigs ≡ₚ flat_map (entry_signal T) (dues now (alarms (sc_tm s)));
  sd_next : next <> 0;
  sd_scan : next_alarm_scan (sc_tm s') <= next_alarm_scan (sc_tm s);
  sd_noted : Forall (fun e => next <= at_deadline e \/ next_alarm_scan (sc_tm s') <= at_deadline e)
    (alarms (sc_tm s'));
  sd_wait : wait_timer_heap (sc_tm s') = wait_timer_heap (sc_tm s);
}.

Lemma alarm_rounds_ok fuel ticks now T s : wf_aside (sc_tm s) -> 0 <= now ->
  (forall p t, T !! p = Some t -> task_fit now t) ->
  (forall e, e ∈ alarms (sc_tm s) -> at_deadline e <= now -> same_task T (sc_tm s) e) ->
  (length (dues now (alarms (sc_tm s))) < fuel)%nat ->
  exists s' next, alarm_rounds MAX TPS BATCH fuel ticks now s = Some (s', next) /\ scanned now T s s' next.
Proof.
  intros Hwf Hnow Hfit. revert s Hwf. induction fuel as [|fuel IH]; intros s Hwf Hsame Hfuel; [lia|].
  cbn [alarm_rounds]. pose proof (alarms_length _ Hwf) as Hlen.
  destruct (alarm_collect_ok (Z.to_nat (cnt (alarm_timer_heap (sc_tm s)))) (sc_tm s) now [] Hwf)
    as (s1 & es & more & -> & Hc); [lia|cbn; lia|]. cbn [app mbind option_bind length] in *.
  destruct (collected_in_flight T _ _ _ _ _ Hwf Hc Hsame) as (Hnd & Hfl & Hrest).
  pose proof Hc as (Hw1 & HP & _ & (h & T1 & Hs1) & Hdue & Hmore).
  destruct (first_alarm_ok s1 Hw1) as (next & -> & Hnz & Hnext). cbn [mbind option_bind].
  destruct (alarm_deliver_all_ok es ticks now T (s {{ sc_tm := s1 }})) as (s2 & -> & Hd);
    [done|done|done|done|done| |].
  { change (alarms (sc_tm (s {{ sc_tm := s1 }}))) with (alarms s1). pose proof (alarms_max _ Hwf) as Hm.
    rewrite <- HP, length_app in Hm. done. }
  cbn [mbind option_bind]. destruct Hd as [Hw2 Ha2 (sigs & Hl2 & Hsig) Hsc Hnote Hkeep Hwt].
  change (sc_tm (s {{ sc_tm := s1 }})) with s1 in *. change (sc_log (s {{ sc_tm := s1 }})) with (sc_log s) in *.
  assert (dues now (alarms (sc_tm s)) ≡ₚ es ++ dues now (alarms s1)) as HD.
  { rewrite <- HP. unfold dues. rewrite List.filter_app. fold (dues now es). by rewrite (proj1 (dues_all now es Hdue)). }
  assert (laters now (alarms (sc_tm s)) ≡ₚ laters now (alarms s1)) as HL.
  { rewrite <- HP. unfold laters. rewrite List.filter_app. fold (laters now es). by rewrite (proj2 (dues_all now es Hdue)). }
  destruct (laters_all now _ (rearm_later now T es Hnow Hfit)) as [HRd HRl].
  assert (next_alarm_scan s1 = next_alarm_scan (sc_tm s) /\ wait_timer_heap s1 = wait_timer_heap (sc_tm s)) as [Hn1 Hwt1].
  { rewrite Hs1. by destruct (sc_tm s). }
  destruct more.
  - assert (dues now (alarms (sc_tm s2)) ≡ₚ dues now (alarms s1)) as HD2.
    { rewrite Ha2. unfold dues at 1. rewrite List.filter_app. fold (dues now (flat_map (entry_rearm now T) es)). by rewrite HRd. }
    assert (laters now (alarms (sc_tm s2)) ≡ₚ flat_map (entry_rearm now T) es ++ laters now (alarms s1)) as HL2.
    { rewrite Ha2. unfold laters at 1. rewrite List.filter_app. fold (laters now (flat_map (entry_rearm now T) es)). by rewrite HRl. }
    destruct (IH s2 Hw2) as (s' & nx & E & [Hw' Ha' (sg & Hl' & Hsg) Hnx Hsc' Hnote' Hwt']).
    { intros e He Hle. assert (e ∈ dues now (alarms s1)) as Hin by (rewrite <- HD2; by apply elem_dues).
      apply elem_dues in Hin as [Hin _]. destruct (Hrest e Hin Hle) as [Hn Hst]. by apply Hkeep. }
    { rewrite (Permutation_length HD2). rewrite (Permutation_length HD), length_app in Hfuel. lia. }
    exists s', nx. split; [done|]. split; [done| | |done|lia|done|congruence].
    + rewrite Ha', (Permutation_flat_map _ HD2), HL2, (Permutation_flat_map _ HD), flat_map_app, HL, !app_assoc.
      apply Permutation_app_tail, Permutation_app_comm.
    + exists (sg ++ sigs). rewrite Hl', Hl2, app_assoc. split; [done|].
      rewrite Hsg, Hsig, (Permutation_flat_map _ HD2), (Permutation_flat_map _ HD), flat_map_app.
      apply Permutation_app_comm.
  - destruct (laters_all now _ Hmore) as [HM1 HM2]. rewrite HM1, app_nil_r in HD. rewrite HM2 in HL.
    exists s2, next. split; [done|]. split; [done| | |done|lia| |congruence].
    + by rewrite Ha2, HL, (Permutation_flat_map _ HD).
    + exists sigs. split; [done|]. by rewrite Hsig, (Permutation_flat_map _ HD).
    + rewrite Ha2. apply Forall_app. split.
      * eapply Forall_impl; [exact Hnote|]. intros e He. by right.
      * eapply Forall_impl; [exact Hnext|]. intros e He. by left.
Qed.

Lemma wf_set_scan s slot : wf_aside s -> Forall (fun e => slot <= at_deadline e) (alarms s) ->
  timers_wf MAX (s {{ next_alarm_scan := slot }}).
Proof.
  intros Hwf Hall. pose proof (deadline_root s Hwf) as Hroot. destruct Hwf as [lo Hwf].
  pose proof Hwf as []. constructor; try done. intros Hc.
  change (0 < cnt (alarm_timer_heap s)) in Hc. change (slot <= dl (arr (alarm_timer_heap s)) 0).
  destruct (Hroot Hc) as (d & Hd & (e & He & Hed) & _). rewrite list.Forall_forall in Hall.
  assert (dl (arr (alarm_timer_heap s)) 0 = d) as ->.
  { pose proof (deadline_at_ok _ _ _ 0 tw_alarm) as Hda.
    change (0 <= 0 < cnt (alarm_timer_heap s) -> deadline_at (arr (alarm_timer_heap s)) 0
      = Some (dl (arr (alarm_timer_heap s)) 0)) in Hda.
    rewrite Hda in Hd by lia. by apply (inj Some) in Hd. }
  rewrite <- Hed. by apply Hall.
Qed.

(** Before the next alarm scan nothing is due. *)
Lemma not_due s now : timers_wf MAX s -> now < next_alarm_scan s ->
  Forall (fun e => now < at_deadline e) (alarms s).
Proof.
  intros Hwf Hlt. apply list.Forall_forall. intros e He.
  pose proof (elem_dl _ _ _ _ (tw_alarm _ _ Hwf) (tw_alarm_order _ _ Hwf) He) as Hle.
  pose proof (tw_alarm_scan _ _ Hwf) as Hs.
  destruct (decide (0 < cnt (alarm_timer_heap s))) as [Hc|Hc].
  - specialize (Hs Hc). change (dl (arr (alarm_timer_heap s)) 0 <= at_deadline e) in Hle. lia.
  - unfold alarms, live in He. replace (Z.to_nat (cnt (alarm_timer_heap s))) with 0%nat in He by lia.
    by apply elem_of_nil in He.
Qed.

Lemma wf_is_aside s lo : timers_wf MAX s -> wf_aside (s {{ next_alarm_scan := lo }}).
Proof. intros Hwf. exists (next_alarm_scan s). by destruct s. Qed.

(** C9: The scan of the signal timers, from any consistent state.  It ends;
    it sends SIGALRM to exactly the tasks whose alarm is due and that are
    neither unused nor zombies, once each, in however many batches; every due
    entry is gone, a signalled task with an interval has a new entry one
    interval later, every other alarm is untouched, so nothing is due any
    more; and the heap, its back pointers, the references and the next scan
    are consistent again.  Intervals do not wrap around the 64-bit clock. *)
Theorem alarm_scan_correct abi_linux s ticks now : timers_wf MAX (sc_tm s) -> 0 <= now ->
  (forall p t, tasks (sc_tm s) !! p = Some t -> task_fit now t) ->
  exists s' sigs, proc_sched_scan_signal_timers MAX TPS BATCH abi_linux ticks now s = Some s' /\
    timers_wf MAX (sc_tm s') /\
    alarms (sc_tm s') ≡ₚ flat_map (entry_rearm now (tasks (sc_tm s))) (dues now (alarms (sc_tm s)))
      ++ laters now (alarms (sc_tm s)) /\
    Forall (fun e => now < at_deadline e) (alarms (sc_tm s')) /\
    sc_log s' = (if abi_linux : bool then [EvPosixTick] else []) ++ sigs ++ sc_log s /\
    sigs ≡ₚ flat_map (entry_signal (tasks (sc_tm s))) (dues now (alarms (sc_tm s))) /\
    wait_timer_heap (sc_tm s') = wait_timer_heap (sc_tm s).
Proof.
  intros Hwf Hnow Hfit. unfold proc_sched_scan_signal_timers.
  destruct (next_alarm_scan (sc_tm s) <=? now) eqn:En; reflect.
  2:{ destruct (laters_all now _ (not_due _ now Hwf En)) as [-> ->]. cbn [mbind option_bind flat_map app].
    exists (if abi_linux then sc_emit EvPosixTick s else s), []. pose proof (not_due _ now Hwf En).
    destruct abi_linux; by split_and!. }
  set (m := (sc_tm s) {{ next_alarm_scan := SCHED_NO_DEADLINE }}).
  assert (wf_aside m) as Hwm by by apply wf_is_aside.
  destruct (alarm_rounds_ok (S (Z.to_nat (cnt (alarm_timer_heap (sc_tm s))))) ticks now (tasks (sc_tm s))
    (s {{ sc_tm := m }})) as (s2 & next & E & [Hw2 Ha (sigs & Hl & Hsg) Hnz Hsc Hnote Hwt]);
    [done|done|done| | |].
  { intros e He _. destruct (alarm_entry_task m e Hwm He) as (p & t & Hp & Ht & _).
    exists p, t, (alarm_timer_index t). split_and!; [done|exact Ht|].
    etrans; [exact Ht|]. by destruct t. }
  { unfold dues. pose proof (alarms_length m Hwm) as Hlen.
    pose proof (List.filter_length_le (fun e => at_deadline e <=? now) (alarms m)) as Hf.
    change (cnt (alarm_timer_heap m)) with (cnt (alarm_timer_heap (sc_tm s))) in Hlen.
    change (sc_tm (s {{ sc_tm := m }})) with m. lia. }
  change (sc_tm (s {{ sc_tm := m }})) with m in *. change (sc_log (s {{ sc_tm := m }})) with (sc_log s) in *.
  change (alarms m) with (alarms (sc_tm s)) in *.
  change (alarm_timer_heap m) with (alarm_timer_heap (sc_tm s)). rewrite E. cbn [mbind option_bind].
  unfold sched_note_deadline. rewrite (proj2 (Z.eqb_neq next 0)) by done.
  set (slot := if next <? next_alarm_scan (sc_tm s2) then next else next_alarm_scan (sc_tm s2)).
  assert (timers_wf MAX ((sc_tm s2) {{ next_alarm_scan := slot }})) as Hfinal.
  { apply wf_set_scan; [done|]. eapply Forall_impl; [exact Hnote|]. intros e He. unfold slot.
    cbn beta in He. split_if; reflect; lia. }
  assert (Forall (fun e => now < at_deadline e) (alarms (sc_tm s2))) as Hlater.
  { rewrite Ha. apply Forall_app. split; [by apply rearm_later|]. apply list.Forall_forall.
    intros e He. unfold laters in He. rewrite list_elem_of_In, List.filter_In, Z.ltb_lt in He. apply He. }
  unfold slot in Hfinal. destruct (next <? next_alarm_scan (sc_tm s2)); cbn [mbind option_bind].
  - eexists _, sigs. split; [done|].
    destruct abi_linux; (split; [exact (wf_intervals MAX _ _ Hfinal)|]); (split_and!; try done); by rewrite <- Hl.
  - eexists _, sigs. split; [done|].
    destruct abi_linux; (split; [exact Hfinal|]); (split_and!; try done); by rewrite <- Hl.
Qed.
End Theory.

(** ** Instances *)

(** Task 2 has an interval timer of period [i] and an alarm at tick 900. *)
Definition ticking (i : Z) : timers :=
  demo_armed {{ tasks := <[2%nat := demo_task {{ itimer_real_interval := i }}]> (tasks demo_armed) }}.
Definition alarmed (i : Z) : timers :=
  default demo_armed (proc_set_alarm_expire 4 1000000 0 (ticking i) (Some 2%nat) 900).

Lemma ticking_wf i : timers_wf 4 (ticking i).
Proof.
  eapply (wf_update_task 4 demo_armed 2%nat demo_task); [apply demo_armed_wf|by vm_compute|done|done|done].
Qed.

Lemma alarmed_wf i : timers_wf 4 (alarmed i).
Proof.
  destruct (set_alarm_fits 4 ltac:(lia) (ticking i) 2%nat (demo_task {{ itimer_real_interval := i }}) 900)
    as (s2 & t' & E & Hn & W & _); [apply ticking_wf|by vm_compute|done|done|lia|by vm_compute|].
  unfold alarmed, proc_set_alarm_expire. rewrite E. cbn [mbind option_bind]. rewrite Hn.
  change (next_alarm_scan (ticking i)) with SCHED_NO_DEADLINE.
  change (sched_note_deadline SCHED_NO_DEADLINE 900) with (900, true). cbn [default].
  apply wf_intervals, W; [lia|]. change (900 <= SCHED_NO_DEADLINE). by vm_compute.
Qed.

Definition demo_scan (i : Z) : scan := {| sc_tm := alarmed i; sc_log := [] |}.

Lemma alarmed_fit p t : tasks (sc_tm (demo_scan 50)) !! p = Some t -> task_fit 1000 t.
Proof.
  intros Ht. assert (map_Forall (fun _ t => task_fit 1000 t) (tasks (alarmed 50))) as H; [|by apply (H p t)].
  apply map_Forall_to_list.
  let l := eval vm_compute in (map_to_list (tasks (alarmed 50))) in
  replace (map_to_list (tasks (alarmed 50))) with l by (vm_compute; reflexivity).
  repeat apply Forall_cons_2; [..|apply Forall_nil_2]; done.
Qed.

Lemma alarm_scan_correct_witness :
  exists s' sigs, proc_sched_scan_signal_timers 4 1000000 128 true 1000 1000 (demo_scan 50) = Some s' /\
    timers_wf 4 (sc_tm s') /\
    alarms (sc_tm s') ≡ₚ flat_map (entry_rearm 1000 (tasks (sc_tm (demo_scan 50))))
      (dues 1000 (alarms (sc_tm (demo_scan 50)))) ++ laters 1000 (alarms (sc_tm (demo_scan 50))) /\
    Forall (fun e => 1000 < at_deadline e) (alarms (sc_tm s')) /\
    sc_log s' = [EvPosixTick] ++ sigs ++ sc_log (demo_scan 50) /\
    sigs ≡ₚ flat_map (entry_signal (tasks (sc_tm (demo_scan 50)))) (dues 1000 (alarms (sc_tm (demo_scan 50)))) /\
    wait_timer_heap (sc_tm s') = wait_timer_heap (sc_tm (demo_scan 50)).
Proof.
  exact (alarm_scan_correct 4 1000000 128 ltac:(lia) ltac:(lia) true (demo_scan 50) 1000 1000
    (alarmed_wf 50) ltac:(lia) alarmed_fit).
Defined.

(** ** Where the scan goes wrong *)

(** The state after the alarm of task 2 was taken out of the heap. *)
Definition taken (i : Z) : timers :=
  match alarm_collect 128 4 (alarmed i) 1000 [] with Some (s, _, _) => s | None => alarmed i end.

(** An alarm the task sets between the removal of its entry and the delivery
    is lost: the delivery replaces it by none. *)
Lemma alarm_set_during_scan_lost :
  exists s1 s2, proc_set_alarm_expire 4 1000000 1000 (taken 0) (Some 2%nat) 5000 = Some s1 /\
    alarms s1 = [{| at_deadline := 5000; at_task := Some 2%nat |}] /\
    alarm_deliver 4 1000000 1000 1000 {| sc_tm := s1; sc_log := [] |} (Some 2%nat) = Some s2 /\
    alarms (sc_tm s2) = [].
Proof.
  eexists _, _. split; [vm_compute; reflexivity|]. split; [vm_compute; reflexivity|].
  split; [vm_compute; reflexivity|]. vm_compute. reflexivity.
Qed.

(** An interval near 2^64 wraps: the new alarm is in the past and due again
    at once. *)
Lemma alarm_interval_wraps :
  exists s', proc_sched_scan_signal_timers 4 1000000 128 true 1000 1000
      (demo_scan 18446744073709551516) = Some s' /\
    alarms (sc_tm s') = [{| at_deadline := 900; at_task := Some 2%nat |}].
Proof. eexists. split; [vm_compute; reflexivity|]. vm_compute. reflexivity. Qed.
