(* ===== verification/Frame.v ===== *)
(** * The buddy allocator of physical frames (kernel/mm/frame.c, mm/frame.h)

    Per-frame metadata in one array, a doubly linked free list per order, a
    bitmap of the frames that head a free list entry, reference counts, and a
    reserve of single pages per CPU.  A critical section under pfa.lock is one
    function on the state.  [None] is a panic or an access outside an array.
    The 64-bit configuration without CONFIG_DEBUG_MM_TRACE is modelled: the
    release trace and the operation history record nothing. *)

From S2P Require Import Prelude.
#[local] Open Scope Z_scope.

(** ** Constants *)

Definition MAX_ORDER : Z := 11.
Definition PFN_NONE : Z := 4294967295.
Definition PFA_MAX_RANGES : Z := 4.
Definition PAGE_SIZE : Z := 4096.
Definition PAGE_SIZE_BITS : Z := 12.
Abbreviation PMD_ORDER := (9)%Z (only parsing).
Abbreviation PMD_PAGE_COUNT := (512)%Z (only parsing).
Abbreviation FRAME_F_FREE := (0)%Z (only parsing).
Abbreviation FRAME_F_ALLOC := (1)%Z (only parsing).
Abbreviation FRAME_F_KDATA := (2)%Z (only parsing).
Definition PFA_CPU_BATCH_PAGES : Z := 32.

(** ROUND_UP(a, b) on a 64-bit [a]; [w] is the width of [b] at which the mask
    is complemented. *)
Definition ROUND_UP (w : Z -> Z) (a b : Z) : Z :=
  Z.land (u64 (a + b - 1)) (w (Z.lnot (b - 1))).

(** 1u << o *)
Definition blk (o : Z) : Z := Z.shiftl 1 o.

(** ** Data *)

Record pfa_range_t := { r_base : Z; r_end : Z; r_start_pfn : Z; r_end_pfn : Z }.

(** The union's page-table pointer is not used by this file. *)
Record frame_meta_t := {
  m_prev : Z; m_next : Z; m_refcount : Z; m_order : Z; m_flags : Z;
}.

Record free_list_t := { fl_head : Z; fl_count : Z }.

(** The structure pfa and the file's globals. *)
Record pfa_t := {
  meta : list frame_meta_t; total_frames : Z; free_frames : Z; nr_ranges : Z;
  ranges : list pfa_range_t; free_lists : list free_list_t;
  g_pfa_freemap : option (list Z); g_pfa_direct_map_end : Z;
}.

#[global] Instance frame_meta_eq_dec : EqDecision frame_meta_t.
Proof. solve_decision. Defined.
#[global] Instance pfa_range_eq_dec : EqDecision pfa_range_t.
Proof. solve_decision. Defined.

Definition put_meta (s : pfa_t) (p : Z) (m : frame_meta_t) : option pfa_t :=
  l ← wr (meta s) p m; Some (s {{ meta := l }}).

(** The five assignments that make a frame a free block's head. *)
Definition meta_free (o : Z) : frame_meta_t :=
  {| m_prev := PFN_NONE; m_next := PFN_NONE; m_refcount := 0; m_order := u8 o;
     m_flags := FRAME_F_FREE |}.

Fixpoint popcount_loop (fuel : nat) (a count : Z) : option Z :=
  if a =? 0 then Some count
  else match fuel with
       | O => None
       | S fuel' => popcount_loop fuel' (Z.land a (u64 (a - 1))) (count + 1)
       end.

(** The loop clears one of 64 bits per iteration. *)
Definition popcountdi2 (a : Z) : option Z := popcount_loop 64 a 0.

(** ** The bitmap *)

Definition PFA_FREEMAP_TEST (s : pfa_t) (pfn : Z) : option bool :=
  match g_pfa_freemap s with
  | None => Some false
  | Some fm =>
      b ← rd fm (Z.shiftr pfn 3);
      Some (c_true (Z.land (Z.shiftr b (Z.land pfn 7)) 1))
  end.

Definition PFA_FREEMAP_SET (s : pfa_t) (pfn : Z) : option pfa_t :=
  fm ← g_pfa_freemap s;
  b ← rd fm (Z.shiftr pfn 3);
  fm ← wr fm (Z.shiftr pfn 3) (Z.lor b (u8 (Z.shiftl 1 (Z.land pfn 7))));
  Some (s {{ g_pfa_freemap := Some fm }}).

Definition PFA_FREEMAP_CLR (s : pfa_t) (pfn : Z) : option pfa_t :=
  fm ← g_pfa_freemap s;
  b ← rd fm (Z.shiftr pfn 3);
  fm ← wr fm (Z.shiftr pfn 3) (Z.land b (u8 (Z.lnot (Z.shiftl 1 (Z.land pfn 7)))));
  Some (s {{ g_pfa_freemap := Some fm }}).

(** ** Ranges and addresses

    The inner option of a search is the pointer it returns. *)

Definition find_range_by_pa (s : pfa_t) (pa : Z) : option (option pfa_range_t) :=
  for_return 0 (nr_ranges s) (fun i =>
    r ← rd (ranges s) i;
    Some (if (r_base r <=? pa) && (pa <? r_end r) then Some r else None)).

Definition pfa_range_for_pfn (s : pfa_t) (pfn : Z) : option (option pfa_range_t) :=
  for_return 0 (nr_ranges s) (fun i =>
    r ← rd (ranges s) i;
    Some (if (r_start_pfn r <=? pfn) && (pfn <? r_end_pfn r) then Some r else None)).

Definition pfa_range_for_pa (s : pfa_t) (pa : Z) : option (option pfa_range_t) :=
  for_return 0 (nr_ranges s) (fun i =>
    r ← rd (ranges s) i;
    Some (if (r_base r <=? pa) && (pa <? r_end r) then Some r else None)).

Definition pfn_valid (s : pfa_t) (pfn : Z) : option bool :=
  r ← pfa_range_for_pfn s pfn;
  Some (match r with Some _ => true | None => false end).

Definition pfn_to_phys (s : pfa_t) (pfn : Z) : option Z :=
  r ← pfa_range_for_pfn s pfn;
  Some (match r with
        | None => U64_MAX
        | Some r => u64 (r_base r + u64 (Z.shiftl (u32 (pfn - r_start_pfn r)) PAGE_SIZE_BITS))
        end).

(** [PAGE_OFFSET] is the architecture's; 0 is the null pointer. *)
Definition pfn_to_virt (PAGE_OFFSET : Z) (s : pfa_t) (pfn : Z) : option Z :=
  r ← pfa_range_for_pfn s pfn;
  Some (match r with
        | None => 0
        | Some r => u64 (PAGE_OFFSET + r_base r +
                         u64 (Z.shiftl (u32 (pfn - r_start_pfn r)) PAGE_SIZE_BITS))
        end).

Definition phys_to_pfn (s : pfa_t) (pa : Z) : option Z :=
  r ← pfa_range_for_pa s pa;
  Some (match r with
        | None => PFN_NONE
        | Some r => u32 (r_start_pfn r + u32 (Z.shiftr (u64 (pa - r_base r)) PAGE_SIZE_BITS))
        end).

Definition virt_to_pfn (PAGE_OFFSET : Z) (s : pfa_t) (va : Z) : option Z :=
  phys_to_pfn s (u64 (va - PAGE_OFFSET)).

(** ** Free lists *)

Definition fl_push (s : pfa_t) (pfn order : Z) : option pfa_t :=
  m ← rd (meta s) pfn;
  if negb (m_prev m =? PFN_NONE) || negb (m_next m =? PFN_NONE) then None
  else
    t ← PFA_FREEMAP_TEST s pfn;
    if t : bool then None
    else
      fl ← rd (free_lists s) order;
      s ← put_meta s pfn (m {{ m_prev := PFN_NONE; m_next := fl_head fl }});
      s ← (if negb (fl_head fl =? PFN_NONE)
           then n ← rd (meta s) (fl_head fl); put_meta s (fl_head fl) (n {{ m_prev := pfn }})
           else Some s);
      fls ← wr (free_lists s) order {| fl_head := pfn; fl_count := u64 (fl_count fl + 1) |};
      PFA_FREEMAP_SET (s {{ free_lists := fls }}) pfn.

(** Whether a frame of the block is referenced or on a free list. *)
Definition block_used (s : pfa_t) (lo hi : Z) : option (option unit) :=
  for_return lo hi (fun i =>
    m ← rd (meta s) i;
    if 0 <? m_refcount m then Some (Some ())
    else t ← PFA_FREEMAP_TEST s i; Some (if t : bool then Some () else None)).

Fixpoint fl_push_clean (s : pfa_t) (pfn : Z) (order : nat) : option pfa_t :=
  match order with
  | O =>
      m ← rd (meta s) pfn;
      if (0 <? m_refcount m) || (m_flags m =? FRAME_F_ALLOC) then Some s
      else
        t ← PFA_FREEMAP_TEST s pfn;
        if t : bool then Some s
        else s ← put_meta s pfn (meta_free 0); fl_push s pfn 0
  | S order' =>
      used ← block_used s pfn (u32 (pfn + blk (Z.of_nat order)));
      match used with
      | None =>
          s ← put_meta s pfn (meta_free (Z.of_nat order));
          fl_push s pfn (Z.of_nat order)
      | Some _ =>
          s ← fl_push_clean s pfn order';
          fl_push_clean s (u32 (pfn + blk (Z.of_nat order'))) order'
      end
  end.

(** The link check of fl_remove: the neighbour is a valid free frame of the
    same order. *)
Definition link_ok (s : pfa_t) (q order : Z) : option bool :=
  v ← pfn_valid s q;
  if v : bool then
    m ← rd (meta s) q;
    Some ((m_order m =? u8 order) && (m_flags m =? FRAME_F_FREE))
  else Some false.

Definition fl_remove (s : pfa_t) (pfn order : Z) : option pfa_t :=
  s ← PFA_FREEMAP_CLR s pfn;
  m ← rd (meta s) pfn;
  s ← (if negb (m_prev m =? PFN_NONE) then
         ok ← link_ok s (m_prev m) order;
         if ok : bool then
           q ← rd (meta s) (m_prev m); put_meta s (m_prev m) (q {{ m_next := m_next m }})
         else None
       else
         fl ← rd (free_lists s) order;
         fls ← wr (free_lists s) order (fl {{ fl_head := m_next m }});
         Some (s {{ free_lists := fls }}));
  m ← rd (meta s) pfn;
  s ← (if negb (m_next m =? PFN_NONE) then
         ok ← link_ok s (m_next m) order;
         if ok : bool then
           q ← rd (meta s) (m_next m); put_meta s (m_next m) (q {{ m_prev := m_prev m }})
         else None
       else Some s);
  m ← rd (meta s) pfn;
  s ← put_meta s pfn (m {{ m_prev := PFN_NONE; m_next := PFN_NONE }});
  fl ← rd (free_lists s) order;
  fls ← wr (free_lists s) order (fl {{ fl_count := u64 (fl_count fl - 1) }});
  Some (s {{ free_lists := fls }}).

(** ** Allocation *)

(** Whether a frame of the buddy half is allocated. *)
Definition block_dirty (s : pfa_t) (lo hi : Z) : option (option unit) :=
  for_return lo hi (fun i =>
    m ← rd (meta s) i;
    Some (if (m_flags m =? FRAME_F_ALLOC) || (0 <? m_refcount m) then Some () else None)).

(** while (o > order): [n] is o - order. *)
Fixpoint split_down (n : nat) (s : pfa_t) (b order : Z) : option pfa_t :=
  match n with
  | O => Some s
  | S n' =>
      let o := order + Z.of_nat n' in
      let buddy := Z.lxor b (blk o) in
      dirty ← block_dirty s buddy (u32 (buddy + blk o));
      match dirty with
      | Some _ => None
      | None =>
          s ← put_meta s buddy (meta_free o);
          s ← fl_push s buddy o;
          split_down n' s b order
      end
  end.

Definition meta_alloc (refcount o : Z) : frame_meta_t :=
  {| m_prev := PFN_NONE; m_next := PFN_NONE; m_refcount := refcount; m_order := u8 o;
     m_flags := FRAME_F_ALLOC |}.

(** The state and the block, PFN_NONE when no list has one. *)
Definition pfa_alloc_from_buddy (s : pfa_t) (order : Z) : option (pfa_t * Z) :=
  found ← for_return order (MAX_ORDER + 1) (fun o =>
            fl ← rd (free_lists s) o;
            Some (if negb (fl_head fl =? PFN_NONE) then Some o else None));
  match found with
  | None => Some (s, PFN_NONE)
  | Some o =>
      fl ← rd (free_lists s) o;
      let b := fl_head fl in
      s ← fl_remove s b o;
      m ← rd (meta s) b;
      if negb (m_flags m =? FRAME_F_FREE) || negb (m_order m =? u8 o)
         || negb (Z.land b (u32 (blk o - 1)) =? 0)
      then None
      else
        s ← split_down (Z.to_nat (o - order)) s b order;
        s ← put_meta s b (meta_alloc 1 order);
        s ← for_ (u32 (b + 1)) (u32 (b + blk order)) (fun i s =>
              m ← rd (meta s) i;
              if 0 <? m_refcount m then Some s else put_meta s i (meta_alloc 0 0)) s;
        Some (s {{ free_frames := u32 (free_frames s - blk order) }}, b)
  end.

(** ** Release *)

(** while (actual_order < MAX_ORDER): [n] is MAX_ORDER - actual_order.  The
    result is the merged block. *)
Fixpoint buddy_merge (n : nat) (s : pfa_t) (r : pfa_range_t) (pfn order : Z)
  : option (pfa_t * Z * Z) :=
  match n with
  | O => Some (s, pfn, order)
  | S n' =>
      let buddy := Z.lxor pfn (blk order) in
      if total_frames s <=? buddy then Some (s, pfn, order)
      else if (buddy <? r_start_pfn r) || (r_end_pfn r <=? buddy) then Some (s, pfn, order)
      else
        m ← rd (meta s) buddy;
        if negb (m_flags m =? FRAME_F_FREE) then Some (s, pfn, order)
        else if negb (m_order m =? u8 order) then Some (s, pfn, order)
        else
          t ← PFA_FREEMAP_TEST s buddy;
          if negb t then Some (s, pfn, order)
          else
            dirty ← block_used s (u32 (buddy + 1)) (Z.min (u32 (buddy + blk order)) (total_frames s));
            match dirty with
            | Some _ => Some (s, pfn, order)
            | None =>
                s ← fl_remove s buddy order;
                buddy_merge n' s r (if pfn <? buddy then pfn else buddy) (order + 1)
            end
  end.

(** The interior of the merged block becomes free, referenced and free frames
    excepted. *)
Definition clear_interior (s : pfa_t) (pfn order : Z) : option pfa_t :=
  for_ (u32 (pfn + 1)) (Z.min (u32 (pfn + blk order)) (total_frames s)) (fun i s =>
    m ← rd (meta s) i;
    if 0 <? m_refcount m then Some s
    else if m_flags m =? FRAME_F_FREE then Some s
    else put_meta s i (meta_free 0)) s.

(** From the search of the range to the end: the part that pfa_free and
    frame_put_locked share word for word. *)
Definition release_block (s : pfa_t) (pfn order : Z) : option pfa_t :=
  r ← pfa_range_for_pfn s pfn;
  match r with
  | None => Some s
  | Some r =>
      '(s, pfn, order) ← buddy_merge (Z.to_nat (MAX_ORDER - order)) s r pfn order;
      s ← put_meta s pfn (meta_free order);
      s ← clear_interior s pfn order;
      fl_push_clean s pfn (Z.to_nat order)
  end.

Definition pfa_free (s : pfa_t) (pfn order : Z) : option pfa_t :=
  if total_frames s <=? pfn then Some s
  else
    m ← rd (meta s) pfn;
    if (m_flags m =? FRAME_F_ALLOC) && (1 <? m_refcount m) then None
    else if m_flags m =? FRAME_F_FREE then Some s
    else
      let actual_order :=
        if (m_order m <? 0) || (MAX_ORDER <? m_order m) then order else m_order m in
      s ← put_meta s pfn (m {{ m_refcount := 0 }});
      (* 1u << actual_order is undefined outside 0..31 *)
      if (actual_order <? 0) || (31 <? actual_order) then None
      else
        release_block (s {{ free_frames := u32 (free_frames s + blk actual_order) }})
                      pfn actual_order.

Definition pfa_free_page (s : pfa_t) (pfn : Z) : option pfa_t := pfa_free s pfn 0.

(** ** References *)

Definition frame_get (s : pfa_t) (pfn : Z) : option pfa_t :=
  v ← pfn_valid s pfn;
  if negb v then Some s
  else
    m ← rd (meta s) pfn;
    if m_refcount m =? 0 then None
    else put_meta s pfn (m {{ m_refcount := u16 (m_refcount m + 1) }}).

Definition frame_put_locked (s : pfa_t) (pfn : Z) : option pfa_t :=
  m ← rd (meta s) pfn;
  if 0 <? m_refcount m then
    s ← put_meta s pfn (m {{ m_refcount := m_refcount m - 1 }});
    if negb (m_refcount m - 1 =? 0) then Some s
    else if (m_order m <? 0) || (MAX_ORDER <? m_order m) then Some s
    else
      release_block (s {{ free_frames := u32 (free_frames s + blk (m_order m)) }})
                    pfn (m_order m)
  else Some s.

Definition frame_put (s : pfa_t) (pfn : Z) : option pfa_t :=
  v ← pfn_valid s pfn;
  if negb v then Some s else frame_put_locked s pfn.

(** [None] is the null array. *)
Definition frame_put_many (s : pfa_t) (pfns : option (list Z)) (count : Z) : option pfa_t :=
  match pfns with
  | None => Some s
  | Some l => for_ 0 count (fun i s => p ← rd l i; frame_put s p) s
  end.

Definition pfa_free_count (s : pfa_t) : Z := free_frames s.

(** total_huge_pages and free_huge_pages. *)
Definition pfa_get_huge_stats (s : pfa_t) : option (Z * Z) :=
  free ← for_ PMD_ORDER (MAX_ORDER + 1) (fun o acc =>
           fl ← rd (free_lists s) o;
           Some (u64 (acc + u64 (fl_count fl * Z.shiftl 1 (o - PMD_ORDER))))) 0;
  Some (total_frames s / PMD_PAGE_COUNT, free).

(** ** The per-CPU reserve *)

Record pfa_cpu_page_batch_t := { b_pages : list Z; b_count : Z }.

(** One batch per CPU: the list's length is CONFIG_NR_CPUS. *)
Record pfa_sys := { pfa : pfa_t; g_pfa_cpu_batches : list pfa_cpu_page_batch_t }.

(** while (batch->count < PFA_CPU_BATCH_PAGES - 1): every iteration adds a
    page, so [n] = 31 - count steps are enough. *)
Fixpoint batch_refill (n : nat) (s : pfa_t) (b : pfa_cpu_page_batch_t)
  : option (pfa_t * pfa_cpu_page_batch_t) :=
  if b_count b <? PFA_CPU_BATCH_PAGES - 1 then
    match n with
    | O => None
    | S n' =>
        '(s, extra) ← pfa_alloc_from_buddy s 0;
        if extra =? PFN_NONE then Some (s, b)
        else
          l ← wr (b_pages b) (b_count b) extra;
          batch_refill n' s {| b_pages := l; b_count := u16 (b_count b + 1) |}
    end
  else Some (s, b).

(** One pass of the order-0 loop: the page, PFN_NONE when the buddy lists are
    empty. *)
Definition alloc_page_once (g : pfa_sys) (cpu : Z) : option (pfa_sys * Z) :=
  let cpu := if Z.of_nat (length (g_pfa_cpu_batches g)) <=? cpu then 0 else cpu in
  b ← rd (g_pfa_cpu_batches g) cpu;
  if negb (b_count b =? 0) then
    p ← rd (b_pages b) (b_count b - 1);
    bs ← wr (g_pfa_cpu_batches g) cpu (b {{ b_count := b_count b - 1 }});
    Some (g {{ g_pfa_cpu_batches := bs }}, p)
  else
    '(s, result) ← pfa_alloc_from_buddy (pfa g) 0;
    if result =? PFN_NONE then Some (g {{ pfa := s }}, PFN_NONE)
    else
      '(s, b) ← batch_refill (Z.to_nat (PFA_CPU_BATCH_PAGES - 1 - b_count b)) s b;
      bs ← wr (g_pfa_cpu_batches g) cpu b;
      Some ({| pfa := s; g_pfa_cpu_batches := bs |}, result).

Definition alloc_order_once (g : pfa_sys) (order : Z) : option (pfa_sys * Z) :=
  '(s, result) ← pfa_alloc_from_buddy (pfa g) order;
  Some (g {{ pfa := s }}, result).

Section Alloc.
(** mm/oom.c's reclaim: what it and everything that runs meanwhile do to the
    state, and whether it freed something; the CPU the code runs on, which may
    differ between the two passes. *)
Context (oom_try_reclaim : pfa_sys -> option (pfa_sys * bool)) (cpus : Z -> Z).

(** while (retries < 2); [n] is 2 - retries. *)
Fixpoint alloc_retry (n : nat) (g : pfa_sys) (order : Z) (can_reclaim : bool)
  : option (pfa_sys * Z) :=
  match n with
  | O => Some (g, PFN_NONE)
  | S n' =>
      let retries := 2 - Z.of_nat n in
      '(g, result) ← (if order =? 0 then alloc_page_once g (cpus retries)
                      else alloc_order_once g order);
      if negb (result =? PFN_NONE) then Some (g, result)
      else if (retries =? 0) && can_reclaim then
        '(g, ok) ← oom_try_reclaim g;
        if ok : bool then alloc_retry n' g order can_reclaim else Some (g, PFN_NONE)
      else Some (g, PFN_NONE)
  end.

Definition pfa_alloc_flags (g : pfa_sys) (order : Z) (can_reclaim : bool)
  : option (pfa_sys * Z) :=
  if (order <? 0) || (MAX_ORDER <? order) then Some (g, PFN_NONE)
  else alloc_retry 2 g order can_reclaim.

Definition pfa_alloc (g : pfa_sys) (order : Z) : option (pfa_sys * Z) :=
  pfa_alloc_flags g order true.

Definition pfa_alloc_page (g : pfa_sys) : option (pfa_sys * Z) := pfa_alloc g 0.
End Alloc.

(** ** The audit *)

(** The walk of one list: the number of nodes passed and whether a bad node
    stopped it.  [walked <= total_frames] bounds it. *)
Fixpoint audit_walk (fuel : nat) (s : pfa_t) (o prev p walked : Z) : option (Z * bool) :=
  if negb (p =? PFN_NONE) && (walked <=? total_frames s) then
    v ← pfn_valid s p;
    if negb v then Some (walked, true)
    else
      m ← rd (meta s) p;
      if negb (m_flags m =? FRAME_F_FREE) || negb (m_order m =? u8 o)
         || negb (m_prev m =? prev) then Some (walked, true)
      else
        t ← PFA_FREEMAP_TEST s p;
        if negb t then Some (walked, true)
        else match fuel with
             | O => None
             | S fuel' => audit_walk fuel' s o p (m_next m) (u32 (walked + 1))
             end
  else Some (walked, false).

(** The errors found in the list of order [o]. *)
Definition audit_order (s : pfa_t) (o : Z) : option Z :=
  fl ← rd (free_lists s) o;
  '(walked, bad) ← audit_walk (S (Z.to_nat (total_frames s))) s o PFN_NONE (fl_head fl) 0;
  let errors := c_bool bad in
  Some (if total_frames s <? walked then errors + 1
        else if negb (walked =? fl_count fl) then errors + 1 else errors).

Definition pfa_audit_lists (s : pfa_t) : option Z :=
  for_ 0 (MAX_ORDER + 1) (fun o errors => e ← audit_order s o; Some (errors + e)) 0.

(** ** Boot *)

(** arch_ram_range_count and arch_ram_range: the platform's table of base and
    end addresses. *)
Definition arch_ram_range (ram : list (Z * Z)) (i : Z) : option (Z * Z) := rd ram i.

(** The loop that fills the range table, with max_end. *)
Definition init_ranges (ram : list (Z * Z)) (s : pfa_t) : option (pfa_t * Z) :=
  for_ 0 (nr_ranges s) (fun i '(s, max_end) =>
    '(base, end_) ← arch_ram_range ram i;
    if (end_ <=? base) || c_true (Z.land base (PAGE_SIZE - 1))
       || c_true (Z.land end_ (PAGE_SIZE - 1)) then None
    else
      let total := u32 (total_frames s + u32 (Z.shiftr (end_ - base) PAGE_SIZE_BITS)) in
      rs ← wr (ranges s) i {| r_base := base; r_end := end_;
                              r_start_pfn := total_frames s; r_end_pfn := total |};
      Some (s {{ ranges := rs; total_frames := total }},
            if max_end <? end_ then end_ else max_end)) (s {{ total_frames := 0 }}, 0).

(** A block of free frames put on a list. *)
Definition seed (s : pfa_t) (p o : Z) : option pfa_t :=
  s ← put_meta s p (meta_free o);
  s ← fl_push s p o;
  Some (s {{ free_frames := u32 (free_frames s + blk o) }}).

(** while (remain >= sz): every iteration takes [sz] frames off [remain], so
    remain / sz steps are enough. *)
Fixpoint seed_order (fuel : nat) (o : Z) (s : pfa_t) (start remain : Z)
  : option (pfa_t * Z * Z) :=
  if blk o <=? remain then
    match fuel with
    | O => None
    | S fuel' =>
        s ← seed s start o;
        seed_order fuel' o s (u32 (start + blk o)) (remain - blk o)
    end
  else Some (s, start, remain).

(** for (o = MAX_ORDER; o >= 0 && remain > 0; o--): [n] is o + 1. *)
Fixpoint seed_orders (n : nat) (s : pfa_t) (start remain : Z) : option (pfa_t * Z * Z) :=
  match n with
  | O => Some (s, start, remain)
  | S n' =>
      let o := Z.of_nat n' in
      if 0 <? remain then
        '(s, start, remain) ← seed_order (Z.to_nat (remain / blk o)) o s start remain;
        seed_orders n' s start remain
      else Some (s, start, remain)
  end.

(** The body of the loop over the ranges: kernel frames, single pages up to
    the alignment of the largest order, then blocks. *)
Definition init_range (meta_pa used_end_pa : Z) (s : pfa_t) (r : pfa_range_t) : option pfa_t :=
  let range_frames := u32 (r_end_pfn r - r_start_pfn r) in
  let used_frames :=
    if (r_base r <=? meta_pa) && (meta_pa <? r_end r) then
      let u := u32 (Z.shiftr (u64 (used_end_pa - r_base r)) PAGE_SIZE_BITS) in
      if range_frames <? u then range_frames else u
    else 0 in
  let lo := u32 (r_start_pfn r + used_frames) in
  s ← for_ (r_start_pfn r) lo (fun i s =>
        put_meta s i {| m_prev := PFN_NONE; m_next := PFN_NONE; m_refcount := 1;
                        m_order := 0; m_flags := FRAME_F_KDATA |}) s;
  let start := u32 (ROUND_UP u32 lo (blk MAX_ORDER)) in
  s ← for_ lo (Z.min start (r_end_pfn r)) (fun i s => seed s i 0) s;
  let remain := if start <? r_end_pfn r then r_end_pfn r - start else 0 in
  '(s, _, _) ← seed_orders (Z.to_nat (MAX_ORDER + 1)) s start remain;
  Some s.

Definition meta_zero : frame_meta_t :=
  {| m_prev := 0; m_next := 0; m_refcount := 0; m_order := 0; m_flags := 0 |}.

Definition pfa_init (PAGE_OFFSET : Z) (ram : list (Z * Z)) (s : pfa_t) (kernel_end : Z)
  : option pfa_t :=
  let nr := Z.of_nat (length ram) in
  if (nr =? 0) || (PFA_MAX_RANGES <? nr) then None
  else
    '(s, max_end) ← init_ranges ram (s {{ nr_ranges := nr }});
    let s := s {{ g_pfa_direct_map_end := u64 (max_end + PAGE_OFFSET) }} in
    let meta_sz := total_frames s * 16 in
    let freemap_sz := (total_frames s + 7) / 8 in
    let meta_pa := ROUND_UP u64 kernel_end 64 in
    kr ← find_range_by_pa s meta_pa;
    match kr with
    | None => None
    | Some kr =>
        if r_end kr <? u64 (meta_pa + meta_sz + freemap_sz) then None
        else
          let s := s {{ meta := replicate (Z.to_nat (total_frames s)) meta_zero;
                        free_frames := 0;
                        g_pfa_freemap := Some (replicate (Z.to_nat freemap_sz) 0) }} in
          fls ← for_ 0 (MAX_ORDER + 1) (fun i l =>
                  wr l i {| fl_head := PFN_NONE; fl_count := 0 |}) (free_lists s);
          let s := s {{ free_lists := fls }} in
          let used_end_pa := ROUND_UP u64 (u64 (meta_pa + meta_sz + freemap_sz)) PAGE_SIZE in
          for_ 0 (nr_ranges s) (fun i s =>
            r ← rd (ranges s) i; init_range meta_pa used_end_pa s r) s
    end.
