(* ===== verification/FrameTheory.v ===== *)
(** * Theory of the frame allocator

    The invariant of the free lists (links, counts, bitmap, metadata and
    disjoint aligned blocks, for a ghost list of blocks per order), and that
    pushing, removing, splitting and merging keep it. *)

From S2P Require Import Prelude Frame.
From stdpp Require Import list.
#[local] Open Scope Z_scope.

(** Step over a bind without computing the state it passes on. *)
Ltac bnd := cbn [mbind option_bind].

(** ** Arithmetic of blocks *)

Lemma blk_pow o : 0 <= o -> blk o = 2 ^ o.
Proof. intros _. unfold blk. apply Z.shiftl_1_l. Qed.

Lemma pow2_pos o : 0 <= o -> 0 < 2 ^ o.
Proof. intros. apply Z.pow_pos_nonneg; lia. Qed.

Lemma pow2_order o : 0 <= o <= 11 -> 1 <= 2 ^ o <= 2048.
Proof.
  intros H. split.
  - pose proof (pow2_pos o ltac:(lia)). lia.
  - change 2048 with (2 ^ 11). apply Z.pow_le_mono_r; lia.
Qed.

Lemma pow2_S o : 0 <= o -> 2 ^ (o + 1) = 2 * 2 ^ o.
Proof. intros. rewrite Z.pow_add_r by lia. lia. Qed.

Lemma lxor_1 q : Z.lxor q 1 = if Z.even q then q + 1 else q - 1.
Proof.
  rewrite (Z.div2_odd q) at 1. rewrite <- Z.negb_odd.
  assert (Z.lxor (2 * Z.div2 q + Z.b2z (Z.odd q)) 1
          = 2 * Z.div2 q + Z.b2z (negb (Z.odd q))) as ->.
  { apply Z.bits_inj'. intros n Hn. rewrite Z.lxor_spec.
    destruct (decide (n = 0)) as [->|].
    - rewrite !Z.testbit_0_r. destruct (Z.odd q); reflexivity.
    - replace n with (Z.succ (n - 1)) by lia.
      rewrite !Z.testbit_succ_r by lia. change 1 with (2 * 0 + Z.b2z true) at 2.
      rewrite Z.testbit_succ_r, Z.bits_0, xorb_false_r by lia. done. }
  pose proof (Z.div2_odd q). destruct (Z.odd q); simpl in *; lia.
Qed.

(** The buddy of an aligned block, and the block they form. *)
Lemma buddy_cases p o : 0 <= o -> p mod 2 ^ o = 0 ->
  Z.lxor p (blk o) = p + 2 ^ o /\ p mod 2 ^ (o + 1) = 0 \/
  Z.lxor p (blk o) = p - 2 ^ o /\ (p - 2 ^ o) mod 2 ^ (o + 1) = 0.
Proof.
  intros Ho Ha. pose proof (pow2_pos o Ho). rewrite pow2_S by done.
  pose proof (Z.div_mod p (2 ^ o) ltac:(lia)) as Hp. rewrite Ha, Z.add_0_r in Hp.
  set (q := p / 2 ^ o) in *. clearbody q. subst p.
  assert (Z.lxor (2 ^ o * q) (blk o) = 2 ^ o * Z.lxor q 1) as ->.
  { unfold blk. rewrite !(Z.mul_comm (2 ^ o)), <- !Z.shiftl_mul_pow2 by lia.
    by rewrite Z.shiftl_lxor. }
  rewrite lxor_1. destruct (Z.even q) eqn:E.
  - left. split; [lia|]. apply Z.even_spec in E as [r ->].
    replace (2 ^ o * (2 * r)) with (r * (2 * 2 ^ o)) by lia. apply Z.mod_mul. lia.
  - right. split; [lia|]. rewrite <- Z.negb_odd, negb_false_iff in E.
    apply Z.odd_spec in E as [r ->].
    replace (2 ^ o * (2 * r + 1) - 2 ^ o) with (r * (2 * 2 ^ o)) by lia.
    apply Z.mod_mul. lia.
Qed.

Lemma mod_pow2_S p o : 0 <= o -> p mod 2 ^ (o + 1) = 0 -> p mod 2 ^ o = 0.
Proof.
  intros Ho H. pose proof (pow2_pos o Ho).
  apply Z.mod_divide in H as [k ->]; [|rewrite pow2_S by done; lia].
  rewrite pow2_S by done. replace (k * (2 * 2 ^ o)) with (k * 2 * 2 ^ o) by lia.
  apply Z.mod_mul. lia.
Qed.

Lemma land_blk_mod p o : 0 <= o <= 11 -> Z.land p (u32 (blk o - 1)) = p mod 2 ^ o.
Proof.
  intros Ho. pose proof (pow2_order o Ho). rewrite blk_pow by lia.
  rewrite u32_small by (unfold in_u32; lia).
  by rewrite <- Z.land_ones, Z.ones_equiv by lia.
Qed.

(** The frames of a block. *)
Definition blk_in (p o i : Z) : Prop := p <= i < p + 2 ^ o.

#[global] Instance blk_in_dec p o i : Decision (blk_in p o i).
Proof. unfold blk_in. apply _. Defined.

(** Aligned blocks are nested or disjoint. *)
Lemma aligned_nested p o q k i : 0 <= o <= k ->
  p mod 2 ^ o = 0 -> q mod 2 ^ k = 0 -> blk_in p o i -> blk_in q k i ->
  q <= p /\ p + 2 ^ o <= q + 2 ^ k.
Proof.
  intros Ho Hp Hq Hi Hj. unfold blk_in in *.
  pose proof (pow2_pos o ltac:(lia)).
  apply Z.mod_divide in Hp as [a ->]; [|lia].
  apply Z.mod_divide in Hq as [b ->]; [|pose proof (pow2_pos k ltac:(lia)); lia].
  replace k with ((k - o) + o) in * by lia. rewrite Z.pow_add_r in * by lia.
  pose proof (pow2_pos (k - o) ltac:(lia)). set (c := 2 ^ (k - o)) in *.
  set (d := 2 ^ o) in *. clearbody c d. rewrite Z.mul_assoc in *.
  set (e := b * c) in *. clearbody e.
  assert (e < a + 1) by (apply (Z.mul_lt_mono_pos_r d); lia).
  assert (a < e + c) by (apply (Z.mul_lt_mono_pos_r d); lia).
  split; [nia|]. transitivity ((e + c) * d); [|lia].
  transitivity ((a + 1) * d); [lia|]. apply Z.mul_le_mono_nonneg_r; lia.
Qed.

(** ** The bitmap *)

Definition tst (fm : list Z) (p : Z) : option bool :=
  b ← rd fm (Z.shiftr p 3); Some (c_true (Z.land (Z.shiftr b (Z.land p 7)) 1)).

Lemma c_true_bit b k : 0 <= k -> c_true (Z.land (Z.shiftr b k) 1) = Z.testbit b k.
Proof.
  intros Hk. change 1 with (Z.ones 1). rewrite Z.land_ones by lia.
  change (2 ^ 1) with 2. pose proof (Z.testbit_spec' b k Hk) as Ht.
  rewrite Z.shiftr_div_pow2 by done. rewrite <- Ht. by destruct (Z.testbit b k).
Qed.

Lemma land_7_range p : 0 <= Z.land p 7 < 8.
Proof. change 7 with (Z.ones 3). rewrite Z.land_ones by lia. change (2 ^ 3) with 8. zlia. Qed.

Lemma bit_index p q : Z.shiftr p 3 = Z.shiftr q 3 -> Z.land p 7 = Z.land q 7 -> p = q.
Proof.
  change 7 with (Z.ones 3). rewrite !Z.land_ones, !Z.shiftr_div_pow2 by lia.
  change (2 ^ 3) with 8. zlia.
Qed.

(** Writing one bit of one byte. *)
Lemma tst_write fm p (b' : Z -> Z) (v : bool) tot : 0 <= p < tot ->
  Z.of_nat (length fm) = (tot + 7) / 8 ->
  (forall b j, 0 <= j < 8 ->
     Z.testbit (b' b) j = if decide (j = Z.land p 7) then v else Z.testbit b j) ->
  exists b fm', rd fm (Z.shiftr p 3) = Some b /\ wr fm (Z.shiftr p 3) (b' b) = Some fm' /\
    length fm' = length fm /\
    forall q, tst fm' q = if decide (q = p) then Some v else tst fm q.
Proof.
  intros Hp Hl Hb. assert (Z.shiftr p 3 = p / 8) as Hs by (by rewrite Z.shiftr_div_pow2 by lia).
  assert (0 <= Z.shiftr p 3 < Z.of_nat (length fm)) as Hr by (rewrite Hs, Hl; zlia).
  destruct (rd_is_Some fm _ Hr) as [b Eb]. exists b.
  destruct (wr fm (Z.shiftr p 3) (b' b)) as [fm'|] eqn:Ew; [|by rewrite wr_Some in Ew].
  exists fm'. split_and!; [done|done|by apply wr_length in Ew|].
  intros q. unfold tst. pose proof (land_7_range q). pose proof (land_7_range p).
  destruct (decide (Z.shiftr p 3 = Z.shiftr q 3)) as [E|E].
  - rewrite <- E, Eb, (rd_wr_eq _ _ _ _ Ew). simpl. rewrite !c_true_bit, Hb by lia.
    destruct (decide (q = p)) as [->|Hne]; [by rewrite decide_True|].
    rewrite decide_False; [done|]. intros E2. by apply Hne, bit_index.
  - rewrite (rd_wr_ne _ _ _ _ _ E Ew). rewrite decide_False; [done|congruence].
Qed.

Lemma u8_bits z j : 0 <= j < 8 -> Z.testbit (u8 z) j = Z.testbit z j.
Proof. intros H. unfold u8. change 256 with (2 ^ 8). apply Z.mod_pow2_bits_low. lia. Qed.

Lemma one_shl_bit k j : 0 <= k -> 0 <= j ->
  Z.testbit (Z.shiftl 1 k) j = bool_decide (j = k).
Proof.
  intros. rewrite Z.shiftl_1_l, Z.pow2_bits_eqb by done.
  destruct (Z.eqb_spec k j); case_bool_decide; congruence.
Qed.

Lemma set_bits p b j : 0 <= j < 8 ->
  Z.testbit (Z.lor b (u8 (Z.shiftl 1 (Z.land p 7)))) j =
  if decide (j = Z.land p 7) then true else Z.testbit b j.
Proof.
  intros Hj. pose proof (land_7_range p).
  rewrite Z.lor_spec, u8_bits, one_shl_bit by lia.
  destruct (decide (j = Z.land p 7)); case_bool_decide; try done; [apply orb_true_r|apply orb_false_r].
Qed.

Lemma clr_bits p b j : 0 <= j < 8 ->
  Z.testbit (Z.land b (u8 (Z.lnot (Z.shiftl 1 (Z.land p 7))))) j =
  if decide (j = Z.land p 7) then false else Z.testbit b j.
Proof.
  intros Hj. pose proof (land_7_range p).
  rewrite Z.land_spec, u8_bits, Z.lnot_spec, one_shl_bit by lia.
  destruct (decide (j = Z.land p 7)); case_bool_decide; try done; [apply andb_false_r|apply andb_true_r].
Qed.

(** ** Metadata and linked lists *)

(** Reference count, order and flags of a frame. *)
Definition dat (mt : list frame_meta_t) (i : Z) : option (Z * Z * Z) :=
  m ← rd mt i; Some (m_refcount m, m_order m, m_flags m).

Definition upd_meta (mt : list frame_meta_t) (p : Z) (m : frame_meta_t) : list frame_meta_t :=
  <[Z.to_nat p := m]> mt.

Lemma rd_upd mt p m i : 0 <= p < Z.of_nat (length mt) ->
  rd (upd_meta mt p m) i = if decide (i = p) then Some m else rd mt i.
Proof.
  intros Hp. pose proof (wr_Some mt p m Hp) as Hw. destruct (decide (i = p)) as [->|].
  - by apply rd_wr_eq in Hw.
  - by eapply rd_wr_ne in Hw.
Qed.

Lemma length_upd mt p m : length (upd_meta mt p m) = length mt.
Proof. apply length_insert. Qed.

Lemma dat_upd mt p m i : 0 <= p < Z.of_nat (length mt) ->
  dat (upd_meta mt p m) i =
  if decide (i = p) then Some (m_refcount m, m_order m, m_flags m) else dat mt i.
Proof. intros Hp. unfold dat. rewrite rd_upd by done. by destruct (decide (i = p)). Qed.

Lemma dat_range mt i d : dat mt i = Some d -> 0 <= i < Z.of_nat (length mt).
Proof. unfold dat. destruct (rd mt i) eqn:E; [|done]. intros _. by eapply rd_Some_range. Qed.

Lemma dat_Some mt i : 0 <= i < Z.of_nat (length mt) -> is_Some (dat mt i).
Proof. intros H. unfold dat. destruct (rd_is_Some mt i H) as [m ->]. by eexists. Qed.

Lemma dat_inv mt i r o f : dat mt i = Some (r, o, f) ->
  exists m, rd mt i = Some m /\ m_refcount m = r /\ m_order m = o /\ m_flags m = f.
Proof.
  unfold dat. destruct (rd mt i) as [m|]; [|done]. intros H. apply (inj Some) in H.
  exists m. by simplify_eq.
Qed.

(** The first node of a list, or the end marker. *)
Definition hdn (l : list Z) (c : Z) : Z := match l with [] => c | p :: _ => p end.
Definition lastn (l : list Z) (a : Z) : Z := default a (last l).

(** A doubly linked segment: [a] precedes it and [c] follows it. *)
Fixpoint dllseg (mt : list frame_meta_t) (a : Z) (l : list Z) (c : Z) : Prop :=
  match l with
  | [] => True
  | p :: l' =>
      (exists m, rd mt p = Some m /\ m_prev m = a /\ m_next m = hdn l' c) /\ dllseg mt p l' c
  end.

Lemma lastn_cons p l a : lastn (p :: l) a = lastn l p.
Proof. unfold lastn. rewrite last_cons. by destruct (last l). Qed.

Lemma dllseg_app mt a l1 l2 c :
  dllseg mt a (l1 ++ l2) c <-> dllseg mt a l1 (hdn l2 c) /\ dllseg mt (lastn l1 a) l2 c.
Proof.
  revert a. induction l1 as [|p l1 IH]; intros a; simpl.
  { unfold lastn. simpl. tauto. }
  rewrite IH, lastn_cons.
  replace (hdn (l1 ++ l2) c) with (hdn l1 (hdn l2 c)) by (by destruct l1). tauto.
Qed.

(** Only the nodes' own metadata matters. *)
Lemma dllseg_frame mt mt' a l c :
  (forall p, p ∈ l -> rd mt' p = rd mt p) -> dllseg mt a l c -> dllseg mt' a l c.
Proof.
  revert a. induction l as [|p l IH]; intros a H; simpl; [done|].
  intros [Hm Hl]. rewrite H by left. split; [done|]. apply IH; [|done].
  intros q Hq. apply H. by right.
Qed.

(** Relinking the last node of a segment. *)
Lemma dllseg_relink_last mt mt' a l p c c' :
  (forall q, q ∈ l -> rd mt' q = rd mt q) ->
  (exists m, rd mt p = Some m /\ rd mt' p = Some (m {{ m_next := c' }})) ->
  dllseg mt a (l ++ [p]) c -> dllseg mt' a (l ++ [p]) c'.
Proof.
  intros Hl (m & Em & Em'). rewrite !dllseg_app. simpl.
  intros [H1 ((m0 & E & Hp & Hn) & _)]. split; [by eapply dllseg_frame|].
  split; [|done]. rewrite E in Em. apply (inj Some) in Em as <-.
  exists (m0 {{ m_next := c' }}). by destruct m0.
Qed.

(** Relinking the first node. *)
Lemma dllseg_relink_first mt mt' a a' p l c :
  (forall q, q ∈ l -> rd mt' q = rd mt q) ->
  (exists m, rd mt p = Some m /\ rd mt' p = Some (m {{ m_prev := a' }})) ->
  dllseg mt a (p :: l) c -> dllseg mt' a' (p :: l) c.
Proof.
  intros Hl (m & Em & Em'). simpl. intros [(m0 & E & Hp & Hn) H].
  split; [|by eapply dllseg_frame]. rewrite E in Em. apply (inj Some) in Em as <-.
  exists (m0 {{ m_prev := a' }}). by destruct m0.
Qed.

Lemma NoDup_range_length (l : list Z) n : NoDup l -> (forall p, p ∈ l -> 0 <= p < n) ->
  Z.of_nat (length l) <= Z.max 0 n.
Proof.
  intros Hn Hr. assert (length l <= length (seqZ 0 n))%nat as H.
  { apply submseteq_length, NoDup_submseteq; [done|]. intros p Hp. apply elem_of_seqZ.
    specialize (Hr p Hp). lia. }
  rewrite length_seqZ in H. lia.
Qed.

(** ** The RAM ranges *)

(** Consecutive ranges of page-aligned physical memory that cover the frame
    numbers from [start] to [tot]. *)
Fixpoint range_chain (start : Z) (l : list pfa_range_t) (tot : Z) : Prop :=
  match l with
  | [] => start = tot
  | r :: l' =>
      r_start_pfn r = start /\ start < r_end_pfn r /\
      0 <= r_base r /\ r_base r mod 4096 = 0 /\ r_end r < 2 ^ 64 /\
      r_end r = r_base r + 4096 * (r_end_pfn r - start) /\
      range_chain (r_end_pfn r) l' tot
  end.

Lemma range_chain_le l start tot : range_chain start l tot -> start <= tot.
Proof. revert start. induction l; simpl; intros; [lia|]. destruct H as (? & ? & ? & ? & ? & ? & ?%IHl). lia. Qed.

Lemma range_chain_in l start tot r : range_chain start l tot -> r ∈ l ->
  start <= r_start_pfn r < r_end_pfn r /\ r_end_pfn r <= tot /\
  0 <= r_base r /\ r_base r mod 4096 = 0 /\ r_end r < 2 ^ 64 /\
  r_end r = r_base r + 4096 * (r_end_pfn r - r_start_pfn r).
Proof.
  revert start. induction l as [|x l IH]; simpl; intros start H Hr; [by apply elem_of_nil in Hr|].
  destruct H as (H1 & H2 & H3 & H4 & H5 & H6 & H7). apply elem_of_cons in Hr as [->|Hr].
  - pose proof (range_chain_le _ _ _ H7). subst start. lia.
  - destruct (IH _ H7 Hr) as ([? ?] & ? & ?). lia.
Qed.

Lemma range_chain_find l start tot p : range_chain start l tot -> start <= p < tot ->
  exists i r, l !! i = Some r /\ r_start_pfn r <= p < r_end_pfn r.
Proof.
  revert start. induction l as [|x l IH]; simpl; intros start H Hp; [lia|].
  destruct H as (H1 & H2 & _ & _ & _ & _ & H7).
  destruct (decide (p < r_end_pfn x)).
  - exists 0%nat, x. split; [done|]. lia.
  - destruct (IH _ H7 ltac:(lia)) as (i & r & ? & ?). by exists (S i), r.
Qed.

Lemma range_chain_uniq l start tot r r' p : range_chain start l tot -> r ∈ l -> r' ∈ l ->
  r_start_pfn r <= p < r_end_pfn r -> r_start_pfn r' <= p < r_end_pfn r' -> r = r'.
Proof.
  revert start. induction l as [|x l IH]; simpl; intros start H Hr Hr' Hp Hp'; [by apply elem_of_nil in Hr|].
  destruct H as (H1 & H2 & _ & _ & _ & _ & H7).
  apply elem_of_cons in Hr as [->|Hr]; apply elem_of_cons in Hr' as [->|Hr']; [done| | |by eapply IH].
  - pose proof (range_chain_in _ _ _ _ H7 Hr'). lia.
  - pose proof (range_chain_in _ _ _ _ H7 Hr). lia.
Qed.

Record geo (tot nr : Z) (rs : list pfa_range_t) : Prop := {
  geo_tot : 0 <= tot <= PFN_NONE;
  geo_nr : 0 <= nr <= Z.of_nat (length rs);
  geo_chain : range_chain 0 (take (Z.to_nat nr) rs) tot;
}.

(** ** Lists of blocks per order *)

Definition owned (L : Z -> list Z) (i : Z) : Prop := exists o p, p ∈ L o /\ blk_in p o i.

Definition updL (L : Z -> list Z) (o : Z) (l : list Z) : Z -> list Z :=
  fun o' => if decide (o' = o) then l else L o'.

Lemma updL_eq L o l : updL L o l o = l.
Proof. unfold updL. by rewrite decide_True. Qed.

Lemma updL_ne L o l o' : o' <> o -> updL L o l o' = L o'.
Proof. intros. unfold updL. by rewrite decide_False. Qed.

Lemma elem_push L o p o' q : q ∈ updL L o (p :: L o) o' <-> (q = p /\ o' = o) \/ q ∈ L o'.
Proof.
  destruct (decide (o' = o)) as [->|]; [rewrite updL_eq|rewrite updL_ne by done].
  - rewrite elem_of_cons. tauto.
  - tauto.
Qed.

Lemma owned_push L o p i : owned (updL L o (p :: L o)) i <-> blk_in p o i \/ owned L i.
Proof.
  unfold owned. split.
  - intros (o' & q & Hq & Hi). apply elem_push in Hq as [[-> ->]|Hq]; [by left|right; eauto].
  - intros [Hi|(o' & q & Hq & Hi)].
    + exists o, p. rewrite elem_push. auto.
    + exists o', q. rewrite elem_push. auto.
Qed.

(** ** The invariant of the lists *)

Section Lists.
(** What never changes after boot. *)
Context (tot nr dme : Z) (rs : list pfa_range_t).
Context (Hgeo : geo tot nr rs).

Definition St (mt : list frame_meta_t) (ff : Z) (fls : list free_list_t) (fm : list Z) : pfa_t :=
  {| meta := mt; total_frames := tot; free_frames := ff; nr_ranges := nr; ranges := rs;
     free_lists := fls; g_pfa_freemap := Some fm; g_pfa_direct_map_end := dme |}.

Definition in_rng (r : pfa_range_t) (p : Z) : Prop := r_start_pfn r <= p < r_end_pfn r.
Definition the_ranges : list pfa_range_t := take (Z.to_nat nr) rs.

(** An aligned block inside one range. *)
Definition block (p o : Z) : Prop :=
  0 <= o <= 11 /\ p mod 2 ^ o = 0 /\
  exists r, r ∈ the_ranges /\ r_start_pfn r <= p /\ p + 2 ^ o <= r_end_pfn r.

Record core (mt : list frame_meta_t) (fls : list free_list_t) (fm : list Z)
    (L : Z -> list Z) : Prop := {
  k_len : Z.of_nat (length mt) = tot;
  k_fmlen : Z.of_nat (length fm) = (tot + 7) / 8;
  k_flen : Z.of_nat (length fls) = 12;
  k_lists : forall o, 0 <= o <= 11 ->
    rd fls o = Some {| fl_head := hdn (L o) PFN_NONE; fl_count := Z.of_nat (length (L o)) |};
  k_links : forall o, dllseg mt PFN_NONE (L o) PFN_NONE;
  k_head : forall o p, p ∈ L o -> block p o /\ dat mt p = Some (0, o, FRAME_F_FREE);
  k_clean : forall o p i, p ∈ L o -> blk_in p o i ->
    exists od, dat mt i = Some (0, od, FRAME_F_FREE);
  k_bits : forall p, 0 <= p < tot -> exists b, tst fm p = Some b /\
    (b = true <-> exists o, p ∈ L o);
  k_disj : forall o p o' p' i, p ∈ L o -> p' ∈ L o' -> blk_in p o i -> blk_in p' o' i ->
    o = o' /\ p = p';
  k_nodup : forall o, NoDup (L o);
}.

(** *** Ranges *)

Lemma range_for_spec mt ff fls fm p : exists r,
  pfa_range_for_pfn (St mt ff fls fm) p = Some r /\
  match r with
  | Some r => r ∈ the_ranges /\ in_rng r p
  | None => ~ (0 <= p < tot)
  end.
Proof.
  destruct Hgeo as [_ Hnr Hch]. unfold pfa_range_for_pfn, St. simpl.
  assert (forall j, 0 <= j < nr -> exists r, rd rs j = Some r /\
            the_ranges !! Z.to_nat j = Some r) as Hrd.
  { intros j Hj. destruct (rd_is_Some rs j ltac:(lia)) as [r Er]. exists r.
    split; [done|]. unfold the_ranges. rewrite lookup_take_lt by lia.
    unfold rd in Er. by rewrite (proj2 (Z.leb_le 0 j)) in Er by lia. }
  match goal with |- context [for_return 0 nr ?b] => set (body := b) end.
  destruct (for_return 0 nr body) as [[r|]|] eqn:E.
  - exists (Some r). split; [done|]. apply for_return_Some in E as (j & Hj & Eb & _).
    destruct (Hrd j Hj) as (r' & Er & El). unfold body in Eb. rewrite Er in Eb. simpl in Eb.
    destruct ((_ <=? _) && _) eqn:Ec in Eb; [|done]. apply (inj Some), (inj Some) in Eb as <-.
    reflect. split; [by eapply list_elem_of_lookup_2|]. unfold in_rng. lia.
  - exists None. split; [done|]. intros Hp.
    destruct (range_chain_find _ _ _ _ Hch Hp) as (i & r & Hi & Hr).
    pose proof (lookup_lt_Some _ _ _ Hi) as Hlt. rewrite length_take in Hlt.
    pose proof (proj1 (for_return_None _ _ _) E (Z.of_nat i) ltac:(lia)) as Eb.
    unfold body in Eb. rewrite rd_nat in Eb. rewrite lookup_take_lt in Hi by lia.
    rewrite Hi in Eb. simpl in Eb.
    by rewrite (proj2 (Z.leb_le _ _)), (proj2 (Z.ltb_lt _ _)) in Eb by lia.
  - exfalso. revert E. apply for_return_total. intros j Hj. unfold body.
    destruct (Hrd j Hj) as (r & -> & _). done.
Qed.

Lemma pfn_valid_spec mt ff fls fm p :
  pfn_valid (St mt ff fls fm) p = Some (bool_decide (0 <= p < tot)).
Proof.
  unfold pfn_valid. destruct (range_for_spec mt ff fls fm p) as ([r|] & -> & H); simpl; f_equal.
  - destruct H as [Hr Hp]. symmetry. apply bool_decide_eq_true. unfold in_rng in Hp.
    pose proof (range_chain_in _ _ _ _ (geo_chain _ _ _ Hgeo) Hr). lia.
  - symmetry. by apply bool_decide_eq_false.
Qed.

Lemma range_for_in mt ff fls fm p r : r ∈ the_ranges -> in_rng r p ->
  pfa_range_for_pfn (St mt ff fls fm) p = Some (Some r).
Proof.
  intros Hr Hp. pose proof (range_chain_in _ _ _ _ (geo_chain _ _ _ Hgeo) Hr) as Hin.
  unfold in_rng in *.
  destruct (range_for_spec mt ff fls fm p) as ([r'|] & -> & H); [|lia].
  do 2 f_equal. destruct H. by eapply range_chain_uniq; [exact (geo_chain _ _ _ Hgeo)|..].
Qed.

Lemma block_range p o : block p o -> 0 <= p /\ 1 <= 2 ^ o <= 2048 /\ p + 2 ^ o <= tot.
Proof.
  intros (Ho & _ & r & Hr & ? & ?). pose proof (pow2_order o Ho).
  pose proof (range_chain_in _ _ _ _ (geo_chain _ _ _ Hgeo) Hr). lia.
Qed.

(** *** Accesses of an allocator state *)

Lemma put_meta_St mt ff fls fm p m : 0 <= p < Z.of_nat (length mt) ->
  put_meta (St mt ff fls fm) p m = Some (St (upd_meta mt p m) ff fls fm).
Proof. intros H. unfold put_meta, St. simpl. by rewrite wr_Some. Qed.

Lemma test_St mt ff fls fm p : PFA_FREEMAP_TEST (St mt ff fls fm) p = tst fm p.
Proof. done. Qed.

Lemma set_St mt ff fls fm p : 0 <= p < tot -> Z.of_nat (length fm) = (tot + 7) / 8 ->
  exists fm', PFA_FREEMAP_SET (St mt ff fls fm) p = Some (St mt ff fls fm') /\
    length fm' = length fm /\
    forall q, tst fm' q = if decide (q = p) then Some true else tst fm q.
Proof.
  intros Hp Hl.
  destruct (tst_write fm p (fun b => Z.lor b (u8 (Z.shiftl 1 (Z.land p 7)))) true tot)
    as (b & fm' & Eb & Ew & Hl' & Ht); [done|done|intros; by apply set_bits|].
  exists fm'. unfold PFA_FREEMAP_SET, St. simpl. rewrite Eb. simpl. by rewrite Ew.
Qed.

Lemma clr_St mt ff fls fm p : 0 <= p < tot -> Z.of_nat (length fm) = (tot + 7) / 8 ->
  exists fm', PFA_FREEMAP_CLR (St mt ff fls fm) p = Some (St mt ff fls fm') /\
    length fm' = length fm /\
    forall q, tst fm' q = if decide (q = p) then Some false else tst fm q.
Proof.
  intros Hp Hl.
  destruct (tst_write fm p (fun b => Z.land b (u8 (Z.lnot (Z.shiftl 1 (Z.land p 7))))) false tot)
    as (b & fm' & Eb & Ew & Hl' & Ht); [done|done|intros; by apply clr_bits|].
  exists fm'. unfold PFA_FREEMAP_CLR, St. simpl. rewrite Eb. simpl. by rewrite Ew.
Qed.

(** *** Consequences *)

Section Core.
Context (mt : list frame_meta_t) (fls : list free_list_t) (fm : list Z) (L : Z -> list Z).
Context (K : core mt fls fm L).

Lemma head_range o p : p ∈ L o -> 0 <= p < tot /\ 0 <= o <= 11 /\ blk_in p o p /\ block p o.
Proof.
  intros Hp. destruct (k_head _ _ _ _ K o p Hp) as [Hb _].
  pose proof (block_range _ _ Hb). unfold blk_in. destruct Hb as [? Hb']. split_and!; try lia; done.
Qed.

Lemma head_owned o p : p ∈ L o -> owned L p.
Proof. intros Hp. exists o, p. split; [done|]. by apply head_range. Qed.

Lemma head_unique o o' p : p ∈ L o -> p ∈ L o' -> o = o'.
Proof.
  intros H H'. destruct (head_range o p H) as (_ & _ & B & _).
  destruct (head_range o' p H') as (_ & _ & B' & _).
  by destruct (k_disj _ _ _ _ K o p o' p p H H' B B').
Qed.

Lemma hdn_not_none o : hdn (L o) PFN_NONE = PFN_NONE <-> L o = [].
Proof.
  destruct (L o) as [|p l] eqn:E; [done|]. simpl. split; [|done]. intros ->.
  assert (PFN_NONE ∈ L o) as H by (rewrite E; left).
  pose proof (head_range _ _ H). destruct Hgeo as [? _ _]. lia.
Qed.

Lemma list_length o : Z.of_nat (length (L o)) <= tot.
Proof.
  destruct Hgeo as [? _ _]. etransitivity.
  - apply (NoDup_range_length (L o) tot); [by eapply k_nodup|]. intros p Hp.
    by apply head_range in Hp as [? _].
  - lia.
Qed.

Lemma owned_range i : owned L i -> 0 <= i < tot.
Proof.
  intros (o & p & Hp & Hi). destruct (head_range o p Hp) as (_ & _ & _ & Hb).
  pose proof (block_range _ _ Hb). unfold blk_in in Hi. lia.
Qed.

Lemma owned_dat i : owned L i -> exists od, dat mt i = Some (0, od, FRAME_F_FREE).
Proof. intros (o & p & Hp & Hi). by eapply k_clean. Qed.

Lemma unowned_bit p : 0 <= p < tot -> (forall o, p ∉ L o) -> tst fm p = Some false.
Proof.
  intros Hp Hno. destruct (k_bits _ _ _ _ K p Hp) as ([] & -> & Hb); [|done].
  destruct (proj1 Hb eq_refl) as [o Ho]. by destruct (Hno o).
Qed.

Lemma owned_bit o p : p ∈ L o -> tst fm p = Some true.
Proof.
  intros Hp. destruct (head_range o p Hp) as (Hr & _).
  destruct (k_bits _ _ _ _ K p Hr) as (b & -> & Hb). f_equal. apply Hb. by exists o.
Qed.

(** A frame outside the free blocks may change freely. *)
Lemma core_upd i m : 0 <= i < tot -> ~ owned L i -> core (upd_meta mt i m) fls fm L.
Proof.
  intros Hi Hno. destruct K as [Kl Kf Kfl Kls Kk Kh Kc Kb Kd Kn].
  assert (forall j, owned L j -> dat (upd_meta mt i m) j = dat mt j) as Hd.
  { intros j Hj. rewrite dat_upd by lia. destruct (decide (j = i)) as [->|]; done. }
  constructor; try done.
  - by rewrite length_upd.
  - intros o. eapply dllseg_frame; [|apply Kk]. intros p Hp.
    rewrite rd_upd by lia. destruct (decide (p = i)) as [->|]; [|done].
    destruct Hno. by eapply head_owned.
  - intros o p Hp. rewrite Hd by (by eapply head_owned). by apply Kh.
  - intros o p j Hp Hj. rewrite Hd by (by exists o, p). by eapply Kc.
Qed.
End Core.

(** *** Pushing a block *)

(** What a push needs of the block. *)
Record pushable (mt : list frame_meta_t) (L : Z -> list Z) (p o : Z) : Prop := {
  pu_block : block p o;
  pu_out : forall i, blk_in p o i -> ~ owned L i;
  pu_clean : forall i, blk_in p o i -> i <> p -> exists od, dat mt i = Some (0, od, FRAME_F_FREE);
}.

(** The metadata after the push: a linked head, the old head linked back. *)
Definition pushed_meta (mt mt' : list frame_meta_t) (l : list Z) (p o : Z) : Prop :=
  length mt' = length mt /\
  (forall i, dat mt' i = if decide (i = p) then Some (0, o, FRAME_F_FREE) else dat mt i) /\
  (exists m, rd mt' p = Some m /\ m_prev m = PFN_NONE /\ m_next m = hdn l PFN_NONE) /\
  (forall h l', l = h :: l' ->
     exists m, rd mt h = Some m /\ rd mt' h = Some (m {{ m_prev := p }})) /\
  (forall q, q <> p -> q ∉ (take 1 l) -> rd mt' q = rd mt q).

Lemma core_push mt fls fm L p o mt' fls' fm' : core mt fls fm L -> pushable mt L p o ->
  pushed_meta mt mt' (L o) p o -> length fls' = length fls ->
  (forall o', rd fls' o' = if decide (o' = o)
     then Some {| fl_head := p; fl_count := Z.of_nat (length (L o)) + 1 |} else rd fls o') ->
  length fm' = length fm ->
  (forall q, tst fm' q = if decide (q = p) then Some true else tst fm q) ->
  core mt' fls' fm' (updL L o (p :: L o)).
Proof.
  intros K [Hb Hout Hcl] (Hlen & Hdat & Hp & Hh & Hoth) Hfl Hfls Hfml Hfm.
  pose proof (block_range _ _ Hb) as Hbr.
  assert (blk_in p o p) as Hpp by (unfold blk_in; lia).
  assert (~ owned L p) as Hpo by (by apply Hout).
  assert (forall o', p ∉ L o') as Hpl by (intros o' H; by eapply Hpo, head_owned).
  assert (forall j, owned L j -> dat mt' j = dat mt j) as Hd.
  { intros j Hj. rewrite Hdat. destruct (decide (j = p)) as [->|]; done. }
  assert (forall o', o' <> o -> dllseg mt' PFN_NONE (L o') PFN_NONE) as Hk.
  { intros o' Ho'. eapply dllseg_frame; [|apply (k_links _ _ _ _ K)]. intros q Hq. apply Hoth.
    - intros ->. by apply (Hpl o').
    - intros Hq'. apply Ho'. eapply (head_unique _ _ _ _ K); [exact Hq|].
      destruct (L o); [by apply elem_of_nil in Hq'|]. simpl in Hq'.
      apply list_elem_of_singleton in Hq' as ->. left. }
  constructor.
  - rewrite Hlen. apply K.
  - rewrite Hfml. apply K.
  - rewrite Hfl. apply K.
  - intros o' Ho'. rewrite Hfls. destruct (decide (o' = o)) as [->|].
    + rewrite updL_eq. simpl. do 2 f_equal. lia.
    + rewrite updL_ne by done. by apply K.
  - intros o'. destruct (decide (o' = o)) as [->|]; [rewrite updL_eq|rewrite updL_ne by done; auto].
    simpl. split; [done|]. destruct (L o) as [|h l] eqn:El; [done|].
    eapply dllseg_relink_first; [| |rewrite <- El; apply (k_links _ _ _ _ K)].
    + intros q Hq. assert (q ∈ L o) by (rewrite El; by right). apply Hoth; [intros ->; by apply (Hpl o)|].
      simpl. rewrite list_elem_of_singleton. intros ->. pose proof (k_nodup _ _ _ _ K o) as Hn.
      rewrite El in Hn. by apply NoDup_cons in Hn as [? _].
    + by eapply Hh.
  - intros o' q Hq. apply elem_push in Hq as [[-> ->]|Hq].
    + split; [done|]. by rewrite Hdat, decide_True.
    + rewrite Hd by (by eapply head_owned). by apply K.
  - intros o' q i Hq Hi. apply elem_push in Hq as [[-> ->]|Hq].
    + rewrite Hdat. destruct (decide (i = p)) as [->|]; [eauto|by apply Hcl].
    + rewrite Hd by (by exists o', q). by eapply K.
  - intros q Hq. rewrite Hfm. destruct (decide (q = p)) as [->|].
    + exists true. split; [done|]. split; [|done]. intros _. exists o. rewrite elem_push. auto.
    + destruct (k_bits _ _ _ _ K q Hq) as (b & Eb & Hbit). exists b. split; [done|]. rewrite Hbit.
      split; intros [o' H]; exists o'; [rewrite elem_push; auto|].
      apply elem_push in H as [[-> _]|H]; done.
  - intros o1 p1 o2 p2 i H1 H2 I1 I2.
    apply elem_push in H1 as [[-> ->]|H1]; apply elem_push in H2 as [[-> ->]|H2]; [done| | |].
    + destruct (Hout i I1). by exists o2, p2.
    + destruct (Hout i I2). by exists o1, p1.
    + by eapply K.
  - intros o'. destruct (decide (o' = o)) as [->|]; [rewrite updL_eq|rewrite updL_ne by done; apply K].
    constructor; [apply Hpl|apply K].
Qed.

(** Linking the new head in front of the old one. *)
Lemma push_links mt mt2 ff fls fm L p o m2 : core mt fls fm L -> ~ owned L p ->
  Z.of_nat (length mt2) = tot ->
  (forall i, rd mt2 i = if decide (i = p) then Some m2 else rd mt i) ->
  0 <= p < tot -> m_refcount m2 = 0 -> m_order m2 = o -> m_flags m2 = FRAME_F_FREE ->
  m_prev m2 = PFN_NONE -> m_next m2 = hdn (L o) PFN_NONE ->
  exists mt3, (if negb (hdn (L o) PFN_NONE =? PFN_NONE)
               then n ← rd mt2 (hdn (L o) PFN_NONE);
                    put_meta (St mt2 ff fls fm) (hdn (L o) PFN_NONE) (n {{ m_prev := p }})
               else Some (St mt2 ff fls fm)) = Some (St mt3 ff fls fm) /\
    pushed_meta mt mt3 (L o) p o.
Proof.
  intros K Hpo Hl2 Hr2 Hp ? ? ? ? ?. pose proof (k_len _ _ _ _ K) as Hlen.
  destruct (L o) as [|h l] eqn:El; simpl.
  - exists mt2. split; [done|]. split_and!.
    + lia.
    + intros i. unfold dat. rewrite Hr2. destruct (decide (i = p)); simpl; congruence.
    + exists m2. by rewrite Hr2, decide_True.
    + done.
    + intros q Hq _. by rewrite Hr2, decide_False.
  - assert (h ∈ L o) as Hh by (rewrite El; left).
    destruct (head_range _ _ _ _ K _ _ Hh) as (Hhr & _).
    assert (h <> p) as Hhp by (intros ->; by eapply Hpo, head_owned).
    rewrite (proj2 (Z.eqb_neq _ _)) by (destruct Hgeo as [? _ _]; lia). simpl.
    destruct (rd_is_Some mt h ltac:(lia)) as [mh Eh].
    rewrite Hr2, decide_False, Eh by done. simpl. rewrite put_meta_St by lia.
    eexists. split; [done|]. split_and!.
    + rewrite length_upd. lia.
    + intros i. rewrite dat_upd by lia. destruct (decide (i = h)) as [->|].
      * rewrite decide_False by done. unfold dat. rewrite Eh. by destruct mh.
      * unfold dat. rewrite Hr2. destruct (decide (i = p)); simpl; congruence.
    + exists m2. rewrite rd_upd, decide_False, Hr2, decide_True by (done || lia). done.
    + intros h' l' [= <- <-]. exists mh. split; [done|]. by rewrite rd_upd, decide_True by (done || lia).
    + intros q Hq Hn. simpl in Hn. rewrite list_elem_of_singleton in Hn.
      by rewrite rd_upd, decide_False, Hr2, decide_False by (done || lia).
Qed.

(** The two steps of every push: the head's metadata, then the list. *)
Lemma push_spec mt ff fls fm L p o : core mt fls fm L -> pushable mt L p o ->
  exists mt' fls' fm',
    (s ← put_meta (St mt ff fls fm) p (meta_free o); fl_push s p o) = Some (St mt' ff fls' fm') /\
    core mt' fls' fm' (updL L o (p :: L o)) /\
    (forall i, dat mt' i = if decide (i = p) then Some (0, o, FRAME_F_FREE) else dat mt i) /\
    (forall i, ~ owned (updL L o (p :: L o)) i -> rd mt' i = rd mt i).
Proof.
  intros K P. pose proof P as [Hb Hout Hcl]. pose proof (block_range _ _ Hb) as Hbr.
  pose proof (k_len _ _ _ _ K) as Hlen. pose proof (k_flen _ _ _ _ K) as Hflen.
  assert (0 <= o <= 11) as Ho by apply Hb.
  assert (~ owned L p) as Hpo by (apply Hout; unfold blk_in; lia).
  assert (u8 o = o) as Hu by (apply u8_small; unfold in_u8; lia).
  rewrite put_meta_St by lia. set (mt1 := upd_meta mt p (meta_free o)). bnd.
  assert (Z.of_nat (length mt1) = tot) as Hl1 by (unfold mt1; by rewrite length_upd).
  assert (forall i, rd mt1 i = if decide (i = p) then Some (meta_free o) else rd mt i) as Hr1
    by (intros; apply rd_upd; lia).
  unfold fl_push. change (meta (St mt1 ff fls fm)) with mt1.
  rewrite Hr1, decide_True by done. bnd.
  change (m_prev (meta_free o)) with PFN_NONE. change (m_next (meta_free o)) with PFN_NONE.
  rewrite Z.eqb_refl. cbn [negb orb].
  rewrite test_St, (unowned_bit _ _ _ _ K) by (try lia; intros o' H; by eapply Hpo, head_owned).
  bnd. change (free_lists (St mt1 ff fls fm)) with fls.
  rewrite (k_lists _ _ _ _ K o Ho). cbn [mbind option_bind fl_head fl_count].
  rewrite put_meta_St by lia.
  match goal with |- context [upd_meta mt1 p ?m] => set (m2 := m); set (mt2 := upd_meta mt1 p m2) end.
  assert (Z.of_nat (length mt2) = tot) as Hl2 by (unfold mt2; by rewrite length_upd).
  assert (forall i, rd mt2 i = if decide (i = p) then Some m2 else rd mt i) as Hr2.
  { intros i. unfold mt2. rewrite rd_upd, Hr1 by lia. by destruct (decide (i = p)). }
  assert (m_refcount m2 = 0 /\ m_order m2 = o /\ m_flags m2 = FRAME_F_FREE /\
          m_prev m2 = PFN_NONE /\ m_next m2 = hdn (L o) PFN_NONE) as (? & ? & ? & ? & ?).
  { unfold m2. simpl. by rewrite Hu. }
  clearbody m2. bnd. change (meta (St mt2 ff fls fm)) with mt2.
  destruct (push_links mt mt2 ff fls fm L p o m2) as (mt3 & E3 & HP3); try done; [lia|].
  rewrite E3. bnd. change (free_lists (St mt3 ff fls fm)) with fls.
  assert (u64 (Z.of_nat (length (L o)) + 1) = Z.of_nat (length (L o)) + 1) as ->.
  { apply u64_small. pose proof (list_length _ _ _ _ K o). destruct Hgeo as [Hg _ _].
    unfold PFN_NONE in Hg. unfold in_u64. lia. }
  rewrite wr_Some by lia. bnd.
  match goal with |- context [<[Z.to_nat o := ?x]> fls] => set (fls' := <[Z.to_nat o := x]> fls) end.
  destruct (set_St mt3 ff fls' fm p) as (fm' & Es & Hfl & Hft); [lia|apply K|].
  exists mt3, fls', fm'. split; [exact Es|]. split; [|split; [by apply HP3|]].
  2:{ intros i Hi. rewrite owned_push in Hi. apply HP3.
      - intros ->. apply Hi. left. unfold blk_in. lia.
      - intros Ht. apply Hi. right. apply (head_owned _ _ _ _ K o).
        destruct (L o); [by apply elem_of_nil in Ht|]. by apply list_elem_of_singleton in Ht as ->; left. }
  eapply core_push; [done|done|done| | |done|done].
  - apply length_insert.
  - intros o'. pose proof (wr_Some fls o {| fl_head := p; fl_count := Z.of_nat (length (L o)) + 1 |} ltac:(lia)) as Hw.
    destruct (decide (o' = o)) as [->|]; [by eapply rd_wr_eq|by eapply rd_wr_ne].
Qed.

(** *** Removing a block *)

Definition removed_meta (mt mt' : list frame_meta_t) (l1 : list Z) (p : Z) (l2 : list Z) : Prop :=
  length mt' = length mt /\
  (forall i, dat mt' i = dat mt i) /\
  (forall l q, l1 = l ++ [q] ->
     exists m, rd mt q = Some m /\ rd mt' q = Some (m {{ m_next := hdn l2 PFN_NONE }})) /\
  (forall r l, l2 = r :: l ->
     exists m, rd mt r = Some m /\ rd mt' r = Some (m {{ m_prev := lastn l1 PFN_NONE }})) /\
  (forall x, x <> p -> last l1 <> Some x -> head l2 <> Some x -> rd mt' x = rd mt x).

Lemma elem_remove L o l1 p l2 o' q : L o = l1 ++ p :: l2 -> NoDup (L o) ->
  q ∈ updL L o (l1 ++ l2) o' <-> q ∈ L o' /\ ~ (o' = o /\ q = p).
Proof.
  intros E Hn. destruct (decide (o' = o)) as [->|]; [rewrite updL_eq|rewrite updL_ne by done; tauto].
  rewrite E in *. apply NoDup_app in Hn as (_ & H1 & H2). apply NoDup_cons in H2 as [H2 _].
  rewrite !elem_of_app, elem_of_cons. split.
  - intros [H|H]; split; try tauto; intros [_ ->]; [|done]. apply (H1 p H). left.
  - intros [[H|[->|H]] H']; tauto.
Qed.

(** The links around the removed node. *)
Lemma dllseg_remove mt mt' l1 p l2 : NoDup (l1 ++ p :: l2) -> removed_meta mt mt' l1 p l2 ->
  dllseg mt PFN_NONE (l1 ++ p :: l2) PFN_NONE -> dllseg mt' PFN_NONE (l1 ++ l2) PFN_NONE.
Proof.
  intros Hn (_ & _ & Hq & Hr & Ho) H.
  apply NoDup_app in Hn as (Hn1 & H12 & Hn2). apply NoDup_cons in Hn2 as [Hp2 Hn2].
  assert (p ∉ l1) as Hp1 by (intros Hp; apply (H12 p Hp); left).
  assert (forall x, x ∈ l1 -> x ∉ l2) as H12' by (intros x Hx Hx2; apply (H12 x Hx); by right).
  apply dllseg_app in H as [Ha Hb]. simpl in Ha. destruct Hb as [_ Hb].
  apply dllseg_app. split.
  - destruct l1 as [|q l _] using rev_ind; [done|].
    eapply dllseg_relink_last; [|by eapply Hq|exact Ha].
    apply NoDup_app in Hn1 as (_ & Hlq & _). intros x Hx. apply Ho.
    + intros ->. apply Hp1. apply elem_of_app. by left.
    + rewrite last_snoc. intros [= ->]. by apply (Hlq x Hx), list_elem_of_singleton.
    + intros Hh. apply (H12' x); [apply elem_of_app; by left|]. by apply head_Some_elem_of.
  - destruct l2 as [|r l]; [done|].
    eapply dllseg_relink_first; [|by eapply Hr|exact Hb].
    apply NoDup_cons in Hn2 as [Hrl _]. intros x Hx. apply Ho.
    + intros ->. apply Hp2. by right.
    + intros Hl. apply (H12' x); [by apply last_Some_elem_of|by right].
    + intros [= ->]. done.
Qed.

Lemma core_remove mt fls fm L o l1 p l2 mt' fls' fm' : core mt fls fm L ->
  L o = l1 ++ p :: l2 -> removed_meta mt mt' l1 p l2 -> length fls' = length fls ->
  (forall o', rd fls' o' = if decide (o' = o)
     then Some {| fl_head := hdn (l1 ++ l2) PFN_NONE;
                  fl_count := Z.of_nat (length (l1 ++ l2)) |} else rd fls o') ->
  length fm' = length fm ->
  (forall q, tst fm' q = if decide (q = p) then Some false else tst fm q) ->
  core mt' fls' fm' (updL L o (l1 ++ l2)).
Proof.
  intros K E Hrm Hfl Hfls Hfml Hfm. pose proof Hrm as (Hlen & Hdat & Hq & Hr & Hoth).
  pose proof (k_nodup _ _ _ _ K o) as Hn.
  assert (forall o' q, q ∈ updL L o (l1 ++ l2) o' <-> q ∈ L o' /\ ~ (o' = o /\ q = p)) as Hel
    by (intros; by apply elem_remove).
  assert (p ∈ L o) as HpL by (rewrite E, elem_of_app; right; left).
  constructor.
  - rewrite Hlen. apply K.
  - rewrite Hfml. apply K.
  - rewrite Hfl. apply K.
  - intros o' Ho'. rewrite Hfls. destruct (decide (o' = o)) as [->|].
    + by rewrite updL_eq.
    + rewrite updL_ne by done. by apply K.
  - intros o'. destruct (decide (o' = o)) as [->|]; [rewrite updL_eq|rewrite updL_ne by done].
    + rewrite E in Hn. eapply dllseg_remove; [done|done|]. rewrite <- E. apply K.
    + eapply dllseg_frame; [|apply (k_links _ _ _ _ K)]. intros q Hq'.
      assert (q ∉ L o) as Hno by (intros Hq2; by pose proof (head_unique _ _ _ _ K _ _ _ Hq' Hq2)).
      rewrite E, elem_of_app, elem_of_cons in Hno. apply Hoth.
      * intros ->. tauto.
      * intros Hl. apply Hno. left. by apply last_Some_elem_of.
      * intros Hh. apply Hno. do 2 right. by apply head_Some_elem_of.
  - intros o' q [Hq' _]%Hel. rewrite Hdat. by apply K.
  - intros o' q i [Hq' _]%Hel Hi. rewrite Hdat. by eapply K.
  - intros q Hq'. rewrite Hfm. destruct (decide (q = p)) as [->|].
    + exists false. split; [done|]. split; [done|]. intros [o' H]. apply Hel in H as [H H'].
      destruct H'. split; [|done]. by eapply (head_unique _ _ _ _ K).
    + destruct (k_bits _ _ _ _ K q Hq') as (b & Eb & Hbit). exists b. split; [done|].
      rewrite Hbit. split; intros [o' H]; exists o'.
      * apply Hel. split; [done|]. intros [_ ?]. done.
      * by apply Hel in H as [? _].
  - intros o1 p1 o2 p2 i [H1 _]%Hel [H2 _]%Hel. by eapply K.
  - intros o'. destruct (decide (o' = o)) as [->|]; [rewrite updL_eq|rewrite updL_ne by done; apply K].
    rewrite E in Hn. apply NoDup_app in Hn as (? & H1 & H2). apply NoDup_cons in H2 as [? ?].
    apply NoDup_app. split_and!; try done. intros x Hx Hx2. apply (H1 x Hx). by right.
Qed.

Lemma link_ok_St mt ff fls fm q o : 0 <= o <= 11 -> Z.of_nat (length mt) = tot ->
  dat mt q = Some (0, o, FRAME_F_FREE) -> link_ok (St mt ff fls fm) q o = Some true.
Proof.
  intros Ho Hl Hd. pose proof (dat_range _ _ _ Hd). apply dat_inv in Hd as (m & Em & _ & H1 & H2).
  unfold link_ok. rewrite pfn_valid_spec, bool_decide_eq_true_2 by lia. bnd.
  change (meta (St mt ff fls fm)) with mt. rewrite Em. bnd.
  rewrite H1, H2, u8_small by (unfold in_u8; lia). by rewrite !Z.eqb_refl.
Qed.

(** A change of the links of one node. *)
Lemma relink_St mt ff fls fm q (f : frame_meta_t -> frame_meta_t) m :
  Z.of_nat (length mt) = tot -> rd mt q = Some m ->
  m_refcount (f m) = m_refcount m -> m_order (f m) = m_order m -> m_flags (f m) = m_flags m ->
  (x ← rd (meta (St mt ff fls fm)) q; put_meta (St mt ff fls fm) q (f x))
    = Some (St (upd_meta mt q (f m)) ff fls fm) /\
  length (upd_meta mt q (f m)) = length mt /\
  (forall i, dat (upd_meta mt q (f m)) i = dat mt i) /\
  (forall i, rd (upd_meta mt q (f m)) i = if decide (i = q) then Some (f m) else rd mt i).
Proof.
  intros Hl Em H1 H2 H3. pose proof (rd_Some_range _ _ _ Em).
  change (meta (St mt ff fls fm)) with mt. rewrite Em. bnd. rewrite put_meta_St by lia.
  split_and!; [done|apply length_upd| |].
  - intros i. rewrite dat_upd by lia. destruct (decide (i = q)) as [->|]; [|done].
    unfold dat. rewrite Em. simpl. by rewrite H1, H2, H3.
  - intros i. apply rd_upd. lia.
Qed.

Section Remove.
Context (mt : list frame_meta_t) (ff : Z) (fls : list free_list_t) (fm : list Z) (L : Z -> list Z).
Context (K : core mt fls fm L).
Context (o p : Z) (l1 l2 : list Z) (E : L o = l1 ++ p :: l2).

Lemma removed_node : exists m, rd mt p = Some m /\ m_prev m = lastn l1 PFN_NONE /\
  m_next m = hdn l2 PFN_NONE.
Proof.
  pose proof (k_links _ _ _ _ K o) as H. rewrite E in H. apply dllseg_app in H as [_ H].
  simpl in H. by destruct H.
Qed.

Lemma removed_others x : (x ∈ l1 -> x <> p) /\ (x ∈ l2 -> x <> p) /\ (x ∈ l1 -> x ∈ l2 -> False).
Proof.
  pose proof (k_nodup _ _ _ _ K o) as Hn. rewrite E in Hn. apply NoDup_app in Hn as (_ & H1 & H2).
  apply NoDup_cons in H2 as [H2 _]. split_and!.
  - intros Hx ->. apply (H1 p Hx). left.
  - intros Hx ->. done.
  - intros Hx Hx2. apply (H1 x Hx). by right.
Qed.

Lemma removed_neighbour x : x ∈ l1 \/ x ∈ l2 ->
  x <> PFN_NONE /\ 0 <= x < tot /\ dat mt x = Some (0, o, FRAME_F_FREE) /\
  exists m, rd mt x = Some m.
Proof.
  intros Hx. assert (x ∈ L o) as H by (rewrite E, elem_of_app, elem_of_cons; tauto).
  destruct (head_range _ _ _ _ K _ _ H) as (Hr & _). destruct (k_head _ _ _ _ K _ _ H) as [_ Hd].
  split_and!; try done; try lia.
  - destruct Hgeo as [? _ _]. lia.
  - apply dat_inv in Hd as (m & Em & _). by exists m.
Qed.

(** The first half: the predecessor, or the head of the list. *)
Lemma remove_prev fm' m : rd mt p = Some m -> m_prev m = lastn l1 PFN_NONE ->
  exists mt1 fls1,
    (if negb (m_prev m =? PFN_NONE) then
       ok ← link_ok (St mt ff fls fm') (m_prev m) o;
       if ok : bool then
         q ← rd (meta (St mt ff fls fm')) (m_prev m);
         put_meta (St mt ff fls fm') (m_prev m) (q {{ m_next := m_next m }})
       else None
     else
       fl ← rd (free_lists (St mt ff fls fm')) o;
       fls0 ← wr (free_lists (St mt ff fls fm')) o (fl {{ fl_head := m_next m }});
       Some ((St mt ff fls fm') {{ free_lists := fls0 }})) = Some (St mt1 ff fls1 fm') /\
    length mt1 = length mt /\ (forall i, dat mt1 i = dat mt i) /\
    (forall l q, l1 = l ++ [q] -> exists mq, rd mt q = Some mq /\
       rd mt1 q = Some (mq {{ m_next := m_next m }})) /\
    (forall x, last l1 <> Some x -> rd mt1 x = rd mt x) /\
    length fls1 = length fls /\
    (forall o', rd fls1 o' = if decide (o' = o)
       then Some {| fl_head := match l1 with [] => m_next m | q :: _ => q end;
                    fl_count := Z.of_nat (length (L o)) |} else rd fls o').
Proof.
  intros Em Hp. pose proof (k_len _ _ _ _ K) as Hlen. pose proof (k_flen _ _ _ _ K) as Hfl.
  assert (p ∈ L o) as HpL by (rewrite E, elem_of_app; right; left).
  destruct (head_range _ _ _ _ K _ _ HpL) as (Hpr & Ho & _).
  pose proof (k_lists _ _ _ _ K o Ho) as Hls.
  assert (l1 = [] \/ exists l q, l1 = l ++ [q]) as [El|(l & q & El)].
  { destruct l1 as [|q l _] using rev_ind; [by left|right; eauto]. }
  - rewrite El in Hp |- *. unfold lastn in Hp. simpl in Hp. rewrite Hp, Z.eqb_refl. cbn [negb].
    change (free_lists (St mt ff fls fm')) with fls. rewrite Hls. bnd.
    rewrite wr_Some by lia. bnd. eexists mt, _. split; [done|]. split_and!; try done.
    + intros l q Hl. by destruct l.
    + apply length_insert.
    + intros o'. pose proof (wr_Some fls o {| fl_head := m_next m;
        fl_count := Z.of_nat (length (L o)) |} ltac:(lia)) as Hw.
      destruct (decide (o' = o)) as [->|]; [by eapply rd_wr_eq|by eapply rd_wr_ne].
  - rewrite El in Hp |- *. unfold lastn in Hp. rewrite last_snoc in Hp. simpl in Hp.
    destruct (removed_neighbour q) as (Hq1 & Hq2 & Hq3 & mq & Emq).
    { left. rewrite El, elem_of_app, list_elem_of_singleton. by right. }
    rewrite Hp, (proj2 (Z.eqb_neq _ _)) by done. cbn [negb].
    rewrite link_ok_St by done. bnd.
    destruct (relink_St mt ff fls fm' q (fun x => x {{ m_next := m_next m }}) mq)
      as (Er & Hl1 & Hd1 & Hr1); [done|done|by destruct mq..|].
    eexists _, fls. split; [exact Er|]. split_and!; try done.
    + intros l' q' Hs. apply app_inj_tail in Hs as [-> ->]. exists mq. split; [done|].
      by rewrite Hr1, decide_True.
    + intros x Hx. rewrite last_snoc in Hx. rewrite Hr1, decide_False; [done|congruence].
    + intros o'. destruct (decide (o' = o)) as [->|]; [|done]. rewrite Hls, E, El.
      by destruct l.
Qed.

(** The second half: the successor. *)
Lemma remove_next mt1 fls1 fm' m : Z.of_nat (length mt1) = tot ->
  (forall i, dat mt1 i = dat mt i) -> m_next m = hdn l2 PFN_NONE ->
  exists mt2,
    (if negb (m_next m =? PFN_NONE) then
       ok ← link_ok (St mt1 ff fls1 fm') (m_next m) o;
       if ok : bool then
         q ← rd (meta (St mt1 ff fls1 fm')) (m_next m);
         put_meta (St mt1 ff fls1 fm') (m_next m) (q {{ m_prev := m_prev m }})
       else None
     else Some (St mt1 ff fls1 fm')) = Some (St mt2 ff fls1 fm') /\
    length mt2 = length mt1 /\ (forall i, dat mt2 i = dat mt1 i) /\
    (forall r l, l2 = r :: l -> exists mr, rd mt1 r = Some mr /\
       rd mt2 r = Some (mr {{ m_prev := m_prev m }})) /\
    (forall x, head l2 <> Some x -> rd mt2 x = rd mt1 x).
Proof.
  intros Hl Hd Hn. destruct (decide (l2 = [])) as [El|Hne].
  - rewrite El in Hn |- *. simpl in Hn. rewrite Hn, Z.eqb_refl. cbn [negb].
    exists mt1. by split_and!.
  - assert (exists r l, l2 = r :: l) as (r & l & El) by (destruct l2; [done|eauto]).
    rewrite El in Hn |- *. simpl in Hn.
    destruct (removed_neighbour r) as (Hr1 & Hr2 & Hr3 & _); [right; rewrite El; left|].
    assert (p ∈ L o) as HpL by (rewrite E, elem_of_app; right; left).
    destruct (head_range _ _ _ _ K _ _ HpL) as (_ & Ho & _).
    rewrite Hn, (proj2 (Z.eqb_neq _ _)) by done. cbn [negb].
    rewrite link_ok_St by (done || by rewrite Hd). bnd.
    destruct (rd_is_Some mt1 r ltac:(lia)) as [mr Emr].
    destruct (relink_St mt1 ff fls1 fm' r (fun x => x {{ m_prev := m_prev m }}) mr)
      as (Er & Hl1 & Hd1 & Hr'); [done|done|by destruct mr..|].
    eexists. split; [exact Er|]. split_and!; try done.
    + intros r' l' [= <- <-]. exists mr. split; [done|]. by rewrite Hr', decide_True.
    + intros x Hx. rewrite Hr', decide_False; [done|]. simpl in Hx. congruence.
Qed.

(** Both halves and the removed node's own links. *)
Lemma removed_steps mt1 mt2 m : Z.of_nat (length mt1) = tot -> length mt2 = length mt1 ->
  rd mt2 p = Some m -> m_prev m = lastn l1 PFN_NONE -> m_next m = hdn l2 PFN_NONE ->
  (forall i, dat mt1 i = dat mt i) -> (forall i, dat mt2 i = dat mt1 i) ->
  (forall l q, l1 = l ++ [q] -> exists mq, rd mt q = Some mq /\
     rd mt1 q = Some (mq {{ m_next := m_next m }})) ->
  (forall x, last l1 <> Some x -> rd mt1 x = rd mt x) ->
  (forall r l, l2 = r :: l -> exists mr, rd mt1 r = Some mr /\
     rd mt2 r = Some (mr {{ m_prev := m_prev m }})) ->
  (forall x, head l2 <> Some x -> rd mt2 x = rd mt1 x) ->
  removed_meta mt (upd_meta mt2 p (m {{ m_prev := PFN_NONE; m_next := PFN_NONE }})) l1 p l2.
Proof.
  intros Hl1 Hl2 Em2 Hp Hn Hd1 Hd2 Hq1 Ho1 Hr2 Ho2. pose proof (k_len _ _ _ _ K) as Hlen.
  pose proof (rd_Some_range _ _ _ Em2) as Hpr.
  set (mt3 := upd_meta mt2 p _).
  assert (forall i, dat mt3 i = dat mt i) as Hd3.
  { intros i. unfold mt3. rewrite dat_upd by lia. rewrite <- Hd1, <- Hd2.
    destruct (decide (i = p)) as [->|]; [|done]. unfold dat. rewrite Em2. by destruct m. }
  assert (forall x, x <> p -> rd mt3 x = rd mt2 x) as Ho3.
  { intros y Hx. unfold mt3. by rewrite rd_upd, decide_False by (done || lia). }
  split_and!; [unfold mt3; rewrite length_upd; lia|done| | |].
  + intros l q El. destruct (Hq1 l q El) as (mq & ? & Hq). exists mq. split; [done|].
    assert (q ∈ l1) as Hql by (rewrite El, elem_of_app, list_elem_of_singleton; by right).
    rewrite Ho3, Ho2, Hq, Hn; [done| |by apply (proj1 (removed_others q))].
    intros Hx%head_Some_elem_of. by apply (proj2 (proj2 (removed_others q))).
  + intros r l El. destruct (Hr2 r l El) as (mr & Hr & Hr'). exists mr.
    assert (r ∈ l2) as Hrl by (rewrite El; left). split.
    * rewrite Ho1 in Hr; [done|]. intros Hx%last_Some_elem_of. by apply (proj2 (proj2 (removed_others r))).
    * rewrite Ho3, Hr', Hp; [done|by apply (proj1 (proj2 (removed_others r)))].
  + intros y Hx Hx1 Hx2. by rewrite Ho3, Ho2, Ho1.
Qed.

Lemma removed_unowned mt' i : removed_meta mt mt' l1 p l2 -> ~ owned L i -> rd mt' i = rd mt i.
Proof.
  intros Hrm Hi. assert (forall y, y ∈ l1 \/ y = p \/ y ∈ l2 -> owned L y) as Hown.
  { intros y Hy. apply (head_owned _ _ _ _ K o). by rewrite E, elem_of_app, elem_of_cons. }
  apply Hrm.
  - intros ->. apply Hi, Hown. tauto.
  - intros Hx%last_Some_elem_of. apply Hi, Hown. tauto.
  - intros Hx%head_Some_elem_of. apply Hi, Hown. tauto.
Qed.

Lemma remove_spec : exists mt' fls' fm',
  fl_remove (St mt ff fls fm) p o = Some (St mt' ff fls' fm') /\
  core mt' fls' fm' (updL L o (l1 ++ l2)) /\ (forall i, dat mt' i = dat mt i) /\
  (forall i, ~ owned L i -> rd mt' i = rd mt i).
Proof.
  pose proof (k_len _ _ _ _ K) as Hlen. pose proof (k_flen _ _ _ _ K) as Hfl.
  assert (p ∈ L o) as HpL by (rewrite E, elem_of_app; right; left).
  destruct (head_range _ _ _ _ K _ _ HpL) as (Hpr & Ho & _).
  destruct removed_node as (m & Em & Hp & Hn).
  destruct (clr_St mt ff fls fm p Hpr (k_fmlen _ _ _ _ K)) as (fm' & Ec & Hfml & Hfm).
  unfold fl_remove. rewrite Ec. bnd.
  change (rd (meta (St mt ff fls fm')) p) with (rd mt p). rewrite Em. bnd.
  destruct (remove_prev fm' m Em Hp) as (mt1 & fls1 & E1 & Hl1 & Hd1 & Hq1 & Ho1 & Hf1 & Hfls1).
  rewrite E1. bnd. change (rd (meta (St mt1 ff fls1 fm')) p) with (rd mt1 p).
  assert (rd mt1 p = Some m) as Em1.
  { rewrite Ho1; [done|]. intros Hx%last_Some_elem_of. by destruct (proj1 (removed_others p) Hx). }
  rewrite Em1. bnd.
  destruct (remove_next mt1 fls1 fm' m) as (mt2 & E2 & Hl2 & Hd2 & Hr2 & Ho2); [lia|done|done|].
  rewrite E2. bnd. change (rd (meta (St mt2 ff fls1 fm')) p) with (rd mt2 p).
  assert (rd mt2 p = Some m) as Em2.
  { rewrite Ho2; [done|]. intros Hx%head_Some_elem_of. by destruct (proj1 (proj2 (removed_others p)) Hx). }
  rewrite Em2. bnd. rewrite put_meta_St by lia. bnd.
  set (mt3 := upd_meta mt2 p _).
  change (free_lists (St mt3 ff fls1 fm')) with fls1.
  rewrite Hfls1, decide_True by done. bnd. rewrite wr_Some by lia. bnd.
  assert (match l1 with [] => m_next m | q :: _ => q end = hdn (l1 ++ l2) PFN_NONE) as Hh.
  { rewrite Hn. by destruct l1. }
  assert (u64 (Z.of_nat (length (L o)) - 1) = Z.of_nat (length (l1 ++ l2))) as Hc.
  { pose proof (list_length _ _ _ _ K o). destruct Hgeo as [Hg _ _]. unfold PFN_NONE in Hg.
    rewrite E, !length_app in *. simpl in *. rewrite u64_small by (unfold in_u64; lia). lia. }
  set (x := {| fl_head := hdn (l1 ++ l2) PFN_NONE; fl_count := Z.of_nat (length (l1 ++ l2)) |}).
  exists mt3, (<[Z.to_nat o := x]> fls1), fm'. split.
  { unfold x. rewrite <- Hh, <- Hc. done. }
  pose proof (removed_steps mt1 mt2 m ltac:(lia) Hl2 Em2 Hp Hn Hd1 Hd2 Hq1 Ho1 Hr2 Ho2) as Hrm.
  change (removed_meta mt mt3 l1 p l2) in Hrm.
  split; [|split; [apply Hrm|intros i; by apply removed_unowned]].
  eapply core_remove; [done|done|done| | |done|done].
  - by rewrite length_insert.
  - intros o'. pose proof (wr_Some fls1 o x ltac:(lia)) as Hw.
    destruct (decide (o' = o)) as [->|].
    + by eapply rd_wr_eq in Hw.
    + eapply rd_wr_ne in Hw; [|done]. by rewrite Hw, Hfls1, decide_False.
Qed.
End Remove.

Lemma owned_remove mt fls fm L o l1 p l2 i : core mt fls fm L -> L o = l1 ++ p :: l2 ->
  owned (updL L o (l1 ++ l2)) i <-> owned L i /\ ~ blk_in p o i.
Proof.
  intros K E. assert (p ∈ L o) as HpL by (rewrite E, elem_of_app; right; left).
  pose proof (k_nodup _ _ _ _ K o) as Hn. unfold owned. split.
  - intros (o' & q & Hq & Hi). apply (elem_remove _ _ _ _ _ _ _ E Hn) in Hq as [Hq Hne].
    split; [by exists o', q|]. intros Hp. apply Hne. by eapply (k_disj _ _ _ _ K).
  - intros [(o' & q & Hq & Hi) Hno]. exists o', q. rewrite (elem_remove _ _ _ _ _ _ _ E Hn).
    split; [|done]. split; [done|]. by intros [-> ->].
Qed.

(** *** Counting free frames *)

Definition orders : list Z := seqZ 0 12.

(** The frames that the lists account for. *)
Definition lsum (L : Z -> list Z) : Z :=
  foldr Z.add 0 (map (fun o => 2 ^ o * Z.of_nat (length (L o))) orders).

Lemma sum_upd (os : list Z) L o l : NoDup os ->
  foldr Z.add 0 (map (fun o' => 2 ^ o' * Z.of_nat (length (updL L o l o'))) os) =
  foldr Z.add 0 (map (fun o' => 2 ^ o' * Z.of_nat (length (L o'))) os) +
  (if decide (o ∈ os) then 2 ^ o * (Z.of_nat (length l) - Z.of_nat (length (L o))) else 0).
Proof.
  intros Hn. induction Hn as [|x os Hx Hn IH]; [done|]. cbn [map foldr].
  rewrite IH. destruct (decide (o = x)) as [->|Hne].
  - rewrite updL_eq, (decide_False (P := x ∈ os)) by done. rewrite decide_True by left. lia.
  - rewrite updL_ne by done. destruct (decide (o ∈ os)).
    + rewrite decide_True by (by right). lia.
    + rewrite decide_False; [lia|]. by rewrite elem_of_cons; intros [?|?].
Qed.

Lemma lsum_upd L o l : 0 <= o <= 11 ->
  lsum (updL L o l) = lsum L + 2 ^ o * (Z.of_nat (length l) - Z.of_nat (length (L o))).
Proof.
  intros Ho. unfold lsum. rewrite sum_upd by apply NoDup_seqZ.
  rewrite decide_True; [done|]. apply elem_of_seqZ. lia.
Qed.

(** The free blocks, and their frames. *)
Definition blocks (L : Z -> list Z) : list (Z * Z) :=
  concat (map (fun o => map (pair o) (L o)) orders).
Definition frames_of (b : Z * Z) : list Z := seqZ b.2 (2 ^ b.1).
Definition free_list (L : Z -> list Z) : list Z := concat (map frames_of (blocks L)).

Lemma NoDup_concat_map {A B} (f : A -> list B) (l : list A) : NoDup l ->
  (forall x, x ∈ l -> NoDup (f x)) ->
  (forall x y i, x ∈ l -> y ∈ l -> i ∈ f x -> i ∈ f y -> x = y) -> NoDup (concat (map f l)).
Proof.
  intros Hn. induction Hn as [|x l Hx Hn IH]; intros Hf Hd; simpl; [constructor|].
  apply NoDup_app. split_and!.
  - apply Hf. left.
  - intros i Hi Hc. apply list_elem_of_In, in_concat in Hc as (k & Hk & Hik).
    apply in_map_iff in Hk as (y & <- & Hy). apply list_elem_of_In in Hik, Hy.
    assert (x = y) as -> by (eapply Hd; [left|by right|done|done]). done.
  - apply IH.
    + intros y Hy. apply Hf. by right.
    + intros y z i Hy Hz. apply Hd; by right.
Qed.

Lemma elem_concat_map {A B} (f : A -> list B) (l : list A) i :
  i ∈ concat (map f l) <-> exists x, x ∈ l /\ i ∈ f x.
Proof.
  rewrite list_elem_of_In, in_concat. split.
  - intros (k & Hk & Hi). apply in_map_iff in Hk as (x & <- & Hx). exists x.
    by apply list_elem_of_In in Hi, Hx.
  - intros (x & Hx & Hi). exists (f x). apply list_elem_of_In in Hi, Hx.
    split; [by apply in_map|done].
Qed.

Lemma elem_blocks L b : b ∈ blocks L <-> 0 <= b.1 <= 11 /\ b.2 ∈ L b.1.
Proof.
  unfold blocks. rewrite elem_concat_map. split.
  - intros (o & Ho & Hb). apply list_elem_of_In, in_map_iff in Hb as (p & <- & Hp).
    rewrite <- list_elem_of_In in Hp. apply elem_of_seqZ in Ho. simpl. split; [lia|done].
  - destruct b as [o p]. simpl. intros [Ho Hp]. exists o. split; [apply elem_of_seqZ; lia|].
    apply list_elem_of_In, in_map. by apply list_elem_of_In.
Qed.

Lemma elem_free_list mt fls fm L i : core mt fls fm L -> i ∈ free_list L <-> owned L i.
Proof.
  intros K. unfold free_list, owned. rewrite elem_concat_map. split.
  - intros ([o p] & Hb & Hi). apply elem_blocks in Hb as [Ho Hp]. simpl in *.
    apply elem_of_seqZ in Hi. exists o, p. split; [done|]. exact Hi.
  - intros (o & p & Hp & Hi). exists (o, p). rewrite elem_blocks. simpl.
    destruct (head_range _ _ _ _ K _ _ Hp) as (_ & Ho & _). split; [done|]. by apply elem_of_seqZ.
Qed.

Lemma NoDup_free_list mt fls fm L : core mt fls fm L -> NoDup (free_list L).
Proof.
  intros K. apply NoDup_concat_map.
  - unfold blocks. apply NoDup_concat_map; [apply NoDup_seqZ| |].
    + intros o _. apply NoDup_fmap_2; [|apply K]. intros p q. congruence.
    + intros o o' b _ _ Hb Hb'. apply list_elem_of_In, in_map_iff in Hb as (p & <- & _).
      apply list_elem_of_In, in_map_iff in Hb' as (q & Hq & _). congruence.
  - intros b _. apply NoDup_seqZ.
  - intros [o p] [o' p'] i Hb Hb' Hi Hi'. apply elem_blocks in Hb as [_ Hb], Hb' as [_ Hb'].
    apply elem_of_seqZ in Hi, Hi'. simpl in *.
    destruct (k_disj _ _ _ _ K o p o' p' i) as [-> ->]; done.
Qed.

Lemma length_free_list L : Z.of_nat (length (free_list L)) = lsum L.
Proof.
  unfold free_list, blocks, lsum.
  assert (forall l, Forall (fun o => 0 <= o) l ->
    Z.of_nat (length (concat (map frames_of (concat (map (fun o => map (pair o) (L o)) l))))) =
    foldr Z.add 0 (map (fun o => 2 ^ o * Z.of_nat (length (L o))) l)) as H.
  { induction 1 as [|o l Ho _ IH]; simpl; [done|].
    rewrite map_app, concat_app, length_app, Nat2Z.inj_add, IH. f_equal.
    pose proof (pow2_pos o Ho). generalize (L o). induction l0 as [|p l0 IH0]; simpl; [lia|].
    rewrite length_app, Nat2Z.inj_add, IH0. unfold frames_of. rewrite length_seqZ. simpl. lia. }
  apply H. apply list.Forall_forall. intros o Ho. apply elem_of_seqZ in Ho. lia.
Qed.

Lemma lsum_range mt fls fm L : core mt fls fm L -> 0 <= lsum L <= tot.
Proof.
  intros K. rewrite <- length_free_list. split; [lia|].
  pose proof (NoDup_range_length (free_list L) tot (NoDup_free_list _ _ _ _ K)) as H.
  destruct Hgeo as [? _ _]. etransitivity; [apply H|lia].
  intros p Hp. apply (elem_free_list _ _ _ _ _ K) in Hp. by eapply owned_range.
Qed.
End Lists.

Arguments range_for_spec {_ _ _ _} _ _ _ _ _ _.
Arguments pfn_valid_spec {_ _ _ _} _ _ _ _ _ _.
Arguments range_for_in {_ _ _ _} _ _ _ _ _ _ _ _ _.
Arguments block_range {_ _ _} _ _ _ _.
Arguments k_len {_ _ _ _ _ _ _} _.
Arguments k_fmlen {_ _ _ _ _ _ _} _.
Arguments k_flen {_ _ _ _ _ _ _} _.
Arguments k_lists {_ _ _ _ _ _ _} _ _ _.
Arguments k_links {_ _ _ _ _ _ _} _ _.
Arguments k_head {_ _ _ _ _ _ _} _ _ _ _.
Arguments k_clean {_ _ _ _ _ _ _} _ _ _ _ _ _.
Arguments k_bits {_ _ _ _ _ _ _} _ _ _.
Arguments k_disj {_ _ _ _ _ _ _} _ _ _ _ _ _ _ _ _ _.
Arguments k_nodup {_ _ _ _ _ _ _} _ _.
Arguments head_range {_ _ _} _ {_ _ _ _} _ _ _ _.
Arguments head_owned {_ _ _} _ {_ _ _ _} _ _ _ _.
Arguments head_unique {_ _ _} _ {_ _ _ _} _ _ _ _ _ _.
Arguments hdn_not_none {_ _ _} _ {_ _ _ _} _ _.
Arguments list_length {_ _ _} _ {_ _ _ _} _ _.
Arguments owned_range {_ _ _} _ {_ _ _ _} _ _ _.
Arguments owned_dat {_ _ _ _ _ _ _} _ _ _.
Arguments unowned_bit {_ _ _ _ _ _ _} _ _ _ _.
Arguments owned_bit {_ _ _} _ {_ _ _ _} _ _ _ _.
Arguments core_upd {_ _ _} _ {_ _ _ _} _ _ _ _ _.
Arguments push_spec {_ _ _ _} _ {_} _ {_ _ _} _ _ _ _.
Arguments remove_spec {_ _ _ _} _ {_} _ {_ _ _} _ _ _ _ _ _.
Arguments owned_remove {_ _ _ _ _ _ _ _ _ _ _} _ _ _.
Arguments lsum_range {_ _ _} _ {_ _ _ _} _.
Arguments elem_free_list {_ _ _} _ {_ _ _ _} _ _.
