(* ===== verification/FrameOps.v ===== *)
(** * Allocation and release of frames

    The invariant of the whole frame table: every frame belongs to exactly one
    block, free or allocated.  Splitting and allocating, merging and
    releasing, and the reference counts keep it. *)

From stdpp Require Import list.
From S2P Require Import Prelude Frame FrameTheory.
#[local] Open Scope Z_scope.

Section Ops.
Context (tot nr dme : Z) (rs : list pfa_range_t).
Context (Hgeo : geo tot nr rs).

#[local] Abbreviation St := (St tot nr dme rs).
#[local] Abbreviation core := (core tot nr rs).
#[local] Abbreviation block := (block nr rs).
#[local] Abbreviation pushable := (pushable nr rs).

(** ** Loops over the metadata *)

(** The lists only depend on the metadata of their own blocks. *)
Lemma core_agree mt mt' fls fm L : core mt fls fm L -> length mt' = length mt ->
  (forall i, owned L i -> rd mt' i = rd mt i) -> core mt' fls fm L.
Proof.
  intros K Hl H. pose proof K as [Kl Kf Kfl Kls Kk Kh Kc Kb Kd Kn].
  assert (forall i, owned L i -> dat mt' i = dat mt i) as Hd by (intros i Hi; unfold dat; by rewrite H).
  constructor; try done.
  - by rewrite Hl.
  - intros o. eapply dllseg_frame; [|apply Kk]. intros p Hp. apply H. by eapply head_owned.
  - intros o p Hp. rewrite Hd by (by eapply head_owned). by apply Kh.
  - intros o p i Hp Hi. rewrite Hd by (by exists o, p). by eapply Kc.
Qed.

(** A loop that rewrites each frame of an interval by [f]. *)
Lemma meta_loop (f : frame_meta_t -> frame_meta_t) (body : Z -> pfa_t -> option pfa_t) ff fls fm
    lo hi mt : 0 <= lo <= hi -> hi <= tot -> Z.of_nat (length mt) = tot ->
  (forall mt i m, Z.of_nat (length mt) = tot -> lo <= i < hi -> rd mt i = Some m ->
     exists mt', body i (St mt ff fls fm) = Some (St mt' ff fls fm) /\ length mt' = length mt /\
       forall j, rd mt' j = if decide (j = i) then Some (f m) else rd mt j) ->
  exists mt', for_ lo hi body (St mt ff fls fm) = Some (St mt' ff fls fm) /\
    length mt' = length mt /\
    forall j, rd mt' j = if decide (lo <= j < hi) then f <$> rd mt j else rd mt j.
Proof.
  intros Hlo Hhi Hlen Hb.
  destruct (for_inv (fun i s => exists mt', s = St mt' ff fls fm /\ length mt' = length mt /\
    forall j, rd mt' j = if decide (lo <= j < i) then f <$> rd mt j else rd mt j)
    body lo hi (St mt ff fls fm)) as (s & Es & mt' & -> & Hl & Hr).
  - lia.
  - exists mt. split_and!; try done. intros j. rewrite decide_False by lia. done.
  - intros i s Hi (mt1 & -> & Hl1 & Hr1).
    destruct (rd_is_Some mt i ltac:(lia)) as [m Em].
    destruct (Hb mt1 i m) as (mt2 & -> & Hl2 & Hr2); [lia|done|by rewrite Hr1, decide_False by lia|].
    eexists. split; [done|]. exists mt2. split; [done|]. split; [lia|].
    intros j. rewrite Hr2. destruct (decide (j = i)) as [->|].
    + rewrite decide_True by lia. by rewrite Em.
    + rewrite Hr1. destruct (decide (lo <= j < i)); destruct (decide (lo <= j < i + 1)); done || lia.
  - by exists mt'.
Qed.

(** ** Searches in a clean block *)

Lemma block_dirty_clean mt ff fls fm lo hi :
  (forall i, lo <= i < hi -> exists od, dat mt i = Some (0, od, FRAME_F_FREE)) ->
  block_dirty (St mt ff fls fm) lo hi = Some None.
Proof.
  intros H. apply for_return_None. intros i Hi. destruct (H i Hi) as [od Hd].
  apply dat_inv in Hd as (m & Em & Hr & _ & Hf). change (meta (St mt ff fls fm)) with mt.
  rewrite Em. bnd. by rewrite Hr, Hf.
Qed.

Lemma block_used_clean mt ff fls fm L lo hi : core mt fls fm L -> 0 <= lo -> hi <= tot ->
  (forall i, lo <= i < hi -> (forall o, i ∉ L o) /\ exists od fl, dat mt i = Some (0, od, fl)) ->
  block_used (St mt ff fls fm) lo hi = Some None.
Proof.
  intros K Hlo Hhi H. apply for_return_None. intros i Hi. destruct (H i Hi) as (Hno & od & fl & Hd).
  apply dat_inv in Hd as (m & Em & Hr & _). change (meta (St mt ff fls fm)) with mt.
  rewrite Em. bnd. rewrite Hr, test_St. cbn [Z.ltb Z.compare].
  rewrite (unowned_bit K i) by (done || lia). done.
Qed.

(** ** Splitting *)

Lemma buddy_upper b o : 0 <= o -> b mod 2 ^ (o + 1) = 0 -> Z.lxor b (blk o) = b + 2 ^ o.
Proof.
  intros Ho Hb. destruct (buddy_cases b o Ho (mod_pow2_S _ _ Ho Hb)) as [[H _]|[_ H]]; [done|].
  pose proof (pow2_pos o Ho). rewrite pow2_S in * by done. exfalso.
  apply Z.mod_divide in Hb as [j ->]; [|lia]. apply Z.mod_divide in H as [k Hk]; [|lia].
  assert ((2 * (j - k)) * 2 ^ o = 1 * 2 ^ o) as E by lia. apply Z.mul_reg_r in E; lia.
Qed.

(** The upper half of a block is a block. *)
Lemma block_halves b o : block b (o + 1) -> 0 <= o -> block b o /\ block (b + 2 ^ o) o.
Proof.
  intros (Ho' & Ha & r & Hr & H1 & H2) Ho. pose proof (mod_pow2_S _ _ Ho Ha) as Ha'.
  pose proof (pow2_pos o Ho). rewrite pow2_S in H2 by done. split.
  - split; [lia|]. split; [done|]. exists r. split; [done|]. lia.
  - split; [lia|]. split.
    + rewrite <- Ha'. rewrite <- (Z.mul_1_l (2 ^ o)) at 1. apply Z.mod_add. lia.
    + exists r. split; [done|]. lia.
Qed.

(** A block in transit: aligned, in one range, on no list, all its frames
    unreferenced and marked free. *)
Definition limbo (mt : list frame_meta_t) (L : Z -> list Z) (b o : Z) : Prop :=
  block b o /\ forall i, blk_in b o i ->
    ~ owned L i /\ exists od, dat mt i = Some (0, od, FRAME_F_FREE).

Lemma split_down_spec n : forall mt ff fls fm L b order, core mt fls fm L -> 0 <= order ->
  limbo mt L b (order + Z.of_nat n) ->
  exists mt' fls' fm' L', split_down n (St mt ff fls fm) b order = Some (St mt' ff fls' fm') /\
    core mt' fls' fm' L' /\
    (forall i, owned L' i <-> owned L i \/ (blk_in b (order + Z.of_nat n) i /\ ~ blk_in b order i)) /\
    (forall i, ~ owned L' i -> rd mt' i = rd mt i) /\
    lsum L' = lsum L + 2 ^ (order + Z.of_nat n) - 2 ^ order.
Proof.
  induction n as [|n IH]; intros mt ff fls fm L b order K Hord [Hb Hl].
  { exists mt, fls, fm, L. rewrite Z.add_0_r in *. split_and!; try done; [|lia]. tauto. }
  replace (order + Z.of_nat (S n)) with (order + Z.of_nat n + 1) in * by lia.
  set (o := order + Z.of_nat n) in *. cbn [split_down]. change (order + Z.of_nat n) with o.
  destruct (block_halves b o Hb ltac:(lia)) as [Hb1 Hb2].
  pose proof (block_range Hgeo _ _ Hb) as Hbr. pose proof (pow2_pos o ltac:(lia)) as Hp.
  rewrite pow2_S in Hbr by lia.
  assert (forall i, blk_in b (o + 1) i <-> blk_in b o i \/ blk_in (b + 2 ^ o) o i) as Hin.
  { intros i. unfold blk_in. rewrite pow2_S by lia. lia. }
  rewrite buddy_upper by (try lia; apply Hb).
  rewrite (blk_pow o), u32_small by (destruct Hgeo as [Hg _ _]; unfold PFN_NONE in Hg; try unfold in_u32; lia).
  rewrite block_dirty_clean.
  2:{ intros i Hi. apply Hl, Hin. by right. }
  bnd. destruct (push_spec (dme := dme) Hgeo ff (b + 2 ^ o) o K)
    as (mt1 & fls1 & fm1 & E1 & K1 & Hd1 & Hr1).
  { constructor; [done| |]; intros i Hi; [apply Hl, Hin; by right|].
    intros _. apply Hl, Hin. by right. }
  erewrite bind_Some_assoc by exact E1.
  assert (forall i, blk_in b o i -> ~ owned (updL L o ((b + 2 ^ o) :: L o)) i) as Hlow.
  { intros i Hi. rewrite owned_push. intros [H|H]; [unfold blk_in in *; lia|].
    apply (Hl i); [|done]. apply Hin. by left. }
  destruct (IH mt1 ff fls1 fm1 _ b order K1 Hord) as (mt' & fls' & fm' & L' & E' & K' & Ho' & Hr' & Hs').
  { fold o. split; [done|]. intros i Hi. split; [by apply Hlow|].
    rewrite Hd1, decide_False by (unfold blk_in in Hi; lia). apply Hl, Hin. by left. }
  exists mt', fls', fm', L'. split; [exact E'|]. split; [done|]. split_and!.
  - intros i. rewrite Ho', owned_push, Hin. fold o.
    assert (blk_in (b + 2 ^ o) o i -> ~ blk_in b order i) as Hx.
    { unfold blk_in. intros H1 H2. assert (2 ^ order <= 2 ^ o) by (apply Z.pow_le_mono_r; lia). lia. }
    tauto.
  - intros i Hi. rewrite Hr' by done. apply Hr1. intros H. apply Hi, Ho'. by left.
  - rewrite Hs', lsum_upd by (destruct Hb1; lia). fold o. simpl length. rewrite pow2_S by lia. lia.
Qed.

(** ** The invariant of the frame table *)

(** [f] heads an allocated block of order [o] with [r] references. *)
Definition held (mt : list frame_meta_t) (p r o f : Z) : Prop := dat mt p = Some (r, o, f) /\ 0 < r.

Record inv (mt : list frame_meta_t) (ff : Z) (fls : list free_list_t) (fm : list Z)
    (L : Z -> list Z) : Prop := {
  i_core : core mt fls fm L;
  i_ref : forall p r o f, dat mt p = Some (r, o, f) -> 0 <= r < 65536;
  i_alloc : forall p r o f, held mt p r o f -> block p o /\ f <> FRAME_F_FREE /\
    forall i, blk_in p o i -> ~ owned L i /\ (i <> p -> exists od fl, dat mt i = Some (0, od, fl));
  i_cover : forall i, 0 <= i < tot -> owned L i \/ exists p r o f, held mt p r o f /\ blk_in p o i;
  i_count : ff = lsum L;
}.

Section Inv.
Context (mt : list frame_meta_t) (ff : Z) (fls : list free_list_t) (fm : list Z) (L : Z -> list Z).
Context (I : inv mt ff fls fm L).

Lemma held_in p r o f : held mt p r o f -> blk_in p o p /\ ~ owned L p /\ 0 <= p < tot.
Proof.
  intros H. destruct (i_alloc _ _ _ _ _ I _ _ _ _ H) as (Hb & _ & Hi).
  pose proof (block_range Hgeo _ _ Hb). assert (blk_in p o p) as Hp by (unfold blk_in; lia).
  split; [done|]. split; [by apply Hi|lia].
Qed.

(** Two allocated blocks that share a frame are the same block. *)
Lemma held_disj p r o f q r' o' f' i : held mt p r o f -> held mt q r' o' f' ->
  blk_in p o i -> blk_in q o' i -> p = q.
Proof.
  intros Hp Hq Hi Hj.
  destruct (i_alloc _ _ _ _ _ I _ _ _ _ Hp) as (_ & _ & Hip).
  destruct (i_alloc _ _ _ _ _ I _ _ _ _ Hq) as (_ & _ & Hiq).
  destruct (decide (p = q)) as [->|Hne]; [done|]. exfalso.
  destruct (decide (p < q)).
  - destruct (Hip q) as [_ H]; [unfold blk_in in *; lia|]. destruct (H ltac:(lia)) as (? & ? & E).
    destruct Hq as [Hq ?]. rewrite Hq in E. simplify_eq; lia.
  - destruct (Hiq p) as [_ H]; [unfold blk_in in *; lia|]. destruct (H ltac:(lia)) as (? & ? & E).
    destruct Hp as [Hp ?]. rewrite Hp in E. simplify_eq; lia.
Qed.
End Inv.

(** ** Allocation *)

(** The search for the first order with a block. *)
Lemma find_order mt ff fls fm L order : core mt fls fm L -> 0 <= order <= 11 ->
  exists res, for_return order (MAX_ORDER + 1) (fun o =>
    fl ← rd (free_lists (St mt ff fls fm)) o;
    Some (if negb (fl_head fl =? PFN_NONE) then Some o else None)) = Some res /\
  match res with
  | None => forall o, order <= o -> L o = []
  | Some o => order <= o <= 11 /\ L o <> [] /\ forall o', order <= o' < o -> L o' = []
  end.
Proof.
  intros K Ho. change (free_lists (St mt ff fls fm)) with fls. unfold MAX_ORDER.
  set (body := fun o => _ : option (option Z)).
  assert (forall o, order <= o < 11 + 1 ->
    body o = Some (if decide (L o = []) then None else Some o)) as Hb.
  { intros o Hoo. unfold body. rewrite (k_lists K) by lia. bnd. cbn [fl_head].
    destruct (decide (L o = [])) as [->|Hne]; [done|].
    rewrite (proj2 (Z.eqb_neq _ _)); [done|]. by rewrite (hdn_not_none Hgeo K). }
  destruct (for_return order (11 + 1) body) as [[o|]|] eqn:E.
  - exists (Some o). split; [done|]. apply for_return_Some in E as (j & Hj & Ej & Hk).
    rewrite Hb in Ej by lia. destruct (decide (L j = [])); [done|]. simplify_eq.
    split; [lia|]. split; [done|]. intros o' Ho'. specialize (Hk o' Ho'). rewrite Hb in Hk by lia.
    by destruct (decide (L o' = [])).
  - exists None. split; [done|]. intros o Hoo. destruct (decide (o < 11 + 1)).
    + pose proof (proj1 (for_return_None _ _ _) E o ltac:(lia)) as Hk. rewrite Hb in Hk by lia.
      by destruct (decide (L o = [])).
    + destruct (L o) as [|p l] eqn:El; [done|]. exfalso.
      assert (p ∈ L o) as Hp by (rewrite El; left). pose proof (head_range Hgeo K _ _ Hp). lia.
  - exfalso. revert E. apply for_return_total. intros j Hj. by rewrite Hb.
Qed.

(** The marks of the allocated block. *)
Lemma mark_spec mt ff fls fm L b order : core mt fls fm L -> block b order ->
  (forall i, blk_in b order i -> ~ owned L i /\ exists od, dat mt i = Some (0, od, FRAME_F_FREE)) ->
  exists mt',
    (s ← put_meta (St mt ff fls fm) b (meta_alloc 1 order);
     for_ (u32 (b + 1)) (u32 (b + blk order)) (fun i s =>
       m ← rd (meta s) i;
       if 0 <? m_refcount m then Some s else put_meta s i (meta_alloc 0 0)) s)
      = Some (St mt' ff fls fm) /\ core mt' fls fm L /\
    (forall i, ~ blk_in b order i -> rd mt' i = rd mt i) /\
    dat mt' b = Some (1, order, FRAME_F_ALLOC) /\
    (forall i, blk_in b order i -> i <> b -> dat mt' i = Some (0, 0, FRAME_F_ALLOC)).
Proof.
  intros K Hb Hl. pose proof (block_range Hgeo _ _ Hb) as Hbr. pose proof (k_len K) as Hlen.
  assert (0 <= order <= 11) as Ho by apply Hb.
  assert (tot <= PFN_NONE) as Hg by apply Hgeo. unfold PFN_NONE in Hg.
  rewrite put_meta_St by lia. bnd. set (mt1 := upd_meta mt b (meta_alloc 1 order)).
  assert (length mt1 = length mt) as Hl1 by apply length_upd.
  assert (forall i, rd mt1 i = if decide (i = b) then Some (meta_alloc 1 order) else rd mt i) as Hr1
    by (intros; apply rd_upd; lia).
  rewrite blk_pow, !u32_small by (try unfold in_u32; lia).
  destruct (meta_loop (fun m => if 0 <? m_refcount m then m else meta_alloc 0 0)
    (fun i s => m ← rd (meta s) i; if 0 <? m_refcount m then Some s else put_meta s i (meta_alloc 0 0))
    ff fls fm (b + 1) (b + 2 ^ order) mt1) as (mt' & E' & Hl' & Hr'); [lia|lia|lia| |].
  { intros mt2 i m Hl2 Hi Em. change (meta (St mt2 ff fls fm)) with mt2. rewrite Em. bnd.
    destruct (0 <? m_refcount m).
    - exists mt2. split_and!; try done. intros j. by destruct (decide (j = i)) as [->|].
    - rewrite put_meta_St by lia. eexists. split_and!; [done|apply length_upd|].
      intros j. apply rd_upd. lia. }
  exists mt'. split; [exact E'|].
  assert (forall i, ~ blk_in b order i -> rd mt' i = rd mt i) as Hout.
  { intros i Hi. unfold blk_in in Hi. rewrite Hr', decide_False by lia.
    rewrite Hr1, decide_False by lia. done. }
  split_and!; [|done| |].
  - eapply core_agree; [done|lia|]. intros i Hi. apply Hout. intros Hi2. by apply (Hl i).
  - unfold dat. rewrite Hr', decide_False, Hr1, decide_True by lia. simpl.
    by rewrite u8_small by (unfold in_u8; lia).
  - intros i Hi Hne. destruct (Hl i Hi) as (_ & od & Hd). apply dat_inv in Hd as (m & Em & Hm & _).
    unfold dat. rewrite Hr', decide_True by (unfold blk_in in Hi; lia).
    rewrite Hr1, decide_False, Em by done. simpl. by rewrite Hm.
Qed.

(** What an allocation does to the table. *)
Record allocated (mt mt' : list frame_meta_t) (L L' : Z -> list Z) (b order : Z) : Prop := {
  al_block : block b order;
  al_free : forall i, blk_in b order i -> owned L i;
  al_owned : forall i, owned L' i <-> owned L i /\ ~ blk_in b order i;
  al_rest : forall i, ~ owned L i -> rd mt' i = rd mt i;
  al_head : dat mt' b = Some (1, order, FRAME_F_ALLOC);
  al_inner : forall i, blk_in b order i -> i <> b -> dat mt' i = Some (0, 0, FRAME_F_ALLOC);
  al_sum : lsum L' = lsum L - 2 ^ order;
}.

(** The first part of a block is a block. *)
Lemma block_le b o o' : block b o -> o' <= o <= 11 -> 0 <= o' -> block b o'.
Proof.
  intros (_ & Hal & r & Hr & ? & ?) Ho Ho'. split; [lia|].
  assert (2 ^ o' <= 2 ^ o) by (apply Z.pow_le_mono_r; lia). split.
  - replace o with (o' + (o - o')) in Hal by lia. rewrite Z.pow_add_r in Hal by lia.
    pose proof (pow2_pos o' ltac:(lia)). pose proof (pow2_pos (o - o') ltac:(lia)).
    apply Z.mod_divide in Hal as [k ->]; [|lia]. apply Z.mod_divide; [lia|].
    exists (k * 2 ^ (o - o')). lia.
  - exists r. split; [done|]. lia.
Qed.

(** A list's first block taken off becomes a block in transit. *)
Lemma take_head mt ff fls fm L o b l : core mt fls fm L -> L o = b :: l ->
  exists mt' fls' fm', fl_remove (St mt ff fls fm) b o = Some (St mt' ff fls' fm') /\
    core mt' fls' fm' (updL L o l) /\ (forall i, dat mt' i = dat mt i) /\
    (forall i, ~ owned L i -> rd mt' i = rd mt i) /\
    (forall i, owned (updL L o l) i <-> owned L i /\ ~ blk_in b o i) /\
    limbo mt' (updL L o l) b o.
Proof.
  intros K El. assert (b ∈ L o) as HbL by (rewrite El; left).
  destruct (remove_spec (dme := dme) Hgeo ff K o b [] l El) as (mt' & fls' & fm' & E' & K' & Hd & Hr).
  exists mt', fls', fm'. do 4 (split; [done|]).
  assert (forall i, owned (updL L o l) i <-> owned L i /\ ~ blk_in b o i) as Ho
    by (intros i; apply (owned_remove (l1 := []) i K El)).
  split; [done|]. split; [by apply (k_head K)|]. intros i Hi. split.
  - rewrite Ho. tauto.
  - rewrite Hd. by eapply (k_clean K).
Qed.

Lemma alloc_core mt ff fls fm L order : core mt fls fm L -> ff = lsum L -> 0 <= order <= 11 ->
  (pfa_alloc_from_buddy (St mt ff fls fm) order = Some (St mt ff fls fm, PFN_NONE) /\
   forall o, order <= o -> L o = []) \/
  exists mt' fls' fm' L' b,
    pfa_alloc_from_buddy (St mt ff fls fm) order = Some (St mt' (lsum L') fls' fm', b) /\
    core mt' fls' fm' L' /\ allocated mt mt' L L' b order.
Proof.
  intros K Hff Ho. unfold pfa_alloc_from_buddy.
  destruct (find_order mt ff fls fm L order K Ho) as ([o|] & -> & Hf); bnd; [|by left].
  right. destruct Hf as (Hoo & Hne & _). change (free_lists (St mt ff fls fm)) with fls.
  rewrite (k_lists K) by lia. bnd. cbn [fl_head].
  destruct (L o) as [|b l] eqn:El; [done|]. cbn [hdn]. clear Hne.
  destruct (take_head mt ff fls fm L o b l K El) as (mt1 & fls1 & fm1 & -> & K1 & Hd1 & Hr1 & Ho1 & Hl1).
  bnd. assert (b ∈ L o) as HbL by (rewrite El; left).
  destruct (k_head K o b HbL) as [Hblk Hdb]. pose proof Hblk as (_ & Hal & _).
  rewrite <- Hd1 in Hdb. apply dat_inv in Hdb as (m & Em & _ & Hmo & Hmf).
  change (meta (St mt1 ff fls1 fm1)) with mt1. rewrite Em. bnd.
  rewrite Hmo, Hmf, land_blk_mod, Hal, u8_small, !Z.eqb_refl by (try unfold in_u8; lia). cbn [negb orb].
  destruct (split_down_spec (Z.to_nat (o - order)) mt1 ff fls1 fm1 _ b order K1)
    as (mt2 & fls2 & fm2 & L2 & -> & K2 & Ho2 & Hr2 & Hs2); [lia|by replace (order + _) with o by lia|].
  bnd. replace (order + Z.of_nat (Z.to_nat (o - order))) with o in * by lia.
  assert (2 ^ order <= 2 ^ o) as Hle by (apply Z.pow_le_mono_r; lia).
  assert (forall i, blk_in b order i -> blk_in b o i) as Hsub by (unfold blk_in; intros; lia).
  assert (forall i, blk_in b order i -> ~ owned L2 i) as Hn2.
  { intros i Hi. rewrite Ho2, Ho1. pose proof (Hsub i Hi). tauto. }
  pose proof (block_le b o order Hblk Hoo (proj1 Ho)) as Hb2.
  destruct (mark_spec mt2 ff fls2 fm2 L2 b order K2 Hb2) as (mt3 & E3 & K3 & Hr3 & Hh3 & Hi3).
  { intros i Hi. split; [by apply Hn2|]. unfold dat. rewrite Hr2 by (by apply Hn2).
    apply Hl1. by apply Hsub. }
  erewrite bind_Some_assoc by exact E3.
  assert (lsum L2 = lsum L - 2 ^ order) as Hsum.
  { rewrite Hs2, lsum_upd by lia. rewrite El. simpl length. lia. }
  exists mt3, fls2, fm2, L2, b. split; [|split; [done|]].
  - change (free_frames (St mt3 ff fls2 fm2)) with ff. rewrite blk_pow by lia.
    pose proof (lsum_range Hgeo K2). destruct Hgeo as [Hg _ _]. unfold PFN_NONE in Hg.
    rewrite u32_small by (unfold in_u32; lia). rewrite Hsum, Hff. done.
  - constructor; try done.
    + intros i Hi. exists o, b. split; [done|]. by apply Hsub.
    + intros i. rewrite Ho2, Ho1. destruct (decide (blk_in b order i)) as [Hi|Hi].
      * pose proof (Hsub i Hi). tauto.
      * assert (blk_in b o i -> owned L i) by (intros; by exists o, b).
        destruct (decide (blk_in b o i)); tauto.
    + intros i Hi. assert (~ blk_in b o i) as Hnb by (intros H; apply Hi; by exists o, b).
      rewrite Hr3, Hr2, Hr1; [done|done| |].
      * rewrite Ho2, Ho1. tauto.
      * intros H. by apply Hnb, Hsub.
Qed.

(** The invariant after an allocation. *)
Lemma inv_allocated mt ff fls fm L mt' fls' fm' L' b order : inv mt ff fls fm L ->
  core mt' fls' fm' L' -> allocated mt mt' L L' b order -> inv mt' (lsum L') fls' fm' L'.
Proof.
  intros I K' [Hb Hfree Hown Hrest Hhead Hin _].
  assert (forall p r o f, held mt' p r o f -> (p = b /\ r = 1 /\ o = order /\ f = FRAME_F_ALLOC) \/
            (~ owned L p /\ held mt p r o f)) as Hcase.
  { intros p r o f [Hd Hr]. destruct (decide (p = b)) as [->|Hne].
    { left. rewrite Hd in Hhead. by simplify_eq. }
    right. destruct (decide (blk_in b order p)) as [Hpb|Hpb].
    { rewrite Hin in Hd by done. simplify_eq; lia. }
    assert (~ owned L p) as Hno.
    { intros Hp. destruct (owned_dat K' p) as [od Hod]; [by apply Hown|].
      rewrite Hd in Hod. simplify_eq; lia. }
    split; [done|]. split; [|done]. unfold dat in *. by rewrite Hrest in Hd. }
  constructor; try done.
  - intros p r o f Hd. destruct (decide (0 < r)) as [Hr|Hr].
    + destruct (Hcase p r o f (conj Hd Hr)) as [(-> & -> & _)|[_ [H _]]]; [lia|by eapply (i_ref _ _ _ _ _ I)].
    + destruct (decide (blk_in b order p)) as [Hpb|Hpb].
      { destruct (decide (p = b)) as [->|]; [rewrite Hhead in Hd|rewrite Hin in Hd by done];
          simplify_eq; lia. }
      pose proof (dat_range _ _ _ Hd) as Hp. rewrite (k_len K') in Hp.
      destruct (i_cover _ _ _ _ _ I p Hp) as [Ho|(q & r' & o' & f' & Hh & Hq)].
      * destruct (owned_dat K' p) as [od Hod]; [by apply Hown|]. rewrite Hd in Hod. simplify_eq; lia.
      * destruct (i_alloc _ _ _ _ _ I _ _ _ _ Hh) as (_ & _ & Hi). destruct (Hi p Hq) as [Hno _].
        unfold dat in Hd. rewrite Hrest in Hd by done. by eapply (i_ref _ _ _ _ _ I).
  - intros p r o f Hh. destruct (Hcase p r o f Hh) as [(-> & -> & -> & ->)|[Hno H]].
    + split; [done|]. split; [done|]. intros i Hi. split; [rewrite Hown; tauto|].
      intros Hne. rewrite Hin by done. eauto.
    + destruct (i_alloc _ _ _ _ _ I _ _ _ _ H) as (Hb' & Hf & Hi'). split; [done|]. split; [done|].
      intros i Hi. destruct (Hi' i Hi) as [Hni Hd]. split; [rewrite Hown; tauto|].
      intros Hne. unfold dat. rewrite Hrest by done. by apply Hd.
  - intros i Hi. destruct (decide (blk_in b order i)) as [Hib|Hib].
    { right. exists b, 1, order, FRAME_F_ALLOC. split; [split; [done|lia]|done]. }
    destruct (i_cover _ _ _ _ _ I i Hi) as [Ho|(p & r & o & f & Hh & Hip)].
    { left. by apply Hown. }
    right. exists p, r, o, f. split; [|done]. destruct (held_in _ _ _ _ _ I _ _ _ _ Hh) as (_ & Hno & _).
    destruct Hh as [Hd Hr]. split; [|done]. unfold dat. by rewrite Hrest.
Qed.

(** ** Release *)

(** A block and its free buddy in the same range form a block. *)
Lemma block_merge p o r : block p o -> o < 11 -> r ∈ the_ranges nr rs -> in_rng r p ->
  block (Z.lxor p (blk o)) o -> in_rng r (Z.lxor p (blk o)) ->
  let buddy := Z.lxor p (blk o) in
  let q := if p <? buddy then p else buddy in
  block q (o + 1) /\ in_rng r q /\
  forall i, blk_in q (o + 1) i <-> blk_in p o i \/ blk_in buddy o i.
Proof.
  intros Hb Ho Hr Hp Hb' Hp' buddy q. pose proof Hb as (Ho' & Ha & _).
  pose proof (pow2_pos o ltac:(lia)) as Hpos.
  assert (forall x, block x o -> in_rng r x -> x + 2 ^ o <= r_end_pfn r) as Hend.
  { intros x (_ & _ & r' & Hr' & H1 & H2) Hx.
    assert (r' = r) as ->; [|done].
    eapply range_chain_uniq; [exact (geo_chain _ _ _ Hgeo)|done|done| |exact Hx]. lia. }
  pose proof (Hend _ Hb Hp) as H1. pose proof (Hend _ Hb' Hp') as H2. fold buddy in H2, Hp'.
  destruct (buddy_cases p o ltac:(lia) Ha) as [[E Hm]|[E Hm]]; fold buddy in E; unfold q, in_rng in *.
  - rewrite (proj2 (Z.ltb_lt p buddy)) by lia. split; [|split; [lia|]].
    + split; [lia|]. split; [done|]. exists r. rewrite pow2_S by lia. split; [done|]. lia.
    + intros i. unfold blk_in. rewrite pow2_S by lia. lia.
  - rewrite (proj2 (Z.ltb_ge p buddy)) by lia. rewrite <- E in Hm. split; [|split; [lia|]].
    + split; [lia|]. split; [done|]. exists r. rewrite pow2_S by lia. split; [done|]. lia.
    + intros i. unfold blk_in. rewrite pow2_S by lia. lia.
Qed.

(** A block in transit whose frames are unreferenced. *)
Definition released (mt : list frame_meta_t) (L : Z -> list Z) (p o : Z) : Prop :=
  block p o /\ forall i, blk_in p o i -> ~ owned L i /\ exists od fl, dat mt i = Some (0, od, fl).

(** The result of the merge: a block in transit that covers the old one and
    the free blocks taken off the lists, and whose buddy is not free. *)
Record merged (mt mt' : list frame_meta_t) (L L' : Z -> list Z) (r : pfa_range_t)
    (p o p' o' : Z) : Prop := {
  mg_released : released mt' L' p' o';
  mg_in : in_rng r p';
  mg_sub : forall i, blk_in p o i -> blk_in p' o' i;
  mg_owned : forall i, owned L' i \/ blk_in p' o' i <-> owned L i \/ blk_in p o i;
  mg_dat : forall i, dat mt' i = dat mt i;
  mg_rd : forall i, ~ owned L i -> rd mt' i = rd mt i;
  mg_sum : lsum L' + 2 ^ o' = lsum L + 2 ^ o;
  mg_max : o' < 11 -> in_rng r (Z.lxor p' (blk o')) -> Z.lxor p' (blk o') ∉ L' o';
}.

(** The tests of one merge step: stop, or the buddy is a clean free block. *)
Lemma merge_step n mt ff fls fm L r p o : core mt fls fm L -> r ∈ the_ranges nr rs ->
  released mt L p o -> o < 11 ->
  let buddy := Z.lxor p (blk o) in
  (buddy_merge (S n) (St mt ff fls fm) r p o = Some (St mt ff fls fm, p, o) /\
   (in_rng r buddy -> buddy ∉ L o)) \/
  (buddy ∈ L o /\ in_rng r buddy /\
   buddy_merge (S n) (St mt ff fls fm) r p o =
     (s ← fl_remove (St mt ff fls fm) buddy o;
      buddy_merge n s r (if p <? buddy then p else buddy) (o + 1))).
Proof.
  intros K Hr [Hb Hrel] Ho buddy. cbn [buddy_merge]. fold buddy.
  change (total_frames (St mt ff fls fm)) with tot. change (meta (St mt ff fls fm)) with mt.
  pose proof (range_chain_in _ _ _ _ (geo_chain _ _ _ Hgeo) Hr) as Hin.
  assert (0 <= o) as Ho0 by apply Hb. unfold in_rng.
  destruct (Z.leb_spec tot buddy); [left; split; [done|lia]|].
  destruct (Z.ltb_spec buddy (r_start_pfn r)); [left; split; [done|lia]|].
  destruct (Z.leb_spec (r_end_pfn r) buddy); [left; split; [done|lia]|]. cbn [orb].
  destruct (rd_is_Some mt buddy ltac:(rewrite (k_len K); lia)) as [m Em]. rewrite Em. bnd.
  assert (buddy ∈ L o -> m_order m = o /\ m_flags m = FRAME_F_FREE) as HbL.
  { intros HL. destruct (k_head K o buddy HL) as [_ Hd]. apply dat_inv in Hd as (m' & E & _ & ? & ?).
    rewrite Em in E. by simplify_eq. }
  rewrite u8_small by (unfold in_u8; lia).
  destruct (Z.eqb_spec (m_flags m) FRAME_F_FREE); [|left; split; [done|]; intros _ HL; by destruct (HbL HL)].
  destruct (Z.eqb_spec (m_order m) o); [|left; split; [done|]; intros _ HL; by destruct (HbL HL)].
  cbn [negb]. rewrite test_St. destruct (k_bits K buddy ltac:(lia)) as (b & -> & Hbit). bnd.
  destruct b; cbn [negb].
  2:{ left. split; [done|]. intros _ HL. by assert (false = true) by (apply Hbit; by exists o). }
  destruct (proj1 Hbit eq_refl) as [o' HL']. destruct (k_head K o' buddy HL') as [Hbb Hd].
  apply dat_inv in Hd as (m' & E & _ & Hm' & _). rewrite Em in E. apply (inj Some) in E as <-.
  assert (o' = o) as -> by congruence.
  right. split; [done|]. split; [lia|].
  pose proof (block_range Hgeo _ _ Hbb) as Hbr.
  assert (tot <= PFN_NONE) as Hg by apply Hgeo. unfold PFN_NONE in Hg.
  rewrite blk_pow, !u32_small by (try unfold in_u32; lia).
  rewrite (block_used_clean mt ff fls fm L) by
    (done || lia || (intros i Hi; split;
      [intros o2 Hi2; destruct (k_disj K o2 i o buddy i) as [? ?]; [done|done|by apply (head_range Hgeo K)|unfold blk_in; lia|lia]
      |destruct (k_clean K o buddy i) as [od ?]; [done|unfold blk_in; lia|eauto]])).
  done.
Qed.

Lemma merge_spec n : forall mt ff fls fm L r p o, core mt fls fm L -> r ∈ the_ranges nr rs ->
  in_rng r p -> released mt L p o -> Z.of_nat n = 11 - o ->
  exists mt' fls' fm' L' p' o',
    buddy_merge n (St mt ff fls fm) r p o = Some (St mt' ff fls' fm', p', o') /\
    core mt' fls' fm' L' /\ merged mt mt' L L' r p o p' o'.
Proof.
  induction n as [|n IH]; intros mt ff fls fm L r p o K Hr Hp Hrel Hn.
  { exists mt, fls, fm, L, p, o. split; [done|]. split; [done|]. constructor; try done. lia. }
  destruct (merge_step n mt ff fls fm L r p o K Hr Hrel ltac:(lia)) as [[-> Hstop]|(HL & Hbr & ->)].
  { exists mt, fls, fm, L, p, o. split; [done|]. split; [done|]. constructor; done. }
  set (buddy := Z.lxor p (blk o)) in *. destruct Hrel as [Hb Hrel].
  destruct (k_head K o buddy HL) as [Hbb _].
  destruct (block_merge p o r Hb ltac:(lia) Hr Hp Hbb Hbr) as (Hb' & Hp' & Hin).
  fold buddy in Hb', Hp', Hin. set (q := if p <? buddy then p else buddy) in *.
  destruct (list_elem_of_split _ _ HL) as (l1 & l2 & El).
  destruct (remove_spec (dme := dme) Hgeo ff K o buddy l1 l2 El) as (mt1 & fls1 & fm1 & -> & K1 & Hd1 & Hr1).
  bnd. pose proof (fun i => owned_remove i K El) as Ho1.
  destruct (IH mt1 ff fls1 fm1 (updL L o (l1 ++ l2)) r q (o + 1) K1 Hr Hp')
    as (mt' & fls' & fm' & L' & p' & o' & E' & K' & M'); [|lia|].
  { split; [done|]. intros i Hi. rewrite Ho1, Hd1. apply Hin in Hi as [Hi|Hi].
    - destruct (Hrel i Hi) as [? ?]. tauto.
    - split; [tauto|]. destruct (k_clean K o buddy i HL Hi) as [od ->]. eauto. }
  exists mt', fls', fm', L', p', o'. split; [exact E'|]. split; [done|].
  destruct M' as [M1 M2 M3 M4 M5 M6 M7 M8]. constructor; try done.
  - intros i Hi. apply M3, Hin. by left.
  - intros i. rewrite M4, Ho1, Hin.
    assert (blk_in buddy o i -> owned L i) by (intros; by exists o, buddy).
    destruct (decide (blk_in buddy o i)); tauto.
  - intros i. by rewrite M5, Hd1.
  - intros i Hi. rewrite M6, Hr1; [done|done|]. rewrite Ho1. tauto.
  - rewrite M7, lsum_upd, pow2_S by (destruct Hb; lia). rewrite El, !length_app. simpl length. lia.
Qed.

(** Clearing the interior of the merged block. *)
Lemma clear_spec mt ff fls fm L p o : core mt fls fm L -> released mt L p o ->
  exists mt', (s ← put_meta (St mt ff fls fm) p (meta_free o); clear_interior s p o)
      = Some (St mt' ff fls fm) /\ core mt' fls fm L /\
    (forall i, ~ blk_in p o i -> rd mt' i = rd mt i) /\
    (forall i, blk_in p o i -> exists od, dat mt' i = Some (0, od, FRAME_F_FREE)).
Proof.
  intros K [Hb Hrel]. pose proof (block_range Hgeo _ _ Hb) as Hbr. pose proof (k_len K) as Hlen.
  assert (0 <= o <= 11) as Ho by apply Hb.
  assert (tot <= PFN_NONE) as Hg by apply Hgeo. unfold PFN_NONE in Hg.
  rewrite put_meta_St by lia. bnd. set (mt1 := upd_meta mt p (meta_free o)).
  assert (length mt1 = length mt) as Hl1 by apply length_upd.
  assert (forall i, rd mt1 i = if decide (i = p) then Some (meta_free o) else rd mt i) as Hr1
    by (intros; apply rd_upd; lia).
  unfold clear_interior. change (total_frames (St mt1 ff fls fm)) with tot.
  rewrite blk_pow, !u32_small, Z.min_l by (try unfold in_u32; lia).
  destruct (meta_loop (fun m => if 0 <? m_refcount m then m else
      if m_flags m =? FRAME_F_FREE then m else meta_free 0)
    (fun i s => m ← rd (meta s) i; if 0 <? m_refcount m then Some s else
      if m_flags m =? FRAME_F_FREE then Some s else put_meta s i (meta_free 0))
    ff fls fm (p + 1) (p + 2 ^ o) mt1) as (mt' & E' & Hl' & Hr'); [lia|lia|lia| |].
  { intros mt2 i m Hl2 Hi Em. change (meta (St mt2 ff fls fm)) with mt2. rewrite Em. bnd.
    assert (forall j, rd mt2 j = if decide (j = i) then Some m else rd mt2 j) as Hid
      by (intros j; by destruct (decide (j = i)) as [->|]).
    destruct (0 <? m_refcount m); [by exists mt2|].
    destruct (m_flags m =? FRAME_F_FREE); [by exists mt2|].
    rewrite put_meta_St by lia. eexists. split_and!; [done|apply length_upd|].
    intros j. apply rd_upd. lia. }
  exists mt'. split; [exact E'|].
  assert (forall i, ~ blk_in p o i -> rd mt' i = rd mt i) as Hout.
  { intros i Hi. unfold blk_in in Hi. rewrite Hr', decide_False by lia.
    rewrite Hr1, decide_False by lia. done. }
  split_and!; [|done|].
  - eapply core_agree; [done|lia|]. intros i Hi. apply Hout. intros Hi2. by apply (Hrel i).
  - intros i Hi. destruct (Hrel i Hi) as (_ & od & fl & Hd). apply dat_inv in Hd as (m & Em & Hm & _).
    unfold dat. rewrite Hr', Hr1. destruct (decide (i = p)) as [->|].
    + rewrite decide_False by lia. simpl. eauto.
    + rewrite decide_True by (unfold blk_in in Hi; lia). rewrite Em. simpl. rewrite Hm. simpl.
      destruct (Z.eqb_spec (m_flags m) FRAME_F_FREE) as [Ef|]; simpl; [rewrite Hm, Ef|]; eauto.
Qed.

(** The whole block is published: no frame of it is in use. *)
Lemma push_clean_spec mt ff fls fm L p o : core mt fls fm L -> block p o ->
  (forall i, blk_in p o i -> ~ owned L i /\ exists od, dat mt i = Some (0, od, FRAME_F_FREE)) ->
  exists mt' fls' fm', fl_push_clean (St mt ff fls fm) p (Z.to_nat o) = Some (St mt' ff fls' fm') /\
    core mt' fls' fm' (updL L o (p :: L o)) /\
    (forall i, ~ owned (updL L o (p :: L o)) i -> rd mt' i = rd mt i).
Proof.
  intros K Hb Hl. pose proof (block_range Hgeo _ _ Hb) as Hbr. assert (0 <= o <= 11) as Ho by apply Hb.
  assert (tot <= PFN_NONE) as Hg by apply Hgeo. unfold PFN_NONE in Hg.
  assert (forall i, blk_in p o i -> forall o', i ∉ L o') as Hno.
  { intros i Hi o' Hi'. apply (Hl i Hi). by eapply (head_owned Hgeo K). }
  destruct (push_spec (dme := dme) Hgeo ff p o K) as (mt' & fls' & fm' & E' & K' & _ & Hr').
  { constructor; [done| |]; intros i Hi; [by apply Hl|intros _; by apply Hl]. }
  exists mt', fls', fm'. split; [|done]. assert (blk_in p o p) as Hpp by (unfold blk_in; lia).
  destruct (Z.to_nat o) as [|n] eqn:En.
  - assert (o = 0) as -> by lia. cbn [fl_push_clean].
    destruct (Hl p Hpp) as (_ & od & Hd). apply dat_inv in Hd as (m & Em & Hm & _ & Hf).
    change (meta (St mt ff fls fm)) with mt. rewrite Em. bnd. rewrite Hm, Hf. cbn [Z.ltb Z.compare orb].
    rewrite test_St, (unowned_bit K) by (lia || by apply Hno). exact E'.
  - assert (Z.of_nat (S n) = o) as Hn by lia. cbn [fl_push_clean]. rewrite Hn.
    rewrite (blk_pow o), (u32_small (p + 2 ^ o)) by (try unfold in_u32; lia).
    rewrite (block_used_clean mt ff fls fm L); [bnd; exact E'|done|lia|lia|].
    intros i Hi. split; [by apply Hno|]. destruct (Hl i Hi) as (_ & od & ->). eauto.
Qed.

(** What a release does to the table: exactly the block's frames become free,
    inside a merged block whose buddy is not free. *)
Record freed (mt mt' : list frame_meta_t) (L L' : Z -> list Z) (p o : Z) : Prop := {
  fr_owned : forall i, owned L' i <-> owned L i \/ blk_in p o i;
  fr_rest : forall i, ~ owned L' i -> rd mt' i = rd mt i;
  fr_sum : lsum L' = lsum L + 2 ^ o;
  fr_merged : exists p' o' r, p' ∈ L' o' /\ (forall i, blk_in p o i -> blk_in p' o' i) /\
    r ∈ the_ranges nr rs /\ in_rng r p' /\
    (o' < 11 -> in_rng r (Z.lxor p' (blk o')) -> Z.lxor p' (blk o') ∉ L' o');
}.

Lemma release_spec mt ff fls fm L p o : core mt fls fm L -> released mt L p o ->
  exists mt' fls' fm' L', release_block (St mt ff fls fm) p o = Some (St mt' ff fls' fm') /\
    core mt' fls' fm' L' /\ freed mt mt' L L' p o.
Proof.
  intros K Hrel. pose proof Hrel as [Hb _]. pose proof Hb as (Ho & Ha & r & Hr & H1 & H2).
  pose proof (pow2_pos o ltac:(lia)) as Hpos.
  assert (in_rng r p) as Hp by (unfold in_rng; lia).
  unfold release_block. rewrite (range_for_in Hgeo mt ff fls fm p r Hr Hp). bnd.
  destruct (merge_spec (Z.to_nat (MAX_ORDER - o)) mt ff fls fm L r p o K Hr Hp Hrel)
    as (mt1 & fls1 & fm1 & L1 & p' & o' & -> & K1 & [M1 M2 M3 M4 M5 M6 M7 M8]);
    [unfold MAX_ORDER; lia|]. bnd.
  destruct (clear_spec mt1 ff fls1 fm1 L1 p' o' K1 M1) as (mt2 & E2 & K2 & Hr2 & Hd2).
  erewrite bind_Some_assoc by exact E2. destruct M1 as [Hb' Hrel'].
  destruct (push_clean_spec mt2 ff fls1 fm1 L1 p' o' K2 Hb') as (mt3 & fls3 & fm3 & E3 & K3 & Hr3).
  { intros i Hi. split; [by apply Hrel'|by apply Hd2]. }
  eexists mt3, fls3, fm3, _. split; [exact E3|]. split; [exact K3|].
  assert (0 <= o' <= 11) as Ho' by apply Hb'. constructor.
  - intros i. rewrite owned_push, <- M4. tauto.
  - intros i Hi. rewrite Hr3 by done. rewrite owned_push in Hi. rewrite Hr2 by tauto.
    apply M6. intros H. destruct (proj2 (M4 i) (or_introl H)); tauto.
  - rewrite lsum_upd by done. simpl length. lia.
  - exists p', o', r. split_and!; try done.
    + rewrite elem_push. by left.
    + intros Hlt Hin. rewrite elem_push. intros [[Hx _]|H]; [|by apply M8].
      assert (0 <= p' /\ p' mod 2 ^ o' = 0) as [? Hal].
      { pose proof (block_range Hgeo _ _ Hb'). split; [lia|apply Hb']. }
      pose proof (pow2_pos o' ltac:(lia)).
      destruct (buddy_cases p' o' ltac:(lia) Hal) as [[E _]|[E _]]; lia.
Qed.

(** The invariant after the block of a frame without references is released;
    [mt0] is the table in which its count is already 0. *)
Lemma inv_freed mt mt0 ff fls fm L mt' fls' fm' L' p r o f : inv mt ff fls fm L ->
  held mt p r o f -> (forall i, i <> p -> rd mt0 i = rd mt i) ->
  core mt' fls' fm' L' -> freed mt0 mt' L L' p o -> inv mt' (lsum L') fls' fm' L'.
Proof.
  intros I Hh Hmt0 K' [Hown Hrest _ _].
  destruct (held_in _ _ _ _ _ I _ _ _ _ Hh) as (Hpp & Hpo & Hpr).
  assert (forall i, ~ owned L' i -> i <> p /\ rd mt' i = rd mt i) as Hsame.
  { intros i Hi. assert (i <> p) by (intros ->; apply Hi, Hown; by right).
    split; [done|]. by rewrite Hrest, Hmt0. }
  assert (forall q r' o' f', held mt q r' o' f' -> q <> p -> forall i, blk_in q o' i -> ~ owned L' i) as Hoth.
  { intros q r' o' f' Hq Hne i Hi. rewrite Hown. intros [H|H].
    - destruct (i_alloc _ _ _ _ _ I _ _ _ _ Hq) as (_ & _ & Hi'). by apply (Hi' i).
    - by apply Hne, (held_disj _ _ _ _ _ I q r' o' f' p r o f i). }
  constructor; try done.
  - intros q r' o' f' Hd. destruct (decide (0 = r')) as [<-|Hr']; [lia|].
    assert (~ owned L' q) as Hno.
    { intros Hq. destruct (owned_dat K' q Hq) as [od Hod]. rewrite Hd in Hod. by simplify_eq. }
    unfold dat in Hd. rewrite (proj2 (Hsame q Hno)) in Hd. by eapply (i_ref _ _ _ _ _ I).
  - intros q r' o' f' [Hd Hr'].
    assert (~ owned L' q) as Hno.
    { intros Hq. destruct (owned_dat K' q Hq) as [od Hod]. rewrite Hd in Hod. simplify_eq; lia. }
    destruct (Hsame q Hno) as [Hne Hq]. unfold dat in Hd. rewrite Hq in Hd.
    assert (held mt q r' o' f') as Hh' by (by split).
    destruct (i_alloc _ _ _ _ _ I _ _ _ _ Hh') as (Hb & Hf & Hi). split; [done|]. split; [done|].
    intros i Hin. pose proof (Hoth _ _ _ _ Hh' Hne i Hin) as Hni. split; [done|].
    intros Hiq. unfold dat. rewrite (proj2 (Hsame i Hni)). by apply Hi.
  - intros i Hi. destruct (i_cover _ _ _ _ _ I i Hi) as [H|(q & r' & o' & f' & Hq & Hin)].
    { left. apply Hown. by left. }
    destruct (decide (q = p)) as [->|Hne].
    + left. apply Hown. right. destruct Hq as [Hq _], Hh as [Hh _]. rewrite Hh in Hq. by simplify_eq.
    + right. exists q, r', o', f'. split; [|done].
      destruct (held_in _ _ _ _ _ I _ _ _ _ Hq) as (Hqq & _). destruct Hq as [Hd Hr']. split; [|done].
      unfold dat. rewrite (proj2 (Hsame q (Hoth q r' o' f' (conj Hd Hr') Hne q Hqq))). done.
Qed.

(** The release of an allocated block whose count is set to 0. *)
Lemma release_held mt ff fls fm L p r o f m : inv mt ff fls fm L -> held mt p r o f ->
  rd mt p = Some m ->
  exists mt' fls' fm' L',
    (s ← put_meta (St mt ff fls fm) p (m {{ m_refcount := 0 }});
     release_block (s {{ free_frames := u32 (free_frames s + blk o) }}) p o)
      = Some (St mt' (lsum L') fls' fm') /\
    inv mt' (lsum L') fls' fm' L' /\ freed mt mt' L L' p o.
Proof.
  intros I Hh Em. pose proof (i_core _ _ _ _ _ I) as K. pose proof (k_len K) as Hlen.
  destruct (held_in _ _ _ _ _ I _ _ _ _ Hh) as (Hpp & Hpo & Hpr).
  destruct (i_alloc _ _ _ _ _ I _ _ _ _ Hh) as (Hb & Hf & Hi).
  rewrite put_meta_St by lia. bnd. set (m0 := m {{ m_refcount := 0 }}).
  set (mt0 := upd_meta mt p m0).
  assert (forall i, i <> p -> rd mt0 i = rd mt i) as Hmt0.
  { intros i Hne. unfold mt0. by rewrite rd_upd, decide_False by (done || lia). }
  assert (core mt0 fls fm L) as K0 by (by apply (core_upd Hgeo K)).
  assert (released mt0 L p o) as Hrel.
  { split; [done|]. intros i Hin. split; [by apply Hi|]. unfold mt0. rewrite dat_upd by lia.
    destruct (decide (i = p)) as [->|Hne]; [|by apply Hi].
    assert (m_refcount m0 = 0) as -> by (unfold m0; by destruct m). eauto. }
  change (free_frames (St mt0 ff fls fm)) with ff.
  change ((St mt0 ff fls fm) {{ free_frames := u32 (ff + blk o) }})
    with (St mt0 (u32 (ff + blk o)) fls fm).
  destruct (release_spec mt0 (u32 (ff + blk o)) fls fm L p o K0 Hrel)
    as (mt' & fls' & fm' & L' & -> & K' & F').
  assert (u32 (ff + blk o) = lsum L') as ->.
  { pose proof (fr_sum _ _ _ _ _ _ F') as Hs. pose proof (lsum_range Hgeo K').
    rewrite (i_count _ _ _ _ _ I), blk_pow, <- Hs by (destruct Hb; lia). apply u32_small.
    assert (tot <= PFN_NONE) as Hg by apply Hgeo. unfold PFN_NONE in Hg. unfold in_u32. lia. }
  exists mt', fls', fm', L'. split; [done|]. split; [by eapply inv_freed|].
  destruct F' as [F1 F2 F3 F4]. constructor; try done.
  intros i Hno. rewrite F2 by done. apply Hmt0. intros ->. apply Hno, F1. by right.
Qed.

(** ** References *)

(** The owner of a block may change its count, flags and links. *)
Lemma inv_upd_held mt ff fls fm L p r o f m' : inv mt ff fls fm L -> held mt p r o f ->
  0 < m_refcount m' < 65536 -> m_order m' = o -> m_flags m' <> FRAME_F_FREE ->
  inv (upd_meta mt p m') ff fls fm L.
Proof.
  intros I Hh Hr' Ho' Hf'. pose proof (i_core _ _ _ _ _ I) as K. pose proof (k_len K) as Hlen.
  destruct (held_in _ _ _ _ _ I _ _ _ _ Hh) as (Hpp & Hpo & Hpr).
  destruct (i_alloc _ _ _ _ _ I _ _ _ _ Hh) as (Hb & Hf & Hi).
  assert (forall i, dat (upd_meta mt p m') i =
    if decide (i = p) then Some (m_refcount m', o, m_flags m') else dat mt i) as Hd
    by (intros i; rewrite dat_upd by lia; by rewrite Ho').
  constructor.
  - by apply (core_upd Hgeo K).
  - intros q r2 o2 f2 Hq. rewrite Hd in Hq. destruct (decide (q = p)); [simplify_eq; lia|].
    by eapply (i_ref _ _ _ _ _ I).
  - intros q r2 o2 f2 [Hq Hr2]. rewrite Hd in Hq. destruct (decide (q = p)) as [->|Hne].
    + simplify_eq. split; [done|]. split; [done|]. intros i Hin. split; [by apply Hi|].
      intros Hip. rewrite Hd, decide_False by done. by apply Hi.
    + assert (held mt q r2 o2 f2) as Hh2 by (by split).
      destruct (i_alloc _ _ _ _ _ I _ _ _ _ Hh2) as (Hb2 & Hf2 & Hi2).
      split; [done|]. split; [done|]. intros i Hin. split; [by apply Hi2|]. intros Hiq.
      rewrite Hd, decide_False; [by apply Hi2|]. intros ->. apply Hne. symmetry.
      by apply (held_disj _ _ _ _ _ I p r o f q r2 o2 f2 p).
  - intros i Hir. destruct (i_cover _ _ _ _ _ I i Hir) as [H|(q & r2 & o2 & f2 & [Hq Hr2] & Hin)]; [by left|].
    right. destruct (decide (q = p)) as [->|Hne].
    + exists p, (m_refcount m'), o, (m_flags m'). destruct Hh as [Hh _]. rewrite Hh in Hq. simplify_eq.
      split; [|done]. split; [|lia]. by rewrite Hd, decide_True.
    + exists q, r2, o2, f2. split; [|done]. split; [|done]. by rewrite Hd, decide_False.
  - apply (i_count _ _ _ _ _ I).
Qed.

(** A frame's status: free, head of an allocated block, or inside one. *)
Lemma frame_status mt ff fls fm L p : inv mt ff fls fm L -> 0 <= p < tot ->
  (owned L p /\ exists od, dat mt p = Some (0, od, FRAME_F_FREE)) \/
  (exists r o f, held mt p r o f) \/
  (~ owned L p /\ exists q r o f od fl, held mt q r o f /\ blk_in q o p /\ p <> q /\
     dat mt p = Some (0, od, fl)).
Proof.
  intros I Hp. destruct (i_cover _ _ _ _ _ I p Hp) as [H|(q & r & o & f & Hh & Hin)].
  - left. split; [done|]. by apply (owned_dat (i_core _ _ _ _ _ I)).
  - right. destruct (decide (p = q)) as [->|Hne]; [left; eauto|]. right.
    destruct (i_alloc _ _ _ _ _ I _ _ _ _ Hh) as (_ & _ & Hi). destruct (Hi p Hin) as [Hno Hd].
    destruct (Hd Hne) as (od & fl & Hd'). split; [done|]. exists q, r, o, f, od, fl. done.
Qed.

Lemma frame_get_spec mt ff fls fm L p r o f : inv mt ff fls fm L -> held mt p r o f -> r < 65535 ->
  exists mt', frame_get (St mt ff fls fm) p = Some (St mt' ff fls fm) /\ inv mt' ff fls fm L /\
    held mt' p (r + 1) o f /\ forall i, i <> p -> rd mt' i = rd mt i.
Proof.
  intros I Hh Hr. pose proof (k_len (i_core _ _ _ _ _ I)) as Hlen.
  destruct (held_in _ _ _ _ _ I _ _ _ _ Hh) as (_ & _ & Hpr). pose proof Hh as [Hd Hr0].
  apply dat_inv in Hd as (m & Em & Hm & Ho & Hf).
  unfold frame_get. rewrite (pfn_valid_spec Hgeo), bool_decide_eq_true_2 by done. bnd. cbn [negb].
  change (meta (St mt ff fls fm)) with mt. rewrite Em. bnd.
  rewrite Hm, (proj2 (Z.eqb_neq r 0)) by lia. rewrite put_meta_St by lia.
  set (m' := m {{ m_refcount := u16 (r + 1) }}).
  assert (m_refcount m' = r + 1 /\ m_order m' = o /\ m_flags m' = f) as (H1 & H2 & H3).
  { unfold m'. destruct m. simpl in *. by rewrite u16_small by (unfold in_u16; lia). }
  exists (upd_meta mt p m'). split; [done|]. split_and!.
  - eapply inv_upd_held; [done|done|lia|done|]. rewrite H3. by apply (i_alloc _ _ _ _ _ I _ _ _ _ Hh).
  - split; [|lia]. by rewrite dat_upd, decide_True, H1, H2, H3 by (done || lia).
  - intros i Hne. by rewrite rd_upd, decide_False by (done || lia).
Qed.

(** A frame that heads no allocated block: taking a reference panics. *)
Lemma frame_get_unheld mt ff fls fm L p od fl : inv mt ff fls fm L ->
  dat mt p = Some (0, od, fl) -> frame_get (St mt ff fls fm) p = None.
Proof.
  intros I Hd. pose proof (dat_range _ _ _ Hd) as Hp. rewrite (k_len (i_core _ _ _ _ _ I)) in Hp.
  apply dat_inv in Hd as (m & Em & Hm & _).
  unfold frame_get. rewrite (pfn_valid_spec Hgeo), bool_decide_eq_true_2 by done. bnd. cbn [negb].
  change (meta (St mt ff fls fm)) with mt. rewrite Em. bnd. by rewrite Hm.
Qed.

Lemma frame_put_many_refs mt ff fls fm L p r o f : inv mt ff fls fm L -> held mt p r o f -> 1 < r ->
  exists mt', frame_put (St mt ff fls fm) p = Some (St mt' ff fls fm) /\ inv mt' ff fls fm L /\
    held mt' p (r - 1) o f /\ forall i, i <> p -> rd mt' i = rd mt i.
Proof.
  intros I Hh Hr. pose proof (k_len (i_core _ _ _ _ _ I)) as Hlen.
  destruct (held_in _ _ _ _ _ I _ _ _ _ Hh) as (_ & _ & Hpr). pose proof Hh as [Hd _].
  pose proof (i_ref _ _ _ _ _ I _ _ _ _ Hd) as Hr16.
  apply dat_inv in Hd as (m & Em & Hm & Ho & Hf).
  unfold frame_put. rewrite (pfn_valid_spec Hgeo), bool_decide_eq_true_2 by done. bnd. cbn [negb].
  unfold frame_put_locked. change (meta (St mt ff fls fm)) with mt. rewrite Em. bnd.
  rewrite Hm, (proj2 (Z.ltb_lt 0 r)) by lia. rewrite put_meta_St by lia. bnd.
  rewrite (proj2 (Z.eqb_neq (r - 1) 0)) by lia. cbn [negb].
  set (m' := m {{ m_refcount := r - 1 }}).
  assert (m_refcount m' = r - 1 /\ m_order m' = o /\ m_flags m' = f) as (H1 & H2 & H3)
    by (unfold m'; destruct m; simpl in *; done).
  exists (upd_meta mt p m'). split; [done|]. split_and!.
  - eapply inv_upd_held; [done|done|lia|done|]. rewrite H3. by apply (i_alloc _ _ _ _ _ I _ _ _ _ Hh).
  - split; [|lia]. by rewrite dat_upd, decide_True, H1, H2, H3 by (done || lia).
  - intros i Hne. by rewrite rd_upd, decide_False by (done || lia).
Qed.

(** The last reference releases the block. *)
Lemma frame_put_last mt ff fls fm L p o f : inv mt ff fls fm L -> held mt p 1 o f ->
  exists mt' fls' fm' L', frame_put (St mt ff fls fm) p = Some (St mt' (lsum L') fls' fm') /\
    inv mt' (lsum L') fls' fm' L' /\ freed mt mt' L L' p o.
Proof.
  intros I Hh. destruct (held_in _ _ _ _ _ I _ _ _ _ Hh) as (_ & _ & Hpr). pose proof Hh as [Hd _].
  destruct (i_alloc _ _ _ _ _ I _ _ _ _ Hh) as ((Ho & _) & _).
  apply dat_inv in Hd as (m & Em & Hm & Hmo & Hf).
  destruct (release_held mt ff fls fm L p 1 o f m I Hh Em) as (mt' & fls' & fm' & L' & E & HI & HF).
  exists mt', fls', fm', L'. split; [|done].
  unfold frame_put. rewrite (pfn_valid_spec Hgeo), bool_decide_eq_true_2 by done. bnd. cbn [negb].
  unfold frame_put_locked. change (meta (St mt ff fls fm)) with mt. rewrite Em. bnd.
  rewrite Hm, Hmo. change (0 <? 1) with true. change (1 - 1) with 0. cbn [Z.eqb negb].
  rewrite (proj2 (Z.ltb_ge o 0)), (proj2 (Z.ltb_ge MAX_ORDER o)) by (unfold MAX_ORDER; lia).
  exact E.
Qed.

(** A frame that heads no allocated block: dropping a reference does nothing. *)
Lemma frame_put_unheld mt ff fls fm L p od fl : inv mt ff fls fm L ->
  dat mt p = Some (0, od, fl) -> frame_put (St mt ff fls fm) p = Some (St mt ff fls fm).
Proof.
  intros I Hd. pose proof (dat_range _ _ _ Hd) as Hp. rewrite (k_len (i_core _ _ _ _ _ I)) in Hp.
  apply dat_inv in Hd as (m & Em & Hm & _).
  unfold frame_put. rewrite (pfn_valid_spec Hgeo), bool_decide_eq_true_2 by done. bnd. cbn [negb].
  unfold frame_put_locked. change (meta (St mt ff fls fm)) with mt. rewrite Em. bnd. by rewrite Hm.
Qed.

Lemma pfa_free_spec mt ff fls fm L p r o f order : inv mt ff fls fm L -> held mt p r o f ->
  r = 1 \/ f <> FRAME_F_ALLOC ->
  exists mt' fls' fm' L', pfa_free (St mt ff fls fm) p order = Some (St mt' (lsum L') fls' fm') /\
    inv mt' (lsum L') fls' fm' L' /\ freed mt mt' L L' p o.
Proof.
  intros I Hh Hrf. destruct (held_in _ _ _ _ _ I _ _ _ _ Hh) as (_ & _ & Hpr). pose proof Hh as [Hd _].
  destruct (i_alloc _ _ _ _ _ I _ _ _ _ Hh) as ((Ho & _) & Hf & _).
  apply dat_inv in Hd as (m & Em & Hm & Hmo & Hmf).
  destruct (release_held mt ff fls fm L p r o f m I Hh Em) as (mt' & fls' & fm' & L' & E & HI & HF).
  exists mt', fls', fm', L'. split; [|done].
  unfold pfa_free. change (total_frames (St mt ff fls fm)) with tot.
  rewrite (proj2 (Z.leb_gt tot p)) by lia. change (meta (St mt ff fls fm)) with mt. rewrite Em. bnd.
  rewrite Hm, Hmf, Hmo, (proj2 (Z.eqb_neq f FRAME_F_FREE)) by done.
  replace ((f =? FRAME_F_ALLOC) && (1 <? r)) with false.
  2:{ destruct Hrf as [-> | Hfa]; [by rewrite andb_false_r|]. by rewrite (proj2 (Z.eqb_neq f _)). }
  rewrite (proj2 (Z.ltb_ge o 0)), (proj2 (Z.ltb_ge MAX_ORDER o)) by (unfold MAX_ORDER; lia).
  cbn [orb]. cbv zeta. rewrite (proj2 (Z.ltb_ge o 0)), (proj2 (Z.ltb_ge 31 o)) by lia. cbn [orb]. exact E.
Qed.

(** ** The audit *)

Lemma audit_walk_spec mt ff fls fm L o : core mt fls fm L ->
  forall l fuel prev walked, 0 <= walked -> walked + Z.of_nat (length l) <= tot ->
  (length l <= fuel)%nat -> dllseg mt prev l PFN_NONE -> (forall q, q ∈ l -> q ∈ L o) ->
  audit_walk fuel (St mt ff fls fm) o prev (hdn l PFN_NONE) walked =
    Some (walked + Z.of_nat (length l), false).
Proof.
  intros K l. induction l as [|p l IH]; intros fuel prev walked Hw Hle Hfuel Hseg Hin.
  { destruct fuel; cbn [audit_walk hdn length]; rewrite Z.eqb_refl; simpl; by rewrite Z.add_0_r. }
  assert (p ∈ L o) as Hp by (apply Hin; left).
  destruct (head_range Hgeo K _ _ Hp) as (Hpr & Ho & _).
  destruct (k_head K _ _ Hp) as [_ Hd]. apply dat_inv in Hd as (m & Em & _ & Hmo & Hmf).
  destruct Hseg as [(m' & Em' & Hprev & Hnext) Hseg]. rewrite Em in Em'. apply (inj Some) in Em' as <-.
  assert (tot <= PFN_NONE) as Hg by apply Hgeo. simpl length in Hle, Hfuel.
  destruct fuel as [|fuel]; [lia|]. cbn [audit_walk hdn].
  change (total_frames (St mt ff fls fm)) with tot. change (meta (St mt ff fls fm)) with mt.
  rewrite (proj2 (Z.eqb_neq p PFN_NONE)), (proj2 (Z.leb_le walked tot)) by lia. cbn [negb andb].
  rewrite (pfn_valid_spec Hgeo), bool_decide_eq_true_2 by done. bnd. cbn [negb].
  rewrite Em. bnd. rewrite Hmo, Hmf, Hprev, u8_small, !Z.eqb_refl by (unfold in_u8; lia).
  cbn [negb orb]. rewrite test_St, (owned_bit Hgeo K o p Hp). bnd. cbn [negb].
  unfold PFN_NONE in Hg. rewrite u32_small by (unfold in_u32; lia). rewrite Hnext.
  rewrite IH; [|lia|lia|lia|done|intros q Hq; apply Hin; by right]. do 2 f_equal. simpl length. lia.
Qed.

Lemma audit_order_spec mt ff fls fm L o : core mt fls fm L -> 0 <= o <= 11 ->
  audit_order (St mt ff fls fm) o = Some 0.
Proof.
  intros K Ho. pose proof (list_length Hgeo K o) as Hlen. unfold audit_order.
  change (free_lists (St mt ff fls fm)) with fls. rewrite (k_lists K) by done. bnd. cbn [fl_head fl_count].
  change (total_frames (St mt ff fls fm)) with tot.
  rewrite (audit_walk_spec mt ff fls fm L o K (L o)); [|lia|lia|lia|apply (k_links K)|done].
  bnd. rewrite Z.add_0_l, (proj2 (Z.ltb_ge _ _)), Z.eqb_refl by lia. done.
Qed.

Lemma audit_spec mt ff fls fm L : core mt fls fm L -> pfa_audit_lists (St mt ff fls fm) = Some 0.
Proof.
  intros K. unfold pfa_audit_lists.
  destruct (for_inv (fun _ e => e = 0)
    (fun o errors => e ← audit_order (St mt ff fls fm) o; Some (errors + e)) 0 (MAX_ORDER + 1) 0)
    as (s & Es & ->); [unfold MAX_ORDER; lia|done| |done].
  intros o e Ho ->. rewrite (audit_order_spec _ _ _ _ L) by (done || unfold MAX_ORDER in Ho; lia).
  bnd. by exists 0.
Qed.
End Ops.
