(* ===== verification/FrameBoot.v ===== *)
(** * Boot of the frame allocator

    pfa_init builds the range table, reserves the kernel image and the
    metadata, and puts every other frame on a free list; the result satisfies
    the invariant of the frame table. *)

From stdpp Require Import list.
From S2P Require Import Prelude Frame FrameTheory FrameOps.
#[local] Open Scope Z_scope.

(** ** Rounding *)

Lemma land_mask_mod a k : 0 <= k <= 32 -> 0 <= a < 2 ^ 64 ->
  Z.land a (u64 (Z.lnot (2 ^ k - 1))) = a - a mod 2 ^ k.
Proof.
  intros Hk Ha. assert (a - a mod 2 ^ k = Z.ldiff a (Z.ones k)) as ->.
  { rewrite Z.ldiff_ones_r by lia. rewrite Z.shiftl_mul_pow2, Z.shiftr_div_pow2 by lia.
    pose proof (Z.div_mod a (2 ^ k) ltac:(pose proof (pow2_pos k); lia)). lia. }
  apply Z.bits_inj'. intros n Hn. rewrite Z.land_spec, Z.ldiff_spec.
  replace (2 ^ k - 1) with (Z.ones k) by (rewrite Z.ones_equiv; lia).
  destruct (Z.lt_ge_cases n 64).
  - unfold u64. change 18446744073709551616 with (2 ^ 64).
    rewrite Z.mod_pow2_bits_low, Z.lnot_spec by lia. done.
  - rewrite <- (Z.mod_small a (2 ^ 64)) by lia. rewrite Z.mod_pow2_bits_high by lia. done.
Qed.

Lemma land_mask32_mod a k : 0 <= k <= 31 -> 0 <= a < 2 ^ 32 ->
  Z.land a (u32 (Z.lnot (2 ^ k - 1))) = a - a mod 2 ^ k.
Proof.
  intros Hk Ha. rewrite <- land_mask_mod by lia. apply Z.bits_inj'. intros n Hn. rewrite !Z.land_spec.
  destruct (Z.lt_ge_cases n 32).
  - unfold u32, u64. change 4294967296 with (2 ^ 32). change 18446744073709551616 with (2 ^ 64).
    by rewrite !Z.mod_pow2_bits_low by lia.
  - rewrite <- (Z.mod_small a (2 ^ 32)) by lia. by rewrite Z.mod_pow2_bits_high by lia.
Qed.

Lemma round_up64 a k : 0 <= k <= 32 -> 0 <= a -> a + 2 ^ k <= 2 ^ 64 ->
  a <= ROUND_UP u64 a (2 ^ k) < a + 2 ^ k /\ ROUND_UP u64 a (2 ^ k) mod 2 ^ k = 0.
Proof.
  intros Hk Ha Hb. pose proof (pow2_pos k ltac:(lia)). unfold ROUND_UP.
  rewrite (u64_small (a + 2 ^ k - 1)) by (unfold in_u64; lia).
  rewrite land_mask_mod by lia. pose proof (Z.mod_pos_bound (a + 2 ^ k - 1) (2 ^ k) ltac:(lia)).
  split; [lia|]. rewrite Zminus_mod_idemp_r, Z.sub_diag. done.
Qed.

Lemma round_up32 a k : 0 <= k <= 31 -> 0 <= a -> a + 2 ^ k <= 2 ^ 32 ->
  a <= ROUND_UP u32 a (2 ^ k) < a + 2 ^ k /\ ROUND_UP u32 a (2 ^ k) mod 2 ^ k = 0.
Proof.
  intros Hk Ha Hb. pose proof (pow2_pos k ltac:(lia)). unfold ROUND_UP.
  rewrite (u64_small (a + 2 ^ k - 1)) by (unfold in_u64; lia).
  rewrite land_mask32_mod by lia. pose proof (Z.mod_pos_bound (a + 2 ^ k - 1) (2 ^ k) ltac:(lia)).
  split; [lia|]. rewrite Zminus_mod_idemp_r, Z.sub_diag. done.
Qed.

(** ** Seeding the lists *)

Section Seed.
Context (tot nr dme : Z) (rs : list pfa_range_t).
Context (Hgeo : geo tot nr rs) (kern : Z -> bool).

#[local] Abbreviation St := (St tot nr dme rs).
#[local] Abbreviation core := (core tot nr rs).
#[local] Abbreviation block := (block nr rs).
#[local] Abbreviation inv := (inv tot nr rs).

(** The frames below [x] are set up: the kernel's are referenced, the others
    free; the frames from [x] on are still zero. *)
Record boot_st (x : Z) (mt : list frame_meta_t) (ff : Z) (fls : list free_list_t) (fm : list Z)
    (L : Z -> list Z) : Prop := {
  b_core : core mt fls fm L;
  b_ff : ff = lsum L;
  b_low : forall i, owned L i -> i < x;
  b_kern : forall i, 0 <= i < x -> kern i = true -> dat mt i = Some (1, 0, FRAME_F_KDATA);
  b_free : forall i, 0 <= i < x -> kern i = false -> owned L i;
  b_todo : forall i, x <= i < tot -> dat mt i = Some (0, 0, 0);
}.

Lemma seed_spec x o mt ff fls fm L : boot_st x mt ff fls fm L -> block x o ->
  (forall i, blk_in x o i -> kern i = false) ->
  exists mt' ff' fls' fm' L', seed (St mt ff fls fm) x o = Some (St mt' ff' fls' fm') /\
    boot_st (x + 2 ^ o) mt' ff' fls' fm' L'.
Proof.
  intros [K Hff Hlow Hk Hf Ht] Hb Hkern. pose proof (block_range Hgeo _ _ Hb) as Hbr.
  assert (0 <= o <= 11) as Ho by apply Hb.
  destruct (push_spec (dme := dme) Hgeo ff x o K) as (mt' & fls' & fm' & E & K' & Hd & _).
  { constructor; [done| |]; intros i Hi; unfold blk_in in Hi.
    - intros Hw. specialize (Hlow i Hw). lia.
    - intros _. exists 0. apply Ht. lia. }
  unfold seed. erewrite bind_Some_assoc by exact E. cbv beta.
  change (free_frames (St mt' ff fls' fm')) with ff.
  assert (lsum (updL L o (x :: L o)) = lsum L + 2 ^ o) as Hs by (rewrite lsum_upd by done; simpl length; lia).
  exists mt', (u32 (ff + blk o)), fls', fm', (updL L o (x :: L o)). split; [reflexivity|]. constructor.
  - exact K'.
  - pose proof (lsum_range Hgeo K'). assert (tot <= PFN_NONE) as Hg by apply Hgeo.
    unfold PFN_NONE in Hg. rewrite blk_pow by lia. rewrite u32_small by (unfold in_u32; lia). lia.
  - intros i. rewrite owned_push. unfold blk_in. intros [Hi|Hi%Hlow]; lia.
  - intros i Hi Hki. destruct (decide (i < x)).
    + rewrite Hd, decide_False by lia. apply Hk; [lia|done].
    + rewrite Hkern in Hki by (unfold blk_in; lia). done.
  - intros i Hi Hki. rewrite owned_push. destruct (decide (i < x)).
    + right. apply Hf; [lia|done].
    + left. unfold blk_in. lia.
  - intros i Hi. rewrite Hd, decide_False by lia. apply Ht. lia.
Qed.

(** A kernel frame. *)
Lemma kernel_frame x mt ff fls fm L : boot_st x mt ff fls fm L -> 0 <= x < tot -> kern x = true ->
  exists mt', put_meta (St mt ff fls fm) x {| m_prev := PFN_NONE; m_next := PFN_NONE;
      m_refcount := 1; m_order := 0; m_flags := FRAME_F_KDATA |} = Some (St mt' ff fls fm) /\
    boot_st (x + 1) mt' ff fls fm L.
Proof.
  intros [K Hff Hlow Hk Hf Ht] Hx Hkx. pose proof (k_len K) as Hlen.
  rewrite put_meta_St by lia. eexists. split; [done|].
  assert (~ owned L x) as Hno by (intros H%Hlow; lia).
  constructor; try done.
  - by apply (core_upd Hgeo K).
  - intros i Hi%Hlow. lia.
  - intros i Hi Hki. rewrite dat_upd by lia. destruct (decide (i = x)) as [->|]; [done|].
    apply Hk; [lia|done].
  - intros i Hi Hki. apply Hf; [|done]. destruct (decide (i = x)) as [->|]; [congruence|lia].
  - intros i Hi. rewrite dat_upd, decide_False by lia. apply Ht. lia.
Qed.

(** Blocks of one order. *)
Lemma seed_order_spec o r fuel : forall x remain mt ff fls fm L, 0 <= o <= 11 ->
  r ∈ the_ranges nr rs -> r_start_pfn r <= x -> x + remain = r_end_pfn r -> 0 <= remain ->
  x mod 2 ^ o = 0 -> (forall i, x <= i < r_end_pfn r -> kern i = false) ->
  boot_st x mt ff fls fm L -> remain / 2 ^ o <= Z.of_nat fuel ->
  exists x' mt' ff' fls' fm' L',
    seed_order fuel o (St mt ff fls fm) x remain =
      Some (St mt' ff' fls' fm', x', r_end_pfn r - x') /\
    x <= x' <= r_end_pfn r /\ r_end_pfn r - x' < 2 ^ o /\ x' mod 2 ^ o = 0 /\
    boot_st x' mt' ff' fls' fm' L'.
Proof.
  induction fuel as [|fuel IH]; intros x remain mt ff fls fm L Ho Hr Hx Hrem H0 Ha Hk B Hfuel;
    pose proof (pow2_pos o ltac:(lia)) as Hpos; cbn [seed_order]; rewrite blk_pow by lia.
  - assert (remain < 2 ^ o) as Hlt.
    { destruct (Z.lt_ge_cases remain (2 ^ o)); [done|].
      assert (1 <= remain / 2 ^ o) by (apply Z.div_le_lower_bound; lia). lia. }
    rewrite (proj2 (Z.leb_gt _ _)) by lia. exists x, mt, ff, fls, fm, L.
    replace (r_end_pfn r - x) with remain by lia. split_and!; try done; lia.
  - destruct (Z.leb_spec (2 ^ o) remain) as [Hle|Hlt].
    2:{ exists x, mt, ff, fls, fm, L. replace (r_end_pfn r - x) with remain by lia.
        split_and!; try done; lia. }
    pose proof (range_chain_in _ _ _ _ (geo_chain _ _ _ Hgeo) Hr) as Hin.
    assert (tot <= PFN_NONE) as Hg by apply Hgeo. unfold PFN_NONE in Hg.
    destruct (seed_spec x o mt ff fls fm L B) as (mt1 & ff1 & fls1 & fm1 & L1 & -> & B1).
    { split; [done|]. split; [done|]. exists r. split; [done|]. lia. }
    { intros i Hi. apply Hk. unfold blk_in in Hi. lia. }
    bnd. rewrite u32_small by (unfold in_u32; lia).
    destruct (IH (x + 2 ^ o) (remain - 2 ^ o) mt1 ff1 fls1 fm1 L1)
      as (x' & mt' & ff' & fls' & fm' & L' & E & H1 & H2 & H3 & B'); try done; try lia.
    + rewrite <- Ha. rewrite <- (Z.mul_1_l (2 ^ o)) at 1. apply Z.mod_add. lia.
    + intros i Hi. apply Hk. lia.
    + replace (remain - 2 ^ o) with (remain + (-1) * 2 ^ o) by lia. rewrite Z.div_add by lia. lia.
    + exists x', mt', ff', fls', fm', L'. split_and!; try done; lia.
Qed.

(** All orders, from the largest: nothing remains. *)
Lemma seed_orders_spec r n : forall x mt ff fls fm L, (n <= 12)%nat ->
  r ∈ the_ranges nr rs -> r_start_pfn r <= x <= r_end_pfn r ->
  (0 < n)%nat \/ x = r_end_pfn r -> ((0 < n)%nat -> x mod 2 ^ (Z.of_nat n - 1) = 0) ->
  (forall i, x <= i < r_end_pfn r -> kern i = false) -> boot_st x mt ff fls fm L ->
  exists x' rem' mt' ff' fls' fm' L',
    seed_orders n (St mt ff fls fm) x (r_end_pfn r - x) = Some (St mt' ff' fls' fm', x', rem') /\
    boot_st (r_end_pfn r) mt' ff' fls' fm' L'.
Proof.
  induction n as [|n IH]; intros x mt ff fls fm L Hn Hr Hx Hn0 Ha Hk B; cbn [seed_orders].
  { destruct Hn0 as [?|Hxe]; [lia|]. subst x. by exists (r_end_pfn r), (r_end_pfn r - r_end_pfn r), mt, ff, fls, fm, L. }
  destruct (Z.ltb_spec 0 (r_end_pfn r - x)) as [Hpos|Hpos].
  2:{ assert (x = r_end_pfn r) as -> by lia. by eexists _, _, mt, ff, fls, fm, L. }
  specialize (Ha ltac:(lia)). replace (Z.of_nat (S n) - 1) with (Z.of_nat n) in Ha by lia.
  destruct (seed_order_spec (Z.of_nat n) r (Z.to_nat ((r_end_pfn r - x) / blk (Z.of_nat n))) x
    (r_end_pfn r - x) mt ff fls fm L) as (x1 & mt1 & ff1 & fls1 & fm1 & L1 & -> & H1 & H2 & H3 & B1);
    try done; try lia.
  { rewrite blk_pow by lia. pose proof (pow2_pos (Z.of_nat n) ltac:(lia)).
    pose proof (Z.div_pos (r_end_pfn r - x) (2 ^ Z.of_nat n) ltac:(lia) ltac:(lia)). lia. }
  bnd. apply (IH x1 mt1 ff1 fls1 fm1 L1); try done; try lia.
  - destruct n as [|n]; [right|left; lia]. simpl in H2. lia.
  - intros Hn'. destruct n as [|n]; [lia|]. replace (Z.of_nat (S n) - 1) with (Z.of_nat n) by lia.
    apply mod_pow2_S; [lia|]. by replace (Z.of_nat n + 1) with (Z.of_nat (S n)) by lia.
  - intros i Hi. apply Hk. lia.
Qed.

(** The number of frames of a range that the kernel and the metadata use. *)
Definition used_of (meta_pa used_end_pa : Z) (r : pfa_range_t) : Z :=
  if (r_base r <=? meta_pa) && (meta_pa <? r_end r) then
    let u := u32 (Z.shiftr (u64 (used_end_pa - r_base r)) PAGE_SIZE_BITS) in
    if u32 (r_end_pfn r - r_start_pfn r) <? u then u32 (r_end_pfn r - r_start_pfn r) else u
  else 0.

Context (meta_pa used_end_pa : Z).
Context (Hkern : forall r i, r ∈ the_ranges nr rs -> in_rng r i ->
  kern i = (i <? r_start_pfn r + used_of meta_pa used_end_pa r)).
Context (Hsmall : tot + 2048 <= 2 ^ 32).

Lemma used_range r : r ∈ the_ranges nr rs ->
  0 <= used_of meta_pa used_end_pa r <= r_end_pfn r - r_start_pfn r.
Proof.
  intros Hr. pose proof (range_chain_in _ _ _ _ (geo_chain _ _ _ Hgeo) Hr) as Hin.
  unfold used_of. rewrite (u32_small (r_end_pfn r - r_start_pfn r)) by (unfold in_u32; lia).
  destruct (_ && _); [|lia]. cbv zeta.
  match goal with |- context [u32 ?z] => pose proof (u32_range z) as Hu; unfold in_u32 in Hu end.
  destruct (Z.ltb_spec (r_end_pfn r - r_start_pfn r)
    (u32 (Z.shiftr (u64 (used_end_pa - r_base r)) PAGE_SIZE_BITS))); lia.
Qed.

Lemma init_range_spec r mt ff fls fm L : r ∈ the_ranges nr rs ->
  boot_st (r_start_pfn r) mt ff fls fm L ->
  exists mt' ff' fls' fm' L',
    init_range meta_pa used_end_pa (St mt ff fls fm) r = Some (St mt' ff' fls' fm') /\
    boot_st (r_end_pfn r) mt' ff' fls' fm' L'.
Proof.
  intros Hr B. pose proof (range_chain_in _ _ _ _ (geo_chain _ _ _ Hgeo) Hr) as Hin.
  pose proof (used_range r Hr) as Hu. unfold init_range.
  change (if (r_base r <=? meta_pa) && (meta_pa <? r_end r) then _ else _)
    with (used_of meta_pa used_end_pa r). cbv zeta.
  set (used := used_of meta_pa used_end_pa r) in *.
  assert (forall i, in_rng r i -> kern i = (i <? r_start_pfn r + used)) as Hk by (intros; by apply Hkern).
  unfold in_rng in Hk.
  rewrite (u32_small (r_start_pfn r + used)) by (unfold in_u32; lia).
  assert (r_start_pfn r <= r_start_pfn r + used <= r_end_pfn r) as Hlo by lia.
  set (lo := r_start_pfn r + used) in *.
  destruct (for_inv (fun i s => exists mt' ff' fls' fm' L', s = St mt' ff' fls' fm' /\
      boot_st i mt' ff' fls' fm' L')
    (fun i s => put_meta s i {| m_prev := PFN_NONE; m_next := PFN_NONE; m_refcount := 1;
       m_order := 0; m_flags := FRAME_F_KDATA |}) (r_start_pfn r) lo (St mt ff fls fm))
    as (s1 & -> & mt1 & ff1 & fls1 & fm1 & L1 & -> & B1); [lia|by exists mt, ff, fls, fm, L| |].
  { intros i s Hi (mt1 & ff1 & fls1 & fm1 & L1 & -> & B1).
    destruct (kernel_frame i mt1 ff1 fls1 fm1 L1 B1) as (mt2 & -> & B2); [lia| |].
    - rewrite Hk by lia. apply Z.ltb_lt. lia.
    - eexists. split; [done|]. by exists mt2, ff1, fls1, fm1, L1. }
  bnd. change (blk MAX_ORDER) with (2 ^ 11).
  destruct (round_up32 lo 11) as [Hup Hal]; [lia|lia|simpl; lia|].
  rewrite (u32_small (ROUND_UP u32 lo (2 ^ 11))) by (unfold in_u32; simpl in *; lia).
  set (start := ROUND_UP u32 lo (2 ^ 11)) in *.
  destruct (for_inv (fun i s => exists mt' ff' fls' fm' L', s = St mt' ff' fls' fm' /\
      boot_st i mt' ff' fls' fm' L') (fun i s => seed s i 0) lo (Z.min start (r_end_pfn r))
      (St mt1 ff1 fls1 fm1))
    as (s2 & -> & mt2 & ff2 & fls2 & fm2 & L2 & -> & B2); [lia|by exists mt1, ff1, fls1, fm1, L1| |].
  { intros i s Hi (mt2 & ff2 & fls2 & fm2 & L2 & -> & B2).
    destruct (seed_spec i 0 mt2 ff2 fls2 fm2 L2 B2) as (mt3 & ff3 & fls3 & fm3 & L3 & -> & B3).
    - split; [lia|]. split; [apply Z.mod_1_r|]. exists r. split; [done|]. simpl. lia.
    - intros j Hj. unfold blk_in in Hj. simpl in Hj. rewrite Hk by lia. apply Z.ltb_ge. lia.
    - eexists. split; [done|]. by exists mt3, ff3, fls3, fm3, L3. }
  bnd. destruct (Z.ltb_spec start (r_end_pfn r)) as [Hlt|Hge].
  - rewrite Z.min_l in B2 by lia.
    destruct (seed_orders_spec r (Z.to_nat (MAX_ORDER + 1)) start mt2 ff2 fls2 fm2 L2)
      as (x' & rem' & mt3 & ff3 & fls3 & fm3 & L3 & -> & B3); try done.
    + lia.
    + left. unfold MAX_ORDER. lia.
    + intros i Hi. rewrite Hk by lia. apply Z.ltb_ge. lia.
    + by exists mt3, ff3, fls3, fm3, L3.
  - rewrite Z.min_r in B2 by lia. change (Z.to_nat (MAX_ORDER + 1)) with 12%nat. simpl.
    by exists mt2, ff2, fls2, fm2, L2.
Qed.

(** The ranges one after the other. *)
Lemma init_all_ranges mt ff fls fm L : boot_st 0 mt ff fls fm L ->
  exists mt' ff' fls' fm' L',
    for_ 0 nr (fun i s => r ← rd (ranges s) i; init_range meta_pa used_end_pa s r) (St mt ff fls fm)
      = Some (St mt' ff' fls' fm') /\ boot_st tot mt' ff' fls' fm' L'.
Proof.
  intros B. pose proof Hgeo as [Htot Hnr Hch].
  assert (forall l a k r, range_chain a l tot -> l !! k = Some r ->
    match l !! S k with Some r' => r_start_pfn r' = r_end_pfn r | None => r_end_pfn r = tot end) as Hnext.
  { induction l as [|x l IH]; intros a k r Hc Hk; [done|]. destruct Hc as (_ & _ & _ & _ & _ & _ & Hc).
    destruct k as [|k]; [|by eapply IH]. simpl in Hk. simplify_eq. simpl.
    destruct l as [|y l]; simpl in *; [done|]. by destruct Hc. }
  set (pos := fun i : Z => match the_ranges nr rs !! Z.to_nat i with
                           | Some r => r_start_pfn r | None => tot end).
  destruct (for_inv (fun i s => exists mt' ff' fls' fm' L', s = St mt' ff' fls' fm' /\
      boot_st (pos i) mt' ff' fls' fm' L')
    (fun i s => r ← rd (ranges s) i; init_range meta_pa used_end_pa s r) 0 nr (St mt ff fls fm))
    as (s1 & -> & mt1 & ff1 & fls1 & fm1 & L1 & -> & B1); [lia| | |].
  - exists mt, ff, fls, fm, L. split; [done|]. replace (pos 0) with 0; [done|]. unfold pos. simpl.
    unfold the_ranges. destruct (take (Z.to_nat nr) rs) as [|r l]; simpl in *; [done|]. by destruct Hch.
  - intros i s Hi (mt1 & ff1 & fls1 & fm1 & L1 & -> & B1).
    change (ranges (St mt1 ff1 fls1 fm1)) with rs.
    destruct (rd_is_Some rs i ltac:(lia)) as [r Er]. rewrite Er. bnd.
    assert (the_ranges nr rs !! Z.to_nat i = Some r) as El.
    { unfold the_ranges. rewrite lookup_take_lt by lia. unfold rd in Er.
      by rewrite (proj2 (Z.leb_le 0 i)) in Er by lia. }
    assert (pos i = r_start_pfn r) as Hpos by (unfold pos; by rewrite El). rewrite Hpos in B1.
    destruct (init_range_spec r mt1 ff1 fls1 fm1 L1) as (mt2 & ff2 & fls2 & fm2 & L2 & -> & B2);
      [by eapply list_elem_of_lookup_2|done|].
    eexists. split; [done|]. exists mt2, ff2, fls2, fm2, L2. split; [done|].
    replace (pos (i + 1)) with (r_end_pfn r); [done|].
    pose proof (Hnext _ _ _ _ Hch El) as Hn. unfold pos.
    replace (Z.to_nat (i + 1)) with (S (Z.to_nat i)) by lia. unfold the_ranges.
    by destruct (take (Z.to_nat nr) rs !! S (Z.to_nat i)).
  - exists mt1, ff1, fls1, fm1, L1. split; [done|]. replace tot with (pos nr); [done|]. unfold pos.
    rewrite lookup_ge_None_2; [done|]. unfold the_ranges. rewrite length_take. lia.
Qed.

(** All frames set up: the invariant of the table. *)
Lemma frame_boot_inv mt ff fls fm L : boot_st tot mt ff fls fm L -> inv mt ff fls fm L.
Proof.
  intros [K Hff Hlow Hk Hf _].
  assert (forall p r o f, held mt p r o f -> 0 <= p < tot /\ r = 1 /\ o = 0 /\ f = FRAME_F_KDATA /\
            kern p = true) as Hh.
  { intros p r o f [Hd Hr]. pose proof (dat_range _ _ _ Hd) as Hp. rewrite (k_len K) in Hp.
    destruct (kern p) eqn:Ek.
    - rewrite Hk in Hd by done. by simplify_eq.
    - destruct (owned_dat K p (Hf p Hp Ek)) as [od Hod]. rewrite Hd in Hod. simplify_eq; lia. }
  assert (forall p, 0 <= p < tot -> kern p = true -> ~ owned L p) as Hko.
  { intros p Hp Ek Ho. destruct (owned_dat K p Ho) as [od Hod]. rewrite Hk in Hod by done. by simplify_eq. }
  constructor; try done.
  - intros p r o f Hd. destruct (decide (0 < r)) as [Hr|Hr].
    + destruct (Hh p r o f (conj Hd Hr)) as (_ & -> & _). lia.
    + pose proof (dat_range _ _ _ Hd) as Hp. rewrite (k_len K) in Hp.
      destruct (kern p) eqn:Ek; [rewrite Hk in Hd by done; simplify_eq; lia|].
      destruct (owned_dat K p (Hf p Hp Ek)) as [od Hod]. rewrite Hd in Hod. simplify_eq; lia.
  - intros p r o f H. destruct (Hh p r o f H) as (Hp & -> & -> & -> & Ek). split; [|split; [done|]].
    + split; [lia|]. split; [apply Z.mod_1_r|].
      destruct (range_chain_find _ _ _ _ (geo_chain _ _ _ Hgeo) Hp) as (i & r & Hi & Hr).
      exists r. split; [by eapply list_elem_of_lookup_2|]. simpl. lia.
    + intros i Hi. unfold blk_in in Hi. simpl in Hi. assert (i = p) as -> by lia.
      split; [by apply Hko|done].
  - intros i Hi. destruct (kern i) eqn:Ek; [right|left; by apply Hf].
    exists i, 1, 0, FRAME_F_KDATA. split; [split; [by apply Hk|lia]|]. unfold blk_in. simpl. lia.
Qed.
End Seed.

(** ** Addresses *)

(** No physical address lies in two ranges. *)
Definition phys_disj (l : list pfa_range_t) : Prop :=
  forall r r' pa, r ∈ l -> r' ∈ l -> r_base r <= pa < r_end r -> r_base r' <= pa < r_end r' -> r = r'.

Section Addresses.
Context (tot nr dme : Z) (rs : list pfa_range_t) (Hgeo : geo tot nr rs).
#[local] Abbreviation St := (St tot nr dme rs).

(** The physical address of a frame of a range. *)
Definition phys (r : pfa_range_t) (p : Z) : Z := r_base r + 4096 * (p - r_start_pfn r).

Lemma phys_range r p : r ∈ the_ranges nr rs -> in_rng r p ->
  r_base r <= phys r p /\ phys r p + 4096 <= r_end r /\ 0 <= r_base r /\ r_end r < 2 ^ 64 /\
  in_u32 (p - r_start_pfn r) /\ 0 <= p < tot.
Proof.
  intros Hr Hp. pose proof (range_chain_in _ _ _ _ (geo_chain _ _ _ Hgeo) Hr) as Hin.
  assert (tot <= PFN_NONE) as Hg by apply Hgeo. unfold PFN_NONE, phys, in_rng, in_u32 in *. lia.
Qed.

Lemma pfn_to_phys_in mt ff fls fm r p : r ∈ the_ranges nr rs -> in_rng r p ->
  pfn_to_phys (St mt ff fls fm) p = Some (phys r p).
Proof.
  intros Hr Hp. destruct (phys_range r p Hr Hp) as (H1 & H2 & H3 & H4 & H5 & _).
  unfold pfn_to_phys. rewrite (range_for_in Hgeo mt ff fls fm p r Hr Hp). bnd.
  unfold PAGE_SIZE_BITS. rewrite Z.shiftl_mul_pow2 by lia. change (2 ^ 12) with 4096.
  rewrite (u32_small (p - r_start_pfn r)) by done. unfold in_u32 in H5. unfold phys in *.
  rewrite (u64_small ((p - r_start_pfn r) * 4096)) by (unfold in_u64; lia).
  rewrite u64_small by (unfold in_u64; lia). f_equal. lia.
Qed.

Lemma range_for_pa_in mt ff fls fm r pa : phys_disj (the_ranges nr rs) -> r ∈ the_ranges nr rs ->
  r_base r <= pa < r_end r -> pfa_range_for_pa (St mt ff fls fm) pa = Some (Some r).
Proof.
  intros Hd Hr Hpa. pose proof Hgeo as [_ Hnr _]. unfold pfa_range_for_pa.
  change (nr_ranges (St mt ff fls fm)) with nr. change (ranges (St mt ff fls fm)) with rs.
  assert (forall j, 0 <= j < nr -> exists x, rd rs j = Some x /\ x ∈ the_ranges nr rs) as Hrd.
  { intros j Hj. destruct (rd_is_Some rs j ltac:(lia)) as [x Ex]. exists x. split; [done|].
    apply (list_elem_of_lookup_2 _ (Z.to_nat j)). unfold the_ranges. rewrite lookup_take_lt by lia.
    unfold rd in Ex. by rewrite (proj2 (Z.leb_le 0 j)) in Ex by lia. }
  match goal with |- for_return 0 nr ?b = _ => set (body := b) end.
  destruct (for_return 0 nr body) as [[x|]|] eqn:E.
  - apply for_return_Some in E as (j & Hj & Ej & _). destruct (Hrd j Hj) as (y & Ey & Hy).
    unfold body in Ej. rewrite Ey in Ej. simpl in Ej.
    destruct ((r_base y <=? pa) && (pa <? r_end y)) eqn:Ec; [|done]. simplify_eq. reflect.
    do 2 f_equal. by eapply Hd.
  - exfalso. apply list_elem_of_lookup_1 in Hr as [k Hk].
    pose proof (lookup_lt_Some _ _ _ Hk) as Hlt. unfold the_ranges in *. rewrite length_take in Hlt.
    pose proof (proj1 (for_return_None _ _ _) E (Z.of_nat k) ltac:(lia)) as Eb. unfold body in Eb.
    rewrite rd_nat in Eb. rewrite lookup_take_lt in Hk by lia. rewrite Hk in Eb. simpl in Eb.
    by rewrite (proj2 (Z.leb_le _ _)), (proj2 (Z.ltb_lt _ _)) in Eb by lia.
  - exfalso. revert E. apply for_return_total. intros j Hj. unfold body.
    destruct (Hrd j Hj) as (x & -> & _). done.
Qed.

(** Every address inside a frame leads back to the frame. *)
Lemma phys_to_pfn_in mt ff fls fm r p k : phys_disj (the_ranges nr rs) -> r ∈ the_ranges nr rs ->
  in_rng r p -> 0 <= k < 4096 -> phys_to_pfn (St mt ff fls fm) (phys r p + k) = Some p.
Proof.
  intros Hd Hr Hp Hk. destruct (phys_range r p Hr Hp) as (H1 & H2 & H3 & H4 & H5 & H6).
  unfold phys_to_pfn. rewrite (range_for_pa_in mt ff fls fm r) by (done || lia). bnd. unfold phys in *.
  rewrite u64_small by (unfold in_u64; lia). unfold PAGE_SIZE_BITS.
  rewrite Z.shiftr_div_pow2 by lia. change (2 ^ 12) with 4096.
  replace (r_base r + 4096 * (p - r_start_pfn r) + k - r_base r) with (k + (p - r_start_pfn r) * 4096) by lia.
  rewrite Z.div_add, Z.div_small by lia. rewrite Z.add_0_l, (u32_small (p - r_start_pfn r)) by done.
  replace (r_start_pfn r + (p - r_start_pfn r)) with p by lia.
  assert (tot <= PFN_NONE) as Hg by apply Hgeo. unfold PFN_NONE in Hg.
  by rewrite u32_small by (unfold in_u32; lia).
Qed.
End Addresses.

(** ** The range table *)

Definition ram_frames (ram : list (Z * Z)) : Z :=
  foldr Z.add 0 (map (fun x => (x.2 - x.1) / 4096) ram).

(** What the platform's table has to satisfy: one to four ranges of whole
    pages, without overlap, and frame numbers that fit. *)
Record ram_ok (ram : list (Z * Z)) : Prop := {
  ram_len : (1 <= length ram <= 4)%nat;
  ram_page : forall x, x ∈ ram -> 0 <= x.1 < x.2 /\ x.2 < 2 ^ 64 /\ x.1 mod 4096 = 0 /\ x.2 mod 4096 = 0;
  ram_disj : forall i j x y pa, ram !! i = Some x -> ram !! j = Some y ->
    x.1 <= pa < x.2 -> y.1 <= pa < y.2 -> i = j;
  ram_fits : ram_frames ram + 2048 <= 2 ^ 32;
}.

Fixpoint mk_ranges (start : Z) (ram : list (Z * Z)) : list pfa_range_t :=
  match ram with
  | [] => []
  | x :: ram' =>
      let e := start + (x.2 - x.1) / 4096 in
      {| r_base := x.1; r_end := x.2; r_start_pfn := start; r_end_pfn := e |} :: mk_ranges e ram'
  end.

Lemma ram_frames_app l k : ram_frames (l ++ k) = ram_frames l + ram_frames k.
Proof. unfold ram_frames. induction l as [|x l IH]; simpl; [done|]. by rewrite IH, Z.add_assoc. Qed.

Lemma mk_ranges_app l k start :
  mk_ranges start (l ++ k) = mk_ranges start l ++ mk_ranges (start + ram_frames l) k.
Proof.
  revert start. induction l as [|x l IH]; intros start; simpl.
  { unfold ram_frames. simpl. by rewrite Z.add_0_r. }
  rewrite IH. do 2 f_equal. unfold ram_frames. simpl. by rewrite Z.add_assoc.
Qed.

Lemma length_mk_ranges l start : length (mk_ranges start l) = length l.
Proof. revert start. induction l; intros; simpl; [done|]. by rewrite IHl. Qed.

Lemma mk_ranges_lookup l start i r : mk_ranges start l !! i = Some r ->
  exists x, l !! i = Some x /\ r_base r = x.1 /\ r_end r = x.2.
Proof.
  revert start i. induction l as [|x l IH]; intros start i H; [done|].
  destruct i as [|i]; simpl in *; [|by eapply IH]. simplify_eq. by exists x.
Qed.

Definition ram_entry (x : Z * Z) : Prop :=
  0 <= x.1 < x.2 /\ x.2 < 2 ^ 64 /\ x.1 mod 4096 = 0 /\ x.2 mod 4096 = 0.

Lemma ram_frames_nonneg l : Forall ram_entry l -> 0 <= ram_frames l.
Proof.
  induction 1 as [|x l (H & _) _ IH]; unfold ram_frames in *; simpl; [lia|].
  pose proof (Z.div_pos (x.2 - x.1) 4096). lia.
Qed.

Lemma mk_ranges_chain l start : Forall ram_entry l -> 0 <= start ->
  range_chain start (mk_ranges start l) (start + ram_frames l).
Proof.
  intros H. revert start. induction H as [|x l (H1 & H2 & H3 & H4) Hl IH]; intros start Hs; simpl.
  { unfold ram_frames. simpl. lia. }
  assert (x.2 - x.1 = 4096 * ((x.2 - x.1) / 4096)) as Hd.
  { apply Z.div_exact; [lia|]. rewrite Zminus_mod, H3, H4. done. }
  replace (start + ram_frames (x :: l)) with (start + (x.2 - x.1) / 4096 + ram_frames l)
    by (unfold ram_frames; simpl; lia).
  split_and!; try done; try lia. apply IH. lia.
Qed.

Lemma mk_ranges_disj ram : ram_ok ram -> phys_disj (mk_ranges 0 ram).
Proof.
  intros [_ _ Hd _] r r' pa Hr Hr' Hpa Hpa'.
  apply list_elem_of_lookup_1 in Hr as [i Hi], Hr' as [j Hj].
  destruct (mk_ranges_lookup _ _ _ _ Hi) as (x & Hx & Ex1 & Ex2).
  destruct (mk_ranges_lookup _ _ _ _ Hj) as (y & Hy & Ey1 & Ey2).
  assert (i = j) as -> by (apply (Hd i j x y pa); [done|done|lia|lia]). congruence.
Qed.

Lemma page_mask a : a mod 4096 = 0 -> c_true (Z.land a (PAGE_SIZE - 1)) = false.
Proof.
  intros H. change (PAGE_SIZE - 1) with (Z.ones 12). rewrite Z.land_ones by lia.
  change (2 ^ 12) with 4096. by rewrite H.
Qed.

Lemma init_ranges_spec ram mt tot0 ff rs0 fls fm dme : ram_ok ram -> length rs0 = 4%nat ->
  exists max_end,
    init_ranges ram {| meta := mt; total_frames := tot0; free_frames := ff;
        nr_ranges := Z.of_nat (length ram); ranges := rs0; free_lists := fls;
        g_pfa_freemap := fm; g_pfa_direct_map_end := dme |} =
      Some ({| meta := mt; total_frames := ram_frames ram; free_frames := ff;
        nr_ranges := Z.of_nat (length ram); ranges := mk_ranges 0 ram ++ drop (length ram) rs0;
        free_lists := fls; g_pfa_freemap := fm; g_pfa_direct_map_end := dme |}, max_end) /\
    forall x, x ∈ ram -> x.2 <= max_end.
Proof.
  intros [Hlen Hpg _ Hfit] Hrs. unfold init_ranges. cbn [nr_ranges].
  match goal with |- context [for_ 0 _ ?b (?s, 0)] => set (body := b); set (s0 := s) end.
  destruct (for_inv (fun i st => exists max_end,
    st = ({| meta := mt; total_frames := ram_frames (take (Z.to_nat i) ram); free_frames := ff;
        nr_ranges := Z.of_nat (length ram);
        ranges := mk_ranges 0 (take (Z.to_nat i) ram) ++ drop (Z.to_nat i) rs0;
        free_lists := fls; g_pfa_freemap := fm; g_pfa_direct_map_end := dme |}, max_end) /\
    forall x, x ∈ take (Z.to_nat i) ram -> x.2 <= max_end)
    body 0 (Z.of_nat (length ram)) (s0, 0)) as (st & -> & max_end & -> & Hmax).
  - lia.
  - exists 0. split; [done|]. intros x Hx. by apply elem_of_nil in Hx.
  - intros i st Hi (max_end & -> & Hmax). unfold body, arch_ram_range.
    destruct (rd_is_Some ram i Hi) as [[b e] Ex]. rewrite Ex. bnd.
    unfold rd in Ex. rewrite (proj2 (Z.leb_le 0 i)) in Ex by lia.
    destruct (Hpg (b, e)) as (Hbe & He & Hb & Hem); [by eapply list_elem_of_lookup_2|]. simpl in *.
    rewrite (proj2 (Z.leb_gt e b)), !page_mask by (done || lia). cbn [orb].
    pose proof (take_S_r ram (Z.to_nat i) (b, e) Ex) as Htk.
    assert (Z.to_nat (i + 1) = S (Z.to_nat i)) as Hi1 by lia.
    assert (Forall ram_entry ram) as Hent by (apply list.Forall_forall; done).
    assert (ram_frames (take (S (Z.to_nat i)) ram)
              = ram_frames (take (Z.to_nat i) ram) + (e - b) / 4096) as Hsum.
    { rewrite Htk, ram_frames_app. unfold ram_frames at 2. simpl. lia. }
    assert (0 <= ram_frames (take (Z.to_nat i) ram) /\ 0 <= (e - b) / 4096 /\
            ram_frames (take (S (Z.to_nat i)) ram) <= ram_frames ram) as (H0 & H1 & H2).
    { split_and!.
      - by apply ram_frames_nonneg, Forall_take.
      - apply Z.div_pos; lia.
      - rewrite <- (take_drop (S (Z.to_nat i)) ram) at 2. rewrite ram_frames_app.
        pose proof (ram_frames_nonneg (drop (S (Z.to_nat i)) ram) ltac:(by apply Forall_drop)). lia. }
    unfold PAGE_SIZE_BITS. rewrite Z.shiftr_div_pow2 by lia. change (2 ^ 12) with 4096.
    rewrite (u32_small ((e - b) / 4096)), u32_small by (unfold in_u32; lia).
    rewrite wr_Some by (rewrite length_app, length_mk_ranges, length_take, length_drop; lia).
    bnd. eexists. split; [done|]. eexists. split.
    + f_equal. rewrite Hi1, Hsum, Htk, mk_ranges_app. f_equal. simpl.
      rewrite insert_app_r_alt by (rewrite length_mk_ranges, length_take; lia).
      rewrite length_mk_ranges, length_take.
      replace (Z.to_nat i - Z.to_nat i `min` length ram)%nat with 0%nat by lia.
      destruct (lookup_lt_is_Some_2 rs0 (Z.to_nat i)) as [r Er]; [lia|].
      rewrite (drop_S _ r _ Er). simpl. rewrite <- app_assoc. done.
    + intros x. rewrite Hi1, Htk, elem_of_app, list_elem_of_singleton.
      destruct (Z.ltb_spec max_end e); intros [Hx%Hmax| ->]; simpl; lia.
  - rewrite Nat2Z.id, firstn_all in *. by exists max_end.
Qed.

(** ** The empty lists *)

Lemma init_lists fls : length fls = 12%nat ->
  for_ 0 (MAX_ORDER + 1) (fun i l => wr l i {| fl_head := PFN_NONE; fl_count := 0 |}) fls
    = Some (replicate 12 {| fl_head := PFN_NONE; fl_count := 0 |}).
Proof.
  intros H. do 12 (destruct fls as [|? fls]; [done|]). destruct fls; [|done]. reflexivity.
Qed.

Lemma rd_replicate {A} (x : A) n i : 0 <= i < Z.of_nat n -> rd (replicate n x) i = Some x.
Proof.
  intros H. unfold rd. rewrite (proj2 (Z.leb_le 0 i)) by lia. apply lookup_replicate_2. lia.
Qed.

Lemma boot_empty tot nr rs kern : geo tot nr rs ->
  boot_st tot nr rs kern 0 (replicate (Z.to_nat tot) meta_zero) 0
    (replicate 12 {| fl_head := PFN_NONE; fl_count := 0 |}) (replicate (Z.to_nat ((tot + 7) / 8)) 0)
    (fun _ => []).
Proof.
  intros Hgeo. pose proof (geo_tot _ _ _ Hgeo) as Ht.
  assert (0 <= (tot + 7) / 8) as Hd by (apply Z.div_pos; lia).
  constructor; [|done| |intros; lia|intros; lia|].
  - constructor; try (intros; by exfalso; eapply elem_of_nil); try done.
    + rewrite length_replicate. lia.
    + rewrite length_replicate. lia.
    + intros o Ho. apply rd_replicate; lia.
    + intros p Hp. exists false. split; [|split; [done|by intros [o Ho%elem_of_nil]]]. unfold tst.
      rewrite rd_replicate; [|rewrite Z.shiftr_div_pow2 by lia; change (2 ^ 3) with 8; zlia].
      bnd. by rewrite Z.shiftr_0_l.
    + intros o. constructor.
  - intros i (o & p & Hp & _). by apply elem_of_nil in Hp.
  - intros i Hi. unfold dat. by rewrite rd_replicate by lia.
Qed.

(** ** The booted allocator *)

(** The invariant of an allocator state; [L] is the contents of its lists. *)
Record wf (s : pfa_t) (L : Z -> list Z) : Prop := {
  wf_geo : geo (total_frames s) (nr_ranges s) (ranges s);
  wf_phys : phys_disj (the_ranges (nr_ranges s) (ranges s));
  wf_inv : exists fm, g_pfa_freemap s = Some fm /\
    inv (total_frames s) (nr_ranges s) (ranges s) (meta s) (free_frames s) (free_lists s) fm L;
}.

Lemma wf_St s L : wf s L -> exists tot nr dme rs mt ff fls fm, s = St tot nr dme rs mt ff fls fm /\
  geo tot nr rs /\ phys_disj (the_ranges nr rs) /\ inv tot nr rs mt ff fls fm L.
Proof.
  intros [Hg Hp (fm & Ef & I)]. destruct s as [mt tot ff nr rs fls fmo dme]. simpl in *. subst fmo.
  by exists tot, nr, dme, rs, mt, ff, fls, fm.
Qed.

Lemma St_wf tot nr dme rs mt ff fls fm L : geo tot nr rs -> phys_disj (the_ranges nr rs) ->
  inv tot nr rs mt ff fls fm L -> wf (St tot nr dme rs mt ff fls fm) L.
Proof. intros Hg Hp I. constructor; [done|done|]. by exists fm. Qed.

(** The kernel's frames: those below the end of the metadata in its range. *)
Section Used.
Context (kr : pfa_range_t) (meta_pa meta_end : Z).
Context (Hkr : r_base kr <= meta_pa < r_end kr) (Hend : meta_pa <= meta_end <= r_end kr).
Context (Hpage : 0 <= r_base kr /\ r_base kr mod 4096 = 0 /\ r_end kr < 2 ^ 64 /\
  r_end kr = r_base kr + 4096 * (r_end_pfn kr - r_start_pfn kr) /\
  0 <= r_start_pfn kr /\ r_end_pfn kr < 2 ^ 32).

Lemma used_kernel i : r_start_pfn kr <= i < r_end_pfn kr ->
  (i <? r_start_pfn kr + used_of meta_pa (ROUND_UP u64 meta_end PAGE_SIZE) kr) =
  bool_decide (phys kr i < meta_end).
Proof.
  intros Hi. destruct Hpage as (P1 & P2 & P3 & P4 & P5 & P6).
  assert (r_end kr mod 4096 = 0) as P7.
  { rewrite P4, Z.mul_comm, Z.mod_add by lia. done. }
  assert (r_end kr + 4096 <= 2 ^ 64) as P8.
  { apply Z.mod_divide in P7 as [k Hk]; [|lia]. rewrite Hk in *. lia. }
  destruct (round_up64 meta_end 12) as [Hup Hal]; [lia|lia|lia|].
  change (2 ^ 12) with PAGE_SIZE in *. set (ue := ROUND_UP u64 meta_end PAGE_SIZE) in *.
  unfold PAGE_SIZE in Hup, Hal.
  assert (ue <= r_end kr) as Hue.
  { apply Z.mod_divide in P7 as [k Hk]; [|lia]. apply Z.mod_divide in Hal as [j Hj]; [|lia]. lia. }
  unfold used_of. rewrite (proj2 (Z.leb_le (r_base kr) meta_pa)), (proj2 (Z.ltb_lt meta_pa (r_end kr))) by lia.
  cbn [andb]. cbv zeta.
  rewrite (u32_small (r_end_pfn kr - r_start_pfn kr)) by (unfold in_u32; lia).
  rewrite u64_small by (unfold in_u64; lia).
  unfold PAGE_SIZE_BITS. rewrite Z.shiftr_div_pow2 by lia. change (2 ^ 12) with 4096.
  apply Z.mod_divide in P2 as [kb Hkb]; [|lia]. apply Z.mod_divide in Hal as [j Hj]; [|lia].
  assert ((ue - r_base kr) / 4096 = j - kb) as ->.
  { rewrite Hj, Hkb. rewrite <- Z.mul_sub_distr_r. apply Z.div_mul. lia. }
  rewrite (u32_small (j - kb)) by (unfold in_u32; lia).
  rewrite (proj2 (Z.ltb_ge (r_end_pfn kr - r_start_pfn kr) (j - kb))) by lia. unfold phys.
  case_bool_decide; [apply Z.ltb_lt|apply Z.ltb_ge]; lia.
Qed.
End Used.

(** The table that init_ranges leaves. *)
Lemma boot_geo ram rs0 : ram_ok ram -> length rs0 = 4%nat ->
  let nr := Z.of_nat (length ram) in
  let rs := mk_ranges 0 ram ++ drop (length ram) rs0 in
  the_ranges nr rs = mk_ranges 0 ram /\ geo (ram_frames ram) nr rs /\ phys_disj (the_ranges nr rs).
Proof.
  intros Hram Hlr nr rs. pose proof Hram as [Hlen Hpg Hdj Hfit].
  assert (Forall ram_entry ram) as Hent by (apply list.Forall_forall; done).
  assert (0 <= ram_frames ram) as Htot by (by apply ram_frames_nonneg).
  assert (the_ranges nr rs = mk_ranges 0 ram) as Hrs.
  { unfold the_ranges, nr, rs. rewrite Nat2Z.id.
    rewrite take_app_le by (by rewrite length_mk_ranges).
    apply take_ge. by rewrite length_mk_ranges. }
  split_and!; [done| |rewrite Hrs; by apply mk_ranges_disj]. constructor.
  - unfold PFN_NONE. lia.
  - unfold nr, rs. rewrite length_app, length_mk_ranges, length_drop. lia.
  - change (take (Z.to_nat nr) rs) with (the_ranges nr rs). rewrite Hrs.
    by apply (mk_ranges_chain ram 0 Hent).
Qed.

Lemma mk_ranges_elem ram b e : (b, e) ∈ ram ->
  exists r, r ∈ mk_ranges 0 ram /\ r_base r = b /\ r_end r = e.
Proof.
  intros Hbe. apply list_elem_of_lookup_1 in Hbe as [k Hk].
  destruct (lookup_lt_is_Some_2 (mk_ranges 0 ram) k) as [r Hr].
  { rewrite length_mk_ranges. by eapply lookup_lt_Some. }
  destruct (mk_ranges_lookup _ _ _ _ Hr) as (x & Hx & H1 & H2). rewrite Hk in Hx. simplify_eq.
  exists r. split; [by eapply list_elem_of_lookup_2|done].
Qed.

(** Whether the kernel uses a frame, by the range it is in. *)
Definition kernel_used (meta_pa used_end : Z) (l : list pfa_range_t) (i : Z) : bool :=
  existsb (fun r => (r_start_pfn r <=? i) && (i <? r_end_pfn r) &&
                    (i <? r_start_pfn r + used_of meta_pa used_end r)) l.

Lemma kernel_used_in tot nr rs meta_pa used_end r i : geo tot nr rs -> r ∈ the_ranges nr rs ->
  in_rng r i ->
  kernel_used meta_pa used_end (the_ranges nr rs) i = (i <? r_start_pfn r + used_of meta_pa used_end r).
Proof.
  intros Hgeo Hr Hi. unfold kernel_used. destruct (Z.ltb_spec i (r_start_pfn r + used_of meta_pa used_end r)) as [H|H].
  - apply existsb_exists. exists r. split; [by apply list_elem_of_In|]. unfold in_rng in Hi.
    rewrite (proj2 (Z.leb_le _ _)), !(proj2 (Z.ltb_lt _ _)) by lia. done.
  - apply not_true_iff_false. intros (x & Hx & Hc)%existsb_exists. apply list_elem_of_In in Hx. reflect.
    assert (x = r) as ->; [|lia].
    eapply range_chain_uniq; [exact (geo_chain _ _ _ Hgeo)|done|done| |exact Hi]. lia.
Qed.

(** The frames counted as used are those with an address in the kernel's part
    of its range. *)
Lemma kernel_frames_of tot nr rs kr meta_pa meta_end r i : geo tot nr rs ->
  phys_disj (the_ranges nr rs) -> kr ∈ the_ranges nr rs -> r ∈ the_ranges nr rs -> in_rng r i ->
  r_base kr <= meta_pa < r_end kr -> meta_pa <= meta_end <= r_end kr ->
  (i <? r_start_pfn r + used_of meta_pa (ROUND_UP u64 meta_end PAGE_SIZE) r) =
  bool_decide (r_base kr <= phys r i < meta_end).
Proof.
  intros Hgeo Hpd Hkr Hr Hi Hmp Hme. destruct (phys_range tot nr rs Hgeo r i Hr Hi) as (P1 & P2 & _).
  pose proof (range_chain_in _ _ _ _ (geo_chain _ _ _ Hgeo) Hr) as Hin.
  pose proof (geo_tot _ _ _ Hgeo) as Ht. unfold PFN_NONE in Ht.
  destruct (decide (r = kr)) as [->|Hne].
  - rewrite (used_kernel kr meta_pa meta_end) by (done || lia). apply bool_decide_ext. lia.
  - assert (used_of meta_pa (ROUND_UP u64 meta_end PAGE_SIZE) r = 0) as ->.
    { unfold used_of. destruct ((r_base r <=? meta_pa) && (meta_pa <? r_end r)) eqn:E; [|done].
      reflect. destruct Hne. by eapply Hpd. }
    rewrite (proj2 (Z.ltb_ge _ _)) by (unfold in_rng in Hi; lia). symmetry.
    apply bool_decide_eq_false. intros Hb. apply Hne. apply (Hpd r kr (phys r i)); try done; lia.
Qed.

(** pfa_init on a valid RAM table with room for the metadata: it returns, the
    invariant holds, and a frame is free exactly when its address is outside
    the kernel image and the metadata. *)
Lemma pfa_init_spec PAGE_OFFSET ram s kernel_end b e :
  ram_ok ram -> length (ranges s) = 4%nat -> length (free_lists s) = 12%nat ->
  0 <= kernel_end -> kernel_end + 64 <= 2 ^ 64 ->
  let meta_pa := ROUND_UP u64 kernel_end 64 in
  let tot := ram_frames ram in
  let meta_end := meta_pa + tot * 16 + (tot + 7) / 8 in
  (b, e) ∈ ram -> b <= meta_pa < e -> meta_end <= e ->
  exists s' L, pfa_init PAGE_OFFSET ram s kernel_end = Some s' /\ wf s' L /\
    total_frames s' = tot /\
    forall i, 0 <= i < tot -> exists pa, pfn_to_phys s' i = Some pa /\
      (b <= pa < meta_end -> held (meta s') i 1 0 FRAME_F_KDATA) /\
      (~ (b <= pa < meta_end) -> owned L i).
Proof.
  intros Hram Hlr Hlf Hke Hke2 meta_pa tot meta_end Hbe Hmp Hme.
  pose proof Hram as [Hlen _ _ Hfit]. fold tot in Hfit.
  destruct s as [mt0 tot0 ff0 nr0 rs0 fls0 fm0 dme0]. simpl in Hlr, Hlf.
  destruct (boot_geo ram rs0 Hram Hlr) as (Hrs & Hgeo & Hpd).
  set (nr := Z.of_nat (length ram)) in *. set (rs := mk_ranges 0 ram ++ drop (length ram) rs0) in *.
  fold tot in Hgeo. pose proof (geo_tot _ _ _ Hgeo) as Htot.
  destruct (mk_ranges_elem ram b e Hbe) as (kr & Hkr & Hkb & Hke'). rewrite <- Hrs in Hkr.
  pose proof (range_chain_in _ _ _ _ (geo_chain _ _ _ Hgeo) Hkr) as Hin.
  destruct (round_up64 kernel_end 6) as [Hup _]; [lia|lia|lia|].
  change (2 ^ 6) with 64 in Hup. fold meta_pa in Hup.
  assert (0 <= (tot + 7) / 8) as Hfm by (apply Z.div_pos; lia).
  unfold pfa_init. fold nr.
  rewrite (proj2 (Z.eqb_neq nr 0)), (proj2 (Z.ltb_ge PFA_MAX_RANGES nr))
    by (unfold nr, PFA_MAX_RANGES; lia). cbn [orb].
  destruct (init_ranges_spec ram mt0 tot0 ff0 rs0 fls0 fm0 dme0 Hram Hlr) as (max_end & Ei & _).
  fold nr in Ei. match type of Ei with init_ranges _ ?x = _ => change (init_ranges ram _) with (init_ranges ram x) end.
  rewrite Ei. bnd. fold tot rs. set (dme := u64 (max_end + PAGE_OFFSET)).
  match goal with |- context [(?x {{ g_pfa_direct_map_end := dme }})] =>
    set (s1 := x {{ g_pfa_direct_map_end := dme }}) end.
  cbv zeta. change (total_frames s1) with tot. fold meta_pa.
  assert (find_range_by_pa s1 meta_pa = Some (Some kr)) as ->.
  { pose proof (range_for_pa_in tot nr dme rs Hgeo mt0 ff0 fls0 [] kr meta_pa Hpd Hkr ltac:(lia)) as H. exact H. }
  bnd. fold meta_end. rewrite (u64_small meta_end) by (unfold in_u64; unfold meta_end in *; lia).
  rewrite (proj2 (Z.ltb_ge (r_end kr) meta_end)) by lia.
  match goal with |- context [free_lists ?x] => change (free_lists x) with fls0 end.
  rewrite (init_lists fls0 Hlf). bnd.
  set (used_end := ROUND_UP u64 meta_end PAGE_SIZE).
  match goal with |- context [for_ 0 (nr_ranges ?x) _ ?x] =>
    change x with (St tot nr dme rs (replicate (Z.to_nat tot) meta_zero) 0
      (replicate 12 {| fl_head := PFN_NONE; fl_count := 0 |}) (replicate (Z.to_nat ((tot + 7) / 8)) 0)) end.
  set (kern := kernel_used meta_pa used_end (the_ranges nr rs)).
  destruct (init_all_ranges tot nr dme rs Hgeo kern meta_pa used_end) with
    (mt := replicate (Z.to_nat tot) meta_zero) (ff := 0)
    (fls := replicate 12 {| fl_head := PFN_NONE; fl_count := 0 |})
    (fm := replicate (Z.to_nat ((tot + 7) / 8)) 0) (L := fun _ : Z => @nil Z)
    as (mt & ff & fls & fm & L & Eb & B).
  { intros r i Hr Hi. by apply (kernel_used_in tot). }
  { done. }
  { by apply boot_empty. }
  exists (St tot nr dme rs mt ff fls fm), L. split; [exact Eb|].
  split; [apply St_wf; [done|done|by eapply frame_boot_inv]|]. split; [done|].
  intros i Hi. destruct (range_chain_find _ _ _ _ (geo_chain _ _ _ Hgeo) Hi) as (k & r & Hk & Hr).
  apply list_elem_of_lookup_2 in Hk. exists (phys r i).
  split; [by apply (pfn_to_phys_in tot)|].
  assert (kern i = bool_decide (b <= phys r i < meta_end)) as Hki.
  { unfold kern. rewrite (kernel_used_in tot nr rs _ _ r) by done. rewrite <- Hkb.
    apply (kernel_frames_of tot nr rs kr); try done; [lia|]. split; [unfold meta_end; lia|lia]. }
  split; intros Hpa.
  - split; [|lia]. apply (b_kern _ _ _ _ _ _ _ _ _ _ B); [done|]. rewrite Hki. by apply bool_decide_eq_true.
  - apply (b_free _ _ _ _ _ _ _ _ _ _ B); [done|]. rewrite Hki. by apply bool_decide_eq_false.
Qed.
