(* ===== verification/FrameSys.v ===== *)
(** * The frame allocator with its per-CPU reserves

    Who holds which reference: a frame's count is the number of references its
    users hold, plus one while a CPU keeps it in reserve.  Every operation
    keeps this, as long as users only drop references they hold. *)

From stdpp Require Import list.
From S2P Require Import Prelude Frame FrameTheory FrameOps FrameBoot.
#[local] Open Scope Z_scope.

(** ** The reserve *)

Definition batch_list (b : pfa_cpu_page_batch_t) : list Z := take (Z.to_nat (b_count b)) (b_pages b).
Definition reserve (bs : list pfa_cpu_page_batch_t) : list Z := concat (map batch_list bs).

Definition batch_ok (b : pfa_cpu_page_batch_t) : Prop :=
  length (b_pages b) = 31%nat /\ 0 <= b_count b <= 31.

(** One CPU's part of the reserve. *)
Lemma reserve_split bs k b : bs !! k = Some b ->
  exists rest, reserve bs ≡ₚ batch_list b ++ rest /\
    forall b', reserve (<[k := b']> bs) ≡ₚ batch_list b' ++ rest.
Proof.
  revert k. induction bs as [|x bs IH]; intros k Hk; [done|]. destruct k as [|k]; simpl in Hk.
  - simplify_eq. exists (reserve bs). split; [done|]. done.
  - destruct (IH k Hk) as (rest & H1 & H2). exists (batch_list x ++ rest). split.
    + unfold reserve in *. simpl. rewrite H1. by rewrite !(Permutation_app_comm (batch_list b)), <- app_assoc.
    + intros b'. unfold reserve in *. simpl. rewrite H2.
      by rewrite !(Permutation_app_comm (batch_list b')), <- app_assoc.
Qed.

Lemma batch_push b p l : batch_ok b -> b_count b < 31 -> wr (b_pages b) (b_count b) p = Some l ->
  batch_ok {| b_pages := l; b_count := u16 (b_count b + 1) |} /\
  batch_list {| b_pages := l; b_count := u16 (b_count b + 1) |} = batch_list b ++ [p].
Proof.
  intros [Hl Hc] Hlt Hw. pose proof (wr_length _ _ _ _ Hw) as Hl'.
  rewrite wr_Some in Hw by lia. apply (inj Some) in Hw as <-. unfold batch_ok, batch_list. simpl.
  rewrite u16_small by (unfold in_u16; lia). split; [split; lia|].
  replace (Z.to_nat (b_count b + 1)) with (S (Z.to_nat (b_count b))) by lia.
  rewrite (take_S_r _ _ p) by (apply list_lookup_insert_eq; lia).
  by rewrite take_insert_ge by lia.
Qed.

Lemma batch_pop b : batch_ok b -> b_count b <> 0 ->
  exists p, rd (b_pages b) (b_count b - 1) = Some p /\
    batch_ok (b {{ b_count := b_count b - 1 }}) /\
    batch_list b = batch_list (b {{ b_count := b_count b - 1 }}) ++ [p].
Proof.
  intros [Hl Hc] Hne. destruct (rd_is_Some (b_pages b) (b_count b - 1)) as [p Ep]; [lia|].
  exists p. split; [done|]. destruct b as [l c]. unfold batch_ok, batch_list. simpl in *.
  split; [lia|]. unfold rd in Ep. rewrite (proj2 (Z.leb_le 0 (c - 1))) in Ep by lia.
  replace (Z.to_nat c) with (S (Z.to_nat (c - 1))) by lia. by apply take_S_r.
Qed.

(** ** The invariant with the users' references

    [R] is the reserve, [own] what the users hold. *)

Record res_wf (s : pfa_t) (R : list Z) (own : Z -> Z) (L : Z -> list Z) : Prop := {
  rw_wf : wf s L;
  rw_nodup : NoDup R;
  rw_reserve : forall p, p ∈ R -> dat (meta s) p = Some (1, 0, FRAME_F_ALLOC) /\ own p = 0;
  rw_own : forall p, p ∉ R -> 0 <= p < total_frames s -> exists o f, dat (meta s) p = Some (own p, o, f);
}.

Record sys_wf (g : pfa_sys) (own : Z -> Z) (L : Z -> list Z) : Prop := {
  sw_res : res_wf (pfa g) (reserve (g_pfa_cpu_batches g)) own L;
  sw_cpus : g_pfa_cpu_batches g <> [];
  sw_batches : Forall batch_ok (g_pfa_cpu_batches g);
}.

Definition set_own (own : Z -> Z) (p n : Z) : Z -> Z := fun q => if decide (q = p) then n else own q.

Lemma set_own_eq own p n : set_own own p n p = n.
Proof. unfold set_own. by rewrite decide_True. Qed.

Lemma set_own_ne own p n q : q <> p -> set_own own p n q = own q.
Proof. intros. unfold set_own. by rewrite decide_False. Qed.

#[global] Instance res_wf_perm s : Proper ((≡ₚ) ==> eq ==> eq ==> iff) (res_wf s).
Proof.
  assert (forall R R' own L, R ≡ₚ R' -> res_wf s R own L -> res_wf s R' own L) as H.
  { intros R R' own L HR [W Hn Hr Ho]. constructor; [done|by rewrite <- HR| |].
    - intros p Hp. apply Hr. by rewrite HR.
    - intros p Hp. apply Ho. by rewrite HR. }
  intros R R' HR own ? <- L ? <-. split; apply H; [done|by symmetry].
Qed.

Section ResWf.
Context (s : pfa_t) (R : list Z) (own : Z -> Z) (L : Z -> list Z) (W : res_wf s R own L).

Lemma res_own p r o f : dat (meta s) p = Some (r, o, f) -> p ∉ R -> own p = r.
Proof.
  intros Hd Hp. destruct (rw_own _ _ _ _ W p Hp) as (o' & f' & Hd').
  - pose proof (dat_range _ _ _ Hd) as Hr. destruct (wf_inv _ _ (rw_wf _ _ _ _ W)) as (fm & _ & I).
    by rewrite (k_len (i_core _ _ _ _ _ _ _ _ I)) in Hr.
  - rewrite Hd in Hd'. by simplify_eq.
Qed.

(** An unreferenced frame is in nobody's hands. *)
Lemma res_zero p o f : dat (meta s) p = Some (0, o, f) -> (p ∉ R) /\ own p = 0.
Proof.
  intros Hd. assert (p ∉ R) as Hno.
  { intros Hp. destruct (rw_reserve _ _ _ _ W p Hp) as [H _]. rewrite Hd in H. by simplify_eq. }
  split; [done|]. by eapply res_own.
Qed.

(** A user holds [p]: it heads an allocated block with that many references. *)
Lemma own_held p : 0 <= p < total_frames s -> 0 < own p ->
  (p ∉ R) /\ exists o f, held (meta s) p (own p) o f.
Proof.
  intros Hp Ho. assert (p ∉ R) as Hno.
  { intros Hr. destruct (rw_reserve _ _ _ _ W p Hr) as [_ H]. lia. }
  split; [done|]. destruct (rw_own _ _ _ _ W p Hno Hp) as (o & f & Hd). by exists o, f.
Qed.
End ResWf.

(** ** Operations of the buddy allocator on a well-formed state *)

Definition same_static (s s' : pfa_t) : Prop :=
  total_frames s' = total_frames s /\ nr_ranges s' = nr_ranges s /\ ranges s' = ranges s.

Lemma wf_alloc s L order : wf s L -> 0 <= order <= 11 ->
  (pfa_alloc_from_buddy s order = Some (s, PFN_NONE) /\ forall o, order <= o -> L o = []) \/
  exists s' L' b, pfa_alloc_from_buddy s order = Some (s', b) /\ wf s' L' /\ same_static s s' /\
    b <> PFN_NONE /\ allocated (nr_ranges s) (ranges s) (meta s) (meta s') L L' b order.
Proof.
  intros W Ho. destruct (wf_St _ _ W) as (tot & nr & dme & rs & mt & ff & fls & fm & -> & Hg & Hp & I).
  destruct (alloc_core tot nr dme rs Hg mt ff fls fm L order) as [[-> H]|H];
    [apply I|apply I|done|by left|].
  destruct H as (mt' & fls' & fm' & L' & b & -> & K' & A). right.
  exists (St tot nr dme rs mt' (lsum L') fls' fm'), L', b. split; [done|]. split_and!; try done.
  - apply St_wf; [done|done|]. by eapply inv_allocated.
  - pose proof (block_range Hg _ _ (al_block _ _ _ _ _ _ _ _ A)). pose proof (geo_tot _ _ _ Hg). lia.
Qed.

(** The block goes to the caller, or a page into the reserve. *)
Lemma res_alloc s s' R own L L' b order : res_wf s R own L -> wf s' L' -> same_static s s' ->
  allocated (nr_ranges s) (ranges s) (meta s) (meta s') L L' b order ->
  res_wf s' R (set_own own b 1) L' /\ (order = 0 -> res_wf s' (b :: R) own L') /\
  (b ∉ R) /\ own b = 0.
Proof.
  intros W W' (Htot & _) [Hb Hfree Hown Hrest Hhead Hin _].
  destruct (wf_inv _ _ (rw_wf _ _ _ _ W)) as (fm & _ & I). pose proof (i_core _ _ _ _ _ _ _ _ I) as K.
  destruct (wf_inv _ _ W') as (fm' & _ & I'). pose proof (i_core _ _ _ _ _ _ _ _ I') as K'.
  assert (blk_in b order b) as Hbb by (destruct Hb as [? _]; unfold blk_in; pose proof (pow2_pos order); lia).
  assert (forall p, owned L p -> (p ∉ R) /\ own p = 0) as Hz.
  { intros p Hp. destruct (owned_dat K p Hp) as [od Hd]. by eapply res_zero. }
  destruct (Hz b (Hfree b Hbb)) as [HbR Hb0].
  assert (forall p, ~ owned L p -> dat (meta s') p = dat (meta s) p) as Hsame
    by (intros p Hp; unfold dat; by rewrite Hrest).
  assert (forall p, p ∈ R -> ~ owned L p) as HR by (intros p Hp Ho; by destruct (Hz p Ho)).
  assert (forall p, p ∉ R -> p <> b -> 0 <= p < total_frames s' ->
    exists o f, dat (meta s') p = Some (own p, o, f)) as Hrem.
  { intros p Hp Hne Hr. rewrite Htot in Hr.
    destruct (decide (blk_in b order p)) as [Hpb|Hpb].
    { rewrite Hin by done. rewrite (proj2 (Hz p (Hfree p Hpb))). eauto. }
    destruct (i_cover _ _ _ _ _ _ _ _ I p Hr) as [Ho|(q & r & o & f & Hh & Hpq)].
    - rewrite (proj2 (Hz p Ho)). destruct (owned_dat K' p) as [od ->]; [by apply Hown|eauto].
    - destruct (i_alloc _ _ _ _ _ _ _ _ I _ _ _ _ Hh) as (_ & _ & Hi). rewrite Hsame by (by apply Hi).
      by apply (rw_own _ _ _ _ W). }
  split_and!; [|intros ->|done|done].
  - constructor; [done|by eapply rw_nodup| |].
    + intros p Hp. rewrite Hsame, set_own_ne by (try (by apply HR); congruence).
      by apply (rw_reserve _ _ _ _ W).
    + intros p Hp Hr. destruct (decide (p = b)) as [->|Hne]; [rewrite set_own_eq; eauto|].
      rewrite set_own_ne by done. by apply Hrem.
  - constructor; [done| | |].
    + constructor; [done|by eapply rw_nodup].
    + intros p Hp. apply elem_of_cons in Hp as [->|Hp]; [done|]. rewrite Hsame by (by apply HR).
      by apply (rw_reserve _ _ _ _ W).
    + intros p Hp Hr. rewrite elem_of_cons in Hp. apply Hrem; tauto.
Qed.

(** A page of the reserve goes to the caller. *)
Lemma res_take s R own L p : res_wf s (p :: R) own L -> res_wf s R (set_own own p 1) L.
Proof.
  intros [W Hn Hr Ho]. apply list.NoDup_cons in Hn as [HpR Hn]. constructor; [done|done| |].
  - intros q Hq. rewrite set_own_ne by (by intros ->). apply Hr. by right.
  - intros q Hq Hqr. destruct (decide (q = p)) as [->|Hne].
    + rewrite set_own_eq. destruct (Hr p) as [-> _]; [left|eauto].
    + rewrite set_own_ne by done. apply Ho; [|done]. by rewrite elem_of_cons; intros [?|?].
Qed.

(** ** Allocation through the reserve *)

(** An allocation only changes the metadata of free frames. *)
Definition keeps (s s' : pfa_t) (L L' : Z -> list Z) : Prop :=
  same_static s s' /\ (forall i, owned L' i -> owned L i) /\
  forall i, ~ owned L i -> rd (meta s') i = rd (meta s) i.

Lemma keeps_refl s L : keeps s s L L.
Proof. by repeat split. Qed.

Lemma keeps_trans s1 s2 s3 L1 L2 L3 : keeps s1 s2 L1 L2 -> keeps s2 s3 L2 L3 -> keeps s1 s3 L1 L3.
Proof.
  intros ((A1 & A2 & A3) & A4 & A5) ((B1 & B2 & B3) & B4 & B5).
  split; [split_and!; congruence|]. split; [intros i Hi; auto|].
  intros i Hi. by rewrite B5, A5 by auto.
Qed.

Lemma allocated_keeps s s' L L' b order : same_static s s' ->
  allocated (nr_ranges s) (ranges s) (meta s) (meta s') L L' b order -> keeps s s' L L'.
Proof. intros Hs [_ _ Hown Hrest _ _ _]. split; [done|]. split; [|done]. intros i Hi. by apply Hown. Qed.

Lemma batch_refill_spec n : forall s b rest own L, Z.of_nat n = 31 - b_count b -> batch_ok b ->
  res_wf s (batch_list b ++ rest) own L ->
  exists s' b' L', batch_refill n s b = Some (s', b') /\ batch_ok b' /\
    res_wf s' (batch_list b' ++ rest) own L' /\ keeps s s' L L' /\
    (b_count b' = 31 \/ forall o, 0 <= o -> L' o = []).
Proof.
  induction n as [|n IH]; intros s b rest own L Hn Hb W; cbn [batch_refill]; unfold PFA_CPU_BATCH_PAGES.
  { rewrite (proj2 (Z.ltb_ge _ _)) by lia. exists s, b, L. do 3 (split; [done|]). split; [apply keeps_refl|left; lia]. }
  rewrite (proj2 (Z.ltb_lt _ _)) by lia.
  destruct (wf_alloc s L 0 (rw_wf _ _ _ _ W)) as [[-> Hnone]|(s1 & L1 & p & -> & W1 & Hs1 & Hp & A)]; [lia|..].
  { bnd. exists s, b, L. do 3 (split; [done|]). split; [apply keeps_refl|by right]. }
  bnd. rewrite (proj2 (Z.eqb_neq p PFN_NONE)) by done.
  destruct (wr (b_pages b) (b_count b) p) as [l|] eqn:Ew.
  2:{ rewrite wr_Some in Ew by (destruct Hb; lia). done. }
  bnd. destruct (batch_push b p l Hb ltac:(lia) Ew) as [Hb1 El].
  destruct (res_alloc _ _ _ _ _ _ _ _ W W1 Hs1 A) as (_ & H0 & _). specialize (H0 eq_refl).
  destruct (IH s1 {| b_pages := l; b_count := u16 (b_count b + 1) |} rest own L1)
    as (s' & b' & L' & -> & Hb' & W' & Hk' & Hend).
  - destruct Hb as [_ Hc]. simpl. rewrite u16_small by (unfold in_u16; lia). lia.
  - done.
  - rewrite El, <- app_assoc. simpl. by rewrite <- Permutation_middle.
  - exists s', b', L'. do 3 (split; [done|]). split; [|done].
    eapply keeps_trans; [by eapply allocated_keeps|done].
Qed.

(** A new block in the users' hands. *)
Record granted (g g' : pfa_sys) (own own' : Z -> Z) (L L' : Z -> list Z) (p order : Z) : Prop := {
  gr_pfn : p <> PFN_NONE;
  gr_wf : sys_wf g' own' L';
  gr_own : own' = set_own own p 1;
  gr_free : own p = 0;
  gr_block : block (nr_ranges (pfa g)) (ranges (pfa g)) p order;
  gr_head : dat (meta (pfa g')) p = Some (1, order, FRAME_F_ALLOC);
  gr_keeps : keeps (pfa g) (pfa g') L L';
}.

Lemma alloc_page_once_spec g own L cpu : sys_wf g own L -> 0 <= cpu ->
  (alloc_page_once g cpu = Some (g, PFN_NONE) /\ forall o, 0 <= o -> L o = []) \/
  exists g' p own' L', alloc_page_once g cpu = Some (g', p) /\ granted g g' own own' L L' p 0.
Proof.
  intros [W Hne Hbs] Hcpu. destruct g as [s bs]. simpl in *. unfold alloc_page_once. cbn [g_pfa_cpu_batches].
  assert (0 < Z.of_nat (length bs)) as Hlen by (destruct bs; [done|simpl; lia]).
  set (k := if Z.of_nat (length bs) <=? cpu then 0 else cpu).
  assert (0 <= k < Z.of_nat (length bs)) as Hk
    by (unfold k; destruct (Z.leb_spec (Z.of_nat (length bs)) cpu); lia).
  clearbody k. destruct (rd_is_Some bs k Hk) as [b Eb]. rewrite Eb. bnd.
  pose proof (rd_Forall _ _ _ _ Hbs Eb) as Hb.
  assert (bs !! Z.to_nat k = Some b) as Ek.
  { unfold rd in Eb. by rewrite (proj2 (Z.leb_le 0 k)) in Eb by lia. }
  destruct (reserve_split bs (Z.to_nat k) b Ek) as (rest & HR & HR').
  assert (forall b' s' own' L', batch_ok b' -> res_wf s' (batch_list b' ++ rest) own' L' ->
    sys_wf {| pfa := s'; g_pfa_cpu_batches := <[Z.to_nat k := b']> bs |} own' L') as Hsys.
  { intros b' s' own' L' Hb' W'. constructor; simpl.
    - by rewrite HR'.
    - intros E. apply (f_equal length) in E. rewrite length_insert in E. simpl in E. lia.
    - by apply Forall_insert. }
  rewrite HR in W. destruct (Z.eqb_spec (b_count b) 0) as [H0|H0]; cbn [negb].
  - cbn [pfa]. destruct (wf_alloc s L 0 (rw_wf _ _ _ _ W)) as [[-> Hnone]|(s1 & L1 & p & -> & W1 & Hs1 & Hp & A)];
      [lia|by left|]. right. bnd. rewrite (proj2 (Z.eqb_neq p PFN_NONE)) by done.
    destruct (res_alloc _ _ _ _ _ _ _ _ W W1 Hs1 A) as (Wp & _ & HpR & Hp0).
    destruct (batch_refill_spec (Z.to_nat (PFA_CPU_BATCH_PAGES - 1 - b_count b)) s1 b rest (set_own own p 1) L1)
      as (s' & b' & L' & -> & Hb' & W' & Hk' & _); [rewrite H0; unfold PFA_CPU_BATCH_PAGES; lia|done|done|].
    bnd. rewrite wr_Some by lia. bnd. eexists _, p, _, L'. split; [done|]. constructor; try done.
    + by apply Hsys.
    + by apply (al_block _ _ _ _ _ _ _ _ A).
    + destruct Hk' as (_ & _ & Hr'). simpl. unfold dat. rewrite Hr'; [apply (al_head _ _ _ _ _ _ _ _ A)|].
      rewrite (al_owned _ _ _ _ _ _ _ _ A). intros [_ Hn]. apply Hn. unfold blk_in. simpl. lia.
    + eapply keeps_trans; [by eapply allocated_keeps|done].
  - right. destruct (batch_pop b Hb H0) as (p & Ep & Hb' & El). rewrite Ep. bnd.
    rewrite wr_Some by lia. bnd. rewrite El, <- app_assoc in W. simpl in W.
    rewrite <- Permutation_middle in W.
    destruct (rw_reserve _ _ _ _ W p) as [Hd Hp0]; [left|].
    destruct (wf_inv _ _ (rw_wf _ _ _ _ W)) as (fm & _ & I).
    assert (held (meta s) p 1 0 FRAME_F_ALLOC) as Hh by (split; [done|lia]).
    destruct (i_alloc _ _ _ _ _ _ _ _ I _ _ _ _ Hh) as (Hblk & _).
    pose proof (block_range (wf_geo _ _ (rw_wf _ _ _ _ W)) _ _ Hblk).
    pose proof (geo_tot _ _ _ (wf_geo _ _ (rw_wf _ _ _ _ W))).
    eexists _, p, _, L. split; [reflexivity|]. constructor; try done.
    + lia.
    + apply (Hsys _ s); [done|]. by apply res_take.
Qed.

Lemma alloc_order_once_spec g own L order : sys_wf g own L -> 0 <= order <= 11 ->
  (alloc_order_once g order = Some (g, PFN_NONE) /\ forall o, order <= o -> L o = []) \/
  exists g' p own' L', alloc_order_once g order = Some (g', p) /\ granted g g' own own' L L' p order.
Proof.
  intros [W Hne Hbs] Ho. destruct g as [s bs]. simpl in *. unfold alloc_order_once. cbn [pfa].
  destruct (wf_alloc s L order (rw_wf _ _ _ _ W)) as [[-> Hnone]|(s1 & L1 & p & -> & W1 & Hs1 & Hp & A)];
    [done|by left|]. right. bnd. destruct (res_alloc _ _ _ _ _ _ _ _ W W1 Hs1 A) as (Wp & _ & _ & Hp0).
  eexists _, p, _, L1. split; [reflexivity|]. constructor; try done.
  - apply A.
  - apply A.
  - by eapply allocated_keeps.
Qed.

Section Reclaim.
Context (oom_try_reclaim : pfa_sys -> option (pfa_sys * bool)) (cpus : Z -> Z).
Context (Hcpus : forall n, 0 <= cpus n).

Lemma alloc_once_spec g own L order n : sys_wf g own L -> 0 <= order <= 11 ->
  let once := if order =? 0 then alloc_page_once g (cpus n) else alloc_order_once g order in
  (once = Some (g, PFN_NONE) /\ forall o, order <= o -> L o = []) \/
  exists g' p own' L', once = Some (g', p) /\ granted g g' own own' L L' p order.
Proof.
  intros W Ho once. unfold once. destruct (Z.eqb_spec order 0) as [->|].
  - by apply alloc_page_once_spec.
  - by apply alloc_order_once_spec.
Qed.

(** Without reclaim: a new block, or no list has one. *)
Lemma alloc_flags_spec g own L order : sys_wf g own L -> 0 <= order <= 11 ->
  (pfa_alloc_flags oom_try_reclaim cpus g order false = Some (g, PFN_NONE) /\
   forall o, order <= o -> L o = []) \/
  exists g' p own' L', pfa_alloc_flags oom_try_reclaim cpus g order false = Some (g', p) /\
    granted g g' own own' L L' p order.
Proof.
  intros W Ho. unfold pfa_alloc_flags.
  rewrite (proj2 (Z.ltb_ge order 0)), (proj2 (Z.ltb_ge MAX_ORDER order)) by (unfold MAX_ORDER; lia).
  cbn [orb alloc_retry].
  destruct (alloc_once_spec g own L order (2 - Z.of_nat 2) W Ho) as [[-> H]|(g' & p & own' & L' & -> & G)].
  - left. split; [done|done].
  - right. exists g', p, own', L'. split; [|done]. bnd.
    rewrite (proj2 (Z.eqb_neq p PFN_NONE)); [done|by eapply gr_pfn].
Qed.

(** With reclaim: whatever it does to the allocator and to the users'
    references, as long as it keeps the invariant. *)
Context (Hoom : forall g own L, sys_wf g own L -> exists g' b own' L',
  oom_try_reclaim g = Some (g', b) /\ sys_wf g' own' L').

Lemma alloc_retry_spec n : forall g own L order can_reclaim, sys_wf g own L -> 0 <= order <= 11 ->
  exists g' p own' L', alloc_retry oom_try_reclaim cpus n g order can_reclaim = Some (g', p) /\
    sys_wf g' own' L' /\
    (p = PFN_NONE \/ (dat (meta (pfa g')) p = Some (1, order, FRAME_F_ALLOC) /\ own' p = 1 /\
       block (nr_ranges (pfa g')) (ranges (pfa g')) p order)).
Proof.
  induction n as [|n IH]; intros g own L order can W Ho; cbn [alloc_retry].
  { exists g, PFN_NONE, own, L. auto. }
  destruct (alloc_once_spec g own L order (2 - Z.of_nat (S n)) W Ho) as [[-> H]|(g' & p & own' & L' & -> & G)].
  - bnd. rewrite Z.eqb_refl. cbn [negb]. destruct ((2 - Z.of_nat (S n) =? 0) && can).
    + destruct (Hoom g own L W) as (g1 & b & own1 & L1 & -> & W1). bnd. destruct b; [by eapply IH|].
      exists g1, PFN_NONE, own1, L1. auto.
    + exists g, PFN_NONE, own, L. auto.
  - bnd. rewrite (proj2 (Z.eqb_neq p PFN_NONE)) by (by eapply gr_pfn). cbn [negb].
    exists g', p, own', L'. destruct G as [G1 G2 G3 G4 G5 G6 ((_ & G7 & G8) & _)]. split; [done|]. split; [done|].
    right. rewrite G7, G8, G3, set_own_eq. done.
Qed.

Lemma alloc_total g own L order can_reclaim : sys_wf g own L ->
  exists g' p own' L', pfa_alloc_flags oom_try_reclaim cpus g order can_reclaim = Some (g', p) /\
    sys_wf g' own' L' /\
    (p = PFN_NONE \/ (dat (meta (pfa g')) p = Some (1, order, FRAME_F_ALLOC) /\ own' p = 1 /\
       block (nr_ranges (pfa g')) (ranges (pfa g')) p order)).
Proof.
  intros W. unfold pfa_alloc_flags.
  destruct (Z.ltb_spec order 0); [by exists g, PFN_NONE, own, L; auto|].
  destruct (Z.ltb_spec MAX_ORDER order); [by exists g, PFN_NONE, own, L; auto|]. cbn [orb].
  unfold MAX_ORDER in *. by eapply alloc_retry_spec; [|lia].
Qed.
End Reclaim.

(** ** References at the level of the system *)

Lemma res_upd s s' R own L p n o f : res_wf s R own L -> wf s' L -> same_static s s' -> p ∉ R ->
  dat (meta s') p = Some (n, o, f) -> (forall i, i <> p -> rd (meta s') i = rd (meta s) i) ->
  res_wf s' R (set_own own p n) L.
Proof.
  intros W W' (Ht & _) Hp Hd Hr. constructor; [done|by eapply rw_nodup| |].
  - intros q Hq. assert (q <> p) by (by intros ->). rewrite set_own_ne by done.
    unfold dat. rewrite Hr by done. by apply (rw_reserve _ _ _ _ W).
  - intros q Hq Hqr. destruct (decide (q = p)) as [->|Hne]; [rewrite set_own_eq; eauto|].
    rewrite set_own_ne by done. unfold dat. rewrite Hr by done. apply (rw_own _ _ _ _ W); [done|].
    by rewrite <- Ht.
Qed.

Lemma res_freed s s' R own L L' p r o f : res_wf s R own L -> wf s' L' -> same_static s s' -> p ∉ R ->
  held (meta s) p r o f -> freed (nr_ranges s) (ranges s) (meta s) (meta s') L L' p o ->
  res_wf s' R (set_own own p 0) L'.
Proof.
  intros W W' (Ht & _) Hp Hh [Hown Hrest _ _].
  destruct (wf_inv _ _ (rw_wf _ _ _ _ W)) as (fm & _ & I). pose proof (i_core _ _ _ _ _ _ _ _ I) as K.
  destruct (wf_inv _ _ W') as (fm' & _ & I'). pose proof (i_core _ _ _ _ _ _ _ _ I') as K'.
  pose proof (wf_geo _ _ (rw_wf _ _ _ _ W)) as Hg.
  assert (forall q, owned L' q -> q <> p -> dat (meta s) q = Some (0, 0, 0) \/ own q = 0 /\ (q ∉ R)) as Hz.
  { intros q Hq Hne. right. apply Hown in Hq as [Hq|Hq].
    - destruct (owned_dat K q Hq) as [od Hd]. apply and_comm. by eapply res_zero.
    - destruct (i_alloc _ _ _ _ _ _ _ _ I _ _ _ _ Hh) as (_ & _ & Hi).
      destruct (Hi q Hq) as [_ Hd]. destruct (Hd Hne) as (od & fl & Hd'). apply and_comm. by eapply res_zero. }
  assert (forall q, q ∈ R -> ~ owned L' q) as HR.
  { intros q Hq Ho. assert (q <> p) as Hne by (by intros ->).
    destruct (rw_reserve _ _ _ _ W q Hq) as [Hd _].
    destruct (Hz q Ho Hne) as [H|[_ H]]; [rewrite Hd in H; by simplify_eq|done]. }
  constructor; [done|by eapply rw_nodup| |].
  - intros q Hq. assert (q <> p) by (by intros ->). rewrite set_own_ne by done.
    unfold dat. rewrite Hrest by (by apply HR). by apply (rw_reserve _ _ _ _ W).
  - intros q Hq Hqr. rewrite Ht in Hqr. destruct (decide (q = p)) as [->|Hne].
    + rewrite set_own_eq. destruct (owned_dat K' p) as [od ->]; [|eauto].
      apply Hown. right. by apply (held_in _ _ _ Hg _ _ _ _ _ I _ _ _ _ Hh).
    + rewrite set_own_ne by done.
      rewrite <- Ht in Hqr. destruct (i_cover _ _ _ _ _ _ _ _ I' q Hqr) as [Ho|(x & r' & o' & f' & Hx & Hin)].
      * destruct (owned_dat K' q Ho) as [od ->]. destruct (Hz q Ho Hne) as [H|[-> _]]; [|eauto].
        destruct (res_zero _ _ _ _ W _ _ _ H) as [_ ->]. eauto.
      * destruct (i_alloc _ _ _ _ _ _ _ _ I' _ _ _ _ Hx) as (_ & _ & Hi).
        unfold dat. rewrite Hrest by (by apply Hi). rewrite Ht in Hqr. by apply (rw_own _ _ _ _ W).
Qed.

Lemma wf_get s L p r o f : wf s L -> held (meta s) p r o f -> r < 65535 ->
  exists s', frame_get s p = Some s' /\ wf s' L /\ same_static s s' /\
    held (meta s') p (r + 1) o f /\ forall i, i <> p -> rd (meta s') i = rd (meta s) i.
Proof.
  intros W Hh Hr. destruct (wf_St _ _ W) as (tot & nr & dme & rs & mt & ff & fls & fm & -> & Hg & Hp & I).
  destruct (frame_get_spec tot nr dme rs Hg mt ff fls fm L p r o f I Hh Hr) as (mt' & E & I' & Hh' & Hr').
  exists (St tot nr dme rs mt' ff fls fm). split_and!; try done. by apply St_wf.
Qed.

Lemma wf_put_many s L p r o f : wf s L -> held (meta s) p r o f -> 1 < r ->
  exists s', frame_put s p = Some s' /\ wf s' L /\ same_static s s' /\
    held (meta s') p (r - 1) o f /\ forall i, i <> p -> rd (meta s') i = rd (meta s) i.
Proof.
  intros W Hh Hr. destruct (wf_St _ _ W) as (tot & nr & dme & rs & mt & ff & fls & fm & -> & Hg & Hp & I).
  destruct (frame_put_many_refs tot nr dme rs Hg mt ff fls fm L p r o f I Hh Hr) as (mt' & E & I' & Hh' & Hr').
  exists (St tot nr dme rs mt' ff fls fm). split_and!; try done. by apply St_wf.
Qed.

Lemma wf_put_last s L p o f : wf s L -> held (meta s) p 1 o f ->
  exists s' L', frame_put s p = Some s' /\ wf s' L' /\ same_static s s' /\
    freed (nr_ranges s) (ranges s) (meta s) (meta s') L L' p o.
Proof.
  intros W Hh. destruct (wf_St _ _ W) as (tot & nr & dme & rs & mt & ff & fls & fm & -> & Hg & Hp & I).
  destruct (frame_put_last tot nr dme rs Hg mt ff fls fm L p o f I Hh) as (mt' & fls' & fm' & L' & E & I' & F).
  exists (St tot nr dme rs mt' (lsum L') fls' fm'), L'. split_and!; try done. by apply St_wf.
Qed.

Lemma wf_free s L p r o f order : wf s L -> held (meta s) p r o f -> r = 1 \/ f <> FRAME_F_ALLOC ->
  exists s' L', pfa_free s p order = Some s' /\ wf s' L' /\ same_static s s' /\
    freed (nr_ranges s) (ranges s) (meta s) (meta s') L L' p o.
Proof.
  intros W Hh Hrf. destruct (wf_St _ _ W) as (tot & nr & dme & rs & mt & ff & fls & fm & -> & Hg & Hp & I).
  destruct (pfa_free_spec tot nr dme rs Hg mt ff fls fm L p r o f order I Hh Hrf)
    as (mt' & fls' & fm' & L' & E & I' & F).
  exists (St tot nr dme rs mt' (lsum L') fls' fm'), L'. split_and!; try done. by apply St_wf.
Qed.

(** ** Histories *)

Inductive fop :=
| FAlloc (order cpu : Z) | FGet (p : Z) | FPut (p : Z) | FFree (p order : Z).

(** The allocator and what the users hold. *)
Definition fstate : Type := pfa_sys * (Z -> Z).

(** Users take references on frames they hold, drop references they hold, and
    free a block only with their last reference.  The count has 16 bits, so at
    most 65535 references are taken. *)
Definition allowed (st : fstate) (op : fop) : Prop :=
  let own := st.2 in
  let tot := total_frames (pfa st.1) in
  match op with
  | FAlloc _ cpu => 0 <= cpu
  | FGet p => 0 <= p < tot /\ 0 < own p < 65535
  | FPut p => 0 <= p < tot /\ 0 < own p
  | FFree p _ => 0 <= p < tot /\ own p = 1
  end.

Definition no_reclaim (g : pfa_sys) : option (pfa_sys * bool) := Some (g, false).

Definition fstep (st : fstate) (op : fop) : option fstate :=
  let '(g, own) := st in
  match op with
  | FAlloc order cpu =>
      '(g, p) ← pfa_alloc_flags no_reclaim (fun _ => cpu) g order false;
      Some (g, if p =? PFN_NONE then own else set_own own p 1)
  | FGet p => s ← frame_get (pfa g) p; Some (g {{ pfa := s }}, set_own own p (own p + 1))
  | FPut p => s ← frame_put (pfa g) p; Some (g {{ pfa := s }}, set_own own p (own p - 1))
  | FFree p order => s ← pfa_free (pfa g) p order; Some (g {{ pfa := s }}, set_own own p 0)
  end.

Inductive reachable (st0 : fstate) : fstate -> Prop :=
| reach_start : reachable st0 st0
| reach_step st st' op : reachable st0 st -> allowed st op -> fstep st op = Some st' ->
    reachable st0 st'.

Definition st_wf (st : fstate) : Prop := exists L, sys_wf st.1 st.2 L.

Lemma fstep_safe st op : st_wf st -> allowed st op -> exists st', fstep st op = Some st' /\ st_wf st'.
Proof.
  destruct st as [g own]. intros [L W] Ha. pose proof W as [WR Hne Hbs]. simpl in *.
  assert (forall s' own' L', res_wf s' (reserve (g_pfa_cpu_batches g)) own' L' ->
    st_wf (g {{ pfa := s' }}, own')) as Hwrap.
  { intros s' own' L' W'. exists L'. destruct g as [s bs]. by constructor. }
  destruct op as [order cpu|p|p|p order]; cbn [fstep allowed] in *.
  - destruct (decide (0 <= order <= 11)) as [Ho|Ho].
    + destruct (alloc_flags_spec no_reclaim (fun _ => cpu) (fun _ => Ha) g own L order W Ho)
        as [[-> _]|(g' & p & own' & L' & -> & G)]; bnd.
      * rewrite Z.eqb_refl. eexists. split; [done|]. by exists L.
      * rewrite (proj2 (Z.eqb_neq p PFN_NONE)) by (by eapply gr_pfn). eexists. split; [done|].
        exists L'. simpl. rewrite <- (gr_own _ _ _ _ _ _ _ _ G). by eapply gr_wf.
    + unfold pfa_alloc_flags. replace ((order <? 0) || (MAX_ORDER <? order)) with true.
      * bnd. rewrite Z.eqb_refl. eexists. split; [done|]. by exists L.
      * symmetry. apply orb_true_iff. rewrite !Z.ltb_lt. unfold MAX_ORDER. lia.
  - destruct Ha as [Hp Hw]. simpl in Hp, Hw. assert (0 < own p) as Hpos by lia.
    destruct (own_held _ _ _ _ WR p Hp Hpos) as [HpR (o & f & Hh)].
    destruct (wf_get _ L p (own p) o f (rw_wf _ _ _ _ WR) Hh ltac:(lia)) as (s' & -> & W' & Hs & [Hd _] & Hr).
    bnd. eexists. split; [done|]. eapply Hwrap. by eapply res_upd.
  - destruct Ha as [Hp Hw]. simpl in Hp, Hw. assert (0 < own p) as Hpos by lia.
    destruct (own_held _ _ _ _ WR p Hp Hpos) as [HpR (o & f & Hh)].
    destruct (decide (1 < own p)).
    + destruct (wf_put_many _ L p (own p) o f (rw_wf _ _ _ _ WR) Hh ltac:(lia)) as (s' & -> & W' & Hs & [Hd _] & Hr).
      bnd. eexists. split; [done|]. eapply Hwrap. by eapply res_upd.
    + replace (own p) with 1 in * by lia.
      destruct (wf_put_last _ L p o f (rw_wf _ _ _ _ WR) Hh) as (s' & L' & -> & W' & Hs & F).
      bnd. eexists. split; [done|]. eapply Hwrap. by eapply res_freed.
  - destruct Ha as [Hp Hw]. simpl in Hp, Hw. assert (0 < own p) as Hpos by lia.
    destruct (own_held _ _ _ _ WR p Hp Hpos) as [HpR (o & f & Hh)].
    rewrite Hw in Hh.
    destruct (wf_free _ L p 1 o f order (rw_wf _ _ _ _ WR) Hh ltac:(by left)) as (s' & L' & -> & W' & Hs & F).
    bnd. eexists. split; [done|]. eapply Hwrap. by eapply res_freed.
Qed.

Lemma reachable_wf st0 st : st_wf st0 -> reachable st0 st -> st_wf st.
Proof.
  intros W0. induction 1 as [|st st' op _ IH Ha E]; [done|].
  destruct (fstep_safe st op IH Ha) as (st2 & E2 & W2). rewrite E in E2. by simplify_eq.
Qed.
