(* ===== verification/FrameClaims.v ===== *)
(** * Properties of the frame allocator

    Boot, allocation, release, references, addresses and whole histories of
    operations, with examples on small machines. *)

From stdpp Require Import list.
From S2P Require Import Prelude Frame FrameTheory FrameOps FrameBoot FrameSys.
#[local] Open Scope Z_scope.

(** The frames of the block that a frame's metadata describes. *)
Definition frame_block (s : pfa_t) (p i : Z) : Prop :=
  exists m, rd (meta s) p = Some m /\ blk_in p (m_order m) i.

(** ** A booted machine *)

(** The static storage before boot. *)
Definition pfa_reset : pfa_t :=
  {| meta := []; total_frames := 0; free_frames := 0; nr_ranges := 0;
     ranges := replicate 4 {| r_base := 0; r_end := 0; r_start_pfn := 0; r_end_pfn := 0 |};
     free_lists := replicate 12 {| fl_head := 0; fl_count := 0 |};
     g_pfa_freemap := None; g_pfa_direct_map_end := U64_MAX |}.

Definition empty_batch : pfa_cpu_page_batch_t := {| b_pages := replicate 31 0; b_count := 0 |}.

(** [n] is CONFIG_NR_CPUS; at boot the kernel holds its own frames. *)
Definition boot_state (s : pfa_t) (n : nat) : fstate :=
  ({| pfa := s; g_pfa_cpu_batches := replicate n empty_batch |},
   fun p => match rd (meta s) p with Some m => m_refcount m | None => 0 end).

Lemma reserve_empty n : reserve (replicate n empty_batch) = [].
Proof. unfold reserve. induction n; simpl; [done|]. done. Qed.

Lemma boot_state_wf s n L : wf s L -> (0 < n)%nat -> st_wf (boot_state s n).
Proof.
  intros W Hn. exists L. unfold boot_state. simpl. constructor; simpl.
  - rewrite reserve_empty. constructor; [done|constructor| |].
    + intros p Hp. by apply elem_of_nil in Hp.
    + intros p _ Hp. destruct (wf_inv _ _ W) as (fm & _ & I).
      destruct (rd_is_Some (meta s) p) as [m Em].
      { rewrite (k_len (i_core _ _ _ _ _ _ _ _ I)). done. }
      unfold dat. rewrite Em. simpl. eauto.
  - destruct n; [lia|done].
  - apply Forall_replicate. split; [done|]. simpl. lia.
Qed.

(** The platform's RAM table and the end of the kernel image allow boot. *)
Record bootable (ram : list (Z * Z)) (kernel_end b e : Z) : Prop := {
  bt_ram : ram_ok ram;
  bt_kernel : 0 <= kernel_end /\ kernel_end + 64 <= 2 ^ 64;
  bt_in : (b, e) ∈ ram;
  bt_base : b <= ROUND_UP u64 kernel_end 64 < e;
  bt_room : ROUND_UP u64 kernel_end 64 + ram_frames ram * 16 + (ram_frames ram + 7) / 8 <= e;
}.

(** C26: boot.  On a valid RAM table with room for the metadata pfa_init
    returns, a frame is on a free list exactly when its address is outside the
    kernel image and the metadata, kernel frames carry one reference, the free
    count is exact and the audit finds no error. *)
Theorem pfa_init_correct PAGE_OFFSET ram kernel_end b e : bootable ram kernel_end b e ->
  let meta_end := ROUND_UP u64 kernel_end 64 + ram_frames ram * 16 + (ram_frames ram + 7) / 8 in
  exists s L, pfa_init PAGE_OFFSET ram pfa_reset kernel_end = Some s /\ wf s L /\
    total_frames s = ram_frames ram /\ pfa_audit_lists s = Some 0 /\
    (exists free, NoDup free /\ (forall i, i ∈ free <-> owned L i) /\
       pfa_free_count s = Z.of_nat (length free)) /\
    forall i, 0 <= i < ram_frames ram -> exists pa m, pfn_to_phys s i = Some pa /\
      rd (meta s) i = Some m /\
      if decide (b <= pa < meta_end)
      then m_refcount m = 1 /\ m_flags m = FRAME_F_KDATA /\ ~ owned L i
      else m_refcount m = 0 /\ m_flags m = FRAME_F_FREE /\ owned L i.
Proof.
  intros [Hram [Hk1 Hk2] Hin Hb Hroom] meta_end.
  destruct (pfa_init_spec PAGE_OFFSET ram pfa_reset kernel_end b e Hram eq_refl eq_refl Hk1 Hk2 Hin Hb Hroom)
    as (s & L & E & W & Ht & Hf).
  exists s, L. split; [done|]. split; [done|]. split; [done|].
  destruct (wf_St _ _ W) as (tot & nr & dme & rs & mt & ff & fls & fm & -> & Hg & Hp & I).
  pose proof (i_core _ _ _ _ _ _ _ _ I) as K. split; [by eapply audit_spec|]. split.
  - exists (free_list L). split; [by eapply NoDup_free_list|].
    split; [intros i; by eapply (elem_free_list Hg)|].
    rewrite length_free_list. apply I.
  - intros i Hi. destruct (Hf i Hi) as (pa & Epa & H1 & H2). fold meta_end in H1, H2.
    destruct (decide (b <= pa < meta_end)) as [Hpa|Hpa].
    + specialize (H1 Hpa). destruct (held_in _ _ _ Hg _ _ _ _ _ I _ _ _ _ H1) as (_ & Hno & _).
      destruct H1 as [Hd _]. apply dat_inv in Hd as (m & Em & ? & _ & ?). exists pa, m.
      by rewrite decide_True.
    + specialize (H2 Hpa). destruct (owned_dat K i H2) as [od Hd].
      apply dat_inv in Hd as (m & Em & ? & _ & ?). exists pa, m.
      by rewrite decide_False.
Qed.

(** A machine with two small ranges. *)
Definition demo_ram : list (Z * Z) := [(2147483648, 2147483648 + 65536); (2415919104, 2415919104 + 65536)].

Lemma demo_bootable : bootable demo_ram 2147488308 2147483648 (2147483648 + 65536).
Proof.
  constructor.
  - constructor.
    + simpl. lia.
    + intros x Hx. unfold demo_ram in Hx. rewrite !elem_of_cons, elem_of_nil in Hx.
      destruct Hx as [->|[->|[]]]; simpl; repeat split; try lia; reflexivity.
    + intros i j x y pa. destruct i as [|[|i]], j as [|[|j]]; simpl; intros; simplify_eq; try done; simpl in *; lia.
    + vm_compute. discriminate.
  - split; [lia|vm_compute; discriminate].
  - left.
  - vm_compute. split; [discriminate|reflexivity].
  - vm_compute. discriminate.
Qed.

Lemma pfa_init_correct_witness : exists s L,
  pfa_init 0 demo_ram pfa_reset 2147488308 = Some s /\ wf s L /\ total_frames s = 32.
Proof.
  destruct (pfa_init_correct 0 demo_ram 2147488308 2147483648 (2147483648 + 65536) demo_bootable)
    as (s & L & E & W & T & _).
  exists s, L. split; [exact E|]. split; [exact W|]. rewrite T. reflexivity.
Defined.

(** ** Allocation and release *)

Lemma wf_count s L : wf s L -> pfa_free_count s = lsum L.
Proof. intros W. destruct (wf_inv _ _ W) as (fm & _ & I). apply I. Qed.

(** The frames of a block are physically contiguous. *)
Lemma block_contiguous s L p o : wf s L -> block (nr_ranges s) (ranges s) p o ->
  exists pa, forall k, 0 <= k < 2 ^ o -> pfn_to_phys s (p + k) = Some (pa + 4096 * k).
Proof.
  intros W (Ho & _ & r & Hr & H1 & H2).
  destruct (wf_St _ _ W) as (tot & nr & dme & rs & mt & ff & fls & fm & -> & Hg & Hp & I).
  exists (phys r p). intros k Hk. rewrite (pfn_to_phys_in tot nr dme rs Hg mt ff fls fm r (p + k)).
  - f_equal. unfold phys. lia.
  - done.
  - unfold in_rng. lia.
Qed.

(** C27: allocation.  From any well-formed state pfa_alloc_from_buddy returns.
    It answers PFN_NONE, changing nothing, exactly when no list of the order or
    above has a block.  Otherwise the block is aligned, physically contiguous
    and made of free frames only; exactly these leave the free lists, the head
    gets one reference, no other frame in use is touched, and the free count
    drops by the block's size. *)
Theorem alloc_from_buddy_correct s L order : wf s L -> 0 <= order <= MAX_ORDER ->
  exists s' b, pfa_alloc_from_buddy s order = Some (s', b) /\
    (b = PFN_NONE <-> forall o, order <= o -> L o = []) /\
    (b = PFN_NONE -> s' = s) /\
    (b <> PFN_NONE -> exists L' pa m, wf s' L' /\ b mod 2 ^ order = 0 /\
       (forall k, 0 <= k < 2 ^ order -> pfn_to_phys s' (b + k) = Some (pa + 4096 * k)) /\
       (forall i, blk_in b order i -> owned L i) /\
       (forall i, owned L' i <-> owned L i /\ ~ blk_in b order i) /\
       (forall i, ~ owned L i -> rd (meta s') i = rd (meta s) i) /\
       rd (meta s') b = Some m /\ m_refcount m = 1 /\ m_order m = order /\ m_flags m = FRAME_F_ALLOC /\
       pfa_free_count s' = pfa_free_count s - 2 ^ order).
Proof.
  intros W Ho. unfold MAX_ORDER in Ho.
  destruct (wf_alloc s L order W Ho) as [[E H]|(s' & L' & b & E & W' & Hs & Hb & A)].
  { exists s, PFN_NONE. split; [done|]. split; [done|]. split; [done|]. done. }
  exists s', b. split; [done|]. destruct A as [A1 A2 A3 A4 A5 A6 A7]. split_and!.
  - split; [done|]. intros Hnone. exfalso.
    revert E. unfold pfa_alloc_from_buddy.
    destruct (wf_St _ _ W) as (tot & nr & dme & rs & mt & ff & fls & fm2 & -> & Hg2 & Hp2 & I2).
    destruct (find_order tot nr dme rs Hg2 mt ff fls fm2 L order) as ([o'|] & -> & Hf); [apply I2|lia| |].
    + destruct Hf as (Ho' & Hne & _). destruct Hne. apply Hnone. lia.
    + bnd. intros [= _ <-]. done.
  - done.
  - intros _. destruct Hs as (Ht & Hnr & Hrs).
    destruct (block_contiguous s' L' b order W') as [pa Hpa]; [by rewrite Hnr, Hrs|].
    apply dat_inv in A5 as (m & Em & ? & ? & ?). exists L', pa, m.
    rewrite (wf_count _ _ W), (wf_count _ _ W'). split_and!; try done. apply A1.
Qed.

(** C28: release.  Freeing an allocated block whose flags are FRAME_F_ALLOC while
    other references are held is a panic.  Otherwise pfa_free returns, whatever
    order the caller passes: exactly the frames of the block that its metadata
    describes become free, as part of one merged block whose buddy in the same
    range is not free, no other frame in use is touched, and the free count
    grows by the block's size. *)
Theorem pfa_free_correct s L p m order : wf s L -> rd (meta s) p = Some m -> 0 < m_refcount m ->
  if decide (m_flags m = FRAME_F_ALLOC /\ 1 < m_refcount m)
  then pfa_free s p order = None
  else exists s' L', pfa_free s p order = Some s' /\ wf s' L' /\
    (forall i, owned L' i <-> owned L i \/ blk_in p (m_order m) i) /\
    (forall i, ~ owned L' i -> rd (meta s') i = rd (meta s) i) /\
    pfa_free_count s' = pfa_free_count s + 2 ^ m_order m /\
    exists q o r, q ∈ L' o /\ (forall i, blk_in p (m_order m) i -> blk_in q o i) /\
      in_rng r q /\ (o < MAX_ORDER -> in_rng r (Z.lxor q (blk o)) -> Z.lxor q (blk o) ∉ L' o).
Proof.
  intros W Em Hr. destruct (decide (m_flags m = FRAME_F_ALLOC /\ 1 < m_refcount m)) as [[Hf Hr1]|Hn].
  - destruct (wf_St _ _ W) as (tot & nr & dme & rs & mt & ff & fls & fm & -> & Hg & Hp & I).
    change (meta _) with mt in Em. pose proof (rd_Some_range _ _ _ Em) as Hpr.
    rewrite (k_len (i_core _ _ _ _ _ _ _ _ I)) in Hpr.
    unfold pfa_free. cbn [total_frames St]. rewrite (proj2 (Z.leb_gt tot p)) by lia.
    cbn [meta St]. rewrite Em. bnd. by rewrite Hf, (proj2 (Z.ltb_lt 1 (m_refcount m))).
  - assert (held (meta s) p (m_refcount m) (m_order m) (m_flags m)) as Hh.
    { split; [|done]. unfold dat. by rewrite Em. }
    destruct (wf_free s L p _ _ _ order W Hh) as (s' & L' & E & W' & Hs & [F1 F2 F3 F4]).
    { destruct (decide (m_flags m = FRAME_F_ALLOC)); [left|by right].
      destruct (decide (1 < m_refcount m)); [tauto|lia]. }
    exists s', L'. split; [done|]. split; [done|]. split; [done|]. split; [done|]. split.
    + by rewrite (wf_count _ _ W), (wf_count _ _ W').
    + destruct F4 as (q & o & r & H1 & H2 & _ & H3 & H4). by exists q, o, r.
Qed.

(** Misuse.  On a frame that is free, whether or not it heads a block, a
    second free and a dropped reference change nothing, and taking a reference
    is a panic. *)
Theorem free_frame_misuse s L p order : wf s L -> owned L p ->
  pfa_free s p order = Some s /\ frame_put s p = Some s /\ frame_get s p = None.
Proof.
  intros W Hp. destruct (wf_St _ _ W) as (tot & nr & dme & rs & mt & ff & fls & fm & -> & Hg & Hpd & I).
  pose proof (i_core _ _ _ _ _ _ _ _ I) as K. destruct (owned_dat K p Hp) as [od Hd].
  pose proof (owned_range Hg K p Hp) as Hr. split_and!.
  - apply dat_inv in Hd as (m & Em & _ & _ & Hf). unfold pfa_free. cbn [total_frames St].
    rewrite (proj2 (Z.leb_gt tot p)) by lia. cbn [meta St]. rewrite Em. bnd. by rewrite Hf.
  - by eapply (frame_put_unheld _ _ _ _ Hg).
  - by eapply (frame_get_unheld _ _ _ _ Hg).
Qed.

(** Round trip.  Freeing a block right after its allocation gives back the
    same set of free frames and the same free count, with no frame in use
    touched. *)
Theorem alloc_free_roundtrip s L s1 b order order' : wf s L -> 0 <= order <= MAX_ORDER ->
  pfa_alloc_from_buddy s order = Some (s1, b) -> b <> PFN_NONE ->
  exists s2 L2, pfa_free s1 b order' = Some s2 /\ wf s2 L2 /\
    (forall i, owned L2 i <-> owned L i) /\ pfa_free_count s2 = pfa_free_count s /\
    forall i, ~ owned L i -> rd (meta s2) i = rd (meta s) i.
Proof.
  intros W Ho E Hb. unfold MAX_ORDER in Ho.
  destruct (wf_alloc s L order W Ho) as [[E' _]|(s' & L' & b' & E' & W' & Hs & _ & A)];
    rewrite E in E'; simplify_eq. destruct A as [A1 A2 A3 A4 A5 A6 A7].
  assert (held (meta s') b' 1 order FRAME_F_ALLOC) as Hh by (split; [done|lia]).
  destruct (wf_free s' L' b' 1 order FRAME_F_ALLOC order' W' Hh ltac:(by left))
    as (s2 & L2 & E2 & W2 & Hs2 & [F1 F2 F3 F4]).
  assert (forall i, owned L2 i <-> owned L i) as Ho2.
  { intros i. rewrite F1, A3. destruct (decide (blk_in b' order i)) as [Hi|Hi]; [|tauto].
    pose proof (A2 i Hi). tauto. }
  exists s2, L2. split_and!; try done.
  - rewrite (wf_count _ _ W), (wf_count _ _ W2). lia.
  - intros i Hi. rewrite F2, A4; [done|done|]. by rewrite Ho2.
Qed.

(** The release inlined in frame_put_locked is pfa_free: dropping the only
    reference of a valid frame in use computes the same state as freeing it,
    whatever the rest of the state. *)
Theorem frame_put_is_pfa_free s p m order : pfn_valid s p = Some true -> p < total_frames s ->
  rd (meta s) p = Some m -> m_refcount m = 1 -> m_flags m <> FRAME_F_FREE ->
  0 <= m_order m <= MAX_ORDER -> frame_put s p = pfa_free s p order.
Proof.
  intros Hv Hp Em Hr Hf Ho. unfold MAX_ORDER in Ho. unfold frame_put, frame_put_locked, pfa_free.
  rewrite Hv. bnd. cbn [negb]. rewrite (proj2 (Z.leb_gt _ _)), Em by lia. bnd.
  rewrite Hr, andb_false_r, (proj2 (Z.eqb_neq _ _) Hf). cbn [Z.ltb Z.compare].
  rewrite (proj2 (Z.ltb_ge (m_order m) 0)), (proj2 (Z.ltb_ge MAX_ORDER (m_order m)))
    by (unfold MAX_ORDER; lia).
  cbn [orb]. change (1 - 1) with 0. cbn [Z.eqb negb]. cbv zeta.
  rewrite (proj2 (Z.ltb_ge (m_order m) 0)), (proj2 (Z.ltb_ge 31 (m_order m))) by lia. done.
Qed.

(** ** Addresses *)

(** Addresses.  For every frame of RAM pfn_to_phys gives an address from
    which, with any offset inside the page, phys_to_pfn leads back to the
    frame; the virtual address is the physical one plus PAGE_OFFSET, and
    virt_to_pfn inverts it. *)
Theorem pfn_address_roundtrip PAGE_OFFSET s L p k : wf s L -> 0 <= p < total_frames s ->
  0 <= k < PAGE_SIZE ->
  exists pa, pfn_to_phys s p = Some pa /\ phys_to_pfn s (pa + k) = Some p /\
    pfn_to_virt PAGE_OFFSET s p = Some (u64 (PAGE_OFFSET + pa)) /\
    virt_to_pfn PAGE_OFFSET s (u64 (PAGE_OFFSET + pa + k)) = Some p.
Proof.
  intros W Hp Hk. unfold PAGE_SIZE in Hk.
  destruct (wf_St _ _ W) as (tot & nr & dme & rs & mt & ff & fls & fm & -> & Hg & Hpd & I).
  cbn [total_frames St] in Hp.
  destruct (range_chain_find _ _ _ _ (geo_chain _ _ _ Hg) Hp) as (j & r & Hj & Hr).
  apply list_elem_of_lookup_2 in Hj. exists (phys r p).
  destruct (phys_range tot nr rs Hg r p Hj Hr) as (H1 & H2 & H3 & H4 & H5 & _).
  split; [by apply (pfn_to_phys_in tot)|]. split; [by apply (phys_to_pfn_in tot)|]. split.
  - unfold pfn_to_virt. rewrite (range_for_in Hg mt ff fls fm p r Hj Hr). bnd.
    unfold PAGE_SIZE_BITS. rewrite Z.shiftl_mul_pow2 by lia. change (2 ^ 12) with 4096.
    rewrite (u32_small (p - r_start_pfn r)) by done. unfold in_u32 in H5. unfold phys.
    rewrite (u64_small ((p - r_start_pfn r) * 4096)) by (unfold in_u64; lia). do 2 f_equal. lia.
  - unfold virt_to_pfn. replace (u64 (u64 (PAGE_OFFSET + phys r p + k) - PAGE_OFFSET)) with (phys r p + k).
    + by apply (phys_to_pfn_in tot).
    + unfold u64. rewrite Zminus_mod_idemp_l.
      replace (PAGE_OFFSET + phys r p + k - PAGE_OFFSET) with (phys r p + k) by lia.
      rewrite Z.mod_small; [done|]. lia.
Qed.

(** ** Histories *)

(** What a user can rely on in a well-formed system. *)
Lemma exclusive g own L p q i : sys_wf g own L -> 0 <= p < total_frames (pfa g) ->
  0 <= q < total_frames (pfa g) -> 0 < own p -> 0 < own q ->
  frame_block (pfa g) p i -> frame_block (pfa g) q i -> p = q /\ ~ owned L i.
Proof.
  intros [W _ _] Hp Hq Hop Hoq (m & Em & Hi) (m' & Em' & Hi').
  destruct (wf_inv _ _ (rw_wf _ _ _ _ W)) as (fm & _ & I). pose proof (wf_geo _ _ (rw_wf _ _ _ _ W)) as Hg.
  destruct (own_held _ _ _ _ W p Hp Hop) as [_ (o & f & Hh)].
  destruct (own_held _ _ _ _ W q Hq Hoq) as [_ (o' & f' & Hh')].
  assert (m_order m = o) as Ho by (destruct Hh as [Hd _]; unfold dat in Hd; rewrite Em in Hd; simpl in Hd; by simplify_eq).
  assert (m_order m' = o') as Ho' by (destruct Hh' as [Hd _]; unfold dat in Hd; rewrite Em' in Hd; simpl in Hd; by simplify_eq).
  rewrite Ho in Hi. rewrite Ho' in Hi'. split; [by eapply held_disj|].
  by apply (i_alloc _ _ _ _ _ _ _ _ I _ _ _ _ Hh).
Qed.

(** An allocation hands out a block that no user holds any part of. *)
Lemma alloc_step_fresh st st' order cpu : st_wf st -> 0 <= cpu ->
  fstep st (FAlloc order cpu) = Some st' ->
  st'.2 = st.2 \/ exists p, st'.2 = set_own st.2 p 1 /\ st.2 p = 0 /\ 0 <= p < total_frames (pfa st.1) /\
    forall q i, 0 <= q < total_frames (pfa st.1) -> 0 < st.2 q ->
      frame_block (pfa st'.1) p i -> ~ frame_block (pfa st'.1) q i.
Proof.
  destruct st as [g own]. intros [L W] Hc E. cbn [fstep fst snd] in *.
  destruct (decide (0 <= order <= 11)) as [Ho|Ho].
  2:{ unfold pfa_alloc_flags in E. replace ((order <? 0) || (MAX_ORDER <? order)) with true in E.
      - revert E. bnd. rewrite Z.eqb_refl. intros [= <-]. by left.
      - symmetry. apply orb_true_iff. rewrite !Z.ltb_lt. unfold MAX_ORDER. lia. }
  destruct (alloc_flags_spec no_reclaim (fun _ => cpu) (fun _ => Hc) g own L order W Ho)
    as [[E' _]|(g' & p & own' & L' & E' & G)]; rewrite E' in E; revert E; bnd.
  { rewrite Z.eqb_refl. intros [= <-]. by left. }
  rewrite (proj2 (Z.eqb_neq p PFN_NONE)) by (by eapply gr_pfn). intros [= <-]. right. exists p. simpl.
  destruct G as [G1 G2 -> G4 G5 G6 ((G7 & _) & _)].
  pose proof (block_range (wf_geo _ _ (rw_wf _ _ _ _ (sw_res _ _ _ W))) _ _ G5) as Hr.
  split; [done|]. split; [done|]. split; [lia|]. intros q i Hq Hoq Hpi Hqi.
  assert (q <> p) as Hne by (intros ->; simpl in Hoq; lia).
  destruct (exclusive g' _ L' p q i G2) as [Hpq _]; try done; [rewrite G7; lia|by rewrite G7| |].
  - rewrite set_own_eq. lia.
  - by rewrite set_own_ne.
Qed.

(** C25: histories.  After boot, in every sequence of allocations on any CPU
    (through its reserve of pages), references taken and dropped, and frees, in
    which users take a reference only on a frame they hold fewer than 65535 of
    (the 16-bit count wraps beyond, [frame_get_wraps]), drop only references
    they hold, free a block only with its single reference (with two the code
    panics) and allocations run without reclaiming cached pages: no operation
    panics or touches memory outside its arrays; a frame's count is what its
    users hold; no frame belongs to two held blocks or to a held block and a
    free list; the audit finds no error; and an allocated block shares no frame
    with any block held. *)
Theorem frame_histories_safe PAGE_OFFSET ram kernel_end b e s ncpu st :
  bootable ram kernel_end b e -> pfa_init PAGE_OFFSET ram pfa_reset kernel_end = Some s ->
  (0 < ncpu)%nat -> reachable (boot_state s ncpu) st ->
  (forall op, allowed st op -> exists st', fstep st op = Some st') /\
  (forall p, 0 <= p < total_frames (pfa st.1) -> 0 < st.2 p ->
     exists m, rd (meta (pfa st.1)) p = Some m /\ m_refcount m = st.2 p) /\
  (exists L, wf (pfa st.1) L /\ forall p q i,
     0 <= p < total_frames (pfa st.1) -> 0 <= q < total_frames (pfa st.1) ->
     0 < st.2 p -> 0 < st.2 q -> frame_block (pfa st.1) p i -> frame_block (pfa st.1) q i ->
     p = q /\ ~ owned L i) /\
  pfa_audit_lists (pfa st.1) = Some 0 /\
  (forall order cpu st', 0 <= cpu -> fstep st (FAlloc order cpu) = Some st' ->
     st'.2 = st.2 \/ exists p, st'.2 = set_own st.2 p 1 /\ st.2 p = 0 /\
       0 <= p < total_frames (pfa st.1) /\
       forall q i, 0 <= q < total_frames (pfa st.1) -> 0 < st.2 q ->
         frame_block (pfa st'.1) p i -> ~ frame_block (pfa st'.1) q i).
Proof.
  intros [Hram [Hk1 Hk2] Hin Hb Hroom] Hboot Hn Hreach.
  destruct (pfa_init_spec PAGE_OFFSET ram pfa_reset kernel_end b e Hram eq_refl eq_refl Hk1 Hk2 Hin Hb Hroom)
    as (s0 & L0 & E0 & W0 & _). rewrite Hboot in E0. simplify_eq.
  assert (st_wf st) as Hst by (eapply reachable_wf; [by eapply boot_state_wf|done]).
  pose proof Hst as [L W]. pose proof W as [WR _ _]. split_and!.
  - intros op Ha. destruct (fstep_safe st op Hst Ha) as (st' & E & _). by exists st'.
  - intros p Hp Ho. destruct (own_held _ _ _ _ WR p Hp Ho) as [_ (o & f & [Hd _])].
    apply dat_inv in Hd as (m & Em & Hm & _). by exists m.
  - exists L. split; [apply WR|]. intros p q i Hp Hq Hop Hoq. by eapply exclusive.
  - destruct (wf_St _ _ (rw_wf _ _ _ _ WR)) as (tot & nr & dme & rs & mt & ff & fls & fm & E & Hg & Hpd & I).
    rewrite E. eapply audit_spec; [done|]. apply I.
  - intros order cpu st' Hc E. by eapply alloc_step_fresh.
Qed.

(** ** Examples *)

Definition demo_s : pfa_t :=
  match pfa_init 0 demo_ram pfa_reset 2147488308 with Some s => s | None => pfa_reset end.

Lemma demo_boot : pfa_init 0 demo_ram pfa_reset 2147488308 = Some demo_s.
Proof. vm_compute. reflexivity. Qed.

Lemma demo_wf : exists L, wf demo_s L.
Proof.
  destruct demo_bootable as [Hram [Hk1 Hk2] Hin Hb Hroom].
  destruct (pfa_init_spec 0 demo_ram pfa_reset 2147488308 _ _ Hram eq_refl eq_refl Hk1 Hk2 Hin Hb Hroom)
    as (s & L & E & W & _).
  rewrite demo_boot in E. apply (inj Some) in E as <-. by exists L.
Qed.

(** The state after one page is taken. *)
Definition demo_s1 : pfa_t :=
  match pfa_alloc_from_buddy demo_s 0 with Some (s, _) => s | None => demo_s end.

Lemma demo_alloc : pfa_alloc_from_buddy demo_s 0 = Some (demo_s1, 31).
Proof. vm_compute. reflexivity. Qed.

Lemma demo_wf1 : exists L, wf demo_s1 L.
Proof.
  destruct demo_wf as [L W].
  destruct (wf_alloc demo_s L 0 W) as [[E _]|(s' & L' & b & E & W' & _)]; [lia|..];
    rewrite demo_alloc in E; apply (inj Some) in E.
  - apply (f_equal snd) in E. cbn [snd] in E. discriminate.
  - apply (f_equal fst) in E. cbn [fst] in E. subst s'. by exists L'.
Qed.

Lemma alloc_from_buddy_correct_witness : exists s' b L',
  pfa_alloc_from_buddy demo_s 0 = Some (s', b) /\ b = 31 /\ wf s' L'.
Proof.
  destruct demo_wf as [L W].
  destruct (alloc_from_buddy_correct demo_s L 0 W) as (s' & b & E & _ & _ & H).
  { unfold MAX_ORDER. lia. }
  pose proof demo_alloc as E'. rewrite E in E'. apply (inj Some) in E'.
  assert (b = 31) as Hb by (apply (f_equal snd) in E'; exact E').
  destruct H as (L' & _ & _ & W' & _); [rewrite Hb; discriminate|].
  exists s', b, L'. split; [exact E|]. split; [exact Hb|exact W'].
Defined.

Lemma pfa_free_correct_witness : exists s' L', pfa_free demo_s1 31 0 = Some s' /\ wf s' L' /\
  pfa_free_count s' = 30.
Proof.
  destruct demo_wf1 as [L W].
  pose proof (pfa_free_correct demo_s1 L 31
    {| m_prev := PFN_NONE; m_next := PFN_NONE; m_refcount := 1; m_order := 0; m_flags := 1 |} 0
    W ltac:(vm_compute; reflexivity) ltac:(reflexivity)) as H.
  rewrite decide_False in H by (intros [_ Hx]; vm_compute in Hx; discriminate).
  destruct H as (s' & L' & E & W' & _ & _ & Hc & _).
  exists s', L'. split; [exact E|]. split; [exact W'|]. rewrite Hc. vm_compute. reflexivity.
Defined.

Lemma demo_free_frame L : wf demo_s L -> owned L 31.
Proof.
  intros W. destruct (wf_St _ _ W) as (tot & nr & dme & rs & mt & ff & fls & fm & E & Hg & _ & I).
  assert (tst fm 31 = Some true) as Ht.
  { assert (PFA_FREEMAP_TEST demo_s 31 = Some true) as H by (vm_compute; reflexivity). rewrite E in H. exact H. }
  assert (tot = 32) as -> by (change tot with (total_frames (St tot nr dme rs mt ff fls fm)); rewrite <- E; vm_compute; reflexivity).
  pose proof (i_core _ _ _ _ _ _ _ _ I) as K. destruct (k_bits K 31 ltac:(lia)) as (b & Eb & Hb).
  rewrite Ht in Eb. injection Eb as <-. destruct (proj1 Hb eq_refl) as [o Ho]. by eapply (head_owned Hg K).
Qed.

Lemma free_frame_misuse_witness : pfa_free demo_s 31 0 = Some demo_s /\ frame_get demo_s 31 = None.
Proof.
  destruct demo_wf as [L W].
  destruct (free_frame_misuse demo_s L 31 0 W (demo_free_frame L W)) as (H1 & _ & H2). split; [exact H1|exact H2].
Defined.

Lemma alloc_free_roundtrip_witness : exists s2 L2, pfa_free demo_s1 31 0 = Some s2 /\ wf s2 L2.
Proof.
  destruct demo_wf as [L W].
  destruct (alloc_free_roundtrip demo_s L demo_s1 31 0 0 W) as (s2 & L2 & E & W2 & _).
  - unfold MAX_ORDER. lia.
  - exact demo_alloc.
  - discriminate.
  - exists s2, L2. split; [exact E|exact W2].
Defined.

Lemma frame_put_is_pfa_free_witness : frame_put demo_s1 31 = pfa_free demo_s1 31 5.
Proof.
  apply (frame_put_is_pfa_free demo_s1 31
    {| m_prev := PFN_NONE; m_next := PFN_NONE; m_refcount := 1; m_order := 0; m_flags := 1 |} 5);
    vm_compute; try reflexivity; try discriminate. split; discriminate.
Defined.

Lemma pfn_address_roundtrip_witness : exists pa, pfn_to_phys demo_s 20 = Some pa /\
  phys_to_pfn demo_s (pa + 7) = Some 20.
Proof.
  destruct demo_wf as [L W].
  destruct (pfn_address_roundtrip 4096 demo_s L 20 7 W) as (pa & E1 & E2 & _).
  - vm_compute. split; [discriminate|reflexivity].
  - unfold PAGE_SIZE. lia.
  - exists pa. split; [exact E1|exact E2].
Defined.

(** A history: a page, a second reference, both dropped. *)
Lemma demo_reachable : exists st, reachable (boot_state demo_s 1) st /\ st.2 31 = 2.
Proof.
  set (see := fun st : fstate => (st.2 31, total_frames (pfa st.1))).
  assert (see <$> fstep (boot_state demo_s 1) (FAlloc 0 0) = Some (1, 32)) as H1
    by (vm_compute; reflexivity).
  assert (see <$> (fstep (boot_state demo_s 1) (FAlloc 0 0) ≫= fun st => fstep st (FGet 31)) = Some (2, 32))
    as H2 by (vm_compute; reflexivity).
  destruct (fstep (boot_state demo_s 1) (FAlloc 0 0)) as [st1|] eqn:E1; [|discriminate].
  cbn [fmap option_fmap option_map mbind option_bind] in H1, H2.
  destruct (fstep st1 (FGet 31)) as [st2|] eqn:E2; [|discriminate].
  apply (inj Some) in H1, H2. unfold see in H1, H2. injection H1 as Ho1 Ht1. injection H2 as Ho2 _.
  exists st2. split; [|exact Ho2].
  eapply (reach_step _ st1 _ (FGet 31)); [|cbn [allowed]; rewrite Ho1, Ht1; lia|exact E2].
  eapply (reach_step _ _ _ (FAlloc 0 0)); [apply reach_start|cbn [allowed]; lia|exact E1].
Qed.

Lemma frame_histories_safe_witness : exists st, reachable (boot_state demo_s 1) st /\ st.2 31 = 2 /\
  pfa_audit_lists (pfa st.1) = Some 0.
Proof.
  destruct demo_reachable as (st & Hr & H2).
  destruct (frame_histories_safe 0 demo_ram 2147488308 2147483648 (2147483648 + 65536) demo_s 1 st
    demo_bootable demo_boot ltac:(lia) Hr) as (_ & _ & _ & Ha & _).
  exists st. split; [exact Hr|]. split; [exact H2|exact Ha].
Defined.

(** ** Limits of the code *)

Definition alloc_pages (n : nat) (s : pfa_t) : option pfa_t :=
  for_ 0 (Z.of_nat n) (fun _ s => '(s, _) ← pfa_alloc_from_buddy s 0; Some s) s.

Definition free_pages (l : list Z) (s : pfa_t) : option pfa_t :=
  foldl (fun s p => s ← s; pfa_free s p 0) (Some s) l.

(** Pages 4 to 7 as one block of order 2, its upper pages freed one by one,
    then the block itself. *)
Definition partial_free : option pfa_t :=
  s ← alloc_pages 30 demo_s;
  s ← free_pages [4; 5; 6; 7] s;
  '(s, _) ← pfa_alloc_from_buddy s 2;
  s ← free_pages [6; 7] s;
  pfa_free s 4 2.

(** The split of fl_push_clean looks for listed heads only: the pages freed one
    by one have merged into the block 6, so page 7 is no head and is published
    again.  The count says 6 free frames where 4 are, the audit finds nothing,
    and page 7 is handed out twice. *)
Lemma partial_free_lists_twice :
  (s ← partial_free;
   errors ← pfa_audit_lists s;
   '(s1, p) ← pfa_alloc_from_buddy s 0;
   '(s2, q) ← pfa_alloc_from_buddy s1 1;
   '(_, r) ← pfa_alloc_from_buddy s2 1;
   Some (pfa_free_count s, errors, p, q, r)) = Some (6, 0, 7, 4, 6).
Proof. vm_compute. reflexivity. Qed.

(** The 16-bit count wraps: the 65536th reference makes it 0. *)
Lemma frame_get_wraps s p m : pfn_valid s p = Some true -> rd (meta s) p = Some m ->
  m_refcount m = 65535 ->
  frame_get s p = put_meta s p (m {{ m_refcount := 0 }}).
Proof. intros Hv Em Hr. unfold frame_get. rewrite Hv. bnd. rewrite Em. bnd. by rewrite Hr. Qed.

(** After boot on the small machine 30 frames are free, in two contiguous runs,
    but no two of them can be allocated together. *)
Lemma boot_pages_unmerged : pfa_free_count demo_s = 30 /\
  pfa_alloc_from_buddy demo_s 1 = Some (demo_s, PFN_NONE).
Proof. split; vm_compute; reflexivity. Qed.
