(* ===== verification/Pipe.v ===== *)
(** * Pipes (kernel/fs/pipe.c)

    A ring buffer under one spinlock with a reading and a writing end.  Each
    stretch of code between taking and releasing the lock is one function on
    the buffer; what other tasks do to it while the lock is released, signals,
    the park and the allocations are arguments.  Wake-ups and SIGPIPE are
    recorded in [pb_events], newest first.  [None] is an access outside an
    array or of a freed pipe. *)

From S2P Require Import Prelude.

(** ** Constants *)

Definition PIPE_BUF_SIZE : Z := 4096.
Definition PIPE_DEFAULT_SIZE : Z := 16 * PIPE_BUF_SIZE.
Abbreviation POLLIN := (0x001)%Z (only parsing).
Abbreviation POLLOUT := (0x004)%Z (only parsing).
Abbreviation POLLERR := (0x008)%Z (only parsing).
Abbreviation POLLHUP := (0x010)%Z (only parsing).
Abbreviation POLLNVAL := (0x020)%Z (only parsing).

(** ** Data *)

(** What the pipe tells others: [wait_queue_wake_all] on one of its two
    queues, [a20_event_notify] for an endpoint's descriptor, and the SIGPIPE
    sent to the writing task. *)
Inductive pipe_event :=
  | WakeReaders | NotifyReadable (fd : Z)
  | WakeWriters | NotifyWritable (fd : Z)
  | SigPipe.

Record pipe_buf_t := mk_pipe {
  pb_data : list Z;
  pb_capacity : Z;
  pb_head : Z;
  pb_tail : Z;
  pb_used : Z;
  pb_logical_size : Z;
  pb_writer_closed : bool;
  pb_reader_closed : bool;
  pb_ref : Z;
  pb_read_fd : Z;
  pb_write_fd : Z;
  pb_events : list pipe_event;
}.

(** The operation tables a file can have: the two of pipe.c, or another. *)
Inductive vfile_ops := g_pipe_read_ops | g_pipe_write_ops | other_ops.

(** The fields of [vfile_t] the pipe reads: the operations, whether
    [O_NONBLOCK] is set, and [priv], NULL or the pipe. *)
Record vfile := { vf_ops : vfile_ops; vf_nonblock : bool; vf_priv : option pipe_buf_t }.

(** How far a call got: it returned, or the given waits are used up. *)
Inductive progress := Returned (r : Z) | Blocked.

(** [memcpy(dst + doff, src + soff, n)]. *)
Definition memcpy (dst : list Z) (doff : Z) (src : list Z) (soff n : Z)
  : option (list Z) :=
  if (0 <=? doff) && (0 <=? soff) && (0 <=? n)
     && (doff + n <=? Z.of_nat (length dst)) && (soff + n <=? Z.of_nat (length src))
  then Some (take (Z.to_nat doff) dst
             ++ take (Z.to_nat n) (drop (Z.to_nat soff) src)
             ++ drop (Z.to_nat (doff + n)) dst)
  else None.

(** ** Wake-ups and waiting *)

Definition pipe_wake_readers (pb : pipe_buf_t) : pipe_buf_t :=
  let ev := WakeReaders :: pb_events pb in
  pb {{ pb_events := if pb_read_fd pb >=? 0 then NotifyReadable (pb_read_fd pb) :: ev else ev }}.

Definition pipe_wake_writers (pb : pipe_buf_t) : pipe_buf_t :=
  let ev := WakeWriters :: pb_events pb in
  pb {{ pb_events := if pb_write_fd pb >=? 0 then NotifyWritable (pb_write_fd pb) :: ev else ev }}.

Inductive pipe_queue := read_waiters | write_waiters.

(** The condition to sleep on a queue. *)
Definition should_wait (wq : pipe_queue) (needed : Z) (pb : pipe_buf_t) : bool :=
  match wq with
  | read_waiters => (pb_used pb =? 0) && negb (pb_writer_closed pb)
  | write_waiters =>
      (u64 (pb_capacity pb - pb_used pb) <? needed) && negb (pb_reader_closed pb)
  end.

(** One call of [pipe_wait_interruptible_locked] from outside: whether there
    is a current task, the answers of the signal tests and of the park, and
    what other tasks do to the pipe in each stretch without the lock. *)
Record wait_in := {
  w_current : bool;
  w_yield : pipe_buf_t -> pipe_buf_t;
  w_signal_entry : bool;
  w_prepare : pipe_buf_t -> pipe_buf_t;
  w_token : bool;
  w_signal_recheck : bool;
  w_cancel : pipe_buf_t -> pipe_buf_t;
  w_linked : bool;
  w_park : pipe_buf_t -> pipe_buf_t;
  w_reason_interrupt : bool;
  w_signal_exit : bool;
}.

Definition pipe_wait_interruptible_locked (wq : pipe_queue) (needed : Z)
    (w : wait_in) (pb : pipe_buf_t) : pipe_buf_t * Z :=
  if negb (w_current w) then (w_yield w pb, 0)
  else if w_signal_entry w then (pb, - ERESTARTSYS)
  else
    let pb := w_prepare w pb in
    if negb (w_token w) then (pb, 0)
    else
      let interrupted := w_signal_recheck w in
      if negb (should_wait wq needed pb) || interrupted then
        (w_cancel w pb, if interrupted then - ERESTARTSYS else 0)
      else
        (* an entry that was not linked is cancelled: PROC_WAKE_CANCEL *)
        let pb := w_park w pb in
        let interrupt := w_linked w && w_reason_interrupt w in
        (pb, if interrupt || w_signal_exit w then - ERESTARTSYS else 0).

(** ** Reading *)

(** The loop that waits for bytes, shared by [pipe_read] and [pipe_peek]:
    the pipe and [None] when it holds bytes. *)
Fixpoint wait_data (nonblock : bool) (ws : list wait_in) (pb : pipe_buf_t)
  : pipe_buf_t * option progress :=
  if pb_used pb =? 0 then
    if pb_writer_closed pb then (pb, Some (Returned 0))
    else if nonblock then (pb, Some (Returned (- EAGAIN)))
    else
      match ws with
      | [] => (pb, Some Blocked)
      | w :: ws' =>
          let '(pb, wr) := pipe_wait_interruptible_locked read_waiters 1 w pb in
          if wr <? 0 then (pb, Some (Returned wr)) else wait_data nonblock ws' pb
      end
  else (pb, None).

(** The copy of the [n] oldest bytes to [buf]. *)
Definition copy_out (pb : pipe_buf_t) (buf : list Z) (n : Z) : option (list Z) :=
  let first := u64 (pb_capacity pb - pb_tail pb) in
  let first := if first >? n then n else first in
  buf ← memcpy buf 0 (pb_data pb) (pb_tail pb) first;
  let second := u64 (n - first) in
  if c_true second then memcpy buf first (pb_data pb) 0 second else Some buf.

(** The locked stretch of [pipe_read] once there are bytes. *)
Definition read_section (pb : pipe_buf_t) (buf : list Z) (count : Z)
  : option (pipe_buf_t * list Z * Z) :=
  let n := if pb_used pb <? count then pb_used pb else count in
  buf ← copy_out pb buf n;
  if pb_capacity pb =? 0 then None else
  Some (pb {{ pb_tail := u64 (pb_tail pb + n) mod pb_capacity pb;
              pb_used := u64 (pb_used pb - n) }}, buf, n).

Definition pipe_read (priv : option pipe_buf_t) (nonblock : bool) (buf : list Z)
    (count : Z) (ws : list wait_in) : option (option pipe_buf_t * list Z * progress) :=
  match priv with
  | None => Some (None, buf, Returned (- EBADF))
  | Some pb =>
      if count =? 0 then Some (Some pb, buf, Returned 0) else
      match wait_data nonblock ws pb with
      | (pb, Some p) => Some (Some pb, buf, p)
      | (pb, None) =>
          '(pb, buf, n) ← read_section pb buf count;
          Some (Some (pipe_wake_writers pb), buf, Returned (s32 n))
      end
  end.

(** ** Writing *)

(** The copy of [chunk] bytes of [buf] from [n] on behind the newest byte. *)
Definition ring_write (pb : pipe_buf_t) (buf : list Z) (n chunk : Z)
  : option pipe_buf_t :=
  let first := u64 (pb_capacity pb - pb_head pb) in
  let first := if first >? chunk then chunk else first in
  d ← memcpy (pb_data pb) (pb_head pb) buf n first;
  let second := u64 (chunk - first) in
  d ← (if c_true second then memcpy d 0 buf (n + first) second else Some d);
  if pb_capacity pb =? 0 then None else
  Some (pb {{ pb_data := d;
              pb_head := u64 (pb_head pb + chunk) mod pb_capacity pb;
              pb_used := u64 (pb_used pb + chunk) }}).

(** [-EPIPE], with SIGPIPE for the current task when there is one. *)
Definition broken_pipe (current : bool) (pb : pipe_buf_t) : pipe_buf_t * Z :=
  (if current then pb {{ pb_events := SigPipe :: pb_events pb }} else pb, - EPIPE).

(** How a turn of the writing loop ends: a return, a wait for [needed] bytes
    of room, or a push after which [n] bytes are written. *)
Inductive write_end := WReturn (r : Z) | WWait (needed : Z) | WPushed (n : Z).

(** The exits when there is no room. *)
Definition write_full (current nonblock : bool) (n needed : Z) (pb : pipe_buf_t)
  : pipe_buf_t * write_end :=
  if pb_reader_closed pb then
    if n >? 0 then (pb, WReturn (s32 n))
    else let '(pb, r) := broken_pipe current pb in (pb, WReturn r)
  else if nonblock then (pb, WReturn (if c_true n then s32 n else - EAGAIN))
  else (pb, WWait needed).

(** One turn of the writing loop, from holding the lock to giving it up.  The
    inner loop that waits for room for the last bytes goes round through the
    same tests: [n] does not change while it waits. *)
Definition write_turn (current nonblock : bool) (buf : list Z) (count n : Z)
    (pb : pipe_buf_t) : option (pipe_buf_t * write_end) :=
  if n <? count then
    let remaining := u64 (count - n) in
    let space := u64 (pb_capacity pb - pb_used pb) in
    if remaining <=? PIPE_BUF_SIZE then
      if space <? remaining then Some (write_full current nonblock n remaining pb)
      else
        pb ← ring_write pb buf n remaining;
        Some (pipe_wake_readers pb, WPushed (n + remaining))
    else if space =? 0 then Some (write_full current nonblock n 1 pb)
    else
      let chunk := if remaining <? space then remaining else space in
      pb ← ring_write pb buf n chunk;
      Some (pipe_wake_readers pb, WPushed (n + chunk))
  else Some (pb, WReturn (s32 n)).

(** What one turn meets outside the lock: the wait, if it waits, and what
    others do before the lock is taken again, if it pushes. *)
Record turn_in := { t_wait : wait_in; t_gap : pipe_buf_t -> pipe_buf_t }.

(** The loop.  The last component lists the pipe before and after each push,
    in order. *)
Fixpoint write_loop (current nonblock : bool) (buf : list Z) (count : Z)
    (ts : list turn_in) (n : Z) (pb : pipe_buf_t)
  : option (pipe_buf_t * progress * list (pipe_buf_t * pipe_buf_t)) :=
  '(pb', e) ← write_turn current nonblock buf count n pb;
  match e, ts with
  | WReturn r, _ => Some (pb', Returned r, [])
  | WWait needed, t :: ts' =>
      let '(pb', wr) := pipe_wait_interruptible_locked write_waiters needed (t_wait t) pb' in
      if wr <? 0 then Some (pb', Returned (if c_true n then s32 n else wr), [])
      else write_loop current nonblock buf count ts' n pb'
  | WPushed n', t :: ts' =>
      '(pb'', p, ps) ← write_loop current nonblock buf count ts' n' (t_gap t pb');
      Some (pb'', p, (pb, pb') :: ps)
  | WWait _, [] => Some (pb', Blocked, [])
  | WPushed _, [] => Some (pb', Blocked, [(pb, pb')])
  end.

Definition pipe_write (current : bool) (priv : option pipe_buf_t) (nonblock : bool)
    (buf : list Z) (count : Z) (ts : list turn_in)
  : option (option pipe_buf_t * progress * list (pipe_buf_t * pipe_buf_t)) :=
  match priv with
  | None => Some (None, Returned (- EBADF), [])
  | Some pb =>
      if count =? 0 then Some (Some pb, Returned 0, [])
      else if pb_reader_closed pb then
        let '(pb, r) := broken_pipe current pb in Some (Some pb, Returned r, [])
      else
        '(pb, p, ps) ← write_loop current nonblock buf count ts 0 pb;
        Some (Some pb, p, ps)
  end.

(** The operations of the other direction in the two tables. *)
Definition pipe_null_read (count : Z) : Z := 0.

Definition pipe_null_write (count : Z) : Z := s32 count.

(** ** Resizing *)

(** The tests under the lock, made before and again after the allocation:
    [Some r] is a return. *)
Definition resize_guard (new_capacity : Z) (pb : pipe_buf_t) : pipe_buf_t * option Z :=
  if new_capacity <? pb_used pb then (pb, Some (- EBUSY))
  else if new_capacity =? pb_capacity pb then
    (pb {{ pb_logical_size := new_capacity }}, Some (s32 new_capacity))
  else (pb, None).

(** The second locked stretch: the copy to [new_data] and the switch. *)
Definition resize_swap (new_capacity : Z) (new_data : list Z) (pb : pipe_buf_t)
  : option pipe_buf_t :=
  new_data ← for_ 0 (pb_used pb)
    (fun i d =>
       if pb_capacity pb =? 0 then None else
       b ← rd (pb_data pb) (u64 (pb_tail pb + i) mod pb_capacity pb);
       wr d i b) new_data;
  if new_capacity =? 0 then None else
  Some (pb {{ pb_data := new_data; pb_capacity := new_capacity;
              pb_logical_size := new_capacity; pb_tail := 0;
              pb_head := pb_used pb mod new_capacity }}).

(** [kmalloc] answers with the block of that size, or NULL; [gap] is what
    others do while the lock is released around it. *)
Definition pipe_resize (priv : option pipe_buf_t) (new_capacity : Z)
    (kmalloc : Z -> option (list Z)) (gap : pipe_buf_t -> pipe_buf_t)
  : option (option pipe_buf_t * Z) :=
  match priv with
  | None => Some (None, - EINVAL)
  | Some pb =>
      let new_capacity := if new_capacity <? PIPE_BUF_SIZE then PIPE_BUF_SIZE else new_capacity in
      match resize_guard new_capacity pb with
      | (pb, Some r) => Some (Some pb, r)
      | (pb, None) =>
          let pb := gap pb in
          match kmalloc new_capacity with
          | None => Some (Some pb, - ENOMEM)
          | Some new_data =>
              match resize_guard new_capacity pb with
              | (pb, Some r) => Some (Some pb, r)
              | (pb, None) =>
                  pb ← resize_swap new_capacity new_data pb;
                  Some (Some pb, s32 new_capacity)
              end
          end
      end
  end.

(** ** Closing *)

(** [None] in the result: the pipe is freed.  [last] says whether the file's
    reference count is 0, as it is when its last descriptor is closed. *)
Definition pipe_read_close (last : bool) (priv : option pipe_buf_t) : option pipe_buf_t :=
  match priv with
  | None => None
  | Some pb =>
      let pb := if last then pb {{ pb_reader_closed := true }} else pb in
      let pb := pb {{ pb_ref := pb_ref pb - 1 }} in
      let refs := pb_ref pb in
      let pb := if last then pipe_wake_writers pb else pb in
      if refs =? 0 then None else Some pb
  end.

Definition pipe_write_close (last : bool) (priv : option pipe_buf_t) : option pipe_buf_t :=
  match priv with
  | None => None
  | Some pb =>
      let pb := if last then pb {{ pb_writer_closed := true }} else pb in
      let pb := pb {{ pb_ref := pb_ref pb - 1 }} in
      let refs := pb_ref pb in
      let pb := if last then pipe_wake_readers pb else pb in
      if refs =? 0 then None else Some pb
  end.

(** ** Queries *)

Definition pipe_vfile_is (vf : option vfile) : bool :=
  match vf with
  | Some v => match vf_ops v with other_ops => false | _ => true end
  | None => false
  end.

Definition pipe_peek (vf : option vfile) (buf : list Z) (count : Z) (ws : list wait_in)
  : option (option pipe_buf_t * list Z * progress) :=
  match vf with
  | None => Some (None, buf, Returned (- EINVAL))
  | Some v =>
      match vf_priv v with
      | None => Some (None, buf, Returned (- EINVAL))
      | Some pb =>
          if negb (pipe_vfile_is vf) then Some (Some pb, buf, Returned (- EINVAL))
          else if count =? 0 then Some (Some pb, buf, Returned 0)
          else
            match wait_data (vf_nonblock v) ws pb with
            | (pb, Some p) => Some (Some pb, buf, p)
            | (pb, None) =>
                let n := if pb_used pb <? count then pb_used pb else count in
                buf ← copy_out pb buf n;
                Some (Some pb, buf, Returned (s32 n))
            end
      end
  end.

Definition pipe_poll_events (vf : option vfile) (events : Z) : Z :=
  match vf with
  | None => POLLNVAL
  | Some v =>
      if negb (pipe_vfile_is vf) then POLLNVAL else
      match vf_priv v with
      | None => POLLNVAL
      | Some pb =>
          match vf_ops v with
          | g_pipe_read_ops =>
              let revents := if c_true (Z.land events POLLIN) && (pb_used pb >? 0)
                             then Z.lor 0 POLLIN else 0 in
              if pb_writer_closed pb then Z.lor revents POLLHUP else revents
          | _ =>
              let revents := if c_true (Z.land events POLLOUT)
                                && (pb_used pb <? pb_capacity pb)
                                && negb (pb_reader_closed pb)
                             then Z.lor 0 POLLOUT else 0 in
              if pb_reader_closed pb then Z.lor revents POLLERR else revents
          end
      end
  end.

(** The queue a poller of the file sleeps on; [max] entries fit in the
    caller's array, [sources] says whether there is one. *)
Definition pipe_poll_sources (vf : option vfile) (sources : bool) (max : Z)
  : list pipe_queue :=
  match vf ≫= vf_priv, vf with
  | Some _, Some v =>
      if negb sources || (max =? 0) then []
      else [match vf_ops v with g_pipe_read_ops => read_waiters | _ => write_waiters end]
  | _, _ => []
  end.

Definition pipe_get_available (vf : option vfile) : Z :=
  if negb (pipe_vfile_is vf) then - EINVAL else
  match vf ≫= vf_priv with
  | None => - EINVAL
  | Some pb => s32 (pb_used pb)
  end.

Definition pipe_get_size (vf : option vfile) : Z :=
  if negb (pipe_vfile_is vf) then - EINVAL else
  match vf ≫= vf_priv with
  | None => - EINVAL
  | Some pb => if c_true (pb_logical_size pb) then s32 (pb_logical_size pb) else PIPE_BUF_SIZE
  end.

Definition pipe_set_size (vf : option vfile) (size : Z) (kmalloc : Z -> option (list Z))
    (gap : pipe_buf_t -> pipe_buf_t) : option (option pipe_buf_t * Z) :=
  if negb (pipe_vfile_is vf) then Some (vf ≫= vf_priv, - EINVAL) else
  match vf ≫= vf_priv with
  | None => Some (None, - EINVAL)
  | Some pb => pipe_resize (Some pb) size kmalloc gap
  end.

(** ** Creation *)

(** What a creation leaves behind: the return value, the pipe if it is still
    allocated, how often the pipe was freed (the structure and its data
    together), and the two descriptors stored for the caller. *)
Record created := {
  cr_ret : Z; cr_pipe : option pipe_buf_t; cr_freed : Z; cr_fds : option (Z * Z);
}.

(** [pb_ok], [rd_ok] and [wr_ok] say whether the allocations of the structure
    and of the two files succeed, [kmalloc] allocates the data, [fdrd] and
    [fdwr] are the answers of [fdtable_install_current_vfile].  Closing a
    descriptor that was just installed closes its end with no file reference
    left. *)
Definition pipe_create (pb_ok : bool) (kmalloc : Z -> option (list Z))
    (rd_ok wr_ok : bool) (fdrd fdwr : Z) : option created :=
  if negb pb_ok then
    Some {| cr_ret := - ENOMEM; cr_pipe := None; cr_freed := 0; cr_fds := None |}
  else
    match kmalloc PIPE_DEFAULT_SIZE with
    | None => Some {| cr_ret := - ENOMEM; cr_pipe := None; cr_freed := 1; cr_fds := None |}
    | Some data =>
        let pb := mk_pipe data PIPE_DEFAULT_SIZE 0 0 0 PIPE_DEFAULT_SIZE false false 2 0 0 [] in
        if negb rd_ok || negb wr_ok then
          Some {| cr_ret := - ENOMEM; cr_pipe := None; cr_freed := 1; cr_fds := None |}
        else if (fdrd <? 0) || (fdwr <? 0) then
          let p := if fdrd >=? 0 then pipe_read_close true (Some pb) else Some pb in
          let p := if fdwr >=? 0 then pipe_write_close true p else p in
          (* [pb->ref] is read: a fault if the closes freed the pipe *)
          pb ← p;
          Some (if pb_ref pb >? 0
                then {| cr_ret := - EMFILE; cr_pipe := None; cr_freed := 1; cr_fds := None |}
                else {| cr_ret := - EMFILE; cr_pipe := Some pb; cr_freed := 0; cr_fds := None |})
        else
          Some {| cr_ret := 0;
                  cr_pipe := Some (pb {{ pb_read_fd := fdrd; pb_write_fd := fdwr }});
                  cr_freed := 0; cr_fds := Some (fdrd, fdwr) |}
    end.
