(* ===== verification/PipeTheory.v ===== *)
(** * The pipe's ring buffer is a byte queue

    The invariant [pwf] of the ring, the queue of bytes [contents] it stands
    for, and what each locked stretch of kernel/fs/pipe.c does to the queue:
    a read takes its oldest bytes, a write appends, a resize keeps it. *)

From S2P Require Import Prelude Pipe.

(** ** Copies *)

(** A copied block reads as its source inside and as before outside. *)
Lemma memcpy_ok dst doff src soff n :
  0 <= doff -> 0 <= soff -> 0 <= n ->
  doff + n <= Z.of_nat (length dst) -> soff + n <= Z.of_nat (length src) ->
  exists d, memcpy dst doff src soff n = Some d /\ length d = length dst /\
    forall i, 0 <= i ->
      rd d i = if (doff <=? i) && (i <? doff + n) then rd src (soff + (i - doff)) else rd dst i.
Proof.
  intros. unfold memcpy. repeat rewrite (proj2 (Z.leb_le _ _)) by lia. cbn [andb].
  eexists. split; [reflexivity|]. split.
  - rewrite !length_app, !length_take, !length_drop. lia.
  - intros i Hi. rewrite !rd_app, !rd_take, !length_take, !length_drop.
    destruct (Z.leb_spec doff i), (Z.ltb_spec i (doff + n)); cbn [andb];
      repeat (match goal with |- context [if ?a <? ?b then _ else _] =>
                destruct (Z.ltb_spec a b) end; try lia); try done.
    + rewrite rd_drop by lia. f_equal. lia.
    + rewrite rd_drop by lia. f_equal. lia.
Qed.

Lemma mod_wrap x c : 0 <= x < 2 * c -> x mod c = if x <? c then x else x - c.
Proof.
  intros. destruct (Z.ltb_spec x c); [apply Z.mod_small; lia|].
  symmetry. apply (Z.mod_unique_pos _ _ 1); lia.
Qed.

(** ** The invariant and the queue *)

Record pwf (pb : pipe_buf_t) : Prop := {
  wf_cap : PIPE_BUF_SIZE <= pb_capacity pb < 9223372036854775808;
  wf_data : Z.of_nat (length (pb_data pb)) = pb_capacity pb;
  wf_tail : 0 <= pb_tail pb < pb_capacity pb;
  wf_used : 0 <= pb_used pb <= pb_capacity pb;
  wf_head : pb_head pb = (pb_tail pb + pb_used pb) mod pb_capacity pb;
  wf_logical : pb_logical_size pb = pb_capacity pb;
}.

(** The bytes in the pipe, oldest first. *)
Definition contents (pb : pipe_buf_t) : list Z :=
  (fun i => default 0 (rd (pb_data pb) ((pb_tail pb + Z.of_nat i) mod pb_capacity pb)))
    <$> seq 0 (Z.to_nat (pb_used pb)).

Lemma contents_length pb : length (contents pb) = Z.to_nat (pb_used pb).
Proof. unfold contents. rewrite length_fmap, length_seq. done. Qed.

Lemma contents_rd pb i : pwf pb -> 0 <= i ->
  rd (contents pb) i =
  if i <? pb_used pb then rd (pb_data pb) ((pb_tail pb + i) mod pb_capacity pb) else None.
Proof.
  intros W Hi. pose proof (wf_cap _ W). pose proof (wf_data _ W). unfold PIPE_BUF_SIZE in *.
  destruct (Z.ltb_spec i (pb_used pb)).
  - unfold rd at 1. rewrite (proj2 (Z.leb_le 0 i)) by lia. unfold contents.
    rewrite list_lookup_fmap, lookup_seq_lt by lia. cbn [fmap option_fmap option_map Nat.add].
    rewrite Z2Nat.id by lia.
    destruct (rd_is_Some (pb_data pb) ((pb_tail pb + i) mod pb_capacity pb)) as [x Hx].
    { pose proof (Z.mod_pos_bound (pb_tail pb + i) (pb_capacity pb)). lia. }
    rewrite Hx. done.
  - apply rd_out. rewrite contents_length. lia.
Qed.

(** ** The locked stretches *)

Ltac pipe_wf W :=
  pose proof (wf_cap _ W); pose proof (wf_data _ W); pose proof (wf_tail _ W);
  pose proof (wf_used _ W); pose proof (wf_head _ W); unfold PIPE_BUF_SIZE in *.

(** Case analysis on the comparisons in a goal about cells. *)
Ltac cells :=
  repeat (match goal with
          | |- context [if (?a <=? ?b) && (?c <? ?d) then _ else _] =>
              destruct (Z.leb_spec a b), (Z.ltb_spec c d); cbn [andb]
          | |- context [if ?a <? ?b then _ else _] => destruct (Z.ltb_spec a b)
          end; try lia); try done; try (f_equal; lia).

Lemma copy_out_spec pb buf n :
  pwf pb -> 0 <= n <= pb_used pb -> n <= Z.of_nat (length buf) ->
  copy_out pb buf n = Some (take (Z.to_nat n) (contents pb) ++ drop (Z.to_nat n) buf).
Proof.
  intros W Hn Hb. pipe_wf W. unfold copy_out.
  rewrite (u64_small (pb_capacity pb - pb_tail pb)) by (unfold in_u64; lia). cbv zeta.
  set (first := if pb_capacity pb - pb_tail pb >? n then n else pb_capacity pb - pb_tail pb).
  assert (Hf : 0 <= first <= n /\ first <= pb_capacity pb - pb_tail pb /\
               (first < n -> first = pb_capacity pb - pb_tail pb)).
  { unfold first. rewrite Z.gtb_ltb. destruct (Z.ltb_spec n (pb_capacity pb - pb_tail pb)); lia. }
  destruct Hf as (Hf1 & Hf2 & Hf3). clearbody first.
  destruct (memcpy_ok buf 0 (pb_data pb) (pb_tail pb) first) as (d & -> & Ld & Hd); try lia.
  cbn [mbind option_bind]. rewrite u64_small by (unfold in_u64; lia).
  assert (Hin : forall i, 0 <= i -> i < n -> rd (contents pb) i =
            rd (pb_data pb) (if i <? first then pb_tail pb + i else i - first)).
  { intros i Hi Hin. rewrite contents_rd, mod_wrap by (done || lia). cells. }
  assert (Hout : forall e, length e = length buf ->
            (forall i, 0 <= i -> rd e i = if i <? n then rd (contents pb) i else rd buf i) ->
            Some e = Some (take (Z.to_nat n) (contents pb) ++ drop (Z.to_nat n) buf)).
  { intros e Le He. f_equal. apply rd_ext. intros i Hi.
    rewrite He, rd_app, rd_take, length_take, contents_length by lia.
    cells. rewrite rd_drop by lia. f_equal. lia. }
  unfold c_true. destruct (Z.eqb_spec (n - first) 0); cbn [negb].
  - apply Hout; [lia|]. intros i Hi. rewrite Hd by lia.
    destruct (Z.ltb_spec i n); [rewrite Hin by lia|]; cells.
  - destruct (memcpy_ok d first (pb_data pb) 0 (n - first)) as (e & -> & Le & He); try lia.
    apply Hout; [lia|]. intros i Hi. rewrite He, Hd by lia.
    destruct (Z.ltb_spec i n); [rewrite Hin by lia|]; cells.
Qed.

(** Two rings over the same data with the same end, the second shorter by
    [n]: the queue without its [n] oldest bytes. *)
Lemma read_section_spec pb buf count :
  pwf pb -> 0 <= count <= Z.of_nat (length buf) ->
  exists pb' n, n = Z.min (pb_used pb) count /\
    read_section pb buf count =
      Some (pb', take (Z.to_nat n) (contents pb) ++ drop (Z.to_nat n) buf, n) /\
    pb' = pb {{ pb_tail := (pb_tail pb + n) mod pb_capacity pb; pb_used := pb_used pb - n }} /\
    pwf pb' /\ contents pb' = drop (Z.to_nat n) (contents pb).
Proof.
  intros W Hc. pipe_wf W. unfold read_section.
  replace (if pb_used pb <? count then pb_used pb else count)
    with (Z.min (pb_used pb) count) by (destruct (Z.ltb_spec (pb_used pb) count); lia).
  set (n := Z.min (pb_used pb) count).
  assert (Hn : 0 <= n <= pb_used pb /\ n <= Z.of_nat (length buf)) by lia. clearbody n.
  rewrite copy_out_spec by (done || lia). cbn [mbind option_bind].
  rewrite (proj2 (Z.eqb_neq (pb_capacity pb) 0)), !u64_small by (unfold in_u64; lia).
  eexists _, n. split; [done|]. split; [reflexivity|]. split; [done|].
  destruct pb as [d cap hd tl us lg wc rc rf rfd wfd ev]; cbn in *.
  assert (W' : pwf (mk_pipe d cap hd ((tl + n) mod cap) (us - n) lg wc rc rf rfd wfd ev)).
  { split; cbn; try apply W; try lia.
    - apply Z.mod_pos_bound. lia.
    - rewrite Z.add_mod_idemp_l by lia. subst hd. f_equal. lia. }
  split; [exact W'|]. apply rd_ext. intros i Hi.
  rewrite rd_drop, !contents_rd by (done || lia). cbn [pb_used pb_tail pb_capacity pb_data].
  cells. rewrite Z.add_mod_idemp_l by lia. do 2 f_equal. lia.
Qed.

(** The two copies of a write leave the chunk behind the head, wrapped
    around, and every other cell as it was. *)
Lemma ring_cells pb buf n chunk :
  pwf pb -> 0 <= n -> 0 <= chunk <= pb_capacity pb - pb_used pb ->
  n + chunk <= Z.of_nat (length buf) ->
  exists d, ring_write pb buf n chunk =
      Some (pb {{ pb_data := d; pb_head := (pb_head pb + chunk) mod pb_capacity pb;
                  pb_used := pb_used pb + chunk }}) /\
    length d = length (pb_data pb) /\
    forall i, 0 <= i < pb_capacity pb ->
      rd d i = if (pb_head pb <=? i) && (i <? pb_head pb + chunk) then rd buf (n + (i - pb_head pb))
               else if i <? pb_head pb + chunk - pb_capacity pb
                    then rd buf (n + (i + pb_capacity pb - pb_head pb))
               else rd (pb_data pb) i.
Proof.
  intros W Hn Hc Hb. pipe_wf W. unfold ring_write.
  assert (Hh : 0 <= pb_head pb < pb_capacity pb).
  { rewrite (wf_head _ W). apply Z.mod_pos_bound. lia. }
  rewrite (u64_small (pb_capacity pb - pb_head pb)) by (unfold in_u64; lia). cbv zeta.
  set (first := if pb_capacity pb - pb_head pb >? chunk then chunk else pb_capacity pb - pb_head pb).
  assert (Hf : 0 <= first <= chunk /\ first <= pb_capacity pb - pb_head pb /\
               (first < chunk -> first = pb_capacity pb - pb_head pb)).
  { unfold first. rewrite Z.gtb_ltb. destruct (Z.ltb_spec chunk (pb_capacity pb - pb_head pb)); lia. }
  destruct Hf as (Hf1 & Hf2 & Hf3). clearbody first.
  destruct (memcpy_ok (pb_data pb) (pb_head pb) buf n first) as (d & -> & Ld & Hd); try lia.
  cbn [mbind option_bind]. rewrite (u64_small (chunk - first)) by (unfold in_u64; lia).
  unfold c_true. destruct (Z.eqb_spec (chunk - first) 0); cbn [negb].
  - exists d. cbn [mbind option_bind].
    rewrite (proj2 (Z.eqb_neq (pb_capacity pb) 0)), !u64_small by (unfold in_u64; lia).
    split; [done|]. split; [lia|]. intros i Hi. rewrite Hd by lia. cells.
  - destruct (memcpy_ok d 0 buf (n + first) (chunk - first)) as (e & -> & Le & He); try lia.
    exists e. cbn [mbind option_bind].
    rewrite (proj2 (Z.eqb_neq (pb_capacity pb) 0)), !u64_small by (unfold in_u64; lia).
    split; [done|]. split; [lia|]. intros i Hi. rewrite He, Hd by lia. cells.
Qed.

Lemma ring_write_spec pb buf n chunk :
  pwf pb -> 0 <= n -> 0 <= chunk <= pb_capacity pb - pb_used pb ->
  n + chunk <= Z.of_nat (length buf) ->
  exists d, let pb' := pb {{ pb_data := d;
                             pb_head := (pb_head pb + chunk) mod pb_capacity pb;
                             pb_used := pb_used pb + chunk }} in
    ring_write pb buf n chunk = Some pb' /\ pwf pb' /\
    contents pb' = contents pb ++ take (Z.to_nat chunk) (drop (Z.to_nat n) buf).
Proof.
  intros W Hn Hc Hb. pipe_wf W.
  destruct (ring_cells pb buf n chunk W Hn Hc Hb) as (e & He & Le & Hd).
  exists e. split; [exact He|]. clear He.
  destruct pb as [d cap hd tl us lg wc rc rf rfd wfd ev]; cbn in *.
  assert (W' : pwf (mk_pipe e cap ((hd + chunk) mod cap) tl (us + chunk) lg wc rc rf rfd wfd ev)).
  { split; cbn; try apply W; try lia.
    subst hd. rewrite Z.add_mod_idemp_l by lia. f_equal. lia. }
  split; [exact W'|]. apply rd_ext. intros i Hi.
  rewrite rd_app, contents_length, !contents_rd by (done || lia).
  cbn [pb_used pb_tail pb_capacity pb_data]. rewrite Z2Nat.id, rd_take by lia.
  destruct (Z.ltb_spec i (us + chunk)); [|cells].
  assert (Hhd : hd = if tl + us <? cap then tl + us else tl + us - cap)
    by (rewrite <- mod_wrap by lia; done).
  rewrite Hd by (apply Z.mod_pos_bound; lia). rewrite mod_wrap by lia.
  destruct (Z.ltb_spec (tl + us) cap), (Z.ltb_spec i us), (Z.ltb_spec (i - us) chunk); try lia;
    try rewrite rd_drop by lia; cells.
Qed.

Lemma resize_swap_spec pb new_capacity new_data :
  pwf pb -> PIPE_BUF_SIZE <= new_capacity < 9223372036854775808 ->
  pb_used pb <= new_capacity -> Z.of_nat (length new_data) = new_capacity ->
  exists d, let pb' := pb {{ pb_data := d; pb_capacity := new_capacity;
                             pb_logical_size := new_capacity; pb_tail := 0;
                             pb_head := pb_used pb mod new_capacity }} in
    resize_swap new_capacity new_data pb = Some pb' /\ pwf pb' /\ contents pb' = contents pb.
Proof.
  intros W Hc Hu Hl. pipe_wf W. unfold resize_swap.
  set (P k d := length d = length new_data /\
                forall i, 0 <= i < k -> rd d i = rd (contents pb) i).
  match goal with |- context [for_ 0 _ ?body _] =>
    destruct (for_inv P body 0 (pb_used pb) new_data) as (d & E & Ld & Hd) end.
  - lia.
  - split; [done|]. lia.
  - intros j e Hj [Le He]. rewrite (proj2 (Z.eqb_neq (pb_capacity pb) 0)), u64_small by
      (unfold in_u64; lia).
    destruct (rd_is_Some (contents pb) j) as [b Hb]; [rewrite contents_length; lia|].
    pose proof Hb as Hb'. rewrite contents_rd, (proj2 (Z.ltb_lt _ _)) in Hb' by (done || lia).
    rewrite Hb'. cbn [mbind option_bind].
    pose proof (wr_Some e j b ltac:(lia)) as Hf. eexists. split; [exact Hf|].
    split; [rewrite (wr_length _ _ _ _ Hf); done|]. intros i Hi.
    destruct (Z.eq_dec i j) as [->|]; [by rewrite (rd_wr_eq _ _ _ _ Hf)|].
    rewrite (rd_wr_ne e _ j i b ltac:(lia) Hf). apply He. lia.
  - rewrite E. exists d. cbn [mbind option_bind].
    rewrite (proj2 (Z.eqb_neq new_capacity 0)) by lia. split; [reflexivity|].
    clear E P. destruct pb as [e cap hd tl us lg wc rc rf rfd wfd ev]; cbn in *.
    assert (W' : pwf (mk_pipe d new_capacity (us mod new_capacity) 0 us new_capacity
                        wc rc rf rfd wfd ev))
      by (split; cbn; unfold PIPE_BUF_SIZE; (lia || done)).
    split; [exact W'|]. apply rd_ext. intros i Hi. rewrite (contents_rd _ _ W') by done.
    cbn [pb_used pb_tail pb_capacity pb_data].
    destruct (Z.ltb_spec i us).
    + rewrite Z.add_0_l, Z.mod_small by lia. apply Hd. lia.
    + symmetry. apply rd_out. rewrite contents_length. cbn. lia.
Qed.

(** ** Waiting *)

(** What others do to the pipe while the lock is released keeps the invariant. *)
Definition keeps (f : pipe_buf_t -> pipe_buf_t) : Prop := forall pb, pwf pb -> pwf (f pb).

Definition wait_ok (w : wait_in) : Prop :=
  keeps (w_yield w) /\ keeps (w_prepare w) /\ keeps (w_cancel w) /\ keeps (w_park w).

Lemma wait_spec wq needed w pb : wait_ok w -> pwf pb ->
  let '(pb', r) := pipe_wait_interruptible_locked wq needed w pb in
  pwf pb' /\ (r = 0 \/ r = - ERESTARTSYS).
Proof.
  intros (Hy & Hp & Hc & Hk) W. unfold pipe_wait_interruptible_locked.
  repeat case_match; simplify_eq; auto.
Qed.

Lemma wait_data_spec nonblock ws pb : Forall wait_ok ws -> pwf pb ->
  let '(pb', o) := wait_data nonblock ws pb in
  pwf pb' /\
  match o with
  | None => 0 < pb_used pb'
  | Some (Returned r) =>
      r = 0 /\ pb_used pb' = 0 /\ pb_writer_closed pb' = true \/
      r = - EAGAIN /\ pb_used pb' = 0 /\ pb_writer_closed pb' = false /\ nonblock = true \/
      r = - ERESTARTSYS /\ nonblock = false
  | Some Blocked => should_wait read_waiters 1 pb' = true /\ nonblock = false
  end.
Proof.
  intros Hws. revert pb.
  induction Hws as [|w ws Hw _ IH]; intros pb W; pose proof (wf_used _ W); cbn [wait_data];
    (destruct (Z.eqb_spec (pb_used pb) 0) as [Hu|]; [|split; [done|lia]]);
    (destruct (pb_writer_closed pb) eqn:Hc; [split; [done|]; by left|]);
    (destruct nonblock; [split; [done|]; by right; left|]).
  - split; [done|]. cbn [should_wait]. by rewrite Hu, Hc.
  - pose proof (wait_spec read_waiters 1 w pb Hw W) as S.
    destruct (pipe_wait_interruptible_locked _ _ _ _) as [pb1 r].
    destruct S as [W1 [->| ->]]; [by apply IH|]. split; [done|]. by right; right.
Qed.

(** ** A turn of the writing loop *)

Lemma pwf_events pb ev : pwf pb -> pwf (pb {{ pb_events := ev }}).
Proof. intros [? ? ? ? ? ?]. by split. Qed.

Lemma wake_readers_wf pb : pwf pb -> pwf (pipe_wake_readers pb).
Proof. apply pwf_events. Qed.

Lemma wake_writers_wf pb : pwf pb -> pwf (pipe_wake_writers pb).
Proof. apply pwf_events. Qed.

Lemma contents_events pb ev : contents (pb {{ pb_events := ev }}) = contents pb.
Proof. done. Qed.

(** The event log grew by [new]. *)
Definition logged (pb pb' : pipe_buf_t) (new : list pipe_event) : Prop :=
  pb_events pb' = new ++ pb_events pb.

(** The fields no transfer of bytes touches. *)
Definition same_ends (pb pb' : pipe_buf_t) : Prop :=
  pb_writer_closed pb' = pb_writer_closed pb /\ pb_reader_closed pb' = pb_reader_closed pb /\
  pb_ref pb' = pb_ref pb /\ pb_read_fd pb' = pb_read_fd pb /\ pb_write_fd pb' = pb_write_fd pb /\
  pb_capacity pb' = pb_capacity pb.

Lemma wake_readers_logs pb : exists new, logged pb (pipe_wake_readers pb) new /\ WakeReaders ∈ new.
Proof.
  unfold logged, pipe_wake_readers. cbn. split_if.
  - exists [NotifyReadable (pb_read_fd pb); WakeReaders]. split; [done|auto using list_elem_of_here, list_elem_of_further].
  - exists [WakeReaders]. split; [done|auto using list_elem_of_here, list_elem_of_further].
Qed.

Lemma wake_writers_logs pb : exists new, logged pb (pipe_wake_writers pb) new /\ WakeWriters ∈ new.
Proof.
  unfold logged, pipe_wake_writers. cbn. split_if.
  - exists [NotifyWritable (pb_write_fd pb); WakeWriters]. split; [done|auto using list_elem_of_here, list_elem_of_further].
  - exists [WakeWriters]. split; [done|auto using list_elem_of_here, list_elem_of_further].
Qed.

(** What a write of [buf] that has written [n] bytes may return when it gives
    up: the number of bytes written, or an error when there are none. *)
Definition short_return (n r : Z) : Prop :=
  if n =? 0 then r = - EPIPE \/ r = - EAGAIN \/ r = - ERESTARTSYS else r = s32 n.

(** How a turn ends, in terms of the queue. *)
Definition turn_result (nonblock : bool) (buf : list Z) (count n : Z)
    (pb pb' : pipe_buf_t) (e : write_end) : Prop :=
  match e with
  | WReturn r =>
      contents pb' = contents pb /\ pb_used pb' = pb_used pb /\
      (n = count /\ r = s32 n \/ n < count /\ short_return n r)
  | WWait needed =>
      pb' = pb /\ n < count /\ nonblock = false /\
      should_wait write_waiters needed pb = true /\ 1 <= needed <= PIPE_BUF_SIZE
  | WPushed n' =>
      n < n' <= count /\ (count - n <= PIPE_BUF_SIZE -> n' = count) /\
      contents pb' = contents pb ++ take (Z.to_nat (n' - n)) (drop (Z.to_nat n) buf) /\
      pb_used pb' = pb_used pb + (n' - n) /\
      exists new, logged pb pb' new /\ WakeReaders ∈ new
  end.

Lemma write_full_spec current nonblock buf count n needed pb :
  pwf pb -> 0 <= n < count -> 1 <= needed <= PIPE_BUF_SIZE ->
  pb_capacity pb - pb_used pb < needed ->
  let '(pb', e) := write_full current nonblock n needed pb in
  pwf pb' /\ same_ends pb pb' /\ turn_result nonblock buf count n pb pb' e.
Proof.
  intros W Hn Hk Hs. pipe_wf W. unfold write_full, broken_pipe, short_return.
  destruct (pb_reader_closed pb) eqn:Hc; [|destruct nonblock].
  - rewrite Z.gtb_ltb. destruct (Z.ltb_spec 0 n).
    + split; [done|]. split; [done|]. split; [done|]. split; [done|]. right.
      split; [lia|]. unfold short_return. rewrite (proj2 (Z.eqb_neq n 0)) by lia. done.
    + replace n with 0 in * by lia.
      destruct current; (split; [by try apply pwf_events|]); repeat (split; [done|]); right;
        (split; [lia|]); by left.
  - repeat (split; [done|]). right. split; [lia|]. unfold short_return, c_true.
    destruct (Z.eqb_spec n 0); cbn [negb]; auto.
  - split; [done|]. split; [done|]. cbn [turn_result should_wait]. unfold PIPE_BUF_SIZE.
    rewrite u64_small by (unfold in_u64; lia). rewrite (proj2 (Z.ltb_lt _ _)) by lia.
    rewrite Hc. repeat split; lia || done.
Qed.

Lemma pipe_push_spec nonblock buf count n chunk pb :
  pwf pb -> 0 <= n -> 1 <= chunk <= pb_capacity pb - pb_used pb ->
  n + chunk <= count <= Z.of_nat (length buf) ->
  (count - n <= PIPE_BUF_SIZE -> n + chunk = count) ->
  exists pb', (pb ← ring_write pb buf n chunk; Some (pipe_wake_readers pb, WPushed (n + chunk)))
              = Some (pb', WPushed (n + chunk)) /\
    pwf pb' /\ same_ends pb pb' /\ turn_result nonblock buf count n pb pb' (WPushed (n + chunk)).
Proof.
  intros W Hn Hc Hb Ha. 
  destruct (ring_write_spec pb buf n chunk) as (d & E & W' & C); [done|lia..|].
  rewrite E. cbn [mbind option_bind]. eexists. split; [reflexivity|].
  split; [by apply wake_readers_wf|]. split; [done|]. cbn [turn_result].
  split; [lia|]. split; [done|]. split.
  - replace (n + chunk - n) with chunk by lia. exact C.
  - split; [cbn; lia|].
    match goal with |- context [pipe_wake_readers ?q] =>
      destruct (wake_readers_logs q) as (new & Hl & Hi) end.
    exists new. split; [exact Hl|exact Hi].
Qed.

Lemma write_turn_spec current nonblock buf count n pb :
  pwf pb -> 0 <= n <= count -> count <= Z.of_nat (length buf) -> in_u64 count ->
  exists pb' e, write_turn current nonblock buf count n pb = Some (pb', e) /\
    pwf pb' /\ same_ends pb pb' /\ turn_result nonblock buf count n pb pb' e.
Proof.
  intros W Hn Hb Hu. pipe_wf W. unfold write_turn, in_u64 in *.
  destruct (Z.ltb_spec n count).
  2:{ eexists _, _. split; [done|]. repeat (split; [done|]). left. split; [lia|done]. }
  rewrite !u64_small by (unfold in_u64; lia). unfold PIPE_BUF_SIZE.
  destruct (Z.leb_spec (count - n) 4096).
  - destruct (Z.ltb_spec (pb_capacity pb - pb_used pb) (count - n)).
    + pose proof (write_full_spec current nonblock buf count n (count - n) pb W) as S.
      destruct (write_full _ _ _ _ _) as [pb' en]. exists pb', en. split; [done|].
      apply S; unfold PIPE_BUF_SIZE; lia.
    + destruct (pipe_push_spec nonblock buf count n (count - n) pb) as (pb' & ? & ?); [done|lia..|]. eauto.
  - destruct (Z.eqb_spec (pb_capacity pb - pb_used pb) 0).
    + pose proof (write_full_spec current nonblock buf count n 1 pb W) as S.
      destruct (write_full _ _ _ _ _) as [pb' en]. exists pb', en. split; [done|].
      apply S; unfold PIPE_BUF_SIZE; lia.
    + destruct (Z.ltb_spec (count - n) (pb_capacity pb - pb_used pb)).
      * destruct (pipe_push_spec nonblock buf count n (count - n) pb) as (pb' & ? & ?); [done|lia..|]. eauto.
      * destruct (pipe_push_spec nonblock buf count n (pb_capacity pb - pb_used pb) pb)
          as (pb' & ? & ?); [done|unfold PIPE_BUF_SIZE; lia..|]. eauto.
Qed.

(** ** The writing loop *)

Definition turn_ok (t : turn_in) : Prop := wait_ok (t_wait t) /\ keeps (t_gap t).

(** Each of the pushes [ps] appends to the queue the bytes of [buf] that follow
    those of the push before it: together those from [n] to [m]. *)
Fixpoint appends (buf : list Z) (n : Z) (ps : list (pipe_buf_t * pipe_buf_t)) (m : Z) : Prop :=
  match ps with
  | [] => m = n
  | (p, q) :: ps' => exists k, n < k <= m /\ pwf p /\ pwf q /\
      contents q = contents p ++ take (Z.to_nat (k - n)) (drop (Z.to_nat n) buf) /\
      appends buf k ps' m
  end.

(** How a write that had [n] bytes written before [turns] turns ends, with [m]
    bytes written in the pushes [ps]. *)
Definition loop_result (nonblock : bool) (buf : list Z) (count n : Z) (turns : nat)
    (p : progress) (ps : list (pipe_buf_t * pipe_buf_t)) (m : Z) : Prop :=
  n <= m <= count /\ appends buf n ps m /\
  (count - n <= PIPE_BUF_SIZE -> ps = [] \/ length ps = 1%nat /\ m = count) /\
  match p with
  | Returned r => m = count /\ r = s32 m \/ m < count /\ short_return m r
  | Blocked => nonblock = true -> Z.of_nat turns < count - n
  end.

Lemma loop_stop nonblock buf count n turns p : n <= count ->
  match p with
  | Returned r => n = count /\ r = s32 n \/ n < count /\ short_return n r
  | Blocked => nonblock = true -> Z.of_nat turns < count - n
  end -> loop_result nonblock buf count n turns p [] n.
Proof. intros. split; [lia|]. split; [done|]. split; [by left|done]. Qed.

(** A push followed by the rest of the loop. *)
Lemma loop_push nonblock buf count n n1 turns p ps m pb pb1 : pwf pb -> pwf pb1 ->
  turn_result nonblock buf count n pb pb1 (WPushed n1) ->
  loop_result nonblock buf count n1 turns p ps m ->
  loop_result nonblock buf count n (S turns) p ((pb, pb1) :: ps) m.
Proof.
  intros W W1 (Hn1 & Ha & Hc & _) (Hm & HA & _ & HC).
  split; [lia|]. split; [exists n1; repeat split; (done || lia || apply W || apply W1)|]. split.
  - intros Hs. specialize (Ha Hs). subst n1. right. split; [|lia].
    destruct ps as [|[q q'] ps]; [done|]. destruct HA as (k & ? & _). lia.
  - destruct p; [done|]. intros Hb. specialize (HC Hb). lia.
Qed.

Lemma write_loop_spec current nonblock buf count ts : Forall turn_ok ts ->
  count <= Z.of_nat (length buf) -> in_u64 count ->
  forall n pb, pwf pb -> 0 <= n <= count ->
  exists pb' p ps m, write_loop current nonblock buf count ts n pb = Some (pb', p, ps) /\
    pwf pb' /\ loop_result nonblock buf count n (length ts) p ps m.
Proof.
  intros Hts Hb Hu. induction Hts as [|t ts [Hw Hg] _ IH]; intros n pb W Hn; cbn [write_loop];
    destruct (write_turn_spec current nonblock buf count n pb W Hn Hb Hu)
      as (pb1 & e & -> & W1 & _ & R); cbn [mbind option_bind];
    destruct e as [r|k|n1].
  1,4: exists pb1, (Returned r), [], n; split; [done|]; split; [done|];
       apply loop_stop; [lia|apply R].
  - destruct R as (-> & Hlt & -> & _). exists pb, Blocked, [], n.
    split; [done|]. split; [done|]. by apply loop_stop; [lia|].
  - exists pb1, Blocked, [(pb, pb1)], n1. split; [done|]. split; [done|].
    pose proof R as (Hn1 & Ha & Hc & _). split; [lia|].
    split; [exists n1; cbn; repeat split; (done || lia || apply W || apply W1)|].
    split; [intros; right; auto|]. cbn. lia.
  - destruct R as (-> & Hlt & -> & _).
    pose proof (wait_spec write_waiters k (t_wait t) pb Hw W) as S.
    destruct (pipe_wait_interruptible_locked _ _ _ _) as [pb2 r]. destruct S as [W2 [->| ->]].
    + destruct (IH n pb2 W2 Hn) as (pb3 & p & ps & m & E & W3 & Hm & HA & HB & HC).
      cbn [Z.ltb]. exists pb3, p, ps, m. repeat (split; [done|]). by destruct p.
    + exists pb2, (Returned (if c_true n then s32 n else - ERESTARTSYS)), [], n.
      split; [done|]. split; [done|]. apply loop_stop; [lia|]. right. split; [lia|].
      unfold short_return, c_true. destruct (Z.eqb_spec n 0); cbn [negb]; auto.
  - destruct (IH n1 (t_gap t pb1)) as (pb3 & p & ps & m & E & W3 & HL);
      [by apply Hg|destruct R; lia|].
    rewrite E. cbn [mbind option_bind]. exists pb3, p, ((pb, pb1) :: ps), m.
    split; [done|]. split; [done|]. by apply (loop_push _ _ _ _ n1).
Qed.
