(* ===== verification/PipeClaims.v ===== *)
(** * What pipes promise

    Whole calls of kernel/fs/pipe.c with arbitrary other users in between,
    and histories of a pipe: any interleaving of the locked stretches of its
    readers, writers, resizers and closers. *)

From S2P Require Import Prelude Pipe PipeTheory.

(** ** Steps and histories *)

Inductive plabel := LWrote (l : list Z) | LRead (l : list Z) | LResize | LClose.

(** One locked stretch, with the wake-ups that follow it, by any task. *)
Inductive pstep : pipe_buf_t -> plabel -> pipe_buf_t -> Prop :=
  | step_write current nonblock buf count n pb pb' e :
      0 <= n <= count -> count <= Z.of_nat (length buf) -> in_u64 count ->
      write_turn current nonblock buf count n pb = Some (pb', e) ->
      pstep pb (LWrote match e with
                       | WPushed n' => take (Z.to_nat (n' - n)) (drop (Z.to_nat n) buf)
                       | _ => []
                       end) pb'
  | step_read buf count pb pb' buf' n :
      0 <= count <= Z.of_nat (length buf) -> pb_used pb <> 0 ->
      read_section pb buf count = Some (pb', buf', n) ->
      pstep pb (LRead (take (Z.to_nat n) buf')) (pipe_wake_writers pb')
  | step_resize_guard new_capacity pb pb' r :
      PIPE_BUF_SIZE <= new_capacity < 9223372036854775808 ->
      resize_guard new_capacity pb = (pb', r) -> pstep pb LResize pb'
  | step_resize_swap new_capacity new_data pb pb' :
      PIPE_BUF_SIZE <= new_capacity < 9223372036854775808 ->
      Z.of_nat (length new_data) = new_capacity ->
      resize_guard new_capacity pb = (pb, None) ->
      resize_swap new_capacity new_data pb = Some pb' -> pstep pb LResize pb'
  | step_read_close last pb pb' :
      pipe_read_close last (Some pb) = Some pb' -> pstep pb LClose pb'
  | step_write_close last pb pb' :
      pipe_write_close last (Some pb) = Some pb' -> pstep pb LClose pb'.

Definition bytes_in (l : plabel) : list Z := match l with LWrote b => b | _ => [] end.
Definition bytes_out (l : plabel) : list Z := match l with LRead b => b | _ => [] end.

(** An allocator's blocks have the size asked for, and fit the address space. *)
Definition kmalloc_ok (kmalloc : Z -> option (list Z)) : Prop :=
  forall n d, kmalloc n = Some d -> Z.of_nat (length d) = n /\ n < 9223372036854775808.

(** [phist pb w r]: a pipe created, then used by any tasks, is [pb] after the
    bytes [w] were written to it and the bytes [r] read from it. *)
Inductive phist : pipe_buf_t -> list Z -> list Z -> Prop :=
  | hist_create pb_ok kmalloc rd_ok wr_ok fdrd fdwr c pb :
      kmalloc_ok kmalloc -> pipe_create pb_ok kmalloc rd_ok wr_ok fdrd fdwr = Some c ->
      cr_pipe c = Some pb -> phist pb [] []
  | hist_step pb w r l pb' :
      phist pb w r -> pstep pb l pb' -> phist pb' (w ++ bytes_in l) (r ++ bytes_out l).

Lemma take_all_app {A} (l k : list A) n : n = length l -> take n (l ++ k) = l.
Proof. intros ->. by rewrite take_app_length. Qed.

(** A step keeps the invariant and moves bytes through the queue. *)
Lemma pstep_spec pb l pb' : pwf pb -> pstep pb l pb' ->
  pwf pb' /\ contents pb ++ bytes_in l = bytes_out l ++ contents pb'.
Proof.
  intros W H. destruct H as
    [cur nb buf count n pb pb' e Hn Hb Hu E|buf count pb pb' buf' n Hc Hne E
    |cap pb pb' r Hcap E|cap d pb pb' Hcap Hd G E|last pb pb' E|last pb pb' E]; cbn [bytes_in bytes_out app].
  - destruct (write_turn_spec cur nb buf count n pb W Hn Hb Hu) as (q & e' & E' & W' & _ & R).
    rewrite E in E'. injection E' as <- <-. split; [done|].
    destruct e; cbn [turn_result] in R; rewrite ?app_nil_r.
    + destruct R as [-> _]. done.
    + destruct R as [-> _]. done.
    + destruct R as (_ & _ & -> & _). done.
  - destruct (read_section_spec pb buf count W Hc) as (q & m & Hm & E' & _ & W' & C).
    rewrite E in E'. injection E' as <- -> ->. split; [by apply wake_writers_wf|].
    rewrite app_nil_r. change (contents (pipe_wake_writers pb')) with (contents pb'). rewrite C.
    pose proof (wf_used _ W).
    rewrite take_all_app by (rewrite length_take, contents_length; lia).
    by rewrite take_drop.
  - rewrite app_nil_r. unfold resize_guard in E. destruct W as [W1 W2 W3 W4 W5 W6].
    destruct (Z.ltb_spec cap (pb_used pb)), (Z.eqb_spec cap (pb_capacity pb));
      injection E as <- <-; (split; [by split|done]).
  - rewrite app_nil_r. unfold resize_guard in G.
    destruct (Z.ltb_spec cap (pb_used pb)); [done|].
    destruct (resize_swap_spec pb cap d W Hcap ltac:(lia) Hd) as (e & E' & W' & C).
    rewrite E in E'. injection E' as ->. split; [exact W'|symmetry; exact C].
  - rewrite app_nil_r. unfold pipe_read_close in E. destruct W as [W1 W2 W3 W4 W5 W6].
    destruct last; case_match; simplify_eq; (split; [by split|done]).
  - rewrite app_nil_r. unfold pipe_write_close in E. destruct W as [W1 W2 W3 W4 W5 W6].
    destruct last; case_match; simplify_eq; (split; [by split|done]).
Qed.

(** ** Creation *)

Lemma create_spec pb_ok kmalloc rd_ok wr_ok fdrd fdwr : kmalloc_ok kmalloc ->
  exists c, pipe_create pb_ok kmalloc rd_ok wr_ok fdrd fdwr = Some c /\
    (cr_ret c = 0 /\ cr_freed c = 0 /\ cr_fds c = Some (fdrd, fdwr) /\
       0 <= fdrd /\ 0 <= fdwr /\
       (exists pb, cr_pipe c = Some pb /\ pwf pb /\ contents pb = [] /\ pb_ref pb = 2 /\
          pb_reader_closed pb = false /\ pb_writer_closed pb = false /\
          pb_capacity pb = PIPE_DEFAULT_SIZE /\ pb_read_fd pb = fdrd /\ pb_write_fd pb = fdwr) \/
     (cr_ret c = - ENOMEM \/ cr_ret c = - EMFILE) /\ cr_pipe c = None /\ cr_fds c = None /\
       cr_freed c = c_bool pb_ok).
Proof.
  intros Hk. unfold pipe_create. destruct pb_ok; cbn [negb].
  2:{ eexists. split; [done|]. right. auto. }
  destruct (kmalloc PIPE_DEFAULT_SIZE) as [d|] eqn:E.
  2:{ eexists. split; [done|]. right. auto. }
  destruct (Hk _ _ E) as [Hl _].
  destruct rd_ok, wr_ok; cbn [negb orb]; try (eexists; split; [done|]; right; by auto).
  rewrite !Z.geb_leb. destruct (Z.ltb_spec fdrd 0), (Z.ltb_spec fdwr 0); cbn [orb];
    rewrite ?(proj2 (Z.leb_le 0 fdrd)), ?(proj2 (Z.leb_gt 0 fdrd)),
            ?(proj2 (Z.leb_le 0 fdwr)), ?(proj2 (Z.leb_gt 0 fdwr)) by lia;
    eexists; (split; [reflexivity|]); [right; by auto..|].
  left. cbn. repeat (split; [done||lia|]). eexists. split; [reflexivity|].
  split; [|by auto 10].
  split; cbn; unfold PIPE_DEFAULT_SIZE, PIPE_BUF_SIZE in *; try done; lia.
Qed.

Lemma phist_inv pb w r : phist pb w r -> pwf pb /\ w = r ++ contents pb.
Proof.
  induction 1 as [? ? ? ? ? ? c pb Hk E Hp|pb w r l pb' _ [W ->] S].
  - destruct (create_spec pb_ok kmalloc rd_ok wr_ok fdrd fdwr Hk) as (c' & E' & H).
    rewrite E in E'. injection E' as <-.
    destruct H as [(_ & _ & _ & _ & _ & q & Hq & W & C & _)|(_ & Hq & _)]; simplify_eq.
    split; [done|]. by rewrite C.
  - destruct (pstep_spec pb l pb' W S) as [W' C]. split; [done|].
    by rewrite <- !app_assoc, C.
Qed.

(** C29: a pipe is a first-in first-out queue of bytes.  From its creation on,
    under any interleaving of the locked stretches of its readers, writers,
    resizers and closers, the bytes written are the bytes read followed by the
    bytes in the ring: nothing is lost, repeated or reordered, a resize in
    between included.  The ring's invariant holds throughout, the number of
    bytes in it is [used] and never exceeds the capacity, and none of these
    stretches can access memory outside a buffer. *)
Theorem pipe_histories_fifo pb w r : phist pb w r ->
  pwf pb /\ w = r ++ contents pb /\
  Z.of_nat (length w) = Z.of_nat (length r) + pb_used pb /\ pb_used pb <= pb_capacity pb /\
  (forall current nonblock buf count n,
     0 <= n <= count -> count <= Z.of_nat (length buf) -> in_u64 count ->
     is_Some (write_turn current nonblock buf count n pb)) /\
  (forall buf count, 0 <= count <= Z.of_nat (length buf) ->
     is_Some (copy_out pb buf (Z.min (pb_used pb) count)) /\
     is_Some (read_section pb buf count)) /\
  (forall new_capacity new_data, Z.of_nat (length new_data) = new_capacity ->
     PIPE_BUF_SIZE <= new_capacity < 9223372036854775808 -> pb_used pb <= new_capacity ->
     is_Some (resize_swap new_capacity new_data pb)).
Proof.
  intros H. destruct (phist_inv _ _ _ H) as [W ->]. pose proof (wf_used _ W).
  split; [done|]. split; [done|].
  split; [rewrite length_app, contents_length; lia|]. split; [lia|]. repeat split.
  - intros cur nb buf count n Hn Hb Hu.
    destruct (write_turn_spec cur nb buf count n pb W Hn Hb Hu) as (? & ? & -> & _). done.
  - rewrite copy_out_spec by (done || lia). done.
  - destruct (read_section_spec pb buf count W ltac:(lia)) as (? & ? & _ & -> & _). done.
  - intros cap d Hd Hc Hu. destruct (resize_swap_spec pb cap d W Hc Hu Hd) as (? & -> & _). done.
Qed.

(** C30: one call of [pipe_write] on a pipe others use at the same time.  It
    never faults; its pushes append consecutive pieces of the caller's buffer
    to the queue, [m] bytes in all; it returns [m] once it has written any
    bytes, and otherwise EPIPE, EAGAIN or ERESTARTSYS.  A write of at most
    PIPE_BUF bytes is atomic: no push, or one push of all of it.  A
    non-blocking write returns within [count] turns. *)
Theorem pipe_write_correct current nonblock buf count ts pb :
  pwf pb -> Forall turn_ok ts -> 0 < count <= Z.of_nat (length buf) -> count <= 2147483647 ->
  exists pb' p ps m, pipe_write current (Some pb) nonblock buf count ts = Some (Some pb', p, ps) /\
    pwf pb' /\ 0 <= m <= count /\ appends buf 0 ps m /\
    (count <= PIPE_BUF_SIZE -> ps = [] \/ exists q q', ps = [(q, q')] /\
       contents q' = contents q ++ take (Z.to_nat count) buf) /\
    match p with
    | Returned r => 0 < m /\ r = m \/ m = 0 /\ (r = - EPIPE \/ r = - EAGAIN \/ r = - ERESTARTSYS)
    | Blocked => pb_reader_closed pb = false /\ (nonblock = true -> Z.of_nat (length ts) < count)
    end /\
    (pb_reader_closed pb = true -> p = Returned (- EPIPE) /\ ps = [] /\
       (current = true -> pb_events pb' = SigPipe :: pb_events pb)).
Proof.
  intros W Hts Hc Hi. unfold pipe_write. rewrite (proj2 (Z.eqb_neq count 0)) by lia.
  destruct (pb_reader_closed pb) eqn:Hr.
  - unfold broken_pipe. eexists _, _, _, 0. split; [done|].
    split; [destruct current; [by apply pwf_events|done]|].
    split; [lia|]. split; [done|]. split; [by left|]. split; [right; by auto|].
    intros _. split; [done|]. split; [done|]. by intros ->.
  - destruct (write_loop_spec current nonblock buf count ts Hts ltac:(lia)
                ltac:(unfold in_u64; lia) 0 pb W ltac:(lia))
      as (pb' & p & ps & m & -> & W' & Hm & HA & HB & HC).
    exists pb', p, ps, m. cbn [mbind option_bind]. split; [done|]. split; [done|].
    split; [lia|]. split; [done|]. split.
    { intros Hs. destruct HB as [->|[Hl ->]]; [lia|by left|]. right.
      destruct ps as [|[q q'] [|? ?]]; try done. exists q, q'. split; [done|].
      destruct HA as (k & _ & _ & _ & C & ->). by rewrite Z.sub_0_r in C. }
    split; [|done]. destruct p as [r|]; [|split; [done|]; intros Hn; specialize (HC Hn); lia].
    unfold short_return in HC. destruct (Z.eqb_spec m 0), HC as [[? ->]|[? HC]]; try lia.
    + left. rewrite s32_small; lia.
    + left. rewrite HC, s32_small; lia.
Qed.

(** C31: one call of [pipe_read], and of [pipe_peek], on a pipe others use at
    the same time.  After the waits the pipe is [pb1]; if it holds bytes the
    call copies the [n] oldest to the front of the buffer, as many as there
    are and fit, leaves the rest of the buffer alone and returns [n].  The
    read also removes them from the queue and wakes the writers; the peek
    removes nothing.  Otherwise they return 0 at the end of the stream, EAGAIN
    if non-blocking, ERESTARTSYS if interrupted, or are still waiting on an
    empty pipe, with the buffer untouched.  With bytes there from the start
    neither waits. *)
Theorem pipe_read_correct nonblock ops buf count ws pb :
  pwf pb -> Forall wait_ok ws -> 0 < count <= Z.of_nat (length buf) -> count <= 2147483647 ->
  ops <> other_ops ->
  let v := {| vf_ops := ops; vf_nonblock := nonblock; vf_priv := Some pb |} in
  let '(pb1, o) := wait_data nonblock ws pb in
  let n := Z.min (pb_used pb1) count in
  let buf1 := take (Z.to_nat n) (contents pb1) ++ drop (Z.to_nat n) buf in
  pwf pb1 /\ (0 < pb_used pb -> pb1 = pb /\ o = None) /\
  match o with
  | None => 0 < n /\ pipe_peek (Some v) buf count ws = Some (Some pb1, buf1, Returned n) /\
      exists pb2, pipe_read (Some pb) nonblock buf count ws = Some (Some pb2, buf1, Returned n) /\
        pwf pb2 /\ contents pb2 = drop (Z.to_nat n) (contents pb1) /\
        exists new, logged pb1 pb2 new /\ WakeWriters ∈ new
  | Some p =>
      pipe_read (Some pb) nonblock buf count ws = Some (Some pb1, buf, p) /\
      pipe_peek (Some v) buf count ws = Some (Some pb1, buf, p) /\
      (p = Returned 0 /\ contents pb1 = [] /\ pb_writer_closed pb1 = true \/
       p = Returned (- EAGAIN) /\ contents pb1 = [] /\ nonblock = true \/
       p = Returned (- ERESTARTSYS) /\ nonblock = false \/
       p = Blocked /\ contents pb1 = [] /\ nonblock = false)
  end.
Proof.
  intros W Hws Hc Hi Ho. pose proof (wait_data_spec nonblock ws pb Hws W) as S.
  assert (H0 : 0 < pb_used pb -> wait_data nonblock ws pb = (pb, None)).
  { intros Hu. destruct ws; cbn [wait_data]; by rewrite (proj2 (Z.eqb_neq (pb_used pb) 0)) by lia. }
  unfold pipe_read, pipe_peek. cbn [vf_priv vf_nonblock].
  replace (pipe_vfile_is _) with true by (by destruct ops). cbn [negb].
  rewrite (proj2 (Z.eqb_neq count 0)) by lia.
  destruct (wait_data nonblock ws pb) as [pb1 o]. destruct S as [W1 R].
  split; [done|]. split; [intros Hu; specialize (H0 Hu); by simplify_eq|].
  assert (Hnil : pb_used pb1 = 0 -> contents pb1 = []) by (unfold contents; by intros ->).
  destruct o as [p|].
  - split; [done|]. split; [done|]. destruct p as [r|].
    + destruct R as [(-> & ? & ?)|[(-> & ? & _ & ?)|[-> ?]]]; auto 10.
    + destruct R as [Hs ->]. cbn [should_wait] in Hs. apply andb_prop in Hs as [Hs _].
      apply Z.eqb_eq in Hs. auto 10.
  - destruct (read_section_spec pb1 buf count W1 ltac:(lia)) as (q & n & Hn & -> & Eq & Wq & C).
    subst n. split; [lia|]. cbn [mbind option_bind].
    replace (if pb_used pb1 <? count then pb_used pb1 else count)
      with (Z.min (pb_used pb1) count) by (destruct (Z.ltb_spec (pb_used pb1) count); lia).
    rewrite copy_out_spec, s32_small by (done || lia). cbn [mbind option_bind].
    split; [done|]. eexists. split; [reflexivity|]. split; [by apply wake_writers_wf|].
    split; [exact C|]. destruct (wake_writers_logs q) as (new & Hl & Hw). exists new.
    split; [|done]. rewrite Eq in Hl |- *. exact Hl.
Qed.

(** Resizing keeps every byte.  Whatever others do while the lock is
    released for the allocation ([gap]), the call never faults and leaves the
    queue it found, under the first or the second lock.  It returns EBUSY
    when the bytes in the pipe do not fit, ENOMEM when the allocation fails,
    and otherwise the new capacity, at least PIPE_BUF and not less than asked
    for, which [pipe_get_size] then reports. *)
Theorem pipe_resize_correct ops nonblock pb size kmalloc gap :
  pwf pb -> keeps gap -> kmalloc_ok kmalloc -> 0 <= size -> ops <> other_ops ->
  let file q := Some {| vf_ops := ops; vf_nonblock := nonblock; vf_priv := Some q |} in
  let cap := Z.max size PIPE_BUF_SIZE in
  exists pb' r, pipe_set_size (file pb) size kmalloc gap = Some (Some pb', r) /\ pwf pb' /\
    (exists q, (q = pb \/ q = gap pb) /\ contents pb' = contents q /\
       (r = - EBUSY /\ pb' = q /\ cap < pb_used q \/
        r = - ENOMEM /\ pb' = q /\ kmalloc cap = None \/
        r = s32 cap /\ pb_capacity pb' = cap /\ pipe_get_size (file pb') = s32 cap)).
Proof.
  intros W Hg Hk Hs Ho file cap. unfold pipe_set_size.
  assert (Hv : forall q, pipe_vfile_is (file q) = true) by (intros q; by destruct ops).
  assert (Hsz : forall q, pb_logical_size q = cap -> pipe_get_size (file q) = s32 cap).
  { intros q Hq. unfold pipe_get_size. rewrite Hv. cbn [negb file mbind option_bind vf_priv].
    rewrite Hq. unfold c_true. by rewrite (proj2 (Z.eqb_neq cap 0)) by (unfold cap, PIPE_BUF_SIZE; lia). }
  rewrite Hv. cbn [negb file mbind option_bind vf_priv]. unfold pipe_resize.
  replace (if size <? PIPE_BUF_SIZE then PIPE_BUF_SIZE else size) with cap
    by (unfold cap; destruct (Z.ltb_spec size PIPE_BUF_SIZE); lia).
  assert (HG : forall q, pwf q -> forall q' r, resize_guard cap q = (q', Some r) ->
    pwf q' /\ contents q' = contents q /\
    (r = - EBUSY /\ q' = q /\ cap < pb_used q \/
     r = s32 cap /\ pb_capacity q' = cap /\ pipe_get_size (file q') = s32 cap)).
  { intros q [W1 W2 W3 W4 W5 W6] q' r. unfold resize_guard.
    destruct (Z.ltb_spec cap (pb_used q)); [intros [= <- <-]; by split; auto|].
    destruct (Z.eqb_spec cap (pb_capacity q)); [|done]. intros [= <- <-].
    split; [by split|]. split; [done|]. right. split; [done|]. split; [done|]. by apply Hsz. }
  destruct (resize_guard cap pb) as [q [r|]] eqn:E1.
  { destruct (HG _ W _ _ E1) as (Wq & C & R). exists q, r. split; [done|]. split; [done|].
    exists pb. split; [by left|]. split; [done|]. destruct R; auto. }
  assert (q = pb) as -> by (unfold resize_guard in E1; repeat case_match; by simplify_eq).
  destruct (kmalloc cap) as [d|] eqn:Ek.
  2:{ exists (gap pb), (- ENOMEM). split; [done|]. split; [by apply Hg|]. exists (gap pb). auto 10. }
  destruct (resize_guard cap (gap pb)) as [q [r|]] eqn:E2.
  { destruct (HG _ (Hg _ W) _ _ E2) as (Wq & C & R). exists q, r. split; [done|]. split; [done|].
    exists (gap pb). split; [by right|]. split; [done|]. destruct R; auto. }
  assert (q = gap pb /\ pb_used (gap pb) <= cap) as [-> Hu].
  { unfold resize_guard in E2. destruct (Z.ltb_spec cap (pb_used (gap pb))); [done|].
    destruct (cap =? _); simplify_eq; split; [done|lia]. }
  destruct (Hk _ _ Ek) as [Hd Hlt].
  destruct (resize_swap_spec (gap pb) cap d (Hg _ W) ltac:(lia) Hu Hd) as (e & -> & W' & C).
  cbn [mbind option_bind]. eexists _, _. split; [reflexivity|]. split; [exact W'|].
  exists (gap pb). split; [by right|]. split; [exact C|]. right; right. split; [done|].
  split; [done|]. by apply Hsz.
Qed.

(** ** Wake-ups *)

Definition wake_of (q : pipe_queue) : pipe_event :=
  match q with read_waiters => WakeReaders | write_waiters => WakeWriters end.

Definition ops_of (q : pipe_queue) : vfile_ops :=
  match q with read_waiters => g_pipe_read_ops | write_waiters => g_pipe_write_ops end.

Definition poll_bit (q : pipe_queue) : Z :=
  match q with read_waiters => POLLIN | write_waiters => POLLOUT end.

Lemma read_close_eq last pb pb' : pipe_read_close last (Some pb) = Some pb' ->
  pb' = if last then pipe_wake_writers (pb {{ pb_reader_closed := true; pb_ref := pb_ref pb - 1 }})
        else pb {{ pb_ref := pb_ref pb - 1 }}.
Proof.
  destruct pb. unfold pipe_read_close. destruct last; (case_match; [done|]); by intros [= <-].
Qed.

Lemma write_close_eq last pb pb' : pipe_write_close last (Some pb) = Some pb' ->
  pb' = if last then pipe_wake_readers (pb {{ pb_writer_closed := true; pb_ref := pb_ref pb - 1 }})
        else pb {{ pb_ref := pb_ref pb - 1 }}.
Proof.
  destruct pb. unfold pipe_write_close. destruct last; (case_match; [done|]); by intros [= <-].
Qed.

(** Whoever waits on a queue for a condition is woken by the step that makes
    it hold. *)
Lemma step_wakes pb l pb' q needed : pwf pb -> pstep pb l pb' -> l <> LResize ->
  should_wait q needed pb = true -> should_wait q needed pb' = false ->
  exists new, logged pb pb' new /\ wake_of q ∈ new.
Proof.
  intros W H Hl. pipe_wf W. destruct H as
    [cur nb buf count n pb pb' e Hn Hb Hu E|buf count pb pb' buf' n Hc Hne E
    |cap pb pb' r Hcap E|cap d pb pb' Hcap Hd G E|last pb pb' E|last pb pb' E]; try done.
  - destruct (write_turn_spec cur nb buf count n pb W Hn Hb Hu) as (p & e' & E' & W' & S & R).
    rewrite E in E'. injection E' as <- <-. destruct S as (S1 & S2 & _ & _ & _ & S3).
    pose proof (wf_used _ W'). pose proof (wf_cap _ W'). unfold PIPE_BUF_SIZE in *.
    destruct q; cbn [should_wait]; rewrite ?S1, ?S2, ?u64_small by (unfold in_u64; lia).
    + destruct e; cbn [turn_result] in R.
      * destruct R as (_ & -> & _). congruence.
      * destruct R as (-> & _). congruence.
      * intros _ _. destruct R as (_ & _ & _ & _ & R). exact R.
    + assert (pb_used pb <= pb_used pb') by
        (destruct e; cbn [turn_result] in R;
         [destruct R as (_ & -> & _)|destruct R as (-> & _)|destruct R as (? & _ & _ & -> & _)]; lia).
      destruct (pb_reader_closed pb); cbn [negb]; rewrite ?andb_false_r, ?andb_true_r; [done|].
      destruct (Z.ltb_spec (pb_capacity pb - pb_used pb) needed),
        (Z.ltb_spec (pb_capacity pb' - pb_used pb') needed); try done; lia.
  - destruct (read_section_spec pb buf count W Hc) as (p & m & Hm & E' & Ep & W' & C).
    rewrite E in E'. injection E' as <- -> ->.
    destruct q.
    + cbn [should_wait]. destruct (Z.eqb_spec (pb_used pb) 0); [lia|done].
    + intros _ _. destruct (wake_writers_logs pb') as (new & Hlog & Hw). exists new.
      split; [|done]. rewrite Ep in Hlog |- *. exact Hlog.
  - apply read_close_eq in E as ->. destruct last, q;
      try (intros E1 E2; discriminate (eq_trans (eq_sym E1) E2)). intros _ _.
    match goal with |- context [pipe_wake_writers ?p] =>
      destruct (wake_writers_logs p) as (new & L & I) end.
    exists new. split; [exact L|exact I].
  - apply write_close_eq in E as ->. destruct last, q;
      try (intros E1 E2; discriminate (eq_trans (eq_sym E1) E2)). intros _ _.
    match goal with |- context [pipe_wake_readers ?p] =>
      destruct (wake_readers_logs p) as (new & L & I) end.
    exists new. split; [exact L|exact I].
Qed.

(** A poll for an end's direction reports nothing exactly when a caller at
    that end would sleep. *)
Lemma poll_ready q nonblock pb events : pwf pb -> c_true (Z.land events (poll_bit q)) = true ->
  pipe_poll_events
    (Some {| vf_ops := ops_of q; vf_nonblock := nonblock; vf_priv := Some pb |}) events = 0
  <-> should_wait q 1 pb = true.
Proof.
  intros W He. pipe_wf W.
  destruct q; cbn [ops_of poll_bit] in *; unfold pipe_poll_events;
    cbn [pipe_vfile_is vf_ops vf_priv negb should_wait]; rewrite He; cbn [andb].
  - rewrite Z.gtb_ltb. destruct (Z.ltb_spec 0 (pb_used pb)), (Z.eqb_spec (pb_used pb) 0),
      (pb_writer_closed pb); cbn; done || lia.
  - rewrite u64_small by (unfold in_u64; lia).
    destruct (Z.ltb_spec (pb_used pb) (pb_capacity pb)),
      (Z.ltb_spec (pb_capacity pb - pb_used pb) 1), (pb_reader_closed pb); cbn; done || lia.
Qed.

(** C32: no wake-up is missed in reading, writing and closing.  If a task
    sleeps at one end, for bytes or for room, and another task's step makes
    its condition hold, that step wakes the end's queue; and if poll for an
    end's direction had nothing to report and has after the step, the step
    wakes the queue [pipe_poll_sources] names for that end. *)
Theorem pipe_wakes_sleepers pb l pb' q : pwf pb -> pstep pb l pb' -> l <> LResize ->
  (forall needed, should_wait q needed pb = true -> should_wait q needed pb' = false ->
     exists new, logged pb pb' new /\ wake_of q ∈ new) /\
  (forall nonblock events, c_true (Z.land events (poll_bit q)) = true ->
     let file p := Some {| vf_ops := ops_of q; vf_nonblock := nonblock; vf_priv := Some p |} in
     pipe_poll_events (file pb) events = 0 -> pipe_poll_events (file pb') events <> 0 ->
     pipe_poll_sources (file pb) true 1 = [q] /\
     exists new, logged pb pb' new /\ wake_of q ∈ new).
Proof.
  intros W H Hl. split; [intros needed; by apply (step_wakes _ l)|].
  intros nonblock events He file H0 H1. split; [by destruct q|].
  destruct (pstep_spec pb l pb' W H) as [W' _].
  apply (step_wakes _ l pb' q 1); try done.
  - by apply (poll_ready q nonblock pb events).
  - apply not_true_is_false. intros Hs. apply H1. by apply poll_ready.
Qed.

(** The life of a pipe.  [pipe_create] never touches a freed pipe; when
    it fails it returns ENOMEM or EMFILE and has freed the pipe exactly once
    if it had allocated it; when it succeeds the pipe is empty, has two open
    ends and the descriptors it returns.  Closing the two ends, in either
    order, frees the pipe at the second close and not before, and the first
    close tells the other end: a read of the rest is followed by the end of
    the stream, a write gets EPIPE. *)
Theorem pipe_lifecycle pb_ok kmalloc rd_ok wr_ok fdrd fdwr : kmalloc_ok kmalloc ->
  exists c, pipe_create pb_ok kmalloc rd_ok wr_ok fdrd fdwr = Some c /\
    (cr_ret c < 0 -> (cr_ret c = - ENOMEM \/ cr_ret c = - EMFILE) /\
       cr_pipe c = None /\ cr_fds c = None /\ cr_freed c = c_bool pb_ok) /\
    (0 <= cr_ret c -> cr_ret c = 0 /\ cr_freed c = 0 /\ cr_fds c = Some (fdrd, fdwr) /\
       exists pb, cr_pipe c = Some pb /\ pwf pb /\ contents pb = [] /\
         pb_read_fd pb = fdrd /\ pb_write_fd pb = fdwr /\ pb_ref pb = 2) /\
    (forall pb, pwf pb -> pb_ref pb = 2 ->
       (exists p, pipe_read_close true (Some pb) = Some p /\ contents p = contents pb /\
          (forall current nonblock buf count ts, count <> 0 -> exists p',
             pipe_write current (Some p) nonblock buf count ts
             = Some (Some p', Returned (- EPIPE), [])) /\
          pipe_write_close true (Some p) = None) /\
       (exists p, pipe_write_close true (Some pb) = Some p /\ contents p = contents pb /\
          (forall nonblock buf count ws, pb_used p = 0 ->
             pipe_read (Some p) nonblock buf count ws = Some (Some p, buf, Returned 0)) /\
          pipe_read_close true (Some p) = None)).
Proof.
  intros Hk. destruct (create_spec pb_ok kmalloc rd_ok wr_ok fdrd fdwr Hk) as (c & E & H).
  exists c. split; [done|]. split; [|split].
  - destruct H as [(-> & _)|H]; [lia|by intros _].
  - destruct H as [(-> & Hf & Hd & _ & _ & pb & H)|([-> | ->] & _)];
      [|unfold ENOMEM; lia|unfold EMFILE; lia].
    intros _. destruct H as (? & ? & ? & ? & _ & _ & _ & ? & ?). eauto 12.
  - intros pb W Hr. destruct pb as [d cap hd tl us lg wc rc rf rfd wfd ev]; cbn in Hr; subst rf.
    split; eexists; (split; [reflexivity|]); (split; [done|]); (split; [|done]).
    + intros current nonblock buf count ts Hc. unfold pipe_write.
      rewrite (proj2 (Z.eqb_neq count 0)) by done. eexists. reflexivity.
    + intros nonblock buf count ws Hu. cbn in Hu. subst us. unfold pipe_read.
      destruct (count =? 0); [done|]. by destruct ws.
Qed.

(** ** A pipe at work *)

Definition demo_kmalloc (n : Z) : option (list Z) :=
  if (0 <=? n) && (n <=? 65536) then Some (replicate (Z.to_nat n) 0) else None.

(** A ring of 4096 bytes holding [l] from position 4094 on. *)
Definition demo_ring (l : list Z) (reader_closed : bool) : pipe_buf_t :=
  mk_pipe (drop 2 l ++ replicate (4094 - length (drop 2 l)) 0
           ++ take 2 l ++ replicate (2 - length l) 0) 4096
    ((4094 + Z.of_nat (length l)) mod 4096) 4094 (Z.of_nat (length l)) 4096
    false reader_closed 2 3 4 [].

(** A wait in which the park ends by a wake-up and others turn the pipe into
    [f] of it. *)
Definition demo_wait (f : pipe_buf_t -> pipe_buf_t) : wait_in :=
  {| w_current := true; w_yield := id; w_signal_entry := false; w_prepare := id;
     w_token := true; w_signal_recheck := false; w_cancel := id; w_linked := true;
     w_park := f; w_reason_interrupt := false; w_signal_exit := false |}.

Definition demo_turn (f : pipe_buf_t -> pipe_buf_t) : turn_in :=
  {| t_wait := demo_wait f; t_gap := id |}.

Lemma demo_kmalloc_ok : kmalloc_ok demo_kmalloc.
Proof.
  intros n d. unfold demo_kmalloc. split_if; [|done]. reflect. intros [= <-].
  rewrite length_replicate. lia.
Qed.

Lemma demo_ring_wf l c : (length l <= 4096)%nat -> pwf (demo_ring l c).
Proof.
  intros H. split; cbn; unfold PIPE_BUF_SIZE; try lia.
  rewrite !length_app, !length_replicate, length_take, !length_drop. lia.
Qed.

Lemma keeps_id : keeps id.
Proof. by intros pb. Qed.

Lemma keeps_const pb : pwf pb -> keeps (fun _ => pb).
Proof. by intros ? ?. Qed.

Lemma demo_turn_ok f : keeps f -> turn_ok (demo_turn f).
Proof. intros H. split; [split; [|split; [|split]]|]; exact H || exact keeps_id. Qed.

(** The pipe as created over the block [d], and after a write of three bytes
    and a read of two. *)
Definition demo_new (d : list Z) : pipe_buf_t :=
  mk_pipe d 65536 0 0 0 65536 false false 2 3 4 [].

Definition demo_written (d : list Z) : pipe_buf_t :=
  mk_pipe ([1; 2; 3] ++ drop 3 d) 65536 3 0 3 65536 false false 2 3 4
    [NotifyReadable 3; WakeReaders].

Definition demo_read (d : list Z) : pipe_buf_t :=
  mk_pipe ([1; 2; 3] ++ drop 3 d) 65536 3 2 1 65536 false false 2 3 4
    [NotifyReadable 3; WakeReaders].

Lemma demo_write_turn d : Z.of_nat (length d) = 65536 ->
  write_turn true false [1; 2; 3] 3 0 (demo_new d) = Some (demo_written d, WPushed 3).
Proof.
  intros H. unfold write_turn, ring_write, memcpy. cbn -[drop take length].
  rewrite H. reflexivity.
Qed.

Lemma demo_read_section d : Z.of_nat (length d) = 65536 ->
  read_section (demo_written d) [0; 0] 2 = Some (demo_read d, [1; 2], 2).
Proof.
  intros H. unfold read_section, copy_out, memcpy. cbn -[drop take length app].
  rewrite length_app, length_drop.
  replace (Z.of_nat (length [1; 2; 3] + (length d - 3))) with 65536 by (cbn [length]; lia).
  reflexivity.
Qed.

(** A zeroed block of the default size, never computed. *)
Definition demo_block : list Z := replicate (Z.to_nat 65536) 0.

Lemma demo_block_length : Z.of_nat (length demo_block) = 65536.
Proof. unfold demo_block. rewrite length_replicate. lia. Qed.

Lemma demo_hist : phist (demo_new demo_block) [] [].
Proof.
  apply (hist_create true demo_kmalloc true true 3 4
    {| cr_ret := 0; cr_pipe := Some (demo_new demo_block); cr_freed := 0; cr_fds := Some (3, 4) |});
    [apply demo_kmalloc_ok|reflexivity|reflexivity].
Qed.

Lemma pipe_histories_fifo_witness :
  phist (pipe_wake_writers (demo_read demo_block)) [1; 2; 3] [1; 2] /\
  [1; 2; 3] = [1; 2] ++ contents (pipe_wake_writers (demo_read demo_block)).
Proof.
  assert (H1 : phist (demo_written demo_block) [1; 2; 3] []).
  { apply (hist_step _ [] [] (LWrote [1; 2; 3]) _ demo_hist).
    apply (step_write true false [1; 2; 3] 3 0 _ _ (WPushed 3));
      [lia|cbn; lia|unfold in_u64; lia|exact (demo_write_turn _ demo_block_length)]. }
  assert (H2 : phist (pipe_wake_writers (demo_read demo_block)) [1; 2; 3] [1; 2]).
  { apply (hist_step _ [1; 2; 3] [] (LRead [1; 2]) _ H1).
    apply (step_read [0; 0] 2 _ _ [1; 2] 2);
      [cbn; lia|discriminate|exact (demo_read_section _ demo_block_length)]. }
  split; [exact H2|]. apply (pipe_histories_fifo _ _ _ H2).
Defined.

(** A write of three bytes that first waits: the pipe has room for one byte
    only, and the reader empties most of it meanwhile. *)
Lemma pipe_write_correct_witness :
  exists pb' p ps m,
    pipe_write true (Some (demo_ring (replicate 4095 7) false)) false [1; 2; 3] 3
      [demo_turn (fun _ => demo_ring [7; 7] false); demo_turn id] = Some (Some pb', p, ps) /\
    appends [1; 2; 3] 0 ps m /\
    (ps = [] \/ exists q q', ps = [(q, q')] /\ contents q' = contents q ++ [1; 2; 3]).
Proof.
  destruct (pipe_write_correct true false [1; 2; 3] 3
      [demo_turn (fun _ => demo_ring [7; 7] false); demo_turn id]
      (demo_ring (replicate 4095 7) false)) as (pb' & p & ps & m & E & _ & _ & A & B & _).
  - apply demo_ring_wf. rewrite length_replicate. lia.
  - apply Forall_cons; [|apply Forall_cons; [|apply Forall_nil]]; apply demo_turn_ok;
      [apply keeps_const, demo_ring_wf; cbn; lia|apply keeps_id].
  - cbn. lia.
  - lia.
  - exists pb', p, ps, m. split; [exact E|]. split; [exact A|].
    apply B. unfold PIPE_BUF_SIZE. lia.
Defined.

(** A read of three bytes across the end of the ring. *)
Lemma pipe_read_correct_witness :
  exists pb2, pipe_read (Some (demo_ring [5; 6; 7; 8] false)) true [0; 0; 0] 3 []
    = Some (Some pb2, [5; 6; 7], Returned 3) /\ contents pb2 = [8].
Proof.
  pose proof (pipe_read_correct true g_pipe_read_ops [0; 0; 0] 3 [] (demo_ring [5; 6; 7; 8] false)
    ltac:(apply demo_ring_wf; cbn; lia) ltac:(constructor) ltac:(cbn; lia) ltac:(lia)
    ltac:(discriminate)) as (_ & _ & _ & _ & pb2 & E & _ & C & _).
  exists pb2. split; [exact E|exact C].
Defined.

Lemma pipe_resize_correct_witness :
  exists pb' r, pipe_set_size
      (Some {| vf_ops := g_pipe_write_ops; vf_nonblock := false;
               vf_priv := Some (demo_ring [5; 6; 7; 8] false) |}) 8192 demo_kmalloc id
    = Some (Some pb', r) /\ contents pb' = [5; 6; 7; 8] /\ r = 8192.
Proof.
  destruct (pipe_resize_correct g_pipe_write_ops false (demo_ring [5; 6; 7; 8] false) 8192
    demo_kmalloc id ltac:(apply demo_ring_wf; cbn; lia) keeps_id demo_kmalloc_ok
    ltac:(lia) ltac:(discriminate)) as (pb' & r & E & _ & q & Q & C & R).
  exists pb', r. split; [exact E|]. split.
  - rewrite C. by destruct Q as [-> | ->].
  - destruct R as [(_ & _ & Hu)|[(_ & _ & Hk)|(-> & _)]]; [|discriminate Hk|reflexivity].
    destruct Q as [-> | ->]; cbn in Hu; lia.
Defined.

(** The writer's end closes: the sleeping reader is woken. *)
Lemma pipe_wakes_sleepers_witness :
  exists p new, pipe_write_close true (Some (demo_new demo_block)) = Some p /\
    pb_events p = new /\ WakeReaders ∈ new.
Proof.
  eexists _, _. split; [reflexivity|]. split; [reflexivity|].
  destruct (pipe_wakes_sleepers (demo_new demo_block) LClose
    (pipe_wake_readers (mk_pipe demo_block 65536 0 0 0 65536 true false 1 3 4 [])) read_waiters)
    as [H _].
  - apply (phist_inv _ _ _ demo_hist).
  - apply (step_write_close true). reflexivity.
  - discriminate.
  - destruct (H 1) as (new & L & I); [reflexivity..|].
    unfold logged in L. rewrite app_nil_r in L. rewrite <- L in I. exact I.
Defined.

(** ** Limits *)

(** Growing a full pipe makes room for a writer that sleeps on it, but wakes
    nobody: the writer sleeps until the next read. *)
Lemma resize_wakes_nobody pb size kmalloc : pwf pb -> kmalloc_ok kmalloc ->
  pb_used pb = pb_capacity pb -> pb_reader_closed pb = false ->
  pb_capacity pb < size -> is_Some (kmalloc size) ->
  should_wait write_waiters 1 pb = true /\
  exists pb', pipe_resize (Some pb) size kmalloc id = Some (Some pb', s32 size) /\
    should_wait write_waiters 1 pb' = false /\ pb_events pb' = pb_events pb.
Proof.
  intros W Hk Hf Hr Hs [d Hd]. pipe_wf W. destruct (Hk _ _ Hd) as [Hl Hm]. split.
  { cbn [should_wait]. by rewrite Hf, Hr, Z.sub_diag. }
  unfold pipe_resize, PIPE_BUF_SIZE, resize_guard.
  rewrite (proj2 (Z.ltb_ge size 4096)), (proj2 (Z.ltb_ge size (pb_used pb))),
    (proj2 (Z.eqb_neq size (pb_capacity pb))) by lia.
  cbv beta iota zeta delta [id]. rewrite Hd.
  rewrite (proj2 (Z.ltb_ge size (pb_used pb))), (proj2 (Z.eqb_neq size (pb_capacity pb))) by lia.
  destruct (resize_swap_spec pb size d W) as (e & -> & _ & _); [unfold PIPE_BUF_SIZE; lia..|].
  cbn [mbind option_bind]. eexists. split; [reflexivity|]. split; [|done].
  change ((u64 (size - pb_used pb) <? 1) && negb (pb_reader_closed pb) = false).
  rewrite u64_small, (proj2 (Z.ltb_ge (size - pb_used pb) 1)) by (unfold in_u64; lia). done.
Qed.

Lemma full_turn_waits current buf count pb : pwf pb -> pb_used pb = pb_capacity pb ->
  pb_reader_closed pb = false -> 0 < count <= PIPE_BUF_SIZE ->
  write_turn current false buf count 0 pb = Some (pb, WWait count).
Proof.
  intros W Hf Hr Hn. unfold PIPE_BUF_SIZE in *. unfold write_turn.
  rewrite (proj2 (Z.ltb_lt 0 count)), Z.sub_0_r, (u64_small count) by (unfold in_u64; lia).
  unfold PIPE_BUF_SIZE. rewrite (proj2 (Z.leb_le count 4096)), Hf, Z.sub_diag by lia.
  change (u64 0) with 0. rewrite (proj2 (Z.ltb_lt 0 count)) by lia.
  unfold write_full. by rewrite Hr.
Qed.

Lemma empty_turn_pushes current nonblock buf count pb : pwf pb -> pb_used pb = 0 ->
  0 < count <= PIPE_BUF_SIZE -> count <= Z.of_nat (length buf) ->
  exists pb', write_turn current nonblock buf count 0 pb = Some (pb', WPushed count) /\
    same_ends pb pb' /\ contents pb' = take (Z.to_nat count) buf /\
    pb_events pb' = pb_events (pipe_wake_readers pb).
Proof.
  intros W Hu Hn Hb. pose proof (wf_cap _ W). unfold PIPE_BUF_SIZE in *. unfold write_turn.
  rewrite (proj2 (Z.ltb_lt 0 count)), Z.sub_0_r, Hu, Z.sub_0_r, !u64_small by (unfold in_u64; lia).
  unfold PIPE_BUF_SIZE.
  rewrite (proj2 (Z.leb_le count 4096)), (proj2 (Z.ltb_ge (pb_capacity pb) count)) by lia.
  destruct (ring_write_spec pb buf 0 count W) as (d & -> & _ & C); [lia..|].
  cbn [mbind option_bind]. eexists. split; [reflexivity|]. split; [done|]. split; [|done].
  etransitivity; [exact C|]. unfold contents. by rewrite Hu.
Qed.

(** The reader's end is tested when a write begins and when it finds no room,
    not after it has waited and found room: a writer of up to PIPE_BUF bytes
    that is woken after the reader took everything and closed, which turned the
    pipe into [q], writes to a pipe nobody can read and returns the count,
    without EPIPE or SIGPIPE. *)
Lemma write_without_reader current buf count pb q : pwf pb -> pwf q ->
  pb_used pb = pb_capacity pb -> pb_reader_closed pb = false ->
  pb_used q = 0 -> pb_reader_closed q = true ->
  0 < count <= PIPE_BUF_SIZE -> count <= Z.of_nat (length buf) ->
  exists pb' ps, pipe_write current (Some pb) false buf count
      [demo_turn (fun _ => q); demo_turn id] = Some (Some pb', Returned count, ps) /\
    pb_reader_closed pb' = true /\ contents pb' = take (Z.to_nat count) buf /\
    pb_events pb' = pb_events (pipe_wake_readers q).
Proof.
  intros W Wq Hf Hr Hu Hc Hn Hb. unfold pipe_write.
  rewrite (proj2 (Z.eqb_neq count 0)), Hr by lia. cbn [write_loop].
  rewrite (full_turn_waits current buf count pb W Hf Hr Hn). cbn [mbind option_bind].
  assert (Hw : should_wait write_waiters count pb = true).
  { cbn [should_wait]. rewrite Hf, Hr, Z.sub_diag. change (u64 0) with 0.
    by rewrite (proj2 (Z.ltb_lt 0 count)) by lia. }
  replace (pipe_wait_interruptible_locked _ _ _ _) with (q, 0)
    by (unfold pipe_wait_interruptible_locked; cbn -[should_wait]; unfold id; by rewrite Hw).
  destruct (empty_turn_pushes current false buf count q Wq Hu Hn Hb) as (q' & E & S & C & L).
  cbn [Z.ltb Z.compare]. rewrite E. cbn [mbind option_bind].
  unfold write_turn. rewrite (proj2 (Z.ltb_ge count count)) by lia. cbn.
  unfold PIPE_BUF_SIZE in *. rewrite s32_small by lia. unfold id.
  eexists _, _. split; [reflexivity|]. split; [|by split]. destruct S as (_ & -> & _). done.
Qed.
