(* ===== verification/AddrSpace.v ===== *)
(** * User address spaces (kernel/mm/vma.c, munmap.c, mprotect.c, mmap.c,
    mseal.c, pte_flags.c, wx.c)

    An address space is a list of mapping records, doubly linked and ordered
    by address, with a lazily rebuilt index for lookups and a queue of records
    to release.  A record is a cell of a store, [None] is a NULL pointer; an
    access to a freed record is a fault.  The functions are the ones that run
    with [mm->lock] held, in the configuration with page tables.

    What the page-table code does is outside: naming and un-naming a range,
    and the references to files, vnodes, VMOs and SysV segments are recorded
    in [mm_events], newest first; the return values of the loops over the
    pages of a mapping and the answers of the allocator are given in the state
    ([mm_page_loops], [mm_kcalloc]), first answer first. *)

From stdpp Require Import gmap.
From S2P Require Import Prelude.

(** ** Constants *)

Abbreviation VM_READ := (0x1)%Z (only parsing).
Abbreviation VM_WRITE := (0x2)%Z (only parsing).
Abbreviation VM_EXEC := (0x4)%Z (only parsing).
Abbreviation VM_SHARED := (0x8)%Z (only parsing).
Abbreviation VM_ANON := (0x10)%Z (only parsing).
Abbreviation VM_HUGEPAGE := (0x800)%Z (only parsing).
Abbreviation VM_FILE := (0x2000)%Z (only parsing).
Abbreviation VM_VMO := (0x4000)%Z (only parsing).
Abbreviation VM_LOCKED := (0x8000)%Z (only parsing).
Abbreviation VM_SYSV_SHM := (0x10000)%Z (only parsing).
Abbreviation VM_PFNMAP := (0x20000)%Z (only parsing).
Abbreviation VM_SEALED := (0x40000)%Z (only parsing).
Abbreviation MM_SEG_INDEX_CAPACITY := (1024)%Z (only parsing).
Abbreviation PROT_READ := (1)%Z (only parsing).
Abbreviation PROT_WRITE := (2)%Z (only parsing).
Abbreviation PROT_EXEC := (4)%Z (only parsing).
Abbreviation PROT_HINT_MASK := (0x30)%Z (only parsing).
Abbreviation PROT_KNOWN_MASK := (0x37)%Z (only parsing).
Abbreviation MAP_SHARED := (0x01)%Z (only parsing).
Abbreviation MAP_FIXED := (0x10)%Z (only parsing).
Abbreviation MAP_HUGETLB := (0x40000)%Z (only parsing).
Abbreviation MAP_FIXED_NOREPLACE := (0x100000)%Z (only parsing).
Abbreviation PG := (4096)%Z (only parsing).

(** [ROUND_UP(a, PAGE_SIZE)] on 64 bits. *)
Definition page_up (a : Z) : Z := Z.land (u64 (a + (PG - 1))) (u64 (Z.lnot (PG - 1))).

(** What an architecture provides: the end of the user addresses, where gaps
    are searched, and the bits of a leaf entry. *)
Class MmArch := {
  USER_VA_LIMIT : Z; MMAP_BASE_ADDR : Z;
  PTE_V : Z; PTE_R : Z; PTE_W : Z; PTE_X : Z; PTE_U : Z; PTE_G : Z; PTE_A : Z;
  PTE_D : Z; PTE_COW : Z; PTE_LEAF : Z; PTE_MAT1 : Z;
}.

(** ** Data *)

Record mm_seg_t := mk_seg {
  sg_refcount : Z;
  sg_start : Z;
  sg_end : Z;
  sg_backing_offset : Z;
  sg_vm_flags : Z;
  sg_pte_flags : Z;
  sg_vmar_cap : Z;
  sg_sysv_shmid : Z;
  sg_file : option Z;
  sg_file_vnode : option Z;
  sg_vmo : option Z;
  sg_released : bool;
  sg_prev : option nat;
  sg_next : option nat;
  sg_deferred_next : option nat;
}.

Inductive mm_event :=
  | VnodeGet (v : Z) | VnodePut (v : Z)
  | SharedMapInc (v : Z) | SharedMapDec (v : Z)
  | VfileGet (f : Z) | VfilePut (f : Z)
  | VmoRef (o : Z) | VmoRelease (o : Z)
  | ShmRef (id : Z) | ShmUnref (id : Z)
  | SegAnnotate (p : nat) (s e : Z) | SegRetire (p : nat) (s e : Z)
  | SetSafeRange (s e : Z).

Record mm_struct_t := mk_mm {
  mm_segs : gmap nat mm_seg_t;
  mm_mmap : option nat;
  mm_seg_index : list (option nat);
  mm_seg_index_count : Z;
  mm_seg_index_state : Z;
  mm_deferred_vma : option nat;
  mm_brk : Z;
  mm_start_brk : Z;
  mm_mmap_base : Z;
  mm_total_vm : Z;
  mm_locked_vm : Z;
  mm_def_flags : Z;
  mm_index_overflow : Z;
  mm_events : list mm_event;
  mm_kcalloc : list (option nat);
  mm_page_loops : list Z;
}.

Definition sg (mm : mm_struct_t) (p : nat) : option mm_seg_t := mm_segs mm !! p.

Definition sg_set (mm : mm_struct_t) (p : nat) (r : mm_seg_t) : mm_struct_t :=
  mm {{ mm_segs := <[p := r]> (mm_segs mm) }}.

Definition sg_upd (mm : mm_struct_t) (p : nat) (f : mm_seg_t -> mm_seg_t)
  : option mm_struct_t :=
  r ← sg mm p; Some (sg_set mm p (f r)).

Definition log (mm : mm_struct_t) (e : mm_event) : mm_struct_t :=
  mm {{ mm_events := e :: mm_events mm }}.

Definition kfree (mm : mm_struct_t) (p : nat) : mm_struct_t :=
  mm {{ mm_segs := delete p (mm_segs mm) }}.

(** The next return value of a loop over pages. *)
Definition page_loop (mm : mm_struct_t) : mm_struct_t * Z :=
  match mm_page_loops mm with
  | [] => (mm, 0)
  | r :: rs => (mm {{ mm_page_loops := rs }}, r)
  end.

Definition has (flags bit : Z) : bool := c_true (Z.land flags bit).

(** Walks along the list end by then: one record more than there are. *)
Definition fuel (mm : mm_struct_t) : nat := S (size (mm_segs mm)).

(** ** Merging *)

Definition seg_can_merge (a b : mm_seg_t) : bool :=
  if negb (sg_end a =? sg_start b) then false
  else
    let either := Z.lor (sg_vm_flags a) (sg_vm_flags b) in
    if has either VM_SYSV_SHM then false
    else if negb (sg_vm_flags a =? sg_vm_flags b) || negb (sg_pte_flags a =? sg_pte_flags b)
    then false
    else if has either VM_FILE then
      if negb (bool_decide (sg_file a = sg_file b)) then false
      else u64 (sg_backing_offset a + u64 (sg_end a - sg_start a)) =? sg_backing_offset b
    else if has either VM_VMO then
      if negb (has (sg_vm_flags a) VM_VMO) || negb (has (sg_vm_flags b) VM_VMO) then false
      else if negb (bool_decide (sg_vmo a = sg_vmo b)) then false
      else u64 (sg_backing_offset a + u64 (sg_end a - sg_start a)) =? sg_backing_offset b
    else true.

Definition vma_can_merge (mm : mm_struct_t) (a b : option nat) : option bool :=
  match a, b with
  | Some a, Some b => ra ← sg mm a; rb ← sg mm b; Some (seg_can_merge ra rb)
  | _, _ => Some false
  end.

(** ** Records and what backs them *)

Definition seg_zero : mm_seg_t :=
  mk_seg 1 0 0 0 0 0 0 (- 1) None None None false None None None.

Definition mm_seg_new (mm : mm_struct_t) : option (mm_struct_t * option nat) :=
  match mm_kcalloc mm with
  | [] => Some (mm, None)
  | None :: al => Some (mm {{ mm_kcalloc := al }}, None)
  | Some p :: al =>
      match sg mm p with
      | Some _ => None
      | None => Some (sg_set (mm {{ mm_kcalloc := al }}) p seg_zero, Some p)
      end
  end.

Definition vma_release_file (mm : mm_struct_t) (p : nat) : option mm_struct_t :=
  r ← sg mm p;
  match sg_file r with
  | Some f =>
      if has (sg_vm_flags r) VM_FILE then
        let mm :=
          match sg_file_vnode r with
          | Some v =>
              let mm := if has (sg_vm_flags r) VM_SHARED then log mm (SharedMapDec v) else mm in
              log mm (VnodePut v)
          | None => mm
          end in
        let mm := log mm (VfilePut f) in
        Some (sg_set mm p (r {{ sg_file_vnode := None; sg_file := None }}))
      else Some mm
  | None => Some mm
  end.

Definition vma_release_ipc (mm : mm_struct_t) (p : nat) : option mm_struct_t :=
  r ← sg mm p;
  Some (if has (sg_vm_flags r) VM_SYSV_SHM then log mm (ShmUnref (sg_sysv_shmid r)) else mm).

Definition vma_release (mm : mm_struct_t) (p : nat) : option mm_struct_t :=
  mm ← vma_release_file mm p;
  mm ← vma_release_ipc mm p;
  r ← sg mm p;
  match sg_vmo r with
  | Some o =>
      if has (sg_vm_flags r) VM_VMO then
        Some (sg_set (log mm (VmoRelease o)) p
                (r {{ sg_vmo := None; sg_vm_flags := Z.ldiff (sg_vm_flags r) VM_VMO }}))
      else Some mm
  | None => Some mm
  end.

Definition vma_ref_file (mm : mm_struct_t) (p : nat) : option (mm_struct_t * Z) :=
  r ← sg mm p;
  match sg_file r with
  | Some f =>
      if has (sg_vm_flags r) VM_FILE then
        let mm :=
          match sg_file_vnode r with
          | Some v =>
              let mm := log mm (VnodeGet v) in
              if has (sg_vm_flags r) VM_SHARED then log mm (SharedMapInc v) else mm
          | None => mm
          end in
        Some (log mm (VfileGet f), 0)
      else Some (mm, 0)
  | None => Some (mm, 0)
  end.

Definition vma_ref_vmo (mm : mm_struct_t) (p : nat) : option mm_struct_t :=
  r ← sg mm p;
  match sg_vmo r with
  | Some o => Some (if has (sg_vm_flags r) VM_VMO then log mm (VmoRef o) else mm)
  | None => Some mm
  end.

(** [shm] is the answer of [sysv_shm_ref_attach]. *)
Definition vma_ref_fork (shm : Z) (mm : mm_struct_t) (p : nat) : option (mm_struct_t * Z) :=
  '(mm, r) ← vma_ref_file mm p;
  if r <? 0 then Some (mm, r) else
  s ← sg mm p;
  if has (sg_vm_flags s) VM_SYSV_SHM then
    if shm <? 0 then mm ← vma_release_file mm p; Some (mm, shm)
    else mm ← vma_ref_vmo (log mm (ShmRef (sg_sysv_shmid s))) p; Some (mm, 0)
  else mm ← vma_ref_vmo mm p; Some (mm, 0).

Definition vma_ref_aux (mm : mm_struct_t) (p : nat) : option (mm_struct_t * Z) :=
  '(mm, r) ← vma_ref_file mm p;
  if r <? 0 then Some (mm, r)
  else mm ← vma_ref_vmo mm p; Some (mm, 0).

(** ** References to records (also mm/pt.c) *)

Definition mm_seg_get (mm : mm_struct_t) (p : nat) : option mm_struct_t :=
  sg_upd mm p (fun r => r {{ sg_refcount := s32 (sg_refcount r + 1) }}).

(** [refcount_dec_and_test]. *)
Definition seg_dec_and_test (mm : mm_struct_t) (p : nat) : option (mm_struct_t * bool) :=
  r ← sg mm p;
  let n := s32 (sg_refcount r - 1) in
  Some (sg_set mm p (r {{ sg_refcount := n }}), n =? 0).

(** A record that is not in the store has lost its magic: the panic. *)
Definition mm_seg_put (mm : mm_struct_t) (p : nat) : option mm_struct_t :=
  '(mm, last) ← seg_dec_and_test mm p;
  if (last : bool) then
    r ← sg mm p;
    mm ← (if negb (sg_released r)
          then vma_release (sg_set mm p (r {{ sg_released := true }})) p
          else Some mm);
    Some (kfree mm p)
  else Some mm.

Definition vma_get (mm : mm_struct_t) (vma : option nat) : option mm_struct_t :=
  match vma with Some p => mm_seg_get mm p | None => Some mm end.

Definition vma_put (mm : mm_struct_t) (vma : option nat) : option mm_struct_t :=
  match vma with
  | None => Some mm
  | Some p =>
      '(mm, last) ← seg_dec_and_test mm p;
      if (last : bool) then
        mm ← mm_seg_get mm p;
        mm ← sg_upd mm p (fun r => r {{ sg_deferred_next := mm_deferred_vma mm }});
        Some (mm {{ mm_deferred_vma := Some p }})
      else Some mm
  end.

Definition mm_vma_defer (mm : mm_struct_t) (vma : nat) : option mm_struct_t :=
  vma_put mm (Some vma).

Fixpoint flush_loop (n : nat) (mm : mm_struct_t) (v : option nat) : option mm_struct_t :=
  match v, n with
  | None, _ => Some mm
  | Some p, S n' =>
      r ← sg mm p;
      let next := sg_deferred_next r in
      mm ← vma_release (sg_set mm p (r {{ sg_released := true }})) p;
      mm ← mm_seg_put mm p;
      flush_loop n' mm next
  | Some _, O => None
  end.

Definition mm_vma_flush_deferred (mm : mm_struct_t) : option mm_struct_t :=
  flush_loop (fuel mm) (mm {{ mm_deferred_vma := None }}) (mm_deferred_vma mm).

(** ** The index and the lookup *)

(** Put the references of the slots below [n] and clear them. *)
Definition index_put (mm : mm_struct_t) (n : Z) : option mm_struct_t :=
  for_ 0 n (fun i mm =>
    s ← rd (mm_seg_index mm) i;
    mm ← vma_put mm s;
    ix ← wr (mm_seg_index mm) i None;
    Some (mm {{ mm_seg_index := ix }})) mm.

(** The walk that fills the index from slot [count] on; it gives up when a
    record finds the index full. *)
Fixpoint index_fill (n : nat) (mm : mm_struct_t) (v : option nat) (count : Z)
  : option mm_struct_t :=
  match v, n with
  | None, _ => Some (mm {{ mm_seg_index_count := count; mm_seg_index_state := 1 }})
  | Some p, S n' =>
      if count =? MM_SEG_INDEX_CAPACITY then
        mm ← index_put (mm {{ mm_index_overflow := u64 (mm_index_overflow mm + 1) }}) count;
        Some (mm {{ mm_seg_index_count := 0; mm_seg_index_state := 2 }})
      else
        mm ← mm_seg_get mm p;
        ix ← wr (mm_seg_index mm) count (Some p);
        r ← sg mm p;
        index_fill n' (mm {{ mm_seg_index := ix }}) (sg_next r) (count + 1)
  | Some _, O => None
  end.

Definition mm_seg_index_rebuild (mm : mm_struct_t) : option mm_struct_t :=
  mm ← index_put mm (mm_seg_index_count mm);
  index_fill (fuel mm) mm (mm_mmap mm) 0.

Definition mm_seg_index_invalidate (mm : mm_struct_t) : mm_struct_t :=
  mm {{ mm_seg_index_state := 0 }}.

Definition mm_seg_index_clear (mm : mm_struct_t) : option mm_struct_t :=
  mm ← for_ 0 (mm_seg_index_count mm)
         (fun i mm => s ← rd (mm_seg_index mm) i; vma_put mm s) mm;
  Some (mm {{ mm_seg_index := replicate (Z.to_nat MM_SEG_INDEX_CAPACITY) None;
              mm_seg_index_count := 0; mm_seg_index_state := 0 }}).

(** The binary search: the number of entries that start at or below [addr]. *)
Fixpoint index_search (n : nat) (mm : mm_struct_t) (addr lo hi : Z) : option Z :=
  if lo <? hi then
    match n with
    | O => None
    | S n' =>
        let mid := lo + (hi - lo) / 2 in
        s ← rd (mm_seg_index mm) mid; p ← s; r ← sg mm p;
        if sg_start r <=? addr then index_search n' mm addr (mid + 1) hi
        else index_search n' mm addr lo mid
    end
  else Some lo.

(** The walk along the list, with its panic after 100000 steps. *)
Fixpoint list_search (n : nat) (mm : mm_struct_t) (addr : Z) (v : option nat) (steps : Z)
  : option (option nat) :=
  match v, n with
  | None, _ => Some None
  | Some p, S n' =>
      let steps := steps + 1 in
      if steps >? 100000 then None
      else
        r ← sg mm p;
        if (addr <? sg_end r) && (addr >=? sg_start r) then Some (Some p)
        else if sg_start r >? addr then Some None
        else list_search n' mm addr (sg_next r) steps
  | Some _, O => None
  end.

Definition mm_seg_find (mm : mm_struct_t) (addr : Z) : option (mm_struct_t * option nat) :=
  mm ← (if mm_seg_index_state mm =? 0 then mm_seg_index_rebuild mm else Some mm);
  if mm_seg_index_state mm =? 1 then
    lo ← index_search (Z.to_nat (mm_seg_index_count mm)) mm addr 0 (mm_seg_index_count mm);
    if lo >? 0 then
      s ← rd (mm_seg_index mm) (lo - 1); p ← s; r ← sg mm p;
      Some (mm, if addr <? sg_end r then Some p else None)
    else Some (mm, None)
  else
    v ← list_search (fuel mm) mm addr (mm_mmap mm) 0;
    Some (mm, v).

(** ** The end of an address space (mm/vm.c) *)

Fixpoint destroy_loop (n : nat) (mm : mm_struct_t) (vma : option nat) : option mm_struct_t :=
  match vma, n with
  | None, _ => Some mm
  | Some p, S n' =>
      r ← sg mm p;
      let next := sg_next r in
      mm ← vma_put mm (Some p);
      destroy_loop n' mm next
  | Some _, O => None
  end.

(** What [mm_destroy] does to the records when the last user is gone. *)
Definition mm_destroy (mm : mm_struct_t) : option mm_struct_t :=
  mm ← mm_vma_flush_deferred mm;
  mm ← mm_seg_index_clear mm;
  mm ← destroy_loop (fuel mm) mm (mm_mmap mm);
  mm_vma_flush_deferred mm.

(** ** Gaps and overlaps *)

Fixpoint gap_loop (n : nat) (mm : mm_struct_t) (len : Z) (v : option nat) (prev_end : Z)
  : option Z :=
  match v, n with
  | None, _ => Some prev_end
  | Some p, S n' =>
      r ← sg mm p;
      if (sg_start r >=? prev_end) && (sg_start r - prev_end >=? len) then Some prev_end
      else gap_loop n' mm len (sg_next r) (if sg_end r >? prev_end then sg_end r else prev_end)
  | Some _, O => None
  end.

Definition mm_find_gap (mm : mm_struct_t) (hint len : Z) : option Z :=
  gap_loop (fuel mm) mm len (mm_mmap mm) hint.

Fixpoint overlaps_loop (n : nat) (mm : mm_struct_t) (start end_ : Z) (ignore v : option nat)
  : option bool :=
  match v, n with
  | None, _ => Some false
  | Some p, S n' =>
      r ← sg mm p;
      if bool_decide (ignore = Some p) then overlaps_loop n' mm start end_ ignore (sg_next r)
      else if (sg_start r <? end_) && (sg_end r >? start) then Some true
      else if sg_start r >=? end_ then Some false
      else overlaps_loop n' mm start end_ ignore (sg_next r)
  | Some _, O => None
  end.

Definition mm_range_overlaps (mm : mm_struct_t) (start len : Z) (ignore : option nat)
  : option bool :=
  let end_ := u64 (start + len) in
  if end_ <? start then Some true
  else overlaps_loop (fuel mm) mm start end_ ignore (mm_mmap mm).

(** ** Changing the list *)

Definition mm_mmap_seg_retire (mm : mm_struct_t) (p : nat) (s e : Z) : mm_struct_t :=
  if e <=? s then mm else log mm (SegRetire p s e).

Definition mm_mmap_seg_annotate (mm : mm_struct_t) (p : nat) (s e : Z) : option mm_struct_t :=
  r ← sg mm p;
  Some (if (e <=? s) || negb (has (sg_vm_flags r) (Z.lor VM_VMO VM_FILE)) then mm
        else log mm (SegAnnotate p s e)).

(** [mm_mmap_seg_retire(mm, p, p->start, p->end)], and the annotation. *)
Definition retire_seg (mm : mm_struct_t) (p : nat) : option mm_struct_t :=
  r ← sg mm p; Some (mm_mmap_seg_retire mm p (sg_start r) (sg_end r)).

Definition annotate_seg (mm : mm_struct_t) (p : nat) : option mm_struct_t :=
  r ← sg mm p; mm_mmap_seg_annotate mm p (sg_start r) (sg_end r).

(** [if (p) p->prev = q]. *)
Definition set_prev (mm : mm_struct_t) (p : option nat) (q : option nat) : option mm_struct_t :=
  match p with
  | Some p => sg_upd mm p (fun r => r {{ sg_prev := q }})
  | None => Some mm
  end.

(** [*pp = q], where [pp] is the [next] field of [prev] or the list head. *)
Definition set_next (mm : mm_struct_t) (prev : option nat) (q : option nat)
  : option mm_struct_t :=
  match prev with
  | Some p => sg_upd mm p (fun r => r {{ sg_next := q }})
  | None => Some (mm {{ mm_mmap := q }})
  end.

(** The place of a record that starts at [start]: what comes before, after. *)
Fixpoint insert_walk (n : nat) (mm : mm_struct_t) (start : Z) (prev cur : option nat)
  : option (option nat * option nat) :=
  match cur, n with
  | None, _ => Some (prev, None)
  | Some p, S n' =>
      r ← sg mm p;
      if sg_start r <? start then insert_walk n' mm start (Some p) (sg_next r)
      else Some (prev, Some p)
  | Some _, O => None
  end.

Definition insert_link (mm : mm_struct_t) (newv : nat) : option mm_struct_t :=
  r ← sg mm newv;
  '(prev, cur) ← insert_walk (fuel mm) mm (sg_start r) None (mm_mmap mm);
  mm ← sg_upd mm newv (fun r => r {{ sg_next := cur; sg_prev := prev }});
  mm ← set_prev mm cur (Some newv);
  set_next mm prev (Some newv).

(** [a] takes over the extent of its successor [b], which leaves the list. *)
Definition absorb (mm : mm_struct_t) (a b : nat) : option mm_struct_t :=
  rb ← sg mm b;
  mm ← sg_upd mm a (fun r => r {{ sg_end := sg_end rb; sg_next := sg_next rb }});
  mm ← set_prev mm (sg_next rb) (Some a);
  mm_vma_defer mm b.

Definition mm_insert_vma (mm : mm_struct_t) (newv : nat) : option mm_struct_t :=
  mm ← insert_link (mm_seg_index_invalidate mm) newv;
  r ← sg mm newv;
  m ← vma_can_merge mm (Some newv) (sg_next r);
  mm ← (if (m : bool) then
          nxt ← sg_next r; mm ← retire_seg mm nxt; absorb mm newv nxt
        else Some mm);
  r ← sg mm newv;
  m ← vma_can_merge mm (sg_prev r) (Some newv);
  '(mm, survivor) ←
    (if (m : bool) then
       prv ← sg_prev r; mm ← retire_seg mm newv; mm ← absorb mm prv newv; Some (mm, prv)
     else Some (mm, newv));
  annotate_seg mm survivor.

(** [*tail = *v] and the narrowing of the copy to start at [addr]. *)
Definition copy_tail (mm : mm_struct_t) (v tail : nat) (addr : Z) : option mm_struct_t :=
  r ← sg mm v;
  _ ← sg mm tail;
  Some (sg_set mm tail
          (r {{ sg_refcount := 1; sg_start := addr;
                sg_backing_offset := u64 (sg_backing_offset r + u64 (addr - sg_start r)) }})).

(** [tail] enters the list behind [v], which ends at [end_] from now on. *)
Definition link_tail (mm : mm_struct_t) (v tail : nat) (end_ : Z) : option mm_struct_t :=
  r ← sg mm v;
  mm ← sg_upd mm tail (fun t => t {{ sg_prev := Some v; sg_next := sg_next r }});
  mm ← set_prev mm (sg_next r) (Some tail);
  sg_upd mm v (fun r => r {{ sg_end := end_; sg_next := Some tail }}).

Definition mm_split_vma_at (mm : mm_struct_t) (addr : Z) : option (mm_struct_t * Z) :=
  '(mm, v) ← mm_seg_find mm addr;
  match v with
  | None => Some (mm, 0)
  | Some v =>
      r ← sg mm v;
      if (addr <=? sg_start r) || (addr >=? sg_end r) then Some (mm, 0)
      else
        '(mm, tail) ← mm_seg_new mm;
        match tail with
        | None => Some (mm, - ENOMEM)
        | Some tail =>
            mm ← copy_tail mm v tail addr;
            mm ← retire_seg mm v;
            '(mm, fr) ← vma_ref_aux mm tail;
            if fr <? 0 then Some (kfree mm tail, fr)
            else
              mm ← link_tail (mm_seg_index_invalidate mm) v tail addr;
              mm ← annotate_seg mm v;
              mm ← annotate_seg mm tail;
              Some (mm, 0)
        end
  end.

(** The second component is the tail, NULL when there is no memory, or the
    mapping itself when there is nothing to split. *)
Definition vma_split (mm : mm_struct_t) (vma : nat) (split : Z)
  : option (mm_struct_t * option nat) :=
  r ← sg mm vma;
  if (split <=? sg_start r) || (split >=? sg_end r) then Some (mm, Some vma)
  else
    '(mm, tail) ← mm_seg_new mm;
    match tail with
    | None => Some (mm, None)
    | Some tail =>
        mm ← copy_tail mm vma tail split;
        '(mm, fr) ← vma_ref_aux mm tail;
        if fr <? 0 then Some (kfree mm tail, None)
        else
          mm ← link_tail (mm_seg_index_invalidate mm) vma tail split;
          Some (mm, Some tail)
    end.

Definition vma_try_merge (mm : mm_struct_t) (vma : nat) : option (mm_struct_t * nat) :=
  let mm := mm_seg_index_invalidate mm in
  r ← sg mm vma;
  m ← vma_can_merge mm (sg_prev r) (Some vma);
  '(mm, vma) ←
    (if (m : bool) then prev ← sg_prev r; mm ← absorb mm prev vma; Some (mm, prev)
     else Some (mm, vma));
  r ← sg mm vma;
  m ← vma_can_merge mm (Some vma) (sg_next r);
  mm ← (if (m : bool) then next ← sg_next r; absorb mm vma next else Some mm);
  Some (mm, vma).

(** ** Protection bits (mm/pte_flags.c, mm/wx.c) *)

Section Operations.

Context {arch : MmArch}.

(** [if (flags & bit) f |= v]. *)
Definition when (flags bit f v : Z) : Z := if has flags bit then Z.lor f v else f.

Definition mm_prot_to_pte_flags (prot : Z) : Z :=
  let f := Z.lor (Z.lor (Z.lor (Z.lor PTE_V PTE_U) PTE_A) PTE_MAT1) PTE_LEAF in
  let f := when prot 1 f PTE_R in
  let f := when prot 2 f (Z.lor PTE_W PTE_D) in
  let f := when prot 4 f PTE_X in
  when f PTE_W f PTE_R.

Definition mm_pte_flags_to_prot (pte_flags : Z) : Z :=
  when pte_flags PTE_X
    (when pte_flags PTE_W (when pte_flags PTE_R 0 PROT_READ) PROT_WRITE) PROT_EXEC.

Definition mm_user_brk_pte_flags : Z := mm_prot_to_pte_flags (Z.lor 1 2).

Definition mm_pte_flags_apply_prot (old_flags prot_flags : Z) : Z :=
  let rwxd := Z.lor (Z.lor (Z.lor PTE_R PTE_W) PTE_X) PTE_D in
  let kept := Z.lor (Z.lor (Z.lor (Z.lor (Z.lor (Z.lor rwxd PTE_U) PTE_G) PTE_A) PTE_COW)
                           PTE_LEAF) PTE_MAT1 in
  let flags := Z.land old_flags kept in
  let flags := Z.ldiff flags rwxd in
  let flags := Z.lor flags (Z.land prot_flags rwxd) in
  if has prot_flags PTE_W then flags else Z.ldiff flags PTE_COW.

(** The policy of the command line and whether the task hosts a translator. *)
Inductive wx_policy := MM_WX_OFF | MM_WX_STRIP | MM_WX_DENY.

Definition mm_wx_filter_prot (policy : wx_policy) (xlator_host : bool) (prot : Z) : Z :=
  if negb (Z.land prot (Z.lor PROT_WRITE PROT_EXEC) =? Z.lor PROT_WRITE PROT_EXEC) then prot
  else if xlator_host then prot
  else
    match policy with
    | MM_WX_OFF => prot
    | MM_WX_STRIP => Z.ldiff prot PROT_WRITE
    | MM_WX_DENY => - EACCES
    end.

(** [VM_READ], [VM_WRITE] and [VM_EXEC] for a protection, on top of [vmf]. *)
Definition prot_vm_flags (prot vmf : Z) : Z :=
  when prot 4 (when prot 2 (when prot 1 vmf VM_READ) VM_WRITE) VM_EXEC.

(** ** Unmapping (mm/munmap.c) *)

(** The test of the whole range before anything changes: 0, or an error. *)
Fixpoint munmap_check (n : nat) (mm : mm_struct_t) (addr end_ : Z) (v : option nat)
  : option Z :=
  match v, n with
  | None, _ => Some 0
  | Some p, S n' =>
      r ← sg mm p;
      if sg_start r >=? end_ then Some 0
      else if sg_end r <=? addr then munmap_check n' mm addr end_ (sg_next r)
      else if has (sg_vm_flags r) VM_SYSV_SHM && ((addr >? sg_start r) || (end_ <? sg_end r))
      then Some (- EINVAL)
      else if has (sg_vm_flags r) VM_SEALED then Some (- EPERM)
      else munmap_check n' mm addr end_ (sg_next r)
  | Some _, O => None
  end.

(** The accounting for the pages of [p] that go. *)
Definition munmap_account (mm : mm_struct_t) (r : mm_seg_t) (clip_start clip_end : Z)
  : mm_struct_t :=
  let freed := (clip_end - clip_start) / PG in
  let mm := mm {{ mm_total_vm := if mm_total_vm mm >? freed then mm_total_vm mm - freed else 0 }} in
  if has (sg_vm_flags r) VM_LOCKED then
    let sz := clip_end - clip_start in
    mm {{ mm_locked_vm := if mm_locked_vm mm >=? sz then mm_locked_vm mm - sz else 0 }}
  else mm.

(** Cutting the range out of one mapping: all of it, its head, its tail, or
    the middle. *)
Definition munmap_cut (mm : mm_struct_t) (p : nat) (addr end_ clip_start clip_end : Z)
  : option (mm_struct_t * Z) :=
  r ← sg mm p;
  if (addr <=? sg_start r) && (end_ >=? sg_end r) then
    let mm := mm_mmap_seg_retire mm p clip_start clip_end in
    mm ← set_next mm (sg_prev r) (sg_next r);
    mm ← set_prev mm (sg_next r) (sg_prev r);
    mm ← mm_vma_defer mm p;
    Some (mm, 0)
  else if addr <=? sg_start r then
    let new_off := u64 (sg_backing_offset r + u64 (clip_end - sg_start r)) in
    let mm := mm_mmap_seg_retire mm p (sg_start r) clip_end in
    mm ← annotate_seg (sg_set mm p (r {{ sg_backing_offset := new_off; sg_start := clip_end }})) p;
    Some (mm, 0)
  else if end_ >=? sg_end r then
    let mm := mm_mmap_seg_retire mm p clip_start (sg_end r) in
    mm ← annotate_seg (sg_set mm p (r {{ sg_end := clip_start }})) p;
    Some (mm, 0)
  else
    '(mm, tail) ← mm_seg_new mm;
    match tail with
    | None => Some (mm, - ENOMEM)
    | Some tail =>
        mm ← copy_tail mm p tail clip_end;
        mm ← retire_seg mm p;
        '(mm, fr) ← vma_ref_aux mm tail;
        if fr <? 0 then Some (kfree mm tail, fr)
        else
          mm ← link_tail mm p tail clip_start;
          mm ← annotate_seg mm p;
          mm ← annotate_seg mm tail;
          Some (mm, 0)
    end.

Fixpoint munmap_loop (n : nat) (mm : mm_struct_t) (addr end_ : Z) (v : option nat)
  : option (mm_struct_t * Z) :=
  match v, n with
  | None, _ => Some (mm, 0)
  | Some p, S n' =>
      r ← sg mm p;
      let next := sg_next r in
      if (sg_start r >=? end_) || (sg_end r <=? addr) then munmap_loop n' mm addr end_ next
      else
        let clip_start := if sg_start r <? addr then addr else sg_start r in
        let clip_end := if sg_end r >? end_ then end_ else sg_end r in
        let '(mm, e) := page_loop mm in
        if e <? 0 then Some (mm, e)
        else
          '(mm, e) ← munmap_cut (munmap_account mm r clip_start clip_end) p
                       addr end_ clip_start clip_end;
          if e <? 0 then Some (mm, e) else munmap_loop n' mm addr end_ next
  | Some _, O => None
  end.

Definition mm_munmap_locked (mm : mm_struct_t) (addr len : Z) : option (mm_struct_t * Z) :=
  if c_true (Z.land addr (PG - 1)) then Some (mm, - EINVAL) else
  let len := page_up len in
  if len =? 0 then Some (mm, 0) else
  let end_ := u64 (addr + len) in
  if (end_ <? addr) || (end_ >? USER_VA_LIMIT) then Some (mm, - EINVAL) else
  let mm := mm_seg_index_invalidate mm in
  e ← munmap_check (fuel mm) mm addr end_ (mm_mmap mm);
  if e <? 0 then Some (mm, e)
  else
    '(mm, e) ← munmap_loop (fuel mm) mm addr end_ (mm_mmap mm);
    if e <? 0 then Some (mm, e)
    else mm ← mm_seg_index_clear mm; Some (mm, 0).

(** ** Ranges of mappings *)

(** How far the mappings from [v] on cover the range without a hole. *)
Fixpoint cover_loop (n : nat) (mm : mm_struct_t) (covered end_ : Z) (v : option nat)
  : option Z :=
  match v, n with
  | None, _ => Some covered
  | Some p, S n' =>
      if covered <? end_ then
        r ← sg mm p;
        if sg_start r >? covered then Some covered
        else cover_loop n' mm (if sg_end r >? covered then sg_end r else covered) end_ (sg_next r)
      else Some covered
  | Some _, O => None
  end.

(** Whether a mapping of the range, from [v] on, has one of the flags. *)
Fixpoint range_flag_loop (n : nat) (mm : mm_struct_t) (addr end_ bits : Z) (v : option nat)
  : option bool :=
  match v, n with
  | None, _ => Some false
  | Some p, S n' =>
      r ← sg mm p;
      if sg_start r <? end_ then
        if (sg_end r >? addr) && has (sg_vm_flags r) bits then Some true
        else range_flag_loop n' mm addr end_ bits (sg_next r)
      else Some false
  | Some _, O => None
  end.

(** ** Protection (mm/mprotect.c) *)

(** The splits in the loop: the part of [p] inside the range, or [None] when
    there is no memory. *)
Definition mprotect_split (mm : mm_struct_t) (p : nat) (s e : Z)
  : option (mm_struct_t * option nat) :=
  r ← sg mm p;
  '(mm, v) ←
    (if s >? sg_start r then
       mm ← retire_seg mm p;
       '(mm, v) ← vma_split mm p s;
       match v with
       | None => Some (mm, None)
       | Some v => mm ← annotate_seg mm p; mm ← annotate_seg mm v; Some (mm, Some v)
       end
     else Some (mm, Some p));
  match v with
  | None => Some (mm, None)
  | Some v =>
      r ← sg mm v;
      if e <? sg_end r then
        mm ← retire_seg mm v;
        '(mm, t) ← vma_split mm v e;
        match t with
        | None => Some (mm, None)
        | Some _ =>
            r ← sg mm v; next ← sg_next r;
            mm ← annotate_seg mm v; mm ← annotate_seg mm next; Some (mm, Some v)
        end
      else Some (mm, Some v)
  end.

Definition mprotect_flags (ptef vm_prot : Z) (r : mm_seg_t) : mm_seg_t :=
  r {{ sg_pte_flags := mm_pte_flags_apply_prot (sg_pte_flags r) ptef;
       sg_vm_flags := Z.lor (Z.ldiff (sg_vm_flags r) (Z.lor (Z.lor VM_READ VM_WRITE) VM_EXEC))
                            vm_prot }}.

Fixpoint mprotect_loop (n : nat) (mm : mm_struct_t) (addr end_ ptef vm_prot : Z)
    (v : option nat) : option (mm_struct_t * Z) :=
  match v, n with
  | None, _ => Some (mm, 0)
  | Some p, S n' =>
      r ← sg mm p;
      if sg_start r >=? end_ then Some (mm, 0)
      else
        let s := if sg_start r <? addr then addr else sg_start r in
        let e := if sg_end r >? end_ then end_ else sg_end r in
        '(mm, v) ← mprotect_split mm p s e;
        match v with
        | None => Some (mm, - ENOMEM)
        | Some v =>
            let '(mm, e) := page_loop mm in
            if e <? 0 then Some (mm, e)
            else
              mm ← sg_upd mm v (mprotect_flags ptef vm_prot);
              '(mm, v) ← vma_try_merge mm v;
              r ← sg mm v;
              mprotect_loop n' mm addr end_ ptef vm_prot (sg_next r)
        end
  | Some _, O => None
  end.

Definition mm_mprotect_locked (policy : wx_policy) (xlator_host : bool)
    (mm : mm_struct_t) (addr len prot : Z) : option (mm_struct_t * Z) :=
  if c_true (Z.ldiff prot PROT_KNOWN_MASK) then Some (mm, - EINVAL) else
  let prot := Z.ldiff prot PROT_HINT_MASK in
  if c_true (Z.land addr (PG - 1)) then Some (mm, - EINVAL) else
  let len := page_up len in
  if len =? 0 then Some (mm, 0) else
  let prot := mm_wx_filter_prot policy xlator_host prot in
  if prot <? 0 then Some (mm, prot) else
  let ptef := mm_prot_to_pte_flags prot in
  let vm_prot := prot_vm_flags prot 0 in
  let end_ := u64 (addr + len) in
  if (end_ <? addr) || (end_ >? USER_VA_LIMIT) then Some (mm, - ENOMEM) else
  let mm := mm_seg_index_invalidate mm in
  '(mm, v) ← mm_seg_find mm addr;
  covered ← cover_loop (fuel mm) mm addr end_ v;
  if covered <? end_ then Some (mm, - ENOMEM) else
  '(mm, v) ← mm_seg_find mm addr;
  sealed ← range_flag_loop (fuel mm) mm addr end_ VM_SEALED v;
  if (sealed : bool) then Some (mm, - EPERM) else
  '(mm, r) ← mm_split_vma_at mm addr;
  if r <? 0 then Some (mm, r) else
  '(mm, r) ← mm_split_vma_at mm end_;
  if r <? 0 then Some (mm, r) else
  '(mm, v) ← mm_seg_find mm addr;
  mprotect_loop (fuel mm) mm addr end_ ptef vm_prot v.

(** ** Sealing (mm/mseal.c) *)

Definition mm_range_has_sealed_locked (mm : mm_struct_t) (addr len : Z) : option bool :=
  range_flag_loop (fuel mm) mm addr (u64 (addr + len)) VM_SEALED (mm_mmap mm).

Fixpoint seal_loop (n : nat) (mm : mm_struct_t) (addr end_ : Z) (v : option nat)
  : option mm_struct_t :=
  match v, n with
  | None, _ => Some mm
  | Some p, S n' =>
      r ← sg mm p;
      if sg_start r <? end_ then
        if (sg_start r >=? end_) || (sg_end r <=? addr) then seal_loop n' mm addr end_ (sg_next r)
        else
          let mm := sg_set mm p (r {{ sg_vm_flags := Z.lor (sg_vm_flags r) VM_SEALED }}) in
          let a := if sg_start r >? addr then sg_start r else addr in
          let b := if sg_end r <? end_ then sg_end r else end_ in
          let mm := log mm (SetSafeRange (Z.ldiff a (PG - 1))
                                         (Z.ldiff (u64 (b + PG - 1)) (PG - 1))) in
          seal_loop n' mm addr end_ (sg_next r)
      else Some mm
  | Some _, O => None
  end.

Definition mm_mseal_locked (mm : mm_struct_t) (addr len : Z) : option (mm_struct_t * Z) :=
  if c_true (Z.land addr (PG - 1)) then Some (mm, - EINVAL) else
  if len =? 0 then Some (mm, 0) else
  let len := page_up len in
  let end_ := u64 (addr + len) in
  if (end_ <? addr) || (end_ >? USER_VA_LIMIT) then Some (mm, - ENOMEM) else
  '(mm, v) ← mm_seg_find mm addr;
  covered ← cover_loop (fuel mm) mm addr end_ v;
  if covered <? end_ then Some (mm, - ENOMEM) else
  '(mm, v) ← mm_seg_find mm addr;
  special ← range_flag_loop (fuel mm) mm addr end_
              (Z.lor (Z.lor VM_SYSV_SHM VM_PFNMAP) VM_VMO) v;
  if (special : bool) then Some (mm, - EPERM) else
  '(mm, r) ← mm_split_vma_at mm addr;
  if r <? 0 then Some (mm, - ENOMEM) else
  '(mm, r) ← mm_split_vma_at mm end_;
  if r <? 0 then Some (mm, - ENOMEM) else
  '(mm, v) ← mm_seg_find mm addr;
  mm ← seal_loop (fuel mm) mm addr end_ v;
  Some (mm, 0).

(** ** Mapping (mm/mmap.c) *)

(** A hint for an anonymous or a file mapping: dropped (0) when the range does
    not fit or is not free. *)
Definition hint_range (mm : mm_struct_t) (addr len : Z) : option (mm_struct_t * Z) :=
  let end_ := u64 (addr + len) in
  if (end_ <? addr) || (end_ >? USER_VA_LIMIT) then Some (mm, 0)
  else
    o ← mm_range_overlaps mm addr len None;
    Some (mm, if (o : bool) then 0 else addr).

(** A hint for a VMO mapping: dropped when [addr] itself is mapped. *)
Definition hint_vmo (mm : mm_struct_t) (addr len : Z) : option (mm_struct_t * Z) :=
  '(mm, existing) ← mm_seg_find mm addr;
  match existing with
  | None => Some (mm, addr)
  | Some p =>
      r ← sg mm p;
      Some (mm, if (sg_start r <? u64 (addr + len)) && (sg_end r >? addr) then 0 else addr)
  end.

(** The address of a new mapping, or a negative error. *)
Definition mmap_place (hint : mm_struct_t -> Z -> Z -> option (mm_struct_t * Z))
    (mm : mm_struct_t) (addr len flags : Z) : option (mm_struct_t * Z) :=
  let noreplace := has flags MAP_FIXED_NOREPLACE && c_true addr in
  o ← (if noreplace then mm_range_overlaps mm addr len None else Some false);
  if (o : bool) then Some (mm, - EEXIST) else
  let flags := if noreplace then Z.lor flags MAP_FIXED else flags in
  '(mm, addr, e) ←
    (if has flags MAP_FIXED && c_true addr then
       '(mm, mr) ← mm_munmap_locked mm addr len;
       Some (mm, addr, if mr <? 0 then mr else 0)
     else if c_true addr then '(mm, addr) ← hint mm addr len; Some (mm, addr, 0)
     else Some (mm, addr, 0));
  if e <? 0 then Some (mm, e) else
  addr ← (if addr =? 0
          then mm_find_gap mm (if c_true (mm_mmap_base mm) then mm_mmap_base mm
                               else MMAP_BASE_ADDR) len
          else Some addr);
  if (addr =? 0) || (u64 (addr + len) <? addr) || (u64 (addr + len) >? USER_VA_LIMIT)
  then Some (mm, - ENOMEM) else Some (mm, addr).

(** The test of the locked-memory limit of a task for [len] more bytes. *)
Definition memlock_refuses (memlock : Z) (cap_sys_admin : bool) (mm : mm_struct_t) (len : Z)
  : bool :=
  (u64 (mm_locked_vm mm + len) >? memlock) && negb cap_sys_admin.

(** The length tests common to the three: an error, or the rounded length. *)
Definition mmap_len (addr len flags : Z) : Z :=
  if has flags (Z.lor MAP_FIXED MAP_FIXED_NOREPLACE) && c_true (Z.land addr (PG - 1))
  then - EINVAL
  else
    let len := page_up len in
    if len =? 0 then - EINVAL else if len >? USER_VA_LIMIT then - ENOMEM else len.

Definition mm_mmap_locked (policy : wx_policy) (xlator_host : bool) (memlock : Z)
    (cap_sys_admin : bool) (mm : mm_struct_t) (addr len prot flags : Z)
  : option (mm_struct_t * Z) :=
  let len := mmap_len addr len flags in
  if len <? 0 then Some (mm, u64 len) else
  let prot := mm_wx_filter_prot policy xlator_host prot in
  if prot <? 0 then Some (mm, u64 prot) else
  let ptef := mm_prot_to_pte_flags prot in
  let vmf := when flags MAP_HUGETLB
               (when flags MAP_SHARED (prot_vm_flags prot VM_ANON) VM_SHARED) VM_HUGEPAGE in
  '(mm, addr) ← mmap_place hint_range mm addr len flags;
  if addr <? 0 then Some (mm, u64 addr) else
  '(mm, vma) ← mm_seg_new mm;
  match vma with
  | None => Some (mm, u64 (- ENOMEM))
  | Some vma =>
      mm ← sg_upd mm vma (fun r =>
             r {{ sg_start := addr; sg_end := addr + len; sg_vm_flags := vmf;
                  sg_pte_flags := ptef; sg_vmar_cap := u32 (mm_pte_flags_to_prot ptef);
                  sg_file := None }});
      if has (mm_def_flags mm) VM_LOCKED && memlock_refuses memlock cap_sys_admin mm len
      then Some (kfree mm vma, u64 (- ENOMEM))
      else
        mm ← (if has (mm_def_flags mm) VM_LOCKED then
                mm ← sg_upd mm vma (fun r => r {{ sg_vm_flags := Z.lor (sg_vm_flags r) VM_LOCKED }});
                Some (mm {{ mm_locked_vm := u64 (mm_locked_vm mm + len) }})
              else Some mm);
        mm ← mm_insert_vma mm vma;
        Some (mm {{ mm_total_vm := u64 (mm_total_vm mm + len / PG) }}, addr)
  end.

(** [vnode] is [file->vnode]. *)
Definition mm_mmap_file_locked (policy : wx_policy) (xlator_host : bool) (memlock : Z)
    (cap_sys_admin : bool) (mm : mm_struct_t) (addr len prot flags file : Z)
    (vnode : option Z) (file_offset : Z) : option (mm_struct_t * Z) :=
  if c_true (Z.land file_offset (PG - 1)) then Some (mm, u64 (- EINVAL)) else
  let len := mmap_len addr len flags in
  if len <? 0 then Some (mm, u64 len) else
  let prot := mm_wx_filter_prot policy xlator_host prot in
  if prot <? 0 then Some (mm, u64 prot) else
  '(mm, addr) ← mmap_place hint_range mm addr len flags;
  if addr <? 0 then Some (mm, u64 addr) else
  let vmf := when flags MAP_HUGETLB
               (when flags MAP_SHARED (prot_vm_flags prot VM_FILE) VM_SHARED) VM_HUGEPAGE in
  '(mm, vma) ← mm_seg_new mm;
  match vma with
  | None => Some (mm, u64 (- ENOMEM))
  | Some vma =>
      mm ← sg_upd mm vma (fun r =>
             r {{ sg_start := addr; sg_end := addr + len; sg_vm_flags := vmf;
                  sg_pte_flags := mm_prot_to_pte_flags prot; sg_vmar_cap := u32 prot;
                  sg_file := Some file; sg_backing_offset := file_offset;
                  sg_file_vnode := vnode }});
      let mm := match vnode with Some v => log mm (VnodeGet v) | None => mm end in
      if has (mm_def_flags mm) VM_LOCKED && memlock_refuses memlock cap_sys_admin mm len
      then
        let mm := match vnode with Some v => log mm (VnodePut v) | None => mm end in
        Some (kfree mm vma, u64 (- ENOMEM))
      else
        mm ← (if has (mm_def_flags mm) VM_LOCKED then
                mm ← sg_upd mm vma (fun r => r {{ sg_vm_flags := Z.lor (sg_vm_flags r) VM_LOCKED }});
                Some (mm {{ mm_locked_vm := u64 (mm_locked_vm mm + len) }})
              else Some mm);
        let mm :=
          match vnode with
          | Some v => if has vmf VM_SHARED then log mm (SharedMapInc v) else mm
          | None => mm
          end in
        mm ← mm_insert_vma mm vma;
        Some (mm {{ mm_total_vm := u64 (mm_total_vm mm + len / PG) }}, addr)
  end.

(** [vmo_size] is [vmo->size]. *)
Definition mm_mmap_vmo_locked (policy : wx_policy) (xlator_host : bool)
    (mm : mm_struct_t) (addr len prot flags vmo vmo_size vmo_offset : Z)
  : option (mm_struct_t * Z) :=
  let len := mmap_len addr len flags in
  if len <? 0 then Some (mm, u64 len) else
  if (vmo_offset >=? vmo_size) || (len >? vmo_size - vmo_offset)
  then Some (mm, u64 (- EINVAL)) else
  if c_true (Z.land vmo_offset (PG - 1)) then Some (mm, u64 (- EINVAL)) else
  let prot := mm_wx_filter_prot policy xlator_host prot in
  if prot <? 0 then Some (mm, u64 prot) else
  '(mm, addr) ← mmap_place hint_vmo mm addr len flags;
  if addr <? 0 then Some (mm, u64 addr) else
  let vmf := when flags MAP_SHARED (prot_vm_flags prot VM_VMO) VM_SHARED in
  '(mm, vma) ← mm_seg_new mm;
  match vma with
  | None => Some (mm, u64 (- ENOMEM))
  | Some vma =>
      mm ← sg_upd mm vma (fun r =>
             r {{ sg_start := addr; sg_end := addr + len; sg_vm_flags := vmf;
                  sg_pte_flags := mm_prot_to_pte_flags prot; sg_vmar_cap := u32 prot;
                  sg_file := None; sg_vmo := Some vmo; sg_backing_offset := vmo_offset }});
      mm ← mm_insert_vma (log mm (VmoRef vmo)) vma;
      Some (mm {{ mm_total_vm := u64 (mm_total_vm mm + len / PG) }}, addr)
  end.

(** ** The break (mm/munmap.c) *)

Definition mm_brk_locked (mm : mm_struct_t) (newbrk : Z) : option (mm_struct_t * Z) :=
  if newbrk =? 0 then Some (mm, mm_brk mm) else
  if (newbrk <? mm_start_brk mm) || (newbrk >? USER_VA_LIMIT) then Some (mm, mm_brk mm) else
  let old_page := page_up (mm_brk mm) in
  let new_page := page_up newbrk in
  if new_page <? newbrk then Some (mm, mm_brk mm) else
  o ← (if (newbrk >? mm_brk mm) && (new_page >? old_page)
       then mm_range_overlaps mm old_page (new_page - old_page) None else Some false);
  if (o : bool) then Some (mm, mm_brk mm) else
  sealed ← (if newbrk <? mm_brk mm
            then range_flag_loop (fuel mm) mm new_page old_page VM_SEALED (mm_mmap mm)
            else Some false);
  if (sealed : bool) then Some (mm, mm_brk mm) else
  let '(mm, e) := if newbrk <? mm_brk mm then page_loop mm else (mm, 0) in
  if e <? 0 then Some (mm, mm_brk mm) else
  if (newbrk >? mm_brk mm) && (new_page >? old_page) then
    '(mm, vma) ← mm_seg_new mm;
    match vma with
    | None => Some (mm, mm_brk mm)
    | Some vma =>
        mm ← sg_upd mm vma (fun r =>
               r {{ sg_start := old_page; sg_end := new_page;
                    sg_vm_flags := Z.lor (Z.lor VM_ANON VM_READ) VM_WRITE;
                    sg_pte_flags := mm_user_brk_pte_flags }});
        mm ← mm_insert_vma mm vma;
        let mm := mm {{ mm_total_vm := u64 (mm_total_vm mm + (new_page - old_page) / PG) }} in
        Some (mm {{ mm_brk := newbrk }}, newbrk)
    end
  else Some (mm {{ mm_brk := newbrk }}, newbrk).

End Operations.
