(* ===== verification/AddrTheory.v ===== *)
(** * Address spaces: the list of mappings, the references, the lookup

    The linked list as a list of records, the invariant [good] with every
    reference accounted for, and what the operations on references, the index
    and the lookup do. *)

From stdpp Require Import gmap.
From S2P Require Import Prelude AddrSpace.

(** ** What a record maps *)

(** The fields of a record that describe its mapping. *)
Record seg_core := mk_core {
  c_start : Z; c_end : Z; c_off : Z; c_flags : Z; c_pte : Z; c_cap : Z; c_shmid : Z;
  c_file : option Z; c_vnode : option Z; c_vmo : option Z;
}.

Definition core (r : mm_seg_t) : seg_core :=
  mk_core (sg_start r) (sg_end r) (sg_backing_offset r) (sg_vm_flags r) (sg_pte_flags r)
    (sg_vmar_cap r) (sg_sysv_shmid r) (sg_file r) (sg_file_vnode r) (sg_vmo r).

(** ** The list *)

Abbreviation store := (gmap nat mm_seg_t).

(** [l] is the part of the list from [cur] up to [nxt], entered from [prev];
    [lst] is its last record. *)
Fixpoint dseg (h : store) (prev cur : option nat) (l : list (nat * seg_core))
    (lst nxt : option nat) : Prop :=
  match l with
  | [] => lst = prev /\ nxt = cur
  | (p, c) :: l' =>
      cur = Some p /\
      exists r, h !! p = Some r /\ core r = c /\ sg_prev r = prev /\
        dseg h (Some p) (sg_next r) l' lst nxt
  end.

(** The whole list of an address space. *)
Definition seglist (h : store) (head : option nat) (l : list (nat * seg_core)) : Prop :=
  exists lst, dseg h None head l lst None.

Lemma dseg_app h prev cur l1 l2 lst nxt :
  dseg h prev cur (l1 ++ l2) lst nxt <->
  exists m n, dseg h prev cur l1 m n /\ dseg h m n l2 lst nxt.
Proof.
  revert prev cur. induction l1 as [|[p c] l1 IH]; intros prev cur; cbn [app dseg].
  - split; [intros H; by exists prev, cur|]. by intros (m & n & [-> ->] & H).
  - split.
    + intros (-> & r & Hr & Hc & Hp & H). apply IH in H as (m & n & H1 & H2).
      exists m, n. split; [|done]. split; [done|]. by exists r.
    + intros (m & n & (-> & r & Hr & Hc & Hp & H1) & H2).
      split; [done|]. exists r. repeat split; try done. apply IH. by exists m, n.
Qed.

(** A cell outside the part is no concern of it. *)
Lemma dseg_frame h p r prev cur l lst nxt : p ∉ l.*1 ->
  dseg (<[p := r]> h) prev cur l lst nxt <-> dseg h prev cur l lst nxt.
Proof.
  revert prev cur. induction l as [|[q c] l IH]; intros prev cur Hp; cbn [dseg]; [done|].
  rewrite fmap_cons, list.not_elem_of_cons in Hp. destruct Hp as [Hq Hp]. cbn in Hq.
  split; intros (-> & s & Hs & Hc & Hv & H); (split; [done|]); exists s;
    rewrite lookup_insert_ne in * by done; repeat split; try done; by apply (IH (Some q) _ Hp).
Qed.

Lemma dseg_delete h p prev cur l lst nxt : p ∉ l.*1 ->
  dseg (delete p h) prev cur l lst nxt <-> dseg h prev cur l lst nxt.
Proof.
  revert prev cur. induction l as [|[q c] l IH]; intros prev cur Hp; cbn [dseg]; [done|].
  rewrite fmap_cons, list.not_elem_of_cons in Hp. destruct Hp as [Hq Hp]. cbn in Hq.
  split; intros (-> & s & Hs & Hc & Hv & H); (split; [done|]); exists s;
    rewrite lookup_delete_ne in * by done; repeat split; try done; by apply (IH (Some q) _ Hp).
Qed.

(** Changing a cell without its mapping and its links changes nothing. *)
Lemma dseg_same h p r r' prev cur l lst nxt : h !! p = Some r -> core r' = core r ->
  sg_prev r' = sg_prev r -> sg_next r' = sg_next r ->
  dseg h prev cur l lst nxt -> dseg (<[p := r']> h) prev cur l lst nxt.
Proof.
  intros Hr Hc Hp Hn. revert prev cur.
  induction l as [|[q c] l IH]; intros prev cur; cbn [dseg]; [done|].
  intros (-> & s & Hs & Hcs & Hv & H). split; [done|].
  destruct (decide (p = q)) as [->|].
  - exists r'. rewrite Hr in Hs. injection Hs as <-. rewrite lookup_insert_eq.
    repeat split; try congruence. rewrite Hn. by apply IH.
  - exists s. rewrite lookup_insert_ne by done. repeat split; try done. by apply IH.
Qed.

Lemma dseg_lookup h prev cur l lst nxt p c : dseg h prev cur l lst nxt -> (p, c) ∈ l ->
  exists r, h !! p = Some r /\ core r = c.
Proof.
  revert prev cur. induction l as [|[q d] l IH]; intros prev cur; [intros _ H; by inversion H|].
  intros (-> & s & Hs & Hcs & _ & H) [E|E]%list.elem_of_cons.
  - injection E as -> ->. eauto.
  - by apply (IH _ _ H).
Qed.

(** Every pointer of the part is a cell of the store. *)
Lemma dseg_dom h prev cur l lst nxt p : dseg h prev cur l lst nxt -> p ∈ l.*1 ->
  is_Some (h !! p).
Proof.
  intros H ([q c] & -> & Hin)%list_elem_of_fmap. 
  destruct (dseg_lookup _ _ _ _ _ _ _ _ H Hin) as (r & Hr & _). by exists r.
Qed.

(** ** Order *)

(** Ascending, non-empty and disjoint, from [lo] on. *)
Fixpoint ordered (lo : Z) (l : list (nat * seg_core)) : Prop :=
  match l with
  | [] => True
  | (_, c) :: l' => lo <= c_start c /\ c_start c < c_end c /\ ordered (c_end c) l'
  end.

Lemma ordered_weaken lo lo' l : lo' <= lo -> ordered lo l -> ordered lo' l.
Proof. destruct l as [|[p c] l]; cbn; [done|]. intros ? (? & ? & ?). repeat split; lia || done. Qed.

(** Where the last record ends. *)
Fixpoint upper (lo : Z) (l : list (nat * seg_core)) : Z :=
  match l with [] => lo | (_, c) :: l' => upper (c_end c) l' end.

Lemma ordered_app lo l1 l2 :
  ordered lo (l1 ++ l2) <-> ordered lo l1 /\ ordered (upper lo l1) l2.
Proof.
  revert lo. induction l1 as [|[p c] l1 IH]; intros lo; cbn [app ordered upper]; [tauto|].
  rewrite IH. tauto.
Qed.

Lemma upper_app lo l1 l2 : upper lo (l1 ++ l2) = upper (upper lo l1) l2.
Proof. revert lo. by induction l1 as [|[p c] l1 IH]; intros lo; cbn; [|apply IH]. Qed.

Lemma upper_ge lo l : ordered lo l -> lo <= upper lo l.
Proof.
  revert lo. induction l as [|[p c] l IH]; intros lo; cbn; [lia|].
  intros (? & ? & H%IH). lia.
Qed.

Lemma ordered_lower lo l p c : ordered lo l -> (p, c) ∈ l -> lo <= c_start c /\ c_start c < c_end c.
Proof.
  revert lo. induction l as [|[q d] l IH]; intros lo; [intros _ H; by inversion H|].
  intros (H1 & H2 & H3) [E|E]%list.elem_of_cons; [injection E as -> ->; lia|].
  destruct (IH _ H3 E). lia.
Qed.

Lemma ordered_upper lo l p c : ordered lo l -> (p, c) ∈ l -> c_end c <= upper lo l.
Proof.
  revert lo. induction l as [|[q d] l IH]; intros lo; [intros _ H; by inversion H|].
  intros (H1 & H2 & H3) [E|E]%list.elem_of_cons; cbn [upper].
  - injection E as -> ->. by apply upper_ge.
  - by apply (IH _ H3).
Qed.

(** An ordered list of a store has no record twice. *)
Lemma seglist_NoDup h prev cur lo l lst nxt :
  dseg h prev cur l lst nxt -> ordered lo l -> NoDup l.*1.
Proof.
  revert prev cur lo. induction l as [|[p c] l IH]; intros prev cur lo; cbn [dseg ordered fmap].
  { intros. constructor. }
  intros (-> & r & Hr & Hc & _ & H) (H1 & H2 & H3). apply list.NoDup_cons. split.
  - intros ([q d] & Hq & Hin)%list_elem_of_fmap. cbn in Hq. subst q.
    destruct (dseg_lookup _ _ _ _ _ _ _ _ H Hin) as (r' & Hr' & Hd).
    rewrite Hr in Hr'. injection Hr' as <-. subst d c.
    destruct (ordered_lower _ _ _ _ H3 Hin). lia.
  - by apply (IH _ _ _ H H3).
Qed.

(** ** Cells of the store *)

Lemma sg_eq mm p r : sg (sg_set mm p r) p = Some r.
Proof. apply lookup_insert_eq. Qed.

Lemma sg_ne mm p q r : p <> q -> sg (sg_set mm p r) q = sg mm q.
Proof. apply lookup_insert_ne. Qed.

Lemma sg_set_set mm p r r' : sg_set (sg_set mm p r) p r' = sg_set mm p r'.
Proof.
  destruct mm. unfold sg_set. cbn. by rewrite insert_insert_eq.
Qed.

Lemma sg_upd_eq mm p r f : sg mm p = Some r -> sg_upd mm p f = Some (sg_set mm p (f r)).
Proof. intros H. unfold sg_upd. by rewrite H. Qed.

(** ** References *)

(** Whether [p] is in the list, as a number. *)
Definition cnt (p : nat) (l : list nat) : Z := if decide (p ∈ l) then 1 else 0.

Lemma cnt_in p l : p ∈ l -> cnt p l = 1.
Proof. intros. unfold cnt. by rewrite decide_True. Qed.

Lemma cnt_out p l : p ∉ l -> cnt p l = 0.
Proof. intros. unfold cnt. by rewrite decide_False. Qed.

Lemma cnt_range p l : 0 <= cnt p l <= 1.
Proof. unfold cnt. destruct (decide _); lia. Qed.

Lemma cnt_cons p q l : q ∉ l -> cnt p (q :: l) = (if decide (p = q) then 1 else 0) + cnt p l.
Proof.
  intros. unfold cnt. destruct (decide (p = q)) as [->|].
  - rewrite decide_True by (by left). by rewrite decide_False.
  - destruct (decide (p ∈ l)); [rewrite decide_True by (by right)|rewrite decide_False]; try lia.
    intros [|]%list.elem_of_cons; done.
Qed.

Lemma cnt_perm p l l' : l ≡ₚ l' -> cnt p l = cnt p l'.
Proof.
  intros E. unfold cnt. destruct (decide (p ∈ l)) as [H|H];
    [rewrite decide_True|rewrite decide_False]; rewrite <- ?E; done.
Qed.

(** One more holder of [p]. *)
Definition add1 (X : nat -> Z) (p q : nat) : Z := if decide (q = p) then X q + 1 else X q.

(** The release queue. *)
Fixpoint dchain (h : store) (d : option nat) (dq : list nat) : Prop :=
  match dq with
  | [] => d = None
  | p :: dq' => d = Some p /\ exists r, h !! p = Some r /\ dchain h (sg_deferred_next r) dq'
  end.

(** The references to [p]: the address-space list's, the index's, the release
    queue's, and those of others ([X]: page-table entries, cursors). *)
Definition holders (X : nat -> Z) (l : list (nat * seg_core)) (ix dq : list nat) (p : nat) : Z :=
  cnt p l.*1 + cnt p ix + cnt p dq + X p.

Definition refs_ok (h : store) (H : nat -> Z) : Prop :=
  forall p, match h !! p with
            | Some r => sg_refcount r = H p /\ 0 < H p /\ sg_released r = false
            | None => H p = 0
            end.

(** Every record's count is the number of its holders, records without holders
    are freed, a queued record has no other holder. *)
Record base (X : nat -> Z) (l : list (nat * seg_core)) (ix dq : list nat) (mm : mm_struct_t)
  : Prop := {
  b_list : seglist (mm_segs mm) (mm_mmap mm) l;
  b_nodup : NoDup l.*1;
  b_ix : NoDup ix;
  b_dq : NoDup dq;
  b_chain : dchain (mm_segs mm) (mm_deferred_vma mm) dq;
  b_refs : refs_ok (mm_segs mm) (holders X l ix dq);
  b_ext : forall p, 0 <= X p <= 2147483000;
  b_only : forall p, (p ∈ dq) -> (p ∉ l.*1) /\ (p ∉ ix) /\ X p = 0;
}.

(** The stores agree on mappings and links. *)
Definition same_map (h h' : store) : Prop :=
  forall p, match h !! p, h' !! p with
            | Some r, Some r' => core r' = core r /\ sg_prev r' = sg_prev r /\ sg_next r' = sg_next r
            | None, None => True
            | _, _ => False
            end.

Lemma same_map_refl h : same_map h h.
Proof. intros p. by destruct (h !! p). Qed.

Lemma same_map_trans h h' h'' : same_map h h' -> same_map h' h'' -> same_map h h''.
Proof.
  intros H H' p. specialize (H p). specialize (H' p).
  destruct (h !! p), (h' !! p), (h'' !! p); try done.
  destruct H as (? & ? & ?), H' as (? & ? & ?). repeat split; congruence.
Qed.

Lemma same_map_set h p r r' : h !! p = Some r -> core r' = core r ->
  sg_prev r' = sg_prev r -> sg_next r' = sg_next r -> same_map h (<[p := r']> h).
Proof.
  intros Hr Hc Hp Hn q. destruct (decide (p = q)) as [<-|].
  - by rewrite Hr, lookup_insert_eq.
  - rewrite lookup_insert_ne by done. by destruct (h !! q).
Qed.

Lemma dseg_same_map h h' prev cur l lst nxt : same_map h h' ->
  dseg h prev cur l lst nxt -> dseg h' prev cur l lst nxt.
Proof.
  intros S. revert prev cur. induction l as [|[q c] l IH]; intros prev cur; cbn [dseg]; [done|].
  intros (-> & s & Hs & Hcs & Hv & H). split; [done|]. specialize (S q). rewrite Hs in S.
  destruct (h' !! q) as [s'|]; [|done]. destruct S as (S1 & S2 & S3).
  exists s'. repeat split; try congruence. rewrite S3. by apply IH.
Qed.

Lemma dchain_frame h p r d dq : p ∉ dq -> dchain (<[p := r]> h) d dq <-> dchain h d dq.
Proof.
  revert d. induction dq as [|q dq IH]; intros d Hp; cbn [dchain]; [done|].
  rewrite list.not_elem_of_cons in Hp. destruct Hp as [Hq Hp].
  split; intros (-> & s & Hs & H); (split; [done|]); exists s;
    rewrite lookup_insert_ne in * by done; (split; [done|]); by apply (IH _ Hp).
Qed.

(** A change of a record that keeps its place in the queue keeps the queue. *)
Lemma dchain_same h p r r' d dq : h !! p = Some r -> sg_deferred_next r' = sg_deferred_next r ->
  dchain h d dq -> dchain (<[p := r']> h) d dq.
Proof.
  intros Hr Hd. revert d. induction dq as [|q dq IH]; intros d; cbn [dchain]; [done|].
  intros (-> & s & Hs & H). split; [done|]. destruct (decide (p = q)) as [->|].
  - exists r'. rewrite Hr in Hs. injection Hs as <-. rewrite lookup_insert_eq. split; [done|].
    rewrite Hd. by apply IH.
  - exists s. rewrite lookup_insert_ne by done. split; [done|]. by apply IH.
Qed.

Lemma base_X X X' l ix dq mm : (forall p, X' p = X p) -> base X l ix dq mm -> base X' l ix dq mm.
Proof.
  intros E [? ? ? ? ? R B O]. split; try done.
  - intros p. specialize (R p). unfold holders in *. rewrite E. done.
  - intros p. rewrite E. apply B.
  - intros p Hp. rewrite E. by apply O.
Qed.

Lemma base_alive X l ix dq mm p : base X l ix dq mm -> 0 < holders X l ix dq p ->
  exists r, sg mm p = Some r /\ sg_refcount r = holders X l ix dq p /\ sg_released r = false.
Proof.
  intros B H. pose proof (b_refs _ _ _ _ _ B p) as R. unfold sg.
  destruct (mm_segs mm !! p) as [r|]; [|lia]. exists r. tauto.
Qed.

(** Fields outside the store, the list and the queue do not matter to [base]. *)
Lemma base_fields X l ix dq mm mm' : mm_segs mm' = mm_segs mm -> mm_mmap mm' = mm_mmap mm ->
  mm_deferred_vma mm' = mm_deferred_vma mm -> base X l ix dq mm -> base X l ix dq mm'.
Proof.
  intros E1 E2 E3 [? ? ? ? ? ? ? ?]. split; rewrite ?E1, ?E2, ?E3; done.
Qed.

Lemma add1_eq X p : add1 X p p = X p + 1.
Proof. unfold add1. by rewrite decide_True. Qed.

Lemma add1_ne X p q : q <> p -> add1 X p q = X q.
Proof. intros. unfold add1. by rewrite decide_False. Qed.

Lemma holders_add1 X l ix dq p q :
  holders (add1 X p) l ix dq q = holders X l ix dq q + if decide (q = p) then 1 else 0.
Proof. unfold holders, add1. destruct (decide (q = p)); lia. Qed.

Lemma holders_bound X l ix dq mm p : base X l ix dq mm -> 0 <= holders X l ix dq p <= 2147483003.
Proof.
  intros B. pose proof (b_ext _ _ _ _ _ B p). unfold holders.
  pose proof (cnt_range p l.*1). pose proof (cnt_range p ix). pose proof (cnt_range p dq). lia.
Qed.

(** Taking a reference. *)
Lemma get_spec X l ix dq mm p : base X l ix dq mm -> 0 < holders X l ix dq p ->
  (p ∉ dq) -> X p < 2147483000 ->
  exists h', mm_seg_get mm p = Some (mm {{ mm_segs := h' }}) /\ same_map (mm_segs mm) h' /\
    base (add1 X p) l ix dq (mm {{ mm_segs := h' }}).
Proof.
  intros B Hp Hq Hx. destruct (base_alive _ _ _ _ _ _ B Hp) as (r & Hr & Hc & Hl).
  pose proof (holders_bound _ _ _ _ _ p B). unfold mm_seg_get, sg_upd. rewrite Hr.
  cbn [mbind option_bind]. rewrite s32_small by lia.
  eexists. split; [reflexivity|]. split; [by apply (same_map_set _ _ r)|].
  destruct B as [B1 B2 B3 B4 B5 B6 B7 B8]. split; cbn; try done.
  - destruct B1 as [lst B1]. exists lst. by apply (dseg_same _ _ r).
  - by apply dchain_frame.
  - intros q. specialize (B6 q). rewrite holders_add1. destruct (decide (q = p)) as [->|].
    + rewrite lookup_insert_eq. cbn. lia || (repeat split; lia || done).
    + rewrite lookup_insert_ne by done. by rewrite Z.add_0_r.
  - intros q. specialize (B7 q). unfold add1. destruct (decide (q = p)) as [->|]; lia.
  - intros q Hin. rewrite add1_ne by (intros ->; done). by apply B8.
Qed.

(** Dropping one: the last holder queues the record instead. *)
Lemma put_spec X l ix dq mm p : base (add1 X p) l ix dq mm -> 0 <= X p ->
  exists h' d' dq', let mm' := mm {{ mm_segs := h'; mm_deferred_vma := d' }} in
    vma_put mm (Some p) = Some mm' /\ same_map (mm_segs mm) h' /\ base X l ix dq' mm' /\
    (dq' = dq \/ dq' = p :: dq).
Proof.
  intros B Hx.
  assert (Hh : holders (add1 X p) l ix dq p = holders X l ix dq p + 1)
    by (rewrite holders_add1, decide_True; done).
  assert (Hd : p ∉ dq).
  { intros Hin. destruct (b_only _ _ _ _ _ B p Hin) as (_ & _ & H). rewrite add1_eq in H. lia. }
  assert (H0 : 0 <= holders X l ix dq p).
  { unfold holders. pose proof (cnt_range p l.*1). pose proof (cnt_range p ix).
    pose proof (cnt_range p dq). lia. }
  destruct (base_alive _ _ _ _ _ p B) as (r & Hr & Hc & Hl); [lia|].
  pose proof (holders_bound _ _ _ _ _ p B).
  unfold vma_put, seg_dec_and_test. rewrite Hr. cbn [mbind option_bind].
  rewrite Hc, Hh, s32_small by lia. replace (holders X l ix dq p + 1 - 1) with (holders X l ix dq p) by lia.
  destruct B as [B1 B2 B3 B4 B5 B6 B7 B8].
  assert (BX : forall q, 0 <= X q <= 2147483000).
  { intros q. specialize (B7 q). unfold add1 in B7. destruct (decide (q = p)) as [->|]; lia. }
  destruct (Z.eqb_spec (holders X l ix dq p) 0) as [Hz|Hz].
  - unfold mm_seg_get. rewrite (sg_upd_eq _ p _ _ (sg_eq _ p _)), sg_set_set. cbn [mbind option_bind].
    rewrite (sg_upd_eq _ p _ _ (sg_eq _ p _)), sg_set_set. cbn [mbind option_bind].
    exists (<[p := r {{ sg_refcount := 1; sg_deferred_next := mm_deferred_vma mm }}]> (mm_segs mm)),
      (Some p), (p :: dq).
    split; [cbn; rewrite Hz; done|]. split; [by apply (same_map_set _ _ r)|]. split; [|by right].
    split; cbn; try done.
    + destruct B1 as [lst B1]. exists lst. by apply (dseg_same _ _ r).
    + by apply list.NoDup_cons.
    + split; [done|]. eexists. rewrite lookup_insert_eq. split; [done|]. by apply dchain_frame.
    + intros q. specialize (B6 q). rewrite holders_add1 in B6. unfold holders in *.
      rewrite cnt_cons by done. destruct (decide (q = p)) as [->|].
      * rewrite lookup_insert_eq. cbn. repeat split; lia || done.
      * rewrite lookup_insert_ne by done. destruct (mm_segs mm !! q); [|lia].
        destruct B6 as (? & ? & ?). repeat split; lia || done.
    + intros q [->|Hin]%list.elem_of_cons.
      * unfold holders in Hz. pose proof (cnt_range p l.*1). pose proof (cnt_range p ix).
        pose proof (cnt_range p dq).
        split; [intros ?%cnt_in; lia|]. split; [intros ?%cnt_in; lia|lia].
      * destruct (B8 q Hin) as (? & ? & Hxq). repeat split; try done.
        rewrite add1_ne in Hxq; [done|]. by intros ->.
  - exists (<[p := r {{ sg_refcount := holders X l ix dq p }}]> (mm_segs mm)), (mm_deferred_vma mm), dq.
    split; [by destruct mm|]. split; [by apply (same_map_set _ _ r)|]. split; [|by left].
    split; cbn; try done.
    + destruct B1 as [lst B1]. exists lst. by apply (dseg_same _ _ r).
    + by apply dchain_frame.
    + intros q. specialize (B6 q). rewrite holders_add1 in B6. destruct (decide (q = p)) as [->|].
      * rewrite lookup_insert_eq. cbn. repeat split; lia || done.
      * rewrite lookup_insert_ne by done. by rewrite Z.add_0_r in B6.
    + intros q Hin. destruct (B8 q Hin) as (? & ? & Hxq). repeat split; try done.
      rewrite add1_ne in Hxq; [done|]. by intros ->.
Qed.

(** References change hands. *)
Lemma base_ix_ext X l p ix dq mm : base X l (p :: ix) dq mm -> X p < 2147483000 ->
  base (add1 X p) l ix dq mm.
Proof.
  intros [B1 B2 B3 B4 B5 B6 B7 B8] Hx. apply list.NoDup_cons in B3 as [Hp B3]. split; try done.
  - intros q. specialize (B6 q). rewrite holders_add1. unfold holders in *. rewrite cnt_cons in B6 by done.
    destruct (mm_segs mm !! q); [destruct B6 as (? & ? & ?); repeat split|]; lia || done.
  - intros q. specialize (B7 q). unfold add1. destruct (decide (q = p)) as [->|]; lia.
  - intros q Hq. destruct (B8 q Hq) as (? & Hi & ?). apply list.not_elem_of_cons in Hi as [Hn Hi].
    rewrite add1_ne by done. done.
Qed.

Lemma base_ext_ix X l p ix dq mm : base (add1 X p) l ix dq mm -> (p ∉ ix) -> 0 <= X p ->
  base X l (p :: ix) dq mm.
Proof.
  intros [B1 B2 B3 B4 B5 B6 B7 B8] Hp Hx. split; try done.
  - by apply list.NoDup_cons.
  - intros q. specialize (B6 q). rewrite holders_add1 in B6. unfold holders in *. rewrite cnt_cons by done.
    destruct (mm_segs mm !! q); [destruct B6 as (? & ? & ?); repeat split|]; lia || done.
  - intros q. specialize (B7 q). unfold add1 in B7. destruct (decide (q = p)) as [->|]; lia.
  - intros q Hq. destruct (B8 q Hq) as (? & Hi & Hxq). unfold add1 in Hxq.
    specialize (B7 q). unfold add1 in B7.
    destruct (decide (q = p)) as [->|]; [lia|]. repeat split; try done.
    by apply list.not_elem_of_cons.
Qed.

Lemma base_ix_perm X l ix ix' dq mm : ix ≡ₚ ix' -> base X l ix dq mm -> base X l ix' dq mm.
Proof.
  intros E [B1 B2 B3 B4 B5 B6 B7 B8]. split; try done; try by rewrite <- E.
  - intros q. specialize (B6 q). unfold holders in *. by rewrite <- (cnt_perm q ix ix' E).
  - intros q Hq. rewrite <- E. by apply B8.
Qed.

(** ** The index *)

Definition small (X : nat -> Z) : Prop := forall p, 0 <= X p <= 2147480000.

(** The slots of the index from [k] on hold [ix]. *)
Definition slots (ixs : list (option nat)) (k : nat) (ix : list nat) : Prop :=
  forall i p, ix !! i = Some p -> ixs !! (k + i)%nat = Some (Some p).

Record good (X : nat -> Z) (l : list (nat * seg_core)) (ix dq : list nat) (mm : mm_struct_t)
  : Prop := {
  g_base : base X l ix dq mm;
  g_len : length (mm_seg_index mm) = Z.to_nat 1024;
  g_slots : slots (mm_seg_index mm) 0 ix;
  g_count : mm_seg_index_count mm = Z.of_nat (length ix);
  g_state : mm_seg_index_state mm = 0 \/ mm_seg_index_state mm = 1 /\ ix = l.*1 \/
            mm_seg_index_state mm = 2 /\ ix = [];
}.

Lemma slots_tail ixs k p ix : slots ixs k (p :: ix) -> slots ixs (S k) ix.
Proof. intros H i q Hi. specialize (H (S i) q Hi). by rewrite Nat.add_succ_r in H. Qed.

Lemma slots_length ixs k ix : slots ixs k ix -> ix <> [] -> (k + length ix <= length ixs)%nat.
Proof.
  intros H Hn. destruct (ix !! pred (length ix)) as [p|] eqn:E.
  - specialize (H _ _ E). apply lookup_lt_Some in H. destruct ix; [done|]. cbn in *. lia.
  - apply lookup_ge_None in E. destruct ix; [done|]. cbn in *. lia.
Qed.

(** Putting one slot's reference. *)
Lemma put_slot X l p ix dq mm : small X -> base X l (p :: ix) dq mm ->
  exists h' d' dq', let mm' := mm {{ mm_segs := h'; mm_deferred_vma := d' }} in
    vma_put mm (Some p) = Some mm' /\ same_map (mm_segs mm) h' /\ base X l ix dq' mm'.
Proof.
  intros Hs B. destruct (put_spec X l ix dq mm p) as (h' & d' & dq' & E & S & B' & _).
  - apply base_ix_ext; [done|]. specialize (Hs p). lia.
  - apply Hs.
  - by exists h', d', dq'.
Qed.

Lemma index_put_spec X l ix mm : small X -> (exists dq, base X l ix dq mm) ->
  slots (mm_seg_index mm) 0 ix ->
  exists h' d' dq' ixs', let mm' := mm {{ mm_segs := h'; mm_deferred_vma := d'; mm_seg_index := ixs' }} in
    index_put mm (Z.of_nat (length ix)) = Some mm' /\ same_map (mm_segs mm) h' /\
    base X l [] dq' mm' /\ length ixs' = length (mm_seg_index mm).
Proof.
  intros Hs [dq B] Hsl. unfold index_put.
  set (P i mm' := exists h' d' dq' ixs',
         mm' = mm {{ mm_segs := h'; mm_deferred_vma := d'; mm_seg_index := ixs' }} /\
         same_map (mm_segs mm) h' /\ base X l (drop (Z.to_nat i) ix) dq' mm' /\
         length ixs' = length (mm_seg_index mm) /\ slots ixs' (Z.to_nat i) (drop (Z.to_nat i) ix)).
  match goal with |- context [for_ 0 _ ?body mm] =>
    destruct (for_inv P body 0 (Z.of_nat (length ix)) mm) as (mm' & E & h' & d' & dq' & ixs' & -> & S & B' & L & _) end.
  - lia.
  - exists (mm_segs mm), (mm_deferred_vma mm), dq, (mm_seg_index mm).
    split; [by destruct mm|]. split; [apply same_map_refl|]. by rewrite drop_0.
  - intros i mm' Hi (h' & d' & dq' & ixs' & -> & S & B' & L & Sl).
    destruct (ix !! Z.to_nat i) as [p|] eqn:Hp; [|apply lookup_ge_None in Hp; lia].
    rewrite (drop_S _ _ _ Hp) in B', Sl.
    pose proof (Sl 0%nat p eq_refl) as Hslot. rewrite Nat.add_0_r in Hslot.
    pose proof (lookup_lt_Some _ _ _ Hslot) as Hlt.
    cbv beta. change (mm_seg_index (mm {{ mm_segs := h'; mm_deferred_vma := d'; mm_seg_index := ixs' }}))
      with ixs'.
    assert (Hrd : rd ixs' i = Some (Some p)).
    { unfold rd. rewrite (proj2 (Z.leb_le 0 i)) by lia. done. }
    rewrite Hrd. cbn [mbind option_bind].
    destruct (put_slot _ _ _ _ _ _ Hs B') as (h2 & d2 & dq2 & E2 & S2 & B2).
    rewrite E2. cbn [mbind option_bind].
    match goal with |- context [wr ?a i None] => change a with ixs' end.
    rewrite wr_Some by lia. cbn [mbind option_bind].
    eexists. split; [reflexivity|].
    exists h2, d2, dq2, (<[Z.to_nat i := None]> ixs').
    replace (Z.to_nat (i + 1)) with (Datatypes.S (Z.to_nat i)) by lia.
    split; [by destruct mm|]. split; [by apply (same_map_trans _ h')|].
    split; [eapply base_fields; [..|exact B2]; reflexivity|].
    split; [by rewrite length_insert|].
    intros k q Hk. rewrite list_lookup_insert_ne by lia. by apply (slots_tail _ _ _ _ Sl).
  - rewrite E. exists h', d', dq', ixs'. split; [done|]. split; [done|].
    split; [|done]. rewrite Nat2Z.id, drop_all in B'. done.
Qed.

(** What a lookup may change: references, the index, the queue. *)
Record quiet (mm mm' : mm_struct_t) : Prop := {
  q_map : same_map (mm_segs mm) (mm_segs mm');
  q_mmap : mm_mmap mm' = mm_mmap mm;
  q_brk : mm_brk mm' = mm_brk mm;
  q_start : mm_start_brk mm' = mm_start_brk mm;
  q_mbase : mm_mmap_base mm' = mm_mmap_base mm;
  q_total : mm_total_vm mm' = mm_total_vm mm;
  q_locked : mm_locked_vm mm' = mm_locked_vm mm;
  q_def : mm_def_flags mm' = mm_def_flags mm;
  q_events : mm_events mm' = mm_events mm;
  q_kcalloc : mm_kcalloc mm' = mm_kcalloc mm;
  q_pages : mm_page_loops mm' = mm_page_loops mm;
}.

Lemma quiet_refl mm : quiet mm mm.
Proof. split; try done. apply same_map_refl. Qed.

Lemma quiet_trans mm mm' mm'' : quiet mm mm' -> quiet mm' mm'' -> quiet mm mm''.
Proof.
  intros [A ? ? ? ? ? ? ? ? ? ?] [B ? ? ? ? ? ? ? ? ? ?]. split; try congruence.
  by apply (same_map_trans _ _ _ A B).
Qed.

Lemma same_map_size h h' : same_map h h' -> size h' = size h.
Proof.
  intros S. rewrite <- !size_dom. f_equal. apply set_eq. intros p. rewrite !elem_of_dom.
  specialize (S p). destruct (h !! p), (h' !! p); try done; by split; intros [].
Qed.

Lemma quiet_fuel mm mm' : quiet mm mm' -> fuel mm' = fuel mm.
Proof. intros Q. unfold fuel. by rewrite (same_map_size _ _ (q_map _ _ Q)). Qed.

Lemma quiet_seglist mm mm' l : quiet mm mm' -> seglist (mm_segs mm) (mm_mmap mm) l ->
  seglist (mm_segs mm') (mm_mmap mm') l.
Proof.
  intros Q [lst H]. exists lst. rewrite (q_mmap _ _ Q). by apply (dseg_same_map _ _ _ _ _ _ _ (q_map _ _ Q)).
Qed.

(** The fuel suffices for a walk along the list. *)
Lemma seglist_size h head l : seglist h head l -> NoDup l.*1 -> (length l <= size h)%nat.
Proof.
  intros [lst H] Hn. rewrite <- size_dom, <- (length_fmap fst l).
  rewrite <- (size_list_to_set (C := gset nat) l.*1) by done.
  apply subseteq_size. intros p Hp%elem_of_list_to_set. apply elem_of_dom.
  by apply (dseg_dom _ _ _ _ _ _ _ H).
Qed.

(** The index after a walk from the record behind [l1]. *)
Lemma index_fill_spec X l : small X -> forall l2 n mm v l1 dq,
  l = l1 ++ l2 -> (length l2 <= n)%nat -> base X l l1.*1 dq mm ->
  length (mm_seg_index mm) = Z.to_nat 1024 -> slots (mm_seg_index mm) 0 l1.*1 ->
  (length l1 <= Z.to_nat 1024)%nat ->
  (exists m lst, dseg (mm_segs mm) m v l2 lst None) ->
  exists mm' ix' dq', index_fill n mm v (Z.of_nat (length l1)) = Some mm' /\
    good X l ix' dq' mm' /\ mm_seg_index_state mm' <> 0 /\ quiet mm mm'.
Proof.
  intros Hs. induction l2 as [|[p c] l2 IH]; intros n mm v l1 dq El Hn B L Sl Hl (m & lst & Hv).
  - rewrite app_nil_r in El. subst l1. destruct Hv as [_ <-].
    destruct n; cbn [index_fill]; (eexists _, l.*1, dq; split; [reflexivity|]);
      (split; [split; cbn; [by eapply base_fields; [..|exact B]|done|done|by rewrite length_fmap|by right; left]|]);
      (split; [done|]; split; try done; apply same_map_refl).
  - destruct Hv as (-> & r & Hr & Hc & Hp & Hv). destruct n as [|n]; [cbn in Hn; lia|]. cbn [index_fill].
    destruct (Z.eqb_spec (Z.of_nat (length l1)) 1024) as [Hfull|Hfull].
    + set (mm0 := mm {{ mm_index_overflow := u64 (mm_index_overflow mm + 1) }}).
      destruct (index_put_spec X l l1.*1 mm0 Hs) as (h' & d' & dq' & ixs' & E & S & B' & L').
      { exists dq. by eapply base_fields; [..|exact B]. }
      { done. }
      rewrite length_fmap in E. rewrite E. cbn [mbind option_bind].
      eexists _, [], dq'. split; [reflexivity|].
      split; [split; cbn; [by eapply base_fields; [..|exact B']|by rewrite L'|by intros i q Hi|done|by right; right]|].
      split; [done|]. by split.
    + assert (Hin : p ∈ l.*1) by (rewrite El, fmap_app; set_solver).
      assert (Hnin : p ∉ l1.*1).
      { pose proof (b_nodup _ _ _ _ _ B) as Hnd. rewrite El, fmap_app in Hnd.
        apply list.NoDup_app in Hnd as (_ & Hd & _). intros Hx. apply (Hd p Hx). cbn. by left. }
      destruct (get_spec X l l1.*1 dq mm p B) as (h' & E & S & B').
      { unfold holders. rewrite (cnt_in p l.*1) by done. pose proof (cnt_range p l1.*1).
        pose proof (cnt_range p dq). specialize (Hs p). lia. }
      { intros Hq. destruct (b_only _ _ _ _ _ B p Hq) as (? & _). done. }
      { specialize (Hs p). lia. }
      rewrite E. cbn [mbind option_bind].
      match goal with |- context [wr ?a _ (Some p)] => change a with (mm_seg_index mm) end.
      rewrite wr_Some by lia. cbn [mbind option_bind]. rewrite Nat2Z.id.
      assert (Hr' : exists r', h' !! p = Some r' /\ sg_next r' = sg_next r).
      { specialize (S p). rewrite Hr in S. destruct (h' !! p) as [r'|]; [|done].
        exists r'. tauto. }
      destruct Hr' as (r' & Hr' & Hnx).
      change (sg (mm {{ mm_segs := h' }}) p) with (h' !! p). rewrite Hr'. cbn [mbind option_bind].
      set (mm1 := mm {{ mm_segs := h'; mm_seg_index := <[length l1 := Some p]> (mm_seg_index mm) }}).
      replace (Z.of_nat (length l1) + 1) with (Z.of_nat (length (l1 ++ [(p, c)])))
        by (rewrite length_app; cbn; lia).
      destruct (IH n mm1 (sg_next r') (l1 ++ [(p, c)]) dq) as (mm' & ix' & dq' & E' & G & St & Q).
      * by rewrite <- app_assoc.
      * cbn in Hn. lia.
      * rewrite fmap_app. apply (base_ix_perm _ _ (p :: l1.*1)); [apply Permutation_cons_append|].
        apply base_ext_ix; [by eapply base_fields; [..|exact B']|done|apply Hs].
      * cbn. by rewrite length_insert.
      * intros i q Hi. cbn. rewrite fmap_app in Hi. destruct (decide (i = length l1)) as [->|Hi'].
        -- rewrite list_lookup_insert_eq by lia. rewrite lookup_app_r in Hi by (rewrite length_fmap; lia).
           rewrite length_fmap, Nat.sub_diag in Hi. cbn in Hi. by injection Hi as ->.
        -- rewrite list_lookup_insert_ne by done. apply Sl. rewrite lookup_app_l in Hi; [done|].
           pose proof (lookup_lt_Some _ _ _ Hi) as Hlt. rewrite length_app, length_fmap in Hlt. cbn in Hlt.
           rewrite length_fmap. lia.
      * rewrite length_app. cbn. lia.
      * exists (Some p), lst. rewrite Hnx. by apply (dseg_same_map _ _ _ _ _ _ _ S).
      * exists mm', ix', dq'. split; [exact E'|]. split; [done|]. split; [done|].
        apply (quiet_trans _ mm1); [by split|done].
Qed.

Lemma rebuild_spec X l ix dq mm : small X -> good X l ix dq mm ->
  exists mm' ix' dq', mm_seg_index_rebuild mm = Some mm' /\ good X l ix' dq' mm' /\
    mm_seg_index_state mm' <> 0 /\ quiet mm mm'.
Proof.
  intros Hs [B L Sl C _]. unfold mm_seg_index_rebuild. rewrite C.
  destruct (index_put_spec X l ix mm Hs) as (h' & d' & dq' & ixs' & E & S & B' & L'); [by exists dq|done|].
  rewrite E. cbn [mbind option_bind].
  set (mm1 := mm {{ mm_segs := h'; mm_deferred_vma := d'; mm_seg_index := ixs' }}) in *.
  destruct (index_fill_spec X l Hs l (fuel mm1) mm1 (mm_mmap mm1) [] dq')
    as (mm' & ix' & dq2 & E' & G & St & Q); try done.
  - unfold fuel. pose proof (seglist_size _ _ _ (b_list _ _ _ _ _ B') (b_nodup _ _ _ _ _ B')). lia.
  - cbn. lia.
  - cbn. lia.
  - destruct (b_list _ _ _ _ _ B') as [lst H]. by exists None, lst.
  - exists mm', ix', dq2. split; [exact E'|]. split; [done|]. split; [done|].
    apply (quiet_trans _ mm1); [by split|done].
Qed.

Lemma index_clear_spec X l ix dq mm : small X -> good X l ix dq mm ->
  exists mm' dq', mm_seg_index_clear mm = Some mm' /\ good X l [] dq' mm' /\
    mm_seg_index_state mm' = 0 /\ quiet mm mm'.
Proof.
  intros Hs [B L Sl C _]. unfold mm_seg_index_clear. rewrite C.
  set (P i mm' := exists h' d' dq', mm' = mm {{ mm_segs := h'; mm_deferred_vma := d' }} /\
         same_map (mm_segs mm) h' /\ base X l (drop (Z.to_nat i) ix) dq' mm').
  match goal with |- context [for_ 0 _ ?body mm] =>
    destruct (for_inv P body 0 (Z.of_nat (length ix)) mm) as (mm' & E & h' & d' & dq' & -> & S & B') end.
  - lia.
  - exists (mm_segs mm), (mm_deferred_vma mm), dq. rewrite drop_0.
    split; [by destruct mm|]. split; [apply same_map_refl|done].
  - intros i mm' Hi (h' & d' & dq' & -> & S & B').
    destruct (ix !! Z.to_nat i) as [p|] eqn:Hp; [|apply lookup_ge_None in Hp; lia].
    rewrite (drop_S _ _ _ Hp) in B'. cbv beta.
    match goal with |- context [rd ?a i] => change a with (mm_seg_index mm) end.
    assert (Hrd : rd (mm_seg_index mm) i = Some (Some p)).
    { unfold rd. rewrite (proj2 (Z.leb_le 0 i)) by lia. exact (Sl _ _ Hp). }
    rewrite Hrd. cbn [mbind option_bind].
    destruct (put_slot _ _ _ _ _ _ Hs B') as (h2 & d2 & dq2 & E2 & S2 & B2).
    rewrite E2. eexists. split; [reflexivity|]. exists h2, d2, dq2.
    replace (Z.to_nat (i + 1)) with (Datatypes.S (Z.to_nat i)) by lia.
    split; [by destruct mm|]. split; [by apply (same_map_trans _ h')|].
    eapply base_fields; [..|exact B2]; reflexivity.
  - rewrite E. cbn [mbind option_bind]. eexists _, dq'. split; [reflexivity|].
    rewrite Nat2Z.id, drop_all in B'.
    split; [|by split]. split; cbn -[replicate Z.to_nat]; [by eapply base_fields; [..|exact B']| |done|done|by left].
    by rewrite length_replicate.
Qed.

(** ** The lookup *)

(** The record of a list that covers an address. *)
Fixpoint seg_at (l : list (nat * seg_core)) (addr : Z) : option (nat * seg_core) :=
  match l with
  | [] => None
  | (p, c) :: l' =>
      if (c_start c <=? addr) && (addr <? c_end c) then Some (p, c) else seg_at l' addr
  end.

Lemma seg_at_Some l addr p c : seg_at l addr = Some (p, c) ->
  (p, c) ∈ l /\ c_start c <= addr < c_end c.
Proof.
  induction l as [|[q d] l IH]; cbn [seg_at]; [done|].
  destruct (Z.leb_spec (c_start d) addr), (Z.ltb_spec addr (c_end d)); cbn [andb];
    try (intros H'; destruct (IH H'); split; [by right|done]).
  intros [= -> ->]. split; [by left|lia].
Qed.

Lemma seg_at_None l addr p c : seg_at l addr = None -> (p, c) ∈ l -> ~ c_start c <= addr < c_end c.
Proof.
  induction l as [|[q d] l IH]; cbn [seg_at]; [intros _ H; by inversion H|].
  destruct (Z.leb_spec (c_start d) addr), (Z.ltb_spec addr (c_end d)); cbn [andb]; try done;
    (intros H' [E|E]%list.elem_of_cons; [injection E as -> ->; lia|by apply IH]).
Qed.

Lemma seg_at_unique lo l addr p c : ordered lo l -> (p, c) ∈ l -> c_start c <= addr < c_end c ->
  seg_at l addr = Some (p, c).
Proof.
  revert lo. induction l as [|[q d] l IH]; intros lo; cbn [ordered seg_at]; [intros _ H; by inversion H|].
  intros (H1 & H2 & H3) [E|E]%list.elem_of_cons Ha.
  - injection E as -> ->. by rewrite (proj2 (Z.leb_le _ _)), (proj2 (Z.ltb_lt _ _)) by lia.
  - destruct (ordered_lower _ _ _ _ H3 E).
    rewrite (proj2 (Z.ltb_ge addr (c_end d))), andb_false_r by lia. by apply (IH _ H3).
Qed.

(** Later records of an ordered list start later. *)
Lemma ordered_mono lo l i j p c q d : ordered lo l -> l !! i = Some (p, c) -> l !! j = Some (q, d) ->
  (i < j)%nat -> c_end c <= c_start d.
Proof.
  revert lo i j. induction l as [|[o e] l IH]; intros lo i j; [by destruct i|].
  intros (H1 & H2 & H3) Hi Hj Hlt. destruct j as [|j]; [lia|]. cbn in Hj. destruct i as [|i].
  - injection Hi as -> ->. apply list_elem_of_lookup_2 in Hj.
    by destruct (ordered_lower _ _ _ _ H3 Hj).
  - by apply (IH _ i j H3); [|done|lia].
Qed.

Lemma slot_rd X l ix dq mm i p : good X l ix dq mm -> ix !! i = Some p ->
  rd (mm_seg_index mm) (Z.of_nat i) = Some (Some p).
Proof. intros G Hp. rewrite rd_nat. exact (g_slots _ _ _ _ _ G _ _ Hp). Qed.

(** The binary search stops between the entries that start at or below the
    address and those above it. *)
Lemma index_search_spec X l dq mm addr : good X l l.*1 dq mm -> forall n lo hi,
  (lo <= hi <= length l)%nat -> (hi - lo <= n)%nat -> ordered 0 l ->
  (forall i p c, l !! i = Some (p, c) -> (i < lo)%nat -> c_start c <= addr) ->
  (forall i p c, l !! i = Some (p, c) -> (hi <= i)%nat -> addr < c_start c) ->
  exists k, index_search n mm addr (Z.of_nat lo) (Z.of_nat hi) = Some (Z.of_nat k) /\
    (k <= length l)%nat /\
    (forall i p c, l !! i = Some (p, c) -> (i < k)%nat -> c_start c <= addr) /\
    (forall i p c, l !! i = Some (p, c) -> (k <= i)%nat -> addr < c_start c).
Proof.
  intros G. induction n as [|n IH]; intros lo hi Hb Hn Ho Hlo Hhi; cbn [index_search].
  - rewrite (proj2 (Z.ltb_ge _ _)) by lia. exists lo. split; [done|]. split; [lia|].
    split; [done|]. intros i p c Hi Hk. apply (Hhi i p c Hi). lia.
  - destruct (Z.ltb_spec (Z.of_nat lo) (Z.of_nat hi)).
    2:{ exists lo. split; [done|]. split; [lia|]. split; [done|]. intros i p c Hi Hk.
        apply (Hhi i p c Hi). lia. }
    set (mid := (lo + (hi - lo) / 2)%nat).
    assert (Hm : (lo <= mid < hi)%nat).
    { unfold mid. pose proof (Nat.div_lt (hi - lo) 2). lia. }
    replace (Z.of_nat lo + (Z.of_nat hi - Z.of_nat lo) / 2) with (Z.of_nat mid)
      by (unfold mid; rewrite Nat2Z.inj_add, Nat2Z.inj_div, Nat2Z.inj_sub by lia; done).
    clearbody mid.
    destruct (l !! mid) as [[p c]|] eqn:Hp; [|apply lookup_ge_None in Hp; lia].
    assert (Hp' : l.*1 !! mid = Some p) by (by rewrite list_lookup_fmap, Hp).
    rewrite (slot_rd _ _ _ _ _ _ _ G Hp'). cbn [mbind option_bind].
    destruct (b_list _ _ _ _ _ (g_base _ _ _ _ _ G)) as [lst Hl].
    destruct (dseg_lookup _ _ _ _ _ _ p c Hl) as (r & Hr & Hc); [by apply list_elem_of_lookup_2 in Hp|].
    change (sg mm p) with (mm_segs mm !! p). rewrite Hr. cbn [mbind option_bind].
    replace (sg_start r) with (c_start c) by (by subst c).
    destruct (Z.leb_spec (c_start c) addr).
    + replace (Z.of_nat mid + 1) with (Z.of_nat (S mid)) by lia.
      apply IH; [lia|lia|done| |done]. intros i q d Hi Hk.
      destruct (decide (i = mid)) as [->|]; [by simplify_eq|].
      pose proof (ordered_mono _ _ i mid q d p c Ho Hi Hp ltac:(lia)).
      destruct (ordered_lower _ _ q d Ho (list_elem_of_lookup_2 _ _ _ Hi)). lia.
    + apply IH; [lia|lia|done|done|]. intros i q d Hi Hk.
      destruct (decide (i = mid)) as [->|]; [by simplify_eq|].
      pose proof (ordered_mono _ _ mid i p c q d Ho Hp Hi ltac:(lia)).
      destruct (ordered_lower _ _ p c Ho (list_elem_of_lookup_2 _ _ _ Hp)). lia.
Qed.

(** The walk finds what [seg_at] finds. *)
Lemma list_search_spec mm addr : forall l n v steps m lo lst, ordered lo l ->
  (length l <= n)%nat -> steps + Z.of_nat (length l) <= 100000 ->
  dseg (mm_segs mm) m v l lst None ->
  list_search n mm addr v steps = Some (fst <$> seg_at l addr).
Proof.
  induction l as [|[p c] l IH]; intros n v steps m lo lst Ho Hn Hs H.
  - destruct H as [_ <-]. by destruct n.
  - destruct H as (-> & r & Hr & Hc & _ & H). destruct Ho as (H1 & H2 & H3).
    destruct n as [|n]; [cbn in Hn; lia|]. cbn [list_search length] in *.
    rewrite Z.gtb_ltb, (proj2 (Z.ltb_ge _ _)) by lia.
    change (sg mm p) with (mm_segs mm !! p). rewrite Hr. cbn [mbind option_bind seg_at].
    replace (sg_start r) with (c_start c) by (by subst c).
    replace (sg_end r) with (c_end c) by (by subst c).
    rewrite Z.geb_leb, Z.gtb_ltb, andb_comm.
    destruct (Z.leb_spec (c_start c) addr), (Z.ltb_spec addr (c_end c)), (Z.ltb_spec addr (c_start c));
      cbn [andb]; try lia; try done.
    + apply (IH n _ (steps + 1) (Some p) (c_end c) lst); try done; lia.
    + destruct (seg_at l addr) as [[q d]|] eqn:E; [|done].
      apply seg_at_Some in E as [Hin Hr']. destruct (ordered_lower _ _ _ _ H3 Hin). lia.
Qed.

(** The entry below the place where the binary search stops is the one that
    can cover the address. *)
Lemma seg_at_split l addr k : (k <= length l)%nat -> ordered 0 l ->
  (forall i p c, l !! i = Some (p, c) -> (i < k)%nat -> c_start c <= addr) ->
  (forall i p c, l !! i = Some (p, c) -> (k <= i)%nat -> addr < c_start c) ->
  seg_at l addr =
  match k with
  | O => None
  | S j => match l !! j with
           | Some (p, c) => if addr <? c_end c then Some (p, c) else None
           | None => None
           end
  end.
Proof.
  intros Hk Ho Hlo Hhi. destruct (seg_at l addr) as [[q d]|] eqn:E.
  - apply seg_at_Some in E as [Hin Hr]. apply list_elem_of_lookup_1 in Hin as [i Hi].
    destruct (decide (k <= i)%nat) as [Hki|Hki].
    { specialize (Hhi _ _ _ Hi Hki). lia. }
    destruct k as [|j]; [lia|]. destruct (decide (i = j)) as [->|].
    + rewrite Hi. by rewrite (proj2 (Z.ltb_lt _ _)) by lia.
    + destruct (l !! j) as [[p c]|] eqn:Hj; [|apply lookup_ge_None in Hj; lia].
      pose proof (ordered_mono _ _ i j q d p c Ho Hi Hj ltac:(lia)).
      specialize (Hlo _ _ _ Hj ltac:(lia)). lia.
  - destruct k as [|j]; [done|]. destruct (l !! j) as [[p c]|] eqn:Hj; [|done].
    specialize (Hlo _ _ _ Hj ltac:(lia)).
    destruct (Z.ltb_spec addr (c_end c)); [|done].
    by destruct (seg_at_None _ _ _ _ E (list_elem_of_lookup_2 _ _ _ Hj)).
Qed.

(** The lookup is [seg_at], whatever the state of the index. *)
Lemma find_spec X l ix dq mm addr : small X -> good X l ix dq mm -> ordered 0 l ->
  Z.of_nat (length l) <= 100000 ->
  exists mm' ix' dq', mm_seg_find mm addr = Some (mm', fst <$> seg_at l addr) /\
    good X l ix' dq' mm' /\ mm_seg_index_state mm' <> 0 /\ quiet mm mm'.
Proof.
  intros Hs G Ho Hl. unfold mm_seg_find.
  assert (HG : exists mm' ix' dq',
    (if mm_seg_index_state mm =? 0 then mm_seg_index_rebuild mm else Some mm) = Some mm' /\
    good X l ix' dq' mm' /\ mm_seg_index_state mm' <> 0 /\ quiet mm mm').
  { destruct (Z.eqb_spec (mm_seg_index_state mm) 0); [by apply (rebuild_spec X l ix dq)|].
    exists mm, ix, dq. repeat (split; [done|]). apply quiet_refl. }
  destruct HG as (mm' & ix' & dq' & -> & G' & St & Q). cbn [mbind option_bind].
  destruct (g_state _ _ _ _ _ G') as [?|[[Hst Hix]|[Hst Hix]]]; [done| |]; rewrite Hst.
  - cbn [Z.eqb Pos.eqb]. subst ix'. rewrite (g_count _ _ _ _ _ G'), Nat2Z.id, length_fmap.
    destruct (index_search_spec X l dq' mm' addr G' (length l) 0 (length l))
      as (k & Ek & Hk & H1 & H2); [lia|lia|done| | |].
    { intros i p c _ Hi. lia. }
    { intros i p c Hi Hge. apply lookup_lt_Some in Hi. lia. }
    change (Z.of_nat 0) with 0 in Ek. rewrite Ek. cbn [mbind option_bind].
    rewrite (seg_at_split l addr k Hk Ho H1 H2), Z.gtb_ltb. destruct k as [|j].
    + cbn. exists mm', l.*1, dq'. by repeat (split; [done|]).
    + rewrite (proj2 (Z.ltb_lt _ _)) by lia.
      replace (Z.of_nat (S j) - 1) with (Z.of_nat j) by lia.
      destruct (l !! j) as [[p c]|] eqn:Hj; [|apply lookup_ge_None in Hj; lia].
      assert (Hj' : l.*1 !! j = Some p) by (by rewrite list_lookup_fmap, Hj).
      rewrite (slot_rd _ _ _ _ _ _ _ G' Hj'). cbn [mbind option_bind].
      destruct (b_list _ _ _ _ _ (g_base _ _ _ _ _ G')) as [lst Hd].
      destruct (dseg_lookup _ _ _ _ _ _ p c Hd) as (r & Hr & Hc); [by apply list_elem_of_lookup_2 in Hj|].
      change (sg mm' p) with (mm_segs mm' !! p). rewrite Hr. cbn [mbind option_bind].
      replace (sg_end r) with (c_end c) by (by subst c).
      exists mm', l.*1, dq'. split; [by destruct (addr <? c_end c)|]. by repeat (split; [done|]).
  - cbn [Z.eqb Pos.eqb]. destruct (b_list _ _ _ _ _ (g_base _ _ _ _ _ G')) as [lst Hd].
    rewrite (list_search_spec mm' addr l (fuel mm') _ 0 None 0 lst); try done.
    + cbn [mbind option_bind]. exists mm', ix', dq'. by repeat (split; [done|]).
    + unfold fuel. pose proof (seglist_size _ _ _ (b_list _ _ _ _ _ (g_base _ _ _ _ _ G'))
                                (b_nodup _ _ _ _ _ (g_base _ _ _ _ _ G'))). lia.
Qed.
