(* ===== verification/AddrOps.v ===== *)
(** * Address spaces: insertion, merging, splitting, removal

    The changes of the linked list as changes of the list of records, and what
    they mean for the addresses: the view of an address space maps an address
    to the flags and the place in the backing object that a record gives it. *)

From stdpp Require Import gmap.
From S2P Require Import Prelude AddrSpace AddrTheory.

(** ** Links *)

(** The stores agree on references. *)
Definition same_refs (h h' : store) : Prop :=
  forall p, match h !! p, h' !! p with
            | Some r, Some r' => sg_refcount r' = sg_refcount r /\ sg_released r' = sg_released r /\
                                 sg_deferred_next r' = sg_deferred_next r
            | None, None => True
            | _, _ => False
            end.

Lemma same_refs_refl h : same_refs h h.
Proof. intros p. by destruct (h !! p). Qed.

Lemma same_refs_trans h h' h'' : same_refs h h' -> same_refs h' h'' -> same_refs h h''.
Proof.
  intros H H' p. specialize (H p). specialize (H' p).
  destruct (h !! p), (h' !! p), (h'' !! p); try done.
  destruct H as (? & ? & ?), H' as (? & ? & ?). repeat split; congruence.
Qed.

Lemma same_refs_set h p r r' : h !! p = Some r -> sg_refcount r' = sg_refcount r ->
  sg_released r' = sg_released r -> sg_deferred_next r' = sg_deferred_next r ->
  same_refs h (<[p := r']> h).
Proof.
  intros Hr Hc Hp Hn q. destruct (decide (p = q)) as [<-|].
  - by rewrite Hr, lookup_insert_eq.
  - rewrite lookup_insert_ne by done. by destruct (h !! q).
Qed.

Lemma dchain_same_refs h h' d dq : same_refs h h' -> dchain h d dq -> dchain h' d dq.
Proof.
  intros S. revert d. induction dq as [|q dq IH]; intros d; cbn [dchain]; [done|].
  intros (-> & s & Hs & H). split; [done|]. specialize (S q). rewrite Hs in S.
  destruct (h' !! q) as [s'|]; [|done]. destruct S as (_ & _ & S). exists s'. split; [done|].
  rewrite S. by apply IH.
Qed.

(** A new list over the same references. *)
Lemma base_relink X X' l l' ix dq mm mm' : base X l ix dq mm ->
  same_refs (mm_segs mm) (mm_segs mm') -> mm_deferred_vma mm' = mm_deferred_vma mm ->
  seglist (mm_segs mm') (mm_mmap mm') l' -> NoDup l'.*1 ->
  (forall p, cnt p l'.*1 + X' p = cnt p l.*1 + X p) -> (forall p, 0 <= X' p <= 2147483000) ->
  base X' l' ix dq mm'.
Proof.
  intros [B1 B2 B3 B4 B5 B6 B7 B8] S Ed L N C HX. split; try done.
  - rewrite Ed. by apply (dchain_same_refs (mm_segs mm)).
  - intros p. specialize (B6 p). specialize (S p). specialize (C p). unfold holders in *.
    destruct (mm_segs mm !! p), (mm_segs mm' !! p); try done; [|lia].
    destruct B6 as (? & ? & ?), S as (? & ? & ?). repeat split; lia || congruence.
  - intros p Hp. destruct (B8 p Hp) as (Hl & Hi & Hx). specialize (C p). specialize (HX p).
    rewrite (cnt_out p l.*1) in C by done. pose proof (cnt_range p l'.*1).
    split; [|split; [done|lia]]. intros Hin%cnt_in. lia.
Qed.

Lemma dseg_agree h h' prev cur l lst nxt : (forall p, (p ∈ l.*1) -> h' !! p = h !! p) ->
  dseg h prev cur l lst nxt -> dseg h' prev cur l lst nxt.
Proof.
  revert prev cur. induction l as [|[q c] l IH]; intros prev cur Hag; cbn [dseg]; [done|].
  intros (-> & s & Hs & Hc & Hv & H). split; [done|]. exists s.
  rewrite Hag by (by left). repeat split; try done. apply IH; [|done]. intros p Hp. apply Hag. by right.
Qed.

(** [set_prev] on the first record of a part: the part is entered from there. *)
Lemma set_prev_spec mm m n l lst y : dseg (mm_segs mm) m n l lst None -> NoDup l.*1 ->
  exists h' lst', set_prev mm n y = Some (mm {{ mm_segs := h' }}) /\
    same_refs (mm_segs mm) h' /\ dseg h' y n l lst' None /\
    (forall q, (q ∉ l.*1) -> h' !! q = mm_segs mm !! q).
Proof.
  intros H N. destruct l as [|[p c] l].
  - destruct H as [_ <-]. exists (mm_segs mm), y. split; [by destruct mm|].
    split; [apply same_refs_refl|]. done.
  - destruct H as (-> & r & Hr & Hc & Hp & H). apply list.NoDup_cons in N as [Hnin N].
    cbn [set_prev]. rewrite (sg_upd_eq mm p r _ Hr).
    exists (<[p := r {{ sg_prev := y }}]> (mm_segs mm)), lst. split; [done|].
    split; [by apply (same_refs_set _ _ r)|]. split.
    + cbn [dseg]. split; [done|]. eexists. rewrite lookup_insert_eq. split; [reflexivity|].
      split; [done|]. split; [done|]. by apply dseg_frame.
    + intros q Hq. apply lookup_insert_ne. intros ->. apply Hq. by left.
Qed.

Lemma exists_last_or_nil {A} (l : list A) : l = [] \/ exists l' x, l = l' ++ [x].
Proof. destruct l as [|y l'] using rev_ind; [by left|right; eauto]. Qed.

(** [set_next] on the last record of a part, or on the head if there is none. *)
Lemma set_next_spec mm l m n x : dseg (mm_segs mm) None (mm_mmap mm) l m n -> NoDup l.*1 ->
  exists h' hd', set_next mm m x = Some (mm {{ mm_segs := h'; mm_mmap := hd' }}) /\
    same_refs (mm_segs mm) h' /\ dseg h' None hd' l m x /\
    (forall q, (q ∉ l.*1) -> h' !! q = mm_segs mm !! q).
Proof.
  intros H N. destruct (exists_last_or_nil l) as [->|(l0 & [p c] & ->)]; [|rename l0 into l].
  - destruct H as [-> _]. exists (mm_segs mm), x. split; [by destruct mm|].
    split; [apply same_refs_refl|]. done.
  - apply dseg_app in H as (m' & n' & H1 & (-> & r & Hr & Hc & Hp & [-> Hn])).
    rewrite fmap_app in N. apply list.NoDup_app in N as (N1 & Nd & _).
    cbn [set_next]. rewrite (sg_upd_eq mm p r _ Hr).
    exists (<[p := r {{ sg_next := x }}]> (mm_segs mm)), (mm_mmap mm). split; [by destruct mm|].
    split; [by apply (same_refs_set _ _ r)|].
    assert (Hpl : p ∉ l.*1). { intros Hin. apply (Nd p Hin). by left. }
    split.
    + apply dseg_app. exists m', (Some p). split; [by apply dseg_frame|]. split; [done|].
      eexists. rewrite lookup_insert_eq. split; [reflexivity|]. by repeat split.
    + intros q Hq. apply lookup_insert_ne. intros ->. apply Hq. rewrite fmap_app. set_solver.
Qed.

(** ** The state between two list changes *)

(** What the list operations leave alone, besides the index. *)
Definition rest (mm : mm_struct_t) :=
  (mm_brk mm, mm_start_brk mm, mm_mmap_base mm, mm_total_vm mm, mm_locked_vm mm,
   mm_def_flags mm, mm_page_loops mm).

Definition env (mm : mm_struct_t) := (rest mm, mm_kcalloc mm).

Definition index_of (mm : mm_struct_t) :=
  (mm_seg_index mm, mm_seg_index_count mm, mm_seg_index_state mm).

(** The allocator's answers are records that are not in use. *)
Definition al_ok (mm : mm_struct_t) : Prop :=
  NoDup (omap id (mm_kcalloc mm)) /\
  forall p, (Some p ∈ mm_kcalloc mm) -> mm_segs mm !! p = None.

(** The invariant of an address space with the list [l] whose records have
    [X] more references than the address space itself holds. *)
Definition inv (X : nat -> Z) (l : list (nat * seg_core)) (mm : mm_struct_t) : Prop :=
  small X /\ al_ok mm /\ exists ix dq, good X l ix dq mm.

(** The same with the index invalidated: the list may change. *)
Definition stale (X : nat -> Z) (l : list (nat * seg_core)) (mm : mm_struct_t) : Prop :=
  inv X l mm /\ mm_seg_index_state mm = 0.

Definition same_dom (h h' : store) : Prop := forall p, h' !! p = None <-> h !! p = None.

Lemma same_map_dom h h' : same_map h h' -> same_dom h h'.
Proof. intros S p. specialize (S p). destruct (h !! p), (h' !! p); done. Qed.

Lemma same_refs_dom h h' : same_refs h h' -> same_dom h h'.
Proof. intros S p. specialize (S p). destruct (h !! p), (h' !! p); done. Qed.

Lemma al_ok_dom mm mm' : same_dom (mm_segs mm) (mm_segs mm') -> mm_kcalloc mm' = mm_kcalloc mm ->
  al_ok mm -> al_ok mm'.
Proof. intros S E [N F]. split; rewrite E; [done|]. intros p Hp. apply S. by apply F. Qed.

Lemma env_kcalloc mm mm' : env mm' = env mm -> mm_kcalloc mm' = mm_kcalloc mm.
Proof. unfold env. congruence. Qed.

Lemma env_rest mm mm' : env mm' = env mm -> rest mm' = rest mm.
Proof. unfold env. congruence. Qed.

Lemma inv_to_stale X l mm : inv X l mm -> stale X l (mm_seg_index_invalidate mm).
Proof.
  intros (Hs & A & ix & dq & [B L S C St]). split; [|done]. split; [done|]. split; [done|].
  exists ix, dq. split; [|done|done|done|by left]. by eapply base_fields; [..|exact B].
Qed.

(** A list operation on a stale address space. *)
Lemma stale_step X X' l l' mm mm' : stale X l mm -> small X' ->
  same_dom (mm_segs mm) (mm_segs mm') -> env mm' = env mm -> index_of mm' = index_of mm ->
  (forall ix dq, base X l ix dq mm -> exists dq', base X' l' ix dq' mm') -> stale X' l' mm'.
Proof.
  intros ((Hs & A & ix & dq & [B L S C _]) & St) Hs' D E I HB. unfold index_of in I.
  injection I as I1 I2 I3. destruct (HB _ _ B) as [dq' B'].
  split; [|congruence]. split; [done|]. split; [by apply (al_ok_dom mm); [| apply env_kcalloc|]|].
  exists ix, dq'. split; rewrite ?I1, ?I2, ?I3; [done|done|done|done|by left].
Qed.

(** Events do not matter. *)
Lemma inv_events X l mm evs : inv X l mm -> inv X l (mm {{ mm_events := evs }}).
Proof.
  intros (Hs & A & ix & dq & [B L S C St]). split; [done|]. split; [done|]. exists ix, dq.
  split; [by eapply base_fields; [..|exact B]|exact L|exact S|exact C|exact St].
Qed.

Lemma stale_events X l mm evs : stale X l mm -> stale X l (mm {{ mm_events := evs }}).
Proof. intros [I St]. split; [by apply inv_events|done]. Qed.

Lemma stale_base X l mm : stale X l mm -> exists ix dq, base X l ix dq mm.
Proof. intros ((_ & _ & ix & dq & G) & _). exists ix, dq. apply G. Qed.

Lemma inv_list X l mm : inv X l mm -> seglist (mm_segs mm) (mm_mmap mm) l /\ NoDup l.*1.
Proof. intros (_ & _ & ix & dq & G). split; apply G. Qed.

Lemma inv_lookup X l mm p c : inv X l mm -> (p, c) ∈ l -> exists r, sg mm p = Some r /\ core r = c.
Proof. intros [[lst H] _]%inv_list Hp. by apply (dseg_lookup _ _ _ _ _ _ _ _ H). Qed.

Lemma inv_fuel X l mm : inv X l mm -> (length l < fuel mm)%nat.
Proof. intros [H N]%inv_list. unfold fuel. pose proof (seglist_size _ _ _ H N). lia. Qed.

(** The neighbours of a record. *)
Lemma inv_links X l1 p c l2 mm : inv X (l1 ++ (p, c) :: l2) mm ->
  exists r, sg mm p = Some r /\ core r = c /\ sg_prev r = list.last l1.*1 /\ sg_next r = head l2.*1.
Proof.
  intros [[lst H] _]%inv_list. apply dseg_app in H as (m & n & H1 & -> & r & Hr & Hc & Hp & H2).
  exists r. repeat split; try done.
  - rewrite Hp. destruct (exists_last_or_nil l1) as [->|(l0 & [q d] & ->)]; [by destruct H1|].
    apply dseg_app in H1 as (? & ? & _ & -> & ? & _ & _ & _ & -> & _).
    rewrite fmap_app. symmetry. apply (last_snoc q l0.*1).
  - destruct l2 as [|[q d] l2]; [by destruct H2|]. by destruct H2 as [-> _].
Qed.

(** A found record. *)
Lemma find_inv X l mm addr : inv X l mm -> ordered 0 l -> Z.of_nat (length l) <= 100000 ->
  exists mm', mm_seg_find mm addr = Some (mm', fst <$> seg_at l addr) /\ inv X l mm' /\
    env mm' = env mm /\ mm_events mm' = mm_events mm.
Proof.
  intros (Hs & A & ix & dq & G) Ho Hl.
  destruct (find_spec X l ix dq mm addr Hs G Ho Hl) as (mm' & ix' & dq' & E & G' & _ & Q).
  exists mm'. split; [done|]. split; [|split; [destruct Q; unfold env, rest; congruence|apply Q]].
  split; [done|]. split; [|by exists ix', dq'].
  apply (al_ok_dom mm); [by apply same_map_dom, Q|apply Q|done].
Qed.

(** ** List operations *)

Lemma insert_walk_spec mm s : forall l n m v lst, (length l < n)%nat ->
  dseg (mm_segs mm) m v l lst None ->
  exists la lb prev cur, insert_walk n mm s m v = Some (prev, cur) /\ l = la ++ lb /\
    dseg (mm_segs mm) m v la prev cur /\ dseg (mm_segs mm) prev cur lb lst None /\
    Forall (fun x => c_start x.2 < s) la /\
    match lb with [] => True | (_, c) :: _ => s <= c_start c end.
Proof.
  induction l as [|[p c] l IH]; intros n m v lst Hn H.
  - destruct H as [-> <-]. exists [], [], m, None. by destruct n.
  - pose proof H as Hall. destruct H as (-> & r & Hr & Hc & Hp & H). destruct n as [|n]; [cbn in Hn; lia|].
    cbn [insert_walk]. unfold sg. rewrite Hr. cbn [mbind option_bind].
    destruct (Z.ltb_spec (sg_start r) s).
    + destruct (IH n (Some p) (sg_next r) lst) as (la & lb & prev & cur & E & -> & H1 & H2 & F & Hd);
        [cbn in Hn; lia|done|].
      exists ((p, c) :: la), lb, prev, cur. split; [exact E|]. split; [done|].
      split; [split; [done|by exists r]|]. split; [done|]. split; [|done].
      constructor; [by subst c|done].
    + exists [], ((p, c) :: l), m, (Some p). split; [done|]. split; [done|]. split; [done|].
      split; [done|]. split; [constructor|by subst c].
Qed.

Lemma cnt_insert p q l1 l2 : q ∉ l1 ++ l2 ->
  cnt p (l1 ++ q :: l2) = cnt p (l1 ++ l2) + if decide (p = q) then 1 else 0.
Proof.
  intros Hq. rewrite <- (cnt_perm p _ _ (Permutation_middle l1 l2 q)), cnt_cons by done. lia.
Qed.

Lemma small_add1 X p : small (add1 X p) -> X p >= 0 -> small X.
Proof. intros H Hp q. specialize (H q). unfold add1 in H. destruct (decide (q = p)) as [->|]; lia. Qed.

Lemma small_base X : small X -> forall p, 0 <= X p <= 2147483000.
Proof. intros H p. specialize (H p). lia. Qed.

(** A record that only its creator holds enters the list. *)
Lemma insert_link_spec X l mm p r : stale (add1 X p) l mm -> small X -> (p ∉ l.*1) ->
  sg mm p = Some r ->
  exists mm' l1 l2, insert_link mm p = Some mm' /\ l = l1 ++ l2 /\
    Forall (fun x => c_start x.2 < sg_start r) l1 /\
    match l2 with [] => True | (_, c) :: _ => sg_start r <= c_start c end /\
    stale X (l1 ++ (p, core r) :: l2) mm' /\ env mm' = env mm /\ mm_events mm' = mm_events mm.
Proof.
  intros I Hs Hp Hr. pose proof (inv_fuel _ _ _ (proj1 I)) as Hf.
  destruct (inv_list _ _ _ (proj1 I)) as [[lst H] N].
  unfold insert_link. rewrite Hr. cbn [mbind option_bind].
  destruct (insert_walk_spec mm (sg_start r) l (fuel mm) None (mm_mmap mm) lst Hf H)
    as (l1 & l2 & prev & cur & -> & -> & H1 & H2 & F & Hd). cbn [mbind option_bind].
  rewrite fmap_app in Hp, N. pose proof N as (N1 & Nd & N2)%list.NoDup_app.
  rewrite (sg_upd_eq mm p r _ Hr). cbn [mbind option_bind].
  set (mm1 := sg_set mm p _).
  assert (R1 : same_refs (mm_segs mm) (mm_segs mm1)) by (by apply (same_refs_set _ _ r)).
  destruct (set_prev_spec mm1 prev cur l2 lst (Some p)) as (h2 & lst2 & -> & R2 & D2 & A2);
    [apply dseg_frame; [set_solver|done]|done|]. cbn [mbind option_bind].
  set (mm2 := mm1 {{ mm_segs := h2 }}).
  destruct (set_next_spec mm2 l1 prev cur (Some p)) as (h3 & hd & -> & R3 & D3 & A3).
  { apply (dseg_agree (mm_segs mm1)); [|apply dseg_frame; [set_solver|done]].
    intros q Hq. apply A2. by apply Nd. }
  { done. }
  assert (R : same_refs (mm_segs mm) h3) by (by eapply same_refs_trans, same_refs_trans).
  eexists _, l1, l2. split; [reflexivity|]. repeat (split; [done|]). split; [|done].
  apply (stale_step (add1 X p) X (l1 ++ l2) _ mm); try done; [by apply same_refs_dom|].
  intros ix dq B. exists dq. apply (base_relink (add1 X p) X (l1 ++ l2) _ _ _ mm); [exact B|exact R|reflexivity|..].
  - exists lst2. apply dseg_app. exists prev, (Some p). split; [exact D3|]. split; [done|].
    exists (r {{ sg_next := cur; sg_prev := prev }}). split; [|split; [done|split; [done|]]].
    + change (h3 !! p = Some (r {{ sg_next := cur; sg_prev := prev }})).
      rewrite A3, A2 by set_solver. apply lookup_insert_eq.
    + change (dseg h3 (Some p) cur l2 lst2 None). apply (dseg_agree h2); [|done].
      intros q Hq. apply A3. set_solver.
  - rewrite fmap_app. cbn [fmap list_fmap fst].
    rewrite <- Permutation_middle. apply list.NoDup_cons. split; [|done]. set_solver.
  - intros q. rewrite !fmap_app. cbn [fmap list_fmap fst]. rewrite cnt_insert by set_solver.
    unfold add1. destruct (decide (q = p)); lia.
  - by apply small_base.
Qed.

(** The address space gives up a record that has left the list. *)
Lemma defer_spec X l ix dq mm p : base (add1 X p) l ix dq mm -> small X ->
  exists mm' dq', mm_vma_defer mm p = Some mm' /\ base X l ix dq' mm' /\
    same_dom (mm_segs mm) (mm_segs mm') /\ same_map (mm_segs mm) (mm_segs mm') /\
    env mm' = env mm /\ index_of mm' = index_of mm /\ mm_events mm' = mm_events mm.
Proof.
  intros B Hs. destruct (put_spec X l ix dq mm p B) as (h & d & dq' & E & S & B' & _); [apply Hs|].
  eexists _, dq'. split; [exact E|]. split; [exact B'|]. split; [by apply same_map_dom|].
  by split.
Qed.

Lemma small_add1_base X p : small X -> forall q, 0 <= add1 X p q <= 2147483000.
Proof. intros H q. specialize (H q). unfold add1. destruct (decide (q = p)); lia. Qed.

Lemma cnt_remove p q l1 l2 X : q ∉ l1 ++ l2 ->
  cnt p (l1 ++ l2) + add1 X q p = cnt p (l1 ++ q :: l2) + X p.
Proof. intros H. rewrite cnt_insert by done. unfold add1. destruct (decide (p = q)); lia. Qed.

(** A record is taken out of the list. *)
Lemma unlink_spec X l1 p c l2 mm r : stale X (l1 ++ (p, c) :: l2) mm -> sg mm p = Some r ->
  exists mm1 mm2 mm3, set_next mm (sg_prev r) (sg_next r) = Some mm1 /\
    set_prev mm1 (sg_next r) (sg_prev r) = Some mm2 /\ mm_vma_defer mm2 p = Some mm3 /\
    stale X (l1 ++ l2) mm3 /\ env mm3 = env mm /\ mm_events mm3 = mm_events mm.
Proof.
  intros I Hr. pose proof (proj1 (proj1 I)) as Hs. destruct (stale_base _ _ _ I) as (ix0 & dq0 & B0).
  destruct (inv_list _ _ _ (proj1 I)) as [[lst H] N].
  apply dseg_app in H as (m & n & H1 & -> & r' & Hr' & _ & Hp & H2).
  assert (r' = r) as -> by (unfold sg in Hr; congruence).
  rewrite fmap_app in N. cbn [fmap list_fmap fst] in N.
  pose proof N as (N1 & Nd & N2)%list.NoDup_app.
  apply list.NoDup_cons in N2 as [Np N2].
  destruct (set_next_spec mm l1 m (Some p) (sg_next r) H1 N1) as (h1 & hd & E1 & R1 & D1 & A1).
  rewrite Hp, E1. set (mm1 := mm {{ mm_segs := h1; mm_mmap := hd }}).
  destruct (set_prev_spec mm1 (Some p) (sg_next r) l2 lst m) as (h2 & lst2 & E2 & R2 & D2 & A2).
  { apply (dseg_agree (mm_segs mm)); [|done]. intros q Hq. apply A1. set_solver. }
  { done. }
  set (mm2 := mm1 {{ mm_segs := h2 }}).
  assert (R : same_refs (mm_segs mm) h2) by (by eapply same_refs_trans).
  assert (B : forall ix dq, base X (l1 ++ (p, c) :: l2) ix dq mm -> base (add1 X p) (l1 ++ l2) ix dq mm2).
  { intros ix dq B. eapply (base_relink X); [exact B|exact R|reflexivity|..].
    - exists lst2. apply dseg_app. exists m, (sg_next r). split; [|exact D2].
      apply (dseg_agree h1); [|exact D1]. intros q Hq. apply A2. set_solver.
    - rewrite fmap_app. apply list.NoDup_app. repeat split; [done| |done]. set_solver.
    - intros q. rewrite !fmap_app. apply cnt_remove. set_solver.
    - by apply small_add1_base. }
  destruct (defer_spec X _ _ _ mm2 p (B _ _ B0) Hs) as (mm3 & _ & E3 & _ & Dm & _ & Ev & Ix & Es).
  exists mm1, mm2, mm3. repeat (split; [done|]). split; [|by split].
  apply (stale_step X X (l1 ++ (p, c) :: l2) _ mm); [exact I|exact Hs| |exact Ev|exact Ix|].
  - intros q. rewrite (Dm q). by apply same_refs_dom.
  - intros ix dq HB. destruct (defer_spec X _ _ _ mm2 p (B _ _ HB) Hs) as (mm3' & dq' & E3' & B3 & _).
    exists dq'. congruence.
Qed.

(** [a] takes over the extent of its neighbour [b]. *)
Lemma absorb_spec X l1 a ca b cb l2 mm : stale X (l1 ++ (a, ca) :: (b, cb) :: l2) mm ->
  exists mm', absorb mm a b = Some mm' /\
    stale X (l1 ++ (a, ca {{ c_end := c_end cb }}) :: l2) mm' /\ env mm' = env mm /\
    mm_events mm' = mm_events mm.
Proof.
  intros I. pose proof (proj1 (proj1 I)) as Hs. destruct (stale_base _ _ _ I) as (ix0 & dq0 & B0).
  destruct (inv_list _ _ _ (proj1 I)) as [[lst H] N].
  apply dseg_app in H as (m & n & H1 & -> & ra & Hra & Hca & Hpa & Hb & rb & Hrb & Hcb & Hpb & H2).
  rewrite fmap_app in N. cbn [fmap list_fmap fst] in N.
  pose proof N as (N1 & Nd & N2)%list.NoDup_app.
  apply list.NoDup_cons in N2 as [Na N2]. apply list.NoDup_cons in N2 as [Nb N2].
  unfold absorb. change (sg mm b) with (mm_segs mm !! b). rewrite Hrb. cbn [mbind option_bind].
  rewrite (sg_upd_eq mm a ra _ Hra). cbn [mbind option_bind].
  set (mm1 := sg_set mm a _).
  assert (R1 : same_refs (mm_segs mm) (mm_segs mm1)) by (by apply (same_refs_set _ _ ra)).
  destruct (set_prev_spec mm1 (Some b) (sg_next rb) l2 lst (Some a)) as (h2 & lst2 & -> & R2 & D2 & A2);
    [apply dseg_frame; [set_solver|done]|done|]. cbn [mbind option_bind].
  set (mm2 := mm1 {{ mm_segs := h2 }}).
  assert (R : same_refs (mm_segs mm) h2) by (by eapply same_refs_trans).
  assert (B : forall ix dq, base X (l1 ++ (a, ca) :: (b, cb) :: l2) ix dq mm ->
                base (add1 X b) (l1 ++ (a, ca {{ c_end := c_end cb }}) :: l2) ix dq mm2).
  { intros ix dq B. eapply (base_relink X); [exact B|exact R|reflexivity|..].
    - exists lst2. apply dseg_app. exists m, (Some a). split.
      + apply (dseg_agree (mm_segs mm1)); [intros q Hq; apply A2; set_solver|].
        apply dseg_frame; [set_solver|exact H1].
      + split; [done|]. exists (ra {{ sg_end := sg_end rb; sg_next := sg_next rb }}).
        split; [|by subst ca cb; repeat split].
        change (h2 !! a = Some (ra {{ sg_end := sg_end rb; sg_next := sg_next rb }})).
        rewrite A2 by set_solver. apply lookup_insert_eq.
    - rewrite fmap_app. cbn [fmap list_fmap fst]. apply list.NoDup_app. split; [done|].
      split; [set_solver|]. apply list.NoDup_cons. split; [set_solver|done].
    - intros q. rewrite !fmap_app. cbn [fmap list_fmap fst].
      change (l1.*1 ++ a :: b :: l2.*1) with (l1.*1 ++ [a] ++ b :: l2.*1).
      change (l1.*1 ++ a :: l2.*1) with (l1.*1 ++ [a] ++ l2.*1). rewrite !(assoc_L (++)).
      apply cnt_remove. set_solver.
    - by apply small_add1_base. }
  destruct (defer_spec X _ _ _ mm2 b (B _ _ B0) Hs) as (mm3 & _ & E3 & _ & Dm & _ & Ev & Ix & Es).
  exists mm3. split; [exact E3|]. split; [|by split].
  apply (stale_step X X (l1 ++ (a, ca) :: (b, cb) :: l2) _ mm);
    [exact I|exact Hs| |exact Ev|exact Ix|].
  - intros q. rewrite (Dm q). by apply same_refs_dom.
  - intros ix dq HB. destruct (defer_spec X _ _ _ mm2 b (B _ _ HB) Hs) as (mm3' & dq' & E3' & B3 & _).
    exists dq'. congruence.
Qed.

(** The second half of a split enters the list behind the first. *)
Lemma link_tail_spec X l1 v c l2 mm t rt e : stale (add1 X t) (l1 ++ (v, c) :: l2) mm -> small X ->
  (t ∉ (l1 ++ (v, c) :: l2).*1) -> sg mm t = Some rt ->
  exists mm', link_tail mm v t e = Some mm' /\
    stale X (l1 ++ (v, c {{ c_end := e }}) :: (t, core rt) :: l2) mm' /\ env mm' = env mm /\
    mm_events mm' = mm_events mm.
Proof.
  intros I Hs Ht Hrt. destruct (inv_list _ _ _ (proj1 I)) as [[lst H] N].
  apply dseg_app in H as (m & n & H1 & -> & r & Hr & Hc & Hp & H2).
  rewrite fmap_app in N, Ht. cbn [fmap list_fmap fst] in N, Ht.
  pose proof N as (N1 & Nd & N2)%list.NoDup_app. apply list.NoDup_cons in N2 as [Nv N2].
  unfold link_tail. change (sg mm v) with (mm_segs mm !! v). rewrite Hr. cbn [mbind option_bind].
  rewrite (sg_upd_eq mm t rt _ Hrt). cbn [mbind option_bind]. set (mm1 := sg_set mm t _).
  assert (R1 : same_refs (mm_segs mm) (mm_segs mm1)) by (by apply (same_refs_set _ _ rt)).
  destruct (set_prev_spec mm1 (Some v) (sg_next r) l2 lst (Some t)) as (h2 & lst2 & -> & R2 & D2 & A2);
    [apply dseg_frame; [set_solver|done]|done|]. cbn [mbind option_bind].
  set (mm2 := mm1 {{ mm_segs := h2 }}).
  assert (Hv : sg mm2 v = Some r).
  { change (h2 !! v = Some r). rewrite A2 by set_solver.
    change (<[t := rt {{ sg_prev := Some v; sg_next := sg_next r }}]> (mm_segs mm) !! v = Some r).
    rewrite lookup_insert_ne by set_solver. done. }
  rewrite (sg_upd_eq mm2 v r _ Hv). eexists. split; [reflexivity|]. split; [|done].
  assert (R : same_refs (mm_segs mm) (<[v := r {{ sg_end := e; sg_next := Some t }}]> h2)).
  { eapply same_refs_trans; [exact R1|]. eapply same_refs_trans; [exact R2|].
    by apply (same_refs_set _ _ r). }
  apply (stale_step (add1 X t) X (l1 ++ (v, c) :: l2) _ mm);
    [exact I|exact Hs|by apply same_refs_dom|reflexivity|reflexivity|].
  intros ix dq B. exists dq.
  eapply (base_relink (add1 X t)); [exact B|exact R|reflexivity|..].
  - exists lst2. apply dseg_app. exists m, (Some v). split; [|split; [done|]].
    + apply dseg_frame; [set_solver|]. apply (dseg_agree (mm_segs mm1)).
      * intros q Hq. apply A2. set_solver.
      * apply dseg_frame; [set_solver|exact H1].
    + eexists. split; [apply lookup_insert_eq|]. split; [by subst c|]. split; [exact Hp|].
      split; [done|]. exists (rt {{ sg_prev := Some v; sg_next := sg_next r }}).
      split; [|split; [done|split; [done|]]].
      * change (<[v := r {{ sg_end := e; sg_next := Some t }}]> h2 !! t =
                Some (rt {{ sg_prev := Some v; sg_next := sg_next r }})).
        rewrite lookup_insert_ne by set_solver. rewrite A2 by set_solver. apply lookup_insert_eq.
      * change (dseg (<[v := r {{ sg_end := e; sg_next := Some t }}]> h2) (Some t) (sg_next r) l2 lst2 None).
        apply dseg_frame; [set_solver|exact D2].
  - rewrite fmap_app. cbn [fmap list_fmap fst]. apply list.NoDup_app. split; [done|].
    split; [set_solver|]. apply list.NoDup_cons. split; [set_solver|].
    apply list.NoDup_cons. split; [set_solver|done].
  - intros q. rewrite !fmap_app. cbn [fmap list_fmap fst].
    change (l1.*1 ++ v :: t :: l2.*1) with (l1.*1 ++ [v] ++ t :: l2.*1).
    change (l1.*1 ++ v :: l2.*1) with (l1.*1 ++ [v] ++ l2.*1). rewrite !(assoc_L (++)).
    symmetry. apply cnt_remove. set_solver.
  - by apply small_base.
Qed.

(** ** Records on their own *)

(** A change of what a record of the list maps. *)
Lemma set_core_spec X l1 p c l2 mm r r' : inv X (l1 ++ (p, c) :: l2) mm -> sg mm p = Some r ->
  sg_refcount r' = sg_refcount r -> sg_released r' = sg_released r ->
  sg_deferred_next r' = sg_deferred_next r -> sg_prev r' = sg_prev r -> sg_next r' = sg_next r ->
  inv X (l1 ++ (p, core r') :: l2) (sg_set mm p r').
Proof.
  intros I Hr Ec Er Ed Ep En. destruct (inv_list _ _ _ I) as [[lst H] N].
  destruct I as (Hs & A & ix & dq & [B L S C St]).
  assert (R : same_refs (mm_segs mm) (<[p := r']> (mm_segs mm))) by (by apply (same_refs_set _ _ r)).
  split; [exact Hs|]. split; [by apply (al_ok_dom mm); [apply same_refs_dom|..]|].
  assert (El : (l1 ++ (p, core r') :: l2).*1 = (l1 ++ (p, c) :: l2).*1) by (by rewrite !fmap_app).
  exists ix, dq. split; [|exact L|exact S|exact C|rewrite El; exact St].
  apply (base_relink X X (l1 ++ (p, c) :: l2) _ _ _ mm); [exact B|exact R|reflexivity|..].
  - apply dseg_app in H as (m & n & H1 & -> & r0 & Hr0 & _ & Hp & H2).
    assert (r0 = r) as -> by (unfold sg in Hr; congruence).
    rewrite fmap_app in N. cbn [fmap list_fmap fst] in N. apply list.NoDup_app in N as (_ & Nd & N2).
    apply list.NoDup_cons in N2 as [Np _].
    exists lst. apply dseg_app. exists m, (Some p). split; [apply dseg_frame; [set_solver|done]|].
    split; [done|]. exists r'. split; [apply lookup_insert_eq|]. split; [done|].
    split; [congruence|]. rewrite En. by apply dseg_frame.
  - by rewrite El.
  - intros q. by rewrite El.
  - by apply small_base.
Qed.

(** A change of a record that is not in the list and not queued. *)
Lemma set_ext_spec X l mm p r r' : inv X l mm -> sg mm p = Some r -> (p ∉ l.*1) -> 0 < X p ->
  sg_refcount r' = sg_refcount r -> sg_released r' = sg_released r -> inv X l (sg_set mm p r').
Proof.
  intros (Hs & A & ix & dq & [B L S C St]) Hr Hp Hx Ec Er.
  split; [exact Hs|]. split.
  { apply (al_ok_dom mm); [|done|done]. intros q. destruct (decide (p = q)) as [<-|].
    - change (<[p := r']> (mm_segs mm) !! p = None <-> mm_segs mm !! p = None).
      unfold sg in Hr. by rewrite lookup_insert_eq, Hr.
    - change (<[p := r']> (mm_segs mm) !! q = None <-> mm_segs mm !! q = None).
      by rewrite lookup_insert_ne. }
  exists ix, dq. split; [|exact L|exact S|exact C|exact St].
  assert (Hq : p ∉ dq). { intros Hin. destruct (b_only _ _ _ _ _ B p Hin) as (_ & _ & ?). lia. }
  destruct B as [B1 B2 B3 B4 B5 B6 B7 B8]. split; [|done|done|done| | |done|done].
  - destruct B1 as [lst B1]. exists lst. by apply dseg_frame.
  - by apply dchain_frame.
  - intros q. specialize (B6 q). destruct (decide (p = q)) as [<-|].
    + change (mm_segs (sg_set mm p r') !! p) with (<[p := r']> (mm_segs mm) !! p).
      rewrite lookup_insert_eq. unfold sg in Hr. rewrite Hr in B6. rewrite Ec, Er. done.
    + change (mm_segs (sg_set mm p r') !! q) with (<[p := r']> (mm_segs mm) !! q).
      by rewrite lookup_insert_ne.
Qed.

Lemma small_fresh X p : small X -> X p = 0 -> small (add1 X p).
Proof. intros H E q. specialize (H q). unfold add1. destruct (decide (q = p)) as [->|]; lia. Qed.

(** No holders: in no list. *)
Lemma base_dead X l ix dq mm p : base X l ix dq mm -> mm_segs mm !! p = None ->
  (p ∉ l.*1) /\ (p ∉ ix) /\ (p ∉ dq) /\ X p = 0.
Proof.
  intros B E. pose proof (b_refs _ _ _ _ _ B p) as R. pose proof (b_ext _ _ _ _ _ B p).
  rewrite E in R. unfold holders in R. pose proof (cnt_range p l.*1). pose proof (cnt_range p ix).
  pose proof (cnt_range p dq). repeat split; [intros ?%cnt_in..|]; lia.
Qed.

(** A new record, held by its creator, or no memory. *)
Lemma new_spec X l mm : inv X l mm ->
  (exists mm', mm_seg_new mm = Some (mm', None) /\ (mm_kcalloc mm = [] \/ head (mm_kcalloc mm) = Some None) /\
     inv X l mm' /\ rest mm' = rest mm /\ mm_events mm' = mm_events mm /\
     mm_seg_index_state mm' = mm_seg_index_state mm) \/
  (exists mm' p, mm_seg_new mm = Some (mm', Some p) /\ (p ∉ l.*1) /\ X p = 0 /\
     inv (add1 X p) l mm' /\ sg mm p = None /\ mm_segs mm' = <[p := seg_zero]> (mm_segs mm) /\
     mm_kcalloc mm = Some p :: mm_kcalloc mm' /\ rest mm' = rest mm /\
     mm_events mm' = mm_events mm /\ mm_seg_index_state mm' = mm_seg_index_state mm).
Proof.
  intros I. pose proof I as (Hs & [An Af] & ix & dq & [B L S C St]). unfold mm_seg_new.
  destruct (mm_kcalloc mm) as [|[p|] al] eqn:Ea.
  - left. exists mm. repeat (split; [tauto|]). done.
  - right. assert (Hp : sg mm p = None) by (apply Af; by left). rewrite Hp.
    destruct (base_dead _ _ _ _ _ p B Hp) as (Hl & Hi & Hd & Hx).
    eexists _, p. split; [reflexivity|]. split; [done|]. split; [done|]. split; [|by repeat split].
    split; [by apply small_fresh|]. cbn [omap list_omap id] in An. apply list.NoDup_cons in An as [An0 An].
    split.
    { split; [exact An|]. intros q Hq. change (<[p := seg_zero]> (mm_segs mm) !! q = None).
      rewrite lookup_insert_ne; [apply Af; by right|]. intros <-. apply An0.
      apply list_elem_of_omap. by exists (Some p). }
    exists ix, dq. split; [|exact L|exact S|exact C|exact St].
    destruct B as [B1 B2 B3 B4 B5 B6 B7 B8]. split; [|done|done|done| | | |].
    + destruct B1 as [lst B1]. exists lst. by apply dseg_frame.
    + by apply dchain_frame.
    + intros q. specialize (B6 q). rewrite holders_add1.
      change (mm_segs (sg_set (mm {{ mm_kcalloc := al }}) p seg_zero) !! q)
        with (<[p := seg_zero]> (mm_segs mm) !! q).
      destruct (decide (q = p)) as [->|].
      * rewrite lookup_insert_eq. unfold sg in Hp. rewrite Hp in B6. rewrite B6. done.
      * rewrite lookup_insert_ne by done. by rewrite Z.add_0_r.
    + exact (small_add1_base X p Hs).
    + intros q Hq. rewrite add1_ne; [by apply B8|]. by intros ->.
  - left. eexists. split; [reflexivity|]. split; [by right|]. split; [|by repeat split].
    split; [done|]. split; [split; [exact An|intros p Hp; apply Af; by right]|].
    exists ix, dq. split; [by eapply base_fields; [..|exact B]|exact L|exact S|exact C|exact St].
Qed.

(** [kfree] of a record that only its creator holds. *)
Lemma kfree_spec X l mm p r : inv (add1 X p) l mm -> small X -> X p = 0 -> sg mm p = Some r ->
  sg_refcount r = 1 -> (forall q, (Some q ∈ mm_kcalloc mm) -> q <> p) ->
  inv X l (kfree mm p).
Proof.
  intros (_ & [An Af] & ix & dq & [B L S C St]) Hs Hx Hr Hc Hk. split; [exact Hs|]. split.
  { split; [exact An|]. intros q Hq. change (delete p (mm_segs mm) !! q = None).
    rewrite lookup_delete_ne; [by apply Af|]. intros <-. by apply (Hk p Hq). }
  exists ix, dq. split; [|exact L|exact S|exact C|exact St].
  pose proof (b_refs _ _ _ _ _ B p) as R. unfold sg in Hr. rewrite Hr, Hc in R.
  destruct R as (R & _). rewrite holders_add1, decide_True in R by done. unfold holders in R.
  pose proof (cnt_range p l.*1). pose proof (cnt_range p ix). pose proof (cnt_range p dq).
  assert (Hl : p ∉ l.*1) by (intros ?%cnt_in; lia).
  assert (Hd : p ∉ dq) by (intros ?%cnt_in; lia).
  destruct B as [B1 B2 B3 B4 B5 B6 B7 B8]. split; [|done|done|done| | |by apply small_base|].
  - destruct B1 as [lst B1]. exists lst. by apply dseg_delete.
  - revert B5. change (mm_deferred_vma (kfree mm p)) with (mm_deferred_vma mm).
    change (mm_segs (kfree mm p)) with (delete p (mm_segs mm)).
    generalize (mm_deferred_vma mm). clear -Hd. induction dq as [|q dq IH]; intros d; cbn [dchain]; [done|].
    apply list.not_elem_of_cons in Hd as [Hq Hd]. intros (-> & s & Hsq & H). split; [done|].
    exists s. rewrite lookup_delete_ne by done. split; [done|]. by apply IH.
  - intros q. specialize (B6 q). rewrite holders_add1 in B6.
    change (mm_segs (kfree mm p) !! q) with (delete p (mm_segs mm) !! q).
    destruct (decide (q = p)) as [->|].
    + rewrite lookup_delete_eq. unfold holders. lia.
    + rewrite lookup_delete_ne by done. by rewrite Z.add_0_r in B6.
  - intros q Hq. destruct (B8 q Hq) as (? & ? & Hxq). repeat split; try done.
    rewrite add1_ne in Hxq; [done|]. by intros ->.
Qed.
