(* ===== verification/AddrView.v ===== *)
(** * Address spaces: what an address means

    The view of an address space: for every address the flags and the place in
    the backing object.  Insertion adds a range to it; splitting and merging
    records do not show in it.  The names that the page table carries are the
    ranges of the file and VMO mappings. *)

From stdpp Require Import gmap.
From S2P Require Import Prelude AddrSpace AddrTheory AddrOps.

(** ** The view *)

(** The object behind an address of a mapping and the offset in it. *)
Definition place (c : seg_core) (x : Z) : option (option Z * Z) :=
  let off := u64 (c_off c + (x - c_start c)) in
  if has (c_flags c) VM_FILE then Some (c_file c, off)
  else if has (c_flags c) VM_VMO then Some (c_vmo c, off)
  else None.

(** The flags, the protection, the object, the SysV segment. *)
Definition attr (c : seg_core) (x : Z) : Z * Z * option (option Z * Z) * option Z :=
  (c_flags c, c_pte c, place c x, if has (c_flags c) VM_SYSV_SHM then Some (c_shmid c) else None).

Definition view (l : list (nat * seg_core)) (x : Z) :=
  match seg_at l x with Some (_, c) => Some (attr c x) | None => None end.

Definition inside (s e x : Z) : bool := (s <=? x) && (x <? e).

Lemma inside_true s e x : inside s e x = true <-> s <= x < e.
Proof. unfold inside. rewrite andb_true_iff, Z.leb_le, Z.ltb_lt. done. Qed.

Lemma inside_false s e x : inside s e x = false <-> x < s \/ e <= x.
Proof.
  unfold inside. destruct (Z.leb_spec s x), (Z.ltb_spec x e); cbn; split; intros; try done; lia.
Qed.

Lemma view_cons p c l x :
  view ((p, c) :: l) x = if inside (c_start c) (c_end c) x then Some (attr c x) else view l x.
Proof. unfold view, inside. cbn [seg_at]. by destruct (_ && _). Qed.

Lemma view_app l1 l2 x :
  view (l1 ++ l2) x = match view l1 x with Some a => Some a | None => view l2 x end.
Proof.
  induction l1 as [|[p c] l1 IH]; [done|]. cbn [app]. rewrite !view_cons.
  destruct (inside _ _ x); [done|exact IH].
Qed.

Lemma view_below lo l x : ordered lo l -> x < lo -> view l x = None.
Proof.
  revert lo. induction l as [|[p c] l IH]; intros lo; [done|]. intros (? & ? & H) Hx.
  rewrite view_cons, (proj2 (inside_false _ _ _)) by lia. apply (IH _ H). lia.
Qed.

Lemma view_above lo l x : ordered lo l -> upper lo l <= x -> view l x = None.
Proof.
  revert lo. induction l as [|[p c] l IH]; intros lo; [done|]. intros (? & ? & H) Hx. cbn [upper] in Hx.
  pose proof (upper_ge _ _ H). rewrite view_cons, (proj2 (inside_false _ _ _)) by lia.
  apply (IH _ H). lia.
Qed.

(** The range is free. *)
Definition free (l : list (nat * seg_core)) (s e : Z) : Prop :=
  forall q d, (q, d) ∈ l -> c_end d <= s \/ e <= c_start d.

Lemma free_view l s e x : free l s e -> s <= x < e -> view l x = None.
Proof.
  induction l as [|[p c] l IH]; intros F Hx; [done|]. rewrite view_cons.
  destruct (F p c) as [H|H]; [by left| |]; rewrite (proj2 (inside_false _ _ _)) by lia;
    (apply IH; [intros q d Hq; apply (F q d); by right|done]).
Qed.

Lemma view_insert l1 p c l2 x : free (l1 ++ l2) (c_start c) (c_end c) ->
  view (l1 ++ (p, c) :: l2) x =
    if inside (c_start c) (c_end c) x then Some (attr c x) else view (l1 ++ l2) x.
Proof.
  intros F. rewrite !view_app, view_cons. destruct (inside _ _ x) eqn:E; [|done].
  apply inside_true in E. rewrite (free_view l1 _ _ x) with (2 := E); [done|].
  intros q d Hq. apply (F q d). set_solver.
Qed.

Lemma ordered_insert lo l1 p c l2 : ordered lo (l1 ++ l2) -> free (l1 ++ l2) (c_start c) (c_end c) ->
  lo <= c_start c < c_end c -> Forall (fun x => c_start x.2 < c_start c) l1 ->
  match l2 with [] => True | (_, d) :: _ => c_start c <= c_start d end ->
  ordered lo (l1 ++ (p, c) :: l2).
Proof.
  revert lo. induction l1 as [|[q d] l1 IH]; intros lo; cbn [app ordered].
  - intros Ho F Hc _ H2. repeat split; [lia..|]. destruct l2 as [|[q d] l2]; [done|].
    destruct Ho as (H3 & H4 & H5). repeat split; [|done|done].
    destruct (F q d) as [?|?]; [by left|lia|lia].
  - intros (H3 & H4 & Ho) F Hc F1 H2. inversion F1; subst. repeat split; [done|done|].
    cbn in *. destruct (F q d) as [?|?]; [by left| |lia].
    apply IH; try done; [|lia]. intros q' d' Hq. apply (F q' d'). by right.
Qed.

(** A record with another end, and the second half of a record cut at [addr]. *)
Definition with_end (c : seg_core) (e : Z) : seg_core := c {{ c_end := e }}.

Definition tail_core (c : seg_core) (addr : Z) : seg_core :=
  c {{ c_start := addr; c_off := u64 (c_off c + u64 (addr - c_start c)) }}.

Lemma with_end_start c e : c_start (with_end c e) = c_start c. Proof. done. Qed.
Lemma with_end_end c e : c_end (with_end c e) = e. Proof. done. Qed.
Lemma with_end_flags c e : c_flags (with_end c e) = c_flags c. Proof. done. Qed.
Lemma with_end_attr c e x : attr (with_end c e) x = attr c x. Proof. done. Qed.
Lemma tail_start c a : c_start (tail_core c a) = a. Proof. done. Qed.
Lemma tail_end c a : c_end (tail_core c a) = c_end c. Proof. done. Qed.
Lemma tail_flags c a : c_flags (tail_core c a) = c_flags c. Proof. done. Qed.

Create Rewrite HintDb core_fields.
#[export] Hint Rewrite with_end_start with_end_end with_end_flags with_end_attr tail_start tail_end
  tail_flags : core_fields.
Ltac core_fields := autorewrite with core_fields in *.

(** ** Merging *)

Definition core_can_merge (a b : seg_core) : bool :=
  seg_can_merge (mk_seg 0 (c_start a) (c_end a) (c_off a) (c_flags a) (c_pte a) 0 0 (c_file a)
                   None (c_vmo a) false None None None)
                (mk_seg 0 (c_start b) (c_end b) (c_off b) (c_flags b) (c_pte b) 0 0 (c_file b)
                   None (c_vmo b) false None None None).

Lemma can_merge_core a b : seg_can_merge a b = core_can_merge (core a) (core b).
Proof. done. Qed.

Lemma u64_add_l a b : u64 (u64 a + b) = u64 (a + b).
Proof. unfold u64. apply Z.add_mod_idemp_l. lia. Qed.

Lemma u64_add_r a b : u64 (a + u64 b) = u64 (a + b).
Proof. unfold u64. apply Z.add_mod_idemp_r. lia. Qed.

(** The offset of [x] counted from [e] instead of from [s]. *)
Lemma u64_rebase o s e x : u64 (u64 (o + u64 (e - s)) + (x - e)) = u64 (o + (x - s)).
Proof.
  rewrite u64_add_l. replace (o + u64 (e - s) + (x - e)) with (o + (x - e) + u64 (e - s)) by lia.
  rewrite u64_add_r. f_equal. lia.
Qed.

(** What the test promises: neighbours that mean the same everywhere. *)
Lemma can_merge_sound a b : core_can_merge a b = true ->
  c_end a = c_start b /\ forall x, attr a x = attr b x.
Proof.
  unfold core_can_merge, seg_can_merge.
  cbn [sg_start sg_end sg_vm_flags sg_pte_flags sg_file sg_vmo sg_backing_offset].
  destruct (Z.eqb_spec (c_end a) (c_start b)) as [E|]; [|done]. cbn [negb].
  destruct (has _ VM_SYSV_SHM) eqn:Hs; [done|].
  destruct (Z.eqb_spec (c_flags a) (c_flags b)) as [F|]; [|done].
  destruct (Z.eqb_spec (c_pte a) (c_pte b)) as [P|]; [|done]. cbn [negb orb].
  rewrite F, Z.lor_diag in *. rewrite <- E.
  assert (Hoff : c_off b = u64 (c_off a + u64 (c_end a - c_start a)) ->
    forall x, u64 (c_off a + (x - c_start a)) = u64 (c_off b + (x - c_end a))).
  { intros -> x. by rewrite u64_rebase. }
  unfold attr, place. rewrite F, P, Hs, <- E.
  destruct (has (c_flags b) VM_FILE).
  - destruct (bool_decide_reflect (c_file a = c_file b)) as [Hf|]; [|done]. cbn [negb].
    intros Ho%Z.eqb_eq. split; [done|]. intros x. by rewrite Hf, (Hoff (eq_sym Ho) x).
  - destruct (has (c_flags b) VM_VMO); cbn [negb orb]; [|done].
    destruct (bool_decide_reflect (c_vmo a = c_vmo b)) as [Hf|]; [|done]. cbn [negb].
    intros Ho%Z.eqb_eq. split; [done|]. intros x. by rewrite Hf, (Hoff (eq_sym Ho) x).
Qed.

Lemma absorb_view l1 a ca b cb l2 : ordered 0 (l1 ++ (a, ca) :: (b, cb) :: l2) ->
  core_can_merge ca cb = true ->
  ordered 0 (l1 ++ (a, with_end ca (c_end cb)) :: l2) /\
  forall x, view (l1 ++ (a, with_end ca (c_end cb)) :: l2) x =
            view (l1 ++ (a, ca) :: (b, cb) :: l2) x.
Proof.
  intros (H1 & H2 & H3 & H4 & H5 & H6)%ordered_app (E & A)%can_merge_sound. split.
  - apply ordered_app. split; [done|]. cbn [ordered]. core_fields. repeat split; [lia..|done].
  - intros x. rewrite !view_app. destruct (view l1 x); [done|]. rewrite !view_cons.
    core_fields. unfold inside. rewrite E in *.
    destruct (Z.leb_spec (c_start ca) x), (Z.ltb_spec x (c_start cb)), (Z.leb_spec (c_start cb) x),
      (Z.ltb_spec x (c_end cb)); cbn; rewrite ?A; try done; lia.
Qed.

(** ** Splitting *)

Lemma attr_tail c addr x : attr (tail_core c addr) x = attr c x.
Proof.
  unfold attr, place, tail_core. cbn. by rewrite u64_rebase.
Qed.

Lemma split_view l1 v c t l2 addr : ordered 0 (l1 ++ (v, c) :: l2) -> c_start c < addr < c_end c ->
  ordered 0 (l1 ++ (v, with_end c addr) :: (t, tail_core c addr) :: l2) /\
  forall x, view (l1 ++ (v, with_end c addr) :: (t, tail_core c addr) :: l2) x =
            view (l1 ++ (v, c) :: l2) x.
Proof.
  intros (H1 & H2 & H3 & H4)%ordered_app Ha. split.
  - apply ordered_app. split; [done|]. cbn [ordered]. core_fields. repeat split; [lia..|done].
  - intros x. rewrite !view_app. destruct (view l1 x); [done|].
    rewrite !view_cons, attr_tail. core_fields. unfold inside.
    destruct (Z.leb_spec (c_start c) x), (Z.ltb_spec x addr), (Z.leb_spec addr x),
      (Z.ltb_spec x (c_end c)); cbn; try done; lia.
Qed.

(** ** Names in the page table *)

(** Whether [x] is named as part of [p] after the events. *)
Fixpoint named (evs : list mm_event) (p : nat) (x : Z) : bool :=
  match evs with
  | [] => false
  | SegAnnotate q s e :: evs' => (bool_decide (p = q) && inside s e x) || named evs' p x
  | SegRetire q s e :: evs' => negb (bool_decide (p = q) && inside s e x) && named evs' p x
  | _ :: evs' => named evs' p x
  end.

Definition dispatchable (c : seg_core) : bool := has (c_flags c) (Z.lor VM_VMO VM_FILE).

(** Exactly the file and VMO mappings of [l] are named, over their range. *)
Definition names_ok (l : list (nat * seg_core)) (evs : list mm_event) : Prop :=
  forall p x, named evs p x = true <->
    exists c, (p, c) ∈ l /\ dispatchable c = true /\ c_start c <= x < c_end c.

Lemma retire_seg_eq mm p r : sg mm p = Some r -> sg_start r < sg_end r ->
  retire_seg mm p = Some (mm {{ mm_events := SegRetire p (sg_start r) (sg_end r) :: mm_events mm }}).
Proof.
  intros Hr Hs. unfold retire_seg, mm_mmap_seg_retire. rewrite Hr. cbn [mbind option_bind].
  by rewrite (proj2 (Z.leb_gt _ _)).
Qed.

Lemma annotate_seg_eq mm p r : sg mm p = Some r -> sg_start r < sg_end r ->
  annotate_seg mm p =
    Some (mm {{ mm_events := if dispatchable (core r)
                             then SegAnnotate p (sg_start r) (sg_end r) :: mm_events mm
                             else mm_events mm }}).
Proof.
  intros Hr Hs. unfold annotate_seg, mm_mmap_seg_annotate. rewrite Hr. cbn [mbind option_bind].
  rewrite (proj2 (Z.leb_gt _ _)) by done. cbn [orb].
  change (has (sg_vm_flags r) (Z.lor VM_VMO VM_FILE)) with (dispatchable (core r)).
  by destruct (dispatchable (core r)), mm.
Qed.

Lemma names_retire_out l evs p s e : p ∉ l.*1 -> names_ok l evs -> names_ok l (SegRetire p s e :: evs).
Proof.
  intros Hp H q x. specialize (H q x). cbn [named]. rewrite andb_true_iff, H, negb_true_iff, andb_false_iff.
  split; [tauto|]. intros (c & Hc & ?). split; [|by exists c]. left.
  apply bool_decide_eq_false. intros ->. apply Hp. apply list_elem_of_fmap. by exists (p, c).
Qed.

(** The whole range of a mapping is un-named: as if it had left the list. *)
Lemma names_retire l1 p c l2 evs : NoDup (l1 ++ (p, c) :: l2).*1 ->
  names_ok (l1 ++ (p, c) :: l2) evs -> names_ok (l1 ++ l2) (SegRetire p (c_start c) (c_end c) :: evs).
Proof.
  intros N H q x. specialize (H q x). cbn [named]. rewrite andb_true_iff, H, negb_true_iff, andb_false_iff.
  rewrite fmap_app in N. cbn [fmap list_fmap fst] in N. rewrite <- Permutation_middle in N.
  apply list.NoDup_cons in N as [Np N]. rewrite <- fmap_app in Np. split.
  - intros (Hn & d & Hd & Hdi & Hx). exists d. split; [|done].
    rewrite <- Permutation_middle in Hd. apply list.elem_of_cons in Hd as [[= -> ->]|Hd]; [|done].
    destruct Hn as [Hn|Hn]; [by apply bool_decide_eq_false in Hn|]. apply inside_false in Hn. lia.
  - intros (d & Hd & ?). split; [|exists d; split; [|done]; set_solver]. left.
    apply bool_decide_eq_false. intros ->. apply Np. apply list_elem_of_fmap. by exists (p, d).
Qed.

(** The events of naming a mapping over its range. *)
Definition annotated (p : nat) (c : seg_core) (evs : list mm_event) : list mm_event :=
  if dispatchable c then SegAnnotate p (c_start c) (c_end c) :: evs else evs.

Lemma names_annotate l1 p c l2 evs : names_ok (l1 ++ l2) evs ->
  names_ok (l1 ++ (p, c) :: l2) (annotated p c evs).
Proof.
  intros H q x. specialize (H q x). unfold annotated. setoid_rewrite <- Permutation_middle.
  setoid_rewrite list.elem_of_cons. destruct (dispatchable c) eqn:Hd; cbn [named].
  - rewrite orb_true_iff, andb_true_iff, bool_decide_eq_true, inside_true, H. split.
    + intros [[-> ?]|(d & ? & ?)]; [exists c|exists d]; tauto.
    + intros (d & [[= -> ->]|?] & ? & ?); [by left|right; by exists d].
  - rewrite H. split.
    + intros (d & ? & ?). exists d. tauto.
    + intros (d & [[= -> ->]|?] & ? & ?); [congruence|by exists d].
Qed.

(** The same for a mapping that was named over a part of its range. *)
Lemma names_extend l1 p c0 c l2 evs : names_ok (l1 ++ (p, c0) :: l2) evs ->
  c_flags c0 = c_flags c -> c_start c <= c_start c0 -> c_end c0 <= c_end c ->
  names_ok (l1 ++ (p, c) :: l2) (annotated p c evs).
Proof.
  intros H F Hs He q x. specialize (H q x). unfold annotated. setoid_rewrite <- Permutation_middle.
  setoid_rewrite list.elem_of_cons.
  setoid_rewrite <- Permutation_middle in H. setoid_rewrite list.elem_of_cons in H.
  assert (D : dispatchable c0 = dispatchable c) by (unfold dispatchable; by rewrite F).
  destruct (dispatchable c) eqn:Hd; cbn [named].
  - rewrite orb_true_iff, andb_true_iff, bool_decide_eq_true, inside_true, H. split.
    + intros [[-> ?]|(d & [[= -> ->]|?] & ? & ?)]; [exists c; tauto|exists c|exists d; tauto].
      split; [tauto|]. split; [done|lia].
    + intros (d & [[= -> ->]|?] & ? & ?); [by left|right; exists d; tauto].
  - rewrite H. split.
    + intros (d & [[= -> ->]|?] & ? & ?); [congruence|exists d; tauto].
    + intros (d & [[= -> ->]|?] & ? & ?); [congruence|exists d; tauto].
Qed.

(** ** Insertion *)

Lemma merge_next X l1 a ca l2 mm r : inv X (l1 ++ (a, ca) :: l2) mm -> sg mm a = Some r ->
  vma_can_merge mm (Some a) (sg_next r) = Some false \/
  exists b cb l3, l2 = (b, cb) :: l3 /\ sg_next r = Some b /\
    vma_can_merge mm (Some a) (Some b) = Some true /\ core_can_merge ca cb = true.
Proof.
  intros I Hr. destruct (inv_links _ _ _ _ _ _ I) as (r0 & Hr0 & Hc & _ & Hn).
  assert (r0 = r) as -> by congruence. destruct l2 as [|[b cb] l3].
  - left. cbn [fmap list_fmap head hd_error] in Hn. by rewrite Hn.
  - cbn in Hn. rewrite Hn. destruct (inv_lookup _ _ _ b cb I) as (rb & Hrb & Hcb); [set_solver|].
    assert (Em : vma_can_merge mm (Some a) (Some b) = Some (core_can_merge ca cb)).
    { unfold vma_can_merge. rewrite Hr, Hrb. cbn [mbind option_bind]. by rewrite can_merge_core, Hc, Hcb. }
    rewrite Em. destruct (core_can_merge ca cb) eqn:E; [|by left]. right. exists b, cb, l3. by repeat split.
Qed.

Lemma merge_prev X l1 a ca l2 mm r : inv X (l1 ++ (a, ca) :: l2) mm -> sg mm a = Some r ->
  vma_can_merge mm (sg_prev r) (Some a) = Some false \/
  exists b cb l0, l1 = l0 ++ [(b, cb)] /\ sg_prev r = Some b /\
    vma_can_merge mm (Some b) (Some a) = Some true /\ core_can_merge cb ca = true.
Proof.
  intros I Hr. destruct (inv_links _ _ _ _ _ _ I) as (r0 & Hr0 & Hc & Hn & _).
  assert (r0 = r) as -> by congruence. destruct (exists_last_or_nil l1) as [->|(l0 & [b cb] & ->)].
  - left. cbn in Hn. by rewrite Hn.
  - rewrite fmap_app in Hn. cbn [fmap list_fmap fst] in Hn. rewrite last_snoc in Hn. rewrite Hn.
    destruct (inv_lookup _ _ _ b cb I) as (rb & Hrb & Hcb); [set_solver|].
    assert (Em : vma_can_merge mm (Some b) (Some a) = Some (core_can_merge cb ca)).
    { unfold vma_can_merge. rewrite Hr, Hrb. cbn [mbind option_bind]. by rewrite can_merge_core, Hc, Hcb. }
    rewrite Em. destruct (core_can_merge cb ca) eqn:E; [|by left]. right. exists b, cb, l0. by repeat split.
Qed.

Lemma inv_ext X l mm : inv X l mm -> forall p c, (p, c) ∈ l -> ordered 0 l -> forall r, sg mm p = Some r ->
  sg_start r = c_start c /\ sg_end r = c_end c /\ core r = c /\ sg_start r < sg_end r.
Proof.
  intros I p c Hp Ho r Hr. destruct (inv_lookup _ _ _ _ _ I Hp) as (r' & Hr' & Hc).
  assert (r' = r) as -> by congruence. destruct (ordered_lower _ _ _ _ Ho Hp).
  subst c. repeat split; cbn in *; lia.
Qed.

Lemma rec_of X l1 p c l2 mm : inv X (l1 ++ (p, c) :: l2) mm -> ordered 0 (l1 ++ (p, c) :: l2) ->
  exists r, sg mm p = Some r /\ core r = c /\ sg_start r = c_start c /\ sg_end r = c_end c /\
    sg_start r < sg_end r.
Proof.
  intros I Ho. destruct (inv_lookup _ _ _ p c I) as (r & Hr & Hc); [set_solver|].
  destruct (inv_ext _ _ _ I p c ltac:(set_solver) Ho r Hr) as (? & ? & ? & ?). by exists r.
Qed.

(** [retire] and [annotate] of a whole record of the list. *)
Lemma retire_list X l1 p c l2 mm : inv X (l1 ++ (p, c) :: l2) mm -> ordered 0 (l1 ++ (p, c) :: l2) ->
  retire_seg mm p = Some (mm {{ mm_events := SegRetire p (c_start c) (c_end c) :: mm_events mm }}).
Proof.
  intros I Ho. destruct (rec_of _ _ _ _ _ _ I Ho) as (r & Hr & _ & <- & <- & H). by apply retire_seg_eq.
Qed.

Lemma annotate_list X l1 p c l2 mm : inv X (l1 ++ (p, c) :: l2) mm -> ordered 0 (l1 ++ (p, c) :: l2) ->
  annotate_seg mm p = Some (mm {{ mm_events := annotated p c (mm_events mm) }}).
Proof.
  intros I Ho. destruct (rec_of _ _ _ _ _ _ I Ho) as (r & Hr & <- & _ & _ & H).
  by apply annotate_seg_eq.
Qed.

(** The survivor of the merges takes its name; before, the list [ln] is named. *)
Definition merged (X : nat -> Z) (l : list (nat * seg_core)) (mm mm' : mm_struct_t) (l' : list (nat * seg_core))
  : Prop :=
  stale X l' mm' /\ ordered 0 l' /\ (forall x, view l' x = view l x) /\ env mm' = env mm /\
  (length l' <= length l)%nat.

Lemma merged_refl X l mm : stale X l mm -> ordered 0 l -> merged X l mm mm l.
Proof. intros I Ho. split; [exact I|]. split; [exact Ho|]. by split. Qed.

(** The merge with the successor in [mm_insert_vma]. *)
Lemma insert_next X l1 p c l2 mm r : stale X (l1 ++ (p, c) :: l2) mm -> ordered 0 (l1 ++ (p, c) :: l2) ->
  sg mm p = Some r ->
  exists mm' c' l2', 
    (m ← vma_can_merge mm (Some p) (sg_next r);
     (if (m : bool) then nxt ← sg_next r; mm ← retire_seg mm nxt; absorb mm p nxt else Some mm))
    = Some mm' /\
    merged X (l1 ++ (p, c) :: l2) mm mm' (l1 ++ (p, c') :: l2') /\
    c_start c' = c_start c /\ c_flags c' = c_flags c /\
    (names_ok (l1 ++ l2) (mm_events mm) -> names_ok (l1 ++ l2') (mm_events mm')).
Proof.
  intros I Ho Hr. destruct (merge_next _ _ _ _ _ _ _ (proj1 I) Hr) as [->|(b & cb & l3 & -> & -> & -> & Hm)];
    cbn [mbind option_bind].
  - exists mm, c, l2. split; [done|]. split; [by apply merged_refl|done].
  - assert (El : l1 ++ (p, c) :: (b, cb) :: l3 = (l1 ++ [(p, c)]) ++ (b, cb) :: l3) by (by rewrite <- app_assoc).
    rewrite (retire_list X (l1 ++ [(p, c)]) b cb l3) by (rewrite <- El; first [apply I | exact Ho]).
    cbn [mbind option_bind]. set (mm1 := mm {{ mm_events := _ }}).
    destruct (absorb_spec X l1 p c b cb l3 mm1) as (mm' & -> & I' & Ev & Es); [by apply stale_events|].
    destruct (absorb_view l1 p c b cb l3 Ho Hm) as [Ho' V].
    exists mm', (with_end c (c_end cb)), l3. split; [done|]. split; [|split; [done|split; [done|]]].
    + split; [exact I'|]. split; [done|]. split; [done|]. split; [done|].
      rewrite !length_app. cbn. lia.
    + rewrite Es. apply names_retire. pose proof (proj2 (inv_list _ _ _ (proj1 I))) as N.
      rewrite !fmap_app in *. cbn [fmap list_fmap fst] in *. rewrite <- Permutation_middle in N.
      by apply list.NoDup_cons in N as [_ N].
Qed.

(** The merge with the predecessor, and the name of what is left. *)
Lemma insert_prev X l1 p c l2 mm r : stale X (l1 ++ (p, c) :: l2) mm -> ordered 0 (l1 ++ (p, c) :: l2) ->
  sg mm p = Some r ->
  exists mm' l', 
    (m ← vma_can_merge mm (sg_prev r) (Some p);
     '(mm, survivor) ←
       (if (m : bool) then
          prv ← sg_prev r; mm ← retire_seg mm p; mm ← absorb mm prv p; Some (mm, prv)
        else Some (mm, p));
     annotate_seg mm survivor) = Some mm' /\
    merged X (l1 ++ (p, c) :: l2) mm mm' l' /\
    (names_ok (l1 ++ l2) (mm_events mm) -> names_ok l' (mm_events mm')).
Proof.
  intros I Ho Hr. destruct (merge_prev _ _ _ _ _ _ _ (proj1 I) Hr) as [->|(b & cb & l0 & -> & -> & -> & Hm)];
    cbn [mbind option_bind].
  - rewrite (annotate_list X l1 p c l2) by (first [apply I | exact Ho]).
    eexists _, (l1 ++ (p, c) :: l2). split; [reflexivity|]. split; [|apply names_annotate].
    split; [by apply stale_events|]. by split.
  - rewrite (retire_list X (l0 ++ [(b, cb)]) p c l2) by (first [apply I | exact Ho]).
    cbn [mbind option_bind]. set (mm1 := mm {{ mm_events := _ }}).
    rewrite <- app_assoc in *. cbn [app] in *.
    destruct (absorb_spec X l0 b cb p c l2 mm1) as (mm2 & -> & I2 & Ev & Es); [by apply stale_events|].
    cbn [mbind option_bind]. destruct (absorb_view l0 b cb p c l2 Ho Hm) as [Ho' V].
    rewrite (annotate_list X l0 b (with_end cb (c_end c)) l2) by (first [apply I2 | exact Ho']).
    eexists _, (l0 ++ (b, with_end cb (c_end c)) :: l2). split; [reflexivity|]. split.
    + split; [by apply stale_events|]. split; [done|]. split; [done|]. split; [done|].
      rewrite !length_app. cbn. lia.
    + intros Hn. change (mm_events (mm2 {{ mm_events := annotated b (with_end cb (c_end c)) (mm_events mm2) }}))
        with (annotated b (with_end cb (c_end c)) (mm_events mm2)).
      apply (names_extend l0 b cb); [|done|done|].
      * rewrite Es. rewrite <- ?app_assoc in Hn. apply names_retire_out; [|exact Hn].
        pose proof (proj2 (inv_list _ _ _ (proj1 I))) as N. rewrite !fmap_app in *.
        cbn [fmap list_fmap fst] in *. apply list.NoDup_app in N as (_ & Nd & N2).
        apply list.NoDup_cons in N2 as [Nb N2]. apply list.NoDup_cons in N2 as [Np N2]. set_solver.
      * core_fields. apply ordered_app in Ho as (_ & _ & _ & ? & ? & _). lia.
Qed.

(** A new record over a free range: the view gains exactly this range. *)
Lemma insert_vma_spec X l mm p r : inv (add1 X p) l mm -> small X -> (p ∉ l.*1) ->
  sg mm p = Some r -> ordered 0 l -> 0 <= sg_start r < sg_end r ->
  free l (sg_start r) (sg_end r) ->
  exists mm' l', mm_insert_vma mm p = Some mm' /\ stale X l' mm' /\ ordered 0 l' /\
    (forall x, view l' x = if inside (sg_start r) (sg_end r) x then Some (attr (core r) x) else view l x) /\
    env mm' = env mm /\ (length l' <= S (length l))%nat /\
    (names_ok l (mm_events mm) -> names_ok l' (mm_events mm')).
Proof.
  intros I Hs Hp Hr Ho Hse Hf. unfold mm_insert_vma.
  destruct (insert_link_spec X l (mm_seg_index_invalidate mm) p r) as
    (mm1 & l1 & l2 & -> & -> & F & Hd & I1 & E1 & Es1); [by apply inv_to_stale|done|done|done|].
  cbn [mbind option_bind].
  assert (Ho1 : ordered 0 (l1 ++ (p, core r) :: l2)) by (by apply ordered_insert).
  destruct (rec_of _ _ _ _ _ _ (proj1 I1) Ho1) as (r1 & Hr1 & _). rewrite Hr1. cbn [mbind option_bind].
  destruct (insert_next X l1 p (core r) l2 mm1 r1 I1 Ho1 Hr1)
    as (mm2 & c2 & l3 & E2 & (I2 & Ho2 & V2 & Ev2 & Le2) & _ & _ & N2).
  rewrite (bind_Some_assoc _ _ _ _ E2). cbn [mbind option_bind].
  destruct (rec_of _ _ _ _ _ _ (proj1 I2) Ho2) as (r2 & Hr2 & _). rewrite Hr2. cbn [mbind option_bind].
  destruct (insert_prev X l1 p c2 l3 mm2 r2 I2 Ho2 Hr2) as (mm3 & l' & E3 & (I3 & Ho3 & V3 & Ev3 & Le3) & N3).
  exists mm3, l'. split; [exact E3|]. split; [exact I3|]. split; [exact Ho3|]. split.
  { intros x. rewrite V3, V2. by apply view_insert. }
  split; [rewrite Ev3, Ev2; exact E1|]. rewrite !length_app in *. cbn [length] in *. split; [lia|].
  intros N. apply N3, N2. by rewrite Es1.
Qed.

(** ** Splits *)

Lemma inv_live X l mm p c : inv X l mm -> (p, c) ∈ l ->
  exists r, sg mm p = Some r /\ core r = c /\ sg_released r = false.
Proof.
  intros I Hp. destruct (inv_lookup _ _ _ _ _ I Hp) as (r & Hr & Hc). exists r. repeat split; try done.
  destruct I as (_ & _ & ix & dq & G). pose proof (b_refs _ _ _ _ _ (g_base _ _ _ _ _ G) p) as R.
  unfold sg in Hr. rewrite Hr in R. apply R.
Qed.

(** Taking references for a record only records events. *)
Lemma ref_aux_spec mm p r : sg mm p = Some r ->
  exists evs, vma_ref_aux mm p = Some (mm {{ mm_events := evs }}, 0) /\
    forall q x, named evs q x = named (mm_events mm) q x.
Proof.
  intros Hr. unfold vma_ref_aux, vma_ref_file, vma_ref_vmo. rewrite Hr. cbn [mbind option_bind].
  destruct (sg_file r) as [f|]; [destruct (has (sg_vm_flags r) VM_FILE)|];
    [destruct (sg_file_vnode r) as [v|]; [destruct (has (sg_vm_flags r) VM_SHARED)|]| |];
    cbn [mbind option_bind Z.ltb Z.compare];
    (match goal with |- context [sg ?m p] => change (sg m p) with (sg mm p) end);
    rewrite Hr; cbn [mbind option_bind];
    (destruct (sg_vmo r) as [o|]; [destruct (has (sg_vm_flags r) VM_VMO)|]); cbn [mbind option_bind];
    (match goal with |- exists evs, Some (?m, 0) = _ /\ _ => exists (mm_events m) end;
     split; [destruct mm; reflexivity|done]).
Qed.

Lemma names_same l evs evs' : (forall q x, named evs' q x = named evs q x) ->
  names_ok l evs -> names_ok l evs'.
Proof. intros E H p x. rewrite E. apply H. Qed.

(** The copy of the second half into a new record. *)
Lemma copy_tail_spec X l mm v c t rt addr : inv (add1 X t) l mm -> 0 <= X t -> (t ∉ l.*1) ->
  (v, c) ∈ l -> sg mm t = Some rt -> sg_refcount rt = 1 -> sg_released rt = false ->
  exists mm' rt', copy_tail mm v t addr = Some mm' /\ inv (add1 X t) l mm' /\
    sg mm' t = Some rt' /\ core rt' = tail_core c addr /\
    env mm' = env mm /\ mm_events mm' = mm_events mm /\ mm_seg_index_state mm' = mm_seg_index_state mm.
Proof.
  intros I Hx Ht Hv Hrt H1 Hrel. destruct (inv_live _ _ _ _ _ I Hv) as (r & Hr & <- & Hrl).
  unfold copy_tail. rewrite Hr, Hrt. cbn [mbind option_bind].
  eexists _, _. split; [reflexivity|]. split; [|split; [apply sg_eq|done]].
  apply (set_ext_spec _ _ _ _ rt); try done; [rewrite add1_eq; lia|].
  change (sg_released r = sg_released rt). congruence.
Qed.

(** The list after a split of [v] at [addr]. *)
Definition cut (l1 : list (nat * seg_core)) (v : nat) (c : seg_core) (t : nat) (addr : Z)
    (l2 : list (nat * seg_core)) : list (nat * seg_core) :=
  l1 ++ (v, with_end c addr) :: (t, tail_core c addr) :: l2.

Lemma vma_split_spec X l1 v c l2 mm addr : inv X (l1 ++ (v, c) :: l2) mm -> c_start c < addr < c_end c ->
  (exists mm', vma_split mm v addr = Some (mm', None) /\ inv X (l1 ++ (v, c) :: l2) mm' /\
     rest mm' = rest mm /\ mm_events mm' = mm_events mm /\
     mm_seg_index_state mm' = mm_seg_index_state mm) \/
  (exists mm' t, vma_split mm v addr = Some (mm', Some t) /\ stale X (cut l1 v c t addr l2) mm' /\
     rest mm' = rest mm).
Proof.
  intros I Ha. destruct (inv_live _ _ _ v c I) as (r & Hr & <- & _); [set_solver|].
  unfold vma_split. rewrite Hr. cbn [mbind option_bind]. cbn [core c_start c_end] in Ha.
  rewrite (proj2 (Z.leb_gt addr (sg_start r))), Z.geb_leb, (proj2 (Z.leb_gt (sg_end r) addr)) by lia.
  cbn [orb]. destruct (new_spec _ _ _ I) as [(mm1 & -> & _ & I1 & R & Es & St)|
    (mm1 & t & -> & Ht & Hx & I1 & Hn & Hsg & _ & R & Es & St)]; cbn [mbind option_bind].
  { left. by exists mm1. }
  right. pose proof (proj1 I) as Hs.
  destruct (copy_tail_spec X _ mm1 v (core r) t seg_zero addr I1) as (mm2 & rt & -> & I2 & Hrt & Hc & E2 & Es2 & St2);
    try done; [lia|set_solver|unfold sg; by rewrite Hsg, lookup_insert_eq|].
  cbn [mbind option_bind]. destruct (ref_aux_spec mm2 t rt Hrt) as (evs & -> & Hev). cbn [mbind option_bind].
  change (0 <? 0) with false. cbn iota.
  destruct (link_tail_spec X l1 v (core r) l2 (mm_seg_index_invalidate (mm2 {{ mm_events := evs }})) t rt addr)
    as (mm3 & -> & I3 & E3 & _); [apply inv_to_stale, inv_events; done|done|done|done|].
  cbn [mbind option_bind]. exists mm3, t. split; [done|]. rewrite Hc in I3. split; [exact I3|].
  apply env_rest in E2, E3. rewrite E3. change (rest mm2 = rest mm). congruence.
Qed.

(** No record has [addr] strictly inside. *)
Definition edge (l : list (nat * seg_core)) (addr : Z) : Prop :=
  forall p c, (p, c) ∈ l -> addr <= c_start c \/ c_end c <= addr.

(** The same addresses mean the same. *)
Record same_view (l l' : list (nat * seg_core)) : Prop := {
  sv_ordered : ordered 0 l';
  sv_view : forall x, view l' x = view l x;
  sv_edge : forall a, edge l a -> edge l' a;
}.

Lemma same_view_refl l : ordered 0 l -> same_view l l.
Proof. by split. Qed.

Lemma elem_mid {A} (y x : A) l1 l2 : y ∈ l1 ++ x :: l2 <-> y = x \/ y ∈ l1 ++ l2.
Proof. rewrite <- Permutation_middle. apply list.elem_of_cons. Qed.

Lemma same_view_cut l1 v c t l2 addr : ordered 0 (l1 ++ (v, c) :: l2) -> c_start c < addr < c_end c ->
  same_view (l1 ++ (v, c) :: l2) (cut l1 v c t addr l2) /\ edge (cut l1 v c t addr l2) addr.
Proof.
  intros Ho Ha. destruct (split_view l1 v c t l2 addr Ho Ha) as [Ho' V].
  assert (Hrest : forall p d, (p, d) ∈ l1 ++ l2 -> addr <= c_start d \/ c_end d <= addr).
  { apply ordered_app in Ho as (H1 & H2 & H3 & H4). intros p d [Hp|Hp]%elem_of_app.
    - pose proof (ordered_upper _ _ _ _ H1 Hp). lia.
    - destruct (ordered_lower _ _ _ _ H4 Hp). lia. }
  unfold cut. split; [split|].
  - exact Ho'.
  - exact V.
  - intros a E p d Hp. apply elem_mid in Hp as [[= -> ->]|Hp]; [|apply elem_mid in Hp as [[= -> ->]|Hp]];
      core_fields; [..|apply (E p); by apply elem_mid; right].
    all: destruct (E v c) as [H|H]; [apply elem_mid; by left|lia..].
  - intros p d Hp. apply elem_mid in Hp as [[= -> ->]|Hp]; [|apply elem_mid in Hp as [[= -> ->]|Hp]];
      core_fields; [lia|lia|by apply (Hrest p)].
Qed.

Lemma edge_none lo l addr : ordered lo l -> seg_at l addr = None -> edge l addr.
Proof.
  intros Ho E p c Hp. pose proof (seg_at_None _ _ _ _ E Hp). destruct (ordered_lower _ _ _ _ Ho Hp). lia.
Qed.

Lemma edge_start lo l addr p c : ordered lo l -> (p, c) ∈ l -> c_start c = addr -> edge l addr.
Proof.
  intros Ho Hp Hc q d Hq. destruct (ordered_lower _ _ _ _ Ho Hq), (ordered_lower _ _ _ _ Ho Hp).
  destruct (Z.le_gt_cases addr (c_start d)); [by left|]. destruct (Z.le_gt_cases (c_end d) addr); [by right|].
  pose proof (seg_at_unique _ _ addr _ _ Ho Hq ltac:(lia)) as E.
  rewrite (seg_at_unique _ _ addr _ _ Ho Hp ltac:(lia)) in E. injection E as -> ->. lia.
Qed.

(** The two halves of the work of a split: a record for the part from [a] on,
    with its references; then the record in the list, [v] ending at [s]. *)
Lemma tail_made X l1 v c l2 mm t a : inv (add1 X t) (l1 ++ (v, c) :: l2) mm -> X t = 0 ->
  (t ∉ (l1 ++ (v, c) :: l2).*1) -> sg mm t = Some seg_zero -> ordered 0 (l1 ++ (v, c) :: l2) ->
  exists mm2 mm3 mm4 rt, copy_tail mm v t a = Some mm2 /\ retire_seg mm2 v = Some mm3 /\
    vma_ref_aux mm3 t = Some (mm4, 0) /\ inv (add1 X t) (l1 ++ (v, c) :: l2) mm4 /\
    sg mm4 t = Some rt /\ core rt = tail_core c a /\ env mm4 = env mm /\
    mm_seg_index_state mm4 = mm_seg_index_state mm /\
    (names_ok (l1 ++ (v, c) :: l2) (mm_events mm) -> names_ok (l1 ++ l2) (mm_events mm4)).
Proof.
  intros I Hx Ht Hz Ho.
  destruct (copy_tail_spec X _ mm v c t seg_zero a I) as (mm2 & rt & -> & I2 & Hrt & Hct & E2 & Es2 & St2);
    try done; [lia|set_solver|].
  pose proof (retire_list _ l1 v c l2 mm2 I2 Ho) as Er. set (mm3 := mm2 {{ mm_events := _ }}) in Er.
  destruct (ref_aux_spec mm3 t rt Hrt) as (evs & Ef & Hev).
  exists mm2, mm3, (mm3 {{ mm_events := evs }}), rt. split; [done|]. split; [exact Er|]. split; [exact Ef|].
  split; [by apply inv_events, inv_events|]. repeat (split; [done|]).
  intros N. apply (names_same _ (mm_events mm3)); [exact Hev|].
  change (names_ok (l1 ++ l2) (SegRetire v (c_start c) (c_end c) :: mm_events mm2)).
  apply names_retire; [apply (inv_list _ _ _ I)|]. by rewrite Es2.
Qed.

Lemma tail_linked X l1 v c l2 mm t rt s a : stale (add1 X t) (l1 ++ (v, c) :: l2) mm -> small X ->
  (t ∉ (l1 ++ (v, c) :: l2).*1) -> sg mm t = Some rt -> core rt = tail_core c a ->
  ordered 0 (l1 ++ (v, with_end c s) :: (t, tail_core c a) :: l2) ->
  exists mm1 mm2 mm3, link_tail mm v t s = Some mm1 /\ annotate_seg mm1 v = Some mm2 /\
    annotate_seg mm2 t = Some mm3 /\
    stale X (l1 ++ (v, with_end c s) :: (t, tail_core c a) :: l2) mm3 /\ env mm3 = env mm /\
    (names_ok (l1 ++ l2) (mm_events mm) ->
     names_ok (l1 ++ (v, with_end c s) :: (t, tail_core c a) :: l2) (mm_events mm3)).
Proof.
  intros I Hs Ht Hrt Hct Ho.
  destruct (link_tail_spec X l1 v c l2 mm t rt s) as (mm1 & El & I1 & E1 & Es1); try done.
  rewrite Hct in I1. pose proof (annotate_list X l1 v (with_end c s) _ mm1 (proj1 I1) Ho) as Ea.
  set (mm2 := mm1 {{ mm_events := _ }}) in Ea.
  assert (Eq : l1 ++ (v, with_end c s) :: (t, tail_core c a) :: l2 =
               (l1 ++ [(v, with_end c s)]) ++ (t, tail_core c a) :: l2) by (by rewrite <- app_assoc).
  pose proof (annotate_list X (l1 ++ [(v, with_end c s)]) t (tail_core c a) l2 mm2) as Eb.
  rewrite <- Eq in Eb. specialize (Eb (inv_events _ _ _ _ (proj1 I1)) Ho).
  set (mm3 := mm2 {{ mm_events := _ }}) in Eb.
  exists mm1, mm2, mm3. repeat (split; [done|]). split; [by apply stale_events, stale_events|].
  split; [exact E1|]. intros N. rewrite Eq.
  change (mm_events mm3) with (annotated t (tail_core c a) (annotated v (with_end c s) (mm_events mm1))).
  apply names_annotate. rewrite <- app_assoc. apply names_annotate. by rewrite Es1.
Qed.

(** The allocator has nothing. *)
Definition no_memory (mm : mm_struct_t) : Prop :=
  mm_kcalloc mm = [] \/ head (mm_kcalloc mm) = Some None.

(** [mm_split_vma_at]: nothing changes but the records, and no record has
    [addr] inside afterwards, unless there is no memory. *)
Lemma split_at_spec X l mm addr : inv X l mm -> ordered 0 l -> Z.of_nat (length l) <= 100000 ->
  exists mm' r l', mm_split_vma_at mm addr = Some (mm', r) /\ inv X l' mm' /\ same_view l l' /\
    rest mm' = rest mm /\ (r = 0 /\ edge l' addr /\
       (mm_kcalloc mm' = mm_kcalloc mm \/ exists t, mm_kcalloc mm = Some t :: mm_kcalloc mm') \/
     r = - ENOMEM /\ no_memory mm) /\
    (length l' <= S (length l))%nat /\
    (names_ok l (mm_events mm) -> names_ok l' (mm_events mm')).
Proof.
  intros I Ho Hl. unfold mm_split_vma_at. destruct (find_inv X l mm addr I Ho Hl) as (mm1 & -> & I1 & E1 & Es1).
  cbn [mbind option_bind]. pose proof (env_kcalloc _ _ E1) as K1. apply env_rest in E1.
  destruct (seg_at l addr) as [[v c]|] eqn:Hf; cbn [fmap option_fmap option_map fst].
  2:{ exists mm1, 0, l. rewrite Es1. repeat (split; [done || by apply same_view_refl|]).
      split; [left; split; [done|split; [by apply (edge_none 0)|by left]]|]. split; [lia|done]. }
  apply seg_at_Some in Hf as [Hin Hc]. pose proof (list_elem_of_split _ _ Hin) as (l1 & l2 & ->).
  destruct (rec_of _ _ _ _ _ _ I1 Ho) as (r & Hr & _ & Hrs & Hre & _). rewrite Hr. cbn [mbind option_bind].
  rewrite Z.geb_leb, (proj2 (Z.leb_gt (sg_end r) addr)), orb_false_r by lia.
  destruct (Z.leb_spec addr (sg_start r)) as [Hle|Hle].
  { exists mm1, 0, (l1 ++ (v, c) :: l2). rewrite Es1.
    repeat (split; [done || by apply same_view_refl|]).
    split; [left; split; [done|split; [apply (edge_start 0 _ _ v c); [done|done|lia]|by left]]|].
    split; [lia|done]. }
  destruct (new_spec _ _ _ I1) as [(mm2 & -> & Hno & I2 & R & Es & St)|
    (mm2 & t & -> & Ht & Hx & I2 & Hn & Hsg & Hk & R & Es & St)]; cbn [mbind option_bind].
  { exists mm2, (- ENOMEM), (l1 ++ (v, c) :: l2). rewrite Es, Es1. split; [done|]. split; [done|].
    split; [by apply same_view_refl|]. split; [congruence|].
    split; [right; split; [done|]; unfold no_memory; by rewrite <- K1|].
    split; [lia|done]. }
  destruct (same_view_cut l1 v c t l2 addr Ho) as [SV Ed]; [lia|]. pose proof (sv_ordered _ _ SV) as Ho5.
  destruct (tail_made X l1 v c l2 mm2 t addr) as (mm3 & mm4 & mm5 & rt & -> & Er & Ef & I5 & Hrt & Hct & E5 & _ & N5);
    try done; [unfold sg; by rewrite Hsg, lookup_insert_eq|].
  cbn [mbind option_bind]. rewrite Er. cbn [mbind option_bind]. rewrite Ef. cbn [mbind option_bind].
  change (0 <? 0) with false. cbn iota.
  destruct (tail_linked X l1 v c l2 (mm_seg_index_invalidate mm5) t rt addr addr)
    as (mm6 & mm7 & mm8 & -> & Ea & Eb & I8 & E8 & N8); try done; [by apply inv_to_stale|apply I|].
  cbn [mbind option_bind]. rewrite Ea. cbn [mbind option_bind]. rewrite Eb. cbn [mbind option_bind].
  exists mm8, 0, (cut l1 v c t addr l2). split; [done|]. split; [apply I8|]. split; [exact SV|].
  pose proof (env_kcalloc _ _ E5) as K5. pose proof (env_kcalloc _ _ E8) as K8.
  split; [apply env_rest in E5, E8; rewrite E8; change (rest mm5 = rest mm); congruence|].
  split; [left; split; [done|split; [done|right; exists t]]|split; [unfold cut; rewrite !length_app; cbn; lia|]].
  - rewrite <- K1, Hk, K8. change (mm_kcalloc (mm_seg_index_invalidate mm5)) with (mm_kcalloc mm5). by rewrite K5.
  - intros N. apply N8. change (names_ok (l1 ++ l2) (mm_events mm5)). apply N5. by rewrite Es, Es1.
Qed.

(** [vma_try_merge]: the record around [v], the view as before; at most one
    record behind [v] is gone, and it meant the same. *)
Lemma try_merge_spec X l1 v c l2 mm : inv X (l1 ++ (v, c) :: l2) mm -> ordered 0 (l1 ++ (v, c) :: l2) ->
  exists mm' w l1' d l2', vma_try_merge mm v = Some (mm', w) /\ stale X (l1' ++ (w, d) :: l2') mm' /\
    ordered 0 (l1' ++ (w, d) :: l2') /\
    (forall x, view (l1' ++ (w, d) :: l2') x = view (l1 ++ (v, c) :: l2) x) /\
    (forall x, attr d x = attr c x) /\ c_start d <= c_start c /\ c_end c <= c_end d /\
    env mm' = env mm /\ mm_events mm' = mm_events mm /\
    (l2' = l2 /\ c_end d = c_end c \/
     exists b cb, l2 = (b, cb) :: l2' /\ c_end c = c_start cb /\ c_end d = c_end cb) /\
    (length (l1' ++ (w, d) :: l2') <= length (l1 ++ (v, c) :: l2))%nat.
Proof.
  intros I Ho. unfold vma_try_merge. set (mm0 := mm_seg_index_invalidate mm).
  assert (I0 : stale X (l1 ++ (v, c) :: l2) mm0) by (by apply inv_to_stale).
  destruct (rec_of _ _ _ _ _ _ (proj1 I0) Ho) as (r & Hr & _). rewrite Hr. cbn [mbind option_bind].
  assert (P : exists mm1 w l0 d,
    (m ← vma_can_merge mm0 (sg_prev r) (Some v);
     (if (m : bool) then prev ← sg_prev r; mm ← absorb mm0 prev v; Some (mm, prev) else Some (mm0, v)))
    = Some (mm1, w) /\ stale X (l0 ++ (w, d) :: l2) mm1 /\ ordered 0 (l0 ++ (w, d) :: l2) /\
    (forall x, view (l0 ++ (w, d) :: l2) x = view (l1 ++ (v, c) :: l2) x) /\
    (forall x, attr d x = attr c x) /\ c_start d <= c_start c /\ c_end d = c_end c /\
    env mm1 = env mm0 /\ mm_events mm1 = mm_events mm0 /\
    (length (l0 ++ (w, d) :: l2) <= length (l1 ++ (v, c) :: l2))%nat).
  { destruct (merge_prev _ _ _ _ _ _ _ (proj1 I0) Hr) as [->|(b & cb & l0 & -> & -> & -> & Hm)];
      cbn [mbind option_bind].
    - exists mm0, v, l1, c. repeat (split; [done || lia|]). done.
    - rewrite <- app_assoc in *. cbn [app] in *.
      destruct (absorb_spec X l0 b cb v c l2 mm0 I0) as (mm1 & -> & I1 & E1 & Es1). cbn [mbind option_bind].
      destruct (absorb_view l0 b cb v c l2 Ho Hm) as [Ho1 V1].
      destruct (can_merge_sound _ _ Hm) as [Eb Ha].
      exists mm1, b, l0, (with_end cb (c_end c)). split; [done|]. split; [exact I1|].
      repeat (split; [done|]). core_fields. apply ordered_app in Ho as (_ & _ & ? & ? & ? & _).
      split; [lia|]. repeat (split; [done|]).
      rewrite !length_app. cbn. lia. }
  destruct P as (mm1 & w & l0 & d & E1 & I1 & Ho1 & V1 & A1 & S1 & D1 & Ev1 & Es1 & Le1).
  rewrite (bind_Some_assoc _ _ _ _ E1). destruct (rec_of _ _ _ _ _ _ (proj1 I1) Ho1) as (r1 & Hr1 & _).
  rewrite Hr1. cbn [mbind option_bind].
  destruct (merge_next _ _ _ _ _ _ _ (proj1 I1) Hr1) as [->|(b & cb & l3 & -> & -> & -> & Hm)];
    cbn [mbind option_bind].
  - exists mm1, w, l0, d, l2. repeat (split; [done || lia|]). split; [by left|done].
  - destruct (absorb_spec X l0 w d b cb l3 mm1 I1) as (mm2 & -> & I2 & E2 & Es2). cbn [mbind option_bind].
    destruct (absorb_view l0 w d b cb l3 Ho1 Hm) as [Ho2 V2].
    destruct (can_merge_sound _ _ Hm) as [Eb Ha].
    exists mm2, w, l0, (with_end d (c_end cb)), l3. split; [done|]. split; [exact I2|]. split; [exact Ho2|].
    split; [intros x; by rewrite V2|]. split; [intros x; core_fields; apply A1|]. core_fields.
    split; [lia|]. apply ordered_app in Ho1 as (_ & _ & ? & ? & ? & _). split; [lia|].
    split; [rewrite E2; exact Ev1|]. split; [rewrite Es2; exact Es1|].
    split; [right; exists b, cb; repeat split; lia|]. rewrite !length_app in *. cbn in *. lia.
Qed.
