(* ===== verification/AddrUnmap.v ===== *)
(** * Address spaces: unmapping

    [mm_munmap_locked] removes a range from the view: all of it, or a first
    part of it when it fails half-way, and nothing when the range has a sealed
    mapping or cuts a SysV segment. *)

From stdpp Require Import gmap.
From S2P Require Import Prelude AddrSpace AddrTheory AddrOps AddrView.

(** Fields that the invariant does not look at. *)
Lemma inv_fields X l mm mm' : mm_segs mm' = mm_segs mm -> mm_mmap mm' = mm_mmap mm ->
  mm_deferred_vma mm' = mm_deferred_vma mm -> index_of mm' = index_of mm ->
  mm_kcalloc mm' = mm_kcalloc mm -> inv X l mm -> inv X l mm'.
Proof.
  intros E1 E2 E3 E4 E5 (Hs & [A1 A2] & ix & dq & [B L S C St]). unfold index_of in E4.
  injection E4 as E6 E7 E8. split; [done|]. split; [split; rewrite ?E5, ?E1; done|].
  exists ix, dq. split; rewrite ?E6, ?E7, ?E8;
    [by apply (base_fields _ _ _ _ mm)|exact L|exact S|exact C|exact St].
Qed.

Lemma stale_fields X l mm mm' : mm_segs mm' = mm_segs mm -> mm_mmap mm' = mm_mmap mm ->
  mm_deferred_vma mm' = mm_deferred_vma mm -> index_of mm' = index_of mm ->
  mm_kcalloc mm' = mm_kcalloc mm -> stale X l mm -> stale X l mm'.
Proof.
  intros E1 E2 E3 E4 E5 [I St]. split; [by apply (inv_fields _ _ mm)|].
  unfold index_of in E4. congruence.
Qed.

Lemma names_trim l1 p c c' l2 s e evs : NoDup (l1 ++ (p, c) :: l2).*1 ->
  names_ok (l1 ++ (p, c) :: l2) evs -> c_flags c' = c_flags c ->
  (forall x, c_start c' <= x < c_end c' <-> c_start c <= x < c_end c /\ ~ s <= x < e) ->
  names_ok (l1 ++ (p, c') :: l2) (SegRetire p s e :: evs).
Proof.
  intros N H F Hr q x. specialize (H q x). specialize (Hr x). cbn [named].
  setoid_rewrite elem_mid in H. setoid_rewrite elem_mid.
  assert (D : dispatchable c' = dispatchable c) by (unfold dispatchable; by rewrite F).
  rewrite fmap_app in N. cbn [fmap list_fmap fst] in N. rewrite <- Permutation_middle in N.
  apply list.NoDup_cons in N as [Np N]. rewrite <- fmap_app in Np.
  rewrite andb_true_iff, negb_true_iff, andb_false_iff, H, bool_decide_eq_false, inside_false. split.
  - intros (Hn & d & [[= -> ->]|Hd] & Hdi & Hx); [|by exists d; auto].
    exists c'. split; [by left|]. split; [congruence|]. apply Hr. split; [done|]. destruct Hn; [done|lia].
  - intros (d & [[= -> ->]|Hd] & Hdi & Hx).
    + apply Hr in Hx as [Hx Hn]. split; [right; lia|]. exists c. split; [by left|]. split; [congruence|done].
    + split; [|exists d; auto]. left. intros ->. apply Np. apply list_elem_of_fmap. by exists (p, d).
Qed.

Section Unmap.

Context {arch : MmArch}.
Variables (addr end_ : Z).
Hypothesis Hae : addr < end_.

(** The mapping has a part in the range. *)
Definition meets (c : seg_core) : Prop := c_start c < end_ /\ addr < c_end c.

Definition sealed (c : seg_core) : bool := has (c_flags c) VM_SEALED.

(** A SysV segment of which the range has only a part. *)
Definition cuts_shm (c : seg_core) : Prop :=
  has (c_flags c) VM_SYSV_SHM = true /\ (c_start c < addr \/ end_ < c_end c).

Lemma check_spec mm : forall l n v m lst lo, dseg (mm_segs mm) m v l lst None -> (length l < n)%nat ->
  ordered lo l -> exists r, munmap_check n mm addr end_ v = Some r /\
    (r = 0 /\ (forall p c, (p, c) ∈ l -> meets c -> ~ cuts_shm c /\ sealed c = false) \/
     r = - EINVAL /\ (exists p c, (p, c) ∈ l /\ meets c /\ cuts_shm c) \/
     r = - EPERM /\ (exists p c, (p, c) ∈ l /\ meets c /\ sealed c = true)).
Proof.
  induction l as [|[p c] l IH]; intros n v m lst lo Hd Hn Ho.
  - destruct Hd as [_ <-]. exists 0. split; [by destruct n|]. left. split; [done|]. intros ? ? H. by inversion H.
  - destruct n as [|n]; [cbn in Hn; lia|]. destruct Hd as (-> & r & Hr & Hc & _ & Hd).
    destruct Ho as (Ho1 & Ho2 & Ho3). cbn [munmap_check]. unfold sg. rewrite Hr. cbn [mbind option_bind].
    assert (Hrs : sg_start r = c_start c) by (by subst c). assert (Hre : sg_end r = c_end c) by (by subst c).
    assert (Hrf : sg_vm_flags r = c_flags c) by (by subst c). rewrite Hrs, Hre, Hrf, Z.geb_leb, Z.gtb_ltb.
    destruct (IH n (sg_next r) (Some p) lst (c_end c) Hd) as (e & E & HE); [cbn in Hn; lia|done|].
    destruct (Z.leb_spec end_ (c_start c)) as [Hle|Hle].
    { exists 0. split; [done|]. left. split; [done|].
      intros q d [[= -> ->]|Hq]%list.elem_of_cons [Hm _]; [lia|].
      destruct (ordered_lower _ _ _ _ Ho3 Hq). lia. }
    destruct (Z.leb_spec (c_end c) addr) as [Hle2|Hle2].
    { exists e. split; [done|]. destruct HE as [[-> H]|[[-> (q & d & ? & ?)]|[-> (q & d & ? & ?)]]].
      - left. split; [done|]. intros q d [[= -> ->]|Hq]%list.elem_of_cons Hm; [destruct Hm; lia|by apply (H q)].
      - right. left. split; [done|]. exists q, d. split; [by right|done].
      - right. right. split; [done|]. exists q, d. split; [by right|done]. }
    destruct (has (c_flags c) VM_SYSV_SHM && ((c_start c <? addr) || (end_ <? c_end c))) eqn:Es.
    { apply andb_true_iff in Es as [Es1 Es2]. exists (- EINVAL). split; [done|]. right. left. split; [done|].
      exists p, c. split; [by left|]. split; [split; lia|]. split; [done|].
      apply orb_true_iff in Es2 as [?%Z.ltb_lt|?%Z.ltb_lt]; lia. }
    destruct (has (c_flags c) VM_SEALED) eqn:El.
    { exists (- EPERM). split; [done|]. right. right. split; [done|]. exists p, c. split; [by left|].
      split; [split; lia|done]. }
    exists e. split; [done|]. destruct HE as [[-> H]|[[-> (q & d & ? & ?)]|[-> (q & d & ? & ?)]]].
    + left. split; [done|]. intros q d [[= -> ->]|Hq]%list.elem_of_cons Hm; [|by apply (H q)].
      split; [|done]. intros [Hs Hc']. rewrite Hs in Es. cbn in Es.
      apply orb_false_iff in Es as [?%Z.ltb_ge ?%Z.ltb_ge]. lia.
    + right. left. split; [done|]. exists q, d. split; [by right|done].
    + right. right. split; [done|]. exists q, d. split; [by right|done].
Qed.

(** The part of the range in a mapping. *)
Definition clip_s (c : seg_core) : Z := if c_start c <? addr then addr else c_start c.
Definition clip_e (c : seg_core) : Z := if c_end c >? end_ then end_ else c_end c.

Lemma clip_range c : meets c -> c_start c < c_end c ->
  c_start c <= clip_s c /\ addr <= clip_s c /\ clip_s c < clip_e c /\ clip_e c <= c_end c /\ clip_e c <= end_ /\
  (c_start c < addr -> clip_s c = addr) /\ (addr <= c_start c -> clip_s c = c_start c) /\
  (end_ < c_end c -> clip_e c = end_) /\ (c_end c <= end_ -> clip_e c = c_end c).
Proof using Hae.
  intros [H1 H2] H3. unfold clip_s, clip_e. rewrite Z.gtb_ltb.
  destruct (Z.ltb_spec (c_start c) addr), (Z.ltb_spec end_ (c_end c)); lia.
Qed.

(** What is left of a mapping. *)
Definition leftover (p : nat) (c : seg_core) (lm : list (nat * seg_core)) : Prop :=
  (forall x, view lm x = if inside (clip_s c) (clip_e c) x then None else view [(p, c)] x) /\
  (forall q d, (q, d) ∈ lm -> ~ meets d) /\
  (forall lo l2, lo <= c_start c -> ordered (c_end c) l2 -> ordered lo (lm ++ l2)) /\
  (length lm <= 1 \/ length lm <= 2 /\ (end_ < c_end c)%Z)%nat.

Lemma leftover_nil p c : meets c -> c_start c < c_end c -> addr <= c_start c -> c_end c <= end_ -> leftover p c [].
Proof using Hae.
  intros Hm Hc H1 H2. destruct (clip_range c Hm Hc) as (_ & _ & _ & _ & _ & _ & Es & _ & Ee).
  split; [|split; [|split; [|cbn; (left; lia) || (right; lia)]]].
  - intros x. rewrite view_cons, Es, Ee by done. by destruct (inside _ _ x).
  - intros q d H. by inversion H.
  - intros lo l2 Hlo Ho. cbn [app]. apply (ordered_weaken (c_end c)); [lia|done].
Qed.

Lemma leftover_tail p c : meets c -> c_start c < c_end c -> addr <= c_start c -> end_ < c_end c ->
  leftover p c [(p, tail_core c (clip_e c))].
Proof using Hae.
  intros Hm Hc H1 H2. destruct (clip_range c Hm Hc) as (_ & _ & _ & _ & _ & _ & Es & Ee & _).
  specialize (Es H1). specialize (Ee H2). destruct Hm. split; [|split; [|split; [|cbn; (left; lia) || (right; lia)]]].
  - intros x. rewrite !view_cons, attr_tail. core_fields. rewrite Es, Ee. unfold inside.
    destruct (Z.leb_spec (c_start c) x), (Z.ltb_spec x end_), (Z.leb_spec end_ x), (Z.ltb_spec x (c_end c));
      cbn; done || lia.
  - intros q d [[= -> ->]|H']%list.elem_of_cons; [|by inversion H']. intros [? ?]. core_fields. lia.
  - intros lo l2 Hlo Ho. cbn [app ordered]. core_fields. repeat split; [lia|lia|done].
Qed.

Lemma leftover_head p c : meets c -> c_start c < c_end c -> c_start c < addr -> c_end c <= end_ ->
  leftover p c [(p, with_end c (clip_s c))].
Proof using Hae.
  intros Hm Hc H1 H2. destruct (clip_range c Hm Hc) as (_ & _ & _ & _ & _ & Es & _ & _ & Ee).
  specialize (Es H1). specialize (Ee H2). destruct Hm. split; [|split; [|split; [|cbn; (left; lia) || (right; lia)]]].
  - intros x. rewrite !view_cons. core_fields. rewrite Es, Ee. unfold inside.
    destruct (Z.leb_spec (c_start c) x), (Z.ltb_spec x addr), (Z.leb_spec addr x), (Z.ltb_spec x (c_end c));
      cbn; done || lia.
  - intros q d [[= -> ->]|H']%list.elem_of_cons; [|by inversion H']. intros [? ?]. core_fields. lia.
  - intros lo l2 Hlo Ho. cbn [app ordered]. core_fields. repeat split; [lia|lia|].
    apply (ordered_weaken (c_end c)); [lia|done].
Qed.

Lemma leftover_mid p c t : meets c -> c_start c < c_end c -> c_start c < addr -> end_ < c_end c ->
  leftover p c [(p, with_end c (clip_s c)); (t, tail_core c (clip_e c))].
Proof using Hae.
  intros Hm Hc H1 H2. destruct (clip_range c Hm Hc) as (_ & _ & _ & _ & _ & Es & _ & Ee & _).
  specialize (Es H1). specialize (Ee H2). destruct Hm. split; [|split; [|split; [|cbn; (left; lia) || (right; lia)]]].
  - intros x. rewrite !view_cons, attr_tail. core_fields. rewrite Es, Ee. unfold inside.
    destruct (Z.leb_spec (c_start c) x), (Z.ltb_spec x addr), (Z.leb_spec addr x), (Z.ltb_spec x end_),
      (Z.leb_spec end_ x), (Z.ltb_spec x (c_end c)); cbn; done || lia.
  - intros q d [[= -> ->]|[[= -> ->]|H']%list.elem_of_cons]%list.elem_of_cons;
      [| |by inversion H']; intros [? ?]; core_fields; lia.
  - intros lo l2 Hlo Ho. cbn [app ordered]. core_fields. repeat split; [lia..|done].
Qed.

Lemma retire_part mm p s e : s < e ->
  mm_mmap_seg_retire mm p s e = mm {{ mm_events := SegRetire p s e :: mm_events mm }}.
Proof. intros H. unfold mm_mmap_seg_retire. by rewrite (proj2 (Z.leb_gt _ _)). Qed.

(** A mapping loses one end: the record is narrowed, un-named there and named
    again over what is left. *)
Lemma trim_spec X l1 p c l2 mm r r' s e : stale X (l1 ++ (p, c) :: l2) mm -> sg mm p = Some r ->
  s < e -> sg_refcount r' = sg_refcount r -> sg_released r' = sg_released r ->
  sg_deferred_next r' = sg_deferred_next r -> sg_prev r' = sg_prev r -> sg_next r' = sg_next r ->
  c_flags (core r') = c_flags c -> ordered 0 (l1 ++ (p, core r') :: l2) ->
  (forall x, c_start (core r') <= x < c_end (core r') <-> c_start c <= x < c_end c /\ ~ s <= x < e) ->
  exists mm', annotate_seg (sg_set (mm_mmap_seg_retire mm p s e) p r') p = Some mm' /\
    stale X (l1 ++ (p, core r') :: l2) mm' /\ env mm' = env mm /\
    (names_ok (l1 ++ (p, c) :: l2) (mm_events mm) -> names_ok (l1 ++ (p, core r') :: l2) (mm_events mm')).
Proof.
  intros I Hr Hse E1 E2 E3 E4 E5 Ef Ho Hx. rewrite retire_part by done.
  set (mm1 := mm {{ mm_events := _ }}).
  assert (I1 : inv X (l1 ++ (p, core r') :: l2) (sg_set mm1 p r'))
    by (apply (set_core_spec _ _ _ c _ _ r); [apply inv_events, I|done..]).
  rewrite (annotate_list _ _ _ _ _ _ I1 Ho). eexists. split; [reflexivity|].
  split; [split; [by apply inv_events|apply I]|]. split; [done|]. intros N.
  change (names_ok (l1 ++ (p, core r') :: l2)
            (annotated p (core r') (SegRetire p s e :: mm_events mm))).
  apply (names_extend _ _ (core r')); [|done|lia|lia].
  apply (names_trim _ _ c); [apply (inv_list _ _ _ (proj1 I))|done|done|done].
Qed.

(** One mapping: cut, or no memory for the second half. *)
Lemma cut_spec X l1 p c l2 mm r : stale X (l1 ++ (p, c) :: l2) mm -> ordered 0 (l1 ++ (p, c) :: l2) ->
  sg mm p = Some r -> meets c ->
  exists mm' e lm, munmap_cut mm p addr end_ (clip_s c) (clip_e c) = Some (mm', e) /\
    stale X (l1 ++ lm ++ l2) mm' /\ rest mm' = rest mm /\
    (e = 0 /\ leftover p c lm /\ (mm_kcalloc mm' = mm_kcalloc mm \/ end_ < c_end c) \/
     e = - ENOMEM /\ lm = [(p, c)] /\ no_memory mm) /\
    (names_ok (l1 ++ (p, c) :: l2) (mm_events mm) -> names_ok (l1 ++ lm ++ l2) (mm_events mm')).
Proof using Hae.
  intros I Ho Hr Hm. destruct (inv_ext _ _ _ (proj1 I) p c ltac:(set_solver) Ho r Hr) as (Ers & Ere & Ec & Hlt).
  pose proof (proj1 (ordered_app 0 l1 ((p, c) :: l2)) Ho) as (Ho1 & Ho2 & Ho3 & Ho4).
  destruct (clip_range c Hm Ho3) as (K1 & K2 & K3 & K4 & K5 & K6 & K7 & K8 & K9).
  assert (Hord : forall lm, leftover p c lm -> ordered 0 (l1 ++ lm ++ l2)).
  { intros lm (_ & _ & H & _). apply ordered_app. split; [done|]. by apply H. }
  unfold munmap_cut. rewrite Hr. cbn [mbind option_bind]. rewrite Ers, Ere, Z.geb_leb.
  destruct (Z.leb_spec addr (c_start c)) as [Ha|Ha], (Z.leb_spec (c_end c) end_) as [He|He]; cbn [andb].
  - pose proof (leftover_nil p c Hm Ho3 Ha He) as Lo. rewrite retire_part by done.
    set (mm1 := mm {{ mm_events := _ }}).
    destruct (unlink_spec X l1 p c l2 mm1 r) as (m1 & m2 & m3 & -> & E2 & E3 & I3 & Ev & Es);
      [by apply stale_events|done|].
    cbn [mbind option_bind]. rewrite E2. cbn [mbind option_bind]. rewrite E3. cbn [mbind option_bind].
    exists m3, 0, []. split; [done|]. split; [exact I3|].
    pose proof (env_kcalloc _ _ Ev) as Ek. apply env_rest in Ev. split; [exact Ev|].
    split; [left; split; [done|split; [done|left; exact Ek]]|]. intros N. rewrite Es.
    change (mm_events mm1) with (SegRetire p (clip_s c) (clip_e c) :: mm_events mm). rewrite K7, K9 by done.
    apply names_retire; [apply (inv_list _ _ _ (proj1 I))|done].
  - pose proof (leftover_tail p c Hm Ho3 Ha He) as Lo. specialize (K7 Ha). specialize (K8 He).
    set (r' := r {{ sg_backing_offset := _; sg_start := _ }}).
    assert (Ec' : core r' = tail_core c (clip_e c)) by (subst c r'; done).
    destruct (trim_spec X l1 p c l2 mm r r' (c_start c) (clip_e c) I Hr) as (mm' & -> & I' & Ev & N');
      try done; [lia|by rewrite Ec'|rewrite Ec'; by apply (Hord [(p, tail_core c (clip_e c))])|
                 rewrite Ec'; core_fields; intros x; lia|].
    cbn [mbind option_bind]. exists mm', 0, [(p, tail_core c (clip_e c))]. rewrite Ec' in *.
    split; [done|]. split; [exact I'|]. split; [by apply env_rest|].
    split; [left; split; [done|split; [done|left; by apply env_kcalloc]]|exact N'].
  - pose proof (leftover_head p c Hm Ho3 Ha He) as Lo. specialize (K6 Ha). specialize (K9 He).
    set (r' := r {{ sg_end := _ }}).
    assert (Ec' : core r' = with_end c (clip_s c)) by (subst c r'; done).
    destruct (trim_spec X l1 p c l2 mm r r' (clip_s c) (c_end c) I Hr) as (mm' & -> & I' & Ev & N');
      try done; [lia|by rewrite Ec'|rewrite Ec'; by apply (Hord [(p, with_end c (clip_s c))])|
                 rewrite Ec'; core_fields; intros x; lia|].
    cbn [mbind option_bind]. exists mm', 0, [(p, with_end c (clip_s c))]. rewrite Ec' in *.
    split; [done|]. split; [exact I'|]. split; [by apply env_rest|].
    split; [left; split; [done|split; [done|left; by apply env_kcalloc]]|exact N'].
  - destruct (new_spec _ _ _ (proj1 I)) as [(mm1 & -> & Hno & I1 & R & Es & St)|
      (mm1 & t & -> & Ht & Hx & I1 & Hn & Hsg & _ & R & Es & St)]; cbn [mbind option_bind].
    { exists mm1, (- ENOMEM), [(p, c)]. rewrite Es. split; [done|]. split; [split; [done|]|].
      - rewrite St. apply I.
      - split; [done|]. split; [by right|done]. }
    pose proof (leftover_mid p c t Hm Ho3 Ha He) as Lo.
    destruct (tail_made X l1 p c l2 mm1 t (clip_e c)) as (mm2 & mm3 & mm4 & rt & -> & Er & Ef & I4 & Hrt & Hct & E4 & St4 & N4);
      try done; [unfold sg; by rewrite Hsg, lookup_insert_eq|].
    cbn [mbind option_bind]. rewrite Er. cbn [mbind option_bind]. rewrite Ef. cbn [mbind option_bind].
    change (0 <? 0) with false. cbn iota.
    destruct (tail_linked X l1 p c l2 mm4 t rt (clip_s c) (clip_e c))
      as (mm5 & mm6 & mm7 & -> & Ea & Eb & I7 & E7 & N7); try done.
    { split; [done|]. rewrite St4, St. apply I. } { apply I. } { exact (Hord _ Lo). }
    cbn [mbind option_bind]. rewrite Ea. cbn [mbind option_bind]. rewrite Eb. cbn [mbind option_bind].
    exists mm7, 0, [(p, with_end c (clip_s c)); (t, tail_core c (clip_e c))].
    split; [reflexivity|]. split; [exact I7|].
    apply env_rest in E4, E7. split; [congruence|].
    split; [left; split; [done|split; [exact Lo|by right]]|].
    intros N. apply N7, N4. by rewrite Es.
Qed.

(** The view without [[addr, m)]. *)
Definition removed (m : Z) (l l' : list (nat * seg_core)) : Prop :=
  ordered 0 l' /\ forall x, view l' x = if inside addr m x then None else view l x.

Lemma view_clear l x : (forall p c, (p, c) ∈ l -> ~ meets c) -> addr <= x < end_ -> view l x = None.
Proof.
  induction l as [|[p c] l IH]; intros H Hx; [done|]. rewrite view_cons.
  assert (~ meets c) by (apply (H p); by left). unfold meets in *.
  rewrite (proj2 (inside_false _ _ _)) by lia. apply IH; [|done]. intros q d Hq. apply (H q). by right.
Qed.

(** Cutting a mapping behind mappings outside the range removes what the range
    has up to the end of the cut. *)
Lemma leftover_removed l1 p c lm l2 l' m : ordered 0 (l1 ++ (p, c) :: l2) -> meets c ->
  (forall q d, (q, d) ∈ l1 -> ~ meets d) -> leftover p c lm -> addr <= m <= end_ ->
  removed m (l1 ++ lm ++ l2) l' -> removed (Z.max m (clip_e c)) (l1 ++ (p, c) :: l2) l'.
Proof using Hae.
  intros (H1 & H2 & H3 & H4)%ordered_app Hm F (Lv & _ & _ & _) Hb [Ho V].
  destruct (clip_range c Hm H3) as (K1 & K2 & K3 & K4 & K5 & K6 & K7 & _).
  split; [done|]. intros x. rewrite V, !view_app.
  change ((p, c) :: l2) with ([(p, c)] ++ l2). rewrite view_app, Lv.
  destruct (inside addr m x) eqn:E1.
  { apply inside_true in E1. by rewrite (proj2 (inside_true _ _ _)) by lia. }
  apply inside_false in E1. destruct (inside addr (Z.max m (clip_e c)) x) eqn:E2; [|].
  - apply inside_true in E2. rewrite (view_clear l1 x) by (done || lia).
    destruct (inside (clip_s c) (clip_e c) x) eqn:E3; [apply (view_below (c_end c)); [done|lia]|].
    apply inside_false in E3. rewrite view_cons, (proj2 (inside_false _ _ _)) by lia.
    apply (view_below (c_end c)); [done|lia].
  - apply inside_false in E2. rewrite (proj2 (inside_false (clip_s c) _ _)) by lia. done.
Qed.

Lemma page_loop_eq mm : exists pl e, page_loop mm = (mm {{ mm_page_loops := pl }}, e) /\
  (forall r, r ∈ pl -> r ∈ mm_page_loops mm) /\ (e < 0 -> e ∈ mm_page_loops mm).
Proof.
  unfold page_loop. destruct (mm_page_loops mm) as [|e pl] eqn:E.
  - exists [], 0. split; [destruct mm; cbn in E; by subst|]. split; [done|lia].
  - exists pl, e. split; [done|]. split; [intros r Hr; by right|intros _; by left].
Qed.

Lemma account_eq mm r s e : exists t k, munmap_account mm r s e = mm {{ mm_total_vm := t; mm_locked_vm := k }}.
Proof.
  exists (mm_total_vm (munmap_account mm r s e)), (mm_locked_vm (munmap_account mm r s e)).
  destruct mm. unfold munmap_account. by destruct (has _ _).
Qed.

(** What no call but [brk] and the creation of the address space changes. *)
Definition limits (mm : mm_struct_t) := (mm_brk mm, mm_start_brk mm, mm_mmap_base mm, mm_def_flags mm).

Lemma rest_limits mm mm' : rest mm' = rest mm -> limits mm' = limits mm.
Proof. unfold rest, limits. congruence. Qed.

(** The loop over the list. *)
Lemma loop_spec X : forall l2 n mm l1, stale X (l1 ++ l2) mm -> ordered 0 (l1 ++ l2) ->
  (length l2 < n)%nat -> (forall q d, (q, d) ∈ l1 -> ~ meets d) ->
  exists mm' e l' m, munmap_loop n mm addr end_ (head l2.*1) = Some (mm', e) /\ stale X l' mm' /\
    removed m (l1 ++ l2) l' /\ addr <= m <= end_ /\
    limits mm' = limits mm /\ (length l' <= S (length (l1 ++ l2)))%nat /\
    ((forall q d, (q, d) ∈ l2 -> ~ meets d) -> length l' <= length (l1 ++ l2))%nat /\
    (e = 0 /\ (forall q d, (q, d) ∈ l' -> ~ meets d) \/
     e < 0 /\ (e ∈ mm_page_loops mm) \/ e = - ENOMEM /\ no_memory mm) /\
    ((forall q d, (q, d) ∈ l2 -> ~ meets d) -> e = 0) /\
    (names_ok (l1 ++ l2) (mm_events mm) -> names_ok l' (mm_events mm')).
Proof using Hae.
  induction l2 as [|[p c] l2 IH]; intros n mm l1 I Ho Hn F.
  { exists mm, 0, (l1 ++ []), addr. split; [by destruct n|]. split; [done|].
    split; [|split; [lia|split; [done|split; [lia|split; [done|split; [left; split; [done|by rewrite app_nil_r]|done]]]]]].
    split; [done|]. intros x. rewrite (proj2 (inside_false addr addr x)) by lia. done. }
  destruct n as [|n]; [cbn in Hn; lia|]. destruct (inv_links _ _ _ _ _ _ (proj1 I)) as (r & Hr & Ec & _ & Hnx).
  destruct (inv_ext _ _ _ (proj1 I) p c ltac:(set_solver) Ho r Hr) as (Ers & Ere & _ & Hlt).
  cbn [fmap list_fmap fst head hd_error munmap_loop]. rewrite Hr. cbn [mbind option_bind].
  rewrite Ers, Ere, Hnx, Z.geb_leb.
  destruct ((end_ <=? c_start c) || (c_end c <=? addr)) eqn:Hout.
  { assert (Hnm : ~ meets c).
    { intros [? ?]. apply orb_true_iff in Hout as [?%Z.leb_le|?%Z.leb_le]; lia. }
    replace (l1 ++ (p, c) :: l2) with ((l1 ++ [(p, c)]) ++ l2) in * by (by rewrite <- app_assoc).
    destruct (IH n mm (l1 ++ [(p, c)])) as (mm' & e & l' & m & E & I' & V & B & Li & L1 & L0 & D & Z0 & N); try done;
      [cbn in Hn; lia| |].
    - intros q d [Hq|[[= -> ->]|Hq]%list.elem_of_cons]%elem_of_app; [by apply (F q)|done|by inversion Hq].
    - exists mm', e, l', m. repeat (split; [done|]).
      split; [intros H; apply L0; intros q d Hq; apply (H q); by right|]. split; [done|]. split; [|done].
      intros H. apply Z0. intros q d Hq. apply (H q). by right. }
  assert (Hm : meets c) by (apply orb_false_iff in Hout as [?%Z.leb_gt ?%Z.leb_gt]; split; lia).
  assert (Hme : ~ forall q d, (q, d) ∈ (p, c) :: l2 -> ~ meets d) by (intros H; apply (H p c); [by left|done]).
  destruct (page_loop_eq mm) as (pl & e & -> & Hpl & Hin). change (if c_start c <? addr then addr else c_start c) with (clip_s c).
  change (if c_end c >? end_ then end_ else c_end c) with (clip_e c).
  destruct (Z.ltb_spec e 0) as [He|He].
  { eexists _, e, _, addr. split; [reflexivity|]. split; [by eapply stale_fields; [..|exact I]|].
    split; [split; [done|intros x; by rewrite (proj2 (inside_false addr addr x)) by lia]|].
    split; [lia|]. split; [done|]. split; [lia|]. split; [done|].
    split; [right; left; split; [done|by apply Hin]|]. done. }
  destruct (account_eq (mm {{ mm_page_loops := pl }}) r (clip_s c) (clip_e c)) as (tv & lk & ->).
  set (mm1 := _ {{ mm_total_vm := tv; mm_locked_vm := lk }}).
  assert (I1 : stale X (l1 ++ (p, c) :: l2) mm1) by (by eapply stale_fields; [..|exact I]).
  destruct (cut_spec X l1 p c l2 mm1 r I1 Ho Hr Hm) as (mm2 & e2 & lm & -> & I2 & R2 & D2 & N2).
  cbn [mbind option_bind]. destruct D2 as [(-> & Lo & Hk)|(-> & -> & Hno)].
  - change (0 <? 0) with false. cbn iota.
    assert (Ho2 : ordered 0 (l1 ++ lm ++ l2)).
    { destruct Lo as (_ & _ & H & _). apply ordered_app in Ho as (? & ? & ? & ?). apply ordered_app.
      split; [done|]. by apply H. }
    destruct (IH n mm2 (l1 ++ lm)) as (mm3 & e3 & l' & m & -> & I3 & V3 & B3 & Li3 & L3 & L0 & D3 & Z3 & N3).
    { by rewrite <- app_assoc. } { by rewrite <- app_assoc. } { cbn in Hn; lia. }
    { intros q d [Hq|Hq]%elem_of_app; [by apply (F q)|]. destruct Lo as (_ & H & _). by apply (H q). }
    rewrite <- app_assoc in *. exists mm3, e3, l', (Z.max m (clip_e c)). split; [done|]. split; [done|].
    split; [by apply (leftover_removed l1 p c lm l2)|].
    pose proof (clip_range c Hm ltac:(lia)). split; [lia|].
    split; [rewrite Li3, (rest_limits _ _ R2); done|].
    assert (Hno : end_ < c_end c -> forall q d, (q, d) ∈ l2 -> ~ meets d).
    { intros Hc q d Hq [? _]. apply ordered_app in Ho as (_ & _ & _ & Ho4).
      destruct (ordered_lower _ _ _ _ Ho4 Hq). lia. }
    split.
    { destruct Lo as (_ & _ & _ & [Lo|[Lo Hc]]); [|specialize (L0 (Hno Hc))];
        rewrite !length_app in *; cbn [length] in *; lia. }
    split; [done|].
    split; [|split; [done|intros N; by apply N3, N2]].
    destruct D3 as [D3|[[D3 Hi]|[D3 Hnm]]]; [by left|right; left; split; [done|]|].
    + apply Hpl. assert (Ep : mm_page_loops mm2 = mm_page_loops mm1) by (unfold rest in R2; congruence).
      rewrite Ep in Hi. exact Hi.
    + destruct Hk as [Hk|Hk]; [right; right; split; [done|]; unfold no_memory in *; by rewrite Hk in Hnm|].
      exfalso. assert (e3 = 0); [|by rewrite D3 in *]. by apply Z3, Hno.
  - change (- ENOMEM <? 0) with true. cbn iota. eexists _, _, _, addr. split; [reflexivity|].
    split; [exact I2|]. split; [split; [done|intros x; by rewrite (proj2 (inside_false addr addr x)) by lia]|].
    split; [lia|]. split; [rewrite (rest_limits _ _ R2); done|]. split; [cbn; lia|]. split; [done|].
    split; [right; right; by split|].
    split; [done|exact N2].
Qed.

End Unmap.

(** ** The call *)

Lemma page_up_eq a : page_up a = u64 (a + 4095) / 4096 * 4096.
Proof.
  unfold page_up. change (PG - 1) with 4095. set (x := u64 (a + 4095)).
  assert (Hx : in_u64 x) by apply u64_range.
  change (u64 (Z.lnot 4095)) with (Z.land (Z.lnot (Z.ones 12)) (Z.ones 64)).
  rewrite (Z.land_comm (Z.lnot _)), Z.land_assoc, Z.land_ones by lia.
  rewrite (Z.mod_small x) by exact Hx. rewrite <- Z.ldiff_land, Z.ldiff_ones_r by lia.
  rewrite Z.shiftl_mul_pow2, Z.shiftr_div_pow2 by lia. done.
Qed.

Lemma page_up_range a : in_u64 (page_up a).
Proof. rewrite page_up_eq. pose proof (u64_range (a + 4095)). unfold in_u64 in *. zlia. Qed.

(** An end below the start is an overflow. *)
Lemma end_spec a b : in_u64 a -> in_u64 b ->
  ((u64 (a + b) <? a) = true /\ 18446744073709551616 <= a + b) \/
  ((u64 (a + b) <? a) = false /\ a + b < 18446744073709551616 /\ u64 (a + b) = a + b).
Proof.
  unfold in_u64, u64. intros Ha Hb. destruct (Z.le_gt_cases 18446744073709551616 (a + b)).
  - left. split; [|done]. apply Z.ltb_lt. zlia.
  - right. rewrite Z.mod_small by lia. split; [apply Z.ltb_ge; lia|done].
Qed.

Lemma clear_inv X l mm : inv X l mm -> exists mm', mm_seg_index_clear mm = Some mm' /\ inv X l mm' /\
  rest mm' = rest mm /\ mm_events mm' = mm_events mm.
Proof.
  intros (Hs & A & ix & dq & G). destruct (index_clear_spec X l ix dq mm Hs G) as (mm' & dq' & E & G' & _ & Q).
  exists mm'. split; [done|]. split; [|split; [destruct Q; unfold rest; congruence|apply Q]].
  split; [done|]. split; [|by exists [], dq'].
  apply (al_ok_dom mm); [by apply same_map_dom, Q|apply Q|done].
Qed.

Section Call.

Context {arch : MmArch}.

(** What the call does to a list: nothing on a refusal, the whole range on
    success, a first part of it on a failure in between. *)
Definition munmap_outcome (mm : mm_struct_t) (l : list (nat * seg_core)) (addr len r : Z)
    (l' : list (nat * seg_core)) : Prop :=
  let e := addr + page_up len in
  if negb (Z.land addr 4095 =? 0) then r = - EINVAL /\ l' = l
  else if page_up len =? 0 then r = 0 /\ l' = l
  else if (18446744073709551616 <=? e) || (USER_VA_LIMIT <? e) then r = - EINVAL /\ l' = l
  else
    r = 0 /\ removed addr e l l' /\
      (forall p c, (p, c) ∈ l -> meets addr e c -> ~ cuts_shm addr e c /\ sealed c = false) \/
    r = - EINVAL /\ l' = l /\ (exists p c, (p, c) ∈ l /\ meets addr e c /\ cuts_shm addr e c) \/
    r = - EPERM /\ l' = l /\ (exists p c, (p, c) ∈ l /\ meets addr e c /\ sealed c = true) \/
    (r < 0 /\ (r ∈ mm_page_loops mm) \/ r = - ENOMEM /\ no_memory mm) /\
      (forall p c, (p, c) ∈ l -> meets addr e c -> ~ cuts_shm addr e c /\ sealed c = false) /\
      (exists m, addr <= m <= e /\ removed addr m l l').

Lemma munmap_spec X l mm addr len : inv X l mm -> ordered 0 l -> in_u64 addr -> USER_VA_LIMIT < 18446744073709551616 ->
  exists mm' r l', mm_munmap_locked mm addr len = Some (mm', r) /\ inv X l' mm' /\ ordered 0 l' /\
    (length l' <= S (length l))%nat /\ limits mm' = limits mm /\ munmap_outcome mm l addr len r l' /\ (names_ok l (mm_events mm) -> names_ok l' (mm_events mm')).
Proof.
  intros I Ho Ha Hlim. unfold mm_munmap_locked, munmap_outcome, c_true. cbv zeta.
  change (PG - 1) with 4095.
  destruct (negb (Z.land addr 4095 =? 0)) eqn:E0.
  { exists mm, (- EINVAL), l. repeat (split; [done || lia|]); done. }
  destruct (Z.eqb_spec (page_up len) 0) as [E1|E1].
  { exists mm, 0, l. repeat (split; [done || lia|]); done. }
  pose proof (page_up_range len) as Hpl.
  destruct (end_spec addr (page_up len) Ha Hpl) as [[-> He]|(-> & He & ->)]; cbn [orb].
  { rewrite (proj2 (Z.leb_le _ _)) by lia. exists mm, (- EINVAL), l. repeat (split; [done || lia|]); done. }
  rewrite (proj2 (Z.leb_gt _ _)) by lia. cbn [orb]. rewrite Z.gtb_ltb.
  destruct (Z.ltb_spec USER_VA_LIMIT (addr + page_up len)) as [Hv|Hv].
  { exists mm, (- EINVAL), l. repeat (split; [done || lia|]); done. }
  set (e := addr + page_up len) in *. assert (Hae : addr < e) by (unfold in_u64 in *; lia).
  pose proof (inv_to_stale _ _ _ I) as I0. set (mm0 := mm_seg_index_invalidate mm) in *.
  pose proof (inv_fuel _ _ _ (proj1 I0)) as Hf. destruct (inv_list _ _ _ (proj1 I0)) as [[lst Hd] N].
  destruct (check_spec addr e mm0 l (fuel mm0) _ None lst 0 Hd Hf Ho) as (r & -> & Hr).
  cbn [mbind option_bind]. destruct Hr as [[-> Hok]|[[-> Hbad]|[-> Hbad]]].
  - change (0 <? 0) with false. cbn iota.
    assert (Ehd : mm_mmap mm0 = head l.*1) by (destruct l as [|[p c] l]; [by destruct Hd|by destruct Hd as [-> _]]).
    rewrite Ehd. destruct (loop_spec addr e Hae X l (fuel mm0) mm0 [])
      as (mm1 & r & l' & m & -> & I1 & V & B & Li & L1 & _ & D & _ & N1); try done.
    { intros ? ? H. by inversion H. }
    cbn [mbind option_bind]. destruct D as [[-> Hcl]|D].
    + change (0 <? 0) with false. cbn iota. destruct (clear_inv X l' mm1 (proj1 I1)) as (mm2 & -> & I2 & R2 & Es2).
      cbn [mbind option_bind]. exists mm2, 0, l'. rewrite Es2. split; [done|]. split; [done|].
      split; [apply V|]. split; [done|]. split; [rewrite (rest_limits _ _ R2); exact Li|]. split; [|exact N1]. left. split; [done|]. split; [|exact Hok].
      destruct V as [Ho' V]. split; [done|]. intros x. destruct (inside addr e x) eqn:Hx.
      * apply inside_true in Hx. by apply (view_clear addr e).
      * rewrite V, (proj2 (inside_false _ _ _)); [done|]. apply inside_false in Hx. lia.
    + assert (r < 0) by (destruct D as [[? _]|[-> _]]; done). rewrite (proj2 (Z.ltb_lt _ _)) by done.
      exists mm1, r, l'. split; [done|]. split; [apply I1|]. split; [apply V|]. split; [done|].
      split; [exact Li|]. split; [|exact N1].
      right. right. right. split; [exact D|]. split; [exact Hok|]. by exists m.
  - exists mm0, (- EINVAL), l. split; [done|]. split; [apply I0|]. split; [done|]. split; [lia|]. split; [done|]. split; [|done].
    right. left. by split.
  - exists mm0, (- EPERM), l. split; [done|]. split; [apply I0|]. split; [done|]. split; [lia|]. split; [done|]. split; [|done].
    right. right. left. by split.
Qed.

End Call.
