(* ===== verification/AddrProtect.v ===== *)
(** * Address spaces: protection and sealing

    [mm_mprotect_locked] changes the protection of exactly a range, and
    [mm_mseal_locked] seals exactly a range; both refuse a range with a hole,
    and the first one a range with a sealed mapping. *)

From stdpp Require Import gmap.
From Stdlib Require Import Btauto.
From S2P Require Import Prelude AddrSpace AddrTheory AddrOps AddrView AddrUnmap.

(** ** Walks over a range *)

Lemma view_mid l1 p c l2 x : ordered 0 (l1 ++ (p, c) :: l2) -> c_start c <= x ->
  view (l1 ++ (p, c) :: l2) x = view ((p, c) :: l2) x.
Proof.
  intros (H1 & H2 & _)%ordered_app Hx. rewrite view_app, (view_above 0 l1) by (done || lia). done.
Qed.

Lemma cover_spec mm end_ : forall l n v m lst lo cov, dseg (mm_segs mm) m v l lst None ->
  (length l < n)%nat -> ordered lo l ->
  exists cov', cover_loop n mm cov end_ v = Some cov' /\ cov <= cov' /\
    (forall x, cov <= x < cov' -> view l x <> None) /\ (cov' < end_ -> view l cov' = None).
Proof.
  induction l as [|[p c] l IH]; intros n v m lst lo cov Hd Hn Ho.
  - destruct Hd as [_ <-]. exists cov. split; [by destruct n|]. split; [lia|]. split; [lia|done].
  - destruct n as [|n]; [cbn in Hn; lia|]. destruct Hd as (-> & r & Hr & Hc & _ & Hd).
    destruct Ho as (Ho1 & Ho2 & Ho3). cbn [cover_loop]. destruct (Z.ltb_spec cov end_) as [Hlt|Hlt].
    2:{ exists cov. split; [done|]. split; [lia|]. split; lia. }
    unfold sg. rewrite Hr. cbn [mbind option_bind]. rewrite !Z.gtb_ltb.
    replace (sg_start r) with (c_start c) by (by subst c). replace (sg_end r) with (c_end c) by (by subst c).
    destruct (Z.ltb_spec cov (c_start c)) as [Hs|Hs].
    { exists cov. split; [done|]. split; [lia|]. split; [lia|]. intros _.
      apply (view_below (c_start c)); [cbn; repeat split; [lia|done|done]|done]. }
    set (cov1 := if cov <? c_end c then c_end c else cov).
    assert (H1 : cov <= cov1 /\ c_end c <= cov1 /\ (forall x, cov <= x < cov1 -> x < c_end c)).
    { subst cov1. destruct (Z.ltb_spec cov (c_end c)); repeat split; intros; lia. }
    destruct (IH n (sg_next r) (Some p) lst (c_end c) cov1 Hd) as (cov' & -> & Hle & Hin & Hout); [cbn in Hn; lia|done|].
    exists cov'. split; [done|]. split; [lia|]. split.
    + intros x Hx. rewrite view_cons. destruct (inside (c_start c) (c_end c) x) eqn:E; [done|].
      apply inside_false in E. apply Hin. destruct H1 as (_ & _ & H1). specialize (H1 x). lia.
    + intros He. rewrite view_cons, (proj2 (inside_false _ _ _)) by lia. by apply Hout.
Qed.

Lemma flag_spec mm addr end_ bits : forall l n v m lst lo, dseg (mm_segs mm) m v l lst None ->
  (length l < n)%nat -> ordered lo l ->
  exists b, range_flag_loop n mm addr end_ bits v = Some b /\
    (b = true <-> exists p c, (p, c) ∈ l /\ meets addr end_ c /\ has (c_flags c) bits = true).
Proof.
  induction l as [|[p c] l IH]; intros n v m lst lo Hd Hn Ho.
  - destruct Hd as [_ <-]. exists false. split; [by destruct n|]. split; [done|].
    intros (p & c & H & _). by inversion H.
  - destruct n as [|n]; [cbn in Hn; lia|]. destruct Hd as (-> & r & Hr & Hc & _ & Hd).
    destruct Ho as (Ho1 & Ho2 & Ho3). cbn [range_flag_loop]. unfold sg. rewrite Hr. cbn [mbind option_bind].
    replace (sg_start r) with (c_start c) by (by subst c). replace (sg_end r) with (c_end c) by (by subst c).
    replace (sg_vm_flags r) with (c_flags c) by (by subst c). rewrite Z.gtb_ltb.
    destruct (Z.ltb_spec (c_start c) end_) as [Hs|Hs].
    + destruct ((addr <? c_end c) && has (c_flags c) bits) eqn:E.
      * apply andb_true_iff in E as [?%Z.ltb_lt ?]. exists true. split; [done|]. split; [|done].
        intros _. exists p, c. split; [by left|]. by repeat split.
      * destruct (IH n (sg_next r) (Some p) lst (c_end c) Hd) as (b & -> & Hb); [cbn in Hn; lia|done|].
        exists b. split; [done|]. rewrite Hb. split.
        -- intros (q & d & Hq & H). exists q, d. split; [by right|done].
        -- intros (q & d & [[= -> ->]|Hq]%list.elem_of_cons & Hm & Hf); [|by exists q, d].
           destruct Hm as [_ Hm]. rewrite Hf, (proj2 (Z.ltb_lt _ _)) in E; done.
    + exists false. split; [done|]. split; [done|].
      intros (q & d & [[= -> ->]|Hq]%list.elem_of_cons & [Hm _] & _); [lia|].
      destruct (ordered_lower _ _ _ _ Ho3 Hq). lia.
Qed.

(** The record at [addr] and what follows. *)
Lemma seg_at_mid X l mm addr v : inv X l mm -> ordered 0 l -> v = fst <$> seg_at l addr ->
  (v = None /\ view l addr = None) \/
  (exists l1 p c l2 m lst, l = l1 ++ (p, c) :: l2 /\ v = Some p /\ c_start c <= addr < c_end c /\
     dseg (mm_segs mm) m v ((p, c) :: l2) lst None /\ ordered (upper 0 l1) ((p, c) :: l2)).
Proof.
  intros I Ho ->. destruct (inv_list _ _ _ I) as [[lst Hd] _]. unfold view.
  destruct (seg_at l addr) as [[p c]|] eqn:E; [right|by left].
  apply seg_at_Some in E as [Hin Hc]. apply list_elem_of_split in Hin as (l1 & l2 & ->).
  apply dseg_app in Hd as (m & n & _ & Hd). exists l1, p, c, l2, m, lst. split; [done|]. split; [done|].
  split; [done|]. apply ordered_app in Ho as [_ Ho]. split; [|done]. by destruct Hd as [-> Hd].
Qed.

(** The range is mapped throughout. *)
Definition mapped (l : list (nat * seg_core)) (addr end_ : Z) : Prop :=
  forall x, addr <= x < end_ -> view l x <> None.

Definition flagged (l : list (nat * seg_core)) (addr end_ bits : Z) : Prop :=
  exists p c, (p, c) ∈ l /\ meets addr end_ c /\ has (c_flags c) bits = true.

(** Lookup and walk: is the range mapped? *)
Lemma covered_spec X l mm addr end_ : inv X l mm -> ordered 0 l -> Z.of_nat (length l) <= 100000 -> addr < end_ ->
  exists mm' v cov, mm_seg_find mm addr = Some (mm', v) /\ cover_loop (fuel mm') mm' addr end_ v = Some cov /\
    inv X l mm' /\ rest mm' = rest mm /\ mm_kcalloc mm' = mm_kcalloc mm /\ mm_events mm' = mm_events mm /\
    (cov < end_ /\ ~ mapped l addr end_ \/ end_ <= cov /\ mapped l addr end_).
Proof.
  intros I Ho Hl Hae. destruct (find_inv X l mm addr I Ho Hl) as (mm' & E & I' & Ev & Es).
  exists mm', (fst <$> seg_at l addr). pose proof (inv_fuel _ _ _ I') as Hf.
  destruct (seg_at_mid X l mm' addr _ I' Ho eq_refl) as [[Hv0 Hv]|(l1 & p & c & l2 & m & lst & -> & Ev' & Hc & Hd & Hol)].
  - rewrite Hv0 in *. exists addr. split; [done|]. split; [by destruct (fuel mm')|]. split; [done|].
    split; [by apply env_rest|]. split; [by apply env_kcalloc|]. split; [done|]. left. split; [done|].
    intros H. apply (H addr); [lia|done].
  - destruct (cover_spec mm' end_ ((p, c) :: l2) (fuel mm') _ m lst (upper 0 l1) addr Hd) as (cov & E2 & Hle & Hin & Hout);
      [rewrite length_app in Hf; cbn in *; lia|done|].
    exists cov. split; [done|]. split; [exact E2|]. split; [done|].
    split; [by apply env_rest|]. split; [by apply env_kcalloc|]. split; [done|].
    destruct (Z.lt_ge_cases cov end_) as [Hlt|Hge]; [left|right]; (split; [done|]).
    + intros H. apply (H cov); [lia|]. rewrite view_mid by (done || lia). by apply Hout.
    + intros x Hx. rewrite view_mid by (done || lia). apply Hin. lia.
Qed.

(** Lookup and walk: does a mapping of the range have one of the flags? *)
Lemma flagged_spec X l mm addr end_ bits : inv X l mm -> ordered 0 l -> Z.of_nat (length l) <= 100000 ->
  view l addr <> None ->
  exists mm' v b, mm_seg_find mm addr = Some (mm', v) /\ range_flag_loop (fuel mm') mm' addr end_ bits v = Some b /\
    inv X l mm' /\ rest mm' = rest mm /\ mm_kcalloc mm' = mm_kcalloc mm /\ mm_events mm' = mm_events mm /\
    (b = true <-> flagged l addr end_ bits).
Proof.
  intros I Ho Hl Hm. destruct (find_inv X l mm addr I Ho Hl) as (mm' & E & I' & Ev & Es).
  pose proof (inv_fuel _ _ _ I') as Hf.
  destruct (seg_at_mid X l mm' addr _ I' Ho eq_refl) as [[_ Hv]|(l1 & p & c & l2 & m & lst & -> & Ev' & Hc & Hd & Hol)]; [done|].
  destruct (flag_spec mm' addr end_ bits ((p, c) :: l2) (fuel mm') _ m lst (upper 0 l1) Hd) as (b & E2 & Hb);
    [rewrite length_app in Hf; cbn in *; lia|done|].
  exists mm', (fst <$> seg_at (l1 ++ (p, c) :: l2) addr), b. split; [done|]. split; [exact E2|]. split; [done|].
  split; [by apply env_rest|]. split; [by apply env_kcalloc|]. split; [done|]. rewrite Hb. split.
  - intros (q & d & Hq & H). exists q, d. split; [apply elem_of_app; by right|done].
  - intros (q & d & [Hq|Hq]%elem_of_app & Hmt & H); [|by exists q, d].
    exfalso. apply ordered_app in Ho as (Ho1 & Ho2 & _). pose proof (ordered_upper _ _ _ _ Ho1 Hq).
    destruct Hmt. lia.
Qed.

(** ** Protection *)

Section Protect.

Context {arch : MmArch}.
Variables (ptef vp : Z).
Hypothesis Hvp : 0 <= vp < 8.

Definition set_rwx (f : Z) : Z := Z.lor (Z.ldiff f 7) vp.

Definition prot_core (c : seg_core) : seg_core :=
  c {{ c_pte := mm_pte_flags_apply_prot (c_pte c) ptef; c_flags := set_rwx (c_flags c) }}.

(** What a change of protection does to an address. *)
Definition prot_attr (a : Z * Z * option (option Z * Z) * option Z) :=
  let '(f, p, pl, s) := a in (set_rwx f, mm_pte_flags_apply_prot p ptef, pl, s).

Lemma set_rwx_has f b : Z.land (Z.lnot 7) b = b -> has (set_rwx f) b = has f b.
Proof using Hvp.
  intros Hb. unfold has, set_rwx. f_equal. rewrite Z.land_lor_distr_l, Z.ldiff_land, <- Z.land_assoc, Hb.
  assert (Hv : Z.land vp b = 0).
  { rewrite <- Hb, Z.land_assoc, <- (Z.ldiff_land vp 7).
    assert (vp = 0 \/ vp = 1 \/ vp = 2 \/ vp = 3 \/ vp = 4 \/ vp = 5 \/ vp = 6 \/ vp = 7) as H by lia.
    by destruct H as [->|[->|[->|[->|[->|[->|[->| ->]]]]]]]. }
  by rewrite Hv, Z.lor_0_r.
Qed.

Lemma prot_core_attr c x : attr (prot_core c) x = prot_attr (attr c x).
Proof using Hvp.
  unfold attr, prot_attr, place.
  change (c_flags (prot_core c)) with (set_rwx (c_flags c)).
  change (c_pte (prot_core c)) with (mm_pte_flags_apply_prot (c_pte c) ptef).
  by rewrite !set_rwx_has.
Qed.

Lemma set_rwx_idem f : set_rwx (set_rwx f) = set_rwx f.
Proof.
  unfold set_rwx. apply Z.bits_inj'. intros n Hn. rewrite !Z.lor_spec, !Z.ldiff_spec, !Z.lor_spec, Z.ldiff_spec.
  btauto.
Qed.

(** Masking to [R|M] with the bits [R] of [q] in place, clearing [C] or not. *)
Lemma replace_idem R M C q p :
  let f x := Z.lor (Z.ldiff (Z.land x (Z.lor R M)) R) (Z.land q R) in
  f (f p) = f p /\ Z.ldiff (f (Z.ldiff (f p) C)) C = Z.ldiff (f p) C.
Proof.
  split; apply Z.bits_inj'; intros n Hn; repeat rewrite ?Z.lor_spec, ?Z.ldiff_spec, ?Z.land_spec;
    destruct (Z.testbit R n), (Z.testbit M n), (Z.testbit C n), (Z.testbit q n), (Z.testbit p n); done.
Qed.

Lemma apply_prot_idem p :
  mm_pte_flags_apply_prot (mm_pte_flags_apply_prot p ptef) ptef = mm_pte_flags_apply_prot p ptef.
Proof.
  unfold mm_pte_flags_apply_prot. set (R := Z.lor (Z.lor (Z.lor PTE_R PTE_W) PTE_X) PTE_D).
  rewrite <- !(Z.lor_assoc R), <- !Z.lor_assoc.
  destruct (has ptef PTE_W); [apply (replace_idem _ _ 0)|apply replace_idem].
Qed.

Lemma prot_attr_idem a : prot_attr (prot_attr a) = prot_attr a.
Proof. destruct a as [[[f p] pl] s]. cbn. by rewrite set_rwx_idem, apply_prot_idem. Qed.

Lemma core_prot r : core (mprotect_flags ptef vp r) = prot_core (core r).
Proof. done. Qed.

(** A record wholly inside the range is not split. *)
Lemma prot_split_id mm p r : sg mm p = Some r -> mprotect_split mm p (sg_start r) (sg_end r) = Some (mm, Some p).
Proof.
  intros Hr. unfold mprotect_split. rewrite Hr. cbn [mbind option_bind].
  rewrite Z.gtb_ltb, Z.ltb_irrefl. cbn [mbind option_bind]. rewrite Hr. cbn [mbind option_bind].
  by rewrite Z.ltb_irrefl.
Qed.

(** The view with the protection changed in [[lo, m)]. *)
Definition protected (lo m : Z) (l l' : list (nat * seg_core)) : Prop :=
  ordered 0 l' /\ forall x, view l' x = if inside lo m x then prot_attr <$> view l x else view l x.

Lemma upper_snoc lo l p c : upper lo (l ++ [(p, c)]) = c_end c.
Proof. by rewrite upper_app. Qed.

(** One record changed and merged, then the rest: all of it changed. *)
Lemma protected_step l1 p c l2 l1' w d l2' l' m end_ : ordered 0 (l1 ++ (p, c) :: l2) ->
  c_end c <= end_ -> c_end c <= c_end d -> c_start d <= c_start c ->
  (forall x, attr d x = attr (prot_core c) x) -> ordered 0 (l1' ++ (w, d) :: l2') ->
  (forall x, view (l1' ++ (w, d) :: l2') x = view (l1 ++ (p, prot_core c) :: l2) x) ->
  protected (c_end d) m (l1' ++ (w, d) :: l2') l' ->
  protected (upper 0 l1) (Z.max m (c_end c)) (l1 ++ (p, c) :: l2) l'.
Proof using Hvp.
  intros (H1 & H2 & H3 & H4)%ordered_app He Hd Hs Ha (H5 & H6 & H7 & H8)%ordered_app V [Ho V'].
  split; [done|]. intros x. rewrite V', V, !view_app. destruct (Z.lt_ge_cases x (upper 0 l1)) as [Hx|Hx].
  { rewrite !(proj2 (inside_false _ _ _)) by lia. destruct (view l1 x); [done|].
    rewrite !view_cons. change (c_start (prot_core c)) with (c_start c).
    change (c_end (prot_core c)) with (c_end c). by rewrite (proj2 (inside_false _ _ _)) by lia. }
  rewrite (view_above 0 l1 x) by done. rewrite !view_cons.
  change (c_start (prot_core c)) with (c_start c). change (c_end (prot_core c)) with (c_end c).
  destruct (inside (c_start c) (c_end c) x) eqn:Ei.
  { apply inside_true in Ei. rewrite (proj2 (inside_false (c_end d) _ _)) by lia.
    rewrite (proj2 (inside_true (upper 0 l1) _ _)) by lia. cbn [fmap option_fmap option_map]. by rewrite prot_core_attr. }
  apply inside_false in Ei. destruct (Z.lt_ge_cases x (c_start c)) as [Hl|Hg].
  { rewrite (view_below (c_end c) l2) by (done || lia). by destruct (inside _ _ _), (inside _ _ _). }
  destruct (Z.lt_ge_cases x (c_end d)) as [Hxd|Hxd].
  - rewrite (proj2 (inside_false (c_end d) _ _)) by lia. specialize (V x).
    rewrite !view_app, (view_above 0 l1'), (view_above 0 l1 x), !view_cons in V by (done || lia).
    change (c_start (prot_core c)) with (c_start c) in V. change (c_end (prot_core c)) with (c_end c) in V.
    rewrite (proj2 (inside_true _ _ _)), (proj2 (inside_false (c_start c) _ _)) in V by lia.
    rewrite <- V. cbn [fmap option_fmap option_map]. rewrite Ha, prot_core_attr, prot_attr_idem. by destruct (inside _ _ _).
  - destruct (inside (c_end d) m x) eqn:E.
    + apply inside_true in E. by rewrite (proj2 (inside_true _ _ _)) by lia.
    + apply inside_false in E. by rewrite (proj2 (inside_false _ _ _)) by lia.
Qed.

(** The loop over the records of the range. *)
Lemma prot_loop_spec X addr end_ : forall k l2 n mm l1, (length l2 <= k)%nat -> inv X (l1 ++ l2) mm ->
  ordered 0 (l1 ++ l2) -> edge l2 end_ -> (forall q d, (q, d) ∈ l2 -> addr <= c_start d) ->
  (length l2 < n)%nat ->
  exists mm' r l' m, mprotect_loop n mm addr end_ ptef vp (head l2.*1) = Some (mm', r) /\ inv X l' mm' /\
    protected (upper 0 l1) m (l1 ++ l2) l' /\ (length l' <= length (l1 ++ l2))%nat /\ limits mm' = limits mm /\
    (r = 0 /\ m = end_ \/ r < 0 /\ (r ∈ mm_page_loops mm) /\ m <= end_).
Proof using Hvp.
  induction k as [|k IH]; intros l2 n mm l1 Hk I Ho He Hlo Hn;
    (destruct l2 as [|[p c] l2]; [|destruct n as [|n]; [cbn in Hn; lia|]]).
  1,3: exists mm, 0, (l1 ++ []), end_; split; [by destruct n|]; split; [done|];
    split; [|split; [lia|split; [done|by left]]]; split; [done|]; intros x;
    destruct (inside (upper 0 l1) end_ x) eqn:E; [|done]; apply inside_true in E;
    rewrite app_nil_r in *; rewrite (view_above 0 l1 x); done || lia.
  { cbn in Hk. lia. }
  destruct (inv_links _ _ _ _ _ _ I) as (r & Hr & Ec & _ & _).
  destruct (inv_ext _ _ _ I p c ltac:(set_solver) Ho r Hr) as (Ers & Ere & _ & Hlt).
  pose proof (proj1 (ordered_app 0 l1 ((p, c) :: l2)) Ho) as (H1 & H2 & H3 & H4).
  cbn [fmap list_fmap fst head hd_error mprotect_loop]. rewrite Hr. cbn [mbind option_bind].
  rewrite Z.geb_leb, Z.gtb_ltb. destruct (Z.leb_spec end_ (sg_start r)) as [Hend|Hend].
  { exists mm, 0, (l1 ++ (p, c) :: l2), end_. split; [done|]. split; [done|]. split; [|split; [lia|split; [done|by left]]].
    split; [done|]. intros x. destruct (inside (upper 0 l1) end_ x) eqn:E; [|done]. apply inside_true in E.
    by rewrite view_app, (view_above 0 l1), (view_below (c_start c) ((p, c) :: l2)) by (cbn; done || lia). }
  pose proof (Hlo p c ltac:(by left)) as Hs. destruct (He p c) as [?|Hce]; [by left|lia|].
  rewrite (proj2 (Z.ltb_ge (sg_start r) addr)), (proj2 (Z.ltb_ge end_ (sg_end r))) by lia.
  rewrite (prot_split_id mm p r Hr). cbn [mbind option_bind].
  destruct (page_loop_eq mm) as (pl & e & -> & Hpl & Hin). destruct (Z.ltb_spec e 0) as [Hneg|Hpos].
  { eexists _, e, (l1 ++ (p, c) :: l2), (upper 0 l1). split; [reflexivity|].
    split; [by eapply inv_fields; [..|exact I]|]. split.
    - split; [done|]. intros x. by rewrite (proj2 (inside_false (upper 0 l1) (upper 0 l1) x)) by lia.
    - split; [lia|]. split; [done|]. right. split; [done|]. split; [by apply Hin|lia]. }
  set (mm1 := mm {{ mm_page_loops := pl }}).
  assert (I1 : inv X (l1 ++ (p, c) :: l2) mm1) by (by eapply inv_fields; [..|exact I]).
  rewrite (sg_upd_eq mm1 p r _ Hr). cbn [mbind option_bind].
  pose proof (set_core_spec X l1 p c l2 mm1 r (mprotect_flags ptef vp r) I1 Hr eq_refl eq_refl eq_refl eq_refl eq_refl) as I2.
  rewrite core_prot, Ec in I2. set (mm2 := sg_set mm1 p _) in *.
  assert (Ho2 : ordered 0 (l1 ++ (p, prot_core c) :: l2)) by (apply ordered_app; by repeat split).
  destruct (try_merge_spec X l1 p (prot_core c) l2 mm2 I2 Ho2)
    as (mm3 & w & l1' & d & l2' & -> & I3 & Ho3 & V3 & A3 & S3 & E3 & Ev3 & _ & Hl2 & Le3).
  cbn [mbind option_bind]. destruct (inv_links _ _ _ _ _ _ (proj1 I3)) as (r3 & Hr3 & _ & _ & Hnx).
  rewrite Hr3. cbn [mbind option_bind]. rewrite Hnx.
  assert (Hsub : forall y, y ∈ l2' -> y ∈ (p, c) :: l2).
  { intros y Hy. destruct Hl2 as [[-> _]|(b & cb & -> & _)]; [by right|by right; right]. }
  assert (Hlen : (length l2' <= length l2)%nat).
  { destruct Hl2 as [[-> _]|(b & cb & -> & _)]; [done|cbn; lia]. }
  destruct (IH l2' n mm3 (l1' ++ [(w, d)])) as (mm4 & r4 & l' & m & -> & I4 & V4 & Le4 & Li4 & D4).
  { cbn in Hk. lia. } { rewrite <- app_assoc. apply I3. } { by rewrite <- app_assoc. }
  { intros q y Hq. by apply (He q y), Hsub. } { intros q y Hq. by apply (Hlo q y), Hsub. } { cbn in Hn. lia. }
  rewrite upper_snoc, <- app_assoc in *. exists mm4, r4, l', (Z.max m (c_end c)). split; [done|].
  split; [done|]. split; [apply (protected_step l1 p c l2 l1' w d l2' l' m end_); done|].
  split; [cbn [app] in Le4; rewrite !length_app in *; cbn in *; lia|].
  split; [rewrite Li4, (rest_limits _ _ (env_rest _ _ Ev3)); done|].
  destruct D4 as [[-> ->]|(Hr4 & Hi4 & Hm)]; [left; split; [done|lia]|right].
  split; [done|]. split; [|lia]. apply Hpl. apply env_rest in Ev3.
  assert (Ep : mm_page_loops mm3 = mm_page_loops mm2) by (unfold rest in Ev3; congruence).
  rewrite Ep in Hi4. exact Hi4.
Qed.

End Protect.

Section Mprotect.

Context {arch : MmArch}.

Lemma prot_vm_range prot : 0 <= prot_vm_flags prot 0 < 8.
Proof.
  unfold prot_vm_flags, when. destruct (has prot 1), (has prot 2), (has prot 4); by vm_compute.
Qed.

(** One of the first [k] answers of the allocator is NULL. *)
Definition short (k : nat) (mm : mm_struct_t) : Prop :=
  exists i, (i < k)%nat /\ (mm_kcalloc mm !! i = None \/ mm_kcalloc mm !! i = Some None).

Lemma no_memory_short mm : no_memory mm -> short 1 mm.
Proof.
  intros H. exists 0%nat. split; [lia|]. destruct H as [->|H]; [by left|right].
  by destruct (mm_kcalloc mm); [|cbn in *; congruence].
Qed.

Lemma short_tail mm mm' : short 1 mm' ->
  mm_kcalloc mm' = mm_kcalloc mm \/ (exists t, mm_kcalloc mm = Some t :: mm_kcalloc mm') -> short 2 mm.
Proof.
  intros (i & Hi & H) [E|[t E]].
  - exists i. rewrite <- E. split; [lia|done].
  - exists (S i). rewrite E. split; [lia|done].
Qed.

(** Both ends of a range become edges. *)
Lemma splits_spec X l mm addr end_ : inv X l mm -> ordered 0 l -> Z.of_nat (length l) <= 99998 ->
  exists mm1 r1, mm_split_vma_at mm addr = Some (mm1, r1) /\
  (r1 = - ENOMEM /\ short 2 mm /\ (exists l', inv X l' mm1 /\ same_view l l' /\ (length l' <= S (length l))%nat /\
     rest mm1 = rest mm /\ (names_ok l (mm_events mm) -> names_ok l' (mm_events mm1))) \/
   r1 = 0 /\ exists mm2 r2 l', mm_split_vma_at mm1 end_ = Some (mm2, r2) /\ inv X l' mm2 /\ same_view l l' /\
     (length l' <= S (S (length l)))%nat /\ rest mm2 = rest mm /\
     (names_ok l (mm_events mm) -> names_ok l' (mm_events mm2)) /\
     (r2 = - ENOMEM /\ short 2 mm \/ r2 = 0 /\ edge l' addr /\ edge l' end_)).
Proof.
  intros I Ho Hl. destruct (split_at_spec X l mm addr I Ho) as (mm1 & r1 & l1 & E1 & I1 & S1 & R1 & D1 & L1 & N1); [lia|].
  exists mm1, r1. split; [done|]. destruct D1 as [(-> & Ed1 & K1)|[-> Hno]].
  2:{ left. split; [done|]. split; [|by exists l1].
      apply no_memory_short in Hno. apply (short_tail mm mm); [done|by left]. }
  right. split; [done|].
  destruct (split_at_spec X l1 mm1 end_ I1 (sv_ordered _ _ S1)) as (mm2 & r2 & l2 & E2 & I2 & S2 & R2 & D2 & L2 & N2); [lia|].
  exists mm2, r2, l2. split; [done|]. split; [done|]. split.
  { split; [apply S2|intros x; rewrite (sv_view _ _ S2); apply S1|intros a Ha; by apply S2, S1]. }
  split; [lia|]. split; [congruence|]. split; [auto|]. destruct D2 as [(-> & Ed2 & _)|[-> Hno]].
  - right. split; [done|]. split; [by apply S2|done].
  - left. split; [done|]. apply no_memory_short in Hno. by apply (short_tail mm mm1).
Qed.

(** From a mapped [addr] that is an edge: the record that starts there. *)
Lemma find_edge X l mm addr : inv X l mm -> ordered 0 l -> Z.of_nat (length l) <= 100000 ->
  view l addr <> None -> edge l addr ->
  exists mm' l1 p c l2, mm_seg_find mm addr = Some (mm', Some p) /\ inv X l mm' /\ l = l1 ++ (p, c) :: l2 /\
    c_start c = addr /\ rest mm' = rest mm /\ mm_events mm' = mm_events mm.
Proof.
  intros I Ho Hl Hv He. destruct (find_inv X l mm addr I Ho Hl) as (mm' & E & I' & Ev & Es). unfold view in Hv.
  destruct (seg_at l addr) as [[p c]|] eqn:Ef; [|done].
  apply seg_at_Some in Ef as [Hin Hc]. destruct (He p c Hin) as [?|?]; [|lia].
  pose proof (list_elem_of_split _ _ Hin) as (l1 & l2 & ->). exists mm', l1, p, c, l2.
  split; [done|]. split; [done|]. split; [done|]. split; [lia|]. split; [by apply env_rest|done].
Qed.

(** What the call does to a list. *)
Definition mprotect_outcome (policy : wx_policy) (host : bool) (mm : mm_struct_t)
    (l : list (nat * seg_core)) (addr len prot r : Z) (l' : list (nat * seg_core)) : Prop :=
  let prot2 := mm_wx_filter_prot policy host (Z.ldiff prot PROT_HINT_MASK) in
  let e := addr + page_up len in
  let changed m := protected (mm_prot_to_pte_flags prot2) (prot_vm_flags prot2 0) addr m l l' in
  if c_true (Z.ldiff prot PROT_KNOWN_MASK) || c_true (Z.land addr 4095) then r = - EINVAL /\ l' = l
  else if page_up len =? 0 then r = 0 /\ l' = l
  else if prot2 <? 0 then r = prot2 /\ l' = l
  else if (18446744073709551616 <=? e) || (USER_VA_LIMIT <? e) then r = - ENOMEM /\ l' = l
  else
    r = - ENOMEM /\ l' = l /\ ~ mapped l addr e \/
    mapped l addr e /\
      (r = - EPERM /\ l' = l /\ flagged l addr e VM_SEALED \/
       ~ flagged l addr e VM_SEALED /\
         (r = 0 /\ changed e \/ r = - ENOMEM /\ short 2 mm /\ same_view l l' \/
          r < 0 /\ (r ∈ mm_page_loops mm) /\ exists m, m <= e /\ changed m)).

Lemma protected_lo ptef vp l1 p c l2 m l' : ordered 0 (l1 ++ (p, c) :: l2) ->
  protected ptef vp (upper 0 l1) m (l1 ++ (p, c) :: l2) l' ->
  protected ptef vp (c_start c) m (l1 ++ (p, c) :: l2) l'.
Proof.
  intros (H1 & H2 & H3 & H4)%ordered_app [Ho V]. split; [done|]. intros x. rewrite V.
  destruct (Z.lt_ge_cases x (c_start c)) as [Hx|Hx].
  - rewrite (proj2 (inside_false (c_start c) _ _)) by lia.
    destruct (inside (upper 0 l1) m x) eqn:E; [|done]. apply inside_true in E.
    by rewrite view_app, (view_above 0 l1), (view_below (c_start c) ((p, c) :: l2)) by (cbn; done || lia).
  - destruct (inside (c_start c) m x) eqn:E.
    + apply inside_true in E. by rewrite (proj2 (inside_true _ _ _)) by lia.
    + apply inside_false in E. by rewrite (proj2 (inside_false _ _ _)) by lia.
Qed.

(** The part of the call after the checks. *)
Lemma mprotect_change X l mm addr end_ ptef vp : 0 <= vp < 8 -> inv X l mm -> ordered 0 l ->
  Z.of_nat (length l) <= 99998 -> addr < end_ -> mapped l addr end_ ->
  exists mm' r l',
    ('(mm, r) ← mm_split_vma_at mm addr;
     if r <? 0 then Some (mm, r) else
     '(mm, r) ← mm_split_vma_at mm end_;
     if r <? 0 then Some (mm, r) else
     '(mm, v) ← mm_seg_find mm addr;
     mprotect_loop (fuel mm) mm addr end_ ptef vp v) = Some (mm', r) /\
    inv X l' mm' /\ ordered 0 l' /\ (length l' <= S (S (length l)))%nat /\ limits mm' = limits mm /\
    (r = 0 /\ protected ptef vp addr end_ l l' \/ r = - ENOMEM /\ short 2 mm /\ same_view l l' \/
     r < 0 /\ (r ∈ mm_page_loops mm) /\ exists m, m <= end_ /\ protected ptef vp addr m l l').
Proof.
  intros Hvp I Ho Hl Hae Hm.
  destruct (splits_spec X l mm addr end_ I Ho Hl) as (mm1 & r1 & -> & [(-> & Hsh & l' & I1 & S1 & L1 & R1 & _)|(-> & D)]);
    cbn [mbind option_bind].
  { change (- ENOMEM <? 0) with true. cbn iota. exists mm1, (- ENOMEM), l'. split; [done|]. split; [done|].
    split; [apply S1|]. split; [lia|]. split; [by apply rest_limits|]. right. left. by split. }
  change (0 <? 0) with false. cbn iota.
  destruct D as (mm2 & r2 & l' & -> & I2 & S2 & L2 & R2 & _ & [[-> Hsh]|(-> & Ed1 & Ed2)]); cbn [mbind option_bind].
  { change (- ENOMEM <? 0) with true. cbn iota. exists mm2, (- ENOMEM), l'. split; [done|]. split; [done|].
    split; [apply S2|]. split; [lia|]. split; [by apply rest_limits|]. right. left. by split. }
  change (0 <? 0) with false. cbn iota. pose proof (sv_ordered _ _ S2) as Ho2.
  destruct (find_edge X l' mm2 addr I2 Ho2) as (mm3 & l1 & p & c & l2 & -> & I3 & -> & Hc & R3 & _);
    [lia|rewrite (sv_view _ _ S2); apply Hm; lia|done|]. cbn [mbind option_bind].
  pose proof (proj1 (ordered_app 0 l1 ((p, c) :: l2)) Ho2) as (H1 & H2 & H3 & H4).
  destruct (prot_loop_spec ptef vp Hvp X addr end_ (length ((p, c) :: l2)) ((p, c) :: l2) (fuel mm3) mm3 l1)
    as (mm4 & r4 & l4 & m & E4 & I4 & V4 & L4 & Li4 & D4); try done.
  { intros q d Hq. apply (Ed2 q d). apply elem_of_app. by right. }
  { intros q d Hq. destruct (ordered_lower (c_start c) ((p, c) :: l2) q d) as [? _]; [|done|lia].
    cbn. repeat split; [lia|done|done]. }
  { pose proof (inv_fuel _ _ _ I3) as Hf. rewrite length_app in Hf. lia. }
  apply protected_lo in V4; [|done]. rewrite Hc in V4.
  assert (V : protected ptef vp addr m l l4).
  { destruct V4 as [Ho4 V4]. split; [done|]. intros x. rewrite V4. by rewrite (sv_view _ _ S2). }
  exists mm4, r4, l4. split; [exact E4|]. split; [done|]. split; [apply V4|]. split; [lia|].
  split; [rewrite Li4, (rest_limits _ _ R3); by apply rest_limits|].
  destruct D4 as [[-> ->]|(Hr4 & Hi4 & Hm4)]; [left; by split|]. right. right. split; [done|].
  split; [|by exists m]. assert (Ep : mm_page_loops mm3 = mm_page_loops mm) by (unfold rest in *; congruence).
  by rewrite Ep in Hi4.
Qed.

Lemma mprotect_spec policy host X l mm addr len prot : inv X l mm -> ordered 0 l ->
  Z.of_nat (length l) <= 99998 -> in_u64 addr -> USER_VA_LIMIT < 18446744073709551616 ->
  exists mm' r l', mm_mprotect_locked policy host mm addr len prot = Some (mm', r) /\ inv X l' mm' /\
    ordered 0 l' /\ (length l' <= S (S (length l)))%nat /\ limits mm' = limits mm /\ mprotect_outcome policy host mm l addr len prot r l'.
Proof.
  intros I Ho Hl Ha Hlim. unfold mm_mprotect_locked, mprotect_outcome. cbv zeta. change (PG - 1) with 4095.
  destruct (c_true (Z.ldiff prot PROT_KNOWN_MASK)); cbn [orb].
  { exists mm, (- EINVAL), l. repeat (split; [done || lia|]). done. }
  destruct (c_true (Z.land addr 4095)).
  { exists mm, (- EINVAL), l. repeat (split; [done || lia|]). done. }
  destruct (Z.eqb_spec (page_up len) 0) as [E1|E1].
  { exists mm, 0, l. repeat (split; [done || lia|]). done. }
  set (prot2 := mm_wx_filter_prot _ _ _). destruct (prot2 <? 0).
  { exists mm, prot2, l. repeat (split; [done || lia|]). done. }
  pose proof (page_up_range len) as Hpl.
  destruct (end_spec addr (page_up len) Ha Hpl) as [[-> He]|(-> & He & ->)]; cbn [orb].
  { rewrite (proj2 (Z.leb_le _ _)) by lia. exists mm, (- ENOMEM), l. repeat (split; [done || lia|]). done. }
  rewrite (proj2 (Z.leb_gt _ _)) by lia. cbn [orb]. rewrite Z.gtb_ltb.
  destruct (Z.ltb_spec USER_VA_LIMIT (addr + page_up len)) as [Hv|Hv].
  { exists mm, (- ENOMEM), l. repeat (split; [done || lia|]). done. }
  set (e := addr + page_up len) in *. assert (Hae : addr < e) by (unfold in_u64 in *; lia).
  pose proof (inv_to_stale _ _ _ I) as I0. set (mm0 := mm_seg_index_invalidate mm) in *.
  destruct (covered_spec X l mm0 addr e (proj1 I0) Ho) as (mm1 & v & cov & -> & Ec & I1 & R1 & K1 & Es1 & Dc); [lia|done|].
  cbn [mbind option_bind]. rewrite Ec. cbn [mbind option_bind]. destruct Dc as [[Hc Hnm]|[Hc Hm]].
  { rewrite (proj2 (Z.ltb_lt _ _)) by done. exists mm1, (- ENOMEM), l. do 4 (split; [done || lia|]).
    split; [by apply (rest_limits mm0)|]. left. done. }
  rewrite (proj2 (Z.ltb_ge _ _)) by done.
  destruct (flagged_spec X l mm1 addr e VM_SEALED I1 Ho) as (mm2 & v2 & b & -> & Eb & I2 & R2 & K2 & Es2 & Hb);
    [lia|apply Hm; lia|]. cbn [mbind option_bind]. rewrite Eb. cbn [mbind option_bind]. destruct b.
  { exists mm2, (- EPERM), l. do 4 (split; [done || lia|]).
    split; [rewrite (rest_limits _ _ R2); by apply (rest_limits mm0)|]. right. split; [done|]. left. split; [done|].
    split; [done|]. by apply Hb. }
  destruct (mprotect_change X l mm2 addr e (mm_prot_to_pte_flags prot2) (prot_vm_flags prot2 0))
    as (mm3 & r & l' & E3 & I3 & Ho3 & L3 & Li3 & D3); try done; [apply prot_vm_range|].
  exists mm3, r, l'. split; [exact E3|]. split; [done|]. split; [done|]. split; [done|].
  split; [rewrite Li3, (rest_limits _ _ R2); by apply (rest_limits mm0)|]. right. split; [done|]. right.
  split; [intros Hf; by apply Hb in Hf|].
  change (rest mm0) with (rest mm) in R1. assert (Ep : mm_page_loops mm2 = mm_page_loops mm) by (unfold rest in *; congruence).
  assert (Ek : mm_kcalloc mm2 = mm_kcalloc mm) by (rewrite K2, K1; done).
  unfold short in *. rewrite Ep, Ek in D3. exact D3.
Qed.

End Mprotect.

(** ** Sealing *)

Section Seal.

Context {arch : MmArch}.

Definition seal_core (c : seg_core) : seg_core := c {{ c_flags := Z.lor (c_flags c) VM_SEALED }}.

Definition seal_attr (a : Z * Z * option (option Z * Z) * option Z) :=
  let '(f, p, pl, s) := a in (Z.lor f VM_SEALED, p, pl, s).

Lemma seal_has f b : Z.land VM_SEALED b = 0 -> has (Z.lor f VM_SEALED) b = has f b.
Proof. intros H. unfold has. by rewrite Z.land_lor_distr_l, H, Z.lor_0_r. Qed.

Lemma seal_core_attr c x : attr (seal_core c) x = seal_attr (attr c x).
Proof.
  unfold attr, seal_attr, place. change (c_flags (seal_core c)) with (Z.lor (c_flags c) VM_SEALED).
  by rewrite !seal_has.
Qed.

(** The records of a range sealed. *)
Definition seal_in (end_ : Z) (y : nat * seg_core) : nat * seg_core :=
  if c_start y.2 <? end_ then (y.1, seal_core y.2) else y.

Lemma seal_in_range end_ y : c_start (seal_in end_ y).2 = c_start y.2 /\ c_end (seal_in end_ y).2 = c_end y.2.
Proof. unfold seal_in. by destruct (_ <? _). Qed.

Lemma seal_ordered end_ lo l : ordered lo (seal_in end_ <$> l) <-> ordered lo l.
Proof.
  revert lo. induction l as [|[p c] l IH]; intros lo; [done|]. rewrite fmap_cons.
  destruct (seal_in_range end_ (p, c)) as [E1 E2]. destruct (seal_in end_ (p, c)) as [q d].
  cbn [ordered snd] in *. by rewrite E1, E2, IH.
Qed.

Lemma seal_view end_ lo l x : ordered lo l -> edge l end_ ->
  view (seal_in end_ <$> l) x = if x <? end_ then seal_attr <$> view l x else view l x.
Proof.
  revert lo. induction l as [|[p c] l IH]; intros lo; [by destruct (x <? end_)|].
  intros (H1 & H2 & H3) He. rewrite fmap_cons. destruct (seal_in_range end_ (p, c)) as [E1 E2].
  unfold seal_in at 1. cbn [snd fst]. rewrite view_cons.
  assert (IH' : view (seal_in end_ <$> l) x = if x <? end_ then seal_attr <$> view l x else view l x).
  { apply (IH _ H3). intros q d Hq. apply (He q). by right. }
  destruct (He p c) as [Hp|Hp]; [by left| |];
    destruct (Z.ltb_spec (c_start c) end_); try lia; rewrite view_cons.
  - rewrite IH'. destruct (inside (c_start c) (c_end c) x) eqn:E; [|done]. apply inside_true in E.
    by rewrite (proj2 (Z.ltb_ge _ _)) by lia.
  - change (c_start (seal_core c)) with (c_start c). change (c_end (seal_core c)) with (c_end c).
    rewrite IH'. destruct (inside (c_start c) (c_end c) x) eqn:E; [|done]. apply inside_true in E.
    rewrite (proj2 (Z.ltb_lt _ _)) by lia. cbn [fmap option_fmap option_map]. by rewrite seal_core_attr.
Qed.

(** Names depend on the extent and on what kind of mapping it is. *)
Definition shape (y : nat * seg_core) : nat * Z * Z * bool :=
  (y.1, c_start y.2, c_end y.2, dispatchable y.2).

Lemma names_shape l l' evs : shape <$> l' = shape <$> l -> names_ok l evs -> names_ok l' evs.
Proof.
  assert (Hs : forall (l : list (nat * seg_core)) p x, (exists c, (p, c) ∈ l /\ dispatchable c = true /\ c_start c <= x < c_end c) <->
                             exists s e, (p, s, e, true) ∈ shape <$> l /\ s <= x < e).
  { intros k p x. split.
    - intros (c & Hc & Hd & Hx). exists (c_start c), (c_end c). split; [|done]. apply list_elem_of_fmap.
      exists (p, c). split; [|done]. unfold shape. cbn. by rewrite Hd.
    - intros (s & e & ([q c] & E & Hc)%list_elem_of_fmap & Hx). unfold shape in E. cbn in E.
      injection E as -> -> -> Hd. by exists c. }
  intros E H p x. specialize (H p x). rewrite H, !Hs, E. done.
Qed.

Lemma shape_seal end_ (l : list (nat * seg_core)) : shape <$> (seal_in end_ <$> l) = shape <$> l.
Proof.
  rewrite <- list_fmap_compose. apply list_fmap_ext. intros i [p c] _. unfold compose, seal_in. cbn [snd fst].
  destruct (_ <? _); [|done]. unfold shape, dispatchable. cbn [fst snd].
  change (c_flags (seal_core c)) with (Z.lor (c_flags c) VM_SEALED). by rewrite seal_has.
Qed.

Lemma seal_loop_spec X addr end_ : forall l2 n mm l1, inv X (l1 ++ l2) mm -> ordered 0 (l1 ++ l2) ->
  (forall q d, (q, d) ∈ l2 -> addr <= c_start d) -> (length l2 < n)%nat ->
  exists mm', seal_loop n mm addr end_ (head l2.*1) = Some mm' /\ inv X (l1 ++ (seal_in end_ <$> l2)) mm' /\
    (forall p x, named (mm_events mm') p x = named (mm_events mm) p x) /\ rest mm' = rest mm.
Proof.
  induction l2 as [|[p c] l2 IH]; intros n mm l1 I Ho Hlo Hn.
  { exists mm. split; [by destruct n|]. by split. }
  destruct n as [|n]; [cbn in Hn; lia|].
  destruct (inv_links _ _ _ _ _ _ I) as (r & Hr & Ec & _ & Hnx).
  destruct (inv_ext _ _ _ I p c ltac:(set_solver) Ho r Hr) as (Ers & Ere & _ & Hlt).
  pose proof (proj1 (ordered_app 0 l1 ((p, c) :: l2)) Ho) as (H1 & H2 & H3 & H4).
  pose proof (Hlo p c ltac:(by left)) as Hs.
  rewrite (fmap_cons (seal_in end_)). unfold seal_in at 1. cbn [fst snd].
  cbn [fmap list_fmap fst head hd_error seal_loop]. rewrite Hr. cbn [mbind option_bind]. rewrite Ers.
  destruct (Z.ltb_spec (c_start c) end_) as [Hlt'|Hge].
  - rewrite Z.geb_leb, (proj2 (Z.leb_gt end_ _)), (proj2 (Z.leb_gt (sg_end r) addr)) by lia. cbn [orb].
    set (mm1 := log _ _). rewrite Hnx.
    assert (I1 : inv X ((l1 ++ [(p, seal_core c)]) ++ l2) mm1).
    { rewrite <- app_assoc. apply inv_events. subst c. by apply (set_core_spec _ _ _ (core r) _ _ r). }
    destruct (IH n mm1 (l1 ++ [(p, seal_core c)]) I1) as (mm' & -> & I' & N' & R').
    + rewrite <- app_assoc. apply ordered_app. split; [done|]. by repeat split.
    + intros q d Hq. apply (Hlo q). by right.
    + cbn in Hn. lia.
    + exists mm'. rewrite <- app_assoc in I'. split; [done|]. split; [done|]. split; [|exact R'].
      intros q x. rewrite N'. done.
  - exists mm. split; [done|]. split; [|by split].
    replace (seal_in end_ <$> l2) with l2; [done|]. symmetry. rewrite <- (list_fmap_id l2) at 2.
    apply list_fmap_ext. intros i [q d] Hi. unfold seal_in. cbn [snd].
    destruct (ordered_lower _ _ q d H4) as [? _]; [by apply list_elem_of_lookup_2 in Hi|].
    by rewrite (proj2 (Z.ltb_ge _ _)) by lia.
Qed.

(** The view with [[addr, end_)] sealed. *)
Definition sealed_in (addr end_ : Z) (l l' : list (nat * seg_core)) : Prop :=
  ordered 0 l' /\ forall x, view l' x = if inside addr end_ x then seal_attr <$> view l x else view l x.

(** What the call does to a list. *)
Definition mseal_outcome (mm : mm_struct_t) (l : list (nat * seg_core)) (addr len r : Z)
    (l' : list (nat * seg_core)) : Prop :=
  let e := addr + page_up len in
  if c_true (Z.land addr 4095) then r = - EINVAL /\ l' = l
  else if len =? 0 then r = 0 /\ l' = l
  else if (18446744073709551616 <=? e) || (USER_VA_LIMIT <? e) then r = - ENOMEM /\ l' = l
  else
    r = - ENOMEM /\ l' = l /\ ~ mapped l addr e \/
    mapped l addr e /\
      (r = - EPERM /\ l' = l /\ flagged l addr e (Z.lor (Z.lor VM_SYSV_SHM VM_PFNMAP) VM_VMO) \/
       ~ flagged l addr e (Z.lor (Z.lor VM_SYSV_SHM VM_PFNMAP) VM_VMO) /\
         (r = 0 /\ sealed_in addr e l l' \/ r = - ENOMEM /\ short 2 mm /\ same_view l l')).

(** The part of the call after the checks. *)
Lemma mseal_change X l mm addr end_ : inv X l mm -> ordered 0 l ->
  Z.of_nat (length l) <= 99998 -> addr < end_ -> mapped l addr end_ ->
  exists mm' r l',
    ('(mm, r) ← mm_split_vma_at mm addr;
     if r <? 0 then Some (mm, - ENOMEM) else
     '(mm, r) ← mm_split_vma_at mm end_;
     if r <? 0 then Some (mm, - ENOMEM) else
     '(mm, v) ← mm_seg_find mm addr;
     mm ← seal_loop (fuel mm) mm addr end_ v;
     Some (mm, 0)) = Some (mm', r) /\
    inv X l' mm' /\ ordered 0 l' /\ (length l' <= S (S (length l)))%nat /\ limits mm' = limits mm /\
    (r = 0 /\ sealed_in addr end_ l l' \/ r = - ENOMEM /\ short 2 mm /\ same_view l l') /\
    (names_ok l (mm_events mm) -> names_ok l' (mm_events mm')).
Proof.
  intros I Ho Hl Hae Hm.
  destruct (splits_spec X l mm addr end_ I Ho Hl) as (mm1 & r1 & -> & [(-> & Hsh & l' & I1 & S1 & L1 & R1 & N1)|(-> & D)]);
    cbn [mbind option_bind].
  { change (- ENOMEM <? 0) with true. cbn iota. exists mm1, (- ENOMEM), l'. split; [done|]. split; [done|].
    split; [apply S1|]. split; [lia|]. split; [by apply rest_limits|]. split; [right; by split|done]. }
  change (0 <? 0) with false. cbn iota.
  destruct D as (mm2 & r2 & l' & -> & I2 & S2 & L2 & R2 & N2 & [[-> Hsh]|(-> & Ed1 & Ed2)]); cbn [mbind option_bind].
  { change (- ENOMEM <? 0) with true. cbn iota. exists mm2, (- ENOMEM), l'. split; [done|]. split; [done|].
    split; [apply S2|]. split; [lia|]. split; [by apply rest_limits|]. split; [right; by split|done]. }
  change (0 <? 0) with false. cbn iota. pose proof (sv_ordered _ _ S2) as Ho2.
  destruct (find_edge X l' mm2 addr I2 Ho2) as (mm3 & l1 & p & c & l2 & -> & I3 & -> & Hc & R3 & Es3);
    [lia|rewrite (sv_view _ _ S2); apply Hm; lia|done|]. cbn [mbind option_bind].
  pose proof (proj1 (ordered_app 0 l1 ((p, c) :: l2)) Ho2) as (H1 & H2 & H3 & H4).
  assert (Ho' : ordered (c_start c) ((p, c) :: l2)) by (cbn; repeat split; [lia|done|done]).
  destruct (seal_loop_spec X addr end_ ((p, c) :: l2) (fuel mm3) mm3 l1) as (mm4 & E4 & I4 & N4 & R4); try done.
  { intros q d Hq. destruct (ordered_lower _ _ q d Ho' Hq). lia. }
  { pose proof (inv_fuel _ _ _ I3) as Hf. rewrite length_app in Hf. lia. }
  cbn [fmap list_fmap fst head hd_error] in E4. rewrite E4. cbn [mbind option_bind].
  assert (Hord : ordered 0 (l1 ++ (seal_in end_ <$> (p, c) :: l2))).
  { apply ordered_app. split; [done|]. apply seal_ordered. by repeat split. }
  exists mm4, 0, (l1 ++ (seal_in end_ <$> (p, c) :: l2)). split; [done|]. split; [done|]. split; [done|].
  split; [rewrite length_app, length_fmap; rewrite length_app in L2; lia|].
  split; [rewrite (rest_limits _ _ R4), (rest_limits _ _ R3); by apply rest_limits|].
  split.
  - left. split; [done|]. split; [done|]. intros x. rewrite <- (sv_view _ _ S2), !view_app.
    rewrite (seal_view end_ (c_start c) ((p, c) :: l2) x Ho') by (intros q d Hq; apply (Ed2 q d), elem_of_app; by right).
    destruct (Z.lt_ge_cases x addr) as [Hx|Hx].
    + rewrite (proj2 (inside_false addr _ _)) by lia. destruct (view l1 x); [done|].
      rewrite (view_below (c_start c) ((p, c) :: l2)) by (done || lia). by destruct (x <? end_).
    + rewrite (view_above 0 l1 x) by (done || lia). unfold inside. by rewrite (proj2 (Z.leb_le _ _)) by lia.
  - intros N. apply (names_same _ (mm_events mm3)); [exact N4|]. rewrite Es3.
    apply (names_shape (l1 ++ (p, c) :: l2)); [|by apply N2]. by rewrite !(fmap_app shape), shape_seal.
Qed.

Lemma mseal_spec X l mm addr len : inv X l mm -> ordered 0 l ->
  Z.of_nat (length l) <= 99998 -> in_u64 addr -> USER_VA_LIMIT < 18446744073709551616 ->
  (len = 0 \/ page_up len <> 0) ->
  exists mm' r l', mm_mseal_locked mm addr len = Some (mm', r) /\ inv X l' mm' /\
    ordered 0 l' /\ (length l' <= S (S (length l)))%nat /\ limits mm' = limits mm /\
    mseal_outcome mm l addr len r l' /\
    (names_ok l (mm_events mm) -> names_ok l' (mm_events mm')).
Proof.
  intros I Ho Hl Ha Hlim Hlen. unfold mm_mseal_locked, mseal_outcome. cbv zeta. change (PG - 1) with 4095.
  destruct (c_true (Z.land addr 4095)).
  { exists mm, (- EINVAL), l. repeat (split; [done || lia|]). done. }
  destruct (Z.eqb_spec len 0) as [E1|E1].
  { exists mm, 0, l. repeat (split; [done || lia|]). done. }
  destruct Hlen as [Hlen|Hlen]; [done|]. pose proof (page_up_range len) as Hpl.
  destruct (end_spec addr (page_up len) Ha Hpl) as [[-> He]|(-> & He & ->)]; cbn [orb].
  { rewrite (proj2 (Z.leb_le _ _)) by lia. exists mm, (- ENOMEM), l. repeat (split; [done || lia|]). done. }
  rewrite (proj2 (Z.leb_gt _ _)) by lia. cbn [orb]. rewrite Z.gtb_ltb.
  destruct (Z.ltb_spec USER_VA_LIMIT (addr + page_up len)) as [Hv|Hv].
  { exists mm, (- ENOMEM), l. repeat (split; [done || lia|]). done. }
  set (e := addr + page_up len) in *. assert (Hae : addr < e) by (unfold in_u64 in *; lia).
  destruct (covered_spec X l mm addr e I Ho) as (mm1 & v & cov & -> & Ec & I1 & R1 & K1 & Es1 & Dc); [lia|done|].
  cbn [mbind option_bind]. rewrite Ec. cbn [mbind option_bind]. destruct Dc as [[Hc Hnm]|[Hc Hm]].
  { rewrite (proj2 (Z.ltb_lt _ _)) by done. exists mm1, (- ENOMEM), l. rewrite Es1.
    do 4 (split; [done || lia|]). split; [by apply rest_limits|]. split; [by left|done]. }
  rewrite (proj2 (Z.ltb_ge _ _)) by done.
  destruct (flagged_spec X l mm1 addr e (Z.lor (Z.lor VM_SYSV_SHM VM_PFNMAP) VM_VMO) I1 Ho)
    as (mm2 & v2 & b & -> & Eb & I2 & R2 & K2 & Es2 & Hb); [lia|apply Hm; lia|].
  cbn [mbind option_bind]. rewrite Eb. cbn [mbind option_bind]. destruct b.
  { exists mm2, (- EPERM), l. rewrite Es2, Es1. do 4 (split; [done || lia|]).
    split; [rewrite (rest_limits _ _ R2); by apply rest_limits|]. split; [|done].
    right. split; [done|]. left. split; [done|]. split; [done|]. by apply Hb. }
  destruct (mseal_change X l mm2 addr e) as (mm3 & r & l' & E3 & I3 & Ho3 & L3 & Li3 & D3 & N3); try done.
  exists mm3, r, l'. split; [exact E3|]. split; [done|]. split; [done|]. split; [done|].
  split; [rewrite Li3, (rest_limits _ _ R2); by apply rest_limits|].
  split; [|intros N; apply N3; by rewrite Es2, Es1]. right. split; [done|]. right.
  split; [intros Hf; by apply Hb in Hf|].
  assert (Ek : mm_kcalloc mm2 = mm_kcalloc mm) by (rewrite K2, K1; done).
  unfold short in *. rewrite Ek in D3. exact D3.
Qed.

(** A length within a page of 2^64 rounds to 0: the call may split the mapping
    at the address, and seals nothing. *)
Lemma mseal_wrapped X l mm addr len : inv X l mm -> ordered 0 l ->
  Z.of_nat (length l) <= 99998 -> in_u64 addr -> len <> 0 -> page_up len = 0 ->
  exists mm' r l', mm_mseal_locked mm addr len = Some (mm', r) /\ inv X l' mm' /\
    (length l' <= S (S (length l)))%nat /\ limits mm' = limits mm /\ same_view l l' /\
    (names_ok l (mm_events mm) -> names_ok l' (mm_events mm')).
Proof.
  intros I Ho Hl Ha Hlen Hp. unfold mm_mseal_locked. cbv zeta. rewrite (proj2 (Z.eqb_neq len 0) Hlen), Hp.
  rewrite Z.add_0_r, u64_small by done. rewrite Z.ltb_irrefl. cbn [orb].
  pose proof (same_view_refl l Ho) as Sr.
  destruct (c_true _); [by exists mm, (- EINVAL), l; repeat (split; [done || lia|])|].
  destruct (_ >? _); [by exists mm, (- ENOMEM), l; repeat (split; [done || lia|])|].
  destruct (find_inv X l mm addr I Ho) as (mm1 & -> & I1 & Ev1 & Es1); [lia|]. cbn [mbind option_bind].
  pose proof (inv_fuel _ _ _ I1) as Hf1.
  assert (cover_loop (fuel mm1) mm1 addr addr (fst <$> seg_at l addr) = Some addr) as ->.
  { destruct (fst <$> seg_at l addr), (fuel mm1); try done; [lia|]. cbn [cover_loop]. by rewrite Z.ltb_irrefl. }
  cbn [mbind option_bind]. rewrite Z.ltb_irrefl.
  destruct (find_inv X l mm1 addr I1 Ho) as (mm2 & -> & I2 & Ev2 & Es2); [lia|]. cbn [mbind option_bind].
  pose proof (inv_fuel _ _ _ I2) as Hf2. apply env_rest in Ev1, Ev2.
  assert (exists b, range_flag_loop (fuel mm2) mm2 addr addr (Z.lor (Z.lor VM_SYSV_SHM VM_PFNMAP) VM_VMO)
    (fst <$> seg_at l addr) = Some b) as [b ->].
  { destruct (seg_at_mid X l mm2 addr _ I2 Ho eq_refl) as [[-> _]|(l1 & p & c & l2 & m & lst & -> & Ev' & Hc & Hd & Hol)].
    - exists false. by destruct (fuel mm2).
    - destruct (flag_spec mm2 addr addr (Z.lor (Z.lor VM_SYSV_SHM VM_PFNMAP) VM_VMO) ((p, c) :: l2) (fuel mm2) _ m lst
        (upper 0 l1) Hd) as (b & E2 & _); [rewrite length_app in Hf2; cbn in *; lia|done|]. by exists b. }
  cbn [mbind option_bind]. assert (limits mm2 = limits mm) as Li2 by (rewrite (rest_limits _ _ Ev2); by apply rest_limits).
  destruct b.
  { exists mm2, (- EPERM), l. rewrite Es2, Es1. by repeat (split; [done || lia|]). }
  destruct (splits_spec X l mm2 addr addr I2 Ho Hl) as (mm3 & r1 & -> & [(-> & _ & l' & I3 & S3 & L3 & R3 & N3)|(-> & D)]);
    cbn [mbind option_bind]; rewrite Es2, Es1 in *.
  { change (- ENOMEM <? 0) with true. cbn iota. exists mm3, (- ENOMEM), l'. split; [done|]. split; [done|].
    split; [lia|]. split; [by rewrite (rest_limits _ _ R3)|]. by split. }
  change (0 <? 0) with false. cbn iota.
  destruct D as (mm4 & r2 & l' & -> & I4 & S4 & L4 & R4 & N4 & D); cbn [mbind option_bind].
  assert (limits mm4 = limits mm) as Li4 by (by rewrite (rest_limits _ _ R4)).
  destruct D as [[-> _]|(-> & Ed & _)].
  { change (- ENOMEM <? 0) with true. cbn iota. exists mm4, (- ENOMEM), l'. by repeat (split; [done|]). }
  change (0 <? 0) with false. cbn iota. pose proof (sv_ordered _ _ S4) as Ho4.
  destruct (find_inv X l' mm4 addr I4 Ho4) as (mm5 & -> & I5 & Ev5 & Es5); [lia|]. cbn [mbind option_bind].
  pose proof (inv_fuel _ _ _ I5) as Hf5. apply env_rest in Ev5.
  assert (seal_loop (fuel mm5) mm5 addr addr (fst <$> seg_at l' addr) = Some mm5) as ->.
  { destruct (seg_at l' addr) as [[p c]|] eqn:E; cbn [fmap option_fmap option_map fst]; [|by destruct (fuel mm5)].
    apply seg_at_Some in E as [Hin Hr]. destruct (inv_live _ _ _ p c I5 Hin) as (r & Hr5 & <- & _).
    destruct (Ed p _ Hin) as [Hs|Hs]; cbn [core c_start c_end] in *; [|lia].
    destruct (fuel mm5) as [|n]; [lia|]. cbn [seal_loop]. rewrite Hr5. cbn [mbind option_bind].
    by rewrite (proj2 (Z.ltb_ge _ _) Hs). }
  cbn [mbind option_bind]. exists mm5, 0, l'. rewrite Es5. split; [done|]. split; [done|]. split; [lia|].
  split; [by rewrite (rest_limits _ _ Ev5)|]. by split.
Qed.

End Seal.
