(* ===== verification/AddrMap.v ===== *)
(** * Address spaces: mapping and the break

    Where a new mapping goes: the lowest free place above the base, the hint,
    or the place of what was there.  What [mm_mmap_locked],
    [mm_mmap_file_locked], [mm_mmap_vmo_locked] and [mm_brk_locked] do to the
    view. *)

From stdpp Require Import gmap.
From S2P Require Import Prelude AddrSpace AddrTheory AddrOps AddrView AddrUnmap AddrProtect.

(** ** Gaps and overlaps *)

Lemma free_cons p c l s e : free ((p, c) :: l) s e <-> (c_end c <= s \/ e <= c_start c) /\ free l s e.
Proof.
  unfold free. split.
  - intros H. split; [apply (H p c); by left|]. intros q d Hq. apply (H q d). by right.
  - intros [H1 H2] q d [[= -> ->]|Hq]%list.elem_of_cons; [done|by apply (H2 q)].
Qed.

Lemma gap_spec mm len : 0 < len -> forall l n v m lst lo prev, dseg (mm_segs mm) m v l lst None ->
  (length l < n)%nat -> ordered lo l ->
  exists g, gap_loop n mm len v prev = Some g /\ prev <= g /\ free l g (g + len) /\
    (forall g', prev <= g' < g -> ~ free l g' (g' + len)) /\ (g = prev \/ exists p c, (p, c) ∈ l /\ g = c_end c).
Proof.
  intros Hlen. induction l as [|[p c] l IH]; intros n v m lst lo prev Hd Hn Ho.
  - destruct Hd as [_ <-]. exists prev. split; [by destruct n|]. split; [lia|].
    split; [intros ? ? H; by inversion H|]. split; [lia|by left].
  - destruct n as [|n]; [cbn in Hn; lia|]. destruct Hd as (-> & r & Hr & Hc & _ & Hd).
    destruct Ho as (Ho1 & Ho2 & Ho3). cbn [gap_loop]. unfold sg. rewrite Hr. cbn [mbind option_bind].
    replace (sg_start r) with (c_start c) by (by subst c). replace (sg_end r) with (c_end c) by (by subst c).
    rewrite !Z.geb_leb, Z.gtb_ltb.
    destruct ((prev <=? c_start c) && (len <=? c_start c - prev)) eqn:E.
    + apply andb_true_iff in E as [?%Z.leb_le ?%Z.leb_le]. exists prev. split; [done|]. split; [lia|].
      split; [|split; [lia|by left]]. apply free_cons. split; [lia|]. intros q d Hq.
      destruct (ordered_lower _ _ _ _ Ho3 Hq). lia.
    + assert (Hno : prev + len > c_start c).
      { apply andb_false_iff in E as [?%Z.leb_gt|?%Z.leb_gt]; lia. }
      set (prev1 := if prev <? c_end c then c_end c else prev).
      assert (H1 : prev <= prev1 /\ c_end c <= prev1 /\ (prev1 = prev \/ prev1 = c_end c)).
      { subst prev1. destruct (Z.ltb_spec prev (c_end c)); lia. }
      destruct (IH n (sg_next r) (Some p) lst (c_end c) prev1 Hd) as (g & -> & Hg & Hf & Hmin & Hor); [cbn in Hn; lia|done|].
      exists g. split; [done|]. split; [lia|]. split; [apply free_cons; split; [lia|done]|]. split.
      * intros g' Hg' [Hc' Hf']%free_cons. destruct (Z.lt_ge_cases g' prev1); [lia|].
        apply (Hmin g'); [lia|done].
      * destruct Hor as [->|(q & d & Hq & ->)]; [|right; exists q, d; split; [by right|done]].
        destruct H1 as (_ & _ & [-> | ->]); [by left|right; exists p, c; split; [by left|done]].
Qed.

Lemma overlaps_spec mm start end_ : forall l n v m lst lo, dseg (mm_segs mm) m v l lst None ->
  (length l < n)%nat -> ordered lo l ->
  exists b, overlaps_loop n mm start end_ None v = Some b /\ (b = false <-> free l start end_).
Proof.
  induction l as [|[p c] l IH]; intros n v m lst lo Hd Hn Ho.
  - destruct Hd as [_ <-]. exists false. split; [by destruct n|]. split; [|done].
    intros _ ? ? H. by inversion H.
  - destruct n as [|n]; [cbn in Hn; lia|]. destruct Hd as (-> & r & Hr & Hc & _ & Hd).
    destruct Ho as (Ho1 & Ho2 & Ho3). cbn [overlaps_loop]. unfold sg. rewrite Hr. cbn [mbind option_bind].
    replace (sg_start r) with (c_start c) by (by subst c). replace (sg_end r) with (c_end c) by (by subst c).
    rewrite bool_decide_eq_false_2 by done. rewrite Z.gtb_ltb, Z.geb_leb.
    destruct ((c_start c <? end_) && (start <? c_end c)) eqn:E.
    + exists true. split; [done|]. split; [done|]. apply andb_true_iff in E as [?%Z.ltb_lt ?%Z.ltb_lt].
      intros [? _]%free_cons. lia.
    + assert (Hc' : c_end c <= start \/ end_ <= c_start c).
      { apply andb_false_iff in E as [?%Z.ltb_ge|?%Z.ltb_ge]; lia. }
      destruct (Z.leb_spec end_ (c_start c)) as [Hle|Hle].
      * exists false. split; [done|]. split; [|done]. intros _. apply free_cons. split; [done|].
        intros q d Hq. destruct (ordered_lower _ _ _ _ Ho3 Hq). lia.
      * destruct (IH n (sg_next r) (Some p) lst (c_end c) Hd) as (b & -> & Hb); [cbn in Hn; lia|done|].
        exists b. split; [done|]. rewrite Hb, free_cons. tauto.
Qed.

Lemma find_gap_spec X l mm hint len : inv X l mm -> ordered 0 l -> 0 < len ->
  exists g, mm_find_gap mm hint len = Some g /\ hint <= g /\ free l g (g + len) /\
    (forall g', hint <= g' < g -> ~ free l g' (g' + len)) /\ (g = hint \/ exists p c, (p, c) ∈ l /\ g = c_end c).
Proof.
  intros I Ho Hl. destruct (inv_list _ _ _ I) as [[lst Hd] _].
  exact (gap_spec mm len Hl l (fuel mm) (mm_mmap mm) None lst 0 hint Hd (inv_fuel _ _ _ I) Ho).
Qed.

Lemma range_overlaps_spec X l mm start len : inv X l mm -> ordered 0 l -> in_u64 start -> in_u64 len ->
  exists b, mm_range_overlaps mm start len None = Some b /\
    (b = false <-> start + len < 18446744073709551616 /\ free l start (start + len)).
Proof.
  intros I Ho Hs Hl. unfold mm_range_overlaps.
  destruct (end_spec start len Hs Hl) as [[-> H]|(-> & H & ->)].
  - exists true. split; [done|]. split; [done|]. lia.
  - destruct (inv_list _ _ _ I) as [[lst Hd] _].
    destruct (overlaps_spec mm start (start + len) l (fuel mm) _ None lst 0 Hd (inv_fuel _ _ _ I) Ho) as (b & -> & Hb).
    exists b. split; [done|]. rewrite Hb. tauto.
Qed.

(** A range without a mapped address is free. *)
Lemma view_free l s e : ordered 0 l -> (forall x, s <= x < e -> view l x = None) -> s < e -> free l s e.
Proof.
  intros Ho H Hse q d Hq. destruct (ordered_lower _ _ _ _ Ho Hq) as [_ Hlt].
  destruct (Z.le_gt_cases (c_end d) s); [by left|]. destruct (Z.le_gt_cases e (c_start d)); [by right|].
  exfalso. specialize (H (Z.max s (c_start d)) ltac:(lia)). unfold view in H.
  by rewrite (seg_at_unique 0 l _ q d Ho Hq) in H by lia.
Qed.

(** ** Placement *)

(** What the constants of an architecture satisfy. *)
Class MmArchOk (arch : MmArch) := {
  lim_ok : 0 < USER_VA_LIMIT <= 4611686018427387904;
  lim_page : USER_VA_LIMIT mod 4096 = 0;
  base_ok : 0 < MMAP_BASE_ADDR < USER_VA_LIMIT;
}.

Section Place.

Context {arch : MmArch} {ok : MmArchOk arch}.

(** No user address beyond the limit is mapped. *)
Definition low (l : list (nat * seg_core)) : Prop := forall x, USER_VA_LIMIT <= x -> view l x = None.

Lemma low_end l p c : ordered 0 l -> low l -> (p, c) ∈ l -> c_end c <= USER_VA_LIMIT.
Proof.
  intros Ho L Hp. destruct (ordered_lower _ _ _ _ Ho Hp).
  destruct (Z.le_gt_cases (c_end c) USER_VA_LIMIT) as [|Hgt]; [done|]. exfalso.
  specialize (L (c_end c - 1) ltac:(lia)). unfold view in L.
  by rewrite (seg_at_unique 0 l _ p c Ho Hp) in L by lia.
Qed.

Lemma page_up_mult k : in_u64 (k * 4096 + 4095) -> page_up (k * 4096) = k * 4096.
Proof. intros H. rewrite page_up_eq, u64_small by done. zlia. Qed.

(** The length of a mapping: an error, or whole pages. *)
Lemma mmap_len_spec addr len flags :
  (mmap_len addr len flags < 0 /\
     (mmap_len addr len flags = - EINVAL \/ mmap_len addr len flags = - ENOMEM)) \/
  (mmap_len addr len flags = page_up len /\ 0 < page_up len <= USER_VA_LIMIT /\ page_up (page_up len) = page_up len).
Proof using ok.
  unfold mmap_len. pose proof lim_ok. destruct (_ && _); [left; split; [done|by left]|].
  destruct (Z.eqb_spec (page_up len) 0) as [|Hz]; [left; split; [done|by left]|]. rewrite Z.gtb_ltb.
  destruct (Z.ltb_spec USER_VA_LIMIT (page_up len)); [left; split; [done|by right]|]. right. split; [done|].
  pose proof (page_up_range len) as Hr. unfold in_u64 in Hr. split; [lia|].
  pose proof (page_up_eq len) as E. set (k := u64 (len + 4095) / 4096) in E. rewrite E in *.
  apply page_up_mult. unfold in_u64. lia.
Qed.

(** A hint is dropped or free. *)
Definition hint_ok (hint : mm_struct_t -> Z -> Z -> option (mm_struct_t * Z)) (addr len : Z) : Prop :=
  forall X l mm, inv X l mm -> ordered 0 l ->
  hint mm addr len = Some (mm, 0) \/
  hint mm addr len = Some (mm, addr) /\ free l addr (addr + len) /\ addr + len <= USER_VA_LIMIT.

Lemma hint_range_ok addr len : in_u64 addr -> in_u64 len -> hint_ok hint_range addr len.
Proof.
  intros Ha Hl X l mm I Ho. unfold hint_range. destruct (end_spec addr len Ha Hl) as [[-> H]|(-> & H & ->)]; cbn [orb].
  { by left. }
  rewrite Z.gtb_ltb. destruct (Z.ltb_spec USER_VA_LIMIT (addr + len)); [by left|].
  destruct (range_overlaps_spec X l mm addr len I Ho Ha Hl) as (b & -> & Hb). cbn [mbind option_bind].
  destruct b; [by left|]. right. split; [done|]. split; [by apply Hb|done].
Qed.

(** The caller asks for [addr] itself. *)
Definition wants (addr flags : Z) : bool :=
  c_true addr && (has flags MAP_FIXED || has flags MAP_FIXED_NOREPLACE).

(** A free place for [len] bytes: where asked, or free before. *)
Definition placed (mm : mm_struct_t) (l : list (nat * seg_core)) (addr len flags a : Z)
    (l' : list (nat * seg_core)) : Prop :=
  0 < a /\ a + len <= USER_VA_LIMIT /\ free l' a (a + len) /\
  (forall x, inside a (a + len) x = false -> view l' x = view l x) /\
  if wants addr flags then
    a = addr /\ forall p c, (p, c) ∈ l -> meets a (a + len) c -> sealed c = false
  else l' = l /\ (a <> addr -> forall g, (if c_true (mm_mmap_base mm) then mm_mmap_base mm else MMAP_BASE_ADDR) <= g < a ->
                                          ~ free l g (g + len)).

(** A refusal: nothing is gone but, for a request of [addr] itself, a first
    part of the range, and then nothing sealed. *)
Definition unplaced (l : list (nat * seg_core)) (addr len flags : Z) (l' : list (nat * seg_core)) : Prop :=
  l' = l \/
  wants addr flags = true /\ (forall p c, (p, c) ∈ l -> meets addr (addr + len) c -> sealed c = false) /\
    exists m, addr <= m <= addr + len /\ removed addr m l l'.

(** Why there is no place: the requested range is taken, or what is there
    cannot be unmapped; or no range above the base is free. *)
Definition no_place (mm : mm_struct_t) (l : list (nat * seg_core)) (addr len flags : Z) : Prop :=
  if wants addr flags then
    has flags MAP_FIXED_NOREPLACE = true /\ ~ (addr + len <= USER_VA_LIMIT /\ free l addr (addr + len)) \/
    exists mm1 r, mm_munmap_locked mm addr len = Some (mm1, r) /\ r < 0
  else forall g, (if c_true (mm_mmap_base mm) then mm_mmap_base mm else MMAP_BASE_ADDR) <= g ->
         g + len <= USER_VA_LIMIT -> ~ free l g (g + len).

(** The address space a new record enters: without what was in a requested
    range. *)
Definition cleared (mm : mm_struct_t) (addr len flags : Z) (mm1 : mm_struct_t) : Prop :=
  if wants addr flags then mm_munmap_locked mm addr len = Some (mm1, 0) else mm1 = mm.

Lemma base_eq (mm : mm_struct_t) : in_u64 (mm_mmap_base mm) ->
  0 < (if c_true (mm_mmap_base mm) then mm_mmap_base mm else MMAP_BASE_ADDR) < 18446744073709551616.
Proof using ok.
  intros H. pose proof lim_ok. pose proof base_ok. unfold in_u64 in H. unfold c_true.
  destruct (Z.eqb_spec (mm_mmap_base mm) 0); cbn; lia.
Qed.

(** The final test of the chosen address. *)
Lemma place_check (mm : mm_struct_t) a len : in_u64 a -> 0 < len <= USER_VA_LIMIT ->
  (if (a =? 0) || (u64 (a + len) <? a) || (u64 (a + len) >? USER_VA_LIMIT)
   then Some (mm, - ENOMEM) else Some (mm, a)) =
  if (0 <? a) && (a + len <=? USER_VA_LIMIT) then Some (mm, a) else Some (mm, - ENOMEM).
Proof using ok.
  intros Ha Hl. pose proof lim_ok. destruct (end_spec a len Ha) as [[-> H1]|(-> & H1 & ->)].
  - unfold in_u64. lia.
  - rewrite (proj2 (Z.leb_gt (a + len) _)), andb_false_r, orb_true_r by lia. done.
  - rewrite Z.gtb_ltb, orb_false_r. unfold in_u64 in Ha.
    destruct (Z.eqb_spec a 0), (Z.ltb_spec 0 a), (Z.ltb_spec USER_VA_LIMIT (a + len)), (Z.leb_spec (a + len) USER_VA_LIMIT);
      done || lia.
Qed.

Lemma has_lor f b : b <> 0 -> has (Z.lor f b) b = true.
Proof.
  intros Hb. unfold has, c_true. apply negb_true_iff, Z.eqb_neq. rewrite Z.land_lor_distr_l, Z.land_diag.
  intros [_ ?]%Z.lor_eq_0_iff. done.
Qed.

(** Replacing what is at [addr]. *)
Lemma place_fixed X l mm addr len : inv X l mm -> ordered 0 l -> low l -> in_u64 addr -> addr <> 0 ->
  0 < len <= USER_VA_LIMIT -> page_up len = len ->
  exists mm' r l', mm_munmap_locked mm addr len = Some (mm', r) /\ inv X l' mm' /\ ordered 0 l' /\
    (length l' <= S (length l))%nat /\ limits mm' = limits mm /\
    (names_ok l (mm_events mm) -> names_ok l' (mm_events mm')) /\
    (r = 0 /\ removed addr (addr + len) l l' /\ addr + len <= USER_VA_LIMIT /\
       (forall p c, (p, c) ∈ l -> meets addr (addr + len) c -> sealed c = false) \/
     r < 0 /\ (l' = l \/ (forall p c, (p, c) ∈ l -> meets addr (addr + len) c -> sealed c = false) /\
                        exists m, addr <= m <= addr + len /\ removed addr m l l')).
Proof using ok.
  intros I Ho L Ha Ha0 Hl Hp. pose proof lim_ok.
  destruct (munmap_spec X l mm addr len I Ho Ha) as (mm' & r & l' & E & I' & Ho' & Le & Li & Out & N); [lia|].
  exists mm', r, l'. repeat (split; [done|]). unfold munmap_outcome in Out. cbv zeta in Out. rewrite Hp in Out.
  destruct (negb _); [destruct Out as [-> ->]; right; split; [done|by left]|].
  destruct (Z.eqb_spec len 0); [lia|].
  destruct (_ || _) eqn:Eo; [destruct Out as [-> ->]; right; split; [done|by left]|].
  apply orb_false_iff in Eo as [?%Z.leb_gt ?%Z.ltb_ge].
  destruct Out as [(-> & V & S)|[(-> & -> & _)|[(-> & -> & _)|(Hr & S & M)]]];
    [|right; split; [done|by left]|right; split; [done|by left]|].
  - left. split; [done|]. split; [done|]. split; [done|]. intros p c Hc Hm. by apply (S p c).
  - right. split; [destruct Hr as [[? _]|[-> _]]; done|]. right. split; [|done]. intros p c Hc Hm. by apply (S p c).
Qed.

(** The address of a new mapping. *)
Lemma place_spec hint X l mm addr len flags : inv X l mm -> ordered 0 l -> low l -> in_u64 addr ->
  in_u64 (mm_mmap_base mm) -> 0 < len <= USER_VA_LIMIT -> page_up len = len ->
  hint_ok hint addr len \/ addr = 0 \/ wants addr flags = true ->
  exists mm' a l', mmap_place hint mm addr len flags = Some (mm', a) /\ inv X l' mm' /\ ordered 0 l' /\
    (length l' <= S (length l))%nat /\ limits mm' = limits mm /\
    (names_ok l (mm_events mm) -> names_ok l' (mm_events mm')) /\
    (placed mm l addr len flags a l' /\ cleared mm addr len flags mm' \/
     a < 0 /\ unplaced l addr len flags l' /\ no_place mm l addr len flags).
Proof using ok.
  intros I Ho L Ha Hb Hl Hp Hh. pose proof lim_ok. unfold mmap_place. cbv zeta.
  assert (Hlu : in_u64 len) by (unfold in_u64; lia).
  destruct (wants addr flags) eqn:Hw.
  - unfold wants in Hw. apply andb_true_iff in Hw as [Ha0 Hf]. rewrite Ha0, !andb_true_r.
    assert (Ha1 : addr <> 0) by (intros ->; done). pose proof Ha as [? _]. unfold in_u64 in Ha.
    assert (Ho1 : exists b, (if has flags MAP_FIXED_NOREPLACE then mm_range_overlaps mm addr len None else Some false) = Some b /\
                    (b = true -> has flags MAP_FIXED_NOREPLACE = true /\ ~ (addr + len <= USER_VA_LIMIT /\ free l addr (addr + len)))).
    { destruct (has flags MAP_FIXED_NOREPLACE); [|by exists false].
      destruct (range_overlaps_spec X l mm addr len I Ho Ha Hlu) as (b & -> & Hb'). exists b. split; [done|].
      intros ->. split; [done|]. intros [? F]. destruct Hb' as [_ Hb']. assert (true = false) by (apply Hb'; split; [lia|done]); done. }
    destruct Ho1 as ([|] & -> & Hov); cbn [mbind option_bind].
    { exists mm, (- EEXIST), l. repeat (split; [done || lia|]). right. split; [done|]. split; [by left|].
      unfold no_place, wants. rewrite Ha0, Hf. left. by apply Hov. }
    clear Hov.
    assert (Hfix : has (if has flags MAP_FIXED_NOREPLACE then Z.lor flags MAP_FIXED else flags) MAP_FIXED = true).
    { destruct (has flags MAP_FIXED_NOREPLACE); [by apply has_lor|]. by rewrite orb_false_r in Hf. }
    rewrite Hfix. cbn [andb].
    destruct (place_fixed X l mm addr len) as (mm' & r & l' & Em & I' & Ho' & Le & Li & N & D); try done.
    unfold no_place, cleared, wants. rewrite Ha0, Hf, Em. cbn [andb mbind option_bind]. destruct D as [(-> & V & Hlim & S)|(Hr & D)].
    + change (0 <? 0) with false. cbn iota.
      match goal with |- context [if addr =? 0 then ?g else Some addr] =>
        replace (if addr =? 0 then g else Some addr) with (Some addr) by (by rewrite (proj2 (Z.eqb_neq addr 0) Ha1))
      end.
      cbn [mbind option_bind]. rewrite place_check by done.
      rewrite (proj2 (Z.ltb_lt 0 addr)), (proj2 (Z.leb_le (addr + len) USER_VA_LIMIT)) by lia. cbn [andb].
      exists mm', addr, l'. repeat (split; [done|]). left. split; [|done]. destruct V as [_ V]. split; [lia|]. split; [done|].
      split; [|split; [intros x Hx; by rewrite V, Hx|]].
      * apply view_free; [done| |lia]. intros x Hx. by rewrite V, (proj2 (inside_true _ _ _)) by done.
      * unfold wants. rewrite Ha0, Hf. done.
    + rewrite (proj2 (Z.ltb_lt r 0)) by done. rewrite (proj2 (Z.ltb_lt r 0)) by done.
      exists mm', r, l'. repeat (split; [done|]). right. split; [done|].
      split; [|right; by exists mm', r]. destruct D as [D|[D1 D2]]; [by left|right].
      unfold wants. by rewrite Ha0, Hf.
  - assert (Hw' : has flags MAP_FIXED_NOREPLACE && c_true addr = false /\ has flags MAP_FIXED && c_true addr = false).
    { unfold wants in Hw. by destruct (c_true addr), (has flags MAP_FIXED), (has flags MAP_FIXED_NOREPLACE). }
    destruct Hw' as [-> ->]. cbn [mbind option_bind].
    assert (Hstep : exists a0, (if c_true addr then '(mm, addr) ← hint mm addr len; Some (mm, addr, 0) else Some (mm, addr, 0)) =
              Some (mm, a0, 0) /\ (a0 = 0 \/ a0 = addr /\ free l addr (addr + len) /\ addr + len <= USER_VA_LIMIT)).
    { unfold c_true. destruct (Z.eqb_spec addr 0) as [->|Hn]; cbn [negb]; [exists 0; auto|].
      destruct Hh as [Hh|[?|?]]; [|done|done]. destruct (Hh X l mm I Ho) as [->|(-> & F & Hal)]; cbn [mbind option_bind].
      - exists 0. auto.
      - exists addr. auto. }
    destruct Hstep as (a0 & -> & Ha0). cbn [mbind option_bind]. change (0 <? 0) with false. cbn iota.
    set (base := if c_true (mm_mmap_base mm) then mm_mmap_base mm else MMAP_BASE_ADDR) in *.
    assert (Hbase : 0 < base < 18446744073709551616) by (by apply base_eq).
    assert (Hg : exists a, (if a0 =? 0 then mm_find_gap mm base len else Some a0) = Some a /\ in_u64 a /\
              free l a (a + len) /\ (a <> addr -> forall g, base <= g < a -> ~ free l g (g + len)) /\
              (0 < a /\ a + len <= USER_VA_LIMIT \/
               USER_VA_LIMIT < a + len /\ forall g, base <= g < a -> ~ free l g (g + len))).
    { destruct (Z.eqb_spec a0 0) as [->|Hn].
      - destruct (find_gap_spec X l mm base len I Ho) as (g & -> & Hge & F & Hmin & Hor); [lia|].
        exists g. split; [done|]. split; [|split; [done|split; [intros _; done|]]].
        2:{ destruct (Z.le_gt_cases (g + len) USER_VA_LIMIT); [left; lia|right; split; [lia|done]]. }
        destruct Hor as [->|(p & c & Hpc & ->)]; [unfold in_u64; lia|].
        pose proof (low_end _ _ _ Ho L Hpc). unfold in_u64. lia.
      - destruct Ha0 as [?|(-> & F & Hal)]; [done|]. exists addr. split; [done|]. split; [done|]. split; [done|].
        split; [done|]. left. unfold in_u64 in Ha. lia. }
    destruct Hg as (a & -> & Hau & F & Hmin & Hroom). cbn [mbind option_bind]. rewrite place_check by done.
    destruct Hroom as [[Ha1 Ha2]|[Ha2 Hno]].
    + rewrite (proj2 (Z.ltb_lt 0 a)), (proj2 (Z.leb_le (a + len) USER_VA_LIMIT)) by done. cbn [andb].
      exists mm, a, l. do 3 (split; [done|]). split; [lia|]. do 2 (split; [done|]). left.
      unfold placed, cleared. rewrite Hw. by repeat (split; [done|]).
    + rewrite (proj2 (Z.leb_gt (a + len) USER_VA_LIMIT)), andb_false_r by done.
      exists mm, (- ENOMEM), l. do 3 (split; [done|]). split; [lia|]. do 2 (split; [done|]). right. split; [done|].
      split; [by left|]. unfold no_place. rewrite Hw. intros g Hg1 Hg2. apply Hno. lia.
Qed.

End Place.

(** ** The calls *)

Section Mmap.

Context {arch : MmArch} {ok : MmArchOk arch}.

(** A new record that only its creator holds. *)
Definition fresh (X : nat -> Z) (l : list (nat * seg_core)) (mm : mm_struct_t) (p : nat) (r : mm_seg_t) : Prop :=
  inv (add1 X p) l mm /\ (p ∉ l.*1) /\ X p = 0 /\ sg mm p = Some r /\ sg_refcount r = 1 /\
  sg_released r = false /\ (forall q, (Some q ∈ mm_kcalloc mm) -> q <> p).

Lemma fresh_new X l mm : inv X l mm ->
  (exists mm', mm_seg_new mm = Some (mm', None) /\ no_memory mm /\ inv X l mm' /\ rest mm' = rest mm /\ mm_events mm' = mm_events mm) \/
  (exists mm' p, mm_seg_new mm = Some (mm', Some p) /\ fresh X l mm' p seg_zero /\ rest mm' = rest mm /\
     mm_events mm' = mm_events mm).
Proof.
  intros I. destruct (new_spec _ _ _ I) as [(mm' & E & Hm & I' & R & Es & _)|
    (mm' & p & E & Hp & Hx & I' & Hn & Hsg & Hk & R & Es & _)]; [left; by exists mm'|right].
  exists mm', p. split; [done|]. split; [|done]. split; [done|]. split; [done|]. split; [done|].
  split; [unfold sg; by rewrite Hsg, lookup_insert_eq|]. split; [done|]. split; [done|].
  destruct I as (_ & [An _] & _). rewrite Hk in An. cbn [omap list_omap id] in An.
  apply list.NoDup_cons in An as [An _]. intros q Hq ->. apply An. apply list_elem_of_omap. by exists (Some p).
Qed.

Lemma fresh_upd X l mm p r f : fresh X l mm p r -> sg_refcount (f r) = sg_refcount r ->
  sg_released (f r) = sg_released r ->
  exists mm', sg_upd mm p f = Some mm' /\ fresh X l mm' p (f r) /\ rest mm' = rest mm /\ mm_events mm' = mm_events mm.
Proof.
  intros (I & Hp & Hx & Hr & Hc & Hl & Hk) E1 E2. rewrite (sg_upd_eq mm p r f Hr).
  eexists. split; [reflexivity|]. split; [|done]. split; [apply (set_ext_spec _ _ _ _ r); try done; rewrite add1_eq; lia|].
  split; [done|]. split; [done|]. split; [apply sg_eq|]. split; [congruence|]. split; [congruence|done].
Qed.

Lemma fresh_fields X l mm mm' p r : mm_segs mm' = mm_segs mm -> mm_mmap mm' = mm_mmap mm ->
  mm_deferred_vma mm' = mm_deferred_vma mm -> index_of mm' = index_of mm ->
  mm_kcalloc mm' = mm_kcalloc mm -> fresh X l mm p r -> fresh X l mm' p r.
Proof.
  intros E1 E2 E3 E4 E5 (I & Hp & Hx & Hr & Hc & Hl & Hk). split; [by apply (inv_fields _ _ mm)|].
  unfold sg in *. rewrite E1, E5. done.
Qed.

Lemma fresh_small X l mm p r : fresh X l mm p r -> small X.
Proof. intros (I & _ & Hx & _). apply (small_add1 X p); [apply I|lia]. Qed.

Lemma fresh_free X l mm p r : fresh X l mm p r -> inv X l (kfree mm p).
Proof.
  intros F. pose proof (fresh_small _ _ _ _ _ F) as Hs. destruct F as (I & Hp & Hx & Hr & Hc & Hl & Hk).
  by apply (kfree_spec _ _ _ _ r).
Qed.

Lemma fresh_insert X l mm p r a len : fresh X l mm p r -> ordered 0 l -> sg_start r = a -> sg_end r = a + len ->
  0 <= a -> 0 < len -> free l a (a + len) ->
  exists mm' l', mm_insert_vma mm p = Some mm' /\ inv X l' mm' /\ ordered 0 l' /\
    (forall x, view l' x = if inside a (a + len) x then Some (attr (core r) x) else view l x) /\
    env mm' = env mm /\ (length l' <= S (length l))%nat /\
    (names_ok l (mm_events mm) -> names_ok l' (mm_events mm')).
Proof.
  intros F Ho <- He Ha Hl Hf. pose proof (fresh_small _ _ _ _ _ F) as Hs.
  destruct F as (I & Hp & Hx & Hr & Hc & Hrl & Hk). rewrite <- He in *.
  destruct (insert_vma_spec X l mm p r I Hs Hp Hr Ho) as (mm' & l' & E & I' & H); [lia|done|].
  exists mm', l'. split; [done|]. split; [apply I'|done].
Qed.

(** A mapping of [len] bytes that means [att]: nothing else changes, and
    nothing sealed goes. *)
Definition mapped_at (mm : mm_struct_t) (l : list (nat * seg_core)) (addr len flags : Z)
    (att : Z -> Z -> Z * Z * option (option Z * Z) * option Z) (r : Z) (l' : list (nat * seg_core)) : Prop :=
  0 < r /\ r + len <= USER_VA_LIMIT /\
  (forall x, view l' x = if inside r (r + len) x then Some (att r x) else view l x) /\
  if wants addr flags then
    r = addr /\ forall p c, (p, c) ∈ l -> meets r (r + len) c -> sealed c = false
  else free l r (r + len) /\
    (r <> addr -> forall g, (if c_true (mm_mmap_base mm) then mm_mmap_base mm else MMAP_BASE_ADDR) <= g < r ->
                    ~ free l g (g + len)).

(** A refusal has a reason: no place, no memory for the record, or the limit
    [lim] on locked memory. *)
Definition refusal (lim : mm_struct_t -> bool) (mm : mm_struct_t) (l : list (nat * seg_core)) (addr len flags : Z) : Prop :=
  no_place mm l addr len flags \/
  exists mm1, cleared mm addr len flags mm1 /\ (no_memory mm1 \/ lim mm1 = true).

Definition mmap_refused (lim : mm_struct_t -> bool) (mm : mm_struct_t) (l : list (nat * seg_core))
    (addr len flags r : Z) (l' : list (nat * seg_core)) : Prop :=
  (exists e, e < 0 /\ r = u64 e) /\ unplaced l addr len flags l' /\ refusal lim mm l addr len flags.

(** The limit as the two calls that have one test it. *)
Definition over_limit (memlock : Z) (cap : bool) (len : Z) (mm : mm_struct_t) : bool :=
  has (mm_def_flags mm) VM_LOCKED && memlock_refuses memlock cap mm len.

Lemma over_limit_rest memlock cap len mm mm' : rest mm' = rest mm ->
  over_limit memlock cap len mm' = over_limit memlock cap len mm.
Proof.
  intros E. assert (mm_def_flags mm' = mm_def_flags mm /\ mm_locked_vm mm' = mm_locked_vm mm) as [E1 E2]
    by (unfold rest in E; split; congruence).
  unfold over_limit, memlock_refuses. by rewrite E1, E2.
Qed.

Lemma placed_mapped mm l addr len flags a l1 l2 att : placed mm l addr len flags a l1 -> 
  (forall x, view l2 x = if inside a (a + len) x then Some (att a x) else view l1 x) ->
  mapped_at mm l addr len flags att a l2.
Proof.
  intros (H1 & H2 & H3 & H4 & H5) V. split; [done|]. split; [done|]. split.
  - intros x. rewrite V. destruct (inside a (a + len) x) eqn:E; [done|]. by apply H4.
  - destruct (wants addr flags); [done|]. destruct H5 as [-> H5]. by split.
Qed.

Lemma placed_unplaced mm l addr len flags a l1 : placed mm l addr len flags a l1 -> ordered 0 l1 -> 0 < len ->
  unplaced l addr len flags l1.
Proof.
  intros (H1 & H2 & H3 & H4 & H5) Ho Hl. destruct (wants addr flags) eqn:Hw; [right|left; by apply H5].
  destruct H5 as [-> H5]. split; [done|]. split; [done|]. exists (addr + len). split; [lia|]. split; [done|].
  intros x. destruct (inside addr (addr + len) x) eqn:E; [|by apply H4]. apply inside_true in E.
  by apply (free_view _ addr (addr + len)).
Qed.

(** A call that has chosen its place: the new record enters the list. *)
Lemma map_insert X mm0 l addr len flags a l1 mm p r att : placed mm0 l addr len flags a l1 -> ordered 0 l1 ->
  0 < len -> fresh X l1 mm p r -> sg_start r = a -> sg_end r = a + len -> (forall x, attr (core r) x = att a x) ->
  exists mm' l', mm_insert_vma mm p = Some mm' /\ inv X l' mm' /\ ordered 0 l' /\
    mapped_at mm0 l addr len flags att a l' /\ env mm' = env mm /\ (length l' <= S (length l1))%nat /\
    (names_ok l1 (mm_events mm) -> names_ok l' (mm_events mm')).
Proof.
  intros P Ho Hl F Es Ee Ha. pose proof P as (P1 & P2 & P3 & _).
  destruct (fresh_insert X l1 mm p r a len F Ho Es Ee ltac:(lia) Hl P3) as (mm' & l' & E & I' & Ho' & V & Ev & Le & N).
  exists mm', l'. repeat (split; [done|]). split; [|done]. apply (placed_mapped _ _ _ _ _ _ l1); [done|].
  intros x. by rewrite V, Ha.
Qed.

Lemma map_fail lim mm0 l addr len flags a l1 e mm1 : placed mm0 l addr len flags a l1 -> ordered 0 l1 -> 0 < len ->
  e < 0 -> cleared mm0 addr len flags mm1 -> no_memory mm1 \/ lim mm1 = true ->
  mmap_refused lim mm0 l addr len flags (u64 e) l1.
Proof.
  intros P Ho Hl He C H. split; [by exists e|]. split; [by apply (placed_unplaced mm0 _ _ _ _ a)|].
  right. by exists mm1.
Qed.

(** The common start: a place and a record, then the rest [K] of the call. *)
Lemma map_begin lim call hint (K : mm_struct_t -> Z -> nat -> option (mm_struct_t * Z)) X l mm addr len flags :
  call = ('(mm, addr) ← mmap_place hint mm addr len flags;
          if addr <? 0 then Some (mm, u64 addr) else
          '(mm, vma) ← mm_seg_new mm;
          match vma with None => Some (mm, u64 (- ENOMEM)) | Some vma => K mm addr vma end) ->
  inv X l mm -> ordered 0 l -> low l -> in_u64 addr -> in_u64 (mm_mmap_base mm) ->
  0 < len <= USER_VA_LIMIT -> page_up len = len ->
  hint_ok hint addr len \/ addr = 0 \/ wants addr flags = true ->
  (exists mm' r l', call = Some (mm', r) /\ inv X l' mm' /\ ordered 0 l' /\ (length l' <= S (length l))%nat /\
     limits mm' = limits mm /\ (names_ok l (mm_events mm) -> names_ok l' (mm_events mm')) /\
     mmap_refused lim mm l addr len flags r l') \/
  (exists mm1 mm' a p l', call = K mm' a p /\ cleared mm addr len flags mm1 /\ rest mm' = rest mm1 /\ fresh X l' mm' p seg_zero /\ ordered 0 l' /\ (length l' <= S (length l))%nat /\
     limits mm' = limits mm /\ (names_ok l (mm_events mm) -> names_ok l' (mm_events mm')) /\
     placed mm l addr len flags a l').
Proof using ok.
  intros -> I Ho L Ha Hb Hl Hp Hh.
  destruct (place_spec hint X l mm addr len flags I Ho L Ha Hb Hl Hp Hh)
    as (mm1 & a & l1 & -> & I1 & Ho1 & L1 & Li1 & N1 & D1). cbn [mbind option_bind].
  destruct D1 as [[P C]|[Hneg [U W]]].
  2:{ left. rewrite (proj2 (Z.ltb_lt _ _) Hneg). exists mm1, (u64 a), l1. repeat (split; [done|]).
      split; [by exists a|]. split; [done|by left]. }
  pose proof (proj1 P) as Ha0. rewrite (proj2 (Z.ltb_ge a 0)) by lia.
  destruct (fresh_new X l1 mm1 I1) as [(mm2 & -> & Hm & I2 & R2 & Es2)|(mm2 & p & -> & F2 & R2 & Es2)]; cbn [mbind option_bind].
  - left. exists mm2, (u64 (- ENOMEM)), l1. rewrite Es2, (rest_limits _ _ R2). repeat (split; [done|]).
    apply (map_fail _ mm _ _ _ _ a _ _ mm1); try done; [lia|by left].
  - right. exists mm1, mm2, a, p, l1. rewrite Es2, (rest_limits _ _ R2). do 8 (split; [done|]). exact P.
Qed.

(** The flags of a mapping when the address space locks its mappings. *)
Definition locked_flags (mm : mm_struct_t) (vmf : Z) : Z :=
  if has (mm_def_flags mm) VM_LOCKED then Z.lor vmf VM_LOCKED else vmf.

Lemma locked_limits mm mm' f : limits mm' = limits mm -> locked_flags mm' f = locked_flags mm f.
Proof.
  intros L. unfold locked_flags. assert (E : mm_def_flags mm' = mm_def_flags mm) by (unfold limits in L; congruence).
  by rewrite E.
Qed.

(** What a mapping call does: an error of its own and nothing else, or a
    mapping, or a refusal. *)
Definition mmap_outcome (lim : mm_struct_t -> bool) (mm : mm_struct_t) (l : list (nat * seg_core)) (early addr len flags : Z)
    (att : Z -> Z -> Z * Z * option (option Z * Z) * option Z) (r : Z) (l' : list (nat * seg_core)) : Prop :=
  if early <? 0 then r = u64 early /\ l' = l
  else mapped_at mm l addr len flags att r l' \/ mmap_refused lim mm l addr len flags r l'.

(** The locking step of two of the calls. *)
Lemma lock_step X l mm p r len : fresh X l mm p r ->
  exists mm', (if has (mm_def_flags mm) VM_LOCKED then
                 mm ← sg_upd mm p (fun r => r {{ sg_vm_flags := Z.lor (sg_vm_flags r) VM_LOCKED }});
                 Some (mm {{ mm_locked_vm := u64 (mm_locked_vm mm + len) }})
               else Some mm) = Some mm' /\
    fresh X l mm' p (r {{ sg_vm_flags := locked_flags mm (sg_vm_flags r) }}) /\ limits mm' = limits mm /\
    mm_events mm' = mm_events mm.
Proof.
  intros F. unfold locked_flags. destruct (has (mm_def_flags mm) VM_LOCKED).
  - destruct (fresh_upd X l mm p r (fun r => r {{ sg_vm_flags := Z.lor (sg_vm_flags r) VM_LOCKED }}) F)
      as (mm' & -> & F' & R & Es); [done|done|]. cbn [mbind option_bind]. eexists. split; [reflexivity|].
    split; [by eapply fresh_fields; [..|exact F']|].
    split; [change (limits mm' = limits mm); by apply rest_limits|done].
  - exists mm. split; [done|]. split; [|done]. by destruct r.
Qed.

End Mmap.

Section Anon.

Context {arch : MmArch} {ok : MmArchOk arch}.
Variables (policy : wx_policy) (host : bool) (memlock : Z) (cap : bool).

Definition anon_flags (prot flags : Z) : Z :=
  when flags MAP_HUGETLB (when flags MAP_SHARED (prot_vm_flags prot VM_ANON) VM_SHARED) VM_HUGEPAGE.

Lemma anon_plain mm prot flags : has (locked_flags mm (anon_flags prot flags)) VM_FILE = false /\
  has (locked_flags mm (anon_flags prot flags)) VM_VMO = false /\
  has (locked_flags mm (anon_flags prot flags)) VM_SYSV_SHM = false.
Proof.
  unfold locked_flags, anon_flags, prot_vm_flags, when.
  destruct (has prot 1), (has prot 2), (has prot 4), (has flags MAP_SHARED), (has flags MAP_HUGETLB),
    (has (mm_def_flags mm) VM_LOCKED); done.
Qed.

(** The result of the tests before anything is placed: 0, or the error. *)
Definition anon_early (addr len prot flags : Z) : Z :=
  if mmap_len addr len flags <? 0 then mmap_len addr len flags
  else Z.min 0 (mm_wx_filter_prot policy host prot).

Definition anon_attr (mm : mm_struct_t) (prot flags : Z) (r x : Z) : Z * Z * option (option Z * Z) * option Z :=
  let prot := mm_wx_filter_prot policy host prot in
  (locked_flags mm (anon_flags prot flags), mm_prot_to_pte_flags prot, None, None).

Lemma mmap_anon_spec X l mm addr len prot flags : inv X l mm -> ordered 0 l -> low l -> in_u64 addr ->
  in_u64 (mm_mmap_base mm) ->
  exists mm' r l', mm_mmap_locked policy host memlock cap mm addr len prot flags = Some (mm', r) /\
    inv X l' mm' /\ ordered 0 l' /\ (length l' <= S (S (length l)))%nat /\ limits mm' = limits mm /\
    (names_ok l (mm_events mm) -> names_ok l' (mm_events mm')) /\
    mmap_outcome (over_limit memlock cap (page_up len)) mm l (anon_early addr len prot flags) addr (page_up len) flags (anon_attr mm prot flags) r l'.
Proof using ok.
  intros I Ho L Ha Hb. unfold mm_mmap_locked, mmap_outcome, anon_early. cbv zeta.
  destruct (mmap_len_spec addr len flags) as [(Hneg & _)|(-> & Hl & Hp)].
  { rewrite (proj2 (Z.ltb_lt _ _) Hneg), (proj2 (Z.ltb_lt _ _) Hneg).
    eexists _, _, l. split; [reflexivity|]. repeat (split; [done || lia|]). done. }
  rewrite (proj2 (Z.ltb_ge (page_up len) 0)) by lia. set (prot2 := mm_wx_filter_prot policy host prot).
  destruct (Z.ltb_spec prot2 0) as [Hpr|Hpr].
  { rewrite Z.min_r, (proj2 (Z.ltb_lt _ _) Hpr) by lia.
    eexists _, _, l. split; [reflexivity|]. repeat (split; [done || lia|]). done. }
  rewrite Z.min_l by lia. change (0 <? 0) with false. cbn iota.
  match goal with |- exists mm' r l', ?call = Some (mm', r) /\ _ =>
    destruct (map_begin (over_limit memlock cap (page_up len)) call hint_range _ X l mm addr (page_up len) flags eq_refl I Ho L Ha Hb Hl Hp
                (or_introl (hint_range_ok _ _ Ha (page_up_range len)))) as
    [(mm1 & r & l1 & -> & I1 & Ho1 & L1 & Li1 & N1 & R1)|(mm1 & mm2 & a & p & l1 & -> & C1 & R1 & F2 & Ho1 & L1 & Li2 & N2 & P)] end.
  { exists mm1, r, l1. repeat (split; [done || lia|]). by right. }
  match goal with |- context [sg_upd mm2 p ?f] =>
    destruct (fresh_upd X l1 mm2 p seg_zero f F2) as (mm3 & -> & F3 & R3 & Es3); [done|done|] end.
  cbn [mbind option_bind].
  assert (Li3 : limits mm3 = limits mm) by (by rewrite (rest_limits _ _ R3)).
  destruct (has (mm_def_flags mm3) VM_LOCKED && memlock_refuses memlock cap mm3 (page_up len)) eqn:Hlim.
  { exists (kfree mm3 p), (u64 (- ENOMEM)), l1. split; [done|]. split; [by apply fresh_free in F3|].
    repeat (split; [done || lia|]). split; [intros N; change (names_ok l1 (mm_events mm3)); rewrite Es3; by apply N2|].
    right. apply (map_fail _ mm _ _ _ _ a _ _ mm1); try done; [lia|]. right.
    by rewrite <- (over_limit_rest _ _ _ mm1 mm3) by congruence. }
  destruct (lock_step X l1 mm3 p _ (page_up len) F3) as (mm4 & -> & F4 & Li4 & Es4). cbn [mbind option_bind].
  destruct (map_insert X mm l addr (page_up len) flags a l1 mm4 p _ (anon_attr mm prot flags) P Ho1 ltac:(lia) F4)
    as (mm5 & l' & -> & I5 & Ho5 & M & Ev5 & L5 & N5); [done|done| |].
  - intros x. unfold attr, place, anon_attr. destruct (anon_plain mm prot2 flags) as (E1 & E2 & E3).
    match goal with |- context [c_flags ?c] => change (c_flags c) with (locked_flags mm3 (anon_flags prot2 flags)) end.
    fold prot2. by rewrite (locked_limits mm mm3), E1, E2, E3.
  - cbn [mbind option_bind]. eexists _, a, l'. split; [reflexivity|].
    split; [by eapply inv_fields; [..|exact I5]|]. split; [done|]. split; [lia|].
    split; [change (limits mm5 = limits mm); by rewrite (rest_limits _ _ (env_rest _ _ Ev5)), Li4|].
    split; [|by left]. intros N. apply N5. rewrite Es4, Es3. by apply N2.
Qed.

End Anon.

Section File.

Context {arch : MmArch} {ok : MmArchOk arch}.
Variables (policy : wx_policy) (host : bool) (memlock : Z) (cap : bool).

Definition file_flags (prot flags : Z) : Z :=
  when flags MAP_HUGETLB (when flags MAP_SHARED (prot_vm_flags prot VM_FILE) VM_SHARED) VM_HUGEPAGE.

Lemma file_kind mm prot flags : has (locked_flags mm (file_flags prot flags)) VM_FILE = true /\
  has (locked_flags mm (file_flags prot flags)) VM_SYSV_SHM = false.
Proof.
  unfold locked_flags, file_flags, prot_vm_flags, when.
  destruct (has prot 1), (has prot 2), (has prot 4), (has flags MAP_SHARED), (has flags MAP_HUGETLB),
    (has (mm_def_flags mm) VM_LOCKED); done.
Qed.

Definition file_early (addr len prot flags off : Z) : Z :=
  if c_true (Z.land off (PG - 1)) then - EINVAL else anon_early policy host addr len prot flags.

Definition file_attr (mm : mm_struct_t) (prot flags file off : Z) (r x : Z)
  : Z * Z * option (option Z * Z) * option Z :=
  let prot := mm_wx_filter_prot policy host prot in
  (locked_flags mm (file_flags prot flags), mm_prot_to_pte_flags prot, Some (Some file, u64 (off + (x - r))), None).

(** Events that do not name. *)
Lemma fresh_log X l mm p r e : fresh X l mm p r -> fresh X l (log mm e) p r.
Proof. intros F. by eapply fresh_fields; [..|exact F]. Qed.

(** The call once it has its record. *)
Lemma file_rest X l mm addr len flags a l1 mm1 mm2 p prot file vnode off :
  placed mm l addr len flags a l1 -> ordered 0 l1 -> 0 < len -> fresh X l1 mm2 p seg_zero ->
  cleared mm addr len flags mm1 -> rest mm2 = rest mm1 ->
  limits mm2 = limits mm -> (names_ok l (mm_events mm) -> names_ok l1 (mm_events mm2)) ->
  let prot2 := mm_wx_filter_prot policy host prot in
  let vmf := file_flags prot2 flags in
  exists mm' r l',
    (mm ← sg_upd mm2 p (fun r =>
             r {{ sg_start := a; sg_end := a + len; sg_vm_flags := vmf;
                  sg_pte_flags := mm_prot_to_pte_flags prot2; sg_vmar_cap := u32 prot2;
                  sg_file := Some file; sg_backing_offset := off; sg_file_vnode := vnode }});
     let mm := match vnode with Some v => log mm (VnodeGet v) | None => mm end in
     if has (mm_def_flags mm) VM_LOCKED && memlock_refuses memlock cap mm len
     then
       let mm := match vnode with Some v => log mm (VnodePut v) | None => mm end in
       Some (kfree mm p, u64 (- ENOMEM))
     else
       mm ← (if has (mm_def_flags mm) VM_LOCKED then
               mm ← sg_upd mm p (fun r => r {{ sg_vm_flags := Z.lor (sg_vm_flags r) VM_LOCKED }});
               Some (mm {{ mm_locked_vm := u64 (mm_locked_vm mm + len) }})
             else Some mm);
       let mm := match vnode with
                 | Some v => if has vmf VM_SHARED then log mm (SharedMapInc v) else mm
                 | None => mm
                 end in
       mm ← mm_insert_vma mm p;
       Some (mm {{ mm_total_vm := u64 (mm_total_vm mm + len / PG) }}, a)) = Some (mm', r) /\
    inv X l' mm' /\ ordered 0 l' /\ (length l' <= S (length l1))%nat /\ limits mm' = limits mm /\
    (names_ok l (mm_events mm) -> names_ok l' (mm_events mm')) /\
    (mapped_at mm l addr len flags (file_attr mm prot flags file off) r l' \/
     mmap_refused (over_limit memlock cap len) mm l addr len flags r l').
Proof using ok.
  intros P Ho1 Hl F2 C1 R1 Li2 N2 prot2 vmf.
  match goal with |- context [sg_upd mm2 p ?f] =>
    destruct (fresh_upd X l1 mm2 p seg_zero f F2) as (mm3 & -> & F3 & R3 & Es3); [done|done|] end.
  cbn [mbind option_bind]. cbv zeta.
  set (mm4 := match vnode with Some v => log mm3 (VnodeGet v) | None => mm3 end).
  match type of F3 with fresh _ _ _ _ ?r => set (r3 := r) in F3 end.
  assert (F4 : fresh X l1 mm4 p r3) by (subst mm4; destruct vnode; [apply fresh_log|]; exact F3).
  assert (Li4 : limits mm4 = limits mm) by (subst mm4; destruct vnode; rewrite <- Li2, <- (rest_limits _ _ R3); done).
  assert (N4 : names_ok l (mm_events mm) -> names_ok l1 (mm_events mm4)).
  { intros N. apply N2 in N. rewrite <- Es3 in N. subst mm4. by destruct vnode. }
  destruct (has (mm_def_flags mm4) VM_LOCKED && memlock_refuses memlock cap mm4 len) eqn:Hlim.
  { set (mm5 := match vnode with Some v => log mm4 (VnodePut v) | None => mm4 end).
    exists (kfree mm5 p), (u64 (- ENOMEM)), l1. split; [done|]. split.
    { apply (fresh_free X l1 mm5 p r3). subst mm5. destruct vnode; [apply fresh_log|]; exact F4. }
    split; [done|]. split; [lia|]. split; [subst mm5; by destruct vnode|].
    split; [intros N; apply N4 in N; subst mm5; by destruct vnode|].
    right. apply (map_fail _ mm _ _ _ _ a _ _ mm1); try done. right.
    rewrite <- (over_limit_rest _ _ _ mm1 mm4); [done|]. subst mm4. destruct vnode; rewrite <- R1, <- R3; done. }
  destruct (lock_step X l1 mm4 p _ len F4) as (mm5 & -> & F5 & Li5 & Es5). cbn [mbind option_bind].
  match goal with |- context [mm_insert_vma ?m p] => set (mm6 := m) end.
  match type of F5 with fresh _ _ _ _ ?r => set (r5 := r) in F5 end.
  assert (F6 : fresh X l1 mm6 p r5) by (subst mm6; destruct vnode; [destruct (has _ VM_SHARED); [apply fresh_log|]|]; exact F5).
  assert (Li6 : limits mm6 = limits mm) by (subst mm6; destruct vnode; [destruct (has _ VM_SHARED)|]; by rewrite <- Li4).
  assert (N6 : names_ok l (mm_events mm) -> names_ok l1 (mm_events mm6)).
  { intros N. apply N4 in N. rewrite <- Es5 in N. subst mm6. destruct vnode; [destruct (has _ VM_SHARED)|]; done. }
  destruct (map_insert X mm l addr len flags a l1 mm6 p _ (file_attr mm prot flags file off) P Ho1 Hl F6)
    as (mm7 & l' & -> & I7 & Ho7 & M & Ev7 & L7 & N7); [done|done| |].
  - intros x. unfold attr, place, file_attr. destruct (file_kind mm prot2 flags) as (E1 & E2).
    match goal with |- context [c_flags ?c] => change (c_flags c) with (locked_flags mm4 (file_flags prot2 flags)) end.
    fold prot2. by rewrite (locked_limits mm mm4), E1, E2.
  - cbn [mbind option_bind]. eexists _, a, l'. split; [reflexivity|].
    split; [by eapply inv_fields; [..|exact I7]|]. split; [done|]. split; [lia|].
    split; [change (limits mm7 = limits mm); by rewrite (rest_limits _ _ (env_rest _ _ Ev7)), Li6|].
    split; [|by left]. intros N. by apply N7, N6.
Qed.

Lemma mmap_file_spec X l mm addr len prot flags file vnode off : inv X l mm -> ordered 0 l -> low l -> in_u64 addr ->
  in_u64 (mm_mmap_base mm) ->
  exists mm' r l', mm_mmap_file_locked policy host memlock cap mm addr len prot flags file vnode off = Some (mm', r) /\
    inv X l' mm' /\ ordered 0 l' /\ (length l' <= S (S (length l)))%nat /\ limits mm' = limits mm /\
    (names_ok l (mm_events mm) -> names_ok l' (mm_events mm')) /\
    mmap_outcome (over_limit memlock cap (page_up len)) mm l (file_early addr len prot flags off) addr (page_up len) flags
      (file_attr mm prot flags file off) r l'.
Proof using ok.
  intros I Ho L Ha Hb. unfold mm_mmap_file_locked, mmap_outcome, file_early, anon_early. cbv zeta.
  destruct (c_true (Z.land off (PG - 1))).
  { eexists _, _, l. split; [reflexivity|]. repeat (split; [done || lia|]). done. }
  destruct (mmap_len_spec addr len flags) as [(Hneg & _)|(-> & Hl & Hp)].
  { rewrite (proj2 (Z.ltb_lt _ _) Hneg), (proj2 (Z.ltb_lt _ _) Hneg).
    eexists _, _, l. split; [reflexivity|]. repeat (split; [done || lia|]). done. }
  rewrite (proj2 (Z.ltb_ge (page_up len) 0)) by lia. set (prot2 := mm_wx_filter_prot policy host prot).
  destruct (Z.ltb_spec prot2 0) as [Hpr|Hpr].
  { rewrite Z.min_r, (proj2 (Z.ltb_lt _ _) Hpr) by lia.
    eexists _, _, l. split; [reflexivity|]. repeat (split; [done || lia|]). done. }
  rewrite Z.min_l by lia. change (0 <? 0) with false. cbn iota.
  match goal with |- exists mm' r l', ?call = Some (mm', r) /\ _ =>
    destruct (map_begin (over_limit memlock cap (page_up len)) call hint_range _ X l mm addr (page_up len) flags eq_refl I Ho L Ha Hb Hl Hp
                (or_introl (hint_range_ok _ _ Ha (page_up_range len)))) as
    [(mm1 & r & l1 & -> & I1 & Ho1 & L1 & Li1 & N1 & R1)|(mm1 & mm2 & a & p & l1 & -> & C1 & R1 & F2 & Ho1 & L1 & Li2 & N2 & P)] end.
  { exists mm1, r, l1. repeat (split; [done || lia|]). by right. }
  edestruct (file_rest X l mm addr (page_up len) flags a l1 mm1 mm2 p) as (mm' & r & l' & E & I' & Ho' & L' & Li' & N' & D);
    [exact P|done|lia|exact F2|done|done|done|exact N2|].
  exists mm', r, l'. split; [exact E|]. repeat (split; [done || lia|]). exact D.
Qed.

End File.

Section Vmo.

Context {arch : MmArch} {ok : MmArchOk arch}.
Variables (policy : wx_policy) (host : bool).

Definition vmo_flags (prot flags : Z) : Z := when flags MAP_SHARED (prot_vm_flags prot VM_VMO) VM_SHARED.

Lemma vmo_kind prot flags : has (vmo_flags prot flags) VM_FILE = false /\
  has (vmo_flags prot flags) VM_VMO = true /\ has (vmo_flags prot flags) VM_SYSV_SHM = false.
Proof.
  unfold vmo_flags, prot_vm_flags, when.
  destruct (has prot 1), (has prot 2), (has prot 4), (has flags MAP_SHARED); done.
Qed.

Definition vmo_early (addr len prot flags size off : Z) : Z :=
  if mmap_len addr len flags <? 0 then mmap_len addr len flags
  else if (size <=? off) || (size - off <? mmap_len addr len flags) then - EINVAL
  else if c_true (Z.land off (PG - 1)) then - EINVAL
  else Z.min 0 (mm_wx_filter_prot policy host prot).

Definition vmo_attr (prot flags vmo off : Z) (r x : Z) : Z * Z * option (option Z * Z) * option Z :=
  let prot := mm_wx_filter_prot policy host prot in
  (vmo_flags prot flags, mm_prot_to_pte_flags prot, Some (Some vmo, u64 (off + (x - r))), None).

(** The call after its checks, for a treatment [hint] of the hint. *)
Definition vmo_tail (hint : mm_struct_t -> Z -> Z -> option (mm_struct_t * Z)) (mm : mm_struct_t)
    (addr len prot flags vmo off : Z) : option (mm_struct_t * Z) :=
  '(mm, addr) ← mmap_place hint mm addr len flags;
  if addr <? 0 then Some (mm, u64 addr) else
  '(mm, vma) ← mm_seg_new mm;
  match vma with
  | None => Some (mm, u64 (- ENOMEM))
  | Some vma =>
      mm ← sg_upd mm vma (fun r =>
             r {{ sg_start := addr; sg_end := addr + len; sg_vm_flags := vmo_flags prot flags;
                  sg_pte_flags := mm_prot_to_pte_flags prot; sg_vmar_cap := u32 prot;
                  sg_file := None; sg_vmo := Some vmo; sg_backing_offset := off }});
      mm ← mm_insert_vma (log mm (VmoRef vmo)) vma;
      Some (mm {{ mm_total_vm := u64 (mm_total_vm mm + len / PG) }}, addr)
  end.

(** What the call leaves. *)
Definition vmo_result (call : option (mm_struct_t * Z)) (X : nat -> Z) (l : list (nat * seg_core)) (mm : mm_struct_t)
    (P : Z -> list (nat * seg_core) -> Prop) : Prop :=
  exists mm' r l', call = Some (mm', r) /\ inv X l' mm' /\ ordered 0 l' /\ (length l' <= S (S (length l)))%nat /\
    limits mm' = limits mm /\ (names_ok l (mm_events mm) -> names_ok l' (mm_events mm')) /\ P r l'.

Lemma vmo_tail_spec hint X l mm addr len prot flags vmo off : inv X l mm -> ordered 0 l -> low l -> in_u64 addr ->
  in_u64 (mm_mmap_base mm) -> 0 < len <= USER_VA_LIMIT -> page_up len = len ->
  hint_ok hint addr len \/ addr = 0 \/ wants addr flags = true ->
  vmo_result (vmo_tail hint mm addr len (mm_wx_filter_prot policy host prot) flags vmo off) X l mm (fun r l' =>
    mapped_at mm l addr len flags (vmo_attr prot flags vmo off) r l' \/
    mmap_refused (fun _ => false) mm l addr len flags r l').
Proof using ok.
  intros I Ho L Ha Hb Hl Hp Hw. unfold vmo_result. set (prot2 := mm_wx_filter_prot policy host prot).
  match goal with |- exists mm' r l', ?call = Some (mm', r) /\ _ =>
    destruct (map_begin (fun _ => false) call hint _ X l mm addr len flags eq_refl I Ho L Ha Hb Hl Hp Hw) as
    [(mm1 & r & l1 & -> & I1 & Ho1 & L1 & Li1 & N1 & R1)|(mm1 & mm2 & a & p & l1 & -> & C1 & R1 & F2 & Ho1 & L1 & Li2 & N2 & P)] end.
  { exists mm1, r, l1. repeat (split; [done || lia|]). by right. }
  match goal with |- context [sg_upd mm2 p ?f] =>
    destruct (fresh_upd X l1 mm2 p seg_zero f F2) as (mm3 & -> & F3 & R3 & Es3); [done|done|] end.
  cbn [mbind option_bind]. apply (fresh_log _ _ _ _ _ (VmoRef vmo)) in F3.
  destruct (map_insert X mm l addr len flags a l1 _ p _ (vmo_attr prot flags vmo off) P Ho1 ltac:(lia) F3)
    as (mm5 & l' & -> & I5 & Ho5 & M & Ev5 & L5 & N5); [done|done| |].
  - intros x. unfold attr, place, vmo_attr. destruct (vmo_kind prot2 flags) as (E1 & E2 & E3).
    match goal with |- context [c_flags ?c] => change (c_flags c) with (vmo_flags prot2 flags) end.
    fold prot2. by rewrite E1, E2, E3.
  - cbn [mbind option_bind]. eexists _, a, l'. split; [reflexivity|].
    split; [by eapply inv_fields; [..|exact I5]|]. split; [done|]. split; [lia|].
    split; [change (limits mm5 = limits mm); rewrite (rest_limits _ _ (env_rest _ _ Ev5)), <- Li2; by apply rest_limits|].
    split; [|by left]. intros N. apply N5. change (names_ok l1 (mm_events mm3)). rewrite Es3. by apply N2.
Qed.

(** A hint on a mapped address, or with a free range. *)
Definition hint_clear (l : list (nat * seg_core)) (addr len : Z) : Prop :=
  view l addr <> None \/ free l addr (addr + len).

Lemma place_unwanted hint mm addr len flags mm1 a1 : wants addr flags = false -> addr <> 0 ->
  hint mm addr len = Some (mm1, a1) ->
  mmap_place hint mm addr len flags = mmap_place (fun mm _ _ => Some (mm, a1)) mm1 addr len flags.
Proof.
  intros Hw Hz E. unfold wants in Hw. unfold mmap_place. cbv zeta.
  assert (c_true addr = true) as Hc by (by apply negb_true_iff, Z.eqb_neq).
  rewrite Hc in *. cbn [andb] in Hw. apply orb_false_iff in Hw as [E1 E2].
  rewrite E2. cbn [andb]. rewrite E1. cbn [andb mbind option_bind]. by rewrite E.
Qed.

(** What a VMO hint comes to. *)
Lemma hint_vmo_cases X l mm addr len : inv X l mm -> ordered 0 l -> low l -> Z.of_nat (length l) <= 100000 ->
  in_u64 addr -> 0 < len <= USER_VA_LIMIT -> hint_clear l addr len ->
  exists mm1 a1, hint_vmo mm addr len = Some (mm1, a1) /\ inv X l mm1 /\ env mm1 = env mm /\
    mm_events mm1 = mm_events mm /\ (a1 = 0 \/ a1 = addr /\ free l addr (addr + len)).
Proof using ok.
  intros I Ho L Hl Ha Hn Hc. unfold hint_vmo. pose proof lim_ok.
  destruct (find_inv X l mm addr I Ho Hl) as (mm1 & -> & I1 & Ev & Es). cbn [mbind option_bind].
  unfold hint_clear, view in Hc. destruct (seg_at l addr) as [[p c]|] eqn:E; cbn [fmap option_fmap option_map fst].
  - apply seg_at_Some in E as [Hin Hr]. pose proof (low_end _ _ _ Ho L Hin).
    destruct (inv_live _ _ _ p c I1 Hin) as (r & -> & <- & _). cbn [mbind option_bind core c_start c_end] in *.
    rewrite u64_small by (unfold in_u64 in *; lia).
    rewrite Z.gtb_ltb, (proj2 (Z.ltb_lt _ _)), (proj2 (Z.ltb_lt _ _)) by lia. cbn [andb].
    exists mm1, 0. repeat (split; [done|]). by left.
  - destruct Hc as [Hc|Hc]; [done|]. exists mm1, addr. repeat (split; [done|]). by right.
Qed.

(** The call: without a hint, at a fixed place, or with a clear hint, where
    the lookup of the hint may have changed the caches. *)
Lemma mmap_vmo_spec X l mm addr len prot flags vmo size off : inv X l mm -> ordered 0 l -> low l ->
  Z.of_nat (length l) <= 100000 -> in_u64 addr -> in_u64 (mm_mmap_base mm) ->
  addr = 0 \/ wants addr flags = true \/ hint_clear l addr (page_up len) ->
  vmo_result (mm_mmap_vmo_locked policy host mm addr len prot flags vmo size off) X l mm (fun r l' =>
    r = u64 (- ENOMEM) /\ l' = l \/
    exists mm1 a1, mmap_outcome (fun _ => false) mm1 l (vmo_early addr len prot flags size off) a1 (page_up len) flags
      (vmo_attr prot flags vmo off) r l').
Proof using ok.
  intros I Ho L Hlen Ha Hb Hw. unfold mm_mmap_vmo_locked, mmap_outcome, vmo_early, vmo_result. cbv zeta.
  destruct (mmap_len_spec addr len flags) as [(Hneg & _)|(-> & Hl & Hp)].
  { rewrite (proj2 (Z.ltb_lt _ _) Hneg), (proj2 (Z.ltb_lt _ _) Hneg).
    eexists _, _, l. split; [reflexivity|]. repeat (split; [done || lia|]). right. by exists mm, 0. }
  rewrite (proj2 (Z.ltb_ge (page_up len) 0)), Z.geb_leb, (Z.gtb_ltb (page_up len)) by lia.
  destruct ((size <=? off) || (size - off <? page_up len)).
  { eexists _, _, l. split; [reflexivity|]. repeat (split; [done || lia|]). right. by exists mm, 0. }
  destruct (c_true (Z.land off (PG - 1))).
  { eexists _, _, l. split; [reflexivity|]. repeat (split; [done || lia|]). right. by exists mm, 0. }
  set (prot2 := mm_wx_filter_prot policy host prot). destruct (Z.ltb_spec prot2 0) as [Hpr|Hpr].
  { rewrite Z.min_r, (proj2 (Z.ltb_lt _ _) Hpr) by lia.
    eexists _, _, l. split; [reflexivity|]. repeat (split; [done || lia|]). right. by exists mm, 0. }
  rewrite Z.min_l by lia. change (0 <? 0) with false. cbn iota.
  match goal with |- exists mm' r l', ?c = _ /\ _ =>
    change c with (vmo_tail hint_vmo mm addr (page_up len) prot2 flags vmo off) end.
  assert (Hdo : forall hint a mm1, inv X l mm1 -> env mm1 = env mm -> mm_events mm1 = mm_events mm -> in_u64 a ->
    hint_ok hint a (page_up len) \/ a = 0 \/ wants a flags = true ->
    vmo_tail hint_vmo mm addr (page_up len) prot2 flags vmo off = vmo_tail hint mm1 a (page_up len) prot2 flags vmo off ->
    exists mm' r l', vmo_tail hint_vmo mm addr (page_up len) prot2 flags vmo off = Some (mm', r) /\ inv X l' mm' /\
      ordered 0 l' /\ (length l' <= S (S (length l)))%nat /\ limits mm' = limits mm /\
      (names_ok l (mm_events mm) -> names_ok l' (mm_events mm')) /\
      (r = u64 (- ENOMEM) /\ l' = l \/ exists mm1 a1, mapped_at mm1 l a1 (page_up len) flags (vmo_attr prot flags vmo off) r l' \/
         mmap_refused (fun _ => false) mm1 l a1 (page_up len) flags r l')).
  { intros hint a mm1 I1 Ev Es Hau Hok ->. pose proof (rest_limits _ _ (env_rest _ _ Ev)) as Li1.
    assert (Hb1 : in_u64 (mm_mmap_base mm1)) by (unfold limits in Li1; congruence).
    destruct (vmo_tail_spec hint X l mm1 a (page_up len) prot flags vmo off I1 Ho L Hau Hb1 Hl Hp Hok)
      as (mm' & r & l' & E & I' & Ho' & Le & Li & N & Out).
    exists mm', r, l'. rewrite <- Li1, <- Es. repeat (split; [done|]). right. by exists mm1, a. }
  destruct (decide (addr = 0 \/ wants addr flags = true)) as [Hor|Hno].
  { apply (Hdo hint_vmo addr mm); try done. by right. }
  assert (Hz : addr <> 0) by tauto. assert (Hwf : wants addr flags = false) by (destruct (wants addr flags); [tauto|done]).
  destruct (hint_vmo_cases X l mm addr (page_up len) I Ho L Hlen Ha Hl) as (mm1 & a1 & E & I1 & Ev & Es & Ha1); [tauto|].
  pose proof (place_unwanted hint_vmo mm addr (page_up len) flags mm1 a1 Hwf Hz E) as Ep.
  destruct Ha1 as [->|[-> F]].
  - apply (Hdo (fun mm _ _ => Some (mm, 0)) addr mm1); try done.
    + left. intros X0 l0 mm0 _ _. by left.
    + unfold vmo_tail. by rewrite Ep.
  - destruct (Z.le_gt_cases (addr + page_up len) USER_VA_LIMIT) as [Hal|Hal].
    + apply (Hdo hint_range addr mm1); try done.
      { left. apply hint_range_ok; [done|]. pose proof (page_up_range len). done. }
      unfold vmo_tail. rewrite Ep. symmetry. f_equal. rewrite (place_unwanted hint_range mm1 addr (page_up len) flags mm1 addr Hwf Hz); [done|].
      unfold hint_range. pose proof lim_ok. rewrite u64_small by (unfold in_u64 in *; lia).
      rewrite Z.gtb_ltb, (proj2 (Z.ltb_ge _ _)), (proj2 (Z.ltb_ge _ _)) by lia. cbn [orb].
      destruct (range_overlaps_spec X l mm1 addr (page_up len) I1 Ho Ha (page_up_range len)) as (b & -> & Hb').
      cbn [mbind option_bind]. destruct b; [|done]. exfalso. destruct Hb' as [_ Hb'].
      assert (true = false) by (apply Hb'; split; [lia|done]). done.
    + exists mm1, (u64 (- ENOMEM)), l. unfold vmo_tail. rewrite Ep.
      unfold mmap_place. cbv zeta. assert (c_true addr = true) as Hc by (by apply negb_true_iff, Z.eqb_neq).
      unfold wants in Hwf. rewrite Hc in *. cbn [andb] in Hwf. apply orb_false_iff in Hwf as [E1 E2].
      rewrite E2. cbn [andb]. rewrite E1. cbn [andb mbind option_bind]. change (0 <? 0) with false. cbn iota.
      rewrite (proj2 (Z.eqb_neq addr 0) Hz). cbn [mbind option_bind].
      rewrite place_check by done.
      rewrite (proj2 (Z.leb_gt (addr + page_up len) USER_VA_LIMIT)), andb_false_r by done.
      cbn [mbind option_bind]. change (- ENOMEM <? 0) with true. cbn iota.
      split; [done|]. split; [done|]. split; [done|]. split; [lia|].
      split; [by apply rest_limits, env_rest|]. rewrite Es. by auto.
Qed.

End Vmo.

(** ** The break *)

Section Brk.

Context {arch : MmArch} {ok : MmArchOk arch}.

Definition brk_attr : Z * Z * option (option Z * Z) * option Z :=
  (Z.lor (Z.lor VM_ANON VM_READ) VM_WRITE, mm_user_brk_pte_flags, None, None).

(** The break stays, or moves; growing over a page border maps the pages in
    between, which were free. *)
Definition brk_outcome (mm : mm_struct_t) (l : list (nat * seg_core)) (newbrk r : Z) (mm' : mm_struct_t)
    (l' : list (nat * seg_core)) : Prop :=
  mm_brk mm' = r /\
  (r = mm_brk mm /\ l' = l \/
   r = newbrk /\ mm_start_brk mm <= newbrk <= USER_VA_LIMIT /\
     if (mm_brk mm <? newbrk) && (page_up (mm_brk mm) <? page_up newbrk) then
       free l (page_up (mm_brk mm)) (page_up newbrk) /\
       forall x, view l' x = if inside (page_up (mm_brk mm)) (page_up newbrk) x then Some brk_attr else view l x
     else l' = l).

Lemma brk_spec X l mm newbrk : inv X l mm -> ordered 0 l -> in_u64 newbrk ->
  exists mm' r l', mm_brk_locked mm newbrk = Some (mm', r) /\ inv X l' mm' /\ ordered 0 l' /\
    (length l' <= S (length l))%nat /\ brk_outcome mm l newbrk r mm' l' /\
    mm_mmap_base mm' = mm_mmap_base mm /\ (names_ok l (mm_events mm) -> names_ok l' (mm_events mm')).
Proof using ok.
  intros I Ho Hn. unfold mm_brk_locked. cbv zeta.
  assert (Stay : exists mm' r l', Some (mm, mm_brk mm) = Some (mm', r) /\ inv X l' mm' /\ ordered 0 l' /\
    (length l' <= S (length l))%nat /\ brk_outcome mm l newbrk r mm' l' /\
    mm_mmap_base mm' = mm_mmap_base mm /\ (names_ok l (mm_events mm) -> names_ok l' (mm_events mm'))).
  { exists mm, (mm_brk mm), l. do 4 (split; [done || lia|]). split; [split; [done|by left]|done]. }
  unfold brk_outcome in *.
  destruct (Z.eqb_spec newbrk 0) as [|Hz]; [exact Stay|]. rewrite !Z.gtb_ltb.
  destruct ((newbrk <? mm_start_brk mm) || (USER_VA_LIMIT <? newbrk)) eqn:Hr; [exact Stay|].
  apply orb_false_iff in Hr as [Hr1%Z.ltb_ge Hr2%Z.ltb_ge].
  destruct (Z.ltb_spec (page_up newbrk) newbrk); [exact Stay|].
  set (o := page_up (mm_brk mm)) in *. set (n := page_up newbrk) in *.
  pose proof (page_up_range (mm_brk mm)) as Hou. pose proof (page_up_range newbrk) as Hnu. fold o in Hou. fold n in Hnu.
  destruct ((mm_brk mm <? newbrk) && (o <? n)) eqn:Hg.
  - apply andb_true_iff in Hg as [Hg1%Z.ltb_lt Hg2%Z.ltb_lt]. unfold in_u64 in Hou, Hnu.
    destruct (range_overlaps_spec X l mm o (n - o) I Ho) as (b & -> & Hb); [unfold in_u64; lia..|].
    cbn [mbind option_bind]. destruct b; [exact Stay|]. destruct (proj1 Hb eq_refl) as [_ Hf].
    replace (o + (n - o)) with n in Hf by lia. rewrite (proj2 (Z.ltb_ge newbrk (mm_brk mm))) by lia.
    cbn [mbind option_bind]. change (0 <? 0) with false. cbn iota.
    rewrite !Z.gtb_ltb, (proj2 (Z.ltb_lt (mm_brk mm) newbrk)), (proj2 (Z.ltb_lt o n)) by lia. cbn [andb].
    destruct (fresh_new X l mm I) as [(mm2 & -> & _ & I2 & R2 & Es2)|(mm2 & p & -> & F2 & R2 & Es2)]; cbn [mbind option_bind].
    { assert (Eb : mm_brk mm2 = mm_brk mm) by (unfold rest in R2; congruence).
      exists mm2, (mm_brk mm2), l. rewrite Es2. do 4 (split; [done || lia|]).
      split; [split; [done|left; by split]|]. split; [unfold rest in R2; congruence|done]. }
    match goal with |- context [sg_upd mm2 p ?f] =>
      destruct (fresh_upd X l mm2 p seg_zero f F2) as (mm3 & -> & F3 & R3 & Es3); [done|done|] end.
    cbn [mbind option_bind].
    destruct (fresh_insert X l mm3 p _ o (n - o) F3 Ho) as (mm4 & l' & -> & I4 & Ho4 & V & Ev4 & L4 & N4);
      [done|cbn; lia|lia|lia|by replace (o + (n - o)) with n by lia|].
    replace (o + (n - o)) with n in V by lia. cbn [mbind option_bind]. eexists _, newbrk, l'. split; [reflexivity|].
    split; [by eapply inv_fields; [..|exact I4]|]. split; [done|]. split; [done|].
    split; [split; [done|right; split; [done|split; [lia|split; [done|exact V]]]]|].
    split; [apply env_rest in Ev4; change (mm_mmap_base mm4 = mm_mmap_base mm); unfold rest in *; congruence|].
    intros N. apply N4. by rewrite Es3, Es2.
  - cbn [mbind option_bind].
    assert (Hse : exists b, (if newbrk <? mm_brk mm then range_flag_loop (fuel mm) mm n o VM_SEALED (mm_mmap mm)
                             else Some false) = Some b).
    { destruct (newbrk <? mm_brk mm); [|by exists false]. destruct (inv_list _ _ _ I) as [[lst Hd] _].
      destruct (flag_spec mm n o VM_SEALED l (fuel mm) _ None lst 0 Hd (inv_fuel _ _ _ I) Ho) as (b & -> & _). by exists b. }
    destruct Hse as (b & ->). cbn [mbind option_bind]. destruct b; [exact Stay|].
    destruct (page_loop_eq mm) as (pl & e & Epl & _).
    assert (Hpg : exists pl e, (if newbrk <? mm_brk mm then page_loop mm else (mm, 0)) = (mm {{ mm_page_loops := pl }}, e)).
    { destruct (newbrk <? mm_brk mm); [by exists pl, e|]. exists (mm_page_loops mm), 0. by destruct mm. }
    destruct Hpg as (pl2 & e2 & ->). set (mm2 := mm {{ mm_page_loops := pl2 }}).
    assert (I2 : inv X l mm2) by (by eapply inv_fields; [..|exact I]).
    destruct (e2 <? 0).
    { exists mm2, (mm_brk mm), l. do 4 (split; [done || lia|]). split; [split; [done|by left]|done]. }
    change (mm_brk mm2) with (mm_brk mm). rewrite !Z.gtb_ltb, Hg. eexists _, newbrk, l. split; [reflexivity|].
    split; [by eapply inv_fields; [..|exact I]|]. do 2 (split; [done || lia|]). split; [|done].
    split; [done|]. right. split; [done|]. split; [lia|done].
Qed.

End Brk.
