(* ===== verification/AddrRefs.v ===== *)
(** * Address spaces: releasing records

    The release queue is flushed after the lock is dropped, and the holders of
    a record outside the address space (page-table entries, lookups) drop
    theirs with [mm_seg_put]: a record is freed with its last holder, once. *)

From stdpp Require Import gmap.
From S2P Require Import Prelude AddrSpace AddrTheory AddrOps AddrView AddrUnmap.

(** Releasing what backs a record leaves its references alone. *)
Lemma vma_release_spec mm p r : sg mm p = Some r ->
  exists r' evs, vma_release mm p = Some (mm {{ mm_segs := <[p := r']> (mm_segs mm); mm_events := evs }}) /\
    sg_refcount r' = sg_refcount r /\ sg_released r' = sg_released r /\
    sg_deferred_next r' = sg_deferred_next r /\ forall q x, named evs q x = named (mm_events mm) q x.
Proof.
  intros Hr.
  assert (F : exists r1 evs, vma_release_file mm p = Some (mm {{ mm_segs := <[p := r1]> (mm_segs mm); mm_events := evs }}) /\
    sg_refcount r1 = sg_refcount r /\ sg_released r1 = sg_released r /\
    sg_deferred_next r1 = sg_deferred_next r /\ forall q x, named evs q x = named (mm_events mm) q x).
  { assert (Hid : Some mm = Some (mm {{ mm_segs := <[p := r]> (mm_segs mm); mm_events := mm_events mm }}))
      by (f_equal; destruct mm; cbn in *; by rewrite insert_id).
    unfold vma_release_file. rewrite Hr. cbn [mbind option_bind].
    destruct (sg_file r) as [f|] eqn:Ef; [|by exists r, (mm_events mm)].
    destruct (has (sg_vm_flags r) VM_FILE); [|by exists r, (mm_events mm)].
    destruct (sg_file_vnode r); [destruct (has (sg_vm_flags r) VM_SHARED)|];
      (eexists _, _; split; [reflexivity|by repeat split]). }
  destruct F as (r1 & evs & E & H1 & H2 & H3 & Hn). unfold vma_release. rewrite E. cbn [mbind option_bind].
  set (mm1 := mm {{ mm_segs := _; mm_events := _ }}).
  assert (Hr1 : sg mm1 p = Some r1) by apply lookup_insert_eq.
  unfold vma_release_ipc. rewrite Hr1. cbn [mbind option_bind].
  set (mm2 := if has (sg_vm_flags r1) VM_SYSV_SHM then _ else mm1).
  assert (E2 : exists evs2, mm2 = mm1 {{ mm_events := evs2 }} /\ forall q x, named evs2 q x = named evs q x).
  { subst mm2. destruct (has (sg_vm_flags r1) VM_SYSV_SHM); [by eexists|]. exists evs. by destruct mm. }
  destruct E2 as (evs2 & -> & Hn2). change (sg (mm1 {{ mm_events := evs2 }}) p) with (sg mm1 p). rewrite Hr1.
  cbn [mbind option_bind].
  assert (Hsame : exists r' evs', Some (mm1 {{ mm_events := evs2 }}) =
    Some (mm {{ mm_segs := <[p := r']> (mm_segs mm); mm_events := evs' }}) /\
    sg_refcount r' = sg_refcount r /\ sg_released r' = sg_released r /\
    sg_deferred_next r' = sg_deferred_next r /\ forall q x, named evs' q x = named (mm_events mm) q x).
  { exists r1, evs2. split; [done|]. repeat (split; [done|]). intros q x. by rewrite Hn2. }
  destruct (sg_vmo r1) as [o|]; [|exact Hsame]. destruct (has (sg_vm_flags r1) VM_VMO); [|exact Hsame].
  eexists _, _. split.
  - unfold sg_set, log. cbn. by rewrite insert_insert_eq.
  - repeat (split; [done|]). intros q x. cbn. by rewrite Hn2.
Qed.

(** The record at the head of the queue. *)
Lemma queue_head X l ix p dq mm : base X l ix (p :: dq) mm ->
  exists r, mm_deferred_vma mm = Some p /\ sg mm p = Some r /\ sg_refcount r = 1 /\ sg_released r = false /\
    forall mm', mm_segs mm' = delete p (mm_segs mm) -> mm_mmap mm' = mm_mmap mm ->
      mm_deferred_vma mm' = sg_deferred_next r -> base X l ix dq mm'.
Proof.
  intros [B1 B2 B3 B4 B5 B6 B7 B8]. destruct B5 as (Hd & r & Hr & Hch).
  destruct (B8 p ltac:(by left)) as (Hl & Hi & Hx). apply list.NoDup_cons in B4 as [Hp B4].
  pose proof (B6 p) as R. rewrite Hr in R. unfold holders in R. rewrite (cnt_out p l.*1), (cnt_out p ix), cnt_cons,
    decide_True, (cnt_out p dq), Hx in R by done. destruct R as (R1 & _ & R2).
  exists r. split; [done|]. split; [done|]. split; [lia|]. split; [done|]. intros mm' E1 E2 E3.
  split; rewrite ?E1, ?E2, ?E3; [|done|done|done| | |done|].
  - destruct B1 as [lst B1]. exists lst. by apply dseg_delete.
  - revert Hch. generalize (sg_deferred_next r). clear -Hp. induction dq as [|q dq IH]; intros d; cbn [dchain]; [done|].
    apply list.not_elem_of_cons in Hp as [Hq Hp]. intros (-> & s & Hsq & H). split; [done|].
    exists s. rewrite lookup_delete_ne by done. split; [done|]. by apply IH.
  - intros q. specialize (B6 q). unfold holders in *. rewrite cnt_cons in B6 by done.
    destruct (decide (q = p)) as [->|].
    + rewrite lookup_delete_eq. rewrite (cnt_out p l.*1), (cnt_out p ix), (cnt_out p dq), Hx by done. done.
    + rewrite lookup_delete_ne by done. by rewrite Z.add_0_l in B6.
  - intros q Hq. apply B8. by right.
Qed.

(** One round of the flush. *)
Lemma flush_one mm p r : sg mm p = Some r -> sg_refcount r = 1 ->
  exists evs, (mm ← vma_release (sg_set mm p (r {{ sg_released := true }})) p; mm_seg_put mm p) =
      Some (mm {{ mm_segs := delete p (mm_segs mm); mm_events := evs }}) /\
    forall q x, named evs q x = named (mm_events mm) q x.
Proof.
  intros Hr Hc. destruct (vma_release_spec _ p _ (sg_eq mm p (r {{ sg_released := true }})))
    as (r' & evs & -> & E1 & E2 & _ & Hn). cbn [mbind option_bind]. set (mm1 := _ {{ mm_segs := _; mm_events := evs }}).
  assert (Hr1 : sg mm1 p = Some r') by apply lookup_insert_eq.
  unfold mm_seg_put, seg_dec_and_test. rewrite Hr1. cbn [mbind option_bind].
  change (sg_refcount (r {{ sg_released := true }})) with (sg_refcount r) in E1.
  rewrite E1, Hc. change (s32 (1 - 1) =? 0) with true. cbn iota. rewrite sg_eq. cbn [mbind option_bind].
  change (sg_released (r' {{ sg_refcount := s32 (1 - 1) }})) with (sg_released r').
  rewrite E2. change (sg_released (r {{ sg_released := true }})) with true. cbn [negb mbind option_bind].
  exists evs. split; [|exact Hn]. f_equal. unfold kfree, sg_set, mm1. cbn. by rewrite !delete_insert_eq.
Qed.

Lemma flush_loop_spec X l ix : forall dq n mm v w, base X l ix dq (mm {{ mm_mmap := w; mm_deferred_vma := v }}) -> (length dq < n)%nat ->
  exists h' evs, flush_loop n mm v = Some (mm {{ mm_segs := h'; mm_events := evs }}) /\
    base X l ix [] (mm {{ mm_segs := h'; mm_events := evs; mm_mmap := w; mm_deferred_vma := None }}) /\
    (forall q, mm_segs mm !! q = None -> h' !! q = None) /\ (forall q, q ∈ dq -> h' !! q = None) /\
    forall q x, named evs q x = named (mm_events mm) q x.
Proof.
  induction dq as [|p dq IH]; intros n mm v w B Hn.
  - pose proof (b_chain _ _ _ _ _ B) as Hv. cbn in Hv. subst v. exists (mm_segs mm), (mm_events mm).
    split; [destruct n; by destruct mm|]. split; [by eapply base_fields; [..|exact B]|].
    split; [done|]. split; [intros q Hq; by inversion Hq|done].
  - destruct n as [|n]; [cbn in Hn; lia|]. destruct (queue_head _ _ _ _ _ _ B) as (r & Hv & Hr & Hc & _ & HB).
    cbn in Hv. subst v. change (sg (mm {{ mm_mmap := w; mm_deferred_vma := Some p }}) p) with (sg mm p) in Hr.
    cbn [flush_loop]. rewrite Hr. cbn [mbind option_bind].
    destruct (flush_one mm p r Hr Hc) as (evs & E & Hnm). rewrite (bind_Some_assoc _ _ _ _ E).
    set (mm1 := mm {{ mm_segs := _; mm_events := evs }}).
    destruct (IH n mm1 (sg_deferred_next r) w) as (h' & evs' & -> & B' & D' & Q' & N'); [by apply HB|cbn in Hn; lia|].
    exists h', evs'. split; [by destruct mm|]. split; [by destruct mm|]. split; [|split].
    + intros q Hq. apply D'. change (delete p (mm_segs mm) !! q = None). apply lookup_delete_None. by right.
    + intros q [->|Hq]%list.elem_of_cons; [|by apply Q']. apply D'. apply lookup_delete_eq.
    + intros q x. by rewrite N', Hnm.
Qed.

Lemma queue_length h d dq : dchain h d dq -> NoDup dq -> (length dq <= size h)%nat.
Proof.
  intros H N. rewrite <- size_dom, <- (size_list_to_set (C := gset nat) dq) by done.
  apply subseteq_size. intros p Hp%elem_of_list_to_set. apply elem_of_dom. revert d H.
  induction dq as [|q dq IH]; intros d; [by inversion Hp|]. intros (-> & r & Hr & H).
  apply list.elem_of_cons in Hp as [->|Hp]; [by exists r|]. apply list.NoDup_cons in N as [_ N]. by apply (IH N Hp _ H).
Qed.

Lemma flush_spec X l mm : inv X l mm ->
  exists mm', mm_vma_flush_deferred mm = Some mm' /\ inv X l mm' /\ limits mm' = limits mm /\
    mm_deferred_vma mm' = None /\ (forall q x, named (mm_events mm') q x = named (mm_events mm) q x).
Proof.
  intros (Hs & [A1 A2] & ix & dq & [B L S C St]). unfold mm_vma_flush_deferred. set (mm0 := mm {{ mm_deferred_vma := None }}).
  destruct (flush_loop_spec X l ix dq (fuel mm) mm0 (mm_deferred_vma mm) (mm_mmap mm)) as (h' & evs & -> & B' & D' & _ & N').
  { eapply base_fields; [..|exact B]; reflexivity. }
  { unfold fuel. pose proof (queue_length _ _ _ (b_chain _ _ _ _ _ B) (b_dq _ _ _ _ _ B)). lia. }
  eexists. split; [reflexivity|]. split; [|done]. split; [exact Hs|]. split.
  - split; [exact A1|]. intros p Hp. apply D'. by apply A2.
  - exists ix, []. split; [by eapply base_fields; [..|exact B']|exact L|exact S|exact C|exact St].
Qed.

(** A holder outside the address space lets go. *)
Definition sub1 (X : nat -> Z) (p q : nat) : Z := if decide (q = p) then X q - 1 else X q.

Lemma put_last X l ix dq mm p r : base X l ix dq mm -> sg mm p = Some r -> sg_refcount r = 1 -> 0 < X p ->
  forall mm', mm_segs mm' = delete p (mm_segs mm) -> mm_mmap mm' = mm_mmap mm ->
    mm_deferred_vma mm' = mm_deferred_vma mm -> base (sub1 X p) l ix dq mm'.
Proof.
  intros [B1 B2 B3 B4 B5 B6 B7 B8] Hr Hc Hx mm' E1 E2 E3.
  pose proof (B6 p) as R. unfold sg in Hr. rewrite Hr, Hc in R. destruct R as (R & _). unfold holders in R.
  pose proof (cnt_range p l.*1). pose proof (cnt_range p ix). pose proof (cnt_range p dq).
  assert (Hl : p ∉ l.*1) by (intros ?%cnt_in; lia). assert (Hi : p ∉ ix) by (intros ?%cnt_in; lia).
  assert (Hd : p ∉ dq) by (intros ?%cnt_in; lia).
  split; rewrite ?E1, ?E2, ?E3; [|done|done|done| | | |].
  - destruct B1 as [lst B1]. exists lst. by apply dseg_delete.
  - revert B5. generalize (mm_deferred_vma mm). clear -Hd. induction dq as [|q dq IH]; intros d; cbn [dchain]; [done|].
    apply list.not_elem_of_cons in Hd as [Hq Hd]. intros (-> & s & Hsq & H). split; [done|].
    exists s. rewrite lookup_delete_ne by done. split; [done|]. by apply IH.
  - intros q. specialize (B6 q). unfold holders, sub1 in *. destruct (decide (q = p)) as [->|].
    + rewrite lookup_delete_eq. lia.
    + rewrite lookup_delete_ne by done. done.
  - intros q. specialize (B7 q). unfold sub1. destruct (decide (q = p)) as [->|]; lia.
  - intros q Hq. unfold sub1. destruct (decide (q = p)) as [->|]; [done|]. by apply B8.
Qed.

Lemma put_more X l ix dq mm p r : base X l ix dq mm -> sg mm p = Some r -> sg_refcount r <> 1 -> 0 < X p ->
  base (sub1 X p) l ix dq (sg_set mm p (r {{ sg_refcount := sg_refcount r - 1 }})).
Proof.
  intros [B1 B2 B3 B4 B5 B6 B7 B8] Hr Hc Hx. unfold sg in Hr.
  assert (Hd : p ∉ dq) by (intros Hin; destruct (B8 p Hin) as (_ & _ & ?); lia).
  split; [|done|done|done| | | |].
  - destruct B1 as [lst B1]. exists lst. by apply (dseg_same _ _ r).
  - by apply dchain_frame.
  - intros q. specialize (B6 q). unfold holders, sub1 in *.
    change (mm_segs (sg_set mm p (r {{ sg_refcount := sg_refcount r - 1 }})) !! q)
      with (<[p := r {{ sg_refcount := sg_refcount r - 1 }}]> (mm_segs mm) !! q).
    destruct (decide (q = p)) as [->|].
    + rewrite lookup_insert_eq. rewrite Hr in B6. destruct B6 as (R1 & R2 & R3).
      change (sg_refcount (r {{ sg_refcount := sg_refcount r - 1 }})) with (sg_refcount r - 1).
      repeat split; [lia|lia|exact R3].
    + rewrite lookup_insert_ne by done. done.
  - intros q. specialize (B7 q). unfold sub1. destruct (decide (q = p)) as [->|]; lia.
  - intros q Hq. unfold sub1. destruct (decide (q = p)) as [->|]; [done|]. by apply B8.
Qed.

Lemma inv_alive X l mm p : inv X l mm -> 0 < X p ->
  exists r, sg mm p = Some r /\ sg_released r = false /\ 0 < sg_refcount r <= 2147483003.
Proof.
  intros (_ & _ & ix & dq & G) Hx. pose proof (g_base _ _ _ _ _ G) as B.
  pose proof (holders_bound _ _ _ _ _ p B) as Hb. destruct (base_alive _ _ _ _ _ p B) as (r & Hr & Hc & Hl).
  - unfold holders. pose proof (cnt_range p l.*1). pose proof (cnt_range p ix). pose proof (cnt_range p dq). lia.
  - exists r. split; [done|]. split; [done|]. rewrite Hc. unfold holders in *.
    pose proof (cnt_range p l.*1). pose proof (cnt_range p ix). pose proof (cnt_range p dq). lia.
Qed.

Lemma small_sub1 X p : small X -> 0 < X p -> small (sub1 X p).
Proof. intros H Hx q. specialize (H q). unfold sub1. destruct (decide (q = p)) as [->|]; lia. Qed.

Lemma inv_shrink X X' l mm h' evs : inv X l mm -> small X' ->
  (forall q, mm_segs mm !! q = None -> h' !! q = None) ->
  (forall ix dq, base X l ix dq mm -> base X' l ix dq (mm {{ mm_segs := h'; mm_events := evs }})) ->
  inv X' l (mm {{ mm_segs := h'; mm_events := evs }}).
Proof.
  intros (_ & [A1 A2] & ix & dq & [B L S C St]) Hs D HB. split; [exact Hs|]. split.
  - split; [exact A1|]. intros p Hp. apply D. by apply A2.
  - exists ix, dq. split; [by apply HB|exact L|exact S|exact C|exact St].
Qed.

(** [mm_seg_put]: the last holder frees the record. *)
Lemma seg_put_spec X l mm p : inv X l mm -> 0 < X p ->
  exists mm', mm_seg_put mm p = Some mm' /\ inv (sub1 X p) l mm' /\ limits mm' = limits mm /\
    forall q x, named (mm_events mm') q x = named (mm_events mm) q x.
Proof.
  intros I Hx. destruct (inv_alive _ _ _ _ I Hx) as (r & Hr & Hl & Hc). pose proof (small_sub1 X p (proj1 I) Hx) as Hs.
  unfold mm_seg_put, seg_dec_and_test. rewrite Hr. cbn [mbind option_bind]. rewrite s32_small by lia.
  destruct (Z.eqb_spec (sg_refcount r - 1) 0) as [Hz|Hz].
  - rewrite sg_eq. cbn [mbind option_bind].
    change (sg_released (r {{ sg_refcount := sg_refcount r - 1 }})) with (sg_released r). rewrite Hl. cbn [negb].
    match goal with |- context [vma_release ?m p] => destruct (vma_release_spec m p _ (sg_eq _ p _)) as (r' & evs & -> & _ & _ & _ & Hn) end.
    cbn [mbind option_bind]. eexists. split; [reflexivity|].
    match goal with |- inv _ _ ?m /\ _ =>
      replace m with (mm {{ mm_segs := delete p (mm_segs mm); mm_events := evs }})
        by (unfold kfree, sg_set; cbn; by rewrite !delete_insert_eq) end.
    split; [|split; [done|exact Hn]].
    apply (inv_shrink X); [done|done| |].
    + intros q Hq. apply lookup_delete_None. by right.
    + intros ix dq B. apply (put_last X l ix dq mm p r); try done. lia.
  - eexists. split; [reflexivity|]. split; [|done].
    replace (sg_set mm p (r {{ sg_refcount := sg_refcount r - 1 }}))
      with (mm {{ mm_segs := <[p := r {{ sg_refcount := sg_refcount r - 1 }}]> (mm_segs mm); mm_events := mm_events mm }})
      by (by destruct mm).
    apply (inv_shrink X); [done|done| |].
    + intros q Hq. rewrite lookup_insert_ne; [done|]. unfold sg in Hr. congruence.
    + intros ix dq B. eapply base_fields; [..|apply (put_more X l ix dq mm p r); [exact B|done|lia|done]]; reflexivity.
Qed.

(** A lookup takes a reference for its caller. *)
Lemma seg_get_spec X l mm p c : inv X l mm -> (p, c) ∈ l -> X p < 2147480000 ->
  exists mm', mm_seg_get mm p = Some mm' /\ inv (add1 X p) l mm' /\ limits mm' = limits mm /\
    mm_events mm' = mm_events mm.
Proof.
  intros (Hs & A & ix & dq & [B L S C St]) Hp Hx.
  assert (Hin : p ∈ l.*1) by (apply list_elem_of_fmap; by exists (p, c)).
  destruct (get_spec X l ix dq mm p B) as (h' & E & Sm & B').
  - unfold holders. rewrite (cnt_in p l.*1) by done. pose proof (cnt_range p ix). pose proof (cnt_range p dq).
    specialize (Hs p). lia.
  - intros Hq. by destruct (b_only _ _ _ _ _ B p Hq).
  - specialize (Hs p). lia.
  - exists (mm {{ mm_segs := h' }}). split; [exact E|]. split; [|done]. split.
    + intros q. specialize (Hs q). unfold add1. destruct (decide (q = p)) as [->|]; lia.
    + split; [apply (al_ok_dom mm); [by apply same_map_dom|done|done]|].
      exists ix, dq. split; [exact B'|exact L|exact S|exact C|exact St].
Qed.

(** ** The end of an address space *)

Lemma put_frame mm p w mm' : vma_put (mm {{ mm_mmap := w }}) (Some p) = Some mm' ->
  vma_put mm (Some p) = Some (mm' {{ mm_mmap := mm_mmap mm }}).
Proof.
  destruct mm. unfold vma_put, seg_dec_and_test, mm_seg_get, sg_upd, sg. cbn.
  destruct (_ !! p) as [r|]; [|done]. cbn. destruct (_ =? 0).
  - rewrite lookup_insert_eq. cbn. rewrite lookup_insert_eq. cbn. by intros [= <-].
  - by intros [= <-].
Qed.

(** The references of the list, given up one after the other. *)
Definition plus (X : nat -> Z) (l : list nat) (p : nat) : Z := X p + cnt p l.

Lemma destroy_loop_spec X : forall l n mm v m lst dq, small X ->
  base (plus X l.*1) [] [] dq (mm {{ mm_mmap := None }}) -> NoDup l.*1 -> dseg (mm_segs mm) m v l lst None ->
  (length l < n)%nat ->
  exists mm' dq', destroy_loop n mm v = Some mm' /\ base X [] [] dq' (mm' {{ mm_mmap := None }}).
Proof.
  induction l as [|[p c] l IH]; intros n mm v m lst dq Hs B N Hd Hn.
  - destruct Hd as [_ <-]. exists mm, dq. split; [by destruct n|]. eapply base_X; [|exact B].
    intros p. unfold plus, cnt. rewrite decide_False; [lia|]. apply not_elem_of_nil.
  - destruct n as [|n]; [cbn in Hn; lia|]. destruct Hd as (-> & r & Hr & Hc & _ & Hd).
    cbn [fmap list_fmap fst] in *. apply list.NoDup_cons in N as [Np N].
    cbn [destroy_loop]. unfold sg. rewrite Hr. cbn [mbind option_bind].
    assert (B1 : base (add1 (plus X l.*1) p) [] [] dq (mm {{ mm_mmap := None }})).
    { eapply base_X; [|exact B]. intros q. unfold plus, add1. rewrite cnt_cons by done.
      destruct (decide (q = p)); lia. }
    destruct (put_spec _ _ _ _ _ p B1) as (h' & d' & dq' & E & S & B2 & _).
    { unfold plus. pose proof (cnt_range p l.*1). specialize (Hs p). lia. }
    apply put_frame in E. rewrite E. cbn [mbind option_bind].
    apply (IH n _ (sg_next r) (Some p) lst dq'); [done| |done| |cbn in Hn; lia].
    + by eapply base_fields; [..|exact B2].
    + by apply (dseg_same_map (mm_segs mm)).
Qed.

Lemma destroy_spec X l mm : inv X l mm ->
  exists mm', mm_destroy mm = Some mm' /\ forall p, mm_segs mm' !! p = None <-> X p = 0.
Proof.
  intros I. unfold mm_destroy. destruct (flush_spec X l mm I) as (mm1 & -> & I1 & _). cbn [mbind option_bind].
  destruct I1 as (Hs & A & ix & dq & G). destruct (index_clear_spec X l ix dq mm1 Hs G) as (mm2 & dq2 & -> & G2 & _).
  cbn [mbind option_bind]. pose proof (g_base _ _ _ _ _ G2) as B2. pose proof (b_nodup _ _ _ _ _ B2) as N.
  destruct (b_list _ _ _ _ _ B2) as [lst Hd].
  assert (Hf : (length l < fuel mm2)%nat).
  { unfold fuel. pose proof (seglist_size _ _ _ (b_list _ _ _ _ _ B2) N). lia. }
  destruct (destroy_loop_spec X l (fuel mm2) mm2 (mm_mmap mm2) None lst dq2 Hs) as (mm3 & dq3 & -> & B3); try done.
  { apply (base_relink X _ l _ _ _ mm2); [exact B2|apply same_refs_refl|reflexivity|by exists None|constructor| |].
    - intros p. unfold plus, cnt at 1. rewrite decide_False by apply not_elem_of_nil. lia.
    - intros p. unfold plus. pose proof (cnt_range p l.*1). specialize (Hs p). lia. }
  cbn [mbind option_bind]. unfold mm_vma_flush_deferred.
  destruct (flush_loop_spec X [] [] dq3 (fuel mm3) (mm3 {{ mm_deferred_vma := None }}) (mm_deferred_vma mm3) None)
    as (h' & evs & -> & B4 & _).
  { by eapply base_fields; [..|exact B3]. }
  { unfold fuel. pose proof (queue_length (mm_segs mm3) _ _ (b_chain _ _ _ _ _ B3) (b_dq _ _ _ _ _ B3)). lia. }
  eexists. split; [reflexivity|]. intros p.
  assert (R : match h' !! p with
              | Some r => sg_refcount r = holders X [] [] [] p /\ 0 < holders X [] [] [] p /\ sg_released r = false
              | None => holders X [] [] [] p = 0
              end) by exact (b_refs _ _ _ _ _ B4 p).
  unfold holders in R. change (([] : list (nat * seg_core)).*1) with ([] : list nat) in R.
  rewrite !(cnt_out p []) in R by apply not_elem_of_nil.
  change (h' !! p = None <-> X p = 0). destruct (h' !! p); [split; [done|lia]|]. split; [lia|done].
Qed.
