(* ===== verification/AddrHist.v ===== *)
(** * Address spaces: histories of calls

    Any sequence of the calls on an address space, with lookups that hold
    records and holders that let them go, and flushes of the release queue in
    between.  A VMO mapping with a hint is part of a history when its range is
    wholly free or its start is mapped; the remaining case is the subject of
    [AddrLimits]. *)

From stdpp Require Import gmap.
From S2P Require Import Prelude AddrSpace AddrTheory AddrOps AddrView AddrUnmap AddrProtect AddrMap AddrRefs.

(** ** Calls *)

Inductive mm_call :=
  | Munmap (addr len : Z)
  | Mprotect (addr len prot : Z)
  | Mseal (addr len : Z)
  | Mmap (addr len prot flags : Z)
  | MmapFile (addr len prot flags file : Z) (vnode : option Z) (off : Z)
  | MmapVmo (addr len prot flags vmo size off : Z)
  | Brk (newbrk : Z)
  | Hold (addr : Z)
  | Drop (p : nat)
  | Flush.

(** Calls with the answers they get from the allocator and the page loops. *)
Abbreviation history := (list (mm_call * list (option nat) * list Z)).

Section Histories.

Context {arch : MmArch} {ok : MmArchOk arch}.
Variables (policy : wx_policy) (host : bool) (memlock : Z) (cap : bool).

(** A call with the answers it gets from the allocator and the page loops. *)
Definition answered (mm : mm_struct_t) (al : list (option nat)) (pl : list Z) : mm_struct_t :=
  mm {{ mm_kcalloc := al; mm_page_loops := pl }}.

Definition do_call (mm : mm_struct_t) (c : mm_call) : option (mm_struct_t * Z) :=
  match c with
  | Munmap a n => mm_munmap_locked mm a n
  | Mprotect a n p => mm_mprotect_locked policy host mm a n p
  | Mseal a n => mm_mseal_locked mm a n
  | Mmap a n p f => mm_mmap_locked policy host memlock cap mm a n p f
  | MmapFile a n p f file vn off => mm_mmap_file_locked policy host memlock cap mm a n p f file vn off
  | MmapVmo a n p f vmo sz off => mm_mmap_vmo_locked policy host mm a n p f vmo sz off
  | Brk b => mm_brk_locked mm b
  | Hold a =>
      '(mm, v) ← mm_seg_find mm a;
      mm ← vma_get mm v;
      Some (mm, match v with Some p => Z.of_nat p | None => - 1 end)
  | Drop p => mm ← mm_seg_put mm p; Some (mm, 0)
  | Flush => mm ← mm_vma_flush_deferred mm; Some (mm, 0)
  end.

(** The references outside the address space after a call. *)
Definition held (X : nat -> Z) (c : mm_call) (r : Z) : nat -> Z :=
  match c with
  | Hold _ => if r <? 0 then X else add1 X (Z.to_nat r)
  | Drop p => sub1 X p
  | _ => X
  end.

(** The list of an address space, by a walk. *)
Fixpoint walk (n : nat) (mm : mm_struct_t) (v : option nat) : option (list (nat * seg_core)) :=
  match v, n with
  | None, _ => Some []
  | Some p, S n' => r ← sg mm p; l ← walk n' mm (sg_next r); Some ((p, core r) :: l)
  | Some _, O => None
  end.

Definition mappings (mm : mm_struct_t) : option (list (nat * seg_core)) := walk (fuel mm) mm (mm_mmap mm).

(** What callers promise: 64-bit arguments, only references that are held are
    dropped, and a hint for a VMO either lies in a mapping or has its whole
    range free (the call itself tests only the first address, and maps over a
    mapping that begins later in the range). *)
Definition call_ok (X : nat -> Z) (mm : mm_struct_t) (c : mm_call) : Prop :=
  match c with
  | Munmap a _ | Mprotect a _ _ | Mseal a _ | Mmap a _ _ _ | MmapFile a _ _ _ _ _ _ => in_u64 a
  | MmapVmo a n _ f _ _ _ => in_u64 a /\
      (a = 0 \/ wants a f = true \/ exists l, mappings mm = Some l /\ hint_clear l a (page_up n))
  | Brk b => in_u64 b
  | Drop p => 0 < X p
  | Hold _ | Flush => True
  end.

(** What the allocator promises: records that are not in use, no one twice. *)
Definition answers_ok (mm : mm_struct_t) (al : list (option nat)) : Prop :=
  NoDup (omap id al) /\ forall p, (Some p ∈ al) -> mm_segs mm !! p = None.

(** An address space with the list [l] of mappings. *)
Record space (X : nat -> Z) (l : list (nat * seg_core)) (mm : mm_struct_t) : Prop := {
  sp_inv : inv X l mm;
  sp_ordered : ordered 0 l;
  sp_low : low l;
  sp_base : in_u64 (mm_mmap_base mm);
}.

Lemma mappings_spec X l mm : space X l mm -> mappings mm = Some l.
Proof.
  intros [I _ _ _]. unfold mappings. pose proof (inv_fuel _ _ _ I) as Hf. destruct (inv_list _ _ _ I) as [[lst Hd] _].
  revert Hf Hd. generalize (fuel mm), (mm_mmap mm), (None : option nat) at 1. clear.
  induction l as [|[p c] l IH]; intros n v m Hn Hd.
  - destruct Hd as [_ <-]. by destruct n.
  - destruct n as [|n]; [cbn in Hn; lia|]. destruct Hd as (-> & r & Hr & <- & _ & Hd). cbn [walk].
    unfold sg at 1. rewrite Hr. cbn [mbind option_bind]. rewrite (IH n (sg_next r) (Some p)); [done|cbn in Hn; lia|done].
Qed.

(** ** What no call does *)

Definition is_sealed (a : Z * Z * option (option Z * Z) * option Z) : bool :=
  let '(f, _, _, _) := a in has f VM_SEALED.

(** Sealed addresses keep their meaning. *)
Definition keeps_sealed (l l' : list (nat * seg_core)) : Prop :=
  forall x a, view l x = Some a -> is_sealed a = true -> view l' x = Some a.

(** Nothing is both writable and executable. *)
Definition no_wx (l : list (nat * seg_core)) : Prop :=
  forall x f p pl s, view l x = Some (f, p, pl, s) -> ~ (has f VM_WRITE = true /\ has f VM_EXEC = true).

Lemma view_record l x a : view l x = Some a -> exists p c, (p, c) ∈ l /\ c_start c <= x < c_end c /\ a = attr c x.
Proof.
  unfold view. destruct (seg_at l x) as [[p c]|] eqn:E; [|done]. intros [= <-].
  apply seg_at_Some in E as [Hin Hx]. by exists p, c.
Qed.

Lemma attr_sealed c x : is_sealed (attr c x) = sealed c.
Proof. done. Qed.

(** A range without sealed mappings has no sealed address. *)
Lemma unsealed_range l addr e x a : (forall p c, (p, c) ∈ l -> meets addr e c -> sealed c = false) ->
  addr <= x < e -> view l x = Some a -> is_sealed a = false.
Proof.
  intros H Hx (p & c & Hc & Hr & ->)%view_record. rewrite attr_sealed. apply (H p c Hc). split; lia.
Qed.

Lemma keeps_removed l l' addr m e : (forall p c, (p, c) ∈ l -> meets addr e c -> sealed c = false) -> m <= e ->
  removed addr m l l' -> keeps_sealed l l'.
Proof.
  intros H Hm [_ V] x a Hx Hs. rewrite V. destruct (inside addr m x) eqn:E; [|done]. apply inside_true in E.
  rewrite (unsealed_range l addr e x a H) in Hs; [done|lia|done].
Qed.

Lemma sealed_refl l : keeps_sealed l l.
Proof. by intros x a. Qed.

Lemma sealed_trans l1 l2 l3 : keeps_sealed l1 l2 -> keeps_sealed l2 l3 -> keeps_sealed l1 l3.
Proof. intros H1 H2 x a Hx Hs. apply H2; [|done]. by apply H1. Qed.

Lemma keeps_view l l' : (forall x, view l' x = view l x) -> keeps_sealed l l'.
Proof. intros V x a Hx _. by rewrite V. Qed.

Lemma seal_attr_id a : is_sealed a = true -> seal_attr a = a.
Proof.
  destruct a as [[[f p] pl] s]. unfold is_sealed, seal_attr, has, c_true. intros H.
  apply negb_true_iff, Z.eqb_neq in H. repeat f_equal. apply Z.bits_inj'. intros n Hn. rewrite Z.lor_spec.
  change VM_SEALED with (2 ^ 18) in *. rewrite Z.pow2_bits_eqb by lia.
  destruct (Z.eqb_spec 18 n) as [<-|]; [|by rewrite orb_false_r]. rewrite orb_true_r.
  destruct (Z.testbit f 18) eqn:E; [done|]. exfalso. apply H. apply Z.bits_inj'. intros k Hk.
  rewrite Z.land_spec, Z.pow2_bits_eqb, Z.bits_0 by lia. destruct (Z.eqb_spec 18 k) as [<-|]; [by rewrite E|].
  apply andb_false_r.
Qed.

Lemma keeps_munmap mm l addr len r l' : munmap_outcome mm l addr len r l' -> keeps_sealed l l'.
Proof.
  unfold munmap_outcome. cbv zeta. destruct (negb _); [intros [_ ->]; apply sealed_refl|].
  destruct (_ =? _); [intros [_ ->]; apply sealed_refl|].
  destruct (_ || _); [intros [_ ->]; apply sealed_refl|].
  intros [(_ & V & S)|[(_ & -> & _)|[(_ & -> & _)|(_ & S & m & Hm & V)]]]; try apply sealed_refl;
    (eapply keeps_removed; [|..|exact V]; [intros p c Hc Hmt; by apply (S p c)|lia]).
Qed.

Lemma keeps_protected ptef vp addr m e l l' : ~ flagged l addr e VM_SEALED -> m <= e ->
  protected ptef vp addr m l l' -> keeps_sealed l l'.
Proof.
  intros Hf Hm [_ V] x a Hx Hs. rewrite V. destruct (inside addr m x) eqn:E; [|done]. apply inside_true in E.
  exfalso. apply Hf. apply view_record in Hx as (p & c & Hc & Hr & ->). exists p, c. split; [done|].
  split; [split; lia|exact Hs].
Qed.

Lemma keeps_mprotect mm l addr len prot r l' :
  mprotect_outcome policy host mm l addr len prot r l' -> keeps_sealed l l'.
Proof.
  unfold mprotect_outcome. cbv zeta. destruct (_ || _); [intros [_ ->]; apply sealed_refl|].
  destruct (_ =? _); [intros [_ ->]; apply sealed_refl|]. destruct (_ <? 0); [intros [_ ->]; apply sealed_refl|].
  destruct (_ || _); [intros [_ ->]; apply sealed_refl|].
  intros [(_ & -> & _)|(_ & [(_ & -> & _)|(Hf & [(_ & V)|[(_ & _ & V)|(_ & _ & m & Hm & V)]])])]; try apply sealed_refl.
  - by eapply keeps_protected; [exact Hf| |exact V].
  - by apply keeps_view, V.
  - by eapply keeps_protected; [exact Hf| |exact V].
Qed.

Lemma keeps_mseal mm l addr len r l' : mseal_outcome mm l addr len r l' -> keeps_sealed l l'.
Proof.
  unfold mseal_outcome. cbv zeta. destruct (c_true _); [intros [_ ->]; apply sealed_refl|].
  destruct (_ =? _); [intros [_ ->]; apply sealed_refl|]. destruct (_ || _); [intros [_ ->]; apply sealed_refl|].
  intros [(_ & -> & _)|(_ & [(_ & -> & _)|(_ & [(_ & _ & V)|(_ & _ & V)])])]; try apply sealed_refl.
  - intros x a Hx Hs. rewrite V, Hx. destruct (inside _ _ x); [|done]. cbn [fmap option_fmap option_map].
    by rewrite seal_attr_id.
  - by apply keeps_view, V.
Qed.

Lemma keeps_mmap lim mm l early addr len flags att r l' :
  mmap_outcome lim mm l early addr len flags att r l' -> keeps_sealed l l'.
Proof.
  unfold mmap_outcome. destruct (early <? 0); [intros [_ ->]; apply sealed_refl|].
  intros [(H1 & H2 & V & W)|(_ & [->|(_ & S & m & Hm & V)] & _)]; [|apply sealed_refl|].
  - intros x a Hx Hs. rewrite V. destruct (inside r (r + len) x) eqn:E; [|done]. apply inside_true in E.
    destruct (wants addr flags).
    + destruct W as [_ W]. by rewrite (unsealed_range l r (r + len) x a W E Hx) in Hs.
    + destruct W as [W _]. by rewrite (free_view l r (r + len) x W E) in Hx.
  - eapply keeps_removed; [exact S| |exact V]. lia.
Qed.

Lemma keeps_brk mm l newbrk r mm' l' : brk_outcome mm l newbrk r mm' l' -> keeps_sealed l l'.
Proof.
  intros (_ & [(_ & ->)|(_ & _ & H)]); [apply sealed_refl|].
  destruct (_ && _); [|subst; apply sealed_refl]. destruct H as [F V]. intros x a Hx Hs. rewrite V.
  destruct (inside _ _ x) eqn:E; [|done]. apply inside_true in E. by rewrite (free_view l _ _ x F E) in Hx.
Qed.

(** ** User addresses only *)

Lemma low_removed l l' addr m : low l -> removed addr m l l' -> low l'.
Proof. intros L [_ V] x Hx. rewrite V, (L x Hx). by destruct (inside _ _ x). Qed.

Lemma low_munmap mm l addr len r l' : low l -> munmap_outcome mm l addr len r l' -> low l'.
Proof.
  intros L. unfold munmap_outcome. cbv zeta. destruct (negb _); [by intros [_ ->]|]. destruct (_ =? _); [by intros [_ ->]|].
  destruct (_ || _); [by intros [_ ->]|].
  intros [(_ & V & _)|[(_ & -> & _)|[(_ & -> & _)|(_ & _ & m & _ & V)]]]; try done; by apply (low_removed _ _ _ _ L V).
Qed.

Lemma low_view l l' : low l -> (forall x, view l' x = view l x) -> low l'.
Proof. intros L V x Hx. by rewrite V, L. Qed.

Lemma low_mprotect mm l addr len prot r l' : low l -> mprotect_outcome policy host mm l addr len prot r l' -> low l'.
Proof.
  intros L. unfold mprotect_outcome. cbv zeta. destruct (_ || _); [by intros [_ ->]|].
  destruct (_ =? _); [by intros [_ ->]|]. destruct (_ <? 0); [by intros [_ ->]|]. destruct (_ || _); [by intros [_ ->]|].
  intros [(_ & -> & _)|(_ & [(_ & -> & _)|(_ & [(_ & _ & V)|[(_ & _ & V)|(_ & _ & m & _ & _ & V)]])])]; try done.
  - intros x Hx. rewrite V, (L x Hx). by destruct (inside _ _ x).
  - by apply (low_view l), V.
  - intros x Hx. rewrite V, (L x Hx). by destruct (inside _ _ x).
Qed.

Lemma low_mseal mm l addr len r l' : low l -> mseal_outcome mm l addr len r l' -> low l'.
Proof.
  intros L. unfold mseal_outcome. cbv zeta. destruct (c_true _); [by intros [_ ->]|].
  destruct (_ =? _); [by intros [_ ->]|]. destruct (_ || _); [by intros [_ ->]|].
  intros [(_ & -> & _)|(_ & [(_ & -> & _)|(_ & [(_ & _ & V)|(_ & _ & V)])])]; try done.
  - intros x Hx. rewrite V, (L x Hx). by destruct (inside _ _ x).
  - by apply (low_view l), V.
Qed.

Lemma low_mmap lim mm l early addr len flags att r l' : low l -> mmap_outcome lim mm l early addr len flags att r l' -> low l'.
Proof.
  intros L. unfold mmap_outcome. destruct (early <? 0); [by intros [_ ->]|].
  intros [(H1 & H2 & V & _)|(_ & [->|(_ & _ & m & _ & V)] & _)]; [|done|by apply (low_removed _ _ _ _ L V)].
  intros x Hx. rewrite V, (proj2 (inside_false _ _ _)) by lia. by apply L.
Qed.

Lemma low_brk mm l newbrk r mm' l' : in_u64 newbrk -> low l -> brk_outcome mm l newbrk r mm' l' -> low l'.
Proof using ok.
  intros Hnb L (_ & [(_ & ->)|(_ & Hb & H)]); [done|]. destruct (_ && _); [|by subst]. destruct H as [_ V].
  intros x Hx. rewrite V. pose proof lim_ok. pose proof lim_page as Hp.
  assert (Hn : page_up newbrk <= USER_VA_LIMIT).
  { rewrite page_up_eq. pose proof (u64_range (newbrk + 4095)) as Hu. unfold in_u64 in Hu.
    unfold in_u64 in Hnb. rewrite u64_small in * by (unfold in_u64; lia). zlia. }
  rewrite (proj2 (inside_false _ _ _)) by lia. by apply L.
Qed.

(** ** Writable or executable *)

Lemma land_bit a k : 0 <= k -> Z.land a (2 ^ k) = if Z.testbit a k then 2 ^ k else 0.
Proof.
  intros Hk. apply Z.bits_inj'. intros n Hn. rewrite Z.land_spec, Z.pow2_bits_eqb by lia.
  destruct (Z.eqb_spec k n) as [<-|Hne].
  - rewrite andb_true_r. destruct (Z.testbit a k); [by rewrite Z.pow2_bits_true|by rewrite Z.bits_0].
  - rewrite andb_false_r. destruct (Z.testbit a k); [by rewrite Z.pow2_bits_false|by rewrite Z.bits_0].
Qed.

Lemma has_2 a : has a 2 = Z.testbit a 1.
Proof. unfold has, c_true. change 2 with (2 ^ 1). rewrite land_bit by lia. by destruct (Z.testbit a 1). Qed.

Lemma has_4 a : has a 4 = Z.testbit a 2.
Proof. unfold has, c_true. change 4 with (2 ^ 2). rewrite land_bit by lia. by destruct (Z.testbit a 2). Qed.

Definition wx_free (prot : Z) : Prop := ~ (has prot 2 = true /\ has prot 4 = true).

(** The policy lets nothing through that is both. *)
Lemma filter_wx prot : policy <> MM_WX_OFF -> host = false -> 0 <= mm_wx_filter_prot policy host prot ->
  wx_free (mm_wx_filter_prot policy host prot).
Proof.
  intros Hp Hh. unfold mm_wx_filter_prot, wx_free. rewrite Hh. change (Z.lor PROT_WRITE PROT_EXEC) with 6.
  rewrite has_2, has_4. destruct (Z.eqb_spec (Z.land prot 6) 6) as [E|E]; cbn [negb].
  - destruct policy; [done| |done]. intros _. rewrite Z.ldiff_spec. change PROT_WRITE with (2 ^ 1).
    rewrite Z.pow2_bits_true by lia. cbn. rewrite andb_false_r. by intros [? _].
  - intros _ [H1 H2]. apply E. change 6 with (Z.lor (2 ^ 1) (2 ^ 2)).
    by rewrite Z.land_lor_distr_r, !land_bit, H1, H2 by lia.
Qed.

(** The flags of a mapping have the bits of the protection. *)
Lemma anon_wx mm prot flags : wx_free prot -> wx_free (locked_flags mm (anon_flags prot flags)).
Proof.
  unfold wx_free, locked_flags, anon_flags, prot_vm_flags, when. intros H.
  destruct (has prot 2) eqn:E2, (has prot 4) eqn:E4; [by destruct H| | |];
    destruct (has prot 1), (has flags MAP_SHARED), (has flags MAP_HUGETLB), (has (mm_def_flags mm) VM_LOCKED);
    vm_compute; intros [? ?]; done.
Qed.

Lemma file_wx mm prot flags : wx_free prot -> wx_free (locked_flags mm (file_flags prot flags)).
Proof.
  unfold wx_free, locked_flags, file_flags, prot_vm_flags, when. intros H.
  destruct (has prot 2) eqn:E2, (has prot 4) eqn:E4; [by destruct H| | |];
    destruct (has prot 1), (has flags MAP_SHARED), (has flags MAP_HUGETLB), (has (mm_def_flags mm) VM_LOCKED);
    vm_compute; intros [? ?]; done.
Qed.

Lemma vmo_wx prot flags : wx_free prot -> wx_free (vmo_flags prot flags).
Proof.
  unfold wx_free, vmo_flags, prot_vm_flags, when. intros H.
  destruct (has prot 2) eqn:E2, (has prot 4) eqn:E4; [by destruct H| | |];
    destruct (has prot 1), (has flags MAP_SHARED); vm_compute; intros [? ?]; done.
Qed.

Lemma set_rwx_wx f prot : wx_free prot -> wx_free (set_rwx (prot_vm_flags prot 0) f).
Proof.
  unfold wx_free. rewrite !has_2, !has_4. unfold set_rwx. rewrite !Z.lor_spec, !Z.ldiff_spec.
  change (Z.testbit 7 1) with true. change (Z.testbit 7 2) with true. rewrite !andb_false_r. cbn [orb].
  rewrite <- !has_2, <- !has_4. unfold prot_vm_flags, when. intros H.
  destruct (has prot 2), (has prot 4); [by destruct H| | |]; destruct (has prot 1); vm_compute; intros [? ?]; done.
Qed.

Lemma wx_removed l l' addr m : no_wx l -> removed addr m l l' -> no_wx l'.
Proof. intros W [_ V] x f p pl s. rewrite V. destruct (inside _ _ x); [done|]. apply W. Qed.

Lemma wx_view l l' : no_wx l -> (forall x, view l' x = view l x) -> no_wx l'.
Proof. intros W V x f p pl s. rewrite V. apply W. Qed.

Lemma wx_munmap mm l addr len r l' : no_wx l -> munmap_outcome mm l addr len r l' -> no_wx l'.
Proof.
  intros L. unfold munmap_outcome. cbv zeta. destruct (negb _); [by intros [_ ->]|]. destruct (_ =? _); [by intros [_ ->]|].
  destruct (_ || _); [by intros [_ ->]|].
  intros [(_ & V & _)|[(_ & -> & _)|[(_ & -> & _)|(_ & _ & m & _ & V)]]]; try done; by apply (wx_removed _ _ _ _ L V).
Qed.

Lemma wx_protected ptef prot lo m l l' : wx_free prot -> no_wx l ->
  protected ptef (prot_vm_flags prot 0) lo m l l' -> no_wx l'.
Proof.
  intros P W [_ V] x f p pl s. rewrite V. destruct (inside _ _ x); [|apply W].
  destruct (view l x) as [[[[f0 p0] pl0] s0]|]; [|done]. cbn. intros [= <- _ _ _]. by apply set_rwx_wx.
Qed.

Lemma wx_mprotect mm l addr len prot r l' : policy <> MM_WX_OFF -> host = false -> no_wx l ->
  mprotect_outcome policy host mm l addr len prot r l' -> no_wx l'.
Proof.
  intros Hp Hh W. unfold mprotect_outcome. cbv zeta. destruct (_ || _); [by intros [_ ->]|].
  destruct (_ =? _); [by intros [_ ->]|]. destruct (Z.ltb_spec (mm_wx_filter_prot policy host (Z.ldiff prot PROT_HINT_MASK)) 0) as [|Hpos];
    [by intros [_ ->]|]. pose proof (filter_wx _ Hp Hh Hpos) as F. destruct (_ || _); [by intros [_ ->]|].
  intros [(_ & -> & _)|(_ & [(_ & -> & _)|(_ & [(_ & V)|[(_ & _ & V)|(_ & _ & m & _ & V)]])])]; try done.
  - by apply (wx_protected _ _ _ _ _ _ F W V).
  - by apply (wx_view l), V.
  - by apply (wx_protected _ _ _ _ _ _ F W V).
Qed.

Lemma wx_mseal mm l addr len r l' : no_wx l -> mseal_outcome mm l addr len r l' -> no_wx l'.
Proof.
  intros W. unfold mseal_outcome. cbv zeta. destruct (c_true _); [by intros [_ ->]|].
  destruct (_ =? _); [by intros [_ ->]|]. destruct (_ || _); [by intros [_ ->]|].
  intros [(_ & -> & _)|(_ & [(_ & -> & _)|(_ & [(_ & _ & V)|(_ & _ & V)])])]; try done.
  - intros x f p pl s. rewrite V. destruct (inside _ _ x); [|apply W].
    destruct (view l x) as [[[[f0 p0] pl0] s0]|] eqn:E; [|done]. cbn. intros [= <- _ _ _]. rewrite !seal_has by done.
    by apply (W x f0 p0 pl0 s0).
  - by apply (wx_view l), V.
Qed.

Lemma wx_mmap lim mm l early addr len flags att r l' : no_wx l ->
  (0 <= early -> forall r x, wx_free (att r x).1.1.1) -> mmap_outcome lim mm l early addr len flags att r l' -> no_wx l'.
Proof.
  intros W A. unfold mmap_outcome. destruct (Z.ltb_spec early 0) as [|He]; [by intros [_ ->]|].
  intros [(H1 & H2 & V & _)|(_ & [->|(_ & _ & m & _ & V)] & _)]; [|done|by apply (wx_removed _ _ _ _ W V)].
  intros x f p pl s. rewrite V. destruct (inside _ _ x); [|apply W]. intros [= E].
  specialize (A He r x). by rewrite E in A.
Qed.

Lemma wx_brk mm l newbrk r mm' l' : no_wx l -> brk_outcome mm l newbrk r mm' l' -> no_wx l'.
Proof.
  intros W (_ & [(_ & ->)|(_ & _ & H)]); [done|]. destruct (_ && _); [|by subst]. destruct H as [_ V].
  intros x f p pl s. rewrite V. destruct (inside _ _ x); [|apply W]. intros [= <- _ _ _]. vm_compute. by intros [_ ?].
Qed.

(** ** One call *)

Definition is_mprotect (c : mm_call) : bool := match c with Mprotect _ _ _ => true | _ => false end.

(** What a call from [l] to [l'] never does. *)
Record harmless (c : mm_call) (l l' : list (nat * seg_core)) (mm mm' : mm_struct_t) : Prop := {
  h_sealed : keeps_sealed l l';
  h_wx : policy <> MM_WX_OFF -> host = false -> no_wx l -> no_wx l';
  h_names : is_mprotect c = false -> names_ok l (mm_events mm) -> names_ok l' (mm_events mm');
}.

Lemma limits_base mm mm' : limits mm' = limits mm -> mm_mmap_base mm' = mm_mmap_base mm.
Proof. unfold limits. congruence. Qed.

Lemma anon_early_prot addr len prot flags : 0 <= anon_early policy host addr len prot flags ->
  0 <= mm_wx_filter_prot policy host prot.
Proof. unfold anon_early. destruct (Z.ltb_spec (mmap_len addr len flags) 0); lia. Qed.

Lemma file_early_prot addr len prot flags off : 0 <= file_early policy host addr len prot flags off ->
  0 <= mm_wx_filter_prot policy host prot.
Proof. unfold file_early. destruct (c_true _); [done|]. apply anon_early_prot. Qed.

Lemma vmo_early_prot addr len prot flags size off : 0 <= vmo_early policy host addr len prot flags size off ->
  0 <= mm_wx_filter_prot policy host prot.
Proof.
  unfold vmo_early. destruct (Z.ltb_spec (mmap_len addr len flags) 0); [lia|]. destruct (_ || _); [done|].
  destruct (c_true _); [done|]. lia.
Qed.

Lemma step_spec X l mm c : space X l mm -> Z.of_nat (length l) <= 99998 -> call_ok X mm c ->
  (forall p, X p < 2147480000) ->
  exists mm' r l', do_call mm c = Some (mm', r) /\ space (held X c r) l' mm' /\
    (length l' <= S (S (length l)))%nat /\ harmless c l l' mm mm'.
Proof using ok.
  intros Sp Hl Hc Hx. pose proof (mappings_spec X l mm Sp) as Hmap. destruct Sp as [I Ho L Hb].
  pose proof lim_ok as Hlim. destruct c; cbn [do_call held call_ok] in *.
  - destruct (munmap_spec X l mm addr len I Ho Hc) as (mm' & r & l' & -> & I' & Ho' & Le & Li & Out & N); [lia|].
    exists mm', r, l'. split; [done|]. split; [|split; [lia|]].
    + split; [done|done|by apply (low_munmap mm l addr len r)|by rewrite (limits_base _ _ Li)].
    + split; [by apply (keeps_munmap mm l addr len r)|intros _ _ W; by apply (wx_munmap mm l addr len r)|done].
  - destruct (mprotect_spec policy host X l mm addr len prot I Ho Hl Hc) as (mm' & r & l' & -> & I' & Ho' & Le & Li & Out); [lia|].
    exists mm', r, l'. split; [done|]. split; [|split; [lia|]].
    + split; [done|done|by apply (low_mprotect mm l addr len prot r)|by rewrite (limits_base _ _ Li)].
    + split; [by apply (keeps_mprotect mm l addr len prot r)|intros; by apply (wx_mprotect mm l addr len prot r)|done].
  - destruct (decide (len <> 0 /\ page_up len = 0)) as [[Hn Hp]|Hn].
    { destruct (mseal_wrapped X l mm addr len I Ho Hl Hc Hn Hp) as (mm' & r & l' & -> & I' & Le & Li & [S V _] & N).
      exists mm', r, l'. split; [done|]. split; [|split; [lia|]].
      + split; [done|done|by apply (low_view l)|by rewrite (limits_base _ _ Li)].
      + split; [by apply keeps_view|intros _ _ W; by apply (wx_view l)|done]. }
    destruct (mseal_spec X l mm addr len I Ho Hl Hc) as (mm' & r & l' & -> & I' & Ho' & Le & Li & Out & N); [lia| |].
    { destruct (decide (len = 0)); [by left|right]. tauto. }
    exists mm', r, l'. split; [done|]. split; [|split; [lia|]].
    + split; [done|done|by apply (low_mseal mm l addr len r)|by rewrite (limits_base _ _ Li)].
    + split; [by apply (keeps_mseal mm l addr len r)|intros _ _ W; by apply (wx_mseal mm l addr len r)|done].
  - destruct (mmap_anon_spec policy host memlock cap X l mm addr len prot flags I Ho L Hc Hb)
      as (mm' & r & l' & -> & I' & Ho' & Le & Li & N & Out).
    exists mm', r, l'. split; [done|]. split; [|split; [lia|]].
    + split; [done|done|by apply (low_mmap _ _ _ _ _ _ _ _ _ _ L Out)|by rewrite (limits_base _ _ Li)].
    + split; [by apply (keeps_mmap _ _ _ _ _ _ _ _ _ _ Out)|intros Hp Hh W|done].
      eapply wx_mmap; [exact W| |exact Out]. intros He r0 x. apply anon_wx, filter_wx; [done|done|].
      by eapply anon_early_prot.
  - destruct (mmap_file_spec policy host memlock cap X l mm addr len prot flags file vnode off I Ho L Hc Hb)
      as (mm' & r & l' & -> & I' & Ho' & Le & Li & N & Out).
    exists mm', r, l'. split; [done|]. split; [|split; [lia|]].
    + split; [done|done|by apply (low_mmap _ _ _ _ _ _ _ _ _ _ L Out)|by rewrite (limits_base _ _ Li)].
    + split; [by apply (keeps_mmap _ _ _ _ _ _ _ _ _ _ Out)|intros Hp Hh W|done].
      eapply wx_mmap; [exact W| |exact Out]. intros He r0 x. apply file_wx, filter_wx; [done|done|].
      by eapply file_early_prot.
  - destruct Hc as [Hc Hw].
    destruct (mmap_vmo_spec policy host X l mm addr len prot flags vmo size off I Ho L) as
      (mm' & r & l' & -> & I' & Ho' & Le & Li & N & Out); [lia|done|done| |].
    { destruct Hw as [?|[?|(l0 & E0 & ?)]]; auto. rewrite Hmap in E0. injection E0 as <-. auto. }
    exists mm', r, l'. split; [done|]. assert (Hb' : in_u64 (mm_mmap_base mm')) by (by rewrite (limits_base _ _ Li)).
    destruct Out as [[_ ->]|(mm1 & a1 & Out)]; (split; [|split; [lia|]]).
    + by split.
    + split; [apply sealed_refl|done|done].
    + split; [done|done|by apply (low_mmap _ _ _ _ _ _ _ _ _ _ L Out)|done].
    + split; [by apply (keeps_mmap _ _ _ _ _ _ _ _ _ _ Out)|intros Hp Hh W|done].
      eapply wx_mmap; [exact W| |exact Out]. intros He r0 x. apply vmo_wx, filter_wx; [done|done|].
      by eapply vmo_early_prot.
  - destruct (brk_spec X l mm newbrk I Ho Hc) as (mm' & r & l' & -> & I' & Ho' & Le & Out & Eb & N).
    exists mm', r, l'. split; [done|]. split; [|split; [lia|]].
    + split; [done|done|by apply (low_brk mm l newbrk r mm')|by rewrite Eb].
    + split; [by apply (keeps_brk mm l newbrk r mm')|intros _ _ W; by apply (wx_brk mm l newbrk r mm')|done].
  - destruct (find_inv X l mm addr I Ho) as (mm1 & -> & I1 & Ev & Es); [lia|]. cbn [mbind option_bind].
    apply env_rest, rest_limits in Ev.
    destruct (seg_at l addr) as [[p d]|] eqn:E; cbn [fmap option_fmap option_map fst vma_get].
    + apply seg_at_Some in E as [Hin _]. destruct (seg_get_spec X l mm1 p d I1 Hin (Hx p)) as (mm2 & -> & I2 & Li2 & Es2).
      cbn [mbind option_bind]. exists mm2, (Z.of_nat p), l. rewrite (proj2 (Z.ltb_ge _ _)), Nat2Z.id by lia.
      split; [done|]. split; [|split; [lia|]].
      * split; [done|done|done|]. by rewrite (limits_base _ _ Li2), (limits_base _ _ Ev).
      * split; [apply sealed_refl|done|]. intros _. by rewrite Es2, Es.
    + cbn [mbind option_bind]. exists mm1, (- 1), l. split; [done|]. split; [|split; [lia|]].
      * split; [done|done|done|]. by rewrite (limits_base _ _ Ev).
      * split; [apply sealed_refl|done|]. intros _. by rewrite Es.
  - destruct (seg_put_spec X l mm p I Hc) as (mm' & -> & I' & Li & N). cbn [mbind option_bind].
    exists mm', 0, l. split; [done|]. split; [|split; [lia|]].
    + split; [done|done|done|]. by rewrite (limits_base _ _ Li).
    + split; [apply sealed_refl|done|]. intros _. by apply names_same.
  - destruct (flush_spec X l mm I) as (mm' & -> & I' & Li & _ & N). cbn [mbind option_bind].
    exists mm', 0, l. split; [done|]. split; [|split; [lia|]].
    + split; [done|done|done|]. by rewrite (limits_base _ _ Li).
    + split; [apply sealed_refl|done|]. intros _. by apply names_same.
Qed.

(** ** Sequences of calls *)

Fixpoint run (mm : mm_struct_t) (h : history) : option mm_struct_t :=
  match h with
  | [] => Some mm
  | (c, al, pl) :: h' => '(mm, _) ← do_call (answered mm al pl) c; run mm h'
  end.

(** Callers and the allocator keep their promises at every call. *)
Fixpoint allowed (X : nat -> Z) (mm : mm_struct_t) (h : history) : Prop :=
  match h with
  | [] => True
  | (c, al, pl) :: h' =>
      answers_ok mm al /\ call_ok X (answered mm al pl) c /\
      forall mm' r, do_call (answered mm al pl) c = Some (mm', r) -> allowed (held X c r) mm' h'
  end.

Lemma answered_space X l mm al pl : space X l mm -> answers_ok mm al -> space X l (answered mm al pl).
Proof.
  intros [(Hs & _ & ix & dq & [B L S C St]) Ho Lo Hb] A. split; [|done|done|done]. split; [done|]. split; [exact A|].
  exists ix, dq. split; [by eapply base_fields; [..|exact B]|exact L|exact S|exact C|exact St].
Qed.

Lemma held_bound X c r n : (forall p, X p < n) -> forall p, held X c r p < n + 1.
Proof.
  intros H p. pose proof (H p). destruct c; cbn [held]; try lia.
  - destruct (r <? 0); [lia|]. unfold add1. destruct (decide _); lia.
  - unfold sub1. destruct (decide _); lia.
Qed.

Lemma run_spec : forall h X l mm, space X l mm -> Z.of_nat (length l) + 2 * Z.of_nat (length h) <= 100000 ->
  (forall p, X p < 2147480000 - Z.of_nat (length h)) -> allowed X mm h ->
  exists mm' X' l', run mm h = Some mm' /\ space X' l' mm' /\
    (forall n, (forall p, X p < n) -> forall p, X' p < n + Z.of_nat (length h)) /\ keeps_sealed l l' /\
    (policy <> MM_WX_OFF -> host = false -> no_wx l -> no_wx l') /\
    (forallb (fun y => negb (is_mprotect y.1.1)) h = true -> names_ok l (mm_events mm) -> names_ok l' (mm_events mm')).
Proof using ok.
  induction h as [|[[c al] pl] h IH]; intros X l mm Sp Hl Hx Ha.
  { exists mm, X, l. split; [done|]. split; [done|].
    split; [intros n Hn p; specialize (Hn p); cbn; lia|]. split; [apply sealed_refl|done]. }
  destruct Ha as (A & Hc & Hn). cbn [length] in *.
  destruct (step_spec X l (answered mm al pl) c) as (mm1 & r & l1 & E & Sp1 & Le & [K W N]).
  { by apply answered_space. } { lia. } { done. } { intros p. specialize (Hx p). lia. }
  destruct (IH (held X c r) l1 mm1 Sp1) as (mm2 & X2 & l2 & E2 & Sp2 & B2 & K2 & W2 & N2).
  { lia. } { intros p. pose proof (held_bound X c r _ Hx p). lia. } { by apply Hn. }
  exists mm2, X2, l2. cbn [run]. rewrite E. split; [exact E2|]. split; [done|].
  split; [intros n Hb p; pose proof (B2 (n + 1) (held_bound X c r n Hb) p); lia|].
  split; [by apply (sealed_trans _ l1)|]. split; [auto|]. cbn [forallb fst].
  intros [Hm Hf]%andb_true_iff Hno. apply negb_true_iff in Hm. auto.
Qed.

(** A new address space, when its allocations succeed. *)
Definition mm_create (base : Z) : mm_struct_t :=
  mk_mm ∅ None (replicate (Z.to_nat 1024) None) 0 0 None 0 0 base 0 0 0 0 [] [] [].

Lemma space_empty base : in_u64 base -> space (fun _ => 0) [] (mm_create base).
Proof.
  intros Hb. split; [|done|done|done]. split; [intros p; lia|]. split.
  - split; [constructor|]. intros p Hp. by inversion Hp.
  - exists [], []. split.
    + split; [by exists None|constructor|constructor|constructor|done| |intros p; lia|intros p Hp; by inversion Hp].
      intros p. change (mm_segs (mm_create base) !! p) with ((∅ : store) !! p). by rewrite lookup_empty.
    + cbn -[replicate Z.to_nat]. apply length_replicate.
    + intros i p Hi. by rewrite lookup_nil in Hi.
    + done.
    + by left.
Qed.

(** ** Promises, checked *)

Definition in_u64b (z : Z) : bool := (0 <=? z) && (z <? 18446744073709551616).

Lemma in_u64b_sound z : in_u64b z = true -> in_u64 z.
Proof. unfold in_u64b, in_u64. intros [?%Z.leb_le ?%Z.ltb_lt]%andb_true_iff. lia. Qed.

Definition hint_clearb (l : list (nat * seg_core)) (a n : Z) : bool :=
  match view l a with Some _ => true | None => false end ||
  forallb (fun y => (c_end y.2 <=? a) || (a + n <=? c_start y.2)) l.

Lemma hint_clearb_sound l a n : hint_clearb l a n = true -> hint_clear l a n.
Proof.
  intros [H|H]%orb_true_iff; [left; by destruct (view l a)|right]. intros q d Hq.
  rewrite forallb_forall in H. specialize (H (q, d)). rewrite <- list_elem_of_In in H. specialize (H Hq).
  apply orb_true_iff in H as [?%Z.leb_le|?%Z.leb_le]; auto.
Qed.

Definition call_okb (X : nat -> Z) (mm : mm_struct_t) (c : mm_call) : bool :=
  match c with
  | Munmap a _ | Mprotect a _ _ | Mseal a _ | Mmap a _ _ _ | MmapFile a _ _ _ _ _ _ => in_u64b a
  | MmapVmo a n _ f _ _ _ => in_u64b a &&
      ((a =? 0) || wants a f || match mappings mm with Some l => hint_clearb l a (page_up n) | None => false end)
  | Brk b => in_u64b b
  | Drop p => 0 <? X p
  | Hold _ | Flush => true
  end.

Lemma call_okb_sound X mm c : call_okb X mm c = true -> call_ok X mm c.
Proof.
  destruct c; cbn [call_okb call_ok]; try apply in_u64b_sound; try done; [|by apply Z.ltb_lt].
  intros [H%in_u64b_sound [[?%Z.eqb_eq|?]%orb_true_iff|H2]%orb_true_iff]%andb_true_iff; (split; [done|]); auto.
  destruct (mappings mm) as [l|] eqn:E; [|done]. right. right. exists l. split; [done|by apply hint_clearb_sound].
Qed.

Definition answers_okb (mm : mm_struct_t) (al : list (option nat)) : bool :=
  bool_decide (NoDup (omap id al)) &&
  forallb (fun o => match o with
                    | Some p => match mm_segs mm !! p with Some _ => false | None => true end
                    | None => true
                    end) al.

Lemma answers_okb_sound mm al : answers_okb mm al = true -> answers_ok mm al.
Proof.
  intros [N%bool_decide_eq_true F]%andb_true_iff. split; [done|]. intros p Hp.
  rewrite forallb_forall in F. specialize (F (Some p)). rewrite <- list_elem_of_In in F. specialize (F Hp).
  by destruct (mm_segs mm !! p).
Qed.

Fixpoint allowedb (X : nat -> Z) (mm : mm_struct_t) (h : history) : bool :=
  match h with
  | [] => true
  | (c, al, pl) :: h' =>
      answers_okb mm al && call_okb X (answered mm al pl) c &&
      match do_call (answered mm al pl) c with
      | Some (mm', r) => allowedb (held X c r) mm' h'
      | None => true
      end
  end.

Lemma allowedb_sound h : forall X mm, allowedb X mm h = true -> allowed X mm h.
Proof.
  induction h as [|[[c al] pl] h IH]; intros X mm; [done|]. cbn [allowedb allowed].
  intros [[A%answers_okb_sound C%call_okb_sound]%andb_true_iff H]%andb_true_iff. split; [done|]. split; [done|].
  intros mm' r E. rewrite E in H. by apply IH.
Qed.

End Histories.
