(* ===== verification/AddrClaims.v ===== *)
(** * Address spaces: the theorems

    What an address space promises to its users, with examples on a concrete
    one.  An address space is described by the list [l] of its mappings in
    ascending order; [space X l mm] says that [mm] has this list, that the
    mappings are disjoint and below the end of the user addresses, that the
    index agrees with the list if it claims to, and that every record in memory
    has exactly as many references as the list, the index, the release queue
    and the outside holders [X] have, with no record in memory without one. *)

From stdpp Require Import gmap.
From S2P Require Import Prelude AddrSpace AddrTheory AddrOps AddrView AddrUnmap AddrProtect AddrMap AddrRefs AddrHist.

(** ** A concrete machine *)

#[global] Instance demo_arch : MmArch := {|
  USER_VA_LIMIT := 0x4000000000; MMAP_BASE_ADDR := 0x60000000;
  PTE_V := 1; PTE_R := 2; PTE_W := 4; PTE_X := 8; PTE_U := 16; PTE_G := 32; PTE_A := 64;
  PTE_D := 128; PTE_COW := 256; PTE_LEAF := 0; PTE_MAT1 := 0;
|}.

#[global] Instance demo_ok : MmArchOk demo_arch.
Proof. by split. Qed.

(** Three pages of a file, the middle one made read-only, then sealed; an
    anonymous mapping behind; a holder of the middle record. *)
Definition demo_calls : history :=
  [(MmapFile 0 0x3000 3 1 7 (Some 9) 0x1000, [Some 1%nat], []);
   (Mmap 0 0x2000 3 0x22, [Some 2%nat], []);
   (Mprotect 0x60001000 0x1000 1, [Some 3%nat; Some 4%nat], [0]);
   (Mseal 0x60001000 0x1000, [], []);
   (Hold 0x60001800, [], [])].

Definition demo_run (h : history) : option mm_struct_t :=
  run MM_WX_STRIP false 0 false (mm_create 0x60000000) h.

Definition demo_list : list (nat * seg_core) :=
  [(1%nat, mk_core 0x60000000 0x60001000 0x1000 0x200b 215 3 (- 1) (Some 7) (Some 9) None);
   (3%nat, mk_core 0x60001000 0x60002000 0x2000 0x42009 82 3 (- 1) (Some 7) (Some 9) None);
   (4%nat, mk_core 0x60002000 0x60003000 0x3000 0x200b 215 3 (- 1) (Some 7) (Some 9) None);
   (2%nat, mk_core 0x60003000 0x60005000 0 19 215 3 (- 1) None None None)].

(** The address space after these calls, with answers for the next one. *)
Definition demo_mm : mm_struct_t :=
  match demo_run demo_calls with
  | Some mm => answered mm [Some 5%nat; Some 6%nat] [0; 0]
  | None => mm_create 0
  end.

Lemma demo_space : exists X, space X demo_list demo_mm /\ forall p, X p < 100.
Proof.
  destruct (run_spec MM_WX_STRIP false 0 false demo_calls (fun _ => 0) [] (mm_create 0x60000000))
    as (mm & X & l & E & Sp & B & _).
  - by apply space_empty.
  - by vm_compute.
  - by vm_compute.
  - apply allowedb_sound. by vm_compute.
  - assert (El : demo_run demo_calls ≫= mappings = Some demo_list) by (by vm_compute).
    assert (Ef : (fun mm => answers_okb mm [Some 5%nat; Some 6%nat]) <$> demo_run demo_calls = Some true) by (by vm_compute).
    unfold demo_mm, demo_run in *. rewrite E in *. cbn [mbind option_bind fmap option_fmap option_map] in *.
    rewrite (mappings_spec X l mm Sp) in El. injection El as ->. injection Ef as Ef.
    exists X. split; [by apply answered_space, answers_okb_sound|].
    intros p. pose proof (B 1 ltac:(lia) p). cbn in *. lia.
Qed.

(** ** The calls *)

Section Claims.

Context {arch : MmArch} {ok : MmArchOk arch}.
Variables (policy : wx_policy) (host : bool) (memlock : Z) (cap : bool).

(** C18: the lookup behind every fault and every call, with its lazily rebuilt
    index of 1024 slots, binary search, and walk along the list when the index
    is too small, returns what a scan of the mappings for the one that covers
    the address returns, NULL if there is none, in every state of the index,
    and leaves the same address space with its references exact. *)
Theorem mm_seg_find_is_scan X l mm addr :
  space X l mm -> Z.of_nat (length l) <= 100000 ->
  exists mm', mm_seg_find mm addr = Some (mm', fst <$> seg_at l addr) /\ space X l mm'.
Proof using.
  intros [I Ho L Hb] Hl. destruct (find_inv X l mm addr I Ho Hl) as (mm' & E & I' & Ev & _).
  exists mm'. split; [done|]. split; [done|done|done|].
  by rewrite (limits_base _ _ (rest_limits _ _ (env_rest _ _ Ev))).
Qed.

(** Inserting a record over a free range makes exactly the addresses of
    the range mean what the record says; every other address means what it
    meant, also when the record merges with one or both neighbours (same
    flags, protection and object, offsets that continue), and the records
    stay ordered and their references exact. *)
Theorem mm_insert_vma_refines X l mm p r :
  space (add1 X p) l mm -> small X -> (p ∉ l.*1) -> sg mm p = Some r ->
  0 <= sg_start r < sg_end r -> sg_end r <= USER_VA_LIMIT -> free l (sg_start r) (sg_end r) ->
  exists mm' l', mm_insert_vma mm p = Some mm' /\ space X l' mm' /\
    forall x, view l' x = if inside (sg_start r) (sg_end r) x then Some (attr (core r) x) else view l x.
Proof using.
  intros [I Ho L Hb] Hs Hp Hr Hse Hlim Hf.
  destruct (insert_vma_spec X l mm p r I Hs Hp Hr Ho Hse Hf) as (mm' & l' & E & I' & Ho' & V & Ev & _).
  exists mm', l'. split; [done|]. split; [|done]. split; [apply I'|done| |].
  - intros x Hx. rewrite V, (proj2 (inside_false _ _ _)) by lia. by apply L.
  - by rewrite (limits_base _ _ (rest_limits _ _ (env_rest _ _ Ev))).
Qed.

(** C19: munmap returns.  EINVAL for an unaligned address, a range that wraps
    or leaves the user addresses or cuts a SysV segment, and EPERM for a range
    with a sealed mapping, change nothing.  On success exactly the addresses
    of the range are unmapped, whatever mappings it covers, cuts or splits;
    when a page loop fails or there is no memory for a split, exactly a first
    part of the range is. *)
Theorem mm_munmap_correct X l mm addr len :
  space X l mm -> in_u64 addr ->
  exists mm' r l', mm_munmap_locked mm addr len = Some (mm', r) /\ space X l' mm' /\
    munmap_outcome mm l addr len r l'.
Proof using ok.
  intros [I Ho L Hb] Ha. pose proof lim_ok.
  destruct (munmap_spec X l mm addr len I Ho Ha) as (mm' & r & l' & E & I' & Ho' & _ & Li & Out & _); [lia|].
  exists mm', r, l'. split; [done|]. split; [|done]. split; [done|done| |by rewrite (limits_base _ _ Li)].
  by apply (low_munmap mm l addr len r).
Qed.

(** C20: mprotect returns.  Unknown protection bits, an unaligned address, a
    protection the W^X policy denies, a range that wraps, leaves the user
    addresses or has a hole, and a range with a sealed mapping are refused
    without a change.  On success every address of the range has the new read,
    write and execute bits, in the flags and in the page-table template, and
    its other flags, its object and offset and its SysV segment, and no address
    outside changes in any of these; when a page loop fails this holds for a
    first part of the range; without memory for a split no address changes.
    The permission ceiling of a VMO mapping is not among these attributes: the
    merge at the end joins neighbours without comparing their ceilings, and the
    later one takes that of the first ([AddrLimits.merge_widens_cap]). *)
Theorem mm_mprotect_correct X l mm addr len prot :
  space X l mm -> Z.of_nat (length l) <= 99998 -> in_u64 addr ->
  exists mm' r l', mm_mprotect_locked policy host mm addr len prot = Some (mm', r) /\ space X l' mm' /\
    mprotect_outcome policy host mm l addr len prot r l'.
Proof using ok.
  intros [I Ho L Hb] Hl Ha. pose proof lim_ok.
  destruct (mprotect_spec policy host X l mm addr len prot I Ho Hl Ha) as (mm' & r & l' & E & I' & Ho' & _ & Li & Out); [lia|].
  exists mm', r, l'. split; [done|]. split; [|done]. split; [done|done| |by rewrite (limits_base _ _ Li)].
  by apply (low_mprotect policy host mm l addr len prot r).
Qed.

(** Mseal returns.  A range with a hole, or with a SysV, device or VMO
    mapping is refused without a change; on success every address of the range
    and no other is sealed, with its other attributes; without memory for a
    split no address changes. *)
Theorem mm_mseal_correct X l mm addr len :
  space X l mm -> Z.of_nat (length l) <= 99998 -> in_u64 addr -> (len = 0 \/ page_up len <> 0) ->
  exists mm' r l', mm_mseal_locked mm addr len = Some (mm', r) /\ space X l' mm' /\
    mseal_outcome mm l addr len r l'.
Proof using ok.
  intros [I Ho L Hb] Hl Ha Hn. pose proof lim_ok.
  destruct (mseal_spec X l mm addr len I Ho Hl Ha) as (mm' & r & l' & E & I' & Ho' & _ & Li & Out & _); [lia|done|].
  exists mm', r, l'. split; [done|]. split; [|done]. split; [done|done| |by rewrite (limits_base _ _ Li)].
  by apply (low_mseal mm l addr len r).
Qed.

(** C21: an anonymous or file mapping lies above 0 and below the end of the
    user addresses.  It is where the caller asked with MAP_FIXED, replacing
    what was there unless something there is sealed; otherwise it was free
    before, and if it is not at the hint, no lower place above the base was
    free.  Exactly its addresses change and mean the new mapping, a file's at
    the right offsets.  A refusal changes nothing, except that a MAP_FIXED
    request may have unmapped a first part of the range, and has a reason: an
    argument, no free place above the base (or what is at a fixed address
    cannot be replaced), no memory for the record, or the limit on locked
    memory. *)
Theorem mm_mmap_bounds X l mm addr len prot flags file vnode off :
  space X l mm -> in_u64 addr ->
  (exists mm' r l', mm_mmap_locked policy host memlock cap mm addr len prot flags = Some (mm', r) /\
     space X l' mm' /\
     mmap_outcome (over_limit memlock cap (page_up len)) mm l (anon_early policy host addr len prot flags) addr (page_up len) flags
       (anon_attr policy host mm prot flags) r l') /\
  (exists mm' r l', mm_mmap_file_locked policy host memlock cap mm addr len prot flags file vnode off = Some (mm', r) /\
     space X l' mm' /\
     mmap_outcome (over_limit memlock cap (page_up len)) mm l (file_early policy host addr len prot flags off) addr (page_up len) flags
       (file_attr policy host mm prot flags file off) r l').
Proof using ok.
  intros [I Ho L Hb] Ha. split.
  - destruct (mmap_anon_spec policy host memlock cap X l mm addr len prot flags I Ho L Ha Hb)
      as (mm' & r & l' & E & I' & Ho' & _ & Li & _ & Out).
    exists mm', r, l'. split; [done|]. split; [|done]. split; [done|done| |by rewrite (limits_base _ _ Li)].
    by apply (low_mmap _ _ _ _ _ _ _ _ _ _ L Out).
  - destruct (mmap_file_spec policy host memlock cap X l mm addr len prot flags file vnode off I Ho L Ha Hb)
      as (mm' & r & l' & E & I' & Ho' & _ & Li & _ & Out).
    exists mm', r, l'. split; [done|]. split; [|done]. split; [done|done| |by rewrite (limits_base _ _ Li)].
    by apply (low_mmap _ _ _ _ _ _ _ _ _ _ L Out).
Qed.

(** ** Histories *)

(** C17: from its creation on, through any sequence of up to 50000 calls of
    mmap (anonymous, file, VMO), munmap, mprotect, mseal and brk, lookups that
    keep a reference, dropped references and flushes, with any answers of the
    allocator and the page loops, no call faults, panics or uses a freed
    record, and the mappings stay disjoint, ordered and inside the user
    addresses with every reference accounted for.  The calls may have any
    64-bit arguments but one: a hint for a VMO whose first address is free and
    whose range reaches a mapping is left out, because the code maps over that
    mapping ([AddrLimits.vmo_hint_overlaps]).  The bound on the calls is there
    for the list walk, which panics after 100000 steps; a reference is dropped
    only by a holder. *)
Theorem mm_histories_safe base h :
  in_u64 base -> Z.of_nat (length h) <= 50000 ->
  allowed policy host memlock cap (fun _ => 0) (mm_create base) h ->
  exists mm X l, run policy host memlock cap (mm_create base) h = Some mm /\ mappings mm = Some l /\ space X l mm.
Proof using ok.
  intros Hb Hl Ha. destruct (run_spec policy host memlock cap h (fun _ => 0) [] (mm_create base)) as (mm & X & l & E & Sp & _);
    [by apply space_empty|cbn; lia|intros p; lia|done|].
  exists mm, X, l. split; [done|]. split; [by apply (mappings_spec X)|done].
Qed.

(** C22: once sealed, an address keeps its mapping: through any sequence of
    calls it stays mapped, with the same flags, protection and place in the
    same object.  The calls are those of the histories above: a hint for a VMO
    whose first address is free has its whole range free, and the list stays
    within the 100000 mappings its walk allows. *)
Theorem mm_sealed_stays X l mm h :
  space X l mm -> Z.of_nat (length l) + 2 * Z.of_nat (length h) <= 100000 ->
  (forall p, X p < 2147480000 - Z.of_nat (length h)) -> allowed policy host memlock cap X mm h ->
  exists mm' X' l', run policy host memlock cap mm h = Some mm' /\ space X' l' mm' /\
    forall x a, view l x = Some a -> is_sealed a = true -> view l' x = Some a.
Proof using ok.
  intros Sp Hl Hx Ha. destruct (run_spec policy host memlock cap h X l mm Sp Hl Hx Ha) as (mm' & X' & l' & E & Sp' & _ & K & _).
  by exists mm', X', l'.
Qed.

(** C23: under a W^X policy, in a task that hosts no translator, no address is
    ever both writable and executable through up to 50000 calls, whatever
    protections the program asks for.  The calls are those of the histories
    above: a hint for a VMO whose first address is free has its whole range
    free. *)
Theorem mm_never_wx base h :
  policy <> MM_WX_OFF -> host = false -> in_u64 base -> Z.of_nat (length h) <= 50000 ->
  allowed policy host memlock cap (fun _ => 0) (mm_create base) h ->
  exists mm X l, run policy host memlock cap (mm_create base) h = Some mm /\ space X l mm /\
    forall x f p pl s, view l x = Some (f, p, pl, s) -> ~ (has f VM_WRITE = true /\ has f VM_EXEC = true).
Proof using ok.
  intros Hp Hh Hb Hl Ha. destruct (run_spec policy host memlock cap h (fun _ => 0) [] (mm_create base))
    as (mm & X & l & E & Sp & _ & _ & W & _); [by apply space_empty|cbn; lia|intros p; lia|done|].
  exists mm, X, l. split; [done|]. split; [done|]. by apply W.
Qed.

(** As long as mprotect is not called, the page table names an address as
    part of a record exactly when the record is a file or VMO mapping in the
    list that covers it: cut-away and merged ranges stop being named. *)
Theorem mm_names_exact base h :
  in_u64 base -> Z.of_nat (length h) <= 50000 ->
  allowed policy host memlock cap (fun _ => 0) (mm_create base) h ->
  forallb (fun y => negb (is_mprotect y.1.1)) h = true ->
  exists mm X l, run policy host memlock cap (mm_create base) h = Some mm /\ space X l mm /\
    forall p x, named (mm_events mm) p x = true <->
      exists c, (p, c) ∈ l /\ dispatchable c = true /\ c_start c <= x < c_end c.
Proof using ok.
  intros Hb Hl Ha Hm. destruct (run_spec policy host memlock cap h (fun _ => 0) [] (mm_create base))
    as (mm & X & l & E & Sp & _ & _ & _ & N); [by apply space_empty|cbn; lia|intros p; lia|done|].
  exists mm, X, l. split; [done|]. split; [done|]. apply N; [done|]. intros p x. split; [done|].
  intros (c & Hc & _). by apply not_elem_of_nil in Hc.
Qed.

(** C24: destroying an address space never faults and frees exactly the records
    that nobody outside holds: nothing leaks, and no held record is freed. *)
Theorem mm_destroy_frees_all X l mm :
  space X l mm -> exists mm', mm_destroy mm = Some mm' /\ forall p, mm_segs mm' !! p = None <-> X p = 0.
Proof using. intros [I _ _ _]. by apply (destroy_spec X l mm). Qed.

End Claims.

(** ** On the concrete machine *)

Lemma mm_seg_find_is_scan_witness : exists X mm', space X demo_list demo_mm /\
  mm_seg_find demo_mm 0x60001800 = Some (mm', Some 3%nat) /\ space X demo_list mm'.
Proof.
  destruct demo_space as (X & Sp & _).
  destruct (mm_seg_find_is_scan X demo_list demo_mm 0x60001800 Sp) as (mm' & E & Sp'); [by vm_compute|].
  exists X, mm'. exact (conj Sp (conj E Sp')).
Defined.

Lemma mm_munmap_correct_witness : exists X mm' l', space X demo_list demo_mm /\
  mm_munmap_locked demo_mm 0x60002000 0x2000 = Some (mm', 0) /\ space X l' mm' /\
  munmap_outcome demo_mm demo_list 0x60002000 0x2000 0 l'.
Proof.
  destruct demo_space as (X & Sp & _).
  destruct (mm_munmap_correct X demo_list demo_mm 0x60002000 0x2000 Sp) as (mm' & r & l' & E & Sp' & Out); [by vm_compute|].
  assert (Er : snd <$> mm_munmap_locked demo_mm 0x60002000 0x2000 = Some 0) by (by vm_compute).
  rewrite E in Er. injection Er as ->. exists X, mm', l'. exact (conj Sp (conj E (conj Sp' Out))).
Defined.

Lemma mm_mprotect_correct_witness : exists X mm' l', space X demo_list demo_mm /\
  mm_mprotect_locked MM_WX_STRIP false demo_mm 0x60002000 0x2000 1 = Some (mm', 0) /\ space X l' mm' /\
  mprotect_outcome MM_WX_STRIP false demo_mm demo_list 0x60002000 0x2000 1 0 l'.
Proof.
  destruct demo_space as (X & Sp & _).
  destruct (mm_mprotect_correct MM_WX_STRIP false X demo_list demo_mm 0x60002000 0x2000 1 Sp)
    as (mm' & r & l' & E & Sp' & Out); [by vm_compute|by vm_compute|].
  assert (Er : snd <$> mm_mprotect_locked MM_WX_STRIP false demo_mm 0x60002000 0x2000 1 = Some 0) by (by vm_compute).
  rewrite E in Er. injection Er as ->. exists X, mm', l'. exact (conj Sp (conj E (conj Sp' Out))).
Defined.

Lemma mm_mseal_correct_witness : exists X mm' l', space X demo_list demo_mm /\
  mm_mseal_locked demo_mm 0x60002000 0x2000 = Some (mm', 0) /\ space X l' mm' /\
  mseal_outcome demo_mm demo_list 0x60002000 0x2000 0 l'.
Proof.
  destruct demo_space as (X & Sp & _).
  destruct (mm_mseal_correct X demo_list demo_mm 0x60002000 0x2000 Sp)
    as (mm' & r & l' & E & Sp' & Out); [by vm_compute|by vm_compute|by right|].
  assert (Er : snd <$> mm_mseal_locked demo_mm 0x60002000 0x2000 = Some 0) by (by vm_compute).
  rewrite E in Er. injection Er as ->. exists X, mm', l'. exact (conj Sp (conj E (conj Sp' Out))).
Defined.

Lemma mm_mmap_bounds_witness : exists X mm' l', space X demo_list demo_mm /\
  mm_mmap_locked MM_WX_STRIP false 0 false demo_mm 0 0x3000 7 0x22 = Some (mm', 0x60005000) /\ space X l' mm' /\
  mmap_outcome (over_limit 0 false 0x3000) demo_mm demo_list 0 0 0x3000 0x22
    (anon_attr MM_WX_STRIP false demo_mm 7 0x22) 0x60005000 l'.
Proof.
  destruct demo_space as (X & Sp & _).
  destruct (mm_mmap_bounds MM_WX_STRIP false 0 false X demo_list demo_mm 0 0x3000 7 0x22 7 None 0 Sp)
    as ((mm' & r & l' & E & Sp' & Out) & _); [by vm_compute|].
  assert (Er : snd <$> mm_mmap_locked MM_WX_STRIP false 0 false demo_mm 0 0x3000 7 0x22 = Some 0x60005000) by (by vm_compute).
  rewrite E in Er. injection Er as ->. exists X, mm', l'. exact (conj Sp (conj E (conj Sp' Out))).
Defined.

Lemma mm_histories_safe_witness : exists mm X l, demo_run demo_calls = Some mm /\ mappings mm = Some l /\ space X l mm.
Proof.
  unfold demo_run. apply (mm_histories_safe MM_WX_STRIP false 0 false 0x60000000 demo_calls); [by vm_compute..|].
  apply allowedb_sound. by vm_compute.
Defined.

(** Calls that try to undo the seal, a VMO at a free hint, one with a hint on
    the sealed page, and a seal with a length that wraps. *)
Definition demo_more : history :=
  [(Munmap 0x60001000 0x1000, [], [0]); (Mprotect 0x60000000 0x3000 3, [], [0]);
   (Mmap 0x60001000 0x1000 3 0x32, [Some 5%nat], [0]);
   (MmapVmo 0x60007000 0x1000 3 1 5 0x10000 0, [Some 6%nat], []);
   (MmapVmo 0x60001000 0x1000 3 1 5 0x10000 0, [Some 7%nat], []);
   (Mseal 0x60000000 0xffffffffffffffff, [Some 8%nat], [])].

Lemma mm_sealed_stays_witness : exists X mm' X' l', space X demo_list demo_mm /\
  run MM_WX_STRIP false 0 false demo_mm demo_more = Some mm' /\ space X' l' mm' /\
  forall x a, view demo_list x = Some a -> is_sealed a = true -> view l' x = Some a.
Proof.
  destruct demo_space as (X & Sp & B).
  destruct (mm_sealed_stays MM_WX_STRIP false 0 false X demo_list demo_mm demo_more Sp) as (mm' & X' & l' & H);
    [by vm_compute|intros p; specialize (B p); cbn; lia|apply allowedb_sound; by vm_compute|].
  exists X, mm', X', l'. exact (conj Sp H).
Defined.

Lemma mm_never_wx_witness : exists mm X l, demo_run demo_calls = Some mm /\ space X l mm /\
  forall x f p pl s, view l x = Some (f, p, pl, s) -> ~ (has f VM_WRITE = true /\ has f VM_EXEC = true).
Proof.
  unfold demo_run. apply (mm_never_wx MM_WX_STRIP false 0 false 0x60000000 demo_calls); [done|done|by vm_compute..|].
  apply allowedb_sound. by vm_compute.
Defined.

(** Three pages of a file, the middle one unmapped. *)
Definition demo_names : history :=
  [(MmapFile 0 0x3000 3 1 7 (Some 9) 0x1000, [Some 1%nat], []); (Munmap 0x60001000 0x1000, [Some 2%nat], [0])].

Lemma mm_names_exact_witness : exists mm X l, demo_run demo_names = Some mm /\ space X l mm /\
  forall p x, named (mm_events mm) p x = true <->
    exists c, (p, c) ∈ l /\ dispatchable c = true /\ c_start c <= x < c_end c.
Proof.
  unfold demo_run. apply (mm_names_exact MM_WX_STRIP false 0 false 0x60000000 demo_names); [by vm_compute..| |done].
  apply allowedb_sound. by vm_compute.
Defined.

Lemma mm_destroy_frees_all_witness : exists X mm', space X demo_list demo_mm /\ mm_destroy demo_mm = Some mm' /\
  forall p, mm_segs mm' !! p = None <-> X p = 0.
Proof.
  destruct demo_space as (X & Sp & _). destruct (mm_destroy_frees_all X demo_list demo_mm Sp) as (mm' & H).
  exists X, mm'. exact (conj Sp H).
Defined.

(** A record behind the anonymous mapping, with the same attributes. *)
Definition demo_fill (r : mm_seg_t) : mm_seg_t :=
  r {{ sg_start := 0x60005000; sg_end := 0x60006000; sg_vm_flags := 19; sg_pte_flags := 215; sg_vmar_cap := 3 }}.

Definition demo_new : mm_struct_t :=
  default demo_mm ('(mm, p) ← mm_seg_new demo_mm; p ← p; sg_upd mm p demo_fill).

Lemma demo_new_space X : space X demo_list demo_mm -> space (add1 X 5) demo_list demo_new.
Proof.
  intros [I Ho L Hb]. unfold demo_new. destruct (fresh_new X demo_list demo_mm I) as [(mm2 & E & Hm & _)|(mm2 & p & E & F & R & _)].
  - exfalso. destruct Hm as [Hm|Hm]; vm_compute in Hm; done.
  - assert (Ep : snd <$> mm_seg_new demo_mm = Some (Some 5%nat)) by (by vm_compute).
    rewrite E in Ep. injection Ep as ->. rewrite E. cbn [mbind option_bind].
    destruct (fresh_upd X demo_list mm2 5 seg_zero demo_fill F) as (mm3 & -> & F3 & R3 & _); [done|done|].
    split; [apply F3|done|done|]. change (in_u64 (mm_mmap_base mm3)).
    by rewrite (limits_base _ _ (rest_limits _ _ R3)), (limits_base _ _ (rest_limits _ _ R)).
Qed.

Lemma mm_insert_vma_refines_witness : exists X mm' l', space (add1 X 5) demo_list demo_new /\
  mm_insert_vma demo_new 5 = Some mm' /\ space X l' mm' /\
  forall x, view l' x = if inside 0x60005000 0x60006000 x then Some (attr (core (demo_fill seg_zero)) x) else view demo_list x.
Proof.
  destruct demo_space as (X & Sp & B). pose proof (demo_new_space X Sp) as Sn.
  destruct (mm_insert_vma_refines X demo_list demo_new 5 (demo_fill seg_zero) Sn) as (mm' & l' & E & Sp' & V).
  - apply Sp.
  - by apply (bool_decide_unpack (5%nat ∉ demo_list.*1)).
  - by vm_compute.
  - by vm_compute.
  - by vm_compute.
  - intros q d Hq. left.
    assert (D : Forall (fun y => c_end y.2 <= 0x60005000) demo_list) by (by repeat constructor).
    by apply (proj1 (list.Forall_forall _ _) D (q, d) Hq).
  - exists X, mm', l'. exact (conj Sn (conj E (conj Sp' V))).
Defined.
