(* ===== verification/AddrLimits.v ===== *)
(** * Address spaces: the edges

    What the address-space calls do where their contract ends: inputs and
    states the theorems of AddrClaims.v exclude, each shown on a concrete
    sequence of calls. *)

From stdpp Require Import gmap.
From S2P Require Import Prelude AddrSpace AddrTheory AddrView AddrHist AddrClaims.

(** The ranges of the mappings after some calls. *)
Definition ranges (mm : option mm_struct_t) : option (list (Z * Z)) :=
  mm ← mm; l ← mappings mm; Some (map (fun y => (c_start y.2, c_end y.2)) l).

(** The result of a call on the address space some calls leave. *)
Definition result (mm : option mm_struct_t) (c : mm_call) : option Z :=
  mm ← mm; '(_, r) ← do_call MM_WX_STRIP false 0 false mm c; Some r.

(** [mm_mmap_vmo_locked] tests a hint only against the mapping that covers
    its first address: a VMO mapping that begins in a gap goes over the
    mapping behind the gap. *)
Lemma vmo_hint_overlaps :
  ranges (demo_run [(Mmap 0x60003000 0x2000 3 0x32, [Some 1%nat], []);
                    (MmapVmo 0x60002000 0x2000 3 1 5 0x10000 0, [Some 2%nat], [])]) =
  Some [(0x60002000, 0x60004000); (0x60003000, 0x60005000)].
Proof. by vm_compute. Qed.

(** [mm_brk_locked] leaves the mapping when the break moves down, so that
    moving it up again is refused. *)
Lemma brk_regrow_refused :
  let mm := (mm_create 0) {{ mm_brk := 0x10000; mm_start_brk := 0x10000 }} in
  let mm := run MM_WX_STRIP false 0 false mm [(Brk 0x13000, [Some 1%nat], []); (Brk 0x11000, [], [0])] in
  ranges mm = Some [(0x10000, 0x13000)] /\ mm_brk <$> mm = Some 0x11000 /\
  result mm (Brk 0x12000) = Some 0x11000.
Proof. by vm_compute. Qed.

(** A length within a page of 2^64 rounds to 0: the calls report success and
    do nothing, also where nothing is mapped. *)
Lemma huge_length_succeeds :
  let mm := Some (mm_create 0x60000000) in
  result mm (Munmap 0x1000 0xffffffffffffffff) = Some 0 /\
  result mm (Mprotect 0x1000 0xffffffffffffffff 1) = Some 0 /\
  result mm (Mseal 0x1000 0xffffffffffffffff) = Some 0.
Proof. by vm_compute. Qed.

(** A hint that is not page aligned is taken as it is. *)
Lemma unaligned_hint_taken :
  ranges (demo_run [(Mmap 0x60000800 0x1000 3 0x22, [Some 1%nat], [])]) = Some [(0x60000800, 0x60001800)].
Proof. by vm_compute. Qed.

(** The permission ceilings of mappings are not compared when they merge: a
    mapping created and kept read-only takes the ceiling of the one before it,
    which was created writable. *)
Lemma merge_widens_cap :
  let mm := demo_run [(MmapVmo 0x60001000 0x1000 3 0x11 5 0x10000 0, [Some 1%nat], []);
                      (Mprotect 0x60001000 0x1000 1, [], [0]);
                      (MmapVmo 0x60002000 0x1000 1 0x11 5 0x10000 0x1000, [Some 2%nat], []);
                      (Mprotect 0x60002000 0x1000 1, [], [0])] in
  ranges mm = Some [(0x60001000, 0x60003000)] /\
  (mm ← mm; l ← mappings mm; Some (map (fun y => c_cap y.2) l)) = Some [3].
Proof. by vm_compute. Qed.

(** The merge at the end of [mm_mprotect_locked] leaves the absorbed record
    named in the page table. *)
Lemma mprotect_merge_leaves_name :
  let mm := demo_run [(MmapFile 0x60001000 0x1000 3 0x11 7 (Some 9) 0, [Some 1%nat], []);
                      (MmapFile 0x60002000 0x1000 1 0x11 7 (Some 9) 0x1000, [Some 2%nat], []);
                      (Mprotect 0x60001000 0x1000 1, [], [0]); (Mprotect 0x60002000 0x1000 1, [], [0])] in
  (mm ← mm; l ← mappings mm; Some (map fst l, named (mm_events mm) 2 0x60002000)) = Some ([1%nat], true).
Proof. by vm_compute. Qed.

(** A SysV segment over two pages, attached once. *)
Definition shm_space : option mm_struct_t :=
  mm ← demo_run [(Mmap 0x60001000 0x2000 3 0x31, [Some 1%nat], [])];
  sg_upd mm 1 (fun r => r {{ sg_vm_flags := Z.lor (sg_vm_flags r) VM_SYSV_SHM; sg_sysv_shmid := 4 }}).

(** Protecting half of it makes two records and takes no second reference to
    the segment; unmapping both drops two. *)
Lemma shm_split_unbalanced :
  (mm ← shm_space;
   mm ← run MM_WX_STRIP false 0 false mm
          [(Mprotect 0x60001000 0x1000 1, [Some 2%nat], [0]); (Munmap 0x60001000 0x2000, [], [0; 0]); (Flush, [], [])];
   Some (take 2 (mm_events mm), existsb (fun e => match e with ShmRef _ => true | _ => false end) (mm_events mm))) =
  Some ([ShmUnref 4; ShmUnref 4], false).
Proof. by vm_compute. Qed.

(** The walk of [mm_seg_find] panics on any list of more than 100000 mappings
    below the address. *)
Lemma find_panics_on_many mm addr : forall l n v steps m lst, dseg (mm_segs mm) m v l lst None ->
  (forall p c, (p, c) ∈ l -> c_start c <= addr /\ c_end c <= addr) ->
  steps <= 100000 -> steps + Z.of_nat (length l) > 100000 -> list_search n mm addr v steps = None.
Proof.
  induction l as [|[p c] l IH]; intros n v steps m lst Hd Hb Hs Hl; [cbn in Hl; lia|].
  destruct Hd as (-> & r & Hr & Ec & _ & Hd). destruct n as [|n]; [done|]. cbn [list_search].
  rewrite Z.gtb_ltb. destruct (Z.ltb_spec 100000 (steps + 1)); [done|].
  unfold sg. rewrite Hr. cbn [mbind option_bind].
  destruct (Hb p c) as [H1 H2]; [by left|]. subst c. cbn in H1, H2.
  rewrite (proj2 (Z.ltb_ge addr (sg_end r))), Z.gtb_ltb, (proj2 (Z.ltb_ge addr (sg_start r))) by done. cbn [andb].
  apply (IH n _ (steps + 1) (Some p) lst); [done| |lia|cbn [length] in Hl; lia]. intros q d Hq. apply (Hb q d). by right.
Qed.
