(* ===== verification/Memory.v ===== *)
(** * Byte-addressed memory

    A memory is the map of the addresses that may be accessed to the bytes they
    hold; an access anywhere else is a fault.  A word is its bytes, least
    significant first. *)

From stdpp Require Import gmap.
From S2P Require Import Prelude.

Abbreviation mem := (gmap Z Z).

Definition st8 (m : mem) (a v : Z) : option mem :=
  match m !! a with Some _ => Some (<[a := v]> m) | None => None end.

(** Words of [n] bytes. *)
Fixpoint ld (n : nat) (m : mem) (a : Z) : option Z :=
  match n with
  | O => Some 0
  | S n' => b ← m !! a; r ← ld n' m (a + 1); Some (b + 256 * r)
  end.

Fixpoint st (n : nat) (m : mem) (a v : Z) : option mem :=
  match n with
  | O => Some m
  | S n' => m ← st8 m a (v mod 256); st n' m (a + 1) (v / 256)
  end.

(** [m] with the bytes [l] from [a] on. *)
Fixpoint upd (m : mem) (a : Z) (l : list Z) : mem :=
  match l with
  | [] => m
  | b :: l' => <[a := b]> (upd m (a + 1) l')
  end.

(** The [n] bytes from [a] on. *)
Fixpoint bytes (m : mem) (a : Z) (n : nat) : option (list Z) :=
  match n with
  | O => Some []
  | S n' => b ← m !! a; l ← bytes m (a + 1) n'; Some (b :: l)
  end.

(** The bytes of a word. *)
Fixpoint le (n : nat) (v : Z) : list Z :=
  match n with
  | O => []
  | S n' => v mod 256 :: le n' (v / 256)
  end.

(** ** Laws *)

Lemma upd_lookup m a l x : upd m a l !! x =
  if (a <=? x) && (x <? a + Z.of_nat (length l)) then l !! Z.to_nat (x - a) else m !! x.
Proof.
  revert a. induction l as [|b l IH]; intros a; cbn [upd length].
  { destruct (Z.leb_spec a x), (Z.ltb_spec x (a + Z.of_nat 0)); done || lia. }
  destruct (decide (x = a)) as [->|Hne].
  - rewrite lookup_insert_eq, (proj2 (Z.leb_le a a)), (proj2 (Z.ltb_lt _ _)), Z.sub_diag by lia. done.
  - rewrite lookup_insert_ne, IH by done.
    destruct (Z.leb_spec (a + 1) x), (Z.leb_spec a x), (Z.ltb_spec x (a + 1 + Z.of_nat (length l))),
      (Z.ltb_spec x (a + Z.of_nat (S (length l)))); try done; try lia. cbn [andb].
    replace (Z.to_nat (x - a)) with (S (Z.to_nat (x - (a + 1)))) by lia. done.
Qed.

Lemma upd_in m a l x : a <= x < a + Z.of_nat (length l) -> upd m a l !! x = l !! Z.to_nat (x - a).
Proof. intros H. by rewrite upd_lookup, (proj2 (Z.leb_le _ _)), (proj2 (Z.ltb_lt _ _)) by lia. Qed.

Lemma upd_out m a l x : ~ (a <= x < a + Z.of_nat (length l)) -> upd m a l !! x = m !! x.
Proof. intros H. rewrite upd_lookup. destruct (Z.leb_spec a x), (Z.ltb_spec x (a + Z.of_nat (length l))); done || lia. Qed.

Lemma upd_app m a l k : upd m a (l ++ k) = upd (upd m (a + Z.of_nat (length l)) k) a l.
Proof.
  revert a. induction l as [|b l IH]; intros a; cbn [upd app length]; [by rewrite Z.add_0_r|].
  rewrite IH. do 3 f_equal. lia.
Qed.

(** Writes to different places commute. *)
Lemma upd_comm m a l b k : a + Z.of_nat (length l) <= b \/ b + Z.of_nat (length k) <= a ->
  upd (upd m a l) b k = upd (upd m b k) a l.
Proof.
  intros H. apply map_eq. intros x. rewrite !upd_lookup.
  destruct (Z.leb_spec b x), (Z.ltb_spec x (b + Z.of_nat (length k))), (Z.leb_spec a x),
    (Z.ltb_spec x (a + Z.of_nat (length l))); done || lia.
Qed.

Lemma upd_dom m a l x : (forall y, a <= y < a + Z.of_nat (length l) -> is_Some (m !! y)) ->
  is_Some (upd m a l !! x) <-> is_Some (m !! x).
Proof.
  intros H. rewrite upd_lookup.
  destruct (Z.leb_spec a x), (Z.ltb_spec x (a + Z.of_nat (length l))); try done. cbn [andb].
  split; intros _; [apply H; lia|]. apply lookup_lt_is_Some. lia.
Qed.

Lemma bytes_lookup m a n l : bytes m a n = Some l <->
  length l = n /\ forall i, (i < n)%nat -> m !! (a + Z.of_nat i) = l !! i.
Proof.
  revert a l. induction n as [|n IH]; intros a l; cbn [bytes].
  { split; [intros [= <-]; split; [done|]; intros; lia|]. intros [H _]. by destruct l. }
  destruct (m !! a) as [b|] eqn:Ea; cbn [mbind option_bind].
  2:{ split; [done|]. intros [Hl H]. specialize (H 0%nat ltac:(lia)). rewrite Z.add_0_r, Ea in H. by destruct l. }
  destruct (bytes m (a + 1) n) as [k|] eqn:Ek; cbn [mbind option_bind].
  - apply IH in Ek as [Hk Ek]. split.
    + intros [= <-]. cbn. split; [lia|]. intros [|i] Hi; [by rewrite Z.add_0_r|].
      cbn. rewrite <- Ek by lia. f_equal. lia.
    + intros [Hl H]. destruct l as [|b' l]; [done|]. pose proof (H 0%nat ltac:(lia)) as H0. rewrite Z.add_0_r, Ea in H0.
      injection H0 as <-. do 2 f_equal. apply list_eq. intros i. injection Hl as Hl.
      destruct (decide (i < n)%nat).
      * trans (m !! (a + 1 + Z.of_nat i)); [symmetry; apply Ek; lia|].
        trans (m !! (a + Z.of_nat (S i))); [f_equal; lia|]. apply (H (S i)). lia.
      * rewrite !lookup_ge_None_2; [done|lia|lia].
  - split; [done|]. intros [Hl H]. destruct l as [|b' l]; [done|]. exfalso.
    assert (bytes m (a + 1) n = Some l) as E; [|congruence].
    apply IH. injection Hl as Hl. split; [done|]. intros i Hi.
    trans (m !! (a + Z.of_nat (S i))); [f_equal; lia|]. apply (H (S i)). lia.
Qed.

Lemma bytes_length m a n l : bytes m a n = Some l -> length l = n.
Proof. intros H. by apply bytes_lookup in H as [H _]. Qed.

Lemma bytes_is_Some m a n : is_Some (bytes m a n) <-> forall x, a <= x < a + Z.of_nat n -> is_Some (m !! x).
Proof.
  revert a. induction n as [|n IH]; intros a; cbn [bytes].
  { split; [intros _ x; lia|]. intros _. by exists []. }
  split.
  - intros [l H] x Hx. destruct (m !! a) as [b|] eqn:Ea; [|done]. cbn in H.
    destruct (bytes m (a + 1) n) as [k|] eqn:Ek; [|done].
    destruct (decide (x = a)) as [->|]; [by rewrite Ea|]. apply (proj1 (IH (a + 1))); [by rewrite Ek|lia].
  - intros H. destruct (H a ltac:(lia)) as [b ->]. cbn.
    destruct (proj2 (IH (a + 1))) as [k ->]; [|by eexists]. intros x Hx. apply H. lia.
Qed.

(** What was read back. *)
Lemma bytes_upd_eq m a l : bytes (upd m a l) a (length l) = Some l.
Proof.
  apply bytes_lookup. split; [done|]. intros i Hi. rewrite upd_in by lia. f_equal. lia.
Qed.

Lemma bytes_ext m m' a n : (forall x, a <= x < a + Z.of_nat n -> m' !! x = m !! x) -> bytes m' a n = bytes m a n.
Proof.
  revert a. induction n as [|n IH]; intros a H; cbn [bytes]; [done|].
  rewrite (H a), IH by lia || (intros; apply H; lia). done.
Qed.

Lemma bytes_upd_out m a l b n : b + Z.of_nat n <= a \/ a + Z.of_nat (length l) <= b ->
  bytes (upd m a l) b n = bytes m b n.
Proof. intros H. apply bytes_ext. intros x Hx. apply upd_out. lia. Qed.

(** Writing what is there. *)
Lemma upd_id m a l : bytes m a (length l) = Some l -> upd m a l = m.
Proof.
  intros [_ H]%bytes_lookup. apply map_eq. intros x. rewrite upd_lookup.
  destruct (Z.leb_spec a x), (Z.ltb_spec x (a + Z.of_nat (length l))); try done. cbn [andb].
  rewrite <- H by lia. f_equal. lia.
Qed.

Lemma bytes_app m a n k l r : bytes m a n = Some l -> bytes m (a + Z.of_nat n) k = Some r ->
  bytes m a (n + k) = Some (l ++ r).
Proof.
  intros [Hl H1]%bytes_lookup [Hr H2]%bytes_lookup. apply bytes_lookup. rewrite length_app. split; [lia|].
  intros i Hi. destruct (decide (i < n)%nat); [rewrite lookup_app_l by lia; by apply H1|].
  rewrite lookup_app_r, Hl by lia. rewrite <- H2 by lia. f_equal. lia.
Qed.

Lemma bytes_take m a n k l : bytes m a (n + k) = Some l ->
  bytes m a n = Some (take n l) /\ bytes m (a + Z.of_nat n) k = Some (drop n l).
Proof.
  intros [Hl H]%bytes_lookup. split; apply bytes_lookup.
  - rewrite length_take. split; [lia|]. intros i Hi. rewrite H, lookup_take_lt by lia. done.
  - rewrite length_drop. split; [lia|]. intros i Hi. rewrite lookup_drop, <- H by lia. f_equal. lia.
Qed.

(** ** Words *)

Lemma le_length n v : length (le n v) = n.
Proof. revert v. induction n; intros v; cbn; congruence. Qed.

Lemma le_bytes n v : Forall in_u8 (le n v).
Proof. revert v. induction n; intros v; cbn; constructor; [unfold in_u8; zlia|done]. Qed.

Lemma st8_eq m a v : is_Some (m !! a) -> st8 m a v = Some (<[a := v]> m).
Proof. intros [b H]. unfold st8. by rewrite H. Qed.

Lemma st_eq n m a v : (forall x, a <= x < a + Z.of_nat n -> is_Some (m !! x)) -> st n m a v = Some (upd m a (le n v)).
Proof.
  revert m a v. induction n as [|n IH]; intros m a v H; cbn [st upd le]; [done|].
  rewrite st8_eq by (apply H; lia). cbn [mbind option_bind]. rewrite IH.
  - f_equal. apply (upd_comm m a [v mod 256]). cbn. lia.
  - intros x Hx. rewrite lookup_insert_ne by lia. apply H. lia.
Qed.

Fixpoint unle (l : list Z) : Z :=
  match l with [] => 0 | b :: l' => b + 256 * unle l' end.

Lemma ld_eq n m a l : bytes m a n = Some l -> ld n m a = Some (unle l).
Proof.
  revert a l. induction n as [|n IH]; intros a l; cbn [ld bytes]; [by intros [= <-]|].
  destruct (m !! a) as [b|]; [|done]. cbn. destruct (bytes m (a + 1) n) as [k|] eqn:Ek; [|done].
  cbn. intros [= <-]. by rewrite (IH _ _ Ek).
Qed.

Lemma unle_le n v : 0 <= v < 256 ^ Z.of_nat n -> unle (le n v) = v.
Proof.
  revert v. induction n as [|n IH]; intros v Hv; cbn [unle le].
  - change (256 ^ Z.of_nat 0) with 1 in Hv. lia.
  - rewrite Nat2Z.inj_succ, Z.pow_succ_r in Hv by lia. rewrite IH by zlia. zlia.
Qed.

Lemma le_unle l : Forall in_u8 l -> le (length l) (unle l) = l.
Proof.
  induction 1 as [|b l Hb _ IH]; cbn [le length unle]; [done|]. unfold in_u8 in Hb.
  replace ((b + 256 * unle l) mod 256) with b by zlia. replace ((b + 256 * unle l) / 256) with (unle l) by zlia.
  by rewrite IH.
Qed.

Lemma unle_range l : Forall in_u8 l -> 0 <= unle l < 256 ^ Z.of_nat (length l).
Proof.
  induction 1 as [|b l Hb _ IH]; cbn [unle length]; [change (256 ^ Z.of_nat 0) with 1; lia|].
  rewrite Nat2Z.inj_succ, Z.pow_succ_r by lia. unfold in_u8 in Hb. lia.
Qed.

(** All cells hold bytes. *)
Definition bytewise (m : mem) : Prop := forall a b, m !! a = Some b -> in_u8 b.

Lemma bytewise_upd m a l : bytewise m -> Forall in_u8 l -> bytewise (upd m a l).
Proof.
  intros H F x b. rewrite upd_lookup. destruct (_ && _); [|apply H]. by apply Forall_lookup_1.
Qed.

Lemma bytewise_bytes m a n l : bytewise m -> bytes m a n = Some l -> Forall in_u8 l.
Proof.
  intros H [Hl E]%bytes_lookup. apply Forall_lookup. intros i b Hb. apply (H (a + Z.of_nat i)).
  rewrite E; [done|]. apply lookup_lt_Some in Hb. lia.
Qed.

(** A word written and read back. *)
Lemma ld_upd_eq n m a v : 0 <= v < 256 ^ Z.of_nat n -> ld n (upd m a (le n v)) a = Some v.
Proof.
  intros Hv. rewrite (ld_eq n _ _ (le n v)), unle_le; [done|done|].
  rewrite <- (le_length n v) at 2. apply bytes_upd_eq.
Qed.

Lemma ld_ext n m m' a : (forall x, a <= x < a + Z.of_nat n -> m' !! x = m !! x) -> ld n m' a = ld n m a.
Proof.
  revert a. induction n as [|n IH]; intros a H; cbn [ld]; [done|].
  rewrite (H a), IH by lia || (intros; apply H; lia). done.
Qed.
