(* ===== verification/CString.v ===== *)
(** * Strings and blocks of memory (kernel/core/string.c)

    Addresses are integers, a NULL pointer is 0; a [char] is its byte.  A loop
    that follows a string has one step more than there are bytes in memory,
    which is more than it can take before it faults.  [char_signed] tells
    whether plain [char] is signed, which the architectures decide
    differently. *)

From stdpp Require Import gmap.
From S2P Require Import Prelude Memory.

Definition steps (m : mem) : nat := S (size m).

Fixpoint strlen_loop (k : nat) (m : mem) (s n : Z) : option Z :=
  match k with
  | O => None
  | S k' => c ← m !! (s + n); if c_true c then strlen_loop k' m s (n + 1) else Some n
  end.

Definition strlen (m : mem) (s : Z) : option Z := strlen_loop (steps m) m s 0.

Fixpoint strcmp_loop (k : nat) (m : mem) (s1 s2 : Z) : option Z :=
  match k with
  | O => None
  | S k' =>
      c1 ← m !! s1; c2 ← m !! s2;
      if c_true c1 && (c1 =? c2) then strcmp_loop k' m (s1 + 1) (s2 + 1) else Some (c1 - c2)
  end.

Definition strcmp (m : mem) (s1 s2 : Z) : option Z := strcmp_loop (steps m) m s1 s2.

Fixpoint strncmp_loop (k : nat) (m : mem) (s1 s2 n : Z) : option Z :=
  match k with
  | O => None
  | S k' =>
      if n =? 0 then Some 0
      else
        c1 ← m !! s1; c2 ← m !! s2;
        if c_true c1 && (c1 =? c2) then strncmp_loop k' m (s1 + 1) (s2 + 1) (n - 1)
        else Some (c1 - c2)
  end.

Definition strncmp (m : mem) (s1 s2 n : Z) : option Z := strncmp_loop (steps m) m s1 s2 n.

(** [while (( *d++ = *s++));] *)
Fixpoint copy_loop (k : nat) (m : mem) (d s : Z) : option mem :=
  match k with
  | O => None
  | S k' => c ← m !! s; m ← st8 m d c; if c_true c then copy_loop k' m (d + 1) (s + 1) else Some m
  end.

Definition strcpy (m : mem) (d s : Z) : option (mem * Z) :=
  m ← copy_loop (steps m) m d s; Some (m, d).

(** The first loop of [strncpy]: the index it ends with. *)
Fixpoint strncpy_loop (k : nat) (m : mem) (d s i n : Z) : option (mem * Z) :=
  match k with
  | O => None
  | S k' =>
      if i <? n then
        c ← m !! (s + i);
        if c_true c then m ← st8 m (d + i) c; strncpy_loop k' m d s (i + 1) n else Some (m, i)
      else Some (m, i)
  end.

Definition strncpy (m : mem) (d s n : Z) : option (mem * Z) :=
  '(m, i) ← strncpy_loop (steps m) m d s 0 n;
  m ← for_ i n (fun i m => st8 m (d + i) 0) m;
  Some (m, d).

(** [while ( *d) d++;] *)
Fixpoint end_loop (k : nat) (m : mem) (d : Z) : option Z :=
  match k with
  | O => None
  | S k' => c ← m !! d; if c_true c then end_loop k' m (d + 1) else Some d
  end.

Definition strcat (m : mem) (d s : Z) : option (mem * Z) :=
  e ← end_loop (steps m) m d;
  m ← copy_loop (steps m) m e s;
  Some (m, d).

Fixpoint strchr_loop (k : nat) (m : mem) (s c : Z) : option Z :=
  match k with
  | O => None
  | S k' =>
      b ← m !! s;
      if c_true b then if b =? u8 c then Some s else strchr_loop k' m (s + 1) c else Some 0
  end.

Definition strchr (m : mem) (s c : Z) : option Z := strchr_loop (steps m) m s c.

Fixpoint strrchr_loop (k : nat) (m : mem) (s c last : Z) : option Z :=
  match k with
  | O => None
  | S k' =>
      b ← m !! s;
      if c_true b then strrchr_loop k' m (s + 1) c (if b =? u8 c then s else last) else Some last
  end.

Definition strrchr (m : mem) (s c : Z) : option Z := strrchr_loop (steps m) m s c 0.

Fixpoint strstr_loop (k : nat) (m : mem) (haystack needle nlen : Z) : option Z :=
  match k with
  | O => None
  | S k' =>
      h ← m !! haystack;
      if c_true h then
        n ← m !! needle;
        same ← (if h =? n then r ← strncmp m haystack needle nlen; Some (r =? 0) else Some false);
        if (same : bool) then Some haystack else strstr_loop k' m (haystack + 1) needle nlen
      else Some 0
  end.

Definition strstr (m : mem) (haystack needle : Z) : option Z :=
  nlen ← strlen m needle;
  if nlen =? 0 then Some haystack else strstr_loop (steps m) m haystack needle nlen.

(** [while ( *str && strchr(delim, *str)) str++;], with the test of strchr
    negated if [inside] is false. *)
Fixpoint span_loop (k : nat) (m : mem) (inside : bool) (str delim : Z) : option Z :=
  match k with
  | O => None
  | S k' =>
      c ← m !! str;
      if c_true c then
        d ← strchr m delim c;
        if Bool.eqb (c_true d) inside then span_loop k' m inside (str + 1) delim else Some str
      else Some str
  end.

(** [saveptr] is the pointer the caller keeps, [None] if it gives no place for
    one; the result is the token and the pointer kept from then on. *)
Definition strtok_r (m : mem) (str delim : Z) (saveptr : option Z) : option (mem * Z * Z) :=
  match saveptr with
  | None => Some (m, 0, 0)
  | Some save =>
      let str := if c_true str then str else save in
      if negb (c_true str) then Some (m, 0, save)
      else
        str ← span_loop (steps m) m true str delim;
        c ← m !! str;
        if negb (c_true c) then Some (m, 0, 0)
        else
          e ← span_loop (steps m) m false str delim;
          c ← m !! e;
          if c_true c then m ← st8 m e 0; Some (m, str, e + 1)
          else Some (m, str, 0)
  end.

Fixpoint memcmp_loop (k : nat) (m : mem) (a b : Z) : option Z :=
  match k with
  | O => Some 0
  | S k' =>
      x ← m !! a; y ← m !! b;
      if x =? y then memcmp_loop k' m (a + 1) (b + 1) else Some (x - y)
  end.

Definition memcmp (m : mem) (s1 s2 n : Z) : option Z := memcmp_loop (Z.to_nat n) m s1 s2.

(** ** Filling and copying *)

(** [while (n--) *p++ = v;] *)
Fixpoint fill_loop (k : nat) (m : mem) (p v : Z) : option mem :=
  match k with
  | O => Some m
  | S k' => m ← st8 m p v; fill_loop k' m (p + 1) v
  end.

(** The bytes up to a word boundary. *)
Fixpoint fill_align (k : nat) (m : mem) (p v n : Z) : option (mem * Z * Z) :=
  if (8 <=? n) && c_true (Z.land p 7) then
    match k with
    | O => None
    | S k' => m ← st8 m p v; fill_align k' m (p + 1) v (n - 1)
    end
  else Some (m, p, n).

Fixpoint fill_blocks (k : nat) (m : mem) (p w n : Z) : option (mem * Z * Z) :=
  if 64 <=? n then
    match k with
    | O => None
    | S k' =>
        m ← st 8 m p w; m ← st 8 m (p + 8) w; m ← st 8 m (p + 16) w; m ← st 8 m (p + 24) w;
        m ← st 8 m (p + 32) w; m ← st 8 m (p + 40) w; m ← st 8 m (p + 48) w; m ← st 8 m (p + 56) w;
        fill_blocks k' m (p + 64) w (n - 64)
    end
  else Some (m, p, n).

Fixpoint fill_words (k : nat) (m : mem) (p w n : Z) : option (mem * Z * Z) :=
  if 8 <=? n then
    match k with
    | O => None
    | S k' => m ← st 8 m p w; fill_words k' m (p + 8) w (n - 8)
    end
  else Some (m, p, n).

(** The word of eight equal bytes. *)
Definition fill_word (v : Z) : Z :=
  let w := v in
  let w := Z.lor w (u64 (Z.shiftl w 8)) in
  let w := Z.lor w (u64 (Z.shiftl w 16)) in
  Z.lor w (u64 (Z.shiftl w 32)).

Definition memset (m : mem) (s c n : Z) : option (mem * Z) :=
  let v := u8 c in
  '(m, p, n) ← fill_align (Z.to_nat n) m s v n;
  '(m, p, n) ←
    (if 8 <=? n then
       let w := fill_word v in
       '(m, p, n) ← fill_blocks (Z.to_nat n) m p w n;
       fill_words (Z.to_nat n) m p w n
     else Some (m, p, n));
  m ← fill_loop (Z.to_nat n) m p v;
  Some (m, s).

(** [while (n--) *dp++ = *sp++;] *)
Fixpoint move_up (k : nat) (m : mem) (d s : Z) : option mem :=
  match k with
  | O => Some m
  | S k' => c ← m !! s; m ← st8 m d c; move_up k' m (d + 1) (s + 1)
  end.

(** [dw[i] = sw[i];] *)
Definition copy_word (m : mem) (d s i : Z) : option mem :=
  w ← ld 8 m (s + 8 * i); st 8 m (d + 8 * i) w.

Fixpoint copy_blocks (k : nat) (m : mem) (d s n : Z) : option (mem * Z * Z * Z) :=
  if 64 <=? n then
    match k with
    | O => None
    | S k' =>
        m ← copy_word m d s 0; m ← copy_word m d s 1; m ← copy_word m d s 2; m ← copy_word m d s 3;
        m ← copy_word m d s 4; m ← copy_word m d s 5; m ← copy_word m d s 6; m ← copy_word m d s 7;
        copy_blocks k' m (d + 64) (s + 64) (n - 64)
    end
  else Some (m, d, s, n).

Fixpoint copy_words (k : nat) (m : mem) (d s n : Z) : option (mem * Z * Z * Z) :=
  if 8 <=? n then
    match k with
    | O => None
    | S k' => m ← copy_word m d s 0; copy_words k' m (d + 8) (s + 8) (n - 8)
    end
  else Some (m, d, s, n).

(** The loop for short copies, with its test of the alignment in each round. *)
Fixpoint copy_aligned (k : nat) (m : mem) (d s n : Z) : option (mem * Z * Z * Z) :=
  if (8 <=? n) && negb (c_true (Z.land d 7)) && negb (c_true (Z.land s 7)) then
    match k with
    | O => None
    | S k' => m ← copy_word m d s 0; copy_aligned k' m (d + 8) (s + 8) (n - 8)
    end
  else Some (m, d, s, n).

Definition memcpy (m : mem) (d s n : Z) : option (mem * Z) :=
  '(m, dp, sp, n) ←
    (if (64 <=? n) && negb (c_true (Z.land d 7)) && negb (c_true (Z.land s 7)) then
       '(m, dp, sp, n) ← copy_blocks (Z.to_nat n) m d s n;
       copy_words (Z.to_nat n) m dp sp n
     else copy_aligned (Z.to_nat n) m d s n);
  m ← move_up (Z.to_nat n) m dp sp;
  Some (m, d).

(** [while (n--) *--dp = *--sp;] *)
Fixpoint move_down (k : nat) (m : mem) (d s : Z) : option mem :=
  match k with
  | O => Some m
  | S k' => c ← m !! (s - 1); m ← st8 m (d - 1) c; move_down k' m (d - 1) (s - 1)
  end.

Definition memmove (m : mem) (d s n : Z) : option (mem * Z) :=
  m ← (if d <? s then move_up (Z.to_nat n) m d s else move_down (Z.to_nat n) m (d + n) (s + n));
  Some (m, d).

Fixpoint memchr_loop (k : nat) (m : mem) (p c : Z) : option Z :=
  match k with
  | O => Some 0
  | S k' => b ← m !! p; if b =? u8 c then Some p else memchr_loop k' m (p + 1) c
  end.

Definition memchr (m : mem) (s c n : Z) : option Z := memchr_loop (Z.to_nat n) m s c.

(** ** Numbers *)

Fixpoint skip_blanks (k : nat) (m : mem) (s : Z) : option Z :=
  match k with
  | O => None
  | S k' => c ← m !! s; if (c =? 32) || (c =? 9) then skip_blanks k' m (s + 1) else Some s
  end.

(** [r = r * 10 + ( *s++ - '0')] in a signed type up to [hi]: overflow is
    undefined. *)
Fixpoint digits_loop (k : nat) (m : mem) (s r hi : Z) : option Z :=
  match k with
  | O => None
  | S k' =>
      c ← m !! s;
      if (48 <=? c) && (c <=? 57) then
        let r := r * 10 + (c - 48) in
        if r <=? hi then digits_loop k' m (s + 1) r hi else None
      else Some r
  end.

Definition ato (m : mem) (s hi : Z) : option Z :=
  s ← skip_blanks (steps m) m s;
  c ← m !! s;
  let '(s, sign) := if c =? 45 then (s + 1, -1) else if c =? 43 then (s + 1, 1) else (s, 1) in
  r ← digits_loop (steps m) m s 0 hi;
  Some (sign * r).

Definition atoi (m : mem) (s : Z) : option Z := ato m s 2147483647.

Definition atol (m : mem) (s : Z) : option Z := ato m s I64_MAX.

Section Chars.

Variable char_signed : bool.

(** A [char] as an [int]. *)
Definition char_int (c : Z) : Z := if char_signed && (128 <=? c) then c - 256 else c.

Definition lower (c : Z) : Z := if (65 <=? c) && (c <=? 90) then c + 32 else c.

Fixpoint strcasecmp_loop (k : nat) (m : mem) (s1 s2 : Z) : option Z :=
  match k with
  | O => None
  | S k' =>
      b1 ← m !! s1; b2 ← m !! s2;
      if c_true b1 && c_true b2 then
        let c1 := lower (char_int b1) in
        let c2 := lower (char_int b2) in
        if c1 =? c2 then strcasecmp_loop k' m (s1 + 1) (s2 + 1) else Some (c1 - c2)
      else Some (b1 - b2)
  end.

Definition strcasecmp (m : mem) (s1 s2 : Z) : option Z := strcasecmp_loop (steps m) m s1 s2.

End Chars.

(** [kmalloc] is an argument: the memory and the address, 0 if there is none. *)
Definition strdup (kmalloc : mem -> Z -> option (mem * Z)) (m : mem) (s : Z) : option (mem * Z) :=
  n ← strlen m s;
  let len := n + 1 in
  '(m, d) ← kmalloc m len;
  if c_true d then '(m, _) ← memcpy m d s len; Some (m, d) else Some (m, d).
