(* ===== verification/CStringTheory.v ===== *)
(** * Strings and blocks of memory: what the routines do

    The block routines against one write of the whole block ([upd]), the
    string routines against functions on the lists of characters. *)

From stdpp Require Import gmap.
From S2P Require Import Prelude Memory CString.

(** ** Blocks *)

Definition mapped (m : mem) (a n : Z) : Prop := forall x, a <= x < a + n -> is_Some (m !! x).

Lemma mapped_upd m a l b n : mapped m a (Z.of_nat (length l)) -> mapped m b n -> mapped (upd m a l) b n.
Proof. intros H1 H2 x Hx. apply upd_dom; [exact H1|]. by apply H2. Qed.

Lemma mapped_bytes m a n l : bytes m a n = Some l -> mapped m a (Z.of_nat n).
Proof. intros H x Hx. apply (proj1 (bytes_is_Some m a n)); [by exists l|done]. Qed.

(** A write behind a write. *)
Lemma upd_seq m a l k : upd (upd m a l) (a + Z.of_nat (length l)) k = upd m a (l ++ k).
Proof. rewrite upd_app. apply upd_comm. lia. Qed.

Lemma fill_loop_eq k m p v : mapped m p (Z.of_nat k) -> fill_loop k m p v = Some (upd m p (replicate k v)).
Proof.
  revert m p. induction k as [|k IH]; intros m p H; cbn [fill_loop replicate upd]; [done|].
  rewrite st8_eq by (apply H; lia). cbn [mbind option_bind]. rewrite IH.
  - f_equal. apply (upd_comm m p [v]). cbn. lia.
  - apply (mapped_upd m p [v]); intros x Hx; cbn in *; apply H; lia.
Qed.

(** [m'] is [m] with [j] bytes [v] at [p]; the loop goes on behind them. *)
Definition filled (m : mem) (p v n : Z) (r : option (mem * Z * Z)) (j : nat) : Prop :=
  r = Some (upd m p (replicate j v), p + Z.of_nat j, n - Z.of_nat j) /\ Z.of_nat j <= n.

Lemma filled_step m p v n r i j : mapped m p n -> Z.of_nat i <= n ->
  filled (upd m p (replicate i v)) (p + Z.of_nat i) v (n - Z.of_nat i) r j -> filled m p v n r (i + j).
Proof.
  intros H Hi [-> Hj]. split; [|lia].
  pose proof (upd_seq m p (replicate i v) (replicate j v)) as E. rewrite length_replicate, <- replicate_add in E.
  rewrite E. do 2 f_equal; [f_equal|]; lia.
Qed.

Lemma filled_map m p v n i : mapped m p n -> Z.of_nat i <= n ->
  mapped (upd m p (replicate i v)) (p + Z.of_nat i) (n - Z.of_nat i).
Proof.
  intros H Hi. apply mapped_upd; [rewrite length_replicate|]; intros x Hx; apply H; lia.
Qed.

Lemma fill_align_eq v k m p n : mapped m p n -> 0 <= n <= Z.of_nat k ->
  exists j, filled m p v n (fill_align k m p v n) j.
Proof.
  revert m p n. induction k as [|k IH]; intros m p n H Hn; cbn [fill_align].
  - rewrite (proj2 (Z.leb_gt 8 n)) by lia. cbn [andb]. exists 0%nat. split; [|lia]. cbn. do 2 f_equal; [f_equal|]; lia.
  - destruct (Z.leb_spec 8 n) as [H8|]; cbn [andb].
    2:{ exists 0%nat. split; [|lia]. cbn. do 2 f_equal; [f_equal|]; lia. }
    destruct (c_true _).
    2:{ exists 0%nat. split; [|lia]. cbn. do 2 f_equal; [f_equal|]; lia. }
    rewrite st8_eq by (apply H; lia). cbn [mbind option_bind].
    destruct (IH (upd m p (replicate 1 v)) (p + 1) (n - 1)) as [j Hj]; [|lia|].
    { apply (filled_map m p v n 1); [done|cbn; lia]. }
    exists (1 + j)%nat. by apply (filled_step m p v n _ 1); [|cbn; lia|].
Qed.

(** The word of eight equal bytes is eight equal bytes. *)
Lemma fill_word_le v : in_u8 v -> le 8 (fill_word v) = replicate 8 v.
Proof.
  intros Hv. assert (F : Forall (fun v => le 8 (fill_word v) = replicate 8 v) (seqZ 0 256)).
  { apply (bool_decide_unpack _). by vm_compute. }
  apply (proj1 (list.Forall_forall _ _) F). apply elem_of_seqZ. unfold in_u8 in Hv. lia.
Qed.

Lemma st_word m p v n : mapped m p n -> 8 <= n -> in_u8 v ->
  st 8 m p (fill_word v) = Some (upd m p (replicate 8 v)).
Proof. intros H Hn Hv. rewrite st_eq, fill_word_le; [done|done|]. intros x Hx. apply H. lia. Qed.

Lemma fill_words_eq v k m p n : mapped m p n -> 0 <= n <= Z.of_nat k -> in_u8 v ->
  exists j, filled m p v n (fill_words k m p (fill_word v) n) j.
Proof.
  intros H Hn Hv. revert m p n H Hn. induction k as [|k IH]; intros m p n H Hn; cbn [fill_words].
  - rewrite (proj2 (Z.leb_gt 8 n)) by lia. exists 0%nat. split; [|lia]. cbn. do 2 f_equal; [f_equal|]; lia.
  - destruct (Z.leb_spec 8 n) as [H8|].
    2:{ exists 0%nat. split; [|lia]. cbn. do 2 f_equal; [f_equal|]; lia. }
    rewrite (st_word m p v n) by done. cbn [mbind option_bind].
    destruct (IH (upd m p (replicate 8 v)) (p + 8) (n - 8)) as [j Hj]; [|lia|].
    { apply (filled_map m p v n 8); [done|cbn; lia]. }
    exists (8 + j)%nat. by apply (filled_step m p v n _ 8); [|cbn; lia|].
Qed.

(** Eight words in a row. *)
Lemma st_block {B} (K : mem -> option B) m p v n : mapped m p n -> 64 <= n -> in_u8 v ->
  (let w := fill_word v in
   m ← st 8 m p w; m ← st 8 m (p + 8) w; m ← st 8 m (p + 16) w; m ← st 8 m (p + 24) w;
   m ← st 8 m (p + 32) w; m ← st 8 m (p + 40) w; m ← st 8 m (p + 48) w; m ← st 8 m (p + 56) w; K m) =
  K (upd m p (replicate 64 v)).
Proof.
  intros H Hn Hv. cbv zeta. rewrite (st_word m p v n) by (done || lia). cbn [mbind option_bind].
  assert (Step : forall i z, z = Z.of_nat i -> z + 8 <= n ->
    st 8 (upd m p (replicate i v)) (p + z) (fill_word v) = Some (upd m p (replicate (i + 8) v))).
  { intros i z -> Hin. rewrite (st_word _ _ v (n - Z.of_nat i)) by (apply filled_map; done || lia) || lia || done.
    f_equal. rewrite replicate_add, <- upd_seq, length_replicate. done. }
  rewrite (Step 8%nat 8) by (done || lia). cbn [mbind option_bind plus].
  rewrite (Step 16%nat 16) by (done || lia). cbn [mbind option_bind plus].
  rewrite (Step 24%nat 24) by (done || lia). cbn [mbind option_bind plus].
  rewrite (Step 32%nat 32) by (done || lia). cbn [mbind option_bind plus].
  rewrite (Step 40%nat 40) by (done || lia). cbn [mbind option_bind plus].
  rewrite (Step 48%nat 48) by (done || lia). cbn [mbind option_bind plus].
  by rewrite (Step 56%nat 56) by (done || lia).
Qed.

Lemma fill_blocks_eq v k m p n : mapped m p n -> 0 <= n <= Z.of_nat k -> in_u8 v ->
  exists j, filled m p v n (fill_blocks k m p (fill_word v) n) j.
Proof.
  intros H Hn Hv. revert m p n H Hn. induction k as [|k IH]; intros m p n H Hn; cbn [fill_blocks].
  - rewrite (proj2 (Z.leb_gt 64 n)) by lia. exists 0%nat. split; [|lia]. cbn. do 2 f_equal; [f_equal|]; lia.
  - destruct (Z.leb_spec 64 n) as [H8|].
    2:{ exists 0%nat. split; [|lia]. cbn. do 2 f_equal; [f_equal|]; lia. }
    destruct (IH (upd m p (replicate 64 v)) (p + 64) (n - 64)) as [j Hj]; [|lia|].
    { apply (filled_map m p v n 64); [done|cbn; lia]. }
    exists (64 + j)%nat. apply (filled_step m p v n _ 64); [done|cbn; lia|]. change (Z.of_nat 64) with 64.
    pose proof (st_block (fun m => fill_blocks k m (p + 64) (fill_word v) (n - 64)) m p v n H H8 Hv) as E.
    cbv zeta in E. by rewrite E.
Qed.

(** [memset] is one fill. *)
Lemma memset_eq m s c n : 0 <= n -> mapped m s n ->
  memset m s c n = Some (upd m s (replicate (Z.to_nat n) (u8 c)), s).
Proof.
  intros Hn H. unfold memset. set (v := u8 c). assert (Hv : in_u8 v) by apply u8_range.
  destruct (fill_align_eq v (Z.to_nat n) m s n H ltac:(lia)) as (j & -> & Hj). cbn [mbind option_bind].
  set (m1 := upd m s (replicate j v)). set (p1 := s + Z.of_nat j). set (n1 := n - Z.of_nat j).
  assert (H1 : mapped m1 p1 n1) by (by apply filled_map).
  match goal with |- context [mbind _ ?e] => assert (Hmid : exists i, filled m1 p1 v n1 e i) end.
  { destruct (8 <=? n1); [|exists 0%nat; split; [|lia]; cbn; do 2 f_equal; [f_equal|]; lia].
    destruct (fill_blocks_eq v (Z.to_nat n1) m1 p1 n1 H1) as (i & E & Hi); [lia|done|].
    cbv zeta. rewrite E. cbn [mbind option_bind].
    destruct (fill_words_eq v (Z.to_nat (n1 - Z.of_nat i)) (upd m1 p1 (replicate i v)) (p1 + Z.of_nat i) (n1 - Z.of_nat i))
      as (i2 & Hi2); [by apply filled_map|lia|done|].
    exists (i + i2)%nat. by apply filled_step. }
  destruct Hmid as (i & -> & Hi). cbn [mbind option_bind].
  rewrite fill_loop_eq.
  - cbn [mbind option_bind]. do 2 f_equal. subst m1 p1 n1.
    pose proof (upd_seq m s (replicate j v) (replicate i v)) as E1. rewrite length_replicate in E1. rewrite E1.
    pose proof (upd_seq m s (replicate j v ++ replicate i v) (replicate (Z.to_nat (n - Z.of_nat j - Z.of_nat i)) v)) as E2.
    rewrite length_app, !length_replicate in E2. rewrite Nat2Z.inj_add, Z.add_assoc in E2. rewrite E2.
    rewrite <- !replicate_add. f_equal. f_equal. lia.
  - pose proof (filled_map m1 p1 v n1 i H1 Hi) as H2. intros x Hx. apply H2. lia.
Qed.

(** Copying upwards keeps the bytes still to be read. *)
Definition upward (d s n : Z) : Prop := d <= s \/ s + n <= d.

Lemma bytes_cons m a n l : bytes m a (S n) = Some l ->
  exists b k, l = b :: k /\ m !! a = Some b /\ bytes m (a + 1) n = Some k.
Proof.
  cbn [bytes]. destruct (m !! a) as [b|]; [|done]. cbn. destruct (bytes m (a + 1) n) as [k|]; [|done].
  cbn. intros [= <-]. eauto.
Qed.

Lemma move_up_eq k m d s l : bytes m s k = Some l -> mapped m d (Z.of_nat k) -> upward d s (Z.of_nat k) ->
  move_up k m d s = Some (upd m d l).
Proof.
  revert m d s l. induction k as [|k IH]; intros m d s l Hb Hd Hu; cbn [move_up].
  { injection Hb as <-. done. }
  destruct (bytes_cons _ _ _ _ Hb) as (b & r & -> & E & Hr). rewrite E. cbn [mbind option_bind].
  rewrite st8_eq by (apply Hd; lia). cbn [mbind option_bind]. unfold upward in *.
  rewrite (IH _ _ _ r).
  - f_equal. apply (upd_comm m d [b]). cbn. lia.
  - rewrite <- Hr. apply (bytes_upd_out m d [b]). cbn. lia.
  - apply (mapped_upd m d [b]); intros x Hx; cbn in *; apply Hd; lia.
  - lia.
Qed.

Lemma move_down_eq k m d s l : bytes m s k = Some l -> mapped m d (Z.of_nat k) -> upward s d (Z.of_nat k) ->
  move_down k m (d + Z.of_nat k) (s + Z.of_nat k) = Some (upd m d l).
Proof.
  revert m d s l. induction k as [|k IH]; intros m d s l Hb Hd Hu; cbn [move_down].
  { injection Hb as <-. done. }
  replace (S k) with (k + 1)%nat in Hb by lia. destruct (bytes_take _ _ _ _ _ Hb) as [H1 H2].
  pose proof (bytes_length _ _ _ _ Hb) as Hl.
  destruct (bytes_cons _ _ _ _ H2) as (b & r & Er & E & Hr). cbn in Hr. injection Hr as <-.
  replace (s + Z.of_nat (S k) - 1) with (s + Z.of_nat k) by lia. rewrite E. cbn [mbind option_bind].
  replace (d + Z.of_nat (S k) - 1) with (d + Z.of_nat k) by lia.
  rewrite st8_eq by (apply Hd; lia). cbn [mbind option_bind]. unfold upward in *.
  rewrite (IH _ d s (take k l)).
  - f_equal. rewrite <- (take_drop k l) at 2. rewrite Er, upd_app, length_take, Nat.min_l by lia. done.
  - rewrite <- H1. apply (bytes_upd_out m (d + Z.of_nat k) [b]). cbn. lia.
  - apply (mapped_upd m (d + Z.of_nat k) [b]); intros x Hx; cbn in *; apply Hd; lia.
  - lia.
Qed.

(** [memmove] is right for every overlap. *)
Lemma memmove_eq m d s n l : 0 <= n -> bytes m s (Z.to_nat n) = Some l -> mapped m d n ->
  memmove m d s n = Some (upd m d l, d).
Proof.
  intros Hn Hb Hd. rewrite <- (Z2Nat.id n Hn) in Hd. unfold memmove. destruct (Z.ltb_spec d s).
  - rewrite (move_up_eq _ _ _ _ l); [done|done|done|]. left. lia.
  - rewrite <- (Z2Nat.id n Hn) at 2 3. rewrite (move_down_eq _ _ _ _ l); [done|done|done|]. left. lia.
Qed.

(** ** Copying by words *)

(** The first [j] of the bytes [l] are copied. *)
Definition copied (m : mem) (d s n : Z) (l : list Z) (r : option (mem * Z * Z * Z)) (j : nat) : Prop :=
  r = Some (upd m d (take j l), d + Z.of_nat j, s + Z.of_nat j, n - Z.of_nat j) /\ Z.of_nat j <= n.

(** What is left to copy after [j] bytes. *)
Lemma copied_rest m d s n l j : bytewise m -> bytes m s (Z.to_nat n) = Some l -> mapped m d n -> upward d s n ->
  0 <= n -> Z.of_nat j <= n ->
  let m' := upd m d (take j l) in
  bytewise m' /\ bytes m' (s + Z.of_nat j) (Z.to_nat (n - Z.of_nat j)) = Some (drop j l) /\
  mapped m' (d + Z.of_nat j) (n - Z.of_nat j) /\ upward (d + Z.of_nat j) (s + Z.of_nat j) (n - Z.of_nat j).
Proof.
  intros Hw Hb Hd Hu Hn Hj m'. pose proof (bytes_length _ _ _ _ Hb) as Hl.
  assert (Ht : length (take j l) = j) by (rewrite length_take; lia). unfold upward in *.
  replace (Z.to_nat n) with (j + Z.to_nat (n - Z.of_nat j))%nat in Hb by lia.
  destruct (bytes_take _ _ _ _ _ Hb) as [H1 H2].
  split; [apply bytewise_upd; [done|by apply (bytewise_bytes m s j)]|]. split; [|split; [|lia]].
  - rewrite <- H2. subst m'. apply bytes_upd_out. rewrite Ht. lia.
  - apply mapped_upd; [rewrite Ht|]; intros x Hx; apply Hd; lia.
Qed.

Lemma copied_step m d s n l r i j : bytes m s (Z.to_nat n) = Some l -> 0 <= n -> Z.of_nat i <= n ->
  copied (upd m d (take i l)) (d + Z.of_nat i) (s + Z.of_nat i) (n - Z.of_nat i) (drop i l) r j ->
  copied m d s n l r (i + j).
Proof.
  intros Hb Hn Hi [-> Hj]. pose proof (bytes_length _ _ _ _ Hb) as Hl. split; [|lia].
  pose proof (upd_seq m d (take i l) (take j (drop i l))) as E. rewrite length_take, Nat.min_l in E by lia.
  rewrite E. rewrite take_take_drop. do 2 f_equal; [f_equal; [f_equal|]|]; lia.
Qed.

Lemma copied_none m d s n l : 0 <= n -> copied m d s n l (Some (m, d, s, n)) 0.
Proof. intros Hn. split; [|lia]. cbn. do 2 f_equal; [f_equal; [f_equal|]|]; lia. Qed.

Lemma copy_word_eq m d s i l : bytewise m -> bytes m (s + 8 * i) 8 = Some l -> mapped m (d + 8 * i) 8 ->
  copy_word m d s i = Some (upd m (d + 8 * i) l).
Proof.
  intros Hw Hb Hd. unfold copy_word. rewrite (ld_eq 8 _ _ _ Hb). cbn [mbind option_bind].
  rewrite st_eq by done. pose proof (bytes_length _ _ _ _ Hb) as Hl. rewrite <- Hl.
  by rewrite le_unle by (by apply (bytewise_bytes m (s + 8 * i) 8)).
Qed.

(** One word of a longer copy. *)
Lemma copy_word_at m d s n l i z : bytewise m -> bytes m s (Z.to_nat n) = Some l -> mapped m d n -> upward d s n ->
  8 * z = Z.of_nat i -> Z.of_nat i + 8 <= n ->
  copy_word (upd m d (take i l)) d s z = Some (upd m d (take (i + 8) l)).
Proof.
  intros Hw Hb Hd Hu Hz Hi.
  destruct (copied_rest m d s n l i Hw Hb Hd Hu) as (Hw' & Hb' & Hd' & Hu'); [lia|lia|].
  replace (Z.to_nat (n - Z.of_nat i)) with (8 + Z.to_nat (n - Z.of_nat i - 8))%nat in Hb' by lia.
  destruct (bytes_take _ _ _ _ _ Hb') as [H1 _]. pose proof (bytes_length _ _ _ _ Hb) as Hl.
  rewrite (copy_word_eq _ _ _ _ (take 8 (drop i l))); [|done|by rewrite Hz|].
  - f_equal. rewrite Hz. pose proof (upd_seq m d (take i l) (take 8 (drop i l))) as E.
    rewrite length_take, Nat.min_l in E by lia. by rewrite E, take_take_drop.
  - rewrite Hz. intros x Hx. apply Hd'. lia.
Qed.

Lemma copy_words_eq k m d s n l : bytewise m -> bytes m s (Z.to_nat n) = Some l -> mapped m d n -> upward d s n ->
  0 <= n <= Z.of_nat k -> exists j, copied m d s n l (copy_words k m d s n) j.
Proof.
  revert m d s n l. induction k as [|k IH]; intros m d s n l Hw Hb Hd Hu Hn; cbn [copy_words].
  { rewrite (proj2 (Z.leb_gt 8 n)) by lia. exists 0%nat. apply copied_none. lia. }
  destruct (Z.leb_spec 8 n); [|exists 0%nat; apply copied_none; lia].
  pose proof (copy_word_at m d s n l 0 0 Hw Hb Hd Hu eq_refl ltac:(cbn; lia)) as E.
  rewrite take_0 in E. cbn [upd plus] in E. rewrite E. cbn [mbind option_bind].
  destruct (copied_rest m d s n l 8 Hw Hb Hd Hu) as (Hw' & Hb' & Hd' & Hu'); [lia|cbn; lia|].
  destruct (IH _ _ _ _ _ Hw' Hb' Hd' Hu') as [j Hj]; [lia|].
  exists (8 + j)%nat. apply copied_step; [done|lia|cbn; lia|done].
Qed.

Lemma copy_aligned_eq k m d s n l : bytewise m -> bytes m s (Z.to_nat n) = Some l -> mapped m d n -> upward d s n ->
  0 <= n <= Z.of_nat k -> exists j, copied m d s n l (copy_aligned k m d s n) j.
Proof.
  revert m d s n l. induction k as [|k IH]; intros m d s n l Hw Hb Hd Hu Hn; cbn [copy_aligned].
  { rewrite (proj2 (Z.leb_gt 8 n)) by lia. exists 0%nat. apply copied_none. lia. }
  destruct (Z.leb_spec 8 n); [|exists 0%nat; apply copied_none; lia].
  destruct (c_true (Z.land d 7)), (c_true (Z.land s 7)); cbn [andb negb]; try (exists 0%nat; apply copied_none; lia).
  pose proof (copy_word_at m d s n l 0 0 Hw Hb Hd Hu eq_refl ltac:(cbn; lia)) as E.
  rewrite take_0 in E. cbn [upd plus] in E. rewrite E. cbn [mbind option_bind].
  destruct (copied_rest m d s n l 8 Hw Hb Hd Hu) as (Hw' & Hb' & Hd' & Hu'); [lia|cbn; lia|].
  destruct (IH _ _ _ _ _ Hw' Hb' Hd' Hu') as [j Hj]; [lia|].
  exists (8 + j)%nat. apply copied_step; [done|lia|cbn; lia|done].
Qed.

Lemma copy_block_eq {B} (K : mem -> option B) m d s n l : bytewise m -> bytes m s (Z.to_nat n) = Some l ->
  mapped m d n -> upward d s n -> 64 <= n ->
  (m ← copy_word m d s 0; m ← copy_word m d s 1; m ← copy_word m d s 2; m ← copy_word m d s 3;
   m ← copy_word m d s 4; m ← copy_word m d s 5; m ← copy_word m d s 6; m ← copy_word m d s 7; K m) =
  K (upd m d (take 64 l)).
Proof.
  intros Hw Hb Hd Hu Hn.
  assert (Step : forall i z, 8 * z = Z.of_nat i -> Z.of_nat i + 8 <= n ->
    copy_word (upd m d (take i l)) d s z = Some (upd m d (take (i + 8) l))) by (intros; by apply (copy_word_at _ _ _ n)).
  pose proof (Step 0%nat 0 eq_refl ltac:(cbn; lia)) as E0. rewrite take_0 in E0. cbn [upd plus] in E0. rewrite E0. cbn [mbind option_bind].
  rewrite (Step 8%nat 1) by (done || lia). cbn [mbind option_bind plus].
  rewrite (Step 16%nat 2) by (done || lia). cbn [mbind option_bind plus].
  rewrite (Step 24%nat 3) by (done || lia). cbn [mbind option_bind plus].
  rewrite (Step 32%nat 4) by (done || lia). cbn [mbind option_bind plus].
  rewrite (Step 40%nat 5) by (done || lia). cbn [mbind option_bind plus].
  rewrite (Step 48%nat 6) by (done || lia). cbn [mbind option_bind plus].
  by rewrite (Step 56%nat 7) by (done || lia).
Qed.

Lemma copy_blocks_eq k m d s n l : bytewise m -> bytes m s (Z.to_nat n) = Some l -> mapped m d n -> upward d s n ->
  0 <= n <= Z.of_nat k -> exists j, copied m d s n l (copy_blocks k m d s n) j.
Proof.
  revert m d s n l. induction k as [|k IH]; intros m d s n l Hw Hb Hd Hu Hn; cbn [copy_blocks].
  { rewrite (proj2 (Z.leb_gt 64 n)) by lia. exists 0%nat. apply copied_none. lia. }
  destruct (Z.leb_spec 64 n); [|exists 0%nat; apply copied_none; lia].
  rewrite (copy_block_eq (fun m => copy_blocks k m (d + 64) (s + 64) (n - 64)) m d s n l) by done.
  destruct (copied_rest m d s n l 64 Hw Hb Hd Hu) as (Hw' & Hb' & Hd' & Hu'); [lia|cbn; lia|].
  destruct (IH _ _ _ _ _ Hw' Hb' Hd' Hu') as [j Hj]; [lia|].
  exists (64 + j)%nat. apply copied_step; [done|lia|cbn; lia|done].
Qed.

(** [memcpy] is one copy when the target is not inside the bytes still to be
    read. *)
Lemma memcpy_eq m d s n l : bytewise m -> 0 <= n -> bytes m s (Z.to_nat n) = Some l -> mapped m d n -> upward d s n ->
  memcpy m d s n = Some (upd m d l, d).
Proof.
  intros Hw Hn Hb Hd Hu. unfold memcpy.
  match goal with |- context [mbind _ ?e] => assert (Hmid : exists j, copied m d s n l e j) end.
  { destruct (_ && _); [|by apply copy_aligned_eq; [..|lia]].
    destruct (copy_blocks_eq (Z.to_nat n) m d s n l) as (i & -> & Hi); [done..|lia|]. cbn [mbind option_bind].
    destruct (copied_rest m d s n l i Hw Hb Hd Hu) as (Hw' & Hb' & Hd' & Hu'); [lia|done|].
    destruct (copy_words_eq (Z.to_nat (n - Z.of_nat i)) _ _ _ _ _ Hw' Hb' Hd' Hu') as [j Hj]; [lia|].
    exists (i + j)%nat. by apply copied_step. }
  destruct Hmid as (j & -> & Hj). cbn [mbind option_bind].
  destruct (copied_rest m d s n l j Hw Hb Hd Hu) as (Hw' & Hb' & Hd' & Hu'); [lia|done|].
  rewrite (move_up_eq _ _ _ _ (drop j l)); [|done|by rewrite Z2Nat.id by lia|by rewrite Z2Nat.id by lia].
  cbn [mbind option_bind]. pose proof (bytes_length _ _ _ _ Hb) as Hl.
  pose proof (upd_seq m d (take j l) (drop j l)) as E. rewrite length_take, Nat.min_l in E by lia.
  by rewrite E, take_drop.
Qed.

(** ** Strings *)

(** The string [l] is at [a], with its terminator. *)
Fixpoint cstr (m : mem) (a : Z) (l : list Z) : Prop :=
  match l with
  | [] => m !! a = Some 0
  | b :: l' => m !! a = Some b /\ b <> 0 /\ cstr m (a + 1) l'
  end.

Lemma cstr_bytes m a l : cstr m a l <-> bytes m a (S (length l)) = Some (l ++ [0]) /\ Forall (fun b => b <> 0) l.
Proof.
  revert a. induction l as [|b l IH]; intros a.
  - cbn. split; [intros ->; by split|]. intros [H _]. destruct (m !! a); [|done]. cbn in H. congruence.
  - change (bytes m a (S (length (b :: l)))) with (c ← m !! a; k ← bytes m (a + 1) (S (length l)); Some (c :: k)).
    cbn [cstr]. rewrite IH. split.
    + intros (-> & Hb & H & F). cbn [mbind option_bind]. rewrite H. split; [done|by constructor].
    + intros [H F]. apply list.Forall_cons in F as [Hb F]. destruct (m !! a) as [c|]; [|done]. cbn [mbind option_bind] in H.
      destruct (bytes m (a + 1) (S (length l))) as [k|]; [|done]. cbn [mbind option_bind] in H. injection H as -> ->. done.
Qed.

Lemma bytes_size m a n l : bytes m a n = Some l -> (n <= size m)%nat.
Proof.
  intros H. pose proof (bytes_length _ _ _ _ H) as Hl.
  assert (Hs : forall k a, size (upd ∅ a k : mem) = length k).
  { induction k as [|b k IH]; intros a'; cbn [upd length]; [apply map_size_empty|].
    rewrite map_size_insert_None, IH; [done|]. rewrite upd_out by lia. apply lookup_empty. }
  rewrite <- Hl, <- (Hs l a). apply map_subseteq_size, map_subseteq_spec. intros x b. rewrite upd_lookup.
  destruct (Z.leb_spec a x), (Z.ltb_spec x (a + Z.of_nat (length l))); cbn [andb]; rewrite ?lookup_empty; try done.
  apply bytes_lookup in H as [_ H]. rewrite <- H by lia. intros <-. f_equal. lia.
Qed.

Lemma cstr_steps m a l : cstr m a l -> (length l < steps m)%nat.
Proof. intros [H _]%cstr_bytes. apply bytes_size in H. unfold steps. lia. Qed.

Lemma cstr_ext m m' a l : (forall x, a <= x <= a + Z.of_nat (length l) -> m' !! x = m !! x) -> cstr m a l -> cstr m' a l.
Proof.
  revert a. induction l as [|b l IH]; intros a H; cbn [cstr length] in *; [by rewrite H by lia|].
  intros (H1 & H2 & H3). rewrite H by lia. split; [done|]. split; [done|]. apply IH; [|done]. intros x Hx. apply H. lia.
Qed.

Lemma cstr_drop m a l i : cstr m a l -> (i <= length l)%nat -> cstr m (a + Z.of_nat i) (drop i l).
Proof.
  revert a i. induction l as [|b l IH]; intros a i H Hi; cbn in *.
  { destruct i; [|lia]. by rewrite Z.add_0_r. }
  destruct i as [|i]; [by rewrite Z.add_0_r|]. destruct H as (_ & _ & H).
  replace (a + Z.of_nat (S i)) with (a + 1 + Z.of_nat i) by lia. apply IH; [done|lia].
Qed.

Lemma cstr_in_u8 m a l : bytewise m -> cstr m a l -> Forall in_u8 l.
Proof.
  intros Hw [H _]%cstr_bytes. apply (bytewise_bytes _ _ _ _ Hw) in H. by apply list.Forall_app in H as [H _].
Qed.

Lemma c_true_ne z : z <> 0 -> c_true z = true.
Proof. intros H. unfold c_true. by rewrite (proj2 (Z.eqb_neq z 0) H). Qed.

Lemma strlen_loop_eq k m s n l : cstr m (s + n) l -> (length l < k)%nat ->
  strlen_loop k m s n = Some (n + Z.of_nat (length l)).
Proof.
  revert k n. induction l as [|b l IH]; intros k n H Hk; (destruct k as [|k]; [cbn in Hk; lia|]); cbn [strlen_loop cstr length] in *.
  - rewrite H. cbn. f_equal. lia.
  - destruct H as (-> & Hb & H). cbn [mbind option_bind]. rewrite (c_true_ne b Hb), IH; [f_equal; lia| |lia].
    by rewrite Z.add_assoc.
Qed.

Lemma strlen_eq m s l : cstr m s l -> strlen m s = Some (Z.of_nat (length l)).
Proof.
  intros H. unfold strlen. rewrite (strlen_loop_eq _ _ _ 0 l); [done|by rewrite Z.add_0_r|by apply cstr_steps in H].
Qed.

(** The difference of the first two characters that differ; a string that ends
    has a 0 there. *)
Fixpoint cmp (l k : list Z) : Z :=
  match l, k with
  | [], [] => 0
  | [], y :: _ => 0 - y
  | x :: _, [] => x - 0
  | x :: l', y :: k' => if x =? y then cmp l' k' else x - y
  end.

Lemma cmp_0 l k : Forall (fun b => b <> 0) l -> Forall (fun b => b <> 0) k -> cmp l k = 0 <-> l = k.
Proof.
  intros Hl. revert k. induction Hl as [|x l Hx Hl IH]; intros [|y k] Hk; cbn [cmp]; try done.
  - apply list.Forall_cons in Hk as [Hy _]. split; [lia|done].
  - split; [lia|done].
  - apply list.Forall_cons in Hk as [Hy Hk]. destruct (Z.eqb_spec x y) as [->|Hne].
    + rewrite IH by done. split; [by intros ->|]. by intros [= ->].
    + split; [lia|]. by intros [= ? ?].
Qed.

(** The sign is that of the first difference: a proper prefix is smaller, and
    otherwise the string with the smaller character is. *)
Lemma cmp_neg l k : Forall in_u8 l -> Forall in_u8 k -> Forall (fun b => b <> 0) k -> cmp l k < 0 <->
  (exists y r, k = l ++ y :: r) \/ exists p x y r1 r2, l = p ++ x :: r1 /\ k = p ++ y :: r2 /\ x < y.
Proof.
  intros Hl. revert k. induction Hl as [|x l Hx Hl IH]; intros [|y k] Hk Hn; cbn [cmp].
  - split; [lia|]. intros [(y & r & H)|(p & x & y & r1 & r2 & H & _)]; [done|by destruct p].
  - apply list.Forall_cons in Hk as [Hy _], Hn as [Hn _]. unfold in_u8 in Hy. split; [|lia].
    intros _. left. by exists y, k.
  - unfold in_u8 in Hx. split; [lia|]. intros [(y & r & H)|(p & x' & y & r1 & r2 & _ & H & _)]; [done|by destruct p].
  - apply list.Forall_cons in Hk as [Hy Hk], Hn as [Hn0 Hn]. destruct (Z.eqb_spec x y) as [->|Hne].
    + rewrite IH by done. split.
      * intros [(z & r & ->)|(p & x' & y' & r1 & r2 & -> & -> & H)]; [left; by exists z, r|].
        right. by exists (y :: p), x', y', r1, r2.
      * intros [(z & r & [= ->])|(p & x' & y' & r1 & r2 & H1 & H2 & H)]; [left; by exists z, r|].
        destruct p as [|z p]; cbn in H1, H2; [injection H1; injection H2; lia|].
        injection H1 as -> ->. injection H2 as ->. right. by exists p, x', y', r1, r2.
    + split.
      * intros H. right. exists [], x, y, l, k. split; [done|]. split; [done|lia].
      * intros [(z & r & [= ? ?])|(p & x' & y' & r1 & r2 & H1 & H2 & H)]; [done|].
        destruct p as [|z p]; cbn in H1, H2; injection H1 as -> ->; injection H2 as -> ->; [lia|done].
Qed.

Lemma strcmp_loop_eq k m s1 s2 l1 l2 : cstr m s1 l1 -> cstr m s2 l2 -> (length l1 < k)%nat ->
  strcmp_loop k m s1 s2 = Some (cmp l1 l2).
Proof.
  revert k s1 s2 l2. induction l1 as [|x l1 IH]; intros k s1 s2 l2 H1 H2 Hk;
    (destruct k as [|k]; [cbn in Hk; lia|]); cbn [strcmp_loop cstr length] in *.
  - rewrite H1. cbn [mbind option_bind]. destruct l2 as [|y l2]; [rewrite H2|destruct H2 as (-> & _ & _)]; done.
  - destruct H1 as (-> & Hx & H1). cbn [mbind option_bind]. rewrite (c_true_ne x Hx). cbn [andb].
    destruct l2 as [|y l2]; cbn [cstr] in H2.
    + rewrite H2. cbn [mbind option_bind cmp]. by rewrite (proj2 (Z.eqb_neq x 0) Hx).
    + destruct H2 as (-> & Hy & H2). cbn [mbind option_bind cmp]. destruct (x =? y); [|done]. apply IH; [done|done|lia].
Qed.

Lemma strcmp_eq m s1 s2 l1 l2 : cstr m s1 l1 -> cstr m s2 l2 -> strcmp m s1 s2 = Some (cmp l1 l2).
Proof. intros H1 H2. apply strcmp_loop_eq; [done|done|by apply cstr_steps in H1]. Qed.

Lemma strncmp_loop_eq k m s1 s2 n l1 l2 : cstr m s1 l1 -> cstr m s2 l2 -> 0 <= n -> (length l1 < k)%nat ->
  strncmp_loop k m s1 s2 n = Some (cmp (take (Z.to_nat n) l1) (take (Z.to_nat n) l2)).
Proof.
  revert k s1 s2 n l2. induction l1 as [|x l1 IH]; intros k s1 s2 n l2 H1 H2 Hn Hk;
    (destruct k as [|k]; [cbn in Hk; lia|]); cbn [strncmp_loop length] in *;
    (destruct (Z.eqb_spec n 0) as [->|Hne]; [by rewrite !take_0|]);
    replace (Z.to_nat n) with (S (Z.to_nat (n - 1))) by lia; cbn [cstr firstn] in *.
  - rewrite H1. cbn [mbind option_bind]. destruct l2 as [|y l2]; [rewrite H2|destruct H2 as (-> & _ & _)]; done.
  - destruct H1 as (-> & Hx & H1). cbn [mbind option_bind]. rewrite (c_true_ne x Hx). cbn [andb].
    destruct l2 as [|y l2]; cbn [cstr firstn] in *.
    + rewrite H2. cbn [mbind option_bind cmp]. by rewrite (proj2 (Z.eqb_neq x 0) Hx).
    + destruct H2 as (-> & Hy & H2). cbn [mbind option_bind cmp]. destruct (x =? y); [|done]. apply IH; [done|done|lia|lia].
Qed.

Lemma strncmp_eq m s1 s2 n l1 l2 : cstr m s1 l1 -> cstr m s2 l2 -> 0 <= n ->
  strncmp m s1 s2 n = Some (cmp (take (Z.to_nat n) l1) (take (Z.to_nat n) l2)).
Proof. intros H1 H2 Hn. apply strncmp_loop_eq; [done|done|done|by apply cstr_steps in H1]. Qed.

(** ** Copies of strings *)

Lemma copy_loop_eq l : forall k m d s, cstr m s l -> mapped m d (Z.of_nat (S (length l))) ->
  upward d s (Z.of_nat (S (length l))) -> (length l < k)%nat ->
  copy_loop k m d s = Some (upd m d (l ++ [0])).
Proof.
  induction l as [|b l IH]; intros k m d s H Hd Hu Hk; (destruct k as [|k]; [cbn in Hk; lia|]);
    cbn [copy_loop cstr length app upd] in *.
  - rewrite H. cbn [mbind option_bind]. rewrite st8_eq by (apply Hd; lia). done.
  - destruct H as (-> & Hb & H). cbn [mbind option_bind]. rewrite st8_eq by (apply Hd; lia). cbn [mbind option_bind].
    rewrite (c_true_ne b Hb). unfold upward in *. rewrite IH.
    + f_equal. apply (upd_comm m d [b]). cbn. lia.
    + apply (cstr_ext m); [|done]. intros x Hx. apply lookup_insert_ne. lia.
    + apply (mapped_upd m d [b]); intros x Hx; cbn in *; apply Hd; lia.
    + lia.
    + lia.
Qed.

Lemma strcpy_eq m d s l : cstr m s l -> mapped m d (Z.of_nat (S (length l))) -> upward d s (Z.of_nat (S (length l))) ->
  strcpy m d s = Some (upd m d (l ++ [0]), d).
Proof. intros H Hd Hu. unfold strcpy. by rewrite (copy_loop_eq l) by (done || by apply cstr_steps in H). Qed.

Lemma end_loop_eq l : forall k m d, cstr m d l -> (length l < k)%nat -> end_loop k m d = Some (d + Z.of_nat (length l)).
Proof.
  induction l as [|b l IH]; intros k m d H Hk; (destruct k as [|k]; [cbn in Hk; lia|]); cbn [end_loop cstr length] in *.
  - rewrite H. cbn. f_equal. lia.
  - destruct H as (-> & Hb & H). cbn [mbind option_bind]. rewrite (c_true_ne b Hb), IH by (done || lia). f_equal. lia.
Qed.

Lemma strcat_eq m d s l k : cstr m d k -> cstr m s l -> mapped m d (Z.of_nat (length k + S (length l))) ->
  upward (d + Z.of_nat (length k)) s (Z.of_nat (S (length l))) ->
  strcat m d s = Some (upd m (d + Z.of_nat (length k)) (l ++ [0]), d).
Proof.
  intros Hd Hs Hm Hu. unfold strcat. rewrite (end_loop_eq k) by (done || by apply cstr_steps in Hd). cbn [mbind option_bind].
  rewrite (copy_loop_eq l); [done|done| |done|by apply cstr_steps in Hs]. intros x Hx. apply Hm. lia.
Qed.

(** The result of [strcat] is the concatenation. *)
Lemma cstr_upd m a l : Forall (fun b => b <> 0) l -> cstr (upd m a (l ++ [0])) a l.
Proof.
  intros F. apply cstr_bytes. split; [|done].
  replace (S (length l)) with (length (l ++ [0])) by (rewrite length_app; cbn; lia). apply bytes_upd_eq.
Qed.

Lemma strncpy_loop_eq l : forall k m d s i n, cstr m (s + i) l -> mapped m (d + i) (n - i) -> 0 <= i <= n ->
  upward d s (i + Z.of_nat (S (length l))) -> (length l < k)%nat ->
  let t := take (Z.to_nat (n - i)) l in
  strncpy_loop k m d s i n = Some (upd m (d + i) t, i + Z.of_nat (length t)).
Proof.
  induction l as [|b l IH]; intros k m d s i n H Hd Hi Hu Hk t; subst t; (destruct k as [|k]; [cbn in Hk; lia|]);
    cbn [strncpy_loop cstr length] in *.
  - rewrite take_nil. cbn [upd length]. rewrite H, Z.add_0_r. by destruct (i <? n).
  - destruct (Z.ltb_spec i n) as [Hlt|].
    2:{ replace (n - i) with 0 by lia. rewrite take_0. cbn [upd length]. by rewrite Z.add_0_r. }
    destruct H as (-> & Hb & H). cbn [mbind option_bind]. rewrite (c_true_ne b Hb), st8_eq by (apply Hd; lia).
    cbn [mbind option_bind]. unfold upward in *.
    replace (Z.to_nat (n - i)) with (S (Z.to_nat (n - (i + 1)))) by lia. cbn [firstn upd length].
    rewrite (IH k (<[d + i := b]> m) d s (i + 1) n).
    + f_equal. f_equal; [|lia]. replace (d + (i + 1)) with (d + i + 1) by lia. apply (upd_comm m (d + i) [b]). cbn. lia.
    + replace (s + (i + 1)) with (s + i + 1) by lia. apply (cstr_ext m); [|done]. intros x Hx. apply lookup_insert_ne. lia.
    + replace (d + (i + 1)) with (d + i + 1) by lia.
      apply (mapped_upd m (d + i) [b]); intros x Hx; cbn in *; apply Hd; lia.
    + lia.
    + lia.
    + lia.
Qed.

Lemma fill_zeros k : forall m d i, mapped m (d + i) (Z.of_nat k) ->
  for_loop k i (fun i m => st8 m (d + i) 0) m = Some (upd m (d + i) (replicate k 0)).
Proof.
  induction k as [|k IH]; intros m d i H; cbn [for_loop replicate upd]; [done|].
  rewrite st8_eq by (apply H; lia). cbn [mbind option_bind]. rewrite IH.
  - f_equal. replace (d + (i + 1)) with (d + i + 1) by lia. apply (upd_comm m (d + i) [0]). cbn. lia.
  - replace (d + (i + 1)) with (d + i + 1) by lia. apply (mapped_upd m (d + i) [0]); intros x Hx; cbn in *; apply H; lia.
Qed.

(** At most [n] characters, filled up with zeros to [n] bytes. *)
Lemma strncpy_eq m d s n l : cstr m s l -> mapped m d n -> 0 <= n -> upward d s (Z.of_nat (S (length l))) ->
  let t := take (Z.to_nat n) l in
  strncpy m d s n = Some (upd m d (t ++ replicate (Z.to_nat n - length t) 0), d).
Proof.
  intros H Hd Hn Hu t. unfold strncpy.
  rewrite (strncpy_loop_eq l _ m d s 0 n); [|by rewrite Z.add_0_r|intros x Hx; apply Hd; lia|lia|done|by apply cstr_steps in H].
  rewrite Z.sub_0_r, Z.add_0_r, Z.add_0_l. fold t. cbn [mbind option_bind]. unfold for_.
  assert (Ht : (length t <= Z.to_nat n)%nat) by (subst t; rewrite length_take; lia).
  rewrite fill_zeros.
  - cbn [mbind option_bind]. rewrite upd_seq. do 4 f_equal. f_equal. lia.
  - apply mapped_upd; intros x Hx; apply Hd; lia.
Qed.

(** ** Searching *)

Fixpoint find_at (P : Z -> bool) (l : list Z) : option nat :=
  match l with
  | [] => None
  | b :: l' => if P b then Some 0%nat else S <$> find_at P l'
  end.

Fixpoint find_last (P : Z -> bool) (l : list Z) : option nat :=
  match l with
  | [] => None
  | b :: l' => match find_last P l' with Some i => Some (S i) | None => if P b then Some 0%nat else None end
  end.

(** A pointer to the [i]-th of the bytes at [s], NULL without one. *)
Definition ptr (s : Z) (i : option nat) : Z := match i with Some i => s + Z.of_nat i | None => 0 end.

Lemma strchr_loop_eq c l : forall k m s, cstr m s l -> (length l < k)%nat ->
  strchr_loop k m s c = Some (ptr s (find_at (fun b => b =? u8 c) l)).
Proof.
  induction l as [|b l IH]; intros k m s H Hk; (destruct k as [|k]; [cbn in Hk; lia|]); cbn [strchr_loop cstr length find_at] in *.
  - by rewrite H.
  - destruct H as (-> & Hb & H). cbn [mbind option_bind]. rewrite (c_true_ne b Hb). destruct (b =? u8 c).
    + cbn. f_equal. lia.
    + rewrite IH by (done || lia). destruct (find_at _ l); cbn; [f_equal; lia|done].
Qed.

Lemma strchr_eq m s c l : cstr m s l -> strchr m s c = Some (ptr s (find_at (fun b => b =? u8 c) l)).
Proof. intros H. apply strchr_loop_eq; [done|by apply cstr_steps in H]. Qed.

Lemma strrchr_loop_eq c l : forall k m s last, cstr m s l -> (length l < k)%nat ->
  strrchr_loop k m s c last = Some (match find_last (fun b => b =? u8 c) l with Some i => s + Z.of_nat i | None => last end).
Proof.
  induction l as [|b l IH]; intros k m s last H Hk; (destruct k as [|k]; [cbn in Hk; lia|]);
    cbn [strrchr_loop cstr length find_last] in *.
  - by rewrite H.
  - destruct H as (-> & Hb & H). cbn [mbind option_bind]. rewrite (c_true_ne b Hb), IH by (done || lia).
    destruct (find_last _ l); [f_equal; lia|]. destruct (b =? u8 c); [f_equal; lia|done].
Qed.

Lemma strrchr_eq m s c l : cstr m s l -> strrchr m s c = Some (ptr s (find_last (fun b => b =? u8 c) l)).
Proof. intros H. apply strrchr_loop_eq; [done|by apply cstr_steps in H]. Qed.

(** The first place where [nd] occurs. *)
Fixpoint find_sub (nd l : list Z) : option nat :=
  match l with
  | [] => None
  | _ :: l' => if bool_decide (take (length nd) l = nd) then Some 0%nat else S <$> find_sub nd l'
  end.

Lemma find_sub_Some nd l i : nd <> [] -> find_sub nd l = Some i <->
  take (length nd) (drop i l) = nd /\ forall j, (j < i)%nat -> take (length nd) (drop j l) <> nd.
Proof.
  intros Hnd. revert i. induction l as [|b l IH]; intros i; cbn [find_sub].
  - rewrite drop_nil, take_nil. split; [done|]. intros [H _]. by destruct nd.
  - case_bool_decide as E.
    + split.
      * intros [= <-]. split; [done|]. intros; lia.
      * intros [_ H]. destruct i as [|i]; [done|]. exfalso. by apply (H 0%nat); [lia|].
    + destruct i as [|i].
      * split; [by destruct (find_sub nd l)|]. intros [H _]. done.
      * cbn [skipn]. specialize (IH i). destruct (find_sub nd l) as [j|]; cbn [fmap option_fmap option_map].
        -- split.
           ++ intros [= <-]. destruct (proj1 IH eq_refl) as [H1 H2]. split; [done|]. intros [|j'] Hj; [done|]. apply H2. lia.
           ++ intros [H1 H2]. do 2 f_equal. assert (Some j = Some i) as [= ->]; [|done]. apply IH. split; [done|].
              intros j' Hj. apply (H2 (S j')). lia.
        -- split; [done|]. intros [H1 H2]. exfalso. assert (None = Some i); [|done]. apply IH. split; [done|].
           intros j' Hj. apply (H2 (S j')). lia.
Qed.

Lemma strstr_loop_eq nd l : nd <> [] -> forall k m s p, cstr m s l -> cstr m p nd -> (length l < k)%nat ->
  strstr_loop k m s p (Z.of_nat (length nd)) = Some (ptr s (find_sub nd l)).
Proof.
  intros Hnd. induction l as [|b l IH]; intros k m s p H Hp Hk; (destruct k as [|k]; [cbn in Hk; lia|]);
    cbn [strstr_loop length find_sub] in *.
  - cbn in H. by rewrite H.
  - pose proof H as H'. cbn [cstr] in H. destruct H as (-> & Hb & H). cbn [mbind option_bind]. rewrite (c_true_ne b Hb).
    destruct nd as [|x nd]; [done|]. pose proof Hp as Hp'. cbn [cstr] in Hp'. destruct Hp' as (Ex & _ & _). rewrite Ex.
    cbn [mbind option_bind].
    assert (Hz : (if b =? x then r ← strncmp m s p (Z.of_nat (length (x :: nd))); Some (r =? 0) else Some false) =
                 Some (bool_decide (take (length (x :: nd)) (b :: l) = x :: nd))).
    { destruct (Z.eqb_spec b x) as [->|Hne]; [|rewrite bool_decide_eq_false_2; [done|]; cbn; by intros [= ? ?]].
      rewrite (strncmp_eq m s p _ (x :: l) (x :: nd)) by (done || lia).
      rewrite Nat2Z.id, (firstn_all (x :: nd)). cbn [mbind option_bind]. f_equal.
      apply cstr_bytes in H' as [_ F1], Hp as [_ F2]. case_bool_decide as E.
      - apply Z.eqb_eq, cmp_0; [by apply Forall_take|done|done].
      - apply Z.eqb_neq. intros Hc. apply E. apply cmp_0 in Hc; [done|by apply Forall_take|done]. }
    rewrite Hz. cbn [mbind option_bind]. clear Hz. destruct (bool_decide _).
    + cbn. f_equal. lia.
    + rewrite IH by (done || lia). destruct (find_sub _ l); cbn; [f_equal; lia|done].
Qed.

(** The first occurrence of the needle, the haystack itself for the empty one. *)
Lemma strstr_eq m s p l nd : cstr m s l -> cstr m p nd ->
  strstr m s p = Some (if decide (nd = []) then s else ptr s (find_sub nd l)).
Proof.
  intros H Hp. unfold strstr. rewrite (strlen_eq _ _ _ Hp). cbn [mbind option_bind]. destruct (decide (nd = [])) as [->|Hne].
  - done.
  - rewrite (proj2 (Z.eqb_neq _ 0)) by (destruct nd; [done|cbn; lia]).
    apply strstr_loop_eq; [done|done|done|by apply cstr_steps in H].
Qed.

(** ** Blocks compared and searched *)

Lemma memcmp_loop_eq k : forall m a b l1 l2, bytes m a k = Some l1 -> bytes m b k = Some l2 ->
  memcmp_loop k m a b = Some (cmp l1 l2).
Proof.
  induction k as [|k IH]; intros m a b l1 l2 H1 H2; cbn [memcmp_loop].
  - injection H1 as <-. injection H2 as <-. done.
  - destruct (bytes_cons _ _ _ _ H1) as (x & r1 & -> & -> & H1'), (bytes_cons _ _ _ _ H2) as (y & r2 & -> & -> & H2').
    cbn [mbind option_bind cmp]. destruct (x =? y); [|done]. by apply IH.
Qed.

Lemma memcmp_eq m a b n l1 l2 : bytes m a (Z.to_nat n) = Some l1 -> bytes m b (Z.to_nat n) = Some l2 ->
  memcmp m a b n = Some (cmp l1 l2).
Proof. apply memcmp_loop_eq. Qed.

Lemma cmp_blocks l k : length l = length k -> cmp l k = 0 <-> l = k.
Proof.
  revert k. induction l as [|x l IH]; intros [|y k] Hl; try done. cbn [cmp]. injection Hl as Hl.
  destruct (Z.eqb_spec x y) as [->|Hne].
  - rewrite IH by done. split; [by intros ->|by intros [= ->]].
  - split; [lia|by intros [= ? ?]].
Qed.

Lemma memchr_loop_eq c k : forall m s l, bytes m s k = Some l ->
  memchr_loop k m s c = Some (ptr s (find_at (fun b => b =? u8 c) l)).
Proof.
  induction k as [|k IH]; intros m s l H; cbn [memchr_loop].
  - injection H as <-. done.
  - destruct (bytes_cons _ _ _ _ H) as (x & r & -> & -> & H'). cbn [mbind option_bind find_at]. destruct (x =? u8 c).
    + cbn. f_equal. lia.
    + rewrite (IH _ _ r) by done. destruct (find_at _ r); cbn; [f_equal; lia|done].
Qed.

(** ** Numbers *)

Definition blank (c : Z) : bool := (c =? 32) || (c =? 9).

Definition digit (c : Z) : bool := (48 <=? c) && (c <=? 57).

Fixpoint skip (l : list Z) : list Z :=
  match l with c :: l' => if blank c then skip l' else l | [] => [] end.

(** The number that the digits at the front of [l] continue. *)
Fixpoint number (r : Z) (l : list Z) : Z :=
  match l with c :: l' => if digit c then number (r * 10 + (c - 48)) l' else r | [] => r end.

Definition signed (l : list Z) : Z * list Z :=
  match l with
  | c :: l' => if c =? 45 then (-1, l') else if c =? 43 then (1, l') else (1, l)
  | [] => (1, l)
  end.

Lemma skip_blanks_eq l : forall k m s, cstr m s l -> (length l < k)%nat ->
  exists s', skip_blanks k m s = Some s' /\ cstr m s' (skip l).
Proof.
  induction l as [|b l IH]; intros k m s H Hk; (destruct k as [|k]; [cbn in Hk; lia|]); cbn [skip_blanks skip length] in *.
  - cbn in H. rewrite H. by exists s.
  - pose proof H as (-> & Hb & H'). cbn [mbind option_bind]. unfold blank. destruct ((b =? 32) || (b =? 9)); [|by exists s].
    apply IH; [done|lia].
Qed.

Lemma number_mono r l : 0 <= r -> r <= number r l.
Proof.
  revert r. induction l as [|c l IH]; intros r Hr; cbn [number]; [lia|]. destruct (digit c) eqn:E; [|lia].
  unfold digit in E. reflect. specialize (IH (r * 10 + (c - 48)) ltac:(lia)). lia.
Qed.

Lemma digits_loop_eq hi l : forall k m s r, cstr m s l -> (length l < k)%nat -> 0 <= r <= hi ->
  digits_loop k m s r hi = if number r l <=? hi then Some (number r l) else None.
Proof.
  induction l as [|c l IH]; intros k m s r H Hk Hr; (destruct k as [|k]; [cbn in Hk; lia|]);
    cbn [digits_loop number cstr length] in *.
  - rewrite H. cbn. by rewrite (proj2 (Z.leb_le r hi)) by lia.
  - destruct H as (-> & Hc & H). cbn [mbind option_bind]. unfold digit. destruct ((48 <=? c) && (c <=? 57)) eqn:E.
    + reflect. cbv zeta. destruct (Z.leb_spec (r * 10 + (c - 48)) hi); [by apply IH; [|lia|lia]|].
      rewrite (proj2 (Z.leb_gt _ hi)); [done|]. pose proof (number_mono (r * 10 + (c - 48)) l ltac:(lia)). lia.
    + by rewrite (proj2 (Z.leb_le r hi)) by lia.
Qed.

(** The value of the digits after blanks and a sign; undefined when it is out
    of range. *)
Lemma ato_eq m s hi l : cstr m s l -> 0 <= hi ->
  ato m s hi = let '(sign, ds) := signed (skip l) in if number 0 ds <=? hi then Some (sign * number 0 ds) else None.
Proof.
  intros H Hhi. unfold ato. destruct (skip_blanks_eq l _ m s H ltac:(by apply cstr_steps in H)) as (s' & -> & H').
  cbn [mbind option_bind]. assert (Hd : exists c : Z, m !! s' = Some c /\
    let '(p, sign) := if c =? 45 then (s' + 1, -1) else if c =? 43 then (s' + 1, 1) else (s', 1) in
    sign = (signed (skip l)).1 /\ cstr m p (signed (skip l)).2).
  { destruct (skip l) as [|c k]; cbn [signed].
    - exists 0. cbn in *. by rewrite H'.
    - exists c. pose proof H' as (-> & Hc & H2). split; [done|]. destruct (c =? 45), (c =? 43); done. }
  destruct Hd as (c & -> & Hd). cbn [mbind option_bind].
  destruct (if c =? 45 then _ else _) as [p sign]. destruct (signed (skip l)) as [sg ds]. cbn [fst snd] in Hd.
  destruct Hd as [-> Hp]. rewrite (digits_loop_eq hi ds _ m p 0 Hp) by (by apply cstr_steps in Hp) || lia.
  by destruct (number 0 ds <=? hi).
Qed.

(** ** Tokens *)

Definition in_set (dl : list Z) (c : Z) : bool := existsb (Z.eqb c) dl.

Fixpoint prefix_len (P : Z -> bool) (l : list Z) : nat :=
  match l with c :: l' => if P c then S (prefix_len P l') else 0%nat | [] => 0%nat end.

Lemma prefix_len_le P l : (prefix_len P l <= length l)%nat.
Proof. induction l as [|c l IH]; cbn; [lia|]. destruct (P c); lia. Qed.

Lemma strchr_in m delim dl c : cstr m delim dl -> 0 < delim -> in_u8 c ->
  exists d, strchr m delim c = Some d /\ c_true d = in_set dl c.
Proof.
  intros H Hd Hc. rewrite (strchr_eq _ _ _ _ H). eexists. split; [reflexivity|]. rewrite (u8_small c Hc). clear H.
  unfold ptr. assert (E : is_Some (find_at (fun b => b =? c) dl) <-> in_set dl c = true).
  { unfold in_set. induction dl as [|b dl IH]; cbn [find_at existsb]; [split; [by intros []|done]|].
    rewrite (Z.eqb_sym c b). destruct (b =? c); cbn [orb]; [split; [done|by exists 0%nat]|].
    rewrite <- IH. destruct (find_at _ dl); cbn; split; intros []; done || by eexists. }
  destruct (find_at _ dl) as [i|].
  - rewrite c_true_ne by lia. symmetry. apply E. by eexists.
  - destruct (in_set dl c); [|done]. by destruct (proj2 E eq_refl).
Qed.

Lemma span_loop_eq dl inside l : forall k m str delim, cstr m str l -> cstr m delim dl -> 0 < delim -> Forall in_u8 l ->
  (length l < k)%nat ->
  span_loop k m inside str delim = Some (str + Z.of_nat (prefix_len (fun c => Bool.eqb (in_set dl c) inside) l)).
Proof.
  induction l as [|b l IH]; intros k m str delim H Hdl Hd F Hk; (destruct k as [|k]; [cbn in Hk; lia|]);
    cbn [span_loop cstr length prefix_len] in *.
  - rewrite H. cbn. f_equal. lia.
  - destruct H as (-> & Hb & H). apply list.Forall_cons in F as [Fb F]. cbn [mbind option_bind]. rewrite (c_true_ne b Hb).
    destruct (strchr_in m delim dl b Hdl Hd Fb) as (d & -> & Ed). cbn [mbind option_bind]. rewrite Ed.
    destruct (Bool.eqb _ _).
    + rewrite IH by (done || lia). f_equal. lia.
    + f_equal. lia.
Qed.

(** One token of [l]: how many delimiters come before it, and its characters. *)
Definition lead (dl l : list Z) : nat := prefix_len (in_set dl) l.

Definition tok_len (dl l : list Z) : nat := prefix_len (fun c => negb (in_set dl c)) (drop (lead dl l) l).

Lemma prefix_len_ext P Q l : (forall c, P c = Q c) -> prefix_len P l = prefix_len Q l.
Proof. intros H. induction l as [|c l IH]; cbn; [done|]. by rewrite H, IH. Qed.

Lemma eqb_neg b : Bool.eqb b false = negb b.
Proof. by destruct b. Qed.

Lemma eqb_pos b : Bool.eqb b true = b.
Proof. by destruct b. Qed.

(** A call: no token is left, or the token, whose delimiter, if there is one,
    becomes its terminator; the rest of the string is kept for the next call. *)
Lemma strtok_r_eq m str delim dl l s0 save : cstr m str l -> 0 < str -> cstr m delim dl -> 0 < delim -> bytewise m ->
  s0 = str \/ s0 = 0 /\ save = str ->
  let k := lead dl l in
  let n := tok_len dl l in
  let e := str + Z.of_nat (k + n) in
  strtok_r m s0 delim (Some save) =
    if decide (k = length l) then Some (m, 0, 0)
    else if decide ((k + n)%nat = length l) then Some (m, str + Z.of_nat k, 0)
    else Some (upd m e [0], str + Z.of_nat k, e + 1).
Proof.
  intros H Hs Hdl Hd Hw H0 k n e. unfold strtok_r. pose proof (cstr_in_u8 _ _ _ Hw H) as F.
  replace (if c_true s0 then s0 else save) with str.
  2:{ destruct H0 as [->|[-> ->]]; [by rewrite c_true_ne by lia|done]. }
  rewrite (c_true_ne str) by lia. cbn [negb]. assert (Hkl : (k <= length l)%nat) by apply prefix_len_le.
  rewrite (span_loop_eq dl true l) by (done || by apply cstr_steps in H). cbn [mbind option_bind].
  rewrite (prefix_len_ext _ (in_set dl)) by (intros; apply eqb_pos). fold (lead dl l). fold k.
  pose proof (cstr_drop m str l k H Hkl) as Hk. pose proof (length_drop l k) as Hld.
  assert (Hn : (n <= length l - k)%nat) by (rewrite <- Hld; apply prefix_len_le).
  destruct (decide (k = length l)) as [E|Hne].
  { rewrite E, drop_all in Hk. cbn in Hk. rewrite E, Hk. done. }
  destruct (drop k l) as [|c r] eqn:Ed; [cbn in Hld; lia|]. pose proof Hk as (-> & Hc & _). cbn [mbind option_bind].
  rewrite (c_true_ne c Hc). cbn [negb].
  assert (Fd : Forall in_u8 (c :: r)) by (rewrite <- Ed; by apply Forall_drop).
  rewrite (span_loop_eq dl false (c :: r)) by (done || by apply cstr_steps in Hk). cbn [mbind option_bind].
  rewrite (prefix_len_ext _ (fun c => negb (in_set dl c))) by (intros; apply eqb_neg).
  assert (En : prefix_len (fun c => negb (in_set dl c)) (c :: r) = n) by (unfold n, tok_len; fold k; by rewrite Ed).
  rewrite En. replace (str + Z.of_nat k + Z.of_nat n) with e by (unfold e; lia).
  pose proof (cstr_drop m str l (k + n) H ltac:(lia)) as He. fold e in He. pose proof (length_drop l (k + n)) as Hle.
  destruct (decide ((k + n)%nat = length l)) as [E|Hne2].
  - rewrite E, drop_all in He. cbn in He. by rewrite He.
  - destruct (drop (k + n) l) as [|c2 r2] eqn:Ed2; [cbn in Hle; lia|]. pose proof He as (E2 & Hc2 & _).
    rewrite E2. cbn [mbind option_bind]. rewrite (c_true_ne c2 Hc2), st8_eq by (by eexists). done.
Qed.

(** All tokens: the first call with the string, the others with NULL. *)
Fixpoint strtok_all (k : nat) (m : mem) (str delim save : Z) : option (mem * list Z) :=
  match k with
  | O => None
  | S k' =>
      '(m, tok, save) ← strtok_r m str delim (Some save);
      if c_true tok then '(m, r) ← strtok_all k' m 0 delim save; Some (m, tok :: r) else Some (m, [])
  end.

(** The maximal runs of characters outside [dl]; [cur] is the run so far. *)
Fixpoint split (dl cur l : list Z) : list (list Z) :=
  match l with
  | [] => match cur with [] => [] | _ => [cur] end
  | c :: l' =>
      if in_set dl c then match cur with [] => split dl [] l' | _ => cur :: split dl [] l' end
      else split dl (cur ++ [c]) l'
  end.

Lemma split_lead dl l : split dl [] l = split dl [] (drop (lead dl l) l).
Proof.
  unfold lead. induction l as [|c l IH]; cbn [prefix_len]; [done|]. destruct (in_set dl c) eqn:E; [|done].
  cbn [split skipn]. by rewrite E.
Qed.

Lemma split_run dl l cur : let n := prefix_len (fun c => negb (in_set dl c)) l in
  cur ++ take n l <> [] -> split dl cur l = (cur ++ take n l) :: split dl [] (drop (S n) l).
Proof.
  revert cur. induction l as [|c l IH]; intros cur n.
  - subst n. cbn. rewrite app_nil_r. by destruct cur.
  - subst n. cbn [prefix_len split]. destruct (in_set dl c) eqn:E; cbn [negb].
    + cbn [firstn skipn]. rewrite app_nil_r, drop_0. by destruct cur.
    + cbn [firstn skipn]. intros _. rewrite IH by (by destruct cur). by rewrite <- app_assoc.
Qed.

Lemma tok_len_pos dl l : lead dl l <> length l -> (0 < tok_len dl l)%nat.
Proof.
  unfold tok_len, lead. induction l as [|c l IH]; cbn [prefix_len length]; [done|].
  destruct (in_set dl c) eqn:E; cbn [skipn].
  - intros H. apply IH. lia.
  - intros _. cbn. rewrite E. cbn. lia.
Qed.

Lemma split_token dl l : lead dl l <> length l ->
  split dl [] l = take (tok_len dl l) (drop (lead dl l) l) :: split dl [] (drop (S (lead dl l + tok_len dl l)) l).
Proof.
  intros H. rewrite split_lead. pose proof (tok_len_pos dl l H) as Hp. unfold tok_len in *.
  set (r := drop (lead dl l) l) in *. set (n := prefix_len _ r) in *.
  assert (Hn : (n <= length r)%nat) by apply prefix_len_le.
  rewrite split_run; fold n.
  - cbn [app]. f_equal. f_equal. subst r. rewrite drop_drop. f_equal. lia.
  - intros E%(f_equal length). cbn [app] in E. rewrite length_take in E. cbn in E. lia.
Qed.

Lemma split_none dl l : lead dl l = length l -> split dl [] l = [].
Proof. intros H. rewrite split_lead, H, drop_all. done. Qed.

(** The calls give the tokens of the string, one after the other, each a
    string of its own in the end; nothing outside the string changes. *)
Lemma strtok_all_eq dl k : forall l m str delim s0 save, cstr m str l -> 0 < str -> cstr m delim dl -> 0 < delim ->
  bytewise m -> s0 = str \/ s0 = 0 /\ save = str -> (length l + 1 < k)%nat ->
  (delim + Z.of_nat (length dl) < str \/ str + Z.of_nat (length l) < delim) ->
  exists m' toks, strtok_all k m s0 delim save = Some (m', toks) /\
    Forall2 (cstr m') toks (split dl [] l) /\
    forall x, ~ (str <= x < str + Z.of_nat (length l)) -> m' !! x = m !! x.
Proof.
  induction k as [|k IH]; intros l m str delim s0 save H Hs Hdl Hd Hw H0 Hk Hdis; [lia|].
  cbn [strtok_all]. rewrite (strtok_r_eq m str delim dl l s0 save) by done. cbv zeta.
  set (a := lead dl l) in *. set (n := tok_len dl l) in *.
  assert (Ha : (a <= length l)%nat) by apply prefix_len_le.
  assert (Hn : (a + n <= length l)%nat).
  { pose proof (prefix_len_le (fun c => negb (in_set dl c)) (drop a l)) as Hp. rewrite length_drop in Hp.
    unfold n, tok_len. fold a. lia. }
  destruct (decide (a = length l)) as [E|Hne].
  { cbn. exists m, []. split; [done|]. split; [|done]. by rewrite split_none. }
  rewrite (split_token dl l Hne). fold a n.
  pose proof (cstr_drop m str l a H Ha) as Hta.
  destruct (decide ((a + n)%nat = length l)) as [E|Hne2].
  - cbn [mbind option_bind]. rewrite c_true_ne by lia. destruct k as [|k]; [lia|]. cbn [strtok_all].
    replace (strtok_r m 0 delim (Some 0)) with (Some (m, 0, 0)) by done. cbn [mbind option_bind].
    change (c_true 0) with false. cbn iota. cbn [mbind option_bind].
    exists m, [str + Z.of_nat a]. split; [done|]. split; [|done].
    rewrite (drop_ge l (S (a + n))) by lia. constructor; [|constructor].
    rewrite firstn_all2 by (rewrite length_drop; lia). done.
  - cbn [mbind option_bind]. rewrite c_true_ne by lia. set (e := str + Z.of_nat (a + n)).
    pose proof (cstr_drop m str l (a + n) H Hn) as He. fold e in He.
    pose proof (length_drop l (a + n)) as Hld. destruct (drop (a + n) l) as [|c r] eqn:Ed; [cbn in Hld; lia|].
    cbn [length] in Hld. destruct He as (Ee & Hc & Hr).
    assert (Er : drop (S (a + n)) l = r).
    { replace (S (a + n)) with (a + n + 1)%nat by lia. rewrite <- drop_drop, Ed. done. }
    set (m1 := upd m e [0]).
    assert (M1 : forall x, x <> e -> m1 !! x = m !! x) by (intros x Hx; apply upd_out; cbn; lia).
    destruct (IH r m1 (e + 1) delim 0 (e + 1)) as (m2 & toks & Et & F2 & M2).
    + apply (cstr_ext m); [|done]. intros x Hx. apply M1. lia.
    + unfold e. lia.
    + apply (cstr_ext m); [|done]. intros x Hx. apply M1. unfold e. lia.
    + done.
    + apply bytewise_upd; [done|]. by repeat constructor.
    + by right.
    + lia.
    + unfold e. lia.
    + rewrite Et. cbn [mbind option_bind]. exists m2, ((str + Z.of_nat a) :: toks). split; [done|]. split.
      * rewrite Er. constructor; [|done].
        assert (Ht : cstr m1 (str + Z.of_nat a) (take n (drop a l))).
        { apply cstr_bytes. apply cstr_bytes in Hta as [Hb Fb]. split; [|by apply Forall_take].
          rewrite length_take, length_drop, Nat.min_l by lia.
          replace (S (length (drop a l))) with (n + (S (length (drop a l)) - n))%nat in Hb by (rewrite length_drop; lia).
          apply bytes_take in Hb as [Hb _]. rewrite take_app_le in Hb by (rewrite length_drop; lia).
          replace (S n) with (n + 1)%nat by lia. apply bytes_app.
          - rewrite <- Hb. apply bytes_ext. intros x Hx. apply M1. unfold e. lia.
          - replace (str + Z.of_nat a + Z.of_nat n) with e by (unfold e; lia). apply (bytes_upd_eq m e [0]). }
        apply (cstr_ext m1); [|done]. intros x Hx. apply M2. rewrite length_take, length_drop in Hx. unfold e. lia.
      * intros x Hx. rewrite M2, M1; [done|unfold e; lia|unfold e; lia].
Qed.

(** ** The rest *)

Section Case.

Variable char_signed : bool.

Fixpoint casecmp (l k : list Z) : Z :=
  match l, k with
  | [], [] => 0
  | [], y :: _ => 0 - y
  | x :: _, [] => x - 0
  | x :: l', y :: k' =>
      let c1 := lower (char_int char_signed x) in
      let c2 := lower (char_int char_signed y) in
      if c1 =? c2 then casecmp l' k' else c1 - c2
  end.

Lemma strcasecmp_loop_eq l1 : forall k m s1 s2 l2, cstr m s1 l1 -> cstr m s2 l2 -> (length l1 < k)%nat ->
  strcasecmp_loop char_signed k m s1 s2 = Some (casecmp l1 l2).
Proof.
  induction l1 as [|x l1 IH]; intros k m s1 s2 l2 H1 H2 Hk;
    (destruct k as [|k]; [cbn in Hk; lia|]); cbn [strcasecmp_loop cstr length] in *.
  - rewrite H1. cbn [mbind option_bind]. destruct l2 as [|y l2]; [rewrite H2|destruct H2 as (-> & _ & _)]; done.
  - destruct H1 as (-> & Hx & H1). cbn [mbind option_bind]. rewrite (c_true_ne x Hx). cbn [andb].
    destruct l2 as [|y l2]; cbn [cstr] in H2.
    + by rewrite H2.
    + destruct H2 as (-> & Hy & H2). cbn [mbind option_bind casecmp]. rewrite (c_true_ne y Hy). cbv zeta.
      destruct (_ =? _); [|done]. apply IH; [done|done|lia].
Qed.

(** 0 exactly for strings that agree up to the case of their letters. *)
Lemma casecmp_0 l k : Forall (fun b => b <> 0) l -> Forall (fun b => b <> 0) k ->
  casecmp l k = 0 <-> lower ∘ char_int char_signed <$> l = lower ∘ char_int char_signed <$> k.
Proof.
  intros Hl. revert k. induction Hl as [|x l Hx Hl IH]; intros [|y k] Hk; cbn [casecmp fmap list_fmap compose]; try done.
  - apply list.Forall_cons in Hk as [Hy _]. split; [lia|done].
  - split; [lia|done].
  - apply list.Forall_cons in Hk as [Hy Hk]. cbv zeta. destruct (Z.eqb_spec (lower (char_int char_signed x)) (lower (char_int char_signed y))) as [E|Hne].
    + rewrite IH by done. rewrite E. split; [by intros ->|]. by intros [= ->].
    + split; [lia|]. by intros [= ? ?].
Qed.

End Case.

Lemma strcasecmp_eq cs m s1 s2 l1 l2 : cstr m s1 l1 -> cstr m s2 l2 -> strcasecmp cs m s1 s2 = Some (casecmp cs l1 l2).
Proof. intros H1 H2. apply strcasecmp_loop_eq; [done|done|by apply cstr_steps in H1]. Qed.

(** What [strdup] needs of [kmalloc]: NULL, or bytes apart from the string,
    which stays as it is. *)
Definition kmalloc_ok (kmalloc : mem -> Z -> option (mem * Z)) (m : mem) (s : Z) (l : list Z) : Prop :=
  let n := Z.of_nat (length l) + 1 in
  exists m' d, kmalloc m n = Some (m', d) /\ (d = 0 \/ d <> 0 /\ bytewise m' /\ mapped m' d n /\
    cstr m' s l /\ (d + n <= s \/ s + n <= d)).

(** A copy of the string, or NULL. *)
Lemma strdup_eq kmalloc m s l : cstr m s l -> kmalloc_ok kmalloc m s l ->
  exists m' d, strdup kmalloc m s = Some (m', d) /\ (d = 0 \/ cstr m' d l /\ cstr m' s l).
Proof.
  intros H (m1 & d & E & D). unfold strdup. rewrite (strlen_eq _ _ _ H). cbn [mbind option_bind]. rewrite E.
  cbn [mbind option_bind]. destruct D as [->|(Hd & Hw & Hm & Hs & Hdis)]; [exists m1, 0; by split; [|left]|].
  rewrite (c_true_ne d Hd). pose proof Hs as Hs'. apply cstr_bytes in Hs' as [Hb F].
  replace (S (length l)) with (Z.to_nat (Z.of_nat (length l) + 1)) in Hb by lia.
  rewrite (memcpy_eq m1 d s _ (l ++ [0])) by (done || lia || (unfold upward; lia)). cbn [mbind option_bind].
  eexists _, d. split; [reflexivity|]. right. split; [by apply cstr_upd|].
  apply (cstr_ext m1); [|done]. intros x Hx. apply upd_out. rewrite length_app. cbn. lia.
Qed.
