(* ===== verification/Printf.v ===== *)
(** * Formatted output (kernel/core/printf.c)

    The formatter writes its characters through a function on a state, as the
    source does through a function pointer and a context; [get] is the memory
    in that state, from which the format and string arguments are read.  The
    variable arguments are a list of machine words, taken one by one with the
    conversion of the type that [va_arg] names ([long] is 64 bits wide); taking
    one that is not there is a fault. *)

From stdpp Require Import gmap.
From S2P Require Import Prelude Memory CString.

(** ** Digits *)

Definition digit_char (d : Z) (upper : bool) : Z :=
  if d <? 10 then 48 + d else (if upper then 65 else 97) + d - 10.

(** The digits of a positive value, the last one first. *)
Fixpoint utoa_digits (k : nat) (value base : Z) (upper : bool) (tmp : list Z) (i : Z) : option (list Z * Z) :=
  if 0 <? value then
    match k with
    | O => None
    | S k' =>
        tmp ← wr tmp i (digit_char (value mod base) upper);
        utoa_digits k' (value / base) base upper tmp (i + 1)
    end
  else Some (tmp, i).

(** [while (i-- > 0) buf[len++] = tmp[i];] *)
Fixpoint utoa_reverse (k : nat) (tmp buf : list Z) (i len : Z) : option (list Z * Z) :=
  if 0 <? i then
    match k with
    | O => None
    | S k' => c ← rd tmp (i - 1); buf ← wr buf len c; utoa_reverse k' tmp buf (i - 1) (len + 1)
    end
  else Some (buf, len).

(** [utoa(value, buf + off, base, upper)]: the buffer and the number of
    characters. *)
Definition utoa (value : Z) (buf : list Z) (off base : Z) (upper : bool) : option (list Z * Z) :=
  if value =? 0 then buf ← wr buf off 48; Some (buf, 1)
  else
    '(tmp, i) ← utoa_digits 64 value base upper (replicate 32 0) 0;
    '(buf, len) ← utoa_reverse 64 tmp buf i off;
    Some (buf, len - off).

(** [value = -value] is undefined for the smallest value. *)
Definition itoa (value : Z) (buf : list Z) (base : Z) : option (list Z * Z) :=
  if (value <? 0) && (base =? 10) then
    buf ← wr buf 0 45;
    if value =? I64_MIN then None
    else '(buf, n) ← utoa (- value) buf 1 base false; Some (buf, 1 + n)
  else utoa (u64 value) buf 0 base false.

(** ** The formatter *)

Definition va_arg (args : list Z) : option (Z * list Z) :=
  match args with a :: r => Some (a, r) | [] => None end.

Definition va_signed (mode : Z) (args : list Z) : option (Z * list Z) :=
  '(a, r) ← va_arg args; Some (if c_true mode then s64 a else s32 a, r).

Definition va_unsigned (mode : Z) (args : list Z) : option (Z * list Z) :=
  '(a, r) ← va_arg args; Some (if c_true mode then u64 a else u32 a, r).

Fixpoint width_loop (k : nat) (m : mem) (fmt width : Z) : option (Z * Z) :=
  match k with
  | O => None
  | S k' =>
      c ← m !! fmt;
      if (48 <=? c) && (c <=? 57) then
        let width := width * 10 + (c - 48) in
        if width <=? 2147483647 then width_loop k' m (fmt + 1) width else None
      else Some (width, fmt)
  end.

(** 0 without a length, 1 for [l], 2 for [ll], 3 for [z]. *)
Definition length_mode (m : mem) (fmt : Z) : option (Z * Z) :=
  c ← m !! fmt;
  if c =? 122 then Some (3, fmt + 1)
  else if c =? 108 then
    c ← m !! (fmt + 1);
    if c =? 108 then Some (2, fmt + 2) else Some (1, fmt + 1)
  else Some (0, fmt).

(** A number in [num_buf]: its characters, their count, the arguments left;
    the count is 0 for the other conversions. *)
Definition convert (c mode : Z) (args : list Z) : option (list Z * Z * list Z) :=
  let num_buf := replicate 32 0 in
  let unsigned base upper :=
    '(v, args) ← va_unsigned mode args; '(b, n) ← utoa v num_buf 0 base upper; Some (b, n, args) in
  if c =? 100 then '(v, args) ← va_signed mode args; '(b, n) ← itoa v num_buf 10; Some (b, n, args)
  else if c =? 117 then unsigned 10 false
  else if c =? 111 then unsigned 8 false
  else if c =? 120 then unsigned 16 false
  else if c =? 88 then unsigned 16 true
  else if c =? 112 then
    num_buf ← wr num_buf 0 48; num_buf ← wr num_buf 1 120;
    '(v, args) ← va_arg args;
    '(b, n) ← utoa (u64 v) num_buf 2 16 false;
    Some (b, 2 + n, args)
  else Some (num_buf, 0, args).

Section Format.

Context {S : Type} (get : S -> mem) (putc : Z -> S -> option S).

(** [while ( *s) putc( *s++, ctx);] *)
Fixpoint put_string (k : nat) (s : Z) (st : S) : option S :=
  match k with
  | O => None
  | Datatypes.S k' =>
      c ← get st !! s;
      if c_true c then st ← putc c st; put_string k' (s + 1) st else Some st
  end.

Fixpoint put_all (l : list Z) (st : S) : option S :=
  match l with [] => Some st | c :: l' => st ← putc c st; put_all l' st end.

(** The conversions that write characters at once. *)
Definition put_direct (c : Z) (args : list Z) (st : S) : option (S * list Z) :=
  if c =? 115 then
    '(s, args) ← va_arg args;
    st ← (if c_true s then put_string (steps (get st)) s st
          else put_all [40; 110; 117; 108; 108; 41] st);
    Some (st, args)
  else if c =? 99 then '(a, args) ← va_arg args; st ← putc (u8 a) st; Some (st, args)
  else if c =? 37 then st ← putc 37 st; Some (st, args)
  else st ← putc 37 st; st ← putc c st; Some (st, args).

Definition is_number (c : Z) : bool :=
  (c =? 100) || (c =? 117) || (c =? 111) || (c =? 120) || (c =? 88) || (c =? 112).

(** The padding and the digits of a number. *)
Definition put_number (num_buf : list Z) (nlen width : Z) (pad_zero : bool) (st : S) : option S :=
  if 0 <? nlen then
    c0 ← rd num_buf 0;
    let neg := c0 =? 45 in
    let pad := if width >? nlen then width - nlen else 0 in
    st ← for_ 0 pad (fun _ st => putc (if pad_zero && negb neg then 48 else 32) st) st;
    for_ 0 nlen (fun i st => c ← rd num_buf i; putc c st) st
  else Some st.

Fixpoint do_format (k : nat) (fmt : Z) (args : list Z) (st : S) : option S :=
  match k with
  | O => None
  | Datatypes.S k' =>
      c ← get st !! fmt;
      if negb (c_true c) then Some st
      else if negb (c =? 37) then st ← putc c st; do_format k' (fmt + 1) args st
      else
        let fmt := fmt + 1 in
        c ← get st !! fmt;
        let '(pad_zero, fmt) := if c =? 48 then (true, fmt + 1) else (false, fmt) in
        '(width, fmt) ← width_loop (steps (get st)) (get st) fmt 0;
        '(mode, fmt) ← length_mode (get st) fmt;
        c ← get st !! fmt;
        '(st, args) ←
          (if is_number c then
             '(num_buf, nlen, args) ← convert c mode args;
             st ← put_number num_buf nlen width pad_zero st;
             Some (st, args)
           else put_direct c args st);
        do_format k' (fmt + 1) args st
  end.

End Format.

(** ** Into a buffer *)

(** The memory and the position in it. *)
Definition snprintf_putc (out size : Z) (c : Z) (sc : mem * Z) : option (mem * Z) :=
  let '(m, pos) := sc in
  if (0 <? size) && (pos <? size - 1) then m ← st8 m (out + pos) c; Some (m, pos + 1)
  else Some (m, pos).

Definition vsnprintf (m : mem) (out size fmt : Z) (args : list Z) : option (mem * Z) :=
  '(m, pos) ← do_format fst (snprintf_putc out size) (steps m) fmt args (m, 0);
  m ← (if 0 <? size then st8 m (out + (if pos <? size then pos else size - 1)) 0 else Some m);
  Some (m, s32 pos).

(** ** To the console *)

Definition vprintf_putc (c : Z) (vc : mem * (list Z * Z)) : option (mem * (list Z * Z)) :=
  let '(m, (buf, pos)) := vc in
  if pos <? 1024 - 1 then buf ← wr buf pos c; Some (m, (buf, pos + 1)) else Some vc.

(** The characters sent to the console, under its lock. *)
Definition vprintf (m : mem) (fmt : Z) (args : list Z) : option (list Z) :=
  '(_, (buf, pos)) ← do_format fst vprintf_putc (steps m) fmt args (m, (replicate 1024 0, 0));
  buf ← wr buf pos 0;
  mapM (rd buf) (seqZ 0 pos).
