(* ===== verification/PrintfTheory.v ===== *)
(** * Formatted output: what is written

    The digits of numbers, the text of a format, and that every sink of the
    formatter receives the same text. *)

From stdpp Require Import gmap.
From S2P Require Import Prelude Memory CString CStringTheory Printf.

(** ** Numerals *)

(** The digits of [v], most significant first. *)
Fixpoint digits (k : nat) (base v : Z) : list Z :=
  match k with
  | O => []
  | S k' => (if v <? base then [] else digits k' base (v / base)) ++ [v mod base]
  end.

Definition eval (base : Z) (ds : list Z) : Z := fold_left (fun r d => r * base + d) ds 0.

Lemma eval_app base ds d : eval base (ds ++ [d]) = eval base ds * base + d.
Proof. unfold eval. by rewrite fold_left_app. Qed.

Lemma eval_digits k base v : 1 < base -> 0 <= v < base ^ Z.of_nat k -> eval base (digits k base v) = v.
Proof.
  intros Hb. revert v. induction k as [|k IH]; intros v Hv; cbn [digits].
  - change (base ^ Z.of_nat 0) with 1 in Hv. cbn. lia.
  - rewrite eval_app. rewrite Nat2Z.inj_succ, Z.pow_succ_r in Hv by lia.
    destruct (Z.ltb_spec v base); [rewrite Z.mod_small by lia; cbn; lia|]. rewrite IH.
    + pose proof (Z.div_mod v base). lia.
    + split; [apply Z.div_pos; lia|apply Z.div_lt_upper_bound; lia].
Qed.

Lemma digits_range k base v : 1 < base -> 0 <= v -> Forall (fun d => 0 <= d < base) (digits k base v).
Proof.
  intros Hb. revert v. induction k as [|k IH]; intros v Hv; cbn [digits]; [constructor|].
  apply list.Forall_app. split; [|constructor; [apply Z.mod_pos_bound; lia|constructor]].
  destruct (v <? base); [constructor|]. apply IH. apply Z.div_pos; lia.
Qed.

Lemma digits_length k n base v : 1 < base -> 0 <= v < base ^ Z.of_nat n -> (0 < n)%nat ->
  (length (digits k base v) <= n)%nat.
Proof.
  intros Hb. revert n v. induction k as [|k IH]; intros n v Hv Hn; cbn [digits]; [cbn; lia|].
  rewrite length_app. cbn [length]. destruct (Z.ltb_spec v base); [cbn; lia|].
  destruct n as [|[|n]]; [lia|change (base ^ Z.of_nat 1) with (base ^ 1) in Hv; rewrite Z.pow_1_r in Hv; lia|].
  rewrite Nat2Z.inj_succ, Z.pow_succ_r in Hv by lia.
  specialize (IH (S n) (v / base)). rewrite Nat.add_1_r. apply le_n_S, IH; [|lia].
  split; [apply Z.div_pos; lia|apply Z.div_lt_upper_bound; lia].
Qed.

(** No leading zero. *)
Lemma digits_head k base v : 1 < base -> 0 < v < base ^ Z.of_nat k -> exists d ds, digits k base v = d :: ds /\ 0 < d.
Proof.
  intros Hb. revert v. induction k as [|k IH]; intros v Hv; [change (base ^ Z.of_nat 0) with 1 in Hv; lia|].
  cbn [digits]. rewrite Nat2Z.inj_succ, Z.pow_succ_r in Hv by lia. destruct (Z.ltb_spec v base).
  - exists v, []. rewrite Z.mod_small by lia. split; [done|lia].
  - destruct (IH (v / base)) as (d & ds & -> & Hd).
    + split; [apply Z.div_str_pos; lia|apply Z.div_lt_upper_bound; lia].
    + by exists d, (ds ++ [v mod base]).
Qed.

(** The characters of the digits: 0 to 9, then a to f or A to F. *)
Definition glyphs (upper : bool) : list Z :=
  [48; 49; 50; 51; 52; 53; 54; 55; 56; 57] ++ (if upper then [65; 66; 67; 68; 69; 70] else [97; 98; 99; 100; 101; 102]).

Definition glyph (upper : bool) (d : Z) : Z := nth (Z.to_nat d) (glyphs upper) 0.
#[global] Arguments glyph : simpl never.

Definition numeral (base : Z) (upper : bool) (v : Z) : list Z := glyph upper <$> digits 64 base v.

Lemma digit_char_glyph d upper : 0 <= d < 16 -> digit_char d upper = glyph upper d.
Proof.
  intros Hd. assert (forallb (fun n => forallb (fun up => digit_char (Z.of_nat n) up =? glyph up (Z.of_nat n)) [true; false])
    (List.seq 0 16) = true) as H by (by vm_compute).
  rewrite forallb_forall in H. specialize (H (Z.to_nat d)). rewrite forallb_forall in H.
  rewrite Z2Nat.id in H by lia. apply Z.eqb_eq, H; [apply in_seq; lia|]. destruct upper; [by left|by right; left].
Qed.

Lemma glyph_10 d : 0 <= d < 10 -> glyph false d = 48 + d.
Proof. intros H. rewrite <- digit_char_glyph by lia. unfold digit_char. by rewrite (proj2 (Z.ltb_lt d 10)) by lia. Qed.

Lemma numeral_chars base upper v : 1 < base <= 16 -> 0 <= v ->
  numeral base upper v = (fun d => digit_char d upper) <$> digits 64 base v.
Proof.
  intros Hb Hv. apply list_fmap_ext. intros i d Hd. symmetry. apply digit_char_glyph.
  pose proof (digits_range 64 base v ltac:(lia) Hv) as F. rewrite list.Forall_forall in F.
  specialize (F d (list_elem_of_lookup_2 _ _ _ Hd)). cbn in F. lia.
Qed.

(** ** The two loops of [utoa] *)

Lemma wr_split {A} (l : list A) (i : nat) (x : A) : (i < length l)%nat ->
  wr l (Z.of_nat i) x = Some (take i l ++ x :: drop (S i) l).
Proof. intros H. rewrite wr_Some, Nat2Z.id by lia. by rewrite insert_take_drop by lia. Qed.

Lemma utoa_digits_eq base upper k v tmp (i : nat) : 1 < base -> 0 < v < base ^ Z.of_nat k ->
  let ds := (fun d => digit_char d upper) <$> digits k base v in
  (i + length ds <= length tmp)%nat ->
  utoa_digits k v base upper tmp (Z.of_nat i) =
    Some (take i tmp ++ rev ds ++ drop (i + length ds) tmp, Z.of_nat (i + length ds)).
Proof.
  intros Hb. revert v tmp i. induction k as [|k IH]; intros v tmp i Hv ds Hl; subst ds.
  { change (base ^ Z.of_nat 0) with 1 in Hv. lia. }
  cbn [utoa_digits digits] in *. rewrite Nat2Z.inj_succ, Z.pow_succ_r in Hv by lia.
  rewrite (proj2 (Z.ltb_lt 0 v)) by lia. rewrite fmap_app, length_app, length_fmap in *. cbn [fmap list_fmap length] in *.
  rewrite wr_split by lia. cbn [mbind option_bind]. set (c := digit_char (v mod base) upper).
  set (t1 := take i tmp ++ c :: drop (S i) tmp).
  assert (Ht1 : length t1 = length tmp).
  { subst t1. rewrite length_app, length_take. cbn. rewrite length_drop. lia. }
  replace (Z.of_nat i + 1) with (Z.of_nat (S i)) by lia.
  assert (Hti : take (S i) t1 = take i tmp ++ [c]).
  { subst t1. replace (S i) with (length (take i tmp) + 1)%nat by (rewrite length_take; lia).
    rewrite take_app_add. cbn. by rewrite take_0. }
  destruct (Z.ltb_spec v base) as [Hlt|Hge].
  - rewrite Z.div_small by lia. cbn [length fmap list_fmap].
    replace (utoa_digits k 0 base upper t1 (Z.of_nat (S i))) with (Some (t1, Z.of_nat (S i))) by (by destruct k).
    do 2 f_equal; [|lia]. subst t1. cbn [rev app]. do 2 f_equal. f_equal. lia.
  - rewrite rev_app_distr. cbn [rev app].
    rewrite (IH (v / base) t1 (S i)).
    + do 2 f_equal; [|rewrite length_fmap; lia]. rewrite Hti, <- app_assoc. cbn [app]. do 3 f_equal.
      rewrite length_fmap. subst t1. rewrite drop_app_ge by (rewrite length_take; lia). rewrite length_take, Nat.min_l by lia.
      replace (S i + length (digits k base (v / base)) - i)%nat with (S (length (digits k base (v / base)))) by lia.
      cbn [skipn]. rewrite drop_drop. f_equal. lia.
    + split; [apply Z.div_str_pos; lia|apply Z.div_lt_upper_bound; lia].
    + rewrite length_fmap. lia.
Qed.

Lemma utoa_reverse_eq k tmp buf (i len : nat) : (i <= k)%nat -> (i <= length tmp)%nat -> (len + i <= length buf)%nat ->
  utoa_reverse k tmp buf (Z.of_nat i) (Z.of_nat len) =
    Some (take len buf ++ rev (take i tmp) ++ drop (len + i) buf, Z.of_nat (len + i)).
Proof.
  revert buf i len. induction k as [|k IH]; intros buf i len Hk Ht Hb.
  - replace i with 0%nat by lia. cbn. rewrite Nat.add_0_r, take_0. cbn. by rewrite take_drop.
  - cbn [utoa_reverse]. destruct i as [|i].
    { cbn. rewrite Nat.add_0_r, take_0. cbn. by rewrite take_drop. }
    rewrite (proj2 (Z.ltb_lt 0 _)) by lia. replace (Z.of_nat (S i) - 1) with (Z.of_nat i) by lia. rewrite rd_nat.
    destruct (lookup_lt_is_Some_2 tmp i ltac:(lia)) as [c Hc]. rewrite Hc. cbn [mbind option_bind].
    rewrite wr_split by lia. cbn [mbind option_bind]. replace (Z.of_nat len + 1) with (Z.of_nat (S len)) by lia.
    rewrite IH by (rewrite ?length_app, ?length_take; cbn; rewrite ?length_drop; lia).
    do 2 f_equal; [|lia]. rewrite (take_S_r tmp i c Hc), rev_app_distr. cbn [rev app].
    replace (S len) with (length (take len buf) + 1)%nat at 1 by (rewrite length_take; lia).
    rewrite take_app_add. cbn [firstn]. rewrite take_0, <- app_assoc. cbn [app]. do 3 f_equal.
    rewrite drop_app_ge by (rewrite length_take; lia). rewrite length_take, Nat.min_l by lia.
    replace (S len + i - len)%nat with (S i) by lia. cbn [skipn]. rewrite drop_drop. f_equal. lia.
Qed.

Lemma numeral_length base upper v : 8 <= base -> in_u64 v -> (1 <= length (numeral base upper v) <= 22)%nat.
Proof.
  intros Hb Hv. unfold numeral. rewrite length_fmap. split.
  - change 64%nat with (S 63). cbn [digits]. rewrite length_app. cbn [length]. lia.
  - apply digits_length; [lia| |lia]. unfold in_u64 in Hv.
    pose proof (Z.pow_le_mono_l 8 base (Z.of_nat 22) ltac:(lia)). change (8 ^ Z.of_nat 22) with 73786976294838206464 in *. lia.
Qed.

Lemma utoa_eq v buf o (off : nat) base upper : o = Z.of_nat off -> 8 <= base <= 16 -> in_u64 v -> (off + 22 <= length buf)%nat ->
  let t := numeral base upper v in
  utoa v buf o base upper = Some (take off buf ++ t ++ drop (off + length t) buf, Z.of_nat (length t)).
Proof.
  intros -> Hb Hv Hl t. pose proof (numeral_length base upper v ltac:(lia) Hv) as Ht. fold t in Ht. unfold utoa.
  destruct (Z.eqb_spec v 0) as [->|Hz].
  - rewrite wr_split by lia. cbn [mbind option_bind].
    assert (Et : t = [48]).
    { subst t. unfold numeral. change 64%nat with (S 63). cbn [digits]. rewrite (proj2 (Z.ltb_lt 0 base)), Z.mod_0_l by lia. done. }
    rewrite Et. cbn [app length]. by rewrite Nat.add_1_r.
  - unfold in_u64 in Hv. subst t. rewrite numeral_chars in * by lia. rewrite length_fmap in Ht.
    change 0 with (Z.of_nat 0) at 2. rewrite utoa_digits_eq.
    + cbn [mbind option_bind]. rewrite take_0, !Nat.add_0_l, length_fmap. cbn [app].
      rewrite utoa_reverse_eq.
      * cbn [mbind option_bind]. f_equal. f_equal; [|lia]. do 2 f_equal.
        rewrite take_app_le by (rewrite length_rev, length_fmap; lia).
        rewrite firstn_all2 by (rewrite length_rev, length_fmap; lia). apply rev_involutive.
      * lia.
      * rewrite length_app, length_rev, length_fmap. lia.
      * lia.
    + lia.
    + split; [lia|]. pose proof (Z.pow_le_mono_l 8 base (Z.of_nat 64) ltac:(lia)).
      assert (18446744073709551616 <= 8 ^ Z.of_nat 64) by (by vm_compute). lia.
    + rewrite length_fmap, length_replicate. lia.
Qed.

(** What a conversion of a number writes. *)
Definition number_text (c mode a : Z) : list Z :=
  let sv := if c_true mode then s64 a else s32 a in
  let uv := if c_true mode then u64 a else u32 a in
  if c =? 100 then (if sv <? 0 then 45 :: numeral 10 false (- sv) else numeral 10 false sv)
  else if c =? 117 then numeral 10 false uv
  else if c =? 111 then numeral 8 false uv
  else if c =? 120 then numeral 16 false uv
  else if c =? 88 then numeral 16 true uv
  else 48 :: 120 :: numeral 16 false (u64 a).

Lemma s64_range z : I64_MIN <= s64 z <= I64_MAX.
Proof. unfold s64, I64_MIN, I64_MAX. pose proof (u64_range z) as H. unfold in_u64 in H. split_if; reflect; lia. Qed.

Lemma take_front {A} (t r : list A) n : n = Z.of_nat (length t) -> take (Z.to_nat n) (t ++ r) = t.
Proof. intros ->. by rewrite Nat2Z.id, take_app_length. Qed.

Lemma convert_eq c mode a args : is_number c = true -> (c = 100 -> (if c_true mode then s64 a else s32 a) <> I64_MIN) ->
  exists b, convert c mode (a :: args) = Some (b, Z.of_nat (length (number_text c mode a)), args) /\
    take (length (number_text c mode a)) b = number_text c mode a /\ (length (number_text c mode a) <= length b)%nat.
Proof.
  intros Hn Hmin. unfold convert, va_signed, va_unsigned. cbn [va_arg mbind option_bind]. cbv zeta.
  set (sv := if c_true mode then s64 a else s32 a) in *. set (uv := if c_true mode then u64 a else u32 a).
  assert (Hs : I64_MIN <= sv <= I64_MAX).
  { subst sv. destruct (c_true mode); [apply s64_range|]. pose proof (s32_range a). unfold I64_MIN, I64_MAX. lia. }
  assert (Hu : in_u64 uv).
  { subst uv. destruct (c_true mode); [apply u64_range|]. pose proof (u32_range a) as H. unfold in_u32, in_u64 in *. lia. }
  assert (U : forall base upper, 8 <= base <= 16 -> exists b,
    ('(b, n) ← utoa uv (replicate 32 0) 0 base upper; Some (b, n, args)) =
      Some (b, Z.of_nat (length (numeral base upper uv)), args) /\
    take (length (numeral base upper uv)) b = numeral base upper uv /\ (length (numeral base upper uv) <= length b)%nat).
  { intros base upper Hb. rewrite (utoa_eq uv (replicate 32 0) 0 0 base upper) by done || (rewrite length_replicate; lia).
    cbn [mbind option_bind]. eexists. split; [reflexivity|]. rewrite take_0. cbn [app].
    rewrite take_app_length, length_app. split; [done|lia]. }
  unfold number_text. fold sv uv. unfold is_number in Hn.
  destruct (Z.eqb_spec c 100) as [->|].
  { unfold itoa. change (10 =? 10) with true. rewrite andb_true_r. specialize (Hmin eq_refl).
    destruct (Z.ltb_spec sv 0).
    - rewrite (wr_split _ 0) by (rewrite length_replicate; lia). cbn [mbind option_bind].
      rewrite (proj2 (Z.eqb_neq sv I64_MIN) Hmin).
      rewrite (utoa_eq (- sv) _ 1 1); [|done|lia|unfold in_u64; unfold I64_MIN, I64_MAX in *; lia|cbn; lia].
      cbn [mbind option_bind]. eexists. split; [cbn [length]; f_equal; f_equal; f_equal; lia|].
      change (take 1 _) with [45].
      match goal with |- context [[45] ++ ?t ++ ?r] => change ([45] ++ t ++ r) with ((45 :: t) ++ r) end.
      rewrite take_app_length, length_app. split; [done|lia].
    - rewrite (u64_small sv) by (unfold in_u64, I64_MAX in *; lia).
      rewrite (utoa_eq sv (replicate 32 0) 0 0 10 false); [|done|lia|unfold in_u64, I64_MAX in *; lia|rewrite length_replicate; lia].
      cbn [mbind option_bind]. eexists. split; [reflexivity|]. rewrite take_0. cbn [app].
      rewrite take_app_length, length_app. split; [done|lia]. }
  destruct (Z.eqb_spec c 117); [by apply U|]. destruct (Z.eqb_spec c 111); [by apply U|].
  destruct (Z.eqb_spec c 120); [by apply U|]. destruct (Z.eqb_spec c 88); [by apply U|].
  cbn [orb] in Hn. rewrite Hn. rewrite (wr_split _ 0) by (rewrite length_replicate; lia). cbn [mbind option_bind].
  rewrite (wr_split _ 1) by (cbn; lia). cbn [mbind option_bind].
  rewrite (utoa_eq (u64 a) _ 2 2); [|done|lia|apply u64_range|cbn; lia].
  cbn [mbind option_bind]. eexists. split; [cbn [length]; f_equal; f_equal; f_equal; lia|].
  change (take 2 _) with [48; 120].
  match goal with |- context [[48; 120] ++ ?t ++ ?r] => change ([48; 120] ++ t ++ r) with ((48 :: 120 :: t) ++ r) end.
  rewrite take_app_length, length_app. split; [done|lia].
Qed.

(** ** Numbers in a field *)

Definition padding (width : Z) (zero : bool) (t : list Z) : list Z :=
  replicate (Z.to_nat (width - Z.of_nat (length t)))
    (if zero && negb (match t with c :: _ => c =? 45 | [] => false end) then 48 else 32).

Section Put.

Context {S : Type} (putc : Z -> S -> option S).

Lemma put_all_app l k st : put_all putc (l ++ k) st = st ← put_all putc l st; put_all putc k st.
Proof.
  revert st. induction l as [|c l IH]; intros st; cbn [put_all app]; [done|]. destruct (putc c st); cbn; [apply IH|done].
Qed.

Lemma for_put_same n i c st : for_loop n i (fun _ st => putc c st) st = put_all putc (replicate n c) st.
Proof.
  revert i st. induction n as [|n IH]; intros i st; cbn [for_loop replicate put_all]; [done|].
  destruct (putc c st); cbn; [apply IH|done].
Qed.

Lemma for_put_list b n (i : nat) st : (i + n <= length b)%nat ->
  for_loop n (Z.of_nat i) (fun i st => c ← rd b i; putc c st) st = put_all putc (take n (drop i b)) st.
Proof.
  revert i st. induction n as [|n IH]; intros i st Hi; cbn [for_loop]; [by rewrite take_0|].
  rewrite rd_nat. destruct (lookup_lt_is_Some_2 b i ltac:(lia)) as [c Hc]. rewrite Hc. cbn [mbind option_bind].
  rewrite (drop_S b c i Hc). cbn [firstn put_all]. destruct (putc c st) as [s|]; cbn [mbind option_bind]; [|done].
  replace (Z.of_nat i + 1) with (Z.of_nat (Datatypes.S i)) by lia. apply IH. lia.
Qed.

Lemma put_number_eq b t width zero st : take (length t) b = t -> (0 < length t <= length b)%nat ->
  put_number putc b (Z.of_nat (length t)) width zero st = put_all putc (padding width zero t ++ t) st.
Proof.
  intros Ht Hl. unfold put_number. rewrite (proj2 (Z.ltb_lt 0 _)) by lia. destruct t as [|c0 t']; [cbn in Hl; lia|].
  set (t := c0 :: t') in *. destruct b as [|b0 b']; [cbn in Hl; lia|]. cbn in Ht. injection Ht as -> Ht.
  change (rd (c0 :: b') 0) with (Some c0). cbn [mbind option_bind].
  unfold for_. rewrite !Z.sub_0_r, for_put_same, put_all_app. unfold padding.
  change (match t with c :: _ => c =? 45 | [] => false end) with (c0 =? 45).
  replace (Z.to_nat (if width >? Z.of_nat (length t) then width - Z.of_nat (length t) else 0))
    with (Z.to_nat (width - Z.of_nat (length t))) by (rewrite Z.gtb_ltb; split_if; reflect; lia).
  destruct (put_all putc _ st) as [st1|]; cbn [mbind option_bind]; [|done].
  rewrite Nat2Z.id. change 0 with (Z.of_nat 0). rewrite for_put_list by lia. rewrite drop_0.
  f_equal. cbn. by rewrite Ht.
Qed.

End Put.

(** ** Two sinks

    If every state of the second sink has at least the memory of the related
    state of the first, and characters keep states related, so do formats. *)

Lemma width_loop_more k m fmt w r : width_loop k m fmt w = Some r -> forall k' m', (k <= k')%nat -> m ⊆ m' ->
  width_loop k' m' fmt w = Some r.
Proof.
  revert fmt w. induction k as [|k IH]; intros fmt w H k' m' Hk Hm; [done|]. destruct k' as [|k']; [lia|].
  cbn [width_loop] in *. destruct (m !! fmt) as [c|] eqn:E; [|done]. rewrite (lookup_weaken _ _ _ _ E Hm).
  cbn [mbind option_bind] in *. destruct (_ && _); [|done]. cbv zeta in *. destruct (_ <=? _); [|done].
  apply IH; [done|lia|done].
Qed.

Lemma length_mode_more m m' fmt r : length_mode m fmt = Some r -> m ⊆ m' -> length_mode m' fmt = Some r.
Proof.
  unfold length_mode. intros H Hm. destruct (m !! fmt) as [c|] eqn:E; [|done]. rewrite (lookup_weaken _ _ _ _ E Hm).
  cbn [mbind option_bind] in *. destruct (c =? 122); [done|]. destruct (c =? 108); [|done].
  destruct (m !! (fmt + 1)) as [c2|] eqn:E2; [|done]. by rewrite (lookup_weaken _ _ _ _ E2 Hm).
Qed.

Section Simulation.

Context {S1 S2 : Type} (get1 : S1 -> mem) (get2 : S2 -> mem)
  (putc1 : Z -> S1 -> option S1) (putc2 : Z -> S2 -> option S2) (R : S1 -> S2 -> Prop).

Hypothesis R_mem : forall s1 s2, R s1 s2 -> get1 s1 ⊆ get2 s2.
Hypothesis R_put : forall c s1 s2 s1', R s1 s2 -> putc1 c s1 = Some s1' -> exists s2', putc2 c s2 = Some s2' /\ R s1' s2'.

Lemma R_steps s1 s2 : R s1 s2 -> (steps (get1 s1) <= steps (get2 s2))%nat.
Proof. intros H. apply R_mem, map_subseteq_size in H. unfold steps. lia. Qed.

Lemma put_string_sim k s s1 s2 s1' : R s1 s2 -> put_string get1 putc1 k s s1 = Some s1' -> forall k', (k <= k')%nat ->
  exists s2', put_string get2 putc2 k' s s2 = Some s2' /\ R s1' s2'.
Proof.
  revert s s1 s2. induction k as [|k IH]; intros s s1 s2 HR H k' Hk; [done|]. destruct k' as [|k']; [lia|].
  cbn [put_string] in *. destruct (get1 s1 !! s) as [c|] eqn:E; [|done].
  rewrite (lookup_weaken _ _ _ _ E (R_mem _ _ HR)). cbn [mbind option_bind] in *.
  destruct (c_true c); [|injection H as <-; by exists s2].
  destruct (putc1 c s1) as [t1|] eqn:Ep; [|done]. destruct (R_put _ _ _ _ HR Ep) as (t2 & -> & HR'). cbn [mbind option_bind] in *.
  apply (IH _ t1); [done|done|lia].
Qed.

Lemma put_all_sim l s1 s2 s1' : R s1 s2 -> put_all putc1 l s1 = Some s1' -> exists s2', put_all putc2 l s2 = Some s2' /\ R s1' s2'.
Proof.
  revert s1 s2. induction l as [|c l IH]; intros s1 s2 HR H; cbn [put_all] in *; [injection H as <-; by exists s2|].
  destruct (putc1 c s1) as [t1|] eqn:Ep; [|done]. destruct (R_put _ _ _ _ HR Ep) as (t2 & -> & HR'). cbn [mbind option_bind] in *.
  by apply (IH t1).
Qed.

Lemma for_put_sim n (f : Z -> option Z) i s1 s2 s1' : R s1 s2 ->
  for_loop n i (fun i st => c ← f i; putc1 c st) s1 = Some s1' ->
  exists s2', for_loop n i (fun i st => c ← f i; putc2 c st) s2 = Some s2' /\ R s1' s2'.
Proof.
  revert i s1 s2. induction n as [|n IH]; intros i s1 s2 HR H; cbn [for_loop] in *; [injection H as <-; by exists s2|].
  destruct (f i) as [c|]; [|done]. cbn [mbind option_bind] in *.
  destruct (putc1 c s1) as [t1|] eqn:Ep; [|done]. destruct (R_put _ _ _ _ HR Ep) as (t2 & -> & HR'). cbn [mbind option_bind] in *.
  by apply (IH _ t1).
Qed.

Lemma put_number_sim b n w z s1 s2 s1' : R s1 s2 -> put_number putc1 b n w z s1 = Some s1' ->
  exists s2', put_number putc2 b n w z s2 = Some s2' /\ R s1' s2'.
Proof.
  intros HR. unfold put_number. destruct (0 <? n); [|intros [= <-]; by exists s2].
  destruct (rd b 0) as [c0|]; [|done]. cbn [mbind option_bind]. unfold for_. cbv zeta. rewrite !for_put_same.
  destruct (put_all putc1 _ s1) as [t1|] eqn:E1; [|done]. destruct (put_all_sim _ _ _ _ HR E1) as (t2 & -> & HR').
  cbn [mbind option_bind]. by apply for_put_sim.
Qed.

Lemma put_direct_sim c args s1 s2 s1' r : R s1 s2 -> put_direct get1 putc1 c args s1 = Some (s1', r) ->
  exists s2', put_direct get2 putc2 c args s2 = Some (s2', r) /\ R s1' s2'.
Proof.
  intros HR. pose proof (R_steps _ _ HR) as Hst. unfold put_direct.
  assert (P1 : forall c t1 s1' (r' : list Z), R s1 s2 -> putc1 c s1 = Some t1 -> exists t2, putc2 c s2 = Some t2 /\ R t1 t2) by eauto.
  destruct (c =? 115).
  { destruct (va_arg args) as [[s a]|]; [|done]. cbn [mbind option_bind].
    assert (Hs : forall t1, (if c_true s then put_string get1 putc1 (steps (get1 s1)) s s1
                             else put_all putc1 [40; 110; 117; 108; 108; 41] s1) = Some t1 ->
      exists t2, (if c_true s then put_string get2 putc2 (steps (get2 s2)) s s2
                  else put_all putc2 [40; 110; 117; 108; 108; 41] s2) = Some t2 /\ R t1 t2).
    { intros t1 Ht. destruct (c_true s); [by apply (put_string_sim _ _ s1 s2 t1 HR Ht)|by apply (put_all_sim _ s1)]. }
    match goal with |- (x ← ?e; _) = _ -> _ => destruct e as [t1|] eqn:Ee; [|done] end.
    destruct (Hs t1 eq_refl) as (t2 & -> & HR'). cbn [mbind option_bind]. intros [= <- <-]. by exists t2. }
  destruct (c =? 99).
  { destruct (va_arg args) as [[s a]|]; [|done]. cbn [mbind option_bind].
    destruct (putc1 (u8 s) s1) as [t1|] eqn:Ep; [|done]. destruct (R_put _ _ _ _ HR Ep) as (t2 & -> & HR').
    cbn [mbind option_bind]. intros [= <- <-]. by exists t2. }
  destruct (putc1 37 s1) as [t1|] eqn:Ep; [|by destruct (c =? 37)]. destruct (R_put _ _ _ _ HR Ep) as (t2 & -> & HR').
  cbn [mbind option_bind]. destruct (c =? 37); [intros [= <- <-]; by exists t2|].
  destruct (putc1 c t1) as [u1|] eqn:Ep2; [|done]. destruct (R_put _ _ _ _ HR' Ep2) as (u2 & -> & HR2).
  cbn [mbind option_bind]. intros [= <- <-]. by exists u2.
Qed.

Lemma do_format_sim k fmt args s1 s2 s1' : R s1 s2 -> do_format get1 putc1 k fmt args s1 = Some s1' ->
  forall k', (k <= k')%nat -> exists s2', do_format get2 putc2 k' fmt args s2 = Some s2' /\ R s1' s2'.
Proof.
  revert fmt args s1 s2. induction k as [|k IH]; intros fmt args s1 s2 HR H k' Hk; [done|]. destruct k' as [|k']; [lia|].
  cbn [do_format] in *. pose proof (R_mem _ _ HR) as Hm. pose proof (R_steps _ _ HR) as Hst.
  destruct (get1 s1 !! fmt) as [c|] eqn:E; [|done]. rewrite (lookup_weaken _ _ _ _ E Hm). cbn [mbind option_bind] in *.
  destruct (negb (c_true c)); [injection H as <-; by exists s2|]. destruct (negb (c =? 37)).
  { destruct (putc1 c s1) as [t1|] eqn:Ep; [|done]. destruct (R_put _ _ _ _ HR Ep) as (t2 & -> & HR').
    cbn [mbind option_bind] in *. apply (IH _ _ t1); [done|done|lia]. }
  destruct (get1 s1 !! (fmt + 1)) as [c1|] eqn:E1; [|done]. rewrite (lookup_weaken _ _ _ _ E1 Hm). cbn [mbind option_bind] in *.
  cbv zeta in *. destruct (if c1 =? 48 then _ else _) as [pz f1].
  destruct (width_loop _ (get1 s1) f1 0) as [[w f2]|] eqn:E2; [|done].
  rewrite (width_loop_more _ _ _ _ _ E2 _ _ Hst Hm). cbn [mbind option_bind] in *.
  destruct (length_mode (get1 s1) f2) as [[mode f3]|] eqn:E3; [|done].
  rewrite (length_mode_more _ _ _ _ E3 Hm). cbn [mbind option_bind] in *.
  destruct (get1 s1 !! f3) as [c3|] eqn:E4; [|done]. rewrite (lookup_weaken _ _ _ _ E4 Hm). cbn [mbind option_bind] in *.
  destruct (is_number c3).
  - destruct (convert c3 mode args) as [[[b n] a]|]; [|done]. cbn [mbind option_bind] in *.
    destruct (put_number putc1 b n w pz s1) as [t1|] eqn:Ep; [|done].
    destruct (put_number_sim _ _ _ _ _ _ _ HR Ep) as (t2 & -> & HR'). cbn [mbind option_bind] in *.
    apply (IH _ _ t1); [done|done|lia].
  - destruct (put_direct get1 putc1 c3 args s1) as [[t1 a]|] eqn:Ep; [|done].
    destruct (put_direct_sim _ _ _ _ _ _ HR Ep) as (t2 & -> & HR'). cbn [mbind option_bind] in *.
    apply (IH _ _ t1); [done|done|lia].
Qed.

End Simulation.

(** ** The text of a format *)

Definition text_putc (c : Z) (s : mem * list Z) : option (mem * list Z) := Some (s.1, s.2 ++ [c]).

(** The characters a format and its arguments produce. *)
Definition text (m : mem) (fmt : Z) (args : list Z) : option (list Z) :=
  '(_, t) ← do_format fst text_putc (steps m) fmt args (m, []); Some t.

Lemma text_put_all l m t : put_all text_putc l (m, t) = Some (m, t ++ l).
Proof.
  revert t. induction l as [|c l IH]; intros t; cbn [put_all]; [by rewrite app_nil_r|].
  cbn [text_putc mbind option_bind fst snd]. by rewrite IH, <- app_assoc.
Qed.

Lemma text_put_string l k m s t : cstr m s l -> (length l < k)%nat ->
  put_string fst text_putc k s (m, t) = Some (m, t ++ l).
Proof.
  revert k s t. induction l as [|b l IH]; intros k s t H Hk; (destruct k as [|k]; [cbn in Hk; lia|]);
    cbn [put_string cstr length fst] in *.
  - rewrite H. cbn. by rewrite app_nil_r.
  - destruct H as (-> & Hb & H). cbn [mbind option_bind]. rewrite (c_true_ne b Hb). cbn [text_putc mbind option_bind fst snd].
    rewrite IH by (done || lia). by rewrite <- app_assoc.
Qed.

(** The memory without a buffer. *)
Definition outside (m : mem) (out size : Z) : mem := filter (fun y => y.1 < out \/ out + size <= y.1) m.

Lemma outside_lookup m out size x : outside m out size !! x = if (out <=? x) && (x <? out + size) then None else m !! x.
Proof.
  unfold outside. rewrite map_lookup_filter. destruct (Z.leb_spec out x), (Z.ltb_spec x (out + size)); cbn [andb];
    destruct (m !! x); cbn; try done; case_guard; cbn in *; done || lia.
Qed.

Lemma outside_upd m out size l : Z.of_nat (length l) <= size -> outside m out size ⊆ upd m out l.
Proof.
  intros Hl. apply map_subseteq_spec. intros x b. rewrite outside_lookup, upd_lookup.
  destruct (Z.leb_spec out x), (Z.ltb_spec x (out + size)), (Z.ltb_spec x (out + Z.of_nat (length l))); cbn [andb]; done || lia.
Qed.

(** What the buffer holds after [t] was written. *)
Definition kept (size : Z) (t : list Z) : list Z := take (Z.to_nat (size - 1)) t.

Lemma kept_snoc size t c : kept size (t ++ [c]) =
  if (0 <? size) && (Z.of_nat (length (kept size t)) <? size - 1) then kept size t ++ [c] else kept size t.
Proof.
  unfold kept. rewrite length_take. destruct (Z.ltb_spec 0 size); cbn [andb].
  - destruct (Z.ltb_spec (Z.of_nat (Z.to_nat (size - 1) `min` length t)) (size - 1)).
    + rewrite take_app_ge by lia. rewrite (take_ge t) by lia. f_equal. apply take_ge. cbn. lia.
    + apply take_app_le. lia.
  - replace (Z.to_nat (size - 1)) with 0%nat by lia. by rewrite !take_0.
Qed.

(** A format that does not read the buffer fills it with the first
    [size - 1] characters of its text and a terminator. *)
Lemma vsnprintf_eq m out size fmt args t : 0 <= size < 2147483648 -> mapped m out size ->
  text (outside m out size) fmt args = Some t ->
  vsnprintf m out size fmt args =
    Some (if 0 <? size then upd m out (kept size t ++ [0]) else m, Z.of_nat (length (kept size t))).
Proof.
  intros Hsz Hm. unfold text, vsnprintf. set (m0 := outside m out size).
  destruct (do_format fst text_putc (steps m0) fmt args (m0, [])) as [[m1 t1]|] eqn:E; [|done].
  cbn [mbind option_bind]. intros [= ->].
  set (R := fun (s1 : mem * list Z) (s2 : mem * Z) => s1.1 = m0 /\ s2.1 = upd m out (kept size s1.2) /\
              s2.2 = Z.of_nat (length (kept size s1.2))).
  assert (Hk : forall l, Z.of_nat (length (kept size l)) <= Z.max 0 (size - 1)) by (intros l; unfold kept; rewrite length_take; lia).
  destruct (do_format_sim fst fst text_putc (snprintf_putc out size) R) with (k := steps m0) (fmt := fmt) (args := args)
    (s1 := (m0, [] : list Z)) (s2 := (m, 0)) (s1' := (m1, t)) (k' := steps m) as ([m2 pos] & -> & _ & Em & Ep).
  - intros [x l] [y p] (H1 & H2 & _). cbn in *. subst. apply outside_upd. specialize (Hk l). lia.
  - intros c [x l] [y p] s1' (H1 & H2 & H3) [= <-]. cbn in *. subst. unfold snprintf_putc.
    destruct ((0 <? size) && (Z.of_nat (length (kept size l)) <? size - 1)) eqn:Eb.
    + reflect. rewrite st8_eq.
      * cbn [mbind option_bind]. eexists. split; [reflexivity|]. split; [done|]. cbn [fst snd].
        rewrite kept_snoc, (proj2 (Z.ltb_lt 0 size)), (proj2 (Z.ltb_lt _ (size - 1))) by done. cbn [andb].
        rewrite length_app. cbn [length]. split; [|lia]. rewrite <- upd_seq. done.
      * apply upd_dom; [intros y Hy; apply Hm; lia|]. apply Hm. lia.
    + eexists. split; [reflexivity|]. split; [done|]. cbn [fst snd]. by rewrite kept_snoc, Eb.
  - split; [done|]. unfold kept. cbn [fst snd]. by rewrite take_nil.
  - done.
  - apply le_n_S, map_subseteq_size. apply (outside_upd m out size []). cbn. lia.
  - cbn [fst snd] in Em, Ep. subst m2 pos. cbn [mbind option_bind]. specialize (Hk t).
    rewrite (s32_small (Z.of_nat (length (kept size t)))) by lia.
    destruct (Z.ltb_spec 0 size).
    + rewrite (proj2 (Z.ltb_lt _ size)) by lia. rewrite st8_eq.
      * cbn [mbind option_bind]. by rewrite <- upd_seq.
      * apply upd_dom; [intros y Hy; apply Hm; lia|]. apply Hm. lia.
    + cbn [mbind option_bind]. unfold kept. replace (Z.to_nat (size - 1)) with 0%nat by lia. by rewrite take_0.
Qed.

Lemma wr_end {A} (l k : list A) x c : wr (l ++ x :: k) (Z.of_nat (length l)) c = Some ((l ++ [c]) ++ k).
Proof.
  rewrite wr_Some by (rewrite length_app; cbn; lia). rewrite Nat2Z.id, insert_app_r_alt by lia.
  rewrite Nat.sub_diag, <- app_assoc. done.
Qed.

Lemma mapM_prefix {A} (l k : list A) : mapM (rd (l ++ k)) (seqZ 0 (Z.of_nat (length l))) = Some l.
Proof.
  apply mapM_Some_2. apply Forall2_same_length_lookup_2; [rewrite length_seqZ; lia|].
  intros i x y [-> Hi]%lookup_seqZ Hy. rewrite Z.add_0_l, rd_nat. by apply lookup_app_l_Some.
Qed.

(** The console gets the first 1023 characters of the text. *)
Lemma vprintf_eq m fmt args t : text m fmt args = Some t -> vprintf m fmt args = Some (kept 1024 t).
Proof.
  unfold text, vprintf. destruct (do_format fst text_putc (steps m) fmt args (m, [])) as [[m1 t1]|] eqn:E; [|done].
  cbn [mbind option_bind]. intros [= ->].
  set (R := fun (s1 : mem * list Z) (s2 : mem * (list Z * Z)) => s1.1 = m /\ s2.1 = m /\ length s2.2.1 = 1024%nat /\
              (exists k, s2.2.1 = kept 1024 s1.2 ++ k) /\ s2.2.2 = Z.of_nat (length (kept 1024 s1.2))).
  assert (Hk : forall l, Z.of_nat (length (kept 1024 l)) <= 1023) by (intros l; unfold kept; rewrite length_take; lia).
  destruct (do_format_sim fst fst text_putc vprintf_putc R) with (k := steps m) (fmt := fmt) (args := args)
    (s1 := (m, [] : list Z)) (s2 := (m, (replicate 1024 0, 0))) (s1' := (m1, t)) (k' := steps m)
    as ([m2 [buf pos]] & -> & _ & _ & Hb & [k Eb] & Ep).
  - intros [x l] [y [b p]] (H1 & H2 & _). cbn [fst snd] in *. by subst.
  - intros c [x l] [y [b p]] s1' (H1 & H2 & H3 & [k H4] & H5) [= <-]. cbn [fst snd] in *. subst. unfold vprintf_putc.
    destruct (Z.of_nat (length (kept 1024 l)) <? 1024 - 1) eqn:Eb.
    + assert (Hl : (length k <> 0)%nat) by (intros Hl; rewrite length_app, Hl in H3; specialize (Hk l); lia).
      destruct k as [|z k]; [done|]. rewrite wr_end. cbn [mbind option_bind]. eexists. split; [reflexivity|].
      unfold R. cbn [fst snd]. rewrite kept_snoc, Eb. change ((0 <? 1024) && true) with true. cbn iota. do 2 (split; [done|]).
      rewrite !length_app in *. cbn [length] in *. split; [lia|]. split; [by exists k|lia].
    + eexists. split; [reflexivity|]. do 3 (split; [done|]). cbn [fst snd]. rewrite kept_snoc, Eb. eauto.
  - split; [done|]. split; [done|]. split; [apply length_replicate|]. split; [|done]. by exists (replicate 1024 0).
  - done.
  - done.
  - cbn [fst snd] in *. subst buf pos. specialize (Hk t). destruct k as [|z k].
    { rewrite app_nil_r in Hb. lia. }
    cbn [mbind option_bind]. rewrite wr_end. cbn [mbind option_bind]. rewrite <- app_assoc. apply mapM_prefix.
Qed.

(** ** Formats and what they mean *)

(** A format is a list of characters and directives, each with its argument. *)
Inductive item :=
  | Lit (c : Z)
  | Pct
  | Num (zero : bool) (width mode c a : Z)
  | Str (a : Z) (l : list Z)
  | Chr (a : Z).

Definition mode_chars (mode : Z) : list Z :=
  if mode =? 1 then [108] else if mode =? 2 then [108; 108] else if mode =? 3 then [122] else [].

Definition width_chars (width : Z) : list Z := if width =? 0 then [] else numeral 10 false width.

(** As it stands in the format string. *)
Definition fmt_of (i : item) : list Z :=
  match i with
  | Lit c => [c]
  | Pct => [37; 37]
  | Num zero width mode c _ => 37 :: (if zero then [48] else []) ++ width_chars width ++ mode_chars mode ++ [c]
  | Str _ _ => [37; 115]
  | Chr _ => [37; 99]
  end.

Definition args_of (i : item) : list Z :=
  match i with Num _ _ _ _ a => [a] | Str a _ => [a] | Chr a => [a] | _ => [] end.

(** What it writes. *)
Definition out_of (i : item) : list Z :=
  match i with
  | Lit c => [c]
  | Pct => [37]
  | Num zero width mode c a => let t := number_text c mode a in padding width zero t ++ t
  | Str a l => if c_true a then l else [40; 110; 117; 108; 108; 41]
  | Chr a => [u8 a]
  end.

Definition item_ok (m : mem) (i : item) : Prop :=
  match i with
  | Lit c => c <> 0 /\ c <> 37
  | Num _ width mode c a =>
      0 <= width <= 2147483647 /\ 0 <= mode <= 3 /\
      (c = 100 \/ c = 117 \/ c = 111 \/ c = 120 \/ c = 88 \/ c = 112) /\
      (c = 100 -> (if c_true mode then s64 a else s32 a) <> I64_MIN)
  | Str a l => a = 0 \/ cstr m a l
  | _ => True
  end.

(** Reading a numeral gives the number. *)
Lemma number_numeral v r : 0 <= v < 10 ^ 64 -> (match r with c :: _ => digit c = false | [] => True end) ->
  number 0 (numeral 10 false v ++ r) = v.
Proof.
  intros Hv Hr. assert (N : forall ds n, Forall (fun d => 0 <= d < 10) ds ->
    number n ((glyph false <$> ds) ++ r) = fold_left (fun r d => r * 10 + d) ds n).
  { induction ds as [|d ds IH]; intros n F.
    - cbn. destruct r as [|c r]; [done|]. cbn [number]. by rewrite Hr.
    - apply list.Forall_cons in F as [Hd F]. cbn [fmap list_fmap app number fold_left]. rewrite glyph_10 by done.
      unfold digit. rewrite (proj2 (Z.leb_le 48 _)), (proj2 (Z.leb_le _ 57)) by lia. cbn [andb].
      rewrite IH by done. f_equal. lia. }
  unfold numeral. rewrite N by (apply digits_range; lia). apply (eval_digits 64 10); [lia|]. done.
Qed.

Lemma width_loop_eq m ds r : forall k fmt n, cstr m fmt (ds ++ r) -> Forall (fun c => digit c = true) ds ->
  (match r with c :: _ => digit c = false | [] => True end) -> 0 <= n -> number n ds <= 2147483647 -> (length ds < k)%nat ->
  width_loop k m fmt n = Some (number n ds, fmt + Z.of_nat (length ds)).
Proof.
  induction ds as [|c ds IH]; intros k fmt n H F Hr Hn Hmax Hk; (destruct k as [|k]; [cbn in Hk; lia|]); cbn [width_loop app number length] in *.
  - destruct r as [|c r]; cbn [cstr] in H.
    + rewrite H. cbn. do 2 f_equal. lia.
    + destruct H as (-> & _ & _). cbn [mbind option_bind]. unfold digit in Hr. rewrite Hr. do 2 f_equal. lia.
  - apply list.Forall_cons in F as [Hc F]. destruct H as (-> & _ & H). cbn [mbind option_bind]. rewrite Hc in *.
    unfold digit in Hc. rewrite Hc. reflect. cbv zeta.
    rewrite (proj2 (Z.leb_le _ 2147483647)) by (pose proof (number_mono (n * 10 + (c - 48)) ds ltac:(lia)); lia).
    rewrite IH by (done || lia). do 2 f_equal. lia.
Qed.

Lemma width_chars_ok width : 0 <= width <= 2147483647 ->
  Forall (fun c => digit c = true) (width_chars width) /\ number 0 (width_chars width) = width /\
  (match width_chars width with c :: _ => c <> 48 | [] => True end) /\ Forall (fun c => c <> 0) (width_chars width).
Proof.
  intros Hw. unfold width_chars. destruct (Z.eqb_spec width 0) as [->|Hz]; [by repeat split|].
  assert (F : Forall (fun d => 0 <= d < 10) (digits 64 10 width)) by (apply digits_range; lia).
  assert (Hp : width < 10 ^ 64) by (assert (2147483647 < 10 ^ 64) by (by vm_compute); lia).
  split; [|split; [|split]].
  - unfold numeral. apply Forall_fmap. apply (list.Forall_impl _ _ _ F). intros d Hd. cbn. rewrite glyph_10 by done.
    unfold digit. rewrite (proj2 (Z.leb_le 48 _)), (proj2 (Z.leb_le _ 57)) by lia. done.
  - pose proof (number_numeral width [] ltac:(lia) I) as H. by rewrite app_nil_r in H.
  - unfold numeral. destruct (digits_head 64 10 width ltac:(lia)) as (d & ds & Ed & Hd); [change (Z.of_nat 64) with 64; lia|].
    rewrite Ed in *. cbn. apply list.Forall_cons in F as [F _]. rewrite glyph_10 by done. lia.
  - unfold numeral. apply Forall_fmap. apply (list.Forall_impl _ _ _ F). intros d Hd. cbn. rewrite glyph_10 by done. lia.
Qed.

Lemma length_mode_eq m fmt mode c r : cstr m fmt (mode_chars mode ++ c :: r) -> 0 <= mode <= 3 -> c <> 108 -> c <> 122 ->
  length_mode m fmt = Some (mode, fmt + Z.of_nat (length (mode_chars mode))).
Proof.
  intros H Hm H1 H2. unfold length_mode, mode_chars in *.
  destruct (Z.eqb_spec mode 1) as [->|]; [|destruct (Z.eqb_spec mode 2) as [->|]; [|destruct (Z.eqb_spec mode 3) as [->|]]]; cbn [app cstr length] in *.
  - destruct H as (-> & _ & -> & _). cbn. by rewrite (proj2 (Z.eqb_neq c 108)).
  - destruct H as (-> & _ & -> & _). done.
  - destruct H as (-> & _). done.
  - destruct H as (-> & _). cbn [mbind option_bind]. rewrite (proj2 (Z.eqb_neq c 122)), (proj2 (Z.eqb_neq c 108)) by done.
    do 2 f_equal; lia.
Qed.

Lemma is_number_chars c : is_number c = true -> c <> 0 /\ c <> 37 /\ c <> 48 /\ c <> 108 /\ c <> 122 /\ digit c = false.
Proof.
  unfold is_number, digit. intros H. repeat (apply orb_prop in H as [H|H]); apply Z.eqb_eq in H; subst c; done.
Qed.

(** The next character after a percent sign that is not a zero flag. *)
Lemma after_flag (zero : bool) width mode c r : 0 <= width <= 2147483647 -> is_number c = true ->
  exists c1 r1, (if zero then [48] else []) ++ width_chars width ++ mode_chars mode ++ c :: r = c1 :: r1 /\
    (c1 =? 48) = zero.
Proof.
  intros Hw Hc. destruct zero; [do 2 eexists; split; reflexivity|]. cbn [app].
  destruct (width_chars_ok width Hw) as (_ & _ & Hh & _). apply is_number_chars in Hc as (_ & _ & H48 & _).
  destruct (width_chars width) as [|x l]; cbn [app].
  - unfold mode_chars. destruct (mode =? 1); [do 2 eexists; split; reflexivity|]. destruct (mode =? 2); [do 2 eexists; split; reflexivity|].
    destruct (mode =? 3); [do 2 eexists; split; reflexivity|]. do 2 eexists. split; [reflexivity|]. by apply Z.eqb_neq.
  - do 2 eexists. split; [reflexivity|]. by apply Z.eqb_neq.
Qed.

Lemma cstr_app m a l k : cstr m a (l ++ k) -> cstr m (a + Z.of_nat (length l)) k.
Proof.
  intros H. rewrite <- (drop_app_length l k). apply cstr_drop; [done|]. rewrite length_app. lia.
Qed.

Lemma text_number m t zero width mode c a args k fmt r : cstr m fmt (fmt_of (Num zero width mode c a) ++ r) ->
  item_ok m (Num zero width mode c a) ->
  do_format fst text_putc (S k) fmt (a :: args) (m, t) =
  do_format fst text_putc k (fmt + Z.of_nat (length (fmt_of (Num zero width mode c a)))) args
    (m, t ++ out_of (Num zero width mode c a)).
Proof.
  intros H (Hw & Hm & Hcs & Hmin). assert (is_number c = true) as Hc by (by repeat destruct Hcs as [->|Hcs]; subst).
  pose proof (is_number_chars c Hc) as (Hc0 & Hc37 & Hc48 & Hc108 & Hc122 & Hdig).
  cbn [fmt_of app] in H. rewrite <- !app_assoc in H. cbn [app] in H. pose proof H as (E37 & _ & H1).
  cbn [do_format fst]. rewrite E37. cbn [mbind option_bind]. change (negb (c_true 37)) with false. change (negb (37 =? 37)) with false.
  cbn iota. destruct (after_flag zero width mode c r Hw Hc) as (c1 & r1 & E1 & Ez).
  rewrite E1 in H1. pose proof H1 as (-> & _ & _). cbn [mbind option_bind]. rewrite Ez. rewrite <- E1 in H1.
  apply cstr_app in H1.
  replace (if zero then (true, fmt + 1 + 1) else (false, fmt + 1)) with
    (zero, fmt + 1 + Z.of_nat (length (if zero then [48] else []))) by (destruct zero; cbn; f_equal; lia).
  set (f1 := fmt + 1 + Z.of_nat (length (if zero then [48] else []))) in *.
  destruct (width_chars_ok width Hw) as (Wd & Wn & _ & _).
  rewrite (width_loop_eq m (width_chars width) (mode_chars mode ++ c :: r)); [|done|done| |lia|lia|].
  2:{ unfold mode_chars. destruct (mode =? 1); [done|]. destruct (mode =? 2); [done|]. by destruct (mode =? 3). }
  2:{ apply cstr_steps in H1. rewrite length_app in H1. lia. }
  rewrite Wn. cbn [mbind option_bind]. apply cstr_app in H1.
  rewrite (length_mode_eq m _ mode c r) by done. cbn [mbind option_bind]. apply cstr_app in H1. pose proof H1 as (-> & _ & _).
  cbn [mbind option_bind]. rewrite Hc.
  destruct (convert_eq c mode a args Hc Hmin) as (b & -> & Hb & Hl). cbn [mbind option_bind].
  assert (Hp : (0 < length (number_text c mode a))%nat).
  { unfold number_text. assert (P : forall base up v, (0 < length (numeral base up v))%nat).
    { intros base up v. unfold numeral. rewrite length_fmap. change 64%nat with (S 63). cbn [digits]. rewrite length_app. cbn. lia. }
    destruct (c =? 100); [destruct (_ <? 0); [cbn; lia|apply P]|]. destruct (c =? 117); [apply P|]. destruct (c =? 111); [apply P|].
    destruct (c =? 120); [apply P|]. destruct (c =? 88); [apply P|]. cbn. lia. }
  rewrite put_number_eq by (done || lia). rewrite text_put_all. cbn [mbind option_bind out_of]. cbv zeta.
  f_equal. subst f1. cbn [fmt_of length]. rewrite !length_app. cbn [length]. lia.
Qed.

(** A conversion without flag, width and length that is not a number. *)
Lemma text_direct m t c k fmt args r : cstr m fmt (37 :: c :: r) -> digit c = false -> c <> 108 -> c <> 122 ->
  is_number c = false ->
  do_format fst text_putc (S k) fmt args (m, t) =
  '(st, args) ← put_direct fst text_putc c args (m, t); do_format fst text_putc k (fmt + 2) args st.
Proof.
  intros (E37 & _ & H) Hd H1 H2 Hn. pose proof H as (Ec & _ & _). cbn [do_format fst]. rewrite E37. cbn [mbind option_bind].
  change (negb (c_true 37)) with false. change (negb (37 =? 37)) with false. cbn iota. rewrite Ec. cbn [mbind option_bind].
  destruct (Z.eqb_spec c 48) as [->|]; [done|].
  rewrite (width_loop_eq m [] (c :: r)); [|done|constructor|done|lia|cbn; lia|unfold steps; cbn; lia].
  cbn [number length mbind option_bind]. rewrite Z.add_0_r, (length_mode_eq m _ 0 c r) by (done || lia).
  cbn [mbind option_bind mode_chars length]. change (Z.of_nat (length (mode_chars 0))) with 0. rewrite Z.add_0_r, Ec. cbn [mbind option_bind].
  rewrite Hn. by replace (fmt + 1 + 1) with (fmt + 2) by lia.
Qed.

(** A format writes what its items mean. *)
Lemma format_items m its : forall k fmt t, Forall (item_ok m) its -> cstr m fmt (concat (fmt_of <$> its)) ->
  (length (concat (fmt_of <$> its)) < k)%nat ->
  do_format fst text_putc k fmt (concat (args_of <$> its)) (m, t) = Some (m, t ++ concat (out_of <$> its)).
Proof.
  induction its as [|i its IH]; intros k fmt t F H Hk; (destruct k as [|k]; [cbn in Hk; lia|]).
  - cbn in *. rewrite H. cbn. by rewrite app_nil_r.
  - apply list.Forall_cons in F as [Hi F]. cbn [fmap list_fmap concat] in *. rewrite length_app in Hk. rewrite app_assoc.
    pose proof (cstr_app _ _ _ _ H) as Hr.
    assert (Hgo : forall t', (1 <= length (fmt_of i))%nat ->
      do_format fst text_putc k (fmt + Z.of_nat (length (fmt_of i))) (concat (args_of <$> its)) (m, t') =
        Some (m, t' ++ concat (out_of <$> its))) by (intros t' Hi1; apply IH; [done|done|lia]).
    destruct i as [c| |zero width mode c a|a l|a].
    + cbn in Hi. destruct Hi as [H0 H37]. cbn [fmt_of app cstr] in H. destruct H as (E & _ & _). cbn [do_format fst].
      rewrite E. cbn [mbind option_bind]. rewrite (c_true_ne c H0), (proj2 (Z.eqb_neq c 37) H37). cbn [negb].
      cbn [text_putc mbind option_bind fst snd args_of app]. apply Hgo. cbn. lia.
    + rewrite (text_direct m t 37 k fmt _ _ H) by done. cbn [put_direct text_putc mbind option_bind fst snd args_of app].
      apply Hgo. cbn. lia.
    + cbn [args_of app]. rewrite (text_number m t zero width mode c a _ k fmt _ H Hi). apply Hgo. cbn. lia.
    + rewrite (text_direct m t 115 k fmt _ _ H) by done. cbn [args_of app]. unfold put_direct.
      change (115 =? 115) with true. cbn [va_arg mbind option_bind out_of fst]. cbn in Hi.
      destruct (c_true a) eqn:Ea.
      * destruct Hi as [->|Hi]; [done|]. rewrite (text_put_string l) by (done || by apply cstr_steps in Hi).
        cbn [mbind option_bind]. apply Hgo. cbn. lia.
      * rewrite text_put_all. cbn [mbind option_bind]. apply Hgo. cbn. lia.
    + rewrite (text_direct m t 99 k fmt _ _ H) by done. cbn [args_of app]. unfold put_direct.
      change (99 =? 115) with false. change (99 =? 99) with true.
      cbn [va_arg mbind option_bind out_of fst snd text_putc]. apply Hgo. cbn. lia.
Qed.

Lemma text_items m fmt its : Forall (item_ok m) its -> cstr m fmt (concat (fmt_of <$> its)) ->
  text m fmt (concat (args_of <$> its)) = Some (concat (out_of <$> its)).
Proof.
  intros F H. unfold text. rewrite format_items; [done|done|done|]. by apply cstr_steps in H.
Qed.
