(* ===== verification/LibClaims.v ===== *)
(** * Strings, blocks of memory and formatted output: the theorems

    What the kernel's string library and its printf promise, with examples on a
    concrete memory, and what they do where the promise ends. *)

From stdpp Require Import gmap.
From S2P Require Import Prelude Memory CString CStringTheory Printf PrintfTheory.

(** C37: memset, which fills up to a word boundary, by blocks of 64 bytes, by
    words and by bytes, is one write of [n] equal bytes, and memmove and memcpy,
    with the same steps, are one copy of the [n] bytes at the source: memmove
    for every overlap, memcpy unless the target begins inside the source.  No
    other byte changes and none outside the two ranges is read. *)
Theorem block_ops_exact m d s c n l :
  bytewise m -> 0 <= n -> bytes m s (Z.to_nat n) = Some l -> mapped m d n ->
  memset m d c n = Some (upd m d (replicate (Z.to_nat n) (u8 c)), d) /\
  memmove m d s n = Some (upd m d l, d) /\
  (d <= s \/ s + n <= d -> memcpy m d s n = Some (upd m d l, d)).
Proof.
  intros Hw Hn Hb Hd. split; [by apply memset_eq|]. split; [by apply memmove_eq|]. by apply memcpy_eq.
Qed.

(** strlen, strcmp, strncmp, strchr, strrchr and strstr read no byte behind
    the terminators and answer as functions of the character lists: the length;
    0 exactly for equal strings (up to [n] characters) and the sign of the first
    difference; the first and the last place of a character, and the first place
    of a substring, NULL without one. *)
Theorem string_queries_exact m s p l k c n :
  bytewise m -> cstr m s l -> cstr m p k -> 0 <= n ->
  strlen m s = Some (Z.of_nat (length l)) /\
  (exists r, strcmp m s p = Some r /\ (r = 0 <-> l = k) /\
     (r < 0 <-> (exists y t, k = l ++ y :: t) \/
        exists q x y t1 t2, l = q ++ x :: t1 /\ k = q ++ y :: t2 /\ x < y)) /\
  (exists r, strncmp m s p n = Some r /\ (r = 0 <-> take (Z.to_nat n) l = take (Z.to_nat n) k)) /\
  strchr m s c = Some (ptr s (find_at (fun b => b =? u8 c) l)) /\
  strrchr m s c = Some (ptr s (find_last (fun b => b =? u8 c) l)) /\
  strstr m s p = Some (if decide (k = []) then s else ptr s (find_sub k l)).
Proof.
  intros Hw Hl Hk Hn. pose proof Hl as [_ Fl]%cstr_bytes. pose proof Hk as [_ Fk]%cstr_bytes.
  split; [by apply strlen_eq|]. split; [|split; [|split; [|split]]].
  - eexists. split; [by apply strcmp_eq|]. split; [by apply cmp_0|].
    apply cmp_neg; [by apply (cstr_in_u8 m s)|by apply (cstr_in_u8 m p)|done].
  - eexists. split; [by apply strncmp_eq|]. apply cmp_0; by apply Forall_take.
  - by apply strchr_eq.
  - by apply strrchr_eq.
  - by apply strstr_eq.
Qed.

(** C38: calling strtok_r with a string and then with NULL until it returns NULL
    gives, in order, the maximal runs of characters that are not delimiters,
    each a terminated string in the end, whatever the delimiters are and however
    they repeat; only the string itself changes. *)
Theorem strtok_r_tokens m str delim l dl save :
  bytewise m -> 0 < str -> 0 < delim -> cstr m str l -> cstr m delim dl ->
  (delim + Z.of_nat (length dl) < str \/ str + Z.of_nat (length l) < delim) ->
  exists m' toks, strtok_all (length l + 2) m str delim save = Some (m', toks) /\
    Forall2 (cstr m') toks (split dl [] l) /\
    forall x, ~ (str <= x < str + Z.of_nat (length l)) -> m' !! x = m !! x.
Proof. intros Hw Hs Hd Hl Hdl Hdis. apply (strtok_all_eq dl); try done; [by left|lia]. Qed.

(** C39: vsnprintf writes, for a format given as a list of items (characters,
    percent signs, signed, unsigned, octal, hexadecimal and pointer conversions
    with zero flag, width and length, strings, characters), the first
    [size - 1] characters of the texts of the items and a terminator, into the
    buffer and nowhere else, and returns how many it wrote, which is always less
    than the size; vprintf sends the first 1023 characters of the same text to
    the console.  A %ld or %lld of the smallest long is not among the items: the
    source negates it, which is undefined.  The digits of a numeral are those
    of the table [glyphs]. *)
Theorem vsnprintf_exact m out size fmt its :
  0 < size < 2147483648 -> mapped m out size ->
  cstr (outside m out size) fmt (concat (fmt_of <$> its)) -> Forall (item_ok (outside m out size)) its ->
  let t := take (Z.to_nat (size - 1)) (concat (out_of <$> its)) in
  vsnprintf m out size fmt (concat (args_of <$> its)) = Some (upd m out (t ++ [0]), Z.of_nat (length t)) /\
  Z.of_nat (length t) < size /\
  vprintf (outside m out size) fmt (concat (args_of <$> its)) = Some (take 1023 (concat (out_of <$> its))).
Proof.
  intros Hs Hm Hf Ho t. pose proof (text_items _ _ _ Ho Hf) as Ht.
  rewrite (vsnprintf_eq m out size fmt _ _ ltac:(lia) Hm Ht), (proj2 (Z.ltb_lt 0 size)) by lia.
  split; [done|]. split; [subst t; rewrite length_take; lia|]. exact (vprintf_eq _ _ _ _ Ht).
Qed.

Lemma digits_small d : 0 <= d < 10 -> digit (glyph false d) = true /\ blank (glyph false d) = false /\
  glyph false d <> 45 /\ glyph false d <> 43 /\ glyph false d <> 0.
Proof.
  intros H. rewrite glyph_10 by done. unfold digit, blank.
  rewrite (proj2 (Z.leb_le 48 _)), (proj2 (Z.leb_le _ 57)), (proj2 (Z.eqb_neq _ 32)), (proj2 (Z.eqb_neq _ 9)) by lia.
  split; [done|]. split; [done|lia].
Qed.

(** The numeral of an int, read by [ato]. *)
Lemma signed_text v : -2147483647 <= v <= 2147483647 -> let t := number_text 100 0 v in
  Forall (fun c => c <> 0) t /\ (length t <= 23)%nat /\
  (let '(sign, ds) := signed (skip t) in sign * number 0 ds = v /\ number 0 ds <= 2147483647).
Proof.
  intros Hv t. subst t. unfold number_text. change (100 =? 100) with true. change (c_true 0) with false. cbn iota. cbv zeta.
  rewrite s32_small by lia.
  assert (N : forall u, 0 <= u <= 2147483647 -> exists c r, numeral 10 false u = c :: r /\ blank c = false /\ c <> 45 /\ c <> 43 /\
    Forall (fun c => c <> 0) (c :: r) /\ (length (c :: r) <= 22)%nat /\ number 0 (c :: r) = u).
  { intros u Hu. assert (Hp : 2147483647 < 10 ^ 64) by (by vm_compute).
    pose proof (numeral_length 10 false u ltac:(lia) ltac:(unfold in_u64; lia)) as Hl.
    pose proof (number_numeral u [] ltac:(lia) I) as Hn. rewrite app_nil_r in Hn. unfold numeral in *.
    pose proof (digits_range 64 10 u ltac:(lia) ltac:(lia)) as F.
    destruct (digits 64 10 u) as [|d ds]; [cbn in Hl; lia|]. cbn [fmap list_fmap] in *.
    exists (glyph false d), (glyph false <$> ds).
    pose proof F as [Hd _]%list.Forall_cons. destruct (digits_small d Hd) as (_ & H2 & H3 & H4 & _).
    do 4 (split; [done|]). split; [|split; [apply Hl|done]].
    change (Forall (fun c => c <> 0) (glyph false <$> (d :: ds))). apply Forall_fmap.
    apply (list.Forall_impl _ _ _ F). intros x Hx. by apply digits_small. }
  destruct (Z.ltb_spec v 0).
  - destruct (N (- v) ltac:(lia)) as (c & r & -> & _ & _ & _ & F & Hl & E).
    split; [by constructor|]. split; [cbn in *; lia|].
    change (skip (45 :: c :: r)) with (45 :: c :: r). change (signed (45 :: c :: r)) with (-1, c :: r). cbn iota beta. lia.
  - destruct (N v ltac:(lia)) as (c & r & -> & Hb & H45 & H43 & F & Hl & E).
    split; [done|]. split; [lia|]. cbn [skip]. rewrite Hb. cbn [signed].
    rewrite (proj2 (Z.eqb_neq c 45) H45), (proj2 (Z.eqb_neq c 43) H43). lia.
Qed.

(** C40: an int printed with %d into a buffer of at least 24 bytes and read back
    with atoi is the same int, for every int but the smallest. *)
Theorem printf_atoi_roundtrip m out size fmt v :
  24 <= size < 2147483648 -> mapped m out size -> cstr (outside m out size) fmt [37; 100] ->
  -2147483647 <= v <= 2147483647 ->
  exists m' n, vsnprintf m out size fmt [v] = Some (m', n) /\ atoi m' out = Some v.
Proof.
  intros Hs Hm Hf Hv. destruct (signed_text v Hv) as (F & Hl & Hp). cbv zeta in *.
  pose proof (text_items (outside m out size) fmt [Num false 0 0 100 v]) as Ht.
  rewrite (vsnprintf_eq m out size fmt [v] (number_text 100 0 v) ltac:(lia) Hm).
  - eexists _, _. split; [reflexivity|]. rewrite (proj2 (Z.ltb_lt 0 size)) by lia.
    unfold kept. rewrite take_ge by lia. unfold atoi. rewrite (ato_eq _ _ _ (number_text 100 0 v)); [|by apply cstr_upd|lia].
    destruct (signed (skip (number_text 100 0 v))) as [sg ds]. destruct Hp as [E Hle].
    rewrite (proj2 (Z.leb_le _ 2147483647) Hle). by rewrite E.
  - cbn [fmap list_fmap concat args_of out_of fmt_of app] in Ht. rewrite !app_nil_r in Ht.
    assert (Hz : padding 0 false (number_text 100 0 v) = []) by
      (unfold padding; replace (Z.to_nat (0 - _)) with 0%nat by lia; done).
    rewrite Hz in Ht. apply Ht; [|exact Hf].
    constructor; [|constructor]. cbn. split; [lia|]. split; [lia|]. split; [by left|]. intros _. unfold I64_MIN.
    rewrite s32_small by lia. lia.
Qed.

(** ** On a concrete memory *)

(** A memory with two strings, ["a,,bc"] at 100 and [",;"] at 200, the format
    ["%d"] at 300, and 24 free bytes at 400. *)
Definition demo_bytes : mem :=
  upd (upd (upd (upd ∅ 100 [97; 44; 44; 98; 99; 0]) 200 [44; 59; 0]) 300 [37; 100; 0]) 400 (replicate 24 7).

Lemma demo_bytewise : bytewise demo_bytes.
Proof.
  unfold demo_bytes. repeat apply bytewise_upd; [by intros a b H|..]; repeat constructor; unfold in_u8; lia.
Qed.

Lemma demo_room : mapped demo_bytes 400 24.
Proof.
  intros x Hx. unfold demo_bytes. rewrite upd_in by (cbn; lia). apply lookup_lt_is_Some. cbn. lia.
Qed.

Lemma demo_strings : cstr demo_bytes 100 [97; 44; 44; 98; 99] /\ cstr demo_bytes 200 [44; 59] /\
  cstr (outside demo_bytes 400 24) 300 [37; 100].
Proof.
  split; [|split]; apply cstr_bytes; (split; [by vm_compute|]); repeat constructor; lia.
Qed.

Lemma block_ops_witness : memmove demo_bytes 103 101 3 = Some (upd demo_bytes 103 [44; 44; 98], 103).
Proof.
  apply (block_ops_exact demo_bytes 103 101 0 3 [44; 44; 98]); [exact demo_bytewise|lia|by vm_compute|].
  intros x Hx. assert (x = 103 \/ x = 104 \/ x = 105) as [-> | [-> | ->]] by lia; by eexists; vm_compute.
Defined.

Lemma string_queries_witness : strrchr demo_bytes 100 44 = Some 102 /\ strlen demo_bytes 100 = Some 5.
Proof.
  pose proof (string_queries_exact demo_bytes 100 200 [97; 44; 44; 98; 99] [44; 59] 44 2 demo_bytewise
    (proj1 demo_strings) (proj1 (proj2 demo_strings)) ltac:(lia)) as (H1 & _ & _ & _ & H2 & _).
  split; [exact H2|exact H1].
Defined.

Lemma strtok_r_witness : exists m' toks, strtok_all 7 demo_bytes 100 200 0 = Some (m', toks) /\
  Forall2 (cstr m') toks [[97]; [98; 99]].
Proof.
  destruct (strtok_r_tokens demo_bytes 100 200 [97; 44; 44; 98; 99] [44; 59] 0 demo_bytewise ltac:(lia) ltac:(lia)
    (proj1 demo_strings) (proj1 (proj2 demo_strings)) ltac:(cbn; lia)) as (m' & toks & H1 & H2 & _).
  exists m', toks. exact (conj H1 H2).
Defined.

Lemma vsnprintf_witness : exists m', vsnprintf demo_bytes 400 3 300 [1234] = Some (m', 2).
Proof.
  destruct (vsnprintf_exact demo_bytes 400 3 300 [Num false 0 0 100 1234]) as (H & _); [lia|..].
  - intros x Hx. apply demo_room. lia.
  - apply cstr_bytes. split; [by vm_compute|repeat constructor; lia].
  - constructor; [|constructor]. cbn. split; [lia|]. split; [lia|]. split; [by left|]. by intros _.
  - eexists. exact H.
Defined.

Lemma printf_atoi_witness : exists m' n, vsnprintf demo_bytes 400 24 300 [-42] = Some (m', n) /\ atoi m' 400 = Some (-42).
Proof.
  apply (printf_atoi_roundtrip demo_bytes 400 24 300 (-42)); [lia|exact demo_room|apply demo_strings|lia].
Defined.

(** ** Where the routines leave the standard *)

(** A format that ends in a percent sign: the conversion letter is the
    terminator, it is printed, and the scan goes on behind it. *)
Example format_runs_past_end :
  vprintf (upd ∅ 300 [37; 0; 65; 0]) 300 [] = Some [37; 0; 65] /\ vprintf (upd ∅ 300 [37; 0]) 300 [] = None.
Proof. split; by vm_compute. Qed.

(** The smallest long is negated before it is printed. *)
Example printf_smallest_long : vprintf (upd ∅ 300 [37; 108; 100; 0]) 300 [- 2 ^ 63] = None.
Proof. by vm_compute. Qed.

(** ["-2147483648"] is a correct int whose magnitude does not fit one. *)
Example atoi_smallest_int : atoi (upd ∅ 300 [45; 50; 49; 52; 55; 52; 56; 51; 54; 52; 56; 0]) 300 = None.
Proof. by vm_compute. Qed.

(** Zero padding of a negative number pads with spaces: %05d of -42. *)
Example zero_pad_negative : vprintf (upd ∅ 300 [37; 48; 53; 100; 0]) 300 [-42] = Some [32; 32; 45; 52; 50].
Proof. by vm_compute. Qed.

(** The terminator of a string is never found. *)
Lemma strchr_no_terminator m s l : bytewise m -> cstr m s l -> strchr m s 0 = Some 0 /\ strrchr m s 0 = Some 0.
Proof.
  intros Hw H. pose proof H as [_ F]%cstr_bytes. rewrite (strchr_eq m s 0 l), (strrchr_eq m s 0 l) by done.
  change (u8 0) with 0. clear H.
  assert (find_at (fun b => b =? 0) l = None /\ find_last (fun b => b =? 0) l = None) as [-> ->]; [|done].
  induction F as [|b l Hb F [E1 E2]]; [done|]. cbn [find_at find_last]. by rewrite E1, E2, (proj2 (Z.eqb_neq b 0) Hb).
Qed.
